(* ===== verification/_CoqProject ===== *)
-Q . S2P
Prelude.v
Dict.v
KVSpec.v
KVConfig.v
KVEstimate.v
KVGroups.v
KVTensors.v
KVPages.v
KVWorkers.v
Request.v
StopCheck.v
Heapq.v
RequestQueue.v
DsaPool.v
DsaAlloc.v
DsaLogical.v
BlockHash.v
FreeQueue.v
BlockMap.v
BlockPool.v
PoolInv.v
PoolCache.v
PoolSteps.v
Manager.v
ManagerInv.v
ManagerSteps.v
CacheHit.v
Coordinator.v
KVCacheManager.v
HitSpecs.v
HybridHit.v
CoordinatorInv.v
AllocateSlots.v
KVSteps.v
Admission.v
Offload.v
OffloadInv.v
OffloadLru.v
OffloadArc.v
OffloadFilter.v
Scheduler.v
SchedulerInv.v
SchedulerStep.v
SchedulerWait.v
SchedulerMain.v
SchedulerLive.v
SchedulerUpdate.v
SchedulerFinish.v
SchedulerCalls.v
SchedulerKV.v
SchedulerSteps.v
KVCapacity.v
AsyncScheduler.v
AsyncUpdate.v
AsyncSteps.v
Detokenizer.v
DetokSpecs.v
Outputs.v
ParallelSampling.v
OutputProcessor.v
OutputInv.v
OutputSteps.v
OutputStream.v
BlockTable.v
SlotMapping.v
InputBatch.v
LogitsUpdate.v
InputBatchInv.v
BatchOps.v
BatchMoves.v
WorkerRunner.v
BatchReorder.v
WorkerStates.v
WorkerInit.v
PrepareInputs.v
InputLayout.v
InputsExact.v
WorkerSample.v
WorkerStep.v
WorkerRuns.v
