(* ===== verification/Prelude.v ===== *)
(** * The core of vLLM: requests, the KV cache, the scheduler, the worker's batch and the output path

    ** The program

    The engine core keeps a table of requests and runs one loop: the scheduler picks requests
    and a number of tokens for each ([Scheduler.schedule]), the workers run the model, and the
    sampled tokens come back ([Scheduler.update_from_output]). A token needs a slot in a block
    of the KV cache in every group of layers. [KVCacheManager] looks up the longest prefix of a
    new request that is already cached, and allocates, caches and frees blocks through a
    coordinator, which has one manager per group of layers; the managers keep a block table
    per request and share one [BlockPool], where unreferenced blocks stay cached in the order
    in which they will be evicted. Blocks are found by a chain of hashes over the tokens.
    A worker keeps the requests it was sent and a persistent batch of arrays with one row per
    request: for every output of the scheduler it updates both ([_update_states]), computes
    from the rows what the model reads and where it writes ([_prepare_inputs]), and records the
    sampled tokens ([_bookkeeping_sync]).
    Beside this core the repository has a second pool for sparse attention (the DSA shared
    pool) and managers that offload blocks to host memory. The front end turns the tokens that
    the engine core returns into text: [OutputProcessor] keeps a state per request, detokenizes
    incrementally, finds stop strings, puts the samples of parallel requests together and hands
    outputs to the callers. All of it is Python under src/vllm/v1; the paths below are relative
    to that directory.

    ** Files

    Shared
    - [Prelude]: exceptions, the state-and-exception monad [M] in which every operation is
      written, its weakest precondition [wp] with the tactics that run programs in it,
      loops, Python lists and slices.
    - [Dict]: insertion-ordered dictionaries.

    Requests and queues
    - [Request]: request.py, the record and its token lists.
    - [StopCheck]: core/sched/utils.py, repetition detection, [remove_all], [check_stop].
    - [Heapq], [RequestQueue]: core/sched/request_queue.py. The abstract queue is the class
      [RequestQueue] with the laws [RequestQueueLaws]; deque and heap are instances.

    Blocks
    - [BlockHash]: core/kv_cache_utils.py, keys, extra keys and the incremental hash chain.
    - [FreeQueue]: the doubly linked list over a store of block objects, with aliasing.
    - [BlockMap], [BlockPool]: core/block_pool.py; [PoolInv], [PoolCache], [PoolSteps] hold its
      invariant, the proofs of its operations, and its reachable states.
    - [DsaPool], [DsaAlloc], [DsaLogical]: core/dsa_shared_pool.py and the logical pools over it.

    The KV cache
    - [Manager]: core/single_type_kv_cache_manager.py, one group; [ManagerInv], [ManagerSteps].
    - [CacheHit], [HitSpecs]: the searches for the longest cached prefix and one specification
      for all of them; [HybridHit]: the search over groups of different kinds.
    - [Coordinator], [CoordinatorInv]: core/kv_cache_coordinator.py.
    - [KVCacheManager]: core/kv_cache_manager.py; [AllocateSlots], [KVSteps], [Admission].

    The layout of the KV cache
    - [KVSpec]: kv_cache_interface.py, the specs of layers and groups, their pages, the memory of
      one request and merging.
    - [KVConfig]: the second half of core/kv_cache_utils.py, from a model's layers and the free
      memory of the workers to groups, block counts and tensors.
    - [KVEstimate]: fitting the model's length; [KVGroups]: grouping; [KVTensors]: the
      tensors of a worker; [KVPages]: what grouping keeps of the page of a layer; [KVWorkers]: the
      agreement of all workers; [KVCapacity]: what the layout means for the scheduler that runs
      on it.

    Offloading
    - [Offload]: kv_offload/abstract.py, backend.py, backends/cpu.py, lru_manager.py,
      arc_manager.py, reuse_manager.py; [OffloadInv], [OffloadLru], [OffloadArc],
      [OffloadFilter] hold the proofs. [Backend] is a class, so that the managers are verified
      against what any backend promises and the CPU backend discharges it.

    The scheduler
    - [Scheduler]: core/sched/scheduler.py and output.py. The KV cache is the class [KVCache] of
      the calls the scheduler makes, the queues are [RequestQueue].
    - [SchedulerInv]: the promise [KVCachePromise] the scheduler relies on, and its invariant;
      [SchedulerStep], [SchedulerWait], [SchedulerMain]: the two loops and the whole step;
      [SchedulerUpdate], [SchedulerCalls]: the other calls; [SchedulerLive], [SchedulerFinish]:
      the progress a round makes and the requests that leave.
    - [SchedulerKV]: the KV cache manager keeps the promise. [SchedulerSteps]: the calls of the
      engine core as a step relation, and the composition of everything.
    - [AsyncScheduler]: core/sched/async_scheduler.py, which schedules a step before the answer
      to the previous one, and the invariant that relates requests to the outputs in flight,
      kept by a step; [AsyncUpdate]: kept by an answer; [AsyncSteps]: the calls of the engine
      core with at most two outputs in flight, on the KV cache manager.

    The worker
    - [BlockTable]: worker/npu_block_table.py with the numpy it uses; [SlotMapping]: rows, and
      the slots of tokens with and without context parallelism.
    - [InputBatch]: worker/input_batch.py, sample/logits_processor/state.py; [LogitsUpdate]:
      sample/logits_processor/builtin.py, the dictionaries that follow the rows.
      [InputBatchInv], [BatchOps], [BatchMoves]: the batch as a map from requests to rows.
    - [WorkerRunner]: worker/npu_runner_state.py ([_update_states]) and the reordering of
      attention/backends/utils.py; [BatchReorder], [WorkerStates] hold the proofs.
    - [PrepareInputs]: [_prepare_inputs], [_calc_spec_decode_metadata] and [_bookkeeping_sync] of
      worker/npu_model_runner.py; [InputLayout], [InputsExact], [WorkerSample] hold the proofs.
    - [WorkerInit]: worker/npu_input_batch.py at the start; [WorkerStep], [WorkerRuns]: whole
      steps and the reachable states.

    The output path
    - [Detokenizer]: engine/detokenizer.py and tokenizers/detokenizer_utils.py; the fast and the
      slow detokenizer are instances of the class [Decoder]. [DetokSpecs] holds the theory of
      stop strings and of incremental decoding.
    - [Outputs]: outputs.py of the package and the [RequestOutputCollector], with its refinement
      of a queue; [ParallelSampling]: engine/parallel_sampling.py.
    - [OutputProcessor]: engine/output_processor.py and the fan-out of engine/llm_engine.py;
      [OutputInv]: its invariant and its operations; [OutputSteps]: its reachable states and
      aborting; [OutputStream]: what one client receives.

    ** How the code is modelled

    An operation is a function of type [M S A]: from a state to a result or an exception and
    the new state, so that an exception leaves the writes made before it. Records have the
    fields of the classes, operations the names of the methods. Block objects live in a store
    indexed by block id and are shared by the tables, the free list and the map. Python integers
    are unbounded and so are they here; the reference count of an offloaded block is a C field
    and is kept at 32 bits; the adaptive target of the ARC manager is computed in binary64.
    Request objects are shared by the table and the queues: the table holds what changes,
    the queues hold the objects for what orders them, which never changes.

    The hash function of block hashes is an argument of the code and of the model; where a
    theorem needs that it has no collisions, that is a hypothesis ([collision_free],
    [deployment]), and the witnesses instantiate it with a concrete function. The grammar's token check is a
    parameter of [update_draft_token_ids] with no hypothesis. Tokenizers and their decode
    streams are third-party code: the classes [Tokenizer] and [DecodeStream] hold what the code
    calls, [TotalDecoder] says that decoding raises nothing, [window_local] what the slow
    detokenizer needs; the witnesses use a tokenizer of bytes. The model that a worker runs is a
    function from the inputs of the step to the sampled rows; [sampler_ok] says that it returns a
    row per request with at most one token more than there are drafts. Arrays of the worker are
    lists that are only read and written in range, with numpy's slices; block ids and slots are
    kept at 32 bits, sampling parameters are rounded to binary32 when they are stored in a row
    ([to_float32]), counts of tokens are not wrapped, and a generator is the seed it was made
    from. The rows of the mask of allowed tokens are views of one tensor, and the model assigns
    them in the order of the code ([swap_masks]). Python leaves the order of a set open:
    [abort_requests]
    takes the order in which it lists the children of a parent, [update_states] the order in
    which it goes through sets of requests. Parent objects and collectors
    are shared between requests and callers, so the processor's record has a store of each.

    ** Fuel

    Loops that are not structural carry fuel and return [None] or an error when it runs out.
    The bounds are those of the callers, and the theorems show that they are enough: heap
    operations use the length of the list; the running loop one more than the number of running
    requests, its allocation loop one more than the requests that can be preempted, the waiting
    loop one more than the waiting requests ([schedule_step_sound] has the step return
    an output); the fixed point over attention groups decreases the common length, and
    [hybrid_hit_exact] has it end within the fuel the coordinator passes. [abort_requests] calls
    itself on the children of a parent, which are no parents: two calls deep is enough
    ([abort_exact]). The binary search for the model's length has the length itself as fuel and
    never uses it up ([model_len_fitted] has it return). The loops of [condense] have the number
    of empty rows, and each turn takes one; a cycle of the reordering has the number of rows that
    move, and each swap puts one in its place ([reorder_splits_batch]).

    ** What is proved

    - Every reachable state of a pool, a manager, a coordinator and the KV cache manager counts
      references exactly, never hands out a block in use, and loses none ([reachable_pool_sound],
      [manager_reachable_sound], [kv_reachable_sound]); the free list refines a plain list
      ([queue_refines_list]).
    - Lookup and allocation: a hit is the longest acceptable one for specs that suit the searches
      ([search_ok]) and without EAGLE ([find_hit_exact], [hybrid_hit_exact]), the hasher gives
      equal hashes exactly to equal content up to a block ([equal_hash_equal_prefix]),
      [allocate_slots] grants exactly when the blocks fit ([allocate_slots_new],
      [allocate_slots_running]) and what a lookup returns may be allocated
      ([new_request_admission]).
    - The scheduler, over any queue and any cache that keep their promises: a step returns and
      keeps its limits, the bookkeeping holds in every reachable state, answers, aborts and
      resets leave it consistent; and with the real manager every scheduled token has a slot
      ([engine_step_sound]).
    - The asynchronous scheduler: in every reachable state placeholders are the tokens that
      answers in flight may bring, steps and answers never fail whatever happened in between
      ([async_engine_safe]), and an answer caches exactly the known tokens
      ([async_output_exact]). Forced preemption is not among these calls: it breaks the counts
      when an answer is outstanding ([reset_in_flight_fails],
      [reset_during_prompt_loses_token]).
    - Progress: with room for one request of maximal length, a round can always be made, the
      oldest running request leaves within a bound ([oldest_request_finishes]) and an idle engine
      starts a waiting request ([idle_engine_starts]).
    - The layout: hybrid models are divided into groups of one page ([hybrid_groups_exact]), the
      fitted length is the largest that fits ([model_len_fitted]), all workers agree and every
      layer has memory for all blocks of its own page, when the layers agree on what merging does
      not compare ([kv_cache_configs_sound]), and memory for one block more than the
      check asks for is, for one group of full attention, the room that progress needs
      ([checked_memory_has_room]).
    - The worker: a step does what the scheduler planned, from the requests alone
      ([worker_step_exact]), and never fails from the start on ([worker_steps_safe]); the parts
      are proved on their own: slots ([slots_exact], [cp_slots_partition]), the two ways to lay
      out tokens ([uniform_layout_same]), drafts ([drafts_exact]), and the reordering
      ([reorder_splits_batch]). A row has the sampling parameters of its request as 32-bit
      floats, and its mask of allowed tokens when the batch is never reordered.
    - Queues: each request is served once and in order, the heap is sorted by priority.
    - The output path: the incremental search for stop strings finds what a search of the whole
      text finds ([stop_strings_exact]), incremental decoding is whole decoding
      ([slow_detokenizer_exact]), the collector loses nothing ([collector_delivers]), parents
      follow the history of their children ([parent_follows_history]), the tables of the output
      processor agree in every reachable state ([front_reachable_sound]), aborting removes what
      it names ([abort_exact]), and a client receives exactly its text ([client_stream_exact]).
    - Stop checks: order of the conditions, and the repetition detector against its definition.
    - The shared pool: best-fit allocation, exact release, layout round trips and errors.
    - Offloading: ids conserved when a store names each hash once, no block in use is dropped,
      exact LRU eviction, bounded filter.
    - Behaviour that the code's comments do not promise or contradict is proved as a theorem
      about a concrete history where modelling showed it: [external_allocation_steals_hit],
      [second_full_group_not_cut], [chunked_hit_not_cached], [arc_refuses_with_idle_blocks],
      [arc_failed_store_leaks], [long_minimum_never_ends], [mm_boundary_hash_differs],
      [remove_all_single_keeps_duplicate], [cut_text_keeps_stop_string],
      [external_abort_keeps_parent], [pooling_fails_with_interval], [cumulative_ignores_interval],
      [exact_memory_never_starts], [hybrid_check_counts_one_group], [merge_ignores_value_heads],
      [uniform_test_raises], [other_kernel_size_no_slots], [stale_allowed_mask], [swap_shares_mask],
      [duplicate_store_loses_id].

    ** Not modelled

    - Scheduler: KV connectors, streaming sessions, final-hidden bootstrap, the block-aligned
      split of Mamba, pooling requests, grammar states, zeroing of new blocks, statistics,
      diagnostics; its subclasses for balancing, dynamic batches and recomputation.
    - Coordinator and manager: the DSA two-group modes and compact loads, Mamba, cross-attention
      and sink managers beyond the Mamba search; usage ratios, which are floats for reporting.
    - Layout of the KV cache: log lines and the figures computed for them; the ratio by which
      tensor code splits a sparse cache.
    - Output path: log-probabilities, statistics, tracing, LoRA states, routed experts; sessions
      with streamed input are modelled in the operations, the invariant and the reachable states
      leave them out.
    - Worker: [update_states] is modelled for all ranks and for asynchronous scheduling and
      proved for synchronous scheduling on the last rank; inputs and sampled tokens are modelled
      without context parallelism and with synchronous scheduling. Left out are the sampling
      metadata on the device, the min-p processor, padding and graphs, attention metadata, the
      drafter, encoder outputs, prompt embeddings, the offsets of generators, log-probabilities
      and the connector.
    - Metrics with clocks and random sampling, which influence no decision.
    - Executors, attention backends, models, kernels, distributed communication, entry points and
      configuration: tensor code, device and network I/O, and glue.

    ** Plan

    The connector path of the scheduler (remote loads, delayed frees, invalid blocks), streaming
    sessions, the DSA latent and Mamba managers,
    log-probabilities, and the asynchronous inputs of the worker. *)
From Stdlib Require Export ZArith Lia.
From stdpp Require Export base gmap strings numbers option.
From stdpp Require Export list.

(** * Python exceptions and effectful computations *)

(** The exception classes the modelled code raises. *)
Inductive exc :=
  | ValueError
  | RuntimeError
  | AssertionError
  | IndexError
  | KeyError
  | AttributeError
  | OverflowError
  | TypeError
  | StopIteration
  | ZeroDivisionError
  | NotImplementedError.

#[global] Instance exc_eq_dec : EqDecision exc.
Proof. solve_decision. Defined.

Inductive outcome (A : Type) :=
  | Ret (a : A)
  | Raise (e : exc).
Arguments Ret {A} a.
Arguments Raise {A} e.

#[global] Instance outcome_ret : MRet outcome := λ A a, Ret a.
#[global] Instance outcome_bind : MBind outcome := λ A B k m,
  match m with Ret a => k a | Raise e => Raise e end.

(** A method of an object with state [St]: it returns or raises, and either way
    leaves a state behind, so the state a raised exception leaves is observable. *)
Definition M (St A : Type) : Type := St → outcome A * St.

#[global] Instance M_ret St : MRet (M St) := λ A a s, (Ret a, s).
#[global] Instance M_bind St : MBind (M St) := λ A B k m s,
  match m s with
  | (Ret a, s') => k a s'
  | (Raise e, s') => (Raise e, s')
  end.

Definition raise {St A} (e : exc) : M St A := λ s, (Raise e, s).
Definition gets {St A} (f : St → A) : M St A := λ s, (Ret (f s), s).
Definition modify {St} (f : St → St) : M St unit := λ s, (Ret tt, f s).
Definition py_assert {St} (b : bool) : M St unit :=
  if b then mret tt else raise AssertionError.
Definition from_option_raise {St A} (e : exc) (o : option A) : M St A :=
  match o with Some a => mret a | None => raise e end.
Definition of_outcome {St A} (o : outcome A) : M St A := λ s, (o, s).

(** [for x in xs: body(x)]. *)
Fixpoint for_each {St A} (xs : list A) (body : A → M St unit) : M St unit :=
  match xs with
  | [] => mret tt
  | x :: xs' => body x ;; for_each xs' body
  end.

(** [for x in xs: acc = body(acc, x)]. *)
Fixpoint for_fold {St A B} (xs : list A) (acc : B) (body : B → A → M St B) : M St B :=
  match xs with
  | [] => mret acc
  | x :: xs' => acc' ← body acc x; for_fold xs' acc' body
  end.

(** Running a method of a component held in a field of a larger object. *)
Definition zoom {St T A} (get : St → T) (set : T → St → St) (m : M T A) : M St A :=
  λ s, match m (get s) with (o, t) => (o, set t s) end.

(** * Weakest preconditions *)

(** [wp m Q E s]: from [s], [m] returns [a] in a state satisfying [Q a], or raises
    [e] in a state satisfying [E e]. *)
Definition wp {St A} (m : M St A) (Q : A → St → Prop) (E : exc → St → Prop)
    (s : St) : Prop :=
  match m s with
  | (Ret a, s') => Q a s'
  | (Raise e, s') => E e s'
  end.

(** No exception is raised. *)
Definition noexc {St} : exc → St → Prop := λ _ _, False.

Section wp.
Context {St : Type}.
Implicit Types s : St.

Lemma wp_ret {A} (a : A) (Q : A → St → Prop) E s : Q a s → wp (mret a) Q E s.
Proof. done. Qed.

Lemma wp_raise {A} (e : exc) (Q : A → St → Prop) (E : exc → St → Prop) s :
  E e s → wp (raise e) Q E s.
Proof. done. Qed.

Lemma wp_bind {A B} (m : M St A) (k : A → M St B) Q E s :
  wp m (λ a, wp (k a) Q E) E s → wp (m ≫= k) Q E s.
Proof. unfold wp, mbind, M_bind. by destruct (m s) as [[a|e] s']. Qed.

Lemma wp_mono {A} (m : M St A) (Q Q' : A → St → Prop) (E E' : exc → St → Prop) s :
  wp m Q E s → (∀ a s', Q a s' → Q' a s') → (∀ e s', E e s' → E' e s') →
  wp m Q' E' s.
Proof. unfold wp. destruct (m s) as [[a|e] s']; eauto. Qed.

(** The rule of consequence for a call: the specification of [m] comes first. *)
Lemma wp_call {A} (m : M St A) (Q Q' : A → St → Prop) E s :
  wp m Q E s → (∀ a s', Q a s' → Q' a s') → wp m Q' E s.
Proof. intros H HQ. by eapply wp_mono; [exact H|exact HQ|]. Qed.

Lemma wp_gets {A} (f : St → A) (Q : A → St → Prop) E s :
  Q (f s) s → wp (gets f) Q E s.
Proof. done. Qed.

Lemma wp_modify (f : St → St) (Q : unit → St → Prop) E s :
  Q tt (f s) → wp (modify f) Q E s.
Proof. done. Qed.

Lemma wp_assert b (Q : unit → St → Prop) E s :
  b = true → Q tt s → wp (py_assert b) Q E s.
Proof. by intros ->. Qed.

(** A loop that never raises, by an invariant on what was and what remains to be
    iterated over. *)
Lemma wp_for_each {A} (I : list A → list A → St → Prop) (xs : list A)
    (body : A → M St unit) (Q : unit → St → Prop) E s :
  I [] xs s →
  (∀ done x todo s', xs = done ++ x :: todo → I done (x :: todo) s' →
     wp (body x) (λ _, I (done ++ [x]) todo) E s') →
  (∀ s', I xs [] s' → Q tt s') →
  wp (for_each xs body) Q E s.
Proof.
  intros Hinit Hbody Hexit.
  assert (∀ done todo s', xs = done ++ todo → I done todo s' →
    wp (for_each todo body) Q E s') as Hgen; last by apply (Hgen []).
  intros done todo; revert done.
  induction todo as [|x todo IH]; intros done s' -> HI; simpl.
  { apply wp_ret, Hexit. by rewrite app_nil_r. }
  apply wp_bind. eapply wp_mono; [by eapply Hbody| |done].
  intros [] s'' HI'. apply (IH (done ++ [x])); [by rewrite <-app_assoc|done].
Qed.

Lemma wp_for_fold {A B} (I : list A → B → St → Prop) (xs : list A) (b0 : B)
    (body : B → A → M St B) (Q : B → St → Prop) E s :
  I [] b0 s →
  (∀ done x todo b s', xs = done ++ x :: todo → I done b s' →
     wp (body b x) (I (done ++ [x])) E s') →
  (∀ b s', I xs b s' → Q b s') →
  wp (for_fold xs b0 body) Q E s.
Proof.
  intros Hinit Hbody Hexit.
  assert (∀ done todo b s', xs = done ++ todo → I done b s' →
    wp (for_fold todo b body) Q E s') as Hgen; last by apply (Hgen []).
  intros done todo; revert done.
  induction todo as [|x todo IH]; intros done b s' -> HI; simpl.
  { apply wp_ret, Hexit. by rewrite app_nil_r. }
  apply wp_bind. eapply wp_call; [by eapply Hbody|].
  intros b' s'' HI'. apply (IH (done ++ [x])); [by rewrite <-app_assoc|done].
Qed.

Lemma for_fold_app {A B} (xs ys : list A) (acc : B) (body : B → A → M St B) s :
  for_fold (xs ++ ys) acc body s =
    match for_fold xs acc body s with (Ret b, s') => for_fold ys b body s' | (Raise e, s') => (Raise e, s') end.
Proof.
  revert acc s. induction xs as [|x xs IH]; intros acc s; [done|]. simpl. unfold mbind, M_bind.
  by destruct (body acc x s) as [[b|e] s'].
Qed.

Lemma wp_of_outcome {A} (o : outcome A) a (Q : A → St → Prop) E s :
  o = Ret a → Q a s → wp (of_outcome o) Q E s.
Proof. by intros ->. Qed.

Lemma wp_zoom {T A} (get : St → T) (set : T → St → St) (m : M T A) Q E s :
  wp m (λ a t, Q a (set t s)) (λ e t, E e (set t s)) (get s) →
  wp (zoom get set m) Q E s.
Proof. unfold wp, zoom. by destruct (m (get s)) as [[a|e] t]. Qed.

End wp.

(** From a weakest precondition with no exception back to the run. *)
Lemma wp_run {St A} (m : M St A) (Q : A → St → Prop) s :
  wp m Q noexc s → ∃ a s', m s = (Ret a, s') ∧ Q a s'.
Proof. unfold wp, noexc. destruct (m s) as [[a|e] s']; naive_solver. Qed.

(** ** Automation for weakest preconditions *)

Lemma wp_from_option {St A} e (o : option A) a (Q : A → St → Prop) E s :
  o = Some a → Q a s → wp (from_option_raise e o) Q E s.
Proof. by intros ->. Qed.

Ltac wp_step :=
  lazymatch goal with
  | |- wp (mbind _ _) _ _ _ => apply wp_bind
  | |- wp (mret _) _ _ _ => apply wp_ret
  | |- wp (gets _) _ _ _ => apply wp_gets
  | |- wp (modify _) _ _ _ => apply wp_modify
  | |- wp (raise _) _ _ _ => apply wp_raise
  end.

(** Runs the straight-line prefix of a computation. *)
Ltac wp_steps := repeat (wp_step; cbn beta iota).

(** ** Outcomes of loops *)

Lemma mapM_Ret {A B} (f : A → outcome B) (xs : list A) ys : mapM f xs = Ret ys ↔ Forall2 (λ x y, f x = Ret y) xs ys.
Proof.
  split.
  - revert ys. induction xs as [|x xs IH]; intros ys H; simpl in H; [injection H as <-; constructor|].
    destruct (f x) as [y|] eqn:Hx; [|done]. simpl in H. destruct (mapM f xs) as [ys'|]; [|done]. injection H as <-. constructor; [done|by apply IH].
  - induction 1 as [|x y xs ys Hx _ IH]; [done|]. simpl. by rewrite Hx, IH.
Qed.

Lemma mapM_all {A B} (f : A → outcome B) (Q : B → Prop) (xs : list A) : (∀ x, x ∈ xs → ∃ y, f x = Ret y ∧ Q y) → ∃ ys, mapM f xs = Ret ys ∧ Forall Q ys.
Proof.
  induction xs as [|x xs IH]; intros H; [by exists []|]. destruct (H x) as (y & Hy & HQ); [by left|]. destruct IH as (ys & Hys & Hall); [intros; apply H; by right|].
  exists (y :: ys). simpl. rewrite Hy, Hys. split; [done|by constructor].
Qed.

Lemma bind_Ret {A B} (m : outcome A) (k : A → outcome B) b : (m ≫= k) = Ret b ↔ ∃ a, m = Ret a ∧ k a = Ret b.
Proof. destruct m as [a|e]; simpl; split; [intros; by exists a|by intros (a' & [= <-] & ?)|done|by intros (? & ? & _)]. Qed.

Lemma mapM_map {A B} (f : A → outcome B) (g : A → B) (xs : list A) : (∀ x, x ∈ xs → f x = Ret (g x)) → mapM f xs = Ret (g <$> xs).
Proof.
  intros H. apply mapM_Ret. induction xs as [|x xs IH]; [constructor|]. rewrite fmap_cons.
  constructor; [apply H; by left|apply IH; intros; apply H; by right].
Qed.

(** ** Duplicate-free lists *)

(** Turns duplicate-freeness into memberships that [set_solver] understands. *)
Ltac simpl_nodup :=
  repeat match goal with
  | H : NoDup (_ :: _) |- _ => apply NoDup_cons in H as [? H]
  | H : NoDup (_ ++ _) |- _ => apply NoDup_app in H as (? & ? & ?)
  | H : NoDup [] |- _ => clear H
  end.

Lemma NoDup_remove_mid {A} (l1 l2 : list A) b :
  NoDup (l1 ++ b :: l2) → NoDup (l1 ++ l2) ∧ b ∉ l1 ++ l2.
Proof. rewrite <-Permutation_middle, NoDup_cons. naive_solver. Qed.

Lemma NoDup_cons_ne {A} (x y : A) (l : list A) : NoDup (x :: l) → y ∈ l → x ≠ y.
Proof. rewrite NoDup_cons. naive_solver. Qed.

Lemma NoDup_app_ne {A} (x y : A) (l1 l2 : list A) :
  NoDup (l1 ++ l2) → x ∈ l1 → y ∈ l2 → x ≠ y.
Proof. rewrite NoDup_app. naive_solver. Qed.

(** Membership in a list written with [::] and [++]. *)
Ltac in_list :=
  repeat match goal with
  | |- context [_ ∈ _ ++ _] => rewrite elem_of_app
  | |- context [_ ∈ _ :: _] => rewrite elem_of_cons
  | |- context [_ ∈ []] => rewrite elem_of_nil
  | H : context [_ ∈ _ ++ _] |- _ => rewrite elem_of_app in H
  | H : context [_ ∈ _ :: _] |- _ => rewrite elem_of_cons in H
  | H : context [_ ∈ []] |- _ => rewrite elem_of_nil in H
  end; solve [intuition auto].

Lemma seq_split_mid n (l1 l2 : list nat) x :
  seq 0 n = l1 ++ x :: l2 → x = length l1 ∧ (x < n)%nat.
Proof.
  intros H. assert (seq 0 n !! length l1 = Some x) as Hx.
  { by rewrite H, list_lookup_middle. }
  apply lookup_seq in Hx. lia.
Qed.

Lemma filter_all {A} (P : A → Prop) `{∀ x, Decision (P x)} (l : list A) :
  (∀ x, x ∈ l → P x) → filter P l = l.
Proof.
  induction l as [|x l IH]; intros Hl; [done|].
  rewrite filter_cons_True by (apply Hl; set_solver).
  rewrite IH; [done|]. intros y Hy. apply Hl. set_solver.
Qed.

Lemma filter_ext_in {A} (P Q : A → Prop) `{∀ x, Decision (P x)} `{∀ x, Decision (Q x)}
    (l : list A) :
  (∀ x, x ∈ l → P x ↔ Q x) → filter P l = filter Q l.
Proof.
  induction l as [|x l IH]; intros Hl; [done|]. rewrite !filter_cons.
  rewrite IH by (intros y Hy; apply Hl; by right). specialize (Hl x (list_elem_of_here _ _)).
  repeat case_decide; tauto.
Qed.

Lemma Forall2_impl_in {A B} (P Q : A → B → Prop) (l : list A) (k : list B) :
  Forall2 P l k → (∀ x y, x ∈ l → P x y → Q x y) → Forall2 Q l k.
Proof.
  induction 1 as [|x y l k Hxy _ IH]; intros HPQ; constructor.
  - apply HPQ; [left|done].
  - apply IH. intros. apply HPQ; [by right|done].
Qed.

Lemma Forall2_in_l {A B} (P : A → B → Prop) (l : list A) (k : list B) x :
  Forall2 P l k → x ∈ l → ∃ y, y ∈ k ∧ P x y.
Proof.
  induction 1 as [|x' y l k Hxy _ IH]; [by intros ?%elem_of_nil|].
  intros [->|Hin]%elem_of_cons; [exists y; split; [left|done]|].
  destruct (IH Hin) as (z & ? & ?). exists z. split; [by right|done].
Qed.

(** * Python sequences and integers *)

(** [l[i]]; [None] where Python raises [IndexError]. *)
Definition py_get {A} (l : list A) (i : Z) : option A :=
  let n := Z.of_nat (length l) in
  if decide (0 ≤ i)%Z then l !! Z.to_nat i
  else if decide (- n ≤ i)%Z then l !! Z.to_nat (n + i) else None.

(** A slice bound, as [slice.indices] normalises it. *)
Definition py_bound (n i : Z) : Z :=
  (if decide (i < 0) then Z.max 0 (n + i) else Z.min i n)%Z.

(** [l[a:b]]. *)
Definition py_slice {A} (l : list A) (a b : Z) : list A :=
  let n := Z.of_nat (length l) in
  take (Z.to_nat (py_bound n b - py_bound n a)) (drop (Z.to_nat (py_bound n a)) l).

(** [range(a, b)]. *)
Definition py_range (a b : Z) : list Z := (λ k, (a + Z.of_nat k)%Z) <$> seq 0 (Z.to_nat (b - a)).

(** [cdiv(a, b)], ceiling division. *)
Definition cdiv (a b : Z) : Z := (- (a / - b))%Z.

(** [a // b]. *)
Definition floordiv (a b : Z) : outcome Z := (if b =? 0 then Raise ZeroDivisionError else Ret (a / b))%Z.

Lemma py_range_nil a b : (b ≤ a)%Z → py_range a b = [].
Proof. intros. unfold py_range. by rewrite Z2Nat.nonpos by lia. Qed.

Lemma py_range_cons a b : (a < b)%Z → py_range a b = a :: py_range (a + 1) b.
Proof.
  intros. unfold py_range. replace (Z.to_nat (b - a)) with (S (Z.to_nat (b - (a + 1)))) by lia.
  simpl. f_equal; [lia|]. rewrite <-fmap_S_seq, <-list_fmap_compose.
  apply list_fmap_ext. intros. simpl. lia.
Qed.

Lemma py_range_snoc a b : (a ≤ b)%Z → py_range a (b + 1) = py_range a b ++ [b].
Proof.
  intros H. unfold py_range. replace (Z.to_nat (b + 1 - a)) with (Z.to_nat (b - a) + 1)%nat by lia.
  rewrite seq_app, fmap_app. simpl. do 2 f_equal. lia.
Qed.

Lemma length_py_range a b : length (py_range a b) = Z.to_nat (b - a).
Proof. unfold py_range. by rewrite length_fmap, length_seq. Qed.

Lemma NoDup_py_range a b : NoDup (py_range a b).
Proof. unfold py_range. apply NoDup_fmap_2; [intros ???; lia|apply NoDup_seq]. Qed.

Lemma elem_of_py_range a b x : x ∈ py_range a b ↔ (a ≤ x < b)%Z.
Proof.
  unfold py_range. rewrite list_elem_of_fmap. setoid_rewrite elem_of_seq. split.
  - intros (k & -> & ?). lia.
  - intros ?. exists (Z.to_nat (x - a)). lia.
Qed.

Lemma in_py_range a b x : (a ≤ x < b)%Z → x ∈ py_range a b.
Proof. by apply elem_of_py_range. Qed.

Lemma cdiv_spec a b : (0 < b)%Z → (b * (cdiv a b - 1) < a ≤ b * cdiv a b)%Z.
Proof. unfold cdiv. intros. pose proof (Z.div_mod a (- b)). pose proof (Z.mod_neg_bound a (-b)). lia. Qed.

Lemma cdiv_unique a b c : (0 < b)%Z → (b * (c - 1) < a ≤ b * c)%Z → cdiv a b = c.
Proof. intros Hb Hc. pose proof (cdiv_spec a b Hb). nia. Qed.

Lemma cdiv_mono a a' b : (0 < b)%Z → (a ≤ a')%Z → (cdiv a b ≤ cdiv a' b)%Z.
Proof. intros Hb Ha. pose proof (cdiv_spec a b Hb). pose proof (cdiv_spec a' b Hb). nia. Qed.

Lemma cdiv_nonneg a b : (0 < b)%Z → (0 ≤ a)%Z → (0 ≤ cdiv a b)%Z.
Proof. intros Hb Ha. pose proof (cdiv_spec a b Hb). nia. Qed.

Lemma cdiv_le_iff a b c : (0 < b)%Z → (cdiv a b ≤ c ↔ a ≤ b * c)%Z.
Proof. intros Hb. pose proof (cdiv_spec a b Hb). split; nia. Qed.

Lemma py_slice_nonneg {A} (l : list A) a b :
  (0 ≤ a ≤ b)%Z → (b ≤ Z.of_nat (length l))%Z →
  py_slice l a b = take (Z.to_nat (b - a)) (drop (Z.to_nat a) l).
Proof.
  intros Ha Hb. unfold py_slice, py_bound. rewrite !decide_False by lia.
  by rewrite !Z.min_l by lia.
Qed.

Lemma py_slice_from {A} (l : list A) a :
  (0 ≤ a)%Z → py_slice l a (Z.of_nat (length l)) = drop (Z.to_nat a) l.
Proof.
  intros Ha. unfold py_slice, py_bound. rewrite !decide_False by lia. rewrite Z.min_id.
  destruct (decide (a ≤ Z.of_nat (length l))%Z).
  - rewrite Z.min_l by lia. apply take_ge. rewrite length_drop. lia.
  - rewrite Z.min_r, Z.sub_diag by lia. by rewrite !drop_ge by lia.
Qed.

Lemma py_slice_app_l {A} (l k : list A) a b :
  (0 ≤ a ≤ b)%Z → (b ≤ Z.of_nat (length l))%Z → py_slice (l ++ k) a b = py_slice l a b.
Proof.
  intros Ha Hb.
  rewrite (py_slice_nonneg (l ++ k)), (py_slice_nonneg l) by (rewrite ?length_app; lia).
  rewrite drop_app_le by lia. rewrite take_app_le; [done|]. rewrite length_drop. lia.
Qed.

Lemma py_slice_all {A} (l : list A) : py_slice l 0 (Z.of_nat (length l)) = l.
Proof.
  rewrite py_slice_nonneg by lia. change (Z.to_nat 0) with 0%nat. rewrite drop_0.
  apply take_ge. lia.
Qed.

Lemma sublist_filter_mono {A} (Q : A → Prop) `{!∀ x, Decision (Q x)} (xs ys : list A) :
  xs `sublist_of` ys → filter Q xs `sublist_of` filter Q ys.
Proof.
  induction 1 as [|x xs ys Hs IH|x xs ys Hs IH]; [done| |].
  - rewrite !filter_cons. case_decide; [by apply sublist_skip|done].
  - rewrite filter_cons. case_decide; [by apply sublist_cons|done].
Qed.

Lemma list_elem_of_concat {A} (x : A) xss : x ∈ concat xss → ∃ xs, xs ∈ xss ∧ x ∈ xs.
Proof.
  induction xss as [|ys xss IH]; simpl; [by intros ?%elem_of_nil|].
  intros [Hx|(xs & ? & ?)%IH]%elem_of_app; eexists; (split; [|done]); [by left|by right].
Qed.

Lemma fmap_zip {A B C D} (f : C → D) (g : A → B → C) xs ys :
  f <$> zip_with g xs ys = zip_with (λ x y, f (g x y)) xs ys.
Proof. revert ys. induction xs as [|x xs IH]; intros [|y ys]; [done..|]. simpl. by rewrite <-IH. Qed.
