(* ===== verification/Dict.v ===== *)
(** Python dictionaries that remember the order of their entries: lookup, assignment,
    deletion and [move_to_end], and the lemmas on keys, entries and permutations that the
    components built on them share. *)
From S2P Require Import Prelude.

(** The entries in order; keys do not repeat. *)
Abbreviation dict K A := (list (K * A)).
Abbreviation keys d := (d.*1).

Section dict.
Context {K : Type} `{EqDecision K}.
Abbreviation odict A := (dict K A).

Fixpoint od_get {A} (k : K) (d : odict A) : option A :=
  match d with
  | [] => None
  | (k', v) :: d' => if decide (k' = k) then Some v else od_get k d'
  end.
Definition od_mem {A} (k : K) (d : odict A) : bool := bool_decide (is_Some (od_get k d)).

(** [d[k] = v]: in place for a key that is there, else at the end. *)
Fixpoint od_set {A} (k : K) (v : A) (d : odict A) : odict A :=
  match d with
  | [] => [(k, v)]
  | (k', v') :: d' => if decide (k' = k) then (k', v) :: d' else (k', v') :: od_set k v d'
  end.
Definition od_del {A} (k : K) (d : odict A) : odict A := filter (λ x, x.1 ≠ k) d.
Definition od_move_to_end {A} (k : K) (d : odict A) : odict A :=
  match od_get k d with Some v => od_del k d ++ [(k, v)] | None => d end.

(** ** Lookup and update *)

Lemma od_get_None {A} k (d : odict A) : od_get k d = None ↔ k ∉ keys d.
Proof.
  induction d as [|[k' v] d IH]; simpl; [split; [intros _; apply not_elem_of_nil|done]|].
  rewrite not_elem_of_cons. case_decide as Hk; [split; [done|by intros [? _]]|].
  rewrite IH. naive_solver.
Qed.

Lemma od_get_Some {A} k v (d : odict A) : NoDup (keys d) → od_get k d = Some v ↔ (k, v) ∈ d.
Proof.
  induction d as [|[k' v'] d IH]; simpl; intros Hnd; [split; [done|by intros ?%elem_of_nil]|].
  apply NoDup_cons in Hnd as [Hn Hnd]. rewrite elem_of_cons. case_decide as Hk.
  - subst k'. split; [intros [= ->]; by left|]. intros [[= ->]|Hin]; [done|].
    exfalso. apply Hn. by apply (list_elem_of_fmap_2' fst d (k, v)).
  - rewrite IH by done. naive_solver.
Qed.

Lemma od_mem_keys {A} k (d : odict A) : od_mem k d = true ↔ k ∈ keys d.
Proof.
  unfold od_mem. rewrite bool_decide_eq_true, <-not_eq_None_Some, od_get_None. 
  destruct (decide (k ∈ keys d)); tauto.
Qed.

Lemma od_mem_false {A} k (d : odict A) : od_mem k d = false ↔ k ∉ keys d.
Proof. rewrite <-od_mem_keys. by destruct (od_mem k d). Qed.

Lemma od_set_keys {A} k (v : A) d : keys (od_set k v d) = if decide (k ∈ keys d) then keys d else keys d ++ [k].
Proof.
  induction d as [|[k' v'] d IH]; csimpl; [done|]. destruct (decide (k' = k)) as [->|Hk]; csimpl.
  - rewrite decide_True; [done|by left].
  - rewrite IH. destruct (decide (k ∈ keys d)) as [Hin|Hin].
    + by rewrite decide_True by (by right).
    + rewrite decide_False; [done|]. rewrite not_elem_of_cons. naive_solver.
Qed.

Lemma od_set_nodup {A} k (v : A) d : NoDup (keys d) → NoDup (keys (od_set k v d)).
Proof.
  intros Hnd. rewrite od_set_keys. case_decide; [done|]. apply NoDup_app. split_and!; [done| |apply NoDup_singleton].
  by intros x Hx ->%list_elem_of_singleton.
Qed.

Lemma od_set_new {A} k (v : A) d : k ∉ keys d → od_set k v d = d ++ [(k, v)].
Proof.
  induction d as [|[k' v'] d IH]; simpl; [done|]. intros [H1 H2]%not_elem_of_cons.
  rewrite decide_False by done. by rewrite IH.
Qed.

Lemma od_get_set {A} k (v : A) d k' :
  od_get k' (od_set k v d) = if decide (k = k') then Some v else od_get k' d.
Proof.
  induction d as [|[k0 v0] d IH]; simpl.
  - by case_decide.
  - destruct (decide (k0 = k)) as [->|Hk]; simpl.
    + destruct (decide (k = k')); [done|]. done.
    + rewrite IH. destruct (decide (k0 = k')) as [->|]; [|done]. by rewrite decide_False.
Qed.

(** Replacing a value under an unchanged projection leaves the projected values alone. *)
Lemma od_set_same {A C} (f : A → C) k v v' d :
  NoDup (keys d) → od_get k d = Some v → f v' = f v →
  (λ x : K * A, f x.2) <$> od_set k v' d = (λ x, f x.2) <$> d.
Proof.
  intros Hnd Hg Hf. induction d as [|[k0 v0] d IH]; simpl in *; [done|]. case_decide; simplify_eq/=.
  - by rewrite Hf.
  - f_equal. apply IH; [|done]. by apply NoDup_cons in Hnd as [_ ?].
Qed.

Lemma od_del_keys {A} k (d : odict A) : keys (od_del k d) = filter (.≠ k) (keys d).
Proof.
  unfold od_del. induction d as [|[k' v] d IH]; [done|]. csimpl. rewrite !filter_cons. csimpl.
  destruct (decide (k' ≠ k)); csimpl; [by rewrite IH|done].
Qed.

Lemma od_del_nodup {A} k (d : odict A) : NoDup (keys d) → NoDup (keys (od_del k d)).
Proof. intros Hnd. rewrite od_del_keys. by apply NoDup_filter. Qed.

Lemma od_del_new {A} k (d : odict A) : k ∉ keys d → od_del k d = d.
Proof.
  unfold od_del. induction d as [|[k' v] d IH]; [done|]. intros [H1 H2]%not_elem_of_cons.
  rewrite filter_cons, decide_True by (simpl in *; congruence). by rewrite IH.
Qed.

Lemma od_get_del {A} k (d : odict A) k' : od_get k' (od_del k d) = if decide (k = k') then None else od_get k' d.
Proof.
  unfold od_del. induction d as [|[k0 v] d IH]; simpl; [by case_decide|]. rewrite filter_cons. simpl.
  destruct (decide (k0 ≠ k)) as [Hk|Hk]; simpl.
  - rewrite IH. destruct (decide (k0 = k')) as [->|]; [|done]. by rewrite decide_False.
  - apply dec_stable in Hk as ->. rewrite IH. destruct (decide (k = k')) as [->|Hne]; [done|done].
Qed.

(** An entry taken out and the rest. *)
Lemma od_del_perm {A} k v (d : odict A) : NoDup (keys d) → od_get k d = Some v → d ≡ₚ (k, v) :: od_del k d.
Proof.
  intros Hnd Hg. induction d as [|[k0 v0] d IH]; simpl in *; [done|]. apply NoDup_cons in Hnd as [Hn Hnd].
  unfold od_del. rewrite filter_cons. fold (od_del k d). case_decide as Hk; simplify_eq/=.
  - by rewrite decide_False by naive_solver; rewrite od_del_new.
  - rewrite decide_True by done. rewrite (IH Hnd Hg) at 1. apply Permutation_swap.
Qed.

Lemma od_move_perm {A} k (d : odict A) : NoDup (keys d) → od_move_to_end k d ≡ₚ d.
Proof.
  intros Hnd. unfold od_move_to_end. destruct (od_get k d) as [v|] eqn:Hg; [|done].
  rewrite (od_del_perm k v d Hnd Hg) at 2. rewrite Permutation_app_comm. done.
Qed.

(** ** Moving and dropping entries *)

Lemma od_get_move {A} k (d : odict A) k' : od_get k' (od_move_to_end k d) = od_get k' d.
Proof.
  unfold od_move_to_end. destruct (od_get k d) as [v|] eqn:Hg; [|done].
  rewrite <-od_set_new by (rewrite od_del_keys, list_elem_of_filter; by intros []).
  rewrite od_get_set, od_get_del. case_decide; by subst.
Qed.

Lemma od_move_nodup {A} k (d : odict A) : NoDup (keys d) → NoDup (keys (od_move_to_end k d)).
Proof. intros Hnd. by rewrite od_move_perm. Qed.

Lemma od_set_in {A} k (v : A) d k' v' : NoDup (keys d) → (k', v') ∈ od_set k v d → (k', v') = (k, v) ∨ (k', v') ∈ d.
Proof.
  intros Hnd Hin. apply od_get_Some in Hin; [|by apply od_set_nodup]. rewrite od_get_set in Hin.
  case_decide; simplify_eq; [by left|right]. by apply od_get_Some.
Qed.

Lemma length_od_set {A} k (v : A) d :
  length (od_set k v d) = if decide (k ∈ keys d) then length d else S (length d).
Proof.
  rewrite <-(length_fmap fst), od_set_keys. case_decide; rewrite ?length_app, length_fmap; simpl; lia.
Qed.

Lemma od_get_in {A} h (b : A) d : od_get h d = Some b → h ∈ keys d.
Proof. intros Hg. apply od_mem_keys. unfold od_mem. by rewrite Hg. Qed.

Lemma od_del_keys_perm {A} h (b : A) d : NoDup (keys d) → od_get h d = Some b → keys d ≡ₚ h :: keys (od_del h d).
Proof. intros Hnd Hg. by rewrite (od_del_perm h b d) at 1. Qed.

(** Dropping a list of keys. *)
Definition od_without {A} (hs : list K) (d : odict A) : odict A := filter (λ x, x.1 ∉ hs) d.

Lemma od_without_nil {A} (d : odict A) : od_without [] d = d.
Proof. apply filter_all. intros x _. apply not_elem_of_nil. Qed.

Lemma od_without_snoc {A} hs h (d : odict A) : od_without (hs ++ [h]) d = od_del h (od_without hs d).
Proof.
  unfold od_without, od_del. rewrite list_filter_filter. apply list_filter_iff. intros x.
  rewrite not_elem_of_app, list_elem_of_singleton. tauto.
Qed.

Lemma od_without_keys {A} hs (d : odict A) : keys (od_without hs d) = filter (.∉ hs) (keys d).
Proof.
  unfold od_without. induction d as [|[k v] d IH]; [done|]. csimpl. rewrite !filter_cons. csimpl.
  destruct (decide (k ∉ hs)); csimpl; [by rewrite IH|done].
Qed.

Lemma od_get_without {A} hs (d : odict A) k : k ∉ hs → od_get k (od_without hs d) = od_get k d.
Proof.
  intros Hk. unfold od_without. induction d as [|[k' v] d IH]; [done|]. rewrite filter_cons. simpl.
  destruct (decide (k' ∉ hs)) as [Hn|Hn]; simpl; [by rewrite IH|]. rewrite decide_False; [done|].
  intros ->. by apply Hn.
Qed.

Lemma od_del_keys_sub {A} h (d : odict A) : keys (od_del h d) `sublist_of` keys d.
Proof. rewrite od_del_keys. apply sublist_filter. Qed.

Lemma od_without_cons {A} h hs (d : odict A) : od_without hs (od_del h d) = od_without (h :: hs) d.
Proof.
  unfold od_without, od_del. rewrite list_filter_filter. apply list_filter_iff. intros x.
  rewrite not_elem_of_cons. tauto.
Qed.

Lemma length_od_without {A} hs (d : odict A) : (length (od_without hs d) ≤ length d)%nat.
Proof. apply length_filter. Qed.

End dict.
