(* ===== verification/KVSpec.v ===== *)
(** The KV cache format of layers and groups of layers: kv_cache_interface.py. Page sizes, the
    memory one request needs, and the merging of layer specs into one. *)
From S2P Require Import Prelude Dict.
From stdpp Require Import strings.
Local Open Scope Z_scope.

(** ** Python *)

(** [cdiv(a, b)]. *)
Definition py_cdiv (a b : Z) : outcome Z := if b =? 0 then Raise ZeroDivisionError else Ret (cdiv a b).

(** [max(xs)], [min(xs)]. *)
Definition py_max (xs : list Z) : outcome Z :=
  match xs with [] => Raise ValueError | x :: xs' => Ret (foldl Z.max x xs') end.
Definition py_min (xs : list Z) : outcome Z :=
  match xs with [] => Raise ValueError | x :: xs' => Ret (foldl Z.min x xs') end.

Definition check (b : bool) (e : exc) : outcome unit := if b then Ret tt else Raise e.

(** ** Configuration *)

(** What the sizing reads: the model's length, the parallel and scheduler limits, the override of
    the block count, and the environment switches of sparse attention with their test knobs. *)
Record VllmConfig := mkVllmConfig {
  max_model_len : Z;
  original_max_model_len : Z;
  decode_context_parallel_size : Z;
  prefill_context_parallel_size : Z;
  max_num_batched_tokens : Z;
  max_num_encoder_input_tokens : Z;
  mamba_cache_mode : string;
  num_gpu_blocks_override : option Z;
  disable_hybrid_kv_cache_manager : bool;
  dsa_two_groups_enabled : bool;
  dsa_shared_pool_enabled : bool;
  dsa_shrink_stage : Z;
  index_topk : option Z;
  num_speculative_tokens : Z;
  dsa_test_batch : Z;
  dsa_test_ctx_blocks : option Z;
  dsa_test_gen_tokens : Z;
  dsa_test_prefill_conc : Z;
}.

(** [vllm_config.model_config.max_model_len = n]. *)
Definition set_max_model_len (n : Z) (c : VllmConfig) : VllmConfig :=
  mkVllmConfig n (original_max_model_len c) (decode_context_parallel_size c) (prefill_context_parallel_size c)
    (max_num_batched_tokens c) (max_num_encoder_input_tokens c) (mamba_cache_mode c) (num_gpu_blocks_override c)
    (disable_hybrid_kv_cache_manager c) (dsa_two_groups_enabled c) (dsa_shared_pool_enabled c) (dsa_shrink_stage c)
    (index_topk c) (num_speculative_tokens c) (dsa_test_batch c) (dsa_test_ctx_blocks c) (dsa_test_gen_tokens c)
    (dsa_test_prefill_conc c).

(** ** Layers *)

(** Element types of caches, with their sizes in bytes. *)
Inductive dtype := int8 | uint8 | float8_e4m3fn | float16 | bfloat16 | float32.
#[global] Instance dtype_eq_dec : EqDecision dtype.
Proof. solve_decision. Defined.
Definition get_dtype_size (d : dtype) : Z :=
  match d with int8 | uint8 | float8_e4m3fn => 1 | float16 | bfloat16 => 2 | float32 => 4 end.

(** The fields of [AttentionSpec], of [FullAttentionSpec], of [MLAAttentionSpec], of [MambaSpec]. *)
Record Attention := mkAttention {
  att_block_size : Z;
  num_kv_heads : Z;
  head_size : Z;
  att_dtype : dtype;
  att_page_size_padded : option Z;
}.
Record Full := mkFull {
  head_size_v : Z;
  full_sliding_window : option Z;
  full_attention_chunk_size : option Z;
}.
Record MLA := mkMLA {
  cache_dtype_str : option string;
  sparse_head_dim : option (list Z);
  cache_sparse_c8 : bool;
  c8_k_cache_dtype : dtype;
  c8_k_scale_cache_dtype : dtype;
}.
Record Mamba := mkMamba {
  mamba_block_size : Z;
  shapes : list (list Z);
  dtypes : list dtype;
  mamba_page_size_padded : option Z;
  mamba_type : string;
  mamba_spec_cache_mode : string;
  num_speculative_blocks : Z;
}.
#[global] Instance Attention_eq_dec : EqDecision Attention.
Proof. solve_decision. Defined.
#[global] Instance Full_eq_dec : EqDecision Full.
Proof. solve_decision. Defined.
#[global] Instance MLA_eq_dec : EqDecision MLA.
Proof. solve_decision. Defined.
#[global] Instance Mamba_eq_dec : EqDecision Mamba.
Proof. solve_decision. Defined.

(** [KVCacheSpec] of one layer. *)
Inductive LayerSpec :=
  | FullAttentionSpec (a : Attention) (f : Full)
  | MLAAttentionSpec (a : Attention) (f : Full) (m : MLA)
  | SinkFullAttentionSpec (a : Attention) (f : Full) (sink_len : option Z)
  | ChunkedLocalAttentionSpec (a : Attention) (attention_chunk_size : Z)
  | SlidingWindowSpec (a : Attention) (sliding_window : Z)
  | MambaSpec (m : Mamba)
  | EncoderOnlyAttentionSpec (a : Attention)
  | CrossAttentionSpec (a : Attention).
#[global] Instance LayerSpec_eq_dec : EqDecision LayerSpec.
Proof. solve_decision. Defined.

(** [__post_init__]: the value heads default to the key heads. *)
Definition full_post_init (a : Attention) (head_size_v : option Z) (window chunk : option Z) : Full :=
  mkFull (default (head_size a) head_size_v) window chunk.

Definition layer_block_size (s : LayerSpec) : Z :=
  match s with
  | FullAttentionSpec a _ | MLAAttentionSpec a _ _ | SinkFullAttentionSpec a _ _ | ChunkedLocalAttentionSpec a _
  | SlidingWindowSpec a _ | EncoderOnlyAttentionSpec a | CrossAttentionSpec a => att_block_size a
  | MambaSpec m => mamba_block_size m
  end.

(** [isinstance]. *)
Definition is_full_attention (s : LayerSpec) : bool :=
  match s with FullAttentionSpec _ _ | MLAAttentionSpec _ _ _ | SinkFullAttentionSpec _ _ _ => true | _ => false end.
Definition is_mla (s : LayerSpec) : bool := match s with MLAAttentionSpec _ _ _ => true | _ => false end.
Definition is_sliding_window (s : LayerSpec) : bool := match s with SlidingWindowSpec _ _ => true | _ => false end.
Definition is_chunked_local (s : LayerSpec) : bool := match s with ChunkedLocalAttentionSpec _ _ => true | _ => false end.

Definition mul_block (a : Attention) (n : Z) : Z := att_block_size a * num_kv_heads a * n * get_dtype_size (att_dtype a).

(** [AttentionSpec.real_page_size_bytes] and its overrides. *)
Definition real_page_size_bytes (s : LayerSpec) : Z :=
  match s with
  | FullAttentionSpec a f | SinkFullAttentionSpec a f _ => mul_block a (head_size a + head_size_v f)
  | MLAAttentionSpec a _ m =>
      if bool_decide (cache_dtype_str m = Some "fp8_ds_mla"%string) then att_block_size a * 656 else mul_block a (head_size a)
  | ChunkedLocalAttentionSpec a _ | SlidingWindowSpec a _ | EncoderOnlyAttentionSpec a | CrossAttentionSpec a =>
      2 * att_block_size a * num_kv_heads a * head_size a * get_dtype_size (att_dtype a)
  | MambaSpec m => foldr Z.add 0 (zip_with (λ shape d, foldr Z.mul 1 shape * get_dtype_size d) (shapes m) (dtypes m))
  end.

Definition page_size_padded (s : LayerSpec) : option Z :=
  match s with
  | FullAttentionSpec a _ | MLAAttentionSpec a _ _ | SinkFullAttentionSpec a _ _ | ChunkedLocalAttentionSpec a _
  | SlidingWindowSpec a _ | EncoderOnlyAttentionSpec a | CrossAttentionSpec a => att_page_size_padded a
  | MambaSpec m => mamba_page_size_padded m
  end.

(** [page_size_bytes] of the class of MLA layers: with the quantized sparse cache, the latent in
    the cache's type, the indexer keys and one scale per token; never padded. *)
Definition mla_page_size_bytes (a : Attention) (m : MLA) : outcome Z :=
  if cache_sparse_c8 m then
    match sparse_head_dim m with
    | Some [kv_lora_rank; qk_rope_head_dim; index_head_dim] =>
        let num_heads_per_page := att_block_size a * num_kv_heads a in
        let k_pe_nope_bytes := num_heads_per_page * (kv_lora_rank + qk_rope_head_dim) * get_dtype_size (att_dtype a) in
        let indexer_k_bytes := num_heads_per_page * index_head_dim * get_dtype_size (c8_k_cache_dtype m) in
        let indexer_k_scale_bytes := num_heads_per_page * 1 * get_dtype_size (c8_k_scale_cache_dtype m) in
        Ret (k_pe_nope_bytes + indexer_k_bytes + indexer_k_scale_bytes)
    | _ => Raise AssertionError
    end
  else Ret (mul_block a (head_size a)).

(** [page_size_bytes]. *)
Definition page_size_bytes (s : LayerSpec) : outcome Z :=
  match s with
  | MLAAttentionSpec a _ m => mla_page_size_bytes a m
  | _ =>
      match page_size_padded s with
      | Some padded => check (real_page_size_bytes s <=? padded) AssertionError ;; Ret padded
      | None => Ret (real_page_size_bytes s)
      end
  end.

(** [max_memory_usage_bytes]. *)
Definition max_memory_usage_bytes (c : VllmConfig) (s : LayerSpec) : outcome Z :=
  let pages n := b ← py_cdiv n (layer_block_size s); p ← page_size_bytes s; Ret (b * p) in
  match s with
  | FullAttentionSpec _ _ | MLAAttentionSpec _ _ _ | SinkFullAttentionSpec _ _ _ =>
      let world := decode_context_parallel_size c * prefill_context_parallel_size c in
      pages (if 1 <? world then cdiv (max_model_len c) world else max_model_len c)
  | ChunkedLocalAttentionSpec _ chunk => pages (Z.min (chunk + max_num_batched_tokens c) (max_model_len c))
  | SlidingWindowSpec _ window =>
      check (decode_context_parallel_size c =? 1) AssertionError ;;
      b ← py_cdiv (Z.min (window - 1 + max_num_batched_tokens c) (max_model_len c)) (layer_block_size s);
      p ← page_size_bytes s;
      Ret ((b + 1) * p)
  | MambaSpec m =>
      if bool_decide (mamba_cache_mode c = "all"%string) then pages (max_model_len c)
      else p ← page_size_bytes s;
        Ret (p * ((if bool_decide (mamba_cache_mode c = "align"%string) then 2 else 1) + num_speculative_blocks m))
  | EncoderOnlyAttentionSpec _ => Ret 0
  | CrossAttentionSpec _ => pages (max_num_encoder_input_tokens c)
  end.

(** ** Merging *)

(** [FullAttentionSpec.merge_window_sizes]. *)
Definition merge_window_sizes (window_sizes : list Z) : outcome (option Z) :=
  match remove_dups window_sizes with
  | [] => Ret None
  | [w] => Ret (Some w)
  | _ => Raise ValueError
  end.

Definition full_fields (s : LayerSpec) : option (Attention * Full) :=
  match s with
  | FullAttentionSpec a f | MLAAttentionSpec a f _ | SinkFullAttentionSpec a f _ => Some (a, f)
  | _ => None
  end.

(** [FullAttentionSpec.merge] and [SinkFullAttentionSpec.merge], which differ in the class they
    build: the windows are joined and the fields of [AttentionSpec] compared. *)
Definition merge_full (build : Full → LayerSpec) (a0 : Attention) (f0 : Full) (specs : list LayerSpec) : outcome LayerSpec :=
  check (forallb is_full_attention specs) AssertionError ;;
  check (negb (existsb is_mla specs)) AssertionError ;;
  let fulls := omap full_fields specs in
  sliding_window ← merge_window_sizes (omap (λ x, full_sliding_window x.2) fulls);
  attention_chunk_size ← merge_window_sizes (omap (λ x, full_attention_chunk_size x.2) fulls);
  check (forallb (λ x, bool_decide (x.1 = a0)) fulls) AssertionError ;;
  check (negb (bool_decide (is_Some sliding_window) && bool_decide (is_Some attention_chunk_size))) AssertionError ;;
  Ret (build (mkFull (head_size_v f0) sliding_window attention_chunk_size)).

Definition mla_fields (s : LayerSpec) : option (Attention * MLA) :=
  match s with MLAAttentionSpec a _ m => Some (a, m) | _ => None end.

(** [MLAAttentionSpec.merge]: what is not named in the call takes its default. *)
Definition merge_mla (a0 : Attention) (m0 : MLA) (specs : list LayerSpec) : outcome LayerSpec :=
  check (forallb is_mla specs) AssertionError ;;
  let mlas := omap mla_fields specs in
  check (forallb (λ x, bool_decide (cache_dtype_str x.2 = cache_dtype_str m0)) mlas) AssertionError ;;
  check (forallb (λ x, head_size x.1 =? head_size a0) mlas) AssertionError ;;
  check (forallb (λ x, bool_decide (sparse_head_dim x.2 = sparse_head_dim m0)) mlas) AssertionError ;;
  let a := mkAttention (att_block_size a0) (num_kv_heads a0) (head_size a0) (att_dtype a0) None in
  Ret (MLAAttentionSpec a (full_post_init a None None None)
    (mkMLA (cache_dtype_str m0) (sparse_head_dim m0) (cache_sparse_c8 m0) int8 float16)).

(** [specs[0].merge(specs)]. *)
Definition merge_specs (specs : list LayerSpec) : outcome LayerSpec :=
  match specs with
  | [] => Raise IndexError
  | s0 :: rest =>
      match s0 with
      | FullAttentionSpec a f => merge_full (FullAttentionSpec a) a f specs
      | SinkFullAttentionSpec a f sink => merge_full (λ f, SinkFullAttentionSpec a f sink) a f specs
      | MLAAttentionSpec a _ m => merge_mla a m specs
      | _ => check (forallb (λ s, bool_decide (s = s0)) rest) AssertionError ;; Ret s0
      end
  end.

(** ** Groups *)

(** The [kv_cache_spec] of a group: that of its layers, or [UniformTypeKVCacheSpecs]. *)
Inductive GroupSpec :=
  | OneSpec (s : LayerSpec)
  | UniformTypeKVCacheSpecs (block_size : Z) (kv_cache_specs : dict string LayerSpec).

Definition sum_Z (xs : list Z) : Z := foldr Z.add 0 xs.

Definition group_block_size (g : GroupSpec) : Z :=
  match g with OneSpec s => layer_block_size s | UniformTypeKVCacheSpecs b _ => b end.
Definition group_page_size_bytes (g : GroupSpec) : outcome Z :=
  match g with
  | OneSpec s => page_size_bytes s
  | UniformTypeKVCacheSpecs _ d => ps ← mapM page_size_bytes (d.*2); Ret (sum_Z ps)
  end.
Definition group_max_memory_usage_bytes (c : VllmConfig) (g : GroupSpec) : outcome Z :=
  match g with
  | OneSpec s => max_memory_usage_bytes c s
  | UniformTypeKVCacheSpecs _ d =>
      ns ← mapM (λ s, m ← max_memory_usage_bytes c s; p ← page_size_bytes s; py_cdiv m p) (d.*2);
      max_num_pages ← py_max ns;
      page ← group_page_size_bytes g;
      Ret (max_num_pages * page)
  end.

(** The test of two-group mode: MLA layers with different head sizes. *)
Definition mla_head_sizes (specs : list LayerSpec) : list Z := remove_dups ((λ x, head_size x.1) <$> omap mla_fields specs).
Definition dsa_two_groups_split (c : VllmConfig) (specs : list LayerSpec) : bool :=
  dsa_two_groups_enabled c && (1 <? Z.of_nat (length (mla_head_sizes specs))).

(** [UniformTypeKVCacheSpecs.is_uniform_type]. *)
Definition is_uniform_type (c : VllmConfig) (d : dict string LayerSpec) : outcome bool :=
  let specs := d.*2 in
  if dsa_two_groups_split c specs then Ret false
  else if 1 <? Z.of_nat (length (remove_dups (layer_block_size <$> specs))) then Ret false
  else
    match specs with
    | [] => Raise StopIteration
    | one_spec :: _ =>
        match one_spec with
        | FullAttentionSpec _ _ | MLAAttentionSpec _ _ _ | SinkFullAttentionSpec _ _ _ => Ret (forallb is_full_attention specs)
        | CrossAttentionSpec _ => Ret (forallb (λ s, match s with CrossAttentionSpec _ => true | _ => false end) specs)
        | SlidingWindowSpec _ w => Ret (forallb (λ s, match s with SlidingWindowSpec _ w' => w' =? w | _ => false end) specs)
        | ChunkedLocalAttentionSpec _ n => Ret (forallb (λ s, match s with ChunkedLocalAttentionSpec _ n' => n' =? n | _ => false end) specs)
        | MambaSpec m => Ret (forallb (λ s, match s with MambaSpec m' => num_speculative_blocks m' =? num_speculative_blocks m | _ => false end) specs)
        | EncoderOnlyAttentionSpec _ => Raise NotImplementedError
        end
    end.

(** [UniformTypeKVCacheSpecs.from_specs]. *)
Definition from_specs (c : VllmConfig) (d : dict string LayerSpec) : outcome (option GroupSpec) :=
  uniform ← is_uniform_type c d;
  if (uniform : bool) then
    match d with [] => Raise StopIteration | (_, s) :: _ => Ret (Some (UniformTypeKVCacheSpecs (layer_block_size s) d)) end
  else Ret None.

Record KVCacheTensor := mkTensor { tensor_size : Z; shared_by : list string }.
Record KVCacheGroupSpec := mkGroup { layer_names : list string; kv_cache_spec : GroupSpec }.
Record KVCacheConfig := mkCacheConfig {
  cfg_num_blocks : Z;
  kv_cache_tensors : list KVCacheTensor;
  kv_cache_groups : list KVCacheGroupSpec;
  num_blocks_per_group : option (list Z);
  dsa_index_topk : option Z;
  dsa_num_speculative_tokens : Z;
}.
