(* ===== verification/KVConfig.v ===== *)
(** How the KV cache is laid out at start: the functions of kv_cache_utils.py that group the
    layers of a model, count the blocks that fit into memory and size the tensors of every
    worker. Log messages and the figures computed only for them are left out. *)
From S2P Require Import Prelude Dict KVSpec.
From stdpp Require Import strings.
From Stdlib Require Import Ascii.
Local Open Scope Z_scope.

Implicit Types (c : VllmConfig) (d : dict string LayerSpec) (g : KVCacheGroupSpec) (gs : list KVCacheGroupSpec).

Definition distinct (xs : list Z) : Z := Z.of_nat (length (remove_dups xs)).
Definition num_layers g : Z := Z.of_nat (length (layer_names g)).
Definition group_page g : outcome Z := group_page_size_bytes (kv_cache_spec g).

(** [max(groups, key=page)] and [min(groups, key=page)]: the first of the best. *)
Fixpoint best_group (better : Z → Z → bool) (best : KVCacheGroupSpec) (page : Z) gs : outcome KVCacheGroupSpec :=
  match gs with
  | [] => Ret best
  | g :: gs' => p ← group_page g; if better p page then best_group better g p gs' else best_group better best page gs'
  end.
Definition best_of (better : Z → Z → bool) gs : outcome KVCacheGroupSpec :=
  match gs with [] => Raise ValueError | g :: gs' => p ← group_page g; best_group better g p gs' end.
Definition largest_page gs : outcome KVCacheGroupSpec := best_of (λ p q, q <? p) gs.
Definition smallest_page gs : outcome KVCacheGroupSpec := best_of (λ p q, p <? q) gs.

(** ** The longest model that fits *)

(** [max_memory_usage_bytes(vllm_config, kv_cache_specs)]. *)
Definition specs_max_memory c (specs : list LayerSpec) : outcome Z :=
  ms ← mapM (max_memory_usage_bytes c) specs; Ret (sum_Z ms).

(** The loop of the binary searches. *)
Fixpoint search_len (fuel : nat) (fits : Z → outcome bool) (left right result : Z) : outcome Z :=
  if left <=? right then
    match fuel with
    | O => Raise RuntimeError
    | S fuel =>
        let mid := (left + right) / 2 in
        ok ← fits mid;
        if (ok : bool) then search_len fuel fits (mid + 1) right mid else search_len fuel fits left (mid - 1) result
    end
  else Ret result.

(** Zero when not even one token fits. *)
Definition longest_fitting (fits : Z → outcome bool) (original_max : Z) : outcome Z :=
  ok ← fits 1;
  if (ok : bool) then search_len (Z.to_nat original_max) fits 1 original_max 1 else Ret 0.

(** [estimate_max_model_len]. *)
Definition estimate_max_model_len c d (available_memory : Z) : outcome Z :=
  longest_fitting (λ n, m ← specs_max_memory (set_max_model_len n c) (d.*2); Ret (m <=? available_memory)) (max_model_len c).

(** [_check_enough_kv_cache_memory]; the estimate is for the message only. *)
Definition check_enough (available_memory : Z) (needed : outcome Z) (estimate : Z → outcome Z) : outcome unit :=
  if available_memory <=? 0 then Raise ValueError
  else
    needed_memory ← needed;
    if available_memory <? needed_memory then estimate available_memory ;; Raise ValueError else Ret tt.

(** [check_enough_kv_cache_memory]. *)
Definition check_enough_kv_cache_memory c d (available_memory : Z) : outcome unit :=
  if bool_decide (d = []) then Ret tt
  else check_enough available_memory (specs_max_memory c (d.*2)) (estimate_max_model_len c d).

(** ** Grouping the layers *)

(** [create_kv_cache_group_specs]. *)
Definition create_group d (names : list string) : outcome KVCacheGroupSpec :=
  specs ← mapM (λ n, match od_get n d with Some s => Ret s | None => Raise KeyError end) names;
  merged ← merge_specs specs;
  Ret (mkGroup names (OneSpec merged)).
Definition create_kv_cache_group_specs d (grouped_layer_names : list (list string)) : outcome (list KVCacheGroupSpec) :=
  mapM (create_group d) grouped_layer_names.

(** [is_kv_cache_spec_uniform]: only a failed assertion means no. *)
Definition is_kv_cache_spec_uniform c d : outcome bool :=
  if bool_decide (d = []) then Ret true
  else if dsa_two_groups_split c (d.*2) then Ret false
  else
    match merge_specs (d.*2) with
    | Ret _ => Ret true
    | Raise AssertionError => Ret false
    | Raise e => Raise e
    end.

(** [_get_kv_cache_groups_uniform_spec], [_get_kv_cache_groups_uniform_type]. *)
Definition groups_uniform_spec d : outcome (list KVCacheGroupSpec) := create_kv_cache_group_specs d [d.*1].
Definition groups_uniform_type (names : list string) (spec : GroupSpec) : list KVCacheGroupSpec := [mkGroup names spec].

Definition layer_page_sizes d : outcome (list Z) := mapM page_size_bytes (d.*2).

(** [is_kv_cache_page_size_uniform]. *)
Definition is_kv_cache_page_size_uniform d : outcome bool := ps ← layer_page_sizes d; Ret (distinct ps =? 1).

(** [replace(spec, block_size=n)]. *)
Definition attention_with_block_size (n : Z) (a : Attention) : Attention :=
  mkAttention n (num_kv_heads a) (head_size a) (att_dtype a) (att_page_size_padded a).
Definition with_block_size (n : Z) (s : LayerSpec) : LayerSpec :=
  match s with
  | FullAttentionSpec a f => FullAttentionSpec (attention_with_block_size n a) f
  | MLAAttentionSpec a f m => MLAAttentionSpec (attention_with_block_size n a) f m
  | SinkFullAttentionSpec a f k => SinkFullAttentionSpec (attention_with_block_size n a) f k
  | ChunkedLocalAttentionSpec a k => ChunkedLocalAttentionSpec (attention_with_block_size n a) k
  | SlidingWindowSpec a k => SlidingWindowSpec (attention_with_block_size n a) k
  | MambaSpec m => MambaSpec (mkMamba n (shapes m) (dtypes m) (mamba_page_size_padded m) (mamba_type m) (mamba_spec_cache_mode m) (num_speculative_blocks m))
  | EncoderOnlyAttentionSpec a => EncoderOnlyAttentionSpec (attention_with_block_size n a)
  | CrossAttentionSpec a => CrossAttentionSpec (attention_with_block_size n a)
  end.

(** [unify_kv_cache_spec_page_size]. *)
Definition unify_layer (max_page_size : Z) (x : string * LayerSpec) : outcome (string * LayerSpec) :=
  let '(layer_name, layer_spec) := x in
  page ← page_size_bytes layer_spec;
  if page =? max_page_size then Ret (layer_name, layer_spec)
  else if page =? 0 then Raise ZeroDivisionError
  else if negb (max_page_size mod page =? 0) then Raise NotImplementedError
  else
    let new_spec := with_block_size (layer_block_size layer_spec * (max_page_size / page)) layer_spec in
    new_page ← page_size_bytes new_spec;
    check (new_page =? max_page_size) AssertionError ;;
    Ret (layer_name, new_spec).
Definition unify_kv_cache_spec_page_size d : outcome (dict string LayerSpec) :=
  ps ← layer_page_sizes d;
  if distinct ps <=? 1 then Ret d
  else max_page_size ← py_max ps; mapM (unify_layer max_page_size) d.

(** [same_type_layers]: the layers of each spec, in the order of first appearance. *)
Definition add_layer (acc : dict LayerSpec (list string)) (x : string * LayerSpec) : dict LayerSpec (list string) :=
  od_set x.2 (default [] (od_get x.2 acc) ++ [x.1]) acc.
Definition same_type_layers d : dict LayerSpec (list string) := foldl add_layer [] d.

(** [_get_kv_cache_groups_dsa_two_groups]: the latent group, with the larger page, comes first. *)
Definition groups_dsa_two_groups d : outcome (list KVCacheGroupSpec) :=
  match (λ x, mkGroup x.2 (OneSpec x.1)) <$> same_type_layers d with
  | [g0; g1] =>
      p0 ← group_page g0; p1 ← group_page g1;
      let '(latent, indexer) := if p0 <? p1 then (g1, g0) else (g0, g1) in
      if (num_layers indexer <=? 0) || (num_layers latent <? num_layers indexer) then Raise ValueError
      else Ret [latent; indexer]
  | _ => Raise ValueError
  end.

(** [layers[i::n]]. *)
Fixpoint every {A} (n : nat) (skip : nat) (l : list A) : list A :=
  match l with
  | [] => []
  | x :: l' => match skip with O => x :: every n (pred n) l' | S k => every n k l' end
  end.
Definition stride {A} (i n : Z) (l : list A) : list A := every (Z.to_nat n) (Z.to_nat i) l.

(** [_get_kv_cache_groups_uniform_page_size]. *)
Definition split_layers (group_size : Z) (layers : list string) : list (list string) :=
  let num_groups := cdiv (Z.of_nat (length layers)) group_size in
  (λ i, stride i num_groups layers) <$> py_range 0 num_groups.
Definition choose_group_size (counts : list Z) : outcome Z :=
  min_num_layers ← py_min counts;
  max_num_layers ← py_max counts;
  Ret (if 2 * max_num_layers <? 3 * min_num_layers then max_num_layers else min_num_layers).
Definition groups_uniform_page_size d : outcome (list KVCacheGroupSpec) :=
  let same := same_type_layers d in
  group_size ← choose_group_size ((λ x, Z.of_nat (length x.2)) <$> same);
  create_kv_cache_group_specs d (concat ((λ x, split_layers group_size x.2) <$> same)).

(** [unify_hybrid_kv_cache_specs]. *)
Definition to_full_attention (s : LayerSpec) : LayerSpec :=
  match s with
  | SlidingWindowSpec a w => FullAttentionSpec a (full_post_init a None (Some w) None)
  | ChunkedLocalAttentionSpec a n => FullAttentionSpec a (full_post_init a None None (Some n))
  | _ => s
  end.
Definition one_type c d : outcome bool :=
  u ← is_kv_cache_spec_uniform c d; if (u : bool) then Ret true else is_uniform_type c d.
Definition unify_hybrid_kv_cache_specs c d : outcome (dict string LayerSpec) :=
  if dsa_two_groups_split c (d.*2) then Ret d
  else
    u ← one_type c d;
    if (u : bool) then Ret d
    else
      let specs := d.*2 in
      let d' := if existsb is_full_attention specs && (existsb is_sliding_window specs || existsb is_chunked_local specs)
        then (λ x, (x.1, to_full_attention x.2)) <$> d else d in
      u' ← one_type c d';
      if (u' : bool) then Ret d' else Raise ValueError.

(** [get_kv_cache_groups]. *)
Definition get_kv_cache_groups c d : outcome (list KVCacheGroupSpec) :=
  d ← (if disable_hybrid_kv_cache_manager c then unify_hybrid_kv_cache_specs c d else Ret d);
  if bool_decide (d = []) then Ret []
  else
    uniform ← is_kv_cache_spec_uniform c d;
    if (uniform : bool) then groups_uniform_spec d
    else
      uniform_spec ← from_specs c d;
      match uniform_spec with
      | Some spec => Ret (groups_uniform_type (d.*1) spec)
      | None =>
          two_groups ← (if dsa_two_groups_enabled c then same ← is_kv_cache_page_size_uniform d; Ret (negb same) else Ret false);
          if (two_groups : bool) then groups_dsa_two_groups d
          else d' ← unify_kv_cache_spec_page_size d; groups_uniform_page_size d'
      end.

(** ** From groups to tensors *)

(** [may_override_num_blocks], [get_num_blocks], [get_uniform_page_size]. *)
Definition may_override_num_blocks c (num_blocks : Z) : Z := default num_blocks (num_gpu_blocks_override c).
Definition get_num_blocks c (num_layers available_memory page_size : Z) : outcome Z :=
  a ← floordiv available_memory page_size;
  n ← floordiv a num_layers;
  Ret (may_override_num_blocks c (Z.max n 0)).
Definition group_pages gs : outcome (list Z) := mapM group_page gs.
Definition get_uniform_page_size gs : outcome Z :=
  ps ← group_pages gs;
  match remove_dups ps with [p] => Ret p | _ => Raise AssertionError end.

(** The configuration of the given blocks and tensors. *)
Definition make_config c (num_blocks : Z) (tensors : list KVCacheTensor) gs (per_group : option (list Z)) : KVCacheConfig :=
  mkCacheConfig num_blocks tensors gs per_group (index_topk c) (Z.max (num_speculative_tokens c) 0).

(** One group whose layers have different page sizes: a tensor per layer. *)
Definition config_uniform_type c gs (names : list string) (specs : dict string LayerSpec) (available_memory : Z) : outcome KVCacheConfig :=
  page ← (ps ← mapM page_size_bytes (specs.*2); Ret (sum_Z ps));
  n ← floordiv available_memory page;
  let num_blocks := may_override_num_blocks c n in
  tensors ← mapM (λ name,
    match od_get name specs with
    | None => Raise KeyError
    | Some s => p ← page_size_bytes s; Ret (mkTensor (p * num_blocks) [name])
    end) names;
  Ret (make_config c num_blocks tensors gs None).

(** [latent_name.rsplit(".", 1)[0] + ".indexer.k_cache"]. *)
Fixpoint before_last_dot (s : string) : option string :=
  match s with
  | EmptyString => None
  | String a s' =>
      match before_last_dot s' with
      | Some p => Some (String a p)
      | None => if bool_decide (a = "."%char) then Some EmptyString else None
      end
  end.
Definition sibling (latent_name : string) : string := default latent_name (before_last_dot latent_name) +:+ ".indexer.k_cache".

(** The sparse rows of a top-k must fill blocks. *)
Definition check_topk (topk : option Z) (block_size : Z) : outcome unit :=
  match topk with
  | None => Ret tt
  | Some k => if block_size =? 0 then Raise ZeroDivisionError else check (k mod block_size =? 0) ValueError
  end.

(** Two groups over one pool of bundles: each latent layer has a tensor, which the indexer layer
    next to it shares. *)
Definition config_dsa_shared c gs (available_memory : Z) : outcome KVCacheConfig :=
  if negb (Z.of_nat (length gs) =? 2) then Raise ValueError
  else
    latent_group ← largest_page gs;
    indexer_group ← smallest_page gs;
    let latent_layers := num_layers latent_group in
    let indexer_layers := num_layers indexer_group in
    if negb ((0 <? indexer_layers) && (indexer_layers <=? latent_layers)) then Raise ValueError
    else
      latent_page ← group_page latent_group;
      indexer_page ← group_page indexer_group;
      let bundle_page := Z.lcm latent_page indexer_page in
      floordiv bundle_page latent_page ;;
      floordiv bundle_page indexer_page ;;
      slot_count ← floordiv available_memory (latent_layers * bundle_page);
      let num_bundles := may_override_num_blocks c (slot_count - 1) in
      if num_bundles <=? 0 then Raise ValueError
      else
        let tensor_size := (num_bundles + 1) * bundle_page in
        check_topk (index_topk c) (group_block_size (kv_cache_spec latent_group)) ;;
        let indexer_by_name := layer_names indexer_group in
        let tensors := (λ latent_name, mkTensor tensor_size
          (if decide (sibling latent_name ∈ indexer_by_name) then [latent_name; sibling latent_name] else [latent_name]))
          <$> layer_names latent_group in
        let paired := forallb (λ i, existsb (λ l, bool_decide (sibling l = i)) (layer_names latent_group)) indexer_by_name in
        check paired ValueError ;;
        Ret (make_config c num_bundles tensors gs None).

(** The test sizing of shrink stage two, from its environment knobs. *)
Definition dsa_test_sizes c gs : outcome (list Z) :=
  match gs with
  | g0 :: _ =>
      let block := group_block_size (kv_cache_spec g0) in
      check_topk (index_topk c) block ;;
      scratch ← (match index_topk c with
        | None => Ret 0
        | Some k => floordiv (k * (Z.max (num_speculative_tokens c) 0 + 1)) block
        end);
      ctx_default ← py_cdiv 61056 block;
      let ctx_blocks := default ctx_default (dsa_test_ctx_blocks c) in
      gen_blocks ← py_cdiv (dsa_test_gen_tokens c) block;
      Ret [dsa_test_prefill_conc c * ctx_blocks + dsa_test_batch c * (scratch + gen_blocks); dsa_test_batch c * ctx_blocks]
  | [] => Raise IndexError
  end.

(** A pool per group: a tensor per layer. *)
Definition config_dsa_groups c gs (available_memory : Z) : outcome KVCacheConfig :=
  pages ← group_pages gs;
  n ← floordiv available_memory (sum_Z (zip_with Z.mul (num_layers <$> gs) pages));
  let natural := may_override_num_blocks c n in
  counts ← (if (dsa_shrink_stage c =? 2) && (Z.of_nat (length gs) =? 2) then dsa_test_sizes c gs
            else Ret (replicate (length gs) natural));
  num_blocks ← (if (dsa_shrink_stage c =? 2) && (Z.of_nat (length gs) =? 2) then py_max counts else Ret natural);
  let tensors := concat (zip_with (λ g size, (λ name, mkTensor size [name]) <$> layer_names g) gs (zip_with Z.mul pages counts)) in
  Ret (make_config c num_blocks tensors gs (Some counts)).

(** The general case: the [i]-th layers of all groups share a tensor. *)
Definition config_general c gs (available_memory : Z) : outcome KVCacheConfig :=
  group_size ← py_max (num_layers <$> gs);
  page_size ← get_uniform_page_size gs;
  check (0 <? group_size) AssertionError ;;
  num_blocks ← get_num_blocks c group_size available_memory page_size;
  let tensors := (λ i, mkTensor (page_size * num_blocks) (omap (λ g, layer_names g !! Z.to_nat i) gs)) <$> py_range 0 group_size in
  Ret (make_config c num_blocks tensors gs None).

(** Two groups with different pages. *)
Definition dsa_mode c gs : outcome bool :=
  if dsa_two_groups_enabled c then ps ← group_pages gs; Ret (1 <? distinct ps) else Ret false.

(** [get_kv_cache_config_from_groups]. *)
Definition get_kv_cache_config_from_groups c gs (available_memory : Z) : outcome KVCacheConfig :=
  match gs with
  | [] => Ret (make_config c 1 [] gs None)
  | [mkGroup names (UniformTypeKVCacheSpecs _ specs)] => config_uniform_type c gs names specs available_memory
  | _ =>
      dsa ← dsa_mode c gs;
      if (dsa : bool) then
        if dsa_shared_pool_enabled c then config_dsa_shared c gs available_memory else config_dsa_groups c gs available_memory
      else config_general c gs available_memory
  end.

(** [_max_memory_usage_bytes_from_groups]: groups with different pages, over bundles or with a
    pool each; groups with one page, of which the first is asked; and the choice. *)
Definition max_memory_dsa c gs : outcome Z :=
  if dsa_shared_pool_enabled c then
    latent ← largest_page gs;
    indexer ← smallest_page gs;
    latent_page ← group_page latent;
    indexer_page ← group_page indexer;
    let bundle_page := Z.lcm latent_page indexer_page in
    m ← group_max_memory_usage_bytes c (kv_cache_spec latent);
    blocks ← py_cdiv m latent_page;
    per_latent ← floordiv bundle_page latent_page;
    b0 ← py_cdiv blocks per_latent;
    per_indexer ← floordiv bundle_page indexer_page;
    b1 ← py_cdiv blocks per_indexer;
    Ret (num_layers latent * (b0 + b1 + 1) * bundle_page)
  else
    ms ← mapM (λ g, page ← group_page g; m ← group_max_memory_usage_bytes c (kv_cache_spec g);
                blocks ← py_cdiv m page; Ret (num_layers g * blocks * page)) gs;
    Ret (sum_Z ms).
Definition max_memory_general c g0 gs : outcome Z :=
  group_size ← py_max (num_layers <$> gs);
  page_size ← get_uniform_page_size gs;
  m ← group_max_memory_usage_bytes c (kv_cache_spec g0);
  blocks_needed ← py_cdiv m page_size;
  Ret (group_size * page_size * blocks_needed).
Definition max_memory_from_groups c gs : outcome Z :=
  match gs with
  | [] => Ret 0
  | [mkGroup _ (UniformTypeKVCacheSpecs _ specs)] => specs_max_memory c (specs.*2)
  | g0 :: _ => dsa ← dsa_mode c gs; if (dsa : bool) then max_memory_dsa c gs else max_memory_general c g0 gs
  end.

(** [_estimate_max_model_len_from_groups]. *)
Definition estimate_max_model_len_from_groups c gs (available_memory : Z) : outcome Z :=
  longest_fitting (λ n, m ← max_memory_from_groups (set_max_model_len n c) gs; Ret (m <=? available_memory)) (max_model_len c).

(** [_auto_fit_max_model_len]: the configuration it leaves. *)
Fixpoint auto_fit_loop c (workers : list (list KVCacheGroupSpec * Z)) (auto_fit_max : Z) : outcome Z :=
  match workers with
  | [] => Ret auto_fit_max
  | (gs, avail_mem) :: rest =>
      if bool_decide (length gs = 0%nat) then auto_fit_loop c rest auto_fit_max
      else
        worker_max ← estimate_max_model_len_from_groups c gs avail_mem;
        auto_fit_loop c rest (Z.min worker_max auto_fit_max)
  end.
Definition auto_fit_max_model_len c (groups_per_worker : list (list KVCacheGroupSpec)) (available_memory : list Z) : outcome VllmConfig :=
  if forallb (λ gs, bool_decide (length gs = 0%nat)) groups_per_worker then Ret c
  else
    match available_memory with
    | [] => Raise IndexError
    | _ =>
        auto_fit_max ← auto_fit_loop c (zip groups_per_worker available_memory) (max_model_len c);
        if auto_fit_max <=? 0 then Raise ValueError
        else Ret (if max_model_len c <=? auto_fit_max then c else set_max_model_len auto_fit_max c)
    end.

(** ** All workers *)

(** [_project_kv_cache_groups_to_worker]. *)
Definition project_group (worker_spec : dict string LayerSpec) g : outcome KVCacheGroupSpec :=
  let names := filter (λ n, od_mem n worker_spec = true) (layer_names g) in
  match kv_cache_spec g with
  | UniformTypeKVCacheSpecs b specs =>
      if bool_decide (names = []) then Ret (mkGroup names (kv_cache_spec g))
      else
        sub ← mapM (λ n, match od_get n specs with Some s => Ret (n, s) | None => Raise KeyError end) names;
        Ret (mkGroup names (UniformTypeKVCacheSpecs b sub))
  | OneSpec _ => Ret (mkGroup names (kv_cache_spec g))
  end.
Definition project_kv_cache_groups_to_worker gs (worker_spec : dict string LayerSpec) : outcome (list KVCacheGroupSpec) :=
  mapM (project_group worker_spec) gs.

(** The specs of all workers in one dict. *)
Definition merge_layer (acc : outcome (dict string LayerSpec)) (x : string * LayerSpec) : outcome (dict string LayerSpec) :=
  d ← acc;
  match od_get x.1 d with
  | None => Ret (d ++ [x])
  | Some s => check (bool_decide (s = x.2)) AssertionError ;; Ret d
  end.
Definition merge_worker_specs (kv_cache_specs : list (dict string LayerSpec)) : outcome (dict string LayerSpec) :=
  foldl merge_layer (Ret []) (concat kv_cache_specs).

(** The memory check of every worker. *)
Fixpoint check_workers c (workers : list (list KVCacheGroupSpec * Z)) : outcome unit :=
  match workers with
  | [] => Ret tt
  | (gs, avail_mem) :: rest =>
      (if bool_decide (length gs = 0%nat) then Ret tt
       else check_enough avail_mem (max_memory_from_groups c gs) (estimate_max_model_len_from_groups c gs)) ;;
      check_workers c rest
  end.

Definition worker_config c (x : list KVCacheGroupSpec * dict string LayerSpec * Z) : outcome KVCacheConfig :=
  let '(gs, spec, available_memory) := x in
  check (sum_Z (num_layers <$> gs) =? Z.of_nat (length spec)) AssertionError ;;
  get_kv_cache_config_from_groups c gs available_memory.

(** [tensor.size = tensor.size // old * new], with its assertion. *)
Definition resize_tensor (old new : Z) (t : KVCacheTensor) : outcome KVCacheTensor :=
  if old =? 0 then Raise ZeroDivisionError
  else check (tensor_size t mod old =? 0) AssertionError ;; Ret (mkTensor (tensor_size t / old * new) (shared_by t)).

Definition set_blocks (n : Z) (tensors : list KVCacheTensor) (per_group : option (list Z)) (k : KVCacheConfig) : KVCacheConfig :=
  mkCacheConfig n tensors (kv_cache_groups k) per_group (dsa_index_topk k) (dsa_num_speculative_tokens k).

(** One pool: the tensors hold [extra] slots more than blocks. *)
Definition shrink_scalar (extra min_num_blocks : Z) (k : KVCacheConfig) : outcome KVCacheConfig :=
  if cfg_num_blocks k =? min_num_blocks then Ret k
  else
    tensors ← mapM (resize_tensor (cfg_num_blocks k + extra) (min_num_blocks + extra)) (kv_cache_tensors k);
    Ret (set_blocks min_num_blocks tensors (num_blocks_per_group k) k).

(** A pool per group: the tensors follow the layers of the groups. *)
Fixpoint shrink_groups (groups : list (KVCacheGroupSpec * (Z * Z))) (tensors : list KVCacheTensor) : outcome (list KVCacheTensor) :=
  match groups with
  | [] => Ret tensors
  | (g, (old, new)) :: rest =>
      let n := length (layer_names g) in
      if (length tensors <? n)%nat then Raise StopIteration
      else
        mine ← mapM (λ t, if old =? 0 then Raise ZeroDivisionError
                          else check (tensor_size t mod old =? 0) AssertionError ;;
                            Ret (if new =? old then t else mkTensor (tensor_size t / old * new) (shared_by t))) (take n tensors);
        others ← shrink_groups rest (drop n tensors);
        Ret (mine ++ others)
  end.
Definition shrink_per_group (min_blocks_per_group : list Z) (k : KVCacheConfig) : outcome KVCacheConfig :=
  let old := default [] (num_blocks_per_group k) in
  tensors ← shrink_groups (zip (kv_cache_groups k) (zip old min_blocks_per_group)) (kv_cache_tensors k);
  n ← py_max min_blocks_per_group;
  Ret (set_blocks n tensors (Some min_blocks_per_group) k).

(** [use_dsa_shared], for one configuration. *)
Definition uses_dsa_shared c (k : KVCacheConfig) : outcome bool :=
  if dsa_two_groups_enabled c && dsa_shared_pool_enabled c && (Z.of_nat (length (kv_cache_groups k)) =? 2)
  then ps ← group_pages (kv_cache_groups k); Ret (1 <? distinct ps) else Ret false.

(** The block counts made equal on all workers. *)
Definition reconcile c (ks : list KVCacheConfig) : outcome (list KVCacheConfig) :=
  shared ← mapM (uses_dsa_shared c) ks;
  let use_dsa_shared := forallb id shared in
  if negb use_dsa_shared && forallb (λ k, bool_decide (is_Some (num_blocks_per_group k))) ks then
    match ks with
    | [] => Raise IndexError
    | k0 :: _ =>
        let num_groups := length (default [] (num_blocks_per_group k0)) in
        check (forallb (λ k, bool_decide (length (default [] (num_blocks_per_group k)) = num_groups)) ks) AssertionError ;;
        mins ← mapM (λ i, py_min ((λ k, default 0 (default [] (num_blocks_per_group k) !! i)) <$> ks)) (seq 0 num_groups);
        mapM (shrink_per_group mins) ks
    end
  else
    min_num_blocks ← py_min (cfg_num_blocks <$> ks);
    mapM (shrink_scalar (if use_dsa_shared then 1 else 0) min_num_blocks) ks.

(** [get_kv_cache_configs]: the configurations, and the configuration of the engine with the
    length that was fitted. *)
Definition get_kv_cache_configs c (kv_cache_specs : list (dict string LayerSpec)) (available_memory : list Z) :
    outcome (VllmConfig * list KVCacheConfig) :=
  merged ← merge_worker_specs kv_cache_specs;
  global_groups ← get_kv_cache_groups c merged;
  projected ← mapM (project_kv_cache_groups_to_worker global_groups) kv_cache_specs;
  c' ← (if original_max_model_len c =? -1 then auto_fit_max_model_len c projected available_memory else Ret c);
  check_workers c' (zip projected available_memory) ;;
  ks ← mapM (worker_config c') (zip (zip projected kv_cache_specs) available_memory);
  ks' ← reconcile c' ks;
  Ret (c', ks').

(** [generate_scheduler_kv_cache_config]. *)
Definition scheduler_group g : outcome KVCacheGroupSpec :=
  match kv_cache_spec g with
  | UniformTypeKVCacheSpecs _ [] => Raise StopIteration
  | UniformTypeKVCacheSpecs _ ((_, s) :: _) => Ret (mkGroup (layer_names g) (OneSpec s))
  | OneSpec _ => Ret g
  end.
Definition generate_scheduler_kv_cache_config (ks : list KVCacheConfig) : outcome KVCacheConfig :=
  match ks with
  | [] => Raise IndexError
  | k0 :: _ =>
      check (forallb (λ k, cfg_num_blocks k =? cfg_num_blocks k0) ks) AssertionError ;;
      groups ← mapM scheduler_group (kv_cache_groups k0);
      Ret (mkCacheConfig (cfg_num_blocks k0) (kv_cache_tensors k0) groups (num_blocks_per_group k0) (dsa_index_topk k0) (dsa_num_speculative_tokens k0))
  end.

(** [get_max_concurrency_for_kv_cache_config]: the numerator and the denominator of the quotient. *)
Definition max_concurrency c (k : KVCacheConfig) : outcome (Z * Z) :=
  let gs := kv_cache_groups k in
  dsa ← dsa_mode c gs;
  den ← (if (dsa : bool) then
      if dsa_shared_pool_enabled c then
        latent ← largest_page gs; indexer ← smallest_page gs;
        latent_page ← group_page latent; indexer_page ← group_page indexer;
        let bundle_page := Z.lcm latent_page indexer_page in
        blocks ← py_cdiv (max_model_len c) (group_block_size (kv_cache_spec latent));
        per_latent ← floordiv bundle_page latent_page;
        b0 ← py_cdiv blocks per_latent;
        per_indexer ← floordiv bundle_page indexer_page;
        b1 ← py_cdiv blocks per_indexer;
        Ret (b0 + b1)
      else bs ← mapM (λ g, py_cdiv (max_model_len c) (group_block_size (kv_cache_spec g))) gs; py_max bs
    else
      num_layer_per_group ← py_max (num_layers <$> gs);
      ms ← mapM (λ g, group_max_memory_usage_bytes c (kv_cache_spec g)) gs;
      match gs with
      | [] => Raise IndexError
      | g0 :: _ => page ← group_page g0; py_cdiv (num_layer_per_group * sum_Z ms) (page * num_layer_per_group)
      end);
  if den =? 0 then Raise ZeroDivisionError else Ret (cfg_num_blocks k, den).
