(* ===== verification/KVEstimate.v ===== *)
(** The estimate of the longest model that fits: the memory of a request grows with the length of
    the model, so that the binary search returns the largest length that fits. *)
From S2P Require Import Prelude Dict KVSpec KVConfig.
From stdpp Require Import strings.
Local Open Scope Z_scope.

(** ** The binary search *)

Section search.
Variables (fits : Z → outcome bool) (f : Z → bool).
Hypothesis fits_returns : ∀ n, 1 ≤ n → fits n = Ret (f n).
Hypothesis f_down : ∀ n n', n ≤ n' → f n' = true → f n = true.

Lemma search_len_spec fuel left right result : f 1 = true → 1 ≤ left ≤ right + 1 → 1 ≤ right → right - left < Z.of_nat fuel →
  result = Z.max 1 (left - 1) → f result = true →
  ∃ n, search_len fuel fits left right result = Ret n ∧ result ≤ n ≤ right ∧ f n = true ∧ (n < right → f (n + 1) = false).
Proof.
  intros H1. revert left right result. induction fuel as [|fuel IH]; intros left right result Hl Hr Hfuel -> Hres; simpl;
    (destruct (Z.leb_spec left right); [|eexists; split_and!; [done|lia|lia|done|lia]]); [lia|].
  set (mid := (left + right) / 2). assert (left ≤ mid ≤ right) as Hmid by (subst mid; split; [apply Z.div_le_lower_bound|apply Z.div_le_upper_bound]; lia).
  rewrite fits_returns by lia. simpl. destruct (f mid) eqn:Hf.
  - destruct (IH (mid + 1) right mid) as (n & G1 & G2 & G3 & G4); [lia..|done|]. exists n. split_and!; [done|lia|lia|done|done].
  - assert (mid ≠ 1) by congruence. destruct (IH left (mid - 1) (Z.max 1 (left - 1))) as (n & G1 & G2 & G3 & G4); [lia|lia|lia|done|done|].
    exists n. split_and!; [done|lia|lia|done|].
    intros _. destruct (decide (n < mid - 1)) as [|Hn]; [by apply G4|]. by replace (n + 1) with mid by lia.
Qed.

(** The search returns the largest length up to the maximum that fits, zero when none does. *)
Lemma longest_fitting_exact m : 1 ≤ m → ∃ n, longest_fitting fits m = Ret n ∧ 0 ≤ n ≤ m ∧ ∀ k, 1 ≤ k ≤ m → f k = true ↔ k ≤ n.
Proof.
  intros Hm. unfold longest_fitting. rewrite fits_returns by lia. simpl. destruct (f 1) eqn:H1.
  - destruct (search_len_spec (Z.to_nat m) 1 m 1) as (n & Hn & Hb & Ht & Hf); [done|lia|lia|lia|done|done|]. exists n. split_and!; [done|lia|lia|].
    intros k Hk. split; [|intros; by apply (f_down k n)]. intros Hfk. destruct (decide (k ≤ n)) as [|Hkn]; [done|].
    apply (f_down (n + 1)) in Hfk; [|lia]. rewrite Hf in Hfk; [done|lia].
  - exists 0. split_and!; [done|lia|lia|]. intros k Hk. split; [|lia]. intros Hfk. apply (f_down 1) in Hfk; [congruence|lia].
Qed.
End search.

(** ** Memory as a function of the length *)

(** [F n] returns for every length and does not fall as the length grows. *)
Definition grows (F : Z → outcome Z) : Prop :=
  ∃ u, (∀ n, F n = Ret (u n)) ∧ ∀ n n', n ≤ n' → u n ≤ u n'.

Lemma grows_const a : grows (λ _, Ret a).
Proof. exists (λ _, a). split; [done|lia]. Qed.

Lemma grows_bind F (h : Z → Z) : grows F → (∀ a b, a ≤ b → h a ≤ h b) → grows (λ n, a ← F n; Ret (h a)).
Proof. intros (u & Hu & Hm) Hh. exists (λ n, h (u n)). split; [intros n; by rewrite Hu|]. intros. by apply Hh, Hm. Qed.

Lemma grows_bind_out F (H : Z → outcome Z) (h : Z → Z) : grows F → (∀ a, H a = Ret (h a)) → (∀ a b, a ≤ b → h a ≤ h b) → grows (λ n, a ← F n; H a).
Proof. intros (u & Hu & Hm) HH Hh. exists (λ n, h (u n)). split; [intros n; rewrite Hu; simpl; by rewrite HH|]. intros. by apply Hh, Hm. Qed.

Lemma grows_mapM {A} (F : Z → A → outcome Z) (xs : list A) : (∀ x, x ∈ xs → grows (λ n, F n x)) →
  ∃ us, (∀ n, mapM (F n) xs = Ret (us n)) ∧ ∀ n n', n ≤ n' → Forall2 Z.le (us n) (us n').
Proof.
  induction xs as [|x xs IH]; intros Hxs; [by exists (λ _, [])|].
  destruct (Hxs x) as (u & Hu & Hm); [by left|]. destruct IH as (us & Hus & Hms); [intros y Hy; apply Hxs; by right|].
  exists (λ n, u n :: us n). split; [intros n; simpl; by rewrite Hu, Hus|]. intros n n' Hn. constructor; [by apply Hm|by apply Hms].
Qed.

Lemma sum_Z_mono xs ys : Forall2 Z.le xs ys → sum_Z xs ≤ sum_Z ys.
Proof. induction 1; simpl; lia. Qed.

Lemma foldl_max_mono xs ys : Forall2 Z.le xs ys → ∀ x y, x ≤ y → foldl Z.max x xs ≤ foldl Z.max y ys.
Proof. induction 1 as [|a b xs ys Hab _ IH]; intros x y Hxy; simpl; [done|]. apply IH. lia. Qed.

Lemma grows_sum {A} (F : Z → A → outcome Z) (xs : list A) : (∀ x, x ∈ xs → grows (λ n, F n x)) → grows (λ n, ms ← mapM (F n) xs; Ret (sum_Z ms)).
Proof.
  intros H. destruct (grows_mapM F xs H) as (us & Hus & Hm). exists (λ n, sum_Z (us n)). split; [intros n; by rewrite Hus|].
  intros n n' Hn. by apply sum_Z_mono, Hm.
Qed.

Lemma grows_max {A} (F : Z → A → outcome Z) (xs : list A) : xs ≠ [] → (∀ x, x ∈ xs → grows (λ n, F n x)) → grows (λ n, ms ← mapM (F n) xs; py_max ms).
Proof.
  intros Hne H. destruct (grows_mapM F xs H) as (us & Hus & Hm).
  assert (Hcons : ∀ n, us n ≠ []).
  { intros n Hn. pose proof (Hus n) as Hn'. rewrite Hn in Hn'. destruct xs as [|x xs]; [done|]. simpl in Hn'.
    destruct (F n x); [|done]. simpl in Hn'. destruct (mapM (F n) xs); by simpl in Hn'. }
  exists (λ n, foldl Z.max (hd 0 (us n)) (tl (us n))). split.
  - intros n. rewrite Hus. simpl. specialize (Hcons n). by destruct (us n).
  - intros n n' Hn. specialize (Hm n n' Hn). destruct Hm as [|a b xs' ys' Hab Hxs']; [by simpl|]. simpl. by apply foldl_max_mono.
Qed.

Lemma grows_ext F G : (∀ n, F n = G n) → grows F → grows G.
Proof. intros He (u & Hu & Hm). exists u. split; [|done]. intros n. by rewrite <-He. Qed.

(** ** Layers and groups *)

(** A layer that can be sized: positive blocks and pages, and no context parallelism under a
    sliding window. *)
Record layer_ok (c : VllmConfig) (s : LayerSpec) : Prop := {
  lo_page : ∃ p, page_size_bytes s = Ret p ∧ 0 < p;
  lo_block : 0 < layer_block_size s;
  lo_window : is_sliding_window s = true → decode_context_parallel_size c = 1;
}.

Lemma py_cdiv_pos a b : 0 < b → py_cdiv a b = Ret (cdiv a b).
Proof. intros Hb. unfold py_cdiv. by destruct (Z.eqb_spec b 0); [lia|]. Qed.
Lemma floordiv_pos a b : 0 < b → floordiv a b = Ret (a / b).
Proof. intros Hb. unfold floordiv. by destruct (Z.eqb_spec b 0); [lia|]. Qed.

Lemma layer_grows c s : layer_ok c s → grows (λ n, max_memory_usage_bytes (set_max_model_len n c) s).
Proof.
  intros [(p & Hp & Hpos) Hb Hw].
  assert (Hpages : ∀ h : Z → Z, (∀ a b, a ≤ b → h a ≤ h b) → grows (λ n, b ← py_cdiv (h n) (layer_block_size s); q ← page_size_bytes s; Ret (b * q))).
  { intros h Hh. exists (λ n, cdiv (h n) (layer_block_size s) * p). split; [intros n; rewrite py_cdiv_pos, Hp by done; done|].
    intros n n' Hn. apply Z.mul_le_mono_nonneg_r; [lia|]. by apply cdiv_mono, Hh. }
  destruct s; simpl in *; try (apply grows_const).
  1-3: apply Hpages; intros; destruct (Z.ltb_spec 1 (decode_context_parallel_size c * prefill_context_parallel_size c)); [apply cdiv_mono; lia|done].
  - apply (Hpages (λ n, Z.min (attention_chunk_size + max_num_batched_tokens c) n)). lia.
  - rewrite Hw by done. simpl. exists (λ n, (cdiv (Z.min (sliding_window - 1 + max_num_batched_tokens c) n) (att_block_size a) + 1) * p).
    split; [intros n; rewrite py_cdiv_pos, Hp by done; done|]. intros n n' Hn. apply Z.mul_le_mono_nonneg_r; [lia|].
    apply Z.add_le_mono_r, cdiv_mono; lia.
  - case_bool_decide; [by apply (Hpages (λ n, n))|]. rewrite Hp. apply grows_const.
  - apply (Hpages (λ _, max_num_encoder_input_tokens c)). lia.
Qed.

Definition group_ok (c : VllmConfig) (g : GroupSpec) : Prop :=
  match g with OneSpec s => layer_ok c s | UniformTypeKVCacheSpecs _ d => d ≠ [] ∧ Forall (layer_ok c) (d.*2) end.

(** Groups that can be sized: without the two-group mode, all have the same page. *)
Record groups_ok (c : VllmConfig) (gs : list KVCacheGroupSpec) : Prop := {
  gk_each g : g ∈ gs → group_ok c (kv_cache_spec g);
  gk_pages g g' : g ∈ gs → g' ∈ gs → dsa_two_groups_enabled c = false → group_page g = group_page g';
}.

Lemma pages_return c (specs : list LayerSpec) : Forall (layer_ok c) specs →
  ∃ ps, mapM page_size_bytes specs = Ret ps ∧ Forall (Z.lt 0) ps ∧ length ps = length specs.
Proof.
  induction 1 as [|s specs [(p & Hp & Hpos) _ _] _ (ps & Hps & Hall & Hlen)]; [by exists []|].
  exists (p :: ps). simpl. rewrite Hp, Hps. simpl. split_and!; [done|by constructor|lia].
Qed.

Lemma sum_Z_pos xs : Forall (Z.lt 0) xs → xs ≠ [] → 0 < sum_Z xs.
Proof.
  intros H Hne. destruct H as [|x xs Hx Hxs]; [done|]. simpl. assert (0 ≤ sum_Z xs); [|lia]. clear -Hxs. induction Hxs; simpl; lia.
Qed.

Lemma group_page_ok c g : group_ok c (kv_cache_spec g) → ∃ p, group_page g = Ret p ∧ 0 < p.
Proof.
  unfold group_page. destruct (kv_cache_spec g) as [s|b d]; simpl; [by intros [? _ _]|]. intros [Hne Hd].
  destruct (pages_return c _ Hd) as (ps & -> & Hpos & Hlen). exists (sum_Z ps). split; [done|]. apply sum_Z_pos; [done|].
  intros ->. destruct d; [done|]. by simpl in Hlen.
Qed.

Lemma group_grows c g : group_ok c g → grows (λ n, group_max_memory_usage_bytes (set_max_model_len n c) g).
Proof.
  destruct g as [s|b d]; intros Hok; [by apply layer_grows|]. pose proof Hok as [Hne Hd].
  destruct (group_page_ok c (mkGroup [] (UniformTypeKVCacheSpecs b d)) Hok) as (p & Hp & Hpos). unfold group_page in Hp. cbn [kv_cache_spec] in Hp.
  unfold group_max_memory_usage_bytes. rewrite Hp. simpl.
  set (F n s := m ← max_memory_usage_bytes (set_max_model_len n c) s; q ← page_size_bytes s; py_cdiv m q).
  assert (Hmax : grows (λ n, ns ← mapM (F n) (d.*2); py_max ns)).
  { apply grows_max; [by destruct d|]. intros s Hs. rewrite Forall_forall in Hd. pose proof (Hd s Hs) as Hl.
    destruct (lo_page _ _ Hl) as (q & Hq & Hqpos). subst F. simpl. apply (grows_bind_out _ _ (λ m, cdiv m q)); [by apply layer_grows|intros m|].
    - rewrite Hq. simpl. by apply py_cdiv_pos.
    - intros a a' Ha. by apply cdiv_mono. }
  destruct Hmax as (u & Hu & Hm). exists (λ n, u n * p). split.
  - intros n. specialize (Hu n). change (mapM _ _) with (mapM (F n) (d.*2)). destruct (mapM (F n) d.*2) as [ns|e]; [|done]. simpl in Hu |- *. by rewrite Hu.
  - intros n n' Hn. apply Z.mul_le_mono_nonneg_r; [lia|]. by apply Hm.
Qed.

Lemma group_pages_ok c gs : groups_ok c gs → ∃ ps, group_pages gs = Ret ps ∧ Forall2 (λ g p, group_page g = Ret p ∧ 0 < p) gs ps.
Proof.
  intros [Hg _]. unfold group_pages. induction gs as [|g gs IH]; [by exists []|].
  destruct (group_page_ok c g) as (p & Hp & Hpos); [apply Hg; by left|]. destruct IH as (ps & Hps & Hall); [intros; apply Hg; by right|].
  exists (p :: ps). simpl. rewrite Hp, Hps. split; [done|]. by constructor.
Qed.

Lemma remove_dups_same (x : Z) xs : (∀ y, y ∈ xs → y = x) → xs ≠ [] → remove_dups xs = [x].
Proof.
  intros Hall Hne. induction xs as [|y xs IH]; [done|]. simpl. assert (y = x) as -> by (apply Hall; by left).
  destruct xs as [|z xs]; [by simpl|]. case_decide as Hin.
  - apply IH; [|done]. intros w Hw. apply Hall. by right.
  - destruct Hin. assert (z = x) as -> by (apply Hall; right; by left). by left.
Qed.

(** Without two-group mode the page is that of any group. *)
Lemma uniform_page_ok c gs g : groups_ok c gs → g ∈ gs → (∀ g' g'', g' ∈ gs → g'' ∈ gs → group_page g' = group_page g'') →
  ∃ p, get_uniform_page_size gs = Ret p ∧ group_page g = Ret p ∧ 0 < p.
Proof.
  intros Hok Hg Hsame. destruct (group_pages_ok c gs Hok) as (ps & Hps & Hall). destruct (group_page_ok c g) as (p & Hp & Hpos); [by apply Hok|].
  exists p. split_and!; [|done|done]. unfold get_uniform_page_size. rewrite Hps. simpl. rewrite (remove_dups_same p); [done| |].
  - intros q Hq. apply list_elem_of_lookup in Hq as [i Hq]. destruct (Forall2_lookup_r _ _ _ _ _ Hall Hq) as (g' & Hg' & Hp' & _).
    rewrite (Hsame g' g (list_elem_of_lookup_2 _ _ _ Hg') Hg), Hp in Hp'. congruence.
  - intros ->. apply Forall2_nil_inv_r in Hall as ->. by apply elem_of_nil in Hg.
Qed.

Lemma mode_uniform c gs : groups_ok c gs → dsa_mode c gs = Ret false → ∀ g g', g ∈ gs → g' ∈ gs → group_page g = group_page g'.
Proof.
  intros Hok Hm g g' Hg Hg'. unfold dsa_mode in Hm. destruct (dsa_two_groups_enabled c) eqn:Hd; [|by apply (gk_pages _ _ Hok)].
  destruct (group_pages_ok c gs Hok) as (ps & Hps & Hall). rewrite Hps in Hm. simpl in Hm. injection Hm as Hm. apply Z.ltb_ge in Hm. unfold distinct in Hm.
  assert (Hone : ∀ x y, x ∈ ps → y ∈ ps → x = y).
  { intros x y Hx%elem_of_remove_dups Hy%elem_of_remove_dups. destruct (remove_dups ps) as [|a [|b l]]; [by apply elem_of_nil in Hx| |simpl in Hm; lia].
    apply list_elem_of_singleton in Hx, Hy. congruence. }
  apply list_elem_of_lookup in Hg as [i Hi], Hg' as [j Hj].
  destruct (Forall2_lookup_l _ _ _ _ _ Hall Hi) as (p & Hp & -> & _), (Forall2_lookup_l _ _ _ _ _ Hall Hj) as (q & Hq & -> & _).
  f_equal. apply Hone; by eapply list_elem_of_lookup_2.
Qed.

Lemma best_group_ok c better best page gs : groups_ok c gs → ∃ g, best_group better best page gs = Ret g ∧ (g = best ∨ g ∈ gs).
Proof.
  intros Hok. assert (Hps : ∀ g, g ∈ gs → ∃ p, group_page g = Ret p).
  { intros g Hg. destruct (group_page_ok c g) as (p & Hp & _); [by apply Hok|by exists p]. } clear Hok.
  revert best page. induction gs as [|g gs IH]; intros best page; [exists best; by split; [|left]|]. simpl.
  destruct (Hps g) as [p ->]; [by left|]. simpl. assert (Hps' : ∀ g', g' ∈ gs → ∃ p, group_page g' = Ret p) by (intros; apply Hps; by right).
  destruct (better p page); [destruct (IH Hps' g p) as (g' & H1 & H2)|destruct (IH Hps' best page) as (g' & H1 & H2)];
    exists g'; (split; [done|]); rewrite elem_of_cons; naive_solver.
Qed.

Lemma best_of_ok c better gs : groups_ok c gs → gs ≠ [] → ∃ g p, best_of better gs = Ret g ∧ g ∈ gs ∧ group_page g = Ret p ∧ 0 < p.
Proof.
  intros Hok Hne. destruct gs as [|g0 gs]; [done|]. simpl. destruct (group_page_ok c g0) as (p0 & Hp0 & _); [apply Hok; by left|]. rewrite Hp0. simpl.
  assert (Hok' : groups_ok c gs) by (destruct Hok as [H1 H2]; split; intros; [apply H1|apply H2]; try done; by right).
  destruct (best_group_ok c better g0 p0 gs Hok') as (g & Hg & Hin). assert (g ∈ g0 :: gs) as Hg' by (rewrite elem_of_cons; naive_solver).
  destruct (group_page_ok c g) as (p & Hp & Hpos); [by apply Hok|]. by exists g, p.
Qed.

Lemma py_max_cons x xs : py_max (x :: xs) = Ret (foldl Z.max x xs).
Proof. done. Qed.

Lemma lcm_ratio a b : 0 < a → 0 < b → 0 < Z.lcm a b / a.
Proof.
  intros Ha Hb. destruct (Z.divide_lcm_l a b) as [k Hk]. pose proof (Z.lcm_nonneg a b).
  assert (Z.lcm a b ≠ 0) by (rewrite Z.lcm_eq_0; lia). rewrite Hk, Z.div_mul by lia. nia.
Qed.

Lemma foldl_max_ge xs x : x ≤ foldl Z.max x xs.
Proof. revert x. induction xs as [|y xs IH]; intros x; simpl; [done|]. etrans; [|apply IH]. lia. Qed.

(** The branch of [max_memory_from_groups] for groups that differ. *)
Lemma groups_grow_dsa c gs : groups_ok c gs → gs ≠ [] →
  grows (λ n, max_memory_dsa (set_max_model_len n c) gs).
Proof.
  intros Hok Hne. unfold max_memory_dsa. cbn [dsa_shared_pool_enabled set_max_model_len]. destruct (dsa_shared_pool_enabled c).
  - destruct (best_of_ok c (λ p q, q <? p) gs Hok Hne) as (latent & lp & Hl & Hlin & Hlp & Hlpos).
    destruct (best_of_ok c (λ p q, p <? q) gs Hok Hne) as (indexer & ip & Hi & Hiin & Hip & Hipos).
    unfold largest_page, smallest_page. rewrite Hl, Hi. simpl. rewrite Hlp, Hip. simpl.
    pose proof (lcm_ratio lp ip Hlpos Hipos) as Hr1. pose proof (lcm_ratio ip lp Hipos Hlpos) as Hr2. rewrite Z.lcm_comm in Hr2.
    pose proof (Z.lcm_nonneg lp ip) as Hlcm.
    apply (grows_bind_out _ _ (λ m, num_layers latent * (cdiv (cdiv m lp) (Z.lcm lp ip / lp) + cdiv (cdiv m lp) (Z.lcm lp ip / ip) + 1) * Z.lcm lp ip)).
    + by apply group_grows, Hok.
    + intros m. rewrite py_cdiv_pos by done. simpl. rewrite floordiv_pos by done. simpl. rewrite py_cdiv_pos by done. simpl.
      rewrite floordiv_pos by done. simpl. by rewrite py_cdiv_pos by done.
    + intros a a' Ha. assert (cdiv a lp ≤ cdiv a' lp) as Hd by by apply cdiv_mono.
      pose proof (cdiv_mono _ _ (Z.lcm lp ip / lp) Hr1 Hd). pose proof (cdiv_mono _ _ (Z.lcm lp ip / ip) Hr2 Hd).
      apply Z.mul_le_mono_nonneg_r; [done|]. apply Z.mul_le_mono_nonneg_l; [unfold num_layers|]; lia.
  - apply grows_sum. intros g Hg. destruct (group_page_ok c g) as (p & Hp & Hpos); [by apply Hok|]. rewrite Hp. simpl.
    apply (grows_bind_out _ _ (λ m, num_layers g * cdiv m p * p)); [by apply group_grows, Hok| |].
    + intros m. by rewrite py_cdiv_pos.
    + intros a a' Ha. apply Z.mul_le_mono_nonneg_r; [lia|]. apply Z.mul_le_mono_nonneg_l; [unfold num_layers; lia|]. by apply cdiv_mono.
Qed.

(** The general branch. *)
Lemma groups_grow_general c g0 gs : groups_ok c (g0 :: gs) → (∀ g g', g ∈ g0 :: gs → g' ∈ g0 :: gs → group_page g = group_page g') →
  grows (λ n, max_memory_general (set_max_model_len n c) g0 (g0 :: gs)).
Proof.
  intros Hok Hsame. unfold max_memory_general. destruct (uniform_page_ok c (g0 :: gs) g0 Hok) as (p & Hp & _ & Hpos); [by left|done|]. rewrite Hp.
  cbn [fmap list_fmap]. rewrite py_max_cons. cbn [mbind outcome_bind].
  pose proof (foldl_max_ge (num_layers <$> gs) (num_layers g0)) as Hge. set (size := foldl Z.max _ _) in *.
  assert (0 ≤ size) by (unfold num_layers in Hge; lia).
  apply (grows_bind_out _ _ (λ m, size * p * cdiv m p)); [apply group_grows, Hok; by left| |].
  - intros m. by rewrite py_cdiv_pos.
  - intros a a' Ha. apply Z.mul_le_mono_nonneg_l; [nia|]. by apply cdiv_mono.
Qed.

Lemma groups_grow c gs : groups_ok c gs → grows (λ n, max_memory_from_groups (set_max_model_len n c) gs).
Proof.
  intros Hok. destruct gs as [|g0 gs]; [apply grows_const|].
  assert (Hgen : grows (λ n, dsa ← dsa_mode c (g0 :: gs); if (dsa : bool) then max_memory_dsa (set_max_model_len n c) (g0 :: gs) else max_memory_general (set_max_model_len n c) g0 (g0 :: gs))).
  2: { destruct g0 as [names [s|b d]]; [exact Hgen|]. destruct gs as [|g1 gs]; [|exact Hgen].
       simpl. apply grows_sum. intros s Hs. destruct (gk_each _ _ Hok (mkGroup names (UniformTypeKVCacheSpecs b d))) as [_ Hd]; [by left|].
       rewrite Forall_forall in Hd. by apply layer_grows, Hd. }
  assert (Hm : ∃ m, dsa_mode c (g0 :: gs) = Ret m).
  { unfold dsa_mode. destruct (dsa_two_groups_enabled c); [|by eexists]. destruct (group_pages_ok c _ Hok) as (ps & -> & _). by eexists. }
  destruct Hm as [m Hm]. rewrite Hm. simpl. destruct m; [by apply groups_grow_dsa|]. apply groups_grow_general; [done|]. by apply (mode_uniform c).
Qed.

(** A request of length [n] fits. *)
Definition fits_groups (c : VllmConfig) (gs : list KVCacheGroupSpec) (available n : Z) : Prop :=
  ∃ m, max_memory_from_groups (set_max_model_len n c) gs = Ret m ∧ m ≤ available.

Lemma estimate_groups c gs available : groups_ok c gs → 1 ≤ max_model_len c →
  ∃ n, estimate_max_model_len_from_groups c gs available = Ret n ∧ 0 ≤ n ≤ max_model_len c ∧
    ∀ k, 1 ≤ k ≤ max_model_len c → fits_groups c gs available k ↔ k ≤ n.
Proof.
  intros Hok Hm. destruct (groups_grow c gs Hok) as (u & Hu & Hmono).
  destruct (longest_fitting_exact (λ n, m ← max_memory_from_groups (set_max_model_len n c) gs; Ret (m <=? available)) (λ n, u n <=? available)) with (m := max_model_len c)
    as (n & H1 & H2 & H3); [intros k _; by rewrite Hu| |done|].
  - intros k k' Hk. rewrite !Z.leb_le. specialize (Hmono k k' Hk). lia.
  - exists n. split_and!; [exact H1|lia|lia|]. intros k Hk. rewrite <-H3, Z.leb_le by done. unfold fits_groups. rewrite Hu. split.
    + intros (m & [= <-] & ?). done.
    + intros ?. by eexists.
Qed.

Lemma estimate_layers c (d : dict string LayerSpec) available : Forall (layer_ok c) (d.*2) → 1 ≤ max_model_len c →
  ∃ n, estimate_max_model_len c d available = Ret n ∧ 0 ≤ n ≤ max_model_len c ∧
    ∀ k, 1 ≤ k ≤ max_model_len c → (∃ m, specs_max_memory (set_max_model_len k c) (d.*2) = Ret m ∧ m ≤ available) ↔ k ≤ n.
Proof.
  intros Hok Hm. assert (Hg : grows (λ n, specs_max_memory (set_max_model_len n c) (d.*2))).
  { apply grows_sum. intros s Hs. rewrite Forall_forall in Hok. by apply layer_grows, Hok. } destruct Hg as (u & Hu & Hmono).
  destruct (longest_fitting_exact (λ n, m ← specs_max_memory (set_max_model_len n c) (d.*2); Ret (m <=? available)) (λ n, u n <=? available)) with (m := max_model_len c)
    as (n & H1 & H2 & H3); [intros k _; by rewrite Hu| |done|].
  - intros k k' Hk. rewrite !Z.leb_le. specialize (Hmono k k' Hk). lia.
  - exists n. split_and!; [exact H1|lia|lia|]. intros k Hk. rewrite <-H3, Z.leb_le by done. rewrite Hu. split.
    + intros (m & [= <-] & ?). done.
    + intros ?. by eexists.
Qed.

(** ** Fitting the length to all workers *)

Definition worker_ok (c : VllmConfig) (x : list KVCacheGroupSpec * Z) : Prop := groups_ok c x.1.

Lemma auto_fit_loop_exact c workers limit : Forall (worker_ok c) workers → 0 ≤ limit ≤ max_model_len c → 1 ≤ max_model_len c →
  ∃ n, auto_fit_loop c workers limit = Ret n ∧ 0 ≤ n ≤ limit ∧
    ∀ k, 1 ≤ k ≤ limit → (∀ gs a, (gs, a) ∈ workers → gs ≠ [] → fits_groups c gs a k) ↔ k ≤ n.
Proof.
  intros Hall. revert limit. induction Hall as [|[gs a] workers Hok _ IH]; intros limit Hl Hm.
  { exists limit. split_and!; [done|lia|lia|]. intros k Hk. split; [lia|]. by intros _ gs a ?%elem_of_nil. }
  simpl. case_bool_decide as Hgs.
  - destruct (IH limit Hl Hm) as (n & H1 & H2 & H3). exists n. split_and!; [done|lia|lia|]. intros k Hk. rewrite <-H3 by done.
    split; [intros H gs' a' Hin; apply H; by right|]. intros H gs' a' [[= -> ->]|Hin]%elem_of_cons Hne; [by destruct gs|by apply H].
  - destruct (estimate_groups c gs a Hok Hm) as (w & Hw & Hwb & Hwf). rewrite Hw. simpl.
    destruct (IH (Z.min w limit)) as (n & H1 & H2 & H3); [lia|done|]. exists n. split_and!; [done|lia|lia|]. intros k Hk.
    assert (Hgs' : gs ≠ []) by (by destruct gs). split.
    + intros H. assert (k ≤ w) by (apply Hwf; [lia|]; apply H; [by left|done]). apply H3; [lia|]. intros gs' a' Hin. apply H. by right.
    + intros Hkn gs' a' [[= -> ->]|Hin]%elem_of_cons Hne; [apply Hwf; lia|]. by apply (proj2 (H3 k ltac:(lia)) Hkn gs' a').
Qed.

(** C23: the model length is fitted exactly. For groups that can be sized, the binary search
    returns the largest length up to the configured one for which a request fits into the
    memory, and zero when not even one token fits; and fitting the length to all workers keeps
    the configured length when it fits on every worker, else sets the largest length that does,
    and refuses exactly when no length does. *)
Theorem model_len_fitted c workers : Forall (worker_ok c) workers → 1 ≤ max_model_len c → Exists (λ gs, gs ≠ []) (workers.*1) →
  (∀ gs a, (gs, a) ∈ workers → ∃ n, estimate_max_model_len_from_groups c gs a = Ret n ∧ 0 ≤ n ≤ max_model_len c ∧
     ∀ k, 1 ≤ k ≤ max_model_len c → fits_groups c gs a k ↔ k ≤ n) ∧
  let fits k := ∀ gs a, (gs, a) ∈ workers → gs ≠ [] → fits_groups c gs a k in
  match auto_fit_max_model_len c (workers.*1) (workers.*2) with
  | Ret c' => ∃ n, c' = set_max_model_len n c ∧ 1 ≤ n ≤ max_model_len c ∧ ∀ k, 1 ≤ k ≤ max_model_len c → fits k ↔ k ≤ n
  | Raise e => e = ValueError ∧ ∀ k, 1 ≤ k ≤ max_model_len c → ¬ fits k
  end.
Proof.
  intros Hall Hm Hex. split.
  { intros gs a Hin. rewrite Forall_forall in Hall. apply estimate_groups; [by apply (Hall (gs, a))|done]. }
  intros fits. unfold auto_fit_max_model_len. destruct (forallb _ _) eqn:Hnone.
  { rewrite forallb_forall in Hnone. apply Exists_exists in Hex as (gs & Hgs & Hgne). apply list_elem_of_In, Hnone in Hgs.
    apply bool_decide_eq_true in Hgs. by destruct gs. }
  destruct (workers.*2) as [|a0 as_] eqn:Hmem; [destruct workers; [by apply Exists_nil in Hex|done]|]. rewrite <-Hmem.
  rewrite zip_fst_snd. destruct (auto_fit_loop_exact c workers (max_model_len c) Hall ltac:(lia) Hm) as (n & H1 & H2 & H3).
  rewrite H1. simpl. destruct (Z.leb_spec n 0).
  - split; [done|]. intros k Hk Hf. apply H3 in Hf; lia.
  - destruct (Z.leb_spec (max_model_len c) n).
    + exists (max_model_len c). split_and!; [by destruct c|lia|lia|]. intros k Hk. specialize (H3 k Hk). subst fits. simpl. split; [lia|]. intros _. apply H3. lia.
    + exists n. split_and!; [done|lia|lia|done].
Qed.

(** A model with a full-attention and a sliding-window layer on one worker. *)
Definition sample_attention : Attention := mkAttention 2 1 4 float16 None.
Definition full_layer : LayerSpec := FullAttentionSpec sample_attention (full_post_init sample_attention None None None).
Definition window_layer : LayerSpec := SlidingWindowSpec sample_attention 3.
Definition sample_config (len : Z) : VllmConfig :=
  mkVllmConfig len (-1) 1 1 2 0 "none" None false false true 0 None 0 11 None 1000 1.
Definition sample_groups : list KVCacheGroupSpec := [mkGroup ["f"%string] (OneSpec full_layer); mkGroup ["w"%string] (OneSpec window_layer)].

Lemma sample_groups_ok len : groups_ok (sample_config len) sample_groups.
Proof.
  split.
  - intros g [->|[->|[]%elem_of_nil]%elem_of_cons]%elem_of_cons; (split; [by eexists|done|done]).
  - intros g g' [->|[->|[]%elem_of_nil]%elem_of_cons]%elem_of_cons [->|[->|[]%elem_of_nil]%elem_of_cons]%elem_of_cons _; reflexivity.
Qed.

Lemma model_len_fitted_witness : ∃ n, auto_fit_max_model_len (sample_config 100) [sample_groups] [320] = Ret (set_max_model_len n (sample_config 100)) ∧
  n = 20 ∧ fits_groups (sample_config 100) sample_groups 320 n.
Proof.
  destruct (model_len_fitted (sample_config 100) [(sample_groups, 320)]) as (_ & H).
  - constructor; [apply sample_groups_ok|constructor].
  - done.
  - by left.
  - change ([(sample_groups, 320)].*1) with [sample_groups] in H. change ([(sample_groups, 320)].*2) with [320] in H.
    assert (Hr : auto_fit_max_model_len (sample_config 100) [sample_groups] [320] = Ret (set_max_model_len 20 (sample_config 100))) by (vm_compute; reflexivity).
    rewrite Hr in H. destruct H as (n & Hn & Hb & Hf). assert (n = 20) as -> by (by injection Hn). exists 20. split_and!; [exact Hr|done|].
    apply (proj2 (Hf 20 ltac:(simpl; lia)) ltac:(lia)); [by left|done].
Defined.
