(* ===== verification/KVGroups.v ===== *)
(** Grouping the layers: every layer is in exactly one group, no group is empty or larger than the
    group size, and the pages of the groups are those of their layers. *)
From S2P Require Import Prelude Dict KVSpec KVConfig KVEstimate.
From stdpp Require Import strings.
Local Open Scope Z_scope.

Lemma check_Ret b e u : check b e = Ret u ↔ b = true.
Proof. destruct b, u; simpl; done. Qed.

(** ** Splitting a list *)

Lemma length_every {A} n k (l : list A) : (0 < n)%nat → length (every n k l) = ((length l + n - 1 - k) / n)%nat.
Proof.
  intros Hn. revert k. induction l as [|x l IH]; intros k.
  - symmetry. apply Nat.div_small. simpl. lia.
  - destruct k as [|k]; cbn [every length]; rewrite IH.
    + replace (S (length l) + n - 1 - 0)%nat with (length l + 1 * n)%nat by lia. rewrite Nat.div_add by lia.
      replace (length l + n - 1 - pred n)%nat with (length l) by lia. lia.
    + f_equal. lia.
Qed.

Lemma every_partition {A} n (l : list A) : (0 < n)%nat → concat ((λ k, every n k l) <$> seq 0 n) ≡ₚ l.
Proof.
  intros Hn. induction l as [|x l IH].
  - clear. generalize 0%nat. induction n as [|n IH]; intros k; simpl; [done|]. destruct k; simpl; apply IH.
  - destruct n as [|n]; [lia|]. simpl. apply perm_skip. rewrite <-IH at 2. rewrite seq_S, fmap_app, concat_app. simpl. rewrite app_nil_r.
    rewrite Permutation_app_comm. f_equiv. rewrite <-fmap_S_seq, <-list_fmap_compose. done.
Qed.

Lemma py_range_seq n : 0 ≤ n → py_range 0 n = Z.of_nat <$> seq 0 (Z.to_nat n).
Proof. intros Hn. unfold py_range. rewrite Z.sub_0_r. apply list_fmap_ext. intros i x _. simpl. lia. Qed.

Lemma split_partition size layers : 0 < size → concat (split_layers size layers) ≡ₚ layers.
Proof.
  intros Hs. unfold split_layers, stride. set (n := cdiv _ _). destruct layers as [|x layers].
  { assert (n = 0) as -> by (apply cdiv_unique; simpl; lia). done. }
  assert (0 < n) by (pose proof (cdiv_spec (Z.of_nat (length (x :: layers))) size Hs); subst n; simpl in *; nia).
  rewrite py_range_seq by lia. rewrite <-list_fmap_compose. etrans; [|apply (every_partition (Z.to_nat n)); lia].
  apply Permutation_refl', f_equal. apply list_fmap_ext. intros i k _. simpl. by rewrite Nat2Z.id.
Qed.

Lemma split_sizes size layers l : 0 < size → l ∈ split_layers size layers → (0 < length l)%nat ∧ Z.of_nat (length l) ≤ size.
Proof.
  intros Hs. unfold split_layers, stride. set (n := cdiv _ _). intros (i & -> & Hi%elem_of_py_range)%list_elem_of_fmap.
  pose proof (cdiv_spec (Z.of_nat (length layers)) size Hs) as Hn. fold n in Hn. rewrite length_every by lia.
  assert (Hlen : n ≤ Z.of_nat (length layers)) by nia. set (len := length layers) in *. split.
  - apply Nat.div_str_pos. lia.
  - rewrite Nat2Z.inj_div, !Nat2Z.inj_sub, Nat2Z.inj_add, !Z2Nat.id by lia. apply Z.lt_succ_r, Z.div_lt_upper_bound; nia.
Qed.

(** ** Layers of the same spec *)

Lemma od_set_concat {K} `{EqDecision K} (k : K) (x : string) (acc : dict K (list string)) :
  concat ((od_set k (default [] (od_get k acc) ++ [x]) acc).*2) ≡ₚ concat (acc.*2) ++ [x].
Proof.
  induction acc as [|[k' v] acc IH]; simpl; [done|]. case_decide; simpl.
  - rewrite <-!app_assoc. f_equiv. apply Permutation_app_comm.
  - rewrite IH. by rewrite app_assoc.
Qed.

Lemma od_set_elem {K V} `{EqDecision K} (k : K) (v : V) d k' v' : NoDup (d.*1) → (k', v') ∈ od_set k v d → (k' = k ∧ v' = v) ∨ (k' ≠ k ∧ (k', v') ∈ d).
Proof.
  induction d as [|[k0 v0] d IH]; csimpl; intros Hnd.
  { intros [= -> ->]%list_elem_of_singleton. by left. }
  apply NoDup_cons in Hnd as [Hn Hnd]. case_decide as Hk.
  - subst k0. intros [[= -> ->]|Hin]%elem_of_cons; [by left|]. right. split; [|by right]. intros ->. apply Hn. by apply (list_elem_of_fmap_2' fst _ _ _ Hin).
  - intros [[= -> ->]|Hin]%elem_of_cons; [right; split; [done|by left]|]. destruct (IH Hnd Hin) as [|[? ?]]; [by left|right; split; [done|by right]].
Qed.

Lemma same_type_spec (d : dict string LayerSpec) : NoDup ((same_type_layers d).*1) ∧ concat ((same_type_layers d).*2) ≡ₚ d.*1 ∧
  ∀ s names, (s, names) ∈ same_type_layers d → names ≠ [] ∧ ∀ n, n ∈ names → (n, s) ∈ d.
Proof.
  unfold same_type_layers. induction d as [|[n s] d IH] using rev_ind.
  { split_and!; [constructor|done|]. by intros s names ?%elem_of_nil. }
  rewrite foldl_app. simpl. set (acc := foldl add_layer [] d) in *. destruct IH as (H1 & H2 & H3). unfold add_layer. simpl. split_and!.
  - by apply od_set_nodup.
  - rewrite od_set_concat, H2, fmap_app. done.
  - intros s' names [[-> ->]|[Hne Hin]]%od_set_elem; [| |done].
    + split; [by destruct (default [] _)|]. intros n' [Hn'| ->%list_elem_of_singleton]%elem_of_app; apply elem_of_app; [left|right; by left].
      destruct (od_get s acc) as [old|] eqn:Hold; [|by apply elem_of_nil in Hn']. apply od_get_Some in Hold; [|done]. by apply (H3 s old).
    + destruct (H3 s' names Hin) as [? Hall]. split; [done|]. intros n' Hn'. apply elem_of_app. left. by apply Hall.
Qed.

(** ** Every layer in one group *)

Definition partitions (gs : list KVCacheGroupSpec) (names : list string) : Prop :=
  concat (layer_names <$> gs) ≡ₚ names ∧ ∀ g, g ∈ gs → layer_names g ≠ [].

Lemma create_names d gl gs : create_kv_cache_group_specs d gl = Ret gs → layer_names <$> gs = gl.
Proof.
  intros H%mapM_Ret. induction H as [|names g gl gs Hg _ IH]; [done|]. simpl. f_equal; [|exact IH]. unfold create_group in Hg.
  apply bind_Ret in Hg as (specs & _ & Hg). apply bind_Ret in Hg as (s & _ & Hg). by injection Hg as <-.
Qed.

Lemma create_partitions d gl gs names : create_kv_cache_group_specs d gl = Ret gs → concat gl ≡ₚ names → (∀ l, l ∈ gl → l ≠ []) → partitions gs names.
Proof.
  intros H Hp Hne. apply create_names in H as Hn. split; [by rewrite Hn|]. intros g Hg. apply Hne. rewrite <-Hn. by apply list_elem_of_fmap_2.
Qed.

Lemma choose_group_size_pos counts size : choose_group_size counts = Ret size → Forall (Z.lt 0) counts → 0 < size.
Proof.
  unfold choose_group_size. destruct counts as [|x xs]; [done|]. simpl. intros [= <-] [Hx Hxs]%Forall_cons.
  assert (0 < foldl Z.min x xs).
  { clear -Hx Hxs. revert x Hx. induction Hxs as [|y xs Hy _ IH]; intros x Hx; simpl; [done|]. apply IH. lia. }
  pose proof (foldl_max_ge xs x). case_match; lia.
Qed.

Lemma uniform_page_partitions d gs : groups_uniform_page_size d = Ret gs → partitions gs (d.*1).
Proof.
  intros H. unfold groups_uniform_page_size in H. apply bind_Ret in H as (size & Hsize & H). destruct (same_type_spec d) as (_ & Hp & Hall).
  assert (0 < size) as Hpos.
  { apply (choose_group_size_pos _ _ Hsize), Forall_fmap, Forall_forall. intros [s names] Hin. destruct (Hall s names Hin) as [Hne _]. simpl. destruct names; [done|simpl; lia]. }
  apply (create_partitions _ _ _ _ H).
  - rewrite <-Hp. clear -Hpos. induction (same_type_layers d) as [|[s names] same IH]; [done|]. simpl. rewrite concat_app, IH. by rewrite split_partition.
  - intros l (ls & ([s names] & -> & Hin)%list_elem_of_fmap & Hl)%list_elem_of_concat. simpl in Hl. destruct (split_sizes _ _ _ Hpos Hl). destruct l; [simpl in *; lia|done].
Qed.

Lemma two_groups_partitions d gs : groups_dsa_two_groups d = Ret gs → partitions gs (d.*1).
Proof.
  unfold groups_dsa_two_groups. destruct (same_type_spec d) as (_ & Hp & Hall). destruct (same_type_layers d) as [|[s0 n0] [|[s1 n1] [|? ?]]]; simpl; try done.
  intros H. apply bind_Ret in H as (p0 & _ & H). apply bind_Ret in H as (p1 & _ & H).
  assert (Hne : n0 ≠ [] ∧ n1 ≠ []) by (split; [apply (Hall s0 n0)|apply (Hall s1 n1)]; set_solver). destruct Hne as [Hn0 Hn1]. simpl in Hp. rewrite app_nil_r in Hp.
  destruct (p0 <? p1); destruct (_ || _); [done| |done|]; injection H as <-; (split; [simpl; rewrite app_nil_r, <-Hp; try done; apply Permutation_app_comm|]);
    intros g [->|[->|[]%elem_of_nil]%elem_of_cons]%elem_of_cons; done.
Qed.

Lemma unify_pages_keys d d' : unify_kv_cache_spec_page_size d = Ret d' → d'.*1 = d.*1.
Proof.
  unfold unify_kv_cache_spec_page_size. intros H. apply bind_Ret in H as (ps & _ & H). destruct (_ <=? _); [by injection H as <-|].
  apply bind_Ret in H as (m & _ & H%mapM_Ret). induction H as [|[n s] [n' s'] d d' Hx _ IH]; [done|]. simpl. f_equal; [|done]. simpl in Hx.
  apply bind_Ret in Hx as (p & _ & Hx). repeat (case_match; [congruence || done|]). apply bind_Ret in Hx as (q & _ & Hx). apply bind_Ret in Hx as (? & _ & [= <- _]). done.
Qed.

Lemma unify_hybrid_keys c d d' : unify_hybrid_kv_cache_specs c d = Ret d' → d'.*1 = d.*1.
Proof.
  unfold unify_hybrid_kv_cache_specs. destruct (dsa_two_groups_split _ _); [by intros [= <-]|]. intros H. apply bind_Ret in H as ([] & _ & H); [by injection H as <-|].
  apply bind_Ret in H as ([] & _ & H); [|done]. injection H as <-. case_match; [|done]. rewrite <-list_fmap_compose. by apply list_fmap_ext.
Qed.

(** Whatever the mode: when the grouping succeeds, every layer is in exactly one group and no
    group is empty. *)
Lemma groups_partition c d gs : get_kv_cache_groups c d = Ret gs → partitions gs (d.*1).
Proof.
  intros H. unfold get_kv_cache_groups in H. apply bind_Ret in H as (d1 & Hd1 & H).
  assert (Hk : d1.*1 = d.*1) by (destruct (disable_hybrid_kv_cache_manager c); [by apply (unify_hybrid_keys c)|by injection Hd1 as <-]).
  rewrite <-Hk. clear Hd1 Hk d. case_bool_decide as Hne.
  { injection H as <-. subst d1. split; [done|]. by intros g ?%elem_of_nil. }
  apply bind_Ret in H as ([] & _ & H).
  { apply (create_partitions _ _ _ _ H); [simpl; by rewrite app_nil_r|]. intros l ->%list_elem_of_singleton. by destruct d1. }
  apply bind_Ret in H as ([spec|] & _ & H).
  { injection H as <-. split; [simpl; by rewrite app_nil_r|]. intros g ->%list_elem_of_singleton. by destruct d1. }
  apply bind_Ret in H as ([] & _ & H); [by apply two_groups_partitions|].
  apply bind_Ret in H as (d2 & Hd2 & H). rewrite <-(unify_pages_keys _ _ Hd2). by apply uniform_page_partitions.
Qed.

(** ** Pages *)

(** A spec that merges with itself into one with the same page: not both a window and chunks,
    and the default types for a quantized sparse cache. *)
Definition mergeable (s : LayerSpec) : Prop :=
  match s with
  | FullAttentionSpec _ f | SinkFullAttentionSpec _ f _ => full_sliding_window f = None ∨ full_attention_chunk_size f = None
  | MLAAttentionSpec _ _ m => cache_sparse_c8 m = true → c8_k_cache_dtype m = int8 ∧ c8_k_scale_cache_dtype m = float16
  | _ => True
  end.

Lemma windows_same {A} (f : A → option Z) (x : A) n : merge_window_sizes (omap f (replicate (S n) x)) = Ret (f x).
Proof.
  unfold merge_window_sizes. destruct (f x) as [w|] eqn:Hw.
  - rewrite (remove_dups_same w); [done| |simpl; by rewrite Hw]. intros y (z & Hz & Hy)%list_elem_of_omap. apply elem_of_replicate in Hz as [-> _]. congruence.
  - replace (omap f (replicate (S n) x)) with (@nil Z); [done|]. symmetry. induction n as [|n IH]; simpl in *; rewrite Hw in *; [done|exact IH].
Qed.

Lemma omap_replicate {A B} (f : A → option B) x y n : f x = Some y → omap f (replicate n x) = replicate n y.
Proof. intros H. induction n as [|n IH]; simpl; [done|]. rewrite H. by f_equal. Qed.

Lemma forallb_replicate {A} (f : A → bool) x n : f x = true → forallb f (replicate n x) = true.
Proof. intros H. induction n as [|n IH]; simpl; [done|]. by rewrite H. Qed.
Lemma existsb_replicate {A} (f : A → bool) x n : f x = false → existsb f (replicate n x) = false.
Proof. intros H. induction n as [|n IH]; simpl; [done|]. by rewrite H. Qed.

(** What a group inherits from its layers. *)
Record same_format (s s' : LayerSpec) : Prop := {
  sf_page : page_size_bytes s' = page_size_bytes s;
  sf_block : layer_block_size s' = layer_block_size s;
  sf_window : is_sliding_window s' = is_sliding_window s;
}.

Lemma merge_full_same (build : Full → LayerSpec) s a f n : full_fields s = Some (a, f) → is_mla s = false →
  full_sliding_window f = None ∨ full_attention_chunk_size f = None → merge_full build a f (replicate (S n) s) = Ret (build f).
Proof.
  intros Hs Hmla Hm. unfold merge_full. rewrite forallb_replicate, existsb_replicate, (omap_replicate _ _ (a, f)) by (done || by destruct s).
  cbn [negb check mbind outcome_bind]. rewrite !windows_same. cbn [mbind outcome_bind snd].
  rewrite forallb_replicate by by apply bool_decide_eq_true. cbn [check mbind outcome_bind].
  destruct f as [hv w ch]. simpl in *. destruct Hm as [-> | ->]; [|rewrite andb_false_r]; done.
Qed.

Lemma merge_mla_same a f m n : ∃ f', merge_mla a m (replicate (S n) (MLAAttentionSpec a f m)) =
  Ret (MLAAttentionSpec (mkAttention (att_block_size a) (num_kv_heads a) (head_size a) (att_dtype a) None) f'
    (mkMLA (cache_dtype_str m) (sparse_head_dim m) (cache_sparse_c8 m) int8 float16)).
Proof.
  unfold merge_mla. rewrite forallb_replicate, (omap_replicate _ _ (a, m)) by done. cbn [check mbind outcome_bind].
  rewrite !forallb_replicate by (by apply bool_decide_eq_true || by apply Z.eqb_eq). by eexists.
Qed.

Lemma merge_same s n : mergeable s → ∃ s', merge_specs (replicate (S n) s) = Ret s' ∧ same_format s s'.
Proof.
  intros Hm. assert (Hself : ∀ x, same_format x x) by by split. assert (Heq : ∀ x : LayerSpec, forallb (λ y, bool_decide (y = x)) (replicate n x) = true).
  { intros x. apply forallb_replicate. by apply bool_decide_eq_true. }
  destruct s as [a f|a f m|a f k|a k|a k|m|a|a]; cbn [merge_specs replicate].
  - exists (FullAttentionSpec a f). split; [by apply (merge_full_same _ (FullAttentionSpec a f))|done].
  - destruct (merge_mla_same a f m n) as [f' Hf']. eexists. split; [exact Hf'|]. split; [|done|done]. simpl. unfold mla_page_size_bytes. simpl.
    destruct (cache_sparse_c8 m) eqn:Hc; [|done]. destruct (Hm Hc) as [-> ->]. done.
  - exists (SinkFullAttentionSpec a f k). split; [by apply (merge_full_same (λ f, SinkFullAttentionSpec a f k) (SinkFullAttentionSpec a f k))|done].
  - rewrite Heq. by eexists.
  - rewrite Heq. by eexists.
  - rewrite Heq. by eexists.
  - rewrite Heq. by eexists.
  - rewrite Heq. by eexists.
Qed.

(** Layers whose page grows with the block: attention without padding. *)
Definition scalable (s : LayerSpec) : bool :=
  match s with MambaSpec _ => false | MLAAttentionSpec _ _ _ => true | _ => bool_decide (page_size_padded s = None) end.

Lemma scale_page s p k : scalable s = true → page_size_bytes s = Ret p → page_size_bytes (with_block_size (layer_block_size s * k) s) = Ret (p * k).
Proof.
  destruct s as [a f|a f m|a f j|a j|a j|m|a|a]; simpl; intros Hs Hp; try done;
    try (apply bool_decide_eq_true in Hs; rewrite Hs in Hp |- *; injection Hp as <-; f_equal; unfold mul_block; simpl; ring).
  unfold mla_page_size_bytes in *. simpl. destruct (cache_sparse_c8 m).
  - destruct (sparse_head_dim m) as [[|x [|y [|z [|? ?]]]]|]; try done. injection Hp as <-. f_equal. ring.
  - injection Hp as <-. f_equal. unfold mul_block. simpl. ring.
Qed.

(** ** Groups of a hybrid model *)

Lemma foldl_max_spec xs x : foldl Z.max x xs ∈ x :: xs ∧ ∀ y, y ∈ x :: xs → y ≤ foldl Z.max x xs.
Proof.
  revert x. induction xs as [|z xs IH]; intros x; simpl; [split; [by left|]; intros y ->%list_elem_of_singleton; done|].
  destruct (IH (Z.max x z)) as [H1 H2]. split.
  - apply elem_of_cons in H1 as [H1|H1]; [|by right; right]. rewrite H1. destruct (Z.max_spec x z) as [[_ ->]|[_ ->]]; [right; by left|by left].
  - assert (Hm : Z.max x z ≤ foldl Z.max (Z.max x z) xs) by (apply H2; by left).
    intros y [->|[->|Hy]%elem_of_cons]%elem_of_cons; [lia|lia|]. apply H2. by right.
Qed.

(** Layers whose pages can be made [P] by larger blocks. *)
Record unifiable (c : VllmConfig) (d : dict string LayerSpec) (P : Z) : Prop := {
  un_names : NoDup (d.*1);
  un_layer n s : (n, s) ∈ d → layer_ok c s ∧ mergeable s;
  un_page n s p : (n, s) ∈ d → page_size_bytes s = Ret p → p = P ∨ (scalable s = true ∧ (p | P));
  un_largest : ∃ n s, (n, s) ∈ d ∧ page_size_bytes s = Ret P;
}.

(** Layers that all have the page [P]. *)
Record one_page (c : VllmConfig) (d : dict string LayerSpec) (P : Z) : Prop := {
  op_names : NoDup (d.*1);
  op_layer n s : (n, s) ∈ d → layer_ok c s ∧ mergeable s ∧ page_size_bytes s = Ret P;
}.

Lemma unifiable_pages c d P : unifiable c d P → ∃ ps, layer_page_sizes d = Ret ps ∧ P ∈ ps ∧
  (∀ q, q ∈ ps → 0 < q ∧ q ≤ P) ∧ ∀ n s p, (n, s) ∈ d → page_size_bytes s = Ret p → p ∈ ps.
Proof.
  intros [_ H2 H3 (n0 & s0 & Hin0 & HP)]. destruct (pages_return c (d.*2)) as (ps & Hps & Hpos & _).
  { apply Forall_fmap, Forall_forall. intros [n s] Hin. by apply (H2 n s). }
  exists ps. pose proof Hps as Hall%mapM_Ret.
  assert (Hmem : ∀ n s p, (n, s) ∈ d → page_size_bytes s = Ret p → p ∈ ps).
  { intros n s p Hin Hp. assert (Hs : s ∈ d.*2) by apply (list_elem_of_fmap_2' snd _ _ _ Hin eq_refl).
    apply list_elem_of_lookup in Hs as [i Hi]. destruct (Forall2_lookup_l _ _ _ _ _ Hall Hi) as (q & Hq & Hq'). rewrite Hp in Hq'. injection Hq' as ->. by eapply list_elem_of_lookup_2. }
  split_and!; [done|by eapply Hmem| |done]. intros q Hq. rewrite Forall_forall in Hpos. pose proof (Hpos q Hq) as Hq0. split; [done|].
  assert (HP0 : 0 < P) by (apply Hpos; by eapply Hmem).
  apply list_elem_of_lookup in Hq as [i Hi]. destruct (Forall2_lookup_r _ _ _ _ _ Hall Hi) as (s & Hs & Hsq).
  apply list_elem_of_lookup_2, list_elem_of_fmap in Hs as ([n s'] & -> & Hin). destruct (H3 n s' q Hin Hsq) as [->|[_ Hdiv]]; [done|]. by apply Z.divide_pos_le.
Qed.

Lemma py_max_is ps P : P ∈ ps → (∀ q, q ∈ ps → q ≤ P) → py_max ps = Ret P.
Proof.
  intros HP Hle. destruct ps as [|x xs]; [by apply elem_of_nil in HP|]. simpl. f_equal. destruct (foldl_max_spec xs x) as [H1 H2].
  apply Z.le_antisymm; [by apply Hle|by apply H2].
Qed.

Lemma unify_one_page c d P : unifiable c d P → ∃ d', unify_kv_cache_spec_page_size d = Ret d' ∧ d'.*1 = d.*1 ∧ one_page c d' P.
Proof.
  intros Hun. destruct (unifiable_pages c d P Hun) as (ps & Hps & HP & Hle & Hmem). destruct Hun as [H1 H2 H3 H4].
  unfold unify_kv_cache_spec_page_size. rewrite Hps. simpl. destruct (Z.leb_spec (distinct ps) 1) as [Hone|Hmany].
  - exists d. split_and!; [done|done|]. split; [done|]. intros n s Hin. destruct (H2 n s Hin) as [Hl Hm]. split_and!; [done|done|].
    destruct (lo_page _ _ Hl) as (p & Hp & _). rewrite Hp. f_equal. pose proof (Hmem n s p Hin Hp) as Hps'. unfold distinct in Hone.
    apply elem_of_remove_dups in HP, Hps'. destruct (remove_dups ps) as [|a [|b l]]; [by apply elem_of_nil in HP| |simpl in Hone; lia].
    apply list_elem_of_singleton in HP, Hps'. congruence.
  - rewrite (py_max_is ps P HP) by (intros q Hq; by apply Hle). simpl.
    assert (Hlayer : ∀ n s, (n, s) ∈ d → ∃ s', unify_layer P (n, s) = Ret (n, s') ∧ layer_ok c s' ∧ mergeable s' ∧ page_size_bytes s' = Ret P).
    { intros n s Hin. destruct (H2 n s Hin) as [Hl Hm]. destruct (lo_page _ _ Hl) as (p & Hp & Hpos). simpl. rewrite Hp. simpl.
      destruct (Z.eqb_spec p P) as [->|Hne]; [by exists s|]. destruct (Z.eqb_spec p 0); [lia|].
      destruct (H3 n s p Hin Hp) as [|[Hs [k Hk]]]; [done|]. assert (HP0 : 0 < P) by (apply Hle; by apply HP). assert (0 < k) by nia.
      assert (Hpage : page_size_bytes (with_block_size (layer_block_size s * k) s) = Ret P) by (rewrite (scale_page s p k Hs Hp); f_equal; lia).
      assert (Hb : layer_block_size (with_block_size (layer_block_size s * k) s) = layer_block_size s * k) by by destruct s.
      assert (P mod p = 0 ∧ P / p = k) as [-> ->] by (rewrite Hk, Z.mod_mul, Z.div_mul by lia; done). simpl. rewrite Hpage. simpl. rewrite Z.eqb_refl.
      eexists. split; [done|]. destruct Hl as [L1 L2 L3]. split_and!; [|by destruct s|done]. split; [by exists P|nia|by destruct s]. }
    clear -H1 Hlayer. assert (Hall : ∃ d', mapM (unify_layer P) d = Ret d' ∧ d'.*1 = d.*1 ∧ ∀ n s, (n, s) ∈ d' → layer_ok c s ∧ mergeable s ∧ page_size_bytes s = Ret P).
    { clear H1. induction d as [|[n s] d IH]; [exists []; split_and!; [done|done|]; by intros ? ? ?%elem_of_nil|].
      destruct (Hlayer n s) as (s' & Hs' & Hok); [by left|]. destruct IH as (d' & G1 & G2 & G3); [intros; apply Hlayer; by right|].
      exists ((n, s') :: d'). cbn [mapM]. rewrite Hs'. simpl. rewrite G1. split_and!; [done|simpl; by f_equal|].
      intros n' s'' [[= -> ->]|Hin]%elem_of_cons; [done|by apply (G3 n')]. }
    destruct Hall as (d' & G1 & G2 & G3). exists d'. split_and!; [done|done|]. split; [by rewrite G2|done].
Qed.

Lemma create_same_group c d P s names : one_page c d P → names ≠ [] → (∀ n, n ∈ names → (n, s) ∈ d) →
  ∃ g, create_group d names = Ret g ∧ layer_names g = names ∧ (∃ s', kv_cache_spec g = OneSpec s' ∧ layer_ok c s' ∧ page_size_bytes s' = Ret P).
Proof.
  intros [Hnd Hl] Hne Hall. unfold create_group.
  assert (Hspecs : mapM (λ n, match od_get n d with Some s => Ret s | None => Raise KeyError end) names = Ret (replicate (length names) s)).
  { clear Hne. induction names as [|n names IH]; [done|]. cbn [mapM]. rewrite (proj2 (od_get_Some n s d Hnd)) by (apply Hall; by left). simpl.
    rewrite IH; [done|]. intros m Hm. apply Hall. by right. }
  rewrite Hspecs. simpl. destruct names as [|n names]; [done|]. destruct (Hl n s) as ([L1 L2 L3] & Hm & Hp); [apply Hall; by left|].
  destruct (merge_same s (length names) Hm) as (s' & Hs' & [F1 F2 F3]). cbn [length]. rewrite Hs'. simpl. eexists. split; [done|]. split; [done|].
  exists s'. split_and!; [done| |by rewrite F1]. split; [by rewrite F1|by rewrite F2|by rewrite F3].
Qed.

(** The groups of layers with one page: they partition the layers and keep the page. *)
Lemma one_page_groups c d P : one_page c d P → d ≠ [] → ∃ gs, groups_uniform_page_size d = Ret gs ∧ partitions gs (d.*1) ∧
  Forall (λ g, ∃ s, kv_cache_spec g = OneSpec s ∧ layer_ok c s ∧ page_size_bytes s = Ret P) gs.
Proof.
  intros Hop Hne. destruct (same_type_spec d) as (_ & Hp & Hall).
  assert (Hcounts : (λ x : LayerSpec * list string, Z.of_nat (length x.2)) <$> same_type_layers d ≠ []).
  { intros Hnil%fmap_nil_inv. rewrite Hnil in Hp. apply Permutation_nil_l in Hp. by destruct d. }
  assert (Hret : ∃ gs, groups_uniform_page_size d = Ret gs ∧ Forall (λ g, ∃ s, kv_cache_spec g = OneSpec s ∧ layer_ok c s ∧ page_size_bytes s = Ret P) gs).
  { unfold groups_uniform_page_size. destruct ((λ x : LayerSpec * list string, Z.of_nat (length x.2)) <$> same_type_layers d) as [|x xs] eqn:Hxs; [done|]. simpl.
    set (size := if _ <? _ then _ else _). assert (Hpos : 0 < size).
    { apply (choose_group_size_pos (x :: xs)); [done|]. rewrite <-Hxs. apply Forall_fmap, Forall_forall. intros [s names] Hin.
      destruct (Hall s names Hin) as [Hn _]. simpl. destruct names; [done|simpl; lia]. }
    apply mapM_all. intros names (ls & ([s all] & -> & Hin)%list_elem_of_fmap & Hl)%list_elem_of_concat. simpl in Hl.
    destruct (split_sizes _ _ _ Hpos Hl) as [Hlen _]. destruct (Hall s all Hin) as [_ Hmem].
    destruct (create_same_group c d P s names Hop) as (g & Hg & _ & Hs); [destruct names; [simpl in Hlen; lia|done]| |by exists g].
    intros n Hn. apply Hmem. rewrite <-(split_partition size all Hpos). apply list_elem_of_In, in_concat. exists names. by rewrite <-!list_elem_of_In. }
  destruct Hret as (gs & Hgs & Hok). exists gs. split_and!; [done|by apply uniform_page_partitions|done].
Qed.

(** C24: hybrid models are grouped. For a model with several kinds of layers whose pages can be
    made equal by larger blocks, without two-group mode, grouping returns: every layer is in
    exactly one group, no group is empty, and every group has the largest page of the model and
    can be sized. *)
Theorem hybrid_groups_exact c d P : dsa_two_groups_enabled c = false → disable_hybrid_kv_cache_manager c = false → unifiable c d P →
  is_kv_cache_spec_uniform c d = Ret false → is_uniform_type c d = Ret false →
  ∃ gs, get_kv_cache_groups c d = Ret gs ∧ concat (layer_names <$> gs) ≡ₚ d.*1 ∧ groups_ok c gs ∧
    ∀ g, g ∈ gs → layer_names g ≠ [] ∧ group_page g = Ret P.
Proof.
  intros Hdsa Hhyb Hun Hu Ht. destruct (unify_one_page c d P Hun) as (d' & Hd' & Hk & Hop).
  assert (Hne : d ≠ []) by (intros ->; destruct Hun as [_ _ _ (n & s & Hin & _)]; by apply elem_of_nil in Hin).
  assert (Hne' : d' ≠ []) by (intros ->; by destruct d).
  destruct (one_page_groups c d' P Hop Hne') as (gs & Hgs & [Hpart Hnames] & Hok). rewrite Forall_forall in Hok. exists gs.
  unfold get_kv_cache_groups. rewrite Hhyb. simpl. rewrite bool_decide_eq_false_2 by done. rewrite Hu. simpl. unfold from_specs. rewrite Ht. simpl.
  rewrite Hdsa. simpl. rewrite Hd'. simpl. rewrite <-Hk. split_and!; [done|done| |].
  - split; intros g.
    + intros Hg. destruct (Hok g Hg) as (s & -> & Hl & _). done.
    + intros g' Hg Hg' _. destruct (Hok g Hg) as (s & Hs & _ & Hp), (Hok g' Hg') as (s' & Hs' & _ & Hp'). unfold group_page. rewrite Hs, Hs'. simpl. congruence.
  - intros g Hg. split; [by apply Hnames|]. destruct (Hok g Hg) as (s & Hs & _ & Hp). unfold group_page. by rewrite Hs.
Qed.

(** Two full-attention layers with pages twice as large as those of five window layers. *)
Definition wide_layer : LayerSpec := FullAttentionSpec (mkAttention 2 2 4 float16 None) (mkFull 4 None None).
Definition hybrid_model : dict string LayerSpec :=
  [("w0", window_layer); ("f0", wide_layer); ("w1", window_layer); ("w2", window_layer); ("f1", wide_layer); ("w3", window_layer); ("w4", window_layer)]%string.

Lemma hybrid_groups_exact_witness : ∃ gs, get_kv_cache_groups (sample_config 100) hybrid_model = Ret gs ∧
  layer_names <$> gs = [["w0"; "w3"]; ["w1"; "w4"]; ["w2"]; ["f0"; "f1"]]%string ∧ Forall (λ g, group_page g = Ret 64) gs.
Proof.
  destruct (hybrid_groups_exact (sample_config 100) hybrid_model 64) as (gs & H1 & _ & _ & H2).
  - done.
  - done.
  - split.
    + apply (bool_decide_eq_true_1 _). vm_compute. reflexivity.
    + intros n s Hin. repeat (apply elem_of_cons in Hin as [[= -> ->]|Hin]; [split; [split; [by eexists|done|done]|]; vm_compute; tauto|]). by apply elem_of_nil in Hin.
    + intros n s p Hin Hp. repeat (apply elem_of_cons in Hin as [[= -> ->]|Hin]; [injection Hp as <-; first [by left|right; split; [done|by exists 2]]|]). by apply elem_of_nil in Hin.
    + exists "f0"%string, wide_layer. split; [right; by left|reflexivity].
  - vm_compute. reflexivity.
  - vm_compute. reflexivity.
  - exists gs. split; [exact H1|]. split; [vm_compute in H1; by injection H1 as <-|]. apply Forall_forall. intros g Hg. by apply H2.
Defined.
