(* ===== verification/KVTensors.v ===== *)
(** The tensors of a worker: every layer has one, it holds the blocks, and together they fit into
    the memory; and the configurations of all workers agree. *)
From S2P Require Import Prelude Dict KVSpec KVConfig KVEstimate KVGroups.
From stdpp Require Import strings.
Local Open Scope Z_scope.

(** ** Layers and their tensors *)

(** The page of a layer in its group. *)
Definition layer_page (g : KVCacheGroupSpec) (name : string) : outcome Z :=
  match kv_cache_spec g with
  | OneSpec s => page_size_bytes s
  | UniformTypeKVCacheSpecs _ d => match od_get name d with Some s => page_size_bytes s | None => Raise KeyError end
  end.

Definition layers_of (gs : list KVCacheGroupSpec) : list string := concat (layer_names <$> gs).

(** The configuration gives every layer one tensor with room for [slots] blocks: it is that many
    times as large as at least a page of each of its layers. *)
Record backs (gs : list KVCacheGroupSpec) (slots : Z) (tensors : list KVCacheTensor) : Prop := {
  bk_layers : concat (shared_by <$> tensors) ≡ₚ layers_of gs;
  bk_room t : t ∈ tensors → ∃ q, 0 ≤ q ∧ tensor_size t = q * slots ∧
    ∀ n, n ∈ shared_by t → ∃ g p, g ∈ gs ∧ n ∈ layer_names g ∧ layer_page g n = Ret p ∧ p ≤ q;
}.

Definition total_size (tensors : list KVCacheTensor) : Z := sum_Z (tensor_size <$> tensors).

Lemma total_size_cons t ts : total_size (t :: ts) = tensor_size t + total_size ts.
Proof. done. Qed.
Lemma sum_Z_app xs ys : sum_Z (xs ++ ys) = sum_Z xs + sum_Z ys.
Proof. induction xs as [|x xs IH]; simpl; lia. Qed.
Lemma sum_Z_const {A} (f : A → Z) k xs : (∀ x, x ∈ xs → f x = k) → sum_Z (f <$> xs) = k * Z.of_nat (length xs).
Proof.
  induction xs as [|x xs IH]; intros H; [simpl; lia|]. rewrite fmap_cons. cbn [sum_Z foldr length]. fold (sum_Z (f <$> xs)).
  rewrite (H x (list_elem_of_here _ _)), IH; [lia|]. intros; apply H; by right.
Qed.

(** What groups look like: one spec per group, or a single group of layers with their own pages. *)
Definition plain_groups (gs : list KVCacheGroupSpec) : Prop := ∀ g, g ∈ gs → ∃ s, kv_cache_spec g = OneSpec s.

Lemma plain_page g s name : kv_cache_spec g = OneSpec s → layer_page g name = group_page g.
Proof. intros H. unfold layer_page, group_page. by rewrite H. Qed.

(** *** One tensor for the [i]-th layers *)

Lemma column_list {A} (l : list A) n : (length l ≤ n)%nat → concat ((λ i, option_list (l !! i)) <$> seq 0 n) = l.
Proof.
  revert n. induction l as [|x l IH]; intros n Hn.
  - clear Hn. generalize 0%nat. induction n as [|n IHn]; intros k; simpl; [done|apply IHn].
  - destruct n as [|n]; [simpl in Hn; lia|]. simpl. f_equal. rewrite <-fmap_S_seq, <-list_fmap_compose. apply IH. simpl in Hn. lia.
Qed.

Lemma concat_fmap_app {A B} (f h : A → list B) xs : concat ((λ x, f x ++ h x) <$> xs) ≡ₚ concat (f <$> xs) ++ concat (h <$> xs).
Proof.
  induction xs as [|x xs IH]; simpl; [done|]. rewrite IH. rewrite <-!app_assoc. apply Permutation_app_head. rewrite !app_assoc. apply Permutation_app_tail, Permutation_app_comm.
Qed.

Lemma omap_of_fmap {A B C} (f : B → option C) (h : A → B) (l : list A) : omap f (h <$> l) = omap (λ x, f (h x)) l.
Proof. induction l as [|x l IH]; [done|]. cbn. destruct (f (h x)); [f_equal|]; exact IH. Qed.

Lemma columns {A} (ls : list (list A)) n : (∀ l, l ∈ ls → (length l ≤ n)%nat) → concat ((λ i, omap (λ l, l !! i) ls) <$> seq 0 n) ≡ₚ concat ls.
Proof.
  induction ls as [|l ls IH]; intros H.
  - simpl. clear. generalize 0%nat. induction n as [|n IHn]; intros k; simpl; [done|apply IHn].
  - simpl. rewrite <-(IH ltac:(intros; apply H; by right)). transitivity (concat ((λ i, option_list (l !! i)) <$> seq 0 n) ++ concat ((λ i, omap (λ l, l !! i) ls) <$> seq 0 n));
      [|rewrite column_list by (apply H; by left); done].
    rewrite <-concat_fmap_app. apply Permutation_refl'. f_equal. apply list_fmap_ext. intros i k _. simpl. by destruct (l !! k).
Qed.

Lemma get_num_blocks_plain c n avail page : num_gpu_blocks_override c = None → 0 < n → 0 < page → 0 ≤ avail →
  ∃ b, get_num_blocks c n avail page = Ret b ∧ 0 ≤ b ∧ page * b * n ≤ avail.
Proof.
  intros Ho Hn Hp Ha. unfold get_num_blocks. rewrite floordiv_pos by done. simpl. rewrite floordiv_pos by done. simpl. eexists. split; [done|].
  unfold may_override_num_blocks. rewrite Ho. simpl. rewrite Z.div_div by lia.
  assert (0 ≤ avail / (page * n)) by (apply Z.div_pos; nia). rewrite Z.max_l by done. split; [done|].
  pose proof (Z.mul_div_le avail (page * n) ltac:(nia)). nia.
Qed.

Lemma config_general_fits c gs avail : groups_ok c gs → plain_groups gs → (∀ g g', g ∈ gs → g' ∈ gs → group_page g = group_page g') →
  num_gpu_blocks_override c = None → 0 ≤ avail → layers_of gs ≠ [] →
  ∃ b tensors, config_general c gs avail = Ret (make_config c b tensors gs None) ∧ 0 ≤ b ∧ backs gs b tensors ∧ total_size tensors ≤ avail.
Proof.
  intros Hok Hplain Hsame Ho Ha Hne. destruct gs as [|g0 gs]; [done|]. unfold config_general.
  destruct (uniform_page_ok c (g0 :: gs) g0 Hok) as (page & Hp & Hp0 & Hpos); [by left|done|].
  cbn [fmap list_fmap]. rewrite py_max_cons. cbn [mbind outcome_bind]. rewrite Hp. cbn [mbind outcome_bind].
  destruct (foldl_max_spec (num_layers <$> gs) (num_layers g0)) as [_ Hmax]. set (size := foldl Z.max _ _) in *.
  assert (Hlen : ∀ g, g ∈ g0 :: gs → num_layers g ≤ size).
  { intros g Hg. apply Hmax. change (num_layers g ∈ num_layers <$> g0 :: gs). by apply list_elem_of_fmap_2. }
  assert (Hsize : 0 < size).
  { destruct (decide (0 < size)) as [|Hs]; [done|]. destruct Hne. unfold layers_of. apply concat_nil_Forall, Forall_fmap, Forall_forall. intros g Hg.
    specialize (Hlen g Hg). unfold num_layers in Hlen. simpl. destruct (layer_names g); [done|simpl in Hlen; lia]. }
  destruct (Z.ltb_spec 0 size); [|lia]. cbn [check mbind outcome_bind].
  destruct (get_num_blocks_plain c size avail page Ho Hsize Hpos Ha) as (b & -> & Hb & Hfit). cbn [mbind outcome_bind].
  eexists b, _. split; [done|]. split; [done|]. split; [split|].
  - rewrite <-list_fmap_compose. cbn [compose shared_by]. rewrite py_range_seq, <-list_fmap_compose by lia. unfold layers_of.
    rewrite <-(columns (layer_names <$> g0 :: gs) (Z.to_nat size)).
    + apply Permutation_refl'. f_equal. apply list_fmap_ext. intros i k _. unfold compose. cbn [shared_by]. rewrite Nat2Z.id.
      by rewrite omap_of_fmap.
    + intros l (g & -> & Hg)%list_elem_of_fmap. specialize (Hlen g Hg). unfold num_layers in Hlen. lia.
  - intros t (i & -> & Hi)%list_elem_of_fmap. simpl. exists page. split_and!; [lia|done|]. intros n (g & Hg & Hgi)%(list_elem_of_omap (λ g, layer_names g !! Z.to_nat i) (g0 :: gs)).
    destruct (Hplain g Hg) as [s Hs]. exists g, page. split_and!; [done|by eapply list_elem_of_lookup_2| |done].
    rewrite (plain_page g s n Hs). by rewrite (Hsame g g0 Hg) by by left.
  - unfold total_size. rewrite <-list_fmap_compose. rewrite (sum_Z_const _ (page * b)) by done. rewrite length_py_range. nia.
Qed.

(** *** A tensor per layer, with its own page *)

Lemma div_fits a b : 0 ≤ a → 0 < b → 0 ≤ a / b ∧ b * (a / b) ≤ a.
Proof. intros Ha Hb. split; [by apply Z.div_pos|]. by apply Z.mul_div_le. Qed.

Lemma uniform_tensors (d : dict string LayerSpec) (names : list string) num ps : NoDup names → names = d.*1 → mapM page_size_bytes (d.*2) = Ret ps →
  mapM (λ name, match od_get name d with None => Raise KeyError | Some s => p ← page_size_bytes s; Ret (mkTensor (p * num) [name]) end) names =
    Ret (zip_with (λ n p, mkTensor (p * num) [n]) names ps).
Proof.
  intros Hnd -> Hps. apply mapM_Ret. apply mapM_Ret in Hps.
  assert (Hgen : ∀ e, (∀ n s, (n, s) ∈ e → od_get n d = Some s) → ∀ ps, Forall2 (λ s p, page_size_bytes s = Ret p) (e.*2) ps →
    Forall2 (λ x y, match od_get x d with None => Raise KeyError | Some s => p ← page_size_bytes s; Ret (mkTensor (p * num) [x]) end = Ret y)
      (e.*1) (zip_with (λ n p, mkTensor (p * num) [n]) (e.*1) ps)); [|apply Hgen; [intros; by apply od_get_Some|done]].
  clear. induction e as [|[n s] e IH]; intros Hget ps Hps; [inversion Hps; constructor|].
  apply Forall2_cons_inv_l in Hps as (p & ps' & Hp & Hps' & ->). simpl. constructor.
  - rewrite (Hget n s) by by left. simpl in Hp. by rewrite Hp.
  - apply IH; [|done]. intros n' s' Hin. apply Hget. by right.
Qed.

Lemma uniform_sum names ps num : length names = length ps → total_size (zip_with (λ n p, mkTensor (p * num) [n]) names ps) = sum_Z ps * num.
Proof.
  revert ps. induction names as [|n names IH]; intros [|p ps] Hl; try done. cbn [zip_with]. rewrite total_size_cons. injection Hl as Hl. rewrite (IH ps Hl). simpl. lia.
Qed.

Lemma config_uniform_fits c names b d avail : group_ok c (UniformTypeKVCacheSpecs b d) → NoDup names → names = d.*1 →
  num_gpu_blocks_override c = None → 0 ≤ avail →
  let gs := [mkGroup names (UniformTypeKVCacheSpecs b d)] in
  ∃ n tensors, config_uniform_type c gs names d avail = Ret (make_config c n tensors gs None) ∧ 0 ≤ n ∧ backs gs n tensors ∧ total_size tensors ≤ avail.
Proof.
  intros [Hne Hd] Hnd Hn Ho Ha gs. unfold config_uniform_type. destruct (pages_return c _ Hd) as (ps & Hps & Hpos & Hlen). rewrite Hps.
  cbn [mbind outcome_bind]. assert (Hsum : 0 < sum_Z ps) by (apply sum_Z_pos; [done|]; intros ->; destruct d; [done|by simpl in Hlen]).
  rewrite floordiv_pos by done. cbn [mbind outcome_bind]. unfold may_override_num_blocks. rewrite Ho. cbn [default].
  destruct (div_fits avail (sum_Z ps) Ha Hsum) as [Hb Hfit]. set (num := avail / sum_Z ps) in *.
  rewrite (uniform_tensors d names num ps Hnd Hn Hps). cbn [mbind outcome_bind]. eexists num, _. split; [done|]. split; [done|].
  assert (Hl : length names = length ps) by (rewrite Hn, length_fmap, Hlen, length_fmap; done). split; [split|].
  - unfold layers_of. simpl. rewrite app_nil_r. clearbody num. clear -Hl. revert ps Hl. induction names as [|n names IH]; intros [|p ps] Hl; try done. simpl. f_equiv. apply IH. by injection Hl.
  - intros t Ht. apply list_elem_of_lookup in Ht as [i Hi]. apply lookup_zip_with_Some in Hi as (n' & p & -> & Hn' & Hp). exists p.
    rewrite Forall_forall in Hpos. pose proof (Hpos p (list_elem_of_lookup_2 _ _ _ Hp)). split_and!; [lia|done|]. simpl. intros n ->%list_elem_of_singleton. exists (mkGroup names (UniformTypeKVCacheSpecs b d)), p. split_and!; [by left|by eapply list_elem_of_lookup_2| |done].
    unfold layer_page. cbn [kv_cache_spec]. apply mapM_Ret in Hps. destruct (Forall2_lookup_r _ _ _ _ _ Hps Hp) as (s & Hs & Hsp).
    rewrite Hn, list_lookup_fmap in Hn'. rewrite list_lookup_fmap in Hs. destruct (d !! i) as [[k s']|] eqn:Hdi; [|done]. simpl in *. simplify_eq.
    rewrite (proj2 (od_get_Some n' s d Hnd)) by by eapply list_elem_of_lookup_2. done.
  - rewrite uniform_sum by done. lia.
Qed.

(** *** A pool per group *)

Definition group_tensors (g : KVCacheGroupSpec) (size : Z) : list KVCacheTensor := (λ name, mkTensor size [name]) <$> layer_names g.

Lemma group_tensors_layers gs sizes : length gs = length sizes → concat (shared_by <$> concat (zip_with group_tensors gs sizes)) = layers_of gs.
Proof.
  revert sizes. induction gs as [|g gs IH]; intros [|s sizes] Hl; try done. simpl. unfold layers_of in *. rewrite fmap_app, concat_app. injection Hl as Hl.
  rewrite (IH sizes Hl). simpl. f_equal. unfold group_tensors. rewrite <-list_fmap_compose. clear. induction (layer_names g); simpl; [done|by f_equal].
Qed.

Lemma group_tensors_count gs sizes : length gs = length sizes → length (concat (zip_with group_tensors gs sizes)) = length (layers_of gs).
Proof.
  revert sizes. induction gs as [|g gs IH]; intros [|s sizes] Hl; try done. unfold layers_of in *. simpl. injection Hl as Hl.
  rewrite !length_app, (IH sizes Hl). unfold group_tensors. by rewrite length_fmap.
Qed.

Lemma group_tensors_total gs pages num : length gs = length pages →
  total_size (concat (zip_with group_tensors gs (zip_with Z.mul pages (replicate (length gs) num)))) = sum_Z (zip_with Z.mul (num_layers <$> gs) pages) * num.
Proof.
  revert pages. induction gs as [|g gs IH]; intros [|p pages] Hl; try done. simpl. unfold total_size in *. rewrite fmap_app, sum_Z_app. injection Hl as Hl. rewrite (IH pages Hl).
  unfold group_tensors. rewrite <-list_fmap_compose, (sum_Z_const _ (p * num)) by done. change (list_fmap _ _ num_layers gs) with (num_layers <$> gs). unfold num_layers at 2. ring.
Qed.

(** One block of every group. *)
Lemma pool_bytes_pos gs pages : Forall2 (λ g p, group_page g = Ret p ∧ 0 < p) gs pages → layers_of gs ≠ [] →
  0 < sum_Z (zip_with Z.mul (num_layers <$> gs) pages).
Proof.
  set (bytes gs pages := sum_Z (zip_with Z.mul (num_layers <$> gs) pages)).
  assert (Hcons : ∀ g p gs ps, bytes (g :: gs) (p :: ps) = num_layers g * p + bytes gs ps) by done.
  assert (Hge : ∀ gs pages, Forall2 (λ g p, group_page g = Ret p ∧ 0 < p) gs pages → 0 ≤ bytes gs pages).
  { induction 1 as [|g p gs' ps [_ Hp] _ IH]; [done|]. rewrite Hcons. unfold num_layers. nia. }
  change (sum_Z _) with (bytes gs pages). clearbody bytes. induction 1 as [|g p gs' ps [_ Hp] Hall IH]; [done|]. intros Hne. rewrite Hcons.
  specialize (Hge gs' ps Hall). destruct (decide (layers_of gs' = [])) as [Hnil|Hne'].
  - unfold layers_of in *. simpl in Hne. unfold num_layers. destruct (layer_names g); [done|]. simpl. nia.
  - specialize (IH Hne'). unfold num_layers. nia.
Qed.

Lemma config_groups_fits c gs avail : groups_ok c gs → plain_groups gs → num_gpu_blocks_override c = None → dsa_shrink_stage c ≠ 2 → 0 ≤ avail → layers_of gs ≠ [] →
  ∃ n tensors, config_dsa_groups c gs avail = Ret (make_config c n tensors gs (Some (replicate (length gs) n))) ∧ 0 ≤ n ∧ backs gs n tensors ∧
    total_size tensors ≤ avail ∧ length tensors = length (layers_of gs).
Proof.
  intros Hok Hplain Ho Hst Ha Hne. unfold config_dsa_groups. destruct (group_pages_ok c gs Hok) as (pages & Hps & Hall). rewrite Hps. cbn [mbind outcome_bind].
  pose proof (Forall2_length _ _ _ Hall) as Hl.
  assert (Hsum : 0 < sum_Z (zip_with Z.mul (num_layers <$> gs) pages)).
  { by apply pool_bytes_pos. }
  rewrite floordiv_pos by done. cbn [mbind outcome_bind]. unfold may_override_num_blocks. rewrite Ho. cbn [default].
  destruct (Z.eqb_spec (dsa_shrink_stage c) 2) as [|_]; [done|]. cbn [andb mbind outcome_bind].
  destruct (div_fits avail _ Ha Hsum) as [Hb Hfit]. set (num := avail / _) in *. eexists num, _. split; [done|]. split; [done|].
  change (λ g size, _) with group_tensors. split; [split|].
  - rewrite group_tensors_layers; [done|]. rewrite length_zip_with, length_replicate. lia.
  - intros t (ts & Hts & Ht)%list_elem_of_concat. apply list_elem_of_lookup in Hts as [i Hi].
    apply lookup_zip_with_Some in Hi as (g & size & -> & Hg & Hsize). apply list_elem_of_fmap in Ht as (name & -> & Hname). simpl.
    apply lookup_zip_with_Some in Hsize as (p & q & -> & Hp & Hq). apply lookup_replicate in Hq as [-> _].
    pose proof (list_elem_of_lookup_2 _ _ _ Hg) as Hgin. destruct (Hplain g Hgin) as [s Hs]. destruct (Forall2_lookup_lr _ _ _ _ _ _ Hall Hg Hp) as [Hgp Hp0].
    exists p. split_and!; [lia|done|]. intros n ->%list_elem_of_singleton. exists g, p. split_and!; [done|done| |done]. by rewrite (plain_page g s name Hs).
  - split; [rewrite group_tensors_total by done; lia|]. apply group_tensors_count. rewrite length_zip_with, length_replicate. lia.
Qed.

(** *** Bundles shared by two groups *)

(** The layers of a group have distinct siblings. *)
Definition siblings_distinct (gs : list KVCacheGroupSpec) : Prop := ∀ g, g ∈ gs → NoDup (sibling <$> layer_names g).

Lemma two_pages c gs : groups_ok c gs → length gs = 2%nat → dsa_mode c gs = Ret true →
  ∃ latent indexer lp ip, largest_page gs = Ret latent ∧ smallest_page gs = Ret indexer ∧ gs ≡ₚ [latent; indexer] ∧
    group_page latent = Ret lp ∧ group_page indexer = Ret ip ∧ 0 < ip < lp.
Proof.
  intros Hok Hlen Hm. unfold dsa_mode in Hm. destruct (dsa_two_groups_enabled c); [|done].
  destruct (group_pages_ok c gs Hok) as (ps & Hps & Hall). rewrite Hps in Hm. simpl in Hm. injection Hm as Hm%Z.ltb_lt.
  destruct gs as [|g1 [|g2 [|? ?]]]; try done. apply Forall2_cons_inv_l in Hall as (p1 & ps1 & [Hp1 Hpos1] & Hall & ->).
  apply Forall2_cons_inv_l in Hall as (p2 & ps2 & [Hp2 Hpos2] & Hall & ->). apply Forall2_nil_inv_l in Hall as ->.
  assert (p1 ≠ p2) by (intros ->; unfold distinct in Hm; rewrite (remove_dups_same p2) in Hm by set_solver; simpl in Hm; lia).
  unfold largest_page, smallest_page, best_of. rewrite Hp1. simpl. rewrite Hp2. simpl. destruct (decide (p1 < p2)).
  - destruct (Z.ltb_spec p1 p2), (Z.ltb_spec p2 p1); try lia. exists g2, g1, p2, p1. split_and!; try done; constructor.
  - destruct (Z.ltb_spec p1 p2), (Z.ltb_spec p2 p1); try lia. exists g1, g2, p1, p2. by split_and!.
Qed.

Definition shared_tensor (size : Z) (indexers : list string) (name : string) : KVCacheTensor :=
  mkTensor size (if decide (sibling name ∈ indexers) then [name; sibling name] else [name]).

Lemma shared_layers size indexers latents : NoDup latents → NoDup indexers → NoDup (sibling <$> latents) →
  forallb (λ i, existsb (λ l, bool_decide (sibling l = i)) latents) indexers = true →
  concat (shared_by <$> (shared_tensor size indexers <$> latents)) ≡ₚ latents ++ indexers.
Proof.
  intros Hnl Hni Hns Hpair. assert (Hf : filter (λ x, x ∈ indexers) (sibling <$> latents) ≡ₚ indexers).
  { apply NoDup_Permutation; [by apply NoDup_filter|done|]. intros x. rewrite list_elem_of_filter. split; [tauto|]. intros Hx. split; [done|].
    rewrite forallb_forall in Hpair. apply list_elem_of_In, Hpair, existsb_exists in Hx as (l & Hl%list_elem_of_In & Heq%bool_decide_eq_true). subst x. by apply list_elem_of_fmap_2. }
  rewrite <-Hf at 2. clear. induction latents as [|l latents IH]; [done|]. cbn [fmap list_fmap concat]. unfold shared_tensor at 1. cbn [shared_by].
  change (list_fmap _ _ ?f ?x) with (f <$> x). rewrite filter_cons. case_decide; simpl; apply perm_skip; rewrite IH; [apply Permutation_middle|done].
Qed.

Lemma page_le_lcm a b : 0 < a → 0 < b → a ≤ Z.lcm a b ∧ b ≤ Z.lcm a b.
Proof.
  intros Ha Hb. pose proof (Z.lcm_nonneg a b). assert (Z.lcm a b ≠ 0) by (rewrite Z.lcm_eq_0; lia).
  split; apply Z.divide_pos_le; try lia; [apply Z.divide_lcm_l|apply Z.divide_lcm_r].
Qed.

Lemma layers_perm gs gs' : gs ≡ₚ gs' → layers_of gs ≡ₚ layers_of gs'.
Proof.
  unfold layers_of. induction 1 as [|g gs gs' _ IH|g g' gs|gs gs' gs'' _ IH1 _ IH2]; simpl; [done|by rewrite IH| |by rewrite IH1].
  rewrite !app_assoc. apply Permutation_app_tail, Permutation_app_comm.
Qed.

Lemma config_shared_fits c gs avail : groups_ok c gs → plain_groups gs → dsa_mode c gs = Ret true → NoDup (layers_of gs) → siblings_distinct gs →
  num_gpu_blocks_override c = None → 0 ≤ avail →
  match config_dsa_shared c gs avail with
  | Ret k => ∃ n tensors, k = make_config c n tensors gs None ∧ 0 ≤ n ∧ backs gs (n + 1) tensors ∧ total_size tensors ≤ avail ∧ length gs = 2%nat
  | Raise e => e = ValueError
  end.
Proof.
  intros Hok Hplain Hm Hnd Hsib Ho Ha. unfold config_dsa_shared. destruct (Z.eqb_spec (Z.of_nat (length gs)) 2) as [Hlen|]; [|done]. cbn [negb].
  destruct (two_pages c gs Hok ltac:(lia) Hm) as (latent & indexer & lp & ip & -> & -> & Hperm & Hlp & Hip & Hpos).
  cbn [mbind outcome_bind]. destruct (negb _) eqn:Hcount; [done|]. apply negb_false_iff, andb_true_iff in Hcount as [Hc1%Z.ltb_lt Hc2%Z.leb_le].
  rewrite Hlp, Hip. cbn [mbind outcome_bind]. destruct (page_le_lcm lp ip) as [Hle1 Hle2]; [lia..|]. set (bundle := Z.lcm lp ip) in *.
  rewrite !floordiv_pos by nia. cbn [mbind outcome_bind]. unfold may_override_num_blocks. rewrite Ho. cbn [default].
  destruct (div_fits avail (num_layers latent * bundle)) as [Hb Hfit]; [done|nia|]. set (slots := avail / _) in *.
  destruct (Z.leb_spec (slots - 1) 0); [done|]. assert (Hlin : latent ∈ gs) by (rewrite Hperm; by left). assert (Hiin : indexer ∈ gs) by (rewrite Hperm; right; by left).
  assert (Hbs : 0 < group_block_size (kv_cache_spec latent)) by (pose proof (gk_each _ _ Hok latent Hlin) as H0; destruct (Hplain latent Hlin) as [s Hs]; rewrite Hs in H0 |- *; apply H0).
  assert (Htopk : check_topk (index_topk c) (group_block_size (kv_cache_spec latent)) = Ret tt ∨ check_topk (index_topk c) (group_block_size (kv_cache_spec latent)) = Raise ValueError).
  { unfold check_topk, check. destruct (index_topk c); [|by left]. destruct (Z.eqb_spec (group_block_size (kv_cache_spec latent)) 0); [lia|]. case_match; tauto. }
  destruct Htopk as [-> | ->]; [|done]. cbn [mbind outcome_bind]. destruct (forallb _ _) eqn:Hpair; [|done]. cbn [check mbind outcome_bind].
  rewrite (layers_perm gs _ Hperm) in Hnd. unfold layers_of in Hnd. simpl in Hnd. rewrite app_nil_r in Hnd. apply NoDup_app in Hnd as (Hn1 & _ & Hn2).
  eexists (slots - 1), _. split; [done|]. split; [lia|]. split; [split|].
  - change (λ name, mkTensor _ _) with (shared_tensor ((slots - 1 + 1) * bundle) (layer_names indexer)).
    rewrite shared_layers by (done || by apply Hsib). rewrite (layers_perm gs _ Hperm). unfold layers_of. simpl. by rewrite app_nil_r.
  - intros t (name & -> & Hname)%list_elem_of_fmap. simpl. destruct (Hplain latent Hlin) as [s Hs], (Hplain indexer Hiin) as [s' Hs'].
    exists bundle. split_and!; [lia|lia|]. intros n Hn. assert (n = name ∨ (n = sibling name ∧ n ∈ layer_names indexer)) as [->|[-> Hin]].
    { case_decide; [apply elem_of_cons in Hn as [->| ->%list_elem_of_singleton]; tauto|]. apply list_elem_of_singleton in Hn. tauto. }
    + exists latent, lp. split_and!; [done|done|by rewrite (plain_page _ s)|done].
    + exists indexer, ip. split_and!; [done|done|by rewrite (plain_page _ s')|done].
  - unfold total_size. rewrite <-list_fmap_compose, (sum_Z_const _ ((slots - 1 + 1) * bundle)) by done. unfold num_layers in Hfit. split; [nia|lia].
Qed.

(** ** One worker *)

(** The shapes of groups: a spec per group, or one group of layers with their own pages. *)
Definition shaped (gs : list KVCacheGroupSpec) : Prop :=
  plain_groups gs ∨ ∃ names b d, gs = [mkGroup names (UniformTypeKVCacheSpecs b d)] ∧ (names = d.*1 ∨ names = []).

(** Slots beside the blocks: the reserved bundle. *)
Definition extra_slots (c : VllmConfig) (gs : list KVCacheGroupSpec) : outcome Z :=
  dsa ← dsa_mode c gs; Ret (if (dsa : bool) && dsa_shared_pool_enabled c then 1 else 0).

Record config_sound (c : VllmConfig) (gs : list KVCacheGroupSpec) (avail : Z) (k : KVCacheConfig) : Prop := {
  cs_groups : kv_cache_groups k = gs;
  cs_blocks : 0 ≤ cfg_num_blocks k;
  cs_slots : ∃ e, extra_slots c gs = Ret e ∧ backs gs (cfg_num_blocks k + e) (kv_cache_tensors k);
  cs_memory : total_size (kv_cache_tensors k) ≤ avail;
  cs_per_group ns : num_blocks_per_group k = Some ns → ns = replicate (length gs) (cfg_num_blocks k);
  cs_count : is_Some (num_blocks_per_group k) → length (kv_cache_tensors k) = length (layers_of gs);
  cs_pair : extra_slots c gs = Ret 1 → length gs = 2%nat;
  cs_mode : is_Some (num_blocks_per_group k) ↔ dsa_mode c gs = Ret true ∧ dsa_shared_pool_enabled c = false;
}.

Lemma mode_returns c gs : groups_ok c gs → ∃ m, dsa_mode c gs = Ret m.
Proof. intros Hok. unfold dsa_mode. destruct (dsa_two_groups_enabled c); [|by eexists]. destruct (group_pages_ok c gs Hok) as (ps & -> & _). by eexists. Qed.

Lemma mode_single c g : groups_ok c [g] → dsa_mode c [g] = Ret false.
Proof.
  intros Hok. unfold dsa_mode. destruct (dsa_two_groups_enabled c); [|done]. destruct (group_page_ok c g) as (p & Hp & _); [apply Hok; by left|].
  unfold group_pages. simpl. by rewrite Hp.
Qed.

Lemma no_layers gs g : layers_of gs = [] → g ∈ gs → layer_names g = [].
Proof. unfold layers_of. intros H Hg. apply concat_nil_Forall in H. rewrite Forall_forall in H. apply H. by apply list_elem_of_fmap_2. Qed.

Lemma general_no_layers c gs avail : groups_ok c gs → layers_of gs = [] → ∃ e, config_general c gs avail = Raise e.
Proof.
  intros Hok Hnil. unfold config_general. destruct gs as [|g0 gs]; [by eexists|]. cbn [fmap list_fmap]. rewrite py_max_cons. cbn [mbind outcome_bind].
  destruct (get_uniform_page_size (g0 :: gs)) as [p|e]; [|by eexists]. cbn [mbind outcome_bind].
  destruct (foldl_max_spec (num_layers <$> gs) (num_layers g0)) as [Hmax _]. set (size := foldl Z.max _ _) in *.
  change (size ∈ num_layers <$> g0 :: gs) in Hmax. apply list_elem_of_fmap in Hmax as (g & Hsize & Hg). unfold num_layers in Hsize.
  rewrite (no_layers _ g Hnil Hg) in Hsize. rewrite Hsize. simpl. by eexists.
Qed.

Lemma groups_no_layers c gs avail : groups_ok c gs → layers_of gs = [] → ∃ e, config_dsa_groups c gs avail = Raise e.
Proof.
  intros Hok Hnil. unfold config_dsa_groups. destruct (group_pages_ok c gs Hok) as (pages & -> & Hall). cbn [mbind outcome_bind].
  assert (sum_Z (zip_with Z.mul (num_layers <$> gs) pages) = 0) as ->; [|simpl; by eexists].
  assert (Hz : ∀ g, g ∈ gs → num_layers g = 0) by (intros g Hg; unfold num_layers; by rewrite (no_layers _ g Hnil Hg)).
  clear -Hall Hz. induction Hall as [|g p gs ps _ _ IH]; [done|]. cbn. rewrite (Hz g) by by left. simpl. apply IH. intros; apply Hz; by right.
Qed.

Lemma uniform_empty c names b d avail k : names = [] → group_ok c (UniformTypeKVCacheSpecs b d) → num_gpu_blocks_override c = None → 0 ≤ avail →
  let gs := [mkGroup names (UniformTypeKVCacheSpecs b d)] in
  config_uniform_type c gs names d avail = Ret k → ∃ n, k = make_config c n [] gs None ∧ 0 ≤ n ∧ backs gs n [].
Proof.
  intros -> [Hne Hd] Ho Ha gs. unfold config_uniform_type. destruct (pages_return c _ Hd) as (ps & -> & Hpos & Hlen). cbn [mbind outcome_bind].
  assert (Hsum : 0 < sum_Z ps) by (apply sum_Z_pos; [done|]; intros ->; destruct d; [done|by simpl in Hlen]). rewrite floordiv_pos by done. simpl.
  unfold may_override_num_blocks. rewrite Ho. intros [= <-]. eexists. split; [done|]. split; [by apply Z.div_pos|]. split; [done|]. by intros t ?%elem_of_nil.
Qed.

(** What sizing one worker relies on: no override of the block count, no test sizing, and layers
    with names of their own. *)
Record sizing (c : VllmConfig) (gs : list KVCacheGroupSpec) : Prop := {
  sz_ok : groups_ok c gs;
  sz_shaped : shaped gs;
  sz_names : NoDup (layers_of gs);
  sz_siblings : siblings_distinct gs;
  sz_override : num_gpu_blocks_override c = None;
  sz_stage : dsa_shrink_stage c ≠ 2;
}.

Lemma plain_config_sound c gs avail : sizing c gs → plain_groups gs → gs ≠ [] → 0 ≤ avail →
  match (dsa ← dsa_mode c gs;
         if (dsa : bool) then if dsa_shared_pool_enabled c then config_dsa_shared c gs avail else config_dsa_groups c gs avail
         else config_general c gs avail) with
  | Ret k => config_sound c gs avail k
  | Raise e => layers_of gs = [] ∨ (e = ValueError ∧ dsa_mode c gs = Ret true ∧ dsa_shared_pool_enabled c = true)
  end.
Proof.
  intros [Hok _ Hnd Hsib Ho Hst] Hplain Hne Ha. destruct (mode_returns c gs Hok) as [m Hm]. rewrite Hm. cbn [mbind outcome_bind].
  assert (Hextra : extra_slots c gs = Ret (if m && dsa_shared_pool_enabled c then 1 else 0)) by (unfold extra_slots; by rewrite Hm).
  destruct m; [destruct (dsa_shared_pool_enabled c) eqn:Hsh|].
  - pose proof (config_shared_fits c gs avail Hok Hplain Hm Hnd Hsib Ho Ha) as H. destruct (config_dsa_shared c gs avail) as [k|e]; [|by right].
    destruct H as (n & tensors & -> & Hn & Hb & Ht & Hl). split; try done; [by exists 1|by simpl; intros []|]. simpl. split; [by intros []|intros [_ Hf]; congruence].
  - destruct (decide (layers_of gs = [])) as [Hnil|Hl]; [destruct (groups_no_layers c gs avail Hok Hnil) as [e ->]; by left|].
    destruct (config_groups_fits c gs avail Hok Hplain Ho Hst Ha Hl) as (n & tensors & -> & Hn & Hb & Ht & Hcount).
    split; try done; [exists 0; by rewrite Z.add_0_r|by intros ns [= <-]|by rewrite Hextra].
  - destruct (decide (layers_of gs = [])) as [Hnil|Hl]; [destruct (general_no_layers c gs avail Hok Hnil) as [e ->]; by left|].
    destruct (config_general_fits c gs avail Hok Hplain (mode_uniform c gs Hok Hm) Ho Ha Hl) as (n & tensors & -> & Hn & Hb & Ht).
    split; try done; [exists 0; by rewrite Z.add_0_r|by simpl; intros []|by rewrite Hextra|]. rewrite Hm. split; [by intros []|by intros []].
Qed.

Lemma worker_sound c gs avail : sizing c gs → gs ≠ [] → 0 ≤ avail →
  match get_kv_cache_config_from_groups c gs avail with
  | Ret k => config_sound c gs avail k
  | Raise e => layers_of gs = [] ∨ (e = ValueError ∧ dsa_mode c gs = Ret true ∧ dsa_shared_pool_enabled c = true)
  end.
Proof.
  intros Hsz Hne Ha. destruct (sz_shaped _ _ Hsz) as [Hplain|(names & b & d & -> & Hnames)].
  - pose proof (plain_config_sound c gs avail Hsz Hplain Hne Ha) as H. destruct gs as [|[names spec] gs]; [done|].
    destruct (Hplain (mkGroup names spec)) as [s Hs]; [by left|]. simpl in Hs. subst spec. exact H.
  - destruct Hsz as [Hok _ Hnd _ Ho _]. simpl. assert (Hg : group_ok c (UniformTypeKVCacheSpecs b d)) by (apply (gk_each _ _ Hok (mkGroup names _)); by left).
    assert (Hmode := mode_single c _ Hok). assert (Hextra : extra_slots c [mkGroup names (UniformTypeKVCacheSpecs b d)] = Ret 0) by (unfold extra_slots; by rewrite Hmode).
    unfold layers_of in Hnd. simpl in Hnd. rewrite app_nil_r in Hnd. destruct Hnames as [Hnames|Hnil].
    + destruct (config_uniform_fits c names b d avail Hg Hnd Hnames Ho Ha) as (n & tensors & -> & Hn & Hb & Ht).
      split; try done; [exists 0; by rewrite Z.add_0_r|by simpl; intros []|by rewrite Hextra|]. rewrite Hmode. split; [by intros []|by intros []].
    + destruct (config_uniform_type c _ names d avail) as [k|e] eqn:Hrun; [|left; unfold layers_of; by rewrite Hnil].
      destruct (uniform_empty c names b d avail k Hnil Hg Ho Ha Hrun) as (n & -> & Hn & Hb).
      split; try done; [exists 0; by rewrite Z.add_0_r|by simpl; intros []|by rewrite Hextra|]. rewrite Hmode. split; [by intros []|by intros []].
Qed.
