(* ===== verification/KVPages.v ===== *)
(** The page of a layer in its group is its own: what merging, scaling and projecting the specs of
    layers does to their page sizes. *)
From S2P Require Import Prelude Dict KVSpec KVConfig KVEstimate KVGroups KVTensors.
From stdpp Require Import strings.
Local Open Scope Z_scope.

(** ** Layers that may be merged *)

(** The attention fields and value heads of a layer, as a full-attention layer. *)
Definition value_heads (s : LayerSpec) : option (Attention * Z) :=
  match s with
  | FullAttentionSpec a f | SinkFullAttentionSpec a f _ => Some (a, head_size_v f)
  | SlidingWindowSpec a _ | ChunkedLocalAttentionSpec a _ => Some (a, head_size a)
  | _ => None
  end.

(** Merging compares neither the value heads of full attention nor the number of heads, the type
    and the quantization of MLA layers: two layers agree when these are equal where the fields it
    does compare are. *)
Definition agree (s t : LayerSpec) : Prop :=
  (∀ a v w, value_heads s = Some (a, v) → value_heads t = Some (a, w) → v = w) ∧
  (∀ a m b o, mla_fields s = Some (a, m) → mla_fields t = Some (b, o) → head_size a = head_size b →
    num_kv_heads a = num_kv_heads b ∧ att_dtype a = att_dtype b ∧ cache_sparse_c8 m = cache_sparse_c8 o).

(** A quantized sparse cache of the types a merged spec takes. *)
Definition default_types (s : LayerSpec) : Prop :=
  ∀ a m, mla_fields s = Some (a, m) → cache_sparse_c8 m = true → c8_k_cache_dtype m = int8 ∧ c8_k_scale_cache_dtype m = float16.

Record pages_agree (specs : list LayerSpec) : Prop := {
  pa_agree s t : s ∈ specs → t ∈ specs → agree s t;
  pa_types s : s ∈ specs → default_types s;
}.

Lemma pages_agree_sub specs specs' : specs' ⊆ specs → pages_agree specs → pages_agree specs'.
Proof. intros Hsub [H1 H2]. split; intros; [apply H1|apply H2]; by apply Hsub. Qed.

Lemma pages_agree_one s specs : default_types s → (∀ t, t ∈ specs → t = s) → pages_agree specs.
Proof.
  intros Hs Hall. split; [|by intros t ->%Hall]. intros s1 s2 ->%Hall ->%Hall. split; [intros; congruence|].
  intros a m b o E1 E2. rewrite E1 in E2. by injection E2 as -> ->.
Qed.

(** ** Blocks of another size *)

Lemma with_block_size_same s : with_block_size (layer_block_size s) s = s.
Proof. by destruct s as [[] ?|[] ? ?|[] ? ?|[] ?|[] ?|[]|[]|[]]. Qed.
Lemma with_block_size_twice k j s : with_block_size k (with_block_size j s) = with_block_size k s.
Proof. by destruct s. Qed.
Lemma block_size_with k s : layer_block_size (with_block_size k s) = k.
Proof. by destruct s. Qed.
Lemma default_types_with k s : default_types s → default_types (with_block_size k s).
Proof. unfold default_types. destruct s; try done. simpl. intros H a' m' [= <- <-]. by eapply H. Qed.

Lemma to_full_page k s : page_size_bytes (with_block_size k (to_full_attention s)) = page_size_bytes (with_block_size k s).
Proof.
  assert (Hr : ∀ a w ch, real_page_size_bytes (FullAttentionSpec a (full_post_init a None w ch)) = 2 * att_block_size a * num_kv_heads a * head_size a * get_dtype_size (att_dtype a)).
  { intros. simpl. unfold mul_block. ring. }
  destruct s as [| | |a n|a w| | |]; try done; simpl in *;
    [specialize (Hr (attention_with_block_size k a) None (Some n))|specialize (Hr (attention_with_block_size k a) (Some w) None)]; simpl in Hr; by rewrite Hr.
Qed.

Lemma to_full_agree specs : pages_agree specs → pages_agree (to_full_attention <$> specs).
Proof.
  assert (Hv : ∀ s, value_heads (to_full_attention s) = value_heads s) by by intros [].
  assert (Hm : ∀ s, mla_fields (to_full_attention s) = mla_fields s) by by intros [].
  intros [H1 H2]. split.
  - intros s t (s' & -> & Hs)%list_elem_of_fmap (t' & -> & Ht)%list_elem_of_fmap. unfold agree. rewrite !Hv, !Hm. by apply H1.
  - intros s (s' & -> & Hs)%list_elem_of_fmap. unfold default_types. rewrite Hm. by apply H2.
Qed.

(** ** Merging *)

Lemma merge_full_fields build a0 f0 specs m : merge_full build a0 f0 specs = Ret m →
  (∃ w ch, m = build (mkFull (head_size_v f0) w ch)) ∧ ∀ s, s ∈ specs → is_mla s = false ∧ ∃ f, full_fields s = Some (a0, f).
Proof.
  unfold merge_full. intros (u1 & H1%check_Ret & H)%bind_Ret. apply bind_Ret in H as (u2 & H2%check_Ret & H). apply bind_Ret in H as (w & _ & H).
  apply bind_Ret in H as (ch & _ & H). apply bind_Ret in H as (u3 & H3%check_Ret & H). apply bind_Ret in H as (u4 & _ & [= <-]).
  split; [by eexists _, _|]. intros s Hs. rewrite forallb_forall in H1, H3. apply negb_true_iff in H2.
  split; [destruct (is_mla s) eqn:Hm; [|done]; apply not_true_iff_false in H2; destruct H2; apply existsb_exists; exists s; by rewrite <-list_elem_of_In|].
  specialize (H1 s (proj1 (list_elem_of_In _ _) Hs)). destruct (full_fields s) as [[a f]|] eqn:Hf; [|by destruct s].
  specialize (H3 (a, f)). rewrite <-list_elem_of_In, list_elem_of_omap in H3. exists f. do 2 f_equal. by apply (bool_decide_eq_true_1 (a = a0)), H3; exists s.
Qed.

(** What the page of a full-attention layer depends on. *)
Lemma full_page s a f : full_fields s = Some (a, f) → is_mla s = false →
  layer_block_size s = att_block_size a ∧ value_heads s = Some (a, head_size_v f) ∧
  page_size_bytes s = match att_page_size_padded a with
    | Some p => check (mul_block a (head_size a + head_size_v f) <=? p) AssertionError ;; Ret p
    | None => Ret (mul_block a (head_size a + head_size_v f))
    end.
Proof. destruct s; try done; intros [= -> ->] _; done. Qed.

Lemma merge_full_page build a0 f0 s0 specs m s : merge_full build a0 f0 specs = Ret m → (∀ f, full_fields (build f) = Some (a0, f) ∧ is_mla (build f) = false) →
  s0 ∈ specs → full_fields s0 = Some (a0, f0) → pages_agree specs → s ∈ specs →
  page_size_bytes m = page_size_bytes (with_block_size (layer_block_size m) s).
Proof.
  intros Hrun Hb Hs0 Hf0 [Hag _] Hs. destruct (merge_full_fields _ _ _ _ _ Hrun) as [(w & ch & ->) Hall]. destruct (Hall s Hs) as [Hm [f Hf]], (Hall s0 Hs0) as [Hm0 _].
  destruct (Hb (mkFull (head_size_v f0) w ch)) as [Hbf Hbm]. destruct (full_page _ _ _ Hbf Hbm) as (-> & _ & ->). destruct (full_page _ _ _ Hf Hm) as (<- & Hv & Hp), (full_page _ _ _ Hf0 Hm0) as (_ & Hv0 & _).
  rewrite with_block_size_same, Hp. simpl. by rewrite (proj1 (Hag s s0 Hs Hs0) _ _ _ Hv Hv0).
Qed.

Lemma merge_mla_page a0 f0 m0 specs m s : merge_mla a0 m0 specs = Ret m → MLAAttentionSpec a0 f0 m0 ∈ specs → pages_agree specs → s ∈ specs →
  page_size_bytes m = page_size_bytes (with_block_size (layer_block_size m) s).
Proof.
  unfold merge_mla. intros (u1 & H1%check_Ret & H)%bind_Ret H0 [Hag Hty] Hs. apply bind_Ret in H as (u2 & _ & H). apply bind_Ret in H as (u3 & H3%check_Ret & H).
  apply bind_Ret in H as (u4 & H4%check_Ret & [= <-]). rewrite forallb_forall in H1, H3, H4. specialize (H1 s (proj1 (list_elem_of_In _ _) Hs)).
  destruct s as [|a f o| | | | | |]; try done. assert (Hin : In (a, o) (omap mla_fields specs)) by (apply list_elem_of_In, list_elem_of_omap; by exists (MLAAttentionSpec a f o)).
  pose proof (proj1 (Z.eqb_eq _ _) (H3 _ Hin)) as Hh. pose proof (bool_decide_eq_true_1 _ (H4 _ Hin)) as Hd. simpl in Hh, Hd.
  destruct (proj2 (Hag _ _ Hs H0) a o a0 m0 eq_refl eq_refl Hh) as (E1 & E2 & E3). pose proof (Hty _ Hs a o eq_refl) as Ht.
  simpl. unfold mla_page_size_bytes, mul_block. simpl. rewrite Hh, Hd, E1, E2, E3 in *. destruct (cache_sparse_c8 m0) eqn:Hc; [|done]. by destruct Ht as [-> ->].
Qed.

(** The page of the merged layers is that of each of them. *)
Lemma merge_page specs m s : merge_specs specs = Ret m → pages_agree specs → s ∈ specs →
  page_size_bytes m = page_size_bytes (with_block_size (layer_block_size m) s).
Proof.
  destruct specs as [|s0 rest]; [done|]. intros Hrun Hag Hs. assert (H0 : s0 ∈ s0 :: rest) by by left.
  assert (Hsame : (check (forallb (λ s, bool_decide (s = s0)) rest) AssertionError ;; Ret s0) = Ret m → page_size_bytes m = page_size_bytes (with_block_size (layer_block_size m) s)).
  { intros (u & Hall%check_Ret & [= <-])%bind_Ret. enough (s = s0) as -> by by rewrite with_block_size_same. apply elem_of_cons in Hs as [|Hs]; [done|].
    rewrite forallb_forall in Hall. apply list_elem_of_In, Hall in Hs. by apply bool_decide_eq_true in Hs. }
  destruct s0 as [a f|a f o|a f k|a k|a k|o|a|a]; cbn [merge_specs] in Hrun; try by apply Hsame.
  - by apply (merge_full_page (FullAttentionSpec a) a f (FullAttentionSpec a f) _ _ _ Hrun).
  - by apply (merge_mla_page a f o _ _ _ Hrun).
  - by apply (merge_full_page (λ f, SinkFullAttentionSpec a f k) a f (SinkFullAttentionSpec a f k) _ _ _ Hrun).
Qed.

(** ** Grouping *)

(** The page of a layer for blocks of its group. *)
Definition own_page (g : KVCacheGroupSpec) (s : LayerSpec) : outcome Z := page_size_bytes (with_block_size (group_block_size (kv_cache_spec g)) s).
Definition keeps_pages (d : dict string LayerSpec) (gs : list KVCacheGroupSpec) : Prop :=
  ∀ n s g, (n, s) ∈ d → g ∈ gs → n ∈ layer_names g → layer_page g n = own_page g s.

Lemma create_group_page d names g n s : NoDup (d.*1) → create_group d names = Ret g → (∀ specs, (∀ t, t ∈ specs → ∃ n, n ∈ names ∧ (n, t) ∈ d) → pages_agree specs) →
  (n, s) ∈ d → n ∈ layer_names g → layer_page g n = own_page g s.
Proof.
  intros Hnd Hg Hag Hd Hn. unfold create_group in Hg. apply bind_Ret in Hg as (specs & Hspecs%mapM_Ret & Hg). apply bind_Ret in Hg as (m & Hm & [= <-]). simpl in Hn.
  unfold layer_page, own_page. cbn [kv_cache_spec group_block_size]. apply (merge_page specs); [done| |].
  - apply Hag. intros t [i Hi]%list_elem_of_lookup. destruct (Forall2_lookup_r _ _ _ _ _ Hspecs Hi) as (n' & Hn' & Hget). exists n'. split; [by eapply list_elem_of_lookup_2|].
    apply (od_get_Some n' t d Hnd). destruct (od_get n' d); congruence.
  - apply list_elem_of_lookup in Hn as [i Hi]. destruct (Forall2_lookup_l _ _ _ _ _ Hspecs Hi) as (t & Ht & Hget). rewrite (proj2 (od_get_Some n s d Hnd) Hd) in Hget.
    injection Hget as ->. by eapply list_elem_of_lookup_2.
Qed.

Lemma uniform_spec_pages d gs : NoDup (d.*1) → pages_agree (d.*2) → groups_uniform_spec d = Ret gs → keeps_pages d gs.
Proof.
  intros Hnd Hag (g & Hg & H)%bind_Ret n s g' Hd Hin Hn. injection H as <-. apply list_elem_of_singleton in Hin as ->. apply (create_group_page d (d.*1) g n s Hnd Hg); [|done|done].
  intros specs Hall. apply (pages_agree_sub (d.*2)); [|done]. intros t (n' & _ & Ht)%Hall. by apply (list_elem_of_fmap_2 snd _ (n', t)).
Qed.

Lemma every_sub {A} n k (l : list A) x : x ∈ every n k l → x ∈ l.
Proof.
  revert k. induction l as [|y l IH]; intros k; simpl; [done|]. rewrite elem_of_cons. destruct k; [rewrite elem_of_cons|]; intros; naive_solver.
Qed.

(** Groups of layers of one spec. *)
Lemma uniform_page_pages d gs : NoDup (d.*1) → (∀ s, s ∈ d.*2 → default_types s) → groups_uniform_page_size d = Ret gs → keeps_pages d gs.
Proof.
  intros Hnd Hty H. unfold groups_uniform_page_size in H. apply bind_Ret in H as (size & _ & H%mapM_Ret). intros n s g Hd [i Hi]%list_elem_of_lookup Hn.
  destruct (Forall2_lookup_r _ _ _ _ _ H Hi) as (names & Hnames & Hg). apply list_elem_of_lookup_2, list_elem_of_concat in Hnames as (l & Hin & Hl).
  apply list_elem_of_fmap in Hin as ([s0 all] & -> & Hsame). destruct (same_type_spec d) as (_ & _ & Hall). destruct (Hall s0 all Hsame) as [Hne Hd0].
  apply (create_group_page d names g n s Hnd Hg); [|done|done]. intros specs Hspecs. apply (pages_agree_one s0).
  - destruct all as [|n0 ?]; [done|]. apply Hty. by apply (list_elem_of_fmap_2 snd _ (n0, s0)), Hd0; left.
  - intros t (n' & Hn' & Ht)%Hspecs. assert (Hn0 : (n', s0) ∈ d).
    { apply Hd0. unfold split_layers in Hl. apply list_elem_of_fmap in Hl as (j & -> & _). by apply every_sub in Hn'. }
    apply (od_get_Some n' t d Hnd) in Ht. apply (od_get_Some n' s0 d Hnd) in Hn0. congruence.
Qed.

Lemma two_groups_pages d gs : NoDup (d.*1) → groups_dsa_two_groups d = Ret gs → keeps_pages d gs.
Proof.
  intros Hnd H. assert (Hin : ∀ g, g ∈ gs → ∃ x, x ∈ same_type_layers d ∧ g = mkGroup x.2 (OneSpec x.1)).
  { unfold groups_dsa_two_groups in H. destruct (same_type_layers d) as [|x0 [|x1 [|? ?]]]; simpl in H; try done. apply bind_Ret in H as (p0 & _ & H). apply bind_Ret in H as (p1 & _ & H).
    destruct (p0 <? p1); case_match; try done; injection H as <-; intros g [->|[->|[]%elem_of_nil]%elem_of_cons]%elem_of_cons; eexists; (split; [|done]); set_solver. }
  intros n s g Hd ([s0 names] & Hs0 & ->)%Hin Hn. destruct (same_type_spec d) as (_ & _ & Hall). destruct (Hall s0 names Hs0) as [_ Hd0]. specialize (Hd0 n Hn).
  apply (od_get_Some n s d Hnd) in Hd. apply (od_get_Some n s0 d Hnd) in Hd0. assert (s = s0) as -> by congruence.
  unfold layer_page, own_page. simpl. by rewrite with_block_size_same.
Qed.

Lemma one_of_few (l : list Z) x y : (length (remove_dups l) ≤ 1)%nat → x ∈ l → y ∈ l → x = y.
Proof.
  intros Hl Hx Hy. apply elem_of_remove_dups in Hx, Hy. destruct (remove_dups l) as [|z [|? ?]]; simpl in Hl; [by apply elem_of_nil in Hx| |lia].
  apply list_elem_of_singleton in Hx, Hy. congruence.
Qed.

Lemma uniform_type_pages c d spec : NoDup (d.*1) → from_specs c d = Ret (Some spec) → keeps_pages d (groups_uniform_type (d.*1) spec).
Proof.
  intros Hnd (u & Hu & H)%bind_Ret n s g Hd ->%list_elem_of_singleton Hn. destruct u; [|done].
  assert (Hb : ∀ x y, x ∈ d → y ∈ d → layer_block_size x.2 = layer_block_size y.2).
  { unfold is_uniform_type in Hu. destruct (dsa_two_groups_split _ _); [done|]. destruct (Z.ltb_spec 1 (Z.of_nat (length (remove_dups (layer_block_size <$> d.*2))))) as [|Hl]; [done|].
    intros x y Hx Hy. apply (one_of_few (layer_block_size <$> d.*2)); [lia| |]; by apply list_elem_of_fmap_2, list_elem_of_fmap_2. }
  destruct d as [|[n0 s0] d0] eqn:Heq; [done|]. rewrite <-Heq in *. injection H as <-. unfold layer_page, own_page. cbn [kv_cache_spec group_block_size].
  rewrite (proj2 (od_get_Some n s d Hnd) Hd). assert (Hs0 : (n0, s0) ∈ d) by (rewrite Heq; by left). pose proof (Hb _ _ Hs0 Hd) as E. simpl in E. by rewrite E, with_block_size_same.
Qed.

(** Layers whose block size alone was changed, or that became full attention. *)
Definition reblocked (d d' : dict string LayerSpec) : Prop := Forall2 (λ x y, y.1 = x.1 ∧ ∃ k, y.2 = with_block_size k x.2) d d'.

Lemma unify_reblocked d d' : unify_kv_cache_spec_page_size d = Ret d' → reblocked d d'.
Proof.
  assert (Hself : ∀ x : string * LayerSpec, x.1 = x.1 ∧ ∃ k, x.2 = with_block_size k x.2) by (intros x; split; [done|]; exists (layer_block_size x.2); by rewrite with_block_size_same).
  unfold unify_kv_cache_spec_page_size. intros (ps & _ & H)%bind_Ret. destruct (_ <=? _).
  { injection H as <-. unfold reblocked. clear -Hself. induction d; constructor; [apply Hself|done]. }
  apply bind_Ret in H as (m & _ & H%mapM_Ret). eapply Forall2_impl; [exact H|]. intros [n s] y Hy. simpl in Hy. apply bind_Ret in Hy as (p & _ & Hy).
  destruct (p =? m); [injection Hy as <-; apply (Hself (n, s))|]. destruct (p =? 0); [done|]. destruct (negb _); [done|].
  apply bind_Ret in Hy as (q & _ & Hy). apply bind_Ret in Hy as (u & _ & [= <-]). split; [done|by eexists].
Qed.

Lemma reblocked_pages d d' gs : reblocked d d' → keeps_pages d' gs → keeps_pages d gs.
Proof.
  intros H Hk n s g [i Hi]%list_elem_of_lookup Hg Hn. destruct (Forall2_lookup_l _ _ _ _ _ H Hi) as ([n' s'] & Hi' & E & k & Es). simpl in E, Es. subst n' s'.
  apply list_elem_of_lookup_2 in Hi'. rewrite (Hk n _ g Hi' Hg Hn). unfold own_page. by rewrite with_block_size_twice.
Qed.

Lemma reblocked_types d d' : reblocked d d' → (∀ s, s ∈ d.*2 → default_types s) → ∀ s, s ∈ d'.*2 → default_types s.
Proof.
  intros H Hty s ([n s'] & -> & [i Hi]%list_elem_of_lookup)%list_elem_of_fmap. destruct (Forall2_lookup_r _ _ _ _ _ H Hi) as ([m t] & Ht & _ & k & E). simpl in E |- *. subst s'.
  apply default_types_with, Hty. apply (list_elem_of_fmap_2 snd _ (m, t)). by eapply list_elem_of_lookup_2.
Qed.

Lemma hybrid_pages c d d' : unify_hybrid_kv_cache_specs c d = Ret d' → pages_agree (d.*2) → pages_agree (d'.*2) ∧ ∀ gs, keeps_pages d' gs → keeps_pages d gs.
Proof.
  unfold unify_hybrid_kv_cache_specs. intros H Hag. destruct (dsa_two_groups_split _ _); [by injection H as <-|]. apply bind_Ret in H as ([] & _ & H); [by injection H as <-|].
  apply bind_Ret in H as ([] & _ & H); [|done]. injection H as <-. case_match; [|done]. split.
  - replace (((λ x : string * LayerSpec, (x.1, to_full_attention x.2)) <$> d).*2) with (to_full_attention <$> d.*2) by (rewrite <-!list_fmap_compose; by apply list_fmap_ext).
    by apply to_full_agree.
  - intros gs Hk n s g Hd Hg Hn. rewrite (Hk n (to_full_attention s) g) by (done || by apply (list_elem_of_fmap_2 (λ x, (x.1, to_full_attention x.2)) _ (n, s))). apply to_full_page.
Qed.

(** However the layers are grouped, the page of a layer in its group is its own. *)
Lemma groups_keep_pages c d gs : NoDup (d.*1) → pages_agree (d.*2) → get_kv_cache_groups c d = Ret gs → keeps_pages d gs.
Proof.
  intros Hnd Hag H. unfold get_kv_cache_groups in H. apply bind_Ret in H as (d1 & Hd1 & H).
  assert (Hk : d1.*1 = d.*1 ∧ pages_agree (d1.*2) ∧ ∀ gs, keeps_pages d1 gs → keeps_pages d gs).
  { destruct (disable_hybrid_kv_cache_manager c); [|by injection Hd1 as <-]. split; [by apply (unify_hybrid_keys c)|by apply (hybrid_pages c)]. }
  destruct Hk as (Hk & Hag1 & Hback). rewrite <-Hk in Hnd. apply Hback. clear Hd1 Hk Hback Hag d. case_bool_decide as Hne.
  { injection H as <-. by intros n s g _ ?%elem_of_nil. }
  apply bind_Ret in H as ([] & _ & H); [by apply uniform_spec_pages|].
  apply bind_Ret in H as ([spec|] & Hu & H); [injection H as <-; by apply (uniform_type_pages c)|].
  apply bind_Ret in H as ([] & _ & H); [by apply two_groups_pages|].
  apply bind_Ret in H as (d2 & Hd2 & H). pose proof (unify_reblocked _ _ Hd2) as Hre. apply (reblocked_pages _ d2 _ Hre). apply uniform_page_pages; [by rewrite (unify_pages_keys _ _ Hd2)| |done].
  apply (reblocked_types _ _ Hre), Hag1.
Qed.

(** ** One worker *)

Lemma od_get_listed {A} n (s : A) (l : list string) (f : string → option A) sub : mapM (λ n, match f n with Some s => Ret (n, s) | None => Raise KeyError end) l = Ret sub →
  n ∈ l → od_get n sub = f n.
Proof.
  intros H%mapM_Ret. induction H as [|m [m' t] l sub Hm _ IH]; [by intros ?%elem_of_nil|]. destruct (f m) as [t'|] eqn:Hf; [|done]. injection Hm as <- <-.
  intros [->|Hn]%elem_of_cons; simpl; case_decide; subst; try done. by apply IH.
Qed.

Lemma project_keeps_pages d spec gs gs' : keeps_pages d gs → project_kv_cache_groups_to_worker gs spec = Ret gs' → keeps_pages d gs'.
Proof.
  intros Hk Hp%mapM_Ret n s g' Hd [i Hi]%list_elem_of_lookup Hn. destruct (Forall2_lookup_r _ _ _ _ _ Hp Hi) as (g & Hg%list_elem_of_lookup_2 & Hgg).
  assert (Hspec : layer_page g' n = layer_page g n ∧ group_block_size (kv_cache_spec g') = group_block_size (kv_cache_spec g) ∧ n ∈ layer_names g).
  { unfold project_group in Hgg. unfold layer_page. set (names := filter _ _) in Hgg. assert (Hsub : ∀ x, x ∈ names → x ∈ layer_names g) by (by intros x [_ ?]%list_elem_of_filter).
    destruct (kv_cache_spec g) as [s0|b specs] eqn:Es; [injection Hgg as <-; split_and!; [done|done|by apply Hsub]|].
    case_bool_decide; [injection Hgg as <-; split_and!; [done|done|by apply Hsub]|]. apply bind_Ret in Hgg as (sub & Hsub' & [= <-]).
    split_and!; [|done|by apply Hsub]. simpl. by rewrite (od_get_listed n s names (λ n, od_get n specs) sub Hsub'). }
  destruct Hspec as (-> & Eb & Hin). unfold own_page. rewrite Eb. by apply Hk.
Qed.

Lemma layer_page_pos c g n p : group_ok c (kv_cache_spec g) → layer_page g n = Ret p → 0 < p.
Proof.
  unfold layer_page. intros Hok Hp. assert (Hl : ∀ s, layer_ok c s → page_size_bytes s = Ret p → 0 < p) by (intros s [(q & Hq & ?) _ _]; congruence).
  destruct (kv_cache_spec g) as [s|b d]; [by apply (Hl s)|]. destruct Hok as [_ Hd]. destruct (od_get n d) as [s|] eqn:Hget; [|done]. apply (Hl s); [|done].
  rewrite Forall_forall in Hd. apply Hd. clear -Hget. induction d as [|[m t] d IH]; [done|]. simpl in Hget |- *. case_decide; [injection Hget as ->; by left|right; by apply IH].
Qed.

(** Room for [slots] blocks of a layer, each of the layer's own page, in a tensor that holds it. *)
Definition has_room (k : KVCacheConfig) (slots : Z) (x : string * LayerSpec) : Prop :=
  ∃ t g p, t ∈ kv_cache_tensors k ∧ x.1 ∈ shared_by t ∧ g ∈ kv_cache_groups k ∧ x.1 ∈ layer_names g ∧ own_page g x.2 = Ret p ∧ 0 < p ∧ p * slots ≤ tensor_size t.

Lemma backs_room c d k slots e n s : groups_ok c (kv_cache_groups k) → keeps_pages d (kv_cache_groups k) → backs (kv_cache_groups k) (slots + e) (kv_cache_tensors k) →
  0 ≤ slots → 0 ≤ e → (n, s) ∈ d → n ∈ layers_of (kv_cache_groups k) → has_room k slots (n, s).
Proof.
  intros Hok Hk [Hl Hr] Hs He Hd Hn. rewrite <-Hl in Hn. apply list_elem_of_concat in Hn as (ns & (t & -> & Ht)%list_elem_of_fmap & Hn).
  destruct (Hr t Ht) as (q & Hq & Hsize & Hpages). destruct (Hpages n Hn) as (g & p & Hg & Hgn & Hp & Hle).
  assert (0 < p) by (by apply (layer_page_pos c g n p (gk_each _ _ Hok g Hg))). exists t, g, p. split_and!; try done.
  - simpl. by rewrite <-(Hk n s g).
  - nia.
Qed.
