(* ===== verification/KVWorkers.v ===== *)
(** All workers together: the groups of the model cut down to the layers of a worker, and the
    block counts made equal. *)
From S2P Require Import Prelude Dict KVSpec KVConfig KVEstimate KVGroups KVTensors KVPages.
From stdpp Require Import strings.
Local Open Scope Z_scope.

(** ** Shrinking *)

Lemma resize_exact old new q t : 0 < old → tensor_size t = q * old → resize_tensor old new t = Ret (mkTensor (q * new) (shared_by t)).
Proof.
  intros Ho Hs. unfold resize_tensor. destruct (Z.eqb_spec old 0); [lia|]. rewrite Hs, Z.mod_mul, Z.div_mul by lia. done.
Qed.

(** The tensors of a configuration, for a smaller number of slots. *)
Lemma shrink_tensors gs old new tensors (f : KVCacheTensor → outcome KVCacheTensor) : backs gs old tensors → 0 ≤ new ≤ old →
  (∀ t q, t ∈ tensors → 0 ≤ q → tensor_size t = q * old → f t = Ret (mkTensor (q * new) (shared_by t))) →
  ∃ tensors', mapM f tensors = Ret tensors' ∧ backs gs new tensors' ∧ total_size tensors' ≤ total_size tensors.
Proof.
  intros [Hl Hr] Hn Hf.
  assert (Hmap : ∃ tensors', mapM f tensors = Ret tensors' ∧ Forall2 (λ t t', ∃ q, 0 ≤ q ∧ tensor_size t = q * old ∧ t' = mkTensor (q * new) (shared_by t)) tensors tensors').
  { clear Hl. induction tensors as [|t tensors IH]; [by exists []|]. destruct (Hr t) as (q & Hq & Hsize & _); [by left|].
    destruct IH as (ts & H1 & H2); [intros; apply Hr; by right|intros; apply Hf; [by right|done..]|].
    exists (mkTensor (q * new) (shared_by t) :: ts). cbn [mapM]. rewrite (Hf t q) by (by left || done). simpl. rewrite H1. split; [done|]. constructor; [by exists q|done]. }
  destruct Hmap as (ts & H1 & H2). exists ts. split; [done|]. split; [split|].
  - rewrite <-Hl. clear -H2. induction H2 as [|t t' ts ts' (q & _ & _ & ->) _ IH]; [done|]. simpl. by apply Permutation_app_head.
  - intros t' Ht'. apply list_elem_of_lookup in Ht' as [i Hi]. destruct (Forall2_lookup_r _ _ _ _ _ H2 Hi) as (t & Ht & q & Hq & Hsize & ->).
    apply list_elem_of_lookup_2 in Ht. destruct (Hr t Ht) as (q' & Hq' & Hsize' & Hn'). simpl.
    destruct (decide (old = 0)) as [->|]; [exists q'; assert (new = 0) as -> by lia; split_and!; [done|lia|done]|].
    exists q. assert (q = q') as -> by nia. by split_and!.
  - clear -H2 Hn. induction H2 as [|t t' ts ts' (q & Hq & Hs & ->) _ IH]; [done|]. rewrite !total_size_cons. simpl. nia.
Qed.

(** A configuration of [n] blocks. *)
Record shrunk (c : VllmConfig) (gs : list KVCacheGroupSpec) (avail n : Z) (k : KVCacheConfig) : Prop := {
  sh_groups : kv_cache_groups k = gs;
  sh_blocks : cfg_num_blocks k = n;
  sh_slots : ∃ e, extra_slots c gs = Ret e ∧ backs gs (n + e) (kv_cache_tensors k);
  sh_memory : total_size (kv_cache_tensors k) ≤ avail;
}.

Lemma shrink_scalar_ok c gs avail k n e : config_sound c gs avail k → 0 ≤ n ≤ cfg_num_blocks k → extra_slots c gs = Ret e → 0 ≤ e →
  ∃ k', shrink_scalar e n k = Ret k' ∧ shrunk c gs avail n k'.
Proof.
  intros [H1 H2 (e' & He' & Hb) H4 _ _ _ _] Hn He He0. rewrite He in He'. injection He' as <-. unfold shrink_scalar.
  destruct (Z.eqb_spec (cfg_num_blocks k) n) as [<-|Hne]; [exists k; split; [done|]; split; [done|done|by exists e|done]|].
  destruct (shrink_tensors gs _ (n + e) _ (resize_tensor (cfg_num_blocks k + e) (n + e)) Hb) as (ts & Hts & Hb' & Ht); [lia| |].
  { intros t q _ _ Hs. apply resize_exact; [lia|done]. }
  rewrite Hts. simpl. eexists. split; [done|]. split; [done|done|by exists e|simpl; lia].
Qed.

(** Walking the groups is walking the tensors when every group has the same counts. *)
Lemma shrink_groups_all old new gs tensors (n : nat) : n = length gs → length tensors = length (layers_of gs) →
  shrink_groups (zip gs (zip (replicate n old) (replicate n new))) tensors =
    mapM (λ t, if old =? 0 then Raise ZeroDivisionError
               else check (tensor_size t mod old =? 0) AssertionError ;;
                 Ret (if new =? old then t else mkTensor (tensor_size t / old * new) (shared_by t))) tensors.
Proof.
  intros ->. set (f := λ t, _). revert tensors. induction gs as [|g gs IH]; intros tensors Hl.
  { unfold layers_of in Hl. simpl in Hl. by destruct tensors. }
  unfold layers_of in Hl. simpl in Hl. rewrite length_app in Hl. change (list_fmap _ _ layer_names gs) with (layer_names <$> gs) in Hl. cbn [length replicate zip zip_with shrink_groups].
  destruct (Nat.ltb_spec (length tensors) (length (layer_names g))); [lia|].
  rewrite IH by (rewrite length_drop; unfold layers_of; lia). fold f.
  assert (Happ : ∀ xs ys, mapM f (xs ++ ys) = (a ← mapM f xs; b ← mapM f ys; Ret (a ++ b))).
  { clear. induction xs as [|x xs IH]; intros ys; simpl; [by destruct (mapM f ys)|]. destruct (f x); simpl; [|done]. rewrite IH. destruct (mapM f xs); simpl; [|done]. by destruct (mapM f ys). }
  transitivity (mapM f (take (length (layer_names g)) tensors ++ drop (length (layer_names g)) tensors)); [by rewrite Happ|by rewrite take_drop].
Qed.

Lemma shrink_per_group_ok c gs avail k n k' : config_sound c gs avail k → 0 ≤ n ≤ cfg_num_blocks k → is_Some (num_blocks_per_group k) →
  shrink_per_group (replicate (length gs) n) k = Ret k' → shrunk c gs avail n k'.
Proof.
  intros [H1 H2 (e & He & Hb) H4 H5 H6 _ H8] Hn [ns Hns] Hrun. pose proof (H5 ns Hns) as ->.
  assert (e = 0) as ->.
  { destruct (proj1 H8 (mk_is_Some _ _ Hns)) as [Hm Hsh]. unfold extra_slots in He. rewrite Hm, Hsh in He. by injection He. }
  rewrite Z.add_0_r in Hb. unfold shrink_per_group in Hrun. rewrite Hns, H1 in Hrun. cbv zeta in Hrun. unfold default, from_option, id in Hrun.
  rewrite shrink_groups_all in Hrun; [|done|rewrite H6; [done|by eexists]]. apply bind_Ret in Hrun as (ts & Hts & Hrun). apply bind_Ret in Hrun as (m & Hmax & [= <-]).
  assert (Hm : m = n).
  { destruct (length gs); [done|]. simpl in Hmax. injection Hmax as <-. destruct (foldl_max_spec (replicate n0 n) n) as [Hin _].
    apply elem_of_cons in Hin as [|Hin]; [done|]. by apply elem_of_replicate in Hin as [-> _]. }
  destruct (decide (cfg_num_blocks k = 0)) as [Hz|Hz].
  { assert (n = 0) as -> by lia. split; [done|done| |].
    - exists 0. split; [done|]. simpl. rewrite Hz in Hts. destruct (kv_cache_tensors k) as [|t l] eqn:Ht; [injection Hts as <-; rewrite Hz in Hb; exact Hb|done].
    - rewrite Hz in Hts. destruct (kv_cache_tensors k) as [|t l] eqn:Ht; [injection Hts as <-; done|done]. }
  destruct (shrink_tensors gs _ n _ (λ t, if cfg_num_blocks k =? 0 then Raise ZeroDivisionError
     else check (tensor_size t mod cfg_num_blocks k =? 0) AssertionError ;;
       Ret (if n =? cfg_num_blocks k then t else mkTensor (tensor_size t / cfg_num_blocks k * n) (shared_by t))) Hb Hn) as (ts' & Hts' & Hb' & Ht').
  { intros t q _ _ Hs. destruct (Z.eqb_spec (cfg_num_blocks k) 0); [done|]. rewrite Hs, Z.mod_mul, Z.div_mul by lia. simpl.
    destruct (Z.eqb_spec n (cfg_num_blocks k)) as [->|]; [|done]. destruct t; simpl in *. by subst. }
  rewrite Hts in Hts'. injection Hts' as <-. split; [done|done|exists 0; by rewrite Z.add_0_r|simpl; lia].
Qed.

(** ** The same number of blocks everywhere *)

Lemma py_min_spec xs m : py_min xs = Ret m → m ∈ xs ∧ ∀ x, x ∈ xs → m ≤ x.
Proof.
  destruct xs as [|x xs]; [done|]. simpl. intros [= <-]. revert x. induction xs as [|y xs IH]; intros x; simpl; [split; [by left|]; by intros z ->%list_elem_of_singleton|].
  destruct (IH (Z.min x y)) as [H1 H2]. split.
  - apply elem_of_cons in H1 as [H1|H1]; [|by right; right]. rewrite H1. destruct (Z.min_spec x y) as [[_ ->]|[_ ->]]; [by left|right; by left].
  - assert (foldl Z.min (Z.min x y) xs ≤ Z.min x y) by (apply H2; by left). intros z [->|[->|Hz]%elem_of_cons]%elem_of_cons; [lia|lia|]. apply H2. by right.
Qed.

(** Configurations of workers in one mode. *)
Record in_mode (c : VllmConfig) (mode : bool) (e : Z) (gs : list KVCacheGroupSpec) : Prop := {
  im_ok : groups_ok c gs;
  im_mode : dsa_mode c gs = Ret mode;
  im_extra : e = if mode && dsa_shared_pool_enabled c then 1 else 0;
}.

Lemma uses_shared c mode e gs avail k : in_mode c mode e gs → config_sound c gs avail k → uses_dsa_shared c k = Ret (e =? 1).
Proof.
  intros [Hok Hm ->] [H1 _ _ _ _ _ H7 _]. unfold uses_dsa_shared. rewrite H1. unfold dsa_mode in Hm. destruct (dsa_two_groups_enabled c) eqn:Hd; [|by injection Hm as <-].
  destruct (group_pages_ok c gs Hok) as (ps & Hps & _). rewrite Hps in Hm |- *. simpl in Hm |- *. injection Hm as Hm.
  destruct (dsa_shared_pool_enabled c) eqn:Hs; simpl; [|by rewrite andb_false_r]. rewrite andb_true_r.
  destruct mode; [|destruct (_ =? 2); simpl; [by rewrite Hm|done]]. destruct (Z.eqb_spec (Z.of_nat (length gs)) 2) as [|Hne]; [simpl; by rewrite Hm|].
  destruct Hne. rewrite H7; [done|]. unfold extra_slots, dsa_mode. rewrite Hd, Hps. simpl. by rewrite Hm, Hs.
Qed.

Section reconcile.
Variables (c : VllmConfig) (mode : bool) (e : Z).

(** The groups, the memory and the first configuration of each worker. *)
Variables (workers : list (list KVCacheGroupSpec * Z)) (ks : list KVCacheConfig).
Hypothesis Hsound : Forall2 (λ w k, in_mode c mode e w.1 ∧ config_sound c w.1 w.2 k) workers ks.

Lemma shared_flags : ks ≠ [] → ∃ fs, mapM (uses_dsa_shared c) ks = Ret fs ∧ forallb id fs = (e =? 1).
Proof.
  intros Hne. assert (Hfs : mapM (uses_dsa_shared c) ks = Ret (replicate (length ks) (e =? 1))).
  { clear Hne. pose proof Hsound as HS. clear Hsound. induction HS as [|w k ws ks' [Hm Hk] _ IH]; [done|]. cbn [mapM length replicate]. rewrite (uses_shared c mode e _ _ _ Hm Hk). simpl. by rewrite IH. }
  exists (replicate (length ks) (e =? 1)). split; [done|]. destruct ks as [|k ks']; [done|]. clear. simpl. induction ks' as [|k' ks' IH]; simpl; [by destruct (e =? 1)|].
  destruct (e =? 1); simpl in *; [exact IH|done].
Qed.

Lemma scalar_all n : (∀ k, k ∈ ks → 0 ≤ n ≤ cfg_num_blocks k) → ∃ ks', mapM (shrink_scalar e n) ks = Ret ks' ∧ Forall2 (λ w k, shrunk c w.1 w.2 n k) workers ks'.
Proof.
  intros Hn. pose proof Hsound as HS. clear Hsound. induction HS as [|w k ws ks' [[G1 G2 G3] Hk] _ IH]; [by exists []|].
  assert (He : extra_slots c w.1 = Ret e) by (unfold extra_slots; rewrite G2; simpl; by rewrite G3).
  assert (He0 : 0 ≤ e) by (rewrite G3; case_match; lia).
  destruct (shrink_scalar_ok c w.1 w.2 k n e Hk (Hn k ltac:(by left)) He He0) as (k' & H1 & H2). destruct IH as (ks'' & H3 & H4); [intros; apply Hn; by right|].
  exists (k' :: ks''). cbn [mapM]. rewrite H1. simpl. rewrite H3. split; [done|by constructor].
Qed.

Lemma per_group_all n (G : nat) ks' : (∀ k, k ∈ ks → 0 ≤ n ≤ cfg_num_blocks k) → (∀ w, w ∈ workers → length w.1 = G) → (∀ k, k ∈ ks → is_Some (num_blocks_per_group k)) →
  mapM (shrink_per_group (replicate G n)) ks = Ret ks' → Forall2 (λ w k, shrunk c w.1 w.2 n k) workers ks'.
Proof.
  intros Hn HG Hpg H%mapM_Ret. revert ks' H. pose proof Hsound as HS. clear Hsound. induction HS as [|w k ws ks0 [_ Hk] _ IH]; intros ks' H; [apply Forall2_nil_inv_l in H as ->; constructor|].
  apply Forall2_cons_inv_l in H as (k' & ks'' & Hk' & H & ->). constructor.
  - apply (shrink_per_group_ok c w.1 w.2 k n k' Hk); [apply Hn; by left|apply Hpg; by left|]. by rewrite HG by by left.
  - apply IH; [intros; apply Hn; by right|intros; apply HG; by right|intros; apply Hpg; by right|done].
Qed.

Lemma sound_blocks k : k ∈ ks → 0 ≤ cfg_num_blocks k.
Proof. intros [i Hi]%list_elem_of_lookup. destruct (Forall2_lookup_r _ _ _ _ _ Hsound Hi) as (w & _ & _ & [_ H _ _ _ _ _ _]). done. Qed.

End reconcile.

Lemma reconcile_ok c mode e workers ks ks' (G : nat) : Forall2 (λ w k, in_mode c mode e w.1 ∧ config_sound c w.1 w.2 k) workers ks → ks ≠ [] → G ≠ 0%nat → (∀ w, w ∈ workers → length w.1 = G) → reconcile c ks = Ret ks' →
  ∃ n, 0 ≤ n ∧ Forall2 (λ w k, shrunk c w.1 w.2 n k) workers ks'.
Proof.
  intros Hsound Hne HG Hlen H. unfold reconcile in H. destruct (shared_flags c mode e workers ks Hsound Hne) as (fs & Hfs & Hall). rewrite Hfs in H. cbn [mbind outcome_bind] in H. rewrite Hall in H.
  destruct (negb (e =? 1) && _) eqn:Hpg.
  - apply andb_true_iff in Hpg as [_ Hpg]. rewrite forallb_forall in Hpg.
    assert (Hsome : ∀ k, k ∈ ks → is_Some (num_blocks_per_group k)) by (intros k Hk%list_elem_of_In; by apply Hpg, bool_decide_eq_true in Hk).
    assert (Hns : ∀ k, k ∈ ks → num_blocks_per_group k = Some (replicate G (cfg_num_blocks k))).
    { intros k Hk. destruct (Hsome k Hk) as [ns Hns]. rewrite Hns. f_equal. apply list_elem_of_lookup in Hk as [i Hi].
      destruct (Forall2_lookup_r _ _ _ _ _ Hsound Hi) as (w & Hw & _ & [_ _ _ _ H5 _ _ _]). rewrite (H5 ns Hns). by rewrite Hlen by by eapply list_elem_of_lookup_2. }
    destruct ks as [|k0 ks0] eqn:Hks; [done|]. rewrite <-Hks in *. rewrite (Hns k0) in H by (rewrite Hks; by left). cbn [default from_option id] in H.
    rewrite length_replicate in H. apply bind_Ret in H as (u & _ & H). apply bind_Ret in H as (mins & Hmins & H).
    assert (Hmin : ∃ n, py_min (cfg_num_blocks <$> ks) = Ret n) by (rewrite Hks; by eexists). destruct Hmin as [n Hn]. destruct (py_min_spec _ _ Hn) as [Hin Hle].
    assert (Hbound : ∀ k, k ∈ ks → 0 ≤ n ≤ cfg_num_blocks k).
    { intros k Hk. split; [|apply Hle; by apply list_elem_of_fmap_2]. apply list_elem_of_fmap in Hin as (k1 & -> & Hk1). by apply (sound_blocks c mode e workers ks Hsound). }
    assert (mins = replicate G n) as ->.
    { apply mapM_Ret in Hmins. apply list_eq_same_length with G; [by rewrite length_replicate|apply Forall2_length in Hmins; by rewrite length_seq in Hmins|].
      intros i x y Hi Hx Hy. apply lookup_replicate in Hy as [-> _]. destruct (Forall2_lookup_r _ _ _ _ _ Hmins Hx) as (j & Hj & Hmin). apply lookup_seq in Hj as [-> _].
      enough ((λ k, default 0 (default [] (num_blocks_per_group k) !! (0 + i)%nat)) <$> ks = cfg_num_blocks <$> ks) as Heq by (cbv beta in Hmin; rewrite Heq, Hn in Hmin; congruence).
      apply list_fmap_ext. intros m k Hk. rewrite (Hns k) by by eapply list_elem_of_lookup_2. simpl. by rewrite lookup_replicate_2. }
    exists n. split; [by apply (Hbound k0); rewrite Hks; left|]. by apply (per_group_all c mode e workers ks Hsound n G).
  - apply bind_Ret in H as (n & Hn & H). destruct (py_min_spec _ _ Hn) as [Hin Hle].
    assert (Hbound : ∀ k, k ∈ ks → 0 ≤ n ≤ cfg_num_blocks k).
    { intros k Hk. split; [|apply Hle; by apply list_elem_of_fmap_2]. apply list_elem_of_fmap in Hin as (k1 & -> & Hk1). by apply (sound_blocks c mode e workers ks Hsound). }
    destruct (scalar_all c mode e workers ks Hsound n Hbound) as (ks'' & H1 & H2).
    assert (He : (if e =? 1 then 1 else 0) = e).
    { destruct Hsound as [|w k ws ks0 [[_ _ He] _] _]; [done|]. rewrite He. by destruct (mode && dsa_shared_pool_enabled c). }
    rewrite He, H1 in H. injection H as <-. exists n. split; [|done]. destruct ks as [|k0 ks0]; [done|]. apply (Hbound k0). by left.
Qed.

(** ** The layers of one worker *)

Definition on_worker (spec : dict string LayerSpec) (names : list string) : list string := filter (λ n, od_mem n spec = true) names.

Lemma project_names spec g g' : project_group spec g = Ret g' → layer_names g' = on_worker spec (layer_names g).
Proof.
  unfold project_group. destruct (kv_cache_spec g) as [s|b d]; [by intros [= <-]|]. case_bool_decide; [by intros [= <-]|].
  intros (sub & _ & [= <-])%bind_Ret. done.
Qed.

Lemma project_layers spec gs gs' : Forall2 (λ g g', project_group spec g = Ret g') gs gs' → layers_of gs' = on_worker spec (layers_of gs).
Proof.
  unfold layers_of. induction 1 as [|g g' gs gs' Hg _ IH]; [done|]. cbn [fmap list_fmap concat]. unfold on_worker at 1. rewrite filter_app, (project_names _ _ _ Hg). by f_equal.
Qed.

Lemma NoDup_sibling_filter spec (l : list string) : NoDup (sibling <$> l) → NoDup (sibling <$> on_worker spec l).
Proof.
  induction l as [|n l IH]; [constructor|]. cbn [fmap list_fmap]. intros [Hn Hl]%NoDup_cons. unfold on_worker. rewrite filter_cons. case_decide; [|by apply IH].
  apply NoDup_cons. split; [|by apply IH]. intros (m & Hm & Hin)%list_elem_of_fmap. apply list_elem_of_filter in Hin as [_ Hin]. apply Hn. rewrite Hm. by apply list_elem_of_fmap_2.
Qed.

Lemma project_plain spec g g' s : project_group spec g = Ret g' → kv_cache_spec g = OneSpec s → kv_cache_spec g' = OneSpec s.
Proof. unfold project_group. intros H Hs. rewrite Hs in H. by injection H as <-. Qed.

Lemma project_uniform c spec names b d g' : group_ok c (UniformTypeKVCacheSpecs b d) → project_group spec (mkGroup names (UniformTypeKVCacheSpecs b d)) = Ret g' →
  ∃ d', kv_cache_spec g' = UniformTypeKVCacheSpecs b d' ∧ (layer_names g' = d'.*1 ∨ layer_names g' = []) ∧ group_ok c (UniformTypeKVCacheSpecs b d').
Proof.
  intros [Hne Hd] H. unfold project_group in H. cbn [kv_cache_spec layer_names] in H. case_bool_decide as Hnil.
  { injection H as <-. exists d. split_and!; [done|by right|by split]. }
  apply bind_Ret in H as (sub & Hsub & [= <-]). exists sub. apply mapM_Ret in Hsub. cbn [kv_cache_spec layer_names].
  fold (on_worker spec names) in Hsub, Hnil |- *. set (ns := on_worker spec names) in *. clearbody ns.
  assert (Hkeys : ns = sub.*1 ∧ Forall (layer_ok c) (sub.*2)).
  { clear Hnil. induction Hsub as [|n [n' s] ns sub Hn _ [IH1 IH2]]; [by split|]. destruct (od_get n d) as [s'|] eqn:Hget; [|done]. injection Hn as <- <-.
    cbn [fmap list_fmap fst snd]. split; [by f_equal|]. constructor; [|done]. rewrite Forall_forall in Hd. apply Hd. clear -Hget.
    induction d as [|[k v] d IH]; [done|]. simpl in Hget |- *. case_decide; [injection Hget as <-; by left|right; by apply IH]. }
  destruct Hkeys as [Hk1 Hk2]. split_and!; [done|by left|]. split; [|done]. intros ->. by rewrite Hk1 in Hnil.
Qed.

Lemma project_sizing c spec gs gs' : sizing c gs → project_kv_cache_groups_to_worker gs spec = Ret gs' →
  sizing c gs' ∧ layers_of gs' = on_worker spec (layers_of gs) ∧ dsa_mode c gs' = dsa_mode c gs ∧ length gs' = length gs.
Proof.
  intros [Hok Hsh Hnd Hsib Ho Hst] Hp%mapM_Ret. pose proof (project_layers _ _ _ Hp) as Hl. pose proof (Forall2_length _ _ _ Hp) as Hlen.
  assert (Hsib' : siblings_distinct gs').
  { intros g' [i Hi]%list_elem_of_lookup. destruct (Forall2_lookup_r _ _ _ _ _ Hp Hi) as (g & Hg & Hgg). rewrite (project_names _ _ _ Hgg).
    apply NoDup_sibling_filter, Hsib. by eapply list_elem_of_lookup_2. }
  assert (Hnd' : NoDup (layers_of gs')) by (rewrite Hl; by apply NoDup_filter).
  destruct Hsh as [Hplain|(names & b & d & -> & Hnames)].
  - assert (Hspec : Forall2 (λ g g', kv_cache_spec g' = kv_cache_spec g) gs gs').
    { apply Forall2_same_length_lookup. split; [done|]. intros i g g' Hg Hg'. pose proof (Forall2_lookup_lr _ _ _ _ _ _ Hp Hg Hg') as Hgg.
      destruct (Hplain g) as [s Hs]; [by eapply list_elem_of_lookup_2|]. by rewrite Hs, (project_plain _ _ _ _ Hgg Hs). }
    assert (Hback : ∀ g', g' ∈ gs' → ∃ g, g ∈ gs ∧ kv_cache_spec g' = kv_cache_spec g).
    { intros g' [i Hi]%list_elem_of_lookup. destruct (Forall2_lookup_r _ _ _ _ _ Hspec Hi) as (g & Hg & Hgg). exists g. split; [by eapply list_elem_of_lookup_2|done]. }
    split_and!; [|done| |done].
    + split; try done; [split|left].
      * intros g' (g & Hg & ->)%Hback. by apply Hok.
      * intros g1 g2 (g1' & H1 & E1)%Hback (g2' & H2 & E2)%Hback Hd. unfold group_page. rewrite E1, E2. by apply (gk_pages _ _ Hok g1' g2').
      * intros g' (g & Hg & ->)%Hback. by apply Hplain.
    + unfold dsa_mode, group_pages. enough (mapM group_page gs' = mapM group_page gs) as -> by done. clear -Hspec.
      induction Hspec as [|g g' gs gs' Hgg _ IH]; [done|]. cbn [mapM]. assert (group_page g' = group_page g) as -> by (unfold group_page; by rewrite Hgg). by rewrite IH.
  - apply Forall2_cons_inv_l in Hp as (g' & gs'' & Hg' & Hp & ->). apply Forall2_nil_inv_l in Hp as ->.
    destruct (project_uniform c spec names b d g') as (d' & Hs' & Hn' & Hg); [apply (gk_each _ _ Hok (mkGroup names _)); by left|done|].
    assert (Hok' : groups_ok c [g']).
    { split; [intros g ->%list_elem_of_singleton; by rewrite Hs'|]. by intros g1 g2 ->%list_elem_of_singleton ->%list_elem_of_singleton. }
    split_and!; [|done|by rewrite !mode_single|done]. split; try done. right. destruct g' as [ns sp]. simpl in *. subst sp. by exists ns, b, d'.
Qed.

(** The model's layers are those of the workers. *)
Lemma merge_layer_spec acc xs d : foldl merge_layer (Ret acc) xs = Ret d → NoDup (acc.*1) → NoDup (d.*1) ∧ acc.*1 ⊆ d.*1 ∧ xs.*1 ⊆ d.*1.
Proof.
  revert acc. induction xs as [|[n s] xs IH]; intros acc H Hnd; simpl in H; [injection H as ->; split_and!; [done|done|set_solver]|].
  destruct (od_get n acc) as [s'|] eqn:Hget.
  - destruct (bool_decide _); simpl in H; [|exfalso; clear -H; induction xs; by simpl in H]. destruct (IH acc H Hnd) as (G1 & G2 & G3). split_and!; [done|done|].
    assert (n ∈ acc.*1) by (destruct (decide (n ∈ acc.*1)) as [|Hn]; [done|]; apply od_get_None in Hn; congruence). cbn [fmap list_fmap]. set_solver.
  - apply od_get_None in Hget. destruct (IH (acc ++ [(n, s)]) H) as (G1 & G2 & G3).
    + rewrite fmap_app. apply NoDup_app. split_and!; [done|set_solver|apply NoDup_singleton].
    + rewrite fmap_app in G2. split_and!; [done|set_solver|]. cbn [fmap list_fmap]. set_solver.
Qed.

Lemma merge_layer_keeps acc xs d x : foldl merge_layer (Ret acc) xs = Ret d → x ∈ acc ∨ x ∈ xs → x ∈ d.
Proof.
  revert acc. induction xs as [|y xs IH]; intros acc H; simpl in H; [injection H as ->; intros [|[]%elem_of_nil]; done|].
  destruct (od_get y.1 acc) as [s'|] eqn:Hget.
  - destruct (bool_decide (s' = y.2)) eqn:E; simpl in H; [|exfalso; clear -H; induction xs; by simpl in H]. apply bool_decide_eq_true in E as ->.
    intros Hx. apply (IH acc H). destruct Hx as [|[->|]%elem_of_cons]; [by left| |by right]. left. clear -Hget.
    induction acc as [|[n t] acc IH]; simpl in Hget; [done|]. case_decide; [|right; by apply IH]. injection Hget as ->. destruct y; simpl in *; subst. by left.
  - intros Hx. apply (IH _ H). rewrite elem_of_app, list_elem_of_singleton. destruct Hx as [|[->|]%elem_of_cons]; tauto.
Qed.

(** ** The whole configuration *)

Lemma check_workers_ok c workers : check_workers c workers = Ret tt → ∀ gs a, (gs, a) ∈ workers → gs ≠ [] →
  0 < a ∧ ∃ m, max_memory_from_groups c gs = Ret m ∧ m ≤ a.
Proof.
  induction workers as [|[gs a] workers IH]; [by intros _ gs a ?%elem_of_nil|]. simpl. intros (u & Hu & H)%bind_Ret gs' a' [[= -> ->]|Hin]%elem_of_cons Hne; [|by apply IH].
  rewrite bool_decide_eq_false_2 in Hu by by destruct gs. unfold check_enough in Hu. destruct (Z.leb_spec a 0); [done|]. split; [done|].
  apply bind_Ret in Hu as (m & Hm & Hu). exists m. split; [done|]. destruct (Z.ltb_spec a m); [|done]. by apply bind_Ret in Hu as (? & _ & ?).
Qed.

Lemma fitted_config c c' projected mems : (if original_max_model_len c =? -1 then auto_fit_max_model_len c projected mems else Ret c) = Ret c' →
  ∃ n, c' = set_max_model_len n c ∧ n ≤ max_model_len c.
Proof.
  assert (Hself : c = set_max_model_len (max_model_len c) c) by by destruct c.
  assert (Hsame : ∃ n, c = set_max_model_len n c ∧ n ≤ max_model_len c) by (exists (max_model_len c); split; [done|lia]).
  destruct (_ =? -1); [|by intros [= <-]]. unfold auto_fit_max_model_len. destruct (forallb _ _); [by intros [= <-]|].
  destruct mems; [done|]. intros (n & _ & H)%bind_Ret. destruct (n <=? 0); [done|]. injection H as <-.
  destruct (Z.leb_spec (max_model_len c) n); [done|]. exists n. split; [done|lia].
Qed.

Lemma sizing_len n c gs : sizing c gs → sizing (set_max_model_len n c) gs.
Proof.
  intros [[H1 H2] H3 H4 H5 H6 H7]. split; try done. split; [|done]. intros g Hg. specialize (H1 g Hg).
  assert (Hl : ∀ s, layer_ok c s → layer_ok (set_max_model_len n c) s) by (by intros s []).
  destruct (kv_cache_spec g) as [s|b d]; [by apply Hl|]. destruct H1 as [? Hd]. split; [done|]. by eapply Forall_impl.
Qed.

Lemma zip3_first {A B C} (l : list A) (k : list B) (m : list C) : length k = length l → length m = length l → zip l m = (λ x, (x.1.1, x.2)) <$> zip (zip l k) m.
Proof.
  revert k m. induction l as [|x l IH]; intros [|y k] [|z m]; simpl; try done. intros [= Hk] [= Hm]. f_equal. by apply IH.
Qed.
Lemma zip3_second {A B C} (l : list A) (k : list B) (m : list C) : length k = length l → length m = length l → zip k m = (λ x, (x.1.2, x.2)) <$> zip (zip l k) m.
Proof.
  revert k m. induction l as [|x l IH]; intros [|y k] [|z m]; simpl; try done. intros [= Hk] [= Hm]. f_equal. by apply IH.
Qed.

(** What a worker with the layers [spec] and the memory [mem] gets. *)
Record serves (c : VllmConfig) (n : Z) (spec : dict string LayerSpec) (mem : Z) (k : KVCacheConfig) : Prop := {
  sv_blocks : cfg_num_blocks k = n;
  sv_layers : layers_of (kv_cache_groups k) ≡ₚ spec.*1;
  sv_tensors : concat (shared_by <$> kv_cache_tensors k) ≡ₚ spec.*1;
  sv_room x : x ∈ spec → has_room k n x;
  sv_memory : total_size (kv_cache_tensors k) ≤ mem;
  sv_request : ∃ m, max_memory_from_groups c (kv_cache_groups k) = Ret m ∧ m ≤ mem;
}.

Section workers.
Variables (c : VllmConfig) (gs : list KVCacheGroupSpec) (projected : list (list KVCacheGroupSpec)) (specs : list (dict string LayerSpec)) (mems : list Z).
Hypotheses (Hsz : sizing c gs) (Hne : gs ≠ []) (Hproj : Forall2 (λ spec gs', project_kv_cache_groups_to_worker gs spec = Ret gs') specs projected).
Hypothesis Hmems : length mems = length specs.

Lemma projected_in x : x ∈ zip (zip projected specs) mems → project_kv_cache_groups_to_worker gs x.1.2 = Ret x.1.1 ∧ (x.1.1, x.2) ∈ zip projected mems ∧ x.1.2 ∈ specs.
Proof.
  destruct x as [[g spec] m]. intros [i Hi]%list_elem_of_lookup. apply lookup_zip_Some in Hi as [Hi Hm]. apply lookup_zip_Some in Hi as [Hg Hs].
  split_and!; [by apply (Forall2_lookup_lr _ _ _ _ _ _ Hproj Hs Hg)| |by eapply list_elem_of_lookup_2].
  apply (list_elem_of_lookup_2 _ i), lookup_zip_Some. done.
Qed.

Lemma first_configs ks mode : dsa_mode c gs = Ret mode → check_workers c (zip projected mems) = Ret tt →
  mapM (worker_config c) (zip (zip projected specs) mems) = Ret ks →
  Forall2 (λ w k, in_mode c mode (if mode && dsa_shared_pool_enabled c then 1 else 0) w.1 ∧ config_sound c w.1 w.2 k) (zip projected mems) ks.
Proof.
  intros Hmode Hcheck Hks%mapM_Ret. rewrite (zip3_first projected specs mems) by (apply Forall2_length in Hproj; congruence). apply Forall2_fmap_l.
  apply (Forall2_impl_in _ _ _ _ Hks). intros [[g spec] m] k Hin Hk. destruct (projected_in _ Hin) as (Hp & Hw & _). simpl in *.
  destruct (project_sizing c spec gs g Hsz Hp) as (Hsz' & _ & Hm & Hlen). apply bind_Ret in Hk as (u & _ & Hk).
  assert (g ≠ []) as Hg by (destruct g; [by destruct gs|done]). destruct (check_workers_ok c _ Hcheck g m Hw Hg) as [Hpos _].
  pose proof (worker_sound c g m Hsz' Hg ltac:(lia)) as Hsound. rewrite Hk in Hsound. split; [|done]. split; [apply Hsz'|congruence|done].
Qed.

Variable d : dict string LayerSpec.
Hypothesis Hpages : keeps_pages d gs.

Lemma all_serve n ks : 0 ≤ n → Forall (λ spec, NoDup (spec.*1)) specs → (∀ spec, spec ∈ specs → spec.*1 ⊆ layers_of gs ∧ spec ⊆ d) →
  check_workers c (zip projected mems) = Ret tt → Forall2 (λ w k, shrunk c w.1 w.2 n k) (zip projected mems) ks →
  Forall2 (λ x k, serves c n x.1 x.2 k) (zip specs mems) ks.
Proof.
  intros Hn0 Hnd Hsub Hcheck. pose proof (Forall2_length _ _ _ Hproj) as Hlen. rewrite (zip3_first projected specs mems), (zip3_second projected specs mems) by congruence.
  intros Hsh%Forall2_fmap_l. apply Forall2_fmap_l. apply (Forall2_impl_in _ _ _ _ Hsh). intros [[g spec] m] k Hin [S1 S2 (e & He & S3) S4].
  destruct (projected_in _ Hin) as (Hp & Hw & Hs). simpl in *. destruct (project_sizing c spec gs g Hsz Hp) as (Hsz' & Hl & _ & Hlg).
  assert (g ≠ []) as Hg by (destruct g; [by destruct gs|done]). destruct (check_workers_ok c _ Hcheck g m Hw Hg) as [_ Hreq].
  assert (Hlayers : layers_of (kv_cache_groups k) ≡ₚ spec.*1).
  { rewrite S1, Hl. apply NoDup_Permutation; [apply NoDup_filter, Hsz|rewrite Forall_forall in Hnd; by apply Hnd|]. intros x. unfold on_worker.
    rewrite list_elem_of_filter, od_mem_keys. split; [tauto|]. intros Hx. split; [done|]. by apply (Hsub spec Hs). }
  assert (He0 : 0 ≤ e) by (unfold extra_slots in He; apply bind_Ret in He as (b & _ & [= <-]); case_match; lia).
  rewrite <-S1 in S3. split; [done|done|by rewrite (bk_layers _ _ _ S3)| |done|by rewrite S1].
  intros [x s] Hx. apply (backs_room c d k n e x s); [rewrite S1; apply Hsz'|rewrite S1; by apply (project_keeps_pages d spec gs)|done|done|done|by apply (Hsub spec Hs)|].
  rewrite Hlayers. by apply (list_elem_of_fmap_2 fst _ (x, s)).
Qed.
End workers.

(** C22: the workers' KV caches agree and fit. No override of the block count and no test sizing
    is in force, the groups can be sized, and the layers that may be merged agree on the value
    heads (for MLA: on heads, types and quantization), which merging does not compare. Then all
    workers get the same number of blocks; the groups of a worker hold exactly its layers, and
    each layer is in exactly one tensor, which has room for that many blocks of the layer's own
    page at the block size of its group; the tensors together fit into the memory of the worker;
    and so does, by the measure of the check, one request of the model's length, which is at most
    the configured one. *)
Theorem kv_cache_configs_sound c specs mems d gs c' ks : length mems = length specs → specs ≠ [] → Forall (λ spec, NoDup (spec.*1)) specs →
  merge_worker_specs specs = Ret d → pages_agree (d.*2) → get_kv_cache_groups c d = Ret gs → gs ≠ [] → sizing c gs →
  get_kv_cache_configs c specs mems = Ret (c', ks) →
  (∃ len, c' = set_max_model_len len c ∧ len ≤ max_model_len c) ∧
  ∃ n, 0 ≤ n ∧ Forall2 (λ x k, serves c' n x.1 x.2 k) (zip specs mems) ks.
Proof.
  intros Hmems Hspecs Hnd Hd Hag Hgs Hne Hsz H. unfold get_kv_cache_configs in H. rewrite Hd in H. cbn [mbind outcome_bind] in H. rewrite Hgs in H. cbn [mbind outcome_bind] in H.
  apply bind_Ret in H as (projected & Hproj%mapM_Ret & H). apply bind_Ret in H as (c1 & Hc1 & H). destruct (fitted_config _ _ _ _ Hc1) as (m & -> & Hm).
  apply bind_Ret in H as ([] & Hcheck & H). apply bind_Ret in H as (ks0 & Hks0 & H). apply bind_Ret in H as (ks1 & Hks1 & [= <- <-]).
  split; [by exists m|]. pose proof (sizing_len m c gs Hsz) as Hsz'. set (c1 := set_max_model_len m c) in *. destruct (mode_returns c1 gs (sz_ok _ _ Hsz')) as [mode Hmode].
  pose proof (first_configs c1 gs projected specs mems Hsz' Hne Hproj Hmems ks0 mode Hmode Hcheck Hks0) as Hfirst.
  assert (Hlen : ∀ w, w ∈ zip projected mems → length w.1 = length gs).
  { intros [g a] Hw. apply list_elem_of_lookup in Hw as [i Hi]. apply lookup_zip_Some in Hi as [Hg _]. destruct (Forall2_lookup_r _ _ _ _ _ Hproj Hg) as (spec & _ & Hp).
    by destruct (project_sizing c1 spec gs g Hsz' Hp) as (_ & _ & _ & ?). }
  destruct (reconcile_ok c1 mode _ _ ks0 ks1 (length gs) Hfirst) as (n & Hn & Hsh); [| |done|done|].
  - intros ->. apply Forall2_nil_inv_r in Hfirst. apply Forall2_length in Hproj. destruct specs, projected, mems; done.
  - by destruct gs.
  - destruct (merge_layer_spec [] (concat specs) d Hd) as (Hdd & _ & _); [constructor|]. pose proof (groups_keep_pages c d gs Hdd Hag Hgs) as Hpages.
    exists n. split; [done|]. apply (all_serve c1 gs projected specs mems Hsz' Hne Hproj Hmems d Hpages n ks1 Hn Hnd); [|done|done].
    intros spec Hs. assert (Hin : spec ⊆ d).
    { intros x Hx. apply (merge_layer_keeps [] (concat specs) d x Hd). right. apply list_elem_of_In, in_concat. exists spec. by rewrite <-!list_elem_of_In. }
    split; [|done]. destruct (groups_partition c d gs Hgs) as [Hperm _]. fold (layers_of gs) in Hperm. intros x Hx. rewrite Hperm.
    apply list_elem_of_fmap in Hx as (y & -> & Hy). by apply list_elem_of_fmap_2, Hin.
Qed.

(** The hybrid model on two pipeline stages with different memory. *)
Definition stages : list (dict string LayerSpec) := [take 4 hybrid_model; drop 4 hybrid_model].
Definition staged_groups : list KVCacheGroupSpec := match get_kv_cache_groups (sample_config 100) hybrid_model with Ret gs => gs | Raise _ => [] end.

Lemma staged_sizing : sizing (sample_config 100) staged_groups.
Proof.
  split; [split|left| | |done|done].
  - intros g Hg. vm_compute in Hg. repeat (apply elem_of_cons in Hg as [->|Hg]; [split; [by eexists|done|done]|]). by apply elem_of_nil in Hg.
  - intros g g' Hg Hg' _. vm_compute in Hg, Hg'.
    assert (Hp : ∀ x, x ∈ staged_groups → group_page x = Ret 64); [|by rewrite !Hp].
    intros x Hx. vm_compute in Hx. repeat (apply elem_of_cons in Hx as [->|Hx]; [vm_compute; reflexivity|]). by apply elem_of_nil in Hx.
  - intros g Hg. vm_compute in Hg. repeat (apply elem_of_cons in Hg as [->|Hg]; [by eexists|]). by apply elem_of_nil in Hg.
  - apply (bool_decide_eq_true_1 _). vm_compute. reflexivity.
  - intros g Hg. vm_compute in Hg. repeat (apply elem_of_cons in Hg as [->|Hg]; [apply (bool_decide_eq_true_1 _); vm_compute; reflexivity|]). by apply elem_of_nil in Hg.
Qed.

Lemma hybrid_agree : pages_agree (hybrid_model.*2).
Proof.
  assert (Hs : ∀ s, s ∈ hybrid_model.*2 → s = window_layer ∨ s = wide_layer) by (unfold hybrid_model; simpl; set_solver).
  split; [|intros s [-> | ->]%Hs; by intros a m].
  intros s t [-> | ->]%Hs [-> | ->]%Hs; (split; [intros a v w E1 E2; vm_compute in E1, E2; congruence|by intros a m b o]).
Qed.

Lemma kv_cache_configs_sound_witness : ∃ c' k1 k2, get_kv_cache_configs (sample_config 100) stages [6400; 12800] = Ret (c', [k1; k2]) ∧
  max_model_len c' = 100 ∧ cfg_num_blocks k1 = 100 ∧ serves c' 100 (take 4 hybrid_model) 6400 k1 ∧ serves c' 100 (drop 4 hybrid_model) 12800 k2.
Proof.
  assert (Hrun : ∃ c' k1 k2, get_kv_cache_configs (sample_config 100) stages [6400; 12800] = Ret (c', [k1; k2]) ∧ max_model_len c' = 100 ∧ cfg_num_blocks k1 = 100)
    by (eexists _, _, _; split; [vm_compute; reflexivity|split; vm_compute; reflexivity]).
  destruct Hrun as (c' & k1 & k2 & Hrun & Hlen & Hn). exists c', k1, k2.
  destruct (kv_cache_configs_sound (sample_config 100) stages [6400; 12800] hybrid_model staged_groups c' [k1; k2]) as (_ & n & _ & Hall).
  - done.
  - done.
  - repeat constructor; apply (bool_decide_eq_true_1 _); vm_compute; reflexivity.
  - vm_compute. reflexivity.
  - apply hybrid_agree.
  - vm_compute. reflexivity.
  - by vm_compute.
  - apply staged_sizing.
  - exact Hrun.
  - apply Forall2_cons in Hall as [H1 Hall]. apply Forall2_cons in Hall as [H2 _]. assert (n = 100) as -> by (rewrite <-Hn; symmetry; apply H1).
    by split_and!.
Defined.
