(* ===== verification/Request.v ===== *)
(** [Request] of src/vllm/v1/request.py as far as the KV cache and the queues read it: the
    status enumeration with its order, the finish reasons, the record with its token lists and
    lazily extended block hashes, and the operations that append tokens and count them. *)
From S2P Require Import Prelude.
Local Open Scope Z_scope.

(** Byte strings, one integer in [0, 256) per byte. *)
Abbreviation bytes := (list Z).

(** ** Status *)

(** [RequestStatus]; [enum.auto()] numbers the members from 1 in this order. *)
Inductive RequestStatus :=
  | WAITING
  | WAITING_FOR_FSM
  | WAITING_FOR_REMOTE_KVS
  | WAITING_FOR_STREAMING_REQ
  | RUNNING
  | PREEMPTED
  | FINISHED_STOPPED
  | FINISHED_LENGTH_CAPPED
  | FINISHED_ABORTED
  | FINISHED_IGNORED
  | FINISHED_ERROR
  | FINISHED_REPETITION.

#[global] Instance status_eq_dec : EqDecision RequestStatus.
Proof. solve_decision. Defined.

Inductive FinishReason := STOP | LENGTH | ABORT | ERROR | REPETITION.

#[global] Instance finish_reason_eq_dec : EqDecision FinishReason.
Proof. solve_decision. Defined.

Definition status_value (s : RequestStatus) : Z :=
  match s with
  | WAITING => 1
  | WAITING_FOR_FSM => 2
  | WAITING_FOR_REMOTE_KVS => 3
  | WAITING_FOR_STREAMING_REQ => 4
  | RUNNING => 5
  | PREEMPTED => 6
  | FINISHED_STOPPED => 7
  | FINISHED_LENGTH_CAPPED => 8
  | FINISHED_ABORTED => 9
  | FINISHED_IGNORED => 10
  | FINISHED_ERROR => 11
  | FINISHED_REPETITION => 12
  end.

(** [RequestStatus.is_finished]. *)
Definition is_finished (s : RequestStatus) : bool := status_value PREEMPTED <? status_value s.

(** [RequestStatus.get_finished_reason] on the map [_FINISHED_REASON_MAP]. *)
Definition get_finished_reason (s : RequestStatus) : option FinishReason :=
  match s with
  | FINISHED_STOPPED => Some STOP
  | FINISHED_LENGTH_CAPPED => Some LENGTH
  | FINISHED_ABORTED => Some ABORT
  | FINISHED_IGNORED => Some LENGTH
  | FINISHED_ERROR => Some ERROR
  | WAITING_FOR_STREAMING_REQ => Some STOP
  | FINISHED_REPETITION => Some REPETITION
  | _ => None
  end.

(** ** Requests *)

Record RepetitionDetectionParams := mkRepetition {
  max_pattern_size : Z;
  min_pattern_size : Z;
  min_count : Z
}.

(** The sampling parameters the scheduling core reads. *)
Record SamplingParams := mkSampling {
  sp_max_tokens : Z;
  min_tokens : Z;
  eos_token_id : option Z;
  stop_token_ids : option (list Z);
  repetition_detection : option RepetitionDetectionParams;
  sp_skip_reading_prefix_cache : option bool
}.

(** One multi-modal input: [identifier], [mm_position.offset], [mm_position.length]. *)
Record MMFeature := mkFeature {
  identifier : option string;
  mm_offset : Z;
  mm_length : Z
}.

Record LoRARequest := mkLora { lora_name : string; adapter_id : Z }.

(** [stop_reason: int | str | None]. *)
Inductive StopReason := StopToken (t : Z) | StopString (s : string).

(** The fields of [Request] the scheduling core reads or writes. [obj_id] is
    [id(self)]. [arrival_time] is a finite float, kept as its integer multiple of
    2^-1074. [prompt_embeds], when present, is given by the digest
    [sha256(tensor_data(prompt_embeds[a:b]))] of each of its slices, and
    [embeds_hash_cache] is [_prompt_embeds_per_block_hashes]. *)
Record Request := mkRequest {
  request_id : string;
  obj_id : Z;
  priority : Z;
  arrival_time : Z;
  status : RequestStatus;
  stop_reason : option StopReason;
  sampling_params : option SamplingParams;
  max_tokens : Z;
  num_prompt_tokens : Z;
  output_token_ids : list Z;
  all_token_ids : list Z;
  spec_token_ids : list Z;
  num_computed_tokens : Z;
  num_output_placeholders : Z;
  num_preemptions : Z;
  num_cached_tokens : Z;
  cache_salt : option string;
  lora_request : option LoRARequest;
  mm_features : list MMFeature;
  prompt_embeds : option (Z → Z → bytes);
  embeds_hash_cache : gmap (Z * Z) bytes;
  block_hashes : list bytes;
  skip_reading_prefix_cache : bool;
  resumable : bool
}.

Definition num_tokens (r : Request) : Z := Z.of_nat (length (all_token_ids r)).
Definition num_tokens_with_spec (r : Request) : Z :=
  Z.of_nat (length (all_token_ids r)) + Z.of_nat (length (spec_token_ids r)).
Definition num_output_tokens (r : Request) : Z := Z.of_nat (length (output_token_ids r)).

Definition set_status (s : RequestStatus) (r : Request) : Request :=
  mkRequest (request_id r) (obj_id r) (priority r) (arrival_time r) s (stop_reason r)
    (sampling_params r) (max_tokens r) (num_prompt_tokens r) (output_token_ids r)
    (all_token_ids r) (spec_token_ids r) (num_computed_tokens r) (num_output_placeholders r)
    (num_preemptions r) (num_cached_tokens r) (cache_salt r) (lora_request r) (mm_features r)
    (prompt_embeds r) (embeds_hash_cache r) (block_hashes r) (skip_reading_prefix_cache r)
    (resumable r).
Definition set_stop_reason (s : option StopReason) (r : Request) : Request :=
  mkRequest (request_id r) (obj_id r) (priority r) (arrival_time r) (status r) s
    (sampling_params r) (max_tokens r) (num_prompt_tokens r) (output_token_ids r)
    (all_token_ids r) (spec_token_ids r) (num_computed_tokens r) (num_output_placeholders r)
    (num_preemptions r) (num_cached_tokens r) (cache_salt r) (lora_request r) (mm_features r)
    (prompt_embeds r) (embeds_hash_cache r) (block_hashes r) (skip_reading_prefix_cache r)
    (resumable r).
Definition set_tokens (out all : list Z) (r : Request) : Request :=
  mkRequest (request_id r) (obj_id r) (priority r) (arrival_time r) (status r) (stop_reason r)
    (sampling_params r) (max_tokens r) (num_prompt_tokens r) out
    all (spec_token_ids r) (num_computed_tokens r) (num_output_placeholders r)
    (num_preemptions r) (num_cached_tokens r) (cache_salt r) (lora_request r) (mm_features r)
    (prompt_embeds r) (embeds_hash_cache r) (block_hashes r) (skip_reading_prefix_cache r)
    (resumable r).
Definition set_hashes (hs : list bytes) (r : Request) : Request :=
  mkRequest (request_id r) (obj_id r) (priority r) (arrival_time r) (status r) (stop_reason r)
    (sampling_params r) (max_tokens r) (num_prompt_tokens r) (output_token_ids r)
    (all_token_ids r) (spec_token_ids r) (num_computed_tokens r) (num_output_placeholders r)
    (num_preemptions r) (num_cached_tokens r) (cache_salt r) (lora_request r) (mm_features r)
    (prompt_embeds r) (embeds_hash_cache r) hs (skip_reading_prefix_cache r)
    (resumable r).
Definition set_embeds_cache (c : gmap (Z * Z) bytes) (r : Request) : Request :=
  mkRequest (request_id r) (obj_id r) (priority r) (arrival_time r) (status r) (stop_reason r)
    (sampling_params r) (max_tokens r) (num_prompt_tokens r) (output_token_ids r)
    (all_token_ids r) (spec_token_ids r) (num_computed_tokens r) (num_output_placeholders r)
    (num_preemptions r) (num_cached_tokens r) (cache_salt r) (lora_request r) (mm_features r)
    (prompt_embeds r) c (block_hashes r) (skip_reading_prefix_cache r)
    (resumable r).

(** [Request.__lt__]. Python compares strings by code point, as [String.ltb] does. *)
Definition request_lt (self other : Request) : bool :=
  if negb (priority self =? priority other) then priority self <? priority other
  else if negb (arrival_time self =? arrival_time other)
       then arrival_time self <? arrival_time other
  else if negb (String.eqb (request_id self) (request_id other))
       then String.ltb (request_id self) (request_id other)
  else obj_id self <? obj_id other.

(** [Request.get_skip_reading_prefix_cache]; pooling parameters are rejected by the
    constructor. *)
Definition get_skip_reading_prefix_cache (r : Request) : bool :=
  match sampling_params r with
  | Some sp => default false (sp_skip_reading_prefix_cache sp)
  | None => false
  end.

(** A text request with the given tokens and block hashes, used in examples. *)
Definition text_request (tokens : list Z) (hashes : list bytes) : Request :=
  mkRequest "req-0" 0 0 0 WAITING None None 16 (Z.of_nat (length tokens)) [] tokens [] 0 0 0 0
    None None [] None ∅ hashes false false.
