(* ===== verification/StopCheck.v ===== *)
(** src/vllm/v1/core/sched/utils.py: repetition detection over output tokens, [remove_all]
    and [check_stop], with the specification of each: what the detector decides, in which
    order the stop conditions win, and where the two paths of [remove_all] differ. *)
From S2P Require Import Prelude.
From S2P Require Import Request.
Local Open Scope Z_scope.

(** ** Repetition detection *)

(** [token_ids[i]]. *)
Definition tok (token_ids : list Z) (i : Z) : outcome Z :=
  match py_get token_ids i with Some t => Ret t | None => Raise IndexError end.

(** The inner loop of [_has_repeating_pattern] over [m]. *)
Fixpoint same_in_repeats (token_ids : list Z) (pattern_len n target_token : Z) (ms : list Z) :
    outcome bool :=
  match ms with
  | [] => Ret true
  | m :: ms' =>
      match tok token_ids (- (pattern_len * m + n)) with
      | Raise e => Raise e
      | Ret t => if negb (t =? target_token) then Ret false
                 else same_in_repeats token_ids pattern_len n target_token ms'
      end
  end.

(** The outer loop of [_has_repeating_pattern] over [n]. *)
Fixpoint repeats_loop (token_ids : list Z) (pattern_len repetition_min_count : Z) (ns : list Z) :
    outcome bool :=
  match ns with
  | [] => Ret true
  | n :: ns' =>
      match tok token_ids (- n) with
      | Raise e => Raise e
      | Ret target_token =>
          match same_in_repeats token_ids pattern_len n target_token
                  (py_range 1 repetition_min_count) with
          | Ret true => repeats_loop token_ids pattern_len repetition_min_count ns'
          | o => o
          end
      end
  end.

(** [_has_repeating_pattern]. *)
Definition has_repeating_pattern (token_ids : list Z) (pattern_len repetition_min_count : Z) :
    outcome bool :=
  repeats_loop token_ids pattern_len repetition_min_count (py_range 1 (pattern_len + 1)).

(** The loop of [check_sequence_repetition] over the pattern lengths. *)
Fixpoint pattern_loop (token_ids : list Z) (min_count : Z) (lens : list Z) : outcome bool :=
  match lens with
  | [] => Ret false
  | pattern_len :: lens' =>
      if Z.of_nat (length token_ids) <? pattern_len * min_count then Ret false
      else
        match has_repeating_pattern token_ids pattern_len min_count with
        | Ret false => pattern_loop token_ids min_count lens'
        | o => o
        end
  end.

(** [check_sequence_repetition]. *)
Definition check_sequence_repetition (token_ids : list Z) (params : RepetitionDetectionParams) :
    outcome bool :=
  let min_pattern := if min_pattern_size params <=? 0 then 1 else min_pattern_size params in
  if (max_pattern_size params <=? 0) || (min_count params <? 2)
     || (max_pattern_size params <? min_pattern)
  then Ret false
  else pattern_loop token_ids (min_count params) (py_range min_pattern (max_pattern_size params + 1)).

(** ** Removing requests from a list *)

Section remove_all.
Context {A : Type} `{EqDecision A}.

(** [lst.remove(item)] with the [ValueError] of an absent item suppressed: the first
    occurrence goes. *)
Fixpoint list_remove_first (item : A) (lst : list A) : list A :=
  match lst with
  | [] => []
  | x :: lst' => if decide (x = item) then lst' else x :: list_remove_first item lst'
  end.

(** [remove_all]; the set is given by its distinct elements. *)
Definition remove_all (lst items_to_remove : list A) : list A :=
  match items_to_remove with
  | [] => lst
  | [item] => list_remove_first item lst
  | _ => filter (λ x, x ∉ items_to_remove) lst
  end.

Lemma list_remove_first_nodup item lst :
  NoDup lst → list_remove_first item lst = filter (λ x, x ∉ [item]) lst.
Proof.
  induction lst as [|x lst IH]; [done|]. intros [Hx Hnd]%NoDup_cons. simpl.
  rewrite filter_cons. destruct (decide (x = item)) as [->|Hne].
  - rewrite decide_False by (intros H; apply H; by left). symmetry. apply filter_all.
    intros y Hy Hin. apply list_elem_of_singleton in Hin as ->. done.
  - rewrite decide_True by (by intros ?%list_elem_of_singleton). by rewrite IH.
Qed.

Lemma remove_all_filter lst items :
  NoDup lst → remove_all lst items = filter (λ x, x ∉ items) lst.
Proof.
  intros Hnd. destruct items as [|i [|j items]]; simpl.
  - symmetry. apply filter_all. intros. apply not_elem_of_nil.
  - by apply list_remove_first_nodup.
  - done.
Qed.
End remove_all.

(** ** Stop conditions *)

(** [check_stop]. [pooling_params] is absent. *)
Definition check_stop (max_model_len : Z) : M Request bool :=
  o ← gets sampling_params;
  sampling_params ← from_option_raise AssertionError o;
  r ← gets id;
  if num_output_tokens r <? min_tokens sampling_params then mret false
  else
    last_token_id ← from_option_raise IndexError (py_get (output_token_ids r) (-1));
    if bool_decide (eos_token_id sampling_params = Some last_token_id) then
      modify (set_status FINISHED_STOPPED) ;; mret true
    else if bool_decide (last_token_id ∈ default [] (stop_token_ids sampling_params)) then
      modify (set_status FINISHED_STOPPED) ;;
      modify (set_stop_reason (Some (StopToken last_token_id))) ;;
      mret true
    else if (max_model_len <=? num_tokens r) || (max_tokens r <=? num_output_tokens r) then
      modify (set_status FINISHED_LENGTH_CAPPED) ;; mret true
    else
      match repetition_detection sampling_params with
      | None => mret false
      | Some params =>
          found ← of_outcome (check_sequence_repetition (output_token_ids r) params);
          if (found : bool) then
            modify (set_status FINISHED_REPETITION) ;;
            modify (set_stop_reason (Some (StopString "repetition_detected"))) ;;
            mret true
          else mret false
      end.

(** ** What repetition detection decides *)

(** The tail of [l] is [c] copies of its last [k] tokens. *)
Definition tail_repeats (l : list Z) (k c : nat) : Prop :=
  drop (length l - k * c) l = concat (replicate c (drop (length l - k) l)).

#[global] Instance tail_repeats_dec l k c : Decision (tail_repeats l k c).
Proof. unfold tail_repeats. apply _. Defined.

Lemma length_concat_replicate {A} c (l : list A) :
  length (concat (replicate c l)) = (c * length l)%nat.
Proof. induction c as [|c IH]; simpl; [done|]. rewrite length_app, IH. done. Qed.

Lemma lookup_concat_replicate {A} c (l : list A) i :
  (i < c * length l)%nat → concat (replicate c l) !! i = l !! (i mod length l)%nat.
Proof.
  revert i. induction c as [|c IH]; intros i Hi; simpl in *; [lia|].
  destruct (decide (i < length l)%nat) as [Hlt|Hge].
  - rewrite lookup_app_l by done. by rewrite Nat.mod_small.
  - rewrite lookup_app_r by lia. rewrite IH by lia. f_equal.
    rewrite <-(Nat.Div0.mod_add (i - length l) 1 (length l)). f_equal. lia.
Qed.

(** The tail repeats when each of its tokens equals the one at the same place of the
    last copy. *)
Lemma tail_repeats_pointwise l k c :
  (0 < k)%nat → (1 ≤ c)%nat → (k * c ≤ length l)%nat →
  tail_repeats l k c ↔
  ∀ m n, (m < c)%nat → (1 ≤ n ≤ k)%nat → l !! (length l - (k * m + n))%nat = l !! (length l - n)%nat.
Proof.
  intros Hk Hc Hlen. unfold tail_repeats. set (N := length l) in *.
  assert (length (drop (N - k) l) = k) as Hld by (rewrite length_drop; fold N; nia).
  split.
  - intros Heq m n Hm Hn.
    assert (drop (N - k * c) l !! (k * c - (k * m + n))%nat =
            concat (replicate c (drop (N - k) l)) !! (k * c - (k * m + n))%nat) as Hi
      by by rewrite Heq.
    rewrite lookup_drop, lookup_concat_replicate, Hld, lookup_drop in Hi by (rewrite ?Hld; nia).
    replace (N - k * c + (k * c - (k * m + n)))%nat with (N - (k * m + n))%nat in Hi by nia.
    rewrite Hi. f_equal.
    replace (k * c - (k * m + n))%nat with ((k - n) + (c - 1 - m) * k)%nat by nia.
    rewrite Nat.Div0.mod_add, Nat.mod_small by lia. nia.
  - intros Hpt. apply list_eq_same_length with (n := (k * c)%nat).
    + rewrite length_concat_replicate, Hld. lia.
    + rewrite length_drop. fold N. lia.
    + intros i x y Hi Hx Hy. rewrite lookup_drop in Hx.
      rewrite lookup_concat_replicate, Hld, lookup_drop in Hy by (rewrite ?Hld; lia).
      pose proof (Nat.div_mod_eq i k) as Hdm. pose proof (Nat.mod_upper_bound i k).
      assert (i / k < c)%nat by (apply Nat.Div0.div_lt_upper_bound; lia).
      specialize (Hpt (c - 1 - i / k)%nat (k - i mod k)%nat).
      replace (N - (k * (c - 1 - i / k) + (k - i mod k)))%nat with (N - k * c + i)%nat in Hpt by nia.
      replace (N - (k - i mod k))%nat with (N - k + i mod k)%nat in Hpt by nia.
      rewrite Hx, Hy in Hpt. specialize (Hpt ltac:(nia) ltac:(lia)). congruence.
Qed.

Lemma tok_tail l i :
  1 ≤ i ≤ Z.of_nat (length l) →
  ∃ t, tok l (- i) = Ret t ∧ l !! (length l - Z.to_nat i)%nat = Some t.
Proof.
  intros Hi. unfold tok, py_get. rewrite decide_False, decide_True by lia.
  replace (Z.to_nat (Z.of_nat (length l) + - i)) with (length l - Z.to_nat i)%nat by lia.
  destruct (lookup_lt_is_Some_2 l (length l - Z.to_nat i)) as [t Ht]; [lia|].
  exists t. by rewrite Ht.
Qed.

(** The token [i] places from the end. *)
Definition from_end (l : list Z) (i : Z) : option Z := l !! (length l - Z.to_nat i)%nat.

Lemma same_in_repeats_spec l k n t ms :
  0 < k → 1 ≤ n → (∀ m, m ∈ ms → 1 ≤ m ∧ k * m + n ≤ Z.of_nat (length l)) →
  same_in_repeats l k n t ms =
    Ret (forallb (λ m, bool_decide (from_end l (k * m + n) = Some t)) ms).
Proof.
  intros Hk Hn. induction ms as [|m ms IH]; intros Hms; simpl; [done|].
  destruct (Hms m (list_elem_of_here _ _)) as [Hm1 Hm2].
  destruct (tok_tail l (k * m + n)) as (u & -> & Hu); [nia|].
  rewrite IH by (intros m' Hm'; apply Hms; by right). unfold from_end. rewrite Hu.
  destruct (Z.eqb_spec u t) as [->|Hne]; simpl.
  - by rewrite bool_decide_true.
  - by rewrite bool_decide_false by congruence.
Qed.

Lemma repeats_loop_spec l k c ns :
  0 < k → (∀ n, n ∈ ns → 1 ≤ n ≤ k) → k * c ≤ Z.of_nat (length l) → 1 ≤ c →
  repeats_loop l k c ns =
    Ret (forallb (λ n, forallb (λ m, bool_decide (from_end l (k * m + n) = from_end l n))
      (py_range 1 c)) ns).
Proof.
  intros Hk. induction ns as [|n ns IH]; intros Hns Hlen Hc; simpl; [done|].
  pose proof (Hns n (list_elem_of_here _ _)) as Hn.
  destruct (tok_tail l n) as (t & -> & Ht); [nia|].
  rewrite same_in_repeats_spec; [|lia|lia|].
  2:{ intros m Hm%elem_of_py_range. nia. }
  assert (from_end l n = Some t) as -> by done.
  rewrite IH by (try done; intros n' Hn'; apply Hns; by right).
  by destruct (forallb _ (py_range 1 c)).
Qed.

Lemma forallb_spec {A} (f : A → bool) l : forallb f l = true ↔ ∀ x, x ∈ l → f x = true.
Proof.
  rewrite forallb_forall. split; intros H x Hx; apply H; by apply list_elem_of_In.
Qed.

Lemma has_repeating_pattern_spec l k c :
  0 < k → 1 ≤ c → k * c ≤ Z.of_nat (length l) →
  has_repeating_pattern l k c =
    Ret (bool_decide (tail_repeats l (Z.to_nat k) (Z.to_nat c))).
Proof.
  intros Hk Hc Hlen. unfold has_repeating_pattern. rewrite repeats_loop_spec; try done.
  2:{ intros n Hn%elem_of_py_range. lia. }
  f_equal. apply eq_iff_eq_true. rewrite bool_decide_eq_true, forallb_spec.
  rewrite tail_repeats_pointwise by nia. split.
  - intros H m n Hm Hn. destruct (decide (m = 0%nat)) as [->|Hm0]; [f_equal; lia|].
    specialize (H (Z.of_nat n) (in_py_range 1 (k + 1) (Z.of_nat n) ltac:(lia))).
    rewrite forallb_spec in H.
    specialize (H (Z.of_nat m) (in_py_range 1 c (Z.of_nat m) ltac:(lia))).
    apply bool_decide_eq_true in H. unfold from_end in H. rewrite Nat2Z.id in H.
    rewrite <-H. f_equal. lia.
  - intros H n Hn%elem_of_py_range. apply forallb_spec. intros m Hm%elem_of_py_range.
    apply bool_decide_eq_true. unfold from_end.
    specialize (H (Z.to_nat m) (Z.to_nat n) ltac:(lia) ltac:(lia)). rewrite <-H. f_equal. lia.
Qed.

(** What [check_sequence_repetition] decides. *)
Definition repetition_spec (l : list Z) (ps : RepetitionDetectionParams) : Prop :=
  2 ≤ min_count ps ∧
  ∃ k, Z.max 1 (min_pattern_size ps) ≤ k ≤ max_pattern_size ps ∧
    k * min_count ps ≤ Z.of_nat (length l) ∧
    tail_repeats l (Z.to_nat k) (Z.to_nat (min_count ps)).

Lemma pattern_loop_spec l c a b :
  0 < a → 2 ≤ c →
  ∃ found, pattern_loop l c (py_range a b) = Ret found ∧
    (found = true ↔ ∃ k, a ≤ k < b ∧ k * c ≤ Z.of_nat (length l) ∧
       tail_repeats l (Z.to_nat k) (Z.to_nat c)).
Proof.
  intros Ha Hc. remember (Z.to_nat (b - a)) as d eqn:Hd. revert a Ha Hd.
  induction d as [|d IH]; intros a Ha Hd.
  { rewrite py_range_nil by lia. exists false. split; [done|]. split; [done|].
    intros (k & ? & _). lia. }
  rewrite py_range_cons by lia. simpl.
  destruct (Z.ltb_spec (Z.of_nat (length l)) (a * c)) as [Hlt|Hle].
  { exists false. split; [done|]. split; [done|]. intros (k & ? & ? & _). nia. }
  rewrite has_repeating_pattern_spec by lia. case_bool_decide as Hr.
  { exists true. split; [done|]. split; [intros _|done]. exists a. split_and!; try done; lia. }
  destruct (IH (a + 1)) as (found & -> & Hf); [lia..|]. exists found. split; [done|].
  rewrite Hf. split; intros (k & Hk & Hkl & Ht).
  - exists k. split_and!; try done; lia.
  - destruct (decide (k = a)) as [->|]; [done|]. exists k. split_and!; try done; lia.
Qed.

Lemma check_sequence_repetition_run l ps :
  ∃ found, check_sequence_repetition l ps = Ret found ∧ (found = true ↔ repetition_spec l ps).
Proof.
  unfold check_sequence_repetition, repetition_spec.
  set (mp := if min_pattern_size ps <=? 0 then 1 else min_pattern_size ps).
  assert (mp = Z.max 1 (min_pattern_size ps)) as Hmp.
  { unfold mp. destruct (Z.leb_spec (min_pattern_size ps) 0); lia. }
  rewrite <-Hmp. clearbody mp.
  destruct (Z.leb_spec (max_pattern_size ps) 0) as [?|?]; simpl.
  { exists false. split; [done|]. split; [done|]. intros (_ & k & ? & _). lia. }
  destruct (Z.ltb_spec (min_count ps) 2) as [?|?]; simpl.
  { exists false. split; [done|]. split; [done|]. intros (? & _). lia. }
  destruct (Z.ltb_spec (max_pattern_size ps) mp) as [?|?]; simpl.
  { exists false. split; [done|]. split; [done|]. intros (_ & k & ? & _). lia. }
  destruct (pattern_loop_spec l (min_count ps) mp (max_pattern_size ps + 1)) as (f & Hf & Hiff);
    [lia..|]. exists f. split; [done|]. rewrite Hiff.
  split; [intros (k & ? & ?)|intros (? & k & ? & ?)]; [split; [lia|]|]; exists k; split; try done; lia.
Qed.

(** ** What a stop check decides *)

(** The reason to stop, by precedence: an end token, a stop token, the length limits, a
    repetition. *)
Definition stop_verdict (sp : SamplingParams) (max_model_len last_token : Z) (r : Request)
    (repeats : bool) : option (RequestStatus * option StopReason) :=
  if bool_decide (eos_token_id sp = Some last_token) then Some (FINISHED_STOPPED, stop_reason r)
  else if bool_decide (last_token ∈ default [] (stop_token_ids sp))
       then Some (FINISHED_STOPPED, Some (StopToken last_token))
  else if bool_decide (max_model_len ≤ num_tokens r ∨ max_tokens r ≤ num_output_tokens r)
       then Some (FINISHED_LENGTH_CAPPED, stop_reason r)
  else if repeats then Some (FINISHED_REPETITION, Some (StopString "repetition_detected"))
  else None.

Lemma set_stop_reason_same r : set_stop_reason (stop_reason r) r = r.
Proof. by destruct r. Qed.

Lemma check_stop_run max_len r sp out t :
  sampling_params r = Some sp → output_token_ids r = out ++ [t] →
  ∃ repeats, (repeats = true ↔
      ∃ ps, repetition_detection sp = Some ps ∧ repetition_spec (output_token_ids r) ps) ∧
    check_stop max_len r =
      if bool_decide (num_output_tokens r < min_tokens sp) then (Ret false, r)
      else match stop_verdict sp max_len t r repeats with
           | Some (st, why) => (Ret true, set_stop_reason why (set_status st r))
           | None => (Ret false, r)
           end.
Proof.
  intros Hsp Hout.
  assert (∃ repeats, (repeats = true ↔
      ∃ ps, repetition_detection sp = Some ps ∧ repetition_spec (output_token_ids r) ps) ∧
    match repetition_detection sp with
    | None => repeats = false
    | Some ps => check_sequence_repetition (output_token_ids r) ps = Ret repeats
    end) as (repeats & Hrep & Hrun).
  { destruct (repetition_detection sp) as [ps|].
    - destruct (check_sequence_repetition_run (output_token_ids r) ps) as (f & ? & ?).
      exists f. naive_solver.
    - exists false. naive_solver. }
  exists repeats. split; [done|].
  assert (py_get (output_token_ids r) (-1) = Some t) as Hlast.
  { rewrite Hout. unfold py_get. rewrite length_app. change (length [t]) with 1%nat.
    rewrite decide_False, decide_True by lia.
    replace (Z.to_nat _) with (length out) by lia. by rewrite list_lookup_middle. }
  unfold check_stop, gets, modify, mbind, M_bind. rewrite Hsp. simpl.
  destruct (Z.ltb_spec (num_output_tokens r) (min_tokens sp)) as [Hlt|Hge].
  { by rewrite bool_decide_true by done. }
  rewrite bool_decide_false by lia. change (id r) with r. rewrite Hlast. simpl. unfold stop_verdict.
  destruct (bool_decide (eos_token_id sp = Some t)); [by destruct r|].
  destruct (bool_decide (t ∈ default [] (stop_token_ids sp))); [by destruct r|].
  destruct (Z.leb_spec max_len (num_tokens r)) as [?|?]; simpl.
  { rewrite bool_decide_true by lia. by destruct r. }
  destruct (Z.leb_spec (max_tokens r) (num_output_tokens r)) as [?|?]; simpl.
  { rewrite bool_decide_true by lia. by destruct r. }
  rewrite bool_decide_false by lia.
  destruct (repetition_detection sp) as [ps|]; [|by subst].
  unfold of_outcome. rewrite Hrun. by destruct repeats, r.
Qed.

(** ** Properties *)

(** repetition detection never reads out of range and answers yes exactly when, for
    some pattern length between the configured bounds, the last [min_count] patterns of
    that length fit in the output and are equal, for every setting of the parameters. *)
Theorem repetition_detection_exact l ps :
  ∃ found, check_sequence_repetition l ps = Ret found ∧ (found = true ↔ repetition_spec l ps).
Proof. apply check_sequence_repetition_run. Qed.

(** the stop check of a request that has produced a token. Below the minimum length
    it never stops; otherwise it stops for the first reason that applies, in the order
    end token, stop token, length limit, repetition, records the matching status and
    reason, and changes nothing else; a stopped request is finished and has a reason
    to report. *)
Theorem check_stop_spec max_len r sp out t :
  sampling_params r = Some sp → output_token_ids r = out ++ [t] →
  ∃ repeats, (repeats = true ↔
      ∃ ps, repetition_detection sp = Some ps ∧ repetition_spec (output_token_ids r) ps) ∧
    check_stop max_len r =
      (if bool_decide (num_output_tokens r < min_tokens sp) then (Ret false, r)
       else match stop_verdict sp max_len t r repeats with
            | Some (st, why) => (Ret true, set_stop_reason why (set_status st r))
            | None => (Ret false, r)
            end) ∧
    ∀ st why, stop_verdict sp max_len t r repeats = Some (st, why) →
      is_finished st = true ∧ is_Some (get_finished_reason st).
Proof.
  intros Hsp Hout. destruct (check_stop_run max_len r sp out t Hsp Hout) as (repeats & Hr & Hrun).
  exists repeats. split_and!; [done..|]. intros st why. unfold stop_verdict.
  destruct (bool_decide (eos_token_id sp = _)); [by intros [= <- _]|].
  destruct (bool_decide (t ∈ _)); [by intros [= <- _]|].
  destruct (bool_decide (_ ∨ _)); [by intros [= <- _]|].
  destruct repeats; by intros [= <- _].
Qed.

(** removing a set of items from a list without duplicates keeps exactly the items
    outside the set, in order, on the single-item path as on the general one. *)
Theorem remove_all_exact (lst items : list Z) :
  NoDup lst → remove_all lst items = filter (λ x, x ∉ items) lst.
Proof. apply remove_all_filter. Qed.

(** on a list with duplicates the two paths of [remove_all] differ: one item to
    remove loses only its first occurrence, although the function is documented to
    remove all items that are in the set. *)
Theorem remove_all_single_keeps_duplicate :
  remove_all [1; 2; 1] [1] = [2; 1] ∧ remove_all [1; 2; 1] [1; 9] = [2].
Proof. done. Qed.

Definition sample_sampling : SamplingParams :=
  mkSampling 16 1 (Some 0) (Some [7]) (Some (mkRepetition 3 1 2)) None.
Definition sample_output (out : list Z) : Request :=
  mkRequest "req-0" 0 0 0 RUNNING None (Some sample_sampling) 16 2 out ([1; 2] ++ out) [] 0 0 0 0
    None None [] None ∅ [] false false.

Lemma check_stop_spec_witness :
  check_stop 100 (sample_output [3; 4; 5; 4; 5]) =
    (Ret true, set_stop_reason (Some (StopString "repetition_detected"))
       (set_status FINISHED_REPETITION (sample_output [3; 4; 5; 4; 5]))).
Proof.
  destruct (check_stop_spec 100 (sample_output [3; 4; 5; 4; 5]) sample_sampling [3; 4; 5; 4] 5)
    as (repeats & Hr & Hrun & _).
  - reflexivity.
  - reflexivity.
  - rewrite Hrun. destruct repeats; [reflexivity|].
    exfalso. assert (false = true) as H; [|discriminate H]. apply Hr.
    exists (mkRepetition 3 1 2). split; [reflexivity|]. split; [simpl; lia|].
    exists 2. simpl. split; [lia|]. split; [lia|]. vm_compute. reflexivity.
Defined.

Lemma remove_all_exact_witness : remove_all [4; 2; 9] [2] = [4; 9].
Proof.
  rewrite (remove_all_exact [4; 2; 9] [2]); [reflexivity|].
  apply (bool_decide_unpack _). vm_compute. done.
Defined.
