(* ===== verification/Heapq.v ===== *)
(** The binary heap of Python's [heapq], which the priority queue of the scheduler is built
    on: sift up, sift down, [heappush], [heappop] and [heapify], with fuel bounded by the length
    of the list, and the proof that they keep the heap order and the elements. *)
From Stdlib Require Export Sorted.
From S2P Require Import Prelude.

(** * The binary heap of Python's [heapq] *)

Section heapq.
Context {A : Type} (lt : A → A → bool).

(** [heap[i]]. *)
Definition item (heap : list A) (i : nat) : outcome A :=
  match heap !! i with Some x => Ret x | None => Raise IndexError end.

(** The loop of [_siftdown]. [pos] decreases in every round, so [fuel = pos] rounds are
    enough: without fuel [pos] is 0 and the loop condition is false. *)
Fixpoint siftdown_loop (fuel : nat) (heap : list A) (startpos pos : nat) (newitem : A) :
    outcome (list A) :=
  match fuel with
  | O => mret (<[pos := newitem]> heap)
  | S fuel' =>
      if (startpos <? pos)%nat then
        let parentpos := ((pos - 1) / 2)%nat in
        parent ← item heap parentpos;
        if lt newitem parent then
          siftdown_loop fuel' (<[pos := parent]> heap) startpos parentpos newitem
        else mret (<[pos := newitem]> heap)
      else mret (<[pos := newitem]> heap)
  end.

(** [_siftdown]. *)
Definition siftdown (heap : list A) (startpos pos : nat) : outcome (list A) :=
  newitem ← item heap pos;
  siftdown_loop pos heap startpos pos newitem.

(** The child of [pos] that [_siftup] moves up: the right one when it exists and the left
    one is not smaller. *)
Definition pick_child (heap : list A) (endpos pos : nat) : outcome nat :=
  let childpos := (2 * pos + 1)%nat in
  let rightpos := (childpos + 1)%nat in
  if (rightpos <? endpos)%nat then
    l ← item heap childpos;
    r ← item heap rightpos;
    mret (if negb (lt l r) then rightpos else childpos)
  else mret childpos.

(** The loop of [_siftup]; [pos] increases below [endpos], so [fuel = endpos - pos]
    rounds are enough. *)
Fixpoint siftup_loop (fuel : nat) (heap : list A) (endpos pos : nat) :
    outcome (list A * nat) :=
  match fuel with
  | O => mret (heap, pos)
  | S fuel' =>
      if (2 * pos + 1 <? endpos)%nat then
        childpos ← pick_child heap endpos pos;
        x ← item heap childpos;
        siftup_loop fuel' (<[pos := x]> heap) endpos childpos
      else mret (heap, pos)
  end.

(** [_siftup]. *)
Definition siftup (heap : list A) (pos : nat) : outcome (list A) :=
  let endpos := length heap in
  newitem ← item heap pos;
  '(heap', pos') ← siftup_loop (endpos - pos) heap endpos pos;
  siftdown (<[pos' := newitem]> heap') pos pos'.

(** [heappush]. *)
Definition heappush (heap : list A) (x : A) : outcome (list A) :=
  siftdown (heap ++ [x]) 0 (length heap).

(** [heappop]; popping from an empty list raises [IndexError]. *)
Definition heappop (heap : list A) : outcome (A * list A) :=
  match last heap with
  | None => Raise IndexError
  | Some lastelt =>
      match removelast heap with
      | [] => mret (lastelt, [])
      | (returnitem :: _) as heap' =>
          heap'' ← siftup (<[0%nat := lastelt]> heap') 0;
          mret (returnitem, heap'')
      end
  end.

(** [heapify]: [for i in reversed(range(n // 2)): _siftup(x, i)]. *)
Fixpoint heapify_loop (k : nat) (heap : list A) : outcome (list A) :=
  match k with
  | O => mret heap
  | S i => heap' ← siftup heap i; heapify_loop i heap'
  end.
Definition heapify (heap : list A) : outcome (list A) := heapify_loop (length heap / 2) heap.

(** Popping until the heap is empty. *)
Fixpoint drain (fuel : nat) (heap : list A) : outcome (list A) :=
  match fuel with
  | O => mret []
  | S fuel' =>
      match heap with
      | [] => mret []
      | _ => '(x, heap') ← heappop heap; xs ← drain fuel' heap'; mret (x :: xs)
      end
  end.

(** ** Order *)

(** [le a b]: [b] does not come before [a]. *)
Definition le (a b : A) : Prop := lt b a = false.

Context (le_total : ∀ a b, lt a b = true → le a b) (le_trans : ∀ a b c, le a b → le b c → le a c).

(** [j] is a child of [i]. *)
Definition child (i j : nat) : Prop := j = (2 * i + 1)%nat ∨ j = (2 * i + 2)%nat.

(** The heap order holds between every position from [s] on and its children. *)
Definition heap_from (s : nat) (h : list A) : Prop :=
  ∀ i j x y, (s ≤ i)%nat → child i j → h !! i = Some x → h !! j = Some y → le x y.

(** [desc s p]: [p] is reached from [s] by going to children. *)
Inductive desc (s : nat) : nat → Prop :=
  | desc_refl : desc s s
  | desc_step i j : desc s i → child i j → desc s j.

Lemma desc_ge s p : desc s p → (s ≤ p)%nat.
Proof. induction 1 as [|i j _ IH Hc]; [done|]. destruct Hc; lia. Qed.

Lemma desc_0 p : desc 0 p.
Proof.
  induction p as [p IH] using (well_founded_induction lt_wf).
  destruct (decide (p = 0%nat)) as [->|]; [constructor|].
  apply (desc_step 0 ((p - 1) / 2)).
  - apply IH. pose proof (Nat.Div0.div_le_upper_bound (p - 1) 2 (p - 1)). lia.
  - unfold child. pose proof (Nat.div_mod_eq (p - 1) 2). pose proof (Nat.mod_upper_bound (p - 1) 2). lia.
Qed.

Lemma child_parent i j : child i j → i = ((j - 1) / 2)%nat.
Proof.
  intros [->| ->].
  - replace (2 * i + 1 - 1)%nat with (i * 2)%nat by lia. by rewrite Nat.div_mul.
  - replace (2 * i + 2 - 1)%nat with (1 + i * 2)%nat by lia. by rewrite Nat.div_add by lia.
Qed.

Lemma desc_parent s p : desc s p → p ≠ s → desc s ((p - 1) / 2) ∧ child ((p - 1) / 2) p.
Proof. inversion 1 as [|i j Hd Hc]; [done|]. intros _. by rewrite <-(child_parent _ _ Hc). Qed.

(** The heap order with a hole at [p]: it holds between positions other than [p], and
    around the hole between its parent and its children. *)
Record hole (s p : nat) (h : list A) : Prop := {
  hole_edges : ∀ i j x y, (s ≤ i)%nat → i ≠ p → j ≠ p → child i j →
    h !! i = Some x → h !! j = Some y → le x y;
  hole_across : ∀ g c x y, p ≠ s → child g p → child p c → (s ≤ g)%nat →
    h !! g = Some x → h !! c = Some y → le x y
}.

Lemma hole_insert s p h x : hole s p h → hole s p (<[p := x]> h).
Proof.
  intros [He Ha]. split.
  - intros i j a b Hs Hi Hj Hc. rewrite !list_lookup_insert_ne by done. by apply He.
  - intros g c a b Hp Hg Hc Hs. rewrite !list_lookup_insert_ne; [by apply Ha|..].
    + destruct Hc; lia.
    + destruct Hg; lia.
Qed.

(** Filling the hole. *)
Lemma hole_fill s p h x :
  (s ≤ p)%nat → hole s p h →
  (∀ g a, p ≠ s → child g p → h !! g = Some a → le a x) →
  (∀ c b, child p c → h !! c = Some b → le x b) →
  heap_from s (<[p := x]> h).
Proof.
  intros Hsp [He _] Hup Hdown i j a b Hs Hc Ha Hb.
  apply list_lookup_insert_Some in Ha as [(<- & <- & _)|[Hi Ha]];
    apply list_lookup_insert_Some in Hb as [(<- & <- & _)|[Hj Hb]].
  - destruct Hc; lia.
  - eauto.
  - apply (Hup i); [destruct Hc; lia|done|done].
  - by eapply (He i j).
Qed.

Lemma siftdown_loop_run fuel s p h new :
  desc s p → (p < length h)%nat → (p ≤ fuel)%nat → hole s p h →
  (∀ c y, child p c → h !! c = Some y → le new y) →
  ∃ h', siftdown_loop fuel h s p new = Ret h' ∧ heap_from s h' ∧ h' ≡ₚ <[p := new]> h.
Proof using le_total le_trans.
  revert p h. induction fuel as [|fuel IH]; intros p h Hd Hp Hf Hh Hdown; cbn [siftdown_loop];
    pose proof (desc_ge _ _ Hd) as Hsp.
  { eexists. split_and!; [done| |done]. apply hole_fill; try done. intros; lia. }
  destruct (Nat.ltb_spec s p) as [Hlt|Hge].
  2:{ eexists. split_and!; [done| |done]. apply hole_fill; try done. intros; lia. }
  destruct (desc_parent s p Hd) as [Hd' Hc]; [lia|].
  set (q := ((p - 1) / 2)%nat) in *. pose proof (desc_ge _ _ Hd') as Hsq.
  assert (q < p)%nat as Hqp by (destruct Hc; lia).
  unfold item. destruct (lookup_lt_is_Some_2 h q) as [par Hpar]; [lia|]. rewrite Hpar. simpl.
  destruct (lt new par) eqn:Hlt'.
  - destruct Hh as [He Ha].
    assert (∀ c y, child q c → c ≠ p → h !! c = Some y → le par y) as Hsib.
    { intros c y Hqc Hne Hy. eapply (He q c); try done; lia. }
    destruct (IH q (<[p := par]> h)) as (h' & Hrun & Hok & Hperm).
    + done.
    + rewrite length_insert. lia.
    + lia.
    + split.
      * intros i j a b Hs Hi Hj Hij Ha' Hb'.
        apply list_lookup_insert_Some in Ha' as [(<- & <- & _)|[Hip Ha']].
        { rewrite list_lookup_insert_ne in Hb' by (destruct Hij; lia). by eapply (Ha q j); eauto; lia. }
        apply list_lookup_insert_Some in Hb' as [(<- & <- & _)|[Hjp Hb']].
        { exfalso. apply Hi. unfold q. by apply child_parent. }
        by eapply (He i j); eauto.
      * intros g c a b Hqs Hg Hqc Hs Ha' Hb'.
        rewrite list_lookup_insert_ne in Ha' by (destruct Hg; lia).
        assert (le a par) by (eapply (He g q); eauto; destruct Hg; lia).
        apply list_lookup_insert_Some in Hb' as [(<- & <- & _)|[Hcp Hb']]; [done|].
        eapply le_trans; [done|]. by eapply Hsib; eauto.
    + intros c y Hqc Hy. apply list_lookup_insert_Some in Hy as [(<- & <- & _)|[Hcp Hy]];
        [by apply le_total|]. eapply le_trans; [by apply le_total|]. by eapply Hsib; eauto.
    + exists h'. split_and!; [done..|]. rewrite Hperm.
      assert (<[p := new]> h !! q = Some par) as H1 by (rewrite list_lookup_insert_ne by lia; done).
      assert (<[p := new]> h !! p = Some new) as H2 by (by apply list_lookup_insert_eq).
      rewrite <-(Permutation_insert_swap _ p q new par H2 H1) at 1.
      by rewrite list_insert_insert_eq.
  - eexists. split_and!; [done| |done]. apply hole_fill; try done.
    intros g a _ Hg Hga. assert (g = q) as -> by (by apply child_parent). by simplify_eq.
Qed.

Lemma le_refl a : le a a.
Proof using le_total. destruct (lt a a) eqn:E; [|done]. by apply le_total in E as E'. Qed.

Lemma pick_child_run h p :
  (2 * p + 1 < length h)%nat →
  ∃ q x, pick_child h (length h) p = Ret q ∧ child p q ∧ (q < length h)%nat ∧ h !! q = Some x ∧
    ∀ c y, child p c → h !! c = Some y → le x y.
Proof using le_total.
  intros Hl. destruct (lookup_lt_is_Some_2 h (2 * p + 1)) as [l Hl']; [done|].
  pose proof le_refl. unfold pick_child, item. cbv zeta.
  destruct (Nat.ltb_spec (2 * p + 1 + 1) (length h)) as [Hr|Hr].
  - destruct (lookup_lt_is_Some_2 h (2 * p + 1 + 1)) as [r Hr']; [done|]. rewrite Hl', Hr'. simpl.
    destruct (lt l r) eqn:Elr; [exists (2 * p + 1)%nat, l|exists (2 * p + 1 + 1)%nat, r];
      (split_and!; [done|unfold child; lia|lia|done|]); intros c y [->| ->] Hy;
      replace (2 * p + 2)%nat with (2 * p + 1 + 1)%nat in * by lia; simplify_eq; auto.
  - exists (2 * p + 1)%nat, l. split_and!; [done|by left|lia|done|].
    intros c y [->| ->] Hy; simplify_eq; [done|]. apply lookup_lt_Some in Hy. lia.
Qed.

Lemma siftup_loop_run fuel s p h :
  desc s p → (p < length h)%nat → (length h - p ≤ fuel)%nat → hole s p h →
  ∃ h' p', siftup_loop fuel h (length h) p = Ret (h', p') ∧ hole s p' h' ∧ desc s p' ∧
    (p' < length h)%nat ∧ length h' = length h ∧ (∀ c, child p' c → (length h ≤ c)%nat) ∧
    ∀ new, <[p' := new]> h' ≡ₚ <[p := new]> h.
Proof using le_total le_trans.
  revert p h. induction fuel as [|fuel IH]; intros p h Hd Hp Hf Hh; [lia|]. cbn [siftup_loop]. cbv zeta.
  set (n := length h) in *.
  destruct (Nat.ltb_spec (2 * p + 1) n) as [Hlt|Hge].
  2:{ exists h, p. split_and!; try done. intros c [->| ->]; lia. }
  pose proof (desc_ge _ _ Hd) as Hsp.
  destruct (pick_child_run h p Hlt) as (q & x & Hq & Hpq & Hqn & Hx & Hmin). fold n in Hq, Hqn.
  rewrite Hq. simpl. unfold item. rewrite Hx. simpl.
  assert (p < q)%nat by (destruct Hpq; lia). destruct Hh as [He Ha].
  destruct (IH q (<[p := x]> h)) as (h' & p' & Hrun & Hh' & Hd' & Hp' & Hlen & Hleaf & Hperm).
  - by eapply desc_step.
  - by rewrite length_insert.
  - rewrite length_insert. fold n. lia.
  - split.
    + intros i j a b Hs Hi Hj Hij Ha' Hb'.
      apply list_lookup_insert_Some in Ha' as [(<- & <- & _)|[Hip Ha']].
      { rewrite list_lookup_insert_ne in Hb' by (destruct Hij; lia). by eapply Hmin. }
      apply list_lookup_insert_Some in Hb' as [(<- & <- & _)|[Hjp Hb']].
      { eapply (Ha i q); eauto. destruct Hij; lia. }
      by eapply (He i j).
    + intros g c a b Hqs Hg Hqc Hs Ha' Hb'.
      assert (g = p) as -> by (rewrite (child_parent _ _ Hg); symmetry; by apply child_parent).
      rewrite list_lookup_insert_eq in Ha' by done. simplify_eq.
      rewrite list_lookup_insert_ne in Hb' by (destruct Hqc; lia).
      eapply (He q c); eauto; [lia|destruct Hqc; lia|destruct Hqc; lia].
  - rewrite length_insert in Hrun, Hp', Hlen, Hleaf. fold n in Hrun, Hp', Hlen, Hleaf.
    exists h', p'. split_and!; try done. intros new. rewrite Hperm.
    assert (<[p := new]> h !! q = Some x) as H1 by (rewrite list_lookup_insert_ne by lia; done).
    assert (<[p := new]> h !! p = Some new) as H2 by (by apply list_lookup_insert_eq).
    rewrite <-(Permutation_insert_swap _ p q new x H2 H1) at 1.
    by rewrite list_insert_insert_eq.
Qed.

Lemma siftup_run h p :
  heap_from (S p) h → (p < length h)%nat →
  ∃ h', siftup h p = Ret h' ∧ heap_from p h' ∧ h' ≡ₚ h.
Proof using le_total le_trans.
  intros Hh Hp. unfold siftup, item.
  destruct (lookup_lt_is_Some_2 h p Hp) as [new Hnew]. rewrite Hnew. simpl.
  destruct (siftup_loop_run (length h - p) p p h) as (h1 & p1 & -> & Hh1 & Hd1 & Hp1 & Hlen & Hleaf & Hperm).
  { constructor. } { done. } { done. }
  { split; [|done]. intros i j x y Hs Hi Hj. apply Hh. lia. }
  simpl. unfold siftdown, item. rewrite list_lookup_insert_eq by lia. simpl.
  destruct (siftdown_loop_run p1 p p1 (<[p1 := new]> h1) new) as (h2 & -> & Hok & Hperm2).
  - done.
  - rewrite length_insert. lia.
  - done.
  - by apply hole_insert.
  - intros c y Hc Hy. apply lookup_lt_Some in Hy. rewrite length_insert in Hy.
    specialize (Hleaf c Hc). lia.
  - exists h2. split_and!; [done..|]. rewrite Hperm2, list_insert_insert_eq, Hperm.
    by rewrite list_insert_id.
Qed.

(** ** The operations *)

(** The invariant of a heap between calls. *)
Definition heap_ok (h : list A) : Prop := heap_from 0 h.

Lemma heappush_run h x :
  heap_ok h → ∃ h', heappush h x = Ret h' ∧ heap_ok h' ∧ h' ≡ₚ x :: h.
Proof using le_total le_trans.
  intros Hh. unfold heappush, siftdown, item. rewrite list_lookup_middle by done. simpl.
  destruct (siftdown_loop_run (length h) 0 (length h) (h ++ [x]) x) as (h' & -> & Hok & Hperm).
  - apply desc_0.
  - rewrite length_app. simpl. lia.
  - done.
  - split.
    + intros i j a b _ Hi Hj Hc Ha Hb.
      apply lookup_snoc_Some in Ha as [[_ Ha]|[? _]]; [|lia].
      apply lookup_snoc_Some in Hb as [[_ Hb]|[? _]]; [|lia]. eapply (Hh i j); eauto. lia.
    + intros g c a b _ _ Hc _ _ Hb. apply lookup_lt_Some in Hb. rewrite length_app in Hb.
      simpl in Hb. destruct Hc; lia.
  - intros c y Hc Hy. apply lookup_lt_Some in Hy. rewrite length_app in Hy. simpl in Hy.
    destruct Hc; lia.
  - exists h'. split_and!; [done..|]. rewrite Hperm.
    rewrite insert_app_r_alt, Nat.sub_diag by lia. simpl. by rewrite Permutation_app_comm.
Qed.

Lemma heap_from_prefix s h h' : heap_from s (h ++ h') → heap_from s h.
Proof.
  intros Hh i j x y Hs Hc Hx Hy. eapply (Hh i j); eauto; by apply lookup_app_l_Some.
Qed.

Lemma heap_root_min h x i y :
  heap_ok h → h !! 0%nat = Some x → h !! i = Some y → le x y.
Proof using le_total le_trans.
  intros Hh Hx. pose proof (desc_0 i) as Hd. revert y.
  induction Hd as [|i j _ IH Hc]; intros y Hy; [simplify_eq; apply le_refl|].
  destruct (lookup_lt_is_Some_2 h i) as [z Hz].
  { apply lookup_lt_Some in Hy. destruct Hc; lia. }
  eapply le_trans; [by apply IH|]. eapply (Hh i j); eauto. lia.
Qed.

Lemma heappop_run h :
  heap_ok h → h ≠ [] →
  ∃ x h', heappop h = Ret (x, h') ∧ heap_ok h' ∧ h ≡ₚ x :: h' ∧ (∀ y, y ∈ h → le x y) ∧
    head h = Some x.
Proof using le_total le_trans.
  intros Hh Hne. destruct h as [|z h0 _] using rev_ind; [done|]. clear Hne.
  unfold heappop. rewrite last_snoc, removelast_last.
  destruct h0 as [|x h0].
  { exists z, []. split_and!; try done. intros y ->%list_elem_of_singleton. apply le_refl. }
  cbn iota zeta. change (<[0%nat := z]> (x :: h0)) with (z :: h0).
  destruct (siftup_run (z :: h0) 0) as (h' & -> & Hok & Hperm).
  { intros i j a b Hi Hc Ha Hb. apply (heap_from_prefix 0 (x :: h0) [z] Hh i j); [lia|done|..].
    - destruct i; [lia|done].
    - destruct j; [destruct Hc; lia|done]. }
  { simpl. lia. }
  exists x, h'. simpl. split_and!; try done.
  - rewrite Hperm. constructor. by rewrite Permutation_app_comm.
  - intros y [i Hi]%list_elem_of_lookup_1. by eapply (heap_root_min _ x i y Hh).
Qed.

Lemma heapify_loop_run k h :
  heap_from k h → (k ≤ length h)%nat →
  ∃ h', heapify_loop k h = Ret h' ∧ heap_ok h' ∧ h' ≡ₚ h.
Proof using le_total le_trans.
  revert h. induction k as [|k IH]; intros h Hh Hk; simpl; [by exists h|].
  destruct (siftup_run h k Hh) as (h1 & -> & Hok & Hperm); [lia|]. simpl.
  destruct (IH h1 Hok) as (h2 & -> & Hok2 & Hperm2); [rewrite Hperm; lia|].
  exists h2. split_and!; [done..|]. by rewrite Hperm2.
Qed.

Lemma heapify_run h : ∃ h', heapify h = Ret h' ∧ heap_ok h' ∧ h' ≡ₚ h.
Proof using le_total le_trans.
  pose proof (Nat.div_mod_eq (length h) 2). pose proof (Nat.mod_upper_bound (length h) 2).
  apply heapify_loop_run; [|lia].
  intros i j x y Hi Hc _ Hy. apply lookup_lt_Some in Hy. destruct Hc; lia.
Qed.

Lemma drain_run n h :
  heap_ok h → (length h ≤ n)%nat →
  ∃ xs, drain n h = Ret xs ∧ xs ≡ₚ h ∧ StronglySorted le xs.
Proof using le_total le_trans.
  revert h. induction n as [|n IH]; intros h Hh Hn.
  { destruct h; [|simpl in Hn; lia]. exists []. split_and!; [done..|constructor]. }
  destruct h as [|x h]; [exists []; split_and!; [done..|constructor]|].
  destruct (heappop_run (x :: h) Hh) as (y & h' & Hpop & Hok & Hperm & Hmin & _); [done|].
  cbn [drain]. rewrite Hpop. simpl.
  destruct (IH h' Hok) as (xs & -> & Hxs & Hs).
  { apply Permutation_length in Hperm. simpl in *. lia. }
  exists (y :: xs). simpl. split_and!; [done|by rewrite Hxs, <-Hperm|].
  constructor; [done|]. apply Forall_forall. intros z Hz. apply Hmin.
  rewrite Hperm, <-Hxs. by right.
Qed.
End heapq.
