(* ===== verification/RequestQueue.v ===== *)
(** src/vllm/v1/core/sched/request_queue.py: the abstract [RequestQueue] as a class, the FCFS
    deque and the priority heap as its instances, the laws a queue promises to the scheduler, and
    a client that is verified against the laws alone. *)
From Stdlib Require Import OrdersEx.
From S2P Require Import Prelude.
From S2P Require Import Request.
From S2P Require Import Heapq.
Local Open Scope Z_scope.

(** ** The interface *)

(** Requests have no [__eq__] of their own: they are compared by identity. *)
Definition same_request (r r' : Request) : Prop := obj_id r = obj_id r'.

#[global] Instance same_request_dec r r' : Decision (same_request r r').
Proof. unfold same_request. apply _. Defined.

(** [r not in set(rs)]. *)
Definition not_among (rs : list Request) (r : Request) : Prop := obj_id r ∉ (obj_id <$> rs).

#[global] Instance not_among_dec rs r : Decision (not_among rs r).
Proof. unfold not_among. apply _. Defined.

(** The abstract base class [RequestQueue]. An argument that is itself a queue or an
    iterable is given by the list its iteration yields. *)
Class RequestQueue (Q : Type) := {
  add_request : Request → M Q unit;
  pop_request : M Q Request;
  peek_request : M Q Request;
  prepend_request : Request → M Q unit;
  prepend_requests : list Request → M Q unit;
  remove_request : Request → M Q unit;
  remove_requests : list Request → M Q unit;
  queue_bool : Q → bool;
  queue_len : Q → Z;
  queue_iter : Q → outcome (list Request)
}.

(** [list.remove] and [deque.remove]: the first identical element goes. *)
Fixpoint list_remove (r : Request) (l : list Request) : outcome (list Request) :=
  match l with
  | [] => Raise ValueError
  | x :: l' => if decide (same_request x r) then Ret l'
               else l'' ← list_remove r l'; mret (x :: l'')
  end.

Definition put {St} (s : St) : M St unit := modify (λ _, s).
Definition update {St} (f : St → outcome St) : M St unit :=
  s ← gets id; s' ← of_outcome (f s); put s'.

(** ** First come, first served *)

(** [FCFSRequestQueue], a [deque]. *)
Record FCFSRequestQueue := mkFCFS { deque : list Request }.

#[global] Instance fcfs_queue : RequestQueue FCFSRequestQueue := {
  add_request r := modify (λ q, mkFCFS (deque q ++ [r]));
  pop_request :=
    q ← gets deque;
    match q with
    | [] => raise IndexError
    | r :: q' => put (mkFCFS q') ;; mret r
    end;
  peek_request :=
    q ← gets deque;
    match q with [] => raise IndexError | r :: _ => mret r end;
  prepend_request r := modify (λ q, mkFCFS (r :: deque q));
  prepend_requests rs := modify (λ q, mkFCFS (reverse rs ++ deque q));
  remove_request r := update (λ q, l ← list_remove r (deque q); mret (mkFCFS l));
  remove_requests rs := modify (λ q, mkFCFS (filter (not_among rs) (deque q)));
  queue_bool q := 0 <? Z.of_nat (length (deque q));
  queue_len q := Z.of_nat (length (deque q));
  queue_iter q := Ret (deque q)
}.

(** ** Priority order *)

(** [PriorityRequestQueue], a list kept as a heap. *)
Record PriorityRequestQueue := mkPriority { heap : list Request }.

Definition push_all (rs : list Request) : M PriorityRequestQueue unit :=
  for_each rs (λ r, update (λ q, h ← heappush request_lt (heap q) r; mret (mkPriority h))).

#[global] Instance priority_queue : RequestQueue PriorityRequestQueue := {
  add_request r := update (λ q, h ← heappush request_lt (heap q) r; mret (mkPriority h));
  pop_request :=
    q ← gets heap;
    match q with
    | [] => raise IndexError
    | _ => '(r, h) ← of_outcome (heappop request_lt q); put (mkPriority h) ;; mret r
    end;
  peek_request :=
    q ← gets heap;
    match q with [] => raise IndexError | r :: _ => mret r end;
  prepend_request r := update (λ q, h ← heappush request_lt (heap q) r; mret (mkPriority h));
  prepend_requests rs := push_all rs;
  remove_request r :=
    update (λ q, l ← list_remove r (heap q); mret (mkPriority l)) ;;
    update (λ q, h ← heapify request_lt (heap q); mret (mkPriority h));
  remove_requests rs :=
    modify (λ q, mkPriority (filter (not_among rs) (heap q))) ;;
    update (λ q, h ← heapify request_lt (heap q); mret (mkPriority h));
  queue_bool q := match heap q with [] => false | _ => true end;
  queue_len q := Z.of_nat (length (heap q));
  queue_iter q := drain request_lt (length (heap q)) (heap q)
}.

(** [create_request_queue]. *)
Inductive SchedulingPolicy := FCFS | PRIORITY.

Definition create_request_queue (policy : SchedulingPolicy) :
    FCFSRequestQueue + PriorityRequestQueue :=
  match policy with
  | PRIORITY => inr (mkPriority [])
  | FCFS => inl (mkFCFS [])
  end.

(** ** The order on requests *)

Lemma string_ltb_lt s t : String.ltb s t = true ↔ String_as_OT.lt s t.
Proof.
  unfold String.ltb, String_as_OT.lt.
  change (String_as_OT.compare s t) with (String.compare s t). by destruct (String.compare s t).
Qed.

Lemma string_lt_total s t : String.ltb s t = false → String.ltb t s = false → s = t.
Proof.
  intros H1 H2. pose proof (String_as_OT.compare_spec s t) as Hc.
  destruct Hc as [Hc|Hc|Hc]; [done|..]; apply string_ltb_lt in Hc; congruence.
Qed.

(** The key a request is ordered by. *)
Definition request_key (r : Request) : Z * Z * string * Z :=
  (priority r, arrival_time r, request_id r, obj_id r).

Lemma request_lt_spec a b :
  request_lt a b = true ↔
  priority a < priority b ∨
  (priority a = priority b ∧ (arrival_time a < arrival_time b ∨
   (arrival_time a = arrival_time b ∧ (String_as_OT.lt (request_id a) (request_id b) ∨
    (request_id a = request_id b ∧ obj_id a < obj_id b))))).
Proof.
  unfold request_lt.
  destruct (Z.eqb_spec (priority a) (priority b)) as [Hp|Hp]; simpl; [|rewrite Z.ltb_lt; naive_solver].
  destruct (Z.eqb_spec (arrival_time a) (arrival_time b)) as [Ht|Ht]; simpl;
    [|rewrite Z.ltb_lt; naive_solver lia].
  destruct (String.eqb_spec (request_id a) (request_id b)) as [Hi|Hi]; simpl.
  - rewrite Z.ltb_lt, Hi. split; [naive_solver|].
    intros [?|(_ & [?|(_ & [Hs|(_ & ?)])])]; try lia.
    by apply irreflexivity in Hs; [|apply _].
  - rewrite string_ltb_lt. naive_solver lia.
Qed.

Lemma request_lt_irrefl a : request_lt a a = false.
Proof.
  destruct (request_lt a a) eqn:E; [|done]. apply request_lt_spec in E.
  destruct E as [?|(_ & [?|(_ & [Hs|(_ & ?)])])]; try lia.
  by apply irreflexivity in Hs; [|apply _].
Qed.

Lemma request_lt_trans a b c :
  request_lt a b = true → request_lt b c = true → request_lt a c = true.
Proof.
  rewrite !request_lt_spec.
  assert (∀ x y z, String_as_OT.lt x y → String_as_OT.lt y z → String_as_OT.lt x z) as Htr
    by (intros; by etrans).
  intros [?|(Hp & [?|(Ht & [Hs|(Hi & ?)])])] [?|(Hp' & [?|(Ht' & [Hs'|(Hi' & ?)])])];
    try (left; lia); right; (split; [lia|]); try (left; lia); right; (split; [lia|]);
    first [left; by eapply Htr | left; by rewrite Hi | left; by rewrite <-Hi'
          | right; split; [congruence|lia]].
Qed.

Lemma request_lt_total a b :
  request_lt a b = false → request_lt b a = false → request_key a = request_key b.
Proof.
  intros H1 H2. unfold request_key.
  assert (¬ request_lt a b = true) as H1' by by rewrite H1.
  assert (¬ request_lt b a = true) as H2' by by rewrite H2.
  rewrite request_lt_spec in H1', H2'.
  assert (priority a = priority b) as Hp by lia.
  assert (arrival_time a = arrival_time b) as Ht by lia.
  pose proof (String_as_OT.compare_spec (request_id a) (request_id b)) as Hc.
  destruct Hc as [Hi|Hc|Hc].
  - unfold String_as_OT.eq in Hi. rewrite Hp, Ht, Hi in *.
    destruct (Z.lt_trichotomy (obj_id a) (obj_id b)) as [?|[->|?]]; [|done|]; exfalso;
      [apply H1'|apply H2']; auto 10.
  - exfalso. apply H1'. auto 10.
  - exfalso. apply H2'. auto 10.
Qed.

(** The order the heap relies on. *)
Abbreviation rle := (le request_lt).

Lemma request_le_total a b : request_lt a b = true → rle a b.
Proof.
  intros H. unfold le. destruct (request_lt b a) eqn:E; [|done].
  pose proof (request_lt_trans _ _ _ H E) as Hc. by rewrite request_lt_irrefl in Hc.
Qed.

Lemma request_lt_key a b c : request_key a = request_key b → request_lt a c = request_lt b c.
Proof. unfold request_key, request_lt. intros [= -> -> -> ->]. done. Qed.

Lemma request_le_trans a b c : rle a b → rle b c → rle a c.
Proof.
  unfold le. intros Hab Hbc. destruct (request_lt c a) eqn:E; [|done]. exfalso.
  destruct (request_lt a b) eqn:E1.
  { pose proof (request_lt_trans _ _ _ E E1). congruence. }
  pose proof (request_lt_total a b E1 Hab) as Hk.
  destruct (request_lt b c) eqn:E2.
  { rewrite <-(request_lt_key a b c Hk) in E2. pose proof (request_lt_trans _ _ _ E E2) as Hc.
    by rewrite request_lt_irrefl in Hc. }
  pose proof (request_lt_total b c E2 Hbc) as Hk'.
  rewrite (request_lt_key c a a) in E by congruence. by rewrite request_lt_irrefl in E.
Qed.

(** ** What a queue promises *)

(** [removes r l l']: [l'] is [l] without one element identical to [r]. *)
Definition removes (r : Request) (l l' : list Request) : Prop :=
  ∃ x, same_request x r ∧ l ≡ₚ x :: l'.

(** The contract of a [RequestQueue], whatever the policy: no request is lost or
    duplicated, requests leave in the order iteration shows, and only an empty queue or
    an absent request is an error, which leaves the queue as it was. *)
Class RequestQueueLaws (Q : Type) `{RequestQueue Q} := {
  queue_inv : Q → Prop;
  contents : Q → list Request;
  law_iter : ∀ q, queue_inv q → ∃ xs, queue_iter q = Ret xs ∧ xs ≡ₚ contents q;
  law_len : ∀ q, queue_len q = Z.of_nat (length (contents q));
  law_bool : ∀ q, queue_bool q = bool_decide (contents q ≠ []);
  law_add : ∀ q r, queue_inv q →
    wp (add_request r) (λ _ q', queue_inv q' ∧ contents q' ≡ₚ r :: contents q) noexc q;
  law_prepend : ∀ q r, queue_inv q →
    wp (prepend_request r) (λ _ q', queue_inv q' ∧ contents q' ≡ₚ r :: contents q) noexc q;
  law_prepends : ∀ q rs, queue_inv q →
    wp (prepend_requests rs) (λ _ q', queue_inv q' ∧ contents q' ≡ₚ rs ++ contents q) noexc q;
  law_pop : ∀ q, queue_inv q →
    wp pop_request (λ r q', queue_inv q' ∧ contents q ≡ₚ r :: contents q' ∧
        ∃ xs, queue_iter q = Ret (r :: xs) ∧ queue_iter q' = Ret xs)
      (λ e q', e = IndexError ∧ q' = q ∧ contents q = []) q;
  law_peek : ∀ q, queue_inv q →
    wp peek_request (λ r q', q' = q ∧ ∃ xs, queue_iter q = Ret (r :: xs))
      (λ e q', e = IndexError ∧ q' = q ∧ contents q = []) q;
  law_remove : ∀ q r, queue_inv q →
    wp (remove_request r) (λ _ q', queue_inv q' ∧ removes r (contents q) (contents q'))
      (λ e q', e = ValueError ∧ q' = q ∧ obj_id r ∉ (obj_id <$> contents q)) q;
  law_removes : ∀ q rs, queue_inv q →
    wp (remove_requests rs)
      (λ _ q', queue_inv q' ∧ contents q' ≡ₚ filter (not_among rs) (contents q)) noexc q
}.

Lemma wp_update {St} (f : St → outcome St) (Post : unit → St → Prop) E s :
  (∀ s', f s = Ret s' → Post tt s') → (∀ e, f s = Raise e → E e s) →
  wp (update f) Post E s.
Proof.
  intros HP HE. unfold update, wp, put, of_outcome, gets, modify, mbind, M_bind, id.
  destruct (f s) as [s'|e] eqn:Ef; auto.
Qed.

Lemma list_remove_spec r l :
  match list_remove r l with
  | Ret l' => removes r l l'
  | Raise e => e = ValueError ∧ obj_id r ∉ (obj_id <$> l)
  end.
Proof.
  induction l as [|x l IH]; simpl.
  { split; [done|]. apply not_elem_of_nil. }
  destruct (decide (same_request x r)) as [Hx|Hx]; [by exists x|].
  destruct (list_remove r l) as [l'|e]; simpl.
  - destruct IH as (y & Hy & Hperm). exists y. split; [done|]. rewrite Hperm. apply Permutation_swap.
  - destruct IH as [-> Hn]. split; [done|]. rewrite not_elem_of_cons. split; [|done].
    intros Heq. apply Hx. by unfold same_request.
Qed.

#[global] Instance fcfs_laws : RequestQueueLaws FCFSRequestQueue.
Proof.
  apply (Build_RequestQueueLaws FCFSRequestQueue _ (λ _, True) deque).
  - intros q _. by exists (deque q).
  - done.
  - intros q. simpl. destruct (deque q); [by rewrite bool_decide_false by (intros H; by apply H)|].
    rewrite bool_decide_true by done. apply Z.ltb_lt. simpl. lia.
  - intros q r _. simpl. wp_steps. split; [done|]. simpl. by rewrite Permutation_app_comm.
  - intros q r _. simpl. by wp_steps.
  - intros q rs _. simpl. wp_steps. split; [done|]. simpl. by rewrite reverse_Permutation.
  - intros [l] _. simpl. wp_steps. destruct l as [|r l]; wp_steps; [done|]. unfold put. wp_steps.
    split_and!; try done. by exists l.
  - intros [l] _. simpl. wp_steps. destruct l as [|r l]; wp_steps; [done|].
    split; [done|]. by exists l.
  - intros [l] r _. simpl. apply wp_update; simpl; pose proof (list_remove_spec r l) as Hl;
      destruct (list_remove r l) as [l'|e]; simpl; intros ? [= <-]; try done.
    destruct Hl as [-> ?]. by split_and!.
  - intros q rs _. simpl. wp_steps. done.
Defined.

Lemma heap_ok_nil : heap_ok request_lt [].
Proof. intros i j a b _ _ Ha. by rewrite lookup_nil in Ha. Qed.

(** Replacing the heap by another one that keeps the order. *)
Lemma wp_update_heap (f : list Request → outcome (list Request)) (Post : list Request → Prop) q E :
  (∃ h, f (heap q) = Ret h ∧ heap_ok request_lt h ∧ Post h) →
  wp (update (λ q, h ← f (heap q); mret (mkPriority h)))
    (λ _ q', heap_ok request_lt (heap q') ∧ Post (heap q')) E q.
Proof.
  intros (h & Hf & Hok & HP). apply wp_update; rewrite Hf; simpl; intros ? [= <-]. done.
Qed.

Lemma push_run q r :
  heap_ok request_lt (heap q) →
  wp (update (λ q, h ← heappush request_lt (heap q) r; mret (mkPriority h)))
    (λ _ q', heap_ok request_lt (heap q') ∧ heap q' ≡ₚ r :: heap q) noexc q.
Proof.
  intros Hh. apply (wp_update_heap (λ h, heappush request_lt h r) (λ h, h ≡ₚ r :: heap q)).
  by apply heappush_run; [apply request_le_total|apply request_le_trans|].
Qed.

Lemma push_all_run q rs :
  heap_ok request_lt (heap q) →
  wp (push_all rs) (λ _ q', heap_ok request_lt (heap q') ∧ heap q' ≡ₚ rs ++ heap q) noexc q.
Proof.
  intros Hh. unfold push_all.
  eapply (wp_for_each (λ dn _ q', heap_ok request_lt (heap q') ∧ heap q' ≡ₚ dn ++ heap q)); [done| |done].
  intros dn r todo q1 _ [Hok Hperm]. eapply wp_call; [by apply push_run|].
  intros [] q2 [Hok2 Hperm2]. split; [done|]. rewrite Hperm2, Hperm, <-app_assoc. simpl.
  by rewrite Permutation_middle.
Qed.

Lemma heapify_update q (l : list Request) :
  heap q = l →
  wp (update (λ q, h ← heapify request_lt (heap q); mret (mkPriority h)))
    (λ _ q', heap_ok request_lt (heap q') ∧ heap q' ≡ₚ l) noexc q.
Proof.
  intros <-. apply (wp_update_heap (heapify request_lt) (λ h, h ≡ₚ heap q)).
  by apply heapify_run; [apply request_le_total|apply request_le_trans].
Qed.

Lemma drain_pop n h x h' :
  h ≠ [] → heappop request_lt h = Ret (x, h') →
  drain request_lt (S n) h = (xs ← drain request_lt n h'; mret (x :: xs)).
Proof. intros Hne Hpop. destruct h; [done|]. cbn [drain]. by rewrite Hpop. Qed.

Lemma heappop_drain h :
  heap_ok request_lt h → h ≠ [] →
  ∃ x h' xs, heappop request_lt h = Ret (x, h') ∧ heap_ok request_lt h' ∧ h ≡ₚ x :: h' ∧
    head h = Some x ∧ drain request_lt (length h) h = Ret (x :: xs) ∧
    drain request_lt (length h') h' = Ret xs.
Proof.
  intros Hh Hne.
  destruct (heappop_run request_lt request_le_total request_le_trans h Hh Hne)
    as (x & h' & Hpop & Hok & Hperm & _ & Hhd).
  destruct (drain_run request_lt request_le_total request_le_trans (length h') h' Hok) as (xs & Hxs & _);
    [done|].
  exists x, h', xs. split_and!; try done.
  rewrite Hperm at 1. simpl length. rewrite (drain_pop _ h x h') by done. by rewrite Hxs.
Qed.

#[global] Instance priority_laws : RequestQueueLaws PriorityRequestQueue.
Proof.
  apply (Build_RequestQueueLaws PriorityRequestQueue _ (λ q, heap_ok request_lt (heap q)) heap).
  - intros q Hq. destruct (drain_run request_lt request_le_total request_le_trans
      (length (heap q)) (heap q) Hq) as (xs & ? & ? & _); [done|]. by exists xs.
  - done.
  - intros [[|r l]]; symmetry; [|by apply bool_decide_eq_true].
    apply bool_decide_eq_false. intros H. by apply H.
  - intros q r Hq. by apply push_run.
  - intros q r Hq. by apply push_run.
  - intros q rs Hq. by apply push_all_run.
  - intros [h] Hq. simpl in *. wp_steps. destruct h as [|y l]; wp_steps; [done|]. simpl.
    destruct (heappop_drain (y :: l) Hq) as (x & h' & xs & Hpop & Hok & Hperm & _ & Hd & Hd'); [done|].
    change (wp (of_outcome ?o) ?Post ?E ?s) with
      (match o with Ret a => Post a s | Raise e => E e s end). rewrite Hpop.
    unfold put. wp_steps. split; [exact Hok|split; [exact Hperm|]].
    exists xs. split; [|exact Hd']. simpl.
    assert (length l = length h') as -> by (apply Permutation_length in Hperm; simpl in Hperm; lia).
    by rewrite Hd'.
  - intros [h] Hq. simpl in *. wp_steps. destruct h as [|y l]; wp_steps; [done|].
    destruct (heappop_drain (y :: l) Hq) as (x & h' & xs & _ & _ & _ & Hhd & Hd & _); [done|].
    simplify_eq/=. split; [done|]. by exists xs.
  - intros [h] r Hq. simpl in *. apply wp_bind. apply wp_update; simpl;
      pose proof (list_remove_spec r h) as Hl; destruct (list_remove r h) as [l'|e]; simpl;
      intros ? [= <-].
    + destruct Hl as (x & Hx & Hperm).
      eapply wp_mono; [by apply (heapify_update _ l')| |done]. intros [] q2 [Hok Hp2].
      split; [done|]. exists x. split; [done|]. by rewrite Hp2.
    + destruct Hl as [-> ?]. by split_and!.
  - intros [h] rs Hq. simpl in *. wp_steps. by apply (heapify_update _ (filter (not_among rs) h)).
Defined.

(** ** A client of the interface *)

(** Popping [n] requests, as the scheduling loop does. *)
Fixpoint pop_n {Q} `{RequestQueue Q} (n : nat) : M Q (list Request) :=
  match n with
  | O => mret []
  | S n' => r ← pop_request; rs ← pop_n n'; mret (r :: rs)
  end.

(** Calls that change a queue. *)
Inductive queue_call :=
  | CallAdd (r : Request)
  | CallPrepend (r : Request)
  | CallPrepends (rs : list Request)
  | CallRemoves (rs : list Request).

Definition run_call {Q} `{RequestQueue Q} (c : queue_call) : M Q unit :=
  match c with
  | CallAdd r => add_request r
  | CallPrepend r => prepend_request r
  | CallPrepends rs => prepend_requests rs
  | CallRemoves rs => remove_requests rs
  end.

Fixpoint run_calls {Q} `{RequestQueue Q} (cs : list queue_call) : M Q unit :=
  match cs with
  | [] => mret tt
  | c :: cs' => run_call c ;; run_calls cs'
  end.

(** The requests such calls leave behind, ignoring order. *)
Definition call_effect (c : queue_call) (l : list Request) : list Request :=
  match c with
  | CallAdd r | CallPrepend r => r :: l
  | CallPrepends rs => rs ++ l
  | CallRemoves rs => filter (not_among rs) l
  end.

Lemma call_effect_perm c l l' : l ≡ₚ l' → call_effect c l ≡ₚ call_effect c l'.
Proof. intros H. destruct c; simpl; by rewrite H. Qed.

#[global] Instance fold_effect_perm cs :
  Proper ((≡ₚ) ==> (≡ₚ)) (λ l, foldl (flip call_effect) l cs).
Proof.
  induction cs as [|c cs IH]; intros l l' H; [done|]. simpl. apply IH. by apply call_effect_perm.
Qed.

Section client.
Context {Q : Type} `{HL : RequestQueueLaws Q}.

Lemma run_call_law q c :
  queue_inv q →
  wp (run_call c) (λ _ q', queue_inv q' ∧ contents q' ≡ₚ call_effect c (contents q)) noexc q.
Proof.
  intros Hq. destruct c; simpl;
    [by apply law_add|by apply law_prepend|by apply law_prepends|by apply law_removes].
Qed.

Lemma run_calls_law q cs :
  queue_inv q →
  wp (run_calls cs)
    (λ _ q', queue_inv q' ∧ contents q' ≡ₚ foldl (flip call_effect) (contents q) cs) noexc q.
Proof.
  revert q. induction cs as [|c cs IH]; intros q Hq; simpl; [by apply wp_ret|].
  apply wp_bind. eapply wp_call; [by apply run_call_law|]. intros [] q1 [Hq1 Hc1].
  eapply wp_call; [by apply IH|]. intros [] q2 [Hq2 Hc2]. split; [done|].
  rewrite Hc2. by apply fold_effect_perm.
Qed.

Lemma pop_n_law q xs n :
  queue_inv q → queue_iter q = Ret xs → (n ≤ length xs)%nat →
  wp (pop_n n) (λ rs q', rs = take n xs ∧ queue_inv q' ∧ queue_iter q' = Ret (drop n xs)) noexc q.
Proof.
  revert q xs. induction n as [|n IH]; intros q xs Hq Hi Hn; simpl; [by apply wp_ret|].
  apply wp_bind. eapply wp_mono; [by apply law_pop| |].
  - intros r q1 (Hq1 & _ & ys & Hy & Hy1). rewrite Hi in Hy. simplify_eq. simpl in Hn.
    apply wp_bind. eapply wp_call; [apply (IH q1 ys); [done..|lia]|].
    intros rs q2 (-> & ? & ?). by apply wp_ret.
  - intros e q1 (_ & _ & Hnil). destruct (law_iter q Hq) as (ys & Hy & Hp).
    rewrite Hi in Hy. simplify_eq. rewrite Hnil in Hp. apply Permutation_nil_r in Hp as ->.
    simpl in Hn. lia.
Qed.
End client.

(** ** Properties *)


(** a priority queue serves requests by priority, then arrival time, then request
    id: iteration from any state that calls can produce lists all of them in
    non-decreasing order, so the request popped next is never behind another. *)
Theorem priority_queue_sorted cs :
  ∃ q xs, run_calls (Q := PriorityRequestQueue) cs (mkPriority []) = (Ret tt, q) ∧
    queue_iter q = Ret xs ∧ xs ≡ₚ foldl (flip call_effect) [] cs ∧
    StronglySorted (λ a b, request_lt b a = false) xs.
Proof.
  destruct (wp_run _ _ _ (run_calls_law (HL := priority_laws) (mkPriority []) cs heap_ok_nil))
    as ([] & q & Hrun & Hq & Hc).
  destruct (drain_run request_lt request_le_total request_le_trans (length (heap q)) (heap q) Hq)
    as (xs & Hxs & Hp & Hs); [done|].
  exists q, xs. split_and!; [done|done|by rewrite Hp|done].
Qed.

(** a first-come-first-served queue keeps arrival order: an added request goes last,
    a prepended one first, prepending several reverses them, removing keeps the order of
    the others, and the front request is what peeking and popping return. *)
Theorem fcfs_queue_order (q : FCFSRequestQueue) r rs :
  queue_iter (add_request r q).2 = Ret (deque q ++ [r]) ∧
  queue_iter (prepend_request r q).2 = Ret (r :: deque q) ∧
  queue_iter (prepend_requests rs q).2 = Ret (reverse rs ++ deque q) ∧
  queue_iter (remove_requests rs q).2 = Ret (filter (not_among rs) (deque q)) ∧
  match deque q with
  | [] => pop_request q = (Raise IndexError, q) ∧ peek_request q = (Raise IndexError, q)
  | x :: l => pop_request q = (Ret x, mkFCFS l) ∧ peek_request q = (Ret x, q)
  end.
Proof. split_and!; try done. by destruct q as [[|x l]]. Qed.

(** the order on requests is a strict total order on the keys (priority, arrival time,
    request id, identity): irreflexive, transitive, and two requests that do not precede
    each other have the same key. *)
Theorem request_lt_strict_total a b c :
  request_lt a a = false ∧
  (request_lt a b = true → request_lt b c = true → request_lt a c = true) ∧
  (request_lt a b = false → request_lt b a = false → request_key a = request_key b).
Proof.
  split_and!; [apply request_lt_irrefl|apply request_lt_trans|apply request_lt_total].
Qed.

(** Requests that only differ in what the order reads. *)
Definition queued_request (prio id : Z) : Request :=
  mkRequest "req" id prio 0 WAITING None None 16 0 [] [] [] 0 0 0 0 None None [] None ∅ [] false false.

