(* ===== verification/DsaPool.v ===== *)
(** The layout part of src/vllm/v1/core/dsa_shared_pool.py: how a pool of bundles is divided
    into main and indexer blocks, the ids at both ends, and the errors for ids out of range. *)
From S2P Require Import Prelude.
Local Open Scope Z_scope.

(** ** Helpers *)

(** [_cdiv]. *)
Definition dsa_cdiv (a b : Z) : Z := (a + b - 1) / b.

(** [_lcm]. *)
Definition dsa_lcm (a b : Z) : Z := a * b / Z.gcd a b.

(** [dsa_block_pool_index]. *)
Definition dsa_block_pool_index (group_index : Z)
    (use_per_group_block_pools use_dsa_shared_block_pool : bool) : Z :=
  if use_per_group_block_pools || use_dsa_shared_block_pool then group_index else 0.

(** [dsa_scratch_blocks_for_topk]. *)
Definition dsa_scratch_blocks_for_topk (index_topk block_size num_rows : Z) : outcome Z :=
  if index_topk <=? 0 then Raise ValueError
  else if block_size <=? 0 then Raise ValueError
  else if num_rows <=? 0 then Raise ValueError
  else if negb (index_topk mod block_size =? 0) then Raise ValueError
  else Ret (num_rows * index_topk / block_size).

Inductive DSASharedBlockOwner := LATENT | INDEXER.

#[global] Instance owner_eq_dec : EqDecision DSASharedBlockOwner.
Proof. solve_decision. Defined.

(** ** Layout *)

Record DSASharedBlockLayout := mkLayout {
  latent_page_size_bytes : Z;
  indexer_page_size_bytes : Z;
  capacity_bundles : Z;
  k_nope_dim : Z;
  k_pe_dim : Z;
  indexer_dim : Z
}.

Section layout.
Context (l : DSASharedBlockLayout).

Definition bundle_page_size_bytes : Z :=
  dsa_lcm (latent_page_size_bytes l) (indexer_page_size_bytes l).
Definition latent_blocks_per_bundle : Z := bundle_page_size_bytes / latent_page_size_bytes l.
Definition indexer_blocks_per_bundle : Z := bundle_page_size_bytes / indexer_page_size_bytes l.
Definition latent_dim : Z :=
  indexer_dim l * latent_page_size_bytes l / indexer_page_size_bytes l.
Definition slot_count : Z := capacity_bundles l + 1.
Definition nope_pages_per_bundle : Z := latent_blocks_per_bundle * k_nope_dim l / indexer_dim l.
Definition pe_pages_per_bundle : Z := latent_blocks_per_bundle * k_pe_dim l / indexer_dim l.

Definition blocks_per_bundle (owner : DSASharedBlockOwner) : Z :=
  match owner with
  | LATENT => latent_blocks_per_bundle
  | INDEXER => indexer_blocks_per_bundle
  end.

Definition row_count (owner : DSASharedBlockOwner) : Z := slot_count * blocks_per_bundle owner.

Definition block_ids_for_bundle (owner : DSASharedBlockOwner) (bundle_id : Z) : outcome (list Z) :=
  if (bundle_id <=? 0) || (capacity_bundles l <? bundle_id) then Raise ValueError
  else
    match owner with
    | LATENT =>
        let start := bundle_id * latent_blocks_per_bundle in
        Ret ((λ i, start + i) <$> py_range 0 latent_blocks_per_bundle)
    | INDEXER =>
        let nope_start := bundle_id * nope_pages_per_bundle in
        let pe_start := slot_count * nope_pages_per_bundle + bundle_id * pe_pages_per_bundle in
        Ret (py_range nope_start (nope_start + nope_pages_per_bundle) ++
             py_range pe_start (pe_start + pe_pages_per_bundle))
    end.

Definition bundle_id_for_block (owner : DSASharedBlockOwner) (block_id : Z) : outcome Z :=
  if block_id <=? 0 then Raise ValueError
  else
    match owner with
    | LATENT => floordiv block_id latent_blocks_per_bundle
    | INDEXER =>
        let nope_slab_pages := slot_count * nope_pages_per_bundle in
        if block_id <? nope_slab_pages then floordiv block_id nope_pages_per_bundle
        else floordiv (block_id - nope_slab_pages) pe_pages_per_bundle
    end.

(** [DSASharedBlockLayout.__post_init__]. *)
Definition layout_post_init : outcome unit :=
  if (latent_page_size_bytes l <=? 0) || (indexer_page_size_bytes l <=? 0) then Raise ValueError
  else if capacity_bundles l <=? 0 then Raise ValueError
  else if negb (latent_dim =? k_nope_dim l + k_pe_dim l) then Raise ValueError
  else if indexer_dim l =? 0 then Raise ZeroDivisionError
  else if negb (nope_pages_per_bundle + pe_pages_per_bundle =? indexer_blocks_per_bundle)
       then Raise ValueError
  else Ret tt.

(** A layout that passed its checks, over dimensions that are sizes. *)
Record layout_ok : Prop := {
  lo_init : layout_post_init = Ret tt;
  lo_dim : 0 < indexer_dim l;
  lo_nope : 0 ≤ k_nope_dim l;
  lo_pe : 0 ≤ k_pe_dim l
}.

Lemma lcm_div a b : 0 < a → 0 < b → 0 < dsa_lcm a b / a.
Proof.
  intros Ha Hb. unfold dsa_lcm. pose proof (Z.gcd_nonneg a b).
  destruct (Z.gcd_divide_r a b) as [k Hk]. destruct (Z.gcd_divide_l a b) as [m Hm].
  set (d := Z.gcd a b) in *. clearbody d.
  assert (d ≠ 0) by (intros ->; lia). assert (0 < k) by nia.
  rewrite Hk, Z.mul_assoc, Z.div_mul by lia. rewrite Z.mul_comm, Z.div_mul; lia.
Qed.

Lemma lcm_comm a b : dsa_lcm a b = dsa_lcm b a.
Proof. unfold dsa_lcm. by rewrite Z.mul_comm, Z.gcd_comm. Qed.

Lemma layout_facts :
  layout_ok →
  0 < capacity_bundles l ∧ 0 < latent_blocks_per_bundle ∧ 0 < indexer_blocks_per_bundle ∧
  0 ≤ nope_pages_per_bundle ∧ 0 ≤ pe_pages_per_bundle ∧
  nope_pages_per_bundle + pe_pages_per_bundle = indexer_blocks_per_bundle.
Proof.
  intros [Hi Hd Hn Hp]. unfold layout_post_init in Hi.
  destruct (Z.leb_spec (latent_page_size_bytes l) 0); [done|].
  destruct (Z.leb_spec (indexer_page_size_bytes l) 0); [done|]. simpl in Hi.
  destruct (Z.leb_spec (capacity_bundles l) 0); [done|].
  destruct (negb (latent_dim =? _)); [done|].
  destruct (Z.eqb_spec (indexer_dim l) 0); [done|].
  destruct (Z.eqb_spec (nope_pages_per_bundle + pe_pages_per_bundle) indexer_blocks_per_bundle);
    [|done].
  assert (0 < latent_blocks_per_bundle) by (by apply lcm_div).
  assert (0 < indexer_blocks_per_bundle).
  { unfold indexer_blocks_per_bundle, bundle_page_size_bytes. rewrite lcm_comm. by apply lcm_div. }
  split_and!; try done; apply Z.div_pos; nia.
Qed.

Lemma div_in_block q n x : 0 < n → q * n ≤ x < q * n + n → x / n = q.
Proof. intros Hn Hx. symmetry. apply (Z.div_unique x n q (x - q * n)); lia. Qed.

(** The ids of a bundle, its rows, and back. *)
Lemma bundle_ids_spec owner bundle :
  layout_ok → 1 ≤ bundle ≤ capacity_bundles l →
  ∃ ids, block_ids_for_bundle owner bundle = Ret ids ∧ NoDup ids ∧
    Z.of_nat (length ids) = blocks_per_bundle owner ∧
    ∀ b, b ∈ ids → 0 < b < row_count owner ∧ bundle_id_for_block owner b = Ret bundle.
Proof.
  intros Hl Hb. destruct (layout_facts Hl) as (Hc & HL & HI & Hn & Hp & Hsum).
  unfold block_ids_for_bundle, bundle_id_for_block, row_count, slot_count, floordiv.
  destruct (Z.leb_spec bundle 0), (Z.ltb_spec (capacity_bundles l) bundle); try lia. simpl.
  destruct owner; eexists; (split; [done|]); simpl.
  - split_and!.
    + apply NoDup_fmap_2; [intros ???; lia|apply NoDup_py_range].
    + rewrite length_fmap, length_py_range. lia.
    + intros b (i & -> & Hi%elem_of_py_range)%list_elem_of_fmap.
      destruct (Z.leb_spec (bundle * latent_blocks_per_bundle + i) 0); [nia|].
      destruct (Z.eqb_spec latent_blocks_per_bundle 0); [lia|].
      split; [nia|]. f_equal. apply div_in_block; [done|lia].
  - split_and!.
    + apply NoDup_app. split_and!; try apply NoDup_py_range.
      intros x Hx%elem_of_py_range Hx'%elem_of_py_range. nia.
    + rewrite length_app, !length_py_range. lia.
    + intros b [Hx%elem_of_py_range|Hx%elem_of_py_range]%elem_of_app.
      * destruct (Z.leb_spec b 0); [nia|].
        destruct (Z.ltb_spec b ((capacity_bundles l + 1) * nope_pages_per_bundle)); [|nia].
        destruct (Z.eqb_spec nope_pages_per_bundle 0); [lia|].
        split; [nia|]. f_equal. apply div_in_block; lia.
      * destruct (Z.leb_spec b 0); [nia|].
        destruct (Z.ltb_spec b ((capacity_bundles l + 1) * nope_pages_per_bundle)); [nia|].
        destruct (Z.eqb_spec pe_pages_per_bundle 0); [lia|].
        split; [nia|]. f_equal. apply div_in_block; lia.
Qed.
End layout.

(** ** Properties *)

(** the shared-pool layout is a bijection between block ids and bundles. In a layout
    that passed its checks, every bundle of either owner has the advertised number of
    distinct block ids, all of them rows of the pool other than the padding row 0, and
    each maps back to its bundle, so no block id belongs to two bundles. *)
Theorem dsa_layout_round_trip l owner bundle bundle' :
  layout_ok l → 1 ≤ bundle ≤ capacity_bundles l → 1 ≤ bundle' ≤ capacity_bundles l →
  ∃ ids ids', block_ids_for_bundle l owner bundle = Ret ids ∧
    block_ids_for_bundle l owner bundle' = Ret ids' ∧
    NoDup ids ∧ Z.of_nat (length ids) = blocks_per_bundle l owner ∧
    (∀ b, b ∈ ids → 0 < b < row_count l owner ∧ bundle_id_for_block l owner b = Ret bundle) ∧
    (bundle ≠ bundle' → ∀ b, b ∈ ids → b ∉ ids').
Proof.
  intros Hl Hb Hb'.
  destruct (bundle_ids_spec l owner bundle Hl Hb) as (ids & Hids & Hnd & Hlen & Hall).
  destruct (bundle_ids_spec l owner bundle' Hl Hb') as (ids' & Hids' & _ & _ & Hall').
  exists ids, ids'. split_and!; try done. intros Hne b Hin Hin'.
  apply Hall in Hin as [_ Hin]. apply Hall' in Hin' as [_ Hin']. congruence.
Qed.

(** an id outside the real bundles or blocks is rejected with [ValueError]: bundle
    ids at or below 0 or above the capacity, and block ids at or below 0. *)
Theorem dsa_layout_rejects l owner bundle block :
  (bundle ≤ 0 ∨ capacity_bundles l < bundle → block_ids_for_bundle l owner bundle = Raise ValueError) ∧
  (block ≤ 0 → bundle_id_for_block l owner block = Raise ValueError).
Proof.
  unfold block_ids_for_bundle, bundle_id_for_block. split.
  - intros H. destruct (Z.leb_spec bundle 0), (Z.ltb_spec (capacity_bundles l) bundle); done || lia.
  - intros H. by destruct (Z.leb_spec block 0); [|lia].
Qed.

(** The page-size ratio of the default dimensions: 2 latent and 9 indexer blocks per
    bundle, 8 of the latter for the nope part. *)
Definition sample_layout : DSASharedBlockLayout := mkLayout 9 2 5 512 64 128.

Lemma sample_layout_ok : layout_ok sample_layout.
Proof. split; [reflexivity|done..]. Qed.

Lemma dsa_layout_round_trip_witness :
  ∃ ids ids', block_ids_for_bundle sample_layout INDEXER 2 = Ret ids ∧
    block_ids_for_bundle sample_layout INDEXER 3 = Ret ids' ∧ ∀ b, b ∈ ids → b ∉ ids'.
Proof.
  destruct (dsa_layout_round_trip sample_layout INDEXER 2 3) as (ids & ids' & H1 & H2 & _ & _ & _ & H).
  - apply sample_layout_ok.
  - simpl. lia.
  - simpl. lia.
  - exists ids, ids'. split; [exact H1|]. split; [exact H2|]. apply H. lia.
Defined.

Lemma dsa_layout_rejects_witness :
  block_ids_for_bundle sample_layout LATENT 6 = Raise ValueError ∧
  bundle_id_for_block sample_layout LATENT 0 = Raise ValueError.
Proof.
  split.
  - apply (proj1 (dsa_layout_rejects sample_layout LATENT 6 0)). simpl. lia.
  - apply (proj2 (dsa_layout_rejects sample_layout LATENT 6 0)). lia.
Defined.
