(* ===== verification/DsaAlloc.v ===== *)
(** The bundle allocator of src/vllm/v1/core/dsa_shared_pool.py: a sorted list of free
    ranges with first-fit allocation and coalescing release, its invariant and canonical form,
    and the theorems that it hands out exactly what is free and loses nothing. *)
From S2P Require Import Prelude.
From S2P Require Import DsaPool.
Local Open Scope Z_scope.

(** ** The allocator *)

Abbreviation range := (Z * Z)%type.

(** [_owners] and [_free_ranges]; the layout never changes and is an argument of the
    operations that read it. *)
Record DSASharedBundleAllocator := mkAlloc {
  owners : gmap Z DSASharedBlockOwner;
  free_ranges : list range
}.

Abbreviation AL := DSASharedBundleAllocator.

Definition set_ranges (rs : list range) : M AL unit := modify (λ a, mkAlloc (owners a) rs).
Definition set_owner (b : Z) (o : DSASharedBlockOwner) : M AL unit :=
  modify (λ a, mkAlloc (<[b := o]> (owners a)) (free_ranges a)).
Definition del_owner (b : Z) : M AL unit :=
  modify (λ a, mkAlloc (delete b (owners a)) (free_ranges a)).

(** [DSASharedBundleAllocator.__init__]. *)
Definition alloc_init (l : DSASharedBlockLayout) : AL := mkAlloc ∅ [(1, capacity_bundles l)].

Definition range_len (r : range) : Z := r.2 - r.1 + 1.

(** [free_bundle_count]. *)
Definition free_bundle_count (a : AL) : Z := foldr (λ r acc, range_len r + acc) 0 (free_ranges a).

(** [free_range_count] and [largest_free_range]. *)
Definition free_range_count (a : AL) : Z := Z.of_nat (length (free_ranges a)).
Definition largest_free_range (a : AL) : Z :=
  match free_ranges a with
  | [] => 0
  | r :: rs => foldl (λ m r, Z.max m (range_len r)) (range_len r) rs
  end.

(** [owner_bundle_counts]: how many bundles an owner holds. *)
Definition owner_bundle_count (a : AL) (o : DSASharedBlockOwner) : Z :=
  Z.of_nat (size (filter (λ kv, kv.2 = o) (owners a))).

(** [bundle_count_for_blocks]. *)
Definition bundle_count_for_blocks (l : DSASharedBlockLayout) (o : DSASharedBlockOwner)
    (num_blocks : Z) : Z := dsa_cdiv num_blocks (blocks_per_bundle l o).

(** The scan of [_take_from_best_contiguous_range]: the index and length of the shortest
    range that is long enough, the first one among equals. *)
Fixpoint best_range (num_bundles : Z) (rs : list range) (idx : nat) (best : option (nat * Z)) :
    option (nat * Z) :=
  match rs with
  | [] => best
  | r :: rs' =>
      let length := range_len r in
      let better := (num_bundles <=? length) &&
                    match best with None => true | Some (_, best_len) => length <? best_len end in
      best_range num_bundles rs' (S idx) (if better then Some (idx, length) else best)
  end.

(** [_take_from_best_contiguous_range]. *)
Definition take_from_best_contiguous_range (num_bundles : Z) : M AL (option (list Z)) :=
  rs ← gets free_ranges;
  match best_range num_bundles rs 0 None with
  | None => mret None
  | Some (best_idx, _) =>
      '(start, stop) ← from_option_raise IndexError (rs !! best_idx);
      let chosen := py_range start (start + num_bundles) in
      (if start + num_bundles <=? stop
       then set_ranges (<[best_idx := (start + num_bundles, stop)]> rs)
       else set_ranges (delete best_idx rs)) ;;
      mret (Some chosen)
  end.

(** The [while] loop of [allocate] that takes ranges from the front; [None] when [fuel]
    rounds were not enough. *)
Fixpoint take_split (fuel : nat) (num_bundles : Z) (chosen_list : list Z) : M AL (option (list Z)) :=
  match fuel with
  | O => mret None
  | S fuel' =>
      if Z.of_nat (length chosen_list) <? num_bundles then
        let need := num_bundles - Z.of_nat (length chosen_list) in
        rs ← gets free_ranges;
        match rs with
        | [] => raise IndexError
        | (start, stop) :: rs' =>
            set_ranges rs' ;;
            let take := Z.min need (stop - start + 1) in
            (if start + take <=? stop then set_ranges ((start + take, stop) :: rs') else mret tt) ;;
            take_split fuel' num_bundles (chosen_list ++ py_range start (start + take))
        end
      else mret (Some chosen_list)
  end.

(** Rounds that suffice: each takes a whole range or ends the loop. *)
Definition split_fuel (a : AL) : nat := S (S (length (free_ranges a))).

(** [allocate]. *)
Definition allocate (owner : DSASharedBlockOwner) (num_bundles : Z) : M AL (option (list Z)) :=
  if num_bundles <=? 0 then mret (Some [])
  else
    free ← gets free_bundle_count;
    if free <? num_bundles then raise ValueError
    else
      chosen ← take_from_best_contiguous_range num_bundles;
      chosen' ← (match chosen with
                 | Some c => mret (Some c)
                 | None => fuel ← gets split_fuel; take_split fuel num_bundles []
                 end);
      match chosen' with
      | None => mret None
      | Some c => for_each c (λ bundle_id, set_owner bundle_id owner) ;; mret (Some c)
      end.

(** [_free_ranges.sort()]: pairs are compared lexicographically. *)
Definition range_le (r r' : range) : bool := (r.1 <? r'.1) || ((r.1 =? r'.1) && (r.2 <=? r'.2)).

Fixpoint insert_sorted (r : range) (rs : list range) : list range :=
  match rs with
  | [] => [r]
  | r' :: rs' => if range_le r r' then r :: rs else r' :: insert_sorted r rs'
  end.

Definition sort_ranges (rs : list range) : list range := foldr insert_sorted [] rs.

(** The merging loop; [merged] is kept with its last element first. *)
Fixpoint merge_ranges (rs merged : list range) : list range :=
  match rs with
  | [] => reverse merged
  | (start, stop) :: rs' =>
      match merged with
      | (prev_start, prev_stop) :: m' =>
          if prev_stop + 1 <? start then merge_ranges rs' ((start, stop) :: merged)
          else merge_ranges rs' ((prev_start, Z.max prev_stop stop) :: m')
      | [] => merge_ranges rs' [(start, stop)]
      end
  end.

(** [_insert_free_bundle]. *)
Definition insert_free_bundle (bundle_id : Z) : M AL unit :=
  modify (λ a, mkAlloc (owners a)
    (merge_ranges (sort_ranges (free_ranges a ++ [(bundle_id, bundle_id)])) [])).

(** [free]. *)
Definition free (owner : DSASharedBlockOwner) (ids : list Z) : M AL unit :=
  (if negb (bool_decide (NoDup ids)) then raise ValueError else mret tt) ;;
  for_each ids (λ bundle_id,
    own ← gets owners;
    if bool_decide (own !! bundle_id = Some owner) then mret tt else raise ValueError) ;;
  for_each ids (λ bundle_id, del_owner bundle_id ;; insert_free_bundle bundle_id).

(** ** Ranges *)

Definition in_ranges (x : Z) (rs : list range) : Prop := ∃ r, r ∈ rs ∧ r.1 ≤ x ≤ r.2.

(** Non-empty ranges in increasing order that do not touch: the canonical form the
    allocator keeps. *)
Fixpoint ranges_sep (lo : Z) (rs : list range) : Prop :=
  match rs with
  | [] => True
  | r :: rs' => lo < r.1 ∧ r.1 ≤ r.2 ∧ ranges_sep (r.2 + 1) rs'
  end.

(** The bundles of the ranges, in order. *)
Definition expand (rs : list range) : list Z := rs ≫= λ r, py_range r.1 (r.2 + 1).

Lemma elem_of_expand x rs : x ∈ expand rs ↔ in_ranges x rs.
Proof.
  unfold expand, in_ranges. rewrite list_elem_of_bind. split.
  - intros (r & Hx%elem_of_py_range & Hr). exists r. split; [done|lia].
  - intros (r & Hr & Hx). exists r. split; [apply elem_of_py_range; lia|done].
Qed.

Lemma ranges_sep_weaken lo lo' rs : lo' ≤ lo → ranges_sep lo rs → ranges_sep lo' rs.
Proof. destruct rs as [|r rs]; simpl; [done|]. intuition lia. Qed.

Lemma ranges_sep_in lo rs r : ranges_sep lo rs → r ∈ rs → lo < r.1 ∧ r.1 ≤ r.2.
Proof.
  revert lo. induction rs as [|r' rs IH]; intros lo; [by intros _ ?%elem_of_nil|].
  intros (H1 & H2 & H3) [->|Hr]%elem_of_cons; [done|]. specialize (IH _ H3 Hr). lia.
Qed.

Lemma expand_nodup lo rs : ranges_sep lo rs → NoDup (expand rs).
Proof.
  revert lo. induction rs as [|r rs IH]; intros lo; [intros _; constructor|].
  intros (_ & _ & H3). simpl. apply NoDup_app. split_and!; [apply NoDup_py_range| |by eapply IH].
  intros x Hx%elem_of_py_range (r' & Hr' & Hx')%elem_of_expand.
  pose proof (ranges_sep_in _ _ _ H3 Hr'). lia.
Qed.

Lemma length_expand a lo : ranges_sep lo (free_ranges a) →
  Z.of_nat (length (expand (free_ranges a))) = free_bundle_count a.
Proof.
  unfold free_bundle_count. revert lo. induction (free_ranges a) as [|r rs IH]; intros lo; [done|].
  intros (_ & H2 & H3). simpl. rewrite length_app, length_py_range, Nat2Z.inj_add, (IH _ H3).
  unfold range_len. lia.
Qed.

(** The allocator's invariant: canonical free ranges that cover exactly the bundles
    nobody owns. *)
Record alloc_inv (cap : Z) (a : AL) : Prop := {
  ai_sep : ranges_sep 0 (free_ranges a);
  ai_free : ∀ x, in_ranges x (free_ranges a) ↔ 1 ≤ x ≤ cap ∧ owners a !! x = None;
  ai_owned : ∀ x o, owners a !! x = Some o → 1 ≤ x ≤ cap
}.

Lemma alloc_init_inv l : 0 < capacity_bundles l → alloc_inv (capacity_bundles l) (alloc_init l).
Proof.
  intros Hc. split; simpl.
  - lia.
  - intros x. rewrite lookup_empty. unfold in_ranges. split.
    + intros (r & ->%list_elem_of_singleton & Hx). simpl in Hx. done.
    + intros [Hx _]. eexists. split; [by apply list_elem_of_singleton|]. simpl. lia.
  - intros x o. by rewrite lookup_empty.
Qed.

(** Every bundle is free or owned. *)
Lemma alloc_conservation cap a :
  0 ≤ cap → alloc_inv cap a → free_bundle_count a + Z.of_nat (size (owners a)) = cap.
Proof.
  intros Hcap [Hsep Hfree Hown]. rewrite <-(length_expand a 0 Hsep).
  assert (expand (free_ranges a) ++ (map_to_list (owners a)).*1 ≡ₚ py_range 1 (cap + 1)) as Hp.
  { apply NoDup_Permutation.
    - apply NoDup_app. split_and!; [by eapply expand_nodup| |apply NoDup_fst_map_to_list].
      intros x Hx%elem_of_expand%Hfree ([y o] & -> & Hin)%list_elem_of_fmap.
      apply elem_of_map_to_list in Hin. destruct Hx. by simplify_eq/=.
    - apply NoDup_py_range.
    - intros x. rewrite elem_of_app, elem_of_expand, Hfree, elem_of_py_range, list_elem_of_fmap.
      split.
      + intros [[? _]|([y o] & -> & Hin)]; [lia|]. apply elem_of_map_to_list in Hin.
        apply Hown in Hin. simpl. lia.
      + intros Hx. destruct (owners a !! x) as [o|] eqn:E.
        * right. exists (x, o). split; [done|]. by apply elem_of_map_to_list.
        * left. split; [lia|done]. }
  apply Permutation_length in Hp. rewrite length_app, length_fmap, length_py_range in Hp.
  rewrite length_map_to_list in Hp. lia.
Qed.

(** ** Taking bundles *)

(** [took a c a']: the bundles [c], all free before, have left the free ranges. *)
Record took (a : AL) (c : list Z) (a' : AL) : Prop := {
  tk_owners : owners a' = owners a;
  tk_sep : ranges_sep 0 (free_ranges a');
  tk_nodup : NoDup c;
  tk_was : ∀ x, x ∈ c → in_ranges x (free_ranges a);
  tk_now : ∀ x, in_ranges x (free_ranges a') ↔ in_ranges x (free_ranges a) ∧ x ∉ c
}.

Lemma ranges_sep_app lo rs1 r rs2 :
  ranges_sep lo (rs1 ++ r :: rs2) →
  r.1 ≤ r.2 ∧ ranges_sep (r.2 + 1) rs2 ∧
  (∀ x, in_ranges x rs1 → x + 1 < r.1) ∧ (∀ x, in_ranges x rs2 → r.2 + 1 < x) ∧
  (∀ r', r.1 ≤ r'.1 → r'.1 ≤ r'.2 → r'.2 ≤ r.2 → ranges_sep lo (rs1 ++ r' :: rs2)) ∧
  ranges_sep lo (rs1 ++ rs2).
Proof.
  revert lo. induction rs1 as [|q rs1 IH]; intros lo; simpl.
  - intros (H1 & H2 & H3). split_and!; try done.
    + by intros x (? & ?%elem_of_nil & _).
    + intros x (r' & Hr' & Hx). pose proof (ranges_sep_in _ _ _ H3 Hr'). lia.
    + intros r' ? ? ?. split_and!; try lia. eapply ranges_sep_weaken; [|done]. lia.
    + eapply ranges_sep_weaken; [|done]. lia.
  - intros (H1 & H2 & H3). destruct (IH _ H3) as (G1 & G2 & G3 & G4 & G5 & G6).
    split_and!; try done.
    + intros x (r' & [->|Hr']%elem_of_cons & Hx); [|apply G3; by exists r'].
      assert (q.2 + 1 < r.1); [|lia].
      assert (r ∈ rs1 ++ r :: rs2) as Hin by in_list.
      pose proof (ranges_sep_in _ _ _ H3 Hin). lia.
    + intros r' ? ? ?. split_and!; try done. by apply G5.
Qed.

Lemma in_ranges_app x rs1 rs2 : in_ranges x (rs1 ++ rs2) ↔ in_ranges x rs1 ∨ in_ranges x rs2.
Proof. unfold in_ranges. setoid_rewrite elem_of_app. naive_solver. Qed.

Lemma in_ranges_cons x r rs : in_ranges x (r :: rs) ↔ r.1 ≤ x ≤ r.2 ∨ in_ranges x rs.
Proof. unfold in_ranges. setoid_rewrite elem_of_cons. naive_solver. Qed.

(** Cutting the first [n] bundles off one range. *)
Lemma cut_range own rs1 s e rs2 n :
  ranges_sep 0 (rs1 ++ (s, e) :: rs2) → 1 ≤ n ≤ e - s + 1 →
  took (mkAlloc own (rs1 ++ (s, e) :: rs2)) (py_range s (s + n))
    (mkAlloc own (if s + n <=? e then rs1 ++ (s + n, e) :: rs2 else rs1 ++ rs2)).
Proof.
  intros Hsep Hn. destruct (ranges_sep_app _ _ _ _ Hsep) as (G1 & G2 & G3 & G4 & G5 & G6).
  simpl in *. split; simpl; [done| |apply NoDup_py_range| |].
  - destruct (Z.leb_spec (s + n) e); [|done]. apply G5; simpl; lia.
  - intros x Hx%elem_of_py_range. apply in_ranges_app. right. apply in_ranges_cons. left. simpl. lia.
  - intros x. rewrite elem_of_py_range.
    assert (in_ranges x (if s + n <=? e then rs1 ++ (s + n, e) :: rs2 else rs1 ++ rs2) ↔
      in_ranges x rs1 ∨ (s + n ≤ x ≤ e) ∨ in_ranges x rs2) as ->.
    { destruct (Z.leb_spec (s + n) e); rewrite !in_ranges_app, ?in_ranges_cons; simpl; [tauto|].
      intuition lia. }
    rewrite in_ranges_app, in_ranges_cons. simpl. specialize (G3 x). specialize (G4 x).
    intuition lia.
Qed.

Lemma best_range_spec n rs idx best :
  match best_range n rs idx best with
  | None => best = None ∧ ∀ r, r ∈ rs → range_len r < n
  | Some (i, len) =>
      (best = Some (i, len) ∨
       ∃ k r, i = (idx + k)%nat ∧ rs !! k = Some r ∧ range_len r = len ∧ n ≤ len) ∧
      (∀ r, r ∈ rs → n ≤ range_len r → len ≤ range_len r) ∧
      (∀ i' len', best = Some (i', len') → len ≤ len')
  end.
Proof.
  revert idx best. induction rs as [|r rs IH]; intros idx best; simpl.
  { destruct best as [[i len]|]; [|split; [done|by intros ? ?%elem_of_nil]].
    split_and!; [by left|by intros ? ?%elem_of_nil|intros ?? [= -> ->]; lia]. }
  set (better := _ && _). specialize (IH (S idx) (if better then Some (idx, range_len r) else best)).
  assert (better = true ↔ n ≤ range_len r ∧ ∀ i len, best = Some (i, len) → range_len r < len) as Hb.
  { unfold better. rewrite andb_true_iff, Z.leb_le. destruct best as [[i len]|].
    - rewrite Z.ltb_lt. naive_solver.
    - naive_solver. }
  destruct (best_range n rs (S idx) _) as [[i len]|]; destruct better.
  - destruct IH as (H1 & H2 & H3). destruct Hb as [[Hb1 Hb2] _]; [done|].
    specialize (H3 _ _ eq_refl). split_and!.
    + right. destruct H1 as [[= <- <-]|(k & q & -> & Hk & ? & ?)].
      * exists 0%nat, r. split_and!; first [done|lia].
      * exists (S k), q. split_and!; first [done|lia].
    + intros q [->|Hq]%elem_of_cons Hn; [done|]. by apply H2.
    + intros i' len' Hbest. specialize (Hb2 _ _ Hbest). lia.
  - destruct IH as (H1 & H2 & H3). split_and!.
    + destruct H1 as [->|(k & q & -> & Hk & ? & ?)]; [by left|]. right.
      exists (S k), q. split_and!; first [done|lia].
    + intros q [->|Hq]%elem_of_cons Hn; [|by apply H2].
      destruct best as [[i' len']|].
      * specialize (H3 _ _ eq_refl). destruct (decide (range_len r < len')); [|lia].
        assert (false = true); [|done]. apply Hb. split; [done|]. naive_solver.
      * assert (false = true); [|done]. apply Hb. naive_solver.
    + done.
  - by destruct IH.
  - destruct IH as [-> H]. split; [done|]. intros q [->|Hq]%elem_of_cons; [|by apply H].
    destruct (decide (range_len r < n)); [done|].
    assert (false = true); [|done]. apply Hb. split; [lia|done].
Qed.

Lemma wp_take_best a n E :
  ranges_sep 0 (free_ranges a) → 1 ≤ n →
  wp (take_from_best_contiguous_range n)
    (λ res a', match res with
       | None => a' = a ∧ ∀ r, r ∈ free_ranges a → range_len r < n
       | Some c => took a c a' ∧ ∃ r, r ∈ free_ranges a ∧ c = py_range r.1 (r.1 + n) ∧
           n ≤ range_len r ∧ ∀ r', r' ∈ free_ranges a → n ≤ range_len r' → range_len r ≤ range_len r'
       end) E a.
Proof.
  intros Hsep Hn. unfold take_from_best_contiguous_range. wp_steps.
  pose proof (best_range_spec n (free_ranges a) 0 None) as Hb.
  destruct (best_range n (free_ranges a) 0 None) as [[i len]|].
  2:{ apply wp_ret. naive_solver. }
  destruct Hb as ([?|(k & [s e] & -> & Hk & Hlen & Hnl)] & Hmin & _); [done|].
  apply wp_bind. eapply wp_from_option; [done|]. simpl.
  assert (free_ranges a = take k (free_ranges a) ++ (s, e) :: drop (S k) (free_ranges a)) as Hsplit
    by (symmetry; by apply take_drop_middle).
  assert (k < length (free_ranges a))%nat as Hlt by (by eapply lookup_lt_Some).
  unfold range_len in *; simpl in *.
  pose proof (cut_range (owners a) (take k (free_ranges a)) s e (drop (S k) (free_ranges a)) n)
    as Hcut. rewrite <-Hsplit in Hcut. specialize (Hcut Hsep ltac:(lia)).
  apply wp_bind. unfold set_ranges.
  destruct a as [own rs]; simpl in *.
  destruct (s + n <=? e); wp_steps; simpl;
    (split; [|exists (s, e); split_and!; [by eapply list_elem_of_lookup_2|done|simpl; lia|]]);
    try (intros r' Hr' Hn'; simpl; specialize (Hmin r' Hr' Hn'); lia).
  - rewrite insert_take_drop by done. done.
  - rewrite delete_take_drop. done.
Qed.

Lemma took_nil a : ranges_sep 0 (free_ranges a) → took a [] a.
Proof.
  intros Hsep. split; try done; [constructor|by intros x ?%elem_of_nil|].
  intros x. rewrite elem_of_nil. tauto.
Qed.

Lemma took_trans a c1 a1 c2 a2 : took a c1 a1 → took a1 c2 a2 → took a (c1 ++ c2) a2.
Proof.
  intros [Ho1 Hs1 Hn1 Hw1 Hf1] [Ho2 Hs2 Hn2 Hw2 Hf2]. split.
  - by rewrite Ho2, Ho1.
  - done.
  - apply NoDup_app. split_and!; try done. intros x Hx1 Hx2. apply Hw2, Hf1 in Hx2. tauto.
  - intros x [Hx|Hx]%elem_of_app; [by apply Hw1|]. apply Hw2, Hf1 in Hx. tauto.
  - intros x. rewrite Hf2, Hf1, elem_of_app. tauto.
Qed.

Lemma wp_take_split fuel n acc a E :
  ranges_sep 0 (free_ranges a) →
  0 ≤ n - Z.of_nat (length acc) ≤ free_bundle_count a →
  (n = Z.of_nat (length acc) ∧ (0 < fuel)%nat) ∨ (length (free_ranges a) < fuel)%nat →
  wp (take_split fuel n acc)
    (λ res a', ∃ c, res = Some (acc ++ c) ∧ Z.of_nat (length (acc ++ c)) = n ∧ took a c a') E a.
Proof.
  revert acc a. induction fuel as [|fuel IH]; intros acc a Hsep Hneed Hfuel; [lia|]. simpl.
  destruct (Z.ltb_spec (Z.of_nat (length acc)) n) as [Hlt|Hge].
  2:{ apply wp_ret. exists []. rewrite app_nil_r. split_and!; [done|lia|by apply took_nil]. }
  wp_steps. destruct a as [own [|[s e] rs]]; simpl in *.
  { unfold free_bundle_count in Hneed. simpl in Hneed. lia. }
  destruct Hsep as (Hs0 & Hse & Hsep). simpl in Hs0, Hse, Hsep.
  set (need := n - Z.of_nat (length acc)) in *. set (k := Z.min need (e - s + 1)).
  assert (1 ≤ k ≤ e - s + 1) as Hk by (unfold k; lia).
  pose proof (cut_range own [] s e rs k (conj Hs0 (conj Hse Hsep)) Hk) as Hcut. simpl in Hcut.
  unfold free_bundle_count, range_len in Hneed; simpl in Hneed.
  assert (length (py_range s (s + k)) = Z.to_nat k) as Hlk by (rewrite length_py_range; lia).
  assert (∀ rs', (rs' = if s + k <=? e then (s + k, e) :: rs else rs) →
    wp (take_split fuel n (acc ++ py_range s (s + k)))
      (λ res a', ∃ c, res = Some (acc ++ c) ∧ Z.of_nat (length (acc ++ c)) = n ∧
         took (mkAlloc own ((s, e) :: rs)) c a') E (mkAlloc own rs')) as Hnext.
  { intros rs' Hrs'. rewrite <-Hrs' in Hcut. eapply wp_call; [apply IH|].
    - apply (tk_sep _ _ _ Hcut).
    - rewrite length_app, Hlk. unfold free_bundle_count, range_len. simpl. rewrite Hrs'.
      destruct (Z.leb_spec (s + k) e); simpl; unfold k in *; lia.
    - simpl. rewrite length_app, Hlk, Hrs'. destruct (Z.leb_spec (s + k) e); simpl in *;
        [left|right]; unfold k in *; lia.
    - intros res a' (c & -> & Hlen & Htk). exists (py_range s (s + k) ++ c).
      rewrite app_assoc. split_and!; [done..|]. by eapply took_trans. }
  unfold set_ranges. wp_steps. simpl.
  destruct (s + k <=? e); wp_steps; by apply Hnext.
Qed.

Lemma wp_set_owners a c o E :
  wp (for_each c (λ b, set_owner b o))
    (λ _ a', free_ranges a' = free_ranges a ∧
       ∀ x, owners a' !! x = if decide (x ∈ c) then Some o else owners a !! x) E a.
Proof.
  eapply (wp_for_each (λ dn _ a', free_ranges a' = free_ranges a ∧
    ∀ x, owners a' !! x = if decide (x ∈ dn) then Some o else owners a !! x)); [| |done].
  - split; [done|]. intros x. by rewrite decide_False by apply not_elem_of_nil.
  - intros dn b todo a1 _ [Hr Ho]. unfold set_owner. wp_steps. split; [done|]. intros x. simpl.
    rewrite lookup_insert, Ho. repeat case_decide; set_solver.
Qed.

(** What a successful allocation of [c] does. *)
Record allocated (a : AL) (o : DSASharedBlockOwner) (c : list Z) (a' : AL) : Prop := {
  al_nodup : NoDup c;
  al_free : ∀ x, x ∈ c → owners a !! x = None;
  al_owner : ∀ x, owners a' !! x = if decide (x ∈ c) then Some o else owners a !! x
}.

Lemma took_allocated cap a o c a1 a' :
  alloc_inv cap a → took a c a1 → free_ranges a' = free_ranges a1 →
  (∀ x, owners a' !! x = if decide (x ∈ c) then Some o else owners a1 !! x) →
  alloc_inv cap a' ∧ allocated a o c a'.
Proof.
  intros [Hsep Hfree Hown] [Ho1 Hs1 Hn1 Hw1 Hf1] Hr Ho. rewrite Ho1 in Ho. split.
  - split.
    + by rewrite Hr.
    + intros x. rewrite Hr, Hf1, Hfree, Ho. case_decide; naive_solver.
    + intros x o' Hx. rewrite Ho in Hx. case_decide as Hd; [|by eapply Hown].
      apply Hw1, Hfree in Hd. tauto.
  - split; [done| |done]. intros x Hx. apply Hw1, Hfree in Hx. tauto.
Qed.

Lemma wp_allocate cap a o n E :
  alloc_inv cap a → n ≤ free_bundle_count a →
  wp (allocate o n)
    (λ res a', ∃ c, res = Some c ∧ Z.of_nat (length c) = Z.max 0 n ∧ alloc_inv cap a' ∧
       allocated a o c a' ∧
       ((∃ r, r ∈ free_ranges a ∧ 1 ≤ n ≤ range_len r) →
        ∃ r, r ∈ free_ranges a ∧ c = py_range r.1 (r.1 + n) ∧
          ∀ r', r' ∈ free_ranges a → n ≤ range_len r' → range_len r ≤ range_len r')) E a.
Proof.
  intros Ha Hn. pose proof (ai_sep _ _ Ha) as Hsep. unfold allocate.
  destruct (Z.leb_spec n 0) as [Hn0|Hn0].
  { apply wp_ret. exists []. split_and!; [done|simpl; lia|done| |intros (r & _ & ?); lia].
    split; [constructor|by intros x ?%elem_of_nil|].
    intros x. by rewrite decide_False by apply not_elem_of_nil. }
  wp_steps. destruct (Z.ltb_spec (free_bundle_count a) n) as [?|_]; [lia|].
  apply wp_bind. eapply wp_call; [apply wp_take_best; [done|lia]|].
  intros [c|] a1 Hres; wp_steps.
  - destruct Hres as (Htk & r & Hr & Hc & Hnr & Hmin). eapply wp_call; [apply wp_set_owners|].
    intros [] a2 [Hr2 Ho2]. wp_steps. destruct (took_allocated cap a o c a1 a2 Ha Htk Hr2 Ho2).
    exists c. split_and!; [done|rewrite Hc, length_py_range; lia|done|done|]. intros _. by exists r.
  - destruct Hres as [-> Hsmall].
    eapply wp_call; [apply (wp_take_split (split_fuel a) n [] a); [done|simpl; lia|right; unfold split_fuel; lia]|].
    intros res a1 (c & -> & Hlen & Htk). simpl in *. wp_steps.
    eapply wp_call; [apply wp_set_owners|]. intros [] a2 [Hr2 Ho2]. wp_steps.
    destruct (took_allocated cap a o c a1 a2 Ha Htk Hr2 Ho2).
    exists c. split_and!; [done|lia|done|done|]. intros (r & Hr & Hnr). specialize (Hsmall r Hr). lia.
Qed.

Lemma allocate_full a o n :
  0 < n → free_bundle_count a < n → allocate o n a = (Raise ValueError, a).
Proof.
  intros Hn Hf. unfold allocate, gets, mbind, M_bind.
  destruct (Z.leb_spec n 0); [lia|]. by destruct (Z.ltb_spec (free_bundle_count a) n); [|lia].
Qed.

(** ** Giving bundles back *)

Definition start_le (r r' : range) : Prop := r.1 ≤ r'.1.

Lemma insert_sorted_perm r rs : insert_sorted r rs ≡ₚ r :: rs.
Proof.
  induction rs as [|r' rs IH]; simpl; [done|]. destruct (range_le r r'); [done|].
  rewrite IH. apply Permutation_swap.
Qed.

Lemma sort_ranges_perm rs : sort_ranges rs ≡ₚ rs.
Proof. induction rs as [|r rs IH]; simpl; [done|]. by rewrite insert_sorted_perm, IH. Qed.

Lemma range_le_start r r' : if range_le r r' then start_le r r' else start_le r' r.
Proof.
  unfold range_le, start_le. destruct (Z.ltb_spec r.1 r'.1); simpl; [lia|].
  destruct (Z.eqb_spec r.1 r'.1); simpl; [destruct (r.2 <=? r'.2)|]; lia.
Qed.

Fixpoint sorted_starts (lo : Z) (rs : list range) : Prop :=
  match rs with [] => True | r :: rs' => lo ≤ r.1 ∧ sorted_starts r.1 rs' end.

Lemma insert_sorted_starts lo r rs :
  lo ≤ r.1 → sorted_starts lo rs → sorted_starts lo (insert_sorted r rs).
Proof.
  revert lo. induction rs as [|r' rs IH]; intros lo Hr; simpl; [done|].
  intros [H1 H2]. pose proof (range_le_start r r') as Hle.
  destruct (range_le r r'); unfold start_le in Hle; simpl; split_and!; try done. by apply IH.
Qed.

Lemma sort_ranges_starts lo rs : (∀ r, r ∈ rs → lo ≤ r.1) → sorted_starts lo (sort_ranges rs).
Proof.
  induction rs as [|r rs IH]; intros H; simpl; [done|].
  apply insert_sorted_starts; [apply H; by left|]. apply IH. intros. apply H. by right.
Qed.

(** [ranges_sep] of a list kept with its last element first. *)
Fixpoint rev_sep (lo : Z) (m : list range) : Prop :=
  match m with
  | [] => True
  | r :: m' => lo < r.1 ∧ r.1 ≤ r.2 ∧
               match m' with [] => True | r' :: _ => r'.2 + 1 < r.1 end ∧ rev_sep lo m'
  end.

Lemma rev_sep_reverse lo m suf :
  rev_sep lo m → ranges_sep (match m with [] => lo | r :: _ => r.2 + 1 end) suf →
  ranges_sep lo (reverse m ++ suf).
Proof.
  revert suf. induction m as [|r m IH]; intros suf; [by rewrite reverse_nil|].
  intros (H1 & H2 & H3 & H4) Hsuf. rewrite reverse_cons, <-app_assoc. simpl. apply IH; [done|].
  destruct m as [|r' m]; simpl; split_and!; done.
Qed.

Lemma merge_ranges_spec rs m :
  sorted_starts (match m with [] => 1 | r :: _ => r.1 end) rs →
  (∀ r, r ∈ rs → r.1 ≤ r.2) → rev_sep 0 m →
  ranges_sep 0 (merge_ranges rs m) ∧
  ∀ x, in_ranges x (merge_ranges rs m) ↔ in_ranges x rs ∨ in_ranges x m.
Proof.
  revert m. induction rs as [|[s e] rs IH]; intros m Hs Hne Hm; simpl.
  { rewrite <-(app_nil_r (reverse m)). split; [by apply rev_sep_reverse|].
    intros x. rewrite app_nil_r. unfold in_ranges. setoid_rewrite elem_of_reverse.
    setoid_rewrite elem_of_nil. naive_solver. }
  pose proof (Hne (s, e) (list_elem_of_here _ _)) as Hse. simpl in Hse.
  assert (∀ r, r ∈ rs → r.1 ≤ r.2) as Hne' by (intros; apply Hne; by right).
  destruct m as [|[ps pe] m]; simpl in *.
  - destruct Hs as [Hs1 Hs2]. destruct (IH [(s, e)]) as [G1 G2]; [done|done|simpl; lia|].
    split; [done|]. intros x. rewrite G2, !in_ranges_cons. simpl. tauto.
  - destruct Hs as [Hs1 Hs2]. destruct Hm as (Hm1 & Hm2 & Hm3 & Hm4).
    destruct (Z.ltb_spec (pe + 1) s).
    + destruct (IH ((s, e) :: (ps, pe) :: m)) as [G1 G2].
      { done. } { done. } { simpl. split_and!; try done; lia. }
      split; [done|]. intros x. rewrite G2, !in_ranges_cons. simpl. tauto.
    + destruct (IH ((ps, Z.max pe e) :: m)) as [G1 G2].
      { simpl. destruct rs as [|r rs]; simpl in *; [done|]. split; [lia|tauto]. }
      { done. } { simpl. split_and!; try done; lia. }
      split; [done|]. intros x. rewrite G2, !in_ranges_cons. simpl. intuition lia.
Qed.

Lemma insert_free_bundle_spec rs b :
  ranges_sep 0 rs → 1 ≤ b →
  let rs' := merge_ranges (sort_ranges (rs ++ [(b, b)])) [] in
  ranges_sep 0 rs' ∧ ∀ x, in_ranges x rs' ↔ x = b ∨ in_ranges x rs.
Proof.
  intros Hsep Hb. cbv zeta.
  assert (∀ r, r ∈ rs ++ [(b, b)] → 1 ≤ r.1 ∧ r.1 ≤ r.2) as Hall.
  { intros r [Hr| ->%list_elem_of_singleton]%elem_of_app; [|simpl; lia].
    pose proof (ranges_sep_in _ _ _ Hsep Hr). lia. }
  destruct (merge_ranges_spec (sort_ranges (rs ++ [(b, b)])) []) as [G1 G2].
  { apply sort_ranges_starts. intros r Hr. by apply Hall. }
  { intros r Hr. rewrite sort_ranges_perm in Hr. by apply Hall. }
  { done. }
  split; [done|]. intros x. rewrite G2. unfold in_ranges at 1 2. setoid_rewrite sort_ranges_perm.
  setoid_rewrite elem_of_app. setoid_rewrite list_elem_of_singleton. setoid_rewrite elem_of_nil.
  split.
  - intros [(r & [Hr| ->] & Hx)|(? & [] & _)]; [right; by exists r|left; simpl in Hx; lia].
  - intros [->|(r & Hr & Hx)]; left;
      [exists (b, b); split; [by right|simpl; lia]|exists r; split; [by left|done]].
Qed.

(** Giving back one owned bundle. *)
Lemma free_one_inv cap a b o :
  alloc_inv cap a → owners a !! b = Some o →
  alloc_inv cap (mkAlloc (delete b (owners a))
    (merge_ranges (sort_ranges (free_ranges a ++ [(b, b)])) [])).
Proof.
  intros [Hsep Hfree Hown] Hb. pose proof (Hown _ _ Hb) as Hbr.
  destruct (insert_free_bundle_spec (free_ranges a) b Hsep) as [G1 G2]; [lia|].
  split; simpl; [done| |].
  - intros x. rewrite G2, Hfree, lookup_delete. case_decide as Hx; [subst x|naive_solver].
    split; [done|by left].
  - intros x o' Hx. rewrite lookup_delete in Hx. case_decide; [done|]. by eapply Hown.
Qed.

Lemma wp_free cap a o ids E :
  alloc_inv cap a → NoDup ids → (∀ b, b ∈ ids → owners a !! b = Some o) →
  wp (free o ids)
    (λ _ a', alloc_inv cap a' ∧
       ∀ x, owners a' !! x = if decide (x ∈ ids) then None else owners a !! x) E a.
Proof.
  intros Ha Hnd Hown. unfold free. rewrite bool_decide_true by done. simpl. wp_steps.
  eapply (wp_for_each (λ _ _ a', a' = a)); [done| |].
  { intros dn b todo a' Hx ->. wp_steps. rewrite bool_decide_true; [by apply wp_ret|].
    apply Hown. rewrite Hx. in_list. }
  intros a' ->.
  eapply (wp_for_each (λ dn _ a', alloc_inv cap a' ∧
    ∀ x, owners a' !! x = if decide (x ∈ dn) then None else owners a !! x)); [| |done].
  { split; [done|]. intros x. by rewrite decide_False by apply not_elem_of_nil. }
  intros dn b todo a' Hx [Ha' Ho']. unfold del_owner, insert_free_bundle. wp_steps. simpl.
  assert (owners a' !! b = Some o) as Hb.
  { rewrite Ho', decide_False; [apply Hown; rewrite Hx; in_list|].
    intros Hin. rewrite Hx in Hnd. by apply (NoDup_app_ne b b dn (b :: todo)); [..|in_list|]. }
  split; [by eapply free_one_inv|]. intros x. simpl. rewrite lookup_delete, Ho'.
  repeat case_decide; set_solver.
Qed.

Lemma free_rejects a o ids :
  ¬ (NoDup ids ∧ ∀ b, b ∈ ids → owners a !! b = Some o) → free o ids a = (Raise ValueError, a).
Proof.
  intros Hbad. unfold free. destruct (decide (NoDup ids)) as [Hnd|Hnd].
  2:{ rewrite bool_decide_false by done. done. }
  rewrite bool_decide_true by done. simpl. unfold mbind, M_bind at 1. simpl.
  assert (for_each ids (λ bundle_id, own ← gets owners;
    if bool_decide (own !! bundle_id = Some o) then mret tt else raise ValueError) a
    = (Raise ValueError, a)) as Hl; [|unfold mbind, M_bind in *; by rewrite Hl].
  assert (¬ ∀ b, b ∈ ids → owners a !! b = Some o) as Hex by tauto. clear Hbad Hnd.
  induction ids as [|b ids IH]; [exfalso; apply Hex; by intros b ?%elem_of_nil|]. simpl.
  unfold mbind, M_bind in *. simpl. case_bool_decide as Hb; [|done]. simpl. apply IH.
  intros H. apply Hex. intros b' [->|?]%elem_of_cons; auto.
Qed.

(** ** Canonical form *)

Lemma ranges_sep_gt lo rs x : ranges_sep lo rs → in_ranges x rs → lo < x.
Proof. intros Hs (r & Hr & Hx). pose proof (ranges_sep_in _ _ _ Hs Hr). lia. Qed.

(** The free ranges are determined by the set of free bundles. *)
Lemma ranges_canonical lo rs rs' :
  ranges_sep lo rs → ranges_sep lo rs' → (∀ x, in_ranges x rs ↔ in_ranges x rs') → rs = rs'.
Proof.
  assert (∀ x : Z, ¬ in_ranges x []) as Hnil by (by intros x (r & ?%elem_of_nil & _)).
  revert lo rs'. induction rs as [|[s e] rs IH]; intros lo [|[s' e'] rs'].
  - done.
  - intros _ (? & ? & _) Hiff. simpl in *. exfalso. apply (Hnil s'), Hiff, in_ranges_cons. left. simpl. lia.
  - intros (? & ? & _) _ Hiff. simpl in *. exfalso. apply (Hnil s), Hiff, in_ranges_cons. left. simpl. lia.
  - intros (H1 & H2 & H3) (H1' & H2' & H3') Hiff. simpl in *.
    assert (∀ x, in_ranges x rs → e + 1 < x) as G by (intros x; by apply ranges_sep_gt).
    assert (∀ x, in_ranges x rs' → e' + 1 < x) as G' by (intros x; by apply ranges_sep_gt).
    assert (∀ x, s ≤ x ≤ e ∨ in_ranges x rs ↔ s' ≤ x ≤ e' ∨ in_ranges x rs') as Hx.
    { intros x. specialize (Hiff x). rewrite !in_ranges_cons in Hiff. done. }
    assert (s = s') as <-.
    { destruct (proj1 (Hx s)) as [?|?%G']; [left; lia|..];
        destruct (proj2 (Hx s')) as [?|?%G]; try (left; lia); lia. }
    assert (e = e') as <-.
    { destruct (Z.lt_trichotomy e e') as [Hlt|[?|Hlt]]; [|done|].
      - destruct (proj2 (Hx (e + 1))) as [?|?%G]; [left; lia|lia|lia].
      - destruct (proj1 (Hx (e' + 1))) as [?|?%G']; [left; lia|lia|lia]. }
    f_equal. apply (IH (e + 1)); [done..|]. intros x. specialize (Hx x).
    split; intros Hin; [pose proof (G x Hin)|pose proof (G' x Hin)]; destruct Hx; intuition lia.
Qed.

Lemma alloc_inv_canonical cap a a' :
  alloc_inv cap a → alloc_inv cap a' → (∀ x, owners a !! x = owners a' !! x) → a = a'.
Proof.
  intros [Hs Hf _] [Hs' Hf' _] Ho. destruct a as [own rs], a' as [own' rs']; simpl in *.
  assert (own = own') as -> by by apply map_eq.
  f_equal. apply (ranges_canonical 0); [done..|]. intros x. by rewrite Hf, Hf'.
Qed.

(** ** Properties *)

(** C33: the bundle allocator hands out exactly what is free. With enough free bundles,
    [allocate] ends within its bound and returns the requested number of distinct
    bundles, none owned before, all owned by the caller afterwards and no other owner
    changed; it takes a prefix of a shortest range that is long enough when there is
    one; without enough bundles it raises [ValueError] and changes nothing. *)
Theorem dsa_allocate_spec cap a o n :
  alloc_inv cap a →
  if decide (n ≤ free_bundle_count a ∨ n ≤ 0) then
    ∃ c a', allocate o n a = (Ret (Some c), a') ∧ Z.of_nat (length c) = Z.max 0 n ∧
      alloc_inv cap a' ∧ allocated a o c a' ∧
      ((∃ r, r ∈ free_ranges a ∧ 1 ≤ n ≤ range_len r) →
       ∃ r, r ∈ free_ranges a ∧ c = py_range r.1 (r.1 + n) ∧
         ∀ r', r' ∈ free_ranges a → n ≤ range_len r' → range_len r ≤ range_len r')
  else allocate o n a = (Raise ValueError, a).
Proof.
  intros Ha. pose proof (length_expand a 0 (ai_sep _ _ Ha)) as Hlen.
  case_decide as Hn; [|apply allocate_full; lia].
  assert (n ≤ free_bundle_count a) as Hle by lia.
  destruct (wp_run _ _ _ (wp_allocate cap a o n noexc Ha Hle))
    as (res & a' & Hrun & c & -> & ? & ? & ? & ?).
  exists c, a'. done.
Qed.

(** C34: releasing what was allocated restores the allocator exactly, fragmentation
    included: the free ranges are kept in a canonical form of maximal disjoint ranges.
    Releasing bundles twice, or bundles of another owner, raises [ValueError] and
    changes nothing. *)
Theorem dsa_allocate_free_round_trip cap a o n c a' :
  alloc_inv cap a → allocate o n a = (Ret (Some c), a') →
  free o c a' = (Ret tt, a) ∧
  (∀ o' ids, ¬ (NoDup ids ∧ ∀ b, b ∈ ids → owners a' !! b = Some o') →
     free o' ids a' = (Raise ValueError, a')).
Proof.
  intros Ha Hrun. split; [|intros; by apply free_rejects].
  destruct (decide (n ≤ free_bundle_count a)) as [Hn|Hn].
  2:{ destruct (decide (n ≤ 0)) as [Hn0|Hn0].
      - pose proof (length_expand a 0 (ai_sep _ _ Ha)). lia.
      - rewrite allocate_full in Hrun by lia. done. }
  pose proof (wp_allocate cap a o n noexc Ha Hn) as Hwp. unfold wp in Hwp. rewrite Hrun in Hwp.
  destruct Hwp as (c' & [= <-] & _ & Ha' & [Hnd Hfree Hown] & _).
  destruct (wp_run _ _ _ (wp_free cap a' o c noexc Ha' Hnd
    ltac:(intros b Hb; by rewrite Hown, decide_True))) as ([] & a'' & Hrun' & Ha'' & Ho'').
  rewrite Hrun'. f_equal. apply (alloc_inv_canonical cap); [done..|]. intros x.
  rewrite Ho''. case_decide as Hx; [by rewrite Hfree|]. by rewrite Hown, decide_False.
Qed.

(** no bundle is lost or created: in every allocator state that satisfies the
    invariant, and in particular in a new one, the free bundles and the owned bundles
    add up to the capacity. *)
Theorem dsa_bundles_conserved l a :
  0 < capacity_bundles l → a = alloc_init l ∨ alloc_inv (capacity_bundles l) a →
  alloc_inv (capacity_bundles l) a ∧
  free_bundle_count a + Z.of_nat (size (owners a)) = capacity_bundles l.
Proof.
  intros Hc Ha. assert (alloc_inv (capacity_bundles l) a) as Hinv.
  { destruct Ha as [->|Ha]; [by apply alloc_init_inv|done]. }
  split; [done|]. apply alloc_conservation; [lia|done].
Qed.

(** Three bundles, the middle one owned. *)
Definition sample_alloc : AL := mkAlloc {[2 := LATENT]} [(1, 1); (3, 3)].

Lemma sample_alloc_inv : alloc_inv 3 sample_alloc.
Proof.
  split; simpl.
  - lia.
  - intros x. rewrite in_ranges_cons, in_ranges_cons, lookup_singleton. simpl.
    assert (¬ in_ranges x []) by (by intros (r & ?%elem_of_nil & _)).
    case_decide; intuition (try lia; try done).
  - intros x o Hx. apply lookup_singleton_Some in Hx as [<- _]. lia.
Qed.

Lemma dsa_allocate_spec_witness :
  ∃ c a', allocate INDEXER 2 sample_alloc = (Ret (Some c), a') ∧ Z.of_nat (length c) = 2.
Proof.
  destruct (dsa_allocate_spec 3 sample_alloc INDEXER 2 sample_alloc_inv) as (c & a' & Hrun & Hl & _).
  exists c, a'. split; [exact Hrun|exact Hl].
Defined.

Lemma dsa_allocate_free_round_trip_witness :
  free INDEXER [1; 3] (allocate INDEXER 2 sample_alloc).2 = (Ret tt, sample_alloc).
Proof.
  refine (proj1 (dsa_allocate_free_round_trip 3 sample_alloc INDEXER 2 [1; 3] _ sample_alloc_inv _)).
  vm_compute. reflexivity.
Defined.

Lemma dsa_bundles_conserved_witness :
  free_bundle_count (alloc_init (mkLayout 9 2 5 512 64 128)) = 5.
Proof.
  destruct (dsa_bundles_conserved (mkLayout 9 2 5 512 64 128) (alloc_init (mkLayout 9 2 5 512 64 128)))
    as [_ H].
  - simpl. lia.
  - left. reflexivity.
  - exact H.
Defined.
