(* ===== verification/DsaLogical.v ===== *)
(** The logical block pools of src/vllm/v1/core/dsa_shared_pool.py: blocks of one owner that
    share bundles of the allocator, reference counts per bundle, allocation and release. *)
From S2P Require Import Prelude.
From S2P Require Import DsaPool.
From S2P Require Import DsaAlloc.
Local Open Scope Z_scope.

(** ** The logical pool *)

(** One owner's view: the allocator it shares and the reference counts of its blocks, by
    block id. Block 0 is the null block. *)
Record DSASharedLogicalBlockPool := mkLogical {
  allocator : DSASharedBundleAllocator;
  ref_cnts : list Z
}.

Abbreviation LP := DSASharedLogicalBlockPool.

Definition on_alloc {A} : M AL A → M LP A := zoom allocator (λ a p, mkLogical a (ref_cnts p)).
Definition read_ref (b : Z) : M LP Z :=
  refs ← gets ref_cnts; from_option_raise IndexError (py_get refs b).
Definition write_ref (b c : Z) : M LP unit :=
  modify (λ p, mkLogical (allocator p) (<[Z.to_nat b := c]> (ref_cnts p))).

Section logical.
Context (l : DSASharedBlockLayout) (owner : DSASharedBlockOwner).

(** [DSASharedLogicalBlockPool.__init__]. *)
Definition logical_init (a : DSASharedBundleAllocator) : LP :=
  mkLogical a (replicate (Z.to_nat (row_count l owner)) 0).

(** [get_num_free_blocks]. *)
Definition logical_num_free_blocks (p : LP) : Z :=
  free_bundle_count (allocator p) * blocks_per_bundle l owner.

(** [get_num_bundles_to_allocate]. *)
Definition get_num_bundles_to_allocate (num_blocks : Z) : Z :=
  bundle_count_for_blocks l owner num_blocks.

(** [get_new_blocks]; [None] when the allocator's loop ran out of rounds. *)
Definition logical_get_new_blocks (num_blocks : Z) : M LP (option (list Z)) :=
  free ← gets logical_num_free_blocks;
  if free <? num_blocks then raise ValueError
  else
    let bundle_count := bundle_count_for_blocks l owner num_blocks in
    o ← on_alloc (allocate owner bundle_count);
    match o with
    | None => mret None
    | Some bundle_ids =>
        block_ids ← for_fold bundle_ids [] (λ acc bundle_id,
          ids ← of_outcome (block_ids_for_bundle l owner bundle_id); mret (acc ++ ids));
        for_each block_ids (λ b, read_ref b ;; mret tt) ;;
        for_each block_ids (λ b, c ← read_ref b; py_assert (c =? 0) ;; write_ref b 1) ;;
        mret (Some block_ids)
    end.

(** [all(block.ref_cnt == 0 for block in bundle_blocks)]. *)
Fixpoint all_zero (ids : list Z) : M LP bool :=
  match ids with
  | [] => mret true
  | b :: ids' => c ← read_ref b; if c =? 0 then all_zero ids' else mret false
  end.

(** [free_blocks]; [set_order] is the order in which a set of bundle ids, given by the
    sequence of its insertions, is iterated over. *)
Definition logical_free_blocks (set_order : list Z → list Z) (ordered_blocks : list Z) :
    M LP unit :=
  let blocks_list := filter (.≠ 0) ordered_blocks in
  match blocks_list with
  | [] => mret tt
  | _ =>
      affected ← for_fold blocks_list [] (λ acc b,
        c ← read_ref b;
        (if c <=? 0 then raise ValueError else mret tt) ;;
        write_ref b (c - 1) ;;
        bundle_id ← of_outcome (bundle_id_for_block l owner b);
        mret (acc ++ [bundle_id]));
      bundle_ids ← for_fold (set_order affected) [] (λ acc bundle_id,
        ids ← of_outcome (block_ids_for_bundle l owner bundle_id);
        z ← all_zero ids;
        mret (if (z : bool) then acc ++ [bundle_id] else acc));
      on_alloc (free owner bundle_ids)
  end.

(** ** Invariant *)

Definition bundle_blocks (bundle : Z) : list Z :=
  match block_ids_for_bundle l owner bundle with Ret ids => ids | Raise _ => [] end.

Definition ref_at (p : LP) (b : Z) : Z := default 0 (ref_cnts p !! Z.to_nat b).

(** Only blocks of bundles this owner holds are referenced, and it holds no bundle
    without a referenced block. *)
Record logical_inv (p : LP) : Prop := {
  li_alloc : alloc_inv (capacity_bundles l) (allocator p);
  li_rows : Z.of_nat (length (ref_cnts p)) = row_count l owner;
  li_nonneg : ∀ b, 0 ≤ b → 0 ≤ ref_at p b;
  li_held : ∀ b, 0 ≤ b → 0 < ref_at p b →
    ∃ bundle, owners (allocator p) !! bundle = Some owner ∧ b ∈ bundle_blocks bundle;
  li_used : ∀ bundle, owners (allocator p) !! bundle = Some owner →
    ∃ b, b ∈ bundle_blocks bundle ∧ 0 < ref_at p b
}.

Context (Hl : layout_ok l).

Lemma bundle_blocks_spec bundle :
  1 ≤ bundle ≤ capacity_bundles l →
  block_ids_for_bundle l owner bundle = Ret (bundle_blocks bundle) ∧ NoDup (bundle_blocks bundle) ∧
  Z.of_nat (length (bundle_blocks bundle)) = blocks_per_bundle l owner ∧
  ∀ b, b ∈ bundle_blocks bundle →
    0 < b < row_count l owner ∧ bundle_id_for_block l owner b = Ret bundle.
Proof using Hl.
  intros Hb. destruct (bundle_ids_spec l owner bundle Hl Hb) as (ids & Hids & ? & ? & ?).
  unfold bundle_blocks. rewrite Hids. done.
Qed.

Lemma bundle_blocks_inv bundle b : b ∈ bundle_blocks bundle → 1 ≤ bundle ≤ capacity_bundles l.
Proof.
  unfold bundle_blocks, block_ids_for_bundle. intros Hb.
  destruct (Z.leb_spec bundle 0), (Z.ltb_spec (capacity_bundles l) bundle); simpl in Hb;
    first [by apply elem_of_nil in Hb|lia].
Qed.

(** A block is in one bundle only. *)
Lemma bundle_blocks_unique b x y : b ∈ bundle_blocks x → b ∈ bundle_blocks y → x = y.
Proof using Hl.
  intros Hx Hy. pose proof (bundle_blocks_inv _ _ Hx) as Hbx. pose proof (bundle_blocks_inv _ _ Hy) as Hby.
  apply bundle_blocks_spec in Hbx as (_ & _ & _ & Hbx), Hby as (_ & _ & _ & Hby).
  apply Hbx in Hx as [_ Hx]. apply Hby in Hy as [_ Hy]. congruence.
Qed.

Lemma blocks_per_bundle_pos : 0 < blocks_per_bundle l owner.
Proof using Hl. destruct (layout_facts l Hl) as (_ & ? & ? & _). by destruct owner. Qed.

Lemma wp_read_ref p b (Post : Z → LP → Prop) E :
  Z.of_nat (length (ref_cnts p)) = row_count l owner → 0 ≤ b < row_count l owner →
  Post (ref_at p b) p → wp (read_ref b) Post E p.
Proof.
  intros Hrows Hb HP. unfold read_ref. wp_steps. unfold py_get. rewrite decide_True by lia.
  destruct (lookup_lt_is_Some_2 (ref_cnts p) (Z.to_nat b)) as [c Hc]; [lia|].
  rewrite Hc. apply wp_ret. unfold ref_at in HP. by rewrite Hc in HP.
Qed.

Lemma ref_at_write p b c b' :
  Z.of_nat (length (ref_cnts p)) = row_count l owner → 0 ≤ b < row_count l owner → 0 ≤ b' →
  ref_at (mkLogical (allocator p) (<[Z.to_nat b := c]> (ref_cnts p))) b' =
    if decide (b = b') then c else ref_at p b'.
Proof.
  intros Hrows Hb Hb'. unfold ref_at. simpl. case_decide as Hd.
  - subst. by rewrite list_lookup_insert_eq by lia.
  - rewrite list_lookup_insert_ne by lia. done.
Qed.

Lemma logical_init_inv a :
  alloc_inv (capacity_bundles l) a → (∀ bundle, owners a !! bundle ≠ Some owner) →
  logical_inv (logical_init a).
Proof using Hl.
  intros Ha Hown. pose proof blocks_per_bundle_pos. destruct (layout_facts l Hl) as (Hc & _).
  assert (∀ b, 0 ≤ b → ref_at (logical_init a) b = 0) as H0.
  { intros b Hb. unfold ref_at, logical_init. simpl.
    destruct (replicate _ 0 !! Z.to_nat b) eqn:E; [|done]. by apply lookup_replicate in E as [-> _]. }
  split; simpl.
  - done.
  - rewrite length_replicate. unfold row_count, slot_count. nia.
  - intros b Hb. by rewrite H0.
  - intros b Hb. rewrite H0 by done. lia.
  - intros bundle Hb. by apply Hown in Hb.
Qed.

(** ** Allocation *)

Lemma wp_collect_ids bundles (p : LP) acc E :
  (∀ b, b ∈ bundles → 1 ≤ b ≤ capacity_bundles l) →
  wp (for_fold bundles acc (λ acc bundle_id,
        ids ← of_outcome (block_ids_for_bundle l owner bundle_id); mret (acc ++ ids)))
    (λ res p', p' = p ∧ res = acc ++ (bundles ≫= bundle_blocks)) E p.
Proof using Hl.
  revert acc. induction bundles as [|b bundles IH]; intros acc Hb; simpl.
  { apply wp_ret. by rewrite app_nil_r. }
  destruct (bundle_blocks_spec b) as (Hids & _); [apply Hb; by left|].
  apply wp_bind, wp_bind.
  change (wp (of_outcome ?o) ?Post ?E ?s) with (match o with Ret a => Post a s | Raise e => E e s end).
  rewrite Hids. apply wp_ret. eapply wp_call; [apply IH; intros; apply Hb; by right|].
  intros res p' [-> ->]. by rewrite app_assoc.
Qed.

(** Setting the counts of fresh blocks. *)
Lemma wp_take_refs p ids E :
  Z.of_nat (length (ref_cnts p)) = row_count l owner → NoDup ids →
  (∀ b, b ∈ ids → 0 < b < row_count l owner ∧ ref_at p b = 0) →
  wp (for_each ids (λ b, c ← read_ref b; py_assert (c =? 0) ;; write_ref b 1))
    (λ _ p', allocator p' = allocator p ∧ length (ref_cnts p') = length (ref_cnts p) ∧
       ∀ b, 0 ≤ b → ref_at p' b = if decide (b ∈ ids) then 1 else ref_at p b) E p.
Proof.
  intros Hrows Hnd Hids.
  eapply (wp_for_each (λ dn _ p', allocator p' = allocator p ∧
    length (ref_cnts p') = length (ref_cnts p) ∧
    ∀ b, 0 ≤ b → ref_at p' b = if decide (b ∈ dn) then 1 else ref_at p b)); [| |done].
  { split_and!; [done..|]. intros b _. by rewrite decide_False by apply not_elem_of_nil. }
  intros dn b todo p' Hx (Ha & Hlen & Hr). destruct (Hids b) as [Hb H0]; [rewrite Hx; in_list|].
  apply wp_bind, wp_read_ref; [by rewrite Hlen|lia|].
  rewrite Hr, decide_False, H0 by (try lia; intros Hin; rewrite Hx in Hnd;
    by apply (NoDup_app_ne b b dn (b :: todo)); [..|in_list|]).
  apply wp_bind, wp_assert; [done|]. apply wp_modify. split_and!; [done|simpl; by rewrite length_insert|].
  intros b' Hb'. rewrite ref_at_write, Hr by (rewrite ?Hlen; lia || done).
  repeat case_decide; set_solver.
Qed.

Lemma bind_nodup bundles :
  NoDup bundles → (∀ b, b ∈ bundles → 1 ≤ b ≤ capacity_bundles l) → NoDup (bundles ≫= bundle_blocks).
Proof using Hl.
  induction bundles as [|x bundles IH]; intros Hnd Hb; [constructor|].
  apply NoDup_cons in Hnd as [Hx Hnd]. simpl. apply NoDup_app. split_and!.
  - apply bundle_blocks_spec, Hb. by left.
  - intros b Hbx (y & Hby & Hy)%list_elem_of_bind. apply Hx.
    by rewrite (bundle_blocks_unique b x y).
  - apply IH; [done|]. intros. apply Hb. by right.
Qed.

Lemma length_bind_blocks bundles :
  (∀ b, b ∈ bundles → 1 ≤ b ≤ capacity_bundles l) →
  Z.of_nat (length (bundles ≫= bundle_blocks)) = Z.of_nat (length bundles) * blocks_per_bundle l owner.
Proof using Hl.
  induction bundles as [|x bundles IH]; intros Hb; [done|].
  change ((x :: bundles) ≫= bundle_blocks) with (bundle_blocks x ++ (bundles ≫= bundle_blocks)).
  rewrite length_app, Nat2Z.inj_add, IH by (intros; apply Hb; by right).
  destruct (bundle_blocks_spec x) as (_ & _ & -> & _); [apply Hb; by left|]. simpl length. lia.
Qed.

(** The bundle count of a request for [n] blocks. *)
Lemma bundle_count_spec n :
  0 ≤ n → let k := bundle_count_for_blocks l owner n in
  0 ≤ k ∧ n ≤ k * blocks_per_bundle l owner ∧ (k - 1) * blocks_per_bundle l owner < n ∨ n = 0 ∧ k = 0.
Proof using Hl.
  intros Hn. cbv zeta. pose proof blocks_per_bundle_pos as Hp.
  unfold bundle_count_for_blocks, dsa_cdiv. set (d := blocks_per_bundle l owner) in *.
  pose proof (Z.div_mod (n + d - 1) d ltac:(lia)). pose proof (Z.mod_pos_bound (n + d - 1) d Hp).
  destruct (decide (n = 0)) as [->|]; [right; split; [done|]; apply Z.div_small; lia|].
  left. split_and!; nia.
Qed.

Lemma get_new_inv p bundles p' :
  logical_inv p → allocated (allocator p) owner bundles (allocator p') →
  alloc_inv (capacity_bundles l) (allocator p') →
  length (ref_cnts p') = length (ref_cnts p) →
  (∀ b, 0 ≤ b → ref_at p' b = if decide (b ∈ bundles ≫= bundle_blocks) then 1 else ref_at p b) →
  logical_inv p'.
Proof using Hl.
  intros [Ha Hrows Hnn Hheld Hused] [Hnd Hfree Hown] Ha' Hlen Hr.
  assert (∀ x, x ∈ bundles → 1 ≤ x ≤ capacity_bundles l) as Hin.
  { intros x Hx. apply (ai_owned _ _ Ha' x owner). by rewrite Hown, decide_True. }
  split; [done|by rewrite Hlen| | |].
  - intros b Hb. rewrite Hr by done. case_decide; [lia|auto].
  - intros b Hb. rewrite Hr by done. case_decide as Hd; intros Hpos.
    + apply list_elem_of_bind in Hd as (x & Hbx & Hx). exists x. by rewrite Hown, decide_True.
    + destruct (Hheld b Hb Hpos) as (x & Hx & Hbx). exists x. rewrite Hown. by case_decide.
  - intros x Hx. rewrite Hown in Hx. case_decide as Hd.
    + destruct (bundle_blocks_spec x (Hin x Hd)) as (_ & _ & Hlx & Hbx).
      pose proof blocks_per_bundle_pos.
      destruct (bundle_blocks x) as [|b bs] eqn:Ex; [simpl in Hlx; lia|].
      exists b. split; [by left|]. destruct (Hbx b); [by left|].
      rewrite Hr, decide_True; [lia| |lia]. apply list_elem_of_bind. exists x. rewrite Ex.
      split; [by left|done].
    + destruct (Hused x Hx) as (b & Hb & Hpos). exists b. split; [done|].
      pose proof (bundle_blocks_inv _ _ Hb) as Hxr.
      destruct (bundle_blocks_spec x Hxr) as (_ & _ & _ & Hbx). destruct (Hbx b Hb).
      rewrite Hr by lia. case_decide; lia.
Qed.

Lemma wp_logical_get_new_blocks p n E :
  logical_inv p → 0 ≤ n ≤ logical_num_free_blocks p →
  wp (logical_get_new_blocks n)
    (λ res p', ∃ bundles, res = Some (bundles ≫= bundle_blocks) ∧
       Z.of_nat (length bundles) = bundle_count_for_blocks l owner n ∧
       allocated (allocator p) owner bundles (allocator p') ∧ logical_inv p' ∧
       NoDup (bundles ≫= bundle_blocks) ∧
       ∀ b, 0 ≤ b → ref_at p' b = if decide (b ∈ bundles ≫= bundle_blocks) then 1 else ref_at p b) E p.
Proof using Hl.
  intros Hp Hn. pose proof Hp as [Ha Hrows Hnn Hheld Hused]. pose proof blocks_per_bundle_pos as Hpos.
  pose proof (bundle_count_spec n ltac:(lia)) as Hk. cbv zeta in Hk.
  unfold logical_get_new_blocks. wp_steps.
  destruct (Z.ltb_spec (logical_num_free_blocks p) n) as [?|_]; [lia|].
  set (k := bundle_count_for_blocks l owner n) in *. unfold logical_num_free_blocks in Hn.
  apply wp_bind. unfold on_alloc. apply wp_zoom.
  eapply wp_call; [apply (wp_allocate _ _ owner k _ Ha); nia|].
  intros res a' (c & -> & Hlen & Ha' & Hal & _). cbv beta iota.
  assert (∀ x, x ∈ c → 1 ≤ x ≤ capacity_bundles l) as Hin.
  { intros x Hx. apply (ai_owned _ _ Ha' x owner). by rewrite (al_owner _ _ _ _ Hal), decide_True. }
  apply wp_bind. eapply wp_call; [by apply wp_collect_ids|]. intros ids p1 [-> ->]. simpl app.
  set (ids := c ≫= bundle_blocks). set (p1 := mkLogical a' (ref_cnts p)).
  pose proof (bind_nodup c (al_nodup _ _ _ _ Hal) Hin) as Hnd.
  assert (∀ b, b ∈ ids → 0 < b < row_count l owner ∧ ref_at p1 b = 0) as Hids.
  { intros b (x & Hbx & Hx)%list_elem_of_bind.
    destruct (bundle_blocks_spec x (Hin x Hx)) as (_ & _ & _ & Hbs). destruct (Hbs b Hbx) as [Hb _].
    split; [done|]. change (ref_at p1 b) with (ref_at p b). specialize (Hnn b ltac:(lia)).
    destruct (decide (ref_at p b = 0)); [done|].
    destruct (Hheld b ltac:(lia) ltac:(lia)) as (y & Hy & Hby).
    rewrite (bundle_blocks_unique b y x Hby Hbx) in Hy.
    rewrite (al_free _ _ _ _ Hal x Hx) in Hy. done. }
  apply wp_bind. eapply (wp_for_each (λ _ _ p', p' = p1)); [done| |].
  { intros dn b todo p' Hx ->. apply wp_bind, wp_read_ref; [done| |by apply wp_ret].
    destruct (Hids b); [rewrite Hx; in_list|lia]. }
  intros p' ->. apply wp_bind. eapply wp_call; [by apply wp_take_refs|].
  intros [] p2 (Ha2 & Hlen2 & Hr2). apply wp_ret. exists c. simpl in Ha2. rewrite Ha2.
  split_and!; [done|lia|done| |done|done]. apply (get_new_inv p c); rewrite ?Ha2; done.
Qed.

Lemma logical_get_new_blocks_full p n :
  logical_num_free_blocks p < n → logical_get_new_blocks n p = (Raise ValueError, p).
Proof.
  intros Hn. unfold logical_get_new_blocks, gets, mbind, M_bind.
  by destruct (Z.ltb_spec (logical_num_free_blocks p) n); [|lia].
Qed.

(** ** Release *)

Lemma wp_all_zero (p' : LP) ids E :
  Z.of_nat (length (ref_cnts p')) = row_count l owner →
  (∀ b, b ∈ ids → 0 ≤ b < row_count l owner) →
  wp (all_zero ids) (λ z p'', p'' = p' ∧ (z = true ↔ ∀ b, b ∈ ids → ref_at p' b = 0)) E p'.
Proof.
  intros Hrows. induction ids as [|b ids IH]; intros Hids; simpl.
  { apply wp_ret. split; [done|]. split; [|done]. by intros _ b ?%elem_of_nil. }
  apply wp_bind, wp_read_ref; [done|apply Hids; by left|].
  destruct (Z.eqb_spec (ref_at p' b) 0) as [H0|H0].
  - eapply wp_call; [apply IH; intros; apply Hids; by right|]. intros z p'' [-> Hz]. split; [done|].
    rewrite Hz. setoid_rewrite elem_of_cons. naive_solver.
  - apply wp_ret. split; [done|]. split; [done|]. intros H. specialize (H b). set_solver.
Qed.

(** The bundles whose last reference went. *)
Lemma wp_collect_free (p' : LP) affected E :
  Z.of_nat (length (ref_cnts p')) = row_count l owner →
  NoDup affected → (∀ x, x ∈ affected → 1 ≤ x ≤ capacity_bundles l) →
  wp (for_fold affected [] (λ acc bundle_id,
        ids ← of_outcome (block_ids_for_bundle l owner bundle_id);
        z ← all_zero ids;
        mret (if (z : bool) then acc ++ [bundle_id] else acc)))
    (λ res p'', p'' = p' ∧ NoDup res ∧
       ∀ x, x ∈ res ↔ x ∈ affected ∧ ∀ b, b ∈ bundle_blocks x → ref_at p' b = 0) E p'.
Proof using Hl.
  intros Hrows Hnda Hrange.
  eapply (wp_for_fold (λ dn res p'', p'' = p' ∧ NoDup res ∧
    ∀ x, x ∈ res ↔ x ∈ dn ∧ ∀ b, b ∈ bundle_blocks x → ref_at p' b = 0)); [| |done].
  { split_and!; [done|constructor|]. intros x. rewrite !elem_of_nil. tauto. }
  intros dn x todo res p'' Hx (-> & Hndr & Hres).
  destruct (bundle_blocks_spec x) as (Hids & _ & _ & Hb); [apply Hrange; rewrite Hx; in_list|].
  apply wp_bind. eapply wp_of_outcome; [done|]. apply wp_bind.
  eapply wp_call; [apply wp_all_zero; [done|]; intros b Hbx; apply Hb in Hbx; lia|].
  intros z p'' [-> Hz]. apply wp_ret. split; [done|].
  assert (x ∉ dn) as Hxd.
  { intros Hin. rewrite Hx in Hnda. by apply (NoDup_app_ne x x dn (x :: todo)); [..|in_list|]. }
  destruct z.
  - split.
    + apply NoDup_app. split_and!; [done| |apply NoDup_singleton].
      intros y Hy ->%list_elem_of_singleton. by apply Hres in Hy as [? _].
    + intros y. rewrite !elem_of_app, Hres, list_elem_of_singleton. naive_solver.
  - split; [done|]. intros y. rewrite Hres, elem_of_app, list_elem_of_singleton.
    split; [tauto|]. intros [[?| ->] Hall]; [tauto|]. exfalso.
    assert (false = true); [|done]. by apply Hz.
Qed.

Section release.
Context (p : LP) (Hp : logical_inv p) (bs : list Z).
Context (Hnd : NoDup bs) (Hbs : ∀ b, b ∈ bs → 0 < b ∧ 0 < ref_at p b).

(** A referenced block lies in a bundle the owner holds. *)
Lemma held_block b :
  b ∈ bs → ∃ x, bundle_id_for_block l owner b = Ret x ∧ b ∈ bundle_blocks x ∧
    owners (allocator p) !! x = Some owner ∧ 0 < b < row_count l owner.
Proof using Hl Hp Hbs.
  intros Hb. destruct (Hbs b Hb) as [Hb0 Hr].
  destruct (li_held _ Hp b ltac:(lia) Hr) as (x & Hx & Hbx). exists x.
  pose proof (bundle_blocks_inv _ _ Hbx) as Hxr.
  destruct (bundle_blocks_spec x Hxr) as (_ & _ & _ & Hs). destruct (Hs b Hbx). done.
Qed.

Lemma wp_drop_logical_refs E :
  wp (for_fold bs [] (λ acc b,
        c ← read_ref b;
        (if c <=? 0 then raise ValueError else mret tt) ;;
        write_ref b (c - 1) ;;
        bundle_id ← of_outcome (bundle_id_for_block l owner b);
        mret (acc ++ [bundle_id])))
    (λ affected p', allocator p' = allocator p ∧ length (ref_cnts p') = length (ref_cnts p) ∧
       (∀ b, 0 ≤ b → ref_at p' b = if decide (b ∈ bs) then ref_at p b - 1 else ref_at p b) ∧
       ∀ x, x ∈ affected ↔ ∃ b, b ∈ bs ∧ b ∈ bundle_blocks x) E p.
Proof using Hl Hp Hbs Hnd.
  eapply (wp_for_fold (λ dn affected p', allocator p' = allocator p ∧
    length (ref_cnts p') = length (ref_cnts p) ∧
    (∀ b, 0 ≤ b → ref_at p' b = if decide (b ∈ dn) then ref_at p b - 1 else ref_at p b) ∧
    ∀ x, x ∈ affected ↔ ∃ b, b ∈ dn ∧ b ∈ bundle_blocks x)); [| |done].
  { split_and!; [done|done| |].
    - intros b _. by rewrite decide_False by apply not_elem_of_nil.
    - intros x. rewrite elem_of_nil. split; [done|]. by intros (b & ?%elem_of_nil & _). }
  intros dn b todo aff p' Hx (Ha & Hlen & Hr & Haff).
  assert (b ∈ bs) as Hb by (rewrite Hx; in_list).
  destruct (held_block b Hb) as (x & Hbid & Hbx & Hown & Hrange).
  assert (b ∉ dn) as Hdn.
  { intros Hin. rewrite Hx in Hnd. by apply (NoDup_app_ne b b dn (b :: todo)); [..|in_list|]. }
  apply wp_bind, wp_read_ref; [rewrite Hlen; apply Hp|lia|].
  rewrite Hr, decide_False by (lia || done). destruct (Hbs b Hb) as [_ Hpos].
  destruct (Z.leb_spec (ref_at p b) 0); [lia|]. wp_steps. unfold write_ref. wp_steps.
  eapply wp_of_outcome; [done|]. wp_steps. split_and!; [done|simpl; by rewrite length_insert| |].
  - intros b' Hb'. rewrite ref_at_write, Hr by (rewrite ?Hlen; first [apply Hp|lia]).
    destruct (decide (b = b')) as [<-|Hne].
    + rewrite decide_True; [done|in_list].
    + repeat case_decide; set_solver.
  - intros y. rewrite elem_of_app, Haff, list_elem_of_singleton. split.
    + intros [(b' & ? & ?)| ->]; [exists b'|exists b]; (split; [in_list|done]).
    + intros (b' & [?| ->%list_elem_of_singleton]%elem_of_app & Hby); [by left; exists b'|right].
      by eapply bundle_blocks_unique.
Qed.

(** What releasing [bs] does: one reference less each, and exactly the bundles left
    without references go back to the shared allocator. *)
Record released (p' : LP) : Prop := {
  re_ref : ∀ b, 0 ≤ b → ref_at p' b = if decide (b ∈ bs) then ref_at p b - 1 else ref_at p b;
  re_kept : ∀ x, owners (allocator p') !! x = Some owner ↔
    owners (allocator p) !! x = Some owner ∧ ∃ b, b ∈ bundle_blocks x ∧ 0 < ref_at p' b;
  re_other : ∀ x, owners (allocator p) !! x ≠ Some owner →
    owners (allocator p') !! x = owners (allocator p) !! x
}.

Lemma release_inv p' (freed : list Z) :
  alloc_inv (capacity_bundles l) (allocator p') →
  length (ref_cnts p') = length (ref_cnts p) →
  (∀ b, 0 ≤ b → ref_at p' b = if decide (b ∈ bs) then ref_at p b - 1 else ref_at p b) →
  (∀ x, x ∈ freed ↔ (∃ b, b ∈ bs ∧ b ∈ bundle_blocks x) ∧
     ∀ b, b ∈ bundle_blocks x → ref_at p' b = 0) →
  (∀ x, owners (allocator p') !! x = if decide (x ∈ freed) then None else owners (allocator p) !! x) →
  logical_inv p' ∧ released p'.
Proof using Hl Hp Hbs.
  intros Ha' Hlen Hr Hfr Ho. pose proof Hp as [Ha Hrows Hnn Hheld Hused].
  assert (∀ b, 0 ≤ b → 0 ≤ ref_at p' b) as Hnn'.
  { intros b Hb. rewrite Hr by done. case_decide as Hd; [|auto]. destruct (Hbs b Hd). lia. }
  assert (∀ x b, b ∈ bundle_blocks x → 0 ≤ b) as Hbpos.
  { intros x b Hb. pose proof (bundle_blocks_inv _ _ Hb) as Hx.
    destruct (bundle_blocks_spec x Hx) as (_ & _ & _ & Hs). destruct (Hs b Hb). lia. }
  assert (∀ b, 0 ≤ b → 0 < ref_at p' b → 0 < ref_at p b) as Hmono.
  { intros b Hb. rewrite Hr by done. case_decide; lia. }
  assert (∀ x, owners (allocator p) !! x = Some owner → x ∉ freed →
    ∃ b, b ∈ bundle_blocks x ∧ 0 < ref_at p' b) as Hstill.
  { intros x Hx Hnf. destruct (Hused x Hx) as (b & Hb & Hpos).
    destruct (decide (Exists (λ b, 0 < ref_at p' b) (bundle_blocks x))) as [Hex|Hnex].
    { apply Exists_exists in Hex as (b' & ? & ?). by exists b'. }
    exfalso. apply Hnf, Hfr.
    assert (∀ b, b ∈ bundle_blocks x → ref_at p' b = 0) as Hz.
    { intros b' Hb'. specialize (Hnn' b' (Hbpos _ _ Hb')).
      destruct (decide (0 < ref_at p' b')); [|lia].
      exfalso. apply Hnex, Exists_exists. by exists b'. }
    split; [|done]. exists b. split; [|done]. specialize (Hz b Hb). rewrite Hr in Hz by eauto.
    case_decide; [done|lia]. }
  split; split.
  - done.
  - by rewrite Hlen.
  - done.
  - intros b Hb Hpos. destruct (Hheld b Hb (Hmono b Hb Hpos)) as (x & Hx & Hbx). exists x.
    split; [|done]. rewrite Ho, decide_False; [done|]. intros [_ Hz]%Hfr. specialize (Hz b Hbx). lia.
  - intros x. rewrite Ho. case_decide; [done|]. auto.
  - done.
  - intros x. rewrite Ho. case_decide as Hd.
    + split; [done|]. intros (_ & b & Hb & Hpos). apply Hfr in Hd as [_ Hz].
      specialize (Hz b Hb). lia.
    + split; [|tauto]. intros Hx. split; [done|]. auto.
  - intros x Hx. rewrite Ho. case_decide as Hd; [|done]. apply Hfr in Hd as [(b & Hb & Hbx) _].
    destruct (held_block b Hb) as (y & _ & Hby & Hy & _).
    rewrite (bundle_blocks_unique b y x) in Hy by done. done.
Qed.

Lemma wp_logical_free_blocks set_order ordered E :
  (∀ xs, NoDup (set_order xs) ∧ ∀ x, x ∈ set_order xs ↔ x ∈ xs) →
  bs = filter (.≠ 0) ordered →
  wp (logical_free_blocks set_order ordered) (λ _ p', logical_inv p' ∧ released p') E p.
Proof using Hl Hp Hbs Hnd.
  intros Hso Hord. unfold logical_free_blocks. cbv zeta. rewrite <-Hord.
  assert (wp (affected ← for_fold bs [] (λ acc b,
        c ← read_ref b;
        (if c <=? 0 then raise ValueError else mret tt) ;;
        write_ref b (c - 1) ;;
        bundle_id ← of_outcome (bundle_id_for_block l owner b);
        mret (acc ++ [bundle_id]));
      bundle_ids ← for_fold (set_order affected) [] (λ acc bundle_id,
        ids ← of_outcome (block_ids_for_bundle l owner bundle_id);
        z ← all_zero ids;
        mret (if (z : bool) then acc ++ [bundle_id] else acc));
      on_alloc (free owner bundle_ids)) (λ _ p', logical_inv p' ∧ released p') E p) as Hmain.
  { apply wp_bind. eapply wp_call; [apply wp_drop_logical_refs|].
    intros aff p1 (Ha1 & Hlen1 & Hr1 & Haff). destruct (Hso aff) as [Hnds Hins].
    assert (∀ x, x ∈ set_order aff → 1 ≤ x ≤ capacity_bundles l) as Hrng.
    { intros x (b & _ & Hb)%Hins%Haff. by eapply bundle_blocks_inv. }
    apply wp_bind. eapply wp_call; [apply wp_collect_free; [rewrite Hlen1; apply Hp|done|done]|].
    intros res p2 (-> & Hndr & Hres). unfold on_alloc. apply wp_zoom. rewrite Ha1.
    eapply wp_call; [apply (wp_free (capacity_bundles l)); [apply Hp|done|]|].
    - intros x ((b & Hb & Hbx)%Hins%Haff & _)%Hres.
      destruct (held_block b Hb) as (y & _ & Hby & Hy & _).
      by rewrite (bundle_blocks_unique b x y).
    - intros [] a' [Ha' Ho']. apply (release_inv _ res); try done.
      intros x. rewrite Hres, Hins, Haff. done. }
  destruct bs as [|b bs'] eqn:Ebs; [|done].
  apply wp_ret. split; [done|]. split; [|intros x|done].
  - intros b _. rewrite decide_False; [done|]. rewrite Ebs. apply not_elem_of_nil.
  - split; [|tauto]. intros Hx. split; [done|]. by apply Hp.
Qed.
End release.
End logical.

(** ** Properties *)

(** a logical pool allocates whole bundles. When the shared allocator has room,
    [get_new_blocks n] returns every block of ceil(n / blocks per bundle) bundles that
    nobody owned, each block once and with one reference, at least [n] of them; bundles
    of the other owner are untouched and the invariant holds again. Without room it
    raises [ValueError] and changes nothing. *)
Theorem dsa_logical_alloc_spec l owner p n :
  layout_ok l → logical_inv l owner p → 0 ≤ n →
  if decide (n ≤ logical_num_free_blocks l owner p) then
    ∃ bundles p', logical_get_new_blocks l owner n p
        = (Ret (Some (bundles ≫= bundle_blocks l owner)), p') ∧
      n ≤ Z.of_nat (length (bundles ≫= bundle_blocks l owner)) ∧
      NoDup (bundles ≫= bundle_blocks l owner) ∧
      allocated (allocator p) owner bundles (allocator p') ∧ logical_inv l owner p' ∧
      ∀ b, 0 ≤ b → ref_at p' b = if decide (b ∈ bundles ≫= bundle_blocks l owner) then 1 else ref_at p b
  else logical_get_new_blocks l owner n p = (Raise ValueError, p).
Proof.
  intros Hl Hp Hn. case_decide as Hle; [|apply logical_get_new_blocks_full; lia].
  destruct (wp_run _ _ _ (wp_logical_get_new_blocks l owner Hl p n noexc Hp (conj Hn Hle)))
    as (res & p' & Hrun & bundles & -> & Hlen & Hal & Hp' & Hnd & Hr).
  exists bundles, p'. split_and!; try done.
  rewrite (length_bind_blocks l owner Hl), Hlen.
  - pose proof (bundle_count_spec l owner Hl n Hn) as Hk. cbv zeta in Hk. lia.
  - intros b Hb. apply (ai_owned _ _ (li_alloc _ _ _ Hp') b owner).
    by rewrite (al_owner _ _ _ _ Hal), decide_True.
Qed.

(** releasing blocks gives back one reference each, and a bundle returns to the
    shared allocator exactly when none of its blocks is referenced any more, in whatever
    order the set of affected bundles is iterated over. *)
Theorem dsa_logical_free_spec l owner set_order p ordered :
  layout_ok l → logical_inv l owner p →
  (∀ xs, NoDup (set_order xs) ∧ ∀ x, x ∈ set_order xs ↔ x ∈ xs) →
  NoDup (filter (.≠ 0) ordered) →
  (∀ b, b ∈ ordered → b ≠ 0 → 0 < b ∧ 0 < ref_at p b) →
  ∃ p', logical_free_blocks l owner set_order ordered p = (Ret tt, p') ∧
    logical_inv l owner p' ∧ released l owner p (filter (.≠ 0) ordered) p'.
Proof.
  intros Hl Hp Hso Hnd Hb.
  destruct (wp_run _ _ _ (wp_logical_free_blocks l owner Hl p Hp (filter (.≠ 0) ordered) Hnd
    ltac:(intros b [? ?]%list_elem_of_filter; auto) set_order ordered noexc Hso eq_refl))
    as ([] & p' & ? & ? & ?).
  by exists p'.
Qed.

Definition sample_logical : LP := logical_init sample_layout LATENT (alloc_init sample_layout).

Lemma sample_logical_inv : logical_inv sample_layout LATENT sample_logical.
Proof.
  apply logical_init_inv; [apply sample_layout_ok|apply alloc_init_inv; simpl; lia|].
  intros bundle. simpl. by rewrite lookup_empty.
Qed.

Lemma dsa_logical_alloc_spec_witness :
  ∃ bundles p', logical_get_new_blocks sample_layout LATENT 3 sample_logical
    = (Ret (Some (bundles ≫= bundle_blocks sample_layout LATENT)), p').
Proof.
  destruct (dsa_logical_alloc_spec sample_layout LATENT sample_logical 3 sample_layout_ok
    sample_logical_inv ltac:(lia)) as (bundles & p' & H & _).
  exists bundles, p'. exact H.
Defined.

(** Blocks 2 to 5 (bundles 1 and 2) held. *)
Definition held_logical : LP := (logical_get_new_blocks sample_layout LATENT 3 sample_logical).2.

Lemma held_logical_inv : logical_inv sample_layout LATENT held_logical.
Proof.
  destruct (wp_run _ _ _ (wp_logical_get_new_blocks sample_layout LATENT sample_layout_ok
    sample_logical 3 noexc sample_logical_inv ltac:(vm_compute; split; discriminate)))
    as (res & p' & Hrun & bundles & _ & _ & _ & Hp' & _).
  unfold held_logical. rewrite Hrun. exact Hp'.
Qed.

Lemma remove_dups_order (xs : list Z) : NoDup (remove_dups xs) ∧ ∀ x, x ∈ remove_dups xs ↔ x ∈ xs.
Proof. split; [apply NoDup_remove_dups|intros x; apply elem_of_remove_dups]. Qed.

Lemma dsa_logical_free_spec_witness :
  ∃ p', logical_free_blocks sample_layout LATENT remove_dups [2; 0; 4; 3] held_logical = (Ret tt, p') ∧
    logical_inv sample_layout LATENT p'.
Proof.
  destruct (dsa_logical_free_spec sample_layout LATENT remove_dups held_logical [2; 0; 4; 3])
    as (p' & H & Hp & _).
  - apply sample_layout_ok.
  - apply held_logical_inv.
  - apply remove_dups_order.
  - apply (bool_decide_unpack _). vm_compute. done.
  - intros b Hb Hne. rewrite !elem_of_cons, elem_of_nil in Hb.
    destruct Hb as [->|[->|[->|[->|[]]]]]; try done; (split; [lia|vm_compute; reflexivity]).
  - exists p'. split; [exact H|exact Hp].
Defined.
