(* ===== verification/BlockHash.v ===== *)
(** Block hashing in src/vllm/v1/core/kv_cache_utils.py: keys that pack a group id, the extra
    keys of multi-modal inputs, LoRA and salts, the hash chain of a request over a hash function
    that is a parameter, and the coarser hashes of [BlockHashListWithBlockSize]. *)
From S2P Require Import Prelude.
From S2P Require Import Request.
Local Open Scope Z_scope.

(** ** Keys that carry a group id *)

(** [i.to_bytes(n, "big", signed=False)] on an [i] that fits. *)
Fixpoint to_bytes_be (n : nat) (i : Z) : bytes :=
  match n with
  | O => []
  | S n' => to_bytes_be n' (i / 256) ++ [i mod 256]
  end.

(** [int.from_bytes(b, "big", signed=False)]. *)
Definition from_bytes_be (b : bytes) : Z := foldl (λ acc x, acc * 256 + x) 0 b.

(** [make_block_hash_with_group_id]; [to_bytes] raises [OverflowError] when the id
    does not fit in four bytes. *)
Definition make_block_hash_with_group_id (block_hash : bytes) (group_id : Z) : outcome bytes :=
  if decide (0 ≤ group_id < 2 ^ 32)
  then Ret (block_hash ++ to_bytes_be 4 group_id) else Raise OverflowError.

(** [get_block_hash]: [key[:-4]]. *)
Definition get_block_hash (key : bytes) : bytes := py_slice key 0 (-4).

(** [get_group_id]: the last four bytes, [key[-4:]]. *)
Definition get_group_id (key : bytes) : Z :=
  from_bytes_be (py_slice key (-4) (Z.of_nat (length key))).

(** [ExternalBlockHash = bytes | int]. *)
Inductive ExternalBlockHash := HashBytes (b : bytes) | HashInt (i : Z).

(** [maybe_convert_block_hash]; [use_int] is [VLLM_KV_EVENTS_USE_INT_BLOCK_HASHES]. *)
Definition maybe_convert_block_hash (use_int : bool) (hash_bytes : bytes) : ExternalBlockHash :=
  if negb use_int then HashBytes hash_bytes
  else HashInt (Z.land (from_bytes_be hash_bytes) (Z.shiftl 1 64 - 1)).

(** ** Extra keys *)

Inductive extra_key := KeyStr (s : string) | KeyBytes (b : bytes).

#[global] Instance extra_key_eq_dec : EqDecision extra_key.
Proof. solve_decision. Defined.

#[global] Instance extra_key_countable : Countable extra_key.
Proof.
  refine (inj_countable'
    (λ k, match k with KeyStr s => inl s | KeyBytes b => inr b end)
    (λ x, match x with inl s => KeyStr s | inr b => KeyBytes b end) _).
  by intros [].
Defined.

(** [need_extra_keys]. *)
Definition need_extra_keys (r : Request) : bool :=
  match mm_features r with [] => false | _ => true end
  || bool_decide (is_Some (lora_request r))
  || bool_decide (is_Some (cache_salt r)).

(** The [while] loop of [_gen_mm_extra_hash_keys] over the inputs from index [curr]. *)
Fixpoint mm_loop (start_token_idx end_token_idx : Z) (fs : list MMFeature) (curr : Z)
    (extra_keys : list extra_key) : M Request (list extra_key * Z) :=
  match fs with
  | [] => mret (extra_keys, curr)
  | f :: fs' =>
      ident ← from_option_raise AssertionError (identifier f);
      if mm_offset f <? end_token_idx then
        if mm_offset f + mm_length f <? start_token_idx then
          mm_loop start_token_idx end_token_idx fs' (curr + 1) extra_keys
        else
          let extra_keys' := extra_keys ++ [KeyStr ident] in
          if mm_offset f + mm_length f <=? end_token_idx then
            mm_loop start_token_idx end_token_idx fs' (curr + 1) extra_keys'
          else mret (extra_keys', curr)
      else mret (extra_keys, curr)
  end.

(** [_gen_mm_extra_hash_keys]. *)
Definition gen_mm_extra_hash_keys (start_token_idx end_token_idx start_mm_idx : Z) :
    M Request (list extra_key * Z) :=
  fs ← gets mm_features;
  match last fs with
  | None => mret ([], start_mm_idx)
  | Some last_feature =>
      if mm_offset last_feature + mm_length last_feature <? start_token_idx then
        mret ([], start_mm_idx)
      else
        start ← (if start_mm_idx <? 0 then
                   py_assert (- start_mm_idx <=? Z.of_nat (length fs)) ;;
                   mret (Z.of_nat (length fs) + start_mm_idx)
                 else mret start_mm_idx);
        mm_loop start_token_idx end_token_idx (drop (Z.to_nat start) fs) start []
  end.

(** [_gen_lora_extra_hash_keys]. *)
Definition gen_lora_extra_hash_keys (r : Request) : list extra_key :=
  match lora_request r with None => [] | Some l => [KeyStr (lora_name l)] end.

(** [_gen_prompt_embeds_extra_hash_keys]: the digest of a slice is computed once and
    memoised on the request. *)
Definition gen_prompt_embeds_extra_hash_keys (start_token_idx end_token_idx : Z) :
    M Request (list extra_key) :=
  embeds ← gets prompt_embeds;
  match embeds with
  | None => mret []
  | Some digest =>
      cache ← gets embeds_hash_cache;
      match cache !! (start_token_idx, end_token_idx) with
      | Some h => mret [KeyBytes h]
      | None =>
          let h := digest start_token_idx end_token_idx in
          modify (set_embeds_cache (<[(start_token_idx, end_token_idx) := h]> cache)) ;;
          mret [KeyBytes h]
      end
  end.

(** [generate_block_hash_extra_keys]; an empty salt is falsy. *)
Definition generate_block_hash_extra_keys (start_token_idx end_token_idx start_mm_idx : Z) :
    M Request (option (list extra_key) * Z) :=
  '(mm_extra_keys, new_start_mm_idx) ←
    gen_mm_extra_hash_keys start_token_idx end_token_idx start_mm_idx;
  lora_extra_keys ← gets gen_lora_extra_hash_keys;
  salt ← gets cache_salt;
  let cache_salt_keys :=
    match salt with
    | Some s => if (start_token_idx =? 0) && negb (String.eqb s EmptyString)
                then [KeyStr s] else []
    | None => []
    end in
  prompt_embeds_keys ← gen_prompt_embeds_extra_hash_keys start_token_idx end_token_idx;
  let extra_keys := lora_extra_keys ++ mm_extra_keys ++ cache_salt_keys ++ prompt_embeds_keys in
  mret (match extra_keys with [] => None | _ => Some extra_keys end, new_start_mm_idx).

(** ** Block hashes *)

Section hasher.
(** The hash function the engine was configured with ([sha256], [xxhash], ...) and
    the module-level [NONE_HASH] that [init_none_hash] set. *)
Context (hash_function : bytes * list Z * option (list extra_key) → bytes).
Context (NONE_HASH : bytes).

(** [hash_block_tokens]; [None] and the empty byte string are falsy. *)
Definition hash_block_tokens (parent_block_hash : option bytes) (curr_block_token_ids : list Z)
    (extra_keys : option (list extra_key)) : bytes :=
  let parent := match parent_block_hash with
                | None | Some [] => NONE_HASH
                | Some h => h
                end in
  hash_function (parent, curr_block_token_ids, extra_keys).

(** The [while True] loop of [request_block_hasher]; [None] when [fuel] rounds were
    not enough. *)
Fixpoint hasher_loop (fuel : nat) (block_size start_token_idx curr_mm_idx : Z)
    (prev_block_hash_value : option bytes) (new_block_hashes : list bytes) :
    M Request (option (list bytes)) :=
  match fuel with
  | O => mret None
  | S fuel' =>
      n ← gets num_tokens;
      let end_token_idx := start_token_idx + block_size in
      if n <? end_token_idx then mret (Some new_block_hashes)
      else
        '(extra_keys, curr_mm_idx') ←
          generate_block_hash_extra_keys start_token_idx end_token_idx curr_mm_idx;
        tokens ← gets all_token_ids;
        let block_hash :=
          hash_block_tokens prev_block_hash_value
            (py_slice tokens start_token_idx end_token_idx) extra_keys in
        hasher_loop fuel' block_size (start_token_idx + block_size) curr_mm_idx'
          (Some block_hash) (new_block_hashes ++ [block_hash])
  end.

(** Rounds of the loop that suffice: one per token and one to stop. *)
Definition hasher_fuel (r : Request) : nat := S (length (all_token_ids r)).

(** The closure [get_request_block_hasher] returns. *)
Definition request_block_hasher (block_size : Z) : M Request (option (list bytes)) :=
  hs ← gets block_hashes;
  n ← gets num_tokens;
  let start_token_idx := Z.of_nat (length hs) * block_size in
  if n <? start_token_idx + block_size then mret (Some [])
  else
    let curr_mm_idx := if 0 <? start_token_idx then -1 else 0 in
    fuel ← gets hasher_fuel;
    hasher_loop fuel block_size start_token_idx curr_mm_idx (last hs) [].

(** [Request.update_block_hashes]: [block_size] is [None] when the request has no
    block hasher. *)
Definition update_block_hashes (block_size : option Z) : M Request bool :=
  match block_size with
  | None => mret true
  | Some bs =>
      o ← request_block_hasher bs;
      match o with
      | Some new => modify (λ r, set_hashes (block_hashes r ++ new) r) ;; mret true
      | None => mret false
      end
  end.

(** [Request.append_output_token_ids]. *)
Definition append_output_token_ids (block_size : option Z) (token_ids : list Z) : M Request bool :=
  modify (λ r, set_tokens (output_token_ids r ++ token_ids) (all_token_ids r ++ token_ids) r) ;;
  update_block_hashes block_size.

End hasher.

(** ** A coarser granularity *)

(** [BlockHashListWithBlockSize._get_value_at]: the concatenation of [scale_factor]
    consecutive hashes; [None] where an index is out of range. *)
Fixpoint concat_hashes (hs : list bytes) (i : Z) (k : nat) : option bytes :=
  match k with
  | O => Some []
  | S k' => h ← py_get hs i; t ← concat_hashes hs (i + 1) k'; Some (h ++ t)
  end.

Definition get_value_at (hs : list bytes) (scale_factor idx : Z) : option bytes :=
  let base := idx * scale_factor in
  h ← py_get hs base;
  t ← concat_hashes hs (base + 1) (Z.to_nat (scale_factor - 1));
  Some (h ++ t).

(** [BlockHashListWithBlockSize.__len__]. *)
Definition scaled_len (hs : list bytes) (scale_factor : Z) : Z :=
  Z.of_nat (length hs) / scale_factor.

(** [BlockHashListWithBlockSize.__iter__] as a list. *)
Definition scaled_hashes (hs : list bytes) (scale_factor : Z) : option (list bytes) :=
  mapM (get_value_at hs scale_factor) (py_range 0 (scaled_len hs scale_factor)).

(** [BlockHashList = list[BlockHash] | BlockHashListWithBlockSize]. *)
Inductive BlockHashList :=
  | PlainHashes (hs : list bytes)
  | ScaledHashes (hs : list bytes) (scale_factor : Z).

(** [len(block_hashes)]. *)
Definition hl_len (l : BlockHashList) : Z :=
  match l with
  | PlainHashes hs => Z.of_nat (length hs)
  | ScaledHashes hs f => scaled_len hs f
  end.

(** [block_hashes[i]]; [None] where it raises [IndexError]. *)
Definition hl_get (l : BlockHashList) (i : Z) : option bytes :=
  match l with
  | PlainHashes hs => py_get hs i
  | ScaledHashes hs f => get_value_at hs f i
  end.

(** [block_hashes[start:]]. *)
Definition hl_from (l : BlockHashList) (start : Z) : option (list bytes) :=
  match l with
  | PlainHashes hs => Some (py_slice hs start (Z.of_nat (length hs)))
  | ScaledHashes hs f =>
      let n := scaled_len hs f in
      mapM (get_value_at hs f) (py_range (py_bound n start) n)
  end.

(** ** The coarser granularity concatenates hashes *)

Lemma py_get_nonneg {A} (l : list A) i : 0 ≤ i → py_get l i = l !! Z.to_nat i.
Proof. intros. unfold py_get. by rewrite decide_True. Qed.

Lemma concat_hashes_spec hs i k :
  0 ≤ i → (Z.to_nat i + k ≤ length hs)%nat →
  concat_hashes hs i k = Some (concat (take k (drop (Z.to_nat i) hs))).
Proof.
  revert i. induction k as [|k IH]; intros i Hi Hk; [done|]. simpl.
  destruct (lookup_lt_is_Some_2 hs (Z.to_nat i)) as [h Hh]; [lia|].
  rewrite py_get_nonneg, Hh by done. simpl. rewrite IH by lia. simpl.
  rewrite (drop_S hs h (Z.to_nat i)) by done. simpl. by replace (Z.to_nat (i + 1)) with (S (Z.to_nat i)) by lia.
Qed.

Lemma get_value_at_spec hs f idx :
  0 < f → 0 ≤ idx < scaled_len hs f →
  get_value_at hs f idx = Some (concat (py_slice hs (idx * f) (idx * f + f))).
Proof.
  intros Hf [Hi Hlt]. unfold scaled_len in Hlt.
  assert ((idx + 1) * f ≤ Z.of_nat (length hs)) as Hlen.
  { pose proof (Z.mul_div_le (Z.of_nat (length hs)) f Hf). nia. }
  rewrite py_slice_nonneg by nia. unfold get_value_at.
  destruct (lookup_lt_is_Some_2 hs (Z.to_nat (idx * f))) as [h Hh]; [nia|].
  rewrite py_get_nonneg, Hh by nia. simpl. rewrite concat_hashes_spec by nia. simpl.
  rewrite (drop_S hs h (Z.to_nat (idx * f))) by done.
  replace (Z.to_nat (idx * f + f - idx * f)) with (S (Z.to_nat (f - 1))) by lia. simpl.
  by replace (Z.to_nat (idx * f + 1)) with (S (Z.to_nat (idx * f))) by nia.
Qed.

(** A granularity [select_hashes] can produce. *)
Definition hl_valid (l : BlockHashList) : Prop :=
  match l with PlainHashes _ => True | ScaledHashes _ f => 0 < f end.

Lemma hl_get_in l i : hl_valid l → 0 ≤ i < hl_len l → is_Some (hl_get l i).
Proof.
  destruct l as [hs|hs f]; simpl; intros Hv Hi.
  - rewrite py_get_nonneg by lia. apply lookup_lt_is_Some. lia.
  - rewrite get_value_at_spec by done. by eexists.
Qed.

Lemma hl_from_spec l start :
  hl_valid l → 0 ≤ start ≤ hl_len l →
  ∃ hs, hl_from l start = Some hs ∧ Z.of_nat (length hs) = hl_len l - start ∧
    ∀ j, (j < length hs)%nat → hs !! j = hl_get l (start + Z.of_nat j).
Proof.
  destruct l as [hs|hs f]; simpl; intros Hv Hs.
  - exists (drop (Z.to_nat start) hs). rewrite py_slice_nonneg by lia.
    rewrite take_ge by (rewrite length_drop; lia). split_and!; [done|rewrite length_drop; lia|].
    intros j _. rewrite lookup_drop, py_get_nonneg by lia. f_equal. lia.
  - unfold py_bound. rewrite decide_False, Z.min_l by lia.
    assert (is_Some (mapM (get_value_at hs f) (py_range start (scaled_len hs f)))) as [r Hr].
    { apply mapM_is_Some, Forall_forall. intros i Hi%elem_of_py_range.
      change (is_Some (get_value_at hs f i)).
      rewrite get_value_at_spec by (try done; lia). by eexists. }
    exists r. apply mapM_Some in Hr as Hall.
    pose proof (Forall2_length _ _ _ Hall) as Hlen. rewrite length_py_range in Hlen.
    split_and!; [done|lia|]. intros j Hj. destruct (lookup_lt_is_Some_2 r j Hj) as [h Hh].
    destruct (Forall2_lookup_r _ _ _ _ _ Hall Hh) as (i & Hi & Heq). rewrite Hh, <-Heq.
    unfold py_range in Hi. apply list_lookup_fmap_Some in Hi as (k & -> & Hk).
    apply lookup_seq in Hk as [-> _]. done.
Qed.

(** ** Key packing *)

Lemma length_to_bytes_be n i : length (to_bytes_be n i) = n.
Proof. revert i. induction n as [|n IH]; intros i; simpl; [done|]. rewrite length_app, IH. simpl. lia. Qed.

Lemma from_to_bytes_be n i :
  from_bytes_be (to_bytes_be n i) = i mod 256 ^ Z.of_nat n.
Proof.
  unfold from_bytes_be. revert i. induction n as [|n IH]; intros i; simpl.
  { by rewrite Z.mod_1_r. }
  rewrite foldl_app, IH. simpl. rewrite Nat2Z.inj_succ, Z.pow_succ_r by lia.
  rewrite (Z.rem_mul_r i 256 (256 ^ Z.of_nat n)) by lia. lia.
Qed.

Lemma get_block_hash_app h t : length t = 4%nat → get_block_hash (h ++ t) = h.
Proof.
  intros Ht. unfold get_block_hash, py_slice, py_bound. rewrite length_app, Ht.
  rewrite (decide_False (P := 0 < 0)), decide_True by lia. rewrite Z.min_l by lia.
  rewrite drop_0, take_app_le by lia. apply take_ge. lia.
Qed.

Lemma get_group_id_app h t : length t = 4%nat → get_group_id (h ++ t) = from_bytes_be t.
Proof.
  intros Ht. unfold get_group_id, py_slice, py_bound. rewrite length_app, Ht.
  rewrite decide_False, decide_True by lia. f_equal.
  rewrite Z.min_l by lia. rewrite drop_app_ge by lia.
  replace (Z.to_nat _ - length h)%nat with 0%nat by lia. rewrite drop_0. apply take_ge. lia.
Qed.

Lemma make_key_decode h g k :
  make_block_hash_with_group_id h g = Ret k → get_block_hash k = h ∧ get_group_id k = g.
Proof.
  unfold make_block_hash_with_group_id. case_decide; [|done]. intros [= <-].
  change [_; _; _; _] with (to_bytes_be 4 g).
  rewrite get_block_hash_app, get_group_id_app, from_to_bytes_be by apply length_to_bytes_be.
  split; [done|]. apply Z.mod_small. simpl. lia.
Qed.

Lemma make_key_inj h g h' g' k :
  make_block_hash_with_group_id h g = Ret k →
  make_block_hash_with_group_id h' g' = Ret k → h = h' ∧ g = g'.
Proof. intros [<- <-]%make_key_decode [<- <-]%make_key_decode. done. Qed.

(** ** The hash chain of a text request *)

Section chain.
Context (hash_function : bytes * list Z * option (list extra_key) → bytes).
Context (NONE_HASH : bytes).
Context (bs : Z) (bs_pos : 0 < bs).

(** The extra keys of a block, without the memo table. *)
Definition text_keys (r : Request) (start_token_idx end_token_idx : Z) : option (list extra_key) :=
  let salt := match cache_salt r with
              | Some s => if (start_token_idx =? 0) && negb (String.eqb s EmptyString)
                          then [KeyStr s] else []
              | None => []
              end in
  let embeds := match prompt_embeds r with
                | Some digest => [KeyBytes (digest start_token_idx end_token_idx)]
                | None => []
                end in
  let ks := gen_lora_extra_hash_keys r ++ salt ++ embeds in
  match ks with [] => None | _ => Some ks end.

Definition block_tokens (r : Request) (i : nat) : list Z :=
  py_slice (all_token_ids r) (Z.of_nat i * bs) (Z.of_nat i * bs + bs).
Definition block_keys (r : Request) (i : nat) : option (list extra_key) :=
  text_keys r (Z.of_nat i * bs) (Z.of_nat i * bs + bs).

(** The hash of block [i], by recursion on its ancestors. *)
Fixpoint block_hash_at (r : Request) (i : nat) : bytes :=
  hash_block_tokens hash_function NONE_HASH
    (match i with O => None | S i' => Some (block_hash_at r i') end)
    (block_tokens r i) (block_keys r i).

Definition num_full_blocks (r : Request) : nat := Z.to_nat (num_tokens r / bs).

Lemma num_full_blocks_spec r :
  Z.of_nat (num_full_blocks r) * bs ≤ num_tokens r < (Z.of_nat (num_full_blocks r) + 1) * bs.
Proof using bs_pos.
  unfold num_full_blocks. assert (0 ≤ num_tokens r) by (unfold num_tokens; lia).
  rewrite Z2Nat.id by (apply Z.div_pos; lia).
  pose proof (Z.div_mod (num_tokens r) bs). pose proof (Z.mod_pos_bound (num_tokens r) bs). nia.
Qed.

(** The hashes a request carries: one for each full block. *)
Definition hashes_ok (r : Request) : Prop :=
  block_hashes r = block_hash_at r <$> seq 0 (num_full_blocks r).

(** The memo table agrees with the digests. *)
Definition memo_ok (r : Request) : Prop :=
  ∀ a b h, embeds_hash_cache r !! (a, b) = Some h →
    ∃ digest, prompt_embeds r = Some digest ∧ h = digest a b.

Lemma length_hashes_ok r : hashes_ok r → Z.of_nat (length (block_hashes r)) = num_tokens r / bs.
Proof using bs_pos.
  intros ->. rewrite length_fmap, length_seq. unfold num_full_blocks. apply Z2Nat.id, Z.div_pos; [unfold num_tokens|]; lia.
Qed.

Lemma hashes_ok_lookup r i h : hashes_ok r → block_hashes r !! i = Some h → h = block_hash_at r i ∧ (S i ≤ num_full_blocks r)%nat.
Proof. intros -> (a & -> & [-> ?]%lookup_seq)%list_lookup_fmap_Some. split; [done|lia]. Qed.

Lemma block_hash_at_cache r c i : block_hash_at (set_embeds_cache c r) i = block_hash_at r i.
Proof. induction i as [|i IH]; simpl; [done|by rewrite IH]. Qed.

Lemma block_hash_at_hashes r hs i : block_hash_at (set_hashes hs r) i = block_hash_at r i.
Proof. induction i as [|i IH]; simpl; [done|by rewrite IH]. Qed.

Lemma wp_generate_keys_text r a b mm E :
  mm_features r = [] → memo_ok r →
  wp (generate_block_hash_extra_keys a b mm)
    (λ res r', res = (text_keys r a b, mm) ∧ ∃ c, r' = set_embeds_cache c r ∧ memo_ok r') E r.
Proof.
  intros Hmm Hc. unfold generate_block_hash_extra_keys, gen_mm_extra_hash_keys,
    gen_prompt_embeds_extra_hash_keys. wp_steps. rewrite Hmm. simpl. wp_steps.
  assert (r = set_embeds_cache (embeds_hash_cache r) r) as Hr by by destruct r.
  destruct (prompt_embeds r) as [digest|] eqn:Ee; wp_steps.
  - destruct (embeds_hash_cache r !! (a, b)) as [h|] eqn:El; wp_steps.
    + destruct (Hc _ _ _ El) as (d & Hd & ->). simplify_eq.
      unfold text_keys. rewrite Ee. split; [done|]. by exists (embeds_hash_cache r).
    + unfold text_keys. rewrite Ee. split; [done|]. eexists. split; [done|].
      intros a' b' h' Hl. simpl in *. rewrite lookup_insert in Hl.
      case_decide; simplify_eq; [by exists digest|]. by apply Hc.
  - unfold text_keys. rewrite Ee. split; [done|]. by exists (embeds_hash_cache r).
Qed.

Lemma wp_hasher_loop r i k fuel mm acc E :
  mm_features r = [] → memo_ok r →
  num_full_blocks r = (i + k)%nat → (k < fuel)%nat →
  wp (hasher_loop hash_function NONE_HASH fuel bs (Z.of_nat i * bs) mm
        (match i with O => None | S i' => Some (block_hash_at r i') end) acc)
    (λ res r', res = Some (acc ++ (block_hash_at r <$> seq i k)) ∧
       ∃ c, r' = set_embeds_cache c r ∧ memo_ok r') E r.
Proof.
  revert r i fuel mm acc. induction k as [|k IH]; intros r i [|fuel] mm acc Hmm Hc Hn Hf; try lia;
    simpl; pose proof (num_full_blocks_spec r) as Hspec; rewrite Hn in Hspec.
  - apply wp_bind, wp_gets. destruct (Z.ltb_spec (num_tokens r) (Z.of_nat i * bs + bs)); [|nia].
    apply wp_ret. rewrite app_nil_r. split; [done|]. exists (embeds_hash_cache r). by destruct r.
  - apply wp_bind, wp_gets. destruct (Z.ltb_spec (num_tokens r) (Z.of_nat i * bs + bs)); [nia|].
    apply wp_bind. eapply wp_mono; [by apply wp_generate_keys_text| |done].
    intros [keys mm'] r1 ([= -> ->] & c1 & -> & Hc1). apply wp_bind, wp_gets. simpl.
    set (h := hash_block_tokens _ _ _ _ _).
    assert (h = block_hash_at r i) as -> by by destruct i.
    replace (Z.of_nat i * bs + bs) with (Z.of_nat (S i) * bs) by lia.
    eapply wp_mono; [|intros ? ? H'; exact H'|done].
    rewrite <-(block_hash_at_cache r c1 i).
    eapply wp_mono; [apply (IH (set_embeds_cache c1 r) (S i)); [done|done| |lia]| |done].
    { change (num_full_blocks (set_embeds_cache c1 r)) with (num_full_blocks r). lia. }
    intros res r2 (-> & c2 & -> & Hc2). rewrite <-app_assoc. simpl.
    split; [|by exists c2]. rewrite ?block_hash_at_cache. do 3 f_equal.
    apply list_fmap_ext. intros ???. apply block_hash_at_cache.
Qed.

(** One round of [update_block_hashes] brings any correct prefix of the hash list up
    to date. *)
Lemma wp_update_block_hashes r m E :
  mm_features r = [] → memo_ok r →
  block_hashes r = block_hash_at r <$> seq 0 m → (m ≤ num_full_blocks r)%nat →
  wp (update_block_hashes hash_function NONE_HASH (Some bs))
    (λ ok r', ok = true ∧ hashes_ok r' ∧ memo_ok r' ∧ mm_features r' = [] ∧
       ∃ hs c, r' = set_hashes hs (set_embeds_cache c r)) E r.
Proof.
  intros Hmm Hc Hh Hm. unfold update_block_hashes, request_block_hasher. wp_steps.
  assert (length (block_hashes r) = m) as Hlen by by rewrite Hh, length_fmap, length_seq.
  rewrite Hlen.
  destruct (Z.ltb_spec (num_tokens r) (Z.of_nat m * bs + bs)) as [Hlt|Hge].
  - wp_steps. rewrite app_nil_r. split_and!; try done; [|exists (block_hashes r), (embeds_hash_cache r); by destruct r].
    pose proof (num_full_blocks_spec r). assert (m = num_full_blocks r) as -> by nia.
    unfold hashes_ok. simpl. rewrite Hh. apply list_fmap_ext. intros ???.
    by rewrite block_hash_at_hashes.
  - wp_steps.
    assert (last (block_hashes r) =
      match m with O => None | S i' => Some (block_hash_at r i') end) as ->.
    { rewrite Hh. clear. destruct m as [|m]; [done|]. rewrite seq_S, fmap_app. simpl. apply last_snoc. }
    eapply wp_mono; [eapply (wp_hasher_loop r m (num_full_blocks r - m)); try done; [lia|]| |done].
    + pose proof (num_full_blocks_spec r). unfold hasher_fuel, num_tokens in *. nia.
    + intros res r' (-> & c & -> & Hc'). wp_steps. split_and!; try done; [|by eexists _, c].
      unfold hashes_ok. simpl. rewrite Hh, <-fmap_app, <-seq_app.
      replace (m + (num_full_blocks r - m))%nat with (num_full_blocks r) by lia.
      apply list_fmap_ext. intros ???. symmetry.
      rewrite block_hash_at_hashes. apply (block_hash_at_cache r c).
Qed.

(** Appending tokens does not change the blocks that were already full. *)
Lemma block_hash_at_append r out new i :
  (i < num_full_blocks r)%nat →
  block_hash_at (set_tokens out (all_token_ids r ++ new) r) i = block_hash_at r i.
Proof using bs_pos.
  intros Hi. pose proof (num_full_blocks_spec r) as Hs. unfold num_tokens in Hs.
  assert (∀ j, (j < num_full_blocks r)%nat →
    block_tokens (set_tokens out (all_token_ids r ++ new) r) j = block_tokens r j) as Hb.
  { intros j Hj. unfold block_tokens. simpl. apply py_slice_app_l; nia. }
  induction i as [|i IH]; simpl; [|rewrite IH by lia]; by rewrite Hb by lia.
Qed.

Lemma wp_append_output_token_ids r new E :
  mm_features r = [] → memo_ok r → hashes_ok r →
  wp (append_output_token_ids hash_function NONE_HASH (Some bs) new)
    (λ ok r', ok = true ∧ hashes_ok r' ∧ memo_ok r' ∧ mm_features r' = [] ∧
       ∃ hs c, r' = set_hashes hs (set_embeds_cache c
         (set_tokens (output_token_ids r ++ new) (all_token_ids r ++ new) r))) E r.
Proof using bs_pos.
  intros Hmm Hc Hh. unfold append_output_token_ids. apply wp_bind, wp_modify.
  eapply wp_mono; [apply (wp_update_block_hashes _ (num_full_blocks r)); [done|done|..]|done..].
  - simpl. rewrite Hh. apply list_fmap_ext. intros i x Hx. apply lookup_seq in Hx.
    rewrite block_hash_at_append; [done|lia].
  - unfold num_full_blocks, num_tokens. simpl. rewrite length_app.
    apply Z2Nat.inj_le; [apply Z.div_pos; lia..|]. apply Z.div_le_mono; lia.
Qed.

(** ** What a hash determines *)

(** A hash function without collisions, whose digests are neither empty nor the seed
    of the first block. *)
Record collision_free : Prop := {
  cf_inj : Inj (=) (=) hash_function;
  cf_nonempty : ∀ x, hash_function x ≠ [];
  cf_seed : ∀ x, hash_function x ≠ NONE_HASH
}.

Lemma block_hash_at_inj r1 r2 i j :
  collision_free →
  block_hash_at r1 i = block_hash_at r2 j →
  i = j ∧ ∀ k, (k ≤ i)%nat →
    block_tokens r1 k = block_tokens r2 k ∧ block_keys r1 k = block_keys r2 k.
Proof.
  intros [Hinj Hne Hseed]. revert j. induction i as [|i IH]; intros [|j]; simpl;
    unfold hash_block_tokens; intros Heq%Hinj.
  - simplify_eq. split; [done|]. intros k Hk. by assert (k = 0%nat) as -> by lia.
  - assert (∃ x, block_hash_at r2 j = hash_function x) as [x Hx] by (destruct j; by eexists).
    rewrite Hx in Heq. pose proof (Hne x). pose proof (Hseed x).
    destruct (hash_function x); simplify_eq.
  - assert (∃ x, block_hash_at r1 i = hash_function x) as [x Hx] by (destruct i; by eexists).
    rewrite Hx in Heq. pose proof (Hne x). pose proof (Hseed x).
    destruct (hash_function x); simplify_eq.
  - assert (∃ x, block_hash_at r1 i = hash_function x) as [x Hx] by (destruct i; by eexists).
    assert (∃ y, block_hash_at r2 j = hash_function y) as [y Hy] by (destruct j; by eexists).
    assert (block_hash_at r1 i = block_hash_at r2 j ∧
      block_tokens r1 (S i) = block_tokens r2 (S j) ∧
      block_keys r1 (S i) = block_keys r2 (S j)) as (Hp & Ht & Hk).
    { pose proof (Hne x). pose proof (Hne y). rewrite Hx, Hy in *.
      destruct (hash_function x), (hash_function y); by simplify_eq. }
    destruct (IH j Hp) as [-> Hrest]. split; [done|]. intros k Hk'.
    destruct (decide (k = S j)) as [->|]; [done|]. apply Hrest. lia.
Qed.

(** Full blocks tile the token list. *)
Lemma blocks_prefix r n :
  (n ≤ num_full_blocks r)%nat →
  take (n * Z.to_nat bs) (all_token_ids r) = concat (block_tokens r <$> seq 0 n).
Proof using bs_pos.
  intros Hn. pose proof (num_full_blocks_spec r) as Hs. unfold num_tokens in Hs.
  induction n as [|n IH]; [done|]. rewrite seq_S, fmap_app, concat_app, <-IH by lia. simpl.
  rewrite app_nil_r. unfold block_tokens. rewrite py_slice_nonneg by nia.
  replace (Z.to_nat (Z.of_nat n * bs)) with (n * Z.to_nat bs)%nat by lia.
  replace (Z.to_nat (Z.of_nat n * bs + bs - Z.of_nat n * bs)) with (Z.to_nat bs) by lia.
  rewrite take_take_drop. f_equal. lia.
Qed.

(** ** What a request was hashed from *)

(** The name of the LoRA adapter and the salt, if there are any. *)
Definition lora_names (r : Request) : list string :=
  match lora_request r with None => [] | Some l => [lora_name l] end.
Definition salt_names (r : Request) : list string :=
  match cache_salt r with None => [] | Some s => if decide (s = ""%string) then [] else [s] end.
(** The digest of the prompt embeddings in block [k]. *)
Definition embeds_digest (r : Request) (k : nat) : option bytes :=
  (λ digest, digest (Z.of_nat k * bs) (Z.of_nat k * bs + bs)) <$> prompt_embeds r.

(** Two requests agree up to the end of block [i]. The keys of the first block do not tell a
    LoRA name from a salt; those of the later blocks have no salt. *)
Record same_content (i : nat) (r1 r2 : Request) : Prop := {
  sc_tokens : take (S i * Z.to_nat bs) (all_token_ids r1) = take (S i * Z.to_nat bs) (all_token_ids r2);
  sc_names : lora_names r1 ++ salt_names r1 = lora_names r2 ++ salt_names r2;
  sc_lora : (0 < i)%nat → lora_names r1 = lora_names r2;
  sc_embeds : ∀ k, (k ≤ i)%nat → embeds_digest r1 k = embeds_digest r2 k
}.

(** The keys of a block, in these terms. *)
Definition names_at (r : Request) (k : nat) : list string :=
  lora_names r ++ (if decide (k = 0%nat) then salt_names r else []).
Lemma block_keys_content r k :
  default [] (block_keys r k) = (KeyStr <$> names_at r k) ++ option_list (KeyBytes <$> embeds_digest r k).
Proof using bs_pos.
  assert (∀ ks : list extra_key, default [] (match ks with [] => None | _ => Some ks end) = ks) as Hd by by intros [].
  unfold block_keys, text_keys. rewrite Hd. unfold names_at, lora_names, salt_names, gen_lora_extra_hash_keys, embeds_digest.
  rewrite fmap_app, app_assoc. f_equal; [|by destruct (prompt_embeds r)]. f_equal; [by destruct (lora_request r)|].
  destruct (decide (k = 0%nat)) as [->|Hk].
  - destruct (cache_salt r) as [s|]; [|done]. change (Z.of_nat 0 * bs =? 0) with true. cbn [andb].
    destruct (String.eqb_spec s ""); case_decide; done.
  - destruct (Z.eqb_spec (Z.of_nat k * bs) 0); [nia|]. by destruct (cache_salt r).
Qed.

Lemma keys_content_inj (xs ys : list string) (d e : option bytes) :
  (KeyStr <$> xs) ++ option_list (KeyBytes <$> d) = (KeyStr <$> ys) ++ option_list (KeyBytes <$> e) → xs = ys ∧ d = e.
Proof.
  revert ys. induction xs as [|x xs IH]; intros [|y ys]; csimpl; [by destruct d, e; intros ?; simplify_eq/=|by destruct d|by destruct e|].
  intros [= -> Heq]. by destruct (IH ys Heq) as [-> ->].
Qed.

Lemma block_keys_same r1 r2 k :
  block_keys r1 k = block_keys r2 k ↔ names_at r1 k = names_at r2 k ∧ embeds_digest r1 k = embeds_digest r2 k.
Proof using bs_pos.
  pose proof (block_keys_content r1 k) as H1. pose proof (block_keys_content r2 k) as H2. split.
  - intros Heq. apply keys_content_inj. by rewrite <-H1, <-H2, Heq.
  - intros [Hn He]. rewrite Hn, He, <-H2 in H1. unfold block_keys, text_keys in *.
    by repeat case_match; simplify_eq/=.
Qed.

Lemma same_content_keys i r1 r2 :
  (S i ≤ num_full_blocks r1)%nat → (S i ≤ num_full_blocks r2)%nat →
  same_content i r1 r2 ↔ ∀ k, (k ≤ i)%nat → block_tokens r1 k = block_tokens r2 k ∧ block_keys r1 k = block_keys r2 k.
Proof using bs_pos.
  intros Hf1 Hf2. pose proof (blocks_prefix r1 (S i) Hf1) as Hp1. pose proof (blocks_prefix r2 (S i) Hf2) as Hp2. split.
  - intros [H1 H2 H3 H4] k Hk. split.
    + pose proof (num_full_blocks_spec r1). pose proof (num_full_blocks_spec r2). unfold num_tokens in *.
      unfold block_tokens. rewrite !py_slice_nonneg by nia.
      replace (Z.to_nat (Z.of_nat k * bs)) with (k * Z.to_nat bs)%nat by lia.
      replace (Z.to_nat (Z.of_nat k * bs + bs - Z.of_nat k * bs)) with (Z.to_nat bs) by lia.
      apply (f_equal (λ l, take (Z.to_nat bs) (drop (k * Z.to_nat bs) l))) in H1. rewrite !take_drop_commute, !take_take in H1.
      rewrite !Nat.min_l in H1 by nia. by rewrite !take_drop_commute.
    + apply block_keys_same. split; [|by apply H4]. unfold names_at. case_decide; [done|]. rewrite !app_nil_r. apply H3. lia.
  - intros Hall. split.
    + rewrite Hp1, Hp2. f_equal. apply list_fmap_ext. intros k x Hx%lookup_seq. apply Hall. lia.
    + destruct (Hall 0%nat ltac:(lia)) as [_ [Hn _]%block_keys_same]. done.
    + intros Hi. destruct (Hall i ltac:(lia)) as [_ [Hn _]%block_keys_same]. unfold names_at in Hn.
      rewrite !decide_False, !app_nil_r in Hn by lia. done.
    + intros k Hk. destruct (Hall k Hk) as [_ [_ He]%block_keys_same]. done.
Qed.

Lemma block_hash_at_same r1 r2 i :
  (∀ k, (k ≤ i)%nat → block_tokens r1 k = block_tokens r2 k ∧ block_keys r1 k = block_keys r2 k) → block_hash_at r1 i = block_hash_at r2 i.
Proof.
  induction i as [|i IH]; intros Hall; simpl; [|rewrite IH by (intros; apply Hall; lia)]; by destruct (Hall _ (le_n _)) as [-> ->].
Qed.

(** ** From creation on *)

(** A text request before its constructor hashes the prompt. *)
Record unhashed (r : Request) : Prop := {
  uh_text : mm_features r = [];
  uh_hashes : block_hashes r = [];
  uh_memo : embeds_hash_cache r = ∅
}.

(** The constructor hashes the prompt, and then output tokens come in portions. *)
Definition request_life (outputs : list (list Z)) : M Request unit :=
  update_block_hashes hash_function NONE_HASH (Some bs) ;;
  for_each outputs (λ ts, append_output_token_ids hash_function NONE_HASH (Some bs) ts ;; mret tt).

Record grown (outputs : list (list Z)) (r r' : Request) : Prop := {
  gr_tokens : all_token_ids r' = all_token_ids r ++ concat outputs;
  gr_text : mm_features r' = [];
  gr_memo : memo_ok r';
  gr_hashes : hashes_ok r';
  gr_inputs : lora_request r' = lora_request r ∧ cache_salt r' = cache_salt r ∧ prompt_embeds r' = prompt_embeds r
}.

Lemma wp_request_life outputs r E : unhashed r → wp (request_life outputs) (λ _ r', grown outputs r r') E r.
Proof using bs_pos.
  intros [U1 U2 U3]. unfold request_life. apply wp_bind. eapply wp_mono; [apply (wp_update_block_hashes r 0); try done; [|lia]| |done].
  { intros a b h. by rewrite U3, lookup_empty. }
  intros ok r1 (_ & Hh & Hm & Ht & hs & c & Hr1).
  assert (grown [] r r1) as Hg. { subst r1. split; try done. by rewrite app_nil_r. }
  clear Hr1 Hh Hm Ht ok hs c. revert Hg. change outputs with ([] ++ outputs) at 2. generalize (@nil (list Z)) as dn.
  revert r1. induction outputs as [|ts outputs IH]; intros r1 dn [G1 G2 G3 G4 (G5 & G6 & G7)]; simpl.
  { apply wp_ret. by rewrite app_nil_r. }
  apply wp_bind, wp_bind. eapply wp_mono; [by apply (wp_append_output_token_ids r1 ts)| |done].
  intros ok r2 (_ & Hh & Hm & Ht & hs & c & ->). apply wp_ret. rewrite cons_middle, app_assoc. apply IH.
  split; try done. simpl. by rewrite G1, concat_app, <-app_assoc; simpl; rewrite app_nil_r.
Qed.
End chain.

(** ** Properties *)

(** packing a block hash with a group id is lossless. For a group id that fits in
    four bytes the key gives back the hash and the id; any other id raises
    [OverflowError]. *)
Theorem group_key_round_trip h g :
  match make_block_hash_with_group_id h g with
  | Ret k => 0 ≤ g < 2 ^ 32 ∧ get_block_hash k = h ∧ get_group_id k = g
  | Raise e => e = OverflowError ∧ ¬ (0 ≤ g < 2 ^ 32)
  end.
Proof.
  pose proof (make_key_decode h g) as Hd. unfold make_block_hash_with_group_id in *.
  case_decide; [|done]. split; [done|]. by apply Hd.
Qed.

(** appending output tokens keeps the block hashes of a text request up to date. A
    request whose hash list is the chain of its full blocks still has exactly one hash
    per full block afterwards, each computed from the previous hash, the tokens of the
    block and its extra keys, and the loop ends within its bound. *)
Theorem append_keeps_hash_chain hash_function NONE_HASH bs r new :
  0 < bs → mm_features r = [] → memo_ok r → hashes_ok hash_function NONE_HASH bs r →
  ∃ r', append_output_token_ids hash_function NONE_HASH (Some bs) new r = (Ret true, r') ∧
    hashes_ok hash_function NONE_HASH bs r' ∧ memo_ok r' ∧
    all_token_ids r' = all_token_ids r ++ new ∧ output_token_ids r' = output_token_ids r ++ new.
Proof.
  intros Hbs Hmm Hmo Hh.
  destruct (wp_run _ _ _ (wp_append_output_token_ids hash_function NONE_HASH bs Hbs r new noexc
    Hmm Hmo Hh)) as (ok & r' & Hrun & -> & ? & ? & _ & hs & c & ->).
  by eexists.
Qed.

(** C37: a block hash stands for the whole prefix. Take any two text requests, hash their
    prompts as the constructor does and append any portions of output tokens. Then each has one
    hash per full block. With a hash function without collisions, equal hashes are at the same
    index and mean equal content up to the end of that block: the tokens, the digests of prompt
    embeddings, the LoRA names and salts listed together, and from the second block on the LoRA
    names and the salts each. And equal content gives equal hashes, so that the blocks are
    shared, however the tokens came in. *)
Theorem equal_hash_equal_prefix hash_function NONE_HASH bs r1 r2 outputs1 outputs2 :
  0 < bs → collision_free hash_function NONE_HASH → unhashed r1 → unhashed r2 →
  ∃ s1 s2, request_life hash_function NONE_HASH bs outputs1 r1 = (Ret tt, s1) ∧
    request_life hash_function NONE_HASH bs outputs2 r2 = (Ret tt, s2) ∧
    all_token_ids s1 = all_token_ids r1 ++ concat outputs1 ∧ all_token_ids s2 = all_token_ids r2 ++ concat outputs2 ∧
    Z.of_nat (length (block_hashes s1)) = num_tokens s1 / bs ∧ Z.of_nat (length (block_hashes s2)) = num_tokens s2 / bs ∧
    (lora_names s1, salt_names s1, prompt_embeds s1) = (lora_names r1, salt_names r1, prompt_embeds r1) ∧
    (lora_names s2, salt_names s2, prompt_embeds s2) = (lora_names r2, salt_names r2, prompt_embeds r2) ∧
    ∀ i j h1 h2, block_hashes s1 !! i = Some h1 → block_hashes s2 !! j = Some h2 → h1 = h2 ↔ i = j ∧ same_content bs i s1 s2.
Proof.
  intros Hbs Hcf Hu1 Hu2.
  destruct (wp_run _ _ _ (wp_request_life hash_function NONE_HASH bs Hbs outputs1 r1 noexc Hu1)) as ([] & s1 & Hrun1 & [A1 _ _ A4 (A5 & A6 & A7)]).
  destruct (wp_run _ _ _ (wp_request_life hash_function NONE_HASH bs Hbs outputs2 r2 noexc Hu2)) as ([] & s2 & Hrun2 & [B1 _ _ B4 (B5 & B6 & B7)]).
  exists s1, s2. unfold lora_names, salt_names. rewrite A5, A6, A7, B5, B6, B7.
  split_and!; [done..|by apply length_hashes_ok with hash_function NONE_HASH|by apply length_hashes_ok with hash_function NONE_HASH|done|done|].
  intros i j h1 h2 H1 H2. destruct (hashes_ok_lookup _ _ _ _ _ _ A4 H1) as [-> Hi]. destruct (hashes_ok_lookup _ _ _ _ _ _ B4 H2) as [-> Hj]. split.
  - intros Heq. destruct (block_hash_at_inj _ _ _ _ _ _ _ Hcf Heq) as [<- Hall]. split; [done|]. by apply same_content_keys.
  - intros [<- Hsame]. apply block_hash_at_same. by apply same_content_keys.
Qed.

(** reading hashes at a coarser block size concatenates consecutive hashes: the
    value at index [idx] is the concatenation of the [f] hashes that start at [idx * f],
    for every index below the length, and a suffix slice lists exactly these values. *)
Theorem coarse_hashes_concat hs f start :
  0 < f → 0 ≤ start ≤ scaled_len hs f →
  (∀ idx, 0 ≤ idx < scaled_len hs f →
     get_value_at hs f idx = Some (concat (py_slice hs (idx * f) (idx * f + f)))) ∧
  ∃ vs, hl_from (ScaledHashes hs f) start = Some vs ∧
    Z.of_nat (length vs) = scaled_len hs f - start ∧
    ∀ j, (j < length vs)%nat → vs !! j = get_value_at hs f (start + Z.of_nat j).
Proof.
  intros Hf Hs. split; [intros; by apply get_value_at_spec|].
  by apply (hl_from_spec (ScaledHashes hs f) start).
Qed.

(** A request of five tokens with one cached hash slot, for the examples. *)
Definition sample_hash (x : bytes * list Z * option (list extra_key)) : bytes :=
  [Z.pos (encode x)].

Lemma sample_hash_collision_free : collision_free sample_hash [].
Proof.
  split; [|done|done]. intros x y [= Heq]. apply (inj (A := bytes * list Z * option (list extra_key)) encode). done.
Qed.

(** Requests over block size 2 that carry their own hash chains. *)
Definition hashed_request (hash_function : bytes * list Z * option (list extra_key) → bytes)
    (tokens : list Z) : Request :=
  let r := text_request tokens [] in
  set_hashes (block_hash_at hash_function [] 2 r <$> seq 0 (num_full_blocks 2 r)) r.

Lemma hashed_request_ok hash_function tokens :
  hashes_ok hash_function [] 2 (hashed_request hash_function tokens).
Proof.
  unfold hashes_ok, hashed_request. simpl. apply list_fmap_ext. intros. symmetry.
  apply block_hash_at_hashes.
Qed.

Lemma append_keeps_hash_chain_witness :
  ∃ r', append_output_token_ids sample_hash [] (Some 2) [8; 9]
          (hashed_request sample_hash [5; 6; 7]) = (Ret true, r') ∧
    hashes_ok sample_hash [] 2 r' ∧ memo_ok r' ∧
    all_token_ids r' = [5; 6; 7; 8; 9] ∧ output_token_ids r' = [8; 9].
Proof.
  apply (append_keeps_hash_chain sample_hash [] 2 (hashed_request sample_hash [5; 6; 7]) [8; 9]).
  - lia.
  - reflexivity.
  - intros a b h. simpl. by rewrite lookup_empty.
  - apply hashed_request_ok.
Defined.

(** A request with a salt, before it is hashed. *)
Definition salted_request (salt : string) (tokens : list Z) : Request :=
  mkRequest "req-0" 0 0 0 WAITING None None 16 (Z.of_nat (length tokens)) [] tokens [] 0 0 0 0
    (Some salt) None [] None ∅ [] false false.

Lemma equal_hash_equal_prefix_witness :
  ∃ s1 s2, request_life sample_hash [] 2 [[3]; [4; 5]] (salted_request "x" [1; 2]) = (Ret tt, s1) ∧
    request_life sample_hash [] 2 [] (salted_request "x" [1; 2; 3; 4]) = (Ret tt, s2) ∧
    block_hashes s1 !! 1%nat = block_hashes s2 !! 1%nat.
Proof.
  destruct (equal_hash_equal_prefix sample_hash [] 2 (salted_request "x" [1; 2]) (salted_request "x" [1; 2; 3; 4]) [[3]; [4; 5]] [])
    as (s1 & s2 & H1 & H2 & T1 & T2 & L1 & L2 & N1 & N2 & Hall).
  - lia.
  - apply sample_hash_collision_free.
  - by split.
  - by split.
  - exists s1, s2. split; [exact H1|]. split; [exact H2|].
    unfold num_tokens in L1, L2. rewrite T1 in L1. rewrite T2 in L2.
    assert (length (block_hashes s1) = 2%nat ∧ length (block_hashes s2) = 2%nat) as [E1 E2].
    { split; apply Nat2Z.inj; [rewrite L1|rewrite L2]; reflexivity. }
    destruct (lookup_lt_is_Some_2 (block_hashes s1) 1) as [h1 Hh1]; [lia|].
    destruct (lookup_lt_is_Some_2 (block_hashes s2) 1) as [h2 Hh2]; [lia|].
    rewrite Hh1, Hh2. f_equal. apply (Hall 1%nat 1%nat h1 h2 Hh1 Hh2). split; [done|].
    injection N1 as N1a N1b N1c. injection N2 as N2a N2b N2c. split.
    + by rewrite T1, T2.
    + by rewrite N1a, N1b, N2a, N2b.
    + by rewrite N1a, N2a.
    + intros k _. unfold embeds_digest. by rewrite N1c, N2c.
Defined.

Lemma coarse_hashes_concat_witness :
  get_value_at [[1]; [2]; [3]; [4]; [5]] 2 1 = Some [3; 4].
Proof.
  destruct (coarse_hashes_concat [[1]; [2]; [3]; [4]; [5]] 2 1) as [H _].
  - lia.
  - vm_compute. split; discriminate.
  - rewrite H; [reflexivity|]. vm_compute. split; [discriminate|reflexivity].
Defined.

(** A request with one multi-modal input that ends exactly at the end of its first block. *)
Definition mm_request (tokens : list Z) (hashes : list bytes) : Request :=
  mkRequest "req-0" 0 0 0 WAITING None None 16 (Z.of_nat (length tokens)) [] tokens [] 0 0 0 0
    None None [mkFeature (Some "image"%string) 0 2] None ∅ hashes false false.

(** a multi-modal input that ends at a block boundary makes block hashes depend on when
    they are computed. Hashing four tokens at once gives the second block no extra key;
    hashing two tokens and appending the same two later gives it the identifier of the
    input, so the two requests with equal tokens and inputs do not share the block. *)
Theorem mm_boundary_hash_differs :
  let at_once := (update_block_hashes sample_hash [] (Some 2) (mm_request [1; 2; 3; 4] [])).2 in
  let grown := (append_output_token_ids sample_hash [] (Some 2) [3; 4]
                  (update_block_hashes sample_hash [] (Some 2) (mm_request [1; 2] [])).2).2 in
  all_token_ids at_once = all_token_ids grown ∧ mm_features at_once = mm_features grown ∧
  block_hashes at_once !! 0%nat = block_hashes grown !! 0%nat ∧
  block_hashes at_once !! 1%nat ≠ block_hashes grown !! 1%nat ∧
  (generate_block_hash_extra_keys 2 4 1 at_once).1 = Ret (None, 1) ∧
  (generate_block_hash_extra_keys 2 4 (-1) at_once).1 = Ret (Some [KeyStr "image"], 1).
Proof. vm_compute. split_and!; try done. Qed.
