(* ===== verification/FreeQueue.v ===== *)
(** [KVCacheBlock] and [FreeKVCacheBlockQueue] of src/vllm/v1/core/kv_cache_utils.py: block
    objects in a store, the doubly linked list threaded through them with its two sentinels,
    every operation with its errors, and the refinement of a plain list. *)
From S2P Require Import Prelude.
From S2P Require Import Request.
Local Open Scope Z_scope.

(** ** Block objects *)

(** A reference to a [KVCacheBlock] object: one of the pool's blocks, or one of the
    two sentinels the free queue allocates. Both sentinels carry [block_id = -1] and
    are told apart by identity, which is why references are not block ids. *)
Inductive bref :=
  | FakeHead
  | FakeTail
  | Blk (i : nat).

#[global] Instance bref_eq_dec : EqDecision bref.
Proof. solve_decision. Defined.

#[global] Instance bref_countable : Countable bref.
Proof.
  refine (inj_countable'
    (λ r, match r with
          | FakeHead => inl false | FakeTail => inl true | Blk i => inr i
          end)
    (λ x, match x with
          | inl false => FakeHead | inl true => FakeTail | inr i => Blk i
          end) _).
  by intros [].
Defined.


Record KVCacheBlock := mkBlock {
  block_id : Z;
  ref_cnt : Z;
  block_hash : option bytes;
  prev_free_block : option bref;
  next_free_block : option bref;
  is_null : bool
}.

(** [KVCacheBlock(block_id=i)]: every other field at its dataclass default. *)
Definition new_block (i : Z) : KVCacheBlock := mkBlock i 0 None None None false.

Definition with_ref_cnt (c : Z) (b : KVCacheBlock) : KVCacheBlock :=
  mkBlock (block_id b) c (block_hash b) (prev_free_block b) (next_free_block b) (is_null b).
Definition with_hash (h : option bytes) (b : KVCacheBlock) : KVCacheBlock :=
  mkBlock (block_id b) (ref_cnt b) h (prev_free_block b) (next_free_block b) (is_null b).
Definition with_prev (p : option bref) (b : KVCacheBlock) : KVCacheBlock :=
  mkBlock (block_id b) (ref_cnt b) (block_hash b) p (next_free_block b) (is_null b).
Definition with_next (n : option bref) (b : KVCacheBlock) : KVCacheBlock :=
  mkBlock (block_id b) (ref_cnt b) (block_hash b) (prev_free_block b) n (is_null b).
Definition with_null (z : bool) (b : KVCacheBlock) : KVCacheBlock :=
  mkBlock (block_id b) (ref_cnt b) (block_hash b) (prev_free_block b) (next_free_block b) z.

(** The store of block objects. *)
Abbreviation store := (gmap bref KVCacheBlock).

(** ** The queue object *)

(** The two sentinels live in the same store as the blocks they link. *)
Record FreeKVCacheBlockQueue := mkQueue {
  heap : store;
  num_free_blocks : Z
}.

Abbreviation Q := FreeKVCacheBlockQueue.

Definition nxt (h : store) (r : bref) : option bref := h !! r ≫= next_free_block.
Definition prv (h : store) (r : bref) : option bref := h !! r ≫= prev_free_block.

Definition on_heap (f : store → store) (q : Q) : Q := mkQueue (f (heap q)) (num_free_blocks q).
Definition on_num (f : Z → Z) (q : Q) : Q := mkQueue (heap q) (f (num_free_blocks q)).

Definition get_next (r : bref) : M Q (option bref) := gets (λ q, nxt (heap q) r).
Definition get_prev (r : bref) : M Q (option bref) := gets (λ q, prv (heap q) r).
Definition set_next (r : bref) (v : option bref) : M Q unit :=
  modify (on_heap (alter (with_next v) r)).
Definition set_prev (r : bref) (v : option bref) : M Q unit :=
  modify (on_heap (alter (with_prev v) r)).
Definition add_num (d : Z) : M Q unit := modify (on_num (λ n, n + d)).

(** An attribute access through a reference that may be [None]. *)
Definition deref (o : option bref) : M Q bref := from_option_raise AttributeError o.

Definition nth_block (blocks : list bref) (i : nat) : M Q bref :=
  from_option_raise IndexError (blocks !! i).

(** [FreeKVCacheBlockQueue.__init__]. *)
Definition queue_init (blocks : list bref) : M Q unit :=
  let n := length blocks in
  modify (on_num (λ _, Z.of_nat n)) ;;
  for_each (seq 0 n) (λ i,
    b ← nth_block blocks i;
    (if (0 <? i)%nat
     then p ← nth_block blocks (i - 1); set_prev b (Some p) else mret tt) ;;
    (if (i <? n - 1)%nat
     then s ← nth_block blocks (i + 1); set_next b (Some s) else mret tt)) ;;
  modify (on_heap (<[FakeHead := new_block (-1)]>)) ;;
  modify (on_heap (<[FakeTail := new_block (-1)]>)) ;;
  if (0 <? n)%nat then
    first ← nth_block blocks 0;
    set_next FakeHead (Some first) ;;
    set_prev first (Some FakeHead) ;;
    last ← nth_block blocks (n - 1);
    set_prev FakeTail (Some last) ;;
    set_next last (Some FakeTail)
  else
    set_next FakeHead (Some FakeTail) ;;
    set_prev FakeTail (Some FakeHead).

(** [FreeKVCacheBlockQueue.popleft]. *)
Definition popleft : M Q bref :=
  o ← get_next FakeHead;
  match o with
  | None | Some FakeTail =>
      n ← gets num_free_blocks;
      py_assert (n =? 0) ;;
      raise ValueError
  | Some first_block =>
      s ← get_next first_block;
      match s with
      | None => raise RuntimeError
      | Some _ =>
          s1 ← get_next first_block;
          set_next FakeHead s1 ;;
          s2 ← get_next first_block;
          second ← deref s2;
          set_prev second (Some FakeHead) ;;
          set_prev first_block None ;;
          set_next first_block None ;;
          add_num (-1) ;;
          mret first_block
      end
  end.

(** The loop of [popleft_n]: [k] rounds left, [curr] the block to take next. *)
Fixpoint popleft_n_loop (k : nat) (curr : option bref) (ret : list bref) :
    M Q (option bref * list bref) :=
  match k with
  | O => mret (curr, ret)
  | S k' =>
      match curr with
      | None => raise AssertionError
      | Some last_block =>
          next ← get_next last_block;
          set_prev last_block None ;;
          set_next last_block None ;;
          popleft_n_loop k' next (ret ++ [last_block])
      end
  end.

(** [FreeKVCacheBlockQueue.popleft_n]. *)
Definition popleft_n (n : Z) : M Q (list bref) :=
  if n =? 0 then mret []
  else
    free ← gets num_free_blocks;
    py_assert (n <=? free) ;;
    add_num (- n) ;;
    curr ← get_next FakeHead;
    '(curr', ret) ← popleft_n_loop (Z.to_nat n) curr [];
    match curr' with
    | Some c => set_next FakeHead (Some c) ;; set_prev c (Some FakeHead) ;; mret ret
    | None => mret ret
    end.

(** [FreeKVCacheBlockQueue.remove]. *)
Definition remove (block : bref) : M Q unit :=
  p ← get_prev block;
  n ← get_next block;
  match p, n with
  | Some prev, Some next =>
      set_next prev (Some next) ;;
      n' ← get_next block;
      next' ← deref n';
      p' ← get_prev block;
      set_prev next' p' ;;
      set_prev block None ;;
      set_next block None ;;
      add_num (-1)
  | _, _ => raise RuntimeError
  end.

(** [FreeKVCacheBlockQueue.append]. *)
Definition append (block : bref) : M Q unit :=
  o ← get_prev FakeTail;
  match o with
  | None => raise RuntimeError
  | Some last_block =>
      set_next last_block (Some block) ;;
      set_prev block (Some last_block) ;;
      set_next block (Some FakeTail) ;;
      set_prev FakeTail (Some block) ;;
      add_num 1
  end.

(** [FreeKVCacheBlockQueue.append_n]. *)
Definition append_n (blocks : list bref) : M Q unit :=
  match blocks with
  | [] => mret tt
  | _ =>
      o ← get_prev FakeTail;
      match o with
      | None => raise AssertionError
      | Some last0 =>
          last_block ← for_fold blocks last0 (λ last_block block,
            set_prev block (Some last_block) ;;
            set_next last_block (Some block) ;;
            mret block);
          set_next last_block (Some FakeTail) ;;
          set_prev FakeTail (Some last_block) ;;
          add_num (Z.of_nat (length blocks))
      end
  end.

(** The [while] loop of [get_all_free_blocks]; [None] when [fuel] rounds were not
    enough. *)
Fixpoint free_walk (fuel : nat) (h : store) (curr : bref) (ret : list bref) :
    option (list bref) :=
  match fuel with
  | O => None
  | S fuel' =>
      match nxt h curr with
      | None => Some ret
      | Some next => free_walk fuel' h next (ret ++ [curr])
      end
  end.

(** [FreeKVCacheBlockQueue.get_all_free_blocks]. *)
Definition get_all_free_blocks (fuel : nat) : M Q (option (list bref)) :=
  o ← get_next FakeHead;
  match o with
  | None => raise RuntimeError
  | Some first => gets (λ q, free_walk fuel (heap q) first [])
  end.

(** ** Lemmas on links *)

Arguments nxt : simpl never.
Arguments prv : simpl never.

Create HintDb links.
Create Rewrite HintDb links.

Lemma nxt_set_next h r v r' :
  is_Some (h !! r) →
  nxt (alter (with_next v) r h) r' = if decide (r = r') then v else nxt h r'.
Proof.
  intros [b Hb]. unfold nxt. rewrite lookup_alter. case_decide; [|done].
  by subst; rewrite Hb.
Qed.

Lemma prv_set_prev h r v r' :
  is_Some (h !! r) →
  prv (alter (with_prev v) r h) r' = if decide (r = r') then v else prv h r'.
Proof.
  intros [b Hb]. unfold prv. rewrite lookup_alter. case_decide; [|done].
  by subst; rewrite Hb.
Qed.

Lemma nxt_set_prev h r v r' : nxt (alter (with_prev v) r h) r' = nxt h r'.
Proof.
  unfold nxt. rewrite lookup_alter. case_decide; [|done]. by subst; destruct (h !! r').
Qed.

Lemma prv_set_next h r v r' : prv (alter (with_next v) r h) r' = prv h r'.
Proof.
  unfold prv. rewrite lookup_alter. case_decide; [|done]. by subst; destruct (h !! r').
Qed.

Lemma alter_is_Some_iff (f : KVCacheBlock → KVCacheBlock) (h : store) r r' :
  is_Some (alter f r h !! r') ↔ is_Some (h !! r').
Proof. apply lookup_alter_is_Some. Qed.

#[export] Hint Rewrite nxt_set_prev prv_set_next : links.

(** Evaluates links after a run of [set_next]/[set_prev]. *)
Ltac links :=
  repeat first
    [ progress autorewrite with links
    | rewrite nxt_set_next by (rewrite ?alter_is_Some_iff; auto)
    | rewrite prv_set_prev by (rewrite ?alter_is_Some_iff; auto) ].

(** [seg h x ys]: following [next] from [x] visits [ys] in order, and [prev] leads
    back. *)
Fixpoint seg (h : store) (x : bref) (ys : list bref) : Prop :=
  match ys with
  | [] => True
  | y :: ys' => nxt h x = Some y ∧ prv h y = Some x ∧ seg h y ys'
  end.

Lemma seg_app h x ys z zs :
  seg h x (ys ++ z :: zs) ↔ seg h x (ys ++ [z]) ∧ seg h z zs.
Proof. revert x. induction ys as [|y ys IH]; intros x; simpl; [|rewrite IH]; naive_solver. Qed.

(** A segment only depends on [next] of all its references but the last and on
    [prev] of all but the first. *)
Lemma seg_frame h h' x ys z :
  seg h x (ys ++ [z]) →
  (∀ r, r ∈ x :: ys → nxt h' r = nxt h r) →
  (∀ r, r ∈ ys ++ [z] → prv h' r = prv h r) →
  seg h' x (ys ++ [z]).
Proof.
  revert x. induction ys as [|y ys IH]; simpl; intros x Hseg Hn Hp.
  { rewrite Hn, Hp by set_solver. naive_solver. }
  destruct Hseg as (? & ? & ?). rewrite Hn, Hp by set_solver.
  split_and!; [done..|]. apply IH; set_solver.
Qed.

Lemma seg_frame_nil h h' x ys :
  seg h x ys →
  (∀ r, r ∈ x :: ys → nxt h' r = nxt h r) →
  (∀ r, r ∈ ys → prv h' r = prv h r) →
  seg h' x ys.
Proof.
  destruct ys as [|z ys _] using rev_ind; [done|].
  intros Hseg Hn Hp. eapply seg_frame; set_solver.
Qed.

(** ** Representation of an abstract queue *)

(** What the queue does not own of a block object. *)
Definition meta (b : KVCacheBlock) : Z * Z * option bytes * bool :=
  (block_id b, ref_cnt b, block_hash b, is_null b).

Definition same_meta (h h' : store) : Prop := ∀ r, meta <$> h !! r = meta <$> h' !! r.

#[global] Instance same_meta_equiv : Equivalence same_meta.
Proof.
  split; [done|intros h h' H r; by rewrite H|intros h1 h2 h3 H1 H2 r; by rewrite H1, H2].
Qed.

Lemma same_meta_alter (f : KVCacheBlock → KVCacheBlock) h h' r :
  (∀ b, meta (f b) = meta b) → same_meta h h' → same_meta h (alter f r h').
Proof.
  intros Hf H r'. rewrite H, lookup_alter. case_decide; [|done]. subst.
  destruct (h' !! r'); simpl; by rewrite ?Hf.
Qed.

Lemma same_meta_set_next h h' r v : same_meta h h' → same_meta h (alter (with_next v) r h').
Proof. by apply same_meta_alter. Qed.
Lemma same_meta_set_prev h h' r v : same_meta h h' → same_meta h (alter (with_prev v) r h').
Proof. by apply same_meta_alter. Qed.

Lemma same_meta_is_Some h h' r : same_meta h h' → is_Some (h !! r) ↔ is_Some (h' !! r).
Proof.
  intros H. specialize (H r).
  destruct (h !! r), (h' !! r); simplify_eq/=; split; intros; by eauto.
Qed.

#[export] Hint Resolve same_meta_set_next same_meta_set_prev : links.
#[export] Hint Extern 0 (same_meta ?h ?h) => reflexivity : links.

(** The doubly linked list holds exactly [l], from head to tail. *)
Record queue_rep (q : Q) (l : list bref) : Prop := {
  qr_num : num_free_blocks q = Z.of_nat (length l);
  qr_nodup : NoDup (FakeHead :: l ++ [FakeTail]);
  qr_alloc : ∀ r, r ∈ FakeHead :: l ++ [FakeTail] → is_Some (heap q !! r);
  qr_seg : seg (heap q) FakeHead (l ++ [FakeTail]);
  qr_head : prv (heap q) FakeHead = None;
  qr_tail : nxt (heap q) FakeTail = None;
  qr_out : ∀ r, r ∉ FakeHead :: l ++ [FakeTail] →
    nxt (heap q) r = None ∧ prv (heap q) r = None
}.

(** *** Surgery on segments *)

Lemma seg_neighbours h x l1 b l2 z :
  seg h x (l1 ++ b :: l2 ++ [z]) →
  prv h b = Some (default x (last l1)) ∧ nxt h b = Some (default z (head l2)).
Proof.
  rewrite seg_app. intros [H1 H2]. split.
  - destruct l1 as [|a l1 _] using rev_ind; [by destruct H1 as (_ & ? & _)|].
    rewrite last_snoc. rewrite <-app_assoc in H1; simpl in H1.
    apply seg_app in H1 as [_ H1]. by destruct H1 as (_ & ? & _).
  - destruct l2; by destruct H2.
Qed.

Lemma default_last_in (x : bref) (l : list bref) : default x (last l) ∈ x :: l.
Proof. destruct l using rev_ind; [|rewrite last_snoc]; set_solver. Qed.

Lemma default_head_in (z : bref) (l : list bref) : default z (head l) ∈ l ++ [z].
Proof. destruct l; set_solver. Qed.

(** Unlinking [b] from the middle of a segment. *)
Lemma seg_unlink h h' x l1 b l2 z :
  NoDup (x :: l1 ++ b :: l2 ++ [z]) →
  seg h x (l1 ++ b :: l2 ++ [z]) →
  (∀ r, r ≠ b → nxt h' r = if decide (r = default x (last l1))
                           then Some (default z (head l2)) else nxt h r) →
  (∀ r, r ≠ b → prv h' r = if decide (r = default z (head l2))
                           then Some (default x (last l1)) else prv h r) →
  seg h' x (l1 ++ l2 ++ [z]).
Proof.
  intros Hnd Hseg Hn Hp. revert x Hnd Hseg Hn Hp.
  induction l1 as [|a l1 IH]; intros x Hnd Hseg Hn Hp.
  - destruct l2 as [|c l2]; simpl in *; destruct Hseg as (_ & _ & Hseg);
      simpl_nodup; rewrite Hn, Hp, !decide_True by set_solver; split_and!; try done.
    destruct Hseg as (_ & _ & Hseg). eapply seg_frame; [done|..]; intros r Hr.
    + rewrite Hn, decide_False; set_solver.
    + rewrite Hp, decide_False; set_solver.
  - simpl in Hseg. destruct Hseg as (Hxa & Hax & Hseg).
    assert (default x (last (a :: l1)) = default a (last l1)) as Hlast.
    { rewrite last_cons. by destruct (last l1). }
    rewrite Hlast in Hn, Hp.
    pose proof (default_last_in a l1). pose proof (default_head_in z l2).
    assert (seg h' a (l1 ++ l2 ++ [z])).
    { apply IH; [by apply NoDup_cons in Hnd as []|done..]. }
    simpl in *. simpl_nodup. rewrite Hn, Hp by set_solver.
    by rewrite !decide_False by set_solver.
Qed.

(** Linking a fresh [b] behind the end of a segment. *)
Lemma seg_snoc h h' x ys b :
  NoDup (x :: ys ++ [b]) →
  seg h x ys →
  (∀ r, r ∈ x :: ys → nxt h' r = if decide (r = default x (last ys)) then Some b else nxt h r) →
  (∀ r, r ∈ ys → prv h' r = prv h r) →
  prv h' b = Some (default x (last ys)) →
  seg h' x (ys ++ [b]).
Proof.
  destruct ys as [|y ys _] using rev_ind; simpl.
  { intros _ _ Hn _ Hb. rewrite Hn, decide_True by set_solver. done. }
  rewrite last_snoc; simpl. intros Hnd Hseg Hn Hp Hb.
  rewrite <-app_assoc; simpl. apply seg_app. split.
  - eapply seg_frame; [done| |set_solver]. intros r Hr.
    simpl_nodup. rewrite Hn, decide_False; set_solver.
  - simpl. rewrite Hn, decide_True by set_solver. done.
Qed.

(** *** The operations refine a list *)

Definition chain (l : list bref) : list bref := FakeHead :: l ++ [FakeTail].

(** Every operation keeps what the queue does not own. *)
Definition meta_kept (q q' : Q) : Prop := same_meta (heap q) (heap q').

Ltac solve_alloc :=
  rewrite ?alter_is_Some_iff;
  match goal with H : queue_rep _ _ |- _ => apply (qr_alloc _ _ H); set_solver end.

(** Removing the block [b] between [l1] and [l2] of the represented queue, whatever
    sequence of stores does it. *)
Lemma queue_rep_unlink q q' l1 b l2 :
  queue_rep q (l1 ++ b :: l2) →
  num_free_blocks q' = num_free_blocks q - 1 →
  (∀ r, nxt (heap q') r = if decide (r = b) then None else
     if decide (r = default FakeHead (last l1)) then Some (default FakeTail (head l2))
     else nxt (heap q) r) →
  (∀ r, prv (heap q') r = if decide (r = b) then None else
     if decide (r = default FakeTail (head l2)) then Some (default FakeHead (last l1))
     else prv (heap q) r) →
  meta_kept q q' →
  queue_rep q' (l1 ++ l2).
Proof.
  intros [Hnum Hnd Hal Hseg Hh Ht Hout] Hnum' Hn Hp Hm.
  rewrite <-app_assoc in Hnd, Hal, Hseg, Hout; simpl in Hnd, Hal, Hseg, Hout.
  pose proof (default_last_in FakeHead l1) as Hpin.
  pose proof (default_head_in FakeTail l2) as Hnin.
  split; rewrite <-?app_assoc.
  - rewrite Hnum', Hnum, !length_app. simpl. lia.
  - by apply (NoDup_remove_mid (FakeHead :: l1)) in Hnd as [].
  - intros r Hr. apply (same_meta_is_Some _ _ _ Hm), Hal. revert Hr. clear. set_solver.
  - eapply seg_unlink; [done..| |]; intros r Hr; [rewrite Hn|rewrite Hp]; by rewrite decide_False.
  - rewrite Hp, !decide_False; [done|..]; apply (NoDup_cons_ne _ _ _ Hnd); in_list.
  - rewrite Hn, !decide_False; [done|..]; apply not_eq_sym;
      apply (NoDup_app_ne _ _ (FakeHead :: l1 ++ b :: l2) [FakeTail]); try in_list;
      by simpl; rewrite <-app_assoc.
  - intros r Hr. rewrite Hn, Hp. case_decide; [done|].
    rewrite !decide_False; [apply Hout|..]; (intros -> || intros Hr'); apply Hr; in_list.
Qed.

(** [popleft] on a non-empty queue. *)
Lemma wp_popleft q b l E :
  queue_rep q (b :: l) →
  wp popleft (λ r q', r = b ∧ queue_rep q' l ∧ meta_kept q q') E q.
Proof.
  intros Hrep. pose proof Hrep as [Hnum Hnd Hal Hseg Hh Ht Hout].
  destruct (seg_neighbours (heap q) FakeHead [] b l FakeTail Hseg) as [Hp Hn].
  assert (is_Some (heap q !! b)) by (apply Hal; set_solver).
  assert (is_Some (heap q !! FakeHead)) by (apply Hal; set_solver).
  assert (is_Some (heap q !! default FakeTail (head l))) by (apply Hal; destruct l; set_solver).
  simpl in Hseg. destruct Hseg as [Hhb _].
  assert (b ≠ FakeHead ∧ b ≠ FakeTail) as [??] by (simpl_nodup; set_solver).
  unfold popleft, get_next, set_next, set_prev, add_num, deref.
  wp_steps. rewrite Hhb. destruct b as [| |i]; try done.
  wp_steps. rewrite Hn. wp_steps. simpl. links. rewrite decide_False, Hn by done. simpl. wp_steps.
  split_and!; [done| |unfold meta_kept; simpl; auto 10 with links].
  apply (queue_rep_unlink q _ [] (Blk i) l); [done|done|..|unfold meta_kept; simpl; auto 10 with links];
    intros r; simpl; links; rewrite ?Hn; repeat case_decide; naive_solver.
Qed.

Ltac unfold_links := unfold get_next, get_prev, set_next, set_prev, add_num, deref.

Lemma popleft_empty_run q : queue_rep q [] → popleft q = (Raise ValueError, q).
Proof.
  intros [Hnum _ _ [Hseg _] _ _ _].
  unfold popleft, get_next, gets, py_assert, mbind, M_bind. by rewrite Hseg, Hnum.
Qed.

(** [remove] on a block of the queue. *)
Lemma wp_remove q l1 b l2 E :
  queue_rep q (l1 ++ b :: l2) →
  wp (remove b) (λ _ q', queue_rep q' (l1 ++ l2) ∧ meta_kept q q') E q.
Proof.
  intros Hrep. pose proof Hrep as [Hnum Hnd Hal Hseg Hh Ht Hout].
  rewrite <-app_assoc in Hseg, Hal, Hnd; simpl in Hseg, Hal, Hnd.
  destruct (seg_neighbours _ _ _ _ _ _ Hseg) as [Hp Hn].
  pose proof (default_last_in FakeHead l1). pose proof (default_head_in FakeTail l2).
  assert (is_Some (heap q !! b)) by (apply Hal; in_list).
  assert (is_Some (heap q !! default FakeHead (last l1))) by (apply Hal; in_list).
  assert (is_Some (heap q !! default FakeTail (head l2))) by (apply Hal; in_list).
  assert (default FakeHead (last l1) ≠ b).
  { apply (NoDup_app_ne _ _ (FakeHead :: l1) (b :: l2 ++ [FakeTail])); [done..|in_list]. }
  assert (default FakeTail (head l2) ≠ b).
  { apply (NoDup_remove_mid (FakeHead :: l1)) in Hnd as [_ Hnd]. intros <-. apply Hnd. in_list. }
  unfold remove; unfold_links. wp_steps. rewrite Hp, Hn. wp_steps. simpl. links.
  rewrite decide_False, Hn by done. simpl. wp_steps. simpl. links. rewrite Hp.
  assert (∀ q', heap q' = alter (with_next None) b (alter (with_prev None) b
    (alter (with_prev (Some (default FakeHead (last l1)))) (default FakeTail (head l2))
    (alter (with_next (Some (default FakeTail (head l2)))) (default FakeHead (last l1)) (heap q)))) →
    meta_kept q q') as Hm.
  { intros q' Hq'. unfold meta_kept. rewrite Hq'. auto 10 with links. }
  split; [|by apply Hm]. apply (queue_rep_unlink q _ l1 b l2); [done..| | |by apply Hm];
    intros r; simpl; links; repeat case_decide; naive_solver.
Qed.

(** [remove] on a block that is not in the queue: the links are [None]. *)
Lemma remove_not_free q l b :
  queue_rep q l → b ∉ chain l → FreeQueue.remove b q = (Raise RuntimeError, q).
Proof.
  intros Hrep Hb. destruct (qr_out _ _ Hrep b Hb) as [Hn Hp].
  unfold remove, get_prev, get_next, gets, mbind, M_bind. by rewrite Hp.
Qed.

(** The end of the queue grows by [bs], whatever sequence of stores does it. *)
Lemma queue_rep_extend q q' l bs last0 :
  queue_rep q l →
  last0 = default FakeHead (last (l ++ bs)) →
  NoDup (chain (l ++ bs)) →
  (∀ r, r ∈ bs → is_Some (heap q !! r)) →
  num_free_blocks q' = num_free_blocks q + Z.of_nat (length bs) →
  seg (heap q') FakeHead (l ++ bs) →
  nxt (heap q') last0 = Some FakeTail →
  prv (heap q') FakeTail = Some last0 →
  (∀ r, r ∉ FakeHead :: l ++ bs → nxt (heap q') r = nxt (heap q) r) →
  (∀ r, r ∉ FakeTail :: bs → r ∉ l → prv (heap q') r = prv (heap q) r) →
  meta_kept q q' →
  queue_rep q' (l ++ bs).
Proof.
  intros Hrep -> Hnd Hal Hnum Hseg Hlt Htl Hn Hp Hm. unfold chain in Hnd.
  assert (FakeTail ∉ FakeHead :: l ++ bs) as Ht.
  { intros Hin. eapply (NoDup_app_ne _ _ (FakeHead :: l ++ bs) [FakeTail]); [done..|in_list|done]. }
  split.
  - rewrite Hnum, (qr_num _ _ Hrep), length_app. lia.
  - done.
  - intros r Hr. apply (same_meta_is_Some _ _ _ Hm).
    destruct (decide (r ∈ bs)); [by apply Hal|]. apply (qr_alloc _ _ Hrep). in_list.
  - clear -Hseg Hlt Htl. destruct (l ++ bs) as [|y ys _] using rev_ind; [done|].
    rewrite last_snoc in *; simpl in *. rewrite <-app_assoc. simpl. apply seg_app. done.
  - rewrite Hp; [apply Hrep|..]; apply NoDup_cons in Hnd as [Hnd _]; [|in_list].
    rewrite elem_of_cons. intros [?|?]; [done|in_list].
  - rewrite Hn by done. apply Hrep.
  - intros r Hr. rewrite Hn, Hp by in_list. apply (qr_out _ _ Hrep). in_list.
Qed.

(** The linking loop of [append_n] from the segment [l]: it appends [bs]. *)
Lemma wp_append_loop q l bs E (Post : bref → Q → Prop) :
  NoDup (FakeHead :: l ++ bs) →
  (∀ r, r ∈ FakeHead :: l ++ bs → is_Some (heap q !! r)) →
  seg (heap q) FakeHead l →
  (∀ q', seg (heap q') FakeHead (l ++ bs) →
     (∀ r, r ∉ FakeHead :: l ++ bs → nxt (heap q') r = nxt (heap q) r) →
     (∀ r, r ∉ bs → prv (heap q') r = prv (heap q) r) →
     num_free_blocks q' = num_free_blocks q →
     meta_kept q q' →
     Post (default FakeHead (last (l ++ bs))) q') →
  wp (for_fold bs (default FakeHead (last l)) (λ last_block block,
        set_prev block (Some last_block) ;;
        set_next last_block (Some block) ;;
        mret block)) Post E q.
Proof.
  revert q l Post. induction bs as [|b bs IH]; intros q l Post Hnd Hal Hseg HPost; simpl.
  { apply wp_ret. rewrite app_nil_r in HPost. by apply HPost. }
  pose proof (default_last_in FakeHead l) as Hl.
  assert (is_Some (heap q !! b)) by (apply Hal; in_list).
  assert (is_Some (heap q !! default FakeHead (last l))) by (apply Hal; in_list).
  unfold_links. wp_steps.
  set (q1 := on_heap _ (on_heap _ q)).
  assert (∀ r, nxt (heap q1) r = if decide (r = default FakeHead (last l)) then Some b
    else nxt (heap q) r) as Hn1.
  { intros r. unfold q1; simpl. links. repeat case_decide; naive_solver. }
  assert (∀ r, prv (heap q1) r = if decide (r = b) then Some (default FakeHead (last l))
    else prv (heap q) r) as Hp1.
  { intros r. unfold q1; simpl. links. repeat case_decide; naive_solver. }
  assert (meta_kept q q1) as Hm1 by (unfold meta_kept, q1; simpl; auto with links).
  rewrite (cons_middle b), app_assoc in Hnd, Hal.
  replace b with (default FakeHead (last (l ++ [b]))) at 1 by by rewrite last_snoc.
  apply IH; [done|..].
  - intros r Hr. by apply (same_meta_is_Some _ _ _ Hm1), Hal.
  - eapply seg_snoc; [by apply (NoDup_app (FakeHead :: l ++ [b]) bs)|done|..].
    + intros r _. apply Hn1.
    + intros r Hr. rewrite Hp1, decide_False; [done|]. intros ->.
      apply (NoDup_app (FakeHead :: l ++ [b]) bs) in Hnd as [Hnd _].
      by apply (NoDup_app_ne b b (FakeHead :: l) [b] Hnd); [in_list..|].
    + by rewrite Hp1, decide_True.
  - intros q' Hseg' Hn' Hp' Hnum' Hm'. rewrite <-app_assoc in *. apply HPost; [done|..].
    + intros r Hr. rewrite Hn' by in_list. rewrite Hn1, decide_False; [done|].
      intros ->. apply Hr. in_list.
    + intros r Hr. rewrite Hp' by in_list. rewrite Hp1, decide_False; [done|in_list].
    + done.
    + unfold meta_kept in *. by rewrite Hm1.
Qed.

(** The last block of the queue. *)
Lemma queue_rep_tail q l :
  queue_rep q l →
  prv (heap q) FakeTail = Some (default FakeHead (last l)) ∧ seg (heap q) FakeHead l.
Proof.
  intros [_ _ _ Hseg _ _ _]. destruct l as [|y ys _] using rev_ind.
  { by destruct Hseg as (_ & ? & _). }
  rewrite <-app_assoc in Hseg; simpl in Hseg. apply seg_app in Hseg as [? (_ & ? & _)].
  by rewrite last_snoc.
Qed.

(** [append_n] with fresh blocks. *)
Lemma wp_append_n q l bs E :
  queue_rep q l →
  NoDup (chain (l ++ bs)) →
  (∀ r, r ∈ bs → is_Some (heap q !! r)) →
  wp (append_n bs) (λ _ q', queue_rep q' (l ++ bs) ∧ meta_kept q q') E q.
Proof.
  intros Hrep Hnd Hal. unfold append_n.
  destruct bs as [|b bs']; [by rewrite app_nil_r|].
  set (bs := b :: bs') in *.
  pose proof Hrep as [Hnum _ Hal0 Hseg _ Ht _].
  destruct (queue_rep_tail _ _ Hrep) as [Hp Hseg0].
  assert (FakeTail ∉ FakeHead :: l ++ bs) as HT.
  { intros Hin. eapply (NoDup_app_ne _ _ (FakeHead :: l ++ bs) [FakeTail]); [done..|in_list|done]. }
  apply wp_bind. unfold get_prev. apply wp_gets. rewrite Hp. apply wp_bind.
  apply wp_append_loop; [by apply (NoDup_app (FakeHead :: l ++ bs) [FakeTail])| |done|].
  { intros r Hr. destruct (decide (r ∈ bs)); [by apply Hal|]. apply Hal0. in_list. }
  intros q1 Hseg1 Hn1 Hp1 Hnum1 Hm1. unfold_links. wp_steps.
  pose proof (default_last_in FakeHead (l ++ bs)) as Hlast.
  assert (is_Some (heap q1 !! FakeTail)) as HallT.
  { apply (same_meta_is_Some _ _ _ Hm1), Hal0. in_list. }
  assert (is_Some (heap q1 !! default FakeHead (last (l ++ bs)))) as HallL.
  { apply (same_meta_is_Some _ _ _ Hm1).
    destruct (decide (default FakeHead (last (l ++ bs)) ∈ bs)); [by apply Hal|].
    apply Hal0. in_list. }
  assert (same_meta (heap q) (alter (with_prev (Some (default FakeHead (last (l ++ bs))))) FakeTail
    (alter (with_next (Some FakeTail)) (default FakeHead (last (l ++ bs))) (heap q1)))) as Hm.
  { auto with links. }
  split; [|done]. eapply queue_rep_extend; [done..| | | | | | |done]; simpl.
  - by rewrite Hnum1.
  - clear Hm Hal0 Hal. destruct (l ++ bs) as [|y ys _] using rev_ind; [done|].
    rewrite last_snoc in *; simpl in *. eapply seg_frame; [done|..]; intros r Hr; links.
    + rewrite decide_False; [done|]. intros <-.
      apply (NoDup_app_ne y y (FakeHead :: ys) [y; FakeTail]); [|in_list..|done].
      unfold chain in Hnd. by rewrite <-app_assoc in Hnd.
    + rewrite decide_False; [done|]. intros <-. apply HT. in_list.
  - links. by rewrite decide_True.
  - links. by rewrite decide_True.
  - intros r Hr. links. rewrite decide_False; [by apply Hn1|]. intros <-. by apply Hr.
  - intros r Hr ?. links. rewrite decide_False; [apply Hp1; in_list|in_list].
Qed.

(** The link from the tail sentinel back into the queue. *)
(** [append] of a fresh block. *)
Lemma wp_append q l b E :
  queue_rep q l →
  NoDup (chain (l ++ [b])) →
  is_Some (heap q !! b) →
  wp (append b) (λ _ q', queue_rep q' (l ++ [b]) ∧ meta_kept q q') E q.
Proof.
  intros Hrep Hnd Hb. destruct (queue_rep_tail _ _ Hrep) as [Hp Hseg].
  assert (NoDup (FakeHead :: l ++ [b])) as Hnd'.
  { by apply (NoDup_app (FakeHead :: l ++ [b]) [FakeTail]). }
  pose proof (default_last_in FakeHead l) as Hl.
  assert (is_Some (heap q !! default FakeHead (last l))) as Hal.
  { apply (qr_alloc _ _ Hrep). in_list. }
  assert (is_Some (heap q !! FakeTail)) as HalT by (apply (qr_alloc _ _ Hrep); in_list).
  assert (default FakeHead (last l) ≠ b) as Hlb.
  { by apply (NoDup_app_ne _ _ (FakeHead :: l) [b]); [..|in_list]. }
  assert (b ≠ FakeTail ∧ default FakeHead (last l) ≠ FakeTail) as [HbT HlT].
  { split; apply (NoDup_app_ne _ _ (FakeHead :: l ++ [b]) [FakeTail] Hnd); in_list. }
  unfold append; unfold_links. wp_steps. rewrite Hp. wp_steps.
  unfold meta_kept, on_heap, on_num; cbn [heap num_free_blocks].
  match goal with |- context [queue_rep (mkQueue ?h _)] => set (h' := h) end.
  assert (same_meta (heap q) h') as Hm by (unfold h'; auto 10 with links).
  split; [|done]. eapply queue_rep_extend; [done| |done|..|done]; simpl.
  - by rewrite last_snoc.
  - by intros r ->%list_elem_of_singleton.
  - done.
  - assert (b ∉ FakeHead :: l ∧ FakeTail ∉ FakeHead :: l) as [Hb' HT'].
    { split; intros Hin.
      - by apply (NoDup_app_ne b b (FakeHead :: l) [b]); [..|in_list|].
      - by apply (NoDup_app_ne FakeTail FakeTail (FakeHead :: l ++ [b]) [FakeTail] Hnd); [in_list..|]. }
    eapply seg_snoc; [done|done|..]; intros; unfold h'; links;
      repeat case_decide; subst; first [congruence|by destruct Hb'|exfalso; in_list].
  - simpl. unfold h'. links. by rewrite decide_True.
  - simpl. unfold h'. links. by rewrite decide_True.
  - intros r Hr. unfold h'. links. rewrite !decide_False; [done|..]; intros <-; apply Hr; in_list.
  - intros r Hr ?. unfold h'. links. rewrite !decide_False; [done|..]; intros <-; apply Hr; in_list.
Qed.

(** The popping loop of [popleft_n]: it takes [xs] and stops at [n]. *)
Lemma wp_popleft_n_loop q xs n ret E (Post : option bref * list bref → Q → Prop) :
  (∀ r, r ∈ xs → is_Some (heap q !! r)) →
  NoDup (xs ++ [n]) →
  (∀ c ys, xs ++ [n] = c :: ys → seg (heap q) c ys) →
  (∀ q', (∀ r, nxt (heap q') r = if decide (r ∈ xs) then None else nxt (heap q) r) →
     (∀ r, prv (heap q') r = if decide (r ∈ xs) then None else prv (heap q) r) →
     num_free_blocks q' = num_free_blocks q →
     meta_kept q q' →
     Post (Some n, ret ++ xs) q') →
  wp (popleft_n_loop (length xs) (Some (default n (head xs))) ret) Post E q.
Proof.
  revert q ret. induction xs as [|y xs IH]; intros q ret Hal Hnd Hseg HPost; simpl.
  { apply wp_ret. rewrite app_nil_r in HPost. by apply HPost. }
  specialize (Hseg y (xs ++ [n]) eq_refl). simpl in Hnd. apply NoDup_cons in Hnd as [Hy Hnd].
  assert (is_Some (heap q !! y)) by (apply Hal; in_list).
  assert (nxt (heap q) y = Some (default n (head xs))) as Hny.
  { destruct xs; by destruct Hseg. }
  unfold_links. wp_steps. rewrite Hny. set (q1 := on_heap _ (on_heap _ q)).
  assert (∀ r, nxt (heap q1) r = if decide (r = y) then None else nxt (heap q) r) as Hn1.
  { intros r. unfold q1; simpl. links. repeat case_decide; naive_solver. }
  assert (∀ r, prv (heap q1) r = if decide (r = y) then None else prv (heap q) r) as Hp1.
  { intros r. unfold q1; simpl. links. repeat case_decide; naive_solver. }
  assert (meta_kept q q1) as Hm1 by (unfold meta_kept, q1; simpl; auto with links).
  apply IH; [|done|..].
  - intros r Hr. apply (same_meta_is_Some _ _ _ Hm1), Hal. in_list.
  - intros c ys Heq. rewrite Heq in Hseg, Hy. destruct Hseg as (_ & _ & Hseg).
    eapply seg_frame_nil; [done|..]; intros r Hr; [rewrite Hn1|rewrite Hp1];
      rewrite decide_False; [done| |done|]; intros ->; apply Hy; in_list.
  - intros q' Hn' Hp' Hnum' Hm'. rewrite <-app_assoc. apply HPost; [..|done|].
    + intros r. rewrite Hn', Hn1. repeat case_decide; try done; set_solver.
    + intros r. rewrite Hp', Hp1. repeat case_decide; try done; set_solver.
    + unfold meta_kept in *. by rewrite Hm1.
Qed.

(** [popleft_n] within the size of the queue. *)
Lemma wp_popleft_n q l n E :
  queue_rep q l →
  0 ≤ n ≤ Z.of_nat (length l) →
  wp (popleft_n n)
    (λ ret q', ret = take (Z.to_nat n) l ∧ queue_rep q' (drop (Z.to_nat n) l) ∧ meta_kept q q')
    E q.
Proof.
  intros Hrep Hn. pose proof Hrep as [Hnum Hnd Hal Hseg Hh Ht Hout].
  unfold popleft_n. case (Z.eqb_spec n 0) as [->|Hn0]; [by apply wp_ret|].
  rewrite <-(take_drop (Z.to_nat n) l) in Hrep, Hnd, Hal, Hseg, Hout.
  set (xs := take (Z.to_nat n) l) in *. set (l' := drop (Z.to_nat n) l) in *.
  rewrite <-app_assoc in Hnd, Hal, Hseg, Hout.
  assert (length xs = Z.to_nat n) as Hlen by (unfold xs; rewrite length_take; lia).
  apply wp_bind, wp_gets, wp_bind. apply wp_assert; [apply Z.leb_le; lia|].
  unfold_links. wp_steps. rewrite <-Hlen. change (heap (on_num _ q)) with (heap q).
  pose proof (default_head_in FakeTail l') as Hn'.
  destruct (l' ++ [FakeTail]) as [|nx rest] eqn:El'; [by destruct l'|].
  assert (default FakeTail (head l') = nx) as Hnx by (by destruct l'; simplify_eq/=).
  assert (nxt (heap q) FakeHead = Some (default nx (head xs))) as ->.
  { destruct xs; by destruct Hseg. }
  apply seg_app in Hseg as [Hseg1 Hseg2].
  apply wp_popleft_n_loop.
  - intros r Hr. simpl. apply Hal. in_list.
  - rewrite cons_middle, app_assoc in Hnd. apply NoDup_cons in Hnd as [_ Hnd].
    by apply NoDup_app in Hnd as [? _].
  - intros c ys Heq. simpl. rewrite Heq in Hseg1. by destruct Hseg1 as (_ & _ & ?).
  - intros q' Hnx' Hpx' Hnum' Hm'. simpl in Hnx', Hpx', Hnum'.
    assert (FakeTail ∈ nx :: rest) as HT by (rewrite <-El'; in_list).
    assert (∀ r, r ∈ nx :: rest → r ∉ xs ∧ FakeHead ≠ r) as Hdisj.
    { intros r Hr. split.
      - intros Hxs. by apply (NoDup_app_ne r r (FakeHead :: xs) (nx :: rest) Hnd); [in_list..|].
      - apply (NoDup_cons_ne _ _ _ Hnd). in_list. }
    assert (NoDup (FakeHead :: nx :: rest)) as Hnd'.
    { clear -Hnd. apply NoDup_cons in Hnd as [Hh Hnd]. apply NoDup_app in Hnd as (_ & _ & ?).
      apply NoDup_cons. split; [in_list|done]. }
    unfold meta_kept in Hm'; simpl in Hm'.
    assert (is_Some (heap q' !! FakeHead)).
    { apply (same_meta_is_Some _ _ _ Hm'), Hal. in_list. }
    assert (is_Some (heap q' !! nx)).
    { apply (same_meta_is_Some _ _ _ Hm'), Hal. in_list. }
    wp_steps. unfold meta_kept, on_heap; cbn [heap num_free_blocks].
    match goal with |- context [queue_rep (mkQueue ?h _)] => set (h' := h) end.
    assert (same_meta (heap q) h') as Hm by (unfold h'; auto with links).
    split_and!; [done| |done]. split; rewrite ?El'; cbn [heap num_free_blocks].
    + rewrite Hnum', Hnum. unfold l'. rewrite length_drop. lia.
    + done.
    + intros r Hr. apply (same_meta_is_Some _ _ _ Hm), Hal. in_list.
    + assert (∀ r, r ∈ rest → nx ≠ r) as Hnxr.
      { intros r Hr. apply NoDup_cons in Hnd' as [_ Hnd']. by apply (NoDup_cons_ne _ _ _ Hnd'). }
      split_and!; [unfold h'; links; by rewrite decide_True|unfold h'; links; by rewrite decide_True|].
      eapply seg_frame_nil; [done|..]; intros r Hr; unfold h'; links.
      * destruct (Hdisj r Hr). by rewrite decide_False, Hnx', decide_False.
      * destruct (Hdisj r) as [??]; [in_list|].
        by rewrite decide_False, Hpx', decide_False by auto.
    + unfold h'. links. destruct (Hdisj nx) as [_ ?]; [in_list|].
      rewrite decide_False, Hpx' by done. by case_decide.
    + unfold h'. links. destruct (Hdisj FakeTail HT). by rewrite decide_False, Hnx', decide_False.
    + intros r Hr. unfold h'. links. rewrite !decide_False by (intros <-; apply Hr; in_list).
      rewrite Hnx', Hpx'. case_decide; [done|]. apply Hout. in_list.
Qed.

(** [get_all_free_blocks] walks the whole queue, given one round per block and one
    for the sentinel. *)
Lemma free_walk_seg h x l ret fuel :
  seg h x l → nxt h (default x (last l)) = None → (length l < fuel)%nat →
  free_walk fuel h x ret = Some (ret ++ removelast (x :: l)).
Proof.
  revert x ret fuel. induction l as [|y l IH]; intros x ret [|fuel] Hseg Hlast Hf; simpl in *; try lia.
  { by rewrite Hlast, app_nil_r. }
  destruct Hseg as (-> & _ & Hseg). rewrite (IH y); [|done| |lia].
  - by rewrite <-app_assoc.
  - rewrite last_cons in Hlast. by destruct (last l).
Qed.

Lemma get_all_free_blocks_run q l fuel :
  queue_rep q l → (length l < fuel)%nat → get_all_free_blocks fuel q = (Ret (Some l), q).
Proof.
  intros [_ _ _ Hseg _ Ht _] Hf.
  unfold get_all_free_blocks, get_next, gets, mbind, M_bind.
  destruct (l ++ [FakeTail]) as [|f r] eqn:E; [by destruct l|].
  destruct Hseg as (-> & _ & Hseg).
  assert (length (f :: r) = S (length l)) as Hlen by (rewrite <-E, length_app; simpl; lia).
  erewrite free_walk_seg; [|done| |simpl in Hlen; lia].
  - by rewrite <-E, removelast_last.
  - assert (last (f :: r) = Some FakeTail) as Hlast by (by rewrite <-E, last_snoc).
    rewrite last_cons in Hlast. by destruct (last r); simplify_eq/=.
Qed.

(** *** Construction *)

Lemma seg_pointwise h x ys :
  (∀ j a b, (x :: ys) !! j = Some a → ys !! j = Some b →
     nxt h a = Some b ∧ prv h b = Some a) →
  seg h x ys.
Proof.
  revert x. induction ys as [|y ys IH]; intros x H; simpl; [done|].
  destruct (H 0%nat x y) as [??]; [done..|]. split_and!; [done..|].
  apply IH. intros j a b Ha Hb. by apply (H (S j)).
Qed.

(** What the first [k] rounds of the constructor's loop have linked. *)
Definition linked_upto (bs : list bref) (k : nat) (h : store) : Prop :=
  (∀ j b, bs !! j = Some b →
     nxt h b = (if decide (j < k)%nat then bs !! S j else None) ∧
     prv h b = (if decide (j < k)%nat
                then match j with O => None | S j' => bs !! j' end else None)) ∧
  (∀ r, r ∉ bs → nxt h r = None ∧ prv h r = None).

Lemma linked_upto_ext bs k h h' :
  linked_upto bs k h → (∀ r, nxt h' r = nxt h r) → (∀ r, prv h' r = prv h r) →
  linked_upto bs k h'.
Proof.
  intros [Hin Hout] Hn Hp. split.
  - intros j b Hj. rewrite Hn, Hp. by apply Hin.
  - intros r Hr. rewrite Hn, Hp. by apply Hout.
Qed.

Lemma linked_upto_step bs k b h h' :
  NoDup bs → bs !! k = Some b → linked_upto bs k h →
  (∀ r, nxt h' r = if decide (r = b) then bs !! S k else nxt h r) →
  (∀ r, prv h' r = if decide (r = b)
                   then match k with O => None | S k' => bs !! k' end else prv h r) →
  linked_upto bs (S k) h'.
Proof.
  intros Hnd Hk [Hin Hout] Hn Hp. split.
  - intros j c Hj. rewrite Hn, Hp. destruct (Hin j c Hj) as [-> ->].
    destruct (decide (c = b)) as [->|Hc].
    + assert (j = k) as -> by (eapply NoDup_lookup; eauto). by rewrite !decide_True by lia.
    + assert (j ≠ k) by (intros ->; congruence). repeat case_decide; done || lia.
  - intros r Hr. rewrite Hn, Hp, !decide_False; [by apply Hout|..];
      intros ->; apply Hr; by eapply list_elem_of_lookup_2.
Qed.

(** Linking the sentinels to a fully linked list of blocks. *)
Lemma wp_init_ends q q1 bs E :
  NoDup bs → FakeHead ∉ bs → FakeTail ∉ bs →
  (∀ r, r ∈ bs → is_Some (heap q !! r)) →
  linked_upto bs (length bs) (heap q1) →
  same_meta (heap q) (heap q1) →
  num_free_blocks q1 = Z.of_nat (length bs) →
  wp (modify (on_heap (<[FakeHead := new_block (-1)]>)) ;;
      modify (on_heap (<[FakeTail := new_block (-1)]>)) ;;
      if (0 <? length bs)%nat then
        first ← nth_block bs 0;
        set_next FakeHead (Some first) ;;
        set_prev first (Some FakeHead) ;;
        last ← nth_block bs (length bs - 1);
        set_prev FakeTail (Some last) ;;
        set_next last (Some FakeTail)
      else
        set_next FakeHead (Some FakeTail) ;;
        set_prev FakeTail (Some FakeHead))
    (λ _ q', queue_rep q' bs ∧
       ∀ r, r ≠ FakeHead → r ≠ FakeTail → meta <$> heap q' !! r = meta <$> heap q !! r) E q1.
Proof.
  intros Hnd HH HT Hal Hlink Hm Hnum. wp_steps.
  set (h2 := <[FakeTail := new_block (-1)]> (<[FakeHead := new_block (-1)]> (heap q1))).
  assert (∀ r, r ∈ chain bs → is_Some (h2 !! r)) as Hal2.
  { intros r Hr. unfold h2. rewrite !lookup_insert. repeat case_decide; [by eauto..|].
    apply (same_meta_is_Some _ _ _ Hm), Hal. unfold chain in Hr.
    rewrite elem_of_cons, elem_of_app, list_elem_of_singleton in Hr. naive_solver. }
  assert (linked_upto bs (length bs) h2) as [Hin Hout].
  { destruct (proj2 Hlink _ HH) as [??], (proj2 Hlink _ HT) as [??].
    eapply linked_upto_ext; [done|..]; intros r; unfold h2, nxt, prv in *; rewrite !lookup_insert;
      repeat case_decide; subst; simpl; congruence. }
  assert (∀ r, r ≠ FakeHead → r ≠ FakeTail → meta <$> h2 !! r = meta <$> heap q !! r) as Hm2.
  { intros r ??. unfold h2. by rewrite !lookup_insert_ne, Hm by done. }
  destruct (Hout _ HH) as [HnH HpH]. destruct (Hout _ HT) as [HnT HpT].
  assert (is_Some (h2 !! FakeHead) ∧ is_Some (h2 !! FakeTail)) as [HsH HsT].
  { split; apply Hal2; unfold chain; in_list. }
  destruct bs as [|b0 bs'] eqn:Ebs; simpl Nat.ltb; cbn iota.
  - unfold_links. wp_steps. split.
    + split; simpl; fold h2; try done.
      * repeat constructor; set_solver.
      * intros r Hr. rewrite !alter_is_Some_iff. by apply Hal2.
      * links. by rewrite !decide_True.
      * links. rewrite decide_False by done. done.
      * links. rewrite decide_False by done. done.
      * intros r Hr. links. rewrite !decide_False by set_solver. apply Hout. set_solver.
    + intros r ??. simpl. rewrite !lookup_alter_ne by done. by apply Hm2.
  - destruct (lookup_lt_is_Some_2 bs (length bs - 1)) as [bl Hbl]; [rewrite Ebs; simpl; lia|].
    assert (length bs = S (length bs')) as Hlen by by rewrite Ebs.
    assert (bs !! 0%nat = Some b0) as Hb0 by by rewrite Ebs.
    rewrite <-Ebs in *. clear Ebs.
    assert (b0 ∈ bs ∧ bl ∈ bs) as [Hb0in Hblin] by (split; by eapply list_elem_of_lookup_2).
    assert (∀ r, r ∈ bs → FakeHead ≠ r ∧ FakeTail ≠ r) as Hne by set_solver.
    destruct (Hne _ Hb0in), (Hne _ Hblin).
    assert (is_Some (h2 !! FakeHead) ∧ is_Some (h2 !! FakeTail) ∧ is_Some (h2 !! b0) ∧ is_Some (h2 !! bl))
      as (_ & _ & ? & ?) by (unfold chain in Hal2; split_and!; apply Hal2; in_list).
    unfold nth_block; unfold_links. apply wp_bind. eapply wp_from_option; [done|]. wp_steps.
    eapply wp_from_option; [done|]. wp_steps. unfold on_heap; cbn [heap num_free_blocks].
    match goal with |- context [queue_rep (mkQueue ?h _)] => set (h' := h) end.
    assert (∀ r, nxt h' r = if decide (FakeHead = r) then Some b0 else
      if decide (bl = r) then Some FakeTail else nxt h2 r) as Hn'.
    { intros r. unfold h'. links. repeat case_decide; naive_solver. }
    assert (∀ r, prv h' r = if decide (b0 = r) then Some FakeHead else
      if decide (FakeTail = r) then Some bl else prv h2 r) as Hp'.
    { intros r. unfold h'. links. repeat case_decide; naive_solver. }
    assert (NoDup (chain bs)) as Hndc.
    { unfold chain. apply NoDup_cons. split; [rewrite elem_of_app, list_elem_of_singleton; naive_solver|].
      apply NoDup_app. split_and!; [done| |apply NoDup_singleton].
      intros r Hr ->%list_elem_of_singleton. done. }
    split; [split; cbn [heap num_free_blocks]|].
    + done.
    + done.
    + intros r Hr. unfold h'. rewrite !alter_is_Some_iff. by apply Hal2.
    + apply seg_pointwise. intros [|j] a b Ha Hb; simpl in Ha.
      * simplify_eq. rewrite lookup_app_l in Hb by lia. simplify_eq.
        by rewrite Hn', Hp', !decide_True.
      * assert (S j < length (bs ++ [FakeTail]))%nat as Hj by (by eapply lookup_lt_Some).
        rewrite length_app in Hj; simpl in Hj. rewrite lookup_app_l in Ha by lia.
        assert (a ∈ bs) as [? _]%Hne by (by eapply list_elem_of_lookup_2).
        rewrite Hn', Hp', (decide_False (P := FakeHead = a)) by done.
        destruct (decide (S j < length bs)%nat).
        -- rewrite lookup_app_l in Hb by lia.
           assert (b ∈ bs) as [_ ?]%Hne by (by eapply list_elem_of_lookup_2).
           assert (bl ≠ a) by (intros ->; pose proof (NoDup_lookup _ _ _ _ Hnd Ha Hbl); lia).
           assert (b0 ≠ b) by (intros ->; by pose proof (NoDup_lookup _ _ _ _ Hnd Hb Hb0)).
           rewrite !decide_False by done. destruct (Hin _ _ Ha) as [-> _], (Hin _ _ Hb) as [_ ->].
           rewrite !decide_True by lia. done.
        -- rewrite lookup_app_r, list_lookup_singleton_Some in Hb by lia. destruct Hb as [_ <-].
           replace j with (length bs - 1)%nat in Ha by lia. simplify_eq.
           rewrite decide_True, decide_False, decide_True by done. done.
    + rewrite Hp', !decide_False by done. done.
    + rewrite Hn', !decide_False by done. done.
    + intros r Hr. rewrite Hn', Hp', !decide_False by (intros <-; apply Hr; unfold chain; in_list).
      apply Hout. intros ?; apply Hr. unfold chain. in_list.
    + intros r ??. assert (same_meta h2 h') as Hm' by (unfold h'; fold h2; auto 10 with links).
      rewrite <-(Hm' r). by apply Hm2.
Qed.

Lemma wp_queue_init q bs E :
  NoDup bs → FakeHead ∉ bs → FakeTail ∉ bs →
  (∀ r, r ∈ bs → is_Some (heap q !! r)) →
  (∀ r, nxt (heap q) r = None ∧ prv (heap q) r = None) →
  wp (queue_init bs)
    (λ _ q', queue_rep q' bs ∧
       ∀ r, r ≠ FakeHead → r ≠ FakeTail → meta <$> heap q' !! r = meta <$> heap q !! r) E q.
Proof.
  intros Hnd HH HT Hal H0. unfold queue_init. cbv zeta.
  apply wp_bind, wp_modify, wp_bind.
  eapply (wp_for_each (λ done _ q', linked_upto bs (length done) (heap q') ∧
    same_meta (heap q) (heap q') ∧ num_free_blocks q' = Z.of_nat (length bs))).
  { split_and!; [|done|done]. split; intros; [|apply H0].
    rewrite !decide_False by (simpl; lia). apply H0. }
  - intros done i todo q1 Hsplit (Hl & Hm & Hnum).
    apply seq_split_mid in Hsplit as [-> Hi].
    destruct (lookup_lt_is_Some_2 bs (length done) Hi) as [b Hb].
    assert (is_Some (heap q1 !! b)).
    { apply (same_meta_is_Some _ _ _ Hm), Hal. by eapply list_elem_of_lookup_2. }
    destruct (proj1 Hl _ _ Hb) as [Hnb Hpb]. rewrite decide_False in Hnb, Hpb by lia.
    unfold nth_block; unfold_links. apply wp_bind.
    eapply wp_from_option; [done|]. apply wp_bind.
    rewrite length_app; cbn [length]; replace (length done + 1)%nat with (S (length done)) by lia.
    assert (∃ q2, wp (if (0 <? length done)%nat
        then p ← from_option_raise IndexError (bs !! (length done - 1)%nat);
             modify (on_heap (alter (with_prev (Some p)) b)) else mret tt) (λ _ q', q' = q2) E q1 ∧
      (∀ r, nxt (heap q2) r = nxt (heap q1) r) ∧
      (∀ r, prv (heap q2) r = if decide (r = b) then
         match length done with O => None | S k => bs !! k end else prv (heap q1) r) ∧
      same_meta (heap q1) (heap q2) ∧ num_free_blocks q2 = num_free_blocks q1) as (q2 & Hwp & Hn2 & Hp2 & Hm2 & Hnum2).
    { destruct (length done) as [|k]; simpl.
      - exists q1. split_and!; [by apply wp_ret|done| |done|done].
        intros r. by case_decide; subst.
      - rewrite Nat.sub_0_r. destruct (lookup_lt_is_Some_2 bs k) as [p Hp]; [lia|].
        exists (on_heap (alter (with_prev (Some p)) b) q1). rewrite Hp. simpl.
        split_and!; [by apply wp_bind, wp_ret, wp_modify|..|by auto with links|done];
          intros r; links; repeat case_decide; naive_solver. }
    eapply wp_mono; [apply Hwp| |done]. intros [] q' ->.
    assert (is_Some (heap q2 !! b)) by (by apply (same_meta_is_Some _ _ _ Hm2)).
    destruct (Nat.ltb_spec (length done) (length bs - 1)).
    + destruct (lookup_lt_is_Some_2 bs (S (length done))) as [s Hs]; [lia|].
      rewrite Hs. simpl. apply wp_bind, wp_ret, wp_modify.
      split_and!; [|by rewrite Hm, Hm2; simpl; auto with links|by rewrite <-Hnum].
      eapply linked_upto_step; [done..| |]; intros r; simpl; links;
        rewrite ?Hn2, ?Hp2, ?Hs; repeat case_decide; naive_solver.
    + apply wp_ret. split_and!; [|by rewrite Hm|by rewrite <-Hnum].
      eapply linked_upto_step; [done..| |done]. intros r. rewrite Hn2.
      case_decide; [subst|done]. rewrite Hnb. symmetry. apply lookup_ge_None_2. lia.
  - intros q1. rewrite length_seq. intros ([Hin Hout] & Hm & Hnum). by eapply wp_init_ends.
Qed.

(** ** The queue as an abstract list *)

(** Calls on a queue, with the observations they return. *)
Inductive qop :=
  | OpPopleft
  | OpPopleftN (n : Z)
  | OpRemove (b : bref)
  | OpAppend (b : bref)
  | OpAppendN (bs : list bref).

Definition run_qop (o : qop) : M Q (list bref) :=
  match o with
  | OpPopleft => b ← popleft; mret [b]
  | OpPopleftN n => popleft_n n
  | OpRemove b => remove b ;; mret []
  | OpAppend b => append b ;; mret []
  | OpAppendN bs => append_n bs ;; mret []
  end.

Fixpoint run_qops (os : list qop) : M Q (list (list bref)) :=
  match os with
  | [] => mret []
  | o :: os' => r ← run_qop o; rs ← run_qops os'; mret (r :: rs)
  end.

(** The contract: what a call does to the list of free blocks, [None] outside the
    calls it allows. [D] is the set of pool blocks. *)
Definition fresh_for (D : gset bref) (l bs : list bref) : Prop :=
  NoDup bs ∧ Forall (λ b, b ∈ D ∧ b ∉ chain l) bs.

#[global] Instance fresh_for_dec D l bs : Decision (fresh_for D l bs).
Proof. apply _. Defined.

Definition spec_qop (D : gset bref) (o : qop) (l : list bref) :
    option (list bref * list bref) :=
  match o with
  | OpPopleft => match l with b :: l' => Some ([b], l') | [] => None end
  | OpPopleftN n =>
      if decide (0 ≤ n ≤ Z.of_nat (length l))
      then Some (take (Z.to_nat n) l, drop (Z.to_nat n) l) else None
  | OpRemove b => if decide (b ∈ l) then Some ([], filter (.≠ b) l) else None
  | OpAppend b => if decide (fresh_for D l [b]) then Some ([], l ++ [b]) else None
  | OpAppendN bs => if decide (fresh_for D l bs) then Some ([], l ++ bs) else None
  end.

Fixpoint spec_qops (D : gset bref) (os : list qop) (l : list bref) :
    option (list (list bref) * list bref) :=
  match os with
  | [] => Some ([], l)
  | o :: os' =>
      '(r, l1) ← spec_qop D o l;
      '(rs, l2) ← spec_qops D os' l1;
      Some (r :: rs, l2)
  end.

Lemma fresh_for_chain D l bs :
  NoDup (chain l) → fresh_for D l bs → NoDup (chain (l ++ bs)) ∧ ∀ r, r ∈ bs → r ∈ D.
Proof.
  unfold fresh_for, chain. rewrite Forall_forall. intros Hl [Hnd Hbs].
  split; [|naive_solver]. rewrite <-app_assoc, (Permutation_app_comm bs), app_assoc.
  rewrite app_comm_cons. apply NoDup_app. split_and!; [done| |done].
  intros r Hr Hin. by apply (Hbs r).
Qed.

Lemma filter_ne_split (l1 l2 : list bref) b :
  b ∉ l1 ++ l2 → filter (.≠ b) (l1 ++ b :: l2) = l1 ++ l2.
Proof.
  intros Hb. rewrite filter_app, filter_cons_False by naive_solver.
  rewrite <-filter_app. apply filter_all. intros x Hx ->. done.
Qed.

Lemma wp_run_qop q D o l r l' E :
  queue_rep q l →
  (∀ b, b ∈ D → is_Some (heap q !! b)) →
  spec_qop D o l = Some (r, l') →
  wp (run_qop o) (λ r' q', r' = r ∧ queue_rep q' l' ∧ meta_kept q q') E q.
Proof.
  intros Hrep HD Hs. destruct o as [|n|b|b|bs]; simpl in *.
  - destruct l; simplify_eq. apply wp_bind. eapply wp_mono; [by apply wp_popleft|..|done].
    intros a q' (-> & ? & ?). by apply wp_ret.
  - case_decide; simplify_eq. by apply wp_popleft_n.
  - case_decide as Hb; simplify_eq. apply list_elem_of_split in Hb as (l1 & l2 & ->).
    pose proof (qr_nodup _ _ Hrep) as Hnd. rewrite <-app_assoc in Hnd; simpl in Hnd.
    apply (NoDup_remove_mid (FakeHead :: l1)) in Hnd as [_ Hnd].
    rewrite filter_ne_split by in_list.
    apply wp_bind. eapply wp_mono; [by apply wp_remove|..|done]. intros [] q' ?. by apply wp_ret.
  - case_decide as Hf; simplify_eq. apply fresh_for_chain in Hf as [??]; [|apply Hrep].
    apply wp_bind. eapply wp_mono; [apply wp_append; try done|..|done]; [set_solver|].
    intros [] q' ?. by apply wp_ret.
  - case_decide as Hf; simplify_eq. apply fresh_for_chain in Hf as [??]; [|apply Hrep].
    apply wp_bind. eapply wp_mono; [apply wp_append_n; try done; naive_solver|..|done].
    intros [] q' ?. by apply wp_ret.
Qed.

Lemma wp_run_qops q D os l rs l' E :
  queue_rep q l →
  (∀ b, b ∈ D → is_Some (heap q !! b)) →
  spec_qops D os l = Some (rs, l') →
  wp (run_qops os) (λ rs' q', rs' = rs ∧ queue_rep q' l' ∧ meta_kept q q') E q.
Proof.
  revert q l rs. induction os as [|o os IH]; intros q l rs Hrep HD Hs; simpl in *.
  { simplify_eq. by apply wp_ret. }
  destruct (spec_qop D o l) as [[r l1]|] eqn:E1; simplify_eq/=.
  destruct (spec_qops D os l1) as [[rs' l2]|] eqn:E2; simplify_eq/=.
  apply wp_bind. eapply wp_mono; [by eapply wp_run_qop|..|done].
  intros r' q1 (-> & Hrep1 & Hm1). apply wp_bind.
  eapply wp_mono; [eapply IH; [done| |done]|..|done].
  - intros b Hb. apply (same_meta_is_Some _ _ _ Hm1). auto.
  - intros rs'' q2 (-> & Hrep2 & Hm2). apply wp_ret. split_and!; [done..|].
    unfold meta_kept in *. by rewrite Hm1.
Qed.

(** ** Properties *)

(** C32: the doubly linked free queue refines a plain list. Any sequence of [popleft],
    [popleft_n], [remove], [append] and [append_n] calls that the list contract allows
    runs without an exception, returns what the list returns, leaves a well-linked
    queue holding exactly the resulting list, and touches no field of a block other
    than its links. *)
Theorem queue_refines_list q D os l rs l' :
  queue_rep q l →
  (∀ b, b ∈ D → is_Some (heap q !! b)) →
  spec_qops D os l = Some (rs, l') →
  ∃ q', run_qops os q = (Ret rs, q') ∧ queue_rep q' l' ∧ meta_kept q q'.
Proof.
  intros Hrep HD Hs.
  destruct (wp_run _ _ _ (wp_run_qops q D os l rs l' noexc Hrep HD Hs)) as (a & q' & Hr & -> & ? & ?).
  by exists q'.
Qed.

(** building the queue from distinct unlinked blocks enumerates them in order:
    [get_all_free_blocks] returns the list the queue was built from, after any number
    of rounds larger than its length. *)
Theorem queue_init_enumerates q bs fuel :
  NoDup bs → FakeHead ∉ bs → FakeTail ∉ bs →
  (∀ r, r ∈ bs → is_Some (heap q !! r)) →
  (∀ r, nxt (heap q) r = None ∧ prv (heap q) r = None) →
  (length bs < fuel)%nat →
  ∃ q', queue_init bs q = (Ret tt, q') ∧ queue_rep q' bs ∧
    get_all_free_blocks fuel q' = (Ret (Some bs), q').
Proof.
  intros H1 H2 H3 H4 H5 Hf.
  destruct (wp_run _ _ _ (wp_queue_init q bs noexc H1 H2 H3 H4 H5)) as ([] & q' & Hr & Hrep & _).
  exists q'. split_and!; [done..|]. by apply get_all_free_blocks_run.
Qed.

(** the two misuse errors leave the queue as it was: [remove] of a block that is not
    in the queue raises [RuntimeError] and [popleft] on an empty queue raises
    [ValueError], with no link or counter changed. *)
Theorem queue_errors_unchanged q l b :
  queue_rep q l →
  (b ∉ chain l → remove b q = (Raise RuntimeError, q)) ∧
  (l = [] → popleft q = (Raise ValueError, q)).
Proof.
  intros Hrep. split; [by apply remove_not_free|]. intros ->. by apply popleft_empty_run.
Qed.

(** A queue built from two blocks, with a third block outside it. *)
Definition sample_heap : store := {[Blk 0 := new_block 0; Blk 1 := new_block 1; Blk 2 := new_block 2]}.
Definition sample_queue : Q := (queue_init [Blk 0; Blk 1] (mkQueue sample_heap 0)).2.

Lemma sample_heap_links r : nxt sample_heap r = None ∧ prv sample_heap r = None.
Proof.
  unfold nxt, prv, sample_heap. rewrite !lookup_insert, lookup_singleton.
  repeat case_decide; done.
Qed.

Lemma sample_queue_rep : queue_rep sample_queue [Blk 0; Blk 1].
Proof.
  destruct (wp_run (queue_init [Blk 0; Blk 1]) (λ _ q', queue_rep q' [Blk 0; Blk 1])
    (mkQueue sample_heap 0)) as ([] & q' & Hr & Hrep); [|unfold sample_queue; by rewrite Hr].
  eapply wp_call; [apply wp_queue_init|by intros ? ? [? _]].
  - apply (bool_decide_unpack _). vm_compute. done.
  - set_solver.
  - set_solver.
  - intros r [->|[->|Hn%elem_of_nil]%elem_of_cons]%elem_of_cons; [vm_compute; by eexists..|done].
  - apply sample_heap_links.
Qed.

Lemma queue_refines_list_witness :
  ∃ q', run_qops [OpPopleft; OpAppendN [Blk 2; Blk 0]; OpRemove (Blk 2); OpPopleftN 2] sample_queue
    = (Ret [[Blk 0]; []; []; [Blk 1; Blk 0]], q') ∧ queue_rep q' [] ∧ meta_kept sample_queue q'.
Proof.
  apply (queue_refines_list sample_queue {[Blk 0; Blk 1; Blk 2]}
    [OpPopleft; OpAppendN [Blk 2; Blk 0]; OpRemove (Blk 2); OpPopleftN 2] [Blk 0; Blk 1]).
  - apply sample_queue_rep.
  - intros b Hb. rewrite !elem_of_union, !elem_of_singleton in Hb.
    destruct Hb as [[->| ->]| ->]; vm_compute; by eexists.
  - vm_compute. reflexivity.
Defined.

Lemma queue_init_enumerates_witness :
  ∃ q', queue_init [Blk 2; Blk 0] (mkQueue sample_heap 0) = (Ret tt, q') ∧
    queue_rep q' [Blk 2; Blk 0] ∧ get_all_free_blocks 3 q' = (Ret (Some [Blk 2; Blk 0]), q').
Proof.
  apply (queue_init_enumerates (mkQueue sample_heap 0) [Blk 2; Blk 0] 3).
  - apply (bool_decide_unpack _). vm_compute. done.
  - set_solver.
  - set_solver.
  - intros r [->|[->|Hn%elem_of_nil]%elem_of_cons]%elem_of_cons; [vm_compute; by eexists..|done].
  - apply sample_heap_links.
  - simpl. lia.
Defined.

Lemma queue_errors_unchanged_witness :
  remove (Blk 2) sample_queue = (Raise RuntimeError, sample_queue) ∧
  ([Blk 0; Blk 1] = [] → popleft sample_queue = (Raise ValueError, sample_queue)).
Proof.
  destruct (queue_errors_unchanged sample_queue [Blk 0; Blk 1] (Blk 2) sample_queue_rep) as [H1 H2].
  split; [|exact H2]. apply H1. apply (bool_decide_unpack _). vm_compute. done.
Defined.
