(* ===== verification/BlockMap.v ===== *)
(** [BlockHashToBlockMap] of src/vllm/v1/core/block_pool.py: a hash names one block or an
    insertion-ordered dictionary of blocks; insertion, lookup and removal, and the multimap
    they implement. *)
From S2P Require Import Prelude.
From S2P Require Import Request.
From S2P Require Import BlockHash.
From S2P Require Import FreeQueue.
Local Open Scope Z_scope.

(** ** Insertion-ordered dictionaries *)

(** A Python [dict[int, V]] as its items in insertion order: [d[k] = v] keeps the
    position of a key that is already there. *)
Fixpoint dict_set {V} (k : Z) (v : V) (d : list (Z * V)) : list (Z * V) :=
  match d with
  | [] => [(k, v)]
  | (k', v') :: d' => if k' =? k then (k, v) :: d' else (k', v') :: dict_set k v d'
  end.

(** [d.pop(k, None)]. *)
Fixpoint dict_pop {V} (k : Z) (d : list (Z * V)) : option V * list (Z * V) :=
  match d with
  | [] => (None, [])
  | (k', v') :: d' =>
      if k' =? k then (Some v', d')
      else let '(o, d'') := dict_pop k d' in (o, (k', v') :: d'')
  end.

(** ** The map *)

(** [KVCacheBlock | dict[int, KVCacheBlock]]. *)
Inductive cached_blocks :=
  | Single (b : bref)
  | Multi (d : list (Z * bref)).

(** [BlockHashToBlockMap._cache]. *)
Abbreviation BlockHashToBlockMap := (gmap bytes cached_blocks).

(** [get_one_block]; [next] on the iterator of an empty dict raises. *)
Definition get_one_block (m : BlockHashToBlockMap) (key : bytes) : outcome (option bref) :=
  match m !! key with
  | None => Ret None
  | Some (Single b) => Ret (Some b)
  | Some (Multi []) => Raise StopIteration
  | Some (Multi ((_, b) :: _)) => Ret (Some b)
  end.

Section map_ops.
(** [block.block_id], read from the block object. *)
Context (bid : bref → Z).

(** [insert]. *)
Definition map_insert (m : BlockHashToBlockMap) (key : bytes) (block : bref) :
    BlockHashToBlockMap :=
  match m !! key with
  | None => <[key := Single block]> m
  | Some (Single b) => <[key := Multi (dict_set (bid block) block [(bid b, b)])]> m
  | Some (Multi d) => <[key := Multi (dict_set (bid block) block d)]> m
  end.

(** [pop]. *)
Definition map_pop (m : BlockHashToBlockMap) (key : bytes) (block_id : Z) :
    option bref * BlockHashToBlockMap :=
  match m !! key with
  | None => (None, m)
  | Some (Single b) =>
      if bid b =? block_id then (Some b, delete key m)
      else (None, <[key := Single b]> (delete key m))
  | Some (Multi d) =>
      let '(block, d') := dict_pop block_id d in
      (block, match d' with [] => delete key m | _ => <[key := Multi d']> (delete key m) end)
  end.

(** [__len__]. *)
Definition map_len (m : BlockHashToBlockMap) : Z := Z.of_nat (size m).

(** ** The multimap it represents *)

(** The blocks stored under a key, oldest first. *)
Definition entries (m : BlockHashToBlockMap) (key : bytes) : list bref :=
  match m !! key with
  | None => []
  | Some (Single b) => [b]
  | Some (Multi d) => d.*2
  end.

(** The inner dict that holds [bs] under their own ids. *)
Definition dict_of (bs : list bref) : list (Z * bref) := (λ b, (bid b, b)) <$> bs.

(** No key is kept without blocks, and inner dicts are indexed by block ids. *)
Definition map_wf (m : BlockHashToBlockMap) : Prop :=
  ∀ key v, m !! key = Some v →
    entries m key ≠ [] ∧ NoDup (bid <$> entries m key) ∧
    ∀ d, v = Multi d → d = dict_of (entries m key).

Lemma dict_of_snd bs : (dict_of bs).*2 = bs.
Proof. unfold dict_of. rewrite <-list_fmap_compose. apply list_fmap_id. Qed.

Lemma dict_set_of b bs :
  (∀ b', b' ∈ bs → bid b' = bid b → b' = b) →
  dict_set (bid b) b (dict_of bs) = dict_of (if decide (b ∈ bs) then bs else bs ++ [b]).
Proof.
  induction bs as [|x bs IH]; intros Hinj; simpl; [done|].
  destruct (Z.eqb_spec (bid x) (bid b)) as [He|Hne].
  - assert (x = b) as -> by (apply Hinj; [by left|done]). by rewrite decide_True by by left.
  - rewrite IH by (intros; apply Hinj; [by right|done]).
    assert (x ≠ b) by congruence.
    destruct (decide (b ∈ bs)).
    + by rewrite decide_True by by right.
    + rewrite decide_False by (rewrite elem_of_cons; naive_solver). done.
Qed.

Lemma dict_pop_of k bs :
  NoDup (bid <$> bs) →
  dict_pop k (dict_of bs) =
    (head (filter (λ b, bid b = k) bs), dict_of (filter (λ b, bid b ≠ k) bs)).
Proof.
  induction bs as [|x bs IH]; simpl; [done|]. intros [Hx Hnd]%NoDup_cons.
  destruct (Z.eqb_spec (bid x) k) as [He|Hne].
  - rewrite filter_cons_True by done. rewrite filter_cons_False by naive_solver.
    rewrite (filter_all (λ b, bid b ≠ k)); [done|]. intros y Hy Hk. apply Hx.
    apply list_elem_of_fmap. exists y. by rewrite He.
  - rewrite filter_cons_False by done. rewrite filter_cons_True by done.
    change ((λ b, (bid b, b)) <$> bs) with (dict_of bs). by rewrite IH.
Qed.

Lemma map_wf_empty : map_wf ∅.
Proof. intros k v H. by rewrite lookup_empty in H. Qed.

(** A key is bound exactly when it has blocks. *)
Lemma map_wf_bound m key : map_wf m → (entries m key = [] ↔ m !! key = None).
Proof.
  intros Hwf. unfold entries at 1. destruct (m !! key) as [v|] eqn:E; [|done].
  destruct (Hwf _ _ E) as (Hne & _ & _). unfold entries in Hne. rewrite E in Hne.
  split; [intros H; by destruct v|done].
Qed.

Lemma entries_insert m key v key' :
  entries (<[key := v]> m) key' =
    if decide (key = key') then match v with Single b => [b] | Multi d => d.*2 end
    else entries m key'.
Proof. unfold entries. rewrite lookup_insert. by case_decide. Qed.

Lemma entries_delete m key key' :
  entries (delete key m) key' = if decide (key = key') then [] else entries m key'.
Proof. unfold entries. rewrite lookup_delete. by case_decide. Qed.

(** Binding one key to well-formed blocks keeps the map well formed. *)
Lemma map_wf_bind m key v bs :
  (∀ key' v', key' ≠ key → m !! key' = Some v' →
     entries m key' ≠ [] ∧ NoDup (bid <$> entries m key') ∧
     ∀ d, v' = Multi d → d = dict_of (entries m key')) →
  bs ≠ [] → NoDup (bid <$> bs) → v = Multi (dict_of bs) ∨ (∃ b, v = Single b ∧ bs = [b]) →
  map_wf (<[key := v]> m).
Proof.
  intros Hwf Hne Hnd Hv key' v' Hl. rewrite entries_insert. rewrite lookup_insert in Hl.
  case_decide as Hk; [|by apply Hwf].
  simplify_eq. destruct Hv as [->|(b & -> & ->)].
  - rewrite dict_of_snd. split_and!; [done..|]. by intros d [= <-].
  - done.
Qed.

Lemma get_one_block_spec m key :
  map_wf m → get_one_block m key = Ret (head (entries m key)).
Proof.
  intros Hwf. unfold get_one_block. destruct (m !! key) as [v|] eqn:E.
  - destruct (Hwf _ _ E) as (Hne & _). unfold entries in *. rewrite E in *.
    destruct v as [b|[|[]]]; done.
  - unfold entries. by rewrite E.
Qed.

Lemma map_insert_spec m key b :
  map_wf m → (∀ b', b' ∈ entries m key → bid b' = bid b → b' = b) →
  map_wf (map_insert m key b) ∧
  ∀ key', entries (map_insert m key b) key' =
    if decide (key = key') then
      (if decide (b ∈ entries m key) then entries m key else entries m key ++ [b])
    else entries m key'.
Proof.
  intros Hwf Hinj. set (bs := if decide (b ∈ entries m key) then entries m key
                              else entries m key ++ [b]).
  assert (bs ≠ []) as Hne.
  { unfold bs. case_decide as Hb; [by intros H; rewrite H in Hb; apply elem_of_nil in Hb|].
    by destruct (entries m key). }
  assert (NoDup (bid <$> entries m key)) as Hnd0.
  { destruct (m !! key) as [v|] eqn:E; [by apply (Hwf _ _ E)|].
    apply map_wf_bound in E as ->; [constructor|done]. }
  assert (NoDup (bid <$> bs)) as Hnd.
  { unfold bs. case_decide as Hb; [done|]. rewrite fmap_app. apply NoDup_app.
    split_and!; [done| |apply NoDup_singleton].
    intros x (b' & -> & Hb')%list_elem_of_fmap Hx%list_elem_of_singleton.
    apply Hb. by rewrite <-(Hinj b'). }
  assert (∀ v, (v = Multi (dict_of bs) ∨ (∃ b0, v = Single b0 ∧ bs = [b0])) →
    map_wf (<[key:=v]> m) ∧ ∀ key', entries (<[key:=v]> m) key' =
      if decide (key = key') then bs else entries m key') as Hgen.
  { intros v Hv. split; [apply (map_wf_bind m key v bs); [intros; by apply Hwf|done..]|].
    intros key'. rewrite entries_insert. case_decide; [|done].
    destruct Hv as [->|(? & -> & ->)]; [apply dict_of_snd|done]. }
  unfold map_insert. destruct (m !! key) as [[b0|d]|] eqn:E; apply Hgen; clear Hgen.
  - left. assert (entries m key = [b0]) as He by (unfold entries; by rewrite E).
    unfold bs. f_equal. rewrite He in *. rewrite <-dict_set_of by done. done.
  - left. destruct (Hwf _ _ E) as (_ & _ & Hd). rewrite (Hd d eq_refl).
    by rewrite dict_set_of by done.
  - right. exists b. split; [done|]. unfold bs. apply map_wf_bound in E; [|done]. by rewrite E.
Qed.

Lemma map_pop_spec m key id :
  map_wf m →
  (map_pop m key id).1 = head (filter (λ b, bid b = id) (entries m key)) ∧
  map_wf (map_pop m key id).2 ∧
  ∀ key', entries (map_pop m key id).2 key' =
    if decide (key = key') then filter (λ b, bid b ≠ id) (entries m key) else entries m key'.
Proof.
  intros Hwf.
  assert (map_wf (delete key m) ∧ ∀ key', entries (delete key m) key' =
    if decide (key = key') then [] else entries m key') as [Hdwf Hde].
  { split; [|apply entries_delete]. intros key' v Hl. rewrite entries_delete.
    rewrite lookup_delete in Hl. case_decide; [done|]. by apply Hwf. }
  unfold map_pop. destruct (m !! key) as [[b|d]|] eqn:E.
  - assert (entries m key = [b]) as He by (unfold entries; by rewrite E). rewrite He.
    destruct (Z.eqb_spec (bid b) id) as [Hid|Hid]; simpl.
    + rewrite filter_cons_True, filter_cons_False by naive_solver. done.
    + rewrite filter_cons_False, filter_cons_True by done. rewrite insert_delete_eq.
      rewrite insert_id by done. split_and!; [done..|].
      intros key'. case_decide; [by subst|done].
  - destruct (Hwf _ _ E) as (Hne & Hnd & Hd). specialize (Hd d eq_refl).
    rewrite Hd, dict_pop_of by done. simpl. split; [done|].
    destruct (filter (λ b, bid b ≠ id) (entries m key)) as [|x fl] eqn:Ef; [by split|].
    simpl. change ((bid x, x) :: _) with (dict_of (x :: fl)).
    rewrite insert_delete_eq. split.
    + apply (map_wf_bind m key _ (x :: fl)); [intros; by apply Hwf|done| |by left].
      rewrite <-Ef. clear -Hnd. induction (entries m key) as [|y l IH]; [constructor|].
      simpl in Hnd. apply NoDup_cons in Hnd as [Hy Hnd]. rewrite filter_cons.
      case_decide; [|by apply IH]. simpl. apply NoDup_cons. split; [|by apply IH].
      intros (z & Hz & Hin)%list_elem_of_fmap. apply Hy. apply list_elem_of_fmap. exists z.
      split; [done|]. by apply list_elem_of_filter in Hin as [_ ?].
    + intros key'. rewrite entries_insert. case_decide; [|done]. apply dict_of_snd.
  - assert (entries m key = []) as He by (by apply map_wf_bound). rewrite He.
    simpl. split_and!; [done..|]. intros key'. case_decide; [by subst|done].
Qed.

End map_ops.

(** ** Properties *)

(** the hash map is a multimap. Looking up a key gives its oldest block, inserting a
    new block puts it behind the others, and popping that block again by its id gives
    the block back and restores every key, through all the representation changes
    between no entry, a single block and an inner dict. *)
Theorem block_map_insert_pop bid m key b :
  map_wf bid m → (∀ b', b' ∈ entries m key → bid b' ≠ bid b) →
  get_one_block m key = Ret (head (entries m key)) ∧
  get_one_block (map_insert bid m key b) key = Ret (head (entries m key ++ [b])) ∧
  (map_pop bid (map_insert bid m key b) key (bid b)).1 = Some b ∧
  map_wf bid (map_pop bid (map_insert bid m key b) key (bid b)).2 ∧
  ∀ key', entries (map_pop bid (map_insert bid m key b) key (bid b)).2 key' = entries m key'.
Proof.
  intros Hwf Hid.
  assert (b ∉ entries m key) as Hb by (intros Hb; by apply (Hid b)).
  destruct (map_insert_spec bid m key b Hwf) as [Hwf1 He1].
  { intros b' Hb' Heq. by apply Hid in Hb'. }
  rewrite (decide_False (P := b ∈ _)) in He1 by done.
  destruct (map_pop_spec bid (map_insert bid m key b) key (bid b) Hwf1) as (Hp & Hwf2 & He2).
  assert (filter (λ x, bid x = bid b) (entries m key) = []) as Hnil.
  { destruct (filter _ (entries m key)) as [|x fl] eqn:Ef; [done|].
    assert (x ∈ filter (λ x, bid x = bid b) (entries m key)) as Hx by (rewrite Ef; by left).
    apply list_elem_of_filter in Hx as [Heq Hx]. by apply Hid in Hx. }
  rewrite He1, decide_True, filter_app, Hnil, filter_cons_True in Hp by done.
  split_and!; [by apply (get_one_block_spec bid)| |done|done|].
  - rewrite (get_one_block_spec bid) by done. by rewrite He1, decide_True.
  - intros key'. rewrite He2, !He1. destruct (decide (key = key')) as [<-|]; [|done].
    rewrite decide_True by done. rewrite filter_app, filter_cons_False by naive_solver.
    rewrite app_nil_r. apply filter_all. intros x Hx. by apply Hid.
Qed.

(** Three blocks under one key: a single block, then an inner dict. *)
Definition sample_bid (r : bref) : Z := match r with Blk i => Z.of_nat i | _ => -1 end.
Definition sample_map : BlockHashToBlockMap := map_insert sample_bid ∅ [7] (Blk 4).

Lemma sample_map_wf : map_wf sample_bid sample_map.
Proof.
  apply map_insert_spec; [apply map_wf_empty|]. intros b' Hb'. vm_compute in Hb'.
  by apply elem_of_nil in Hb'.
Qed.

Lemma block_map_insert_pop_witness :
  (map_pop sample_bid (map_insert sample_bid sample_map [7] (Blk 2)) [7] 2).1 = Some (Blk 2) ∧
  entries (map_pop sample_bid (map_insert sample_bid sample_map [7] (Blk 2)) [7] 2).2 [7] = [Blk 4].
Proof.
  destruct (block_map_insert_pop sample_bid sample_map [7] (Blk 2)) as (_ & _ & Hp & _ & He).
  - apply sample_map_wf.
  - intros b' Hb'. vm_compute in Hb'. apply list_elem_of_singleton in Hb' as ->. done.
  - split; [exact Hp|]. exact (He [7]).
Defined.
