(* ===== verification/BlockPool.v ===== *)
(** [BlockPool] of src/vllm/v1/core/block_pool.py: the store of block objects with the free
    queue, the map of cached blocks, the null block and the event log, and every operation on
    them: allocation, eviction, touching, freeing, caching full blocks and resetting. *)
From S2P Require Import Prelude.
From S2P Require Import Request.
From S2P Require Import BlockHash.
From S2P Require Import FreeQueue.
From S2P Require Import BlockMap.
Local Open Scope Z_scope.

(** ** State *)

(** The events of [vllm.distributed.kv_events] the pool emits. *)
Inductive KVCacheEvent :=
  | BlockStored (ev_block_hashes : list ExternalBlockHash)
      (parent_block_hash : option ExternalBlockHash) (token_ids : list Z) (block_size : Z)
      (lora_id : option Z) (medium : string) (ev_lora_name : option string)
      (extra_keys : option (list (option (list extra_key))))
  | BlockRemoved (ev_block_hashes : list ExternalBlockHash) (medium : string)
  | AllBlocksCleared.

Definition MEDIUM_GPU : string := "GPU".

(** [free_block_queue] holds the store of block objects; [use_int_hashes] is the
    environment setting [maybe_convert_block_hash] reads. The metrics collector is
    absent. *)
Record BlockPool := mkPool {
  num_gpu_blocks : Z;
  enable_caching : bool;
  hash_block_size : Z;
  blocks : list bref;
  free_block_queue : Q;
  cached_block_hash_to_block : BlockHashToBlockMap;
  null_block : bref;
  enable_kv_cache_events : bool;
  use_int_hashes : bool;
  kv_event_queue : list KVCacheEvent
}.

Definition set_queue (q : Q) (p : BlockPool) : BlockPool :=
  mkPool (num_gpu_blocks p) (enable_caching p) (hash_block_size p) (blocks p) q
    (cached_block_hash_to_block p) (null_block p) (enable_kv_cache_events p) (use_int_hashes p)
    (kv_event_queue p).
Definition set_cache (m : BlockHashToBlockMap) (p : BlockPool) : BlockPool :=
  mkPool (num_gpu_blocks p) (enable_caching p) (hash_block_size p) (blocks p)
    (free_block_queue p) m (null_block p) (enable_kv_cache_events p) (use_int_hashes p)
    (kv_event_queue p).
Definition set_events (es : list KVCacheEvent) (p : BlockPool) : BlockPool :=
  mkPool (num_gpu_blocks p) (enable_caching p) (hash_block_size p) (blocks p)
    (free_block_queue p) (cached_block_hash_to_block p) (null_block p)
    (enable_kv_cache_events p) (use_int_hashes p) es.

Abbreviation P := BlockPool.

Definition pheap (p : P) : store := heap (free_block_queue p).

(** ** Access to block objects *)

Definition on_queue {A} : M Q A → M P A := zoom free_block_queue set_queue.
Definition read_block (r : bref) : M P KVCacheBlock :=
  o ← gets (λ p, pheap p !! r); from_option_raise AttributeError o.
Definition upd_block (f : KVCacheBlock → KVCacheBlock) (r : bref) : M P unit :=
  on_queue (modify (on_heap (alter f r))).

(** [block.ref_cnt += d]. *)
Definition add_ref (d : Z) (r : bref) : M P unit :=
  upd_block (λ b, with_ref_cnt (ref_cnt b + d) b) r.

(** [block.reset_hash()]. *)
Definition reset_hash (r : bref) : M P unit := upd_block (with_hash None) r.

(** The setter of [block.block_hash], with its assertion. *)
Definition set_block_hash (k : bytes) (r : bref) : M P unit :=
  b ← read_block r;
  py_assert (bool_decide (block_hash b = None)) ;;
  upd_block (with_hash (Some k)) r.

Definition bid_of (h : store) (r : bref) : Z :=
  match h !! r with Some b => block_id b | None => -1 end.

Definition add_event (e : KVCacheEvent) : M P unit :=
  modify (λ p, set_events (kv_event_queue p ++ [e]) p).

(** ** Operations *)

(** [BlockPool.__init__]. *)
Definition pool_init (num_gpu_blocks : Z) (enable_caching : bool) (hash_block_size : Z)
    (enable_kv_cache_events use_int_hashes : bool) : outcome BlockPool :=
  if num_gpu_blocks <=? 0 then Raise AssertionError
  else
    let ids := seq 0 (Z.to_nat num_gpu_blocks) in
    let blocks := Blk <$> ids in
    let objects : store := list_to_map ((λ i, (Blk i, new_block (Z.of_nat i))) <$> ids) in
    match (queue_init blocks ;; popleft) (mkQueue objects 0) with
    | (Ret null_block, q) =>
        Ret (mkPool num_gpu_blocks enable_caching hash_block_size blocks
               (on_heap (alter (with_null true) null_block) q) ∅ null_block
               enable_kv_cache_events use_int_hashes [])
    | (Raise e, _) => Raise e
    end.

(** [get_cached_block]: the loop over the groups. *)
Fixpoint get_cached_loop (block_hash : bytes) (kv_cache_group_ids : list Z)
    (cached_blocks : list bref) : M P (option (list bref)) :=
  match kv_cache_group_ids with
  | [] => mret (Some cached_blocks)
  | group_id :: rest =>
      key ← of_outcome (make_block_hash_with_group_id block_hash group_id);
      m ← gets cached_block_hash_to_block;
      block ← of_outcome (get_one_block m key);
      match block with
      | None => mret None
      | Some b => get_cached_loop block_hash rest (cached_blocks ++ [b])
      end
  end.

Definition get_cached_block (block_hash : bytes) (kv_cache_group_ids : list Z) :
    M P (option (list bref)) :=
  get_cached_loop block_hash kv_cache_group_ids [].

(** [_maybe_evict_cached_block]. *)
Definition maybe_evict_cached_block (block : bref) : M P bool :=
  b ← read_block block;
  match block_hash b with
  | None => mret false
  | Some key =>
      h ← gets pheap;
      m ← gets cached_block_hash_to_block;
      let '(popped, m') := map_pop (bid_of h) m key (block_id b) in
      modify (set_cache m') ;;
      match popped with
      | None => mret false
      | Some _ =>
          reset_hash block ;;
          ev ← gets enable_kv_cache_events;
          ui ← gets use_int_hashes;
          (if (ev : bool)
           then add_event (BlockRemoved [maybe_convert_block_hash ui (get_block_hash key)] MEDIUM_GPU)
           else mret tt) ;;
          mret true
      end
  end.

(** [get_num_free_blocks]. *)
Definition get_num_free_blocks (p : P) : Z := num_free_blocks (free_block_queue p).

(** The body of the loops of [get_new_blocks]: the assertion and the count. *)
Definition take_block (block : bref) : M P unit :=
  b ← read_block block;
  py_assert (ref_cnt b =? 0) ;;
  add_ref 1 block.

(** [get_new_blocks]. *)
Definition get_new_blocks (num_blocks : Z) : M P (list bref) :=
  free ← gets get_num_free_blocks;
  if free <? num_blocks then raise ValueError
  else
    ret ← on_queue (popleft_n num_blocks);
    caching ← gets enable_caching;
    (if (caching : bool)
     then for_each ret (λ block, maybe_evict_cached_block block ;; take_block block)
     else for_each ret take_block) ;;
    mret ret.

(** [touch]. *)
Definition touch (blocks : list bref) : M P unit :=
  for_each blocks (λ block,
    b ← read_block block;
    (if (ref_cnt b =? 0) && negb (is_null b) then on_queue (remove block) else mret tt) ;;
    add_ref 1 block).

(** The comprehension of [free_blocks]: the blocks nobody holds any more. *)
Definition releasable (h : store) (r : bref) : bool :=
  match h !! r with Some b => (ref_cnt b =? 0) && negb (is_null b) | None => false end.

(** [free_blocks]. *)
Definition free_blocks (ordered_blocks : list bref) : M P unit :=
  for_each ordered_blocks (add_ref (-1)) ;;
  h ← gets pheap;
  on_queue (append_n (filter (λ r, releasable h r = true) ordered_blocks)).

(** [evict_blocks], on the ids in the order the set iterates over them. *)
Definition evict_blocks (block_ids : list Z) : M P unit :=
  for_each block_ids (λ block_id,
    bs ← gets blocks;
    py_assert (block_id <? Z.of_nat (length bs)) ;;
    block ← from_option_raise IndexError (py_get bs block_id);
    maybe_evict_cached_block block ;;
    mret tt).

(** [reset_prefix_cache]. *)
Definition reset_prefix_cache : M P bool :=
  total ← gets num_gpu_blocks;
  free ← gets get_num_free_blocks;
  let num_used_blocks := total - free in
  if negb (num_used_blocks =? 1) then mret false
  else
    modify (set_cache ∅) ;;
    bs ← gets blocks;
    for_each bs reset_hash ;;
    ev ← gets enable_kv_cache_events;
    (if (ev : bool) then add_event AllBlocksCleared else mret tt) ;;
    mret true.

(** [take_events]. *)
Definition take_events : M P (list KVCacheEvent) :=
  ev ← gets enable_kv_cache_events;
  if negb ev then mret []
  else
    events ← gets kv_event_queue;
    modify (set_events []) ;;
    mret events.

(** *** Caching full blocks *)

(** [cache_full_blocks] also updates a memo table of the request it is given. *)
Abbreviation PR := (BlockPool * Request)%type.
Definition on_pool {A} : M P A → M PR A := zoom fst (λ p s, (p, s.2)).
Definition on_request {A} : M Request A → M PR A := zoom snd (λ r s, (s.1, r)).

(** The loop that stores the new full blocks; [i] is the index of the first one. *)
Fixpoint cache_loop (new_block_hashes : list bytes) (kv_cache_group_id : Z)
    (new_full_blocks : list bref) (i : Z) (new_hashes : list ExternalBlockHash) :
    M P (list ExternalBlockHash) :=
  match new_full_blocks with
  | [] => mret new_hashes
  | blk :: rest =>
      b ← read_block blk;
      if is_null b then cache_loop new_block_hashes kv_cache_group_id rest (i + 1) new_hashes
      else
        py_assert (bool_decide (block_hash b = None)) ;;
        block_hash ← from_option_raise IndexError (py_get new_block_hashes i);
        key ← of_outcome (make_block_hash_with_group_id block_hash kv_cache_group_id);
        set_block_hash key blk ;;
        modify (λ p, set_cache
          (map_insert (bid_of (pheap p)) (cached_block_hash_to_block p) key blk) p) ;;
        ev ← gets enable_kv_cache_events;
        ui ← gets use_int_hashes;
        cache_loop new_block_hashes kv_cache_group_id rest (i + 1)
          (if (ev : bool) then new_hashes ++ [maybe_convert_block_hash ui block_hash]
           else new_hashes)
  end.

(** The loop that collects the extra keys of the blocks [idxs]. *)
Fixpoint event_keys_loop (blocks : list bref) (block_size : Z) (idxs : list Z) (curr_mm_idx : Z)
    (extra_keys_list : list (option (list extra_key))) :
    M PR (list (option (list extra_key))) :=
  match idxs with
  | [] => mret extra_keys_list
  | i :: idxs' =>
      blk ← from_option_raise IndexError (py_get blocks i);
      b ← on_pool (read_block blk);
      if is_null b then event_keys_loop blocks block_size idxs' curr_mm_idx extra_keys_list
      else
        let block_start := i * block_size in
        let block_end := block_start + block_size in
        '(extra_keys, curr_mm_idx') ←
          on_request (generate_block_hash_extra_keys block_start block_end curr_mm_idx);
        event_keys_loop blocks block_size idxs' curr_mm_idx' (extra_keys_list ++ [extra_keys])
  end.

(** The granularity at which [cache_full_blocks] reads the request's hashes. *)
Definition select_hashes (hs : list bytes) (block_size hash_block_size : Z) :
    outcome BlockHashList :=
  if block_size =? hash_block_size then Ret (PlainHashes hs)
  else if hash_block_size =? 0 then Raise ZeroDivisionError
  else if negb (block_size mod hash_block_size =? 0) then Raise AssertionError
  else if block_size / hash_block_size =? 0 then Raise ZeroDivisionError
  else Ret (ScaledHashes hs (block_size / hash_block_size)).

(** [cache_full_blocks]. *)
Definition cache_full_blocks (blocks : list bref)
    (num_cached_blocks num_full_blocks block_size kv_cache_group_id : Z) : M PR unit :=
  if num_full_blocks <=? num_cached_blocks then mret tt
  else
    let new_full_blocks := py_slice blocks num_cached_blocks num_full_blocks in
    hs ← on_request (gets block_hashes);
    py_assert (num_full_blocks <=? Z.of_nat (length hs)) ;;
    hbs ← on_pool (gets hash_block_size);
    block_hashes ← of_outcome (select_hashes hs block_size hbs);
    new_block_hashes ← from_option_raise IndexError (hl_from block_hashes num_cached_blocks);
    new_hashes ← on_pool (cache_loop new_block_hashes kv_cache_group_id new_full_blocks 0 []);
    ev ← on_pool (gets enable_kv_cache_events);
    ui ← on_pool (gets use_int_hashes);
    if negb ev then mret tt
    else
      parent ← (if num_cached_blocks =? 0 then mret None
                else h ← from_option_raise IndexError
                           (hl_get block_hashes (num_cached_blocks - 1));
                     mret (Some (maybe_convert_block_hash ui h)));
      let start_token_idx := num_cached_blocks * block_size in
      let end_token_idx := num_full_blocks * block_size in
      extra_keys_list ←
        event_keys_loop blocks block_size (py_range num_cached_blocks num_full_blocks) 0 [];
      tokens ← on_request (gets all_token_ids);
      lora ← on_request (gets lora_request);
      on_pool (add_event (BlockStored new_hashes parent
        (py_slice tokens start_token_idx end_token_idx) block_size
        (adapter_id <$> lora) MEDIUM_GPU (lora_name <$> lora)
        (match extra_keys_list with [] => None | _ => Some extra_keys_list end))).
