(* ===== verification/PoolInv.v ===== *)
(** The invariant of a block pool: the free list holds exactly the blocks without references,
    the hash map agrees with the hashes the blocks carry, and reference counts are those a client
    accounts for. Allocation, eviction, touching and freeing keep it. *)
From S2P Require Import Prelude.
From S2P Require Import Request.
From S2P Require Import BlockHash.
From S2P Require Import FreeQueue.
From S2P Require Import BlockMap.
From S2P Require Import BlockPool.
Local Open Scope Z_scope.

(** ** Observations *)

Definition ref_of (p : P) (r : bref) : Z :=
  match pheap p !! r with Some b => ref_cnt b | None => 0 end.
Definition hash_of (p : P) (r : bref) : option bytes := pheap p !! r ≫= block_hash.
Definition cached (p : P) (k : bytes) : list bref := entries (cached_block_hash_to_block p) k.

(** What no operation changes: the configuration, and which block an object is. *)
Definition ident (b : KVCacheBlock) : Z * bool := (block_id b, is_null b).

Definition config (p : P) :=
  (num_gpu_blocks p, enable_caching p, hash_block_size p, blocks p, null_block p,
   enable_kv_cache_events p, use_int_hashes p).

Definition frame (p p' : P) : Prop :=
  config p = config p' ∧ ∀ r, ident <$> pheap p !! r = ident <$> pheap p' !! r.

#[global] Instance frame_equiv : Equivalence frame.
Proof.
  split; [done|intros p p' [Hc Hi]; by split|].
  intros p1 p2 p3 [Hc Hi] [Hc' Hi']. split; [congruence|]. intros r. by rewrite Hi, Hi'.
Qed.

(** Two queues with the same links represent the same list. *)
Definition same_links (q q' : Q) : Prop :=
  num_free_blocks q' = num_free_blocks q ∧
  ∀ r, nxt (heap q') r = nxt (heap q) r ∧ prv (heap q') r = prv (heap q) r ∧
       (is_Some (heap q !! r) → is_Some (heap q' !! r)).

Lemma seg_ext h h' x ys :
  (∀ r, nxt h' r = nxt h r ∧ prv h' r = prv h r) → seg h x ys → seg h' x ys.
Proof.
  intros H. revert x. induction ys as [|y ys IH]; intros x; simpl; [done|].
  destruct (H x) as [-> _], (H y) as [_ ->]. naive_solver.
Qed.

Lemma queue_rep_links q q' l : same_links q q' → queue_rep q l → queue_rep q' l.
Proof.
  intros [Hn Hl] [? ? ? ? ? ? ?]. split.
  - by rewrite Hn.
  - done.
  - intros r Hr. apply Hl. auto.
  - eapply seg_ext; [|done]. intros r. destruct (Hl r) as (? & ? & _). done.
  - by destruct (Hl FakeHead) as (_ & -> & _).
  - by destruct (Hl FakeTail) as (-> & _ & _).
  - intros r Hr. destruct (Hl r) as (-> & -> & _). auto.
Qed.

(** ** The invariant *)

Record static_ok (p : P) : Prop := {
  so_num : 0 < num_gpu_blocks p;
  so_blocks : blocks p = Blk <$> seq 0 (Z.to_nat (num_gpu_blocks p));
  so_null : null_block p = Blk 0;
  so_ident : ∀ i, Blk i ∈ blocks p →
    ident <$> pheap p !! Blk i = Some (Z.of_nat i, bool_decide (i = 0%nat))
}.

Definition refs_ok (p : P) : Prop := ∀ r, r ∈ blocks p → r ≠ Blk 0 → 0 ≤ ref_of p r.

(** The hash map and the hashes on the blocks agree in both directions, and the null
    block is never hashed. *)
Record cache_ok (p : P) : Prop := {
  co_wf : map_wf (bid_of (pheap p)) (cached_block_hash_to_block p);
  co_iff : ∀ k r, r ∈ cached p k ↔ r ∈ blocks p ∧ hash_of p r = Some k;
  co_null : hash_of p (Blk 0) = None
}.

(** The free queue holds exactly the unreferenced blocks other than the null block,
    in eviction order [l]. *)
Record pool_inv (p : P) (l : list bref) : Prop := {
  pi_static : static_ok p;
  pi_refs : refs_ok p;
  pi_cache : cache_ok p;
  pi_queue : queue_rep (free_block_queue p) l;
  pi_free : ∀ r, r ∈ l ↔ r ∈ blocks p ∧ r ≠ Blk 0 ∧ ref_of p r = 0
}.

Create HintDb pool.

Lemma frame_blocks p p' : frame p p' → blocks p' = blocks p.
Proof. intros [Hc _]. unfold config in Hc. congruence. Qed.

Lemma static_frame p p' : frame p p' → static_ok p → static_ok p'.
Proof.
  intros [Hc Hi] [Hn Hb Hz Hid]. unfold config in Hc. simplify_eq.
  split; [congruence..|]. intros i Hin. rewrite <-Hi. apply Hid. congruence.
Qed.

Lemma bid_of_frame p p' r : frame p p' → bid_of (pheap p) r = bid_of (pheap p') r.
Proof.
  intros [_ Hi]. specialize (Hi r). unfold bid_of.
  destruct (pheap p !! r), (pheap p' !! r); simplify_eq/=; done.
Qed.

Lemma map_wf_ext f g m : (∀ r, f r = g r) → map_wf f m → map_wf g m.
Proof.
  intros Hfg Hwf k v Hl. destruct (Hwf k v Hl) as (? & Hnd & Hd). split_and!; [done| |].
  - rewrite (list_fmap_ext g f); [done|]. intros. by rewrite Hfg.
  - intros d Hv. rewrite (Hd d Hv). unfold dict_of. apply list_fmap_ext. intros. by rewrite Hfg.
Qed.

(** The invariant of the cache only depends on the hashes and the map. *)
Lemma cache_ok_ext p p' :
  frame p p' → (∀ r, hash_of p' r = hash_of p r) →
  cached_block_hash_to_block p' = cached_block_hash_to_block p →
  cache_ok p → cache_ok p'.
Proof.
  intros Hf Hh Hm [Hwf Hiff Hnull]. split.
  - rewrite Hm. eapply map_wf_ext; [|done]. intros r. by apply bid_of_frame.
  - intros k r. unfold cached. rewrite Hm, Hh, (frame_blocks _ _ Hf). apply Hiff.
  - by rewrite Hh.
Qed.

Lemma static_alloc p r :
  static_ok p → r ∈ blocks p →
  ∃ i b, r = Blk i ∧ pheap p !! r = Some b ∧ block_id b = Z.of_nat i ∧
    is_null b = bool_decide (r = Blk 0) ∧ bid_of (pheap p) r = Z.of_nat i.
Proof.
  intros [_ Hb _ Hid] Hr. rewrite Hb in Hr. pose proof Hr as Hr'.
  apply list_elem_of_fmap in Hr as (i & -> & _). rewrite <-Hb in Hr'.
  specialize (Hid i Hr'). destruct (pheap p !! Blk i) as [b|] eqn:E; simplify_eq/=.
  exists i, b. unfold bid_of. rewrite E. unfold ident in Hid. simplify_eq.
  split_and!; try done. etrans; [done|]. apply bool_decide_ext. naive_solver.
Qed.

Lemma bid_inj p r r' :
  static_ok p → r ∈ blocks p → r' ∈ blocks p →
  bid_of (pheap p) r = bid_of (pheap p) r' → r = r'.
Proof.
  intros Hs Hr Hr' Heq. destruct (static_alloc _ _ Hs Hr) as (i & b & -> & _ & _ & _ & Hi).
  destruct (static_alloc _ _ Hs Hr') as (j & c & -> & _ & _ & _ & Hj).
  f_equal. lia.
Qed.

Lemma null_in_blocks p : static_ok p → Blk 0 ∈ blocks p.
Proof.
  intros [Hn Hb _ _]. rewrite Hb. apply list_elem_of_fmap. exists 0%nat. split; [done|].
  apply elem_of_seq. lia.
Qed.

(** ** Elementary steps *)

Lemma wp_read_block p r (Post : KVCacheBlock → P → Prop) E :
  static_ok p → r ∈ blocks p →
  (∀ b, pheap p !! r = Some b → block_id b = bid_of (pheap p) r →
     is_null b = bool_decide (r = Blk 0) → ref_cnt b = ref_of p r →
     block_hash b = hash_of p r → Post b p) →
  wp (read_block r) Post E p.
Proof.
  intros Hs Hr HP. destruct (static_alloc _ _ Hs Hr) as (i & b & -> & Hl & Hid & Hz & Hbid).
  unfold read_block. wp_steps. rewrite Hl. apply wp_ret.
  apply HP; [done|congruence|done|unfold ref_of; by rewrite Hl|unfold hash_of; by rewrite Hl].
Qed.

(** An update of a block object that leaves its links and its identity alone. *)
Definition pupd (f : KVCacheBlock → KVCacheBlock) (r : bref) (p : P) : P :=
  set_queue (on_heap (alter f r) (free_block_queue p)) p.

Definition gentle (f : KVCacheBlock → KVCacheBlock) : Prop :=
  ∀ b, ident (f b) = ident b ∧ next_free_block (f b) = next_free_block b ∧
       prev_free_block (f b) = prev_free_block b.

Lemma pheap_pupd f r p r' :
  pheap (pupd f r p) !! r' = if decide (r = r') then f <$> pheap p !! r' else pheap p !! r'.
Proof. unfold pheap, pupd; simpl. rewrite lookup_alter. by case_decide; subst. Qed.

Lemma pupd_frame f r p : gentle f → frame p (pupd f r p).
Proof.
  intros Hf. split; [done|]. intros r'. rewrite pheap_pupd. case_decide; [|done].
  destruct (pheap p !! r') as [b|]; [|done]. simpl. by destruct (Hf b) as [-> _].
Qed.

Lemma pupd_links f r p :
  gentle f → same_links (free_block_queue p) (free_block_queue (pupd f r p)).
Proof.
  intros Hf. split; [done|]. intros r'.
  pose proof (pheap_pupd f r p r') as Hl. unfold pheap in Hl. unfold nxt, prv. rewrite Hl.
  case_decide; [|done].
  destruct (heap (free_block_queue p) !! r') as [b|]; simpl; [|by split_and!].
  destruct (Hf b) as (_ & -> & ->). split_and!; [done..|by eauto].
Qed.

Lemma gentle_ref d : gentle (λ b, with_ref_cnt (ref_cnt b + d) b).
Proof. done. Qed.
Lemma gentle_hash h : gentle (with_hash h).
Proof. done. Qed.

#[export] Hint Resolve pupd_frame pupd_links gentle_ref gentle_hash : pool.
#[export] Hint Extern 0 (frame ?p ?p) => reflexivity : pool.

Lemma pupd_ref_ref d r p r' :
  is_Some (pheap p !! r) →
  ref_of (pupd (λ b, with_ref_cnt (ref_cnt b + d) b) r p) r' =
    ref_of p r' + if decide (r = r') then d else 0.
Proof.
  intros [b Hb]. unfold ref_of. rewrite pheap_pupd. case_decide; [|lia].
  subst. by rewrite Hb.
Qed.

Lemma pupd_ref_hash d r p r' :
  hash_of (pupd (λ b, with_ref_cnt (ref_cnt b + d) b) r p) r' = hash_of p r'.
Proof. unfold hash_of. rewrite pheap_pupd. case_decide; [|done]. by destruct (pheap p !! r'). Qed.

Lemma pupd_hash_ref h r p r' : ref_of (pupd (with_hash h) r p) r' = ref_of p r'.
Proof. unfold ref_of. rewrite pheap_pupd. case_decide; [|done]. by destruct (pheap p !! r'). Qed.

Lemma pupd_hash_hash h r p r' :
  is_Some (pheap p !! r) →
  hash_of (pupd (with_hash h) r p) r' = if decide (r = r') then h else hash_of p r'.
Proof.
  intros [b Hb]. unfold hash_of. rewrite pheap_pupd. case_decide; [|done].
  subst. by rewrite Hb.
Qed.

(** Queue operations only move links. *)
Lemma meta_frame p q :
  meta_kept (free_block_queue p) q →
  frame p (set_queue q p) ∧ (∀ r, ref_of (set_queue q p) r = ref_of p r) ∧
  (∀ r, hash_of (set_queue q p) r = hash_of p r).
Proof.
  intros Hm. split_and!; [split; [done|]|..]; intros r; specialize (Hm r);
    unfold ref_of, hash_of, pheap; simpl;
    destruct (heap (free_block_queue p) !! r), (heap q !! r); simplify_eq/=;
    unfold meta, ident in *; congruence.
Qed.

Lemma static_is_Some p r : static_ok p → r ∈ blocks p → is_Some (pheap p !! r).
Proof. intros Hs Hr. destruct (static_alloc _ _ Hs Hr) as (? & ? & _ & -> & _). eauto. Qed.

(** ** Eviction *)

(** The event an eviction of [r] emits. *)
Definition removal_event (p : P) (r : bref) : list KVCacheEvent :=
  match hash_of p r with
  | Some key =>
      if enable_kv_cache_events p
      then [BlockRemoved [maybe_convert_block_hash (use_int_hashes p) (get_block_hash key)] MEDIUM_GPU]
      else []
  | None => []
  end.

(** What evicting one block does. *)
Record evicts (p : P) (r : bref) (p' : P) : Prop := {
  ev_frame : frame p p';
  ev_links : same_links (free_block_queue p) (free_block_queue p');
  ev_ref : ∀ r', ref_of p' r' = ref_of p r';
  ev_hash : ∀ r', hash_of p' r' = if decide (r = r') then None else hash_of p r';
  ev_cached : ∀ k, cached p' k = filter (.≠ r) (cached p k);
  ev_events : kv_event_queue p' = kv_event_queue p ++ removal_event p r
}.

Lemma filter_bid_eq p r (l : list bref) :
  static_ok p → r ∈ blocks p → (∀ x, x ∈ l → x ∈ blocks p) →
  filter (λ b, bid_of (pheap p) b ≠ bid_of (pheap p) r) l = filter (.≠ r) l.
Proof.
  intros Hs Hr Hl. apply filter_ext_in. intros x Hx.
  split; intros Hne Heq; apply Hne; [by subst|]. eapply bid_inj; eauto.
Qed.

Lemma cached_in_blocks p k r : cache_ok p → r ∈ cached p k → r ∈ blocks p.
Proof. intros Hc Hr. by apply (co_iff p Hc) in Hr as [? _]. Qed.

(** A block with a hash is found under that hash when it is popped. *)
Lemma map_pop_cached p r key :
  static_ok p → cache_ok p → r ∈ blocks p → hash_of p r = Some key →
  let res := map_pop (bid_of (pheap p)) (cached_block_hash_to_block p) key (bid_of (pheap p) r) in
  is_Some res.1 ∧ map_wf (bid_of (pheap p)) res.2 ∧
  ∀ k, entries res.2 k = filter (.≠ r) (cached p k).
Proof.
  intros Hs Hc Hr Hh.
  destruct (map_pop_spec (bid_of (pheap p)) (cached_block_hash_to_block p) key
    (bid_of (pheap p) r) (co_wf p Hc)) as (Hp & Hwf & He).
  assert (r ∈ cached p key) as Hin by by apply (co_iff p Hc).
  cbv zeta. split_and!; [|done|].
  - rewrite Hp. destruct (filter _ _) as [|x fl] eqn:Ef; [|by eexists].
    assert (r ∈ filter (λ b, bid_of (pheap p) b = bid_of (pheap p) r) (cached p key)) as Hf
      by by apply list_elem_of_filter.
    unfold cached in Hf. rewrite Ef in Hf. by apply elem_of_nil in Hf.
  - intros k. rewrite He. case_decide as Hk.
    + subst k. apply filter_bid_eq; [done..|]. intros x. by apply (cached_in_blocks p).
    + unfold cached. symmetry. apply filter_all. intros x Hx ->. apply Hk.
      apply (co_iff p Hc) in Hx as [_ Hx]. congruence.
Qed.

Lemma evicts_cache_ok p r p' : cache_ok p → evicts p r p' →
  map_wf (bid_of (pheap p)) (cached_block_hash_to_block p') → cache_ok p'.
Proof.
  intros Hc [Hf _ _ Hh He _] Hwf. split.
  - eapply map_wf_ext; [|done]. intros x. by apply bid_of_frame.
  - intros k x. rewrite He, list_elem_of_filter, (co_iff p Hc), Hh, (frame_blocks _ _ Hf).
    case_decide; naive_solver.
  - rewrite Hh. case_decide; [done|]. apply (co_null p Hc).
Qed.

Lemma wp_maybe_evict p r E :
  static_ok p → cache_ok p → r ∈ blocks p →
  wp (maybe_evict_cached_block r)
    (λ res p', res = bool_decide (is_Some (hash_of p r)) ∧ evicts p r p' ∧ cache_ok p') E p.
Proof.
  intros Hs Hc Hr. unfold maybe_evict_cached_block. apply wp_bind.
  apply wp_read_block; [done..|]. intros b Hb Hid _ _ Hh. rewrite Hh.
  destruct (hash_of p r) as [key|] eqn:Hk; wp_steps.
  2:{ assert (evicts p r p) as Hev; [|by split_and!].
      split; [done|by split| done|..].
      - intros r'. case_decide; [congruence|done].
      - intros k. symmetry. apply filter_all. intros x Hx ->.
        apply (co_iff p Hc) in Hx as [_ Hx]. congruence.
      - unfold removal_event. by rewrite Hk, app_nil_r. }
  destruct (map_pop_cached p r key Hs Hc Hr Hk) as (Hpop & Hwf & He). rewrite Hid.
  destruct (map_pop _ _ _ _) as [popped m'] eqn:Epop; simpl in Hpop, Hwf, He.
  destruct Hpop as [x ->]. wp_steps. unfold reset_hash, upd_block, on_queue.
  apply wp_zoom. wp_steps. set (p1 := set_queue _ _).
  assert (p1 = set_cache m' (pupd (with_hash None) r p)) as Hp1 by done. clearbody p1.
  pose proof (static_is_Some p r Hs Hr) as Hal.
  assert (∀ p', pheap p' = pheap p1 → config p' = config p1 →
    cached_block_hash_to_block p' = m' → free_block_queue p' = free_block_queue p1 →
    kv_event_queue p' = kv_event_queue p ++ removal_event p r →
    evicts p r p' ∧ cache_ok p') as Hgen.
  { intros p' Hh' Hcf Hm' Hq' Hev.
    assert (evicts p r p') as Hev'.
    { split; subst p1.
      - split; [by rewrite Hcf|]. intros r'. rewrite Hh'. apply (pupd_frame _ r p). auto with pool.
      - rewrite Hq'. apply (pupd_links _ r p). auto with pool.
      - intros r'. unfold ref_of. rewrite Hh'. apply (pupd_hash_ref None r p).
      - intros r'. unfold hash_of. rewrite Hh'. apply (pupd_hash_hash None r p r' Hal).
      - intros k. unfold cached. rewrite Hm'. apply He.
      - done. }
    split; [done|]. eapply evicts_cache_ok; [done..|by rewrite Hm']. }
  assert (enable_kv_cache_events p1 = enable_kv_cache_events p ∧
    use_int_hashes p1 = use_int_hashes p) as [-> ->] by (by subst p1).
  destruct (enable_kv_cache_events p) eqn:Eev; unfold add_event; wp_steps;
    (split; [by rewrite bool_decide_true|]); apply Hgen; subst p1; try done;
    unfold removal_event; rewrite Hk, Eev; [done|by rewrite app_nil_r].
Qed.

(** ** Allocation *)

(** What handing out the blocks [xs] does, when [evict] says whether they lose their
    hashes. *)
Record handed_out (evict : bool) (p : P) (xs : list bref) (p' : P) : Prop := {
  ho_frame : frame p p';
  ho_ref : ∀ r, ref_of p' r = if decide (r ∈ xs) then 1 else ref_of p r;
  ho_hash : ∀ r, hash_of p' r =
    if decide (r ∈ xs ∧ evict = true) then None else hash_of p r;
  ho_cached : ∀ k, cached p' k =
    if evict then filter (.∉ xs) (cached p k) else cached p k;
  ho_events : kv_event_queue p' =
    kv_event_queue p ++ if evict then xs ≫= removal_event p else []
}.

Lemma wp_take_block p r (Post : unit → P → Prop) E :
  static_ok p → r ∈ blocks p → ref_of p r = 0 →
  Post tt (pupd (λ b, with_ref_cnt (ref_cnt b + 1) b) r p) →
  wp (take_block r) Post E p.
Proof.
  intros Hs Hr H0 HP. unfold take_block. apply wp_bind. apply wp_read_block; [done..|].
  intros b _ _ _ Href _. apply wp_bind, wp_assert; [apply Z.eqb_eq; lia|]. done.
Qed.

Lemma handed_out_nil e p : handed_out e p [] p.
Proof.
  split; [done|..].
  - intros r. by rewrite decide_False by apply not_elem_of_nil.
  - intros r. rewrite decide_False; [done|]. intros [H _]. by apply elem_of_nil in H.
  - intros k. destruct e; [|done]. symmetry. apply filter_all. intros. apply not_elem_of_nil.
  - destruct e; by rewrite app_nil_r.
Qed.

Lemma removal_event_ext p p' r :
  config p = config p' → hash_of p' r = hash_of p r → removal_event p' r = removal_event p r.
Proof.
  intros Hc Hh. unfold removal_event. rewrite Hh. unfold config in Hc. simplify_eq.
  replace (enable_kv_cache_events p') with (enable_kv_cache_events p) by congruence.
  by replace (use_int_hashes p') with (use_int_hashes p) by congruence.
Qed.

(** One more block: an optional eviction, then the count. *)
Lemma handed_out_snoc (e : bool) p xs p1 p2 r :
  handed_out e p xs p1 → r ∉ xs → ref_of p r = 0 → is_Some (pheap p2 !! r) →
  (if e then evicts p1 r p2 else p2 = p1) →
  handed_out e p (xs ++ [r]) (pupd (λ b, with_ref_cnt (ref_cnt b + 1) b) r p2).
Proof.
  intros [Hf Hr Hh Hc Hev] Hnin H0 Hal Hstep.
  assert (frame p1 p2 ∧ (∀ x, ref_of p2 x = ref_of p1 x) ∧
    (∀ x, hash_of p2 x = if decide (r = x ∧ e = true) then None else hash_of p1 x) ∧
    (∀ k, cached p2 k = if e then filter (.≠ r) (cached p1 k) else cached p1 k) ∧
    kv_event_queue p2 = kv_event_queue p1 ++ if e then removal_event p1 r else [])
    as (Hf2 & Hr2 & Hh2 & Hc2 & Hev2).
  { destruct e; [|subst p2; rewrite app_nil_r; split_and!; try done].
    - destruct Hstep as [? _ ? Hhh ? ?]. split_and!; try done. intros x. rewrite Hhh.
      repeat case_decide; naive_solver.
    - intros x. by rewrite decide_False by naive_solver. }
  split.
  - etrans; [done|]. etrans; [done|]. auto with pool.
  - intros x. rewrite pupd_ref_ref, Hr2, Hr by done.
    repeat case_decide; set_unfold; subst; naive_solver lia.
  - intros x. rewrite pupd_ref_hash, Hh2, Hh. repeat case_decide; set_unfold; naive_solver.
  - intros k. change (cached (pupd _ r p2) k) with (cached p2 k). rewrite Hc2, Hc.
    destruct e; [|done]. rewrite list_filter_filter. apply filter_ext_in. set_solver.
  - change (kv_event_queue (pupd _ r p2)) with (kv_event_queue p2). rewrite Hev2, Hev.
    destruct e; [|by rewrite !app_nil_r]. rewrite <-app_assoc, bind_app. simpl.
    rewrite app_nil_r. do 2 f_equal. apply removal_event_ext; [apply Hf|].
    rewrite Hh. by rewrite decide_False by naive_solver.
Qed.

Lemma handed_out_inv e p l p' xs l' :
  pool_inv p l → l = xs ++ l' → handed_out e p xs p' → cache_ok p' →
  queue_rep (free_block_queue p') l' → pool_inv p' l'.
Proof.
  intros Hp -> [Hf Hr Hh Hc Hev] Hco Hq. pose proof Hp as [Hs Hrf _ Hq0 Hfr].
  assert (NoDup (xs ++ l')) as Hnd.
  { apply qr_nodup, NoDup_cons in Hq0 as [_ Hnd]. by apply NoDup_app in Hnd as [? _]. }
  split; [by eapply static_frame| |done|done|].
  - intros r Hin Hne. rewrite (frame_blocks _ _ Hf) in Hin. rewrite Hr. destruct (decide (r ∈ xs)); [done|auto].
  - intros r. rewrite (frame_blocks _ _ Hf), Hr. split.
    + intros Hin. assert (r ∉ xs) by (intros ?; by apply (NoDup_app_ne r r xs l')).
      rewrite decide_False by done. apply Hfr. in_list.
    + intros (Hin & Hne & H0). destruct (decide (r ∈ xs)) as [Hd|Hd]; [discriminate|].
      assert (r ∈ xs ++ l') as Hx by by apply Hfr. in_list.
Qed.

(** One round of the loop of [get_new_blocks]. *)
Lemma wp_hand_out (e : bool) p dn p1 l' r E :
  static_ok p → handed_out e p dn p1 → cache_ok p1 → queue_rep (free_block_queue p1) l' →
  r ∉ dn → r ∈ blocks p → ref_of p r = 0 →
  wp (if e then maybe_evict_cached_block r ;; take_block r else take_block r)
    (λ _ p', (handed_out e p (dn ++ [r]) p' ∧ cache_ok p') ∧
       queue_rep (free_block_queue p') l') E p1.
Proof.
  intros Hs Hho Hc1 Hq1 Hnin Hin Hr0. pose proof (ho_frame _ _ _ _ Hho) as Hf1.
  pose proof (static_frame _ _ Hf1 Hs) as Hs1.
  assert (ref_of p1 r = 0) as Hr1 by (rewrite (ho_ref _ _ _ _ Hho), decide_False by done; done).
  rewrite <-(frame_blocks _ _ Hf1) in Hin.
  assert (∀ p2, (if e then evicts p1 r p2 else p2 = p1) → static_ok p2 → cache_ok p2 →
    r ∈ blocks p2 → ref_of p2 r = 0 → queue_rep (free_block_queue p2) l' →
    wp (take_block r) (λ _ p', (handed_out e p (dn ++ [r]) p' ∧ cache_ok p') ∧
       queue_rep (free_block_queue p') l') E p2) as Htake.
  { intros p2 Hstep Hs2 Hc2 Hin2 Hr2 Hq2. apply wp_take_block; [done..|]. split; [split|].
    - apply (handed_out_snoc e p dn p1 p2); [done..|by apply static_is_Some|done].
    - apply (cache_ok_ext p2); [auto with pool| |done|done]. intros. apply pupd_ref_hash.
    - eapply queue_rep_links; [apply pupd_links; auto with pool|done]. }
  destruct e; [|by apply Htake].
  apply wp_bind. eapply wp_call; [by apply wp_maybe_evict|].
  intros _ p2 (_ & Hev & Hc2). pose proof (ev_frame _ _ _ Hev) as Hf2.
  apply Htake; [done|by eapply static_frame|done|by rewrite (frame_blocks _ _ Hf2)
    |by rewrite (ev_ref _ _ _ Hev)|]. eapply queue_rep_links; [apply Hev|done].
Qed.

Lemma queue_nodup q l : queue_rep q l → NoDup l.
Proof. intros [_ Hnd _ _ _ _ _]. apply NoDup_cons in Hnd as [_ Hnd]. by apply NoDup_app in Hnd as [? _]. Qed.

Lemma wp_get_new_blocks p l n E :
  pool_inv p l → 0 ≤ n ≤ Z.of_nat (length l) →
  wp (get_new_blocks n) (λ ret p', ret = take (Z.to_nat n) l ∧
    pool_inv p' (drop (Z.to_nat n) l) ∧ handed_out (enable_caching p) p ret p') E p.
Proof.
  intros Hp Hn. pose proof Hp as [Hs Hrf Hco Hq Hfr].
  unfold get_new_blocks, get_num_free_blocks. wp_steps. rewrite (qr_num _ _ Hq).
  destruct (Z.ltb_spec (Z.of_nat (length l)) n); [lia|].
  apply wp_bind. unfold on_queue. apply wp_zoom.
  eapply wp_call; [by apply (wp_popleft_n _ l)|]. intros xs q (-> & Hq' & Hm).
  destruct (meta_frame p q Hm) as (Hf & Href & Hhash). wp_steps.
  set (xs := take _ l) in *. set (l' := drop _ l) in *. set (p0 := set_queue q p) in *.
  assert (l = xs ++ l') as Hl by (symmetry; apply take_drop).
  change (enable_caching p0) with (enable_caching p). set (e := enable_caching p) in *.
  pose proof (queue_nodup _ _ Hq) as Hnd. rewrite Hl in Hnd. apply NoDup_app in Hnd as [Hnd _].
  eapply (wp_call _ (λ _ p', (handed_out e p xs p' ∧ cache_ok p') ∧
    queue_rep (free_block_queue p') l')).
  2:{ intros [] p' [[Hho Hc'] Hq'']. apply wp_ret. split_and!; [done| |done].
      by eapply (handed_out_inv _ p l). }
  replace (if e then for_each xs (λ block, maybe_evict_cached_block block ;; take_block block)
           else for_each xs take_block)
    with (for_each xs (λ block, if e then maybe_evict_cached_block block ;; take_block block
                                else take_block block)) by by destruct e.
  eapply (wp_for_each (λ dn _ p', (handed_out e p dn p' ∧ cache_ok p') ∧
      queue_rep (free_block_queue p') l')); [|intros dn r todo p1 Hx [[Hho Hc1] Hq1]|done].
  - split; [split|done]; [|by apply (cache_ok_ext p)].
    destruct (handed_out_nil e p) as [_ Hr0 Hh0 Hc0 He0].
    split; [done|intros; rewrite Href; apply Hr0|intros; rewrite Hhash; apply Hh0|apply Hc0|done].
  - assert (r ∈ l) as Hin by (rewrite Hl, Hx; in_list). apply Hfr in Hin as (? & _ & ?).
    apply wp_hand_out; try done. rewrite Hx in Hnd. intros Hin.
    apply (NoDup_app_ne r r dn (r :: todo)); [done..|in_list|done].
Qed.

Lemma get_new_blocks_full p l n :
  pool_inv p l → Z.of_nat (length l) < n → get_new_blocks n p = (Raise ValueError, p).
Proof.
  intros Hp Hn. unfold get_new_blocks, get_num_free_blocks, gets, mbind, M_bind.
  rewrite (qr_num _ _ (pi_queue _ _ Hp)). by destruct (Z.ltb_spec (Z.of_nat (length l)) n); [|lia].
Qed.

(** ** Reference counting *)

(** How often [r] occurs in [bs]. *)
Definition occ (r : bref) (bs : list bref) : Z := Z.of_nat (length (filter (r =.) bs)).

Lemma occ_app r bs cs : occ r (bs ++ cs) = occ r bs + occ r cs.
Proof. unfold occ. rewrite filter_app, length_app. lia. Qed.

Lemma occ_cons r x bs : occ r (x :: bs) = (if decide (r = x) then 1 else 0) + occ r bs.
Proof. unfold occ. rewrite filter_cons. case_decide; simpl; lia. Qed.

Lemma occ_not_in r bs : r ∉ bs → occ r bs = 0.
Proof.
  induction bs as [|x bs IH]; [done|]. rewrite not_elem_of_cons, occ_cons. intros [? ?].
  rewrite decide_False, IH by done. done.
Qed.

Lemma occ_nonneg r bs : 0 ≤ occ r bs.
Proof. unfold occ. lia. Qed.

Lemma occ_in r bs : r ∈ bs → 1 ≤ occ r bs.
Proof.
  induction bs as [|x bs IH]; [by intros ?%elem_of_nil|]. rewrite elem_of_cons, occ_cons.
  pose proof (occ_nonneg r bs). case_decide; [lia|]. intros [?|?]; [done|]. by apply IH.
Qed.

(** Only reference counts changed, by [d]. *)
Record recounted (p : P) (d : bref → Z) (p' : P) : Prop := {
  rc_frame : frame p p';
  rc_ref : ∀ r, r ∈ blocks p → ref_of p' r = ref_of p r + d r;
  rc_hash : ∀ r, hash_of p' r = hash_of p r;
  rc_map : cached_block_hash_to_block p' = cached_block_hash_to_block p;
  rc_events : kv_event_queue p' = kv_event_queue p
}.

Lemma recounted_cache_ok p d p' : recounted p d p' → cache_ok p → cache_ok p'.
Proof. intros [? ? ? ? ?]. by apply cache_ok_ext. Qed.

Lemma recounted_refl p d : (∀ r, d r = 0) → recounted p d p.
Proof. intros Hd. split; try done. intros r _. rewrite Hd. lia. Qed.

Lemma recounted_trans p d1 p1 d2 p2 d :
  recounted p d1 p1 → recounted p1 d2 p2 → (∀ r, d r = d1 r + d2 r) → recounted p d p2.
Proof.
  intros [Hf1 Hr1 Hh1 Hm1 He1] [Hf2 Hr2 Hh2 Hm2 He2] Hd. split.
  - by etrans.
  - intros r Hr. rewrite Hr2, Hr1, Hd by (rewrite ?(frame_blocks _ _ Hf1); done). lia.
  - intros r. by rewrite Hh2, Hh1.
  - by rewrite Hm2, Hm1.
  - by rewrite He2, He1.
Qed.

Lemma recounted_add p r c :
  static_ok p → r ∈ blocks p →
  recounted p (λ x, if decide (r = x) then c else 0)
    (pupd (λ b, with_ref_cnt (ref_cnt b + c) b) r p).
Proof.
  intros Hs Hr. split; [auto with pool| |apply pupd_ref_hash|done|done].
  intros x _. by rewrite pupd_ref_ref by by apply static_is_Some.
Qed.

Lemma recounted_meta p q :
  meta_kept (free_block_queue p) q → recounted p (λ _, 0) (set_queue q p).
Proof.
  intros Hm. destruct (meta_frame p q Hm) as (? & Hr & ?). split; try done.
  intros r _. rewrite Hr. lia.
Qed.

Lemma filter_ne_nodup (l1 l2 : list bref) b :
  NoDup (l1 ++ b :: l2) → filter (.≠ b) (l1 ++ b :: l2) = l1 ++ l2.
Proof. intros [_ Hb]%NoDup_remove_mid. by apply filter_ne_split. Qed.

(** One round of [touch]. *)
Lemma wp_touch_one p l r E :
  pool_inv p l → r ∈ blocks p →
  wp (b ← read_block r;
      (if (ref_cnt b =? 0) && negb (is_null b) then on_queue (remove r) else mret tt) ;;
      add_ref 1 r)
    (λ _ p', pool_inv p' (filter (.≠ r) l) ∧
       recounted p (λ x, if decide (r = x) then 1 else 0) p') E p.
Proof.
  intros Hp Hr. pose proof Hp as [Hs Hrf Hc Hq Hfr].
  apply wp_bind, wp_read_block; [done..|]. intros b _ _ Hnull Href _. rewrite Hnull, Href.
  assert (∀ p1, recounted p (λ _, 0) p1 →
    queue_rep (free_block_queue p1) (filter (.≠ r) l) →
    wp (add_ref 1 r) (λ _ p', pool_inv p' (filter (.≠ r) l) ∧
       recounted p (λ x, if decide (r = x) then 1 else 0) p') E p1) as Hadd.
  { intros p1 Hrc Hq1. pose proof (rc_frame _ _ _ Hrc) as Hf.
    pose proof (static_frame _ _ Hf Hs) as Hs1.
    pose proof Hr as Hr1. rewrite <-(frame_blocks _ _ Hf) in Hr1.
    pose proof (recounted_trans _ _ _ _ _ (λ x, if decide (r = x) then 1 else 0) Hrc
      (recounted_add p1 r 1 Hs1 Hr1) (λ x, eq_sym (Z.add_0_l _))) as Hrc'.
    change (wp (add_ref 1 r) ?Post E p1) with
      (Post tt (pupd (λ b, with_ref_cnt (ref_cnt b + 1) b) r p1)).
    set (p2 := pupd _ r p1) in *. split; [|done]. pose proof (rc_frame _ _ _ Hrc') as Hf2.
    split.
    - by eapply static_frame.
    - intros x Hx Hne. rewrite (frame_blocks _ _ Hf2) in Hx. rewrite (rc_ref _ _ _ Hrc') by done.
      specialize (Hrf x Hx Hne). cbn beta. destruct (decide (r = x)); lia.
    - by eapply recounted_cache_ok.
    - eapply queue_rep_links; [|done]. apply pupd_links. auto with pool.
    - intros x. rewrite list_elem_of_filter, Hfr, (frame_blocks _ _ Hf2).
      split; intros (Hx1 & Hx2 & Hx3); [destruct Hx3 as [? ?]|];
        rewrite (rc_ref _ _ _ Hrc') in * by done.
      + rewrite decide_False by done. split_and!; try done; lia.
      + specialize (Hrf x Hx1 Hx2). cbn beta in *. destruct (decide (r = x)); [lia|]. split_and!; try done; lia. }
  destruct (Z.eqb_spec (ref_of p r) 0) as [H0|H0]; [case_bool_decide as Hz|]; simpl.
  - wp_steps. apply Hadd; [by apply recounted_refl|]. rewrite filter_all; [done|].
    intros x Hx ->. apply Hfr in Hx as (_ & ? & _). done.
  - assert (r ∈ l) as Hin by by apply Hfr. apply list_elem_of_split in Hin as (l1 & l2 & ->).
    apply wp_bind. unfold on_queue. apply wp_zoom. eapply wp_call; [by apply wp_remove|].
    intros [] q [Hq' Hm]. apply Hadd; [by apply recounted_meta|].
    rewrite filter_ne_nodup by by eapply queue_nodup. done.
  - wp_steps. apply Hadd; [by apply recounted_refl|]. rewrite filter_all; [done|].
    intros x Hx ->. apply Hfr in Hx as (_ & _ & ?). done.
Qed.

Lemma wp_touch p l bs E :
  pool_inv p l → (∀ r, r ∈ bs → r ∈ blocks p) →
  wp (touch bs) (λ _ p', pool_inv p' (filter (.∉ bs) l) ∧ recounted p (λ r, occ r bs) p') E p.
Proof.
  intros Hp Hbs. unfold touch.
  eapply (wp_for_each (λ dn _ p', pool_inv p' (filter (.∉ dn) l) ∧
    recounted p (λ r, occ r dn) p')).
  - rewrite filter_all by (intros; apply not_elem_of_nil). split; [done|by apply recounted_refl].
  - intros dn r todo p1 Hx [Hp1 Hrc]. eapply wp_call.
    + apply wp_touch_one; [done|]. rewrite (frame_blocks _ _ (rc_frame _ _ _ Hrc)).
      apply Hbs. rewrite Hx. in_list.
    + intros [] p2 [Hp2 Hrc2]. rewrite list_filter_filter in Hp2. split.
      * erewrite filter_ext_in; [exact Hp2|]. set_solver.
      * eapply recounted_trans; [done..|]. intros x. rewrite occ_app, occ_cons. simpl.
        unfold occ at 3. simpl. repeat case_decide; naive_solver lia.
  - done.
Qed.

(** The loop that gives references back. *)
Lemma wp_drop_refs p bs E :
  static_ok p → (∀ r, r ∈ bs → r ∈ blocks p) →
  wp (for_each bs (add_ref (-1)))
    (λ _ p', recounted p (λ r, - occ r bs) p' ∧
       same_links (free_block_queue p) (free_block_queue p')) E p.
Proof.
  intros Hs Hbs.
  eapply (wp_for_each (λ dn _ p', recounted p (λ r, - occ r dn) p' ∧
    same_links (free_block_queue p) (free_block_queue p'))); [|
    |done].
  { split; [by apply recounted_refl|by split]. }
  intros dn r todo p1 Hx [Hrc [Hn Hl]]. pose proof (rc_frame _ _ _ Hrc) as Hf.
  change (wp (add_ref (-1) r) ?Post E p1) with
    (Post tt (pupd (λ b, with_ref_cnt (ref_cnt b + -1) b) r p1)). split.
  - eapply recounted_trans; [done|apply recounted_add|].
    + by eapply static_frame.
    + rewrite (frame_blocks _ _ Hf). apply Hbs. rewrite Hx. in_list.
    + intros x. rewrite occ_app, occ_cons. unfold occ at 2. simpl.
      destruct (decide (r = x)), (decide (x = r)); naive_solver lia.
  - destruct (pupd_links (λ b, with_ref_cnt (ref_cnt b + -1) b) r p1) as [Hn' Hl'];
      [auto with pool|].
    split; [by rewrite Hn', Hn|]. intros x. destruct (Hl x) as (<- & <- & ?), (Hl' x) as (-> & -> & ?).
    auto.
Qed.

Lemma occ_filter_nodup r bs :
  r ≠ Blk 0 → NoDup (filter (.≠ Blk 0) bs) → r ∈ bs → occ r bs = 1.
Proof.
  intros Hr. induction bs as [|x bs IH]; [by intros _ ?%elem_of_nil|].
  rewrite filter_cons, occ_cons, elem_of_cons. intros Hnd Hin.
  destruct (decide (x ≠ Blk 0)) as [Hx|Hx].
  - apply NoDup_cons in Hnd as [Hnin Hnd]. destruct (decide (r = x)) as [->|Hne].
    + rewrite occ_not_in; [done|]. intros ?. apply Hnin. by apply list_elem_of_filter.
    + destruct Hin as [?|?]; [done|]. rewrite IH by done. done.
  - destruct (decide (r = x)); [naive_solver|]. destruct Hin as [?|?]; [done|]. by rewrite IH.
Qed.

Lemma releasable_spec p r :
  static_ok p → r ∈ blocks p → releasable (pheap p) r = true ↔ r ≠ Blk 0 ∧ ref_of p r = 0.
Proof.
  intros Hs Hr. destruct (static_alloc _ _ Hs Hr) as (i & b & Hi & Hl & _ & Hz & _).
  unfold releasable, ref_of. rewrite Hl, Hz, andb_true_iff, Z.eqb_eq.
  rewrite negb_true_iff, bool_decide_eq_false. tauto.
Qed.

Section free.
Context (p : P) (l bs : list bref).
Context (Hp : pool_inv p l) (Hbs : ∀ r, r ∈ bs → r ∈ blocks p).
Context (Hnd : NoDup (filter (.≠ Blk 0) bs)).
Context (Hpos : ∀ r, r ∈ bs → r ≠ Blk 0 → 1 ≤ ref_of p r).

(** The blocks of [bs] whose last reference is given back. *)
Definition last_refs : list bref := filter (λ r, r ≠ Blk 0 ∧ ref_of p r = 1) bs.

Lemma elem_of_last_refs r : r ∈ last_refs ↔ r ∈ bs ∧ r ≠ Blk 0 ∧ ref_of p r = 1.
Proof. unfold last_refs. rewrite list_elem_of_filter. tauto. Qed.

Lemma freed_ref p' r :
  recounted p (λ r, - occ r bs) p' → r ∈ blocks p → r ≠ Blk 0 →
  ref_of p' r = if decide (r ∈ bs) then ref_of p r - 1 else ref_of p r.
Proof using Hnd.
  intros Hrc Hr Hne. rewrite (rc_ref _ _ _ Hrc) by done. cbn beta.
  destruct (decide (r ∈ bs)); [rewrite occ_filter_nodup by done|rewrite occ_not_in by done]; lia.
Qed.

Lemma last_refs_fresh : NoDup (chain (l ++ last_refs)).
Proof using Hp Hbs Hnd.
  pose proof Hp as [Hs _ _ Hq Hfr].
  apply (fresh_for_chain (list_to_set last_refs)); [apply Hq|]. split.
  - unfold last_refs.
    replace (filter _ bs) with (filter (λ r, ref_of p r = 1) (filter (.≠ Blk 0) bs)).
    + by apply NoDup_filter.
    + rewrite list_filter_filter. apply filter_ext_in. naive_solver.
  - apply Forall_forall. intros r Hr. split; [by apply elem_of_list_to_set|].
    apply elem_of_last_refs in Hr as (Hr & _ & H1).
    destruct (static_alloc _ _ Hs (Hbs r Hr)) as (i & _ & -> & _).
    unfold chain. rewrite elem_of_cons, elem_of_app, list_elem_of_singleton.
    intros [?|[Hin|?]]; [done| |done]. apply Hfr in Hin as (_ & _ & ?). lia.
Qed.

Lemma freed_inv p' :
  recounted p (λ r, - occ r bs) p' →
  queue_rep (free_block_queue p') (l ++ last_refs) → pool_inv p' (l ++ last_refs).
Proof using Hp Hbs Hnd Hpos.
  intros Hrc Hq'. pose proof Hp as [Hs Hrf Hc _ Hfr].
  pose proof (rc_frame _ _ _ Hrc) as Hf. pose proof (frame_blocks _ _ Hf) as Hb.
  split; [by eapply static_frame| |by eapply recounted_cache_ok|done|].
  - intros r Hr Hne. rewrite Hb in Hr. rewrite (freed_ref p') by done.
    specialize (Hrf r Hr Hne). destruct (decide (r ∈ bs)) as [Hin|]; [|done].
    specialize (Hpos r Hin Hne). lia.
  - intros r. rewrite elem_of_app, Hfr, elem_of_last_refs, Hb. split.
    + intros [(Hr & Hne & H0)|(Hr & Hne & H1)]; (split_and!; [auto|done|]);
        rewrite (freed_ref p') by auto; destruct (decide (r ∈ bs)) as [Hin|]; try done;
        [specialize (Hpos r Hin Hne)|]; lia.
    + intros (Hr & Hne & H0). rewrite (freed_ref p') in H0 by done.
      destruct (decide (r ∈ bs)); [right|left]; split_and!; try done; lia.
Qed.

Lemma wp_free_blocks E :
  wp (free_blocks bs)
    (λ _ p', pool_inv p' (l ++ last_refs) ∧ recounted p (λ r, - occ r bs) p') E p.
Proof using Hp Hbs Hnd Hpos.
  pose proof Hp as [Hs _ _ Hq _].
  unfold free_blocks. apply wp_bind. eapply wp_call; [by apply wp_drop_refs|].
  intros [] p1 [Hrc Hl1]. pose proof (rc_frame _ _ _ Hrc) as Hf1.
  pose proof (static_frame _ _ Hf1 Hs) as Hs1. pose proof (frame_blocks _ _ Hf1) as Hb1.
  wp_steps. replace (filter (λ r, releasable (pheap p1) r = true) bs) with last_refs.
  2:{ apply filter_ext_in. intros r Hr. rewrite releasable_spec by (rewrite ?Hb1; auto).
      split; intros [Hne H1]; (split; [done|]); rewrite (freed_ref p1) in * by auto;
        rewrite decide_True in * by done; lia. }
  unfold on_queue. apply wp_zoom. eapply wp_call; [apply (wp_append_n _ l)|].
  - by eapply queue_rep_links.
  - apply last_refs_fresh.
  - intros r Hr. apply (static_is_Some p1 r Hs1). rewrite Hb1. apply Hbs. by apply elem_of_last_refs.
  - intros [] q [Hq' Hm]. pose proof (recounted_trans _ _ _ _ _ (λ r, - occ r bs) Hrc
      (recounted_meta p1 q Hm) (λ x, eq_sym (Z.add_0_r _))) as Hrc'.
    split; [by apply freed_inv|done].
Qed.
End free.
