(* ===== verification/PoolCache.v ===== *)
(** The rest of the pool's operations under its invariant: explicit eviction, resetting the
    prefix cache, construction, lookup of cached blocks and caching full blocks. *)
From S2P Require Import Prelude.
From S2P Require Import Request.
From S2P Require Import BlockHash.
From S2P Require Import FreeQueue.
From S2P Require Import BlockMap.
From S2P Require Import BlockPool.
From S2P Require Import PoolInv.
Local Open Scope Z_scope.

(** ** Explicit eviction *)

Lemma evicts_inv p l r p' : pool_inv p l → evicts p r p' → cache_ok p' → pool_inv p' l.
Proof.
  intros [Hs Hrf Hc Hq Hfr] [Hf Hl Hr Hh Hca Hev] Hc'.
  split; [by eapply static_frame| |done|by eapply queue_rep_links|];
    intros x; rewrite (frame_blocks _ _ Hf), Hr; auto.
Qed.

(** What evicting every block of [bs] does. *)
Record evicts_all (p : P) (bs : list bref) (p' : P) : Prop := {
  ea_frame : frame p p';
  ea_ref : ∀ r, ref_of p' r = ref_of p r;
  ea_hash : ∀ r, hash_of p' r = if decide (r ∈ bs) then None else hash_of p r;
  ea_cached : ∀ k, cached p' k = filter (.∉ bs) (cached p k)
}.

Lemma block_at p i :
  static_ok p → 0 ≤ i < num_gpu_blocks p →
  py_get (blocks p) i = Some (Blk (Z.to_nat i)) ∧ Blk (Z.to_nat i) ∈ blocks p ∧
  i < Z.of_nat (length (blocks p)).
Proof.
  intros Hs Hi. rewrite (so_blocks _ Hs). unfold py_get. rewrite decide_True by lia.
  rewrite list_lookup_fmap, lookup_seq_lt by lia. rewrite length_fmap, length_seq.
  split_and!; [done| |lia]. apply list_elem_of_fmap. exists (Z.to_nat i).
  split; [done|]. apply elem_of_seq. lia.
Qed.

Lemma wp_evict_blocks p l ids E :
  pool_inv p l → (∀ i, i ∈ ids → 0 ≤ i < num_gpu_blocks p) →
  wp (evict_blocks ids)
    (λ _ p', pool_inv p' l ∧ evicts_all p ((λ i, Blk (Z.to_nat i)) <$> ids) p') E p.
Proof.
  intros Hp Hids. unfold evict_blocks.
  eapply (wp_for_each (λ dn _ p', pool_inv p' l ∧
    evicts_all p ((λ i, Blk (Z.to_nat i)) <$> dn) p')); [| |done].
  - split; [done|]. split; [done|done|..].
    + intros r. by rewrite decide_False by apply not_elem_of_nil.
    + intros k. symmetry. apply filter_all. intros. apply not_elem_of_nil.
  - intros dn i todo p1 Hx [Hp1 [Hf Hr Hh Hc]].
    pose proof Hp1 as [Hs1 _ Hc1 _ _]. wp_steps.
    destruct (block_at p1 i Hs1) as (Hget & Hin & Hlt).
    { replace (num_gpu_blocks p1) with (num_gpu_blocks p).
      - apply Hids. rewrite Hx. in_list.
      - destruct Hf as [Hcf _]. unfold config in Hcf. congruence. }
    apply wp_assert; [by apply Z.ltb_lt|]. apply wp_bind.
    eapply wp_from_option; [done|]. apply wp_bind. eapply wp_call; [by apply wp_maybe_evict|].
    intros _ p2 (_ & Hev & Hc2). wp_steps. split; [by eapply evicts_inv|].
    destruct Hev as [Hf2 _ Hr2 Hh2 Hca2 _]. rewrite fmap_app. split.
    + by etrans.
    + intros r. by rewrite Hr2, Hr.
    + intros r. rewrite Hh2, Hh. repeat case_decide; set_solver.
    + intros k. rewrite Hca2, Hc, list_filter_filter. apply filter_ext_in. set_solver.
Qed.

Lemma evict_blocks_out_of_range p i ids :
  static_ok p → num_gpu_blocks p ≤ i → evict_blocks (i :: ids) p = (Raise AssertionError, p).
Proof.
  intros Hs Hi. assert (i <? Z.of_nat (length (blocks p)) = false) as Hlt.
  { pose proof (so_num _ Hs). rewrite (so_blocks _ Hs), length_fmap, length_seq.
    apply Z.ltb_ge. lia. }
  unfold evict_blocks. simpl. unfold gets, py_assert, mbind, M_bind. by rewrite Hlt.
Qed.

(** ** Resetting the cache *)

Lemma wp_reset_hashes p bs E :
  (∀ r, r ∈ bs → is_Some (pheap p !! r)) →
  wp (for_each bs reset_hash)
    (λ _ p', frame p p' ∧ same_links (free_block_queue p) (free_block_queue p') ∧
       (∀ r, ref_of p' r = ref_of p r) ∧
       (∀ r, hash_of p' r = if decide (r ∈ bs) then None else hash_of p r) ∧
       cached_block_hash_to_block p' = cached_block_hash_to_block p ∧
       kv_event_queue p' = kv_event_queue p) E p.
Proof.
  intros Hal. eapply (wp_for_each (λ dn _ p', frame p p' ∧
    same_links (free_block_queue p) (free_block_queue p') ∧
    (∀ r, ref_of p' r = ref_of p r) ∧
    (∀ r, hash_of p' r = if decide (r ∈ dn) then None else hash_of p r) ∧
    cached_block_hash_to_block p' = cached_block_hash_to_block p ∧
    kv_event_queue p' = kv_event_queue p)); [| |done].
  - split_and!; [done|by split|done| |done|done].
    intros r. by rewrite decide_False by apply not_elem_of_nil.
  - intros dn r todo p1 Hx (Hf & [Hn Hl] & Hr & Hh & Hm & He).
    change (wp (reset_hash r) ?Post E p1) with (Post tt (pupd (with_hash None) r p1)).
    assert (is_Some (pheap p1 !! r)) as Hal1.
    { assert (r ∈ bs) as Hrb by (rewrite Hx; in_list). apply Hal in Hrb as [b Hb].
      destruct Hf as [_ Hf]. specialize (Hf r). rewrite Hb in Hf.
      destruct (pheap p1 !! r); [by eexists|done]. }
    split_and!; [..|done|done].
    + etrans; [done|]. auto with pool.
    + destruct (pupd_links (with_hash None) r p1) as [Hn' Hl']; [auto with pool|].
      split; [by rewrite Hn', Hn|]. intros x.
      destruct (Hl x) as (<- & <- & ?), (Hl' x) as (-> & -> & ?). auto.
    + intros x. by rewrite pupd_hash_ref, Hr.
    + intros x. rewrite pupd_hash_hash, Hh by done. repeat case_decide; set_solver.
Qed.

(** What a successful reset does. *)
Record cleared (p p' : P) : Prop := {
  cl_frame : frame p p';
  cl_ref : ∀ r, ref_of p' r = ref_of p r;
  cl_cached : ∀ k, cached p' k = [];
  cl_hash : ∀ r, r ∈ blocks p → hash_of p' r = None;
  cl_events : kv_event_queue p' =
    kv_event_queue p ++ if enable_kv_cache_events p then [AllBlocksCleared] else []
}.

Lemma cleared_inv p l p' :
  pool_inv p l → cleared p p' → cached_block_hash_to_block p' = ∅ →
  same_links (free_block_queue p) (free_block_queue p') → pool_inv p' l.
Proof.
  intros [Hs Hrf Hc Hq Hfr] [Hf Hr Hk Hn _] Hm Hl.
  split; [by eapply static_frame| | |by eapply queue_rep_links|].
  - intros r. rewrite (frame_blocks _ _ Hf), Hr. apply Hrf.
  - split; [rewrite Hm; apply map_wf_empty| |apply Hn, null_in_blocks, Hs].
    intros k r. rewrite Hk, (frame_blocks _ _ Hf), elem_of_nil. split; [done|].
    intros [Hin Hsome]. by rewrite Hn in Hsome.
  - intros r. rewrite (frame_blocks _ _ Hf), Hr. apply Hfr.
Qed.

Lemma wp_reset_prefix_cache p l E :
  pool_inv p l →
  wp reset_prefix_cache
    (λ res p', if res
       then Z.of_nat (length l) = num_gpu_blocks p - 1 ∧ pool_inv p' l ∧ cleared p p'
       else p' = p ∧ Z.of_nat (length l) ≠ num_gpu_blocks p - 1) E p.
Proof.
  intros Hp. pose proof Hp as [Hs Hrf Hc Hq Hfr].
  unfold reset_prefix_cache, get_num_free_blocks. wp_steps. rewrite (qr_num _ _ Hq).
  destruct (Z.eqb_spec (num_gpu_blocks p - Z.of_nat (length l)) 1) as [Hu|Hu]; simpl; wp_steps;
    [|split; [done|lia]].
  eapply wp_call; [apply (wp_reset_hashes (set_cache ∅ p))|].
  { intros r Hr. by apply (static_is_Some p r Hs). }
  intros [] p1 (Hf & Hl & Hr & Hh & Hm & He). wp_steps.
  assert (∀ es, es = kv_event_queue p ++
      (if enable_kv_cache_events p then [AllBlocksCleared] else []) →
    Z.of_nat (length l) = num_gpu_blocks p - 1 ∧ pool_inv (set_events es p1) l ∧
    cleared p (set_events es p1)) as Hgen.
  { intros es Hes. assert (cleared p (set_events es p1)) as Hcl.
    { split; [done|done| | |done].
      - intros k. unfold cached, entries. simpl. by rewrite Hm.
      - intros r Hin. change (hash_of (set_events es p1) r) with (hash_of p1 r).
        by rewrite Hh, decide_True. }
    split_and!; [lia| |done]. by eapply cleared_inv. }
  assert (enable_kv_cache_events p1 = enable_kv_cache_events p) as ->.
  { destruct Hf as [Hcf _]. unfold config in Hcf. simpl in Hcf. congruence. }
  unfold add_event. simpl in He. rewrite <-He in Hgen.
  destruct (enable_kv_cache_events p); wp_steps; [by apply Hgen|].
  replace p1 with (set_events (kv_event_queue p1) p1) by by destruct p1.
  apply Hgen. by rewrite app_nil_r.
Qed.

Lemma take_events_run p :
  take_events p =
    if enable_kv_cache_events p then (Ret (kv_event_queue p), set_events [] p) else (Ret [], p).
Proof. unfold take_events, gets, modify, mbind, M_bind. by destruct (enable_kv_cache_events p). Qed.

(** ** Construction *)

Definition fresh_objects (n : nat) : store :=
  list_to_map ((λ i, (Blk i, new_block (Z.of_nat i))) <$> seq 0 n).

Lemma fresh_objects_lookup n r b :
  fresh_objects n !! r = Some b ↔ ∃ i, (i < n)%nat ∧ r = Blk i ∧ b = new_block (Z.of_nat i).
Proof.
  unfold fresh_objects. rewrite <-elem_of_list_to_map.
  - rewrite list_elem_of_fmap. setoid_rewrite elem_of_seq. split.
    + intros (i & [= -> ->] & ?). exists i. split_and!; [lia|done..].
    + intros (i & ? & -> & ->). exists i. split; [done|lia].
  - rewrite <-list_fmap_compose. change (fst ∘ _) with Blk. apply NoDup_fmap_2; [|apply NoDup_seq].
    by intros ?? [=].
Qed.

Lemma fresh_links n r : nxt (fresh_objects n) r = None ∧ prv (fresh_objects n) r = None.
Proof.
  unfold nxt, prv. destruct (fresh_objects n !! r) as [b|] eqn:E; [|done].
  apply fresh_objects_lookup in E as (i & _ & _ & ->). done.
Qed.

Lemma elem_of_blocks_seq i n : Blk i ∈ (Blk <$> seq 0 n) ↔ (i < n)%nat.
Proof.
  rewrite list_elem_of_fmap. setoid_rewrite elem_of_seq. split.
  - intros (? & [= ->] & ?). lia.
  - intros ?. exists i. split; [done|lia].
Qed.

(** The queue after construction and after the null block was taken. *)
Lemma init_queue_run n :
  ∃ q, (queue_init (Blk <$> seq 0 (S n)) ;; popleft) (mkQueue (fresh_objects (S n)) 0)
         = (Ret (Blk 0), q) ∧
    queue_rep q (Blk <$> seq 1 n) ∧
    ∀ i, (i < S n)%nat → meta <$> heap q !! Blk i = Some (Z.of_nat i, 0, None, false).
Proof.
  set (q0 := mkQueue _ _).
  destruct (wp_run (queue_init (Blk <$> seq 0 (S n)) ;; popleft)
    (λ r q, r = Blk 0 ∧ queue_rep q (Blk <$> seq 1 n) ∧
      ∀ i, (i < S n)%nat → meta <$> heap q !! Blk i = Some (Z.of_nat i, 0, None, false)) q0)
    as (r & q & Hrun & -> & Hrest); [|by exists q].
  apply wp_bind. eapply wp_call; [apply wp_queue_init|].
  - apply NoDup_fmap_2; [by intros ?? [=]|apply NoDup_seq].
  - by intros (? & ? & ?)%list_elem_of_fmap.
  - by intros (? & ? & ?)%list_elem_of_fmap.
  - intros r (i & -> & Hi)%list_elem_of_fmap. apply elem_of_seq in Hi.
    exists (new_block (Z.of_nat i)). apply fresh_objects_lookup. exists i. split_and!; [lia|done..].
  - apply fresh_links.
  - intros [] q1 [Hrep Hm]. eapply wp_call; [by apply (wp_popleft q1 (Blk 0) (Blk <$> seq 1 n))|].
    intros r q2 (-> & Hrep2 & Hm2). split_and!; [done..|]. intros i Hi.
    rewrite <-(Hm2 (Blk i)), Hm by done. simpl heap.
    assert (fresh_objects (S n) !! Blk i = Some (new_block (Z.of_nat i))) as ->; [|done].
    apply fresh_objects_lookup. by exists i.
Qed.

Lemma pool_init_run n caching hbs events ui :
  0 < n →
  ∃ p, pool_init n caching hbs events ui = Ret p ∧
    pool_inv p (Blk <$> seq 1 (Z.to_nat n - 1)) ∧
    config p = (n, caching, hbs, Blk <$> seq 0 (Z.to_nat n), Blk 0, events, ui) ∧
    ∀ r, r ∈ blocks p → ref_of p r = 0 ∧ hash_of p r = None.
Proof.
  intros Hn. destruct (Z.to_nat n) as [|m] eqn:Em; [lia|].
  replace (S m - 1)%nat with m by lia. destruct (init_queue_run m) as (q & Hrun & Hrep & Hmeta).
  eexists. split.
  { unfold pool_init. rewrite (proj2 (Z.leb_gt n 0)) by lia. rewrite Em.
    change (list_to_map _) with (fresh_objects (S m)). cbv zeta. by rewrite Hrun. }
  set (p := mkPool _ _ _ _ _ _ _ _ _ _).
  assert (∀ i, (i < S m)%nat → ∃ b, pheap p !! Blk i = Some b ∧ block_id b = Z.of_nat i ∧
    ref_cnt b = 0 ∧ block_hash b = None ∧ is_null b = bool_decide (i = 0%nat)) as Hb.
  { intros i Hi. specialize (Hmeta i Hi). unfold pheap; simpl. rewrite lookup_alter.
    destruct (heap q !! Blk i) as [b|] eqn:El; simplify_eq/=. unfold meta in Hmeta. simplify_eq.
    destruct (decide (Blk 0 = Blk i)) as [Hz|Hz]; simplify_eq; rewrite ?El;
      (eexists; split; [done|]); simpl; split_and!; try done.
    rewrite bool_decide_false; [done|]. by intros ->. }
  assert (∀ r, r ∈ blocks p → ref_of p r = 0 ∧ hash_of p r = None) as Hall.
  { intros r Hr. change (blocks p) with (Blk <$> seq 0 (S m)) in Hr.
    pose proof Hr as (i & -> & _)%list_elem_of_fmap. apply elem_of_blocks_seq in Hr.
    destruct (Hb i Hr) as (b & Hl & _ & Href & Hh & _). unfold ref_of, hash_of. by rewrite Hl. }
  assert (static_ok p) as Hs.
  { split; [done|change (num_gpu_blocks p) with n; by rewrite Em|done|]. intros i Hi%elem_of_blocks_seq.
    destruct (Hb i Hi) as (b & -> & Hid & _ & _ & Hz). simpl. unfold ident. by rewrite Hid, Hz. }
  split_and!; [|done|done]. split; [done| | | |].
  - intros r Hr _. by rewrite (proj1 (Hall r Hr)).
  - split; [apply map_wf_empty| |apply Hall, null_in_blocks, Hs].
    intros k r. unfold cached, entries. simpl. rewrite lookup_empty, elem_of_nil.
    split; [done|]. intros [Hr Hk]. destruct (Hall r Hr). congruence.
  - eapply queue_rep_links; [|exact Hrep]. split; [done|]. intros r. simpl. unfold nxt, prv.
    rewrite lookup_alter. case_decide as Hd; [|done]. rewrite <-Hd.
    destruct (heap q !! Blk 0); simpl; by eauto.
  - intros r. split.
    + intros (i & -> & Hi)%list_elem_of_fmap. apply elem_of_seq in Hi.
      assert (Blk i ∈ blocks p) as Hin by (apply elem_of_blocks_seq; lia).
      split_and!; [done|naive_solver lia|by apply Hall].
    + intros (Hr & Hne & _). change (blocks p) with (Blk <$> seq 0 (S m)) in Hr.
      pose proof Hr as (i & -> & _)%list_elem_of_fmap. apply elem_of_blocks_seq in Hr.
      apply list_elem_of_fmap. exists i. split; [done|]. apply elem_of_seq.
      destruct (decide (i = 0%nat)); [by subst|lia].
Qed.

(** ** Lookup *)

Lemma wp_get_cached_loop p h gids acc E :
  cache_ok p → (∀ g, g ∈ gids → 0 ≤ g < 2 ^ 32) →
  wp (get_cached_loop h gids acc)
    (λ res p', p' = p ∧ match res with
       | Some bs => ∃ bs', bs = acc ++ bs' ∧
           Forall2 (λ g b, ∃ k, make_block_hash_with_group_id h g = Ret k ∧
                                head (cached p k) = Some b) gids bs'
       | None => ∃ g k, g ∈ gids ∧ make_block_hash_with_group_id h g = Ret k ∧ cached p k = []
       end) E p.
Proof.
  intros Hc. revert acc. induction gids as [|g gids IH]; intros acc Hg; simpl.
  { apply wp_ret. split; [done|]. exists []. by rewrite app_nil_r. }
  assert (∃ k, make_block_hash_with_group_id h g = Ret k) as [k Hk].
  { unfold make_block_hash_with_group_id. rewrite decide_True; [by eexists|]. apply Hg. by left. }
  apply wp_bind. change (wp (of_outcome ?o) ?Post E p) with
    (match o with Ret a => Post a p | Raise e => E e p end). rewrite Hk.
  wp_steps. change (wp (of_outcome ?o) ?Post E p) with
    (match o with Ret a => Post a p | Raise e => E e p end).
  rewrite (get_one_block_spec (bid_of (pheap p))) by apply Hc.
  change (entries _ k) with (cached p k). destruct (head (cached p k)) as [b|] eqn:Eh.
  - eapply wp_call; [apply IH; intros; apply Hg; by right|]. intros [bs|] p' [-> Hres].
    + split; [done|]. destruct Hres as (bs' & -> & Hall). exists (b :: bs').
      rewrite <-app_assoc. split; [done|]. constructor; [by exists k|done].
    + split; [done|]. destruct Hres as (g' & k' & ? & ? & ?). exists g', k'.
      split_and!; [by right|done..].
  - apply wp_ret. split; [done|]. exists g, k. split_and!; [by left|done|].
    by destruct (cached p k).
Qed.

(** ** Caching full blocks *)

(** The key under which a hash is stored for group [g]. *)
Definition group_key (g : Z) (h : bytes) : bytes := h ++ to_bytes_be 4 g.

(** What caching does: each pair [(b, h)] of [new] stores block [b] under hash [h]. *)
Record caches (g : Z) (p : P) (new : list (bref * bytes)) (p' : P) : Prop := {
  ca_frame : frame p p';
  ca_ref : ∀ r, ref_of p' r = ref_of p r;
  ca_hash : ∀ b h, (b, h) ∈ new → hash_of p' b = Some (group_key g h);
  ca_other : ∀ r, r ∉ new.*1 → hash_of p' r = hash_of p r;
  ca_cached : ∀ k, cached p' k = cached p k ++ (filter (λ x, group_key g x.2 = k) new).*1;
  ca_events : kv_event_queue p' = kv_event_queue p
}.

Lemma caches_nil g p : caches g p [] p.
Proof.
  split; try done.
  - by intros ?? ?%elem_of_nil.
  - intros k. simpl. by rewrite app_nil_r.
Qed.

Lemma caches_trans g p new1 p1 new2 p2 :
  caches g p new1 p1 → caches g p1 new2 p2 → (∀ b, b ∈ new1.*1 → b ∉ new2.*1) →
  caches g p (new1 ++ new2) p2.
Proof.
  intros [Hf1 Hr1 Hh1 Ho1 Hc1 He1] [Hf2 Hr2 Hh2 Ho2 Hc2 He2] Hdis. split.
  - by etrans.
  - intros r. by rewrite Hr2, Hr1.
  - intros b h [Hin|Hin]%elem_of_app; [|by apply Hh2]. rewrite Ho2; [by apply Hh1|].
    apply Hdis. apply list_elem_of_fmap. by exists (b, h).
  - intros r. rewrite fmap_app, not_elem_of_app. intros [? ?]. by rewrite Ho2, Ho1.
  - intros k. by rewrite Hc2, Hc1, filter_app, fmap_app, app_assoc.
  - by rewrite He2, He1.
Qed.

(** Storing one block. *)
Definition store_one (g : Z) (b : bref) (h : bytes) (p : P) : P :=
  let p1 := pupd (with_hash (Some (group_key g h))) b p in
  set_cache (map_insert (bid_of (pheap p1)) (cached_block_hash_to_block p1) (group_key g h) b) p1.

Lemma store_one_caches g b h p l :
  pool_inv p l → b ∈ blocks p → b ≠ Blk 0 → hash_of p b = None →
  caches g p [(b, h)] (store_one g b h p) ∧ pool_inv (store_one g b h p) l.
Proof.
  intros [Hs Hrf Hc Hq Hfr] Hb Hne Hn. set (k := group_key g h).
  set (p1 := pupd (with_hash (Some k)) b p).
  assert (frame p p1) as Hf by (unfold p1; auto with pool).
  pose proof (static_is_Some p b Hs Hb) as Hal.
  assert (∀ r, hash_of p1 r = if decide (b = r) then Some k else hash_of p r) as Hh.
  { intros r. by apply pupd_hash_hash. }
  destruct (map_insert_spec (bid_of (pheap p1)) (cached_block_hash_to_block p) k b) as [Hwf He].
  { eapply map_wf_ext; [|apply Hc]. intros r. by apply bid_of_frame. }
  { intros b' Hb' Heq. apply (bid_inj p1); [by eapply static_frame| | |done];
      rewrite (frame_blocks _ _ Hf); [|done]. by apply (cached_in_blocks p k). }
  rewrite (decide_False (P := b ∈ entries _ k)) in He.
  2:{ intros Hin%(co_iff p Hc). destruct Hin. congruence. }
  assert (caches g p [(b, h)] (store_one g b h p)) as Hca.
  { split; [done|apply pupd_hash_ref| | | |done].
    - intros b' h' [= -> ->]%list_elem_of_singleton. change (hash_of p1 b = Some k).
      by rewrite Hh, decide_True.
    - intros r Hr. change (hash_of p1 r = hash_of p r). rewrite Hh, decide_False; [done|].
      intros ->. apply Hr. by left.
    - intros k'. unfold cached. simpl. rewrite He, filter_cons. simpl. fold k.
      destruct (decide (k = k')) as [<-|]; simpl; [done|]. by rewrite app_nil_r. }
  split; [done|]. destruct Hca as [Hf' Hr' Hh' Ho' Hc' _]. pose proof (frame_blocks _ _ Hf') as Hbl.
  split; [by eapply static_frame| | | |].
  - intros r. rewrite Hbl, Hr'. apply Hrf.
  - split; [done| |].
    + intros k' r. rewrite Hc', elem_of_app, (co_iff p Hc), Hbl.
      change (hash_of (store_one g b h p) r) with (hash_of p1 r). rewrite Hh, filter_cons. simpl.
      fold k. destruct (decide (b = r)) as [<-|Hbr], (decide (k = k')); simpl;
        rewrite ?list_elem_of_singleton, ?elem_of_nil; naive_solver congruence.
    + rewrite Ho'; [apply Hc|]. intros ?%list_elem_of_singleton. done.
  - eapply queue_rep_links; [|done]. apply (pupd_links _ b p). auto with pool.
  - intros r. rewrite Hbl, Hr'. apply Hfr.
Qed.

(** The pairs the loop stores: the blocks other than the null block, with the hashes at
    their indices. *)
Definition new_pairs (bs : list bref) (hs : list bytes) : list (bref * bytes) :=
  filter (λ x, x.1 ≠ Blk 0) (zip bs hs).

Lemma new_pairs_fst bs hs b : b ∈ (new_pairs bs hs).*1 → b ∈ bs ∧ b ≠ Blk 0.
Proof.
  intros ([b' h] & -> & Hin)%list_elem_of_fmap. apply list_elem_of_filter in Hin as [Hne Hin].
  split; [|done]. by apply elem_of_zip_l in Hin.
Qed.

Lemma wp_cache_loop g p l hs bs i acc E :
  pool_inv p l → 0 ≤ g < 2 ^ 32 →
  (∀ b, b ∈ bs → b ∈ blocks p ∧ (b ≠ Blk 0 → hash_of p b = None)) →
  NoDup (filter (.≠ Blk 0) bs) → (i + length bs ≤ length hs)%nat →
  wp (cache_loop hs g bs (Z.of_nat i) acc)
    (λ res p', let new := new_pairs bs (drop i hs) in
       pool_inv p' l ∧ caches g p new p' ∧
       res = if enable_kv_cache_events p
             then acc ++ (maybe_convert_block_hash (use_int_hashes p) <$> new.*2) else acc) E p.
Proof.
  intros Hp Hg. revert p i acc Hp.
  induction bs as [|b bs IH]; intros p i acc Hp Hbs Hnd Hlen; simpl.
  { apply wp_ret. split_and!; [done|apply caches_nil|]. simpl. rewrite app_nil_r.
    by destruct (enable_kv_cache_events p). }
  pose proof (pi_static _ _ Hp) as Hs. destruct (Hbs b (list_elem_of_here _ _)) as [Hb Hbn].
  assert (∃ h, hs !! i = Some h) as [h Hh] by (apply lookup_lt_is_Some; simpl in *; lia).
  rewrite (drop_S hs h i Hh). unfold new_pairs. simpl. rewrite filter_cons. simpl.
  rewrite filter_cons in Hnd.
  replace (Z.of_nat i + 1) with (Z.of_nat (S i)) by lia.
  apply wp_bind, wp_read_block; [done..|]. intros o _ _ Hnull _ Hhash. rewrite Hnull, Hhash.
  case_bool_decide as Hz.
  { rewrite decide_False by naive_solver. apply IH; try done; [| |simpl in Hlen; lia].
    - intros b' Hb'. apply Hbs. by right.
    - rewrite decide_False in Hnd by naive_solver. done. }
  rewrite decide_True in Hnd by done. rewrite (decide_True (P := b ≠ Blk 0)) by done.
  apply NoDup_cons in Hnd as [Hnin Hnd]. rewrite (Hbn Hz).
  apply wp_bind, wp_assert; [done|]. apply wp_bind. eapply wp_from_option.
  { unfold py_get. rewrite decide_True by lia. by rewrite Nat2Z.id. }
  apply wp_bind. change (wp (of_outcome ?o) ?Post E p) with
    (match o with Ret a => Post a p | Raise e => E e p end).
  unfold make_block_hash_with_group_id. rewrite decide_True by done.
  unfold set_block_hash. apply wp_bind, wp_bind, wp_read_block; [done..|].
  intros o' _ _ _ _ Hhash'. rewrite Hhash', (Hbn Hz). apply wp_bind, wp_assert; [done|].
  change (wp (upd_block ?f b) ?Post E p) with (Post tt (pupd f b p)). cbv beta.
  wp_steps. fold (group_key g h).
  destruct (store_one_caches g b h p l Hp Hb Hz (Hbn Hz)) as [Hca Hp1].
  change (set_cache _ _) with (store_one g b h p). set (p1 := store_one g b h p) in *.
  change (enable_kv_cache_events p1) with (enable_kv_cache_events p).
  change (use_int_hashes p1) with (use_int_hashes p).
  assert (∀ b', b' ∈ bs → b' ≠ Blk 0 → b' ≠ b) as Hne.
  { intros b' Hb' Hz' ->. apply Hnin. by apply list_elem_of_filter. }
  eapply wp_call; [apply IH; [done| |done|simpl in Hlen; lia]|].
  - intros b' Hb'. rewrite (frame_blocks _ _ (ca_frame _ _ _ _ Hca)).
    split; [apply Hbs; by right|]. intros Hz'. rewrite (ca_other _ _ _ _ Hca).
    + apply Hbs; [by right|done].
    + intros ?%list_elem_of_singleton. by apply (Hne b').
  - intros res p2 (Hp2 & Hca2 & Hres). split_and!; [done| |].
    + apply (caches_trans g p [(b, h)] p1); [done..|].
      intros b' ->%list_elem_of_singleton Hin%new_pairs_fst. destruct Hin as [Hin _].
      by apply (Hne b).
    + rewrite Hres. change (enable_kv_cache_events p1) with (enable_kv_cache_events p).
      destruct (enable_kv_cache_events p); [|done]. by rewrite <-app_assoc.
Qed.

Lemma wp_on_pool {A} (m : M P A) (Post : A → PR → Prop) E p r :
  wp m (λ a p', Post a (p', r)) (λ e p', E e (p', r)) p → wp (on_pool m) Post E (p, r).
Proof. intros H. unfold on_pool. by apply wp_zoom. Qed.

Lemma wp_on_request {A} (m : M Request A) (Post : A → PR → Prop) E p r :
  wp m (λ a r', Post a (p, r')) (λ e r', E e (p, r')) r → wp (on_request m) Post E (p, r).
Proof. intros H. unfold on_request. by apply wp_zoom. Qed.

(** The extra keys of the stored blocks of a text request, in order. *)
Definition event_keys (r : Request) (bs : list bref) (block_size : Z) (idxs : list Z) :=
  (λ i, text_keys r (i * block_size) (i * block_size + block_size)) <$>
    filter (λ i, py_get bs i ≠ Some (Blk 0)) idxs.

Lemma wp_event_keys_loop p r bs bsz idxs mm acc E :
  static_ok p → mm_features r = [] → memo_ok r →
  (∀ i, i ∈ idxs → ∃ b, py_get bs i = Some b ∧ b ∈ blocks p) →
  wp (event_keys_loop bs bsz idxs mm acc)
    (λ ks s, ks = acc ++ event_keys r bs bsz idxs ∧
       ∃ c, s = (p, set_embeds_cache c r) ∧ memo_ok s.2) E (p, r).
Proof.
  intros Hs. revert r mm acc. induction idxs as [|i idxs IH]; intros r mm acc Hmm Hmo Hidx; simpl.
  { apply wp_ret. rewrite app_nil_r. split; [done|]. exists (embeds_hash_cache r). by destruct r. }
  destruct (Hidx i (list_elem_of_here _ _)) as (b & Hb & Hin).
  assert (∀ j, j ∈ idxs → ∃ b, py_get bs j = Some b ∧ b ∈ blocks p) as Hidx'
    by (intros j Hj; apply Hidx; by right).
  unfold event_keys. rewrite filter_cons, Hb.
  apply wp_bind. eapply wp_from_option; [done|]. apply wp_bind, wp_on_pool, wp_read_block; [done..|].
  intros o _ _ Hnull _ _. rewrite Hnull. case_bool_decide as Hz.
  { rewrite decide_False by naive_solver. by apply IH. }
  rewrite decide_True by naive_solver. simpl.
  apply wp_bind, wp_on_request. eapply wp_call; [by apply wp_generate_keys_text|].
  intros [ks mm'] r1 ([= -> ->] & c & -> & Hmo1).
  eapply wp_call; [by apply IH|]. intros res s (-> & c' & -> & Hmo2).
  split; [by rewrite <-app_assoc|by exists c'].
Qed.

Lemma select_hashes_valid hs bsz hbs L :
  0 < bsz → 0 < hbs → select_hashes hs bsz hbs = Ret L → hl_valid L.
Proof.
  intros Hb Hh. unfold select_hashes. destruct (bsz =? hbs); [by intros [= <-]|].
  rewrite (proj2 (Z.eqb_neq hbs 0)) by lia. destruct (negb _); [done|].
  destruct (Z.eqb_spec (bsz / hbs) 0) as [|Hne]; [done|]. intros [= <-]. simpl.
  pose proof (Z.div_pos bsz hbs). lia.
Qed.

Section cache_full.
Context (p : P) (r : Request) (l bs : list bref) (nc nf bsz g : Z) (L : BlockHashList).
Context (Hp : pool_inv p l) (Hg : 0 ≤ g < 2 ^ 32).
Context (Hmm : mm_features r = []) (Hmo : memo_ok r).
Context (Hn : 0 ≤ nc < nf) (Hnb : nf ≤ Z.of_nat (length bs))
        (Hnh : nf ≤ Z.of_nat (length (block_hashes r))).
Context (Hbsz : 0 < bsz) (Hhbs : 0 < hash_block_size p).
Context (HL : select_hashes (block_hashes r) bsz (hash_block_size p) = Ret L) (HnL : nf ≤ hl_len L).
Context (Hbs : ∀ b, b ∈ bs → b ∈ blocks p).
Context (Hnew : ∀ b, b ∈ py_slice bs nc nf → b ≠ Blk 0 → hash_of p b = None).
Context (Hnd : NoDup (filter (.≠ Blk 0) (py_slice bs nc nf))).

(** The pairs of a block and a hash that a call stores. *)
Definition stored_pairs : list (bref * bytes) :=
  new_pairs (py_slice bs nc nf) (default [] (hl_from L nc)).

Definition stored_event : list KVCacheEvent :=
  if enable_kv_cache_events p then
    let ui := use_int_hashes p in
    let ks := event_keys r bs bsz (py_range nc nf) in
    [BlockStored (maybe_convert_block_hash ui <$> stored_pairs.*2)
       (if nc =? 0 then None else maybe_convert_block_hash ui <$> hl_get L (nc - 1))
       (py_slice (all_token_ids r) (nc * bsz) (nf * bsz)) bsz
       (adapter_id <$> lora_request r) MEDIUM_GPU (lora_name <$> lora_request r)
       (match ks with [] => None | _ => Some ks end)]
  else [].

Lemma slice_lookup i :
  nc ≤ i < nf → py_slice bs nc nf !! Z.to_nat (i - nc) = bs !! Z.to_nat i.
Proof using Hn Hnb.
  clear -Hn Hnb. intros Hi. rewrite py_slice_nonneg by lia. rewrite lookup_take_lt by lia.
  rewrite lookup_drop. f_equal. lia.
Qed.

Lemma slice_in b : b ∈ py_slice bs nc nf → b ∈ bs.
Proof using Hn Hnb.
  clear -Hn Hnb. rewrite py_slice_nonneg by lia. intros Hin.
  apply elem_of_take in Hin as (i & Hi & _). apply list_elem_of_lookup_2 in Hi.
  apply list_elem_of_lookup_1 in Hi as [j Hj]. rewrite lookup_drop in Hj.
  by eapply list_elem_of_lookup_2.
Qed.

(** Every full block in the range is paired with the hash at its index. *)
Lemma stored_pairs_in i b h :
  nc ≤ i < nf → bs !! Z.to_nat i = Some b → b ≠ Blk 0 → hl_get L i = Some h →
  (b, h) ∈ stored_pairs.
Proof using Hn Hnb Hbsz Hhbs HL HnL.
  clear -Hn Hnb Hbsz Hhbs HL HnL. intros Hi Hb Hne Hh. pose proof (select_hashes_valid _ _ _ _ Hbsz Hhbs HL) as Hv.
  unfold stored_pairs. destruct (hl_from_spec L nc Hv) as (hs & -> & Hlen & Hhs); [lia|].
  simpl. apply list_elem_of_filter. split; [done|].
  apply (list_elem_of_lookup_2 _ (Z.to_nat (i - nc))). apply lookup_zip_Some.
  rewrite slice_lookup, Hhs by lia.
  split; [done|]. rewrite <-Hh. f_equal. lia.
Qed.

Lemma wp_cache_full_blocks E :
  wp (cache_full_blocks bs nc nf bsz g)
    (λ _ s, ∃ p1 c, s = (set_events (kv_event_queue p ++ stored_event) p1, set_embeds_cache c r) ∧
       caches g p stored_pairs p1 ∧ pool_inv s.1 l ∧ memo_ok s.2) E (p, r).
Proof using Hp Hg Hmm Hmo Hn Hnb Hnh Hbsz Hhbs HL HnL Hbs Hnew Hnd.
  pose proof (select_hashes_valid _ _ _ _ Hbsz Hhbs HL) as Hv.
  destruct (hl_from_spec L nc Hv) as (hs & Hfrom & Hlen & Hhs); [lia|].
  unfold cache_full_blocks. rewrite (proj2 (Z.leb_gt nf nc)) by lia. cbv zeta.
  apply wp_bind, wp_on_request, wp_gets. apply wp_bind, wp_assert; [apply Z.leb_le; lia|].
  apply wp_bind, wp_on_pool, wp_gets. apply wp_bind.
  change (wp (of_outcome ?o) ?Post E (p, r)) with
    (match o with Ret a => Post a (p, r) | Raise e => E e (p, r) end). rewrite HL.
  apply wp_bind. eapply wp_from_option; [done|]. apply wp_bind, wp_on_pool.
  eapply wp_call; [apply (wp_cache_loop g p l hs _ 0%nat); try done|].
  { intros b Hb. split; [apply Hbs; by apply slice_in|by apply Hnew]. }
  { rewrite py_slice_nonneg, length_take, length_drop by lia. simpl. lia. }
  rewrite drop_0. cbv zeta. intros res p1 (Hp1 & Hca & Hres).
  assert (new_pairs (py_slice bs nc nf) hs = stored_pairs) as Hnp
    by (unfold stored_pairs; by rewrite Hfrom).
  rewrite Hnp in *. pose proof (ca_frame _ _ _ _ Hca) as Hf.
  assert (enable_kv_cache_events p1 = enable_kv_cache_events p ∧
    use_int_hashes p1 = use_int_hashes p ∧ blocks p1 = blocks p) as (Hev & Hui & Hbl).
  { destruct Hf as [Hcf _]. unfold config in Hcf. split_and!; congruence. }
  apply wp_bind, wp_on_pool, wp_gets. apply wp_bind, wp_on_pool, wp_gets. rewrite Hev, Hui.
  assert (∀ es, pool_inv (set_events es p1) l) as Hpe.
  { intros es. destruct Hp1 as [[] ? [] ? ?]. by split; [split|..|]. }
  unfold stored_event. destruct (enable_kv_cache_events p) eqn:Een; simpl.
  2:{ apply wp_ret. exists p1, (embeds_hash_cache r). rewrite app_nil_r.
      rewrite <-(ca_events _ _ _ _ Hca). split_and!; [|done|done|done].
      destruct p1, r; done. }
  apply wp_bind. eapply (wp_call _ (λ par s, s = (p1, r) ∧
    par = if nc =? 0 then None else maybe_convert_block_hash (use_int_hashes p) <$> hl_get L (nc - 1))).
  { destruct (Z.eqb_spec nc 0); [by apply wp_ret|].
    destruct (hl_get_in L (nc - 1) Hv) as [h Hh]; [lia|]. apply wp_bind.
    eapply wp_from_option; [done|]. apply wp_ret. by rewrite Hh. }
  intros par s [-> ->]. apply wp_bind. eapply wp_call; [apply (wp_event_keys_loop p1 r)|]; try done.
  { apply Hp1. }
  { intros i Hi%elem_of_py_range. rewrite py_get_nonneg by lia.
    destruct (lookup_lt_is_Some_2 bs (Z.to_nat i)) as [b Hb]; [lia|]. exists b. split; [done|].
    rewrite Hbl. apply Hbs. by eapply list_elem_of_lookup_2. }
  intros ks s (-> & c & -> & Hmo'). apply wp_bind, wp_on_request, wp_gets.
  apply wp_bind, wp_on_request, wp_gets. apply wp_on_pool, wp_modify.
  exists p1, c. rewrite (ca_events _ _ _ _ Hca), Hres. split_and!; [done|done|apply Hpe|done].
Qed.
End cache_full.
