(* ===== verification/PoolSteps.v ===== *)
(** Pools as clients see them: a step relation over all operations, the invariant in every
    reachable pool, conservation of blocks, and the functional theorems of the operations. *)
From S2P Require Import Prelude.
From S2P Require Import Request.
From S2P Require Import BlockHash.
From S2P Require Import FreeQueue.
From S2P Require Import BlockMap.
From S2P Require Import BlockPool.
From S2P Require Import PoolInv.
From S2P Require Import PoolCache.
Local Open Scope Z_scope.

(** ** Reachable pools *)

(** A client gives back references it holds: pool blocks, no block twice (the null
    block apart), each with a reference to give. *)
Definition may_free (p : P) (bs : list bref) : Prop :=
  Forall (λ r, r ∈ blocks p ∧ (r ≠ Blk 0 → 1 ≤ ref_of p r)) bs ∧ NoDup (filter (.≠ Blk 0) bs).

(** A client caches blocks of its own that carry no hash yet, for a text request whose
    hashes reach that far. *)
Record may_cache (p : P) (r : Request) (bs : list bref) (nc nf bsz g : Z) : Prop := {
  mc_group : 0 ≤ g < 2 ^ 32;
  mc_text : mm_features r = [];
  mc_memo : memo_ok r;
  mc_range : 0 ≤ nc < nf;
  mc_blocks : nf ≤ Z.of_nat (length bs);
  mc_hashes : nf ≤ Z.of_nat (length (block_hashes r));
  mc_size : 0 < bsz;
  mc_hash_size : 0 < hash_block_size p;
  mc_select : ∃ L, select_hashes (block_hashes r) bsz (hash_block_size p) = Ret L ∧ nf ≤ hl_len L;
  mc_pool : ∀ b, b ∈ bs → b ∈ blocks p;
  mc_new : ∀ b, b ∈ py_slice bs nc nf → b ≠ Blk 0 → hash_of p b = None;
  mc_nodup : NoDup (filter (.≠ Blk 0) (py_slice bs nc nf))
}.

(** Calls on the pool by clients that keep to their side of the contract, whatever the
    call returns or raises. *)
Inductive pool_step : P → P → Prop :=
  | step_get_new_blocks p n o p' :
      0 ≤ n → get_new_blocks n p = (o, p') → pool_step p p'
  | step_touch p bs o p' :
      (∀ r, r ∈ bs → r ∈ blocks p) → touch bs p = (o, p') → pool_step p p'
  | step_free_blocks p bs o p' :
      may_free p bs → free_blocks bs p = (o, p') → pool_step p p'
  | step_evict_blocks p ids o p' :
      (∀ i, i ∈ ids → 0 ≤ i < num_gpu_blocks p) → evict_blocks ids p = (o, p') → pool_step p p'
  | step_reset p o p' : reset_prefix_cache p = (o, p') → pool_step p p'
  | step_take_events p o p' : take_events p = (o, p') → pool_step p p'
  | step_cache p r bs nc nf bsz g o p' r' :
      may_cache p r bs nc nf bsz g →
      cache_full_blocks bs nc nf bsz g (p, r) = (o, (p', r')) → pool_step p p'.

Lemma pool_inv_events p l es : pool_inv p l → pool_inv (set_events es p) l.
Proof. intros [[] ? [] ? ?]. by split; [split|..|]. Qed.

Lemma wp_elim {St A} (m : M St A) (Post : A → St → Prop) s o s' :
  wp m Post noexc s → m s = (o, s') → ∃ a, o = Ret a ∧ Post a s'.
Proof. unfold wp, noexc. intros H E. rewrite E in H. destruct o; [by eexists|done]. Qed.

(** Every such call returns normally or leaves the pool as it was, and the invariant
    survives it. *)
Lemma pool_step_inv p l p' : pool_inv p l → pool_step p p' → ∃ l', pool_inv p' l'.
Proof.
  intros Hp Hstep. destruct Hstep as
    [p n o p' Hn Hrun|p bs o p' Hbs Hrun|p bs o p' [Hall Hnd] Hrun|p ids o p' Hids Hrun
    |p o p' Hrun|p o p' Hrun|p r bs nc nf bsz g o p' r' Hm Hrun].
  - destruct (decide (n ≤ Z.of_nat (length l))) as [Hle|Hgt].
    + edestruct (wp_elim _ _ _ _ _ (wp_get_new_blocks p l n noexc Hp (conj Hn Hle)) Hrun)
        as (a & _ & _ & ? & _). eauto.
    + rewrite (get_new_blocks_full p l n Hp) in Hrun by lia. simplify_eq. eauto.
  - edestruct (wp_elim _ _ _ _ _ (wp_touch p l bs noexc Hp Hbs) Hrun) as (a & _ & ? & _). eauto.
  - rewrite Forall_forall in Hall.
    edestruct (wp_elim _ _ _ _ _ (wp_free_blocks p l bs Hp (λ r Hr, proj1 (Hall r Hr)) Hnd
      (λ r Hr, proj2 (Hall r Hr)) noexc) Hrun) as (a & _ & ? & _). eauto.
  - edestruct (wp_elim _ _ _ _ _ (wp_evict_blocks p l ids noexc Hp Hids) Hrun) as (a & _ & ? & _).
    eauto.
  - edestruct (wp_elim _ _ _ _ _ (wp_reset_prefix_cache p l noexc Hp) Hrun) as ([] & _ & Hres).
    + destruct Hres as (_ & ? & _). eauto.
    + destruct Hres as [-> _]. eauto.
  - rewrite take_events_run in Hrun. destruct (enable_kv_cache_events p); simplify_eq; [|eauto].
    exists l. by apply pool_inv_events.
  - destruct Hm as [? ? ? ? ? ? ? ? (L & HL & HnL) ? ? ?].
    edestruct (wp_elim _ _ _ _ _ (wp_cache_full_blocks p r l bs nc nf bsz g L
      ltac:(done) ltac:(done) ltac:(done) ltac:(done) ltac:(done) ltac:(done) ltac:(done)
      ltac:(done) ltac:(done) HL HnL ltac:(done) ltac:(done) ltac:(done) noexc) Hrun)
      as (a & _ & p1 & c & [= -> ->] & _ & ? & _). eauto.
Qed.

(** ** Accounting *)

(** The blocks some client holds. *)
Definition in_use (p : P) : list bref := filter (λ r, r ≠ Blk 0 ∧ ref_of p r ≠ 0) (blocks p).

Lemma length_filter_split {A} (Pr : A → Prop) `{∀ x, Decision (Pr x)} (l : list A) :
  length l = (length (filter Pr l) + length (filter (λ x, ¬ Pr x) l))%nat.
Proof.
  induction l as [|x l IH]; [done|]. rewrite !filter_cons.
  destruct (decide (Pr x)), (decide (¬ Pr x)); try tauto; simpl; lia.
Qed.

Lemma blocks_nodup p : static_ok p → NoDup (blocks p).
Proof.
  intros Hs. rewrite (so_blocks _ Hs). apply NoDup_fmap_2; [by intros ?? [=]|apply NoDup_seq].
Qed.

Lemma free_permutation p l :
  pool_inv p l → l ≡ₚ filter (λ r, r ≠ Blk 0 ∧ ref_of p r = 0) (blocks p).
Proof.
  intros Hp. apply NoDup_Permutation.
  - by eapply queue_nodup, pi_queue.
  - apply NoDup_filter, blocks_nodup, Hp.
  - intros r. rewrite (pi_free _ _ Hp), list_elem_of_filter. tauto.
Qed.

Lemma pool_accounting p l :
  pool_inv p l →
  num_gpu_blocks p = 1 + get_num_free_blocks p + Z.of_nat (length (in_use p)).
Proof.
  intros Hp. pose proof (pi_static _ _ Hp) as Hs. pose proof (so_num _ Hs).
  assert (get_num_free_blocks p = Z.of_nat (length l)) as -> by apply (pi_queue _ _ Hp).
  rewrite (Permutation_length (free_permutation p l Hp)).
  assert (blocks p = Blk 0 :: (Blk <$> seq 1 (Z.to_nat (num_gpu_blocks p) - 1))) as Hb.
  { rewrite (so_blocks _ Hs).
    replace (Z.to_nat (num_gpu_blocks p)) with (S (Z.to_nat (num_gpu_blocks p) - 1)) at 1 by lia.
    done. }
  unfold in_use. rewrite Hb, !filter_cons_False by naive_solver.
  set (rest := Blk <$> seq 1 _).
  assert (∀ r, r ∈ rest → r ≠ Blk 0) as Hne.
  { intros r (i & -> & Hi)%list_elem_of_fmap [= ->]. apply elem_of_seq in Hi. lia. }
  rewrite (filter_ext_in (λ r, r ≠ Blk 0 ∧ ref_of p r = 0) (λ r, ref_of p r = 0) rest)
    by naive_solver.
  rewrite (filter_ext_in (λ r, r ≠ Blk 0 ∧ ref_of p r ≠ 0) (λ r, ¬ ref_of p r = 0) rest)
    by naive_solver.
  pose proof (length_filter_split (λ r, ref_of p r = 0) rest) as Hsplit.
  unfold rest in Hsplit at 1. rewrite length_fmap, length_seq in Hsplit. lia.
Qed.

Lemma reachable_inv p p' : rtc pool_step p p' → ∀ l, pool_inv p l → ∃ l', pool_inv p' l'.
Proof.
  induction 1 as [|p p1 p' Hstep _ IH]; intros l Hp; [eauto|].
  destruct (pool_step_inv _ _ _ Hp Hstep) as [l1 Hp1]. eauto.
Qed.

(** A lookup under a stored key finds a block with that key. *)
Lemma lookup_stored p l r g h :
  pool_inv p l → 0 ≤ g < 2 ^ 32 → r ∈ blocks p → hash_of p r = Some (group_key g h) →
  ∃ b, get_cached_block h [g] p = (Ret (Some [b]), p) ∧ hash_of p b = Some (group_key g h).
Proof.
  intros Hp Hg Hr Hh. pose proof (pi_cache _ _ Hp) as Hc.
  assert (∀ k, make_block_hash_with_group_id h g = Ret k → k = group_key g h) as Hkey.
  { intros k. unfold make_block_hash_with_group_id. rewrite decide_True by done. by intros [= <-]. }
  destruct (wp_run _ _ _ (wp_get_cached_loop p h [g] [] noexc Hc
    ltac:(by intros ? ->%list_elem_of_singleton))) as (res & p' & Hrun & -> & Hres).
  destruct res as [bs|].
  - destruct Hres as (bs' & -> & Hall). apply Forall2_cons_inv_l in Hall
      as (b & bs'' & (k & Hk & Hhd) & Hnil & ->). apply Forall2_nil_inv_l in Hnil as ->.
    exists b. apply Hkey in Hk as ->. split; [done|].
    apply (co_iff p Hc). destruct (cached p (group_key g h)); simplify_eq/=. by left.
  - destruct Hres as (g' & k & ->%list_elem_of_singleton & ->%Hkey & Hnil).
    assert (r ∈ cached p (group_key g h)) as Hin by by apply (co_iff p Hc).
    rewrite Hnil in Hin. by apply elem_of_nil in Hin.
Qed.

(** ** Properties *)

(** in every pool that clients can reach from a fresh one by allocating, touching,
    freeing, caching, evicting, resetting and draining events, the free queue is a
    well-linked list holding exactly the unreferenced blocks other than the null block,
    no count is negative, the hash map and the hashes on the blocks agree in both
    directions, the null block is never hashed, and every block but the null block is
    either free or held. *)
Theorem reachable_pool_sound n caching hbs events ui p0 p :
  0 < n → pool_init n caching hbs events ui = Ret p0 → rtc pool_step p0 p →
  ∃ l, pool_inv p l ∧
    num_gpu_blocks p = 1 + get_num_free_blocks p + Z.of_nat (length (in_use p)).
Proof.
  intros Hn Hinit Hr. destruct (pool_init_run n caching hbs events ui Hn) as (p1 & Hi & Hp & _).
  rewrite Hinit in Hi. simplify_eq. destruct (reachable_inv _ _ Hr _ Hp) as [l Hl].
  exists l. split; [done|]. by eapply pool_accounting.
Qed.

(** a pool is built with every block but block 0 free, in id order, unreferenced and
    unhashed; a block count that is not positive is rejected. *)
Theorem pool_init_spec n caching hbs events ui :
  if decide (0 < n) then
    ∃ p, pool_init n caching hbs events ui = Ret p ∧
      pool_inv p (Blk <$> seq 1 (Z.to_nat n - 1)) ∧ null_block p = Blk 0 ∧
      (∀ r, r ∈ blocks p → ref_of p r = 0 ∧ hash_of p r = None)
  else pool_init n caching hbs events ui = Raise AssertionError.
Proof.
  case_decide as Hn.
  - destruct (pool_init_run n caching hbs events ui Hn) as (p & Hi & Hp & Hc & Hall).
    exists p. split_and!; [done|done| |done]. unfold config in Hc. congruence.
  - unfold pool_init. by rewrite (proj2 (Z.leb_le n 0)) by lia.
Qed.

(** allocation takes the blocks at the front of the eviction order. When enough
    blocks are free, [get_new_blocks] returns the first [n], each with one reference,
    and with caching enabled evicts their hashes and announces each removal in order;
    otherwise it raises [ValueError] and changes nothing. *)
Theorem get_new_blocks_spec p l n :
  pool_inv p l → 0 ≤ n →
  if decide (n ≤ get_num_free_blocks p) then
    ∃ p', get_new_blocks n p = (Ret (take (Z.to_nat n) l), p') ∧
      pool_inv p' (drop (Z.to_nat n) l) ∧
      handed_out (enable_caching p) p (take (Z.to_nat n) l) p'
  else get_new_blocks n p = (Raise ValueError, p).
Proof.
  intros Hp Hn. assert (get_num_free_blocks p = Z.of_nat (length l)) as ->
    by apply (pi_queue _ _ Hp).
  case_decide as Hle; [|apply (get_new_blocks_full p l); [done|lia]].
  destruct (wp_run _ _ _ (wp_get_new_blocks p l n noexc Hp (conj Hn Hle)))
    as (ret & p' & Hrun & -> & ? & ?). by exists p'.
Qed.

(** touching blocks adds one reference per mention and takes exactly the touched
    blocks out of the free queue, keeping the order of the others and every hash. *)
Theorem touch_spec p l bs :
  pool_inv p l → (∀ r, r ∈ bs → r ∈ blocks p) →
  ∃ p', touch bs p = (Ret tt, p') ∧ pool_inv p' (filter (.∉ bs) l) ∧
    recounted p (λ r, occ r bs) p'.
Proof.
  intros Hp Hbs. destruct (wp_run _ _ _ (wp_touch p l bs noexc Hp Hbs)) as ([] & p' & ? & ? & ?).
  by exists p'.
Qed.

(** freeing blocks gives back one reference each and appends, in the order given,
    exactly the blocks whose last reference it was to the eviction order; the null block
    never enters it, and freed blocks keep their hashes for later hits. *)
Theorem free_blocks_spec p l bs :
  pool_inv p l → may_free p bs →
  ∃ p', free_blocks bs p = (Ret tt, p') ∧ pool_inv p' (l ++ last_refs p bs) ∧
    recounted p (λ r, - occ r bs) p'.
Proof.
  intros Hp [Hall Hnd]. rewrite Forall_forall in Hall.
  destruct (wp_run _ _ _ (wp_free_blocks p l bs Hp (λ r Hr, proj1 (Hall r Hr)) Hnd
    (λ r Hr, proj2 (Hall r Hr)) noexc)) as ([] & p' & ? & ? & ?).
  by exists p'.
Qed.

(** after [cache_full_blocks], every block in the range carries the key of the hash
    at its index and a lookup of that hash in that group hits a block with this key;
    other blocks keep their hashes, and with events enabled exactly one [BlockStored]
    event describes the call. *)
Theorem cache_then_lookup p l r bs nc nf bsz g L :
  pool_inv p l → may_cache p r bs nc nf bsz g →
  select_hashes (block_hashes r) bsz (hash_block_size p) = Ret L →
  ∃ p' r', cache_full_blocks bs nc nf bsz g (p, r) = (Ret tt, (p', r')) ∧ pool_inv p' l ∧
    kv_event_queue p' = kv_event_queue p ++ stored_event p r bs nc nf bsz L ∧
    (∀ b, b ∉ py_slice bs nc nf → hash_of p' b = hash_of p b) ∧
    ∀ i b h, nc ≤ i < nf → bs !! Z.to_nat i = Some b → b ≠ Blk 0 → hl_get L i = Some h →
      hash_of p' b = Some (group_key g h) ∧
      ∃ b', get_cached_block h [g] p' = (Ret (Some [b']), p') ∧
            hash_of p' b' = Some (group_key g h).
Proof.
  intros Hp [? ? ? ? ? ? ? ? (L' & HL & HnL) Hpool ? ?] HL'. rewrite HL' in HL. simplify_eq.
  destruct (wp_run _ _ _ (wp_cache_full_blocks p r l bs nc nf bsz g L'
    Hp ltac:(done) ltac:(done) ltac:(done) ltac:(done) ltac:(done) ltac:(done)
    ltac:(done) ltac:(done) HL' HnL Hpool ltac:(done) ltac:(done) noexc))
    as ([] & s & Hrun & p1 & c & -> & Hca & Hp' & _).
  eexists _, _. split_and!; [exact Hrun|exact Hp'|done| |].
  - intros b Hb. change (hash_of p1 b = hash_of p b). apply (ca_other _ _ _ _ Hca).
    intros [Hin _]%new_pairs_fst. done.
  - intros i b h Hi Hb Hne Hh.
    assert (hash_of p1 b = Some (group_key g h)) as Hst.
    { apply (ca_hash _ _ _ _ Hca). by eapply (stored_pairs_in p r bs nc nf bsz L' ltac:(done)
        ltac:(done) ltac:(done) ltac:(done) HL' HnL i). }
    split; [done|]. eapply (lookup_stored _ l b); [done|done| |done].
    change (b ∈ blocks p1). rewrite (frame_blocks _ _ (ca_frame _ _ _ _ Hca)).
    apply Hpool. by eapply list_elem_of_lookup_2.
Qed.

(** a prefix-cache hit is genuine. [get_cached_block] returns one block per group,
    in group order, each a pool block other than the null block that carries the key of
    the hash in that group, and it misses exactly when some group has no such block; it
    never changes the pool. *)
Theorem get_cached_block_sound p l h gids :
  pool_inv p l → (∀ g, g ∈ gids → 0 ≤ g < 2 ^ 32) →
  ∃ res, get_cached_block h gids p = (Ret res, p) ∧
    match res with
    | Some bs => Forall2 (λ g b, b ∈ blocks p ∧ b ≠ Blk 0 ∧ hash_of p b = Some (group_key g h)) gids bs
    | None => ∃ g, g ∈ gids ∧ ∀ b, b ∈ blocks p → hash_of p b ≠ Some (group_key g h)
    end.
Proof.
  intros Hp Hg. pose proof (pi_cache _ _ Hp) as Hc.
  assert (∀ g k, make_block_hash_with_group_id h g = Ret k → k = group_key g h) as Hkey.
  { intros g k. unfold make_block_hash_with_group_id. case_decide; [|done]. by intros [= <-]. }
  destruct (wp_run _ _ _ (wp_get_cached_loop p h gids [] noexc Hc Hg)) as (res & p' & Hrun & -> & Hres).
  exists res. split; [done|]. destruct res as [bs|].
  - destruct Hres as (bs' & -> & Hall). eapply Forall2_impl; [exact Hall|].
    intros g b (k & ->%Hkey & Hhd).
    assert (b ∈ cached p (group_key g h)) as Hin
      by (destruct (cached p (group_key g h)); simplify_eq/=; by left).
    apply (co_iff p Hc) in Hin as [? Hh]. split_and!; [done| |done].
    intros ->. rewrite (co_null p Hc) in Hh. done.
  - destruct Hres as (g & k & Hin & ->%Hkey & Hnil). exists g. split; [done|].
    intros b Hb Hh. assert (b ∈ cached p (group_key g h)) as Hin' by by apply (co_iff p Hc).
    rewrite Hnil in Hin'. by apply elem_of_nil in Hin'.
Qed.

(** explicit eviction and reset only affect the cache. [evict_blocks] removes the
    hashes of exactly the given blocks and neither frees nor reorders anything;
    [reset_prefix_cache] succeeds exactly when no block is held, and then no hash and no
    map entry is left and the free queue is unchanged; when it fails nothing changes. *)
Theorem evict_and_reset_spec p l ids :
  pool_inv p l → (∀ i, i ∈ ids → 0 ≤ i < num_gpu_blocks p) →
  (∃ p', evict_blocks ids p = (Ret tt, p') ∧ pool_inv p' l ∧
     evicts_all p ((λ i, Blk (Z.to_nat i)) <$> ids) p') ∧
  (∃ p', if decide (in_use p = []) then
      reset_prefix_cache p = (Ret true, p') ∧ pool_inv p' l ∧ cleared p p'
    else p' = p ∧ reset_prefix_cache p = (Ret false, p)).
Proof.
  intros Hp Hids. split.
  - destruct (wp_run _ _ _ (wp_evict_blocks p l ids noexc Hp Hids)) as ([] & p' & ? & ? & ?). eauto.
  - pose proof (pool_accounting p l Hp) as Hacc.
    assert (get_num_free_blocks p = Z.of_nat (length l)) as Hfree by apply (pi_queue _ _ Hp).
    destruct (wp_run _ _ _ (wp_reset_prefix_cache p l noexc Hp)) as (res & p' & Hrun & Hres).
    exists p'. destruct res.
    + destruct Hres as (Hlen & ? & ?). rewrite decide_True; [done|].
      apply nil_length_inv. lia.
    + destruct Hres as [-> Hlen]. rewrite decide_False; [done|]. intros Hn. rewrite Hn in Hacc.
      simpl in Hacc. lia.
Qed.

(** ** A pool of four blocks *)

Definition sample_pool : P :=
  match pool_init 4 true 2 true false with
  | Ret p => p
  | Raise _ => mkPool 0 false 0 [] (mkQueue ∅ 0) ∅ FakeHead false false []
  end.

Lemma sample_pool_init : pool_init 4 true 2 true false = Ret sample_pool.
Proof. vm_compute. reflexivity. Qed.

Lemma sample_pool_inv : pool_inv sample_pool [Blk 1; Blk 2; Blk 3].
Proof.
  destruct (pool_init_run 4 true 2 true false) as (p & Hi & Hp & _); [lia|].
  rewrite sample_pool_init in Hi. simplify_eq. exact Hp.
Qed.

(** Block 1 allocated and, with [hash] for its tokens, cached. *)
Definition held_pool : P := (get_new_blocks 1 sample_pool).2.

Lemma held_pool_inv : pool_inv held_pool [Blk 2; Blk 3].
Proof.
  destruct (wp_run _ _ _ (wp_get_new_blocks sample_pool [Blk 1; Blk 2; Blk 3] 1 noexc
    sample_pool_inv ltac:(simpl; lia))) as (ret & p' & Hrun & _ & Hp & _).
  unfold held_pool. rewrite Hrun. exact Hp.
Qed.

Ltac in_pool := intros r Hr; repeat (apply elem_of_cons in Hr as [->|Hr];
  [apply (bool_decide_unpack _); vm_compute; done|]); by apply elem_of_nil in Hr.

Lemma reachable_pool_sound_witness :
  ∃ l, pool_inv held_pool l ∧
    num_gpu_blocks held_pool = 1 + get_num_free_blocks held_pool + Z.of_nat (length (in_use held_pool)).
Proof.
  apply (reachable_pool_sound 4 true 2 true false sample_pool).
  - lia.
  - apply sample_pool_init.
  - apply rtc_once. apply (step_get_new_blocks _ 1 (Ret [Blk 1])); [lia|]. vm_compute. reflexivity.
Defined.

Lemma get_new_blocks_spec_witness :
  (∃ p', get_new_blocks 2 sample_pool = (Ret [Blk 1; Blk 2], p') ∧ pool_inv p' [Blk 3] ∧
     handed_out true sample_pool [Blk 1; Blk 2] p') ∧
  get_new_blocks 4 sample_pool = (Raise ValueError, sample_pool).
Proof.
  split.
  - exact (get_new_blocks_spec sample_pool [Blk 1; Blk 2; Blk 3] 2 sample_pool_inv ltac:(lia)).
  - exact (get_new_blocks_spec sample_pool [Blk 1; Blk 2; Blk 3] 4 sample_pool_inv ltac:(lia)).
Defined.

Lemma touch_spec_witness :
  ∃ p', touch [Blk 2; Blk 0; Blk 2] sample_pool = (Ret tt, p') ∧ pool_inv p' [Blk 1; Blk 3] ∧
    recounted sample_pool (λ r, occ r [Blk 2; Blk 0; Blk 2]) p'.
Proof.
  apply (touch_spec sample_pool [Blk 1; Blk 2; Blk 3] [Blk 2; Blk 0; Blk 2]).
  - apply sample_pool_inv.
  - in_pool.
Defined.

Lemma free_blocks_spec_witness :
  ∃ p', free_blocks [Blk 0; Blk 1] held_pool = (Ret tt, p') ∧
    pool_inv p' [Blk 2; Blk 3; Blk 1] ∧ recounted held_pool (λ r, - occ r [Blk 0; Blk 1]) p'.
Proof.
  apply (free_blocks_spec held_pool [Blk 2; Blk 3] [Blk 0; Blk 1]).
  - apply held_pool_inv.
  - split; [|apply (bool_decide_unpack _); vm_compute; done].
    apply (bool_decide_unpack _). vm_compute. done.
Defined.

Lemma cache_then_lookup_witness :
  ∃ p' r', cache_full_blocks [Blk 1] 0 1 2 0 (held_pool, hashed_request sample_hash [5; 6; 7])
      = (Ret tt, (p', r')) ∧
    ∃ b', get_cached_block (block_hash_at sample_hash [] 2 (text_request [5; 6; 7] []) 0) [0] p'
      = (Ret (Some [b']), p').
Proof.
  destruct (cache_then_lookup held_pool [Blk 2; Blk 3] (hashed_request sample_hash [5; 6; 7])
    [Blk 1] 0 1 2 0 (PlainHashes (block_hashes (hashed_request sample_hash [5; 6; 7]))))
    as (p' & r' & Hrun & _ & _ & _ & Hlook).
  - apply held_pool_inv.
  - split; try lia; try (vm_compute; done).
    + eexists. split; [reflexivity|]. vm_compute. done.
    + in_pool.
    + intros b ->%list_elem_of_singleton _. vm_compute. reflexivity.
    + apply (bool_decide_unpack _). vm_compute. done.
  - reflexivity.
  - exists p', r'. split; [exact Hrun|].
    destruct (Hlook 0 (Blk 1) (block_hash_at sample_hash [] 2 (text_request [5; 6; 7] []) 0))
      as (_ & b' & Hb' & _); [lia|reflexivity|done|reflexivity|].
    exists b'. exact Hb'.
Defined.

Lemma get_cached_block_sound_witness :
  ∃ res, get_cached_block [9] [0; 1] sample_pool = (Ret res, sample_pool).
Proof.
  destruct (get_cached_block_sound sample_pool [Blk 1; Blk 2; Blk 3] [9] [0; 1]) as (res & H & _).
  - apply sample_pool_inv.
  - intros g. rewrite !elem_of_cons, elem_of_nil. lia.
  - exists res. exact H.
Defined.

Lemma evict_and_reset_spec_witness :
  (∃ p', evict_blocks [1; 3] sample_pool = (Ret tt, p')) ∧
  (∃ p', reset_prefix_cache sample_pool = (Ret true, p')).
Proof.
  destruct (evict_and_reset_spec sample_pool [Blk 1; Blk 2; Blk 3] [1; 3]) as [He Hr].
  - apply sample_pool_inv.
  - intros i. rewrite !elem_of_cons, elem_of_nil. change (num_gpu_blocks sample_pool) with 4. lia.
  - split.
    + destruct He as (p' & He & _). exists p'. exact He.
    + destruct Hr as (p' & Hr). rewrite decide_True in Hr by (vm_compute; reflexivity).
      destruct Hr as [Hr _]. exists p'. exact Hr.
Defined.
