(* ===== verification/Manager.v ===== *)
(** The managers of one KV cache group in src/vllm/v1/core/single_type_kv_cache_manager.py:
    block tables per request over a shared pool, the estimate of blocks to allocate, adoption of
    computed blocks, growth, caching, freeing, the blocks an attention window leaves behind and
    the common prefix, for full, sliding-window and chunked-local attention. *)
From S2P Require Import Prelude.
From S2P Require Import Request.
From S2P Require Import BlockHash.
From S2P Require Import FreeQueue.
From S2P Require Import BlockMap.
From S2P Require Import BlockPool.
Local Open Scope Z_scope.

(** ** State *)

(** The attention types, with what their managers read from the spec. *)
Inductive attention_kind :=
  | FullAttention
  | SlidingWindow (sliding_window : Z)
  | ChunkedLocalAttention (attention_chunk_size : Z).

(** [SingleTypeKVCacheManager]. [block_size] already includes the context-parallel
    factor; [plain_full_spec] is [type(self.kv_cache_spec) is FullAttentionSpec]. *)
Record SingleTypeKVCacheManager := mkManager {
  block_size : Z;
  kind : attention_kind;
  plain_full_spec : bool;
  mgr_enable_caching : bool;
  kv_cache_group_id : Z;
  new_block_ids : list Z;
  req_to_blocks : gmap string (list bref);
  num_cached_block : gmap string Z
}.

Abbreviation MG := SingleTypeKVCacheManager.

(** [SingleTypeKVCacheManager.__init__]. *)
Definition manager_init (spec_block_size : Z) (k : attention_kind) (plain caching : bool)
    (group_id dcp_world_size pcp_world_size : Z) : MG :=
  mkManager
    (if 1 <? dcp_world_size * pcp_world_size
     then spec_block_size * (dcp_world_size * pcp_world_size) else spec_block_size)
    k plain caching group_id [] ∅ ∅.

Definition set_req_blocks (req : string) (bs : list bref) (m : MG) : MG :=
  mkManager (block_size m) (kind m) (plain_full_spec m) (mgr_enable_caching m)
    (kv_cache_group_id m) (new_block_ids m) (<[req := bs]> (req_to_blocks m)) (num_cached_block m).
Definition del_req_blocks (req : string) (m : MG) : MG :=
  mkManager (block_size m) (kind m) (plain_full_spec m) (mgr_enable_caching m)
    (kv_cache_group_id m) (new_block_ids m) (delete req (req_to_blocks m)) (num_cached_block m).
Definition set_num_cached (f : gmap string Z → gmap string Z) (m : MG) : MG :=
  mkManager (block_size m) (kind m) (plain_full_spec m) (mgr_enable_caching m)
    (kv_cache_group_id m) (new_block_ids m) (req_to_blocks m) (f (num_cached_block m)).
Definition set_new_ids (ids : list Z) (m : MG) : MG :=
  mkManager (block_size m) (kind m) (plain_full_spec m) (mgr_enable_caching m)
    (kv_cache_group_id m) ids (req_to_blocks m) (num_cached_block m).

(** A manager and the pool it works on. *)
Abbreviation MP := (SingleTypeKVCacheManager * BlockPool)%type.
Definition on_mgr {A} : M MG A → M MP A := zoom fst (λ m s, (m, s.2)).
Definition on_bp {A} : M P A → M MP A := zoom snd (λ p s, (s.1, p)).

(** [self.req_to_blocks[request_id]]: a missing entry of the [defaultdict] is created. *)
Definition get_req_blocks (req : string) : M MG (list bref) :=
  o ← gets (λ m, req_to_blocks m !! req);
  match o with
  | Some bs => mret bs
  | None => modify (set_req_blocks req []) ;; mret []
  end.

Definition get_null_block : M MP bref := on_bp (gets null_block).

(** ** Operations *)

(** [get_num_skipped_tokens] of each attention type. *)
Definition sliding_num_skipped_tokens (sliding_window num_computed_tokens : Z) : Z :=
  Z.max 0 (num_computed_tokens - sliding_window + 1).
Definition chunked_num_skipped_tokens (attention_chunk_size num_computed_tokens : Z) : Z :=
  (num_computed_tokens / attention_chunk_size) * attention_chunk_size.

Definition get_num_skipped_tokens (k : attention_kind) (num_computed_tokens : Z) : Z :=
  match k with
  | FullAttention => 0
  | SlidingWindow w => sliding_num_skipped_tokens w num_computed_tokens
  | ChunkedLocalAttention c => chunked_num_skipped_tokens c num_computed_tokens
  end.

(** [_get_num_evictable_blocks]. *)
Definition get_num_evictable_blocks (h : store) (blocks : list bref) : Z :=
  Z.of_nat (length (filter (λ r, releasable h r = true) blocks)).

(** [get_num_blocks_to_allocate]. *)
Definition get_num_blocks_to_allocate (request_id : string) (num_tokens : Z)
    (new_computed_blocks : list bref) (total_computed_tokens : Z) : M MP Z :=
  m ← on_mgr (gets id);
  h ← on_bp (gets pheap);
  let num_required_blocks := cdiv num_tokens (block_size m) in
  let num_req_blocks := Z.of_nat (length (default [] (req_to_blocks m !! request_id))) in
  if bool_decide (is_Some (num_cached_block m !! request_id)) then
    py_assert (Z.of_nat (length new_computed_blocks) =? 0) ;;
    mret (Z.max (num_required_blocks - num_req_blocks) 0)
  else
    let num_skipped_tokens := get_num_skipped_tokens (kind m) total_computed_tokens in
    let num_local_computed_blocks := Z.of_nat (length new_computed_blocks) + num_req_blocks in
    let num_skipped_blocks := num_skipped_tokens / block_size m in
    let num_new_blocks :=
      Z.max (num_required_blocks - Z.max num_skipped_blocks num_local_computed_blocks) 0 in
    let num_skipped_new_computed_blocks := Z.max 0 (num_skipped_blocks - num_req_blocks) in
    let num_evictable_blocks := get_num_evictable_blocks h
      (py_slice new_computed_blocks num_skipped_new_computed_blocks
         (Z.of_nat (length new_computed_blocks))) in
    mret (num_new_blocks + num_evictable_blocks).

(** [self.new_block_ids.extend(b.block_id for b in blocks)], for plain full attention. *)
Definition record_new_ids (blocks : list bref) : M MP unit :=
  h ← on_bp (gets pheap);
  on_mgr (modify (λ m, if plain_full_spec m
                       then set_new_ids (new_block_ids m ++ (bid_of h <$> blocks)) m else m)).

(** [allocate_new_computed_blocks]. *)
Definition allocate_new_computed_blocks (request_id : string) (new_computed_blocks : list bref)
    (num_local_computed_tokens num_external_computed_tokens : Z) : M MP unit :=
  m ← on_mgr (gets id);
  if bool_decide (is_Some (num_cached_block m !! request_id)) then
    py_assert (Z.of_nat (length new_computed_blocks) =? 0)
  else
    req_blocks ← on_mgr (get_req_blocks request_id);
    py_assert (Z.of_nat (length req_blocks) =? 0) ;;
    let num_total_computed_tokens := num_local_computed_tokens + num_external_computed_tokens in
    let num_skipped_tokens := get_num_skipped_tokens (kind m) num_total_computed_tokens in
    let num_skipped_blocks := num_skipped_tokens / block_size m in
    let computed := if 0 <? num_skipped_blocks
      then py_slice new_computed_blocks num_skipped_blocks (Z.of_nat (length new_computed_blocks))
      else new_computed_blocks in
    let external := if 0 <? num_skipped_blocks
      then Z.min (num_total_computed_tokens - num_skipped_tokens) num_external_computed_tokens
      else num_external_computed_tokens in
    (if mgr_enable_caching m then on_bp (touch computed)
     else py_assert (match computed with [] => true | _ => false end)) ;;
    null ← get_null_block;
    let req_blocks' := req_blocks ++ replicate (Z.to_nat num_skipped_blocks) null ++ computed in
    on_mgr (modify (set_req_blocks request_id req_blocks')) ;;
    on_mgr (modify (set_num_cached (<[request_id := Z.of_nat (length req_blocks')]>))) ;;
    if 0 <? external then
      allocated_blocks ← on_bp (get_new_blocks
        (cdiv num_total_computed_tokens (block_size m) - Z.of_nat (length req_blocks')));
      on_mgr (modify (set_req_blocks request_id (req_blocks' ++ allocated_blocks))) ;;
      record_new_ids allocated_blocks
    else mret tt.

(** [allocate_new_blocks]. *)
Definition allocate_new_blocks (request_id : string) (num_tokens : Z) : M MP (list bref) :=
  req_blocks ← on_mgr (get_req_blocks request_id);
  m ← on_mgr (gets id);
  let num_required_blocks := cdiv num_tokens (block_size m) in
  let num_new_blocks := num_required_blocks - Z.of_nat (length req_blocks) in
  if num_new_blocks <=? 0 then mret []
  else
    new_blocks ← on_bp (get_new_blocks num_new_blocks);
    on_mgr (modify (set_req_blocks request_id (req_blocks ++ new_blocks))) ;;
    record_new_ids new_blocks ;;
    mret new_blocks.

(** [take_new_block_ids]. *)
Definition take_new_block_ids : M MG (list Z) :=
  ids ← gets new_block_ids;
  modify (set_new_ids []) ;;
  mret ids.

(** [cache_blocks] also passes the request on. *)
Abbreviation MPR := (SingleTypeKVCacheManager * (BlockPool * Request))%type.

Definition cache_blocks (num_tokens : Z) : M MPR unit :=
  let mg {A} : M MG A → M MPR A := zoom fst (λ m s, (m, s.2)) in
  let pr {A} : M PR A → M MPR A := zoom snd (λ s' s, (s.1, s')) in
  m ← mg (gets id);
  req ← pr (on_request (gets request_id));
  let num_cached_blocks := default 0 (num_cached_block m !! req) in
  let num_full_blocks := num_tokens / block_size m in
  if num_full_blocks <=? num_cached_blocks then mret tt
  else
    bs ← mg (get_req_blocks req);
    pr (cache_full_blocks bs num_cached_blocks num_full_blocks (block_size m)
          (kv_cache_group_id m)) ;;
    mg (modify (set_num_cached (<[req := num_full_blocks]>))).

(** [free]. *)
Definition free_request (request_id : string) : M MP unit :=
  o ← on_mgr (gets (λ m, req_to_blocks m !! request_id));
  on_mgr (modify (del_req_blocks request_id)) ;;
  on_bp (free_blocks (reverse (default [] o))) ;;
  on_mgr (modify (set_num_cached (delete request_id))).

(** The loop of [remove_skipped_blocks] over the indices [idxs]: the blocks removed so far
    and the updated table; it stops at the first null block. *)
Fixpoint remove_loop (null : bref) (idxs : list Z) (blocks removed : list bref) :
    outcome (list bref * list bref) :=
  match idxs with
  | [] => Ret (blocks, removed)
  | i :: idxs' =>
      match py_get blocks i with
      | None => Raise IndexError
      | Some b =>
          if decide (b = null) then Ret (blocks, removed)
          else remove_loop null idxs' (<[Z.to_nat i := null]> blocks) (removed ++ [b])
      end
  end.

(** [remove_skipped_blocks]. *)
Definition remove_skipped_blocks (request_id : string) (total_computed_tokens : Z) : M MP unit :=
  m ← on_mgr (gets id);
  let num_skipped_tokens := get_num_skipped_tokens (kind m) total_computed_tokens in
  if num_skipped_tokens <=? 0 then mret tt
  else
    blocks ← on_mgr (get_req_blocks request_id);
    let num_skipped_blocks :=
      Z.min (num_skipped_tokens / block_size m) (Z.of_nat (length blocks)) in
    null ← get_null_block;
    '(blocks', removed) ← of_outcome
      (remove_loop null (reverse (py_range 0 num_skipped_blocks)) blocks []);
    on_mgr (modify (set_req_blocks request_id blocks')) ;;
    on_bp (free_blocks removed).

(** [FullAttentionManager.get_num_common_prefix_blocks]: the loop. *)
Fixpoint common_prefix_loop (h : store) (num_reqs : Z) (blocks : list bref) (n : Z) : Z :=
  match blocks with
  | [] => n
  | b :: bs =>
      match h !! b with
      | Some o => if ref_cnt o =? num_reqs then common_prefix_loop h num_reqs bs (n + 1) else n
      | None => n
      end
  end.

Definition get_num_common_prefix_blocks (running_request_id : string) : M MP Z :=
  m ← on_mgr (gets id);
  match kind m with
  | FullAttention =>
      blocks ← on_mgr (get_req_blocks running_request_id);
      m' ← on_mgr (gets id);
      h ← on_bp (gets pheap);
      mret (common_prefix_loop h (Z.of_nat (size (req_to_blocks m'))) blocks 0)
  | _ => mret 0
  end.
