(* ===== verification/ManagerInv.v ===== *)
(** The invariant of a manager over its pool: every reference count is the number of table
    entries that name the block, tables are duplicate free up to null blocks, and what may be
    adopted. The operations keep it. *)
From S2P Require Import Prelude.
From S2P Require Import Request.
From S2P Require Import BlockHash.
From S2P Require Import FreeQueue.
From S2P Require Import BlockMap.
From S2P Require Import BlockPool.
From S2P Require Import PoolInv.
From S2P Require Import PoolCache.
From S2P Require Import Manager.
Local Open Scope Z_scope.

(** ** References held through block tables *)

Abbreviation tables := (gmap string (list bref)).

(** How often [r] occurs in the tables. *)
Definition held (t : tables) (r : bref) : Z := map_fold (λ _ bs acc, occ r bs + acc) 0 t.

Lemma held_insert_fresh t k bs r :
  t !! k = None → held (<[k := bs]> t) r = occ r bs + held t r.
Proof.
  intros Hk. unfold held. apply (map_fold_insert_L (λ _ bs acc, occ r bs + acc)); [|done].
  intros. lia.
Qed.

Lemma held_split t k r : held t r = occ r (default [] (t !! k)) + held (delete k t) r.
Proof.
  destruct (t !! k) as [bs|] eqn:E; simpl.
  - rewrite <-(insert_delete_id t k bs E) at 1. by rewrite held_insert_fresh by apply lookup_delete_eq.
  - rewrite delete_id by done. change (occ r []) with 0. lia.
Qed.

Lemma held_insert t k bs r : held (<[k := bs]> t) r = occ r bs + held (delete k t) r.
Proof.
  rewrite (held_split _ k), lookup_insert_eq. simpl. by rewrite delete_insert_eq.
Qed.

Lemma held_nonneg t r : 0 ≤ held t r.
Proof.
  unfold held. apply (map_fold_weak_ind (λ acc _, 0 ≤ acc)); [done|].
  intros k bs t' acc _ H. pose proof (occ_nonneg r bs). lia.
Qed.

Lemma held_zero t k bs r : held t r = 0 → t !! k = Some bs → r ∉ bs.
Proof.
  intros H0 Hk Hr. rewrite (held_split t k), Hk in H0. simpl in H0.
  pose proof (occ_in r bs Hr). pose proof (held_nonneg (delete k t) r). lia.
Qed.

(** ** The invariant *)

Definition kind_ok (k : attention_kind) : Prop :=
  match k with
  | FullAttention => True
  | SlidingWindow w => 1 ≤ w
  | ChunkedLocalAttention c => 1 ≤ c
  end.

(** The null blocks of a table come before its real blocks. *)
Definition nulls_first (bs : list bref) : Prop :=
  ∃ k xs, bs = replicate k (Blk 0) ++ xs ∧ Blk 0 ∉ xs.

Lemma nulls_first_nil : nulls_first [].
Proof. exists 0%nat, []. split; [done|apply not_elem_of_nil]. Qed.

Lemma nulls_first_app bs xs : nulls_first bs → Blk 0 ∉ xs → nulls_first (bs ++ xs).
Proof.
  intros (k & ys & -> & Hys) Hxs. exists k, (ys ++ xs). rewrite app_assoc. split; [done|].
  rewrite elem_of_app. tauto.
Qed.

Lemma nulls_first_pad n k bs : nulls_first bs → nulls_first (replicate n (Blk 0) ++ drop k bs).
Proof.
  intros (j & xs & -> & Hxs). destruct (decide (k ≤ j)%nat).
  - rewrite drop_app_le, drop_replicate, app_assoc, <-replicate_add
      by (rewrite ?length_replicate; lia). by exists (n + (j - k))%nat, xs.
  - rewrite drop_app_ge by (rewrite length_replicate; lia). eexists n, _. split; [done|].
    intros Hin. apply Hxs. by eapply subseteq_drop.
Qed.

(** A block table names pool blocks, no block twice except the null block, and null
    blocks first. *)
Record table_ok (p : P) (bs : list bref) : Prop := {
  tk_pool : ∀ r, r ∈ bs → r ∈ blocks p;
  tk_nodup : NoDup (filter (.≠ Blk 0) bs);
  tk_nulls : nulls_first bs
}.

Lemma table_ok_nil p : table_ok p [].
Proof. split; [by intros r ?%elem_of_nil|constructor|apply nulls_first_nil]. Qed.

(** The references of a block are the occurrences in this manager's tables and those
    that [ext] accounts for, such as other managers on the same pool. *)
Record mgr_inv (ext : bref → Z) (m : MG) (p : P) (l : list bref) : Prop := {
  mi_pool : pool_inv p l;
  mi_refs : ∀ r, r ∈ blocks p → r ≠ Blk 0 → ref_of p r = ext r + held (req_to_blocks m) r;
  mi_ext : ∀ r, 0 ≤ ext r;
  mi_tables : ∀ req bs, req_to_blocks m !! req = Some bs → table_ok p bs;
  mi_size : 0 < block_size m;
  mi_kind : kind_ok (kind m)
}.

(** The manager's configuration never changes. *)
Definition mgr_config (m : MG) :=
  (block_size m, kind m, plain_full_spec m, mgr_enable_caching m, kv_cache_group_id m).

Lemma mgr_inv_pool_step ext m p l m' p' l' :
  mgr_inv ext m p l → pool_inv p' l' → frame p p' → mgr_config m' = mgr_config m →
  (∀ r, r ∈ blocks p → r ≠ Blk 0 → ref_of p' r = ext r + held (req_to_blocks m') r) →
  (∀ req bs, req_to_blocks m' !! req = Some bs → table_ok p bs) →
  mgr_inv ext m' p' l'.
Proof.
  intros [Hp Hr He Ht Hs Hk] Hp' Hf Hc Hr' Ht'. pose proof (frame_blocks _ _ Hf) as Hb.
  unfold mgr_config in Hc. split; [done| |done| | |].
  - intros r. rewrite Hb. apply Hr'.
  - intros req bs Hreq. destruct (Ht' req bs Hreq) as [H1 H2 H3]. split; [|done..].
    intros r Hin. rewrite Hb. by apply H1.
  - congruence.
  - replace (kind m') with (kind m) by congruence. done.
Qed.

Lemma wp_get_req_blocks m req E :
  wp (get_req_blocks req)
    (λ bs m', bs = default [] (req_to_blocks m !! req) ∧
       m' = set_req_blocks req bs m) E m.
Proof.
  unfold get_req_blocks. wp_steps. destruct (req_to_blocks m !! req) as [bs|] eqn:Er; wp_steps; [|done].
  split; [done|]. unfold set_req_blocks. rewrite insert_id by done. by destruct m.
Qed.

(** Creating an empty table entry is invisible. *)
Lemma mgr_inv_touch_entry ext m p l req :
  mgr_inv ext m p l →
  mgr_inv ext (set_req_blocks req (default [] (req_to_blocks m !! req)) m) p l.
Proof.
  intros Hm. pose proof Hm as [Hp Hr He Ht Hs Hk]. eapply mgr_inv_pool_step; try done; simpl.
  - intros r Hin Hne. rewrite Hr by done. by rewrite held_insert, <-held_split.
  - intros req' bs Hreq. rewrite lookup_insert in Hreq. case_decide; [|by eapply Ht]. subst req'.
    destruct (req_to_blocks m !! req) as [bs'|] eqn:E; simplify_eq/=; [by eapply Ht|].
    apply table_ok_nil.
Qed.

(** Handing out [xs] to the table of [req]. *)
Lemma mgr_inv_extend ext m p l m' p' l' e xs req :
  mgr_inv ext m p l → handed_out e p xs p' → pool_inv p' l' → NoDup xs →
  (∀ r, r ∈ xs → r ∈ l) → mgr_config m' = mgr_config m →
  req_to_blocks m' = <[req := default [] (req_to_blocks m !! req) ++ xs]> (req_to_blocks m) →
  mgr_inv ext m' p' l'.
Proof.
  intros Hm Hho Hp' Hnd Hxs Hc Ht'. pose proof Hm as [Hp Hr He Ht Hs Hk].
  set (bs := default [] (req_to_blocks m !! req)) in *.
  assert (∀ r, r ∈ xs → r ∈ blocks p ∧ r ≠ Blk 0 ∧ ref_of p r = 0) as Hfree.
  { intros r Hin. by apply (pi_free _ _ Hp), Hxs. }
  assert (table_ok p bs) as [Hb1 Hb2 Hb3].
  { unfold bs. destruct (req_to_blocks m !! req) as [bs'|] eqn:E; [by eapply Ht|].
    apply table_ok_nil. }
  assert (∀ r, r ∈ xs → r ∉ bs) as Hdis.
  { intros r Hin Hinb. destruct (Hfree r Hin) as (H1 & H2 & H3). rewrite Hr in H3 by done.
    rewrite (held_split _ req) in H3. fold bs in H3. pose proof (occ_in r bs Hinb).
    pose proof (held_nonneg (delete req (req_to_blocks m)) r). specialize (He r). lia. }
  assert (∀ r, occ r xs = if decide (r ∈ xs) then 1 else 0) as Hocc.
  { intros r. case_decide as Hd; [|by apply occ_not_in].
    apply occ_filter_nodup; [by apply Hfree| |done]. by apply NoDup_filter. }
  eapply mgr_inv_pool_step; try done; [apply Hho| |].
  - intros r Hin Hne. rewrite (ho_ref _ _ _ _ Hho), Ht', held_insert, occ_app, Hocc.
    specialize (Hr r Hin Hne). rewrite (held_split _ req) in Hr. fold bs in Hr.
    case_decide as Hd; [|lia]. destruct (Hfree r Hd) as (_ & _ & H0). lia.
  - intros req' bs' Hreq. rewrite Ht', lookup_insert in Hreq. case_decide; [|by eapply Ht].
    simplify_eq. split.
    + intros r [Hin|Hin]%elem_of_app; [by apply Hb1|by apply Hfree].
    + rewrite filter_app. apply NoDup_app. split_and!; [done| |by apply NoDup_filter].
      intros r [_ Hin1]%list_elem_of_filter [_ Hin2]%list_elem_of_filter. by apply (Hdis r).
    + apply nulls_first_app; [done|]. intros Hin. by destruct (Hfree _ Hin) as (_ & ? & _).
Qed.

(** Giving back [xs]: the table of [req] changes from [bs] to [bs']. *)
Lemma mgr_inv_release ext m p l m' p' l' xs req bs' :
  mgr_inv ext m p l → recounted p (λ r, - occ r xs) p' → pool_inv p' l' →
  mgr_config m' = mgr_config m →
  req_to_blocks m' = <[req := bs']> (req_to_blocks m) ∨
    (bs' = [] ∧ req_to_blocks m' = delete req (req_to_blocks m)) →
  (∀ r, r ≠ Blk 0 → occ r (default [] (req_to_blocks m !! req)) = occ r bs' + occ r xs) →
  table_ok p bs' → mgr_inv ext m' p' l'.
Proof.
  intros Hm Hrc Hp' Hc Ht' Hocc Hok. pose proof Hm as [Hp Hr He Ht Hs Hk].
  eapply mgr_inv_pool_step; try done; [apply Hrc| |].
  - intros r Hin Hne. rewrite (rc_ref _ _ _ Hrc), Hr, (held_split _ req), Hocc by done.
    destruct Ht' as [->|[-> ->]]; [rewrite held_insert|change (occ r []) with 0]; lia.
  - intros req' b Hreq. destruct Ht' as [Ht'|[_ Ht']]; rewrite Ht' in Hreq.
    + rewrite lookup_insert in Hreq. case_decide; simplify_eq; [done|by eapply Ht].
    + rewrite lookup_delete in Hreq. case_decide; [done|by eapply Ht].
Qed.

(** What a manager's table allows it to free. *)
Lemma table_refs ext m p l req bs r :
  mgr_inv ext m p l → req_to_blocks m !! req = Some bs → r ∈ bs → r ≠ Blk 0 → 1 ≤ ref_of p r.
Proof.
  intros [Hp Hr He Ht Hs Hk] Hreq Hin Hne. destruct (Ht _ _ Hreq) as [Hb _ _].
  rewrite Hr by auto. rewrite (held_split _ req), Hreq. simpl. pose proof (occ_in r bs Hin).
  pose proof (held_nonneg (delete req (req_to_blocks m)) r). specialize (He r). lia.
Qed.

(** ** Running manager operations *)

Lemma wp_on_mgr {A} (f : M MG A) (Q : A → MP → Prop) (E : exc → MP → Prop) m p :
  wp f (λ a m', Q a (m', p)) (λ e m', E e (m', p)) m → wp (on_mgr f) Q E (m, p).
Proof. intros H. by apply wp_zoom. Qed.

Lemma wp_on_bp {A} (f : M P A) (Q : A → MP → Prop) (E : exc → MP → Prop) m p :
  wp f (λ a p', Q a (m, p')) (λ e p', E e (m, p')) p → wp (on_bp f) Q E (m, p).
Proof. intros H. by apply wp_zoom. Qed.

Ltac mp_steps :=
  repeat first
    [ wp_step; cbn beta iota
    | lazymatch goal with
      | |- wp (on_mgr (gets _)) _ _ _ => apply wp_on_mgr
      | |- wp (on_mgr (modify _)) _ _ _ => apply wp_on_mgr
      | |- wp (on_bp (gets _)) _ _ _ => apply wp_on_bp
      | |- wp get_null_block _ _ _ => unfold get_null_block
      end ].

(** Recording new block ids touches nothing else. *)
Lemma wp_record_new_ids xs m p E :
  wp (record_new_ids xs) (λ _ s, s.2 = p ∧ mgr_config s.1 = mgr_config m ∧
    req_to_blocks s.1 = req_to_blocks m ∧ num_cached_block s.1 = num_cached_block m ∧
    new_block_ids s.1 = new_block_ids m ++ (if plain_full_spec m then bid_of (pheap p) <$> xs else []))
    E (m, p).
Proof.
  unfold record_new_ids. mp_steps. simpl.
  destruct (plain_full_spec m); simpl; by rewrite ?app_nil_r.
Qed.

(** The table of a request and its number of blocks. *)
Definition table (m : MG) (req : string) : list bref := default [] (req_to_blocks m !! req).

(** Blocks still missing for [n] tokens. *)
Definition missing (m : MG) (req : string) (n : Z) : nat :=
  Z.to_nat (cdiv n (block_size m) - Z.of_nat (length (table m req))).

(** What extending the table of [req] by the first [k] free blocks leaves. *)
Record extended (ext : bref → Z) (m : MG) (p : P) (l : list bref) (req : string) (k : nat)
    (s : MP) : Prop := {
  ex_inv : mgr_inv ext s.1 s.2 (drop k l);
  ex_config : mgr_config s.1 = mgr_config m;
  ex_tables : req_to_blocks s.1 = <[req := table m req ++ take k l]> (req_to_blocks m);
  ex_cached : num_cached_block s.1 = num_cached_block m;
  ex_pool : handed_out (enable_caching p) p (take k l) s.2
}.

Lemma extended_intro ext m p l req k m' p' :
  mgr_inv ext m p l → pool_inv p' (drop k l) → handed_out (enable_caching p) p (take k l) p' →
  mgr_config m' = mgr_config m → num_cached_block m' = num_cached_block m →
  req_to_blocks m' = <[req := table m req ++ take k l]> (req_to_blocks m) →
  extended ext m p l req k (m', p').
Proof.
  intros Hm Hp' Hho Hc Hn Ht. split; try done.
  eapply (mgr_inv_extend _ _ _ _ _ _ _ _ _ req); try done.
  - apply (sublist_NoDup _ l); [|apply sublist_take]. eapply queue_nodup, pi_queue, Hm.
  - intros r. apply subseteq_take.
Qed.

Lemma extended_none ext m p l req :
  mgr_inv ext m p l → extended ext m p l req 0 (set_req_blocks req (table m req) m, p).
Proof.
  intros Hm. apply extended_intro; try done; simpl.
  - rewrite drop_0. apply Hm.
  - apply handed_out_nil.
  - by rewrite app_nil_r.
Qed.

(** Taking [k] blocks into the table, then recording their ids. *)
Lemma wp_extend_table ext m p l req k (Q : list bref → MP → Prop) E
    (rest : list bref → M MP (list bref)) :
  mgr_inv ext m p l → 0 ≤ k ≤ Z.of_nat (length l) →
  (∀ m' p', extended ext m p l req (Z.to_nat k) (m', p') →
     wp (rest (take (Z.to_nat k) l)) Q E (m', p')) →
  wp (xs ← on_bp (get_new_blocks k);
      on_mgr (modify (set_req_blocks req (table m req ++ xs))) ;;
      record_new_ids xs ;; rest xs) Q E (m, p).
Proof.
  intros Hm Hk Hrest. apply wp_bind, wp_on_bp.
  eapply wp_call; [by apply wp_get_new_blocks; [apply Hm|]|].
  intros xs p' (-> & Hp' & Hho). mp_steps.
  eapply wp_call; [apply wp_record_new_ids|]. intros [] [m' p''] (Hp2 & Hc & Ht & Hn & _).
  simpl in *. subst p''. apply Hrest, extended_intro; done.
Qed.

(** [allocate_new_blocks] with enough free blocks. *)
Lemma wp_allocate_new_blocks ext m p l req n E :
  mgr_inv ext m p l → (missing m req n ≤ length l)%nat →
  wp (allocate_new_blocks req n)
    (λ ret s, ret = take (missing m req n) l ∧ extended ext m p l req (missing m req n) s) E (m, p).
Proof.
  intros Hm Hk. unfold allocate_new_blocks. mp_steps. apply wp_on_mgr.
  eapply wp_call; [apply wp_get_req_blocks|]. intros bs m1 [-> ->]. mp_steps. simpl block_size.
  fold (table m req). unfold missing in *. set (need := cdiv n (block_size m) - _) in *.
  pose proof (mgr_inv_touch_entry _ _ _ _ req Hm) as Hm1. fold (table m req) in Hm1.
  set (m1 := set_req_blocks req (table m req) m) in *.
  assert (table m1 req = table m req) as Ht1.
  { unfold table at 1. simpl. by rewrite lookup_insert_eq. }
  destruct (Z.leb_spec need 0).
  - wp_steps. rewrite Z2Nat.nonpos by lia. split; [done|]. by apply extended_none.
  - rewrite <-Ht1. eapply (wp_extend_table _ _ _ l); [done|lia|].
    intros m' p' [H1 H2 H3 H4 H5]. wp_steps. split; [done|].
    split; simpl in *; try done. rewrite H3, Ht1. by rewrite insert_insert_eq.
Qed.

(** Without enough free blocks it raises, and only the empty table entry is new. *)
Lemma allocate_new_blocks_full ext m p l req n :
  mgr_inv ext m p l → (length l < missing m req n)%nat →
  allocate_new_blocks req n (m, p) = (Raise ValueError, (set_req_blocks req (table m req) m, p)).
Proof.
  intros Hm Hk.
  assert (wp (allocate_new_blocks req n) (λ _ _, False)
    (λ e s, e = ValueError ∧ s = (set_req_blocks req (table m req) m, p)) (m, p)) as H.
  2:{ unfold wp in H. destruct (allocate_new_blocks req n (m, p)) as [[?|?] ?]; naive_solver. }
  unfold allocate_new_blocks. mp_steps. apply wp_on_mgr.
  eapply wp_call; [apply wp_get_req_blocks|]. intros bs m1 [-> ->]. mp_steps. simpl block_size.
  fold (table m req). unfold missing in *. set (need := cdiv n (block_size m) - _) in *.
  destruct (Z.leb_spec need 0); [lia|]. apply wp_bind, wp_on_bp. unfold wp.
  by rewrite (get_new_blocks_full _ l) by (first [apply Hm|lia]).
Qed.

(** ** Adopting computed blocks *)

Lemma skipped_bounds k t : kind_ok k → 0 ≤ t → 0 ≤ get_num_skipped_tokens k t ≤ t.
Proof.
  intros Hk Ht. destruct k as [|w|c]; simpl in *; [lia|unfold sliding_num_skipped_tokens; lia|].
  unfold chunked_num_skipped_tokens.
  pose proof (Z.mul_div_le t c ltac:(lia)). pose proof (Z.div_pos t c). lia.
Qed.

Definition skipped_blocks (m : MG) (total : Z) : Z :=
  get_num_skipped_tokens (kind m) total / block_size m.

(** The computed blocks that are not skipped, and the table they are adopted into. *)
Definition kept (m : MG) (cb : list bref) (total : Z) : list bref :=
  drop (Z.to_nat (skipped_blocks m total)) cb.
Definition adopted (m : MG) (cb : list bref) (total : Z) : list bref :=
  replicate (Z.to_nat (skipped_blocks m total)) (Blk 0) ++ kept m cb total.

Lemma skipped_blocks_bound m t :
  0 < block_size m → kind_ok (kind m) → 0 ≤ t →
  0 ≤ skipped_blocks m t ∧ skipped_blocks m t ≤ cdiv t (block_size m).
Proof.
  intros Hb Hk Ht. pose proof (skipped_bounds _ _ Hk Ht). unfold skipped_blocks.
  pose proof (Z.mul_div_le (get_num_skipped_tokens (kind m) t) (block_size m) Hb).
  pose proof (Z.div_pos (get_num_skipped_tokens (kind m) t) (block_size m)).
  pose proof (cdiv_spec t (block_size m) Hb). split; [lia|nia].
Qed.

Lemma length_adopted m cb t :
  0 ≤ skipped_blocks m t →
  Z.of_nat (length (adopted m cb t)) = Z.max (skipped_blocks m t) (Z.of_nat (length cb)).
Proof. intros. unfold adopted, kept. rewrite length_app, length_replicate, length_drop. lia. Qed.

Lemma table_ok_drop p k bs : table_ok p bs → table_ok p (drop k bs).
Proof.
  intros [H1 H2 H3]. split.
  - intros r Hr. apply H1. rewrite <-(take_drop k bs). in_list.
  - rewrite <-(take_drop k bs), filter_app in H2. by apply NoDup_app in H2 as (_ & _ & ?).
  - by apply (nulls_first_pad 0).
Qed.

Lemma occ_replicate_null r n : r ≠ Blk 0 → occ r (replicate n (Blk 0)) = 0.
Proof. intros Hr. apply occ_not_in. by intros ?%elem_of_replicate_inv. Qed.

Lemma filter_replicate_null n : filter (.≠ Blk 0) (replicate n (Blk 0)) = [].
Proof. by induction n. Qed.

Lemma table_ok_adopted m p cb t : static_ok p → table_ok p cb → table_ok p (adopted m cb t).
Proof.
  intros Hs Hcb. unfold adopted. apply (table_ok_drop _ (Z.to_nat (skipped_blocks m t))) in Hcb as [H1 H2 H3].
  fold (kept m cb t) in *. split.
  - intros r [->%elem_of_replicate_inv|Hr]%elem_of_app; [by apply null_in_blocks|auto].
  - by rewrite filter_app, filter_replicate_null.
  - by apply (nulls_first_pad _ 0).
Qed.

(** Touching the kept blocks and writing the adopted table. *)
Lemma mgr_inv_adopt ext m p l req cb t p1 n :
  mgr_inv ext m p l → table m req = [] → table_ok p cb →
  pool_inv p1 (filter (.∉ kept m cb t) l) → recounted p (λ r, occ r (kept m cb t)) p1 →
  mgr_inv ext (set_num_cached (<[req := n]>) (set_req_blocks req (adopted m cb t) m)) p1
    (filter (.∉ kept m cb t) l).
Proof.
  intros Hm Hreq Hcb Hp1 Hrc. pose proof Hm as [Hp Hr He Ht Hs Hk].
  eapply mgr_inv_pool_step; try done; [apply Hrc| |]; simpl.
  - intros r Hin Hne. rewrite (rc_ref _ _ _ Hrc), Hr, (held_split _ req) by done.
    fold (table m req). rewrite Hreq, held_insert. unfold adopted.
    rewrite occ_app, occ_replicate_null by done. change (occ r []) with 0. lia.
  - intros req' bs Hreq'. rewrite lookup_insert in Hreq'. case_decide; [|by eapply Ht].
    simplify_eq. apply table_ok_adopted; [apply Hp|done].
Qed.

(** Whether external tokens remain to be allocated for, and how many blocks they need. *)
Definition external_tokens (m : MG) (local external : Z) : Z :=
  if 0 <? skipped_blocks m (local + external)
  then Z.min (local + external - get_num_skipped_tokens (kind m) (local + external)) external
  else external.

Definition external_need (m : MG) (cb : list bref) (local external : Z) : nat :=
  if 0 <? external_tokens m local external
  then Z.to_nat (cdiv (local + external) (block_size m) -
                 Z.of_nat (length (adopted m cb (local + external))))
  else 0.

Lemma set_req_blocks_twice req a b m :
  set_req_blocks req b (set_req_blocks req a m) = set_req_blocks req b m.
Proof. unfold set_req_blocks. simpl. by rewrite insert_insert_eq. Qed.

Lemma set_req_blocks_cached req a f m :
  set_req_blocks req a (set_num_cached f (set_req_blocks req a m)) =
  set_num_cached f (set_req_blocks req a m).
Proof. unfold set_req_blocks, set_num_cached. simpl. by rewrite insert_insert_eq. Qed.

(** What adopting [cb] for the new request [req] does. *)
Record adopts (ext : bref → Z) (m : MG) (p : P) (l : list bref) (req : string) (cb : list bref)
    (local external : Z) (s : MP) : Prop := {
  ad_inv : mgr_inv ext s.1 s.2 (drop (external_need m cb local external)
    (filter (.∉ kept m cb (local + external)) l));
  ad_config : mgr_config s.1 = mgr_config m;
  ad_tables : req_to_blocks s.1 = <[req := adopted m cb (local + external) ++
    take (external_need m cb local external) (filter (.∉ kept m cb (local + external)) l)]>
      (req_to_blocks m);
  ad_cached : num_cached_block s.1 =
    <[req := Z.of_nat (length (adopted m cb (local + external)))]> (num_cached_block m);
  ad_pool : ∃ p1, recounted p (λ r, occ r (kept m cb (local + external))) p1 ∧
    handed_out (enable_caching p) p1
      (take (external_need m cb local external) (filter (.∉ kept m cb (local + external)) l)) s.2
}.

Lemma frame_caching p p' : frame p p' → enable_caching p' = enable_caching p.
Proof. intros [Hc _]. unfold config in Hc. congruence. Qed.

Section adopt.
Context (ext : bref → Z) (m : MG) (p : P) (l : list bref) (req : string) (cb : list bref)
  (local external : Z).
Hypothesis Hm : mgr_inv ext m p l.
Hypothesis Hnew : num_cached_block m !! req = None.
Hypothesis Hempty : table m req = [].
Hypothesis Hcb : table_ok p cb.
Hypothesis Hcaching : mgr_enable_caching m = true ∨ cb = [].
Hypothesis Hlocal : Z.of_nat (length cb) * block_size m ≤ local.
Hypothesis Hexternal : 0 ≤ external.
Hypothesis Hroom : (external_need m cb local external ≤
  length (filter (.∉ kept m cb (local + external)) l))%nat.

Let t := local + external.

Lemma adopt_length : 0 ≤ Z.of_nat (length (adopted m cb t)) ≤ cdiv t (block_size m).
Proof using Hm Hlocal Hexternal.
  clear Hroom. pose proof Hm as [Hp Hr He Ht Hs Hk].
  destruct (skipped_blocks_bound m t Hs Hk ltac:(subst t; nia)) as [H1 H2].
  rewrite length_adopted by done. pose proof (cdiv_spec t (block_size m) Hs).
  assert (Z.of_nat (length cb) ≤ cdiv t (block_size m)) by (subst t; nia). lia.
Qed.

Lemma wp_adopt_touch (Q : unit → MP → Prop) E :
  (∀ p1, pool_inv p1 (filter (.∉ kept m cb t) l) → recounted p (λ r, occ r (kept m cb t)) p1 →
     Q tt (set_req_blocks req [] m, p1)) →
  wp (if mgr_enable_caching m then on_bp (touch (kept m cb t))
      else py_assert (match kept m cb t with [] => true | _ => false end)) Q E
    (set_req_blocks req [] m, p).
Proof using Hm Hcb Hcaching.
  intros HQ. destruct (mgr_enable_caching m).
  - apply wp_on_bp. eapply wp_call; [apply wp_touch; [apply Hm|]|].
    + by apply table_ok_drop.
    + intros [] p1 [H1 H2]. by apply HQ.
  - destruct Hcaching as [|Hnil]; [done|].
    assert (kept m cb t = []) as Hk by (unfold kept; rewrite Hnil; by rewrite drop_nil).
    rewrite Hk in *. apply wp_assert; [done|]. apply HQ.
    + rewrite filter_all by (intros; apply not_elem_of_nil). apply Hm.
    + by apply recounted_refl.
Qed.

Lemma wp_allocate_new_computed_blocks E :
  wp (allocate_new_computed_blocks req cb local external)
    (λ _ s, adopts ext m p l req cb local external s) E (m, p).
Proof using Hm Hnew Hempty Hcb Hcaching Hlocal Hexternal Hroom.
  pose proof Hm as [Hp Hr He Ht Hs Hk]. unfold allocate_new_computed_blocks. mp_steps. simpl id.
  rewrite bool_decide_eq_false_2 by (rewrite Hnew; by intros []). apply wp_bind, wp_on_mgr.
  eapply wp_call; [apply wp_get_req_blocks|]. intros bs m1 [-> ->]. fold (table m req).
  rewrite Hempty. apply wp_bind, wp_assert; [done|]. fold t.
  fold (skipped_blocks m t).
  destruct (skipped_blocks_bound m t Hs Hk ltac:(subst t; nia)) as [Hsb _].
  replace (if 0 <? skipped_blocks m t then _ else cb) with (kept m cb t).
  2:{ unfold kept. rewrite py_slice_from by done. destruct (Z.ltb_spec 0 (skipped_blocks m t)); [done|].
      by replace (skipped_blocks m t) with 0 by lia. }
  replace (if 0 <? skipped_blocks m t then _ else external) with (external_tokens m local external)
    by done.
  apply wp_bind, wp_adopt_touch. intros p1 Hp1 Hrc. mp_steps. simpl app.
  replace (null_block p1) with (Blk 0) by (symmetry; apply (so_null _ (pi_static _ _ Hp1))).
  fold (adopted m cb t). rewrite set_req_blocks_twice.
  pose proof (mgr_inv_adopt _ _ _ _ _ _ t _ (Z.of_nat (length (adopted m cb t))) Hm Hempty Hcb Hp1 Hrc)
    as Hm2.
  set (m2 := set_num_cached _ _) in *. set (l1 := filter (.∉ kept m cb t) l) in *.
  assert (∀ k m' p', k = external_need m cb local external → extended ext m2 p1 l1 req k (m', p') →
    adopts ext m p l req cb local external (m', p')) as Hadopt.
  { intros k m' p' -> [H1 H2 H3 H4 H5]. split; fold t l1; simpl in *; [done|by rewrite H2| |by rewrite H4|].
    - rewrite H3. unfold table, m2. simpl. by rewrite lookup_insert_eq, insert_insert_eq.
    - exists p1. split; [done|]. by rewrite <-(frame_caching _ _ (rc_frame _ _ _ Hrc)). }
  unfold external_need in Hroom, Hadopt. fold t l1 in Hroom, Hadopt.
  destruct (0 <? external_tokens m local external) eqn:Hext.
  - pose proof adopt_length. fold t in Hroom. mp_steps. apply wp_on_bp.
    eapply wp_call; [apply (wp_get_new_blocks _ l1); [apply Hm2|lia]|].
    intros xs p2 (-> & Hp2 & Hho). mp_steps.
    eapply wp_call; [apply wp_record_new_ids|]. intros [] [m3 p3] (Hp3 & Hc & Ht3 & Hn & _).
    simpl in *. subst p3. eapply Hadopt; [done|]. apply extended_intro; try done.
    rewrite Ht3. unfold table, m2. simpl. by rewrite lookup_insert_eq.
  - wp_steps. eapply Hadopt; [done|]. pose proof (extended_none _ _ _ _ req Hm2) as Hx.
    unfold table in Hx. simpl in Hx. rewrite lookup_insert_eq in Hx. simpl in Hx.
    unfold m2 in Hx. rewrite set_req_blocks_cached in Hx. exact Hx.
Qed.
End adopt.

(** ** Admission *)

(** Computed blocks that are free are exactly what touching takes from the free list. *)
Lemma evictable_count p l bs :
  pool_inv p l → (∀ r, r ∈ bs → r ∈ blocks p) → NoDup (filter (.≠ Blk 0) bs) →
  get_num_evictable_blocks (pheap p) bs + Z.of_nat (length (filter (.∉ bs) l)) = Z.of_nat (length l).
Proof.
  intros Hp Hb Hnd. unfold get_num_evictable_blocks.
  assert (∀ r, r ∈ bs → releasable (pheap p) r = true ↔ r ∈ l) as Hrel.
  { intros r Hr. rewrite (releasable_spec p r (pi_static _ _ Hp) (Hb r Hr)). rewrite (pi_free _ _ Hp). specialize (Hb r). tauto. }
  assert (filter (λ r, releasable (pheap p) r = true) bs ≡ₚ filter (.∈ bs) l) as ->.
  2:{ rewrite <-(filter_app_complement (.∈ bs) l) at 3. rewrite length_app. lia. }
  apply NoDup_Permutation.
  - assert (filter (λ r, releasable (pheap p) r = true) bs =
      filter (λ r, releasable (pheap p) r = true) (filter (.≠ Blk 0) bs)) as ->; [|by apply NoDup_filter].
    rewrite list_filter_filter. apply filter_ext_in. intros r Hr. rewrite Hrel by done.
    rewrite (pi_free _ _ Hp). naive_solver.
  - apply NoDup_filter. eapply queue_nodup, pi_queue, Hp.
  - intros r. rewrite !list_elem_of_filter. specialize (Hrel r). naive_solver.
Qed.

(** The estimate for a request that is not running yet. *)
Definition new_estimate (m : MG) (p : P) (cb : list bref) (total n : Z) : Z :=
  Z.max (cdiv n (block_size m) - Z.of_nat (length (adopted m cb total))) 0 +
  get_num_evictable_blocks (pheap p) (kept m cb total).

Lemma get_num_blocks_new ext m p l req cb total n :
  mgr_inv ext m p l → num_cached_block m !! req = None → table m req = [] → 0 ≤ total →
  get_num_blocks_to_allocate req n cb total (m, p) = (Ret (new_estimate m p cb total n), (m, p)).
Proof.
  intros Hm Hnew Hempty Ht.
  destruct (skipped_blocks_bound m total (mi_size _ _ _ _ Hm) (mi_kind _ _ _ _ Hm) Ht) as [Hsb _].
  unfold get_num_blocks_to_allocate, mbind, M_bind, on_mgr, on_bp, zoom, gets.
  cbn [fst snd]. change (id m) with m.
  rewrite bool_decide_eq_false_2 by (rewrite Hnew; by intros []).
  fold (table m req). rewrite Hempty. simpl length. fold (skipped_blocks m total).
  unfold new_estimate. rewrite length_adopted by done. rewrite Z.add_0_r, Z.sub_0_r.
  rewrite (Z.max_r 0 (skipped_blocks m total)) by done. by rewrite py_slice_from.
Qed.

Section admission.
Context (ext : bref → Z) (m : MG) (p : P) (l : list bref) (req : string) (cb : list bref)
  (local external n : Z).
Hypothesis Hm : mgr_inv ext m p l.
Hypothesis Hnew : num_cached_block m !! req = None.
Hypothesis Hempty : table m req = [].
Hypothesis Hcb : table_ok p cb.
Hypothesis Hcaching : mgr_enable_caching m = true ∨ cb = [].
Hypothesis Hlocal : Z.of_nat (length cb) * block_size m ≤ local.
Hypothesis Hexternal : 0 ≤ external.
Hypothesis Hn : local + external ≤ n.
Hypothesis Hfits : new_estimate m p cb (local + external) n ≤ Z.of_nat (length l).

(** When the estimate fits, adopting and allocating both succeed, the table covers [n]
    tokens and exactly the estimated number of blocks left the free list. *)
Lemma wp_admit E :
  wp (allocate_new_computed_blocks req cb local external ;; allocate_new_blocks req n)
    (λ _ s, ∃ l1 s1, adopts ext m p l req cb local external s1 ∧
       mgr_inv ext s1.1 s1.2 l1 ∧ extended ext s1.1 s1.2 l1 req (missing s1.1 req n) s ∧
       Z.of_nat (length (drop (missing s1.1 req n) l1)) = Z.of_nat (length l) - new_estimate m p cb (local + external) n ∧
       Z.of_nat (length (table s.1 req)) = cdiv n (block_size m) ∧
       adopted m cb (local + external) `prefix_of` table s.1 req ∧
       (∀ req', req' ≠ req → req_to_blocks s.1 !! req' = req_to_blocks m !! req') ∧
       frame p s.2) E (m, p).
Proof using Hm Hnew Hempty Hcb Hcaching Hlocal Hexternal Hn Hfits.
  set (t := local + external) in *. unfold new_estimate in *.
  destruct (table_ok_drop _ (Z.to_nat (skipped_blocks m t)) _ Hcb) as [Hk1 Hk2 _].
  pose proof (evictable_count _ _ _ (mi_pool _ _ _ _ Hm) Hk1 Hk2) as Hev. clear Hk1 Hk2.
  fold (kept m cb t) in Hev. set (l1 := filter (.∉ kept m cb t) l) in *.
  pose proof (adopt_length ext m p l cb local external Hm Hlocal Hexternal) as Hal. fold t in Hal.
  pose proof (cdiv_mono t n (block_size m) (mi_size _ _ _ _ Hm) Hn) as Hmono.
  set (k := external_need m cb local external).
  assert (Z.of_nat k ≤ cdiv n (block_size m) - Z.of_nat (length (adopted m cb t)) ∧
    (k ≤ length l1)%nat) as [Hk1 Hk2].
  { subst k. unfold external_need. fold t. destruct (0 <? _); lia. }
  apply wp_bind. eapply wp_call; [by apply (wp_allocate_new_computed_blocks ext m p l)|].
  intros [] [m1 p1] [H1 H2 H3 H4 (p0 & H5 & H6)]. simpl in *. fold t l1 k in H1, H2, H3, H4.
  assert (block_size m1 = block_size m) as Hbs by (unfold mgr_config in H2; congruence).
  assert (table m1 req = adopted m cb t ++ take k l1) as Ht1.
  { unfold table. by rewrite H3, lookup_insert_eq. }
  assert (missing m1 req n = Z.to_nat (cdiv n (block_size m) - Z.of_nat (length (adopted m cb t))) - k)%nat
    as Hmiss.
  { unfold missing. rewrite Hbs, Ht1, length_app, length_take. lia. }
  eapply wp_call; [apply (wp_allocate_new_blocks ext m1 p1 (drop k l1)); [done|rewrite length_drop; lia]|].
  intros ret [m2 p2] (-> & Hx). exists (drop k l1), (m1, p1). split; [by split; eauto|].
  split; [done|]. split; [done|]. destruct Hx as [G1 G2 G3 G4 G5]. simpl in *.
  assert (table m2 req = table m1 req ++ take (missing m1 req n) (drop k l1)) as Ht2.
  { unfold table at 1. by rewrite G3, lookup_insert_eq. }
  split_and!.
  - rewrite !length_drop. lia.
  - rewrite Ht2, Ht1, !length_app, !length_take, length_drop. lia.
  - rewrite Ht2, Ht1, <-app_assoc. by apply prefix_app_r.
  - intros req' Hne. by rewrite G3, H3, !lookup_insert_ne by done.
  - transitivity p1; [transitivity p0|]; [apply H5|apply H6|apply G5].
Qed.
End admission.

(** ** Freeing and removing blocks *)

Lemma table_table_ok ext m p l req : mgr_inv ext m p l → table_ok p (table m req).
Proof.
  intros Hm. unfold table. destruct (req_to_blocks m !! req) as [bs|] eqn:E; simpl;
    [by eapply mi_tables|apply table_ok_nil].
Qed.

Lemma table_held ext m p l req r :
  mgr_inv ext m p l → r ∈ table m req → r ≠ Blk 0 → 1 ≤ ref_of p r.
Proof.
  intros Hm Hin Hne. unfold table in Hin. destruct (req_to_blocks m !! req) as [bs|] eqn:E;
    [by eapply table_refs|by apply elem_of_nil in Hin].
Qed.

Lemma occ_reverse r bs : occ r (reverse bs) = occ r bs.
Proof. unfold occ. by rewrite (reverse_Permutation bs). Qed.

(** Freeing part [xs] of a table, in any order. *)
Lemma wp_free_part ext m p l req xs E :
  mgr_inv ext m p l → (∀ r, r ∈ xs → r ∈ table m req) → NoDup (filter (.≠ Blk 0) xs) →
  wp (free_blocks xs) (λ _ p', pool_inv p' (l ++ last_refs p xs) ∧
    recounted p (λ r, - occ r xs) p') E p.
Proof.
  intros Hm Hxs Hnd. apply wp_free_blocks; [apply Hm| |done|].
  - intros r Hr. by eapply tk_pool; [eapply table_table_ok|apply Hxs].
  - intros r Hr Hne. eapply table_held; [done|by apply Hxs|done].
Qed.

(** What [free] leaves. *)
Record freed (ext : bref → Z) (m : MG) (p : P) (l : list bref) (req : string) (s : MP) : Prop := {
  fr_inv : mgr_inv ext s.1 s.2 (l ++ last_refs p (reverse (table m req)));
  fr_config : mgr_config s.1 = mgr_config m;
  fr_tables : req_to_blocks s.1 = delete req (req_to_blocks m);
  fr_cached : num_cached_block s.1 = delete req (num_cached_block m);
  fr_pool : recounted p (λ r, - occ r (table m req)) s.2
}.

Lemma wp_free_request ext m p l req E :
  mgr_inv ext m p l → wp (free_request req) (λ _ s, freed ext m p l req s) E (m, p).
Proof.
  intros Hm. pose proof (table_table_ok _ _ _ _ req Hm) as [H1 H2 H3].
  unfold free_request. mp_steps. fold (table m req). apply wp_on_bp.
  eapply wp_call; [apply (wp_free_part ext m p l req); [done| |]|].
  - intros r. by rewrite elem_of_reverse.
  - by rewrite (reverse_Permutation (table m req)).
  - intros [] p' [Hp' Hrc]. mp_steps.
    assert (recounted p (λ r, - occ r (table m req)) p') as Hrc'.
    { destruct Hrc. split; try done. intros r Hr. rewrite rc_ref by done. by rewrite occ_reverse. }
    split; simpl; try done.
    eapply (mgr_inv_release ext m p l _ _ _ (table m req) req []); try done.
    + by right.
    + apply table_ok_nil.
Qed.

(** One turn of the removal loop on a real block, and its end at a null block. *)
Lemma remove_loop_turn n bs tail x removed :
  length bs = n →
  remove_loop (Blk 0) (reverse (py_range 0 (Z.of_nat (S n)))) (bs ++ x :: tail) removed =
  if decide (x = Blk 0) then Ret (bs ++ x :: tail, removed)
  else remove_loop (Blk 0) (reverse (py_range 0 (Z.of_nat n))) (bs ++ Blk 0 :: tail) (removed ++ [x]).
Proof.
  intros <-. rewrite Nat2Z.inj_succ, <-Z.add_1_r, py_range_snoc, reverse_app by lia. simpl. unfold py_get.
  rewrite decide_True, !Nat2Z.id by lia. rewrite list_lookup_middle by done.
  by rewrite insert_app_r_alt, Nat.sub_diag by lia.
Qed.

(** The removal loop replaces the real blocks among the first and collects them. *)
Lemma remove_loop_reals k xs tail removed :
  Blk 0 ∉ xs →
  remove_loop (Blk 0) (reverse (py_range 0 (Z.of_nat (k + length xs))))
    (replicate k (Blk 0) ++ xs ++ tail) removed
  = Ret (replicate (k + length xs) (Blk 0) ++ tail, removed ++ reverse xs).
Proof.
  revert tail removed. induction xs as [|x xs IH] using rev_ind; intros tail removed Hxs.
  - rewrite Nat.add_0_r, app_nil_r. simpl app. destruct k as [|k]; [done|].
    rewrite replicate_S_end, <-app_assoc. simpl. rewrite remove_loop_turn by apply length_replicate.
    done.
  - rewrite elem_of_app, list_elem_of_singleton in Hxs.
    rewrite length_app, Nat.add_assoc, Nat.add_1_r, <-app_assoc, app_assoc. simpl app.
    rewrite remove_loop_turn by (by rewrite length_app, length_replicate).
    rewrite decide_False by (intros ->; tauto). rewrite <-app_assoc, IH by tauto.
    change (Blk 0 :: replicate ?n (Blk 0) ++ ?t) with (replicate (S n) (Blk 0) ++ t).
    rewrite replicate_S_end, <-!app_assoc, reverse_app. done.
Qed.

(** What the loop does on a table with null blocks first. *)
Lemma remove_loop_run n bs :
  nulls_first bs → (n ≤ length bs)%nat →
  remove_loop (Blk 0) (reverse (py_range 0 (Z.of_nat n))) bs []
  = Ret (replicate n (Blk 0) ++ drop n bs, reverse (filter (.≠ Blk 0) (take n bs))).
Proof.
  intros (k & xs & -> & Hxs) Hn. destruct (decide (k ≤ n)%nat) as [Hk|Hk].
  - rewrite length_app, length_replicate in Hn.
    rewrite <-(take_drop (n - k) xs) at 1. replace n with (k + length (take (n - k) xs))%nat at 1
      by (rewrite length_take; lia).
    assert (Blk 0 ∉ take (n - k) xs) as Hx by (intros ?; apply Hxs; by eapply subseteq_take).
    rewrite remove_loop_reals by done. rewrite length_take, Nat.min_l by lia.
    rewrite take_app_ge, drop_app_ge, length_replicate by (rewrite length_replicate; lia).
    rewrite filter_app, filter_replicate_null, filter_all by (intros r Hr ->; done).
    by replace (k + (n - k))%nat with n by lia.
  - destruct n as [|n]; [done|].
    replace k with (n + S (k - S n))%nat by lia. rewrite replicate_add, <-app_assoc. simpl.
    rewrite remove_loop_turn by apply length_replicate. simpl.
    rewrite drop_app_ge by (rewrite length_replicate; lia). rewrite length_replicate.
    replace (S n - n)%nat with 1%nat by lia. simpl. rewrite take_app_ge by (rewrite length_replicate; lia).
    rewrite length_replicate. replace (S n - n)%nat with 1%nat by lia. simpl.
    rewrite filter_app, filter_replicate_null. simpl.
    change (Blk 0 :: replicate n (Blk 0) ++ ?t) with (replicate (S n) (Blk 0) ++ t).
    by rewrite replicate_S_end, <-app_assoc.
Qed.

(** The table of [req] with its first [n] entries skipped, and the blocks this gives back. *)
Definition skip_table (m : MG) (req : string) (n : nat) : list bref :=
  replicate n (Blk 0) ++ drop n (table m req).
Definition skip_removed (m : MG) (req : string) (n : nat) : list bref :=
  reverse (filter (.≠ Blk 0) (take n (table m req))).

(** The number of entries skipped when [total] tokens are computed. *)
Definition skip_count (m : MG) (req : string) (total : Z) : nat :=
  Nat.min (Z.to_nat (skipped_blocks m total)) (length (table m req)).

Record skipped (ext : bref → Z) (m : MG) (p : P) (l : list bref) (req : string) (n : nat)
    (s : MP) : Prop := {
  sk_inv : mgr_inv ext s.1 s.2 (l ++ last_refs p (skip_removed m req n));
  sk_config : mgr_config s.1 = mgr_config m;
  sk_table : table s.1 req = skip_table m req n;
  sk_others : ∀ req', req' ≠ req → req_to_blocks s.1 !! req' = req_to_blocks m !! req';
  sk_cached : num_cached_block s.1 = num_cached_block m;
  sk_pool : recounted p (λ r, - occ r (skip_removed m req n)) s.2
}.

Lemma skip_table_occ m req n r :
  r ≠ Blk 0 →
  occ r (table m req) = occ r (skip_table m req n) + occ r (skip_removed m req n).
Proof.
  intros Hr. unfold skip_table, skip_removed. rewrite occ_reverse, occ_app, occ_replicate_null by done.
  rewrite <-(take_drop n (table m req)) at 1. rewrite occ_app.
  assert (occ r (filter (.≠ Blk 0) (take n (table m req))) = occ r (take n (table m req))) as ->; [|lia].
  unfold occ. rewrite list_filter_filter. do 2 f_equal. apply filter_ext_in. naive_solver.
Qed.

Lemma skip_table_ok m p req n :
  static_ok p → table_ok p (table m req) → table_ok p (skip_table m req n).
Proof.
  intros Hs Ht. destruct (table_ok_drop _ n _ Ht) as [H1 H2 H3]. split.
  - intros r [->%elem_of_replicate_inv|Hr]%elem_of_app; [by apply null_in_blocks|auto].
  - unfold skip_table. by rewrite filter_app, filter_replicate_null.
  - apply nulls_first_pad, Ht.
Qed.

Lemma skip_removed_in m req n r : r ∈ skip_removed m req n → r ∈ take n (table m req) ∧ r ≠ Blk 0.
Proof. unfold skip_removed. rewrite elem_of_reverse, list_elem_of_filter. tauto. Qed.

Lemma skipped_zero ext m p l req : mgr_inv ext m p l → skipped ext m p l req 0 (m, p).
Proof.
  intros Hm. split; simpl; try done; [|by apply recounted_refl].
  change (last_refs p (skip_removed m req 0)) with (@nil bref). by rewrite app_nil_r.
Qed.

Lemma wp_remove_skipped_blocks ext m p l req total E :
  mgr_inv ext m p l → 0 ≤ total →
  wp (remove_skipped_blocks req total)
    (λ _ s, skipped ext m p l req (skip_count m req total) s) E (m, p).
Proof.
  intros Hm Ht. pose proof (table_table_ok _ _ _ _ req Hm) as Htk.
  destruct (skipped_blocks_bound m total (mi_size _ _ _ _ Hm) (mi_kind _ _ _ _ Hm) Ht) as [Hsb _].
  unfold remove_skipped_blocks. mp_steps. change (id m) with m.
  destruct (Z.leb_spec (get_num_skipped_tokens (kind m) total) 0) as [H0|H0].
  - wp_steps. pose proof (skipped_bounds _ _ (mi_kind _ _ _ _ Hm) Ht).
    assert (skip_count m req total = 0%nat) as ->; [|by apply skipped_zero].
    unfold skip_count, skipped_blocks. by replace (get_num_skipped_tokens (kind m) total) with 0 by lia.
  - mp_steps. apply wp_on_mgr. eapply wp_call; [apply wp_get_req_blocks|]. intros bs m1 [-> ->].
    fold (table m req) (skipped_blocks m total). mp_steps.
    replace (null_block p) with (Blk 0) by (symmetry; apply (so_null _ (pi_static _ _ (mi_pool _ _ _ _ Hm)))).
    replace (Z.min (skipped_blocks m total) _) with (Z.of_nat (skip_count m req total))
      by (unfold skip_count; lia).
    set (n := skip_count m req total).
    eapply wp_of_outcome; [apply remove_loop_run; [apply Htk|unfold n, skip_count; lia]|].
    fold (skip_table m req n) (skip_removed m req n). mp_steps. apply wp_on_bp.
    eapply wp_call; [apply (wp_free_part ext m p l req); [done| |]|].
    + intros r [Hr _]%skip_removed_in. by eapply subseteq_take.
    + unfold skip_removed. rewrite (reverse_Permutation (filter _ _)). apply NoDup_filter.
      pose proof (tk_nodup _ _ Htk) as Hnd. rewrite <-(take_drop n (table m req)), filter_app in Hnd.
      by apply NoDup_app in Hnd as [? _].
    + intros [] p' [Hp' Hrc]. cbn [fst]. rewrite set_req_blocks_twice. split; simpl; try done.
      * eapply (mgr_inv_release ext m p l _ _ _ (skip_removed m req n) req (skip_table m req n)); try done.
        -- by left.
        -- intros r Hr. by apply skip_table_occ.
        -- apply skip_table_ok; [apply Hm|done].
      * unfold table. simpl. by rewrite lookup_insert_eq.
      * intros req' Hne. by rewrite lookup_insert_ne.
Qed.
