(* ===== verification/ManagerSteps.v ===== *)
(** Managers over time: blocks that are not cached yet have one owner, caching the blocks of
    a request, the step relation and its reachable states, exact admission control, and the
    common prefix. *)
From S2P Require Import Prelude.
From S2P Require Import Request.
From S2P Require Import BlockHash.
From S2P Require Import FreeQueue.
From S2P Require Import BlockMap.
From S2P Require Import BlockPool.
From S2P Require Import PoolInv.
From S2P Require Import PoolCache.
From S2P Require Import PoolSteps.
From S2P Require Import Manager.
From S2P Require Import ManagerInv.
Local Open Scope Z_scope.

(** ** The uncached part of a table *)

(** The number of blocks of [req] that are already cached, and the blocks that are not. *)
Definition num_cached (m : MG) (req : string) : Z := default 0 (num_cached_block m !! req).
Definition uncached (m : MG) (req : string) : list bref :=
  drop (Z.to_nat (num_cached m req)) (table m req).

(** Blocks that are not cached yet carry no hash and belong to one request only. *)
Record suffix_ok (m : MG) (p : P) : Prop := {
  sf_nonneg : ∀ req, 0 ≤ num_cached m req;
  sf_fresh : ∀ req b, b ∈ uncached m req → b ≠ Blk 0 → hash_of p b = None ∧ ref_of p b = 1
}.

Lemma uncached_table m req b : b ∈ uncached m req → b ∈ table m req.
Proof. by apply subseteq_drop. Qed.

(** A block with a single reference is in one table only, once, and [ext] has none of it. *)
Lemma only_holder ext m p l req req' b :
  mgr_inv ext m p l → ref_of p b = 1 → b ≠ Blk 0 → b ∈ table m req → b ∈ table m req' → req = req'.
Proof.
  intros Hm H1 Hne Hin Hin'. destruct (decide (req = req')) as [|Hr]; [done|].
  rewrite (mi_refs _ _ _ _ Hm) in H1 by (by first [eapply tk_pool; [eapply table_table_ok|] | idtac]).
  rewrite (held_split _ req) in H1. fold (table m req) in H1.
  rewrite (held_split _ req') in H1. rewrite lookup_delete_ne in H1 by done. fold (table m req') in H1.
  pose proof (occ_in _ _ Hin). pose proof (occ_in _ _ Hin').
  pose proof (held_nonneg (delete req' (delete req (req_to_blocks m))) b).
  pose proof (mi_ext _ _ _ _ Hm b). lia.
Qed.

(** A block that another client of the pool has allocated and not cached yet. *)
Record fresh_elsewhere (ext : bref → Z) (p : P) (b : bref) : Prop := {
  fe_block : b ∈ blocks p;
  fe_real : b ≠ Blk 0;
  fe_hash : hash_of p b = None;
  fe_ref : ref_of p b = 1;
  fe_ext : ext b = 1
}.

Lemma elsewhere_not_here ext m p l req b :
  mgr_inv ext m p l → fresh_elsewhere ext p b → b ∉ table m req.
Proof.
  intros Hm [Hb Hne _ Hr He] Hin. rewrite (mi_refs _ _ _ _ Hm) in Hr by done.
  rewrite (held_split _ req) in Hr. fold (table m req) in Hr. pose proof (occ_in _ _ Hin).
  pose proof (held_nonneg (delete req (req_to_blocks m)) b). lia.
Qed.

Lemma elsewhere_kept ext p p' b :
  frame p p' → hash_of p' b = hash_of p b → ref_of p' b = ref_of p b →
  fresh_elsewhere ext p b → fresh_elsewhere ext p' b.
Proof.
  intros Hf Hh Hr [H1 H2 H3 H4 H5]. split; [by rewrite (frame_blocks _ _ Hf)|done|congruence|congruence|done].
Qed.

Definition unhashed (p : P) : Prop := ∀ b, b ∈ blocks p → hash_of p b = None.

(** What every manager operation keeps; [F] are the fresh blocks of other managers on the
    same pool. With caching disabled no block has a hash. *)
Record mgr_good (ext : bref → Z) (F : bref → Prop) (m : MG) (p : P) (l : list bref) : Prop := {
  mg_inv : mgr_inv ext m p l;
  mg_suffix : suffix_ok m p;
  mg_others : ∀ b, F b → fresh_elsewhere ext p b;
  mg_nohash : enable_caching p = false → unhashed p;
  mg_caching : mgr_enable_caching m = enable_caching p
}.

Lemma table_insert m req bs m' req' :
  req_to_blocks m' = <[req := bs]> (req_to_blocks m) →
  table m' req' = if decide (req = req') then bs else table m req'.
Proof. intros H. unfold table. rewrite H, lookup_insert. by case_decide. Qed.

Lemma num_cached_insert m req n m' req' :
  num_cached_block m' = <[req := n]> (num_cached_block m) →
  num_cached m' req' = if decide (req = req') then n else num_cached m req'.
Proof. intros H. unfold num_cached. rewrite H, lookup_insert. by case_decide. Qed.

Lemma config_caching m m' : mgr_config m' = mgr_config m → mgr_enable_caching m' = mgr_enable_caching m.
Proof. unfold mgr_config. congruence. Qed.

(** Blocks handed out by a caching pool are fresh; other fresh blocks stay so. *)
Lemma handed_out_fresh e p xs p' b :
  handed_out e p xs p' → (e = false → unhashed p) → (∀ r, r ∈ xs → r ∈ blocks p) →
  b ∈ xs ∨ (hash_of p b = None ∧ ref_of p b = 1) → hash_of p' b = None ∧ ref_of p' b = 1.
Proof.
  intros Hho He Hxs Hb. rewrite (ho_hash _ _ _ _ Hho), (ho_ref _ _ _ _ Hho).
  destruct (decide (b ∈ xs)) as [Hin|Hin].
  - destruct e; [by rewrite decide_True by done|]. rewrite decide_False by naive_solver.
    split; [|done]. apply He; auto.
  - rewrite decide_False by tauto. tauto.
Qed.

Lemma handed_out_elsewhere ext e p xs p' b :
  handed_out e p xs p' → (e = false → unhashed p) → (∀ r, r ∈ xs → r ∈ blocks p) →
  fresh_elsewhere ext p b → fresh_elsewhere ext p' b.
Proof.
  intros Hho He Hxs Hb. pose proof Hb as [H1 H2 H3 H4 H5].
  destruct (handed_out_fresh _ _ _ _ b Hho He Hxs ltac:(by right)) as [Hh Hr].
  eapply elsewhere_kept; [apply Hho|congruence|congruence|done].
Qed.

Lemma handed_out_nohash e p xs p' : handed_out e p xs p' → e = false → unhashed p → unhashed p'.
Proof.
  intros Hho -> Hn b. rewrite (frame_blocks _ _ (ho_frame _ _ _ _ Hho)), (ho_hash _ _ _ _ Hho).
  rewrite decide_False by naive_solver. apply Hn.
Qed.

Lemma free_in_pool p l k r : pool_inv p l → r ∈ take k l → r ∈ blocks p.
Proof. intros Hp Hr%subseteq_take. by apply (pi_free _ _ Hp) in Hr as [? _]. Qed.

Lemma frame_config_caching p p' m m' :
  frame p p' → mgr_config m' = mgr_config m → mgr_enable_caching m = enable_caching p →
  mgr_enable_caching m' = enable_caching p'.
Proof. intros Hf Hc H. by rewrite (config_caching _ _ Hc), (frame_caching _ _ Hf). Qed.

Lemma extended_good ext F m p l req k s :
  mgr_good ext F m p l → extended ext m p l req k s → mgr_good ext F s.1 s.2 (drop k l).
Proof.
  intros [Hm [Hn Hf] Ho Hh Hc] [H1 H2 H3 H4 H5].
  pose proof (ho_frame _ _ _ _ H5) as Hfr. split; [done| | | |by eapply frame_config_caching].
  - split.
    + intros req'. unfold num_cached. rewrite H4. apply Hn.
    + intros req' b Hin Hne. eapply handed_out_fresh; [done|done|intros r; by apply free_in_pool, Hm|].
      unfold uncached, num_cached in Hin. rewrite H4, (table_insert _ _ _ _ req' H3) in Hin.
      case_decide; [subst req'|right; by eapply Hf].
      rewrite drop_app in Hin. apply elem_of_app in Hin as [Hin|Hin]; [right; by eapply Hf|left].
      by apply subseteq_drop in Hin.
  - intros b Hb. eapply handed_out_elsewhere; [done|done|intros r; by apply free_in_pool, Hm|by apply Ho].
  - rewrite (frame_caching _ _ Hfr). intros He. eapply handed_out_nohash; [done|done|by apply Hh].
Qed.

(** Touching hashed blocks leaves fresh blocks alone. *)
Lemma touched_fresh p xs p1 b :
  recounted p (λ r, occ r xs) p1 → (∀ b, b ∈ xs → b ≠ Blk 0 → is_Some (hash_of p b)) →
  b ∈ blocks p → b ≠ Blk 0 → hash_of p b = None ∧ ref_of p b = 1 →
  hash_of p1 b = None ∧ ref_of p1 b = 1.
Proof.
  intros Hrc Hxs Hb Hne [Hh Hr]. rewrite (rc_hash _ _ _ Hrc), (rc_ref _ _ _ Hrc) by done.
  split; [done|]. cbn beta. rewrite occ_not_in; [lia|]. intros Hin.
  destruct (Hxs b Hin Hne) as [k Hk]. congruence.
Qed.

(** The computed blocks found by a lookup carry a hash, so they are nobody's fresh blocks. *)
Lemma adopts_good ext F m p l req cb local external s :
  mgr_good ext F m p l → (∀ b, b ∈ cb → b ≠ Blk 0 → is_Some (hash_of p b)) →
  0 ≤ skipped_blocks m (local + external) →
  adopts ext m p l req cb local external s →
  mgr_good ext F s.1 s.2 (drop (external_need m cb local external)
    (filter (.∉ kept m cb (local + external)) l)).
Proof.
  intros [Hm [Hn Hf] Ho Hh Hc] Hcb Hsb [H1 H2 H3 H4 (p1 & H5 & H6)].
  set (t := local + external) in *. set (k := external_need m cb local external) in *.
  set (l1 := filter (.∉ kept m cb t) l) in *.
  assert (frame p s.2) as Hfr by (transitivity p1; [apply H5|apply H6]).
  assert (∀ b, b ∈ kept m cb t → b ≠ Blk 0 → is_Some (hash_of p b)) as Hkept
    by (intros b Hb; by apply Hcb, (subseteq_drop _ _ _ Hb)).
  assert (enable_caching p = false → unhashed p1) as Hh1.
  { intros He b. rewrite (rc_hash _ _ _ H5), (frame_blocks _ _ (rc_frame _ _ _ H5)). by apply Hh. }
  assert (∀ r, r ∈ take k l1 → r ∈ blocks p1) as Hl1.
  { intros r [_ Hr]%subseteq_take%list_elem_of_filter. rewrite (frame_blocks _ _ (rc_frame _ _ _ H5)).
    by apply (pi_free _ _ (mi_pool _ _ _ _ Hm)) in Hr as [? _]. }
  split; [done| | | |by eapply frame_config_caching].
  - split.
    + intros req'. rewrite (num_cached_insert _ _ _ _ req' H4). case_decide; [lia|apply Hn].
    + intros req' b Hin Hne. eapply handed_out_fresh; [done|done|done|].
      unfold uncached in Hin. rewrite (num_cached_insert _ _ _ _ req' H4), (table_insert _ _ _ _ req' H3) in Hin.
      destruct (decide (req = req')) as [<-|Hreq].
      { left. by rewrite Nat2Z.id, drop_app_length in Hin. }
      right. apply (touched_fresh p (kept m cb t)); [done|done| |done|by eapply Hf].
      eapply tk_pool; [by eapply table_table_ok|by apply uncached_table].
  - intros b Hb. eapply handed_out_elsewhere; [done|done|done|]. specialize (Ho b Hb). pose proof Ho as [? ? ? ? ?].
    destruct (touched_fresh p (kept m cb t) p1 b) as [Hb1 Hb2]; try done.
    eapply elsewhere_kept; [apply H5|congruence|congruence|done].
  - rewrite (frame_caching _ _ Hfr). intros He. eapply handed_out_nohash; [done|done|by apply Hh1].
Qed.

(** Giving back blocks of [req] leaves the fresh blocks of the other requests alone. *)
Lemma recounted_fresh ext m p l req xs p' req' b :
  mgr_inv ext m p l → recounted p (λ r, - occ r xs) p' → (∀ r, r ∈ xs → r ∈ table m req) →
  (req' = req → b ∉ xs) → b ∈ table m req' → b ≠ Blk 0 →
  hash_of p b = None ∧ ref_of p b = 1 → hash_of p' b = None ∧ ref_of p' b = 1.
Proof.
  intros Hm Hrc Hxs Hown Hin Hne [Hh Hr]. rewrite (rc_hash _ _ _ Hrc), (rc_ref _ _ _ Hrc).
  2:{ eapply tk_pool; [by eapply table_table_ok|done]. }
  split; [done|]. cbn beta. rewrite occ_not_in; [lia|]. intros Hb. apply Hown; [|done].
  eapply only_holder; [done..|by apply Hxs].
Qed.

Lemma recounted_elsewhere ext m p l req xs p' b :
  mgr_inv ext m p l → recounted p (λ r, - occ r xs) p' → (∀ r, r ∈ xs → r ∈ table m req) →
  fresh_elsewhere ext p b → fresh_elsewhere ext p' b.
Proof.
  intros Hm Hrc Hxs Hb. eapply elsewhere_kept; [apply Hrc|apply Hrc| |done].
  rewrite (rc_ref _ _ _ Hrc) by apply Hb. cbn beta. rewrite occ_not_in; [lia|].
  intros Hin. eapply elsewhere_not_here; [done..|by apply Hxs].
Qed.

Lemma recounted_nohash p d p' :
  recounted p d p' → (enable_caching p = false → unhashed p) →
  enable_caching p' = false → unhashed p'.
Proof.
  intros Hrc Hh. rewrite (frame_caching _ _ (rc_frame _ _ _ Hrc)). intros He b.
  rewrite (rc_hash _ _ _ Hrc), (frame_blocks _ _ (rc_frame _ _ _ Hrc)). by apply Hh.
Qed.

Lemma freed_good ext F m p l req s :
  mgr_good ext F m p l → freed ext m p l req s →
  mgr_good ext F s.1 s.2 (l ++ last_refs p (reverse (table m req))).
Proof.
  intros [Hm [Hn Hf] Ho Hh Hc] [H1 H2 H3 H4 H5]. pose proof (rc_frame _ _ _ H5) as Hfr.
  split; [done| | |by eapply recounted_nohash|by eapply frame_config_caching].
  - split.
    + intros req'. unfold num_cached. rewrite H4, lookup_delete. case_decide; [done|apply Hn].
    + intros req' b Hin Hne. unfold uncached, num_cached, table in Hin. rewrite H3, H4, !lookup_delete in Hin.
      destruct (decide (req = req')) as [<-|Hreq]; [by apply elem_of_nil in Hin|].
      eapply (recounted_fresh ext m p l req _ _ req'); [done|exact H5|done|by intros ->| |done|by eapply Hf].
      by apply uncached_table.
  - intros b Hb. eapply (recounted_elsewhere ext m p l req); [done|exact H5|done|by apply Ho].
Qed.

Lemma skip_removed_gone m req n b p :
  table_ok p (table m req) → b ≠ Blk 0 → b ∈ skip_table m req n → b ∉ skip_removed m req n.
Proof.
  intros Ht Hne Hin Hrem. pose proof (skip_table_occ m req n b Hne) as Ho.
  rewrite (occ_filter_nodup b (table m req)) in Ho;
    [|done|apply Ht|by apply skip_removed_in in Hrem as [?%subseteq_take _]].
  pose proof (occ_in _ _ Hin). pose proof (occ_in _ _ Hrem). lia.
Qed.

Lemma uncached_skip m req n c b :
  b ≠ Blk 0 → b ∈ drop c (skip_table m req n) → b ∈ drop c (table m req).
Proof.
  intros Hne Hin. unfold skip_table in Hin. rewrite drop_app, drop_replicate, drop_drop in Hin.
  apply elem_of_app in Hin as [Hin|Hin]; [by apply elem_of_replicate_inv in Hin|].
  rewrite length_replicate in Hin. destruct (decide (c ≤ n)%nat).
  - replace (n + (c - n))%nat with (c + (n - c))%nat in Hin by lia. rewrite <-drop_drop in Hin.
    by apply subseteq_drop in Hin.
  - by replace (n + (c - n))%nat with c in Hin by lia.
Qed.

Lemma skipped_good ext F m p l req n s :
  mgr_good ext F m p l → skipped ext m p l req n s →
  mgr_good ext F s.1 s.2 (l ++ last_refs p (skip_removed m req n)).
Proof.
  intros [Hm [Hn Hf] Ho Hh Hc] [H1 H2 H3 H4 H5 H6]. pose proof (rc_frame _ _ _ H6) as Hfr.
  assert (∀ r, r ∈ skip_removed m req n → r ∈ table m req) as Hrem
    by (intros r [?%subseteq_take _]%skip_removed_in; done).
  split; [done| | |by eapply recounted_nohash|by eapply frame_config_caching].
  - split.
    + intros req'. unfold num_cached. rewrite H5. apply Hn.
    + intros req' b Hin Hne. assert (b ∈ uncached m req' ∧ (req' = req → b ∈ skip_table m req n)) as [Hu Hs].
      { unfold uncached, num_cached in *. rewrite H5 in Hin.
        destruct (decide (req' = req)) as [->|Hreq].
        - rewrite H3 in Hin. split; [by eapply uncached_skip|]. intros _. by apply subseteq_drop in Hin.
        - split; [|done]. unfold table in *. by rewrite H4 in Hin by done. }
      eapply (recounted_fresh ext m p l req _ _ req'); [done|exact H6|done| |by apply uncached_table|done|by eapply Hf].
      intros ->. eapply skip_removed_gone; [by eapply table_table_ok|done|by apply Hs].
  - intros b Hb. eapply (recounted_elsewhere ext m p l req); [done|exact H6|done|by apply Ho].
Qed.

(** ** Caching the full blocks of a request *)

(** A text request whose table and hashes reach the tokens to be cached. *)
Record may_cache_request (m : MG) (p : P) (r : Request) (n : Z) : Prop := {
  mr_caching : enable_caching p = true;
  mr_group : 0 ≤ kv_cache_group_id m < 2 ^ 32;
  mr_text : mm_features r = [];
  mr_memo : memo_ok r;
  mr_blocks : n / block_size m ≤ Z.of_nat (length (table m (request_id r)));
  mr_hashes : n / block_size m ≤ Z.of_nat (length (block_hashes r));
  mr_hash_size : 0 < hash_block_size p;
  mr_select : ∃ L, select_hashes (block_hashes r) (block_size m) (hash_block_size p) = Ret L ∧
    n / block_size m ≤ hl_len L
}.

(** The table entries that a call caches. *)
Definition to_cache (m : MG) (r : Request) (n : Z) : list bref :=
  py_slice (table m (request_id r)) (num_cached m (request_id r)) (n / block_size m).

Record cached_upto (ext : bref → Z) (F : bref → Prop) (m : MG) (p : P) (l : list bref) (r : Request) (n : Z)
    (L : BlockHashList) (m' : MG) (p' : P) : Prop := {
  cu_good : mgr_good ext F m' p' l;
  cu_config : mgr_config m' = mgr_config m;
  cu_table : ∀ req, table m' req = table m req;
  cu_cached : ∀ req, num_cached m' req =
    if decide (request_id r = req) then Z.max (num_cached m req) (n / block_size m)
    else num_cached m req;
  cu_frame : frame p p';
  cu_ref : ∀ b, ref_of p' b = ref_of p b;
  cu_other : ∀ b, b ∉ to_cache m r n → hash_of p' b = hash_of p b;
  cu_hash : ∀ i b h, num_cached m (request_id r) ≤ i < n / block_size m →
    table m (request_id r) !! Z.to_nat i = Some b → b ≠ Blk 0 → hl_get L i = Some h →
    hash_of p' b = Some (group_key (kv_cache_group_id m) h);
  cu_keys : ∀ x, x ≠ request_id r → num_cached_block m' !! x = num_cached_block m !! x
}.

Lemma nodup_take_drop bs k b :
  NoDup (filter (.≠ Blk 0) bs) → b ≠ Blk 0 → b ∈ take k bs → b ∈ drop k bs → False.
Proof.
  intros Hnd Hne H1 H2. rewrite <-(take_drop k bs), filter_app in Hnd.
  apply NoDup_app in Hnd as (_ & Hd & _). apply (Hd b); by apply list_elem_of_filter.
Qed.

Section cache_request.
Context (ext : bref → Z) (F : bref → Prop) (m : MG) (p : P) (l : list bref) (r : Request) (n : Z) (L : BlockHashList).
Hypothesis Hg : mgr_good ext F m p l.
Hypothesis Hr : may_cache_request m p r n.
Hypothesis HL : select_hashes (block_hashes r) (block_size m) (hash_block_size p) = Ret L.
Let req := request_id r.
Let nf := n / block_size m.
Hypothesis Hlt : num_cached m req < nf.

Lemma to_cache_uncached b : b ∈ to_cache m r n → b ∈ uncached m req.
Proof using Hg Hr Hlt.
  pose proof (sf_nonneg _ _ (mg_suffix _ _ _ _ _ Hg) req). pose proof (mr_blocks _ _ _ _ Hr).
  unfold to_cache. rewrite py_slice_nonneg by (subst nf req; lia). apply subseteq_take.
Qed.

Lemma to_cache_take b : b ∈ to_cache m r n → b ∈ take (Z.to_nat nf) (table m req).
Proof using Hg Hr Hlt.
  pose proof (sf_nonneg _ _ (mg_suffix _ _ _ _ _ Hg) req). pose proof (mr_blocks _ _ _ _ Hr).
  unfold to_cache. rewrite py_slice_nonneg by (subst nf req; lia). fold req nf.
  rewrite take_drop_commute. intros Hin. apply subseteq_drop in Hin.
  by replace (Z.to_nat (num_cached m req) + _)%nat with (Z.to_nat nf) in Hin by lia.
Qed.

Lemma request_may_cache :
  may_cache p r (table m req) (num_cached m req) nf (block_size m) (kv_cache_group_id m).
Proof using Hg Hr Hlt.
  pose proof (table_table_ok _ _ _ _ req (mg_inv _ _ _ _ _ Hg)) as Ht.
  pose proof (sf_nonneg _ _ (mg_suffix _ _ _ _ _ Hg) req). pose proof to_cache_uncached as Hu.
  destruct Hr. split; try done; try (subst nf; lia).
  - apply Hg.
  - apply Ht.
  - intros b Hb Hne. by apply (sf_fresh _ _ (mg_suffix _ _ _ _ _ Hg) req b); [apply Hu|].
  - rewrite py_slice_nonneg by (subst nf req; lia). pose proof (tk_nodup _ _ Ht) as Hnd.
    rewrite <-(take_drop (Z.to_nat (num_cached m req)) (table m req)), filter_app in Hnd.
    apply NoDup_app in Hnd as (_ & _ & Hnd).
    rewrite <-(take_drop (Z.to_nat (nf - num_cached m req)) (drop _ _)), filter_app in Hnd.
    by apply NoDup_app in Hnd as (? & _ & _).
Qed.

(** Writing hashes on fresh blocks of [req] keeps the invariants. *)
Lemma cached_upto_intro p' :
  pool_inv p' l → frame p p' → (∀ b, ref_of p' b = ref_of p b) →
  (∀ b, b ∉ to_cache m r n → hash_of p' b = hash_of p b) →
  (∀ i b h, num_cached m req ≤ i < nf → table m req !! Z.to_nat i = Some b → b ≠ Blk 0 →
     hl_get L i = Some h → hash_of p' b = Some (group_key (kv_cache_group_id m) h)) →
  cached_upto ext F m p l r n L (set_num_cached (<[req := nf]>) (set_req_blocks req (table m req) m)) p'.
Proof using Hg Hr Hlt.
  intros Hp' Hf Hrefs Hother Hhash. pose proof Hg as [Hm [Hn Hfr] Ho Hnh Hc].
  set (m' := set_num_cached _ _).
  assert (∀ x, table m' x = table m x) as Htab.
  { intros x. rewrite (table_insert m req (table m req) m' x) by done. by case_decide; subst. }
  assert (∀ x, num_cached m' x = if decide (req = x) then nf else num_cached m x) as Hnc.
  { intros x. by apply (num_cached_insert m req nf m'). }
  split; try done.
  - split; [| | |by rewrite (frame_caching _ _ Hf), (mr_caching _ _ _ _ Hr)|by rewrite (frame_caching _ _ Hf)].
    + pose proof (mgr_inv_touch_entry _ _ _ _ req Hm) as Hm1. fold (table m req) in Hm1.
      eapply (mgr_inv_pool_step ext (set_req_blocks req (table m req) m) p l); try done.
      * intros b Hb Hne. rewrite Hrefs. by apply (mi_refs _ _ _ _ Hm1).
      * intros x bs Hx. by eapply (mi_tables _ _ _ _ Hm1).
    + split; [intros x; rewrite Hnc; case_decide; [pose proof (Hn req); lia|apply Hn]|].
      intros x b Hin Hne. rewrite Hrefs. unfold uncached in Hin. rewrite Htab, Hnc in Hin.
      assert (b ∈ uncached m x) as Hu.
      { case_decide as Hx; [|done]. subst x. unfold uncached.
        replace (Z.to_nat nf) with (Z.to_nat (num_cached m req) + (Z.to_nat nf - Z.to_nat (num_cached m req)))%nat in Hin
          by lia. rewrite <-drop_drop in Hin. by apply subseteq_drop in Hin. }
      destruct (Hfr x b Hu Hne) as [Hh H1]. split; [|done]. rewrite Hother; [done|].
      intros Hc'. pose proof (to_cache_uncached b Hc') as Hu'.
      assert (x = req) as -> by exact (only_holder _ _ _ _ x req b Hm H1 Hne
        (uncached_table _ _ _ Hu) (uncached_table _ _ _ Hu')).
      rewrite decide_True in Hin by done.
      refine (nodup_take_drop _ _ _ (tk_nodup _ _ (table_table_ok _ _ _ _ req Hm)) Hne _ Hin).
      by apply to_cache_take.
    + intros b Hb. specialize (Ho b Hb). eapply elsewhere_kept; [done| |done|done]. apply Hother.
      intros Hc'%to_cache_uncached%uncached_table. by eapply elsewhere_not_here.
  - intros x. fold req nf. rewrite Hnc. destruct (decide (req = x)) as [<-|]; [lia|done].
  - intros x Hx. simpl. by rewrite lookup_insert_ne.
Qed.

Lemma wp_cache_blocks E :
  wp (cache_blocks n) (λ _ s, ∃ c, s.2.2 = set_embeds_cache c r ∧ memo_ok s.2.2 ∧
    cached_upto ext F m p l r n L s.1 s.2.1) E (m, (p, r)).
Proof using Hg Hr HL Hlt.
  pose proof Hg as [Hm _ _ _ _]. unfold cache_blocks.
  apply wp_bind, wp_zoom, wp_gets. cbn [fst snd]. apply wp_bind, wp_zoom, wp_on_request, wp_gets.
  cbn [fst snd]. change (id m) with m. fold req. fold (num_cached m req). fold nf.
  rewrite (proj2 (Z.leb_gt nf (num_cached m req))) by done.
  apply wp_bind, wp_zoom. eapply wp_call; [apply wp_get_req_blocks|]. intros bs m1 [-> ->].
  fold (table m req). cbn [fst snd].
  destruct request_may_cache as [? ? ? ? ? ? ? ? (L' & HL' & HnL) ? ? ?].
  rewrite HL in HL'. injection HL' as <-.
  apply wp_bind, wp_zoom. eapply wp_call; [eapply (wp_cache_full_blocks p r l _ _ _ _ _ L); try done; apply Hm|].
  intros [] s (p1 & c & -> & Hca & Hp1 & Hmo). cbn [fst snd] in *. apply wp_zoom, wp_modify.
  exists c. split; [done|]. split; [done|]. apply cached_upto_intro; try done.
  - apply Hca.
  - apply Hca.
  - intros b Hb. apply (ca_other _ _ _ _ Hca). intros [Hin _]%new_pairs_fst. done.
  - intros i b h Hi Hb Hne Hh. apply (ca_hash _ _ _ _ Hca).
    by eapply (stored_pairs_in p r (table m req) (num_cached m req) nf (block_size m) L ltac:(done)
      ltac:(done) ltac:(done) ltac:(done) HL HnL i).
Qed.
End cache_request.

Lemma cache_blocks_noop m p r n :
  n / block_size m ≤ num_cached m (request_id r) →
  cache_blocks n (m, (p, r)) = (Ret tt, (m, (p, r))).
Proof.
  intros Hle. unfold cache_blocks, mbind, M_bind, on_request, zoom, gets. cbn [fst snd].
  change (id m) with m. fold (num_cached m (request_id r)).
  by rewrite (proj2 (Z.leb_le _ _) Hle).
Qed.

(** Whether or not blocks became full, caching leads to the same description. *)
Lemma wp_cache_blocks_any ext F m p l r n L E :
  mgr_good ext F m p l → may_cache_request m p r n →
  select_hashes (block_hashes r) (block_size m) (hash_block_size p) = Ret L →
  wp (cache_blocks n) (λ _ s, ∃ c, s.2.2 = set_embeds_cache c r ∧ memo_ok s.2.2 ∧
    cached_upto ext F m p l r n L s.1 s.2.1) E (m, (p, r)).
Proof.
  intros Hg Hr HL.
  destruct (decide (num_cached m (request_id r) < n / block_size m)) as [Hlt|Hge].
  - by apply wp_cache_blocks.
  - unfold wp. rewrite cache_blocks_noop by lia. exists (embeds_hash_cache r). simpl.
    split; [by destruct r|]. split; [apply Hr|]. split; try done; [|lia].
    intros req. case_decide; [subst req; lia|done].
Qed.

(** ** Reachable managers *)

(** What the scheduler offers for a request that is not running: computed blocks found in
    the cache, covering no more than the local tokens. *)
Record may_admit (m : MG) (p : P) (req : string) (cb : list bref) (local external n : Z) : Prop := {
  ma_new : num_cached_block m !! req = None;
  ma_empty : table m req = [];
  ma_caching : mgr_enable_caching m = true ∨ cb = [];
  ma_blocks : table_ok p cb;
  ma_hashed : ∀ b, b ∈ cb → b ≠ Blk 0 → is_Some (hash_of p b);
  ma_local : Z.of_nat (length cb) * block_size m ≤ local;
  ma_external : 0 ≤ external;
  ma_total : local + external ≤ n
}.

(** The two calls that give a new request its blocks. *)
Definition admit_request (req : string) (cb : list bref) (local external n : Z) : M MP (list bref) :=
  allocate_new_computed_blocks req cb local external ;; allocate_new_blocks req n.

(** Calls on a manager by a client that keeps to its side of the contract, whatever the
    call returns or raises. A request is admitted only when its estimate fits. *)
Inductive mgr_step : MP → MP → Prop :=
  | step_admit m p req cb local external n k o s :
      may_admit m p req cb local external n →
      get_num_blocks_to_allocate req n cb (local + external) (m, p) = (Ret k, (m, p)) →
      k ≤ get_num_free_blocks p →
      admit_request req cb local external n (m, p) = (o, s) → mgr_step (m, p) s
  | step_grow m p req n o s : allocate_new_blocks req n (m, p) = (o, s) → mgr_step (m, p) s
  | step_cache_blocks m p r n o m' p' r' :
      may_cache_request m p r n → cache_blocks n (m, (p, r)) = (o, (m', (p', r'))) →
      mgr_step (m, p) (m', p')
  | step_skip m p req total o s :
      0 ≤ total → remove_skipped_blocks req total (m, p) = (o, s) → mgr_step (m, p) s
  | step_free m p req o s : free_request req (m, p) = (o, s) → mgr_step (m, p) s.

Lemma free_count p l : pool_inv p l → get_num_free_blocks p = Z.of_nat (length l).
Proof. intros Hp. apply (pi_queue _ _ Hp). Qed.

Section admission_step.
Context (ext : bref → Z) (F : bref → Prop) (m : MG) (p : P) (l : list bref) (req : string) (cb : list bref)
  (local external n : Z).
Hypothesis Hg : mgr_good ext F m p l.
Hypothesis Ha : may_admit m p req cb local external n.

Lemma admit_total : 0 ≤ local + external.
Proof using Hg Ha. destruct Ha. pose proof (mi_size _ _ _ _ (mg_inv _ _ _ _ _ Hg)). nia. Qed.

Lemma admit_estimate :
  get_num_blocks_to_allocate req n cb (local + external) (m, p)
  = (Ret (new_estimate m p cb (local + external) n), (m, p)).
Proof using Hg Ha.
  pose proof admit_total. destruct Ha. by eapply get_num_blocks_new; [apply Hg|..].
Qed.

Hypothesis Hfits : new_estimate m p cb (local + external) n ≤ get_num_free_blocks p.

Lemma wp_admit_good E :
  wp (admit_request req cb local external n)
    (λ _ s, ∃ l', mgr_good ext F s.1 s.2 l' ∧
       get_num_free_blocks s.2 = get_num_free_blocks p - new_estimate m p cb (local + external) n ∧
       Z.of_nat (length (table s.1 req)) = cdiv n (block_size m) ∧
       adopted m cb (local + external) `prefix_of` table s.1 req ∧
       (∀ req', req' ≠ req → req_to_blocks s.1 !! req' = req_to_blocks m !! req') ∧
       frame p s.2) E (m, p).
Proof using Hg Ha Hfits.
  pose proof admit_total as Ht. pose proof (mg_inv _ _ _ _ _ Hg) as Hm.
  destruct (skipped_blocks_bound m (local + external) (mi_size _ _ _ _ Hm) (mi_kind _ _ _ _ Hm) Ht) as [Hsb _].
  rewrite (free_count p l) in * by apply Hm. destruct Ha.
  eapply wp_call; [by eapply (wp_admit ext m p l)|].
  intros xs s (l1 & s1 & Had & Hm1 & Hx & Hlen & Hrest). eexists.
  pose proof (adopts_good _ _ _ _ _ _ _ _ _ _ Hg ma_hashed0 Hsb Had) as Hg1.
  assert (mgr_good ext F s1.1 s1.2 l1) as Hg1' by (split; [done|apply Hg1..]).
  pose proof (extended_good _ _ _ _ _ _ _ _ Hg1' Hx) as Hg2. split; [exact Hg2|].
  by rewrite (free_count s.2 _ (mi_pool _ _ _ _ (mg_inv _ _ _ _ _ Hg2))).
Qed.
End admission_step.

Lemma mgr_step_good ext F m p l s :
  mgr_good ext F m p l → mgr_step (m, p) s → ∃ l', mgr_good ext F s.1 s.2 l'.
Proof.
  intros Hg Hstep. pose proof (mg_inv _ _ _ _ _ Hg) as Hm. inversion Hstep as
    [? ? req cb local external n k o ? Ha Hk Hfree Hrun|? ? req n o ? Hrun|? ? r n o m' p' r' Hr Hrun
    |? ? req total o ? Ht Hrun|? ? req o ? Hrun]; simplify_eq.
  - rewrite (admit_estimate ext F m p l req cb local external n Hg Ha) in Hk. injection Hk as <-.
    edestruct (wp_elim _ _ _ _ _ (wp_admit_good ext F m p l req cb local external n Hg Ha Hfree noexc) Hrun)
      as (a & _ & l' & ? & _). eauto.
  - destruct (decide (missing m req n ≤ length l)%nat).
    + edestruct (wp_elim _ _ _ _ _ (wp_allocate_new_blocks ext m p l req n noexc Hm ltac:(done)) Hrun)
        as (a & _ & _ & Hx). exists (drop (missing m req n) l). by eapply extended_good.
    + rewrite (allocate_new_blocks_full ext m p l) in Hrun by (done || lia). simplify_eq/=.
      exists l. rewrite <-(drop_0 l).
      apply (extended_good _ _ _ _ _ _ _ _ Hg (extended_none ext m p l req Hm)).
  - destruct (mr_select _ _ _ _ Hr) as (L & HL & _).
    edestruct (wp_elim _ _ _ _ _ (wp_cache_blocks_any ext F m p l r n L noexc Hg Hr HL) Hrun)
      as (a & _ & c & _ & _ & Hcu). exists l. apply Hcu.
  - edestruct (wp_elim _ _ _ _ _ (wp_remove_skipped_blocks ext m p l req total noexc Hm Ht) Hrun)
      as (a & _ & Hs). eexists. by eapply skipped_good.
  - edestruct (wp_elim _ _ _ _ _ (wp_free_request ext m p l req noexc Hm) Hrun)
      as (a & _ & Hs). eexists. by eapply freed_good.
Qed.

Lemma reachable_good ext F s s' :
  rtc mgr_step s s' → ∀ l, mgr_good ext F s.1 s.2 l → ∃ l', mgr_good ext F s'.1 s'.2 l'.
Proof.
  induction 1 as [|[m p] s1 s' Hstep _ IH]; intros l Hg; [eauto|].
  destruct (mgr_step_good _ _ _ _ _ _ Hg Hstep) as [l1 Hg1]. eauto.
Qed.

Lemma manager_init_good p bsz k plain caching g dcp pcp l :
  pool_inv p l → (∀ r, r ∈ blocks p → ref_of p r = 0 ∧ hash_of p r = None) →
  enable_caching p = caching → 0 < bsz → kind_ok k →
  mgr_good (λ _, 0) (λ _, False) (manager_init bsz k plain caching g dcp pcp) p l.
Proof.
  intros Hp Hrefs Hc Hbsz Hk. split; try done.
  - split; try done; simpl.
    + intros r Hr _. by rewrite (proj1 (Hrefs r Hr)).
    + destruct (Z.ltb_spec 1 (dcp * pcp)); [nia|done].
  - split; [done|]. intros req b Hin. by apply elem_of_nil in Hin.
  - intros _ b Hb. by apply Hrefs.
Qed.

(** A block that no table mentions is free. *)
Lemma held_empty m r : (∀ req, table m req = []) → held (req_to_blocks m) r = 0.
Proof.
  intros Ht. assert (∀ req bs, req_to_blocks m !! req = Some bs → bs = []) as Hall.
  { intros req bs Hreq. specialize (Ht req). unfold table in Ht. by rewrite Hreq in Ht. }
  clear Ht. unfold held. revert Hall. generalize (req_to_blocks m). clear m.
  refine (map_fold_weak_ind (λ acc t, (∀ req bs, t !! req = Some bs → bs = []) → acc = 0) _ 0 _ _);
    [done|].
  intros k bs t' acc Hk IH Ht. rewrite (Ht k bs) by by rewrite lookup_insert_eq.
  rewrite IH; [done|]. intros req bs' Hreq. apply (Ht req bs'). rewrite lookup_insert_ne; [done|].
  intros ->. congruence.
Qed.

Lemma all_free_when_empty m p l :
  mgr_inv (λ _, 0) m p l → (∀ req, table m req = []) →
  get_num_free_blocks p = num_gpu_blocks p - 1.
Proof.
  intros Hm Ht. rewrite (pool_accounting p l (mi_pool _ _ _ _ Hm)).
  assert (in_use p = []) as ->; [|simpl; lia].
  apply elem_of_nil_inv. intros r ((Hne & Hr) & Hin)%list_elem_of_filter. apply Hr.
  rewrite (mi_refs _ _ _ _ Hm) by done. by rewrite held_empty.
Qed.

(** ** Common prefix blocks *)

Lemma table_occ p bs r : table_ok p bs → r ≠ Blk 0 → occ r bs = if decide (r ∈ bs) then 1 else 0.
Proof.
  intros Ht Hr. case_decide; [|by apply occ_not_in]. by apply occ_filter_nodup; [|apply Ht|].
Qed.

(** A block is in every table exactly when it has as many occurrences as there are tables. *)
Lemma held_size t r :
  (∀ req bs, t !! req = Some bs → occ r bs = if decide (r ∈ bs) then 1 else 0) →
  held t r ≤ Z.of_nat (size t) ∧
  (held t r = Z.of_nat (size t) ↔ ∀ req bs, t !! req = Some bs → r ∈ bs).
Proof.
  induction t as [|k bs t Hk IH] using map_ind; intros Hocc.
  { change (held ∅ r) with 0. rewrite map_size_empty. split; [lia|]. split; [|done]. intros _ req bs.
    by rewrite lookup_empty. }
  rewrite held_insert_fresh, map_size_insert_None by done.
  destruct IH as [IH1 IH2].
  { intros req bs' Hreq. apply (Hocc req). rewrite lookup_insert_ne; congruence. }
  rewrite (Hocc k bs) by by rewrite lookup_insert_eq. destruct (decide (r ∈ bs)) as [Hin|Hin].
  - split; [lia|]. split.
    + intros Heq req bs' Hreq. rewrite lookup_insert in Hreq. case_decide; [by simplify_eq|].
      apply IH2 in Hreq; [done|lia].
    + intros Hall. assert (held t r = Z.of_nat (size t)); [|lia]. apply IH2. intros req bs' Hreq.
      apply (Hall req). rewrite lookup_insert_ne; congruence.
  - split; [lia|]. split; [lia|]. intros Hall. destruct Hin. apply (Hall k). by rewrite lookup_insert_eq.
Qed.

Lemma shared_by_all m p l b :
  mgr_inv (λ _, 0) m p l → b ∈ blocks p → b ≠ Blk 0 →
  ref_of p b = Z.of_nat (size (req_to_blocks m)) ↔
  ∀ req bs, req_to_blocks m !! req = Some bs → b ∈ bs.
Proof.
  intros Hm Hb Hne. rewrite (mi_refs _ _ _ _ Hm) by done. rewrite Z.add_0_l. apply held_size.
  intros req bs Hreq. eapply table_occ; [by eapply mi_tables|done].
Qed.

(** The loop counts the leading blocks with as many references as there are requests. *)
Lemma common_prefix_loop_spec p num bs n :
  static_ok p → (∀ b, b ∈ bs → b ∈ blocks p) →
  ∃ k, common_prefix_loop (pheap p) num bs n = n + Z.of_nat k ∧
    (∀ b, b ∈ take k bs → ref_of p b = num) ∧ (∀ b, bs !! k = Some b → ref_of p b ≠ num).
Proof.
  intros Hs. revert n. induction bs as [|b bs IH]; intros n Hbs; simpl.
  { exists 0%nat. split; [lia|]. split; [by intros b ?%elem_of_nil|done]. }
  destruct (static_is_Some p b Hs) as [o Ho]; [by apply Hbs; left|]. rewrite Ho.
  assert (ref_of p b = ref_cnt o) as Hr by (unfold ref_of; by rewrite Ho).
  destruct (Z.eqb_spec (ref_cnt o) num) as [He|He].
  - destruct (IH (n + 1)) as (k & -> & H1 & H2); [intros x Hx; apply Hbs; by right|].
    exists (S k). split; [lia|]. split; [|done]. simpl. intros x [->|Hx]%elem_of_cons; [congruence|auto].
  - exists 0%nat. split; [lia|]. split; [by intros x ?%elem_of_nil|]. simpl. congruence.
Qed.

(** ** Properties *)

(** in every state a manager of any attention type can reach from a fresh pool by
    admitting requests whose estimate fits, growing, caching, skipping and freeing, the
    reference count of each block is the number of table entries naming it, tables hold
    pool blocks without duplicates and null blocks first, blocks not yet cached carry no
    hash and belong to one request, and once no table holds a block every block of the
    pool but the null block is free again. *)
Theorem manager_reachable_sound n caching hbs events ui p0 bsz k plain g dcp pcp m p :
  0 < n → pool_init n caching hbs events ui = Ret p0 → 0 < bsz → kind_ok k →
  rtc mgr_step (manager_init bsz k plain caching g dcp pcp, p0) (m, p) →
  ∃ l, mgr_good (λ _, 0) (λ _, False) m p l ∧
    ((∀ req, table m req = []) → get_num_free_blocks p = num_gpu_blocks p - 1).
Proof.
  intros Hn Hinit Hbsz Hk Hr. destruct (pool_init_run n caching hbs events ui Hn) as (p1 & Hi & Hp & Hc & Hall).
  rewrite Hinit in Hi. simplify_eq.
  destruct (reachable_good (λ _, 0) (λ _, False) _ _ Hr (Blk <$> seq 1 (Z.to_nat n - 1))) as [l Hl].
  - apply manager_init_good; try done.
    unfold config in Hc. cbn [fst snd]. congruence.
  - exists l. split; [done|]. intros Ht. by eapply all_free_when_empty; [apply Hl|].
Qed.

(** admission control is exact. The estimate for a new request returns a number [k]
    without changing anything, and when [k] does not exceed the number of free blocks,
    adopting the computed blocks and allocating the rest both succeed, the request's
    table covers all its tokens and starts with null blocks for the skipped part and then
    the computed blocks, no other table changes, and exactly [k] blocks left the free
    queue. *)
Theorem admission_exact ext F m p l req cb local external n :
  mgr_good ext F m p l → may_admit m p req cb local external n →
  ∃ k, get_num_blocks_to_allocate req n cb (local + external) (m, p) = (Ret k, (m, p)) ∧
    (k ≤ get_num_free_blocks p →
     ∃ xs m' p' l', admit_request req cb local external n (m, p) = (Ret xs, (m', p')) ∧
       mgr_good ext F m' p' l' ∧ get_num_free_blocks p' = get_num_free_blocks p - k ∧
       Z.of_nat (length (table m' req)) = cdiv n (block_size m) ∧
       adopted m cb (local + external) `prefix_of` table m' req ∧
       ∀ req', req' ≠ req → req_to_blocks m' !! req' = req_to_blocks m !! req').
Proof.
  intros Hg Ha. eexists. split; [by eapply admit_estimate|]. intros Hk.
  destruct (wp_run _ _ _ (wp_admit_good ext F m p l req cb local external n Hg Ha Hk noexc))
    as (xs & [m' p'] & Hrun & l' & Hl' & Hfree & Hlen & Hpre & Hoth & _).
  by exists xs, m', p', l'.
Qed.

(** growing a request. With enough free blocks, [allocate_new_blocks] returns the
    first free blocks, appends them to the request's table so that it covers the tokens,
    and keeps every invariant; without enough it raises [ValueError], changes no table
    entry and leaves the pool alone. *)
Theorem allocate_new_blocks_spec ext F m p l req n :
  mgr_good ext F m p l →
  if decide (Z.of_nat (missing m req n) ≤ get_num_free_blocks p) then
    ∃ m' p', allocate_new_blocks req n (m, p) = (Ret (take (missing m req n) l), (m', p')) ∧
      mgr_good ext F m' p' (drop (missing m req n) l) ∧
      table m' req = table m req ++ take (missing m req n) l ∧
      n ≤ block_size m * Z.of_nat (length (table m' req))
  else ∃ m', allocate_new_blocks req n (m, p) = (Raise ValueError, (m', p)) ∧
    ∀ req', table m' req' = table m req'.
Proof.
  intros Hg. pose proof (mg_inv _ _ _ _ _ Hg) as Hm. rewrite (free_count p l (mi_pool _ _ _ _ Hm)).
  case_decide as Hle.
  - destruct (wp_run _ _ _ (wp_allocate_new_blocks ext m p l req n noexc Hm ltac:(lia)))
      as (xs & [m' p'] & Hrun & -> & Hx). pose proof (ex_tables _ _ _ _ _ _ _ Hx) as Ht. simpl in Ht.
    assert (table m' req = table m req ++ take (missing m req n) l) as Htab
      by (rewrite (table_insert _ _ _ _ req Ht); by rewrite decide_True by done).
    exists m', p'. split_and!; [done|by apply (extended_good _ _ _ _ _ _ _ _ Hg Hx)|done|].
    rewrite Htab, length_app, length_take.
    pose proof (cdiv_spec n (block_size m) (mi_size _ _ _ _ Hm)).
    pose proof (mi_size _ _ _ _ Hm). unfold missing in *. nia.
  - eexists. split; [apply (allocate_new_blocks_full ext m p l); [done|lia]|]. intros req'.
    rewrite (table_insert m req (table m req) _ req') by done. by case_decide; subst.
Qed.

(** [remove_skipped_blocks] frees exactly what the attention window has left behind.
    The table keeps its length, its leading skipped entries become null, the others stay,
    the blocks removed are given back with the latest first, and no entry that holds a
    token the window still needs is touched. *)
Theorem remove_skipped_blocks_spec ext F m p l req total :
  mgr_good ext F m p l → 0 ≤ total →
  let k := skip_count m req total in
  ∃ m' p', remove_skipped_blocks req total (m, p) = (Ret tt, (m', p')) ∧
    table m' req = replicate k (Blk 0) ++ drop k (table m req) ∧
    mgr_good ext F m' p' (l ++ last_refs p (reverse (filter (.≠ Blk 0) (take k (table m req))))) ∧
    (∀ req', req' ≠ req → table m' req' = table m req') ∧
    Z.of_nat k * block_size m ≤ get_num_skipped_tokens (kind m) total.
Proof.
  intros Hg Ht k. pose proof (mg_inv _ _ _ _ _ Hg) as Hm.
  destruct (wp_run _ _ _ (wp_remove_skipped_blocks ext m p l req total noexc Hm Ht))
    as ([] & [m' p'] & Hrun & Hs). exists m', p'. fold k in Hs. split_and!; [done| | | |].
  - apply (sk_table _ _ _ _ _ _ _ Hs).
  - apply (skipped_good _ _ _ _ _ _ _ _ Hg Hs).
  - intros req' Hne. unfold table. by rewrite (sk_others _ _ _ _ _ _ _ Hs) by done.
  - pose proof (mi_size _ _ _ _ Hm).
    destruct (skipped_blocks_bound m total (mi_size _ _ _ _ Hm) (mi_kind _ _ _ _ Hm) Ht) as [Hsb _].
    pose proof (Z.mul_div_le (get_num_skipped_tokens (kind m) total) (block_size m)).
    unfold k, skip_count, skipped_blocks in *. nia.
Qed.

(** caching a running request never trips over a block that already has a hash. For a
    text request whose table and hashes reach the tokens, [cache_blocks] returns normally,
    writes on each newly full block the key of the hash at its index, advances the cached
    count and never lowers it, and changes no table, no reference count and no other hash. *)
Theorem cache_blocks_spec ext F m p l r n L :
  mgr_good ext F m p l → may_cache_request m p r n →
  select_hashes (block_hashes r) (block_size m) (hash_block_size p) = Ret L →
  ∃ m' p' r', cache_blocks n (m, (p, r)) = (Ret tt, (m', (p', r'))) ∧
    cached_upto ext F m p l r n L m' p'.
Proof.
  intros Hg Hr HL. destruct (wp_run _ _ _ (wp_cache_blocks_any ext F m p l r n L noexc Hg Hr HL))
    as ([] & [m' [p' r']] & Hrun & c & _ & _ & Hcu). by exists m', p', r'.
Qed.

(** freeing a request gives back one reference for each of its entries, appends to
    the eviction order, tail first, the blocks nobody else holds, forgets the request's
    table and cached count, and changes no other table. *)
Theorem free_request_spec ext F m p l req :
  mgr_good ext F m p l →
  ∃ m' p', free_request req (m, p) = (Ret tt, (m', p')) ∧
    mgr_good ext F m' p' (l ++ last_refs p (reverse (table m req))) ∧
    recounted p (λ r, - occ r (table m req)) p' ∧
    req_to_blocks m' = delete req (req_to_blocks m) ∧
    num_cached_block m' = delete req (num_cached_block m).
Proof.
  intros Hg. destruct (wp_run _ _ _ (wp_free_request ext m p l req noexc (mg_inv _ _ _ _ _ Hg)))
    as ([] & [m' p'] & Hrun & Hs). exists m', p'.
  split_and!; [done|by apply (freed_good _ _ _ _ _ _ _ Hg Hs)|apply Hs..].
Qed.

(** the common-prefix count is exact. For a running request under full attention it is
    the number of leading blocks of the request that occur in the table of every request;
    the first block after them is missing from some table. *)
Theorem common_prefix_exact m p l req bs :
  mgr_inv (λ _, 0) m p l → kind m = FullAttention → req_to_blocks m !! req = Some bs → Blk 0 ∉ bs →
  ∃ k, get_num_common_prefix_blocks req (m, p) = (Ret (Z.of_nat k), (m, p)) ∧
    (∀ b, b ∈ take k bs → ∀ req' bs', req_to_blocks m !! req' = Some bs' → b ∈ bs') ∧
    (∀ b, bs !! k = Some b → ¬ ∀ req' bs', req_to_blocks m !! req' = Some bs' → b ∈ bs').
Proof.
  intros Hm Hk Hreq Hnull. pose proof (mi_tables _ _ _ _ Hm _ _ Hreq) as Ht.
  assert (∀ b, b ∈ bs → b ∈ blocks p ∧ b ≠ Blk 0) as Hb.
  { intros b Hin. split; [by apply Ht|]. by intros ->. }
  destruct (common_prefix_loop_spec p (Z.of_nat (size (req_to_blocks m))) bs 0) as (k & Hrun & H1 & H2);
    [apply Hm|apply Ht|].
  exists k. split_and!.
  - destruct (wp_run (get_num_common_prefix_blocks req) (λ v s, v = Z.of_nat k ∧ s = (m, p)) (m, p))
      as (v & s & Hr & -> & ->); [|done].
    unfold get_num_common_prefix_blocks. mp_steps. change (id m) with m. rewrite Hk. mp_steps.
    apply wp_on_mgr. eapply wp_call; [apply wp_get_req_blocks|]. intros xs m1 [-> ->].
    rewrite Hreq. simpl default. mp_steps. simpl. rewrite insert_id by done. split; [by rewrite Hrun|].
    unfold set_req_blocks. rewrite insert_id by done. by destruct m.
  - intros b Hin. pose proof (subseteq_take _ _ _ Hin) as Hin'. destruct (Hb b Hin') as [? ?].
    apply (shared_by_all _ _ _ _ Hm); auto.
  - intros b Hl Hall. pose proof (list_elem_of_lookup_2 _ _ _ Hl) as Hin. destruct (Hb b Hin) as [? ?].
    apply (H2 b Hl), (shared_by_all _ _ _ _ Hm); auto.
Qed.

(** ** Samples *)

(** A manager with blocks of two tokens on a pool of three free blocks, and the state after
    admitting request "req-0" with three tokens. *)
Definition sample_mgr (k : attention_kind) : MG := manager_init 2 k true true 0 1 1.
Definition running (k : attention_kind) : MP :=
  (admit_request "req-0" [] 0 0 3 (sample_mgr k, sample_pool)).2.

Lemma sample_mgr_good k : kind_ok k → mgr_good (λ _, 0) (λ _, False) (sample_mgr k) sample_pool [Blk 1; Blk 2; Blk 3].
Proof.
  intros Hk. apply manager_init_good; [apply sample_pool_inv| |done|lia|done].
  apply Forall_forall. vm_compute. repeat constructor.
Qed.

Lemma sample_may_admit k : may_admit (sample_mgr k) sample_pool "req-0" [] 0 0 3.
Proof. split; try done. - by right. - apply table_ok_nil. - by intros b ?%elem_of_nil. Qed.

Lemma running_good k :
  kind_ok k → new_estimate (sample_mgr k) sample_pool [] 0 3 ≤ 3 →
  ∃ l, mgr_good (λ _, 0) (λ _, False) (running k).1 (running k).2 l.
Proof.
  intros Hk He. destruct (wp_run _ _ _ (wp_admit_good _ _ _ _ _ _ _ _ _ _ (sample_mgr_good k Hk)
    (sample_may_admit k) He noexc)) as (xs & s & Hrun & l & Hl & _).
  exists l. unfold running. by rewrite Hrun.
Qed.

Lemma manager_reachable_sound_witness :
  ∃ l, mgr_good (λ _, 0) (λ _, False) (running FullAttention).1 (running FullAttention).2 l.
Proof.
  destruct (manager_reachable_sound 4 true 2 true false sample_pool 2 FullAttention true 0 1 1
    (running FullAttention).1 (running FullAttention).2) as (l & Hl & _).
  - lia.
  - apply sample_pool_init.
  - lia.
  - exact I.
  - apply rtc_once. apply (step_admit _ _ "req-0" [] 0 0 3 2 (Ret [Blk 1; Blk 2])).
    + apply sample_may_admit.
    + vm_compute. reflexivity.
    + vm_compute. discriminate.
    + vm_compute. reflexivity.
  - exists l. exact Hl.
Defined.

Lemma admission_exact_witness :
  ∃ xs m' p', admit_request "req-0" [] 0 0 3 (sample_mgr (SlidingWindow 2), sample_pool) = (Ret xs, (m', p')) ∧
    get_num_free_blocks p' = 1.
Proof.
  destruct (admission_exact (λ _, 0) (λ _, False) (sample_mgr (SlidingWindow 2)) sample_pool [Blk 1; Blk 2; Blk 3]
    "req-0" [] 0 0 3) as (k & Hk & Hadm).
  - apply sample_mgr_good. simpl. lia.
  - apply sample_may_admit.
  - assert (k = 2) as -> by (vm_compute in Hk; congruence).
    destruct Hadm as (xs & m' & p' & l' & Hrun & _ & Hfree & _); [vm_compute; discriminate|].
    exists xs, m', p'. split; [exact Hrun|]. exact Hfree.
Defined.

Lemma allocate_new_blocks_spec_witness :
  (∃ m' p', allocate_new_blocks "req-0" 5 (sample_mgr FullAttention, sample_pool)
     = (Ret [Blk 1; Blk 2; Blk 3], (m', p'))) ∧
  (∃ m', allocate_new_blocks "req-0" 7 (sample_mgr FullAttention, sample_pool)
     = (Raise ValueError, (m', sample_pool))).
Proof.
  split.
  - destruct (allocate_new_blocks_spec (λ _, 0) (λ _, False) (sample_mgr FullAttention) sample_pool
      [Blk 1; Blk 2; Blk 3] "req-0" 5 (sample_mgr_good FullAttention I)) as (m' & p' & Hrun & _).
    exists m', p'. exact Hrun.
  - destruct (allocate_new_blocks_spec (λ _, 0) (λ _, False) (sample_mgr FullAttention) sample_pool
      [Blk 1; Blk 2; Blk 3] "req-0" 7 (sample_mgr_good FullAttention I)) as (m' & Hrun & _).
    exists m'. exact Hrun.
Defined.

Lemma remove_skipped_blocks_spec_witness :
  ∃ m' p', remove_skipped_blocks "req-0" 3 ((running (SlidingWindow 2)).1, (running (SlidingWindow 2)).2)
      = (Ret tt, (m', p')) ∧
    table m' "req-0" = [Blk 0; Blk 2].
Proof.
  destruct (running_good (SlidingWindow 2)) as [l Hl]; [simpl; lia|vm_compute; discriminate|].
  destruct (remove_skipped_blocks_spec (λ _, 0) (λ _, False) (running (SlidingWindow 2)).1 (running (SlidingWindow 2)).2
    l "req-0" 3 Hl ltac:(lia)) as (m' & p' & Hrun & Ht & _).
  exists m', p'. split; [exact Hrun|]. rewrite Ht. vm_compute. reflexivity.
Defined.

(** The running request with its hash list. *)
Definition running_request : Request := hashed_request sample_hash [5; 6; 7].

Lemma cache_blocks_spec_witness :
  ∃ m' p' r', cache_blocks 3 ((running FullAttention).1, ((running FullAttention).2, running_request))
    = (Ret tt, (m', (p', r'))) ∧
    num_cached m' (request_id running_request) = 1.
Proof.
  destruct (running_good FullAttention) as [l Hl]; [done|vm_compute; discriminate|].
  destruct (cache_blocks_spec (λ _, 0) (λ _, False) (running FullAttention).1 (running FullAttention).2 l running_request 3
    (PlainHashes (block_hashes running_request))) as (m' & p' & r' & Hrun & Hcu).
  - exact Hl.
  - split; try (vm_compute; done).
    eexists. split; [vm_compute; reflexivity|]. vm_compute. done.
  - vm_compute. reflexivity.
  - exists m', p', r'. split; [exact Hrun|].
    rewrite (cu_cached _ _ _ _ _ _ _ _ _ _ Hcu), decide_True by reflexivity. vm_compute. reflexivity.
Defined.

Lemma free_request_spec_witness :
  ∃ m' p', free_request "req-0" ((running FullAttention).1, (running FullAttention).2) = (Ret tt, (m', p')) ∧ req_to_blocks m' = ∅.
Proof.
  destruct (running_good FullAttention) as [l Hl]; [done|vm_compute; discriminate|].
  destruct (free_request_spec (λ _, 0) (λ _, False) (running FullAttention).1 (running FullAttention).2 l "req-0" Hl)
    as (m' & p' & Hrun & _ & _ & Ht & _).
  exists m', p'. split; [exact Hrun|]. rewrite Ht. vm_compute. reflexivity.
Defined.

Lemma common_prefix_exact_witness :
  ∃ k, get_num_common_prefix_blocks "req-0" ((running FullAttention).1, (running FullAttention).2)
    = (Ret (Z.of_nat k), ((running FullAttention).1, (running FullAttention).2)).
Proof.
  destruct (running_good FullAttention) as [l Hl]; [done|vm_compute; discriminate|].
  destruct (common_prefix_exact (running FullAttention).1 (running FullAttention).2 l "req-0" [Blk 1; Blk 2])
    as (k & Hrun & _).
  - apply Hl.
  - vm_compute. reflexivity.
  - vm_compute. reflexivity.
  - apply (bool_decide_unpack _). vm_compute. done.
  - exists k. exact Hrun.
Defined.
