(* ===== verification/CacheHit.v ===== *)
(** [find_longest_cache_hit] of the full, sliding-window, chunked-local and Mamba managers in
    src/vllm/v1/core/single_type_kv_cache_manager.py, with the scans they are made of, and the
    lemmas that say what each scan has found. *)
From S2P Require Import Prelude.
From S2P Require Import Request.
From S2P Require Import BlockHash.
From S2P Require Import FreeQueue.
From S2P Require Import BlockMap.
From S2P Require Import BlockPool.
From S2P Require Import PoolInv.
From S2P Require Import PoolCache.
From S2P Require Import PoolSteps.
Local Open Scope Z_scope.

(** ** The search for cached prefixes *)

(** [computed_blocks]: one list of blocks per group. *)
Abbreviation columns := (list (list bref)).

(** [for computed, cached in zip(computed_blocks, cached_block): computed.append(cached)]. *)
Fixpoint append_each (computed : columns) (cached : list bref) : columns :=
  match computed, cached with
  | c :: cs, b :: bs => (c ++ [b]) :: append_each cs bs
  | _, _ => computed
  end.

(** The same with [computed[i] = cached]. *)
Fixpoint set_each (i : nat) (computed : columns) (cached : list bref) : outcome columns :=
  match computed, cached with
  | c :: cs, b :: bs =>
      if decide (i < length c)%nat then
        match set_each i cs bs with Ret cs' => Ret (<[i := b]> c :: cs') | Raise e => Raise e end
      else Raise IndexError
  | _, _ => Ret computed
  end.

(** [for computed in computed_blocks: computed.pop()]. *)
Fixpoint pop_each (computed : columns) : outcome columns :=
  match computed with
  | [] => Ret []
  | [] :: _ => Raise IndexError
  | c :: cs =>
      match pop_each cs with
      | Ret cs' => Ret (take (length c - 1) c :: cs')
      | Raise e => Raise e
      end
  end.

(** [for computed in computed_blocks: del computed[k:]], for [k >= 0]. *)
Definition trim_each (k : nat) (computed : columns) : columns := take k <$> computed.

(** [len(computed_blocks[0])]. *)
Definition first_len (computed : columns) : outcome Z :=
  match computed with [] => Raise IndexError | c :: _ => Ret (Z.of_nat (length c)) end.

(** [block_size != alignment_tokens and n * block_size % alignment_tokens != 0]. *)
Definition misaligned (block_size alignment_tokens n : Z) : bool :=
  negb (block_size =? alignment_tokens) && negb ((n * block_size) mod alignment_tokens =? 0).

(** The [while] loop that drops blocks until the length is aligned; [None] when it needs
    more rounds than [fuel]. *)
Fixpoint align_loop (fuel : nat) (block_size alignment_tokens : Z) (computed : columns) :
    outcome (option columns) :=
  match fuel with
  | O => Ret None
  | S fuel' =>
      n ← first_len computed;
      if misaligned block_size alignment_tokens n then
        computed' ← pop_each computed;
        align_loop fuel' block_size alignment_tokens computed'
      else Ret (Some computed)
  end.

(** One round per block, and one to see that nothing is left to drop. *)
Definition align_fuel (computed : columns) : nat :=
  match computed with [] => 1 | c :: _ => S (length c) end.

(** [if use_eagle and computed_blocks[0]: ... computed.pop()]. *)
Definition drop_eagle (use_eagle : bool) (computed : columns) : outcome columns :=
  if use_eagle then
    n ← first_len computed;
    if n =? 0 then Ret computed else pop_each computed
  else Ret computed.

(** *** Full attention *)

(** The loop of [FullAttentionManager.find_longest_cache_hit]; an empty result is falsy. *)
Fixpoint full_scan (kv_cache_group_ids : list Z) (hashes : list bytes) (computed : columns) :
    M P columns :=
  match hashes with
  | [] => mret computed
  | h :: hashes' =>
      cached_block ← get_cached_block h kv_cache_group_ids;
      match cached_block with
      | Some ((_ :: _) as cached) =>
          full_scan kv_cache_group_ids hashes' (append_each computed cached)
      | _ => mret computed
      end
  end.

Definition full_find_longest_cache_hit (block_hashes : BlockHashList) (max_length : Z)
    (kv_cache_group_ids : list Z) (spec_block_size : Z) (use_eagle : bool)
    (alignment_tokens dcp_world_size pcp_world_size : Z) : M P (option columns) :=
  let computed := replicate (length kv_cache_group_ids) [] in
  let block_size := if 1 <? dcp_world_size * pcp_world_size
    then spec_block_size * (dcp_world_size * pcp_world_size) else spec_block_size in
  let max_num_blocks := max_length / block_size in
  (if max_num_blocks <? 0 then raise ValueError else mret tt) ;;
  hashes ← from_option_raise IndexError (hl_from block_hashes 0);
  computed ← full_scan kv_cache_group_ids (take (Z.to_nat max_num_blocks) hashes) computed;
  computed ← of_outcome (drop_eagle use_eagle computed);
  of_outcome (align_loop (align_fuel computed) block_size alignment_tokens computed).

(** *** Sliding window *)

(** The loop of [SlidingWindowManager.find_longest_cache_hit] over the indices below [i],
    from the right: the blocks, the contiguous count and whether a match was found. *)
Fixpoint sliding_scan (block_hashes : BlockHashList) (kv_cache_group_ids : list Z)
    (block_size alignment_tokens contiguous_blocks : Z) (i : nat) (computed : columns)
    (num_contiguous_blocks : Z) : M P (columns * Z * bool) :=
  match i with
  | O => mret (computed, num_contiguous_blocks, false)
  | S i' =>
      h ← from_option_raise IndexError (hl_get block_hashes (Z.of_nat i'));
      cached_block ← get_cached_block h kv_cache_group_ids;
      match cached_block with
      | Some ((_ :: _) as cached) =>
          if (num_contiguous_blocks =? 0) &&
             misaligned block_size alignment_tokens (Z.of_nat i' + 1) then
            sliding_scan block_hashes kv_cache_group_ids block_size alignment_tokens
              contiguous_blocks i' computed num_contiguous_blocks
          else
            computed' ← of_outcome (set_each i' computed cached);
            let num' := num_contiguous_blocks + 1 in
            if contiguous_blocks <=? num' then
              mret (trim_each (i' + Z.to_nat num') computed', num', true)
            else
              sliding_scan block_hashes kv_cache_group_ids block_size alignment_tokens
                contiguous_blocks i' computed' num'
      | _ =>
          sliding_scan block_hashes kv_cache_group_ids block_size alignment_tokens
            contiguous_blocks i' computed 0
      end
  end.

Definition sliding_find_longest_cache_hit (block_hashes : BlockHashList) (max_length : Z)
    (kv_cache_group_ids : list Z) (block_size sliding_window : Z) (use_eagle : bool)
    (alignment_tokens dcp_world_size pcp_world_size : Z) : M P (option columns) :=
  py_assert (dcp_world_size =? 1) ;;
  py_assert (pcp_world_size =? 1) ;;
  let contiguous_blocks := cdiv (sliding_window - 1) block_size + (if use_eagle then 1 else 0) in
  let max_num_blocks := max_length / block_size in
  null ← gets null_block;
  let computed := replicate (length kv_cache_group_ids) (replicate (Z.to_nat max_num_blocks) null) in
  '(computed, num_contiguous_blocks, match_found) ←
    sliding_scan block_hashes kv_cache_group_ids block_size alignment_tokens contiguous_blocks
      (Z.to_nat max_num_blocks) computed 0;
  o ← (if match_found : bool then mret (Some computed)
       else let computed := trim_each (Z.to_nat num_contiguous_blocks) computed in
            of_outcome (align_loop (align_fuel computed) block_size alignment_tokens computed));
  match o with
  | None => mret None
  | Some computed =>
      (if use_eagle then
         n ← of_outcome (first_len computed);
         if n =? 0 then mret tt else py_assert (block_size =? alignment_tokens)
       else mret tt) ;;
      computed ← of_outcome (drop_eagle use_eagle computed);
      mret (Some computed)
  end.

(** *** Chunked local attention *)

(** The loop over the indices of [ChunkedLocalAttentionManager.find_longest_cache_hit]. *)
Fixpoint chunked_scan (block_hashes : BlockHashList) (kv_cache_group_ids : list Z)
    (idxs : list Z) (computed : columns) : M P columns :=
  match idxs with
  | [] => mret computed
  | i :: idxs' =>
      h ← from_option_raise IndexError (hl_get block_hashes i);
      cached_block ← get_cached_block h kv_cache_group_ids;
      match cached_block with
      | Some ((_ :: _) as cached) =>
          chunked_scan block_hashes kv_cache_group_ids idxs' (append_each computed cached)
      | _ => mret computed
      end
  end.

Definition chunked_find_longest_cache_hit (block_hashes : BlockHashList) (max_length : Z)
    (kv_cache_group_ids : list Z) (block_size attention_chunk_size : Z) (use_eagle : bool)
    (alignment_tokens dcp_world_size pcp_world_size : Z) : M P columns :=
  py_assert (negb use_eagle) ;;
  py_assert (dcp_world_size =? 1) ;;
  py_assert (pcp_world_size =? 1) ;;
  py_assert (block_size =? alignment_tokens) ;;
  let max_num_blocks := max_length / block_size in
  let local_attention_start_idx :=
    if 0 <? max_length then max_length / attention_chunk_size * attention_chunk_size else 0 in
  let local_attention_start_block_idx := local_attention_start_idx / block_size in
  null ← gets null_block;
  let computed := replicate (length kv_cache_group_ids)
    (replicate (Z.to_nat local_attention_start_block_idx) null) in
  chunked_scan block_hashes kv_cache_group_ids
    (py_range local_attention_start_block_idx max_num_blocks) computed.

(** *** Mamba and cross attention *)

(** [computed.extend([null] * i); computed.append(cached)] for each group. *)
Fixpoint pad_append_each (i : nat) (null : bref) (computed : columns) (cached : list bref) : columns :=
  match computed, cached with
  | c :: cs, b :: bs => (c ++ replicate i null ++ [b]) :: pad_append_each i null cs bs
  | _, _ => computed
  end.

(** The loop of [MambaManager.find_longest_cache_hit] over the indices below [i]. *)
Fixpoint mamba_scan (block_hashes : BlockHashList) (kv_cache_group_ids : list Z)
    (block_size alignment_tokens : Z) (null : bref) (i : nat) (computed : columns) : M P columns :=
  match i with
  | O => mret computed
  | S i' =>
      h ← from_option_raise IndexError (hl_get block_hashes (Z.of_nat i'));
      cached_block ← get_cached_block h kv_cache_group_ids;
      match cached_block with
      | Some ((_ :: _) as cached) =>
          if misaligned block_size alignment_tokens (Z.of_nat i' + 1) then
            mamba_scan block_hashes kv_cache_group_ids block_size alignment_tokens null i' computed
          else mret (pad_append_each i' null computed cached)
      | _ => mamba_scan block_hashes kv_cache_group_ids block_size alignment_tokens null i' computed
      end
  end.

Definition mamba_find_longest_cache_hit (block_hashes : BlockHashList) (max_length : Z)
    (kv_cache_group_ids : list Z) (block_size : Z)
    (alignment_tokens dcp_world_size pcp_world_size : Z) : M P columns :=
  py_assert (dcp_world_size =? 1) ;;
  py_assert (pcp_world_size =? 1) ;;
  null ← gets null_block;
  mamba_scan block_hashes kv_cache_group_ids block_size alignment_tokens null
    (Z.to_nat (max_length / block_size)) (replicate (length kv_cache_group_ids) []).

(** ** What a hit is *)

(** Block [b] holds the KV data of hash [h] for group [g]. *)
Definition genuine (p : P) (g : Z) (h : bytes) (b : bref) : Prop :=
  b ∈ blocks p ∧ b ≠ Blk 0 ∧ hash_of p b = Some (group_key g h).

(** The block at index [i] is cached in every group. *)
Definition hit_at (p : P) (gids : list Z) (L : BlockHashList) (i : nat) : Prop :=
  ∃ h, hl_get L (Z.of_nat i) = Some h ∧ ∀ g, g ∈ gids → ∃ b, genuine p g h b.

(** A column of length [m] whose first [s] entries are null and whose others are genuine. *)
Record column (p : P) (L : BlockHashList) (s m : nat) (g : Z) (c : list bref) : Prop := {
  cl_len : length c = m;
  cl_null : ∀ i, (i < s)%nat → (i < m)%nat → c !! i = Some (Blk 0);
  cl_hit : ∀ i, (s ≤ i < m)%nat →
    ∃ h b, hl_get L (Z.of_nat i) = Some h ∧ c !! i = Some b ∧ genuine p g h b
}.

Lemma group_key_make g h : 0 ≤ g < 2 ^ 32 → make_block_hash_with_group_id h g = Ret (group_key g h).
Proof. intros Hg. unfold make_block_hash_with_group_id. by rewrite decide_True. Qed.

Lemma misaligned_dvd bs al n :
  0 < al → misaligned bs al n = false ↔ (al | n * bs).
Proof.
  intros Ha. unfold misaligned. destruct (Z.eqb_spec bs al) as [->|Hne]; simpl.
  - split; [|done]. intros _. apply Z.divide_factor_r.
  - rewrite negb_false_iff, Z.eqb_eq. apply Z.mod_divide. lia.
Qed.

Section search.
Context (p : P) (l : list bref) (gids : list Z) (L : BlockHashList).
Hypothesis Hp : pool_inv p l.
Hypothesis Hgids : ∀ g, g ∈ gids → 0 ≤ g < 2 ^ 32.
Hypothesis Hne : gids ≠ [].

(** A lookup answers with genuine blocks, or some group has none. *)
Lemma wp_lookup i h E :
  hl_get L (Z.of_nat i) = Some h →
  wp (get_cached_block h gids)
    (λ o p', p' = p ∧ match o with
       | Some ((_ :: _) as bs) => hit_at p gids L i ∧ Forall2 (λ g b, genuine p g h b) gids bs
       | Some [] => False
       | None => ¬ hit_at p gids L i
       end) E p.
Proof using Hp Hgids Hne.
  intros Hh. pose proof (pi_cache _ _ Hp) as Hc.
  eapply wp_call; [by apply wp_get_cached_loop|]. intros o p' [-> Ho]. split; [done|].
  destruct o as [bs|].
  - destruct Ho as (bs' & -> & Hall). simpl.
    assert (Forall2 (λ g b, genuine p g h b) gids bs') as Hgen.
    { eapply Forall2_impl_in; [done|]. intros g b Hg (k & Hk & Hb).
      rewrite group_key_make in Hk by auto. injection Hk as <-.
      assert (b ∈ cached p (group_key g h)) as Hin by (destruct (cached p _); simplify_eq/=; by left).
      pose proof Hin as [Hbl Hhash]%(co_iff p Hc). split_and!; [done| |done].
      intros ->. by rewrite (co_null _ Hc) in Hhash. }
    destruct bs' as [|b bs'].
    + by apply Forall2_nil_inv_r in Hgen.
    + split; [|done]. exists h. split; [done|]. intros g Hg.
      destruct (Forall2_in_l _ _ _ _ Hgen Hg) as (x & _ & Hx). eauto.
  - destruct Ho as (g & k & Hg & Hk & Hnil). intros (h' & Hh' & Hall). rewrite Hh in Hh'. simplify_eq.
    destruct (Hall g Hg) as (b & Hb & _ & Hhash). rewrite group_key_make in Hk by auto.
    injection Hk as <-. assert (b ∈ cached p (group_key g h')) as Hin by by apply (co_iff p Hc).
    rewrite Hnil in Hin. by apply elem_of_nil in Hin.
Qed.

(** *** Columns *)

Lemma columns_nil n : length gids = n → Forall2 (column p L 0 0) gids (replicate n []).
Proof using.
  intros <-. clear. induction gids as [|g gs IH]; constructor; [|done].
  split; [done|lia..].
Qed.

Lemma columns_append m h computed row :
  hl_get L (Z.of_nat m) = Some h → ∀ s, (s ≤ m)%nat →
  Forall2 (column p L s m) gids computed → Forall2 (λ g b, genuine p g h b) gids row →
  Forall2 (column p L s (S m)) gids (append_each computed row).
Proof using.
  clear -h. intros Hh s Hs Hc. revert row. induction Hc as [|g c gs cs [Hlen Hnull Hhit] _ IH];
    intros row Hrow; inversion Hrow; subst; constructor; [|by apply IH].
  split.
  - rewrite length_app. simpl. lia.
  - intros i Hi Hm. rewrite lookup_app_l by lia. apply Hnull; lia.
  - intros i Hi. destruct (decide (i < length c)%nat).
    + rewrite lookup_app_l by lia. apply Hhit. lia.
    + replace i with (length c) by lia. rewrite list_lookup_middle by done. eauto.
Qed.

Lemma columns_pop s m computed :
  Forall2 (column p L s (S m)) gids computed →
  ∃ computed', pop_each computed = Ret computed' ∧ Forall2 (column p L s m) gids computed'.
Proof using.
  clear. induction 1 as [|g c gs cs [Hlen Hnull Hhit] _ (cs' & Hcs & IH)]; [by exists []|].
  destruct c as [|b c]; [done|]. cbn [pop_each]. rewrite Hcs. eexists. split; [reflexivity|].
  constructor; [|done]. simpl length. replace (S (length c) - 1)%nat with (length c) by lia.
  simpl in Hlen. split.
  - rewrite length_take. simpl. lia.
  - intros i Hi Hm. rewrite lookup_take_lt by lia. apply Hnull; lia.
  - intros i Hi. rewrite lookup_take_lt by lia. apply Hhit. lia.
Qed.

Lemma columns_first s m computed :
  Forall2 (column p L s m) gids computed → first_len computed = Ret (Z.of_nat m).
Proof using Hne.
  clear -Hne. destruct 1 as [|g c gs cs [Hlen _ _] _]; [done|]. simpl. by rewrite Hlen.
Qed.

Lemma columns_fuel s m computed :
  Forall2 (column p L s m) gids computed → align_fuel computed = S m.
Proof using Hne. clear -Hne. destruct 1 as [|g c gs cs [Hlen _ _] _]; [done|]. simpl. by rewrite Hlen. Qed.

(** The alignment loop ends with the longest aligned length. *)
Lemma align_loop_run bs al s m computed fuel :
  Forall2 (column p L s m) gids computed → (m < fuel)%nat →
  ∃ m' computed', align_loop fuel bs al computed = Ret (Some computed') ∧
    Forall2 (column p L s m') gids computed' ∧ (m' ≤ m)%nat ∧
    misaligned bs al (Z.of_nat m') = false ∧
    ∀ x, (m' < x ≤ m)%nat → misaligned bs al (Z.of_nat x) = true.
Proof using Hne.
  revert computed fuel. induction m as [|m IH]; intros computed [|fuel] Hc Hf; try lia;
    cbn [align_loop]; unfold mbind, outcome_bind; rewrite (columns_first _ _ _ Hc).
  - assert (misaligned bs al (Z.of_nat 0) = false) as Hz.
    { unfold misaligned. by rewrite Z.mul_0_l, Zmod_0_l, andb_false_r. }
    rewrite Hz. exists 0%nat, computed. split_and!; try done. lia.
  - destruct (misaligned bs al (Z.of_nat (S m))) eqn:Hmis.
    + destruct (columns_pop _ _ _ Hc) as (computed' & -> & Hc').
      destruct (IH computed' fuel Hc' ltac:(lia)) as (m' & c' & Hrun & H1 & H2 & H3 & H4).
      exists m', c'. split_and!; try done; [lia|]. intros x Hx.
      destruct (decide (x = S m)) as [->|]; [done|]. apply H4. lia.
    + exists (S m), computed. split_and!; try done. lia.
Qed.

Lemma drop_eagle_run (e : bool) s m computed :
  Forall2 (column p L s m) gids computed →
  ∃ computed', drop_eagle e computed = Ret computed' ∧
    Forall2 (column p L s (if e then Nat.pred m else m)) gids computed'.
Proof using Hne.
  intros Hc. unfold drop_eagle. destruct e; [|by eexists].
  unfold mbind, outcome_bind. rewrite (columns_first _ _ _ Hc).
  destruct m as [|m]; [by exists computed|].
  rewrite (proj2 (Z.eqb_neq _ _)) by lia. by apply columns_pop.
Qed.

(** *** The full-attention scan *)

Lemma wp_full_scan hashes s m computed E :
  (s ≤ m)%nat → Forall2 (column p L s m) gids computed →
  (∀ j h, hashes !! j = Some h → hl_get L (Z.of_nat (m + j)) = Some h) →
  wp (full_scan gids hashes computed)
    (λ res p', p' = p ∧ ∃ k, (k ≤ length hashes)%nat ∧ Forall2 (column p L s (m + k)) gids res ∧
       (∀ j, (j < k)%nat → hit_at p gids L (m + j)) ∧
       ((k < length hashes)%nat → ¬ hit_at p gids L (m + k))) E p.
Proof using Hp Hgids Hne.
  revert m computed. induction hashes as [|h hashes IH]; intros m computed Hs Hc Hh; cbn [full_scan].
  { wp_steps. split; [done|]. exists 0%nat. rewrite Nat.add_0_r. split_and!; [done|done|lia|simpl; lia]. }
  assert (hl_get L (Z.of_nat m) = Some h) as Hm.
  { specialize (Hh 0%nat h eq_refl). by rewrite Nat.add_0_r in Hh. }
  apply wp_bind. eapply wp_call; [by apply wp_lookup|]. intros o p' [-> Ho].
  destruct o as [[|b bs]|]; [done| |].
  - destruct Ho as [Hhit Hrow]. eapply wp_call; [apply (IH (S m))|].
    + lia.
    + by apply (columns_append m h).
    + intros j h' Hj. rewrite <-(Hh (S j) h' Hj). do 2 f_equal. lia.
    + intros res p' [-> (k & Hk & Hres & Hall & Hstop)]. split; [done|]. exists (S k). simpl.
      rewrite Nat.add_succ_r. split_and!; [lia|done| |].
      * intros [|j] Hj; [by rewrite Nat.add_0_r|]. rewrite Nat.add_succ_r. apply Hall. lia.
      * intros ?. apply Hstop. lia.
  - wp_steps. split; [done|]. exists 0%nat. rewrite Nat.add_0_r. split_and!; [lia|done|lia|done].
Qed.

(** *** Full attention *)

(** No aligned prefix of more than [m] blocks that fits in [max_length] tokens, with [e]
    blocks beyond it, has only hits from index [lo] on. *)
Definition longest (lo : nat → nat) (bs al max_length : Z) (e m : nat) : Prop :=
  ∀ x, (m < x)%nat → (al | Z.of_nat x * bs) → Z.of_nat (x + e) * bs ≤ max_length →
    ¬ ∀ i, (lo (x + e)%nat ≤ i < x + e)%nat → hit_at p gids L i.

Lemma fits_blocks bs n max_length : 0 < bs → Z.of_nat n * bs ≤ max_length ↔ Z.of_nat n ≤ max_length / bs.
Proof using.
  intros Hb. split; intros H.
  - apply Z.div_le_lower_bound; lia.
  - pose proof (Z.mul_div_le max_length bs Hb). nia.
Qed.

Lemma wp_full_find max_length spec_bs (eagle : bool) al dcp pcp E :
  let bs := if 1 <? dcp * pcp then spec_bs * (dcp * pcp) else spec_bs in
  let e := if eagle then 1%nat else 0%nat in
  hl_valid L → 0 < bs → 0 < al → 0 ≤ max_length → max_length / bs ≤ hl_len L →
  wp (full_find_longest_cache_hit L max_length gids spec_bs eagle al dcp pcp)
    (λ o p', p' = p ∧ ∃ res m, o = Some res ∧ Forall2 (column p L 0 m) gids res ∧
       Z.of_nat m * bs ≤ max_length ∧ (al | Z.of_nat m * bs) ∧
       longest (λ _, 0%nat) bs al max_length e m) E p.
Proof using Hp Hgids Hne.
  intros bs e Hv Hbs Hal Hml Hlen. unfold full_find_longest_cache_hit. cbv zeta. fold bs.
  pose proof (Z.div_pos max_length bs Hml Hbs) as Hn0. set (n := max_length / bs) in *.
  rewrite (proj2 (Z.ltb_ge n 0)) by done. wp_steps.
  destruct (hl_from_spec L 0 Hv) as (hs & Hfrom & Hhl & Hhs); [lia|].
  eapply wp_from_option; [done|]. apply wp_bind.
  eapply wp_call; [apply (wp_full_scan _ 0 0); [done|by apply columns_nil|]|].
  { intros j h Hj. rewrite lookup_take_Some in Hj. destruct Hj as [Hj _].
    rewrite <-Hj. rewrite Hhs; [done|]. by eapply lookup_lt_Some. }
  assert (length (take (Z.to_nat n) hs) = Z.to_nat n) as Htk by (rewrite length_take; lia). rewrite Htk.
  intros res p' [-> (k & Hk & Hres & Hall & Hstop)]. simpl in Hres, Hall, Hstop.
  destruct (drop_eagle_run eagle _ _ _ Hres) as (res1 & Hd & Hres1).
  apply wp_bind. eapply wp_of_outcome; [done|].
  destruct (align_loop_run bs al _ _ res1 (align_fuel res1) Hres1) as (m & res2 & Hrun & Hres2 & Hm & Hal1 & Hal2);
    [rewrite (columns_fuel _ _ _ Hres1); lia|].
  eapply wp_of_outcome; [done|]. split; [done|]. exists res2, m. split_and!; try done.
  - apply fits_blocks; [done|]. destruct eagle; lia.
  - by apply misaligned_dvd.
  - intros x Hx Hdv Hfit Hhits. apply fits_blocks in Hfit; [|done]. fold n in Hfit.
    assert (x + e ≤ k)%nat as Hxk.
    { destruct (decide (x + e ≤ k)%nat); [done|]. exfalso. apply Hstop; [lia|]. apply Hhits. lia. }
    assert (misaligned bs al (Z.of_nat x) = true) as Hmis; [|apply misaligned_dvd in Hdv; congruence].
    apply Hal2. subst e. destruct eagle; lia.
Qed.

(** *** Sliding window *)

(** During the scan: null below [i], genuine from [i] to [e], anything from [e] to [n]. *)
Record scanning (i e n : nat) (g : Z) (c : list bref) : Prop := {
  sc_len : length c = n;
  sc_null : ∀ j, (j < i)%nat → (j < n)%nat → c !! j = Some (Blk 0);
  sc_hit : ∀ j, (i ≤ j < e)%nat →
    ∃ h b, hl_get L (Z.of_nat j) = Some h ∧ c !! j = Some b ∧ genuine p g h b
}.

Lemma scanning_init n m : length gids = m →
  Forall2 (scanning n n n) gids (replicate m (replicate n (Blk 0))).
Proof using.
  intros <-. clear. induction gids as [|g gs IH]; constructor; [|done].
  split; [apply length_replicate| |lia]. intros j Hj _. by apply lookup_replicate_2.
Qed.

Lemma scanning_miss i e n computed :
  Forall2 (scanning (S i) e n) gids computed → Forall2 (scanning i i n) gids computed.
Proof using.
  clear. intros H. eapply Forall2_impl; [done|]. intros g c [H1 H2 H3]. split; [done| |lia].
  intros j Hj. apply H2. lia.
Qed.

Lemma scanning_set i e n h computed row :
  hl_get L (Z.of_nat i) = Some h → (S i ≤ e ≤ n)%nat →
  Forall2 (scanning (S i) e n) gids computed → Forall2 (λ g b, genuine p g h b) gids row →
  ∃ computed', set_each i computed row = Ret computed' ∧ Forall2 (scanning i e n) gids computed'.
Proof using.
  clear -h. intros Hh He Hc. revert row.
  induction Hc as [|g c gs cs [Hlen Hnull Hhit] _ IH]; intros row Hrow; inversion Hrow as [|? b ? row' Hb Hrow']; subst.
  { by exists []. }
  destruct (IH row' Hrow') as (cs' & Hcs & Hall). cbn [set_each]. rewrite decide_True by lia. rewrite Hcs.
  eexists. split; [reflexivity|]. constructor; [|done]. split.
  - apply length_insert.
  - intros j Hj Hn. rewrite list_lookup_insert_ne by lia. apply Hnull; lia.
  - intros j Hj. destruct (decide (j = i)) as [->|].
    + exists h, b. split_and!; [done| |done]. by rewrite list_lookup_insert_eq by lia.
    + rewrite list_lookup_insert_ne by lia. apply Hhit. lia.
Qed.

Lemma scanning_trim i e n computed :
  (e ≤ n)%nat → Forall2 (scanning i e n) gids computed →
  Forall2 (column p L i e) gids (trim_each e computed).
Proof using.
  clear. intros He. unfold trim_each. induction 1 as [|g c gs cs [Hlen Hnull Hhit] _ IH]; constructor; [|done].
  split.
  - rewrite length_take. lia.
  - intros j Hj Hm. rewrite lookup_take_lt by lia. apply Hnull; lia.
  - intros j Hj. rewrite lookup_take_lt by lia. apply Hhit. lia.
Qed.

(** Every longer aligned prefix of at most [n] blocks has a miss among its last [w] blocks,
    at index [i] or later. *)
Definition outdone (bs al : Z) (w i e n : nat) : Prop :=
  ∀ x, (e < x ≤ n)%nat → misaligned bs al (Z.of_nat x) = false →
    ∃ j, (x - w ≤ j < x)%nat ∧ (i ≤ j)%nat ∧ ¬ hit_at p gids L j.

(** What the scan returns: a window of [w] hits that ends at an aligned length, or the
    run of hits that reaches the start. *)
Definition scan_result (bs al : Z) (w n : nat) (res : columns * Z * bool) : Prop :=
  ∃ e, (e ≤ n)%nat ∧ outdone bs al w 0 e n ∧ misaligned bs al (Z.of_nat e) = false ∧
    if res.2 then (w ≤ e)%nat ∧ Forall2 (column p L (e - w) e) gids res.1.1
    else (e < w)%nat ∧ res.1.2 = Z.of_nat e ∧ Forall2 (scanning 0 e n) gids res.1.1.

Lemma aligned_0 bs al : misaligned bs al (Z.of_nat 0) = false.
Proof using. clear. unfold misaligned. by rewrite Z.mul_0_l, Zmod_0_l, andb_false_r. Qed.

(** A miss at [i] outdoes every prefix whose window it falls into. *)
Lemma outdone_miss bs al w i e n :
  (1 ≤ w)%nat → (S i ≤ e)%nat → (e - S i < w)%nat → ¬ hit_at p gids L i →
  outdone bs al w (S i) e n → outdone bs al w i i n.
Proof using.
  clear. intros Hw He Hrun Hmiss Hout x Hx Hal. destruct (decide (e < x)%nat).
  - destruct (Hout x ltac:(lia) Hal) as (j & ? & ? & ?). exists j. split_and!; [lia..|done].
  - exists i. split_and!; [lia..|done].
Qed.

Lemma outdone_down bs al w i e n : outdone bs al w (S i) e n → outdone bs al w i e n.
Proof using. clear. intros Hout x Hx Hal. destruct (Hout x Hx Hal) as (j & ? & ? & ?). exists j. split_and!; [lia..|done]. Qed.

Lemma wp_sliding_scan bs al W w n i e computed E :
  w = Z.to_nat (Z.max 1 W) → (i ≤ e ≤ n)%nat → Z.of_nat n ≤ hl_len L → hl_valid L →
  (e - i < w)%nat → ((i < e)%nat → misaligned bs al (Z.of_nat e) = false) →
  outdone bs al w i e n → Forall2 (scanning i e n) gids computed →
  wp (sliding_scan L gids bs al W i computed (Z.of_nat (e - i)))
    (λ res p', p' = p ∧ scan_result bs al w n res) E p.
Proof using Hp Hgids Hne.
  intros Hw. revert e computed. induction i as [|i IH]; intros e computed Hie HnL Hv Hrun Hal Hout Hc;
    cbn [sliding_scan].
  { wp_steps. split; [done|]. exists e. rewrite Nat.sub_0_r in *. split_and!; try done; [lia|].
    destruct (decide (e = 0%nat)) as [->|]; [apply aligned_0|]. apply Hal. lia. }
  destruct (hl_get_in L (Z.of_nat i) Hv) as [h Hh]; [lia|].
  apply wp_bind. eapply wp_from_option; [done|]. apply wp_bind.
  eapply wp_call; [by apply (wp_lookup i)|]. intros o p' [-> Ho].
  destruct o as [[|b row]|]; [done| |].
  - destruct Ho as [Hhit Hrow].
    destruct ((Z.of_nat (e - S i) =? 0) && misaligned bs al (Z.of_nat i + 1)) eqn:Hskip.
    + apply andb_true_iff in Hskip as [H0%Z.eqb_eq Hmis]. assert (e = S i) as -> by lia.
      replace (Z.of_nat (S i - S i)) with (Z.of_nat (i - i)) by lia.
      apply IH; try done; try lia; [|by eapply scanning_miss].
      intros x Hx Hxal. destruct (decide (x = S i)) as [->|].
      { replace (Z.of_nat i + 1) with (Z.of_nat (S i)) in Hmis by lia. congruence. }
      destruct (Hout x ltac:(lia) Hxal) as (j & ? & ? & ?). exists j. split_and!; [lia..|done].
    + destruct (scanning_set i e n h computed (b :: row) Hh ltac:(lia) Hc Hrow) as (computed' & Hset & Hc').
      apply wp_bind. eapply wp_of_outcome; [done|].
      assert (misaligned bs al (Z.of_nat e) = false) as Hale.
      { destruct (decide (S i < e)%nat); [by apply Hal|]. assert (e = S i) as -> by lia.
        rewrite Nat.sub_diag in Hskip. simpl in Hskip.
        by replace (Z.of_nat (S i)) with (Z.of_nat i + 1) by lia. }
      replace (Z.of_nat (e - S i) + 1) with (Z.of_nat (e - i)) by lia.
      destruct (Z.leb_spec W (Z.of_nat (e - i))).
      * wp_steps. split; [done|]. exists e. assert (e - i = w)%nat by lia.
        split_and!; [lia| |done|]; simpl.
        -- intros x Hx Hxal. destruct (Hout x Hx Hxal) as (j & ? & ? & ?). exists j. split_and!; [lia..|done].
        -- split; [lia|]. replace (i + Z.to_nat (Z.of_nat (e - i)))%nat with e by lia.
           replace (e - w)%nat with i by lia. apply (scanning_trim i e n); [lia|done].
      * apply IH; try done; try lia. by apply outdone_down.
  - replace 0 with (Z.of_nat (i - i)) by lia. apply IH; try done; try lia.
    + apply (outdone_miss bs al w i e n); [lia|lia|lia|exact Ho|exact Hout].
    + by eapply scanning_miss.
Qed.

(** Trimming a failed scan keeps the run of hits at the start, which is aligned. *)
Lemma sliding_trim_run bs al w n e0 computed num (found : bool) E :
  (e0 ≤ n)%nat → misaligned bs al (Z.of_nat e0) = false →
  (if found then (w ≤ e0)%nat ∧ Forall2 (column p L (e0 - w) e0) gids computed
   else (e0 < w)%nat ∧ num = Z.of_nat e0 ∧ Forall2 (scanning 0 e0 n) gids computed) →
  ∃ computed', Forall2 (column p L (e0 - w) e0) gids computed' ∧
    ∀ (Q : option columns → P → Prop), Q (Some computed') p →
      wp (if found then mret (Some computed)
          else of_outcome (align_loop (align_fuel (trim_each (Z.to_nat num) computed)) bs al
                 (trim_each (Z.to_nat num) computed))) Q E p.
Proof using Hne.
  intros He0 Hale Hres. destruct found.
  - destruct Hres as [? ?]. exists computed. split; [done|]. intros Q HQ. by apply wp_ret.
  - destruct Hres as (Hlt & -> & Hsc). rewrite Nat2Z.id.
    pose proof (scanning_trim _ _ _ _ He0 Hsc) as Hcol. set (tr := trim_each e0 computed) in *.
    destruct (align_loop_run bs al _ _ tr (align_fuel tr) Hcol) as (m & c' & Hr & Hc' & Hm & Hm1 & Hm2);
      [rewrite (columns_fuel _ _ _ Hcol); lia|].
    assert (m = e0) as ->. { destruct (decide (m = e0)); [done|]. rewrite Hm2 in Hale by lia. done. }
    exists c'. replace (e0 - w)%nat with 0%nat by lia. split; [done|]. intros Q HQ.
    by eapply wp_of_outcome.
Qed.

Lemma wp_eagle_assert (eagle : bool) bs al s m computed (Q : unit → P → Prop) E :
  Forall2 (column p L s m) gids computed → (eagle = true → bs = al) → Q tt p →
  wp (if eagle then n0 ← of_outcome (first_len computed); if n0 =? 0 then mret tt else py_assert (bs =? al)
      else mret tt) Q E p.
Proof using Hne.
  intros Hc Heagle HQ. destruct eagle; [|by apply wp_ret]. apply wp_bind.
  eapply wp_of_outcome; [by eapply columns_first|]. destruct (_ =? 0); [by apply wp_ret|].
  apply wp_assert; [|done]. apply Z.eqb_eq. by apply Heagle.
Qed.

Lemma wp_sliding_find max_length bs window (eagle : bool) al E :
  let e := if eagle then 1%nat else 0%nat in
  let w := (Z.to_nat (Z.max 1 (cdiv (window - 1) bs + Z.of_nat e)))%nat in
  hl_valid L → 0 < bs → 0 < al → 0 ≤ max_length → max_length / bs ≤ hl_len L →
  (eagle = true → bs = al) →
  wp (sliding_find_longest_cache_hit L max_length gids bs window eagle al 1 1)
    (λ o p', p' = p ∧ ∃ res m, o = Some res ∧ Forall2 (column p L (m + e - w) m) gids res ∧
       Z.of_nat m * bs ≤ max_length ∧ (al | Z.of_nat m * bs) ∧
       longest (λ y, y - w)%nat bs al max_length e m) E p.
Proof using Hp Hgids Hne.
  intros e w Hv Hbs Hal Hml Hlen Heagle. unfold sliding_find_longest_cache_hit.
  apply wp_bind, wp_assert; [done|]. apply wp_bind, wp_assert; [done|]. wp_steps.
  rewrite (so_null _ (pi_static _ _ Hp)).
  pose proof (Z.div_pos max_length bs Hml Hbs) as Hn0. set (n := Z.to_nat (max_length / bs)).
  replace (cdiv (window - 1) bs + _) with (cdiv (window - 1) bs + Z.of_nat e) by (subst e; by destruct eagle).
  set (W := cdiv (window - 1) bs + Z.of_nat e) in *.
  replace 0 with (Z.of_nat (n - n)) at 1 by lia.
  eapply wp_call; [apply (wp_sliding_scan bs al W w n n n); try done; try lia|].
  { intros x Hx. lia. }
  { by apply scanning_init. }
  intros [[computed num] found] p' [-> (e0 & He0 & Hout & Hale & Hres)]. cbn [fst snd] in Hres. cbn beta iota.
  destruct (sliding_trim_run bs al w n e0 computed num found E He0 Hale Hres) as (computed' & Hc' & Hrun).
  apply wp_bind, Hrun. clear Hrun Hres.
  destruct (drop_eagle_run eagle _ _ _ Hc') as (res & Hd & Hres).
  set (m := if eagle then Nat.pred e0 else e0) in *.
  apply wp_bind, (wp_eagle_assert eagle bs al _ _ _ _ _ Hc' Heagle), wp_bind. eapply wp_of_outcome; [done|]. wp_steps. split; [done|].
  exists res, m. assert (m + e - w = e0 - w ∧ (m ≤ e0)%nat ∧ (∀ x, m < x → e0 < x + e)%nat)%nat as (Hs & Hme & Hxm).
  { assert (1 ≤ w)%nat as Hw1 by (unfold w; lia). revert Hw1. clearbody w. unfold m, e. clear.
    destruct eagle; simpl; intros Hw1; split_and!; intros; lia. }
  assert (∀ y, misaligned bs al (Z.of_nat y) = misaligned bs al (Z.of_nat (y + e)) ∨ (al | Z.of_nat y * bs) ∧ misaligned bs al (Z.of_nat (y + e)) = false) as Hshift.
  { intros y. subst e. destruct eagle; [right|left; by rewrite Nat.add_0_r].
    rewrite (Heagle eq_refl). split; [apply Z.divide_factor_r|]. unfold misaligned. by rewrite Z.eqb_refl. }
  split_and!; [done|by rewrite Hs| | |].
  - apply fits_blocks; [done|]. lia.
  - destruct (Hshift m) as [Heq|[? _]]; [|done]. apply misaligned_dvd; [done|].
    destruct (decide (m + e = e0)%nat) as [Hme0|Hme0]; [by rewrite Heq, Hme0|].
    assert (m = 0%nat) as Hm0 by (revert Hme0; unfold m, e; clear; destruct eagle; lia).
    rewrite Hm0. apply aligned_0.
  - intros x Hx Hdv Hfit Hhits. apply fits_blocks in Hfit; [|done].
    destruct (Hout (x + e)%nat) as (j & Hj & _ & Hmiss); [specialize (Hxm x Hx); lia| |].
    + destruct (Hshift x) as [<-|[_ ?]]; [|done]. by apply misaligned_dvd.
    + apply Hmiss, Hhits. lia.
Qed.

(** *** Chunked local attention *)

Lemma columns_pad n m : length gids = n →
  Forall2 (column p L m m) gids (replicate n (replicate m (Blk 0))).
Proof using.
  intros <-. clear. induction gids as [|g gs IH]; constructor; [|done].
  split; [apply length_replicate| |lia]. intros i Hi _. by apply lookup_replicate_2.
Qed.

Lemma wp_chunked_scan k s m computed E :
  (s ≤ m)%nat → Z.of_nat (m + k) ≤ hl_len L → hl_valid L → Forall2 (column p L s m) gids computed →
  wp (chunked_scan L gids (py_range (Z.of_nat m) (Z.of_nat (m + k))) computed)
    (λ res p', p' = p ∧ ∃ j, (j ≤ k)%nat ∧ Forall2 (column p L s (m + j)) gids res ∧
       ((j < k)%nat → ¬ hit_at p gids L (m + j))) E p.
Proof using Hp Hgids Hne.
  revert m computed. induction k as [|k IH]; intros m computed Hs HL Hv Hc.
  { rewrite Nat.add_0_r, py_range_nil by lia. cbn [chunked_scan]. wp_steps. split; [done|].
    exists 0%nat. rewrite Nat.add_0_r. split_and!; [done|done|lia]. }
  rewrite py_range_cons by lia. cbn [chunked_scan].
  destruct (hl_get_in L (Z.of_nat m) Hv) as [h Hh]; [lia|].
  apply wp_bind. eapply wp_from_option; [done|]. apply wp_bind.
  eapply wp_call; [by apply (wp_lookup m)|]. intros o p' [-> Ho].
  destruct o as [[|b row]|]; [done| |].
  - destruct Ho as [Hhit Hrow].
    replace (Z.of_nat m + 1) with (Z.of_nat (S m)) by lia.
    replace (m + S k)%nat with (S m + k)%nat by lia.
    eapply wp_call; [apply (IH (S m)); [lia|lia|done|by apply (columns_append m h)]|].
    intros res p' [-> (j & Hj & Hres & Hstop)]. split; [done|]. exists (S j).
    replace (m + S j)%nat with (S m + j)%nat by lia. split_and!; [lia|done|]. intros ?. apply Hstop. lia.
  - wp_steps. split; [done|]. exists 0%nat. rewrite Nat.add_0_r. split_and!; [lia|done|done].
Qed.

(** The first block of the current chunk. *)
Definition chunk_start (max_length chunk bs : Z) : nat :=
  Z.to_nat ((if 0 <? max_length then max_length / chunk * chunk else 0) / bs).

Lemma wp_chunked_find max_length bs chunk E :
  hl_valid L → 0 < bs → 0 < chunk → 0 ≤ max_length → max_length / bs ≤ hl_len L →
  wp (chunked_find_longest_cache_hit L max_length gids bs chunk false bs 1 1)
    (λ res p', p' = p ∧ ∃ m, (chunk_start max_length chunk bs ≤ m)%nat ∧
       Forall2 (column p L (chunk_start max_length chunk bs) m) gids res ∧
       Z.of_nat m * bs ≤ max_length ∧
       longest (λ _, chunk_start max_length chunk bs) bs bs max_length 0 m) E p.
Proof using Hp Hgids Hne.
  intros Hv Hbs Hch Hml Hlen. unfold chunked_find_longest_cache_hit.
  do 3 (apply wp_bind, wp_assert; [done|]). apply wp_bind, wp_assert; [apply Z.eqb_refl|]. wp_steps.
  rewrite (so_null _ (pi_static _ _ Hp)).
  set (st := (if 0 <? max_length then _ else 0) / bs).
  assert (0 ≤ st ≤ max_length / bs) as [Hst0 Hst].
  { subst st. destruct (Z.ltb_spec 0 max_length).
    - pose proof (Z.mul_div_le max_length chunk Hch). pose proof (Z.div_pos max_length chunk).
      split; [apply Z.div_pos; nia|apply Z.div_le_mono; lia].
    - rewrite Z.div_0_l by lia. split; [done|]. by apply Z.div_pos. }
  change (chunk_start max_length chunk bs) with (Z.to_nat st).
  pose proof (wp_chunked_scan (Z.to_nat (max_length / bs - st)) (Z.to_nat st) (Z.to_nat st)
    (replicate (length gids) (replicate (Z.to_nat st) (Blk 0))) E) as Hscan.
  replace (Z.of_nat (Z.to_nat st)) with st in Hscan by lia.
  replace (Z.of_nat (Z.to_nat st + _)) with (max_length / bs) in Hscan by lia.
  eapply wp_call; [apply Hscan; [done|lia|done|by apply columns_pad]|].
  intros res p' [-> (j & Hj & Hres & Hstop)]. split; [done|]. exists (Z.to_nat st + j)%nat.
  split_and!; [lia|done| |].
  - apply fits_blocks; [done|]. lia.
  - intros x Hx _ Hfit Hhits. rewrite Nat.add_0_r in *. apply fits_blocks in Hfit; [|done].
    apply Hstop; [lia|]. apply Hhits. lia.
Qed.

(** *** Mamba *)

Lemma columns_pad_append i h n row :
  hl_get L (Z.of_nat i) = Some h → n = length gids →
  Forall2 (λ g b, genuine p g h b) gids row →
  Forall2 (column p L i (S i)) gids (pad_append_each i (Blk 0) (replicate n []) row).
Proof using.
  clear -h. intros Hh -> Hrow. induction Hrow as [|g b gs row Hb _ IH]; constructor; [|done]. simpl. split.
  - rewrite length_app, length_replicate. simpl. lia.
  - intros j Hj _. rewrite lookup_app_l by (by rewrite length_replicate). by apply lookup_replicate_2.
  - intros j Hj. replace j with i by lia. exists h, b. split_and!; [done| |done].
    apply list_lookup_middle. by rewrite length_replicate.
Qed.

Lemma wp_mamba_scan bs al i E :
  Z.of_nat i ≤ hl_len L → hl_valid L →
  wp (mamba_scan L gids bs al (Blk 0) i (replicate (length gids) []))
    (λ res p', p' = p ∧ ∃ m, (m ≤ i)%nat ∧ Forall2 (column p L (m - 1) m) gids res ∧
       misaligned bs al (Z.of_nat m) = false ∧
       ∀ x, (m < x ≤ i)%nat → misaligned bs al (Z.of_nat x) = false → ¬ hit_at p gids L (x - 1)) E p.
Proof using Hp Hgids Hne.
  intros HL Hv. induction i as [|i IH]; cbn [mamba_scan].
  { wp_steps. split; [done|]. exists 0%nat. split_and!; [done|by apply columns_nil|apply aligned_0|lia]. }
  destruct (hl_get_in L (Z.of_nat i) Hv) as [h Hh]; [lia|].
  apply wp_bind. eapply wp_from_option; [done|]. apply wp_bind.
  eapply wp_call; [by apply (wp_lookup i)|]. intros o p' [-> Ho].
  assert (∀ P', (misaligned bs al (Z.of_nat (S i)) = false → ¬ hit_at p gids L i) → P' = p →
    wp (mamba_scan L gids bs al (Blk 0) i (replicate (length gids) []))
    (λ res p', p' = p ∧ ∃ m, (m ≤ S i)%nat ∧ Forall2 (column p L (m - 1) m) gids res ∧
       misaligned bs al (Z.of_nat m) = false ∧
       ∀ x, (m < x ≤ S i)%nat → misaligned bs al (Z.of_nat x) = false → ¬ hit_at p gids L (x - 1)) E P') as Hnext.
  { intros P' Hmiss ->. eapply wp_call; [apply IH; lia|]. intros res p' [-> (m & Hm & Hres & Hal & Hmax)].
    split; [done|]. exists m. split_and!; [lia|done|done|]. intros x Hx Hxal.
    destruct (decide (x = S i)) as [->|]; [|apply Hmax; [lia|done]].
    replace (S i - 1)%nat with i by lia. by apply Hmiss. }
  replace (Z.of_nat i + 1) with (Z.of_nat (S i)) by lia.
  destruct o as [[|b row]|]; [done| |by apply Hnext].
  destruct Ho as [Hhit Hrow]. destruct (misaligned bs al (Z.of_nat (S i))) eqn:Hmis; [by apply Hnext|].
  wp_steps. split; [done|]. exists (S i). replace (S i - 1)%nat with i by lia.
  split_and!; [done|by apply (columns_pad_append i h)|done|lia].
Qed.

Lemma wp_mamba_find max_length bs al E :
  hl_valid L → 0 < bs → 0 < al → 0 ≤ max_length → max_length / bs ≤ hl_len L →
  wp (mamba_find_longest_cache_hit L max_length gids bs al 1 1)
    (λ res p', p' = p ∧ ∃ m, Forall2 (column p L (m - 1) m) gids res ∧
       Z.of_nat m * bs ≤ max_length ∧ (al | Z.of_nat m * bs) ∧
       longest (λ y, y - 1)%nat bs al max_length 0 m) E p.
Proof using Hp Hgids Hne.
  intros Hv Hbs Hal Hml Hlen. unfold mamba_find_longest_cache_hit.
  do 2 (apply wp_bind, wp_assert; [done|]). wp_steps. rewrite (so_null _ (pi_static _ _ Hp)).
  pose proof (Z.div_pos max_length bs Hml Hbs).
  eapply wp_call; [apply wp_mamba_scan; [lia|done]|].
  intros res p' [-> (m & Hm & Hres & Hmal & Hmax)]. split; [done|]. exists m. split_and!; [done| | |].
  - apply fits_blocks; [done|]. lia.
  - by apply misaligned_dvd.
  - intros x Hx Hdv Hfit Hhits. rewrite Nat.add_0_r in *. apply fits_blocks in Hfit; [|done].
    apply (Hmax x); [lia|by apply misaligned_dvd|]. apply Hhits. lia.
Qed.
End search.
