(* ===== verification/Coordinator.v ===== *)
(** src/vllm/v1/core/kv_cache_coordinator.py for the mode with one pool: the groups' specs, the
    coordinator's per-group calls, the free-block check, the searches without a prefix cache, of
    one group and of several groups by a fixed-point iteration, and the choice among them. *)
From S2P Require Import Prelude.
From S2P Require Import Request.
From S2P Require Import BlockHash.
From S2P Require Import FreeQueue.
From S2P Require Import BlockMap.
From S2P Require Import BlockPool.
From S2P Require Import Manager.
From S2P Require Import CacheHit.
Local Open Scope Z_scope.

(** ** The coordinator *)

(** What a KV cache group's spec tells the coordinator. Two specs are equal when all their fields
    are: [spec_fields] has those that are only compared (heads, head sizes, element type, padding
    and what the subclasses add). *)
Record KVCacheSpec := mkSpec {
  spec_block_size : Z;
  spec_kind : attention_kind;
  spec_plain_full : bool;
  spec_fields : list Z
}.

#[global] Instance kind_eq_dec : EqDecision attention_kind.
Proof. solve_decision. Defined.
#[global] Instance spec_eq_dec : EqDecision KVCacheSpec.
Proof. solve_decision. Defined.

(** [isinstance(spec, FullAttentionSpec)]. *)
Definition is_full (s : KVCacheSpec) : bool :=
  match spec_kind s with FullAttention => true | _ => false end.

(** One manager per group, all on one block pool. *)
Record KVCacheCoordinator := mkCoord {
  single_type_managers : list MG;
  co_block_pool : BlockPool
}.

Abbreviation CO := KVCacheCoordinator.

(** [KVCacheCoordinator.__init__] with the one pool of the default mode. *)
Definition coord_init (specs : list KVCacheSpec) (num_blocks : Z) (enable_caching : bool)
    (enable_kv_cache_events use_int_hashes : bool) (dcp_world_size pcp_world_size hash_block_size : Z) :
    outcome CO :=
  p ← pool_init num_blocks enable_caching hash_block_size enable_kv_cache_events use_int_hashes;
  Ret (mkCoord
    (imap (λ i s, manager_init (spec_block_size s) (spec_kind s) (spec_plain_full s) enable_caching
                    (Z.of_nat i) dcp_world_size pcp_world_size) specs) p).

(** A call on the manager at index [i]. *)
Definition on_manager {A} (i : nat) (op : M MP A) : M CO A := λ s,
  match single_type_managers s !! i with
  | None => (Raise IndexError, s)
  | Some m =>
      match op (m, co_block_pool s) with
      | (o, (m', p')) => (o, mkCoord (<[i := m']> (single_type_managers s)) p')
      end
  end.
Definition on_co_pool {A} : M P A → M CO A :=
  zoom co_block_pool (λ p s, mkCoord (single_type_managers s) p).

(** [[f(i, manager) for i, manager in enumerate(self.single_type_managers)]]. *)
Definition per_group {A} (f : nat → M MP A) : M CO (list A) :=
  n ← gets (λ s, length (single_type_managers s));
  for_fold (seq 0 n) [] (λ acc i, a ← on_manager i (f i); mret (acc ++ [a])).

(** [get_num_blocks_to_allocate_per_group]. *)
Definition get_num_blocks_to_allocate_per_group (request_id : string) (num_tokens : Z)
    (new_computed_blocks : columns) (total_computed_tokens : Z) : M CO (list Z) :=
  per_group (λ i,
    cb ← from_option_raise IndexError (new_computed_blocks !! i);
    get_num_blocks_to_allocate request_id num_tokens cb total_computed_tokens).

Definition sum_list_Z (xs : list Z) : Z := foldr Z.add 0 xs.

(** [KVCacheCoordinator.get_num_blocks_to_allocate]. *)
Definition co_get_num_blocks_to_allocate (request_id : string) (num_tokens : Z)
    (new_computed_blocks : columns) (total_computed_tokens : Z) : M CO Z :=
  per ← get_num_blocks_to_allocate_per_group request_id num_tokens new_computed_blocks
    total_computed_tokens;
  mret (sum_list_Z per).

(** [has_enough_free_blocks], with a single shared pool. *)
Definition has_enough_free_blocks (request_id : string) (num_tokens : Z)
    (new_computed_blocks : columns) (total_computed_tokens : Z) : M CO bool :=
  per ← get_num_blocks_to_allocate_per_group request_id num_tokens new_computed_blocks
    total_computed_tokens;
  free ← on_co_pool (gets get_num_free_blocks);
  mret (sum_list_Z per <=? free).

(** [KVCacheCoordinator.allocate_new_computed_blocks]. *)
Definition co_allocate_new_computed_blocks (request_id : string) (new_computed_blocks : columns)
    (num_local_computed_tokens num_external_computed_tokens : Z) : M CO unit :=
  per_group (λ i,
    cb ← from_option_raise IndexError (new_computed_blocks !! i);
    allocate_new_computed_blocks request_id cb num_local_computed_tokens
      num_external_computed_tokens) ;;
  mret tt.

(** [KVCacheCoordinator.allocate_new_blocks]. *)
Definition co_allocate_new_blocks (request_id : string) (num_tokens : Z) : M CO columns :=
  per_group (λ _, allocate_new_blocks request_id num_tokens).

(** [KVCacheCoordinator.free]. *)
Definition co_free (request_id : string) : M CO unit :=
  per_group (λ _, free_request request_id) ;; mret tt.

(** [KVCacheCoordinator.remove_skipped_blocks]. *)
Definition co_remove_skipped_blocks (request_id : string) (total_computed_tokens : Z) : M CO unit :=
  per_group (λ _, remove_skipped_blocks request_id total_computed_tokens) ;; mret tt.

(** [KVCacheCoordinator.get_num_common_prefix_blocks]. *)
Definition co_get_num_common_prefix_blocks (running_request_id : string) : M CO (list Z) :=
  per_group (λ _, get_num_common_prefix_blocks running_request_id).

(** [KVCacheCoordinator.get_blocks]. *)
Definition get_blocks (request_id : string) (s : CO) : columns :=
  (λ m, default [] (req_to_blocks m !! request_id)) <$> single_type_managers s.

(** [KVCacheCoordinator.cache_blocks], which also writes to the request. *)
Abbreviation COR := (KVCacheCoordinator * Request)%type.
Definition on_coord {A} : M CO A → M COR A := zoom fst (λ c s, (c, s.2)).

Definition on_manager_request {A} (i : nat) (op : M MPR A) : M COR A := λ s,
  match single_type_managers s.1 !! i with
  | None => (Raise IndexError, s)
  | Some m =>
      match op (m, (co_block_pool s.1, s.2)) with
      | (o, (m', (p', r'))) => (o, (mkCoord (<[i := m']> (single_type_managers s.1)) p', r'))
      end
  end.

Definition co_cache_blocks (num_computed_tokens : Z) : M COR unit :=
  n ← gets (λ s : COR, length (single_type_managers s.1));
  for_each (seq 0 n) (λ i, on_manager_request i (cache_blocks num_computed_tokens)).

(** ** Cache hits *)

(** [find_longest_cache_hit] of the manager class that serves a spec. *)
Definition find_longest_cache_hit (s : KVCacheSpec) (block_hashes : BlockHashList) (max_length : Z)
    (kv_cache_group_ids : list Z) (use_eagle : bool)
    (alignment_tokens dcp_world_size pcp_world_size : Z) : M P (option columns) :=
  match spec_kind s with
  | FullAttention =>
      full_find_longest_cache_hit block_hashes max_length kv_cache_group_ids (spec_block_size s)
        use_eagle alignment_tokens dcp_world_size pcp_world_size
  | SlidingWindow w =>
      sliding_find_longest_cache_hit block_hashes max_length kv_cache_group_ids (spec_block_size s)
        w use_eagle alignment_tokens dcp_world_size pcp_world_size
  | ChunkedLocalAttention c =>
      res ← chunked_find_longest_cache_hit block_hashes max_length kv_cache_group_ids
        (spec_block_size s) c use_eagle alignment_tokens dcp_world_size pcp_world_size;
      mret (Some res)
  end.

(** [UnitaryKVCacheCoordinator.find_longest_cache_hit]. *)
Definition unitary_find_longest_cache_hit (s : KVCacheSpec) (use_eagle : bool)
    (dcp_world_size pcp_world_size : Z) (block_hashes : list bytes) (max_cache_hit_length : Z) :
    M P (option (columns * Z)) :=
  let block_size0 := if 1 <? dcp_world_size then spec_block_size s * dcp_world_size
                     else spec_block_size s in
  let block_size := if 1 <? pcp_world_size then block_size0 * pcp_world_size else block_size0 in
  o ← find_longest_cache_hit s (PlainHashes block_hashes) max_cache_hit_length [0] use_eagle
        block_size dcp_world_size pcp_world_size;
  match o with
  | None => mret None
  | Some hit_blocks =>
      n ← of_outcome (first_len hit_blocks);
      mret (Some (hit_blocks, n * block_size))
  end.

(** [HybridKVCacheCoordinator.verify_and_split_kv_cache_groups]: the ids of the groups with
    each spec, in order of first occurrence. *)
Fixpoint add_group (i : Z) (s : KVCacheSpec) (gs : list (KVCacheSpec * list Z)) :
    list (KVCacheSpec * list Z) :=
  match gs with
  | [] => [(s, [i])]
  | (s', ids) :: gs' => if decide (s' = s) then (s', ids ++ [i]) :: gs' else (s', ids) :: add_group i s gs'
  end.
Fixpoint split_groups (i : Z) (specs : list KVCacheSpec) (gs : list (KVCacheSpec * list Z)) :
    list (KVCacheSpec * list Z) :=
  match specs with
  | [] => gs
  | s :: specs' => split_groups (i + 1) specs' (add_group i s gs)
  end.

(** [lcm( *block_sizes)]. *)
Definition lcm_list (xs : list Z) : Z := foldr Z.lcm 1 xs.

(** The attention groups, full attention first (the sort is stable), and the LCM of their
    block sizes. *)
Definition verify_and_split_kv_cache_groups (specs : list KVCacheSpec) :
    outcome (list (KVCacheSpec * list Z) * Z) :=
  let attention_groups := split_groups 0 specs [] in
  if (Z.of_nat (length attention_groups) <=? 1) then Raise AssertionError
  else Ret (filter (λ g, is_full g.1 = true) attention_groups ++
            filter (λ g, is_full g.1 = false) attention_groups,
            lcm_list ((λ g : KVCacheSpec * list Z, spec_block_size g.1) <$> attention_groups)).

(** One pass of the [for] loop over the attention groups: the candidate length and the hit
    blocks by group id; [None] when an alignment loop ran out of rounds. *)
Abbreviation group_blocks := (list (option (list bref))).

Definition store_hits (group_ids : list Z) (hit_blocks : columns) (by_group : group_blocks) :
    group_blocks :=
  foldl (λ acc x, <[Z.to_nat x.1 := Some x.2]> acc) by_group (zip group_ids hit_blocks).

Definition hybrid_group (block_hashes : list bytes) (hash_block_size : Z) (use_eagle : bool)
    (lcm_block_size : Z) (acc : option (Z * group_blocks)) (g : KVCacheSpec * list Z) :
    M P (option (Z * group_blocks)) :=
  match acc with
  | None => mret None
  | Some (curr_hit_length, by_group) =>
      let '(spec, group_ids) := g in
      gid ← from_option_raise IndexError (head group_ids);
      cached_blocks ← from_option_raise IndexError (by_group !! Z.to_nat gid);
      if is_full spec && bool_decide (is_Some cached_blocks) then
        let num_blocks := curr_hit_length / spec_block_size spec in
        mret (Some (num_blocks * spec_block_size spec, by_group))
      else
        hashes ← of_outcome (select_hashes block_hashes (spec_block_size spec) hash_block_size);
        o ← find_longest_cache_hit spec hashes curr_hit_length group_ids use_eagle
              lcm_block_size 1 1;
        match o with
        | None => mret None
        | Some hit_blocks =>
            n ← of_outcome (first_len hit_blocks);
            mret (Some (n * spec_block_size spec, store_hits group_ids hit_blocks by_group))
        end
  end.

(** The [while True] loop: the blocks found and the hit length; [None] when it needs more
    rounds than [fuel]. *)
Fixpoint hybrid_loop (fuel : nat) (groups : list (KVCacheSpec * list Z)) (block_hashes : list bytes)
    (hash_block_size : Z) (use_eagle : bool) (lcm_block_size : Z) (is_simple_hybrid : bool)
    (hit_length : Z) (by_group : group_blocks) : M P (option (group_blocks * Z)) :=
  match fuel with
  | O => mret None
  | S fuel' =>
      o ← for_fold groups (Some (hit_length, by_group))
            (hybrid_group block_hashes hash_block_size use_eagle lcm_block_size);
      match o with
      | None => mret None
      | Some (curr_hit_length, by_group') =>
          if hit_length <=? curr_hit_length then mret (Some (by_group', hit_length))
          else if is_simple_hybrid then mret (Some (by_group', curr_hit_length))
          else hybrid_loop fuel' groups block_hashes hash_block_size use_eagle lcm_block_size
                 is_simple_hybrid curr_hit_length by_group'
      end
  end.

(** [HybridKVCacheCoordinator.find_longest_cache_hit]. *)
Definition hybrid_find_longest_cache_hit (groups : list (KVCacheSpec * list Z)) (num_groups : nat)
    (hash_block_size : Z) (use_eagle : bool) (lcm_block_size : Z) (block_hashes : list bytes)
    (max_cache_hit_length : Z) : M P (option (columns * Z)) :=
  let first_full := match groups with (s, _) :: _ => is_full s | [] => false end in
  let is_simple_hybrid := (length groups =? 2)%nat && first_full in
  o ← hybrid_loop (S (Z.to_nat max_cache_hit_length)) groups block_hashes hash_block_size use_eagle
        lcm_block_size is_simple_hybrid max_cache_hit_length (replicate num_groups None);
  match o with
  | None => mret None
  | Some (by_group, hit_length) =>
      match groups with
      | [] => raise IndexError
      | (spec, group_ids) :: _ =>
          let by_group' :=
            if is_full spec then
              let num_blocks := hit_length / spec_block_size spec in
              foldl (λ acc gid, alter (fmap (take (Z.to_nat num_blocks))) (Z.to_nat gid) acc)
                by_group group_ids
            else by_group in
          mret (Some (default [] <$> by_group', hit_length))
      end
  end.

(** [KVCacheCoordinatorNoPrefixCache.find_longest_cache_hit]. *)
Definition noprefix_find_longest_cache_hit (num_single_type_manager : nat) (block_hashes : list bytes)
    (max_cache_hit_length : Z) : M P (option (columns * Z)) :=
  mret (Some (replicate num_single_type_manager [], 0)).

(** [get_kv_cache_coordinator]: the search of the coordinator class it chooses, after the
    checks of that class's constructor. *)
Definition get_kv_cache_coordinator (specs : list KVCacheSpec) (use_eagle enable_caching : bool)
    (dcp_world_size pcp_world_size hash_block_size : Z) :
    outcome (list bytes → Z → M P (option (columns * Z))) :=
  if negb enable_caching then Ret (noprefix_find_longest_cache_hit (length specs))
  else
    match specs with
    | [s] =>
        let block_size0 := if 1 <? dcp_world_size then spec_block_size s * dcp_world_size
                           else spec_block_size s in
        let block_size := if 1 <? pcp_world_size then block_size0 * pcp_world_size else block_size0 in
        if hash_block_size =? block_size
        then Ret (unitary_find_longest_cache_hit s use_eagle dcp_world_size pcp_world_size)
        else Raise AssertionError
    | _ =>
        if hash_block_size =? 0 then (if existsb (λ _, true) specs then Raise ZeroDivisionError else Raise AssertionError)
        else if negb (forallb (λ s, spec_block_size s mod hash_block_size =? 0) specs) then Raise AssertionError
        else if negb ((dcp_world_size =? 1) && (pcp_world_size =? 1)) then Raise AssertionError
        else
          match verify_and_split_kv_cache_groups specs with
          | Raise e => Raise e
          | Ret (groups, lcm_block_size) =>
              Ret (hybrid_find_longest_cache_hit groups (length specs) hash_block_size use_eagle lcm_block_size)
          end
    end.
