(* ===== verification/KVCacheManager.v ===== *)
(** src/vllm/v1/core/kv_cache_manager.py: [KVCacheBlocks], the lookup of computed blocks,
    [allocate_slots] with all its branches, and the calls that go through to the coordinator. *)
From S2P Require Import Prelude.
From S2P Require Import Request.
From S2P Require Import BlockHash.
From S2P Require Import FreeQueue.
From S2P Require Import BlockMap.
From S2P Require Import BlockPool.
From S2P Require Import Manager.
From S2P Require Import CacheHit.
From S2P Require Import Coordinator.
Local Open Scope Z_scope.

(** ** Block lists handed to the scheduler *)

(** [KVCacheBlocks]; [EmptyBlocks] is the manager's pre-constructed empty instance, which
    the code recognises by identity. *)
Inductive KVCacheBlocks :=
  | EmptyBlocks
  | GroupBlocks (blocks : columns).

(** [.blocks], for a manager with [n] groups. *)
Definition kb_blocks (n : nat) (b : KVCacheBlocks) : columns :=
  match b with EmptyBlocks => replicate n [] | GroupBlocks cols => cols end.

(** [KVCacheBlocks.__add__]. *)
Definition kb_add (n : nat) (a b : KVCacheBlocks) : KVCacheBlocks :=
  GroupBlocks (zip_with app (kb_blocks n a) (kb_blocks n b)).

Definition nonempty (c : list bref) : bool := match c with [] => false | _ => true end.

(** [get_block_ids]. *)
Definition kb_get_block_ids (n : nat) (h : store) (allow_none : bool) (b : KVCacheBlocks) :
    option (list (list Z)) :=
  if allow_none && negb (existsb nonempty (kb_blocks n b)) then None
  else Some ((λ group : list bref, bid_of h <$> group) <$> kb_blocks n b).

(** [block.block_hash is None and not block.is_null]. *)
Definition unhashed_block (h : store) (r : bref) : bool :=
  match h !! r with
  | Some o => match block_hash o with None => negb (is_null o) | Some _ => false end
  | None => false
  end.

(** [get_unhashed_block_ids_all_groups]. *)
Definition get_unhashed_block_ids_all_groups (n : nat) (h : store) (b : KVCacheBlocks) :
    list (list Z) :=
  (λ group : list bref, bid_of h <$> filter (λ r, unhashed_block h r = true) group) <$> kb_blocks n b.

(** [get_unhashed_block_ids], for a single group. *)
Definition get_unhashed_block_ids (n : nat) (h : store) (b : KVCacheBlocks) : outcome (list Z) :=
  match kb_blocks n b with
  | [group] => Ret (bid_of h <$> filter (λ r, match h !! r with
                                              | Some o => bool_decide (block_hash o = None)
                                              | None => false end = true) group)
  | _ => Raise AssertionError
  end.

(** [new_empty]. *)
Definition kb_new_empty (n : nat) (b : KVCacheBlocks) : KVCacheBlocks :=
  GroupBlocks (replicate (length (kb_blocks n b)) []).

(** [create_kv_cache_blocks]. *)
Definition create_kv_cache_blocks (blocks : columns) : KVCacheBlocks :=
  if existsb nonempty blocks then GroupBlocks blocks else EmptyBlocks.

(** ** The manager *)

Section manager.
Context (max_model_len : Z) (enable_caching : bool).
(** The coordinator's search, chosen by [get_kv_cache_coordinator]. *)
Context (search : list bytes → Z → M P (option (columns * Z))).

(** [get_computed_blocks]. *)
Definition get_computed_blocks : M COR (option (KVCacheBlocks * Z)) :=
  r ← gets (λ s : COR, s.2);
  if negb enable_caching || skip_reading_prefix_cache r then mret (Some (EmptyBlocks, 0))
  else
    let max_cache_hit_length := num_tokens r - 1 in
    o ← on_coord (on_co_pool (search (block_hashes r) max_cache_hit_length));
    match o with
    | None => mret None
    | Some (computed_blocks, num_new_computed_tokens) =>
        mret (Some (create_kv_cache_blocks computed_blocks, num_new_computed_tokens))
    end.

(** [allocate_slots]; [None] when the blocks do not fit. *)
Definition allocate_slots (num_new_tokens num_new_computed_tokens : Z)
    (new_computed_blocks : option KVCacheBlocks) (num_lookahead_tokens num_external_computed_tokens : Z)
    (delay_cache_blocks : bool) : M COR (option KVCacheBlocks) :=
  (if (num_new_tokens =? 0) && (num_external_computed_tokens =? 0) then raise ValueError
   else mret tt) ;;
  r ← gets (λ s : COR, s.2);
  n ← gets (λ s : COR, length (single_type_managers s.1));
  let new_computed := default EmptyBlocks new_computed_blocks in
  let new_computed_block_list := kb_blocks n new_computed in
  let num_local_computed_tokens := num_computed_tokens r + num_new_computed_tokens in
  let total_computed_tokens :=
    Z.min (num_local_computed_tokens + num_external_computed_tokens) max_model_len in
  let num_tokens_main_model := total_computed_tokens + num_new_tokens in
  let num_tokens_need_slot :=
    Z.min (num_tokens_main_model + num_lookahead_tokens) max_model_len in
  on_coord (co_remove_skipped_blocks (request_id r) total_computed_tokens) ;;
  ok ← on_coord (has_enough_free_blocks (request_id r) num_tokens_need_slot
         new_computed_block_list (num_local_computed_tokens + num_external_computed_tokens));
  if negb ok then mret None
  else
    (if match new_computed with GroupBlocks _ => true | EmptyBlocks => false end
        || (0 <? num_external_computed_tokens) then
       on_coord (co_allocate_new_computed_blocks (request_id r) new_computed_block_list
         num_local_computed_tokens num_external_computed_tokens)
     else mret tt) ;;
    new_blocks ← on_coord (co_allocate_new_blocks (request_id r) num_tokens_need_slot);
    if negb enable_caching || delay_cache_blocks then
      mret (Some (create_kv_cache_blocks new_blocks))
    else
      let num_tokens_to_cache := Z.min (total_computed_tokens + num_new_tokens) (num_tokens r) in
      co_cache_blocks num_tokens_to_cache ;;
      mret (Some (create_kv_cache_blocks new_blocks)).

(** [free]. *)
Definition kv_free : M COR unit :=
  r ← gets (λ s : COR, s.2);
  on_coord (co_free (request_id r)).

(** [cache_blocks]. *)
Definition kv_cache_blocks (num_computed_tokens : Z) : M COR unit :=
  if enable_caching then co_cache_blocks num_computed_tokens else mret tt.
End manager.

(** [evict_blocks], [reset_prefix_cache] and [take_events] go to the one pool. *)
Definition kv_evict_blocks (block_ids : list Z) : M CO unit := on_co_pool (evict_blocks block_ids).
Definition kv_reset_prefix_cache : M CO bool := on_co_pool reset_prefix_cache.
Definition kv_take_events : M CO (list KVCacheEvent) := on_co_pool take_events.

(** [get_block_ids]. *)
Definition kv_get_block_ids (request_id : string) (s : CO) : list (list Z) :=
  (λ group : list bref, bid_of (pheap (co_block_pool s)) <$> group) <$> get_blocks request_id s.

(** [take_new_block_ids]. *)
Definition kv_take_new_block_ids : M CO (list Z) :=
  ids ← per_group (λ _, on_mgr take_new_block_ids);
  mret (concat ids).
