(* ===== verification/HitSpecs.v ===== *)
(** One specification for the cache searches of all kinds of attention: which blocks a hit of
    a given length needs, which lengths are acceptable, and that the search finds the longest. *)
From S2P Require Import Prelude.
From S2P Require Import Request.
From S2P Require Import BlockHash.
From S2P Require Import FreeQueue.
From S2P Require Import BlockMap.
From S2P Require Import BlockPool.
From S2P Require Import PoolInv.
From S2P Require Import PoolCache.
From S2P Require Import PoolSteps.
From S2P Require Import Manager.
From S2P Require Import ManagerInv.
From S2P Require Import ManagerSteps.
From S2P Require Import CacheHit.
From S2P Require Import Coordinator.
Local Open Scope Z_scope.

(** ** Hash lists *)

(** A list that covers [t] tokens at the hash granularity covers them at the granularity of
    the blocks. *)
Lemma select_hashes_len hs b h t :
  0 ≤ t → 0 < h → 0 < b → (h | b) → t / h ≤ Z.of_nat (length hs) →
  t / b ≤ Z.of_nat (length hs) ∧
  ∃ L, select_hashes hs b h = Ret L ∧ t / b ≤ hl_len L.
Proof.
  intros Ht Hh Hb Hdiv Hlen. assert (t / b ≤ Z.of_nat (length hs)) as Hle.
  { pose proof (Z.divide_pos_le h b Hb Hdiv). pose proof (Z.div_le_compat_l t h b). lia. }
  split; [done|]. unfold select_hashes. destruct (Z.eqb_spec b h) as [->|Hne]; [by eexists|].
  rewrite (proj2 (Z.eqb_neq h 0)) by lia. rewrite (proj2 (Z.mod_divide b h ltac:(lia)) Hdiv). simpl.
  destruct Hdiv as [q ->]. rewrite Z.div_mul by lia. rewrite (proj2 (Z.eqb_neq q 0)) by nia.
  eexists. split; [done|]. simpl. unfold scaled_len.
  rewrite Z.mul_comm, <-Z.div_div by nia. apply Z.div_le_mono; [nia|done].
Qed.

(** ** What a hit must hold *)

(** The first block that attention of kind [k] still reads when [n] blocks are computed. *)
Definition first_needed (k : attention_kind) (bs : Z) (n : nat) : nat :=
  Z.to_nat (get_num_skipped_tokens k (Z.of_nat n * bs) / bs).

(** [n] blocks are usable: every block that is still read is cached in every group. *)
Definition accepts (p : P) (gids : list Z) (L : BlockHashList) (k : attention_kind) (bs : Z) (n : nat) : Prop :=
  ∀ i, (first_needed k bs n ≤ i < n)%nat → hit_at p gids L i.

(** The columns of a hit of [n] blocks: null blocks only where nothing is read. *)
Definition usable (p : P) (gids : list Z) (L : BlockHashList) (k : attention_kind) (bs : Z) (n : nat)
    (res : columns) : Prop :=
  ∃ s, (s ≤ first_needed k bs n)%nat ∧ Forall2 (column p L s n) gids res.

(** What the search of one kind asks of its arguments. *)
Definition search_ok (k : attention_kind) (bs al : Z) (eagle : bool) : Prop :=
  match k with
  | FullAttention => True
  | SlidingWindow w => 2 ≤ w ∧ (eagle = true → bs = al)
  | ChunkedLocalAttention c => 0 < c ∧ (bs | c) ∧ eagle = false ∧ bs = al
  end.

Lemma sliding_first_needed w bs n :
  0 < bs → 2 ≤ w → first_needed (SlidingWindow w) bs n = (n - Z.to_nat (cdiv (w - 1) bs))%nat.
Proof.
  intros Hb Hw. unfold first_needed. simpl. unfold sliding_num_skipped_tokens.
  pose proof (cdiv_spec (w - 1) bs Hb) as Hc. set (q := cdiv (w - 1) bs) in *.
  assert (0 < q) by nia.
  destruct (decide (0 ≤ Z.of_nat n - q)) as [Hle|Hle].
  - rewrite Z.max_r by nia.
    assert ((Z.of_nat n * bs - w + 1) / bs = Z.of_nat n - q) as ->; [|lia].
    symmetry. apply (Z.div_unique_pos _ _ _ (Z.of_nat n * bs - w + 1 - bs * (Z.of_nat n - q))); nia.
  - assert (Z.max 0 (Z.of_nat n * bs - w + 1) / bs = 0) as ->; [|lia].
    apply Z.div_small. split; [lia|]. nia.
Qed.

Lemma chunk_div_mono a b c bs : 0 < c → 0 < bs → a ≤ b → a / c * c / bs ≤ b / c * c / bs.
Proof. intros. apply Z.div_le_mono; [lia|]. apply Z.mul_le_mono_nonneg_r; [lia|]. by apply Z.div_le_mono. Qed.

Lemma chunk_start_first_needed m c bs :
  0 ≤ m → chunk_start m c bs = Z.to_nat (m / c * c / bs).
Proof.
  intros Hm. unfold chunk_start. destruct (Z.ltb_spec 0 m); [done|]. by replace m with 0 by lia.
Qed.

Lemma chunked_first_needed c bs n :
  first_needed (ChunkedLocalAttention c) bs n = Z.to_nat (Z.of_nat n * bs / c * c / bs).
Proof. done. Qed.

(** A chunk boundary on a block boundary: what a longer prefix skips, a shorter one that
    still reaches the chunk skips too. *)
Lemma chunk_start_needed m c bs n :
  0 < bs → 0 < c → (bs | c) → 0 ≤ m → (chunk_start m c bs ≤ n)%nat → Z.of_nat n * bs ≤ m →
  (chunk_start m c bs ≤ first_needed (ChunkedLocalAttention c) bs n)%nat.
Proof.
  intros Hb Hc [q ->] Hm Hn Hle. rewrite chunked_first_needed, chunk_start_first_needed in * by done.
  assert (m / (q * bs) * (q * bs) / bs = m / (q * bs) * q) as Hd.
  { rewrite Z.mul_assoc, Z.div_mul by lia. done. }
  rewrite Hd in *. rewrite !(Z.mul_comm q bs), Z.mul_assoc in *.
  assert (0 ≤ m / (bs * q) * q) by (apply Z.mul_nonneg_nonneg; [apply Z.div_pos; nia|nia]).
  assert (m / (bs * q) ≤ Z.of_nat n * bs / (bs * q)) as Hq.
  { apply Z.div_le_lower_bound; [nia|]. nia. }
  apply Z2Nat.inj_le; [lia|apply Z.div_pos; [|lia]; apply Z.mul_nonneg_nonneg; [apply Z.mul_nonneg_nonneg; [apply Z.div_pos; nia|lia]|nia]|].
  apply Z.div_le_lower_bound; [lia|]. nia.
Qed.

Section find.
Context (p : P) (l : list bref) (gids : list Z) (L : BlockHashList).
Hypothesis Hp : pool_inv p l.
Hypothesis Hgids : ∀ g, g ∈ gids → 0 ≤ g < 2 ^ 32.
Hypothesis Hne : gids ≠ [].
Hypothesis HL : hl_valid L.

(** What the search of any kind answers. *)
Definition found (k : attention_kind) (bs al max_length : Z) (eagle : bool) (res : columns) (n : nat) : Prop :=
  usable p gids L k bs n res ∧ Z.of_nat n * bs ≤ max_length ∧ (al | Z.of_nat n * bs) ∧
  (eagle = false → ∀ x, (al | Z.of_nat x * bs) → Z.of_nat x * bs ≤ max_length →
     accepts p gids L k bs x → (x ≤ n)%nat).

Lemma wp_find sp max_length (eagle : bool) al E :
  let bs := spec_block_size sp in
  0 < bs → 0 < al → 0 ≤ max_length → max_length / bs ≤ hl_len L → search_ok (spec_kind sp) bs al eagle →
  wp (find_longest_cache_hit sp L max_length gids eagle al 1 1)
    (λ o p', p' = p ∧ ∃ res n, o = Some res ∧ found (spec_kind sp) bs al max_length eagle res n) E p.
Proof using Hp Hgids Hne HL.
  intros bs Hb Hal Hm Hlen Hok. unfold find_longest_cache_hit.
  assert (∀ m x, ¬ (m < x)%nat → (x ≤ m)%nat) as Hnlt by (intros; lia).
  destruct (spec_kind sp) as [|w|c]; simpl in Hok.
  - eapply wp_call; [by eapply (wp_full_find p l)|]. change (1 * 1) with 1. cbn iota beta. fold bs.
    intros o p' (-> & res & m & -> & Hc & Hfit & Hal' & Hlong). split; [done|]. exists res, m.
    split; [done|]. split_and!; [|done|done|].
    + exists 0%nat. split; [lia|done].
    + intros -> x Hx Hxm Hacc. apply Hnlt. intros Hlt. apply (Hlong x Hlt Hx); rewrite !Nat.add_0_r; [done|].
      intros i Hi. by apply Hacc.
  - destruct Hok as [Hw Heag]. eapply wp_call; [by eapply (wp_sliding_find p l)|]. fold bs.
    intros o p' (-> & res & m & -> & Hc & Hfit & Hal' & Hlong). split; [done|]. exists res, m.
    pose proof (cdiv_spec (w - 1) bs Hb). assert (0 < cdiv (w - 1) bs) by nia.
    split; [done|]. split_and!; [|done|done|].
    + eexists. split; [|exact Hc]. rewrite sliding_first_needed by done. destruct eagle; lia.
    + intros -> x Hx Hxm Hacc. apply Hnlt. intros Hlt. apply (Hlong x Hlt Hx); rewrite !Nat.add_0_r; [done|].
      intros i Hi. apply Hacc. rewrite sliding_first_needed by done. lia.
  - destruct Hok as (Hc0 & Hdiv & -> & <-). apply wp_bind.
    eapply wp_call; [by eapply (wp_chunked_find p l)|]. fold bs.
    intros res p' (-> & m & Hst & Hc & Hfit & Hlong). wp_steps. split; [done|]. exists res, m.
    split; [done|]. split_and!; [|done|apply Z.divide_factor_r|].
    + eexists. split; [|exact Hc]. by apply chunk_start_needed.
    + intros _ x Hx Hxm Hacc. apply Hnlt. intros Hlt. apply (Hlong x Hlt Hx); rewrite !Nat.add_0_r; [done|].
      intros i Hi. apply Hacc. rewrite chunked_first_needed. rewrite chunk_start_first_needed in Hi by done.
      pose proof (chunk_div_mono (Z.of_nat x * bs) max_length c bs Hc0 Hb Hxm). lia.
Qed.
End find.

(** ** From hits to tables *)

(** A column over distinct hashes is a block table of hashed blocks, ready for adoption. *)
Lemma column_table p l L s n g c :
  pool_inv p l → column p L s n g c →
  (∀ i j h, hl_get L (Z.of_nat i) = Some h → hl_get L (Z.of_nat j) = Some h → i = j) →
  table_ok p c ∧ ∀ b, b ∈ c → b ≠ Blk 0 → is_Some (hash_of p b).
Proof.
  intros Hp [Hlen Hnull Hhit] Hinj.
  assert (∀ i b, c !! i = Some b → b ≠ Blk 0 → ∃ h, hl_get L (Z.of_nat i) = Some h ∧ genuine p g h b) as Hreal.
  { intros i b Hi Hb. pose proof (lookup_lt_Some _ _ _ Hi). destruct (decide (i < s)%nat).
    - rewrite Hnull in Hi by lia. congruence.
    - destruct (Hhit i ltac:(lia)) as (h & b' & Hh & Hb' & Hgen). rewrite Hi in Hb'. injection Hb' as <-. eauto. }
  split; [split|].
  - intros b [i Hi]%list_elem_of_lookup. destruct (decide (b = Blk 0)) as [->|Hb]; [apply null_in_blocks, Hp|].
    destruct (Hreal i b Hi Hb) as (h & _ & ? & _). done.
  - assert (c = take s c ++ drop s c) as Hc by by rewrite take_drop. rewrite Hc, filter_app.
    assert (filter (.≠ Blk 0) (take s c) = []) as ->.
    { apply elem_of_nil_inv. intros b [Hb [i Hi]%list_elem_of_lookup]%list_elem_of_filter.
      apply lookup_take_Some in Hi as [Hi Hlt]. rewrite Hnull in Hi; [congruence|done|].
      rewrite <-Hlen. by eapply lookup_lt_Some. }
    simpl. apply NoDup_filter, NoDup_alt. intros i j b Hi Hj. rewrite lookup_drop in Hi, Hj.
    pose proof (lookup_lt_Some _ _ _ Hi). pose proof (lookup_lt_Some _ _ _ Hj).
    destruct (Hhit (s + i)%nat ltac:(lia)) as (h & b' & Hh & Hb' & (_ & _ & Hk)).
    destruct (Hhit (s + j)%nat ltac:(lia)) as (h2 & b2 & Hh2 & Hb2 & (_ & _ & Hk2)).
    rewrite Hi in Hb'. injection Hb' as <-. rewrite Hj in Hb2. injection Hb2 as <-.
    rewrite Hk in Hk2. injection Hk2 as Hkey.
    unfold group_key in Hkey. apply app_inv_tail in Hkey as ->. pose proof (Hinj _ _ _ Hh Hh2). lia.
  - exists (Nat.min s n), (drop s c). split.
    + rewrite <-(take_drop s c) at 1. f_equal. apply list_eq. intros i.
      destruct (decide (i < s ∧ i < n)%nat).
      * rewrite lookup_take_lt by lia. rewrite lookup_replicate_2 by lia. apply Hnull; lia.
      * rewrite (proj2 (lookup_ge_None (take s c) i)) by (rewrite length_take; lia).
        rewrite (proj2 (lookup_ge_None (replicate _ _) i)) by (rewrite length_replicate; lia). done.
    + intros [i Hi]%list_elem_of_lookup. rewrite lookup_drop in Hi. pose proof (lookup_lt_Some _ _ _ Hi).
      destruct (Hhit (s + i)%nat ltac:(lia)) as (h & b' & _ & Hb' & (_ & Hn & _)). congruence.
  - intros b [i Hi]%list_elem_of_lookup Hb. destruct (Hreal i b Hi Hb) as (h & _ & _ & _ & ->). by eexists.
Qed.

(** ** Properties *)

(** C31: the cache search of full, sliding-window and chunked attention is exact where windows
    have at least two tokens, and with EAGLE a block size that is the alignment; chunks are
    multiples of a block size that is the alignment, without EAGLE. It returns normally and leaves
    the pool alone; the number of blocks it answers is aligned and fits; each column holds cached
    blocks of the request's hashes at their index, with null blocks only where this attention
    reads nothing; and without EAGLE no longer aligned length has all the blocks it reads cached
    in every group. *)
Theorem find_hit_exact sp p l gids L max_length eagle al :
  pool_inv p l → (∀ g, g ∈ gids → 0 ≤ g < 2 ^ 32) → gids ≠ [] → hl_valid L →
  0 < spec_block_size sp → 0 < al → 0 ≤ max_length → max_length / spec_block_size sp ≤ hl_len L →
  search_ok (spec_kind sp) (spec_block_size sp) al eagle →
  ∃ res n, find_longest_cache_hit sp L max_length gids eagle al 1 1 p = (Ret (Some res), p) ∧
    found p gids L (spec_kind sp) (spec_block_size sp) al max_length eagle res n.
Proof.
  intros Hp Hg Hne HL Hb Hal Hm Hlen Hok.
  destruct (wp_run _ _ _ (wp_find p l gids L Hp Hg Hne HL sp max_length eagle al noexc Hb Hal Hm Hlen Hok))
    as (o & p' & Hrun & -> & res & n & -> & Hf). by exists res, n.
Qed.

Lemma find_hit_exact_witness :
  ∃ res n, find_longest_cache_hit (mkSpec 2 (SlidingWindow 3) false []) (PlainHashes [[1]; [2]]) 5 [0; 1] true 2 1 1
      sample_pool = (Ret (Some res), sample_pool) ∧ Z.of_nat n * 2 ≤ 5 ∧
    found sample_pool [0; 1] (PlainHashes [[1]; [2]]) (SlidingWindow 3) 2 2 5 true res n.
Proof.
  destruct (find_hit_exact (mkSpec 2 (SlidingWindow 3) false []) sample_pool [Blk 1; Blk 2; Blk 3] [0; 1]
    (PlainHashes [[1]; [2]]) 5 true 2) as (res & n & Hrun & Hf).
  - apply sample_pool_inv.
  - intros g. rewrite !elem_of_cons, elem_of_nil. lia.
  - discriminate.
  - exact I.
  - simpl. lia.
  - lia.
  - lia.
  - vm_compute. discriminate.
  - simpl. split; [lia|reflexivity].
  - exists res, n. split; [exact Hrun|]. split; [apply Hf|exact Hf].
Defined.
