(* ===== verification/HybridHit.v ===== *)
(** The search over groups of different kinds: the iteration over the groups terminates
    because the common length decreases, and its answer is usable by every group and longest. *)
From S2P Require Import Prelude.
From S2P Require Import Request.
From S2P Require Import BlockHash.
From S2P Require Import FreeQueue.
From S2P Require Import BlockMap.
From S2P Require Import BlockPool.
From S2P Require Import PoolInv.
From S2P Require Import PoolCache.
From S2P Require Import PoolSteps.
From S2P Require Import Manager.
From S2P Require Import ManagerInv.
From S2P Require Import ManagerSteps.
From S2P Require Import CacheHit.
From S2P Require Import Coordinator.
From S2P Require Import HitSpecs.
Local Open Scope Z_scope.

Abbreviation attn_group := (KVCacheSpec * list Z)%type.

(** ** Storing and trimming by group id *)

Lemma length_store_hits ids cols bg : length (store_hits ids cols bg) = length bg.
Proof.
  unfold store_hits. generalize (zip ids cols). intros xs. revert bg.
  induction xs as [|x xs IH]; intros bg; [done|].
  cbn [foldl]. rewrite IH. apply length_insert.
Qed.

Lemma store_hits_other ids cols bg j :
  (∀ i, i ∈ ids → Z.to_nat i ≠ j) → store_hits ids cols bg !! j = bg !! j.
Proof.
  unfold store_hits. revert cols bg. induction ids as [|i ids IH]; intros [|c cols] bg Hj; simpl; try done.
  rewrite IH by (intros; apply Hj; by right). apply list_lookup_insert_ne. apply Hj. by left.
Qed.

Lemma store_hits_own ids cols bg :
  NoDup (Z.to_nat <$> ids) → (∀ i, i ∈ ids → (Z.to_nat i < length bg)%nat) → length cols = length ids →
  Forall2 (λ i c, store_hits ids cols bg !! Z.to_nat i = Some (Some c)) ids cols.
Proof.
  revert cols bg. induction ids as [|i ids IH]; intros [|c cols] bg Hnd Hlt Hlen; simplify_eq/=; constructor.
  - apply NoDup_cons in Hnd as [Hni _]. change (store_hits (i :: ids) (c :: cols) bg) with
      (store_hits ids cols (<[Z.to_nat i := Some c]> bg)).
    rewrite store_hits_other by (intros j Hj Heq; apply Hni; rewrite <-Heq; by apply list_elem_of_fmap_2).
    apply list_lookup_insert_eq, Hlt. by left.
  - apply NoDup_cons in Hnd as [_ Hnd]. apply (IH cols (<[Z.to_nat i := Some c]> bg)); [done| |lia].
    intros j Hj. rewrite length_insert. apply Hlt. by right.
Qed.

Definition trim_groups (k : nat) (ids : list Z) (bg : group_blocks) : group_blocks :=
  foldl (λ acc gid, alter (fmap (take k)) (Z.to_nat gid) acc) bg ids.

Lemma trim_other k ids bg j : (∀ i, i ∈ ids → Z.to_nat i ≠ j) → trim_groups k ids bg !! j = bg !! j.
Proof.
  unfold trim_groups. revert bg. induction ids as [|i ids IH]; intros bg Hj; simpl; [done|].
  rewrite IH by (intros; apply Hj; by right). apply list_lookup_alter_ne. apply Hj. by left.
Qed.

Lemma trim_own k ids bg cols :
  NoDup (Z.to_nat <$> ids) → Forall2 (λ i c, bg !! Z.to_nat i = Some (Some c)) ids cols →
  Forall2 (λ i c, trim_groups k ids bg !! Z.to_nat i = Some (Some c)) ids (take k <$> cols).
Proof.
  intros Hnd H. revert bg H. revert cols. induction ids as [|i ids IH]; intros cols bg H;
    inversion H as [|? c ? cols' Hc Hcs]; subst; [constructor|].
  change (trim_groups k (i :: ids) bg) with (trim_groups k ids (alter (fmap (take k)) (Z.to_nat i) bg)).
  rewrite fmap_cons. constructor.
  - apply NoDup_cons in Hnd as [Hni _].
    rewrite trim_other by (intros j Hj Heq; apply Hni; rewrite <-Heq; by apply list_elem_of_fmap_2).
    by rewrite list_lookup_alter_eq, Hc.
  - apply NoDup_cons in Hnd as [Hni Hnd]. apply IH; [done|].
    eapply Forall2_impl_in; [exact Hcs|]. intros j c' Hj Hb. rewrite list_lookup_alter_ne; [done|].
    intros Heq. apply Hni. rewrite Heq. by apply list_elem_of_fmap_2.
Qed.

(** ** The groups *)

Section hybrid.
Context (p : P) (l : list bref) (hashes : list bytes) (hbs lcm max : Z) (eagle : bool) (ng : nat).
Context (groups : list attn_group).

(** The hashes at the granularity of a group's blocks. *)
Definition hashes_of (g : attn_group) : BlockHashList :=
  match select_hashes hashes (spec_block_size g.1) hbs with Ret L => L | Raise _ => PlainHashes [] end.

Record group_ok (g : attn_group) : Prop := {
  go_size : 0 < spec_block_size g.1;
  go_hash : (hbs | spec_block_size g.1);
  go_lcm : (spec_block_size g.1 | lcm);
  go_some : g.2 ≠ [];
  go_ids : ∀ i, i ∈ g.2 → 0 ≤ i < 2 ^ 32 ∧ i < Z.of_nat ng;
  go_search : search_ok (spec_kind g.1) (spec_block_size g.1) lcm eagle
}.

Hypothesis Hp : pool_inv p l.
Hypothesis Hhbs : 0 < hbs.
Hypothesis Hlcm : 0 < lcm.
Hypothesis Hmax : 0 ≤ max.
Hypothesis Hhashes : max / hbs ≤ Z.of_nat (length hashes).
Hypothesis Hgroups : ∀ g, g ∈ groups → group_ok g.
Hypothesis Hdistinct : NoDup (Z.to_nat <$> concat groups.*2).

Lemma group_hashes g t :
  group_ok g → 0 ≤ t ≤ max →
  select_hashes hashes (spec_block_size g.1) hbs = Ret (hashes_of g) ∧ hl_valid (hashes_of g) ∧
  t / spec_block_size g.1 ≤ hl_len (hashes_of g).
Proof using Hhbs Hhashes.
  intros [H1 H2 _ _ _ _] Ht.
  destruct (select_hashes_len hashes (spec_block_size g.1) hbs t) as (_ & L & HL & Hlen); try done; [lia| |].
  { etrans; [apply (Z.div_le_mono t max); lia|done]. }
  unfold hashes_of. rewrite HL. split_and!; [done| |done]. by eapply (select_hashes_valid hashes (spec_block_size g.1) hbs).
Qed.

(** The hit of group [g], [n] blocks long, is stored. *)
Definition stored (bg : group_blocks) (g : attn_group) (n : nat) : Prop :=
  ∃ cols, Forall2 (λ i c, bg !! Z.to_nat i = Some (Some c)) g.2 cols ∧
    usable p g.2 (hashes_of g) (spec_kind g.1) (spec_block_size g.1) n cols.

(** [t] tokens are cached in every group. *)
Definition common (t : Z) : Prop :=
  0 ≤ t ≤ max ∧ (lcm | t) ∧ ∀ g, g ∈ groups →
    accepts p g.2 (hashes_of g) (spec_kind g.1) (spec_block_size g.1) (Z.to_nat (t / spec_block_size g.1)).

(** What is known when a pass that starts with [hit] has visited [done]. *)
Record passed (hit : Z) (done : list attn_group) (curr : Z) (bg : group_blocks) : Prop := {
  pa_len : length bg = ng;
  pa_curr : 0 ≤ curr ≤ hit;
  pa_start : done = [] → curr = hit;
  pa_aligned : done ≠ [] → (lcm | curr);
  pa_stored : ∀ g, g ∈ done → ∃ n, stored bg g n ∧ curr ≤ Z.of_nat n * spec_block_size g.1 ∧
    (is_full g.1 = false → Z.of_nat n * spec_block_size g.1 ≤ hit);
  pa_last : ∀ g, last done = Some g → is_full g.1 = false →
    ∃ n, stored bg g n ∧ Z.of_nat n * spec_block_size g.1 = curr;
  pa_prior : ∀ g i, g ∈ groups → is_full g.1 = true → head g.2 = Some i → g ∉ done →
    bg !! Z.to_nat i = Some None ∨
    (lcm | hit) ∧ ∃ n, stored bg g n ∧ hit ≤ Z.of_nat n * spec_block_size g.1;
  pa_complete : eagle = false → ∀ t, common t → t ≤ curr
}.

(** Groups have no id in common. *)
Lemma groups_disjoint g g' i i' :
  g ∈ groups → g' ∈ groups → i ∈ g.2 → i' ∈ g'.2 → Z.to_nat i = Z.to_nat i' → g = g'.
Proof using Hdistinct.
  clear Hgroups. induction groups as [|h gs IH]; [by intros ?%elem_of_nil|].
  intros Hg Hg' Hi Hi' Heq. rewrite fmap_cons in Hdistinct. simpl in Hdistinct.
  rewrite fmap_app in Hdistinct. apply NoDup_app in Hdistinct as (_ & Hd & Hnd).
  assert (∀ g0 j, g0 ∈ gs → j ∈ g0.2 → Z.to_nat j ∈ Z.to_nat <$> concat gs.*2) as Hin.
  { intros g0 j Hg0 Hj. apply list_elem_of_fmap_2.
    clear -Hg0 Hj. induction gs as [|a gs IH]; [by apply elem_of_nil in Hg0|].
    rewrite fmap_cons. simpl. apply elem_of_app. apply elem_of_cons in Hg0 as [->|Hg0]; [by left|right; auto]. }
  apply elem_of_cons in Hg as [->|Hg]; apply elem_of_cons in Hg' as [->|Hg'].
  - done.
  - exfalso. apply (Hd (Z.to_nat i)); [by apply list_elem_of_fmap_2|]. rewrite Heq. by eapply Hin.
  - exfalso. apply (Hd (Z.to_nat i')); [by apply list_elem_of_fmap_2|]. rewrite <-Heq. by eapply Hin.
  - by apply IH.
Qed.

Lemma group_nodup g : g ∈ groups → NoDup (Z.to_nat <$> g.2).
Proof using Hdistinct.
  clear Hgroups. induction groups as [|h gs IH]; [by intros ?%elem_of_nil|].
  rewrite fmap_cons in Hdistinct. simpl in Hdistinct. rewrite fmap_app in Hdistinct.
  apply NoDup_app in Hdistinct as (Hh & _ & Hnd). intros [->|Hg]%elem_of_cons; [done|by apply IH].
Qed.

Lemma stored_other bg g g' n cols :
  g ∈ groups → g' ∈ groups → g' ≠ g → stored bg g' n → stored (store_hits g.2 cols bg) g' n.
Proof using Hdistinct.
  intros Hg Hg' Hne (cs & Hcs & Hu). exists cs. split; [|done]. eapply Forall2_impl_in; [exact Hcs|].
  intros i c Hi Hb. cbn beta. rewrite store_hits_other; [done|]. intros j Hj Heq.
  apply Hne. symmetry. by eapply groups_disjoint.
Qed.

Lemma aligned_blocks g t : group_ok g → (lcm | t) → t / spec_block_size g.1 * spec_block_size g.1 = t.
Proof using Type.
  clear Hhashes. intros Hok Ht. pose proof (go_size _ Hok). destruct (Z.divide_trans _ _ _ (go_lcm _ Hok) Ht) as [q ->].
  by rewrite Z.div_mul by lia.
Qed.

(** A full-attention group that was searched in an earlier pass. *)
Lemma wp_group_reuse hit dn g curr bg i c E :
  g ∈ groups → g ∉ dn → passed hit dn curr bg → is_full g.1 = true → head g.2 = Some i →
  bg !! Z.to_nat i = Some (Some c) →
  wp (hybrid_group hashes hbs eagle lcm (Some (curr, bg)) g)
    (λ o p', p' = p ∧ ∃ curr' bg', o = Some (curr', bg') ∧ passed hit (dn ++ [g]) curr' bg') E p.
Proof using Hgroups.
  intros Hg Hnd Hpa Hfull Hi Hb. pose proof Hpa as [P1 P2 P3 P4 P5 P6 P7 P8].
  destruct (P7 g i Hg Hfull Hi Hnd) as [?|(Hal & n & Hst & Hn)]; [congruence|].
  assert (lcm | curr) as Hcurr.
  { destruct dn; [by rewrite P3|by apply P4]. }
  unfold hybrid_group. destruct g as [sp ids]. simpl in *. rewrite Hi. wp_steps. simpl. wp_steps.
  rewrite Hb. simpl. wp_steps. rewrite Hfull. simpl.
  wp_steps. split; [done|]. eexists _, _. split; [done|].
  pose proof (aligned_blocks (sp, ids) curr (Hgroups _ Hg) Hcurr) as Heq. simpl in Heq. rewrite Heq.
  split; try done.
  - by destruct dn.
  - intros g [Hin| ->%list_elem_of_singleton]%elem_of_app; [by apply P5|].
    exists n. simpl. split_and!; [done|lia|congruence].
  - intros g. rewrite last_snoc. intros [= <-]. simpl. congruence.
  - intros g j Hg' Hf' Hj Hnin. apply P7; try done. intros ?. apply Hnin. apply elem_of_app. by left.
Qed.

(** Any other group is searched. *)
Lemma wp_group_search hit dn g curr bg i b E :
  g ∈ groups → g ∉ dn → (∀ g', g' ∈ dn → g' ∈ groups) → passed hit dn curr bg → hit ≤ max →
  head g.2 = Some i → bg !! Z.to_nat i = Some b → is_full g.1 && bool_decide (is_Some b) = false →
  wp (hybrid_group hashes hbs eagle lcm (Some (curr, bg)) g)
    (λ o p', p' = p ∧ ∃ curr' bg', o = Some (curr', bg') ∧ passed hit (dn ++ [g]) curr' bg') E p.
Proof using Hp Hhbs Hlcm Hhashes Hgroups Hdistinct.
  intros Hg Hnd Hdn Hpa Hhit Hi Hb Hcase. pose proof Hpa as [P1 P2 P3 P4 P5 P6 P7 P8].
  pose proof (Hgroups g Hg) as Hok. pose proof Hok as [G1 G2 G3 G4 G5 G6].
  destruct (group_hashes g curr Hok ltac:(lia)) as (Hsel & Hval & Hlen).
  unfold hybrid_group. rewrite (surjective_pairing g) at 1. cbn [fst snd]. rewrite Hi. wp_steps. simpl from_option_raise.
  wp_steps. rewrite Hb. simpl from_option_raise. wp_steps. rewrite Hcase.
  apply wp_bind. eapply wp_of_outcome; [exact Hsel|]. apply wp_bind.
  eapply wp_call; [apply (wp_find p l g.2 (hashes_of g) Hp ltac:(intros j Hj; by apply G5) G4 Hval g.1 curr eagle lcm);
    (done || lia)|].
  intros o p' (-> & res & n & -> & Hu & Hfit & Hal & Hcomp). apply wp_bind.
  assert (length res = length g.2 ∧ first_len res = Ret (Z.of_nat n)) as [Hlr Hfl].
  { destruct Hu as (s & _ & Hc). split; [symmetry; by eapply Forall2_length|]. by eapply columns_first. }
  eapply wp_of_outcome; [exact Hfl|]. wp_steps. split; [done|]. eexists _, _. split; [done|].
  assert (stored (store_hits g.2 res bg) g n) as Hown.
  { exists res. split; [|done]. apply store_hits_own; [by apply group_nodup| |done].
    intros j Hj. destruct (G5 j Hj). lia. }
  split.
  - by rewrite length_store_hits.
  - lia.
  - by destruct dn.
  - done.
  - intros g' [Hin| ->%list_elem_of_singleton]%elem_of_app.
    + destruct (P5 g' Hin) as (n' & Hst & H1 & H2). exists n'. split_and!; [|lia|done].
      apply stored_other; auto. by intros ->.
    + exists n. split_and!; [done|lia|lia].
  - intros g'. rewrite last_snoc. intros [= <-] _. eauto.
  - intros g' j Hg' Hf' Hj Hnin. rewrite elem_of_app, list_elem_of_singleton in Hnin.
    destruct (P7 g' j Hg' Hf' Hj ltac:(tauto)) as [Hnone|(Hal' & n' & Hst & Hn')].
    + left. rewrite store_hits_other; [done|]. intros j' Hj' Heq. apply Hnin. right. symmetry.
      eapply groups_disjoint; [done|done|done| |done]. by apply head_Some_elem_of.
    + right. split; [done|]. exists n'. split; [|done]. apply stored_other; auto.
  - intros He t Ht. pose proof (P8 He t Ht) as Htc. destruct Ht as (Ht0 & Htal & Hacc).
    pose proof (aligned_blocks g t Hok Htal) as Hdiv.
    assert (0 ≤ t / spec_block_size g.1) by (apply Z.div_pos; lia).
    assert (Z.to_nat (t / spec_block_size g.1) ≤ n)%nat as Hle.
    { apply Hcomp; [done|..]; rewrite ?Z2Nat.id by lia; rewrite ?Hdiv; auto. }
    nia.
Qed.

Lemma group_fresh dn g todo : groups = dn ++ g :: todo → g ∉ dn.
Proof using Hgroups Hdistinct.
  intros Hs Hin. pose proof (go_some _ (Hgroups g ltac:(rewrite Hs; in_list))) as Hne.
  destruct g.2 as [|i ids] eqn:Hids; [done|].
  rewrite Hs, fmap_app, concat_app, fmap_app in Hdistinct. apply NoDup_app in Hdistinct as (_ & Hd & _).
  apply (Hd (Z.to_nat i)).
  - apply list_elem_of_fmap_2. apply list_elem_of_split in Hin as (a & b & ->).
    rewrite fmap_app, concat_app, fmap_cons. simpl. rewrite Hids. in_list.
  - apply list_elem_of_fmap_2. rewrite fmap_cons. simpl. rewrite Hids. in_list.
Qed.

Lemma wp_pass hit bg E :
  passed hit [] hit bg → hit ≤ max →
  wp (for_fold groups (Some (hit, bg)) (hybrid_group hashes hbs eagle lcm))
    (λ o p', p' = p ∧ ∃ curr bg', o = Some (curr, bg') ∧ passed hit groups curr bg') E p.
Proof using Hp Hhbs Hlcm Hhashes Hgroups Hdistinct.
  intros Hpa Hhit.
  apply (wp_for_fold (λ dn o p', p' = p ∧ ∃ curr bg', o = Some (curr, bg') ∧ passed hit dn curr bg')).
  - split; [done|]. by exists hit, bg.
  - intros dn g todo o s' Hs (-> & curr & bg' & -> & Hpa'). pose proof (group_fresh _ _ _ Hs) as Hnd.
    assert (g ∈ groups) as Hg by (rewrite Hs; in_list).
    assert (∀ g', g' ∈ dn → g' ∈ groups) as Hdn by (intros g' ?; rewrite Hs; in_list).
    pose proof (go_some _ (Hgroups g Hg)) as Hne. destruct (head g.2) as [i|] eqn:Hi; [|by destruct g.2].
    destruct (go_ids _ (Hgroups g Hg) i ltac:(by apply head_Some_elem_of)) as [Hi0 Hi1].
    destruct (lookup_lt_is_Some_2 bg' (Z.to_nat i)) as [b Hb]; [rewrite (pa_len _ _ _ _ Hpa'); lia|].
    destruct (is_full g.1 && bool_decide (is_Some b)) eqn:Hcase.
    + apply andb_true_iff in Hcase as [Hf [c ->]%bool_decide_eq_true]. by eapply wp_group_reuse.
    + by eapply wp_group_search.
  - done.
Qed.

(** What the loop ends with. *)
Record settled (h : Z) (bg : group_blocks) : Prop := {
  se_len : length bg = ng;
  se_range : 0 ≤ h ≤ max;
  se_aligned : (lcm | h);
  se_stored : ∀ g, g ∈ groups → ∃ n, stored bg g n ∧ h ≤ Z.of_nat n * spec_block_size g.1 ∧
    (is_full g.1 = false → Z.of_nat n * spec_block_size g.1 = h);
  se_complete : eagle = false → ∀ t, common t → t ≤ h
}.

Hypothesis Hsome : groups ≠ [].

(** One pass suffices for a full-attention group and one other. *)
Definition simple (b : bool) : Prop := b = true → ∃ g0 g1, groups = [g0; g1] ∧ is_full g0.1 = true.

Lemma passed_settled hit curr bg b :
  hit ≤ max → passed hit groups curr bg → simple b → hit ≤ curr ∨ b = true → settled curr bg.
Proof using Hsome Hmax.
  intros Hhit [P1 P2 P3 P4 P5 P6 P7 P8] Hsim Hend. split; [done|lia|by apply P4| |done].
  intros g Hg. destruct (P5 g Hg) as (n & Hst & Hn & Hnf). destruct Hend as [Hle| ->].
  - exists n. split_and!; [done|done|]. intros Hf. specialize (Hnf Hf). lia.
  - destruct (Hsim eq_refl) as (g0 & g1 & Hgs & Hf0). destruct (decide (g = g1)) as [->|Hne].
    + destruct (is_full g1.1) eqn:Hf1; [exists n; by split_and!|].
      destruct (P6 g1) as (n1 & Hst1 & Hn1); [by rewrite Hgs|done|]. exists n1. split_and!; [done|lia|done].
    + exists n. split_and!; [done|done|]. rewrite Hgs in Hg.
      apply elem_of_cons in Hg as [->|Hg%list_elem_of_singleton]; [congruence|done].
Qed.

Lemma wp_hybrid_loop fuel hit bg b E :
  0 ≤ hit ≤ max → hit < Z.of_nat fuel → passed hit [] hit bg → simple b →
  wp (hybrid_loop fuel groups hashes hbs eagle lcm b hit bg)
    (λ o p', p' = p ∧ ∃ bg' h, o = Some (bg', h) ∧ settled h bg') E p.
Proof using Hp Hhbs Hlcm Hmax Hhashes Hgroups Hdistinct Hsome.
  revert hit bg. induction fuel as [|fuel IH]; intros hit bg Hhit Hfuel Hpa Hsim; [lia|]. cbn [hybrid_loop].
  apply wp_bind. eapply wp_call; [apply wp_pass; [done|lia]|].
  intros o p' (-> & curr & bg' & -> & Hpa'). cbn beta iota.
  pose proof (pa_curr _ _ _ _ Hpa') as Hcurr.
  destruct (Z.leb_spec hit curr) as [Hle|Hlt].
  { wp_steps. split; [done|]. exists bg', hit. split; [done|]. replace hit with curr by lia.
    eapply (passed_settled hit curr bg' false); [lia|done|done|by left]. }
  destruct b.
  { wp_steps. split; [done|]. exists bg', curr. split; [done|].
    eapply (passed_settled hit curr bg' true); [lia|done|done|by right]. }
  apply IH; [lia|lia| |done]. destruct Hpa' as [P1 P2 P3 P4 P5 P6 P7 P8]. split; try done; [lia|by intros g ?%elem_of_nil|].
  intros g i Hg Hf Hi _. right. split; [by apply P4|].
  destruct (P5 g Hg) as (n & Hst & Hn & _). eauto.
Qed.

Lemma passed_init bg : bg = replicate ng None → passed max [] max bg.
Proof using Hmax Hgroups.
  intros ->. split; try done.
  - apply length_replicate.
  - by intros g ?%elem_of_nil.
  - intros g i Hg Hf Hi _. left. apply lookup_replicate_2.
    destruct (go_ids _ (Hgroups g Hg) i ltac:(by apply head_Some_elem_of)). lia.
  - intros _ t [? _]. lia.
Qed.

(** Cutting the hit of a full-attention group. *)
Lemma usable_take gids L bs n k cols :
  (k ≤ n)%nat → usable p gids L FullAttention bs n cols → usable p gids L FullAttention bs k (take k <$> cols).
Proof using Type.
  clear Hhashes. intros Hk (s & Hs & Hc). change (first_needed FullAttention bs n) with 0%nat in Hs.
  assert (s = 0)%nat as -> by lia. exists 0%nat. split; [lia|]. apply Forall2_fmap_r.
  eapply Forall2_impl; [exact Hc|]. intros g c [Hl _ Hh]. split.
  - rewrite length_take. lia.
  - lia.
  - intros i Hi. destruct (Hh i ltac:(lia)) as (h & b & H1 & H2 & H3). exists h, b.
    rewrite lookup_take_lt by lia. done.
Qed.

(** The answer: for every group the blocks of the first [h] tokens, usable by its kind of
    attention. *)
Definition hybrid_answer (res : columns) (h : Z) : Prop :=
  0 ≤ h ≤ max ∧ (lcm | h) ∧ length res = ng ∧
  (∀ g, g ∈ groups → ∃ cols, Forall2 (λ i c, res !! Z.to_nat i = Some c) g.2 cols ∧
     usable p g.2 (hashes_of g) (spec_kind g.1) (spec_block_size g.1)
       (Z.to_nat (h / spec_block_size g.1)) cols) ∧
  (eagle = false → ∀ t, common t → t ≤ h).

Hypothesis Hfirst : ∀ g, g ∈ tail groups → is_full g.1 = false.

Lemma stored_answer bg g n (h : Z) :
  stored bg g n → Z.of_nat n * spec_block_size g.1 = h → 0 < spec_block_size g.1 →
  ∃ cols, Forall2 (λ i c, bg !! Z.to_nat i = Some (Some c)) g.2 cols ∧
     usable p g.2 (hashes_of g) (spec_kind g.1) (spec_block_size g.1)
       (Z.to_nat (h / spec_block_size g.1)) cols.
Proof using Type.
  clear Hhashes. intros (cols & Hc & Hu) <- Hb. exists cols. split; [done|]. by rewrite Z.div_mul, Nat2Z.id by lia.
Qed.

Lemma is_full_kind sp : is_full sp = true → spec_kind sp = FullAttention.
Proof using. unfold is_full. by destruct (spec_kind sp). Qed.

(** The columns after the truncation of the first group. *)
Lemma settled_answer h bg g0 gs :
  groups = g0 :: gs → settled h bg →
  hybrid_answer (default [] <$> (if is_full g0.1 then
    trim_groups (Z.to_nat (h / spec_block_size g0.1)) g0.2 bg else bg)) h.
Proof using Hgroups Hdistinct Hfirst Hlcm.
  intros Hgs [S1 S2 S3 S4 S5]. set (bg' := if is_full g0.1 then _ else bg).
  assert (g0 ∈ groups) as Hg0 by (rewrite Hgs; by left).
  assert (∀ g, g ∈ groups → ∃ cols, Forall2 (λ i c, bg' !! Z.to_nat i = Some (Some c)) g.2 cols ∧
     usable p g.2 (hashes_of g) (spec_kind g.1) (spec_block_size g.1)
       (Z.to_nat (h / spec_block_size g.1)) cols) as Hans.
  { intros g Hg. pose proof (go_size _ (Hgroups g Hg)) as Hb. destruct (S4 g Hg) as (n & Hst & Hn & Hnf).
    destruct (is_full g.1) eqn:Hf.
    - assert (g = g0) as -> by (rewrite Hgs in Hg; apply elem_of_cons in Hg as [|Hg]; [done|];
        rewrite Hfirst in Hf; [done|by rewrite Hgs]).
      unfold bg'. rewrite Hf. destruct Hst as (cols & Hc & Hu). eexists. split.
      + apply trim_own; [by apply group_nodup|exact Hc].
      + rewrite (is_full_kind _ Hf) in *. apply (usable_take _ _ _ n); [|done].
        apply Nat2Z.inj_le. rewrite Z2Nat.id by (apply Z.div_pos; lia).
        apply Z.div_le_upper_bound; lia.
    - destruct (stored_answer bg g n h Hst (Hnf eq_refl) Hb) as (cols & Hc & Hu). exists cols.
      split; [|done]. unfold bg'. destruct (is_full g0.1) eqn:Hf0; [|done].
      eapply Forall2_impl_in; [exact Hc|]. intros i c Hi Hbi. cbn beta. rewrite trim_other; [done|].
      intros j Hj Heq. assert (g0 = g) as <- by by eapply groups_disjoint. congruence. }
  split_and!; [lia|lia|done| | |done].
  - rewrite length_fmap. unfold bg'. destruct (is_full g0.1); [|done]. unfold trim_groups.
    clear -S1. revert bg S1. induction g0.2 as [|i ids IH]; intros bg S1; [done|]. cbn [foldl]. apply IH.
    by rewrite length_alter.
  - intros g Hg. destruct (Hans g Hg) as (cols & Hc & Hu). exists cols. split; [|done].
    eapply Forall2_impl; [exact Hc|]. intros i c Hi. cbn beta. by rewrite list_lookup_fmap, Hi.
Qed.

Lemma wp_hybrid_find E :
  wp (hybrid_find_longest_cache_hit groups ng hbs eagle lcm hashes max)
    (λ o p', p' = p ∧ ∃ res h, o = Some (res, h) ∧ hybrid_answer res h) E p.
Proof using Hp Hhbs Hlcm Hmax Hhashes Hgroups Hdistinct Hsome Hfirst.
  unfold hybrid_find_longest_cache_hit. apply wp_bind.
  eapply wp_call; [apply (wp_hybrid_loop (S (Z.to_nat max)) max); [lia|lia|by apply passed_init|]|].
  - intros [Hl Hf]%andb_true_iff. apply Nat.eqb_eq in Hl.
    destruct groups as [|[sp0 ids0] [|g1 [|? ?]]]; try done. by exists (sp0, ids0), g1.
  - intros o p' (-> & bg & h & -> & Hs). cbn beta iota.
    pose proof settled_answer as Ha. unfold trim_groups in Ha.
    destruct groups as [|[sp ids] gs]; [done|]. cbn beta iota.
    wp_steps. split; [done|]. eexists _, _. split; [done|].
    by apply (Ha h bg (sp, ids) gs).
Qed.
End hybrid.

(** ** The attention groups of a list of specs *)

(** The groups cover the ids of [specs], each under its spec, and specs do not repeat. *)
Record grouping (specs : list KVCacheSpec) (k : nat) (gs : list attn_group) : Prop := {
  gr_each : ∀ g, g ∈ gs → g.2 ≠ [] ∧ ∀ i, i ∈ g.2 → 0 ≤ i ∧ specs !! Z.to_nat i = Some g.1;
  gr_ids : concat gs.*2 ≡ₚ Z.of_nat <$> seq 0 k;
  gr_specs : NoDup gs.*1
}.

Lemma add_group_ids i s gs : concat (add_group i s gs).*2 ≡ₚ concat gs.*2 ++ [i].
Proof.
  induction gs as [|[s' ids] gs IH]; simpl; [done|]. case_decide; simpl; [|by rewrite IH, app_assoc].
  rewrite <-!app_assoc. apply Permutation_app_head, Permutation_app_comm.
Qed.

Lemma add_group_specs i s gs x : x ∈ (add_group i s gs).*1 → x = s ∨ x ∈ gs.*1.
Proof.
  induction gs as [|[s' ids] gs IH]; simpl; [rewrite list_elem_of_singleton; tauto|].
  case_decide; simpl; rewrite !elem_of_cons; [tauto|]. naive_solver.
Qed.

Lemma add_group_in i s gs g :
  g ∈ add_group i s gs → g ∈ gs ∨ (g.1 = s ∧ i ∈ g.2 ∧ ∀ j, j ∈ g.2 → j = i ∨ ∃ g', g' ∈ gs ∧ g'.1 = s ∧ j ∈ g'.2).
Proof.
  induction gs as [|[s' ids] gs IH]; simpl.
  - intros ->%list_elem_of_singleton. right. simpl. split_and!; [done|set_solver|set_solver].
  - case_decide as Hs; rewrite !elem_of_cons.
    + intros [->|?]; [|tauto]. right. simpl. split_and!; [done|set_solver|].
      intros j [Hj|Hj%list_elem_of_singleton]%elem_of_app; [|by left]. right. exists (s', ids). set_solver.
    + intros [->|[Hg|(H1 & H2 & H3)]%IH]; [tauto|tauto|]. right. split_and!; [done|done|].
      intros j Hj. destruct (H3 j Hj) as [|(g' & ? & ? & ?)]; [by left|]. right. exists g'. set_solver.
Qed.

Lemma grouping_add specs k s gs :
  grouping specs k gs → specs !! k = Some s → grouping specs (S k) (add_group (Z.of_nat k) s gs).
Proof.
  intros [G1 G2 G3] Hk. split.
  - intros g Hg. apply add_group_in in Hg as [Hg|(H1 & H2 & H3)]; [by apply G1|].
    split; [by intros H; rewrite H in H2; apply elem_of_nil in H2|].
    intros i Hi. destruct (H3 i Hi) as [->|(g' & Hg' & Hs & Hi')].
    + rewrite Nat2Z.id, H1. split; [lia|done].
    + rewrite H1, <-Hs. by apply (G1 g').
  - rewrite add_group_ids, G2, seq_S, fmap_app. done.
  - clear G1 G2 Hk. induction gs as [|[s' ids] gs IH]; simpl in *; [apply NoDup_singleton|].
    apply NoDup_cons in G3 as [Hn G3]. case_decide; simpl; apply NoDup_cons; [done|]. split; [|by apply IH].
    intros [?|?]%add_group_specs; [congruence|done].
Qed.

Lemma split_groups_grouping specs rest k gs :
  grouping specs k gs → drop k specs = rest →
  grouping specs (length specs) (split_groups (Z.of_nat k) rest gs).
Proof.
  revert k gs. induction rest as [|s rest IH]; intros k gs Hg Hd; simpl.
  - assert (length specs ≤ k)%nat as Hle.
    { assert (length (drop k specs) = 0%nat) as H by by rewrite Hd. rewrite length_drop in H. lia. }
    destruct Hg as [G1 G2 G3]. split; [done| |done].
    assert (length (concat gs.*2) = k) as Hl by by rewrite G2, length_fmap, length_seq.
    destruct (decide (length specs = k)) as [->|Hne]; [done|]. exfalso.
    assert (Z.of_nat (length specs) ∈ concat gs.*2) as Hin.
    { rewrite G2. apply list_elem_of_fmap_2, elem_of_seq. lia. }
    apply list_elem_of_concat in Hin as (ids & Hids & Hin). apply list_elem_of_fmap in Hids as (g & -> & Hg).
    destruct (G1 g Hg) as [_ H]. destruct (H _ Hin) as [_ Hlk]. rewrite Nat2Z.id in Hlk.
    apply lookup_lt_Some in Hlk. lia.
  - assert (specs !! k = Some s) as Hk.
    { rewrite <-(Nat.add_0_r k), <-lookup_drop, Hd. done. }
    replace (Z.of_nat k + 1) with (Z.of_nat (S k)) by lia. apply IH; [by apply grouping_add|].
    rewrite <-Nat.add_1_r, <-drop_drop, Hd. done.
Qed.

Lemma grouping_perm specs k gs gs' : gs ≡ₚ gs' → grouping specs k gs → grouping specs k gs'.
Proof.
  intros Hperm [G1 G2 G3]. split.
  - intros g. rewrite <-Hperm. apply G1.
  - rewrite <-G2. clear -Hperm. induction Hperm as [| |x y gs|? ? ? ? IH1 ? IH2]; simpl; [done| | |by rewrite IH2].
    + by apply Permutation_app_head.
    + rewrite !app_assoc. apply Permutation_app_tail, Permutation_app_comm.
  - by rewrite <-Hperm.
Qed.

Lemma lcm_list_div xs x : x ∈ xs → (x | lcm_list xs).
Proof.
  induction xs as [|y xs IH]; [by intros ?%elem_of_nil|]. unfold lcm_list. simpl.
  intros [->|Hx]%elem_of_cons; [apply Z.divide_lcm_l|].
  etrans; [by apply IH|]. apply Z.divide_lcm_r.
Qed.

Lemma lcm_list_pos xs : (∀ x, x ∈ xs → 0 < x) → 0 < lcm_list xs.
Proof.
  induction xs as [|y xs IH]; intros H; [done|]. unfold lcm_list. simpl.
  assert (0 < foldr Z.lcm 1 xs) by (apply IH; intros; apply H; by right).
  pose proof (H y ltac:(by left)). pose proof (Z.lcm_nonneg y (foldr Z.lcm 1 xs)).
  assert (Z.lcm y (foldr Z.lcm 1 xs) ≠ 0); [|lia]. rewrite Z.lcm_eq_0. lia.
Qed.

(** ** Properties *)

(** The hashes that a group with spec [s] looks up. *)
Definition spec_hashes (hashes : list bytes) (hbs : Z) (s : KVCacheSpec) : BlockHashList :=
  match select_hashes hashes (spec_block_size s) hbs with Ret L => L | Raise _ => PlainHashes [] end.

(** The request and configuration of a hybrid search. *)
Record hybrid_call (specs : list KVCacheSpec) (hashes : list bytes) (hbs lcm max : Z) (eagle : bool) : Prop := {
  hc_hash_size : 0 < hbs;
  hc_max : 0 ≤ max;
  hc_hashes : max / hbs ≤ Z.of_nat (length hashes);
  hc_count : Z.of_nat (length specs) ≤ 2 ^ 32;
  hc_specs : ∀ s, s ∈ specs → 0 < spec_block_size s ∧ (hbs | spec_block_size s) ∧
    search_ok (spec_kind s) (spec_block_size s) lcm eagle;
  hc_one_full : ∀ s s', s ∈ specs → s' ∈ specs → is_full s = true → is_full s' = true → s = s'
}.

Lemma verify_grouping specs groups lcm :
  verify_and_split_kv_cache_groups specs = Ret (groups, lcm) →
  grouping specs (length specs) groups ∧
  lcm = lcm_list ((λ g : attn_group, spec_block_size g.1) <$> split_groups 0 specs []) ∧
  groups ≡ₚ split_groups 0 specs [] ∧ groups ≠ [] ∧
  (∀ g, g ∈ tail groups → is_full g.1 = true → ∃ g0, head groups = Some g0 ∧ is_full g0.1 = true).
Proof.
  unfold verify_and_split_kv_cache_groups. destruct (_ <=? 1) eqn:Hlen; [done|]. intros [= <- <-].
  set (gs := split_groups 0 specs []).
  assert (grouping specs (length specs) gs) as Hgr.
  { apply (split_groups_grouping specs specs 0); [|done]. split; [by intros g ?%elem_of_nil|done|constructor]. }
  assert (filter (λ g : attn_group, is_full g.1 = true) gs ++ filter (λ g : attn_group, is_full g.1 = false) gs ≡ₚ gs)
    as Hperm.
  { clear. induction gs as [|g gs IH]; [done|]. rewrite !filter_cons. destruct (is_full g.1); simpl.
    - by rewrite IH.
    - rewrite <-Permutation_middle. by rewrite IH. }
  split_and!; [by eapply grouping_perm|done|done| |].
  { intros Hnil. rewrite Hnil in Hperm. apply Permutation_nil in Hperm. unfold gs in Hperm.
    by rewrite Hperm in Hlen. }
  intros g Hg Hf.
  destruct (filter (λ g : attn_group, is_full g.1 = true) gs) as [|g0 fs] eqn:Hfs.
  - simpl in Hg. assert (g ∈ filter (λ g : attn_group, is_full g.1 = false) gs) as Hin.
    { destruct (filter (λ g : attn_group, is_full g.1 = false) gs); [by apply elem_of_nil in Hg|by right]. }
    apply list_elem_of_filter in Hin as [? _]. congruence.
  - exists g0. split; [done|]. assert (g0 ∈ filter (λ g : attn_group, is_full g.1 = true) gs) as Hin
      by (rewrite Hfs; by left). by apply list_elem_of_filter in Hin as [? _].
Qed.

Lemma spec_in_group specs k groups i s :
  grouping specs (length specs) groups → specs !! i = Some s → k = Z.of_nat i →
  ∃ g, g ∈ groups ∧ g.1 = s ∧ k ∈ g.2.
Proof.
  intros [G1 G2 _] Hi ->. assert (Z.of_nat i ∈ concat groups.*2) as Hin.
  { rewrite G2. apply list_elem_of_fmap_2, elem_of_seq. apply lookup_lt_Some in Hi. lia. }
  apply list_elem_of_concat in Hin as (ids & Hids & Hin). apply list_elem_of_fmap in Hids as (g & -> & Hg).
  exists g. split_and!; [done| |done]. destruct (G1 g Hg) as [_ H]. destruct (H _ Hin) as [_ Hs].
  rewrite Nat2Z.id in Hs. congruence.
Qed.

Section from_specs.
Context (specs : list KVCacheSpec) (groups : list attn_group) (hashes : list bytes) (hbs lcm max : Z) (eagle : bool).
Hypothesis Hv : verify_and_split_kv_cache_groups specs = Ret (groups, lcm).
Hypothesis Hcall : hybrid_call specs hashes hbs lcm max eagle.

Lemma group_spec g : g ∈ groups → g.1 ∈ specs.
Proof using Hv.
  intros Hg. destruct (verify_grouping _ _ _ Hv) as ([G1 _ _] & _). destruct (G1 g Hg) as [Hne H].
  destruct g.2 as [|i ids]; [done|]. destruct (H i ltac:(by left)) as [_ Hs]. by eapply list_elem_of_lookup_2.
Qed.

Lemma specs_group_ok g : g ∈ groups → group_ok hbs lcm eagle (length specs) g.
Proof using Hv Hcall.
  intros Hg. destruct (verify_grouping _ _ _ Hv) as ([G1 _ _] & Hl & Hperm & _).
  destruct Hcall as [C1 C2 C3 C4 C5 C6]. destruct (C5 _ (group_spec g Hg)) as (H1 & H2 & H3).
  destruct (G1 g Hg) as [Hne H]. split; try done.
  - rewrite Hl. apply lcm_list_div. apply (list_elem_of_fmap_2 (λ g : attn_group, spec_block_size g.1)). by rewrite <-Hperm.
  - intros i Hi. destruct (H i Hi) as [Hi0 Hs]. apply lookup_lt_Some in Hs. lia.
Qed.

Lemma specs_lcm_pos : 0 < lcm.
Proof using Hv Hcall.
  destruct (verify_grouping _ _ _ Hv) as (_ & Hl & Hperm & _). rewrite Hl. apply lcm_list_pos.
  intros x (g & -> & Hg)%list_elem_of_fmap. rewrite <-Hperm in Hg.
  by destruct (hc_specs _ _ _ _ _ _ Hcall _ (group_spec g Hg)).
Qed.

Lemma specs_distinct : NoDup (Z.to_nat <$> concat groups.*2).
Proof using Hv.
  destruct (verify_grouping _ _ _ Hv) as ([_ G2 _] & _). rewrite G2, <-list_fmap_compose.
  rewrite (list_fmap_ext _ id) by (intros; simpl; apply Nat2Z.id). rewrite list_fmap_id. apply NoDup_seq.
Qed.

Lemma specs_first_full g : g ∈ tail groups → is_full g.1 = false.
Proof using Hv Hcall.
  intros Hg. destruct (is_full g.1) eqn:Hf; [|done]. exfalso.
  destruct (verify_grouping _ _ _ Hv) as ([_ _ G3] & _ & _ & _ & Hfull).
  destruct (Hfull g Hg Hf) as (g0 & Hg0 & Hf0). pose proof group_spec as Hin.
  destruct groups as [|g0' gs]; [done|]. simpl in *. injection Hg0 as ->.
  apply NoDup_cons in G3 as [Hn _]. apply Hn.
  rewrite (hc_one_full _ _ _ _ _ _ Hcall g0.1 g.1); [by apply list_elem_of_fmap_2|..|done|done];
    apply Hin; [by left|by right].
Qed.

Lemma group_of i s : specs !! i = Some s → ∃ g, g ∈ groups ∧ g.1 = s ∧ Z.of_nat i ∈ g.2.
Proof using Hv.
  intros Hi. destruct (verify_grouping _ _ _ Hv) as (Hgr & _). by eapply spec_in_group.
Qed.

(** A length cached in every group by itself is cached in the attention groups. *)
Lemma common_specs p t :
  0 ≤ t ≤ max → (lcm | t) →
  (∀ i s, specs !! i = Some s → accepts p [Z.of_nat i] (spec_hashes hashes hbs s) (spec_kind s)
     (spec_block_size s) (Z.to_nat (t / spec_block_size s))) →
  common p hashes hbs lcm max groups t.
Proof using Hv.
  intros Ht Hl Hacc. split_and!; [lia|lia|done|]. intros g Hg j Hj.
  destruct (verify_grouping _ _ _ Hv) as ([G1 _ _] & _). destruct (G1 g Hg) as [Hne H].
  assert (∀ i, i ∈ g.2 → hit_at p [i] (hashes_of hashes hbs g) j) as Hhit.
  { intros i Hi. destruct (H i Hi) as [Hi0 Hs]. rewrite <-(Z2Nat.id i Hi0). by apply (Hacc _ _ Hs). }
  destruct g.2 as [|i0 ids]; [done|]. destruct (Hhit i0 ltac:(by left)) as (h & Hh & _). exists h.
  split; [done|]. intros i Hi. destruct (Hhit i Hi) as (h' & Hh' & Hb). rewrite Hh in Hh'.
  injection Hh' as <-. apply Hb. by left.
Qed.
End from_specs.

Lemma usable_one p gids L k bs n cols i c :
  usable p gids L k bs n cols → (∃ j, gids !! j = Some i ∧ cols !! j = Some c) → usable p [i] L k bs n [c].
Proof.
  intros (s & Hs & Hc) (j & Hi & Hcj). exists s. split; [done|]. constructor; [|constructor].
  by eapply Forall2_lookup_lr.
Qed.

(** What the search over [specs] must answer: for each group the usable cached blocks of the
    same [h] tokens, and without EAGLE no longer length is cached everywhere. *)
Definition specs_answer (p : P) (specs : list KVCacheSpec) (hashes : list bytes) (hbs lcm max : Z) (eagle : bool)
    (res : columns) (h : Z) : Prop :=
  0 ≤ h ≤ max ∧ (lcm | h) ∧ length res = length specs ∧
  (∀ i s, specs !! i = Some s → ∃ c, res !! i = Some c ∧
     usable p [Z.of_nat i] (spec_hashes hashes hbs s) (spec_kind s) (spec_block_size s)
       (Z.to_nat (h / spec_block_size s)) [c]) ∧
  (eagle = false → ∀ t, 0 ≤ t ≤ max → (lcm | t) →
     (∀ i s, specs !! i = Some s → accepts p [Z.of_nat i] (spec_hashes hashes hbs s) (spec_kind s)
        (spec_block_size s) (Z.to_nat (t / spec_block_size s))) → t ≤ h).

Lemma hybrid_find_answers specs groups lcm p l hashes hbs max eagle E :
  pool_inv p l → verify_and_split_kv_cache_groups specs = Ret (groups, lcm) →
  hybrid_call specs hashes hbs lcm max eagle →
  wp (hybrid_find_longest_cache_hit groups (length specs) hbs eagle lcm hashes max)
    (λ o p', p' = p ∧ ∃ res h, o = Some (res, h) ∧ specs_answer p specs hashes hbs lcm max eagle res h) E p.
Proof.
  intros Hp Hv Hcall. pose proof Hcall as [C1 C2 C3 C4 C5 C6].
  destruct (verify_grouping _ _ _ Hv) as (_ & _ & _ & Hne & _).
  eapply wp_call; [exact (wp_hybrid_find p l hashes hbs lcm max eagle (length specs) groups Hp C1
    (specs_lcm_pos _ _ _ _ _ _ _ Hv Hcall) C2 C3 (specs_group_ok _ _ _ _ _ _ _ Hv Hcall)
    (specs_distinct _ _ _ Hv) Hne (specs_first_full _ _ _ _ _ _ _ Hv Hcall) E)|].
  intros o p' (-> & res & h & -> & (Hh & Hal & Hlen & Heach & Hcomp)). split; [done|].
  exists res, h. split; [done|]. split_and!; [lia|lia|done|done| |].
  - intros i s Hi. destruct (group_of _ _ _ Hv i s Hi) as (g & Hg & <- & Hin).
    destruct (Heach g Hg) as (cols & Hc & Hu). apply list_elem_of_lookup in Hin as [j Hj].
    destruct (Forall2_lookup_l _ _ _ _ _ Hc Hj) as (c & Hcj & Hres). rewrite Nat2Z.id in Hres.
    exists c. split; [done|]. eapply usable_one; [exact Hu|]. by exists j.
  - intros He t Ht Hlt Hacc. by apply (Hcomp He), common_specs with specs.
Qed.

(** C30: the hybrid search terminates and is exact. For every list of group specs in which the
    full-attention groups have one and the same spec and that suit the searches (windows have at
    least two tokens, and with EAGLE a block size that is the alignment; chunks are multiples of a
    block size that is the alignment, without EAGLE), every pool and every hash list, the
    iteration ends within its bound and answers, for each group, the blocks of the same number of
    tokens, a common multiple of all block sizes: cached blocks of the request's hashes, null only
    where the group's attention reads nothing. Without EAGLE no longer length is cached in all
    groups. Outside these conditions it fails ([second_full_group_not_cut],
    [chunked_hit_not_cached]). *)
Theorem hybrid_hit_exact specs groups lcm p l hashes hbs max eagle :
  pool_inv p l → verify_and_split_kv_cache_groups specs = Ret (groups, lcm) →
  hybrid_call specs hashes hbs lcm max eagle →
  ∃ res h, hybrid_find_longest_cache_hit groups (length specs) hbs eagle lcm hashes max p
      = (Ret (Some (res, h)), p) ∧ specs_answer p specs hashes hbs lcm max eagle res h.
Proof.
  intros Hp Hv Hcall.
  destruct (wp_run _ _ _ (hybrid_find_answers _ _ _ _ _ _ _ _ _ noexc Hp Hv Hcall))
    as (o & p' & Hrun & -> & res & h & -> & Hans). by exists res, h.
Qed.

(** a chunked-attention search can report tokens whose blocks are not cached. When the
    chunk size is not a multiple of the block size the blocks before the chunk of the
    longest candidate are taken as outside the window, although for the length that is
    reported they are inside it: with an empty cache, four tokens are reported as computed
    and none of them may be skipped. *)
Theorem chunked_hit_not_cached :
  find_longest_cache_hit (mkSpec 4 (ChunkedLocalAttention 6) false []) (PlainHashes [[1]; [2]]) 8 [0] false 4 1 1
    sample_pool = (Ret (Some [[Blk 0]]), sample_pool) ∧
  cached_block_hash_to_block sample_pool = ∅ ∧
  get_num_skipped_tokens (ChunkedLocalAttention 6) 4 = 0.
Proof. split_and!; vm_compute; reflexivity. Qed.

(** ** Samples *)

Lemma hybrid_hit_exact_witness :
  ∃ res h, hybrid_find_longest_cache_hit
      [(mkSpec 2 FullAttention true [], [0]); (mkSpec 4 (SlidingWindow 5) false [], [1])] 2 2 false 4
      [[1]; [2]; [3]; [4]] 8 sample_pool = (Ret (Some (res, h)), sample_pool) ∧ (4 | h).
Proof.
  destruct (hybrid_hit_exact [mkSpec 2 FullAttention true []; mkSpec 4 (SlidingWindow 5) false []]
    [(mkSpec 2 FullAttention true [], [0]); (mkSpec 4 (SlidingWindow 5) false [], [1])] 4
    sample_pool [Blk 1; Blk 2; Blk 3] [[1]; [2]; [3]; [4]] 2 8 false) as (res & h & Hrun & (_ & Hal & _)).
  - apply sample_pool_inv.
  - vm_compute. reflexivity.
  - split; try lia; try (vm_compute; done).
    + intros s. rewrite !elem_of_cons, elem_of_nil. intros [->|[->|[]]]; simpl.
      * split; [lia|]. split; [by exists 1|done].
      * split; [lia|]. split; [by exists 2|]. split; [lia|done].
    + intros s s'. rewrite !elem_of_cons, !elem_of_nil. naive_solver.
  - exists res, h. split; [exact Hrun|exact Hal].
Defined.
