(* ===== verification/CoordinatorInv.v ===== *)
(** The invariant of a coordinator: references are counted over the tables of all groups, and
    blocks that are not cached belong to one request of one group. Per-group calls keep it. *)
From S2P Require Import Prelude.
From S2P Require Import Request.
From S2P Require Import BlockHash.
From S2P Require Import FreeQueue.
From S2P Require Import BlockMap.
From S2P Require Import BlockPool.
From S2P Require Import PoolInv.
From S2P Require Import PoolCache.
From S2P Require Import PoolSteps.
From S2P Require Import Manager.
From S2P Require Import ManagerInv.
From S2P Require Import ManagerSteps.
From S2P Require Import CacheHit.
From S2P Require Import Coordinator.
Local Open Scope Z_scope.

(** ** References over all managers *)

Definition total (ms : list MG) (r : bref) : Z :=
  foldr (λ m acc, held (req_to_blocks m) r + acc) 0 ms.

Lemma total_insert ms i m m' r :
  ms !! i = Some m →
  total (<[i := m']> ms) r = total ms r - held (req_to_blocks m) r + held (req_to_blocks m') r.
Proof.
  revert i. induction ms as [|x ms IH]; intros [|i] Hi; simplify_eq/=; [lia|].
  rewrite (IH i Hi). lia.
Qed.

Lemma total_nonneg ms r : 0 ≤ total ms r.
Proof. induction ms as [|m ms IH]; simpl; [done|]. pose proof (held_nonneg (req_to_blocks m) r). lia. Qed.

Lemma total_ge ms i m r : ms !! i = Some m → held (req_to_blocks m) r ≤ total ms r.
Proof.
  revert i. induction ms as [|x ms IH]; intros [|i] Hi; simplify_eq/=.
  - pose proof (total_nonneg ms r). lia.
  - pose proof (IH i Hi). pose proof (held_nonneg (req_to_blocks x) r). lia.
Qed.

Lemma total_two ms i j m m' r :
  ms !! i = Some m → ms !! j = Some m' → i ≠ j →
  held (req_to_blocks m) r + held (req_to_blocks m') r ≤ total ms r.
Proof.
  revert i j. induction ms as [|x ms IH]; intros [|i] [|j] Hi Hj Hij; simplify_eq/=.
  - pose proof (total_ge ms j m' r Hj). lia.
  - pose proof (total_ge ms i m r Hi). lia.
  - pose proof (IH i j Hi Hj ltac:(lia)). pose proof (held_nonneg (req_to_blocks x) r). lia.
Qed.

(** What the other managers hold, and their blocks that are not cached yet. *)
Definition others (ms : list MG) (m : MG) (r : bref) : Z := total ms r - held (req_to_blocks m) r.
Definition others_fresh (ms : list MG) (i : nat) (b : bref) : Prop :=
  ∃ j m req, j ≠ i ∧ ms !! j = Some m ∧ b ∈ uncached m req ∧ b ≠ Blk 0.

(** ** The invariant *)

(** A manager's own part, apart from the reference counts. *)
Record mgr_local (m : MG) (p : P) : Prop := {
  ml_tables : ∀ req bs, req_to_blocks m !! req = Some bs → table_ok p bs;
  ml_size : 0 < block_size m;
  ml_kind : kind_ok (kind m);
  ml_suffix : suffix_ok m p;
  ml_caching : mgr_enable_caching m = enable_caching p
}.

Record coord_good (s : CO) (l : list bref) : Prop := {
  cg_pool : pool_inv (co_block_pool s) l;
  cg_refs : ∀ r, r ∈ blocks (co_block_pool s) → r ≠ Blk 0 →
    ref_of (co_block_pool s) r = total (single_type_managers s) r;
  cg_each : ∀ i m, single_type_managers s !! i = Some m → mgr_local m (co_block_pool s);
  cg_nohash : enable_caching (co_block_pool s) = false → unhashed (co_block_pool s)
}.

(** Each manager sees its own invariant, with the others as environment. *)
Lemma coord_manager s l i m :
  coord_good s l → single_type_managers s !! i = Some m →
  mgr_good (others (single_type_managers s) m) (others_fresh (single_type_managers s) i) m
    (co_block_pool s) l.
Proof.
  intros [Hp Hr He Hh] Hi. destruct (He i m Hi) as [H1 H2 H3 H4 H5]. split; [|done| |done|done].
  - split; try done; unfold others.
    + intros r Hin Hne. rewrite Hr by done. lia.
    + intros r. pose proof (total_ge _ _ _ r Hi). lia.
  - intros b (j & m' & req & Hj & Hm' & Hin & Hne). destruct (He j m' Hm') as [K1 K2 K3 K4 K5].
    destruct (sf_fresh _ _ K4 req b Hin Hne) as [Hhash Href].
    assert (b ∈ table m' req) as Hint by by apply uncached_table.
    assert (b ∈ blocks (co_block_pool s)) as Hb.
    { unfold table in Hint. destruct (req_to_blocks m' !! req) as [bs|] eqn:E;
        [by eapply tk_pool; [eapply K1|]|by apply elem_of_nil in Hint]. }
    split; try done. unfold others. rewrite Hr in Href by done.
    pose proof (total_two _ _ _ _ _ b Hi Hm' ltac:(done)). pose proof (held_nonneg (req_to_blocks m) b).
    assert (1 ≤ held (req_to_blocks m') b); [|lia].
    rewrite (held_split _ req). fold (table m' req). pose proof (occ_in _ _ Hint).
    pose proof (held_nonneg (delete req (req_to_blocks m')) b). lia.
Qed.

(** And a step of one manager that keeps its invariant keeps the coordinator's. *)
Lemma coord_update s l i m m' p' l' :
  coord_good s l → single_type_managers s !! i = Some m → frame (co_block_pool s) p' →
  mgr_good (others (single_type_managers s) m) (others_fresh (single_type_managers s) i) m' p' l' →
  coord_good (mkCoord (<[i := m']> (single_type_managers s)) p') l'.
Proof.
  intros Hc Hi Hf [Hm Hsf Ho Hn Hca]. pose proof Hc as [Hp Hr He Hh]. split; simpl; [apply Hm| | |done].
  - intros r Hin Hne. rewrite (mi_refs _ _ _ _ Hm) by done. rewrite (total_insert _ _ _ _ _ Hi).
    unfold others. lia.
  - intros j mj Hj. rewrite list_lookup_insert in Hj. case_decide as Hij.
    + destruct Hij as [<- _]. simplify_eq. split; try done; apply Hm.
    + destruct (He j mj Hj) as [H1 H2 H3 H4 H5]. assert (j ≠ i) as Hne.
      { intros ->. apply Hij. split; [done|]. by eapply lookup_lt_Some. }
      split; try done.
      * intros req bs Hreq. destruct (H1 req bs Hreq) as [T1 T2 T3]. split; [|done..].
        intros r. rewrite (frame_blocks _ _ Hf). apply T1.
      * split; [apply H4|]. intros req b Hin Hnz. destruct (Ho b) as [_ _ ? ? _]; [|done].
        by exists j, mj, req.
      * by rewrite (frame_caching _ _ Hf).
Qed.

(** ** A call per group *)

Section per_group.
Context {A : Type} (f : nat → M MP A) (s : CO).
(** What one call does to its manager, and what is known of the pool between calls. *)
Context (R : nat → MG → A → MG → Prop) (J : nat → list bref → P → Prop).

(** The managers below [k] have been served. *)
Record served (k : nat) (acc : list A) (s' : CO) : Prop := {
  sv_len : length acc = k;
  sv_num : length (single_type_managers s') = length (single_type_managers s);
  sv_frame : frame (co_block_pool s) (co_block_pool s');
  sv_done : ∀ i m, (i < k)%nat → single_type_managers s !! i = Some m →
    ∃ a m', acc !! i = Some a ∧ single_type_managers s' !! i = Some m' ∧ R i m a m';
  sv_todo : ∀ i, (k ≤ i)%nat → single_type_managers s' !! i = single_type_managers s !! i
}.

Hypothesis Hcall : ∀ i m p l ext F,
  single_type_managers s !! i = Some m → frame (co_block_pool s) p → J i l p → mgr_good ext F m p l →
  wp (f i) (λ a s', ∃ l', mgr_good ext F s'.1 s'.2 l' ∧ frame p s'.2 ∧ R i m a s'.1 ∧ J (S i) l' s'.2)
    noexc (m, p).

Lemma wp_serve i m acc s' l E :
  single_type_managers s !! i = Some m → coord_good s' l → served i acc s' → J i l (co_block_pool s') →
  wp (a ← on_manager i (f i); mret (acc ++ [a]))
    (λ acc' s'', ∃ l', coord_good s'' l' ∧ served (S i) acc' s'' ∧ J (S i) l' (co_block_pool s'')) E s'.
Proof using Hcall.
  intros Hi Hg [Hlen Hnum Hf Hdone Htodo] HJ.
  assert (single_type_managers s' !! i = Some m) as Hi' by by rewrite Htodo.
  destruct (wp_run _ _ _ (Hcall i m (co_block_pool s') l _ _ Hi Hf HJ (coord_manager _ _ _ _ Hg Hi')))
    as (a & [m' p'] & Hrun & l' & Hg' & Hfr & HR & HJ').
  assert (on_manager i (f i) s' = (Ret a, mkCoord (<[i := m']> (single_type_managers s')) p')) as Hon.
  { unfold on_manager. by rewrite Hi', Hrun. }
  apply wp_bind. unfold wp at 1. rewrite Hon. wp_steps. exists l'. simpl in *.
  split; [by eapply coord_update|]. split; [|done]. split; simpl.
  - rewrite length_app. simpl. lia.
  - by rewrite length_insert.
  - by transitivity (co_block_pool s').
  - intros j mj Hj Hmj. destruct (decide (j = i)) as [->|Hne].
    + exists a, m'. rewrite list_lookup_insert_eq by (by eapply lookup_lt_Some). simplify_eq.
      split_and!; [|done|done]. by apply list_lookup_middle.
    + destruct (Hdone j mj ltac:(lia) Hmj) as (aj & mj' & H1 & H2 & H3). exists aj, mj'.
      rewrite list_lookup_insert_ne by done. split_and!; [|done|done].
      rewrite lookup_app_l; [done|]. lia.
  - intros j Hj. rewrite list_lookup_insert_ne by lia. apply Htodo. lia.
Qed.

Lemma wp_per_group l E :
  coord_good s l → J 0 l (co_block_pool s) →
  let n := length (single_type_managers s) in
  wp (per_group f)
    (λ acc s', ∃ l', coord_good s' l' ∧ served n acc s' ∧ J n l' (co_block_pool s')) E s.
Proof using Hcall.
  intros Hg HJ n. unfold per_group. wp_steps.
  apply (wp_for_fold (λ done acc s', ∃ l', coord_good s' l' ∧ served (length done) acc s' ∧
    J (length done) l' (co_block_pool s'))).
  - exists l. split_and!; [done| |done]. split; try done. simpl. lia.
  - intros done i todo acc s' Hseq (l' & Hg' & Hsv & HJ'). apply seq_split_mid in Hseq as [-> Hlt].
    destruct (lookup_lt_is_Some_2 (single_type_managers s) (length done)) as [m Hm]; [done|].
    eapply wp_call; [by eapply wp_serve|]. intros acc' s'' Hpost.
    rewrite length_app. simpl. by rewrite Nat.add_1_r.
  - intros acc s' Hpost. by rewrite length_seq in Hpost.
Qed.
End per_group.

(** ** The coordinator's operations *)

(** Only the table of [req] may change. *)
Record only_table (req : string) (m m' : MG) : Prop := {
  ot_config : mgr_config m' = mgr_config m;
  ot_cached : num_cached_block m' = num_cached_block m;
  ot_others : ∀ req', req' ≠ req → table m' req' = table m req'
}.

(** The number of managers, and what each of them keeps. *)
Definition all_managers (R : nat → MG → MG → Prop) (s s' : CO) : Prop :=
  length (single_type_managers s') = length (single_type_managers s) ∧
  ∀ i m, single_type_managers s !! i = Some m →
    ∃ m', single_type_managers s' !! i = Some m' ∧ R i m m'.

Lemma served_all {A} (R : nat → MG → A → MG → Prop) s acc s' :
  served s R (length (single_type_managers s)) acc s' →
  all_managers (λ i m m', ∃ a, acc !! i = Some a ∧ R i m a m') s s'.
Proof.
  intros [Hlen Hnum Hf Hdone _]. split; [done|]. intros i m Hi.
  destruct (Hdone i m ltac:(by eapply lookup_lt_Some) Hi) as (a & m' & ? & ? & ?). eauto.
Qed.

(** No group has a block for [req]. *)
Definition no_blocks (s : CO) (req : string) : Prop :=
  ∀ i m, single_type_managers s !! i = Some m → table m req = [].

Lemma wp_co_remove_skipped s l req t E :
  coord_good s l → 0 ≤ t →
  wp (co_remove_skipped_blocks req t)
    (λ _ s', ∃ l', coord_good s' l' ∧ frame (co_block_pool s) (co_block_pool s') ∧
       (∀ b, hash_of (co_block_pool s') b = hash_of (co_block_pool s) b) ∧
       (no_blocks s req → l' = l) ∧ (length l ≤ length l')%nat ∧
       all_managers (λ _ m m', only_table req m m' ∧
         table m' req = skip_table m req (skip_count m req t)) s s') E s.
Proof.
  intros Hg Ht. unfold co_remove_skipped_blocks. apply wp_bind.
  eapply wp_call; [apply (wp_per_group _ s (λ _ m _ m', only_table req m m' ∧
      table m' req = skip_table m req (skip_count m req t))
    (λ _ l0 p, (∀ b, hash_of p b = hash_of (co_block_pool s) b) ∧ (no_blocks s req → l0 = l) ∧
       (length l ≤ length l0)%nat)) with (l := l)|]; [|done|done|].
  - intros i m p l0 ext F Hi Hf (HJ & Hsame & Hlen) Hm.
    eapply wp_call; [by apply (wp_remove_skipped_blocks ext m p l0 req t); [apply Hm|]|].
    intros [] [m' p'] Hs. eexists. split; [by apply (skipped_good _ _ _ _ _ _ _ _ Hm Hs)|].
    destruct Hs as [H1 H2 H3 H4 H5 H6]. simpl in *. split_and!; [apply H6| |done| | |].
    + split; [done|done|]. intros req' Hne. unfold table. by rewrite H4.
    + intros b. by rewrite (rc_hash _ _ _ H6).
    + intros Hno. rewrite (Hsame Hno). unfold skip_removed. rewrite (Hno i m Hi), take_nil.
      apply app_nil_r.
    + rewrite length_app. lia.
  - intros acc s' (l' & Hg' & Hsv & HJ & Hsame & Hlen). wp_steps. exists l'.
    split_and!; [done|apply Hsv|done|done|done|]. destruct (served_all _ _ _ _ Hsv) as [? Hall]. split; [done|].
    intros i m Hi. destruct (Hall i m Hi) as (m' & ? & a & _ & ?). eauto.
Qed.

Lemma wp_co_free s l req E :
  coord_good s l →
  wp (co_free req)
    (λ _ s', ∃ l', coord_good s' l' ∧ frame (co_block_pool s) (co_block_pool s') ∧
       (∀ b, hash_of (co_block_pool s') b = hash_of (co_block_pool s) b) ∧
       all_managers (λ _ m m', mgr_config m' = mgr_config m ∧
         req_to_blocks m' = delete req (req_to_blocks m) ∧
         num_cached_block m' = delete req (num_cached_block m)) s s') E s.
Proof.
  intros Hg. unfold co_free. apply wp_bind.
  eapply wp_call; [apply (wp_per_group _ s (λ _ m _ m', mgr_config m' = mgr_config m ∧
         req_to_blocks m' = delete req (req_to_blocks m) ∧
         num_cached_block m' = delete req (num_cached_block m))
    (λ _ _ p, ∀ b, hash_of p b = hash_of (co_block_pool s) b)) with (l := l)|]; [|done|done|].
  - intros i m p l0 ext F Hi Hf HJ Hm.
    eapply wp_call; [by apply (wp_free_request ext m p l0 req), Hm|].
    intros [] [m' p'] Hs. eexists. split; [by apply (freed_good _ _ _ _ _ _ _ Hm Hs)|].
    destruct Hs as [H1 H2 H3 H4 H5]. simpl in *. split_and!; [apply H5|done|done|done|].
    intros b. by rewrite (rc_hash _ _ _ H5).
  - intros acc s' (l' & Hg' & Hsv & HJ). wp_steps. exists l'.
    split_and!; [done|apply Hsv|done|]. destruct (served_all _ _ _ _ Hsv) as [? Hall]. split; [done|].
    intros i m Hi. destruct (Hall i m Hi) as (m' & ? & a & _ & ?). eauto.
Qed.

(** *** Estimates *)

(** The estimate of one manager. *)
Definition estimate (m : MG) (p : P) (req : string) (cb : list bref) (n t : Z) : Z :=
  if decide (is_Some (num_cached_block m !! req)) then
    Z.max (cdiv n (block_size m) - Z.of_nat (length (table m req))) 0
  else
    Z.max (cdiv n (block_size m) -
      Z.max (skipped_blocks m t) (Z.of_nat (length cb) + Z.of_nat (length (table m req)))) 0 +
    get_num_evictable_blocks (pheap p)
      (drop (Z.to_nat (skipped_blocks m t - Z.of_nat (length (table m req)))) cb).

Lemma get_num_blocks_estimate m p req cb n t :
  (is_Some (num_cached_block m !! req) → cb = []) →
  get_num_blocks_to_allocate req n cb t (m, p) = (Ret (estimate m p req cb n t), (m, p)).
Proof.
  intros Hcb. unfold get_num_blocks_to_allocate, mbind, M_bind, on_mgr, on_bp, zoom, gets.
  cbn [fst snd]. change (id m) with m. unfold estimate. fold (table m req).
  destruct (decide (is_Some (num_cached_block m !! req))) as [Hs|Hs].
  - rewrite bool_decide_eq_true_2 by done. rewrite (Hcb Hs). done.
  - rewrite bool_decide_eq_false_2 by done. fold (skipped_blocks m t).
    rewrite py_slice_from by lia. do 3 f_equal.
    replace (Z.to_nat (Z.max 0 (skipped_blocks m t - Z.of_nat (length (table m req)))))
      with (Z.to_nat (skipped_blocks m t - Z.of_nat (length (table m req)))) by lia. done.
Qed.

(** The estimates of all groups. *)
Definition estimates (s : CO) (req : string) (cbs : columns) (n t : Z) : list Z :=
  zip_with (λ m cb, estimate m (co_block_pool s) req cb n t) (single_type_managers s) cbs.

Lemma wp_estimates s l req cbs n t E :
  coord_good s l → length cbs = length (single_type_managers s) →
  (∀ i m cb, single_type_managers s !! i = Some m → cbs !! i = Some cb →
     is_Some (num_cached_block m !! req) → cb = []) →
  wp (get_num_blocks_to_allocate_per_group req n cbs t)
    (λ per s', per = estimates s req cbs n t ∧ s' = s) E s.
Proof.
  intros Hg Hlen Hcb. unfold get_num_blocks_to_allocate_per_group.
  eapply wp_call; [apply (wp_per_group _ s
    (λ i m a m', m' = m ∧ ∀ cb, cbs !! i = Some cb → a = estimate m (co_block_pool s) req cb n t)
    (λ _ _ p, p = co_block_pool s)) with (l := l)|]; [|done|done|].
  - intros i m p l0 ext F Hi Hf -> Hm.
    destruct (lookup_lt_is_Some_2 cbs i) as [cb Hcbi]; [rewrite Hlen; by eapply lookup_lt_Some|].
    apply wp_bind. eapply wp_from_option; [done|]. unfold wp.
    rewrite get_num_blocks_estimate by (by apply (Hcb i m cb)). exists l0. simpl.
    split_and!; [done|done|done| |done]. intros cb' Hcb'. by simplify_eq.
  - intros acc s' (l' & Hg' & [Hl Hnum Hf Hdone _] & HJ). split.
    + apply list_eq. intros i. unfold estimates.
      destruct (single_type_managers s !! i) as [m|] eqn:Hm.
      * assert (i < length (single_type_managers s))%nat as Hlt by by eapply lookup_lt_Some.
        destruct (Hdone i m Hlt Hm) as (a & m' & -> & _ & -> & Ha).
        destruct (lookup_lt_is_Some_2 cbs i) as [cb Hcbi]; [lia|].
        rewrite lookup_zip_with, Hm, Hcbi. simpl. by rewrite (Ha cb Hcbi).
      * rewrite lookup_zip_with, Hm. simpl. apply lookup_ge_None in Hm. apply lookup_ge_None. lia.
    + destruct s as [ms p], s' as [ms' p']. simpl in *. subst p'. f_equal. apply list_eq. intros i.
      destruct (ms !! i) as [m|] eqn:Hm.
      * destruct (Hdone i m ltac:(by eapply lookup_lt_Some) Hm) as (a & m' & _ & Hm' & -> & _). done.
      * apply lookup_ge_None in Hm. apply lookup_ge_None. lia.
Qed.

Lemma wp_has_enough s l req cbs n t E :
  coord_good s l → length cbs = length (single_type_managers s) →
  (∀ i m cb, single_type_managers s !! i = Some m → cbs !! i = Some cb →
     is_Some (num_cached_block m !! req) → cb = []) →
  wp (has_enough_free_blocks req n cbs t)
    (λ ok s', ok = (sum_list_Z (estimates s req cbs n t) <=? Z.of_nat (length l)) ∧ s' = s) E s.
Proof.
  intros Hg Hlen Hcb. unfold has_enough_free_blocks. apply wp_bind.
  eapply wp_call; [by eapply wp_estimates|]. intros per s' [-> ->].
  apply wp_bind, wp_zoom, wp_gets. rewrite (free_count _ l (cg_pool _ _ Hg)). wp_steps.
  split; [done|]. by destruct s.
Qed.

(** *** Growing every group *)

Definition needs (s : CO) (req : string) (n : Z) : list nat :=
  (λ m, missing m req n) <$> single_type_managers s.

Lemma sum_list_drop (xs : list nat) i x :
  xs !! i = Some x → sum_list (drop i xs) = (x + sum_list (drop (S i) xs))%nat.
Proof. intros Hi. by rewrite (drop_S xs x i Hi). Qed.

Lemma wp_co_allocate_new_blocks s l req n E :
  coord_good s l → (sum_list (needs s req n) ≤ length l)%nat →
  wp (co_allocate_new_blocks req n)
    (λ cols s', ∃ l', coord_good s' l' ∧ frame (co_block_pool s) (co_block_pool s') ∧
       (length l' + sum_list (needs s req n) = length l)%nat ∧
       length cols = length (single_type_managers s) ∧
       all_managers (λ i m m', only_table req m m' ∧ ∃ bs, cols !! i = Some bs ∧
         length bs = missing m req n ∧ table m' req = table m req ++ bs) s s') E s.
Proof.
  intros Hg Hsum. unfold co_allocate_new_blocks.
  eapply wp_call; [apply (wp_per_group _ s
    (λ _ m bs m', only_table req m m' ∧ length bs = missing m req n ∧ table m' req = table m req ++ bs)
    (λ i l0 _, length l0 + sum_list (needs s req n) = length l + sum_list (drop i (needs s req n)))%nat)
    with (l := l)|]; [|done|by rewrite drop_0|].
  - intros i m p l0 ext F Hi Hf HJ Hm.
    assert (needs s req n !! i = Some (missing m req n)) as Hneed.
    { unfold needs. by rewrite list_lookup_fmap, Hi. }
    rewrite (sum_list_drop _ _ _ Hneed) in HJ.
    eapply wp_call; [apply (wp_allocate_new_blocks ext m p l0 req n); [apply Hm|lia]|].
    intros bs [m' p'] [-> Hx]. eexists. split; [by apply (extended_good _ _ _ _ _ _ _ _ Hm Hx)|].
    destruct Hx as [H1 H2 H3 H4 H5]. simpl in *.
    assert (∀ x, table m' x = if decide (req = x) then table m req ++ take (missing m req n) l0 else table m x)
      as Htab by (intros x; by apply table_insert).
    split_and!; [apply H5| | | |].
    + split; [done|done|]. intros x Hx. rewrite Htab. by rewrite decide_False by done.
    + rewrite length_take. lia.
    + rewrite Htab. by rewrite decide_True by done.
    + rewrite length_drop. lia.
  - intros acc s' (l' & Hg' & Hsv & HJ). exists l'. split_and!; [done|apply Hsv| |apply Hsv|].
    + rewrite drop_ge in HJ by (unfold needs; by rewrite length_fmap). simpl in HJ. lia.
    + destruct (served_all _ _ _ _ Hsv) as [? Hall]. split; [done|].
      intros i m Hi. destruct (Hall i m Hi) as (m' & ? & a & ? & ? & ? & ?). exists m'. eauto 10.
Qed.
