(* ===== verification/AllocateSlots.v ===== *)
(** The proof of [allocate_slots]: adopting the hits of every group, the estimate split into
    adopted and new blocks, growing and caching in every group, and the whole call for new and
    running requests. *)
From S2P Require Import Prelude.
From S2P Require Import Request.
From S2P Require Import BlockHash.
From S2P Require Import FreeQueue.
From S2P Require Import BlockMap.
From S2P Require Import BlockPool.
From S2P Require Import PoolInv.
From S2P Require Import PoolCache.
From S2P Require Import PoolSteps.
From S2P Require Import Manager.
From S2P Require Import ManagerInv.
From S2P Require Import ManagerSteps.
From S2P Require Import CacheHit.
From S2P Require Import Coordinator.
From S2P Require Import HitSpecs.
From S2P Require Import KVCacheManager.
From S2P Require Import CoordinatorInv.
Local Open Scope Z_scope.

(** ** Adopting the hits of every group *)

(** The hits offered for a request that no group knows yet. *)
Record may_adopt (s : CO) (req : string) (cbs : columns) (local : Z) : Prop := {
  mo_len : length cbs = length (single_type_managers s);
  mo_each : ∀ i m cb, single_type_managers s !! i = Some m → cbs !! i = Some cb →
    may_admit m (co_block_pool s) req cb local 0 local;
  mo_nodup : NoDup (filter (.≠ Blk 0) (concat cbs))
}.

(** The blocks that each group keeps of its hit. *)
Definition kepts (s : CO) (cbs : columns) (local : Z) : columns :=
  zip_with (λ m cb, kept m cb local) (single_type_managers s) cbs.

Lemma external_need_0 m cb local : external_need m cb local 0 = 0%nat.
Proof.
  unfold external_need, external_tokens. destruct (0 <? skipped_blocks m (local + 0)); [|done].
  by rewrite (proj2 (Z.ltb_ge 0 _)) by lia.
Qed.

Lemma take_snoc {A} (xs : list A) i x : xs !! i = Some x → take (S i) xs = take i xs ++ [x].
Proof. intros H. by apply take_S_r. Qed.

Lemma may_admit_frame m p p' req cb local external n :
  may_admit m p req cb local external n → frame p p' → (∀ b, hash_of p' b = hash_of p b) →
  may_admit m p' req cb local external n.
Proof.
  intros [H1 H2 H3 [T1 T2 T3] H5 H6 H7 H8] Hf Hh. split; try done.
  - split; try done. intros r. rewrite (frame_blocks _ _ Hf). apply T1.
  - intros b Hb Hne. rewrite Hh. by apply H5.
Qed.

Lemma filter_not_concat (l : list bref) xs ys :
  filter (.∉ ys) (filter (.∉ xs) l) = filter (.∉ xs ++ ys) l.
Proof.
  rewrite list_filter_filter. apply list_filter_iff. intros r. rewrite elem_of_app. tauto.
Qed.

(** What adoption leaves in one group. *)
Record adopted_by (req : string) (cb : list bref) (local : Z) (m m' : MG) : Prop := {
  ab_config : mgr_config m' = mgr_config m;
  ab_table : table m' req = adopted m cb local;
  ab_others : ∀ x, x ≠ req → table m' x = table m x;
  ab_cached : num_cached_block m' = <[req := Z.of_nat (length (adopted m cb local))]> (num_cached_block m)
}.

Lemma wp_co_adopt s l req cbs local E :
  coord_good s l → may_adopt s req cbs local →
  wp (co_allocate_new_computed_blocks req cbs local 0)
    (λ _ s', coord_good s' (filter (.∉ concat (kepts s cbs local)) l) ∧
       frame (co_block_pool s) (co_block_pool s') ∧
       (∀ b, hash_of (co_block_pool s') b = hash_of (co_block_pool s) b) ∧
       all_managers (λ i m m', ∃ cb, cbs !! i = Some cb ∧ adopted_by req cb local m m') s s') E s.
Proof.
  intros Hg [Hlen Heach Hnd]. unfold co_allocate_new_computed_blocks. apply wp_bind.
  eapply wp_call; [apply (wp_per_group _ s
    (λ i m _ m', ∃ cb, cbs !! i = Some cb ∧ adopted_by req cb local m m')
    (λ i l0 p, l0 = filter (.∉ concat (take i (kepts s cbs local))) l ∧
       ∀ b, hash_of p b = hash_of (co_block_pool s) b)) with (l := l)|]; [|done| |].
  - intros i m p l0 ext F Hi Hf [Hl0 HJ] Hm.
    destruct (lookup_lt_is_Some_2 cbs i) as [cb Hcb]; [rewrite Hlen; by eapply lookup_lt_Some|].
    pose proof (may_admit_frame _ _ _ _ _ _ _ _ (Heach i m cb Hi Hcb) Hf HJ) as Ha.
    pose proof (admit_total _ _ _ _ _ _ _ _ _ _ Hm Ha) as Ht.
    pose proof (mg_inv _ _ _ _ _ Hm) as Hmi.
    destruct (skipped_blocks_bound m (local + 0) (mi_size _ _ _ _ Hmi) (mi_kind _ _ _ _ Hmi) Ht) as [Hsb _].
    destruct Ha as [A1 A2 A3 A4 A5 A6 A7 A8].
    apply wp_bind. eapply wp_from_option; [done|].
    eapply wp_call; [apply (wp_allocate_new_computed_blocks ext m p l0 req cb local 0); try done|].
    { rewrite external_need_0. lia. }
    intros [] [m' p'] Had. pose proof (adopts_good _ _ _ _ _ _ _ _ _ _ Hm A5 Hsb Had) as Hg'.
    destruct Had as [_ D2 D3 D4 (p1 & D5 & D6)]. rewrite external_need_0 in *. simpl in *.
    rewrite drop_0, Z.add_0_r in *. change (take 0 ?x) with (@nil bref) in *. rewrite app_nil_r in D3.
    eexists. split; [exact Hg'|]. split_and!.
    + transitivity p1; [apply D5|apply D6].
    + exists cb. split; [done|]. split; [done| | |done].
      * rewrite (table_insert _ _ _ _ req D3). by rewrite decide_True.
      * intros x Hx. rewrite (table_insert _ _ _ _ x D3). by rewrite decide_False.
    + rewrite Hl0, filter_not_concat. erewrite (take_snoc _ i (kept m cb local)).
      * by rewrite concat_app, concat_cons, app_nil_r.
      * unfold kepts. by rewrite lookup_zip_with, Hi, Hcb.
    + intros b. rewrite (ho_hash _ _ _ _ D6), decide_False, (rc_hash _ _ _ D5); [done|].
      by intros [?%elem_of_nil _].
  - split; [|done]. simpl. by rewrite filter_all by (intros; apply not_elem_of_nil).
  - intros acc s' (l' & Hg' & Hsv & HJ1 & HJ2). wp_steps.
    rewrite take_ge in HJ1 by (unfold kepts; rewrite length_zip_with; lia). subst l'.
    split_and!; [done|apply Hsv|done|]. destruct (served_all _ _ _ _ Hsv) as [? Hall]. split; [done|].
    intros i m Hi. destruct (Hall i m Hi) as (m' & ? & a & _ & ?). eauto.
Qed.

(** ** Counting *)

Lemma sum_list_Z_zip {A B} (f g h : A → B → Z) xs ys :
  (∀ x y, h x y = f x y + g x y) →
  sum_list_Z (zip_with h xs ys) = sum_list_Z (zip_with f xs ys) + sum_list_Z (zip_with g xs ys).
Proof.
  intros Hh. revert ys. induction xs as [|x xs IH]; intros [|y ys]; simpl; try done.
  rewrite Hh. specialize (IH ys). unfold sum_list_Z in *. simpl. lia.
Qed.

Lemma evictable_app h xs ys :
  get_num_evictable_blocks h (xs ++ ys) = get_num_evictable_blocks h xs + get_num_evictable_blocks h ys.
Proof. unfold get_num_evictable_blocks. rewrite filter_app, length_app. lia. Qed.

Lemma evictable_concat h cols :
  get_num_evictable_blocks h (concat cols) = sum_list_Z (get_num_evictable_blocks h <$> cols).
Proof. induction cols as [|c cols IH]; [done|]. by rewrite concat_cons, evictable_app, IH. Qed.

Lemma kepts_sublist s cbs local : concat (kepts s cbs local) `sublist_of` concat cbs.
Proof.
  unfold kepts. generalize (single_type_managers s). intros ms. revert ms.
  induction cbs as [|cb cbs IH]; intros [|m ms]; try apply sublist_nil_l; try done.
  simpl. apply sublist_app; [|apply IH]. unfold kept. apply sublist_drop.
Qed.

Lemma kepts_nodup s cbs local :
  NoDup (filter (.≠ Blk 0) (concat cbs)) → NoDup (filter (.≠ Blk 0) (concat (kepts s cbs local))).
Proof.
  intros Hnd. eapply sublist_NoDup; [exact Hnd|]. apply sublist_filter_mono, kepts_sublist.
Qed.

Lemma kepts_pool s req cbs local r :
  may_adopt s req cbs local → r ∈ concat (kepts s cbs local) → r ∈ blocks (co_block_pool s).
Proof.
  intros [Hlen Heach _] Hr. pose proof (sublist_subseteq _ _ (kepts_sublist s cbs local) r Hr) as Hin.
  apply list_elem_of_concat in Hin as (cb & Hcb & Hin).
  apply list_elem_of_lookup in Hcb as [i Hi].
  destruct (lookup_lt_is_Some_2 (single_type_managers s) i) as [m Hm].
  { rewrite <-Hlen. by eapply lookup_lt_Some. }
  apply (tk_pool _ _ (ma_blocks _ _ _ _ _ _ _ (Heach i m cb Hm Hi))), Hin.
Qed.

(** Blocks still to be allocated after adoption, per group. *)
Definition fresh_needs (s : CO) (cbs : columns) (local n : Z) : list Z :=
  zip_with (λ m cb, Z.max (cdiv n (block_size m) - Z.of_nat (length (adopted m cb local))) 0)
    (single_type_managers s) cbs.

(** The estimate of a new request is the blocks adoption takes from the free list and the
    blocks allocated afterwards. *)
Lemma new_estimates_split s l req cbs local n :
  coord_good s l → may_adopt s req cbs local →
  sum_list_Z (estimates s req cbs n local) =
  sum_list_Z (fresh_needs s cbs local n) +
  (Z.of_nat (length l) - Z.of_nat (length (filter (.∉ concat (kepts s cbs local)) l))).
Proof.
  intros Hg Hma.
  assert (estimates s req cbs n local =
    zip_with (λ m cb, Z.max (cdiv n (block_size m) - Z.of_nat (length (adopted m cb local))) 0 +
      get_num_evictable_blocks (pheap (co_block_pool s)) (kept m cb local)) (single_type_managers s) cbs) as ->.
  { apply list_eq. intros i. unfold estimates. rewrite !lookup_zip_with.
    destruct (single_type_managers s !! i) as [m|] eqn:Hm; [|done].
    destruct (cbs !! i) as [cb|] eqn:Hcb; [|done]. simpl. f_equal.
    pose proof (mo_each _ _ _ _ Hma i m cb Hm Hcb) as Ha.
    pose proof (admit_total _ _ _ _ _ _ _ _ _ _ (coord_manager _ _ _ _ Hg Hm) Ha) as Ht.
    destruct (cg_each _ _ Hg i m Hm) as [_ Hs Hk _ _].
    destruct (skipped_blocks_bound m local Hs Hk ltac:(lia)) as [Hsb _].
    destruct Ha as [A1 A2 _ _ _ _ _ _]. unfold estimate.
    rewrite decide_False by (rewrite A1; by intros []). rewrite A2, length_adopted by done.
    simpl length. rewrite Z.add_0_r, Z.sub_0_r. done. }
  rewrite (sum_list_Z_zip _ (λ m cb, get_num_evictable_blocks (pheap (co_block_pool s)) (kept m cb local)) _ _ _
    (λ _ _, eq_refl)).
  fold (fresh_needs s cbs local n). f_equal.
  pose proof (evictable_count _ _ (concat (kepts s cbs local)) (cg_pool _ _ Hg)
    (λ r, kepts_pool _ _ _ _ r Hma) (kepts_nodup _ _ _ (mo_nodup _ _ _ _ Hma))) as Hev.
  rewrite evictable_concat in Hev. unfold kepts in Hev at 1. rewrite fmap_zip in Hev. lia.
Qed.

(** ** Caching in every group *)

(** What caching [t] tokens leaves in one group, [p] being the pool in the end. *)
Record cached_group (r : Request) (t : Z) (p : P) (m m' : MG) : Prop := {
  cd_config : mgr_config m' = mgr_config m;
  cd_table : ∀ req, table m' req = table m req;
  cd_count : num_cached m' (request_id r) = Z.max (num_cached m (request_id r)) (t / block_size m);
  cd_hash : ∀ L i b h, select_hashes (block_hashes r) (block_size m) (hash_block_size p) = Ret L →
    num_cached m (request_id r) ≤ i < t / block_size m →
    table m (request_id r) !! Z.to_nat i = Some b → b ≠ Blk 0 → hl_get L i = Some h →
    hash_of p b = Some (group_key (kv_cache_group_id m) h);
  cd_keys : ∀ x, x ≠ request_id r → num_cached_block m' !! x = num_cached_block m !! x
}.

Lemma may_cache_frame m p p' r c t :
  may_cache_request m p r t → frame p p' → memo_ok (set_embeds_cache c r) →
  may_cache_request m p' (set_embeds_cache c r) t.
Proof.
  intros [H1 H2 H3 H4 H5 H6 H7 H8] Hf Hmo. pose proof Hf as [Hc _]. unfold config in Hc.
  assert (hash_block_size p' = hash_block_size p) as Hh by congruence.
  split; try done; [by rewrite (frame_caching _ _ Hf)|by rewrite Hh|by rewrite Hh].
Qed.

Lemma py_slice_empty {A} (xs : list A) a b : 0 ≤ b ≤ a → py_slice xs a b = [].
Proof.
  intros Hab. unfold py_slice, py_bound. rewrite !decide_False by lia.
  by rewrite Z2Nat.nonpos by lia.
Qed.

Lemma to_cache_fresh ext F m p l r t b :
  mgr_good ext F m p l → may_cache_request m p r t → 0 ≤ t → b ∈ to_cache m r t →
  b ∈ uncached m (request_id r).
Proof.
  intros Hg Hr Ht Hb. destruct (decide (num_cached m (request_id r) < t / block_size m)) as [Hlt|Hge].
  - by eapply to_cache_uncached.
  - unfold to_cache in Hb. rewrite py_slice_empty in Hb; [by apply elem_of_nil in Hb|].
    pose proof (mi_size _ _ _ _ (mg_inv _ _ _ _ _ Hg)). split; [apply Z.div_pos; lia|lia].
Qed.

(** A block that another group's table holds is none of the blocks this group caches. *)
Lemma other_group_kept s l i j mi mj r t req b :
  coord_good s l → single_type_managers s !! i = Some mi → single_type_managers s !! j = Some mj → i ≠ j →
  may_cache_request mi (co_block_pool s) r t → 0 ≤ t → b ∈ table mj req → b ≠ Blk 0 →
  b ∉ to_cache mi r t.
Proof.
  intros Hg Hi Hj Hij Hr Ht Hb Hne Hc. pose proof (coord_manager _ _ _ _ Hg Hi) as Hmi.
  pose proof (to_cache_fresh _ _ _ _ _ _ _ _ Hmi Hr Ht Hc) as Hu.
  destruct (sf_fresh _ _ (mg_suffix _ _ _ _ _ Hmi) _ _ Hu Hne) as [_ H1].
  apply uncached_table in Hu. pose proof (mg_inv _ _ _ _ _ (coord_manager _ _ _ _ Hg Hj)) as Hmj.
  rewrite (cg_refs _ _ Hg) in H1; [|by eapply tk_pool; [eapply table_table_ok|]|done].
  pose proof (total_two _ _ _ _ _ b Hi Hj Hij) as H2. rewrite (held_split _ (request_id r)) in H2.
  rewrite (held_split (req_to_blocks mj) req) in H2. fold (table mi (request_id r)) (table mj req) in H2.
  pose proof (occ_in _ _ Hu). pose proof (occ_in _ _ Hb).
  pose proof (held_nonneg (delete (request_id r) (req_to_blocks mi)) b).
  pose proof (held_nonneg (delete req (req_to_blocks mj)) b). lia.
Qed.

(** The groups below [k] have cached their blocks. *)
Record caching_at (s : CO) (l : list bref) (r : Request) (t : Z) (k : nat) (s' : COR) : Prop := {
  ct_request : ∃ c, s'.2 = set_embeds_cache c r;
  ct_memo : memo_ok s'.2;
  ct_good : coord_good s'.1 l;
  ct_frame : frame (co_block_pool s) (co_block_pool s'.1);
  ct_num : length (single_type_managers s'.1) = length (single_type_managers s);
  ct_done : ∀ i m, (i < k)%nat → single_type_managers s !! i = Some m →
    ∃ m', single_type_managers s'.1 !! i = Some m' ∧ cached_group r t (co_block_pool s'.1) m m';
  ct_todo : ∀ i, (k ≤ i)%nat → single_type_managers s'.1 !! i = single_type_managers s !! i
}.

Section cache_groups.
Context (s : CO) (l : list bref) (r : Request) (t : Z).
Hypothesis Ht : 0 ≤ t.
Hypothesis Hall : ∀ i m, single_type_managers s !! i = Some m → may_cache_request m (co_block_pool s) r t.

Lemma wp_cache_group i m s' E :
  single_type_managers s !! i = Some m → caching_at s l r t i s' →
  wp (on_manager_request i (cache_blocks t)) (λ _ s'', caching_at s l r t (S i) s'') E s'.
Proof using Ht Hall.
  destruct s' as [s' r']. intros Hi [[c Hr'] Hmo Hg Hf Hnum Hdone Htodo]. simpl in *. subst r'.
  assert (single_type_managers s' !! i = Some m) as Hi' by by rewrite Htodo.
  pose proof (may_cache_frame _ _ _ _ _ _ (Hall i m Hi) Hf Hmo) as Hr.
  destruct (mr_select _ _ _ _ Hr) as (L & HL & _).
  destruct (wp_run _ _ _ (wp_cache_blocks_any _ _ m _ l _ t L noexc (coord_manager _ _ _ _ Hg Hi') Hr HL))
    as ([] & [m' [p' r'']] & Hrun & c' & Hr'' & Hmo' & Hcu). simpl in *. subst r''.
  unfold wp, on_manager_request. cbn [fst snd]. rewrite Hi', Hrun. cbn [fst snd].
  pose proof Hcu as [U1 U2 U3 U4 U5 U6 U7 U8 U9].
  assert (hash_block_size p' = hash_block_size (co_block_pool s')) as Hh.
  { destruct U5 as [Hc _]. unfold config in Hc. congruence. }
  split; cbn [fst snd co_block_pool single_type_managers].
  - by eexists.
  - done.
  - by eapply coord_update.
  - by transitivity (co_block_pool s').
  - by rewrite length_insert.
  - intros j mj Hj Hmj. destruct (decide (j = i)) as [->|Hne].
    + exists m'. rewrite list_lookup_insert_eq by (by eapply lookup_lt_Some).
      assert (mj = m) as -> by congruence. split; [done|]. split; [done|done| | |done].
      * pose proof (U4 (request_id r)) as H. by rewrite decide_True in H by done.
      * intros L' x b h HL' Hx Hb Hne Hget. rewrite Hh in HL'. simpl in HL. rewrite HL in HL'.
        injection HL' as <-. by eapply U8.
    + destruct (Hdone j mj ltac:(lia) Hmj) as (mj' & H1 & [G1 G2 G3 G4 G5]). exists mj'.
      rewrite list_lookup_insert_ne by done. split; [done|]. split; [done|done|done| |done].
      intros L' x b h HL' Hx Hb Hbne Hget. rewrite Hh in HL'. rewrite U7; [by eapply G4|].
      eapply (other_group_kept _ _ i j); try done. rewrite G2. by eapply list_elem_of_lookup_2.
  - intros j Hj. rewrite list_lookup_insert_ne by lia. apply Htodo. lia.
Qed.

Lemma wp_co_cache_blocks E :
  coord_good s l → memo_ok r →
  wp (co_cache_blocks t) (λ _ s', caching_at s l r t (length (single_type_managers s)) s') E (s, r).
Proof using Ht Hall.
  intros Hg Hmo. unfold co_cache_blocks. apply wp_bind, wp_gets. cbn [fst].
  apply (wp_for_each (λ done _ s', caching_at s l r t (length done) s')).
  - split; simpl; try done; [|lia]. exists (embeds_hash_cache r). by destruct r.
  - intros done i todo s' Hseq HI. apply seq_split_mid in Hseq as [-> Hlt].
    destruct (lookup_lt_is_Some_2 (single_type_managers s) (length done)) as [m Hm]; [done|].
    eapply wp_call; [by eapply wp_cache_group|]. intros [] s'' H. rewrite length_app. simpl.
    by rewrite Nat.add_1_r.
  - intros s' H. by rewrite length_seq in H.
Qed.
End cache_groups.

(** ** Allocating the slots of a request *)

(** A text request whose hash list covers its tokens, for a coordinator that caches. *)
Record hash_ready (s : CO) (r : Request) : Prop := {
  hr_caching : enable_caching (co_block_pool s) = true;
  hr_text : mm_features r = [];
  hr_memo : memo_ok r;
  hr_size : 0 < hash_block_size (co_block_pool s);
  hr_hashes : num_tokens r / hash_block_size (co_block_pool s) ≤ Z.of_nat (length (block_hashes r));
  hr_each : ∀ i m, single_type_managers s !! i = Some m → 0 ≤ kv_cache_group_id m < 2 ^ 32 ∧
    (hash_block_size (co_block_pool s) | block_size m)
}.

Lemma hash_ready_may_cache s r i m t n :
  hash_ready s r → single_type_managers s !! i = Some m → 0 < block_size m →
  0 ≤ t ≤ num_tokens r → t ≤ n → n ≤ block_size m * Z.of_nat (length (table m (request_id r))) →
  may_cache_request m (co_block_pool s) r t.
Proof.
  intros [H1 H2 H3 H4 H5 H6] Hi Hb Ht Htn Hn. destruct (H6 i m Hi) as [Hgid Hdiv].
  destruct (select_hashes_len (block_hashes r) (block_size m) (hash_block_size (co_block_pool s)) t)
    as [K1 K2]; [lia|done|done|done| |].
  { etrans; [apply (Z.div_le_mono t (num_tokens r))|]; lia. }
  split; try done.
  pose proof (Z.mul_div_le t (block_size m) Hb). nia.
Qed.

(** What appending [bs] to the table of [r] for [n] tokens, and caching the first [tc] of
    them, leaves in one group; [p] is the pool in the end. *)
Record grown (r : Request) (n tc : Z) (caches : bool) (p : P) (bs : list bref) (m m' : MG) : Prop := {
  gw_config : mgr_config m' = mgr_config m;
  gw_len : length bs = missing m (request_id r) n;
  gw_table : table m' (request_id r) = table m (request_id r) ++ bs;
  gw_others : ∀ req, req ≠ request_id r → table m' req = table m req;
  gw_count : num_cached m' (request_id r) =
    if caches then Z.max (num_cached m (request_id r)) (tc / block_size m) else num_cached m (request_id r);
  gw_hash : caches = true → ∀ L i b h,
    select_hashes (block_hashes r) (block_size m) (hash_block_size p) = Ret L →
    num_cached m (request_id r) ≤ i < tc / block_size m →
    table m' (request_id r) !! Z.to_nat i = Some b → b ≠ Blk 0 → hl_get L i = Some h →
    hash_of p b = Some (group_key (kv_cache_group_id m) h);
  gw_keys : ∀ x, x ≠ request_id r → num_cached_block m' !! x = num_cached_block m !! x
}.

Lemma missing_covers m req n bs :
  0 < block_size m → length bs = missing m req n →
  n ≤ block_size m * Z.of_nat (length (table m req ++ bs)).
Proof.
  intros Hb Hlen. rewrite length_app, Hlen. unfold missing.
  pose proof (cdiv_spec n (block_size m) Hb). nia.
Qed.

Lemma hash_ready_step s s' r :
  hash_ready s r → frame (co_block_pool s) (co_block_pool s') →
  all_managers (λ _ m m', mgr_config m' = mgr_config m) s s' → hash_ready s' r.
Proof.
  intros [H1 H2 H3 H4 H5 H6] Hf [Hl Hall]. pose proof Hf as [Hc _]. unfold config in Hc.
  assert (hash_block_size (co_block_pool s') = hash_block_size (co_block_pool s)) as Hh by congruence.
  split; try done; rewrite ?Hh; try done; [by rewrite (frame_caching _ _ Hf)|].
  intros i m' Hm'. destruct (lookup_lt_is_Some_2 (single_type_managers s) i) as [m Hm].
  { rewrite <-Hl. by eapply lookup_lt_Some. }
  destruct (Hall i m Hm) as (m2 & Hm2 & Hcfg). simplify_eq. unfold mgr_config in Hcfg.
  destruct (H6 i m Hm) as [K1 K2].
  replace (kv_cache_group_id m') with (kv_cache_group_id m) by congruence.
  replace (block_size m') with (block_size m) by congruence. done.
Qed.

Lemma all_managers_impl (R R' : nat → MG → MG → Prop) s s' :
  all_managers R s s' → (∀ i m m', single_type_managers s !! i = Some m → R i m m' → R' i m m') →
  all_managers R' s s'.
Proof.
  intros [Hl H] Himp. split; [done|]. intros i m Hm. destruct (H i m Hm) as (m' & ? & ?). eauto.
Qed.

Lemma all_managers_trans (R R' R'' : nat → MG → MG → Prop) s s1 s2 :
  all_managers R s s1 → all_managers R' s1 s2 →
  (∀ i m m1 m2, single_type_managers s !! i = Some m → R i m m1 → R' i m1 m2 → R'' i m m2) →
  all_managers R'' s s2.
Proof.
  intros [L1 H1] [L2 H2] Himp. split; [congruence|]. intros i m Hm.
  destruct (H1 i m Hm) as (m1 & Hm1 & ?). destruct (H2 i m1 Hm1) as (m2 & Hm2 & ?). eauto.
Qed.

(** Only the memo of hashed embeddings of a request may change. *)
Definition same_but_memo (r r' : Request) : Prop :=
  (∃ c, r' = set_embeds_cache c r) ∧ (memo_ok r → memo_ok r').

Lemma same_but_memo_refl r : same_but_memo r r.
Proof. split; [exists (embeds_hash_cache r); by destruct r|done]. Qed.

Section tail.
Context (s : CO) (l : list bref) (r : Request) (n tc : Z) (caching delay : bool).
Hypothesis Hg : coord_good s l.
Hypothesis Hroom : (sum_list (needs s (request_id r) n) ≤ length l)%nat.
Hypothesis Hready : caching && negb delay = true → hash_ready s r ∧ 0 ≤ tc ≤ num_tokens r ∧ tc ≤ n.

Definition slots_granted (s0 : CO) (o : option KVCacheBlocks) (s' : COR) : Prop :=
  ∃ cols l', o = Some (create_kv_cache_blocks cols) ∧ same_but_memo r s'.2 ∧
    coord_good s'.1 l' ∧ frame (co_block_pool s0) (co_block_pool s'.1) ∧
    (length l' + sum_list (needs s0 (request_id r) n) = length l)%nat ∧
    all_managers (λ i m m', ∃ bs, cols !! i = Some bs ∧
      grown r n tc (caching && negb delay) (co_block_pool s'.1) bs m m') s0 s'.1.

Lemma wp_allocate_tail E :
  wp (new_blocks ← on_coord (co_allocate_new_blocks (request_id r) n);
      if negb caching || delay then mret (Some (create_kv_cache_blocks new_blocks))
      else co_cache_blocks tc ;; mret (Some (create_kv_cache_blocks new_blocks)))
    (slots_granted s) E (s, r).
Proof using Hg Hroom Hready.
  apply wp_bind, wp_zoom. eapply wp_call; [by eapply wp_co_allocate_new_blocks|].
  intros cols s1 (l1 & Hg1 & Hf1 & Hlen & Hcols & Hall). cbn [fst snd] in *.
  replace (negb caching || delay) with (negb (caching && negb delay)) by (by destruct caching, delay).
  unfold slots_granted. destruct (caching && negb delay) eqn:Hcd; simpl negb; cbn iota.
  2:{ wp_steps. exists cols, l1. cbn [fst snd].
      split_and!; [done|apply same_but_memo_refl|done|done|done|]. eapply all_managers_impl; [done|].
      intros i m m' Hm ([O1 O2 O3] & bs & Hbs & Hl & Ht). exists bs. split; [done|].
      split; try done; [unfold num_cached; by rewrite O2|intros; by rewrite O2]. }
  destruct (Hready eq_refl) as (Hr & Htc & Htn).
  assert (hash_ready s1 r) as Hr1.
  { eapply hash_ready_step; [done..|]. eapply all_managers_impl; [done|]. intros i m m' _ ([? _ _] & _). done. }
  apply wp_bind. eapply wp_call; [apply (wp_co_cache_blocks s1 l1 r tc); [lia| |done|apply Hr1]|].
  - intros i m1 Hm1. destruct Hall as [Hnum Hall].
    destruct (lookup_lt_is_Some_2 (single_type_managers s) i) as [m Hm].
    { rewrite <-Hnum. by eapply lookup_lt_Some. }
    destruct (Hall i m Hm) as (m2 & Hm2 & [O1 _ _] & bs & Hbs & Hl & Ht).
    assert (m2 = m1) as -> by congruence. pose proof (cg_each _ _ Hg1 i m1 Hm1) as [_ Hs _ _ _].
    eapply (hash_ready_may_cache s1 r i m1 tc n); try done. rewrite Ht.
    assert (block_size m1 = block_size m) as Hbs1 by (unfold mgr_config in O1; congruence).
    rewrite Hbs1 in *. by apply missing_covers.
  - intros [] [s2 r2] [[c Hc] Hmo Hg2 Hf2 Hnum2 Hdone _]. wp_steps. cbn [fst snd] in *.
    exists cols, l1. split_and!; [done|split; eauto|done|by transitivity (co_block_pool s1)|done|].
    eapply all_managers_trans; [exact Hall| |].
    { split; [exact Hnum2|]. intros i m Hm. apply Hdone; [by eapply lookup_lt_Some|done]. }
    intros i m m1 m2 Hm ([O1 O2 O3] & bs & Hbs & Hl & Ht) [G1 G2 G3 G4 G5]. exists bs. split; [done|].
    assert (block_size m1 = block_size m ∧ kv_cache_group_id m1 = kv_cache_group_id m) as [Hb1 Hg1']
      by (unfold mgr_config in O1; split; congruence).
    assert (num_cached m1 (request_id r) = num_cached m (request_id r)) as Hnc
      by (unfold num_cached; by rewrite O2).
    rewrite Hb1, Hg1', Hnc in *. split; [congruence|done|by rewrite G2| |done| |].
    + intros req Hne. rewrite G2. by apply O3.
    + intros _ L x b h HL Hx Hb. rewrite G2 in Hb. by eapply G4.
    + intros x Hx. by rewrite G5, O2.
Qed.
End tail.

(** ** The whole call *)

(** The arguments the scheduler passes: [total] tokens are computed, [new] are to be, with
    [lookahead] slots for draft tokens. *)
Record slots_call (max_model_len : Z) (r : Request) (total new lookahead : Z) : Prop := {
  sc_total : 0 ≤ total ≤ max_model_len;
  sc_new : 0 < new;
  sc_lookahead : 0 ≤ lookahead;
  sc_request : num_tokens r ≤ max_model_len
}.

(** The tokens that need a slot, and the tokens whose full blocks are cached. *)
Definition slot_tokens (max_model_len total new lookahead : Z) : Z :=
  Z.min (total + new + lookahead) max_model_len.
Definition cache_tokens (r : Request) (total new : Z) : Z := Z.min (total + new) (num_tokens r).

Lemma slots_call_bounds mml r total new lookahead :
  slots_call mml r total new lookahead →
  total ≤ slot_tokens mml total new lookahead ∧ 0 ≤ cache_tokens r total new ≤ num_tokens r ∧
  cache_tokens r total new ≤ slot_tokens mml total new lookahead.
Proof.
  intros [H1 H2 H3 H4]. unfold slot_tokens, cache_tokens.
  assert (0 ≤ num_tokens r) by (unfold num_tokens; lia). lia.
Qed.

Lemma skip_table_length m req t :
  0 ≤ skipped_blocks m t → length (skip_table m req (skip_count m req t)) = length (table m req).
Proof.
  intros H. unfold skip_table, skip_count. rewrite length_app, length_replicate, length_drop. lia.
Qed.

Lemma skip_table_nil m req t : table m req = [] → skip_table m req (skip_count m req t) = [].
Proof. intros H. unfold skip_table, skip_count. by rewrite H, Nat.min_0_r. Qed.

Lemma may_adopt_step s s' req cbs local t :
  may_adopt s req cbs local → frame (co_block_pool s) (co_block_pool s') →
  (∀ b, hash_of (co_block_pool s') b = hash_of (co_block_pool s) b) →
  all_managers (λ _ m m', only_table req m m' ∧ table m' req = skip_table m req (skip_count m req t)) s s' →
  may_adopt s' req cbs local.
Proof.
  intros [H1 H2 H3] Hf Hh [Hl Hall]. split; [congruence| |done]. intros i m' cb Hm' Hcb.
  destruct (lookup_lt_is_Some_2 (single_type_managers s) i) as [m Hm].
  { rewrite <-Hl. by eapply lookup_lt_Some. }
  destruct (Hall i m Hm) as (m2 & Hm2 & [O1 O2 O3] & Ht). assert (m2 = m') as -> by congruence.
  destruct (may_admit_frame _ _ _ _ _ _ _ _ (H2 i m cb Hm Hcb) Hf Hh) as [A1 A2 A3 A4 A5 A6 A7 A8].
  unfold mgr_config in O1. split; try done.
  - by rewrite O2.
  - by rewrite Ht, skip_table_nil.
  - by replace (mgr_enable_caching m') with (mgr_enable_caching m) by congruence.
  - by replace (block_size m') with (block_size m) by congruence.
Qed.

(** Two states whose managers agree on what [f] reads. *)
Lemma zip_managers_eq {A B} (R : nat → MG → MG → Prop) (f g : MG → A → B) s s' xs :
  all_managers R s s' → (∀ i m m' x, single_type_managers s !! i = Some m → R i m m' → xs !! i = Some x →
    g m' x = f m x) →
  zip_with g (single_type_managers s') xs = zip_with f (single_type_managers s) xs.
Proof.
  intros [Hl Hall] Hfg. apply list_eq. intros i. rewrite !lookup_zip_with.
  destruct (single_type_managers s !! i) as [m|] eqn:Hm.
  - destruct (Hall i m Hm) as (m' & -> & HR). simpl.
    destruct (xs !! i) as [x|] eqn:Hx; simpl; [|done]. f_equal. by eapply Hfg.
  - assert (single_type_managers s' !! i = None) as ->; [|done].
    apply lookup_ge_None in Hm. apply lookup_ge_None. lia.
Qed.

Lemma sum_needs s req n (xs : list Z) :
  length xs = length (single_type_managers s) →
  (∀ i m x, single_type_managers s !! i = Some m → xs !! i = Some x → x = Z.of_nat (missing m req n)) →
  sum_list_Z xs = Z.of_nat (sum_list (needs s req n)).
Proof.
  unfold needs. generalize (single_type_managers s). intros ms. revert xs.
  induction ms as [|m ms IH]; intros [|x xs] Hl Hx; simplify_eq/=; [done|].
  rewrite (Hx 0%nat m x eq_refl eq_refl). rewrite Nat2Z.inj_add, <-(IH xs Hl); [done|].
  intros i. apply (Hx (S i)).
Qed.

(** What a group keeps and adopts depends on its configuration only. *)
Lemma adopted_config m m' cb t :
  mgr_config m' = mgr_config m → kept m' cb t = kept m cb t ∧ adopted m' cb t = adopted m cb t.
Proof.
  unfold mgr_config. intros [= Hb Hk _ _ _]. unfold adopted, kept, skipped_blocks. by rewrite Hb, Hk.
Qed.

Lemma config_columns s s' cbs local n :
  all_managers (λ _ m m', mgr_config m' = mgr_config m) s s' →
  kepts s' cbs local = kepts s cbs local ∧ fresh_needs s' cbs local n = fresh_needs s cbs local n.
Proof.
  intros Hall. unfold kepts, fresh_needs.
  split; (eapply zip_managers_eq; [exact Hall|]; intros i m m' cb _ Hc _); [by apply adopted_config|].
  rewrite (proj2 (adopted_config _ _ cb local Hc)). unfold mgr_config in Hc.
  by replace (block_size m') with (block_size m) by congruence.
Qed.

Section call.
Context (mml : Z) (caching delay : bool) (s : CO) (l : list bref) (r : Request).
Context (local new lookahead : Z).
Hypothesis Hg : coord_good s l.
Hypothesis Hcall : slots_call mml r local new lookahead.
Hypothesis Hready : caching && negb delay = true → hash_ready s r.
Let req := request_id r.
Let n := slot_tokens mml local new lookahead.
Let tc := cache_tokens r local new.

(** What the code runs once the arguments are computed. *)
Definition slots_body (cbs : columns) (group : bool) : M COR (option KVCacheBlocks) :=
  on_coord (co_remove_skipped_blocks req local) ;;
  ok ← on_coord (has_enough_free_blocks req n cbs local);
  if negb ok then mret None
  else
    (if group then on_coord (co_allocate_new_computed_blocks req cbs local 0) else mret tt) ;;
    new_blocks ← on_coord (co_allocate_new_blocks req n);
    if negb caching || delay then mret (Some (create_kv_cache_blocks new_blocks))
    else co_cache_blocks tc ;; mret (Some (create_kv_cache_blocks new_blocks)).

Lemma allocate_slots_body hit b E Q :
  num_computed_tokens r + hit = local →
  wp (slots_body (kb_blocks (length (single_type_managers s)) (default EmptyBlocks b))
       match default EmptyBlocks b with GroupBlocks _ => true | EmptyBlocks => false end) Q E (s, r) →
  wp (allocate_slots mml caching new hit b lookahead 0 delay) Q E (s, r).
Proof using Hcall.
  intros Hl H. destruct Hcall as [H1 H2 H3 H4]. unfold allocate_slots.
  rewrite (proj2 (Z.eqb_neq new 0)) by lia. simpl andb.
  apply wp_bind, wp_ret, wp_bind, wp_gets, wp_bind, wp_gets. cbn [fst snd].
  rewrite Hl. replace (local + 0) with local by lia. rewrite (Z.min_l local mml) by lia.
  rewrite orb_false_r. exact H.
Qed.

(** A request that no group knows, with the hits found for it. *)
Section fresh.
Context (cbs : columns).
Hypothesis Hadopt : may_adopt s req cbs local.
Let k := sum_list_Z (estimates s req cbs n local).

(** The two outcomes of the call. *)
Definition fresh_outcome (o : option KVCacheBlocks) (s' : COR) : Prop :=
  if decide (k ≤ Z.of_nat (length l)) then
    ∃ cols l', o = Some (create_kv_cache_blocks cols) ∧ coord_good s'.1 l' ∧
      Z.of_nat (length l') = Z.of_nat (length l) - k ∧
      same_but_memo r s'.2 ∧ frame (co_block_pool s) (co_block_pool s'.1) ∧
      all_managers (λ i m m', ∃ cb bs, cbs !! i = Some cb ∧ cols !! i = Some bs ∧
        mgr_config m' = mgr_config m ∧
        table m' req = adopted m cb local ++ bs ∧
        Z.of_nat (length (table m' req)) = cdiv n (block_size m) ∧
        (caching && negb delay = true → tc / block_size m ≤ num_cached m' req) ∧
        ∀ x, x ≠ req → table m' x = table m x ∧ num_cached_block m' !! x = num_cached_block m !! x) s s'.1
  else o = None ∧ s'.2 = r ∧ coord_good s'.1 l ∧ frame (co_block_pool s) (co_block_pool s'.1) ∧
    all_managers (λ _ m m', mgr_config m' = mgr_config m ∧ num_cached_block m' = num_cached_block m ∧
      ∀ x, table m' x = table m x) s s'.1.

Lemma fresh_no_blocks : no_blocks s req.
Proof using Hadopt.
  intros i m Hm. destruct Hadopt as [H1 H2 _].
  destruct (lookup_lt_is_Some_2 cbs i) as [cb Hcb]; [rewrite H1; by eapply lookup_lt_Some|].
  apply (H2 i m cb Hm Hcb).
Qed.

Lemma fresh_adopted_length i m cb :
  single_type_managers s !! i = Some m → cbs !! i = Some cb →
  0 < block_size m ∧ 0 ≤ Z.of_nat (length (adopted m cb local)) ≤ cdiv n (block_size m).
Proof using Hadopt Hcall Hg.
  intros Hm Hcb. pose proof (coord_manager _ _ _ _ Hg Hm) as Hmg.
  pose proof (mi_size _ _ _ _ (mg_inv _ _ _ _ _ Hmg)) as Hs. split; [done|].
  destruct (mo_each _ _ _ _ Hadopt i m cb Hm Hcb) as [A1 A2 A3 A4 A5 A6 A7 A8].
  pose proof (adopt_length _ m _ l cb local 0 (mg_inv _ _ _ _ _ Hmg) A6 A7) as Hal.
  replace (local + 0) with local in Hal by lia.
  pose proof (cdiv_mono local n (block_size m) Hs (proj1 (slots_call_bounds _ _ _ _ _ Hcall))). lia.
Qed.

(** After adoption in [s1], each group still needs what [fresh_needs] says. *)
Lemma fresh_needs_sum s1 s2 :
  length cbs = length (single_type_managers s1) →
  all_managers (λ i m m', ∃ cb, cbs !! i = Some cb ∧ adopted_by req cb local m m') s1 s2 →
  sum_list_Z (fresh_needs s1 cbs local n) = Z.of_nat (sum_list (needs s2 req n)).
Proof using Type.
  clear k. intros Hlen [Hl Hall]. apply sum_needs.
  - unfold fresh_needs. rewrite length_zip_with. lia.
  - intros i m2 x Hm2 Hx. unfold fresh_needs in Hx. rewrite lookup_zip_with in Hx.
    destruct (single_type_managers s1 !! i) as [m1|] eqn:Hm1; [|done].
    destruct (Hall i m1 Hm1) as (m2' & Hm2' & cb & Hcb & [B1 B2 _ _]).
    assert (m2' = m2) as -> by congruence. rewrite Hcb in Hx. simplify_eq/=. unfold missing.
    rewrite B2. unfold mgr_config in B1. replace (block_size m2) with (block_size m1) by congruence. lia.
Qed.

(** Adoption and allocation in a state [s1] that differs from [s] in nothing that matters. *)
Lemma wp_fresh_grant s1 E :
  coord_good s1 l → may_adopt s1 req cbs local → frame (co_block_pool s) (co_block_pool s1) →
  all_managers (λ _ m m', only_table req m m' ∧
    table m' req = skip_table m req (skip_count m req local)) s s1 →
  sum_list_Z (estimates s1 req cbs n local) = k → k ≤ Z.of_nat (length l) →
  wp (on_coord (co_allocate_new_computed_blocks req cbs local 0) ;;
      new_blocks ← on_coord (co_allocate_new_blocks req n);
      if negb caching || delay then mret (Some (create_kv_cache_blocks new_blocks))
      else co_cache_blocks tc ;; mret (Some (create_kv_cache_blocks new_blocks))) fresh_outcome E (s1, r).
Proof using Hg Hcall Hready Hadopt.
  intros Hg1 Hma1 Hf1 Hall1 Hk Hle. destruct (slots_call_bounds _ _ _ _ _ Hcall) as (Hn & Htc & Htn).
  apply wp_bind, wp_zoom.
  eapply wp_call; [by apply (wp_co_adopt s1 l req cbs local)|].
  intros [] s2 (Hg2 & Hf2 & Hh2 & Hall2). cbn [fst snd] in *.
  pose proof (new_estimates_split _ _ _ _ _ n Hg1 Hma1) as Hsplit.
  rewrite Hk, (fresh_needs_sum s1 s2 (mo_len _ _ _ _ Hma1) Hall2) in Hsplit.
  assert (all_managers (λ i m m2, ∃ cb, cbs !! i = Some cb ∧ mgr_config m2 = mgr_config m ∧
    table m2 req = adopted m cb local ∧
    ∀ x, x ≠ req → table m2 x = table m x ∧ num_cached_block m2 !! x = num_cached_block m !! x) s s2) as Hall12.
  { eapply all_managers_trans; [exact Hall1|exact Hall2|].
    intros i m m1 m2 Hm [[O1 O2 O3] Ht] (cb & Hcb & [B1 B2 B3 B4]). exists cb.
    split_and!; [done|congruence|rewrite B2; by apply adopted_config|].
    intros x Hx. rewrite B3, O3, B4, O2 by done. by rewrite lookup_insert_ne. }
  eapply wp_call; [apply (wp_allocate_tail s2 _ r n tc caching delay Hg2)|].
  - fold req. lia.
  - intros Hc. split; [|done]. eapply hash_ready_step; [by apply Hready|by transitivity (co_block_pool s1)|].
    eapply all_managers_impl; [exact Hall12|]. intros i m m' _ (cb & _ & ? & _). done.
  - intros o [s3 r3] (cols & l3 & Ho & Hr3 & Hg3 & Hf3 & Hlen & Hall3). cbn [fst snd] in *.
    fold req in Hlen. unfold fresh_outcome. rewrite decide_True by done.
    exists cols, l3. split_and!; [done|done|lia|done|by transitivity (co_block_pool s2); [transitivity (co_block_pool s1)|]|].
    eapply all_managers_trans; [exact Hall12|exact Hall3|].
    intros i m m2 m3 Hm (cb & Hcb & C1 & C2 & C3) (bs & Hbs & [G1 G2 G3 G4 G5 G6 G7]).
    fold req in G2, G3, G4, G5.
    assert (block_size m2 = block_size m) as Hb by (unfold mgr_config in C1; congruence).
    destruct (fresh_adopted_length i m cb Hm Hcb) as [Hs Hal].
    exists cb, bs. split_and!; [done|done|congruence|by rewrite G3, C2| | |].
    + rewrite G3, length_app, G2. unfold missing. rewrite C2, Hb. lia.
    + intros Hc. rewrite Hc in G5. rewrite G5, Hb. lia.
    + intros x Hx. rewrite G4, G7 by done. by apply C3.
Qed.

Lemma wp_fresh_body E : wp (slots_body cbs true) fresh_outcome E (s, r).
Proof using Hg Hcall Hready Hadopt.
  unfold slots_body. apply wp_bind, wp_zoom.
  eapply wp_call; [apply (wp_co_remove_skipped s l req local); [done|destruct Hcall; lia]|].
  intros [] s1 (l1 & Hg1 & Hf1 & Hh1 & Hl1 & _ & Hall1). cbn [fst snd] in *.
  rewrite (Hl1 fresh_no_blocks) in *. clear Hl1.
  pose proof (may_adopt_step _ _ _ _ _ _ Hadopt Hf1 Hh1 Hall1) as Hma1.
  assert (sum_list_Z (estimates s1 req cbs n local) = k) as Hk.
  { unfold k. rewrite (new_estimates_split _ _ _ _ _ _ Hg1 Hma1), (new_estimates_split _ _ _ _ _ _ Hg Hadopt).
    destruct (config_columns s s1 cbs local n) as [-> ->]; [|done].
    eapply all_managers_impl; [exact Hall1|]. by intros i m m' _ [[? _ _] _]. }
  apply wp_bind, wp_zoom. eapply wp_call; [apply (wp_has_enough s1 l); [done|apply Hma1|]|].
  { intros i m cb Hm Hcb Hsome. rewrite (ma_new _ _ _ _ _ _ _ (mo_each _ _ _ _ Hma1 i m cb Hm Hcb)) in Hsome.
    by destruct Hsome. }
  intros ok s1' [-> ->]. rewrite Hk. cbn [fst snd].
  destruct (Z.leb_spec k (Z.of_nat (length l))) as [Hle|Hgt]; simpl negb; cbn iota;
    [by apply wp_fresh_grant|].
  wp_steps. unfold fresh_outcome. rewrite decide_False by lia. split_and!; [done|done|done|done|]. cbn [fst].
  eapply all_managers_impl; [exact Hall1|]. intros i m m' Hm [[O1 O2 O3] Ht]. split; [done|]. split; [done|].
  intros x. destruct (decide (x = req)) as [->|]; [|by apply O3].
  rewrite Ht, (fresh_no_blocks i m Hm). apply skip_table_nil, (fresh_no_blocks i m Hm).
Qed.
End fresh.

(** A request without new hits: one that runs already, or a new one with nothing cached. *)
Section running.
Hypothesis Hknown : ∀ i m, single_type_managers s !! i = Some m →
  is_Some (num_cached_block m !! req) ∨ skipped_blocks m local ≤ Z.of_nat (length (table m req)).
Let k := sum_list (needs s req n).

Definition running_outcome (o : option KVCacheBlocks) (s' : COR) : Prop :=
  ∃ s1 l1, co_remove_skipped_blocks req local s = (Ret tt, s1) ∧ coord_good s1 l1 ∧
    (length l ≤ length l1)%nat ∧
    if decide (k ≤ length l1)%nat then
      ∃ cols l', o = Some (create_kv_cache_blocks cols) ∧ coord_good s'.1 l' ∧
        (length l' + k = length l1)%nat ∧
        same_but_memo r s'.2 ∧ frame (co_block_pool s) (co_block_pool s'.1) ∧
        all_managers (λ i m m', ∃ bs, cols !! i = Some bs ∧ mgr_config m' = mgr_config m ∧
          length bs = missing m req n ∧
          table m' req = skip_table m req (skip_count m req local) ++ bs ∧
          n ≤ block_size m * Z.of_nat (length (table m' req)) ∧
          (caching && negb delay = true → tc / block_size m ≤ num_cached m' req) ∧
          ∀ x, x ≠ req → table m' x = table m x ∧ num_cached_block m' !! x = num_cached_block m !! x) s s'.1
    else o = None ∧ s' = (s1, r).

(** After the removal every group misses as many blocks as before. *)
Lemma running_missing s1 i m m1 :
  coord_good s l → single_type_managers s !! i = Some m →
  only_table req m m1 ∧ table m1 req = skip_table m req (skip_count m req local) →
  missing m1 req n = missing m req n ∧ block_size m1 = block_size m ∧
  estimate m1 (co_block_pool s1) req [] n local = Z.of_nat (missing m req n).
Proof using Hknown Hcall.
  clear k. intros Hg' Hm [[O1 O2 O3] Ht]. destruct (cg_each _ _ Hg' i m Hm) as [_ Hs Hk _ _].
  destruct (skipped_blocks_bound m local Hs Hk) as [Hsb _]; [destruct Hcall; lia|].
  unfold mgr_config in O1. assert (block_size m1 = block_size m) as Hb by congruence.
  assert (kind m1 = kind m) as Hkd by congruence.
  assert (length (table m1 req) = length (table m req)) as Hlen
    by (rewrite Ht; by apply skip_table_length).
  assert (missing m1 req n = missing m req n) as Hmiss by (unfold missing; by rewrite Hlen, Hb).
  split_and!; [done|done|]. unfold estimate. rewrite Hlen, Hb, O2. unfold missing.
  case_decide as Hd; [lia|]. destruct (Hknown i m Hm) as [|Hsk]; [done|].
  assert (skipped_blocks m1 local = skipped_blocks m local) as -> by (unfold skipped_blocks; by rewrite Hb, Hkd).
  rewrite drop_nil. change (get_num_evictable_blocks ?h []) with 0. simpl length. lia.
Qed.

Lemma running_needs s1 :
  all_managers (λ _ m m', only_table req m m' ∧
    table m' req = skip_table m req (skip_count m req local)) s s1 →
  needs s1 req n = needs s req n ∧
  sum_list_Z (estimates s1 req (replicate (length (single_type_managers s)) []) n local) = Z.of_nat k.
Proof using Hg Hknown Hcall.
  intros [Hnum Hall].
  assert (needs s1 req n = needs s req n) as Hneeds.
  { unfold needs. apply list_eq. intros i. rewrite !list_lookup_fmap.
    destruct (single_type_managers s !! i) as [m|] eqn:Hm.
    - destruct (Hall i m Hm) as (m1 & -> & HR). simpl. f_equal.
      by destruct (running_missing s1 i m m1 Hg Hm HR) as [-> _].
    - apply lookup_ge_None in Hm. by rewrite (proj2 (lookup_ge_None _ _)) by lia. }
  split; [done|]. unfold k. rewrite <-Hneeds. apply sum_needs.
  - unfold estimates. rewrite length_zip_with, length_replicate. lia.
  - intros i m1 x Hm1 Hx. unfold estimates in Hx. rewrite lookup_zip_with, Hm1 in Hx. simpl in Hx.
    destruct (replicate _ _ !! i) as [cb|] eqn:Hcb; simplify_eq/=. apply lookup_replicate in Hcb as [-> Hi].
    destruct (lookup_lt_is_Some_2 (single_type_managers s) i) as [m Hm]; [done|].
    destruct (Hall i m Hm) as (m1' & Hm1' & HR). assert (m1' = m1) as -> by congruence.
    by destruct (running_missing s1 i m m1 Hg Hm HR) as (-> & _ & ->).
Qed.

Lemma wp_running_body E :
  wp (slots_body (replicate (length (single_type_managers s)) []) false) running_outcome E (s, r).
Proof using Hg Hcall Hready Hknown.
  destruct (slots_call_bounds _ _ _ _ _ Hcall) as (Hn & Htc & Htn). set (cbs := replicate _ []).
  destruct (wp_run _ _ _ (wp_co_remove_skipped s l req local noexc Hg ltac:(destruct Hcall; lia)))
    as ([] & s1 & Hrun & l1 & Hg1 & Hf1 & Hh1 & _ & Hge & Hall1).
  unfold slots_body. apply wp_bind, wp_zoom. unfold wp at 1. cbn [fst]. rewrite Hrun. cbn [fst snd].
  pose proof (proj1 Hall1) as Hnum.
  destruct (running_needs s1 Hall1) as [Hneeds Hest].
  apply wp_bind, wp_zoom. eapply wp_call; [apply (wp_has_enough s1 l1 req cbs n local)|].
  - done.
  - unfold cbs. by rewrite length_replicate.
  - intros i m cb _ Hcb _. by apply lookup_replicate in Hcb as [? _].
  - intros ok s1' [-> ->]. cbn [fst snd].
    unfold cbs. rewrite Hest.
    destruct (Z.leb_spec (Z.of_nat k) (Z.of_nat (length l1))) as [Hle|Hgt]; simpl negb; cbn iota.
    2:{ wp_steps. exists s1, l1. split_and!; [done|done|done|]. rewrite decide_False by lia. done. }
    apply wp_bind, wp_ret. eapply wp_call; [apply (wp_allocate_tail s1 l1 r n tc caching delay Hg1)|].
    + fold req. rewrite Hneeds. fold k. lia.
    + intros Hc. split; [|done]. eapply hash_ready_step; [by apply Hready|done|].
      eapply all_managers_impl; [exact Hall1|]. by intros i m m' _ [[? _ _] _].
    + intros o [s3 r3] (cols & l3 & Ho & Hr3 & Hg3 & Hf3 & Hlen & Hall3). cbn [fst snd] in *.
      fold req in Hlen. rewrite Hneeds in Hlen. fold k in Hlen. exists s1, l1.
      split_and!; [done|done|done|]. rewrite decide_True by lia. exists cols, l3.
      split_and!; [done|done|lia|done|by transitivity (co_block_pool s1)|].
      eapply all_managers_trans; [exact Hall1|exact Hall3|].
      intros i m m1 m3 Hm HR (bs & Hbs & [G1 G2 G3 G4 G5 G6 G7]). fold req in G2, G3, G4, G5, G7.
      destruct (running_missing s1 i m m1 Hg Hm HR) as (Hmi & Hb & _). destruct HR as [[O1 O2 O3] Ht].
      exists bs. split_and!; [done|congruence|congruence|by rewrite G3, Ht| | |].
      * rewrite G3, <-Hb. apply missing_covers; [rewrite Hb; apply (cg_each _ _ Hg i m Hm)|done].
      * intros Hc. rewrite Hc in G5. rewrite G5, Hb. lia.
      * intros x Hx. rewrite G4, G7, O2 by done. split; [by apply O3|done].
Qed.
End running.
End call.
