(* ===== verification/KVSteps.v ===== *)
(** The KV cache manager over time: the step relation of the scheduler's calls, the invariant
    in every reachable state, memory accounting, and the theorems on [allocate_slots]. *)
From S2P Require Import Prelude.
From S2P Require Import Request.
From S2P Require Import BlockHash.
From S2P Require Import FreeQueue.
From S2P Require Import BlockMap.
From S2P Require Import BlockPool.
From S2P Require Import PoolInv.
From S2P Require Import PoolCache.
From S2P Require Import PoolSteps.
From S2P Require Import Manager.
From S2P Require Import ManagerInv.
From S2P Require Import ManagerSteps.
From S2P Require Import CacheHit.
From S2P Require Import Coordinator.
From S2P Require Import KVCacheManager.
From S2P Require Import CoordinatorInv.
From S2P Require Import AllocateSlots.
Local Open Scope Z_scope.

(** ** The initial state *)

Definition spec_ok (s : KVCacheSpec) : Prop := 0 < spec_block_size s ∧ kind_ok (spec_kind s).

Lemma coord_init_good specs n caching events ui dcp pcp hbs s :
  0 < n → Forall spec_ok specs → coord_init specs n caching events ui dcp pcp hbs = Ret s →
  coord_good s (Blk <$> seq 1 (Z.to_nat n - 1)) ∧ num_gpu_blocks (co_block_pool s) = n.
Proof.
  intros Hn Hspecs Hs. destruct (pool_init_run n caching hbs events ui Hn) as (p & Hi & Hp & Hc & Hall).
  unfold coord_init in Hs. rewrite Hi in Hs. simpl in Hs. injection Hs as Hs. subst s.
  unfold config in Hc. split; [|simpl; congruence].
  assert (∀ i m, imap (λ i s, manager_init (spec_block_size s) (spec_kind s) (spec_plain_full s) caching
      (Z.of_nat i) dcp pcp) specs !! i = Some m →
    mgr_good (λ _, 0) (λ _, False) m p (Blk <$> seq 1 (Z.to_nat n - 1)) ∧ ∀ req, table m req = []) as Heach.
  { intros i m Hm. rewrite list_lookup_imap in Hm. destruct (specs !! i) as [sp|] eqn:Hsp; simplify_eq/=.
    destruct (proj1 (Forall_lookup _ _) Hspecs i sp Hsp) as [Hz1 Hz2].
    split; [|done]. apply manager_init_good; try done. }
  split; simpl; [done| | |by intros _ b Hb; apply Hall].
  - intros r Hr _. rewrite (proj1 (Hall r Hr)). symmetry. revert Heach. generalize (imap (λ i s,
      manager_init (spec_block_size s) (spec_kind s) (spec_plain_full s) caching (Z.of_nat i) dcp pcp) specs).
    intros ms Heach. induction ms as [|m ms IH]; simpl; [done|].
    rewrite IH by (intros i; apply (Heach (S i))). rewrite held_empty; [done|]. by apply (Heach 0%nat m).
  - intros i m Hm. destruct (Heach i m Hm) as [[[H1 H2 H3 H4 H5 H6] H7 H8 H9 H10] _]. by split.
Qed.

(** ** Pool maintenance *)

(** Dropping hashes and nothing else keeps the invariant. *)
Lemma coord_pool_step s l p' :
  coord_good s l → pool_inv p' l → frame (co_block_pool s) p' →
  (∀ b, b ∈ blocks (co_block_pool s) → ref_of p' b = ref_of (co_block_pool s) b) →
  (∀ b, b ∈ blocks (co_block_pool s) → hash_of p' b = None ∨ hash_of p' b = hash_of (co_block_pool s) b) →
  coord_good (mkCoord (single_type_managers s) p') l.
Proof.
  intros [Hp Hr He Hh] Hp' Hf Href Hhash. pose proof (frame_blocks _ _ Hf) as Hb.
  assert (∀ b, b ∈ blocks (co_block_pool s) → hash_of (co_block_pool s) b = None → hash_of p' b = None) as Hkeep.
  { intros b Hin H. destruct (Hhash b Hin); congruence. }
  split; simpl; [done| | |].
  - intros b. rewrite Hb. intros Hin Hne. rewrite Href by done. by apply Hr.
  - intros i m Hm. destruct (He i m Hm) as [H1 H2 H3 [H4 H5] H6]. split; try done.
    + intros req bs Hreq. destruct (H1 req bs Hreq) as [T1 T2 T3]. split; try done.
      intros b Hin. rewrite Hb. by apply T1.
    + split; [done|]. intros req b Hin Hne. destruct (H5 req b Hin Hne) as [K1 K2].
      assert (b ∈ blocks (co_block_pool s)) as Hbl.
      { apply uncached_table in Hin. unfold table in Hin. destruct (req_to_blocks m !! req) as [bs|] eqn:E;
          [by eapply tk_pool; [eapply H1|]|by apply elem_of_nil in Hin]. }
      rewrite Href by done. split; [by apply Hkeep|done].
    + by rewrite (frame_caching _ _ Hf).
  - rewrite (frame_caching _ _ Hf). intros Hc b. rewrite Hb. intros Hin. apply Hkeep; [done|]. by apply Hh.
Qed.

(** ** Steps *)

Section steps.
Context (max_model_len : Z) (caching : bool).

(** The scheduler's calls on the manager, whatever they return or raise. *)
Inductive kv_step : CO → CO → Prop :=
  | kv_step_new s r local new lookahead delay hit cbs o s' r' :
      slots_call max_model_len r local new lookahead →
      (caching && negb delay = true → hash_ready s r) →
      num_computed_tokens r + hit = local → may_adopt s (request_id r) cbs local →
      allocate_slots max_model_len caching new hit (Some (GroupBlocks cbs)) lookahead 0 delay (s, r)
        = (o, (s', r')) → kv_step s s'
  | kv_step_run s r local new lookahead delay o s' r' :
      slots_call max_model_len r local new lookahead →
      (caching && negb delay = true → hash_ready s r) → num_computed_tokens r = local →
      (∀ i m, single_type_managers s !! i = Some m → is_Some (num_cached_block m !! request_id r) ∨
         skipped_blocks m local ≤ Z.of_nat (length (table m (request_id r)))) →
      allocate_slots max_model_len caching new 0 None lookahead 0 delay (s, r) = (o, (s', r')) → kv_step s s'
  | kv_step_cache s r t o s' r' :
      0 ≤ t →
      (caching = true → memo_ok r ∧ ∀ i m, single_type_managers s !! i = Some m →
         may_cache_request m (co_block_pool s) r t) →
      kv_cache_blocks caching t (s, r) = (o, (s', r')) → kv_step s s'
  | kv_step_free s r o s' r' : kv_free (s, r) = (o, (s', r')) → kv_step s s'
  | kv_step_evict s ids o s' :
      (∀ i, i ∈ ids → 0 ≤ i < num_gpu_blocks (co_block_pool s)) →
      kv_evict_blocks ids s = (o, s') → kv_step s s'
  | kv_step_reset s o s' : kv_reset_prefix_cache s = (o, s') → kv_step s s'.

Lemma kv_step_good s l s' : coord_good s l → kv_step s s' → ∃ l', coord_good s' l'.
Proof.
  intros Hg Hstep. inversion Hstep as
    [? r local new look delay hit cbs o ? r' Hc Hr Hl Ha Hrun|? r local new look delay o ? r' Hc Hr Hl Hk Hrun
    |? r t o ? r' Ht Hall Hrun|? r o ? r' Hrun|? ids o ? Hids Hrun|? o ? Hrun]; subst.
  - destruct (wp_elim _ _ _ _ _ (allocate_slots_body max_model_len caching delay s r _ new look Hc hit
      (Some (GroupBlocks cbs)) noexc _ eq_refl
      (wp_fresh_body max_model_len caching delay s l r _ new look Hg Hc Hr cbs Ha noexc)) Hrun) as (a & _ & Hout).
    unfold fresh_outcome in Hout. case_decide; [destruct Hout as (cols & l' & _ & ? & _)|destruct Hout as (_ & _ & ? & _)]; eauto.
  - destruct (wp_elim _ _ _ _ _ (allocate_slots_body max_model_len caching delay s r _ new look Hc 0
      None noexc _ (Z.add_0_r _)
      (wp_running_body max_model_len caching delay s l r _ new look Hg Hc Hr Hk noexc)) Hrun)
      as (a & _ & s1 & l1 & _ & Hg1 & _ & Hout).
    case_decide; [destruct Hout as (cols & l' & _ & ? & _)|destruct Hout as (_ & [= -> ->])]; eauto.
  - unfold kv_cache_blocks in Hrun. destruct caching; [|injection Hrun as <- <- <-; eauto].
    destruct (Hall eq_refl) as [Hmo Hm].
    destruct (wp_elim _ _ _ _ _ (wp_co_cache_blocks s l r t Ht Hm noexc Hg Hmo) Hrun) as (a & _ & Hct).
    exists l. apply Hct.
  - assert (wp kv_free (λ _ s', ∃ l', coord_good s'.1 l') noexc (s, r)) as H.
    { unfold kv_free. wp_steps. apply wp_zoom. eapply wp_call; [by apply (wp_co_free s l)|].
      intros [] s1 (l' & ? & _). eauto. }
    by destruct (wp_elim _ _ _ _ _ H Hrun) as (a & _ & ?).
  - assert (wp (kv_evict_blocks ids) (λ _ s', coord_good s' l) noexc s) as H.
    { apply wp_zoom. eapply wp_call; [by apply wp_evict_blocks; [apply Hg|]|].
      intros [] p' [Hp' [Ef Er Eh _]]. apply (coord_pool_step s l); try done. intros b _. rewrite Eh.
      case_decide; [by left|by right]. }
    destruct (wp_elim _ _ _ _ _ H Hrun) as (a & _ & ?). eauto.
  - assert (wp kv_reset_prefix_cache (λ _ s', coord_good s' l) noexc s) as H.
    { apply wp_zoom. eapply wp_call; [apply wp_reset_prefix_cache, Hg|]. intros [] p'.
      - intros (_ & Hp' & Hcl). apply (coord_pool_step s l); try done; [apply Hcl|intros; apply Hcl|].
        intros b Hb. left. by apply Hcl.
      - intros [-> _]. by destruct s. }
    destruct (wp_elim _ _ _ _ _ H Hrun) as (a & _ & ?). eauto.
Qed.

Lemma kv_reachable_good s s' l : coord_good s l → rtc kv_step s s' → ∃ l', coord_good s' l'.
Proof.
  intros Hg Hr. revert l Hg. induction Hr as [|s s1 s' Hstep _ IH]; intros l Hg; [eauto|].
  destruct (kv_step_good _ _ _ Hg Hstep) as [l1 Hg1]. eauto.
Qed.
End steps.

(** ** Memory accounting *)

Lemma total_empty ms b :
  (∀ i m, ms !! i = Some m → ∀ req, table m req = []) → total ms b = 0.
Proof.
  induction ms as [|m ms IH]; intros Hall; simpl; [done|].
  rewrite IH by (intros i; apply (Hall (S i))). rewrite held_empty; [done|]. by apply (Hall 0%nat).
Qed.

Lemma coord_all_free s l :
  coord_good s l → (∀ i m, single_type_managers s !! i = Some m → ∀ req, table m req = []) →
  get_num_free_blocks (co_block_pool s) = num_gpu_blocks (co_block_pool s) - 1.
Proof.
  intros [Hp Hr _ _] Ht. rewrite (pool_accounting _ l Hp).
  assert (in_use (co_block_pool s) = []) as ->; [|simpl; lia].
  apply elem_of_nil_inv. intros r ((Hne & Hnz) & Hin)%list_elem_of_filter. apply Hnz.
  rewrite Hr by done. by apply total_empty.
Qed.

(** ** Samples *)

(** A hybrid model: a full-attention group and a sliding-window group on one pool of six
    usable blocks, two tokens per block. *)
Definition two_groups : list KVCacheSpec :=
  [mkSpec 2 FullAttention true []; mkSpec 2 (SlidingWindow 100) false []].
Definition two_groups_init : CO :=
  match coord_init two_groups 7 true false false 1 1 2 with Ret s => s | Raise _ => mkCoord [] sample_pool end.

Definition named (id : string) (r : Request) : Request :=
  mkRequest id (obj_id r) (priority r) (arrival_time r) (status r) (stop_reason r) (sampling_params r)
    (max_tokens r) (num_prompt_tokens r) (output_token_ids r) (all_token_ids r) (spec_token_ids r)
    (num_computed_tokens r) (num_output_placeholders r) (num_preemptions r) (num_cached_tokens r)
    (cache_salt r) (lora_request r) (mm_features r) (prompt_embeds r) (embeds_hash_cache r)
    (block_hashes r) (skip_reading_prefix_cache r) (resumable r).
Definition request_a : Request := named "a" (hashed_request sample_hash [1; 2]).
Definition request_b : Request := named "b" (hashed_request sample_hash [1; 2; 5; 6; 11]).
Definition request_c : Request := named "c" (hashed_request sample_hash [7; 8; 9; 10]).

(** A new request without hits, and a finished one. *)
Definition start (n : Z) (r : Request) (s : CO) : CO := (allocate_slots 100 true n 0 None 0 0 false (s, r)).2.1.
Definition finish (r : Request) (s : CO) : CO := (kv_free (s, r)).2.1.
Definition after_a : CO := finish request_a (start 2 request_a two_groups_init).

(** ** Properties *)

(** C2: whatever the scheduler does with the KV cache manager - starting requests with or without
    cached blocks, growing them, caching, freeing, evicting and resetting, but not allocating for
    tokens of an external cache ([external_allocation_steals_hit]) - every block's reference count
    stays the number of entries naming it over the tables of all groups, no group names a block
    twice in a table, blocks not yet cached belong to one request of one group, and when every
    table is empty every block but the null block is free again. *)
Theorem kv_reachable_sound mml specs n caching events ui dcp pcp hbs s0 s :
  0 < n → Forall spec_ok specs → coord_init specs n caching events ui dcp pcp hbs = Ret s0 →
  rtc (kv_step mml caching) s0 s →
  ∃ l, coord_good s l ∧ get_num_free_blocks (co_block_pool s) = Z.of_nat (length l) ∧
    ((∀ i m, single_type_managers s !! i = Some m → ∀ req, table m req = []) →
     get_num_free_blocks (co_block_pool s) = num_gpu_blocks (co_block_pool s) - 1).
Proof.
  intros Hn Hspecs Hinit Hr. destruct (coord_init_good _ _ _ _ _ _ _ _ _ Hn Hspecs Hinit) as [Hg0 _].
  destruct (kv_reachable_good _ _ _ _ _ Hg0 Hr) as [l Hg]. exists l.
  split_and!; [done|by apply free_count, Hg|by eapply coord_all_free].
Qed.

(** C9: starting a request with cached blocks. [allocate_slots] never raises; it returns
    [None] exactly when the estimate over all groups exceeds the free blocks, and then no
    table and no free block has changed; otherwise every group's table is its null-padded
    hit followed by new blocks, covers exactly the tokens that need a slot, other requests
    keep their tables, and the free list shrinks by exactly the estimate. *)
Theorem allocate_slots_new mml caching delay s l r local new lookahead hit cbs :
  coord_good s l → slots_call mml r local new lookahead →
  (caching && negb delay = true → hash_ready s r) →
  num_computed_tokens r + hit = local → may_adopt s (request_id r) cbs local →
  ∃ o s', allocate_slots mml caching new hit (Some (GroupBlocks cbs)) lookahead 0 delay (s, r) = (Ret o, s') ∧
    fresh_outcome mml caching delay s l r local new lookahead cbs o s'.
Proof.
  intros Hg Hc Hr Hl Ha. exact (wp_run _ _ _ (allocate_slots_body mml caching delay s r local new lookahead Hc
    hit (Some (GroupBlocks cbs)) noexc _ Hl (wp_fresh_body mml caching delay s l r local new lookahead Hg Hc Hr
    cbs Ha noexc))).
Qed.

(** C10: growing a running request, or starting one with nothing cached. After the blocks
    outside the attention window are given back, [allocate_slots] returns [None] exactly
    when the groups together miss more blocks than are free, changing nothing further;
    otherwise every group's table is extended to cover the tokens, and exactly the missing
    blocks leave the free list. *)
Theorem allocate_slots_running mml caching delay s l r local new lookahead :
  coord_good s l → slots_call mml r local new lookahead →
  (caching && negb delay = true → hash_ready s r) → num_computed_tokens r = local →
  (∀ i m, single_type_managers s !! i = Some m → is_Some (num_cached_block m !! request_id r) ∨
     skipped_blocks m local ≤ Z.of_nat (length (table m (request_id r)))) →
  ∃ o s', allocate_slots mml caching new 0 None lookahead 0 delay (s, r) = (Ret o, s') ∧
    running_outcome mml caching delay s l r local new lookahead o s'.
Proof.
  intros Hg Hc Hr Hl Hk. rewrite <-(Z.add_0_r (num_computed_tokens r)) in Hl.
  exact (wp_run _ _ _ (allocate_slots_body mml caching delay s r local new lookahead Hc
    0 None noexc _ Hl (wp_running_body mml caching delay s l r local new lookahead Hg Hc Hr Hk noexc))).
Qed.

(** hits of a later group are not protected while an earlier group allocates blocks for
    externally computed tokens. In a hybrid model with both local hits and external tokens,
    the block that was the cached hit of the second group is handed out as a new block of
    the first, so one block ends up in both tables of the same request. *)
Theorem external_allocation_steals_hit :
  let s := finish request_c (finish request_a (start 4 request_c (start 2 request_a two_groups_init))) in
  (∃ gs lcm, verify_and_split_kv_cache_groups two_groups = Ret (gs, lcm) ∧
     (hybrid_find_longest_cache_hit gs 2 2 false lcm (block_hashes request_b) 4 (co_block_pool s)).1
       = Ret (Some ([[Blk 1]; [Blk 2]], 2))) ∧
  let s' := (allocate_slots 100 true 1 2 (Some (GroupBlocks [[Blk 1]; [Blk 2]])) 0 2 false (s, request_b)).2.1 in
  get_blocks "b" s' = [[Blk 1; Blk 2; Blk 3]; [Blk 2; Blk 4; Blk 6]] ∧
  ref_of (co_block_pool s') (Blk 2) = 2.
Proof.
  intros s. split; [|vm_compute; done]. eexists _, _.
  split; [vm_compute; reflexivity|]. vm_compute. reflexivity.
Qed.

(** ** Witnesses *)

Lemma two_groups_good : coord_good two_groups_init (Blk <$> seq 1 6).
Proof.
  apply (coord_init_good two_groups 7 true false false 1 1 2 two_groups_init); [lia| |reflexivity].
  repeat constructor; simpl; lia.
Qed.

Lemma two_groups_ready s r :
  enable_caching (co_block_pool s) = true → hash_block_size (co_block_pool s) = 2 →
  mm_features r = [] → memo_ok r → num_tokens r / 2 ≤ Z.of_nat (length (block_hashes r)) →
  Forall (λ m, kv_cache_group_id m ∈ [0; 1] ∧ block_size m = 2) (single_type_managers s) → hash_ready s r.
Proof.
  intros H1 H2 H3 H4 H5 H6. split; rewrite ?H2; try done. intros i m Hm.
  destruct (proj1 (Forall_lookup _ _) H6 i m Hm) as [Hg Hb]. rewrite Hb. split; [|by exists 1].
  rewrite !elem_of_cons, elem_of_nil in Hg. lia.
Qed.

Ltac sample_ready := apply two_groups_ready;
  [vm_compute; reflexivity|vm_compute; reflexivity|vm_compute; reflexivity|vm_compute; done
  |vm_compute; done|apply (bool_decide_unpack _); vm_compute; done].

Lemma a_known : ∀ i m, single_type_managers two_groups_init !! i = Some m →
  is_Some (num_cached_block m !! request_id request_a) ∨
  skipped_blocks m 0 ≤ Z.of_nat (length (table m (request_id request_a))).
Proof.
  apply (proj1 (Forall_lookup (λ m, is_Some (num_cached_block m !! request_id request_a) ∨
    skipped_blocks m 0 ≤ Z.of_nat (length (table m (request_id request_a)))) _)).
  apply (bool_decide_unpack _). vm_compute. done.
Qed.

Lemma a_call : slots_call 100 request_a 0 2 0.
Proof. split; vm_compute; (split || idtac); done. Qed.

Lemma a_ready : hash_ready two_groups_init request_a.
Proof. sample_ready. Qed.

Lemma free_length s l n :
  coord_good s l → get_num_free_blocks (co_block_pool s) = Z.of_nat n → length l = n.
Proof. intros Hg Hn. rewrite (free_count _ _ (cg_pool _ _ Hg)) in Hn. lia. Qed.

Lemma allocate_slots_running_witness :
  ∃ s', allocate_slots 100 true 2 0 None 0 0 false (two_groups_init, request_a)
      = (Ret (Some (GroupBlocks [[Blk 1]; [Blk 2]])), s') ∧ ∃ l', coord_good s'.1 l' ∧ length l' = 4%nat.
Proof.
  destruct (allocate_slots_running 100 true false two_groups_init (Blk <$> seq 1 6) request_a 0 2 0)
    as (o & s' & Hrun & s1 & l1 & Hs1 & Hg1 & Hge & Hout).
  - apply two_groups_good.
  - apply a_call.
  - intros _. apply a_ready.
  - reflexivity.
  - apply a_known.
  - assert (length l1 = 6%nat) as Hl1.
    { apply (free_length s1); [done|]. assert (s1 = (co_remove_skipped_blocks (request_id request_a) 0
        two_groups_init).2) as -> by by rewrite Hs1. vm_compute. reflexivity. }
    rewrite decide_True in Hout by (rewrite Hl1; vm_compute; lia).
    destruct Hout as (cols & l' & Ho & Hg' & Hl' & _). exists s'. split.
    + rewrite Hrun. vm_compute in Hrun. congruence.
    + exists l'. split; [exact Hg'|]. rewrite Hl1 in Hl'. revert Hl'. vm_compute (sum_list _). lia.
Defined.

Lemma after_a_reached : rtc (kv_step 100 true) two_groups_init after_a.
Proof.
  eapply rtc_l; [|apply rtc_once].
  - eapply (kv_step_run 100 true two_groups_init request_a 0 2 0 false _
      (start 2 request_a two_groups_init)); [apply a_call|intros _; apply a_ready|done|apply a_known|].
    vm_compute. reflexivity.
  - eapply (kv_step_free 100 true _ request_a). vm_compute. reflexivity.
Qed.

Lemma kv_reachable_sound_witness :
  ∃ l, coord_good after_a l ∧ get_num_free_blocks (co_block_pool after_a) = Z.of_nat (length l).
Proof.
  destruct (kv_reachable_sound 100 two_groups 7 true false false 1 1 2 two_groups_init after_a)
    as (l & Hg & Hl & _).
  - lia.
  - repeat constructor; simpl; lia.
  - reflexivity.
  - apply after_a_reached.
  - exists l. split; [exact Hg|exact Hl].
Defined.

(** A check of [may_adopt] for hits without null blocks. *)
Lemma may_adopt_check s req cbs local :
  length cbs = length (single_type_managers s) → NoDup (filter (.≠ Blk 0) (concat cbs)) →
  Forall (λ x : MG * list bref, num_cached_block x.1 !! req = None ∧ table x.1 req = [] ∧
    mgr_enable_caching x.1 = true ∧ NoDup x.2 ∧
    Forall (λ b, b ∈ blocks (co_block_pool s) ∧ b ≠ Blk 0 ∧ is_Some (hash_of (co_block_pool s) b)) x.2 ∧
    Z.of_nat (length x.2) * block_size x.1 ≤ local) (zip (single_type_managers s) cbs) →
  may_adopt s req cbs local.
Proof.
  intros Hlen Hnd Hall. split; [done| |done]. intros i m cb Hm Hcb.
  destruct (proj1 (Forall_lookup _ _) Hall i (m, cb)) as (H1 & H2 & H3 & H4 & H5 & H6).
  { rewrite lookup_zip_with, Hm, Hcb. done. }
  simpl in *. rewrite Forall_forall in H5. split; try done; try lia; [by left| |].
  - split; [intros b Hb; by apply H5|by apply NoDup_filter|].
    exists 0%nat, cb. split; [done|]. intros Hb. by apply H5 in Hb as (_ & ? & _).
  - intros b Hb _. by apply H5.
Qed.

Lemma b_adopts : may_adopt after_a "b" [[Blk 1]; [Blk 2]] 2.
Proof.
  apply may_adopt_check; [vm_compute; reflexivity|..]; apply (bool_decide_unpack _); vm_compute; done.
Qed.

Lemma allocate_slots_new_witness :
  ∃ s' l', allocate_slots 100 true 3 2 (Some (GroupBlocks [[Blk 1]; [Blk 2]])) 0 0 false (after_a, request_b)
      = (Ret (Some (GroupBlocks [[Blk 3; Blk 4]; [Blk 5; Blk 6]])), s') ∧ coord_good s'.1 l' ∧ length l' = 0%nat.
Proof.
  destruct (kv_reachable_good 100 true _ _ _ two_groups_good after_a_reached) as [l Hl].
  assert (length l = 6%nat) as Hlen.
  { apply (free_length after_a); [done|]. vm_compute. reflexivity. }
  destruct (allocate_slots_new 100 true false after_a l request_b 2 3 0 2 [[Blk 1]; [Blk 2]])
    as (o & s' & Hrun & Hout).
  - exact Hl.
  - split; vm_compute; (split || idtac); done.
  - intros _. sample_ready.
  - reflexivity.
  - exact b_adopts.
  - assert (sum_list_Z (estimates after_a (request_id request_b) [[Blk 1]; [Blk 2]] (slot_tokens 100 2 3 0) 2) = 6)
      as Hk by (vm_compute; reflexivity).
    unfold fresh_outcome in Hout. rewrite Hk, Hlen, decide_True in Hout by done.
    destruct Hout as (cols & l' & _ & Hg' & Hl' & _).
    assert (Ret o = Ret (Some (GroupBlocks [[Blk 3; Blk 4]; [Blk 5; Blk 6]]))) as Ho.
    { transitivity (allocate_slots 100 true 3 2 (Some (GroupBlocks [[Blk 1]; [Blk 2]])) 0 0 false
        (after_a, request_b)).1; [by rewrite Hrun|]. vm_compute. reflexivity. }
    exists s', l'. split; [rewrite <-Ho; exact Hrun|]. split; [exact Hg'|lia].
Defined.

(** the blocks of a second full-attention group are not cut to the hit length. With two
    full-attention groups of different block sizes and a sliding-window group that accepts
    fewer tokens, four tokens are reported but the second group's column still holds the
    blocks of eight. *)
Theorem second_full_group_not_cut :
  let specs := [mkSpec 2 FullAttention true []; mkSpec 4 FullAttention false []; mkSpec 2 (SlidingWindow 3) false []] in
  let d := named "d" (hashed_request sample_hash [1; 2; 3; 4; 5; 6; 7; 8; 9]) in
  ∃ s0 groups lcm, coord_init specs 20 true false false 1 1 2 = Ret s0 ∧
    verify_and_split_kv_cache_groups specs = Ret (groups, lcm) ∧
    let s := (kv_evict_blocks [12] (finish d (start 9 d s0))).2 in
    (hybrid_find_longest_cache_hit groups 3 2 false lcm (block_hashes d) 8 (co_block_pool s)).1
      = Ret (Some ([[Blk 1; Blk 2]; [Blk 6; Blk 7]; [Blk 0; Blk 10]], 4)).
Proof.
  intros specs d. eexists _, _, _. split; [vm_compute; reflexivity|]. split; [vm_compute; reflexivity|].
  vm_compute. reflexivity.
Qed.
