(* ===== verification/Admission.v ===== *)
(** From lookup to allocation: what the searches return may be adopted, so a new request that
    is looked up with [get_computed_blocks] is allocated by [allocate_slots] without an error. *)
From S2P Require Import Prelude.
From S2P Require Import Request.
From S2P Require Import BlockHash.
From S2P Require Import FreeQueue.
From S2P Require Import BlockMap.
From S2P Require Import BlockPool.
From S2P Require Import PoolInv.
From S2P Require Import PoolCache.
From S2P Require Import PoolSteps.
From S2P Require Import Manager.
From S2P Require Import ManagerInv.
From S2P Require Import ManagerSteps.
From S2P Require Import CacheHit.
From S2P Require Import Coordinator.
From S2P Require Import KVCacheManager.
From S2P Require Import HitSpecs.
From S2P Require Import HybridHit.
From S2P Require Import CoordinatorInv.
From S2P Require Import AllocateSlots.
From S2P Require Import KVSteps.
Local Open Scope Z_scope.

(** ** Distinct hashes give distinct blocks *)

(** Hashes of one length, none twice. *)
Definition distinct_hashes (hs : list bytes) : Prop :=
  NoDup hs ∧ ∃ k, ∀ h, h ∈ hs → length h = k.

Lemma hl_get_distinct hs bs hbs L i j h :
  0 < bs → 0 < hbs → distinct_hashes hs → select_hashes hs bs hbs = Ret L →
  hl_get L (Z.of_nat i) = Some h → hl_get L (Z.of_nat j) = Some h → i = j.
Proof.
  intros Hb Hh [Hnd [k Hk]] HL Hi Hj. pose proof (select_hashes_valid _ _ _ _ Hb Hh HL) as Hv.
  assert (∃ f, 0 < f ∧ ∀ n x, hl_get L (Z.of_nat n) = Some x → ∃ y z, hs !! (n * Z.to_nat f)%nat = Some y ∧ x = y ++ z)
    as (f & Hf & Hget).
  { destruct L as [hs'|hs' f]; simpl in *.
    - exists 1. split; [lia|]. intros n x Hx. rewrite py_get_nonneg, Nat2Z.id in Hx by lia.
      assert (hs' = hs) as -> by (revert HL; unfold select_hashes; repeat case_match; congruence).
      exists x, []. rewrite Nat.mul_1_r, app_nil_r. done.
    - exists f. split; [done|]. intros n x Hx.
      assert (hs' = hs) as -> by (revert HL; unfold select_hashes; repeat case_match; congruence).
      unfold get_value_at in Hx. rewrite py_get_nonneg in Hx by lia.
      replace (Z.to_nat (Z.of_nat n * f)) with (n * Z.to_nat f)%nat in Hx by lia.
      destruct (hs !! _) as [y|] eqn:Hy; [|done]. simpl in Hx.
      destruct (concat_hashes _ _ _) as [z|]; simplify_eq/=. by exists y, z. }
  destruct (Hget i h Hi) as (y & z & Hy & ->). destruct (Hget j _ Hj) as (y' & z' & Hy' & Heq).
  assert (y = y') as ->.
  { apply app_inj_1 in Heq as [? _]; [done|].
    rewrite (Hk y), (Hk y'); [done|by eapply list_elem_of_lookup_2..]. }
  pose proof (NoDup_lookup _ _ _ _ Hnd Hy Hy'). nia.
Qed.

Lemma group_key_group g g' h h' :
  0 ≤ g < 2 ^ 32 → 0 ≤ g' < 2 ^ 32 → group_key g h = group_key g' h' → g = g'.
Proof.
  intros Hg Hg' Heq. pose proof (group_key_round_trip h g) as H. pose proof (group_key_round_trip h' g') as H'.
  rewrite group_key_make in H, H' by done. destruct H as (_ & _ & H), H' as (_ & _ & H'). congruence.
Qed.

(** ** Search results can be adopted *)

(** The managers of a caching coordinator, as built from [specs]. *)
Record coord_for (specs : list KVCacheSpec) (s : CO) : Prop := {
  cf_len : length (single_type_managers s) = length specs;
  cf_caching : enable_caching (co_block_pool s) = true;
  cf_each : ∀ i m sp, single_type_managers s !! i = Some m → specs !! i = Some sp →
    block_size m = spec_block_size sp ∧ kind m = spec_kind sp ∧ kv_cache_group_id m = Z.of_nat i
}.

(** What a search of either coordinator answers. *)
Definition answered (p : P) (specs : list KVCacheSpec) (hashes : list bytes) (hbs max : Z) (res : columns) (h : Z) :
    Prop :=
  0 ≤ h ≤ max ∧ length res = length specs ∧
  ∀ i sp, specs !! i = Some sp → (spec_block_size sp | h) ∧ ∃ c, res !! i = Some c ∧
    usable p [Z.of_nat i] (spec_hashes hashes hbs sp) (spec_kind sp) (spec_block_size sp)
      (Z.to_nat (h / spec_block_size sp)) [c].

(** No group has the request. *)
Definition unknown (s : CO) (req : string) : Prop :=
  ∀ i m, single_type_managers s !! i = Some m → num_cached_block m !! req = None ∧ table m req = [].

Section adopt.
Context (specs : list KVCacheSpec) (s : CO) (l : list bref) (hashes : list bytes) (hbs max : Z) (req : string).
Context (res : columns) (h : Z).
Hypothesis Hg : coord_good s l.
Hypothesis Hfor : coord_for specs s.
Hypothesis Hnew : unknown s req.
Hypothesis Hhbs : 0 < hbs.
Hypothesis Hmax : max / hbs ≤ Z.of_nat (length hashes).
Hypothesis Hdist : distinct_hashes hashes.
Hypothesis Hcount : Z.of_nat (length specs) ≤ 2 ^ 32.
Hypothesis Hspecs : ∀ sp, sp ∈ specs → 0 < spec_block_size sp ∧ (hbs | spec_block_size sp).
Hypothesis Hans : answered (co_block_pool s) specs hashes hbs max res h.

(** Each column is a table of blocks whose hash carries the group. *)
Lemma answered_column i sp c :
  specs !! i = Some sp → res !! i = Some c →
  length c = Z.to_nat (h / spec_block_size sp) ∧ table_ok (co_block_pool s) c ∧
  ∀ b, b ∈ c → b ≠ Blk 0 → ∃ x, hash_of (co_block_pool s) b = Some (group_key (Z.of_nat i) x).
Proof using Hg Hhbs Hmax Hdist Hspecs Hans.
  intros Hi Hc. destruct Hans as (Hh & _ & Heach). destruct (Heach i sp Hi) as (_ & c' & Hc' & Hu).
  assert (c' = c) as -> by congruence. destruct Hu as (st & _ & Hcol). inversion Hcol as [|? ? ? ? Hcl _]; subst.
  destruct (Hspecs sp ltac:(by eapply list_elem_of_lookup_2)) as [Hb Hdiv].
  destruct (select_hashes_len hashes (spec_block_size sp) hbs h) as (_ & L & HL & _); try done; [lia| |].
  { etrans; [apply (Z.div_le_mono h max); lia|done]. }
  assert (spec_hashes hashes hbs sp = L) as HLs by (unfold spec_hashes; by rewrite HL).
  destruct (column_table _ _ _ _ _ _ _ (cg_pool _ _ Hg) Hcl) as [Htk _].
  { intros x y w Hx Hy. rewrite HLs in Hx, Hy. by eapply (hl_get_distinct hashes (spec_block_size sp) hbs L). }
  split_and!; [apply Hcl|done|]. intros b [j Hj]%list_elem_of_lookup Hne.
  destruct Hcl as [Hlen Hnull Hhit]. pose proof (lookup_lt_Some _ _ _ Hj).
  destruct (decide (j < st)%nat).
  { rewrite Hnull in Hj by lia. congruence. }
  destruct (Hhit j ltac:(lia)) as (x & b' & _ & Hb' & (_ & _ & Hx)). assert (b' = b) as -> by congruence. eauto.
Qed.

Lemma answered_nodup : NoDup (filter (.≠ Blk 0) (concat res)).
Proof using Hg Hhbs Hmax Hdist Hspecs Hans Hcount.
  assert (∀ n, (n ≤ length res)%nat → NoDup (filter (.≠ Blk 0) (concat (take n res)))) as H.
  2:{ rewrite <-(firstn_all res). by apply H. }
  pose proof (proj1 (proj2 Hans)) as Hlen.
  assert (∀ i c, res !! i = Some c → ∃ sp, specs !! i = Some sp ∧ (i < length specs)%nat) as Hsp.
  { intros i c Hc. apply lookup_lt_Some in Hc. destruct (lookup_lt_is_Some_2 specs i) as [sp Hs]; [lia|].
    exists sp. split; [done|lia]. }
  induction n as [|n IH]; intros Hn; [constructor|].
  destruct (lookup_lt_is_Some_2 res n) as [c Hc]; [lia|]. destruct (Hsp n c Hc) as (sp & Hs & Hns).
  rewrite (take_snoc _ _ _ Hc), concat_app, filter_app. simpl. rewrite app_nil_r.
  destruct (answered_column n sp c Hs Hc) as (_ & Htk & Hkey).
  apply NoDup_app. split_and!; [apply IH; lia| |apply Htk].
  intros b [Hne Hb]%list_elem_of_filter [_ Hb']%list_elem_of_filter. destruct (Hkey b Hb' Hne) as [x Hx].
  apply list_elem_of_concat in Hb as (c' & Hc' & Hb). apply list_elem_of_lookup in Hc' as [j Hj].
  apply lookup_take_Some in Hj as [Hj Hlt]. destruct (Hsp j c' Hj) as (sp' & Hs' & Hjs).
  destruct (answered_column j sp' c' Hs' Hj) as (_ & _ & Hkey'). destruct (Hkey' b Hb Hne) as [x' Hx'].
  rewrite Hx in Hx'. injection Hx' as Heq. apply group_key_group in Heq; lia.
Qed.

Lemma answered_adoptable : may_adopt s req res h.
Proof using Hg Hfor Hnew Hhbs Hmax Hdist Hspecs Hans Hcount.
  destruct Hfor as [F1 F2 F3]. pose proof Hans as (Hh & Hlen & Heach). split.
  - lia.
  - intros i m c Hm Hc. destruct (lookup_lt_is_Some_2 specs i) as [sp Hs].
    { apply lookup_lt_Some in Hm. lia. }
    destruct (answered_column i sp c Hs Hc) as (Hcl & Htk & Hkey). destruct (F3 i m sp Hm Hs) as (Hb & _ & _).
    destruct (Hnew i m Hm) as [H1 H2]. destruct (Hspecs sp ltac:(by eapply list_elem_of_lookup_2)) as [Hpos _].
    split; try done; try lia.
    + left. rewrite (ml_caching _ _ (cg_each _ _ Hg i m Hm)). done.
    + intros b Hb' Hne. destruct (Hkey b Hb' Hne) as [x ->]. by eexists.
    + rewrite Hcl, Hb. rewrite Z2Nat.id by (apply Z.div_pos; lia). pose proof (Z.mul_div_le h _ Hpos). lia.
  - apply answered_nodup.
Qed.
End adopt.

(** ** The coordinators' searches *)

Lemma lcm_list_least xs d : (∀ x, x ∈ xs → (x | d)) → (lcm_list xs | d).
Proof.
  induction xs as [|x xs IH]; intros H; [apply Z.divide_1_l|]. unfold lcm_list. simpl.
  apply Z.lcm_least; [apply H; by left|]. apply IH. intros y Hy. apply H. by right.
Qed.

Lemma lcm_list_nonneg xs : 0 ≤ lcm_list xs.
Proof. destruct xs; [done|]. apply Z.lcm_nonneg. Qed.

Lemma lcm_list_same xs ys : (∀ x, x ∈ xs ↔ x ∈ ys) → lcm_list xs = lcm_list ys.
Proof.
  intros H. apply Z.divide_antisym_nonneg; [apply lcm_list_nonneg..| |];
    apply lcm_list_least; intros x Hx; apply lcm_list_div; by apply H.
Qed.

(** The alignment of the searches: the least common multiple of all block sizes. *)
Definition alignment (specs : list KVCacheSpec) : Z := lcm_list (spec_block_size <$> specs).

Lemma verify_alignment specs groups lcm :
  verify_and_split_kv_cache_groups specs = Ret (groups, lcm) → lcm = alignment specs.
Proof.
  intros Hv. destruct (verify_grouping _ _ _ Hv) as (Hgr & -> & Hperm & _). apply lcm_list_same.
  intros x. rewrite !list_elem_of_fmap. split.
  - intros (g & -> & Hg). rewrite <-Hperm in Hg. exists g.1. split; [done|]. by eapply group_spec.
  - intros (sp & -> & [i Hi]%list_elem_of_lookup). destruct (group_of _ _ _ Hv i sp Hi) as (g & Hg & <- & _).
    exists g. by rewrite <-Hperm.
Qed.

(** The configurations and requests that the searches are made for. *)
Definition search_call (specs : list KVCacheSpec) (hashes : list bytes) (hbs max : Z) (eagle : bool) : Prop :=
  hybrid_call specs hashes hbs (alignment specs) max eagle.

Lemma unitary_answers sp eagle hashes max p l E :
  pool_inv p l → search_call [sp] hashes (spec_block_size sp) max eagle →
  wp (unitary_find_longest_cache_hit sp eagle 1 1 hashes max)
    (λ o p', p' = p ∧ ∃ res h, o = Some (res, h) ∧ answered p [sp] hashes (spec_block_size sp) max res h) E p.
Proof.
  intros Hp [C1 C2 C3 C4 C5 C6]. destruct (C5 sp ltac:(by left)) as (Hb & _ & Hok).
  unfold alignment, lcm_list in Hok. simpl in Hok. rewrite Z.lcm_1_r_nonneg in Hok by lia.
  unfold unitary_find_longest_cache_hit. cbn [Z.ltb]. change (1 <? 1) with false. cbn iota. apply wp_bind.
  eapply wp_call; [apply (wp_find p l [0] (PlainHashes hashes) Hp ltac:(intros g ->%list_elem_of_singleton; lia)
    ltac:(done) I sp max eagle (spec_block_size sp) E); done|].
  intros o p' (-> & res & n & -> & (Hu & Hfit & Hal & _)). destruct Hu as (st & Hst & Hc).
  inversion Hc as [|? c ? cs Hcol Hcs]; subst. inversion Hcs; subst.
  apply wp_bind. eapply wp_of_outcome; [simpl; by rewrite (cl_len _ _ _ _ _ _ Hcol)|]. wp_steps.
  split; [done|]. exists [c], (Z.of_nat n * spec_block_size sp). split; [done|]. split_and!; [nia|done|done|].
  intros i sp' Hi. destruct i as [|i]; simplify_eq/=. split; [apply Z.divide_factor_r|].
  rewrite Z.div_mul, Nat2Z.id by lia. unfold spec_hashes, select_hashes. rewrite Z.eqb_refl.
  exists c. split; [done|]. by exists st.
Qed.

Lemma search_answers specs eagle hbs hashes max search p l E :
  pool_inv p l → get_kv_cache_coordinator specs eagle true 1 1 hbs = Ret search →
  search_call specs hashes hbs max eagle →
  wp (search hashes max)
    (λ o p', p' = p ∧ ∃ res h, o = Some (res, h) ∧ answered p specs hashes hbs max res h) E p.
Proof.
  intros Hp Hco Hcall. destruct specs as [|sp [|sp2 specs]].
  { unfold get_kv_cache_coordinator in Hco. simpl in Hco. destruct (hbs =? 0); simpl in Hco; done. }
  - cbn in Hco. destruct (Z.eqb_spec hbs (spec_block_size sp)) as [->|]; [|done]. injection Hco as <-.
    by eapply unitary_answers.
  - unfold get_kv_cache_coordinator in Hco. simpl negb in Hco. cbn iota in Hco.
    destruct (hbs =? 0); [done|]. destruct (negb (_ && _)); [done|]. simpl in Hco.
    destruct (verify_and_split_kv_cache_groups _) as [[groups lcm]|e] eqn:Hv; [|done]. injection Hco as <-.
    pose proof (verify_alignment _ _ _ Hv) as ->.
    eapply wp_call; [by eapply (hybrid_find_answers (sp :: sp2 :: specs))|].
    intros o p' (-> & res & h & -> & (Hh & Hal & Hlen & Heach & _)). split; [done|]. exists res, h.
    split; [done|]. split_and!; [lia|lia|done|]. intros i s Hi. split; [|by apply Heach].
    etrans; [|exact Hal]. apply lcm_list_div, list_elem_of_fmap_2. by eapply list_elem_of_lookup_2.
Qed.

(** ** Starting a request *)

(** A request that has not run yet, on a coordinator that caches. *)
Record startable (specs : list KVCacheSpec) (hbs : Z) (eagle : bool) (s : CO) (r : Request) : Prop := {
  sb_for : coord_for specs s;
  sb_ready : hash_ready s r;
  sb_hash_size : hash_block_size (co_block_pool s) = hbs;
  sb_unknown : unknown s (request_id r);
  sb_computed : num_computed_tokens r = 0;
  sb_distinct : distinct_hashes (block_hashes r);
  sb_search : search_call specs (block_hashes r) hbs (num_tokens r - 1) eagle
}.

Lemma existsb_nonempty_false cols : existsb nonempty cols = false → ∀ i c, cols !! i = Some c → c = [].
Proof.
  intros H i c Hc. destruct c as [|b c]; [done|]. exfalso.
  assert (existsb nonempty cols = true) as Ht; [|congruence]. apply existsb_exists.
  exists (b :: c). split; [|done]. by eapply list_elem_of_In, list_elem_of_lookup_2.
Qed.

(** An answer without blocks is an answer of no tokens. *)
Lemma answered_empty p specs hashes hbs max res h :
  answered p specs hashes hbs max res h → specs ≠ [] → (∀ sp, sp ∈ specs → 0 < spec_block_size sp) →
  existsb nonempty res = false → h = 0.
Proof.
  intros (Hh & Hlen & Heach) Hne Hpos Hemp. destruct specs as [|sp specs]; [done|].
  destruct (Heach 0%nat sp eq_refl) as ([q ->] & c & Hc & (st & _ & Hcol)).
  rewrite (existsb_nonempty_false _ Hemp _ _ Hc) in Hcol. inversion Hcol as [|? ? ? ? [Hl _ _] _]; subst.
  pose proof (Hpos sp ltac:(by left)). rewrite Z.div_mul in Hl by lia. simpl in Hl. nia.
Qed.

(** What the caller of [allocate_slots] relies on: the request changes in its memo only, other
    requests keep their tables, a grant covers the slots, and without one the request keeps
    the length of its tables; a refusal means that the groups miss more blocks than are free. *)
Record slots_kept (slots : Z) (granted : bool) (req : string) (m m' : MG) : Prop := {
  sk_config : mgr_config m' = mgr_config m;
  sk_others : ∀ x, x ≠ req → table m' x = table m x ∧ num_cached_block m' !! x = num_cached_block m !! x;
  sk_length : (length (table m req) ≤ length (table m' req))%nat;
  sk_bound : Z.of_nat (length (table m' req)) ≤ Z.max (Z.of_nat (length (table m req))) (cdiv slots (block_size m));
  sk_grant : if granted then slots ≤ block_size m * Z.of_nat (length (table m' req))
    else length (table m' req) = length (table m req) ∧ num_cached_block m' = num_cached_block m
}.
Definition slots_promise (mml h new lookahead : Z) (s : CO) (l : list bref) (r : Request) (o : option KVCacheBlocks)
    (s' : COR) : Prop :=
  (o = None → length l < sum_list (needs s (request_id r) (slot_tokens mml h new lookahead)))%nat ∧
  ∃ l', coord_good s'.1 l' ∧ same_but_memo r s'.2 ∧ frame (co_block_pool s) (co_block_pool s'.1) ∧
    all_managers (λ _, slots_kept (slot_tokens mml h new lookahead) (bool_decide (o ≠ None)) (request_id r)) s s'.1.

Lemma all_managers_back R s s' i m' :
  all_managers R s s' → single_type_managers s' !! i = Some m' →
  ∃ m, single_type_managers s !! i = Some m ∧ R i m m'.
Proof.
  intros [Hl H] Hm'. destruct (lookup_lt_is_Some_2 (single_type_managers s) i) as [m Hm].
  { rewrite <-Hl. by eapply lookup_lt_Some. }
  destruct (H i m Hm) as (m2 & Hm2 & HR). exists m. by assert (m2 = m') as <- by congruence.
Qed.

(** A hit never makes a group ask for more blocks than it would without. *)
Lemma estimate_le m p req cb n t :
  table m req = [] → 0 ≤ skipped_blocks m t → Z.of_nat (length cb) ≤ cdiv n (block_size m) →
  estimate m p req cb n t ≤ Z.of_nat (missing m req n).
Proof.
  intros Ht Hs Hl. unfold estimate, missing. rewrite Ht. simpl length. case_decide; [lia|].
  unfold get_num_evictable_blocks.
  set (d := drop _ cb). pose proof (length_filter (λ r, releasable (pheap p) r = true) d) as Hf.
  assert (length d = length cb - Z.to_nat (skipped_blocks m t - Z.of_nat 0))%nat as Hd by apply length_drop. lia.
Qed.

Lemma estimates_le s req cbs n t :
  length cbs = length (single_type_managers s) →
  (∀ i m cb, single_type_managers s !! i = Some m → cbs !! i = Some cb →
     table m req = [] ∧ 0 ≤ skipped_blocks m t ∧ Z.of_nat (length cb) ≤ cdiv n (block_size m)) →
  sum_list_Z (estimates s req cbs n t) ≤ Z.of_nat (sum_list (needs s req n)).
Proof.
  unfold estimates, needs. generalize (single_type_managers s) as ms. intros ms. revert cbs.
  induction ms as [|m ms IH]; intros [|cb cbs] Hl Hall; simplify_eq/=; [done|].
  destruct (Hall 0%nat m cb eq_refl eq_refl) as (H1 & H2 & H3).
  pose proof (estimate_le m (co_block_pool s) req cb n t H1 H2 H3).
  specialize (IH cbs Hl (λ i, Hall (S i))). unfold sum_list_Z in *. simpl. lia.
Qed.

Lemma fresh_promise mml caching delay s l r h new lookahead cbs o s' :
  coord_good s l → slots_call mml r h new lookahead → may_adopt s (request_id r) cbs h →
  unknown s (request_id r) → fresh_outcome mml caching delay s l r h new lookahead cbs o s' →
  slots_promise mml h new lookahead s l r o s'.
Proof.
  intros Hg Hc Ha Hun Hout. unfold fresh_outcome in Hout. case_decide as Hk.
  - destruct Hout as (cols & l' & -> & Hg' & _ & Hr & Hf & Hall). split; [done|]. exists l'. split_and!; [done..|].
    eapply all_managers_impl; [exact Hall|]. intros i m m' Hm (cb & bs & _ & _ & Hmc & _ & Hlen & _ & Ho).
    destruct (Hun i m Hm) as [_ Ht]. split; [done|done|rewrite Ht; simpl; lia|lia|].
    rewrite bool_decide_true by done. pose proof (ml_size _ _ (cg_each _ _ Hg i m Hm)) as Hb.
    pose proof (cdiv_spec (slot_tokens mml h new lookahead) (block_size m) Hb). rewrite Hlen. nia.
  - destruct Hout as (-> & Hr & Hg' & Hf & Hall). split.
    { intros _. assert (sum_list_Z (estimates s (request_id r) cbs (slot_tokens mml h new lookahead) h) ≤
        Z.of_nat (sum_list (needs s (request_id r) (slot_tokens mml h new lookahead)))); [|lia].
      pose proof Ha as [A1 A2 _]. apply estimates_le; [done|]. intros i m cb Hm Hcb. destruct (Hun i m Hm) as [_ Ht].
      destruct (cg_each _ _ Hg i m Hm) as [_ Hb Hkd _ _]. destruct Hc as [C1 C2 C3 C4].
      destruct (skipped_blocks_bound m h Hb Hkd (proj1 C1)) as [? _]. split_and!; [done|done|].
      destruct (A2 i m cb Hm Hcb) as [_ _ _ _ _ A6 _ _].
      pose proof (cdiv_mono h (slot_tokens mml h new lookahead) (block_size m) Hb). unfold slot_tokens in *.
      pose proof (cdiv_spec h (block_size m) Hb). nia. }
    exists l. rewrite Hr. split_and!; [done|apply same_but_memo_refl|done|].
    eapply all_managers_impl; [exact Hall|]. intros i m m' Hm (Hmc & Hn & Ht).
    split; [done|intros x _; by rewrite Ht, Hn|by rewrite Ht|rewrite Ht; lia|].
    rewrite bool_decide_false by auto. by rewrite Ht.
Qed.

Lemma running_promise mml caching delay s l r h new lookahead o s' :
  coord_good s l → 0 ≤ h → running_outcome mml caching delay s l r h new lookahead o s' →
  slots_promise mml h new lookahead s l r o s'.
Proof.
  intros Hg Hh (s1 & l1 & Hs1 & Hg1 & Hl1 & Hout).
  assert (∀ i m, single_type_managers s !! i = Some m →
    length (skip_table m (request_id r) (skip_count m (request_id r) h)) = length (table m (request_id r))) as Hskip.
  { intros i m Hm. apply skip_table_length. destruct (cg_each _ _ Hg i m Hm) as [_ Hb Hk _ _]. by apply skipped_blocks_bound. }
  case_decide.
  - destruct Hout as (cols & l' & -> & Hg' & _ & Hr & Hf & Hall). split; [done|]. exists l'. split_and!; [done..|].
    eapply all_managers_impl; [exact Hall|]. intros i m m' Hm (bs & _ & Hc & Hbs & Ht & Hlen & _ & Ho).
    split; [done|done|rewrite Ht, length_app, (Hskip i m Hm); lia|rewrite Ht, length_app, (Hskip i m Hm), Hbs; unfold missing; lia|].
    by rewrite bool_decide_true.
  - destruct Hout as (-> & ->). split; [intros _; lia|]. destruct (wp_elim _ _ _ _ _ (wp_co_remove_skipped s l (request_id r) h noexc Hg Hh) Hs1)
      as (_ & _ & _ & _ & Hf & _ & _ & _ & Hall).
    exists l1. split_and!; [done|apply same_but_memo_refl|done|].
    eapply all_managers_impl; [exact Hall|]. intros i m m' Hm [[O1 O2 O3] Ht].
    split; [done|intros x Hx; rewrite O2; by rewrite O3|by rewrite Ht, (Hskip i m Hm)|rewrite Ht, (Hskip i m Hm); lia|].
    rewrite bool_decide_false by auto. by rewrite Ht, (Hskip i m Hm).
Qed.

Section start.
Context (specs : list KVCacheSpec) (eagle : bool) (hbs mml : Z) (s : CO) (l : list bref) (r : Request).
Hypothesis Hg : coord_good s l.
Hypothesis Hs : startable specs hbs eagle s r.

Lemma start_ready b : b = true → hash_ready s r.
Proof using Hs. intros _. apply Hs. Qed.

(** With nothing cached. *)
Lemma wp_start_empty new lookahead delay E :
  slots_call mml r 0 new lookahead →
  wp (allocate_slots mml true new 0 (Some EmptyBlocks) lookahead 0 delay)
    (slots_promise mml 0 new lookahead s l r) E (s, r).
Proof using Hg Hs.
  intros Hc. eapply (wp_call _ (running_outcome mml true delay s l r 0 new lookahead));
    [|intros o s'; by apply running_promise].
  apply (allocate_slots_body mml true delay s r 0 new lookahead Hc 0 (Some EmptyBlocks));
    [rewrite (sb_computed _ _ _ _ _ Hs); done|].
  apply (wp_running_body mml true delay s l r 0 new lookahead Hg Hc (start_ready _)).
  intros i m Hm. right. destruct (cg_each _ _ Hg i m Hm) as [_ Hb Hk _ _].
  destruct (skipped_blocks_bound m 0 Hb Hk ltac:(lia)) as [_ H]. pose proof (cdiv_spec 0 (block_size m) Hb). nia.
Qed.

(** With the cached blocks of [h] tokens. *)
Lemma wp_start_hit new lookahead delay res h E :
  slots_call mml r h new lookahead →
  answered (co_block_pool s) specs (block_hashes r) hbs (num_tokens r - 1) res h →
  wp (allocate_slots mml true new h (Some (GroupBlocks res)) lookahead 0 delay)
    (slots_promise mml h new lookahead s l r) E (s, r).
Proof using Hg Hs.
  intros Hc Ha. destruct Hs as [S1 S2 S3 S4 S5 S6 [C1 C2 C3 C4 C5 C6]].
  assert (may_adopt s (request_id r) res h) as Hma.
  { eapply (answered_adoptable specs s l (block_hashes r) hbs (num_tokens r - 1)); try done.
    intros sp Hsp. destruct (C5 sp Hsp) as (? & ? & _). done. }
  eapply (wp_call _ (fresh_outcome mml true delay s l r h new lookahead res));
    [|intros o s'; by apply fresh_promise].
  apply (allocate_slots_body mml true delay s r h new lookahead Hc h (Some (GroupBlocks res))); [lia|].
  by apply (wp_fresh_body mml true delay s l r h new lookahead Hg Hc (λ _, S2)).
Qed.
End start.

(** Lookup and allocation of a request that is not running. *)
Lemma start_request specs eagle hbs mml s l r search :
  coord_good s l → get_kv_cache_coordinator specs eagle true 1 1 hbs = Ret search → specs ≠ [] →
  startable specs hbs eagle s r →
  ∃ b h, get_computed_blocks true search (s, r) = (Ret (Some (b, h)), (s, r)) ∧ 0 ≤ h < num_tokens r ∧
    ∀ new lookahead delay, slots_call mml r h new lookahead →
      ∃ o s', allocate_slots mml true new h (Some b) lookahead 0 delay (s, r) = (Ret o, s') ∧
        slots_promise mml h new lookahead s l r o s'.
Proof.
  intros Hg Hco Hne Hs. pose proof Hs as [S1 S2 S3 S4 S5 S6 S7]. pose proof (hc_max _ _ _ _ _ _ S7) as Hmax.
  assert (∀ new lookahead delay, slots_call mml r 0 new lookahead → ∃ o s',
    allocate_slots mml true new 0 (Some EmptyBlocks) lookahead 0 delay (s, r) = (Ret o, s') ∧
    slots_promise mml 0 new lookahead s l r o s') as Hempty.
  { intros new lookahead delay Hc. by eapply wp_run, (wp_start_empty specs eagle hbs). }
  destruct (skip_reading_prefix_cache r) eqn:Hskip.
  { exists EmptyBlocks, 0. split; [|split; [lia|done]].
    unfold get_computed_blocks, mbind, M_bind, gets. cbn [fst snd]. by rewrite Hskip. }
  destruct (wp_run _ _ _ (search_answers specs eagle hbs (block_hashes r) (num_tokens r - 1) search
    (co_block_pool s) l noexc (cg_pool _ _ Hg) Hco S7)) as (o & p' & Hrun & -> & res & h & -> & Hans).
  exists (create_kv_cache_blocks res), h. split_and!; [|apply Hans|pose proof Hans as [[_ Hh] _]; lia|].
  - destruct (wp_run (get_computed_blocks true search)
      (λ o s', o = Some (create_kv_cache_blocks res, h) ∧ s' = (s, r)) (s, r)) as (? & ? & ? & -> & ->); [|done].
    unfold get_computed_blocks. apply wp_bind, wp_gets. cbn [fst snd]. rewrite Hskip. simpl orb. cbn iota.
    apply wp_bind, wp_zoom, wp_zoom. unfold wp. cbn [fst snd]. rewrite Hrun. cbn [fst snd].
    split; [done|]. by destruct s.
  - intros new lookahead delay Hc. unfold create_kv_cache_blocks. destruct (existsb nonempty res) eqn:Hex.
    + by eapply wp_run, (wp_start_hit specs eagle hbs).
    + assert (h = 0) as ->; [|by apply Hempty].
      eapply (answered_empty _ _ _ _ _ _ _ Hans Hne); [|done].
      intros sp Hsp. by destruct (hc_specs _ _ _ _ _ _ S7 sp Hsp).
Qed.

(** ** Properties *)

(** C4: a new request is looked up and admitted without an error. Prefix caching is on, without
    context parallelism; the group specs are accepted by a coordinator and suit its searches:
    windows have at least two tokens, and with EAGLE a block size that is the alignment; chunks
    are multiples of a block size that is the alignment, without EAGLE; and the full-attention
    groups have one and the same spec. Then for any cache contents that keep the invariant and any
    request with distinct hashes that has not run: [get_computed_blocks] returns the cached blocks
    of some number [h] of tokens, short of the whole prompt, and changes nothing; and
    [allocate_slots] with that answer returns normally for any number of new tokens that fits the
    model, keeping every invariant of the cache and the tables of every other request; when it
    grants the slots, every group's table covers them, and when it does not, the groups miss more
    blocks than are free. *)
Theorem new_request_admission specs eagle hbs mml s l r search :
  coord_good s l → get_kv_cache_coordinator specs eagle true 1 1 hbs = Ret search → specs ≠ [] →
  startable specs hbs eagle s r →
  ∃ b h, get_computed_blocks true search (s, r) = (Ret (Some (b, h)), (s, r)) ∧ 0 ≤ h < num_tokens r ∧
    ∀ new lookahead delay, slots_call mml r h new lookahead →
      ∃ o s', allocate_slots mml true new h (Some b) lookahead 0 delay (s, r) = (Ret o, s') ∧
        slots_promise mml h new lookahead s l r o s'.
Proof. apply start_request. Qed.

(** ** Witness *)

Lemma coord_for_check specs s :
  enable_caching (co_block_pool s) = true →
  (λ m, (block_size m, kind m, kv_cache_group_id m)) <$> single_type_managers s =
    imap (λ i sp, (spec_block_size sp, spec_kind sp, Z.of_nat i)) specs →
  coord_for specs s.
Proof.
  intros Hc Heq. split; [|done|].
  - assert (length ((λ m, (block_size m, kind m, kv_cache_group_id m)) <$> single_type_managers s) = length specs) as H
      by by rewrite Heq, length_imap. by rewrite length_fmap in H.
  - intros i m sp Hm Hsp.
    assert (((λ m, (block_size m, kind m, kv_cache_group_id m)) <$> single_type_managers s) !! i =
      imap (λ i sp, (spec_block_size sp, spec_kind sp, Z.of_nat i)) specs !! i) as H by by rewrite Heq.
    rewrite list_lookup_fmap, list_lookup_imap, Hm, Hsp in H. simpl in H. by injection H.
Qed.

Lemma unknown_check s req :
  Forall (λ m, num_cached_block m !! req = None ∧ table m req = []) (single_type_managers s) → unknown s req.
Proof. intros H i m Hm. by apply (proj1 (Forall_lookup _ _) H i). Qed.

Lemma b_startable : startable two_groups 2 false after_a request_b.
Proof.
  split.
  - apply coord_for_check; vm_compute; reflexivity.
  - sample_ready.
  - vm_compute. reflexivity.
  - apply unknown_check. apply (bool_decide_unpack _). vm_compute. done.
  - reflexivity.
  - split; [apply (bool_decide_unpack _); vm_compute; done|]. exists 1%nat.
    apply Forall_forall, (bool_decide_unpack _). vm_compute. done.
  - split; try (vm_compute; done).
    + intros sp. unfold two_groups. rewrite !elem_of_cons, elem_of_nil. intros [->|[->|[]]]; simpl.
      * split; [lia|]. split; [by exists 1|done].
      * split; [lia|]. split; [by exists 1|]. split; [lia|done].
    + intros sp sp'. unfold two_groups. rewrite !elem_of_cons, !elem_of_nil. naive_solver.
Qed.

Lemma new_request_admission_witness :
  ∃ search b h, get_kv_cache_coordinator two_groups false true 1 1 2 = Ret search ∧
    get_computed_blocks true search (after_a, request_b) = (Ret (Some (b, h)), (after_a, request_b)) ∧
    0 ≤ h < num_tokens request_b.
Proof.
  destruct (kv_reachable_good 100 true _ _ _ two_groups_good after_a_reached) as [l Hl].
  eexists. destruct (new_request_admission two_groups false 2 100 after_a l request_b
    (hybrid_find_longest_cache_hit [(mkSpec 2 FullAttention true [], [0]); (mkSpec 2 (SlidingWindow 100) false [], [1])]
       2 2 false 2)) as (b & h & Hrun & Hh & _).
  - exact Hl.
  - reflexivity.
  - discriminate.
  - exact b_startable.
  - exists b, h. split; [reflexivity|]. split; [exact Hrun|exact Hh].
Defined.
