(* ===== verification/Offload.v ===== *)
(** src/vllm/v1/kv_offload: ordered dictionaries, block status with its 32-bit count, the
    [Backend] interface with what it promises and the CPU backend, the LRU and the ARC managers
    with binary64 arithmetic for the adaptive target, and the reuse filter. The block size and
    medium that events carry are constants of the backend and are left out. *)
From Stdlib Require Import SpecFloat.
From S2P Require Import Prelude.
From S2P Require Import Dict.
Local Open Scope Z_scope.

(** A block hash. *)
Abbreviation hash := (list Z).

(** [OrderedDict] of blocks. *)
Abbreviation odict A := (dict hash A).

(** ** Block status and backends *)

(** [ctypes.c_int32]: assignments wrap. *)
Definition wrap32 (z : Z) : Z := (z + 2 ^ 31) mod 2 ^ 32 - 2 ^ 31.

(** [BlockStatus], with the [block_id] of [CPUBlockStatus]. *)
Record BlockStatus := mkBlockStatus { ref_cnt : Z; block_id : Z }.
Definition is_ready (b : BlockStatus) : bool := 0 <=? ref_cnt b.
Definition set_ref (z : Z) (b : BlockStatus) : BlockStatus := mkBlockStatus (wrap32 z) (block_id b).

(** [Backend]: what the managers call, and what an implementation promises about the ids it
    can still hand out. *)
Class Backend (B : Type) := {
  get_num_free_blocks : B → Z;
  allocate_blocks : list hash → M B (list BlockStatus);
  free : BlockStatus → M B unit;
  available : B → list Z;
  backend_ok : B → Prop;
  free_count : ∀ b, backend_ok b → get_num_free_blocks b = Z.of_nat (length (available b));
  allocate_ok : ∀ b hs E, backend_ok b → Z.of_nat (length hs) ≤ get_num_free_blocks b →
    wp (allocate_blocks hs) (λ bs b', backend_ok b' ∧ length bs = length hs ∧
      (∀ x, x ∈ bs → ref_cnt x = -1) ∧ available b ≡ₚ (block_id <$> bs) ++ available b') E b;
  free_ok : ∀ b x E, backend_ok b → block_id x ∉ available b →
    wp (free x) (λ _ b', backend_ok b' ∧ available b' ≡ₚ block_id x :: available b) E b
}.

(** [CPUBackend]. *)
Record CPUBackend := mkCPUBackend {
  num_blocks : Z;
  num_allocated_blocks : Z;
  allocated_blocks_free_list : list Z
}.

Definition cpu_init (num_blocks : Z) : CPUBackend := mkCPUBackend num_blocks 0 [].

Definition cpu_get_num_free_blocks (b : CPUBackend) : Z :=
  Z.of_nat (length (allocated_blocks_free_list b)) + num_blocks b - num_allocated_blocks b.

Definition new_status (block_id : Z) : BlockStatus := mkBlockStatus (-1) block_id.

(** The two allocation loops. *)
Definition allocate_fresh (blocks : list BlockStatus) (_ : Z) : M CPUBackend (list BlockStatus) :=
  n ← gets num_allocated_blocks;
  modify (λ b, mkCPUBackend (num_blocks b) (n + 1) (allocated_blocks_free_list b)) ;;
  mret (blocks ++ [new_status n]).
Definition allocate_reused (blocks : list BlockStatus) (_ : Z) : M CPUBackend (list BlockStatus) :=
  l ← gets allocated_blocks_free_list;
  id ← from_option_raise IndexError (last l);
  modify (λ b, mkCPUBackend (num_blocks b) (num_allocated_blocks b) (take (length l - 1) l)) ;;
  mret (blocks ++ [new_status id]).

Definition cpu_allocate_blocks (block_hashes : list hash) : M CPUBackend (list BlockStatus) :=
  b ← gets id;
  let n := Z.of_nat (length block_hashes) in
  let num_fresh_blocks := Z.min n (num_blocks b - num_allocated_blocks b) in
  let num_reused_blocks := n - num_fresh_blocks in
  py_assert (num_reused_blocks <=? Z.of_nat (length (allocated_blocks_free_list b))) ;;
  blocks ← for_fold (py_range 0 num_fresh_blocks) [] allocate_fresh;
  for_fold (py_range 0 num_reused_blocks) blocks allocate_reused.

Definition cpu_free (block : BlockStatus) : M CPUBackend unit :=
  modify (λ b, mkCPUBackend (num_blocks b) (num_allocated_blocks b)
    (allocated_blocks_free_list b ++ [block_id block])).

(** [get_load_store_spec]: the ids of the blocks. *)
Definition get_load_store_spec (blocks : list BlockStatus) : list Z := block_id <$> blocks.

(** ** Outputs and events *)

Record PrepareStoreOutput := mkPrepareStoreOutput {
  block_hashes_to_store : list hash;
  store_spec : list Z;
  block_hashes_evicted : list hash
}.
Record OffloadingEvent := mkOffloadingEvent { event_hashes : list hash; removed : bool }.

(** [if hashes and self.events is not None: self.events.append(...)]. *)
Definition record_event (hashes : list hash) (removed : bool) (events : option (list OffloadingEvent)) :
    option (list OffloadingEvent) :=
  match hashes, events with
  | _ :: _, Some es => Some (es ++ [mkOffloadingEvent hashes removed])
  | _, _ => events
  end.

(** ** The LRU manager *)

Section lru.
Context {B : Type} `{!Backend B}.

Record LRUOffloadingManager := mkLRU {
  lru_backend : B;
  lru_blocks : odict BlockStatus;
  lru_events : option (list OffloadingEvent)
}.
Definition lru_init (backend : B) (enable_events : bool) : LRUOffloadingManager :=
  mkLRU backend [] (if enable_events then Some [] else None).

Definition set_lru_blocks (f : odict BlockStatus → odict BlockStatus) (s : LRUOffloadingManager) :=
  mkLRU (lru_backend s) (f (lru_blocks s)) (lru_events s).
Definition set_lru_events (f : option (list OffloadingEvent) → option (list OffloadingEvent))
    (s : LRUOffloadingManager) := mkLRU (lru_backend s) (lru_blocks s) (f (lru_events s)).
Definition on_lru_backend {A} : M B A → M LRUOffloadingManager A :=
  zoom lru_backend (λ b s, mkLRU b (lru_blocks s) (lru_events s)).

(** Consecutive blocks that are there and ready. *)
Fixpoint hit_count (get : hash → option BlockStatus) (block_hashes : list hash) : Z :=
  match block_hashes with
  | [] => 0
  | h :: hs =>
      match get h with
      | Some b => if is_ready b then 1 + hit_count get hs else 0
      | None => 0
      end
  end.
Definition lru_lookup (block_hashes : list hash) : M LRUOffloadingManager Z :=
  gets (λ s, hit_count (λ h, od_get h (lru_blocks s)) block_hashes).

Definition lru_load_one (acc : list BlockStatus) (h : hash) : M LRUOffloadingManager (list BlockStatus) :=
  s ← gets id;
  block ← from_option_raise KeyError (od_get h (lru_blocks s));
  py_assert (is_ready block) ;;
  let block' := set_ref (ref_cnt block + 1) block in
  modify (set_lru_blocks (od_set h block')) ;;
  mret (acc ++ [block']).
Definition lru_prepare_load (block_hashes : list hash) : M LRUOffloadingManager (list Z) :=
  blocks ← for_fold block_hashes [] lru_load_one;
  mret (get_load_store_spec blocks).

Definition lru_touch (block_hashes : list hash) : M LRUOffloadingManager unit :=
  for_each (reverse block_hashes) (λ h, modify (set_lru_blocks (od_move_to_end h))).

Definition lru_complete_load (block_hashes : list hash) : M LRUOffloadingManager unit :=
  for_each block_hashes (λ h,
    s ← gets id;
    block ← from_option_raise KeyError (od_get h (lru_blocks s));
    py_assert (0 <? ref_cnt block) ;;
    modify (set_lru_blocks (od_set h (set_ref (ref_cnt block - 1) block)))).

(** The scan for blocks to evict: [None] when it runs out of blocks. *)
Fixpoint evict_scan (n : nat) (protected : list hash) (items : odict BlockStatus) (to_evict : list hash) :
    option (list hash) :=
  match items with
  | [] => None
  | (h, b) :: items' =>
      if (ref_cnt b =? 0) && negb (bool_decide (h ∈ protected)) then
        match n with
        | O | S O => Some (to_evict ++ [h])
        | S n' => evict_scan n' protected items' (to_evict ++ [h])
        end
      else evict_scan n protected items' to_evict
  end.

(** [self.backend.free(self.blocks.pop(block_hash))]. *)
Definition lru_evict_one (h : hash) : M LRUOffloadingManager unit :=
  s ← gets id;
  block ← from_option_raise KeyError (od_get h (lru_blocks s));
  modify (set_lru_blocks (od_del h)) ;;
  on_lru_backend (free block).

Definition lru_prepare_store (block_hashes : list hash) : M LRUOffloadingManager (option PrepareStoreOutput) :=
  s ← gets id;
  let to_store := filter (λ h, od_mem h (lru_blocks s) = false) block_hashes in
  let num_blocks_to_evict := Z.of_nat (length to_store) - get_num_free_blocks (lru_backend s) in
  let scan := if 0 <? num_blocks_to_evict
              then evict_scan (Z.to_nat num_blocks_to_evict) block_hashes (lru_blocks s) []
              else Some [] in
  match scan with
  | None => mret None
  | Some to_evict =>
      for_each to_evict lru_evict_one ;;
      modify (set_lru_events (record_event to_evict true)) ;;
      blocks ← on_lru_backend (allocate_blocks to_store);
      py_assert (length blocks =? length to_store)%nat ;;
      for_each (zip to_store blocks) (λ x, modify (set_lru_blocks (od_set x.1 x.2))) ;;
      mret (Some (mkPrepareStoreOutput to_store (get_load_store_spec blocks) to_evict))
  end.

Definition lru_stored_one (stored : list hash) (h : hash) : M LRUOffloadingManager (list hash) :=
  s ← gets id;
  block ← from_option_raise KeyError (od_get h (lru_blocks s));
  if is_ready block then mret stored
  else modify (set_lru_blocks (od_set h (set_ref 0 block))) ;; mret (stored ++ [h]).
Definition lru_failed_one (h : hash) : M LRUOffloadingManager unit :=
  s ← gets id;
  block ← from_option_raise KeyError (od_get h (lru_blocks s));
  if is_ready block then mret tt
  else on_lru_backend (free block) ;; modify (set_lru_blocks (od_del h)).
Definition lru_complete_store (block_hashes : list hash) (success : bool) : M LRUOffloadingManager unit :=
  stored ← (if success then for_fold block_hashes [] lru_stored_one
            else for_each block_hashes lru_failed_one ;; mret []);
  modify (set_lru_events (record_event stored false)).

Definition lru_take_events : M LRUOffloadingManager (list OffloadingEvent) :=
  s ← gets id;
  match lru_events s with
  | None => mret []
  | Some es => modify (set_lru_events (λ _, Some [])) ;; mret es
  end.
End lru.
Arguments LRUOffloadingManager B : clear implicits.
Arguments mkLRU {B}.

(** ** The ARC manager *)

(** [float]: IEEE binary64, computed exactly; Python integers of the sizes used here
    convert without rounding. *)
Definition f_of_Z (z : Z) : spec_float := binary_normalize 53 1024 z 0 false.
Definition f_add : spec_float → spec_float → spec_float := SFadd 53 1024.
Definition f_sub : spec_float → spec_float → spec_float := SFsub 53 1024.
Definition f_div : spec_float → spec_float → spec_float := SFdiv 53 1024.
(** [max(a, b)] and [min(a, b)]: the first unless the second is greater or less. *)
Definition f_max (a b : spec_float) : spec_float := if SFltb a b then b else a.
Definition f_min (a b : spec_float) : spec_float := if SFltb b a then b else a.
(** [int(x)]. *)
Definition f_trunc (x : spec_float) : Z :=
  match x with
  | S754_finite s m e =>
      let a := if 0 <=? e then Z.pos m * 2 ^ e else Z.pos m / 2 ^ (- e) in
      if s then - a else a
  | _ => 0
  end.

Section arc.
Context {B : Type} `{!Backend B}.

Record ARCOffloadingManager := mkARC {
  arc_backend : B;
  target_t1_size : spec_float;
  t1 : odict BlockStatus;
  t2 : odict BlockStatus;
  b1 : odict unit;
  b2 : odict unit;
  arc_events : option (list OffloadingEvent);
  cache_capacity : Z
}.
Definition arc_init (backend : B) (enable_events : bool) : ARCOffloadingManager :=
  mkARC backend (f_of_Z 0) [] [] [] [] (if enable_events then Some [] else None) (get_num_free_blocks backend).

Definition set_lists (f1 f2 : odict BlockStatus → odict BlockStatus) (g1 g2 : odict unit → odict unit)
    (s : ARCOffloadingManager) : ARCOffloadingManager :=
  mkARC (arc_backend s) (target_t1_size s) (f1 (t1 s)) (f2 (t2 s)) (g1 (b1 s)) (g2 (b2 s))
    (arc_events s) (cache_capacity s).
Definition set_t1 f := set_lists f id id id.
Definition set_t2 f := set_lists id f id id.
Definition set_b1 f := set_lists id id f id.
Definition set_b2 f := set_lists id id id f.
Definition set_target (t : spec_float) (s : ARCOffloadingManager) : ARCOffloadingManager :=
  mkARC (arc_backend s) t (t1 s) (t2 s) (b1 s) (b2 s) (arc_events s) (cache_capacity s).
Definition set_arc_events f (s : ARCOffloadingManager) : ARCOffloadingManager :=
  mkARC (arc_backend s) (target_t1_size s) (t1 s) (t2 s) (b1 s) (b2 s) (f (arc_events s)) (cache_capacity s).
Definition on_arc_backend {A} : M B A → M ARCOffloadingManager A :=
  zoom arc_backend (λ b s, mkARC b (target_t1_size s) (t1 s) (t2 s) (b1 s) (b2 s) (arc_events s) (cache_capacity s)).

(** [self.t1.get(h) or self.t2.get(h)]. *)
Definition arc_get (h : hash) (s : ARCOffloadingManager) : option BlockStatus :=
  match od_get h (t1 s) with Some b => Some b | None => od_get h (t2 s) end.
(** A write to the block object that [arc_get] returned. *)
Definition arc_put (h : hash) (b : BlockStatus) (s : ARCOffloadingManager) : ARCOffloadingManager :=
  if od_mem h (t1 s) then set_t1 (od_set h b) s else set_t2 (od_set h b) s.

Definition arc_lookup (block_hashes : list hash) : M ARCOffloadingManager Z :=
  gets (λ s, hit_count (λ h, arc_get h s) block_hashes).

Definition arc_load_one (acc : list BlockStatus) (h : hash) : M ARCOffloadingManager (list BlockStatus) :=
  s ← gets id;
  block ← from_option_raise AssertionError (arc_get h s);
  py_assert (is_ready block) ;;
  let block' := set_ref (ref_cnt block + 1) block in
  modify (arc_put h block') ;;
  mret (acc ++ [block']).
Definition arc_prepare_load (block_hashes : list hash) : M ARCOffloadingManager (list Z) :=
  blocks ← for_fold block_hashes [] arc_load_one;
  mret (get_load_store_spec blocks).

(** The length of a ghost list as a float. *)
Definition f_len {A} (d : odict A) : spec_float := f_of_Z (Z.of_nat (length d)).

Definition arc_touch_one (h : hash) : M ARCOffloadingManager unit :=
  s ← gets id;
  match od_get h (t1 s) with
  | Some block =>
      if is_ready block then modify (λ s, set_t2 (od_set h block) (set_t1 (od_del h) s))
      else modify (λ s, set_t1 (od_set h block) (set_t1 (od_del h) s))
  | None =>
      if od_mem h (t2 s) then modify (set_t2 (od_move_to_end h))
      else if od_mem h (b1 s) then
        let delta := f_max (f_of_Z 1) (f_div (f_len (b2 s)) (f_len (b1 s))) in
        modify (λ s, set_b1 (od_move_to_end h)
          (set_target (f_min (f_add (target_t1_size s) delta) (f_of_Z (cache_capacity s))) s))
      else if od_mem h (b2 s) then
        let delta := f_max (f_of_Z 1) (f_div (f_len (b1 s)) (f_len (b2 s))) in
        modify (λ s, set_b2 (od_move_to_end h)
          (set_target (f_max (f_sub (target_t1_size s) delta) (f_of_Z 0)) s))
      else mret tt
  end.
Definition arc_touch (block_hashes : list hash) : M ARCOffloadingManager unit :=
  for_each (reverse block_hashes) arc_touch_one.

Definition arc_complete_load (block_hashes : list hash) : M ARCOffloadingManager unit :=
  for_each block_hashes (λ h,
    s ← gets id;
    block ← from_option_raise AssertionError (arc_get h s);
    py_assert (0 <? ref_cnt block) ;;
    modify (arc_put h (set_ref (ref_cnt block - 1) block))).

(** The oldest block that may be evicted. *)
Definition evictable (protected : list hash) (x : hash * BlockStatus) : Prop :=
  ref_cnt x.2 = 0 ∧ x.1 ∉ protected.
Definition first_evictable (protected : list hash) (d : odict BlockStatus) : option (hash * BlockStatus) :=
  head (filter (evictable protected) d).

(** The eviction loop; [None] when it gives up. *)
Fixpoint arc_evict (n : nat) (protected to_evict : list hash) : M ARCOffloadingManager (option (list hash)) :=
  match n with
  | O => mret (Some to_evict)
  | S n' =>
      s ← gets id;
      let from_t1 := if f_trunc (target_t1_size s) <=? Z.of_nat (length (t1 s))
                     then first_evictable protected (t1 s) else None in
      match from_t1 with
      | Some (h, block) =>
          modify (λ s, set_b1 (od_set h tt) (set_t1 (od_del h) s)) ;;
          on_arc_backend (free block) ;;
          arc_evict n' protected (to_evict ++ [h])
      | None =>
          match first_evictable protected (t2 s) with
          | Some (h, block) =>
              modify (λ s, set_b2 (od_set h tt) (set_t2 (od_del h) s)) ;;
              on_arc_backend (free block) ;;
              arc_evict n' protected (to_evict ++ [h])
          | None => mret None
          end
      end
  end.

(** [for i in range(len(b) - capacity): b.popitem(last=False)]. *)
Definition trim_ghosts (capacity : Z) (d : odict unit) : odict unit :=
  drop (Z.to_nat (Z.of_nat (length d) - capacity)) d.

Definition arc_prepare_store (block_hashes : list hash) : M ARCOffloadingManager (option PrepareStoreOutput) :=
  s ← gets id;
  let to_store := filter (λ h, od_mem h (t1 s) = false ∧ od_mem h (t2 s) = false) block_hashes in
  match to_store with
  | [] => mret (Some (mkPrepareStoreOutput [] (get_load_store_spec []) []))
  | _ =>
      let num_blocks_to_evict := Z.of_nat (length to_store) - get_num_free_blocks (arc_backend s) in
      o ← arc_evict (Z.to_nat num_blocks_to_evict) block_hashes [];
      match o with
      | None => mret None
      | Some to_evict =>
          modify (λ s, set_b2 (trim_ghosts (cache_capacity s)) (set_b1 (trim_ghosts (cache_capacity s)) s)) ;;
          modify (set_arc_events (record_event to_evict true)) ;;
          blocks ← on_arc_backend (allocate_blocks to_store);
          py_assert (length blocks =? length to_store)%nat ;;
          for_each (zip to_store blocks) (λ x,
            modify (λ s, set_lists (od_set x.1 x.2) id (od_del x.1) (od_del x.1) s)) ;;
          mret (Some (mkPrepareStoreOutput to_store (get_load_store_spec blocks) to_evict))
      end
  end.

Definition arc_stored_one (stored : list hash) (h : hash) : M ARCOffloadingManager (list hash) :=
  s ← gets id;
  match arc_get h s with
  | Some block =>
      if is_ready block then mret stored
      else modify (arc_put h (set_ref 0 block)) ;; mret (stored ++ [h])
  | None => mret stored
  end.
Definition arc_failed_one (h : hash) : M ARCOffloadingManager unit :=
  s ← gets id;
  let block := arc_get h s in
  modify (λ s, if od_mem h (t1 s) then set_t1 (od_del h) s else set_t2 (od_del h) s) ;;
  match block with
  | Some block => if is_ready block then mret tt else on_arc_backend (free block)
  | None => mret tt
  end.
Definition arc_complete_store (block_hashes : list hash) (success : bool) : M ARCOffloadingManager unit :=
  stored ← (if success then for_fold block_hashes [] arc_stored_one
            else for_each block_hashes arc_failed_one ;; mret []);
  modify (set_arc_events (record_event stored false)).

Definition arc_take_events : M ARCOffloadingManager (list OffloadingEvent) :=
  s ← gets id;
  match arc_events s with
  | None => mret []
  | Some es => modify (set_arc_events (λ _, Some [])) ;; mret es
  end.
End arc.
Arguments ARCOffloadingManager B : clear implicits.
Arguments mkARC {B}.

(** ** The reuse filter *)

(** [FilterReusedOffloadingManager] around a manager with state [S]: the counters. *)
Record FilterReused (S : Type) := mkFilter {
  backing : S;
  store_threshold : Z;
  max_tracker_size : Z;
  counts : odict Z
}.
Arguments mkFilter {S}.
Arguments backing {S}.
Arguments store_threshold {S}.
Arguments max_tracker_size {S}.
Arguments counts {S}.

Definition filter_init {S} (backing : S) (store_threshold max_tracker_size : Z) : outcome (FilterReused S) :=
  if store_threshold <? 2 then Raise ValueError
  else if max_tracker_size <? 1 then Raise ValueError
  else Ret (mkFilter backing store_threshold max_tracker_size []).

Definition on_backing {S A} : M S A → M (FilterReused S) A :=
  zoom backing (λ b s, mkFilter b (store_threshold s) (max_tracker_size s) (counts s)).

(** One lookup recorded in the counters. *)
Definition count_one (max_tracker_size : Z) (h : hash) (d : odict Z) : odict Z :=
  match od_get h d with
  | Some n => od_set h (n + 1) (od_move_to_end h d)
  | None => od_set h 1 (if max_tracker_size <=? Z.of_nat (length d) then drop 1 d else d)
  end.

Definition filter_lookup {S} (lookup : list hash → M S Z) (block_hashes : list hash) : M (FilterReused S) Z :=
  for_each block_hashes (λ h, modify (λ s,
    mkFilter (backing s) (store_threshold s) (max_tracker_size s)
      (count_one (max_tracker_size s) h (counts s)))) ;;
  on_backing (lookup block_hashes).

Definition filter_prepare_store {S} (prepare_store : list hash → M S (option PrepareStoreOutput))
    (block_hashes : list hash) : M (FilterReused S) (option PrepareStoreOutput) :=
  s ← gets id;
  let eligible := filter (λ h, store_threshold s ≤ default 0 (od_get h (counts s))) block_hashes in
  on_backing (prepare_store eligible).
