(* ===== verification/OffloadInv.v ===== *)
(** Lemmas on ordered dictionaries, the CPU backend as an instance of the interface, and the
    conservation of block ids between cached blocks and the backend. *)
From Stdlib Require Import SpecFloat.
From S2P Require Import Prelude.
From S2P Require Import Dict.
From S2P Require Import Offload.
Local Open Scope Z_scope.

(** ** The CPU backend *)

Definition cpu_available (b : CPUBackend) : list Z :=
  allocated_blocks_free_list b ++ py_range (num_allocated_blocks b) (num_blocks b).
Definition cpu_ok (b : CPUBackend) : Prop := 0 ≤ num_allocated_blocks b ≤ num_blocks b.

Lemma cpu_free_count b : cpu_ok b → cpu_get_num_free_blocks b = Z.of_nat (length (cpu_available b)).
Proof.
  intros Hb. unfold cpu_get_num_free_blocks, cpu_available, cpu_ok in *. rewrite length_app, length_py_range. lia.
Qed.

(** Both loops hand out one id a turn. *)
Definition handed (b : CPUBackend) (hs : list Z) (bs : list BlockStatus) (b' : CPUBackend) : Prop :=
  cpu_ok b' ∧ num_blocks b' = num_blocks b ∧ length bs = length hs ∧ (∀ x, x ∈ bs → ref_cnt x = -1) ∧
  cpu_available b ≡ₚ (block_id <$> bs) ++ cpu_available b'.

Lemma wp_allocate_fresh b n E :
  cpu_ok b → n ≤ num_blocks b - num_allocated_blocks b →
  wp (for_fold (py_range 0 n) [] allocate_fresh)
    (λ bs b', handed b (py_range 0 n) bs b' ∧
       (0 ≤ n → num_allocated_blocks b' = num_allocated_blocks b + n) ∧
       allocated_blocks_free_list b' = allocated_blocks_free_list b) E b.
Proof.
  intros Hb Hn.
  apply (wp_for_fold (λ dn bs b', handed b dn bs b' ∧
    num_allocated_blocks b' = num_allocated_blocks b + Z.of_nat (length dn) ∧
    allocated_blocks_free_list b' = allocated_blocks_free_list b)).
  - unfold handed. split_and!; simpl; try done; try lia; by intros x ?%elem_of_nil.
  - intros dn x todo bs b' Hs ((H1 & H2 & H3 & H4 & H5) & H6 & H7). unfold allocate_fresh. wp_steps.
    assert (Z.of_nat (length dn) < n) as Hlt.
    { assert (length (py_range 0 n) = length (dn ++ x :: todo)) as Hl by by rewrite Hs.
      rewrite length_py_range, length_app in Hl. simpl in Hl. lia. }
    assert (num_allocated_blocks b' < num_blocks b') as Hroom by lia.
    unfold handed. split_and!; simpl; unfold cpu_ok in *; simpl; try lia; try done.
    + rewrite !length_app. simpl. lia.
    + intros y [Hy|Hy%list_elem_of_singleton]%elem_of_app; [by apply H4|by subst].
    + rewrite H5, fmap_app, <-app_assoc. apply Permutation_app_head. unfold cpu_available. simpl.
      rewrite py_range_cons by done. rewrite <-Permutation_middle. done.
    + rewrite length_app. simpl. lia.
  - intros bs b' (H & H6 & H7). split_and!; [apply H..| |done]. rewrite length_py_range in H6. lia.
Qed.

Lemma wp_allocate_reused b n bs0 E :
  cpu_ok b → n ≤ Z.of_nat (length (allocated_blocks_free_list b)) →
  wp (for_fold (py_range 0 n) bs0 allocate_reused)
    (λ bs b', ∃ bs1, bs = bs0 ++ bs1 ∧ handed b (py_range 0 n) bs1 b') E b.
Proof.
  intros Hb Hn.
  apply (wp_for_fold (λ dn bs b', ∃ bs1, bs = bs0 ++ bs1 ∧ handed b dn bs1 b' ∧
    num_allocated_blocks b' = num_allocated_blocks b ∧
    (length (allocated_blocks_free_list b') + length dn = length (allocated_blocks_free_list b))%nat)).
  - exists []. rewrite app_nil_r. unfold handed. split_and!; simpl; try done; try lia; by intros x ?%elem_of_nil.
  - intros dn x todo bs b' Hs (bs1 & -> & (H1 & H2 & H3 & H4 & H5) & H6 & H7). unfold allocate_reused. wp_steps.
    assert (Z.of_nat (length dn) < n) as Hlt.
    { assert (length (py_range 0 n) = length (dn ++ x :: todo)) as Hl by by rewrite Hs.
      rewrite length_py_range, length_app in Hl. simpl in Hl. lia. }
    destruct (allocated_blocks_free_list b') as [|z l _] eqn:Hl using rev_ind; [simpl in H7; lia|].
    rewrite last_snoc. eapply wp_from_option; [done|]. wp_steps. exists (bs1 ++ [new_status z]).
    rewrite length_app. simpl. replace (length l + 1 - 1)%nat with (length l) by lia. rewrite take_app_length.
    rewrite length_app in H7. simpl in H7. rewrite app_assoc.
    unfold handed. split_and!; simpl; unfold cpu_ok in *; simpl; try lia; try done.
    + rewrite !length_app. simpl. lia.
    + intros y [Hy|Hy%list_elem_of_singleton]%elem_of_app; [by apply H4|by subst].
    + rewrite H5, fmap_app, <-app_assoc. apply Permutation_app_head. unfold cpu_available. rewrite Hl. simpl.
      rewrite <-app_assoc. simpl. rewrite <-Permutation_middle. done.
    + rewrite length_app. simpl. lia.
  - intros bs b' (bs1 & -> & H & _). eauto.
Qed.

Lemma wp_cpu_allocate b hs E :
  cpu_ok b → Z.of_nat (length hs) ≤ cpu_get_num_free_blocks b →
  wp (cpu_allocate_blocks hs) (λ bs b', cpu_ok b' ∧ length bs = length hs ∧
    (∀ x, x ∈ bs → ref_cnt x = -1) ∧ cpu_available b ≡ₚ (block_id <$> bs) ++ cpu_available b') E b.
Proof.
  intros Hb Hn. unfold cpu_allocate_blocks. wp_steps. unfold id, cpu_get_num_free_blocks in *.
  set (n := Z.of_nat (length hs)) in *. set (fresh := Z.min n _).
  assert (0 ≤ fresh) as H0 by (unfold cpu_ok in *; lia).
  apply wp_assert; [lia|]. apply wp_bind. eapply wp_call; [apply (wp_allocate_fresh _ fresh); [done|lia]|].
  intros bs b1 ((H1 & H2 & H3 & H4 & H5) & H6 & H7).
  eapply wp_call; [apply wp_allocate_reused; [done|]|]; [rewrite H7; lia|].
  intros bs' b2 (bs1 & -> & H1' & H2' & H3' & H4' & H5'). rewrite length_py_range in *.
  split_and!; [done|rewrite length_app; lia| |].
  - intros x [Hx|Hx]%elem_of_app; auto.
  - by rewrite H5, H5', fmap_app, <-app_assoc.
Qed.

Lemma wp_cpu_free b x E :
  cpu_ok b → wp (cpu_free x) (λ _ b', cpu_ok b' ∧ cpu_available b' ≡ₚ block_id x :: cpu_available b) E b.
Proof.
  intros Hb. apply wp_modify. split; [done|]. unfold cpu_available. simpl. rewrite <-app_assoc. simpl.
  by rewrite Permutation_middle.
Qed.

(** The CPU backend keeps what [Backend] promises. *)
#[export] Instance cpu_backend : Backend CPUBackend := {|
  get_num_free_blocks := cpu_get_num_free_blocks;
  allocate_blocks := cpu_allocate_blocks;
  free := cpu_free;
  available := cpu_available;
  backend_ok := cpu_ok;
  free_count := cpu_free_count;
  allocate_ok := wp_cpu_allocate;
  free_ok := λ b x E Hb _, wp_cpu_free b x E Hb
|}.

(** ** Conservation of block ids *)

Section conservation.
Context {B : Type} `{!Backend B}.

Abbreviation ids d := ((λ x : hash * BlockStatus, block_id x.2) <$> d).

(** Every id of the pool is either in exactly one cached block or available, never both. *)
Definition conserved (pool : list Z) (d : odict BlockStatus) (b : B) : Prop :=
  backend_ok b ∧ pool ≡ₚ ids d ++ available b.

#[export] Instance conserved_proper pool : Proper ((≡ₚ) ==> (=) ==> iff) (conserved pool).
Proof. intros d d' Hd b ? <-. unfold conserved. by rewrite Hd. Qed.

Lemma conserved_free pool k x d b E :
  NoDup pool → conserved pool ((k, x) :: d) b → wp (free x) (λ _, conserved pool d) E b.
Proof.
  intros Hnd [Hb Hp]. eapply wp_call; [apply free_ok; [done|]|].
  - rewrite Hp in Hnd. csimpl in Hnd. apply NoDup_cons in Hnd as [Hn _]. intros Hin. apply Hn. in_list.
  - intros [] b' [Hb' Ha]. split; [done|]. rewrite Hp, Ha. csimpl. by rewrite Permutation_middle.
Qed.

Lemma conserved_allocate pool hs d b E :
  conserved pool d b → Z.of_nat (length hs) ≤ get_num_free_blocks b →
  wp (allocate_blocks hs) (λ bs b', length bs = length hs ∧ (∀ x, x ∈ bs → ref_cnt x = -1) ∧
    conserved pool (d ++ zip hs bs) b' ∧ get_num_free_blocks b' = get_num_free_blocks b - Z.of_nat (length hs)) E b.
Proof.
  intros [Hb Hp] Hn. eapply wp_call; [by apply allocate_ok|]. intros bs b' (H1 & H2 & H3 & H4).
  split_and!; [done|done|split; [done|]|].
  - rewrite Hp, H4, fmap_app, <-app_assoc. apply Permutation_app_head, Permutation_app_tail.
    rewrite <-(snd_zip hs bs) at 1 by lia. by rewrite <-list_fmap_compose.
  - rewrite !free_count by done. rewrite H4, length_app, length_fmap. lia.
Qed.
End conservation.
