(* ===== verification/OffloadLru.v ===== *)
(** The LRU offloading manager over any backend: all calls keep the ids conserved, and
    [prepare_store] evicts exactly the oldest idle blocks it needs. *)
From S2P Require Import Prelude.
From S2P Require Import Dict.
From S2P Require Import Offload.
From S2P Require Import OffloadInv.
Local Open Scope Z_scope.

(** The blocks that may be evicted, oldest first. *)
Definition candidates (protected : list hash) (d : odict BlockStatus) : list hash :=
  (filter (evictable protected) d).*1.

(** The scan returns the oldest [n] of them, or nothing when there are fewer. *)
Lemma evict_scan_spec n protected d acc :
  (0 < n)%nat →
  evict_scan n protected d acc =
    if decide (n ≤ length (candidates protected d))%nat
    then Some (acc ++ take n (candidates protected d)) else None.
Proof.
  unfold candidates. revert n acc. induction d as [|[h b] d IH]; intros n acc Hn; csimpl; [by rewrite decide_False by lia|].
  rewrite filter_cons. destruct (decide (evictable protected (h, b))) as [[Hr Hp]|He]; simpl in *.
  - rewrite bool_decide_eq_false_2 by done. replace (ref_cnt b =? 0) with true by lia. csimpl.
    destruct n as [|[|n]]; [lia| |].
    + rewrite decide_True by lia. done.
    + rewrite IH by lia. rewrite <-app_assoc. simpl. repeat case_decide; try lia; done.
  - replace ((ref_cnt b =? 0) && negb (bool_decide (h ∈ protected))) with false; [by apply IH|].
    symmetry. apply andb_false_iff. rewrite negb_false_iff, bool_decide_eq_true, Z.eqb_neq.
    unfold evictable in He. simpl in He. destruct (decide (h ∈ protected)); [by right|left]. naive_solver.
Qed.

Lemma candidates_sublist protected d : candidates protected d `sublist_of` keys d.
Proof. apply fmap_sublist, sublist_filter. Qed.

Lemma NoDup_candidates protected d n : NoDup (keys d) → NoDup (take n (candidates protected d)).
Proof.
  intros Hnd. eapply sublist_NoDup; [done|]. etrans; [apply sublist_take|apply candidates_sublist].
Qed.

Section lru.
Context {B : Type} `{!Backend B}.
Implicit Types s : LRUOffloadingManager B.

(** Keys do not repeat and no id is lost or shared. *)
Definition lru_inv (pool : list Z) s : Prop :=
  NoDup (keys (lru_blocks s)) ∧ conserved pool (lru_blocks s) (lru_backend s).

(** The state a call leaves satisfies the invariant, whether it returns or raises. *)
Abbreviation keeps pool m := (∀ s, lru_inv pool s → wp m (λ _, lru_inv pool) (λ _, lru_inv pool) s).

(** The common shape of the loops over hashes. *)
Lemma keeps_for_each {A} pool (xs : list A) body :
  (∀ x, keeps pool (body x)) → keeps pool (for_each xs body).
Proof. intros Hb s Hs. apply (wp_for_each (λ _ _, lru_inv pool)); [done| |done]. intros. by apply Hb. Qed.

Lemma keeps_for_fold {A C} pool (xs : list A) (c : C) body :
  (∀ c x, keeps pool (body c x)) → keeps pool (for_fold xs c body).
Proof. intros Hb s Hs. apply (wp_for_fold (λ _ _, lru_inv pool)); [done| |done]. intros. by apply Hb. Qed.

(** Reading a block that may be missing. *)
Lemma keeps_block pool s h e (Q : BlockStatus → LRUOffloadingManager B → Prop) :
  lru_inv pool s → (∀ b, od_get h (lru_blocks s) = Some b → Q b s) →
  wp (from_option_raise e (od_get h (lru_blocks (id s)))) Q (λ _, lru_inv pool) s.
Proof. intros Hs Hk. unfold id. destruct (od_get h (lru_blocks s)) as [b|]; [by apply Hk|done]. Qed.

(** A changed count keeps the id. *)
Lemma lru_inv_set_ref pool s h b z :
  lru_inv pool s → od_get h (lru_blocks s) = Some b → lru_inv pool (set_lru_blocks (od_set h (set_ref z b)) s).
Proof.
  intros [Hnd [Hb Hp]] Hg. split; simpl; [by apply od_set_nodup|]. split; [done|].
  by rewrite (od_set_same block_id h b (set_ref z b)).
Qed.

Lemma lru_inv_events pool s f : lru_inv pool s → lru_inv pool (set_lru_events f s).
Proof. done. Qed.

Lemma keeps_load_one pool acc h : keeps pool (lru_load_one acc h).
Proof.
  intros s Hs. unfold lru_load_one. wp_steps. apply keeps_block; [done|]. intros b Hg. wp_steps. unfold py_assert.
  destruct (is_ready b); [|done]. wp_steps. by apply lru_inv_set_ref.
Qed.

Lemma keeps_prepare_load pool hs : keeps pool (lru_prepare_load hs).
Proof.
  intros s Hs. unfold lru_prepare_load. apply wp_bind. eapply wp_call; [apply keeps_for_fold; [apply keeps_load_one|done]|].
  done.
Qed.

Lemma keeps_complete_load pool hs : keeps pool (lru_complete_load hs).
Proof.
  apply keeps_for_each. intros h s Hs. wp_steps. apply keeps_block; [done|]. intros b Hg. wp_steps. unfold py_assert.
  destruct (0 <? ref_cnt b); [|done]. wp_steps. by apply lru_inv_set_ref.
Qed.

Lemma keeps_touch pool hs : keeps pool (lru_touch hs).
Proof.
  apply keeps_for_each. intros h s [Hnd Hc]. wp_steps. split; simpl; by rewrite od_move_perm.
Qed.

Lemma wp_free_block pool s h b E :
  NoDup pool → lru_inv pool s → od_get h (lru_blocks s) = Some b →
  wp (free b) (λ _, conserved pool (od_del h (lru_blocks s))) E (lru_backend s).
Proof.
  intros Hpool [Hnd Hc] Hg. apply (conserved_free pool h); [done|]. by rewrite <-od_del_perm.
Qed.

Lemma keeps_failed_one pool h : NoDup pool → keeps pool (lru_failed_one h).
Proof.
  intros Hpool s Hs. unfold lru_failed_one. wp_steps. apply keeps_block; [done|]. intros b Hg.
  destruct (is_ready b); [done|]. apply wp_bind, wp_zoom. eapply wp_call; [by eapply wp_free_block|].
  intros [] b' Hb. wp_steps. split; [apply od_del_nodup, Hs|done].
Qed.

Lemma keeps_complete_store pool hs success : NoDup pool → keeps pool (lru_complete_store hs success).
Proof.
  intros Hpool s Hs. unfold lru_complete_store. apply wp_bind. eapply (wp_call _ (λ _, lru_inv pool)); [|done].
  destruct success.
  - revert s Hs. apply keeps_for_fold. intros stored h s Hs. unfold lru_stored_one. wp_steps.
    apply keeps_block; [done|]. intros b Hg. destruct (is_ready b); wp_steps; [done|]. by apply lru_inv_set_ref.
  - apply wp_bind. eapply wp_call; [apply keeps_for_each; [intros h; by apply keeps_failed_one|done]|]. done.
Qed.

Lemma keeps_take_events pool : keeps pool lru_take_events.
Proof. intros s Hs. unfold lru_take_events. wp_steps. by destruct (lru_events (id s)). Qed.

(** ** Storing *)

(** The eviction loop removes exactly the listed blocks and frees their ids. *)
Lemma wp_evict pool s hs E :
  NoDup pool → lru_inv pool s → NoDup hs → (∀ h, h ∈ hs → h ∈ keys (lru_blocks s)) →
  wp (for_each hs lru_evict_one)
    (λ _ s', lru_inv pool s' ∧ lru_blocks s' = od_without hs (lru_blocks s) ∧ lru_events s' = lru_events s) E s.
Proof.
  intros Hpool Hs Hnd Hin.
  apply (wp_for_each (λ dn _ s', lru_inv pool s' ∧ lru_blocks s' = od_without dn (lru_blocks s) ∧
    lru_events s' = lru_events s)).
  - by rewrite od_without_nil.
  - intros dn h todo s' -> (Hi & Hd & He). unfold lru_evict_one. wp_steps.
    apply NoDup_remove_mid in Hnd as [_ Hn].
    assert (is_Some (od_get h (lru_blocks s'))) as [b Hb].
    { rewrite Hd, od_get_without by (intros ?; apply Hn; in_list).
      apply not_eq_None_Some. rewrite od_get_None. intros Hno. apply Hno, Hin. in_list. }
    eapply wp_from_option; [done|]. wp_steps. apply wp_zoom. simpl.
    eapply wp_call; [by eapply wp_free_block|]. intros [] b' Hc. simpl.
    split_and!; [split; [apply od_del_nodup, Hi|done]| |done]. by rewrite Hd, od_without_snoc.
  - auto.
Qed.

(** Entering new blocks appends them. *)
Lemma wp_enter pool (s : LRUOffloadingManager B) hs bs E :
  NoDup (keys (lru_blocks s)) → NoDup hs → length bs = length hs → (∀ h, h ∈ hs → h ∉ keys (lru_blocks s)) →
  conserved pool (lru_blocks s ++ zip hs bs) (lru_backend s) →
  wp (for_each (zip hs bs) (λ x, modify (set_lru_blocks (od_set x.1 x.2))))
    (λ _ s', lru_inv pool s' ∧ lru_blocks s' = lru_blocks s ++ zip hs bs ∧ lru_events s' = lru_events s) E s.
Proof.
  intros Hk Hnd Hl Hnew Hc.
  assert (NoDup (keys (lru_blocks s ++ zip hs bs))) as Hall.
  { rewrite fmap_app, fst_zip by lia. apply NoDup_app. split_and!; [done| |done].
    intros h H1 H2. by apply (Hnew h). }
  apply (wp_for_each (λ dn _ s', s' = set_lru_blocks (.++ dn) s)).
  - by destruct s; unfold set_lru_blocks; simpl; rewrite app_nil_r.
  - intros dn x todo s' Hz ->. wp_steps. unfold set_lru_blocks. simpl. rewrite app_assoc, od_set_new; [by destruct x|].
    rewrite Hz, app_assoc, fmap_app in Hall. csimpl in Hall. apply NoDup_remove_mid in Hall as [_ Hno].
    intros ?. apply Hno. in_list.
  - intros s' ->. done.
Qed.

(** How many blocks a store of [hs] is short of, and the outcome it has. *)
Definition missing (hs : list hash) s : list hash := filter (λ h, od_mem h (lru_blocks s) = false) hs.
Definition short (hs : list hash) s : nat :=
  Z.to_nat (Z.of_nat (length (missing hs s)) - get_num_free_blocks (lru_backend s)).
Definition victims (hs : list hash) s : list hash := take (short hs s) (candidates hs (lru_blocks s)).

Lemma victims_cached hs s h : h ∈ victims hs s → h ∈ keys (lru_blocks s).
Proof.
  intros Hh. eapply elem_of_sublist; [done|]. etrans; [apply sublist_take|apply candidates_sublist].
Qed.

Definition store_outcome (pool : list Z) (hs : list hash) s (o : option PrepareStoreOutput) s' : Prop :=
  match o with
  | None => (length (candidates hs (lru_blocks s)) < short hs s)%nat ∧ s' = s
  | Some out =>
      (short hs s ≤ length (candidates hs (lru_blocks s)))%nat ∧ lru_inv pool s' ∧
      ∃ bs, out = mkPrepareStoreOutput (missing hs s) (block_id <$> bs) (victims hs s) ∧
        length bs = length (missing hs s) ∧ (∀ b, b ∈ bs → ref_cnt b = -1) ∧
        lru_blocks s' = od_without (victims hs s) (lru_blocks s) ++ zip (missing hs s) bs ∧
        lru_events s' = record_event (victims hs s) true (lru_events s)
  end.

Lemma scan_spec hs s :
  (if 0 <? Z.of_nat (length (missing hs s)) - get_num_free_blocks (lru_backend s)
   then evict_scan (short hs s) hs (lru_blocks s) [] else Some []) =
  if decide (short hs s ≤ length (candidates hs (lru_blocks s)))%nat then Some (victims hs s) else None.
Proof.
  unfold victims. destruct (Z.ltb_spec 0 (Z.of_nat (length (missing hs s)) - get_num_free_blocks (lru_backend s))).
  - apply evict_scan_spec. unfold short. lia.
  - assert (short hs s = 0%nat) as -> by (unfold short; lia). by rewrite decide_True by lia.
Qed.

Lemma free_after_evict pool s s1 hs :
  lru_inv pool s → lru_inv pool s1 → NoDup (victims hs s) →
  (short hs s ≤ length (candidates hs (lru_blocks s)))%nat →
  lru_blocks s1 = od_without (victims hs s) (lru_blocks s) →
  Z.of_nat (length (missing hs s)) ≤ get_num_free_blocks (lru_backend s1).
Proof.
  intros [Hk [Hb Hp]] [Hk1 [Hb1 Hp1]] Hnd Hs He.
  assert (length pool = length (lru_blocks s) + length (available (lru_backend s)))%nat as H1
    by by rewrite Hp, length_app, length_fmap.
  assert (length pool = length (lru_blocks s1) + length (available (lru_backend s1)))%nat as H2
    by by rewrite Hp1, length_app, length_fmap.
  assert (length (lru_blocks s) = length (lru_blocks s1) + length (victims hs s))%nat as H3.
  { rewrite He, <-(length_fmap fst (od_without _ _)), od_without_keys, <-(length_fmap fst (lru_blocks s)).
    rewrite <-length_app. apply Permutation_length, NoDup_Permutation; [done| |].
    - apply NoDup_app. split_and!; [by apply NoDup_filter| |done]. by intros x [? ?]%list_elem_of_filter.
    - intros x. rewrite elem_of_app, list_elem_of_filter. destruct (decide (x ∈ victims hs s)) as [Hv|]; [|tauto].
      split; [tauto|intros _]. by eapply victims_cached. }
  rewrite free_count by done. unfold victims in H3. rewrite length_take in H3.
  pose proof (free_count _ Hb) as H4. unfold short in *. lia.
Qed.

Lemma wp_lru_prepare_store pool hs s E :
  NoDup pool → lru_inv pool s → NoDup hs → wp (lru_prepare_store hs) (store_outcome pool hs s) E s.
Proof.
  intros Hpool Hs Hhs. unfold lru_prepare_store. wp_steps. unfold id. fold (missing hs s). fold (short hs s).
  rewrite scan_spec. case_decide as Hen; [|wp_steps; split; [lia|done]].
  pose proof (NoDup_candidates hs (lru_blocks s) (short hs s) (proj1 Hs)) as Hv. fold (victims hs s) in Hv.
  apply wp_bind. eapply wp_call; [apply (wp_evict pool); [done|done|done|]|].
  { intros h. apply victims_cached. }
  intros [] s1 (Hs1 & Hd1 & He1). wp_steps. apply wp_zoom. simpl.
  eapply wp_call; [apply (conserved_allocate pool); [apply Hs1|by eapply free_after_evict]|].
  intros bs b' (Hl & Hr & Hc & _). apply wp_bind, wp_assert; [by apply Nat.eqb_eq|]. wp_steps.
  eapply wp_call; [apply (wp_enter pool)|]; simpl; [apply Hs1|by apply NoDup_filter|done| |done|].
  - intros h [Hno _]%list_elem_of_filter. rewrite Hd1, od_without_keys, list_elem_of_filter. intros [_ Hin].
    by rewrite od_mem_false in Hno.
  - intros [] s2 (Hs2 & Hd2 & He2). wp_steps. split_and!; [done|done|].
    exists bs. split_and!; [done|done|done| |]; [by rewrite Hd2, Hd1|by rewrite He2, He1].
Qed.

(** ** Histories *)

(** One call on the manager; the state counts also when the call raises. A store names each
    hash once. *)
Inductive lru_step s : LRUOffloadingManager B → Prop :=
  | step_lookup hs : lru_step s (snd (lru_lookup hs s))
  | step_prepare_load hs : lru_step s (snd (lru_prepare_load hs s))
  | step_touch hs : lru_step s (snd (lru_touch hs s))
  | step_complete_load hs : lru_step s (snd (lru_complete_load hs s))
  | step_prepare_store hs : NoDup hs → lru_step s (snd (lru_prepare_store hs s))
  | step_complete_store hs success : lru_step s (snd (lru_complete_store hs success s))
  | step_take_events : lru_step s (snd (lru_take_events s)).

Definition lru_reachable : relation (LRUOffloadingManager B) := rtc lru_step.

Lemma keeps_snd {A} pool (m : M (LRUOffloadingManager B) A) s :
  wp m (λ _, lru_inv pool) (λ _, lru_inv pool) s → lru_inv pool (snd (m s)).
Proof. unfold wp. by destruct (m s) as [[a|e] s']. Qed.

Lemma store_outcome_inv pool hs s o s' : lru_inv pool s → store_outcome pool hs s o s' → lru_inv pool s'.
Proof. destruct o; simpl; [by intros _ (_ & ? & _)|by intros ? [_ ->]]. Qed.

Lemma lru_step_inv pool s s' : NoDup pool → lru_inv pool s → lru_step s s' → lru_inv pool s'.
Proof.
  intros Hpool Hs Hstep. destruct Hstep; try done; apply keeps_snd;
    auto using keeps_prepare_load, keeps_touch, keeps_complete_load, keeps_complete_store, keeps_take_events.
  eapply wp_call; [by apply wp_lru_prepare_store|]. intros o s'. by apply store_outcome_inv.
Qed.

Lemma lru_reachable_inv (b0 : B) ev s :
  backend_ok b0 → NoDup (available b0) → lru_reachable (lru_init b0 ev) s → lru_inv (available b0) s.
Proof.
  intros Hb Hnd Hr. assert (lru_inv (available b0) (lru_init b0 ev)) as Hi by (split; [constructor|by split]).
  induction Hr as [|x y z Hxy Hyz IH]; [done|]. apply IH. by eapply lru_step_inv.
Qed.

(** C35: after any history of calls on the LRU offloading manager over any backend that keeps its
    promises, also calls that raise, in which a store names each hash once, the cache names no
    hash twice, no two cached blocks share a block id, no cached id can be handed out again, and
    no id of the backend is lost. A hash named twice in a store loses an id
    ([duplicate_store_loses_id]). *)
Theorem lru_reachable_conserves (b0 : B) ev s :
  backend_ok b0 → NoDup (available b0) → lru_reachable (lru_init b0 ev) s →
  NoDup (lru_blocks s).*1 ∧
  NoDup (block_id <$> (lru_blocks s).*2) ∧
  (∀ b, b ∈ (lru_blocks s).*2 → block_id b ∉ available (lru_backend s)) ∧
  available b0 ≡ₚ (block_id <$> (lru_blocks s).*2) ++ available (lru_backend s) ∧
  get_num_free_blocks (lru_backend s) = get_num_free_blocks b0 - Z.of_nat (length (lru_blocks s)).
Proof.
  intros Hb Hnd Hr. destruct (lru_reachable_inv b0 ev s Hb Hnd Hr) as [Hk [Hb' Hp]].
  assert (block_id <$> (lru_blocks s).*2 = (λ x : hash * BlockStatus, block_id x.2) <$> lru_blocks s) as ->
    by by rewrite <-list_fmap_compose.
  pose proof Hnd as Hall. rewrite Hp in Hall. apply NoDup_app in Hall as (H1 & H2 & _).
  split_and!; [done|done| |done|].
  - intros b Hin. apply H2. apply list_elem_of_fmap in Hin as [x [-> Hx]]. by apply (list_elem_of_fmap_2' _ _ x).
  - rewrite !free_count by done. rewrite Hp, length_app, length_fmap. lia.
Qed.

(** C39: preparing a store of distinct hashes in a reachable state never raises. It returns nothing, and changes
    nothing, exactly when the blocks it may evict (count zero, not named by the request) are
    fewer than the blocks it is short of. Otherwise it evicts exactly the oldest of them that
    it needs, leaves every other block in place and in order, and appends one block that is not
    ready, with an id of its own, for each named hash that was missing. *)
Theorem lru_prepare_store_exact (b0 : B) ev s hs :
  backend_ok b0 → NoDup (available b0) → lru_reachable (lru_init b0 ev) s → NoDup hs →
  ∃ o s', lru_prepare_store hs s = (Ret o, s') ∧ store_outcome (available b0) hs s o s'.
Proof.
  intros Hb Hnd Hr Hhs. apply wp_run. apply wp_lru_prepare_store; [done| |done]. by eapply lru_reachable_inv.
Qed.
End lru.

(** A cache of two blocks: a store of one hash completed, a second one under way. *)
Definition sample_lru : LRUOffloadingManager CPUBackend :=
  let s1 := snd (lru_prepare_store [[1]] (lru_init (cpu_init 2) true)) in
  let s2 := snd (lru_complete_store [[1]] true s1) in
  snd (lru_prepare_store [[2]] s2).

Lemma sample_lru_reachable : lru_reachable (lru_init (cpu_init 2) true) sample_lru.
Proof.
  eapply rtc_l; [apply (step_prepare_store _ [[1]]), NoDup_singleton|].
  eapply rtc_l; [apply (step_complete_store _ [[1]] true)|].
  apply rtc_once, (step_prepare_store _ [[2]]), NoDup_singleton.
Qed.

Lemma cpu_init_ok n : 0 ≤ n → backend_ok (cpu_init n) ∧ NoDup (available (cpu_init n)).
Proof.
  intros Hn. split; [done|]. simpl. unfold cpu_available, py_range. simpl. apply NoDup_fmap_2; [|apply NoDup_seq].
  intros x y. lia.
Qed.

Lemma lru_reachable_conserves_witness :
  get_num_free_blocks (lru_backend sample_lru) = 0 ∧ [0; 1] ≡ₚ [0; 1] ++ available (lru_backend sample_lru).
Proof.
  destruct (cpu_init_ok 2 ltac:(lia)) as [H1 H2].
  destruct (lru_reachable_conserves (cpu_init 2) true sample_lru H1 H2 sample_lru_reachable)
    as (_ & _ & _ & H3 & H4). split; [exact H4|exact H3].
Defined.

(** The finished block is evicted for a third hash; the block whose store is under way is
    kept. *)
Lemma lru_prepare_store_exact_witness :
  ∃ o s', lru_prepare_store [[3]] sample_lru = (Ret o, s') ∧ store_outcome [0; 1] [[3]] sample_lru o s' ∧
    o = Some (mkPrepareStoreOutput [[3]] [0] [[1]]).
Proof.
  destruct (cpu_init_ok 2 ltac:(lia)) as [H1 H2].
  destruct (lru_prepare_store_exact (cpu_init 2) true sample_lru [[3]] H1 H2 sample_lru_reachable
    (NoDup_singleton _)) as (o & s' & H3 & H4).
  exists o, s'. split; [exact H3|]. split; [exact H4|].
  assert (fst (lru_prepare_store [[3]] sample_lru) = Ret (Some (mkPrepareStoreOutput [[3]] [0] [[1]]))) as H5
    by (vm_compute; reflexivity).
  rewrite H3 in H5. simpl in H5. congruence.
Defined.

(** A store that names a hash twice takes two block ids and keeps one: after it is complete, one
    block is cached, no block is free, and the other id is lost. *)
Theorem duplicate_store_loses_id :
  let s := snd (lru_complete_store [[1]] true (snd (lru_prepare_store [[1]; [1]] (lru_init (cpu_init 2) false)))) in
  block_id <$> (lru_blocks s).*2 = [1] ∧ available (lru_backend s) = [] ∧ get_num_free_blocks (lru_backend s) = 0.
Proof. vm_compute. repeat split; reflexivity. Qed.
