(* ===== verification/OffloadArc.v ===== *)
(** The ARC offloading manager over any backend: the four lists stay disjoint, ids are
    conserved, a store never drops a block in use; and three concrete histories in which the
    manager behaves otherwise than its comments say. *)
From S2P Require Import Prelude.
From S2P Require Import Dict.
From S2P Require Import Offload.
From S2P Require Import OffloadInv.
From S2P Require Import OffloadLru.
Local Open Scope Z_scope.

Section arc.
Context {B : Type} `{!Backend B}.
Implicit Types s : ARCOffloadingManager B.

(** The hashes of the cache and of the ghost lists, and the blocks of the cache. *)
Definition tracked s : list hash := keys (t1 s) ++ keys (t2 s) ++ keys (b1 s) ++ keys (b2 s).
Definition cached s : odict BlockStatus := t1 s ++ t2 s.

(** The four lists are disjoint and no id is lost or shared. *)
Definition arc_inv (pool : list Z) s : Prop :=
  NoDup (tracked s) ∧ conserved pool (cached s) (arc_backend s).

Lemma arc_inv_perm pool s s' :
  arc_inv pool s → tracked s' ≡ₚ tracked s → cached s' ≡ₚ cached s → arc_backend s' = arc_backend s → arc_inv pool s'.
Proof. intros [H1 H2] Ht Hc Hb. split; [by rewrite Ht|]. by rewrite Hc, Hb. Qed.

(** What disjointness says of each list. *)
Lemma tracked_nodup s :
  NoDup (tracked s) →
  NoDup (keys (t1 s)) ∧ NoDup (keys (t2 s)) ∧ NoDup (keys (b1 s)) ∧ NoDup (keys (b2 s)) ∧
  (∀ h, h ∈ keys (t1 s) → h ∉ keys (t2 s) ∧ h ∉ keys (b1 s) ∧ h ∉ keys (b2 s)) ∧
  (∀ h, h ∈ keys (t2 s) → h ∉ keys (b1 s) ∧ h ∉ keys (b2 s)) ∧
  (∀ h, h ∈ keys (b1 s) → h ∉ keys (b2 s)).
Proof.
  unfold tracked. rewrite !NoDup_app. intros (? & H1 & ? & H2 & ? & H3 & ?). split_and!; try done.
  - intros h Hh%H1. rewrite !not_elem_of_app in Hh. tauto.
  - intros h Hh%H2. by rewrite not_elem_of_app in Hh.
Qed.

Lemma arc_get_spec s h b : NoDup (tracked s) → arc_get h s = Some b ↔ (h, b) ∈ cached s.
Proof.
  intros (H1 & H2 & _ & _ & H3 & _)%tracked_nodup. unfold arc_get, cached. rewrite elem_of_app.
  rewrite <-!od_get_Some by done. destruct (od_get h (t1 s)) as [b'|] eqn:Hg; [|naive_solver].
  split; [auto|]. intros [?|Hg2]; [done|]. exfalso.
  assert (h ∈ keys (t1 s)) as Hk by (apply od_mem_keys; unfold od_mem; by rewrite Hg).
  apply H3 in Hk as [Hk _]. apply od_get_None in Hk. congruence.
Qed.

(** A changed count keeps keys and ids. *)
Lemma arc_inv_put pool s h b z : arc_inv pool s → arc_get h s = Some b → arc_inv pool (arc_put h (set_ref z b) s).
Proof.
  intros [Hnd [Hb Hp]] Hg. pose proof (tracked_nodup s Hnd) as (H1 & H2 & _). unfold arc_get, arc_put in *.
  unfold od_mem. destruct (od_get h (t1 s)) as [b'|] eqn:Hg1; simplify_eq.
  - rewrite bool_decide_eq_true_2 by done. split; unfold tracked, cached; simpl.
    + rewrite od_set_keys, decide_True; [done|by eapply od_get_in].
    + split; [done|]. unfold cached in Hp. simpl. rewrite fmap_app in *. by rewrite (od_set_same block_id h b).
  - rewrite bool_decide_eq_false_2 by by intros [].
    split; unfold tracked, cached; simpl.
    + rewrite od_set_keys, decide_True; [done|by eapply od_get_in].
    + split; [done|]. unfold cached in Hp. simpl. rewrite fmap_app in *. by rewrite (od_set_same block_id h b).
Qed.

(** Another backend state, the lists alone. *)
Definition set_arc_backend (bk : B) s : ARCOffloadingManager B :=
  mkARC bk (target_t1_size s) (t1 s) (t2 s) (b1 s) (b2 s) (arc_events s) (cache_capacity s).

(** ** The calls that move nothing out *)

Abbreviation keeps pool m := (∀ s, arc_inv pool s → wp m (λ _, arc_inv pool) (λ _, arc_inv pool) s).

Lemma arc_keeps_for_each {A} pool (xs : list A) body :
  (∀ x, keeps pool (body x)) → keeps pool (for_each xs body).
Proof. intros Hb s Hs. apply (wp_for_each (λ _ _, arc_inv pool)); [done| |done]. intros. by apply Hb. Qed.

Lemma arc_keeps_for_fold {A C} pool (xs : list A) (c : C) body :
  (∀ c x, keeps pool (body c x)) → keeps pool (for_fold xs c body).
Proof. intros Hb s Hs. apply (wp_for_fold (λ _ _, arc_inv pool)); [done| |done]. intros. by apply Hb. Qed.

Lemma arc_keeps_block pool s h e (Q : BlockStatus → ARCOffloadingManager B → Prop) :
  arc_inv pool s → (∀ b, arc_get h s = Some b → Q b s) →
  wp (from_option_raise e (arc_get h (id s))) Q (λ _, arc_inv pool) s.
Proof. intros Hs Hk. unfold id. destruct (arc_get h s) as [b|]; [by apply Hk|done]. Qed.

Lemma arc_keeps_prepare_load pool hs : keeps pool (arc_prepare_load hs).
Proof.
  intros s Hs. unfold arc_prepare_load. apply wp_bind. eapply (wp_call _ (λ _, arc_inv pool)); [|done]. revert s Hs.
  apply arc_keeps_for_fold. intros acc h s Hs. unfold arc_load_one. wp_steps. apply arc_keeps_block; [done|].
  intros b Hg. wp_steps. unfold py_assert. destruct (is_ready b); [|done]. wp_steps. by apply arc_inv_put.
Qed.

Lemma arc_keeps_complete_load pool hs : keeps pool (arc_complete_load hs).
Proof.
  apply arc_keeps_for_each. intros h s Hs. wp_steps. apply arc_keeps_block; [done|]. intros b Hg. wp_steps.
  unfold py_assert. destruct (0 <? ref_cnt b); [|done]. wp_steps. by apply arc_inv_put.
Qed.

Lemma arc_keeps_complete_store pool hs : keeps pool (arc_complete_store hs true).
Proof.
  intros s Hs. unfold arc_complete_store. apply wp_bind. eapply (wp_call _ (λ _, arc_inv pool)); [|done]. revert s Hs.
  apply arc_keeps_for_fold. intros stored h s Hs. unfold arc_stored_one. wp_steps. unfold id.
  destruct (arc_get h s) as [b|] eqn:Hg; [|done]. destruct (is_ready b); [done|]. wp_steps. by apply arc_inv_put.
Qed.

Lemma arc_keeps_take_events pool : keeps pool arc_take_events.
Proof. intros s Hs. unfold arc_take_events. wp_steps. by destruct (arc_events (id s)). Qed.

Lemma arc_keeps_touch pool hs : keeps pool (arc_touch hs).
Proof.
  apply arc_keeps_for_each. intros h s Hs. pose proof (tracked_nodup s (proj1 Hs)) as (N1 & N2 & N3 & N4 & D1 & _).
  unfold arc_touch_one. wp_steps. unfold id. destruct (od_get h (t1 s)) as [b|] eqn:Hg.
  - assert (h ∉ keys (od_del h (t1 s))) as Hn1 by (rewrite od_del_keys, list_elem_of_filter; by intros []).
    assert (h ∉ keys (t2 s)) as Hn2 by (apply od_get_in, D1 in Hg; tauto).
    destruct (is_ready b); wp_steps; (eapply arc_inv_perm; [done| | |done]); unfold tracked, cached; simpl;
      rewrite od_set_new by done; rewrite ?fmap_app; csimpl.
    + rewrite (od_del_keys_perm h b (t1 s)) by done. rewrite <-!app_assoc. simpl. by rewrite <-!Permutation_middle.
    + rewrite (od_del_perm h b (t1 s)) at 2 by done. rewrite (Permutation_app_comm (t2 s)). simpl.
      by rewrite <-Permutation_middle.
    + rewrite (od_del_keys_perm h b (t1 s)) by done. rewrite <-!app_assoc. simpl. by rewrite <-!Permutation_middle.
    + rewrite (od_del_perm h b (t1 s)) at 2 by done. rewrite <-!app_assoc. simpl. by rewrite <-Permutation_middle.
  - destruct (od_mem h (t2 s)); [|destruct (od_mem h (b1 s)); [|destruct (od_mem h (b2 s)); [|done]]];
      wp_steps; (eapply arc_inv_perm; [done| | |done]); unfold tracked, cached; simpl; by rewrite ?od_move_perm.
Qed.

(** ** Removing blocks *)

(** A block taken out of the cache and freed; [s'] differs in the ghost lists only. *)
Lemma arc_free pool s s' h b E :
  NoDup pool → arc_inv pool s → cached s ≡ₚ (h, b) :: cached s' → NoDup (tracked s') → arc_backend s' = arc_backend s →
  wp (on_arc_backend (free b)) (λ _ s2, arc_inv pool s2 ∧ ∃ bk, s2 = set_arc_backend bk s') E s'.
Proof.
  intros Hpool [Hnd Hc] Hp Ht Hb. apply wp_zoom. rewrite Hb. rewrite Hp in Hc.
  eapply wp_call; [by eapply conserved_free|]. intros [] bk Hbk. split; [by split|]. by exists bk.
Qed.

(** Where the cache keeps a block, and the two states that lack it. *)
Lemma arc_get_split s h b :
  arc_get h s = Some b →
  od_get h (t1 s) = Some b ∧ od_mem h (t1 s) = true ∨
  od_get h (t1 s) = None ∧ od_mem h (t1 s) = false ∧ od_get h (t2 s) = Some b.
Proof. unfold arc_get, od_mem. destruct (od_get h (t1 s)); intros ?; simplify_eq; auto. Qed.

Lemma drop_tracked s f1 f2 g1 g2 :
  NoDup (tracked s) → keys (f1 (t1 s)) `sublist_of` keys (t1 s) → keys (f2 (t2 s)) `sublist_of` keys (t2 s) →
  keys (g1 (b1 s)) `sublist_of` keys (b1 s) → keys (g2 (b2 s)) `sublist_of` keys (b2 s) →
  NoDup (tracked (set_lists f1 f2 g1 g2 s)).
Proof. intros Hnd H1 H2 H3 H4. eapply sublist_NoDup; [exact Hnd|]. unfold tracked. simpl. by repeat apply sublist_app. Qed.

Lemma wp_failed_one pool s h E :
  NoDup pool → arc_inv pool s → (∀ b, arc_get h s = Some b → is_ready b = false) →
  wp (arc_failed_one h) (λ _ s', arc_inv pool s' ∧ cached s' ⊆ cached s) E s.
Proof.
  intros Hpool Hs Hr. pose proof (tracked_nodup s (proj1 Hs)) as (N1 & N2 & _). unfold arc_failed_one. wp_steps.
  unfold id. destruct (arc_get h s) as [b|] eqn:Hg.
  - rewrite (Hr b eq_refl). set (s' := if od_mem h (t1 s) then _ else _).
    assert (cached s ≡ₚ (h, b) :: cached s' ∧ NoDup (tracked s') ∧ arc_backend s' = arc_backend s) as (H1 & H2 & H3).
    { unfold s'. apply arc_get_split in Hg as [[Hg ->]|(Hg1 & -> & Hg)]; split_and!; try done;
        try (apply drop_tracked; [apply Hs|..]; first [done|apply od_del_keys_sub]); unfold cached; simpl.
      - by rewrite (od_del_perm h b (t1 s)) at 1.
      - rewrite (od_del_perm h b (t2 s)) at 1 by done. by rewrite <-Permutation_middle. }
    eapply wp_call; [by eapply arc_free|]. intros [] s2 [Hi [bk ->]]. split; [done|].
    unfold cached in *. simpl. rewrite H1. set_solver.
  - wp_steps. assert (od_get h (t1 s) = None ∧ od_get h (t2 s) = None) as [Hg1 Hg2].
    { unfold arc_get in Hg. by destruct (od_get h (t1 s)). }
    apply od_get_None in Hg1, Hg2. rewrite (proj2 (od_mem_false h (t1 s)) Hg1).
    unfold cached, arc_inv, tracked, set_t2, set_lists. simpl. rewrite od_del_new by done. split; [exact Hs|done].
Qed.

Lemma wp_failed_store pool s hs E :
  NoDup pool → arc_inv pool s → (∀ h b, h ∈ hs → arc_get h s = Some b → is_ready b = false) →
  wp (arc_complete_store hs false) (λ _ s', arc_inv pool s' ∧ cached s' ⊆ cached s) E s.
Proof.
  intros Hpool Hs Hr. unfold arc_complete_store. apply wp_bind, wp_bind.
  apply (wp_for_each (λ _ _ s', arc_inv pool s' ∧ cached s' ⊆ cached s)); [done| |done].
  intros dn h todo s' -> [Hi Hsub]. eapply wp_call; [apply (wp_failed_one pool); [done|done|]|].
  - intros b Hg. apply (Hr h b); [in_list|]. apply arc_get_spec; [apply Hs|].
    apply Hsub. by apply arc_get_spec; [apply Hi|].
  - intros [] s2 [Hi2 Hsub2]. split; [done|by etrans].
Qed.

(** ** Eviction *)

Lemma first_evictable_spec protected d h b :
  first_evictable protected d = Some (h, b) → (h, b) ∈ d ∧ evictable protected (h, b).
Proof.
  unfold first_evictable. intros Hh%head_Some_elem_of. apply list_elem_of_filter in Hh. tauto.
Qed.

(** One turn: a block leaves the cache, its hash enters a ghost list. *)
Definition demoted h b s s' : Prop :=
  cached s ≡ₚ (h, b) :: cached s' ∧ tracked s' ≡ₚ tracked s ∧ arc_backend s' = arc_backend s ∧
  arc_events s' = arc_events s ∧ cache_capacity s' = cache_capacity s.

Lemma demote_t1 s h b :
  NoDup (tracked s) → od_get h (t1 s) = Some b → demoted h b s (set_b1 (od_set h tt) (set_t1 (od_del h) s)).
Proof.
  intros Hnd Hg. pose proof (tracked_nodup s Hnd) as (N1 & _ & _ & _ & D & _). apply od_get_in in Hg as Hin.
  apply D in Hin as (_ & Hn & _). unfold demoted, cached, tracked. simpl. split_and!; try done.
  - by rewrite (od_del_perm h b (t1 s)) at 1.
  - rewrite od_set_new, fmap_app by done. csimpl. rewrite (od_del_keys_perm h b (t1 s)) by done.
    rewrite <-!app_assoc. simpl. by rewrite <-!Permutation_middle.
Qed.

Lemma demote_t2 s h b :
  NoDup (tracked s) → od_get h (t2 s) = Some b → demoted h b s (set_b2 (od_set h tt) (set_t2 (od_del h) s)).
Proof.
  intros Hnd Hg. pose proof (tracked_nodup s Hnd) as (_ & N2 & _ & _ & _ & D & _). apply od_get_in in Hg as Hin.
  apply D in Hin as (_ & Hn). unfold demoted, cached, tracked. simpl. split_and!; try done.
  - rewrite (od_del_perm h b (t2 s)) at 1 by done. by rewrite <-Permutation_middle.
  - rewrite od_set_new, fmap_app by done. csimpl. rewrite (od_del_keys_perm h b (t2 s)) by done.
    rewrite !app_assoc, (Permutation_app_comm _ [h]), <-!app_assoc. simpl. by rewrite <-!Permutation_middle.
Qed.

(** What the loop has done after evicting [ev] on the way from [s] to [s']. *)
Definition evicted protected (ev : odict BlockStatus) s s' : Prop :=
  cached s ≡ₚ ev ++ cached s' ∧ Forall (evictable protected) ev ∧ 
  arc_events s' = arc_events s ∧ cache_capacity s' = cache_capacity s.

(** Nothing more may be evicted: the give-up condition of the loop. *)
Definition stuck protected s : Prop :=
  Forall (λ x, ¬ evictable protected x) (t2 s) ∧
  (Z.of_nat (length (t1 s)) < f_trunc (target_t1_size s) ∨ Forall (λ x, ¬ evictable protected x) (t1 s)).

Lemma first_evictable_None protected d :
  first_evictable protected d = None → Forall (λ x, ¬ evictable protected x) d.
Proof.
  unfold first_evictable. intros Hh%head_None. apply Forall_forall. intros x Hx He.
  assert (x ∈ filter (evictable protected) d) as Hin by by apply list_elem_of_filter.
  rewrite Hh in Hin. by apply elem_of_nil in Hin.
Qed.

Lemma evicted_cons protected h b s s' s2 s3 ev :
  demoted h b s s' → evicted protected [] s' s2 → evictable protected (h, b) → evicted protected ev s2 s3 →
  evicted protected ((h, b) :: ev) s s3.
Proof.
  intros (H1 & _ & _ & H4 & H5) (H6 & _ & H8 & H9) He (H10 & H11 & H12 & H13).
  split_and!; [by rewrite H1, H6, H10|by constructor|congruence|congruence].
Qed.

Definition evict_post pool protected n acc s (o : option (list hash)) s' : Prop :=
  arc_inv pool s' ∧ ∃ ev, evicted protected ev s s' ∧
    match o with
    | Some l => l = acc ++ ev.*1 ∧ length ev = n
    | None => (length ev < n)%nat ∧ stuck protected s'
    end.

(** The rest of a turn, after the move. *)
Lemma wp_evict_turn pool protected n acc s s' h b (k : M (ARCOffloadingManager B) (option (list hash))) E :
  NoDup pool → arc_inv pool s → demoted h b s s' → evictable protected (h, b) →
  (∀ s2, arc_inv pool s2 → wp k (evict_post pool protected n (acc ++ [h]) s2) E s2) →
  wp (on_arc_backend (free b)) (λ _, wp k (evict_post pool protected (S n) acc s) E) E s'.
Proof.
  intros Hpool Hs Hd He Hk. pose proof Hd as (H1 & H2 & H3 & _).
  eapply wp_call; [eapply (arc_free pool s); [done|done|exact H1|by rewrite H2; apply Hs|done]|].
  intros [] s2 [Hi [bk ->]]. eapply wp_call; [by apply Hk|]. intros o s3 (Hi3 & ev & Hev & Ho). split; [done|].
  exists ((h, b) :: ev). split; [eapply evicted_cons; [done| |done|done]; by split_and!|].
  destruct o; simpl; [|split; [lia|apply Ho]]. destruct Ho as [-> <-]. by rewrite <-app_assoc.
Qed.

Lemma wp_arc_evict pool protected n acc s E :
  NoDup pool → arc_inv pool s → wp (arc_evict n protected acc) (evict_post pool protected n acc s) E s.
Proof.
  intros Hpool. revert acc s. induction n as [|n IH]; intros acc s Hs; simpl.
  { wp_steps. split; [done|]. exists []. rewrite app_nil_r. by split_and!. }
  wp_steps. unfold id. set (from := if f_trunc _ <=? _ then _ else _).
  pose proof (tracked_nodup s (proj1 Hs)) as (N1 & N2 & _).
  destruct from as [[h b]|] eqn:Hf; [|destruct (first_evictable protected (t2 s)) as [[h b]|] eqn:Hf2].
  - assert (first_evictable protected (t1 s) = Some (h, b)) as [Hin He]%first_evictable_spec
      by (unfold from in Hf; by destruct (_ <=? _)).
    apply od_get_Some in Hin; [|done]. wp_steps. eapply wp_evict_turn; [done|exact Hs| |done|auto].
    apply demote_t1; [apply Hs|done].
  - apply first_evictable_spec in Hf2 as [Hin He]. apply od_get_Some in Hin; [|done]. wp_steps.
    eapply wp_evict_turn; [done|exact Hs| |done|auto]. apply demote_t2; [apply Hs|done].
  - wp_steps. split; [done|]. exists []. split; [by split_and!|]. simpl. split; [lia|].
    split; [by apply first_evictable_None|]. unfold from in Hf.
    destruct (Z.leb_spec (f_trunc (target_t1_size s)) (Z.of_nat (length (t1 s)))); [right|by left].
    by apply first_evictable_None.
Qed.

(** ** Storing *)

Definition arc_missing (hs : list hash) s : list hash :=
  filter (λ h, od_mem h (t1 s) = false ∧ od_mem h (t2 s) = false) hs.
Definition arc_short (hs : list hash) s : nat :=
  Z.to_nat (Z.of_nat (length (arc_missing hs s)) - get_num_free_blocks (arc_backend s)).

(** The bound on the ghost lists after a store. *)
Definition ghosts_bounded s : Prop :=
  Z.of_nat (length (b1 s)) ≤ Z.max 0 (cache_capacity s) ∧ Z.of_nat (length (b2 s)) ≤ Z.max 0 (cache_capacity s).

Definition arc_outcome (pool : list Z) (hs : list hash) s (o : option PrepareStoreOutput) s' : Prop :=
  arc_inv pool s' ∧ ∃ ev bs,
    Forall (evictable hs) ev ∧ cached s ++ zip (arc_missing hs s) bs ≡ₚ ev ++ cached s' ∧
    match o with
    | None => bs = [] ∧ (length ev < arc_short hs s)%nat ∧ stuck hs s'
    | Some out =>
        out = mkPrepareStoreOutput (arc_missing hs s) (block_id <$> bs) ev.*1 ∧
        length ev = arc_short hs s ∧ length bs = length (arc_missing hs s) ∧ (∀ b, b ∈ bs → ref_cnt b = -1) ∧
        arc_events s' = record_event ev.*1 true (arc_events s) ∧
        (arc_missing hs s ≠ [] → ghosts_bounded s')
    end.

(** The insertion loop. *)
Definition enter_all (xs : odict BlockStatus) s : ARCOffloadingManager B :=
  set_lists (.++ xs) id (od_without xs.*1) (od_without xs.*1) s.

Lemma wp_arc_enter s hs bs Q E :
  NoDup hs → length bs = length hs → (∀ h, h ∈ hs → h ∉ keys (cached s)) → Q tt (enter_all (zip hs bs) s) →
  wp (for_each (zip hs bs) (λ x, modify (λ s, set_lists (od_set x.1 x.2) id (od_del x.1) (od_del x.1) s))) Q E s.
Proof.
  intros Hnd Hl Hnew HQ. apply (wp_for_each (λ dn _ s', s' = enter_all dn s)).
  - destruct s. unfold enter_all, set_lists. simpl. by rewrite app_nil_r, !od_without_nil.
  - intros dn x todo s' Hz ->. wp_steps. unfold enter_all, set_lists. simpl.
    assert (hs = dn.*1 ++ x.1 :: todo.*1) as Hhs by (rewrite <-(fst_zip hs bs), Hz, fmap_app by lia; done).
    rewrite fmap_app. csimpl. rewrite !od_without_snoc, od_set_new; [by destruct x; rewrite app_assoc|].
    rewrite fmap_app, elem_of_app. intros [Hin|Hin].
    + apply (Hnew x.1); [rewrite Hhs; in_list|]. unfold cached. rewrite fmap_app. in_list.
    + rewrite Hhs in Hnd. apply NoDup_remove_mid in Hnd as [_ Hn]. apply Hn. in_list.
  - by intros s' ->.
Qed.

Lemma enter_tracked s hs bs :
  NoDup (tracked s) → NoDup hs → length bs = length hs → (∀ h, h ∈ hs → h ∉ keys (cached s)) →
  NoDup (tracked (enter_all (zip hs bs) s)).
Proof.
  intros Ht Hnd Hl Hnew. unfold tracked. simpl. rewrite !od_without_keys, fmap_app, fst_zip by lia.
  rewrite (Permutation_app_comm (keys (t1 s)) hs), <-app_assoc. apply NoDup_app. split_and!; [done| |].
  - intros h Hh. specialize (Hnew h Hh). unfold cached in Hnew. rewrite fmap_app, not_elem_of_app in Hnew.
    rewrite !not_elem_of_app, !list_elem_of_filter. tauto.
  - eapply sublist_NoDup; [exact Ht|]. unfold tracked. simpl. repeat apply sublist_app; auto using sublist_filter.
Qed.

Lemma trim_bounded c (d : odict unit) : Z.of_nat (length (trim_ghosts c d)) ≤ Z.max 0 c.
Proof. unfold trim_ghosts. rewrite length_drop. lia. Qed.

Lemma trim_keys c (d : odict unit) : keys (trim_ghosts c d) `sublist_of` keys d.
Proof. apply fmap_sublist, sublist_drop. Qed.

Lemma free_gain pool s s' protected ev :
  arc_inv pool s → arc_inv pool s' → evicted protected ev s s' →
  get_num_free_blocks (arc_backend s') = get_num_free_blocks (arc_backend s) + Z.of_nat (length ev).
Proof.
  intros [_ [Hb Hp]] [_ [Hb' Hp']] (Hc & _).
  assert (length pool = length (cached s) + length (available (arc_backend s)))%nat as H1
    by by rewrite Hp, length_app, length_fmap.
  assert (length pool = length (cached s') + length (available (arc_backend s')))%nat as H2
    by by rewrite Hp', length_app, length_fmap.
  rewrite !free_count by done. rewrite Hc, length_app in H1. lia.
Qed.

(** A hash that is missing before the evictions is missing after them. *)
Lemma missing_stays hs protected ev s s' h :
  evicted protected ev s s' → h ∈ arc_missing hs s → h ∉ keys (cached s').
Proof.
  intros (Hc & _) [[H1 H2] _]%list_elem_of_filter Hin. apply od_mem_false in H1, H2.
  assert (h ∈ keys (cached s)) as Hh by (rewrite Hc, fmap_app; in_list). unfold cached in Hh.
  rewrite fmap_app, elem_of_app in Hh. tauto.
Qed.

Lemma wp_arc_prepare_store pool hs s E :
  NoDup pool → arc_inv pool s → NoDup hs → wp (arc_prepare_store hs) (arc_outcome pool hs s) E s.
Proof.
  intros Hpool Hs Hhs. unfold arc_prepare_store. wp_steps. unfold id. fold (arc_missing hs s).
  destruct (decide (arc_missing hs s = [])) as [He|Hne].
  { rewrite He. wp_steps. split; [done|]. exists [], []. rewrite zip_nil_r, app_nil_r. split_and!; try done.
    - by rewrite He.
    - unfold arc_short. rewrite He. destruct Hs as [_ [Hb _]]. pose proof (free_count _ Hb). simpl. lia.
    - by rewrite He.
    - by intros b ?%elem_of_nil. }
  assert (∀ (X : M (ARCOffloadingManager B) (option PrepareStoreOutput)) Y,
    match arc_missing hs s with [] => Y | _ => X end = X) as Hsel by (by destruct (arc_missing hs s)).
  rewrite Hsel. clear Hsel. fold (arc_short hs s). apply wp_bind.
  eapply wp_call; [by apply wp_arc_evict|]. intros o s1 (Hs1 & ev & Hev & Ho). pose proof Hev as (Hc & Hf & He & Hcap).
  destruct o as [l|].
  2: { wp_steps. split; [done|]. exists ev, []. rewrite zip_nil_r, app_nil_r. split_and!; try done; apply Ho. }
  destruct Ho as [-> Hlen]. simpl. wp_steps. set (s2 := set_arc_events _ _).
  assert (arc_inv pool s2 ∧ ghosts_bounded s2) as [Hs2 Hg].
  { split; [|split; simpl; apply trim_bounded]. split; [|apply Hs1].
    apply (drop_tracked s1 id id (trim_ghosts _) (trim_ghosts _)); [apply Hs1|done|done|apply trim_keys|apply trim_keys]. }
  apply wp_zoom. eapply wp_call; [apply (conserved_allocate pool); [apply Hs2|]|].
  { change (arc_backend s2) with (arc_backend s1). rewrite (free_gain pool s s1 hs ev), Hlen by done.
    unfold arc_short. destruct Hs as [_ [Hb _]]. pose proof (free_count _ Hb). lia. }
  intros bs bk (Hl & Hr & Hcons & _). apply wp_bind, wp_assert; [by apply Nat.eqb_eq|]. wp_steps.
  assert (∀ h, h ∈ arc_missing hs s → h ∉ keys (cached s1)) as Hnew by (intros h; by eapply missing_stays).
  apply wp_arc_enter; [by apply NoDup_filter|done|done|]. wp_steps.
  assert (cached s1 ++ zip (arc_missing hs s) bs ≡ₚ cached (enter_all (zip (arc_missing hs s) bs) s2)) as Hcached.
  { unfold cached. simpl. by rewrite <-!app_assoc, (Permutation_app_comm (t2 s1)). }
  split.
  - split; [apply (enter_tracked s2); [apply Hs2|by apply NoDup_filter|done|done]|]. by rewrite <-Hcached.
  - exists ev, bs. split_and!; try done; [by rewrite Hc, <-app_assoc, Hcached|by simpl; rewrite He|].
    intros _. destruct Hg as [Hg1 Hg2]. split; [etrans; [|exact Hg1]|etrans; [|exact Hg2]]; simpl;
      apply Nat2Z.inj_le, length_od_without.
Qed.

(** ** Histories *)

(** One call on the manager. A store names each hash once; a store that failed is reported for
    blocks that are not ready yet. *)
Inductive arc_step s : ARCOffloadingManager B → Prop :=
  | arc_step_lookup hs : arc_step s (snd (arc_lookup hs s))
  | arc_step_prepare_load hs : arc_step s (snd (arc_prepare_load hs s))
  | arc_step_touch hs : arc_step s (snd (arc_touch hs s))
  | arc_step_complete_load hs : arc_step s (snd (arc_complete_load hs s))
  | arc_step_prepare_store hs : NoDup hs → arc_step s (snd (arc_prepare_store hs s))
  | arc_step_stored hs : arc_step s (snd (arc_complete_store hs true s))
  | arc_step_failed hs :
      (∀ h b, h ∈ hs → arc_get h s = Some b → is_ready b = false) → arc_step s (snd (arc_complete_store hs false s))
  | arc_step_take_events : arc_step s (snd (arc_take_events s)).

Definition arc_reachable : relation (ARCOffloadingManager B) := rtc arc_step.

Lemma arc_keeps_snd {A} pool (m : M (ARCOffloadingManager B) A) s :
  wp m (λ _, arc_inv pool) (λ _, arc_inv pool) s → arc_inv pool (snd (m s)).
Proof. unfold wp. by destruct (m s) as [[a|e] s']. Qed.

Lemma arc_step_inv pool s s' : NoDup pool → arc_inv pool s → arc_step s s' → arc_inv pool s'.
Proof.
  intros Hpool Hs Hstep. destruct Hstep as [| | | |hs Hhs| |hs Hr|]; try done; apply arc_keeps_snd;
    auto using arc_keeps_prepare_load, arc_keeps_touch, arc_keeps_complete_load, arc_keeps_complete_store,
      arc_keeps_take_events.
  - eapply wp_call; [by apply wp_arc_prepare_store|]. by intros o s' [? _].
  - eapply wp_call; [by apply (wp_failed_store pool)|]. by intros [] s' [? _].
Qed.

Lemma arc_reachable_inv (bk : B) ev s :
  backend_ok bk → NoDup (available bk) → arc_reachable (arc_init bk ev) s → arc_inv (available bk) s.
Proof.
  intros Hb Hnd Hr. assert (arc_inv (available bk) (arc_init bk ev)) as Hi by (split; [constructor|by split]).
  induction Hr as [|x y z Hxy Hyz IH]; [done|]. apply IH. by eapply arc_step_inv.
Qed.

(** after any history of calls on the ARC offloading manager in which failed stores are
    reported for blocks that are not ready, the recent list, the frequent list and the two
    ghost lists are disjoint and repeat no hash, and every id of the backend is either in
    exactly one cached block or available. *)
Theorem arc_reachable_disjoint (bk : B) ev s :
  backend_ok bk → NoDup (available bk) → arc_reachable (arc_init bk ev) s →
  NoDup ((t1 s).*1 ++ (t2 s).*1 ++ (b1 s).*1 ++ (b2 s).*1) ∧
  available bk ≡ₚ (block_id <$> (t1 s ++ t2 s).*2) ++ available (arc_backend s).
Proof.
  intros Hb Hnd Hr. destruct (arc_reachable_inv bk ev s Hb Hnd Hr) as [Hk [Hb' Hp]]. split; [done|].
  by rewrite <-list_fmap_compose.
Qed.

(** C36: preparing a store in a reachable state of the ARC manager never raises, and a block
    that is in use or named by the request stays in the cache whether or not the store is
    granted. A granted store evicts exactly as many blocks as it is short of, all idle, caches
    every named hash, the missing ones with blocks that are not ready, and leaves the ghost
    lists no longer than the cache. *)
Theorem arc_prepare_store_safe (bk : B) ev s hs :
  backend_ok bk → NoDup (available bk) → arc_reachable (arc_init bk ev) s → NoDup hs →
  ∃ o s', arc_prepare_store hs s = (Ret o, s') ∧ arc_inv (available bk) s' ∧
    (∀ h b, arc_get h s = Some b → h ∈ hs ∨ ref_cnt b ≠ 0 → arc_get h s' = Some b) ∧
    (∀ out, o = Some out →
       block_hashes_to_store out = arc_missing hs s ∧
       length (block_hashes_evicted out) = arc_short hs s ∧
       (∀ h, h ∈ block_hashes_evicted out → h ∉ hs ∧ ∃ b, arc_get h s = Some b ∧ ref_cnt b = 0) ∧
       (∀ h, h ∈ arc_missing hs s → ∃ b, arc_get h s' = Some b ∧ ref_cnt b = -1) ∧
       (arc_missing hs s ≠ [] → ghosts_bounded s')).
Proof.
  intros Hb Hnd Hr Hhs. pose proof (arc_reachable_inv bk ev s Hb Hnd Hr) as Hs.
  destruct (wp_run _ _ s (wp_arc_prepare_store (available bk) hs s noexc Hnd Hs Hhs))
    as (o & s' & Hrun & Hi & evd & bs & Hev & Hc & Ho).
  assert (∀ h b, (h, b) ∈ cached s ++ zip (arc_missing hs s) bs → h ∈ hs ∨ ref_cnt b ≠ 0 → arc_get h s' = Some b)
    as Hkeep.
  { intros h b Hin Hbusy. apply arc_get_spec; [apply Hi|]. rewrite Hc in Hin.
    apply elem_of_app in Hin as [Hin|Hin]; [|done]. rewrite Forall_forall in Hev. apply Hev in Hin as [H1 H2].
    simpl in *. tauto. }
  exists o, s'. split_and!; [done|done| |].
  - intros h b Hg. apply Hkeep. apply arc_get_spec in Hg; [|apply Hs]. in_list.
  - intros out ->. destruct Ho as (-> & Hl & Hlb & Hr1 & _ & Hgb). simpl.
    split_and!; [done|by rewrite length_fmap| | |done].
    + intros h Hh. apply list_elem_of_fmap in Hh as [[h' b] [-> Hx]]. simpl.
      pose proof (proj1 (Forall_forall _ _) Hev _ Hx) as [Hz Hn]. simpl in Hz, Hn. split; [done|]. exists b. split; [|done].
      apply arc_get_spec; [apply Hs|].
      assert ((h', b) ∈ cached s ++ zip (arc_missing hs s) bs) as Hin by (rewrite Hc; in_list).
      apply elem_of_app in Hin as [Hin|Hin]; [done|]. apply elem_of_zip_r, Hr1 in Hin. lia.
    + intros h Hh. rewrite <-(fst_zip (arc_missing hs s) bs) in Hh by lia.
      apply list_elem_of_fmap in Hh as [[h' b] [-> Hx]]. simpl.
      assert (ref_cnt b = -1) as Hm by by eapply Hr1, elem_of_zip_r.
      exists b. split; [|done]. apply Hkeep; [in_list|right; lia].
Qed.
End arc.

(** ** Examples *)

(** Runs a list of calls, keeping the state. *)
Definition calls (ms : list (ARCOffloadingManager CPUBackend → ARCOffloadingManager CPUBackend)) s :=
  foldl (λ s m, m s) s ms.
Definition store (h : Z) (s : ARCOffloadingManager CPUBackend) : ARCOffloadingManager CPUBackend :=
  snd (arc_complete_store [[h]] true (snd (arc_prepare_store [[h]] s))).
Definition touched (h : Z) (s : ARCOffloadingManager CPUBackend) : ARCOffloadingManager CPUBackend :=
  snd (arc_touch [[h]] s).

Lemma calls_reachable ms s :
  Forall (λ m, ∀ s, arc_reachable s (m s)) ms → arc_reachable s (calls ms s).
Proof.
  intros Hms. revert s. induction Hms as [|m ms Hm Hms IH]; intros s; [apply rtc_refl|].
  simpl. etrans; [apply Hm|apply IH].
Qed.

Lemma store_reachable h s : arc_reachable s (store h s).
Proof.
  eapply rtc_l; [apply (arc_step_prepare_store _ [[h]]), NoDup_singleton|]. apply rtc_once, arc_step_stored.
Qed.

Lemma touched_reachable h s : arc_reachable s (touched h s).
Proof. apply rtc_once, arc_step_touch. Qed.

(** Four blocks: 1 to 4 are stored, 5 takes the place of 1, four hits on the ghost of 1 raise
    the target to four, and a hit on 2 makes it frequent. *)
Definition sample_arc : ARCOffloadingManager CPUBackend :=
  calls [store 1; store 2; store 3; store 4; store 5; touched 1; touched 1; touched 1; touched 1; touched 2]
    (arc_init (cpu_init 4) true).

Lemma sample_arc_reachable : arc_reachable (arc_init (cpu_init 4) true) sample_arc.
Proof. apply calls_reachable. repeat constructor; intros s; first [apply store_reachable|apply touched_reachable]. Qed.

Lemma arc_reachable_disjoint_witness :
  NoDup ((t1 sample_arc).*1 ++ (t2 sample_arc).*1 ++ (b1 sample_arc).*1 ++ (b2 sample_arc).*1) ∧
  [0; 1; 2; 3] ≡ₚ (block_id <$> (t1 sample_arc ++ t2 sample_arc).*2) ++ available (arc_backend sample_arc).
Proof.
  destruct (cpu_init_ok 4 ltac:(lia)) as [H1 H2].
  exact (arc_reachable_disjoint (cpu_init 4) true sample_arc H1 H2 sample_arc_reachable).
Defined.

Lemma arc_prepare_store_safe_witness :
  ∃ o s', arc_prepare_store [[6]] sample_arc = (Ret o, s') ∧
    (∀ out, o = Some out → block_hashes_to_store out = [[6]] ∧ length (block_hashes_evicted out) = 1%nat).
Proof.
  destruct (cpu_init_ok 4 ltac:(lia)) as [H1 H2].
  destruct (arc_prepare_store_safe (cpu_init 4) true sample_arc [[6]] H1 H2 sample_arc_reachable (NoDup_singleton _))
    as (o & s' & Hrun & _ & _ & Hout). exists o, s'. split; [exact Hrun|].
  intros out Ho. destruct (Hout out Ho) as (Hs & Hl & _). split; [exact Hs|exact Hl].
Defined.

(** the ARC manager refuses a store although the cache is full of idle blocks: the recent
    list holds three of them but is shorter than its target, and the one frequent block is in
    use. *)
Theorem arc_refuses_with_idle_blocks :
  let s := snd (arc_prepare_load [[2]] sample_arc) in
  fst (arc_prepare_store [[6]] s) = Ret None ∧ candidates [[6]] (t1 s) = [[3]; [4]; [5]].
Proof. vm_compute. split; reflexivity. Qed.

(** a store that the ARC manager refuses can still have evicted a block, and it reports
    the eviction neither in its result nor as an event. *)
Theorem arc_refusal_evicts_silently :
  let s := snd (arc_take_events sample_arc) in
  let s' := snd (arc_prepare_store [[6]; [7]] s) in
  fst (arc_prepare_store [[6]; [7]] s) = Ret None ∧
  fst (arc_lookup [[2]] s) = Ret 1 ∧ fst (arc_lookup [[2]] s') = Ret 0 ∧ fst (arc_take_events s') = Ret [].
Proof. vm_compute. repeat split; reflexivity. Qed.

(** a failed store reported for a block that is ready drops the block from the ARC cache
    without freeing its id: the cache is empty, no block is free, and every later store is
    refused. The LRU manager keeps the block. *)
Theorem arc_failed_store_leaks :
  let s := snd (arc_complete_store [[1]] false (store 1 (arc_init (cpu_init 1) false))) in
  let l := snd (lru_complete_store [[1]] true (snd (lru_prepare_store [[1]] (lru_init (cpu_init 1) false)))) in
  t1 s ++ t2 s = [] ∧ get_num_free_blocks (arc_backend s) = 0 ∧ arc_prepare_store [[2]] s = (Ret None, s) ∧
  lru_complete_store [[1]] false l = (Ret tt, l).
Proof. vm_compute. repeat split; reflexivity. Qed.
