(* ===== verification/OffloadFilter.v ===== *)
(** The reuse filter around any manager: the tracker is bounded and what it lets through was
    looked up often enough. *)
From S2P Require Import Prelude.
From S2P Require Import Dict.
From S2P Require Import Offload.
From S2P Require Import OffloadInv.
From S2P Require Import OffloadLru.
Local Open Scope Z_scope.

(** How often a hash was looked up. *)
Definition seen (h : hash) (hs : list hash) : Z := Z.of_nat (length (filter (.= h) hs)).

Lemma seen_snoc h hs x : seen h (hs ++ [x]) = seen h hs + if decide (x = h) then 1 else 0.
Proof. unfold seen. rewrite filter_app, length_app, filter_cons, filter_nil. case_decide; simpl; lia. Qed.

Definition tally (h : hash) (d : odict Z) : Z := default 0 (od_get h d).

(** The tracker after the lookups of [hs], in order. *)
Definition tracker (size : Z) (hs : list hash) : odict Z := foldl (λ d h, count_one size h d) [] hs.

Lemma tracker_snoc size hs h : tracker size (hs ++ [h]) = count_one size h (tracker size hs).
Proof. unfold tracker. by rewrite foldl_app. Qed.

(** Dropping the oldest entry. *)
Lemma tally_drop1 h d : NoDup (keys d) → (∀ k v, (k, v) ∈ d → 0 ≤ v) → tally h (drop 1 d) ≤ tally h d.
Proof.
  destruct d as [|[k v] d]; [done|]. csimpl. intros [Hn _]%NoDup_cons Hv. rewrite drop_0. unfold tally. simpl.
  destruct (decide (k = h)) as [->|]; [|done]. rewrite (proj2 (od_get_None h d)) by done. simpl. apply (Hv h). by left.
Qed.

(** Well-formedness: no hash twice, no more entries than the size, positive counts. *)
Definition tracker_ok (size : Z) (d : odict Z) : Prop :=
  NoDup (keys d) ∧ Z.of_nat (length d) ≤ size ∧ ∀ k v, (k, v) ∈ d → 1 ≤ v.

Lemma count_one_ok size h d : 1 ≤ size → tracker_ok size d → tracker_ok size (count_one size h d).
Proof.
  intros Hs (H1 & H2 & H3). unfold count_one. destruct (od_get h d) as [n|] eqn:Hg.
  - pose proof (od_move_perm h d H1) as Hp. split_and!.
    + by apply od_set_nodup, od_move_nodup.
    + rewrite length_od_set, decide_True; [by rewrite Hp|]. rewrite Hp. apply od_mem_keys. unfold od_mem. by rewrite Hg.
    + intros k v [?|Hin]%od_set_in; [|rewrite Hp in Hin; by eapply H3|by apply od_move_nodup]. simplify_eq.
      apply od_get_Some in Hg; [|done]. apply H3 in Hg. lia.
  - set (d' := if size <=? _ then _ else _).
    assert (NoDup (keys d') ∧ Z.of_nat (length d') < size ∧ d' `sublist_of` d) as (N & L & S).
    { unfold d'. destruct (Z.leb_spec size (Z.of_nat (length d))) as [Hf|Hf]; [|by split_and!].
      split_and!; [|rewrite length_drop; lia|apply sublist_drop].
      eapply sublist_NoDup; [exact H1|]. apply fmap_sublist, sublist_drop. }
    split_and!; [by apply od_set_nodup| |].
    + rewrite length_od_set. case_decide; lia.
    + intros k v [?|Hin]%od_set_in; [|eapply H3, elem_of_sublist; [exact Hin|done]|done]. by simplify_eq.
Qed.

Lemma tracker_wf size hs : 1 ≤ size → tracker_ok size (tracker size hs).
Proof.
  intros Hs. induction hs as [|h hs IH] using rev_ind.
  - split_and!; [constructor|simpl; lia|by intros k v ?%elem_of_nil].
  - rewrite tracker_snoc. by apply count_one_ok.
Qed.

(** No count exceeds the number of lookups. *)
Lemma tally_le_seen size hs h : 1 ≤ size → tally h (tracker size hs) ≤ seen h hs.
Proof.
  intros Hs. induction hs as [|x hs IH] using rev_ind; [done|]. rewrite tracker_snoc, seen_snoc.
  destruct (tracker_wf size hs Hs) as (H1 & _ & H3). unfold count_one, tally in *.
  destruct (od_get x (tracker size hs)) as [n|] eqn:Hg; rewrite od_get_set, ?od_get_move; case_decide as Hx; try lia.
  - subst. rewrite Hg in IH. simpl in *. lia.
  - subst. unfold seen. simpl. lia.
  - rewrite Z.add_0_r. etrans; [|exact IH]. destruct (size <=? _); [|done]. apply tally_drop1; [done|].
    intros k v Hk%H3. lia.
Qed.

(** How many hashes were looked up. *)
Definition distinct (hs : list hash) : Z := Z.of_nat (length (remove_dups hs)).

Lemma distinct_snoc hs x : distinct (hs ++ [x]) = distinct hs + if decide (x ∈ hs) then 0 else 1.
Proof.
  assert (remove_dups (hs ++ [x]) ≡ₚ if decide (x ∈ hs) then remove_dups hs else x :: remove_dups hs) as Hp.
  { apply NoDup_Permutation; [apply NoDup_remove_dups| |].
    - case_decide; [apply NoDup_remove_dups|]. constructor; [by rewrite elem_of_remove_dups|apply NoDup_remove_dups].
    - intros y. rewrite elem_of_remove_dups, elem_of_app, list_elem_of_singleton.
      case_decide; rewrite ?elem_of_cons, elem_of_remove_dups; naive_solver. }
  unfold distinct. rewrite Hp. case_decide; simpl; lia.
Qed.

(** Counts are exact while the tracker has room for every hash. *)
Lemma tally_exact size hs :
  1 ≤ size → distinct hs ≤ size →
  (∀ k, k ∈ keys (tracker size hs) ↔ k ∈ hs) ∧ ∀ h, tally h (tracker size hs) = seen h hs.
Proof.
  intros H1 Hs. induction hs as [|x hs IH] using rev_ind; [done|]. rewrite distinct_snoc in Hs.
  destruct IH as [IHk IHt]; [case_decide; lia|]. rewrite tracker_snoc.
  destruct (tracker_wf size hs H1) as (N & _). set (d := tracker size hs) in *.
  assert (Z.of_nat (length d) = distinct hs) as Hlen.
  { unfold distinct. f_equal. rewrite <-(length_fmap fst d).
    apply Permutation_length, NoDup_Permutation; [done|apply NoDup_remove_dups|]. intros k. by rewrite elem_of_remove_dups. }
  assert (count_one size x d = od_set x (1 + tally x d) (od_move_to_end x d)) as ->.
  { unfold count_one, tally. destruct (od_get x d) as [n|] eqn:Hg; simpl; [by rewrite Z.add_comm|].
    unfold od_move_to_end. rewrite Hg. apply od_get_None in Hg. rewrite IHk in Hg. rewrite decide_False in Hs by done.
    destruct (Z.leb_spec size (Z.of_nat (length d))); [lia|done]. }
  split.
  - intros k. rewrite od_set_keys. assert (keys (od_move_to_end x d) ≡ₚ keys d) as Hp by by rewrite od_move_perm.
    destruct (decide (x ∈ keys (od_move_to_end x d))) as [Hx|Hx]; rewrite Hp in Hx; rewrite ?elem_of_app, Hp, IHk, ?elem_of_app, list_elem_of_singleton; [|done].
    apply IHk in Hx. naive_solver.
  - intros h. unfold tally at 1. rewrite od_get_set, od_get_move, seen_snoc. destruct (decide (x = h)) as [->|]; simpl; rewrite <-IHt; [lia|].
    unfold tally. lia.
Qed.

(** ** The manager *)

(** The filter after a sequence of lookups, whatever the wrapped manager answers. *)
Definition after_lookups {S} (lookup : list hash → M S Z) (calls : list (list hash)) (f : FilterReused S) :=
  foldl (λ f hs, snd (filter_lookup lookup hs f)) f calls.

Lemma filter_lookup_state {S} (lookup : list hash → M S Z) hs (f : FilterReused S) :
  let f' := snd (filter_lookup lookup hs f) in
  counts f' = foldl (λ d h, count_one (max_tracker_size f) h d) (counts f) hs ∧
  store_threshold f' = store_threshold f ∧ max_tracker_size f' = max_tracker_size f.
Proof.
  set (P (f' : FilterReused S) := counts f' = foldl (λ d h, count_one (max_tracker_size f) h d) (counts f) hs ∧
    store_threshold f' = store_threshold f ∧ max_tracker_size f' = max_tracker_size f).
  assert (wp (filter_lookup lookup hs) (λ _, P) (λ _, P) f) as Hwp.
  { unfold filter_lookup. apply wp_bind. apply (wp_for_each (λ dn _ f',
      counts f' = foldl (λ d h, count_one (max_tracker_size f) h d) (counts f) dn ∧
      store_threshold f' = store_threshold f ∧ max_tracker_size f' = max_tracker_size f)); [done| |].
    - intros dn x todo f' _ (H1 & H2 & H3). wp_steps. simpl. rewrite foldl_app, H1, H3. done.
    - intros f' HP. apply wp_zoom. unfold wp. destruct (lookup hs (backing f')) as [[a|e] b]; exact HP. }
  unfold wp in Hwp. by destruct (filter_lookup lookup hs f) as [[a|e] f'].
Qed.

Lemma after_lookups_state {S} (lookup : list hash → M S Z) lss (b0 : S) threshold size :
  let f := after_lookups lookup lss (mkFilter b0 threshold size []) in
  counts f = tracker size (concat lss) ∧ store_threshold f = threshold ∧ max_tracker_size f = size.
Proof.
  induction lss as [|hs lss IH] using rev_ind; [done|]. unfold after_lookups in *. rewrite foldl_app. simpl in *.
  destruct IH as (H1 & H2 & H3). destruct (filter_lookup_state lookup hs (foldl (λ f hs, snd (filter_lookup lookup hs f))
    (mkFilter b0 threshold size []) lss)) as (H4 & H5 & H6).
  rewrite H4, H5, H6, H1, H2, H3, concat_app. simpl. rewrite app_nil_r. unfold tracker. by rewrite foldl_app.
Qed.

(** however many lookups a reuse filter has seen, its tracker never holds more entries
    than its size; the hashes it passes on to the wrapped manager's store are, in order, some
    of the requested ones, each looked up at least as often as the threshold asks; and as long
    as the distinct hashes looked up fit the tracker, they are exactly those. *)
Theorem filter_passes_reused {S} (lookup : list hash → M S Z) prepare_store (b0 : S) threshold size f0 lss hs :
  filter_init b0 threshold size = Ret f0 →
  let f := after_lookups lookup lss f0 in
  Z.of_nat (length (counts f)) ≤ size ∧
  ∃ passed,
    filter_prepare_store prepare_store hs f = on_backing (prepare_store passed) f ∧
    passed `sublist_of` hs ∧
    (∀ h, h ∈ passed → threshold ≤ seen h (concat lss)) ∧
    (distinct (concat lss) ≤ size → passed = filter (λ h, threshold ≤ seen h (concat lss)) hs).
Proof.
  unfold filter_init. destruct (Z.ltb_spec threshold 2); [done|]. destruct (Z.ltb_spec size 1) as [|Hs]; [done|].
  intros [= <-]. simpl. destruct (after_lookups_state lookup lss b0 threshold size) as (Hc & Ht & _).
  set (f := after_lookups _ _ _) in *. split; [rewrite Hc; by apply tracker_wf|].
  exists (filter (λ h, store_threshold f ≤ default 0 (od_get h (counts f))) hs). rewrite Hc, Ht. split_and!.
  - unfold filter_prepare_store, mbind, M_bind. simpl. unfold id. by rewrite Hc, Ht.
  - apply sublist_filter.
  - intros h [Hh _]%list_elem_of_filter. etrans; [exact Hh|]. by apply tally_le_seen.
  - intros Hd. apply list_filter_iff. intros h. by rewrite <-(proj2 (tally_exact size (concat lss) ltac:(lia) Hd) h).
Qed.

(** Two lookups make the first block eligible; the second one was seen once. *)
Lemma filter_passes_reused_witness :
  ∃ f0, filter_init (lru_init (cpu_init 2) false) 2 4 = Ret f0 ∧
    ∃ passed, filter_prepare_store lru_prepare_store [[1]; [2]] (after_lookups lru_lookup [[[1]; [2]]; [[1]]] f0) =
      on_backing (lru_prepare_store passed) (after_lookups lru_lookup [[[1]; [2]]; [[1]]] f0) ∧ passed = [[1]].
Proof.
  eexists. split; [reflexivity|].
  destruct (filter_passes_reused lru_lookup lru_prepare_store (lru_init (cpu_init 2) false) 2 4 _
    [[[1]; [2]]; [[1]]] [[1]; [2]] eq_refl) as (_ & passed & H1 & _ & _ & H2).
  exists passed. split; [exact H1|]. rewrite H2 by (vm_compute; done). vm_compute. reflexivity.
Defined.
