(* ===== verification/Scheduler.v ===== *)
(** src/vllm/v1/core/sched/scheduler.py for text requests without a KV connector, streaming
    input or final-hidden bootstrap: the request table, the waiting, skipped and running queues,
    one scheduling step with its preemptions, the update from the model's output, and the calls
    that add, finish and reset requests. The KV cache manager and the queues are interfaces. *)
From S2P Require Import Prelude.
From S2P Require Import Dict.
From S2P Require Import Request.
From S2P Require Import StopCheck.
From S2P Require Import RequestQueue.
From S2P Require Import BlockHash.
From S2P Require Import BlockPool.
From S2P Require Import CacheHit.
From S2P Require Import Coordinator.
From S2P Require Import KVCacheManager.
Local Open Scope Z_scope.

(** ** Request objects *)

Definition set_computed (n : Z) (r : Request) : Request :=
  mkRequest (request_id r) (obj_id r) (priority r) (arrival_time r) (status r) (stop_reason r)
    (sampling_params r) (max_tokens r) (num_prompt_tokens r) (output_token_ids r)
    (all_token_ids r) (spec_token_ids r) n (num_output_placeholders r)
    (num_preemptions r) (num_cached_tokens r) (cache_salt r) (lora_request r) (mm_features r)
    (prompt_embeds r) (embeds_hash_cache r) (block_hashes r) (skip_reading_prefix_cache r)
    (resumable r).
Definition set_spec (ts : list Z) (r : Request) : Request :=
  mkRequest (request_id r) (obj_id r) (priority r) (arrival_time r) (status r) (stop_reason r)
    (sampling_params r) (max_tokens r) (num_prompt_tokens r) (output_token_ids r)
    (all_token_ids r) ts (num_computed_tokens r) (num_output_placeholders r)
    (num_preemptions r) (num_cached_tokens r) (cache_salt r) (lora_request r) (mm_features r)
    (prompt_embeds r) (embeds_hash_cache r) (block_hashes r) (skip_reading_prefix_cache r)
    (resumable r).
Definition set_placeholders (n : Z) (r : Request) : Request :=
  mkRequest (request_id r) (obj_id r) (priority r) (arrival_time r) (status r) (stop_reason r)
    (sampling_params r) (max_tokens r) (num_prompt_tokens r) (output_token_ids r)
    (all_token_ids r) (spec_token_ids r) (num_computed_tokens r) n
    (num_preemptions r) (num_cached_tokens r) (cache_salt r) (lora_request r) (mm_features r)
    (prompt_embeds r) (embeds_hash_cache r) (block_hashes r) (skip_reading_prefix_cache r)
    (resumable r).
Definition set_preemptions (n : Z) (r : Request) : Request :=
  mkRequest (request_id r) (obj_id r) (priority r) (arrival_time r) (status r) (stop_reason r)
    (sampling_params r) (max_tokens r) (num_prompt_tokens r) (output_token_ids r)
    (all_token_ids r) (spec_token_ids r) (num_computed_tokens r) (num_output_placeholders r)
    n (num_cached_tokens r) (cache_salt r) (lora_request r) (mm_features r)
    (prompt_embeds r) (embeds_hash_cache r) (block_hashes r) (skip_reading_prefix_cache r)
    (resumable r).
Definition set_cached (n : Z) (r : Request) : Request :=
  mkRequest (request_id r) (obj_id r) (priority r) (arrival_time r) (status r) (stop_reason r)
    (sampling_params r) (max_tokens r) (num_prompt_tokens r) (output_token_ids r)
    (all_token_ids r) (spec_token_ids r) (num_computed_tokens r) (num_output_placeholders r)
    (num_preemptions r) n (cache_salt r) (lora_request r) (mm_features r)
    (prompt_embeds r) (embeds_hash_cache r) (block_hashes r) (skip_reading_prefix_cache r)
    (resumable r).

(** A request object with the fields only the scheduler reads. [grammar_ready] says that
    [structured_output_request.grammar] has been compiled. *)
Record Job := mkJob {
  req : Request;
  is_prefill_chunk : bool;
  use_structured_output : bool;
  grammar_ready : bool;
  client_index : Z;
  discard_latest_async_tokens : bool
}.
Definition on_req (f : Request → Request) (j : Job) : Job :=
  mkJob (f (req j)) (is_prefill_chunk j) (use_structured_output j) (grammar_ready j) (client_index j)
    (discard_latest_async_tokens j).
Definition set_prefill (b : bool) (j : Job) : Job :=
  mkJob (req j) b (use_structured_output j) (grammar_ready j) (client_index j) (discard_latest_async_tokens j).
Definition set_discard (b : bool) (j : Job) : Job :=
  mkJob (req j) (is_prefill_chunk j) (use_structured_output j) (grammar_ready j) (client_index j) b.

(** [PauseState]. *)
Inductive PauseState := UNPAUSED | PAUSED_NEW | PAUSED_ALL.
#[global] Instance pause_eq_dec : EqDecision PauseState.
Proof. solve_decision. Defined.

(** ** The KV cache as the scheduler uses it *)

(** A call works on the cache and on the request it is given. *)
Class KVCache (K : Type) := {
  kvc_computed : M (K * Request) (option (KVCacheBlocks * Z));
  kvc_allocate (num_new_tokens num_new_computed_tokens : Z) (new_computed_blocks : option KVCacheBlocks)
    (num_lookahead_tokens : Z) : M (K * Request) (option KVCacheBlocks);
  kvc_free : M (K * Request) unit;
  kvc_cache_blocks : Z → M (K * Request) unit;
  kvc_blocks : string → K → KVCacheBlocks;
  kvc_block_ids (allow_none : bool) : KVCacheBlocks → K → option (list (list Z));
  kvc_common_prefix : string → M K (list Z);
  kvc_reset : M K bool
}.

(** The KV cache manager of a coordinator. *)
Definition manager_cache (max_model_len : Z) (enable_caching : bool)
    (search : list bytes → Z → M P (option (columns * Z))) : KVCache CO := {|
  kvc_computed := get_computed_blocks enable_caching search;
  kvc_allocate new hit blocks lookahead :=
    allocate_slots max_model_len enable_caching new hit blocks lookahead 0 false;
  kvc_free := kv_free;
  kvc_cache_blocks := kv_cache_blocks enable_caching;
  kvc_blocks id s := create_kv_cache_blocks (get_blocks id s);
  kvc_block_ids allow_none b s :=
    kb_get_block_ids (length (single_type_managers s)) (pheap (co_block_pool s)) allow_none b;
  kvc_common_prefix := co_get_num_common_prefix_blocks;
  kvc_reset := kv_reset_prefix_cache
|}.

(** ** The scheduler *)

(** What the scheduler reads from its configuration. *)
Record SchedulerConfig := mkConfig {
  policy : SchedulingPolicy;
  max_num_running_reqs : Z;
  max_num_scheduled_tokens : Z;
  max_model_len : Z;
  num_lookahead_tokens : Z;
  long_prefill_token_threshold : Z;
  enable_chunked_prefill : bool;
  sends_token_ids : bool;
  use_v2_model_runner : bool;
  num_kv_cache_groups : nat
}.

Section scheduler.
Context {Q : Type} `{!RequestQueue Q} {K : Type} `{!KVCache K}.
(** The empty queue of the policy. *)
Context (empty_queue : Q) (config : SchedulerConfig).

(** Queues hold the request objects; what changes in an object is kept in [requests], what
    orders a queue never changes. [running] is a list of request ids. *)
Record Scheduler := mkScheduler {
  requests : gmap string Job;
  waiting : Q;
  skipped_waiting : Q;
  running : list string;
  finished_req_ids : gset string;
  prev_step_scheduled_req_ids : gset string;
  pause_state : PauseState;
  kv_cache_manager : K
}.

Definition scheduler_init (kv : K) : Scheduler :=
  mkScheduler ∅ empty_queue empty_queue [] ∅ ∅ UNPAUSED kv.

Definition set_requests f (s : Scheduler) : Scheduler :=
  mkScheduler (f (requests s)) (waiting s) (skipped_waiting s) (running s) (finished_req_ids s)
    (prev_step_scheduled_req_ids s) (pause_state s) (kv_cache_manager s).
Definition set_running f (s : Scheduler) : Scheduler :=
  mkScheduler (requests s) (waiting s) (skipped_waiting s) (f (running s)) (finished_req_ids s)
    (prev_step_scheduled_req_ids s) (pause_state s) (kv_cache_manager s).
Definition set_finished f (s : Scheduler) : Scheduler :=
  mkScheduler (requests s) (waiting s) (skipped_waiting s) (running s) (f (finished_req_ids s))
    (prev_step_scheduled_req_ids s) (pause_state s) (kv_cache_manager s).
Definition set_prev_step ids (s : Scheduler) : Scheduler :=
  mkScheduler (requests s) (waiting s) (skipped_waiting s) (running s) (finished_req_ids s)
    ids (pause_state s) (kv_cache_manager s).
Definition set_pause_state p (s : Scheduler) : Scheduler :=
  mkScheduler (requests s) (waiting s) (skipped_waiting s) (running s) (finished_req_ids s)
    (prev_step_scheduled_req_ids s) p (kv_cache_manager s).
Definition on_waiting {A} : M Q A → M Scheduler A :=
  zoom waiting (λ q s, mkScheduler (requests s) q (skipped_waiting s) (running s) (finished_req_ids s)
    (prev_step_scheduled_req_ids s) (pause_state s) (kv_cache_manager s)).
Definition on_skipped {A} : M Q A → M Scheduler A :=
  zoom skipped_waiting (λ q s, mkScheduler (requests s) (waiting s) q (running s) (finished_req_ids s)
    (prev_step_scheduled_req_ids s) (pause_state s) (kv_cache_manager s)).
Definition on_kv {A} : M K A → M Scheduler A :=
  zoom kv_cache_manager (λ k s, mkScheduler (requests s) (waiting s) (skipped_waiting s) (running s)
    (finished_req_ids s) (prev_step_scheduled_req_ids s) (pause_state s) k).

(** The object of a request id, and a write to it. *)
Definition get_job (id : string) : M Scheduler Job :=
  o ← gets (λ s, requests s !! id);
  from_option_raise KeyError o.
Definition upd_job (id : string) (f : Job → Job) : M Scheduler unit :=
  modify (set_requests (alter f id)).

(** A call on the KV cache with a request as its argument. *)
Definition kv_apply {A} (id : string) (j : Job) (m : M (K * Request) A) : M Scheduler A := λ s,
  match m (kv_cache_manager s, req j) with
  | (o, (k, r)) =>
      (o, mkScheduler (alter (on_req (λ _, r)) id (requests s)) (waiting s) (skipped_waiting s)
            (running s) (finished_req_ids s) (prev_step_scheduled_req_ids s) (pause_state s) k)
  end.
Definition kv_call {A} (id : string) (m : M (K * Request) A) : M Scheduler A :=
  j ← get_job id; kv_apply id j m.

(** ** Preemption *)

(** [_preempt_request]. *)
Definition preempt_request (id : string) : M Scheduler unit :=
  j ← get_job id;
  py_assert (bool_decide (status (req j) = RUNNING)) ;;
  kv_call id kvc_free ;;
  upd_job id (on_req (λ r, set_preemptions (num_preemptions r + 1)
    (set_spec [] (set_computed 0 (set_status PREEMPTED r))))) ;;
  j' ← get_job id;
  on_waiting (prepend_request (req j')).

(** [max(self.running, key=lambda r: (r.priority, r.arrival_time))]: the first greatest. *)
Definition key_lt (a b : Request) : bool :=
  (priority a <? priority b) || ((priority a =? priority b) && (arrival_time a <? arrival_time b)).
Definition max_by_key (rs : list Request) : option Request :=
  match rs with
  | [] => None
  | r :: rs' => Some (foldl (λ best x, if key_lt best x then x else best) r rs')
  end.

(** ** One step: what it has decided so far *)

Record Step := mkStep {
  scheduled_running_reqs : list string;
  preempted_reqs : list string;
  req_to_new_blocks : dict string KVCacheBlocks;
  num_scheduled_tokens : dict string Z;
  scheduled_spec_decode_tokens : dict string (list Z);
  token_budget : Z;
  req_index : Z
}.

Definition advance (st : Step) : Step :=
  mkStep (scheduled_running_reqs st) (preempted_reqs st) (req_to_new_blocks st) (num_scheduled_tokens st)
    (scheduled_spec_decode_tokens st) (token_budget st) (req_index st + 1).

(** The step after the preemption of [id], which may already be scheduled. *)
Definition unschedule (id : string) (st : Step) : outcome Step :=
  n ← match od_get id (num_scheduled_tokens st) with Some n => Ret n | None => Raise KeyError end;
  _ ← match od_get id (req_to_new_blocks st) with Some _ => Ret tt | None => Raise KeyError end;
  Ret (mkStep (list_remove_first id (scheduled_running_reqs st)) (preempted_reqs st)
    (od_del id (req_to_new_blocks st)) (od_del id (num_scheduled_tokens st))
    (od_del id (scheduled_spec_decode_tokens st)) (token_budget st + n) (req_index st - 1)).
Definition note_preempted (id : string) (st : Step) : Step :=
  mkStep (scheduled_running_reqs st) (preempted_reqs st ++ [id]) (req_to_new_blocks st)
    (num_scheduled_tokens st) (scheduled_spec_decode_tokens st) (token_budget st) (req_index st).

(** ** Running requests *)

(** The objects of [self.running]. *)
Definition running_objects (s : Scheduler) : list Request :=
  omap (λ id, req <$> requests s !! id) (running s).

(** The request to preempt leaves [self.running]; under priorities it may be one that this
    step has scheduled. *)
Definition choose_victim (st : Step) : M Scheduler (string * Step) :=
  match policy config with
  | PRIORITY =>
      rs ← gets running_objects;
      r ← from_option_raise ValueError (max_by_key rs);
      let id := request_id r in
      modify (set_running (list_remove_first id)) ;;
      if bool_decide (id ∈ scheduled_running_reqs st) then
        st' ← of_outcome (unschedule id st); mret (id, st')
      else mret (id, st)
  | FCFS =>
      ids ← gets running;
      id ← from_option_raise IndexError (last ids);
      modify (set_running (λ l, take (length l - 1) l)) ;;
      mret (id, st)
  end.

(** The allocation loop: preempts until the request fits or has been preempted itself. The
    outer [None] is for too little fuel. *)
Fixpoint allocate_loop (fuel : nat) (id : string) (num_new_tokens : Z) (st : Step) :
    M Scheduler (option (option KVCacheBlocks * Step)) :=
  match fuel with
  | O => mret None
  | S fuel' =>
      new_blocks ← kv_call id (kvc_allocate num_new_tokens 0 None (num_lookahead_tokens config));
      match new_blocks with
      | Some _ => mret (Some (new_blocks, st))
      | None =>
          '(victim, st') ← choose_victim st;
          preempt_request victim ;;
          let st'' := note_preempted victim st' in
          if bool_decide (victim = id) then mret (Some (None, st''))
          else allocate_loop fuel' id num_new_tokens st''
      end
  end.

(** How many tokens a running request is given. *)
Definition running_new_tokens (r : Request) (token_budget : Z) : Z :=
  let n := num_tokens_with_spec r + num_output_placeholders r - num_computed_tokens r in
  let n := if (0 <? long_prefill_token_threshold config) && (long_prefill_token_threshold config <? n)
           then long_prefill_token_threshold config else n in
  let n := Z.min n token_budget in
  Z.min n (max_model_len config - 1 - num_computed_tokens r).

(** Async scheduling: the previous step is known to reach [max_tokens]. *)
Definition surely_finished (r : Request) : bool :=
  (0 <? num_output_placeholders r)
    && (num_prompt_tokens r + max_tokens r <=? num_computed_tokens r + 2 - num_output_placeholders r).

(** The draft tokens of a scheduled request. *)
Definition scheduled_spec (r : Request) (num_new_tokens : Z) : option (list Z) :=
  let n := num_new_tokens + num_computed_tokens r - num_tokens r - num_output_placeholders r in
  if 0 <? n then Some (take (Z.to_nat n) (spec_token_ids r)) else None.

(** The request is scheduled. *)
Definition schedule_running (id : string) (r : Request) (num_new_tokens : Z) (new_blocks : KVCacheBlocks)
    (st : Step) : Step :=
  mkStep (scheduled_running_reqs st ++ [id]) (preempted_reqs st) (od_set id new_blocks (req_to_new_blocks st))
    (od_set id num_new_tokens (num_scheduled_tokens st))
    (match spec_token_ids r, scheduled_spec r num_new_tokens with
     | _ :: _, Some ts => od_set id ts (scheduled_spec_decode_tokens st)
     | _, _ => scheduled_spec_decode_tokens st
     end)
    (token_budget st - num_new_tokens) (req_index st + 1).

(** The loop over [self.running]; a turn moves the index on, schedules a request or preempts. *)
Fixpoint running_loop (fuel : nat) (st : Step) : M Scheduler (option Step) :=
  match fuel with
  | O => mret None
  | S fuel' =>
      ids ← gets running;
      if (req_index st <? Z.of_nat (length ids)) && (0 <? token_budget st) then
        id ← from_option_raise IndexError (py_get ids (req_index st));
        j ← get_job id;
        let num_new_tokens := running_new_tokens (req j) (token_budget st) in
        if surely_finished (req j) || (num_new_tokens =? 0) then running_loop fuel' (advance st)
        else
          o ← allocate_loop (S (length ids)) id num_new_tokens st;
          match o with
          | None => mret None
          | Some (None, st') => mret (Some st')
          | Some (Some new_blocks, st') =>
              j' ← get_job id;
              upd_job id (on_req (set_spec [])) ;;
              running_loop fuel' (schedule_running id (req j') num_new_tokens new_blocks st')
          end
      else mret (Some st)
  end.

(** ** Waiting requests *)

(** [_is_blocked_waiting_status]. *)
Definition is_blocked_waiting_status (s : RequestStatus) : bool :=
  match s with
  | WAITING_FOR_FSM | WAITING_FOR_REMOTE_KVS | WAITING_FOR_STREAMING_REQ => true
  | _ => false
  end.

(** [_enqueue_waiting_request]. *)
Definition enqueue_waiting_request (r : Request) : M Scheduler unit :=
  if is_blocked_waiting_status (status r) then on_skipped (add_request r) else on_waiting (add_request r).

(** [_select_waiting_queue_for_scheduling]: the waiting queue, the skipped one or neither. *)
Inductive chosen_queue := ChooseWaiting | ChooseSkipped.
Definition on_chosen {A} (c : chosen_queue) (m : M Q A) : M Scheduler A :=
  match c with ChooseWaiting => on_waiting m | ChooseSkipped => on_skipped m end.
Definition select_waiting_queue : M Scheduler (option chosen_queue) :=
  s ← gets id;
  let w := queue_bool (waiting s) in
  let k := queue_bool (skipped_waiting s) in
  match policy config with
  | FCFS => mret (if k then Some ChooseSkipped else if w then Some ChooseWaiting else None)
  | PRIORITY =>
      if w && k then
        a ← on_waiting peek_request;
        b ← on_skipped peek_request;
        mret (Some (if request_lt a b then ChooseWaiting else ChooseSkipped))
      else mret (if w then Some ChooseWaiting else if k then Some ChooseSkipped else None)
  end.

(** [_try_promote_blocked_waiting_request] without a connector. *)
Definition try_promote (id : string) : M Scheduler bool :=
  j ← get_job id;
  match status (req j) with
  | WAITING_FOR_REMOTE_KVS | WAITING_FOR_STREAMING_REQ => mret false
  | WAITING_FOR_FSM =>
      if use_structured_output j && grammar_ready j
      then upd_job id (on_req (set_status WAITING)) ;; mret true
      else mret false
  | _ => raise AssertionError
  end.

(** What the waiting loop adds to a step. *)
Record WaitStep := mkWaitStep {
  step : Step;
  scheduled_new_reqs : list string;
  scheduled_resumed_reqs : list string;
  step_skipped_waiting : Q
}.

(** How many tokens a waiting request is given; [None] stops the loop. *)
Definition waiting_new_tokens (r : Request) (num_computed_tokens token_budget : Z) : option Z :=
  let n := num_tokens r - num_computed_tokens in
  let threshold := long_prefill_token_threshold config in
  let n := if (0 <? threshold) && (threshold <? n) then threshold else n in
  if negb (enable_chunked_prefill config) && (token_budget <? n) then None
  else Some (Z.min n token_budget).

(** The cached blocks of a waiting request, how many of its computed tokens are new, and how
    many are computed in all. The outer [None] is the search's. *)
Definition computed_of_waiting (id : string) : M Scheduler (option (KVCacheBlocks * Z * Z)) :=
  j ← get_job id;
  if num_computed_tokens (req j) =? 0 then
    o ← kv_call id kvc_computed;
    match o with
    | None => mret None
    | Some (new_computed_blocks, num_new_local_computed_tokens) =>
        py_assert (num_new_local_computed_tokens <=? num_tokens (req j)) ;;
        mret (Some (new_computed_blocks, num_new_local_computed_tokens, num_new_local_computed_tokens))
    end
  else mret (Some (EmptyBlocks, 0, num_computed_tokens (req j))).

(** The request moves from the chosen queue to [self.running]. *)
Definition admit_waiting (c : chosen_queue) (id : string) (num_new_tokens num_computed_tokens : Z)
    (w : WaitStep) : M Scheduler WaitStep :=
  on_chosen c pop_request ;;
  modify (set_running (.++ [id])) ;;
  j ← get_job id;
  '(new_reqs, resumed_reqs) ←
    match status (req j) with
    | WAITING => mret (scheduled_new_reqs w ++ [id], scheduled_resumed_reqs w)
    | PREEMPTED => mret (scheduled_new_reqs w, scheduled_resumed_reqs w ++ [id])
    | _ => raise RuntimeError
    end;
  blocks ← gets (λ s, kvc_blocks id (kv_cache_manager s));
  upd_job id (on_req (λ r,
    let r' := set_computed num_computed_tokens (set_status RUNNING r) in
    if Request.num_cached_tokens r <? 0
    then set_cached (Z.min num_computed_tokens (num_prompt_tokens r)) r' else r')) ;;
  let st := step w in
  mret (mkWaitStep
    (mkStep (scheduled_running_reqs st) (preempted_reqs st) (od_set id blocks (req_to_new_blocks st))
      (od_set id num_new_tokens (num_scheduled_tokens st)) (scheduled_spec_decode_tokens st)
      (token_budget st - num_new_tokens) (req_index st))
    new_reqs resumed_reqs (step_skipped_waiting w)).

(** The loop over the waiting queues. With no connector no token is computed elsewhere
    ([num_external_computed_tokens = 0], [load_kv_async = False]) and with no bootstrap pending
    none of its detours is taken: a turn sets a blocked request aside, stops, or looks up,
    allocates and starts the request. *)
Fixpoint waiting_loop (fuel : nat) (w : WaitStep) : M Scheduler (option WaitStep) :=
  match fuel with
  | O => mret None
  | S fuel' =>
      s ← gets id;
      if negb ((queue_bool (waiting s) || queue_bool (skipped_waiting s)) && (0 <? token_budget (step w)))
      then mret (Some w)
      else if Z.of_nat (length (running s)) =? max_num_running_reqs config then mret (Some w)
      else
        sel ← select_waiting_queue;
        c ← from_option_raise AssertionError sel;
        entry ← on_chosen c peek_request;
        let id := request_id entry in
        j ← get_job id;
        blocked ← (if is_blocked_waiting_status (status (req j))
                   then ok ← try_promote id; mret (negb ok) else mret false);
        if (blocked : bool) then
          r ← on_chosen c pop_request;
          q ← of_outcome (fst (prepend_request r (step_skipped_waiting w)));
          waiting_loop fuel' (mkWaitStep (step w) (scheduled_new_reqs w) (scheduled_resumed_reqs w)
            (snd (prepend_request r (step_skipped_waiting w))))
        else
          computed ← computed_of_waiting id;
          match computed with
          | None => mret None
          | Some (new_computed_blocks, num_new_local_computed_tokens, num_computed_tokens) =>
              j' ← get_job id;
              match waiting_new_tokens (req j') num_computed_tokens (token_budget (step w)) with
              | None => mret (Some w)
              | Some num_new_tokens =>
                  py_assert (0 <? num_new_tokens) ;;
                  let lookahead :=
                    if Request.num_computed_tokens (req j') =? 0 then 0 else num_lookahead_tokens config in
                  new_blocks ← kv_call id (kvc_allocate num_new_tokens num_new_local_computed_tokens
                    (Some new_computed_blocks) lookahead);
                  match new_blocks with
                  | None => mret (Some w)
                  | Some _ =>
                      w' ← admit_waiting c id num_new_tokens num_computed_tokens w;
                      waiting_loop fuel' w'
                  end
              end
          end
  end.

(** ** The output of a step *)

(** [NewRequestData], [CachedRequestData] and [SchedulerOutput] as far as the scheduler fills
    them from its own state. [sends_token_ids] of the configuration is
    [use_pp and not async_scheduling]. *)
Record NewRequestData := mkNewRequestData {
  new_req_id : string;
  new_block_table : option (list (list Z));
  new_computed : Z;
  new_prefill_token_ids : option (list Z)
}.
Record CachedRequestData := mkCachedRequestData {
  cached_req_ids : list string;
  resumed_req_ids : list string;
  cached_token_ids : list (list Z);
  cached_all_token_ids : dict string (list Z);
  cached_block_ids : list (option (list (list Z)));
  cached_computed : list Z;
  cached_output_tokens : list Z
}.
Record SchedulerOutput := mkSchedulerOutput {
  out_new_reqs : list NewRequestData;
  out_cached_reqs : CachedRequestData;
  out_num_scheduled_tokens : dict string Z;
  out_total_num_scheduled_tokens : Z;
  out_spec_decode_tokens : dict string (list Z);
  out_common_prefix_blocks : list Z;
  out_preempted_req_ids : list string;
  out_finished_req_ids : gset string;
  out_has_structured_output_requests : bool;
  out_pending_structured_output_tokens : bool
}.

(** [NewRequestData.from_request]. *)
Definition new_request_data (blocks : dict string KVCacheBlocks) (id : string) : M Scheduler NewRequestData :=
  j ← get_job id;
  b ← from_option_raise KeyError (od_get id blocks);
  ids ← gets (λ s, kvc_block_ids false b (kv_cache_manager s));
  mret (mkNewRequestData id ids (num_computed_tokens (req j))
    (if use_v2_model_runner config then Some (all_token_ids (req j)) else None)).

(** One turn of [_make_cached_request_data]; [resumed] is [idx >= num_running_reqs]. *)
Definition cached_one (st : Step) (d : CachedRequestData) (x : string * bool) : M Scheduler CachedRequestData :=
  let '(id, resumed) := x in
  j ← get_job id;
  toks ← (if sends_token_ids config then
            n ← from_option_raise KeyError (od_get id (num_scheduled_tokens st));
            let num_tokens := n - Z.of_nat (length (default [] (od_get id (scheduled_spec_decode_tokens st)))) in
            mret [py_slice (all_token_ids (req j)) (num_computed_tokens (req j)) (num_computed_tokens (req j) + num_tokens)]
          else mret []);
  prev ← gets (λ s, bool_decide (id ∈ prev_step_scheduled_req_ids s));
  (if resumed then py_assert (negb prev) else mret tt) ;;
  b ← from_option_raise KeyError (od_get id (req_to_new_blocks st));
  ids ← gets (λ s, kvc_block_ids true b (kv_cache_manager s));
  mret (mkCachedRequestData (cached_req_ids d ++ [id])
    (if resumed then resumed_req_ids d ++ [id] else resumed_req_ids d)
    (cached_token_ids d ++ toks)
    (if (prev : bool) then cached_all_token_ids d else od_set id (all_token_ids (req j)) (cached_all_token_ids d))
    (cached_block_ids d ++ [ids]) (cached_computed d ++ [num_computed_tokens (req j)])
    (cached_output_tokens d ++ [num_output_tokens (req j) + num_output_placeholders (req j)])).
Definition make_cached_request_data (running_reqs resumed_reqs : list string) (st : Step) :
    M Scheduler CachedRequestData :=
  for_fold (((λ id, (id, false)) <$> running_reqs) ++ ((λ id, (id, true)) <$> resumed_reqs))
    (mkCachedRequestData [] [] [] [] [] [] []) (cached_one st).

(** [_update_after_schedule]; the result says whether a structured-output request was
    scheduled beyond its prefill. *)
Definition advance_computed (acc : bool) (x : string * Z) : M Scheduler bool :=
  let '(id, n) := x in
  j ← get_job id;
  let r := set_computed (num_computed_tokens (req j) + n) (req j) in
  let chunk := num_computed_tokens r <? num_tokens r + num_output_placeholders r in
  upd_job id (λ j, set_prefill chunk (on_req (λ _, r) j)) ;;
  mret (acc || (use_structured_output j && negb chunk)).
Definition update_after_schedule (scheduled : dict string Z) : M Scheduler bool :=
  b ← for_fold scheduled false advance_computed;
  modify (set_finished (λ _, ∅)) ;;
  mret b.

(** ** One scheduling step *)

Definition sum_tokens (d : dict string Z) : Z := foldr Z.add 0 d.*2.

Definition first_step (s : Scheduler) : Step :=
  mkStep [] [] [] [] []
    (match pause_state s with PAUSED_ALL => 0 | _ => max_num_scheduled_tokens config end) 0.

(** The second half of the step: requests from the waiting queues. *)
Definition schedule_waiting (st : Step) : M Scheduler (option WaitStep) :=
  s ← gets id;
  if bool_decide (preempted_reqs st = []) && bool_decide (pause_state s = UNPAUSED) then
    o ← waiting_loop (S (Z.to_nat (queue_len (waiting s) + queue_len (skipped_waiting s))))
          (mkWaitStep st [] [] empty_queue);
    match o with
    | None => mret None
    | Some w =>
        (if queue_bool (step_skipped_waiting w) then
           xs ← of_outcome (queue_iter (step_skipped_waiting w));
           on_skipped (prepend_requests xs)
         else mret tt) ;;
        mret (Some w)
    end
  else mret (Some (mkWaitStep st [] [] empty_queue)).

(** The output of the step, and the advance of the scheduled requests by
    [self._update_after_schedule], which a subclass overrides. No group asks for new blocks to
    be zeroed and no final hidden state is captured. *)
Definition make_output_with (after_schedule : dict string Z → dict string (list Z) → M Scheduler (bool * bool))
    (w : WaitStep) (prefix : list Z) : M Scheduler SchedulerOutput :=
  let st := step w in
  let '(new_reqs, resumed) :=
    if use_v2_model_runner config
    then (scheduled_new_reqs w ++ scheduled_resumed_reqs w, [])
    else (scheduled_new_reqs w, scheduled_resumed_reqs w) in
  new_data ← for_fold new_reqs [] (λ acc id,
    d ← new_request_data (req_to_new_blocks st) id; mret (acc ++ [d]));
  cached ← make_cached_request_data (scheduled_running_reqs st) resumed st;
  modify (set_prev_step (list_to_set (num_scheduled_tokens st).*1)) ;;
  finished ← gets finished_req_ids;
  '(structured, pending) ← after_schedule (num_scheduled_tokens st) (scheduled_spec_decode_tokens st);
  mret (mkSchedulerOutput new_data cached (num_scheduled_tokens st) (sum_tokens (num_scheduled_tokens st))
    (scheduled_spec_decode_tokens st) prefix (preempted_reqs st) finished structured pending).
Definition sync_after_schedule (scheduled : dict string Z) (_ : dict string (list Z)) : M Scheduler (bool * bool) :=
  structured ← update_after_schedule scheduled;
  mret (structured, false).
Definition make_output : WaitStep → list Z → M Scheduler SchedulerOutput := make_output_with sync_after_schedule.

(** [schedule]; [None] is for a search that did not answer or too little fuel. *)
Definition schedule_with (output : WaitStep → list Z → M Scheduler SchedulerOutput) : M Scheduler (option SchedulerOutput) :=
  s ← gets id;
  o ← running_loop (S (length (running s))) (first_step s);
  match o with
  | None => mret None
  | Some st =>
      o' ← schedule_waiting st;
      match o' with
      | None => mret None
      | Some w =>
          let st := step w in
          py_assert (sum_tokens (num_scheduled_tokens st) <=? max_num_scheduled_tokens config) ;;
          py_assert (0 <=? token_budget st) ;;
          ids ← gets running;
          py_assert (Z.of_nat (length ids) <=? max_num_running_reqs config) ;;
          py_assert (length (scheduled_new_reqs w) + length (scheduled_resumed_reqs w)
            + length (scheduled_running_reqs st) <=? length ids)%nat ;;
          prefix ← (match ids with
                    | [] => mret (replicate (num_kv_cache_groups config) 0)
                    | id :: _ => on_kv (kvc_common_prefix id)
                    end);
          out ← output w prefix;
          mret (Some out)
      end
  end.
Definition schedule : M Scheduler (option SchedulerOutput) := schedule_with make_output.

(** ** Adding and finishing requests *)

(** [add_request] for a request that is not a streaming session. *)
Definition sched_add_request (j : Job) : M Scheduler unit :=
  let id := request_id (req j) in
  existing ← gets (λ s, requests s !! id);
  match existing with
  | Some _ => raise AssertionError
  | None =>
      enqueue_waiting_request (req j) ;;
      modify (set_requests (insert id j))
  end.

(** [_free_blocks] and [_free_request]. *)
Definition free_blocks_of (id : string) : M Scheduler unit :=
  j ← get_job id;
  py_assert (is_finished (status (req j))) ;;
  kv_call id kvc_free ;;
  modify (set_requests (delete id)).
Definition sched_free_request (id : string) (delay_free_blocks : bool) : M Scheduler unit :=
  j ← get_job id;
  py_assert (is_finished (status (req j))) ;;
  modify (set_finished (λ ids, ids ∪ {[id]})) ;;
  if delay_free_blocks then mret tt else free_blocks_of id.

(** The valid requests among [request_ids], in order. *)
Definition valid_requests (request_ids : list string) (s : Scheduler) : list Request :=
  omap (λ id, match requests s !! id with
              | Some j => if is_finished (status (req j)) then None else Some (req j)
              | None => None
              end) request_ids.

(** [finish_requests]; [request_ids] in the order the set is iterated in. *)
Definition finish_requests (request_ids : list string) (finished_status : RequestStatus) :
    M Scheduler (list (string * Z)) :=
  py_assert (is_finished finished_status) ;;
  valid ← gets (valid_requests request_ids);
  let in_running := filter (λ r, status r = RUNNING) valid in
  let in_waiting := filter (λ r, status r ≠ RUNNING) valid in
  modify (set_running (λ l, remove_all l (request_id <$> in_running))) ;;
  (match in_waiting with
   | [] => mret tt
   | _ => on_waiting (remove_requests in_waiting) ;; on_skipped (remove_requests in_waiting)
   end) ;;
  clients ← gets (λ s, (λ r, (request_id r, from_option client_index 0 (requests s !! request_id r))) <$> valid);
  for_each valid (λ r,
    upd_job (request_id r) (on_req (set_status finished_status)) ;;
    sched_free_request (request_id r) (bool_decide (status r = WAITING_FOR_REMOTE_KVS))) ;;
  mret clients.

(** ** The model's output *)

(** The hash function of the block hashes that new tokens extend. *)
Context (append_tokens : list Z → M Request bool).

(** [_update_request_with_output]: tokens are appended until one stops the request. *)
Fixpoint update_request_with_output (new_token_ids done : list Z) : M Request (list Z * bool) :=
  match new_token_ids with
  | [] => mret (done, false)
  | t :: rest =>
      append_tokens [t] ;;
      stopped ← check_stop (max_model_len config);
      if (stopped : bool) then mret (done ++ [t], true)
      else update_request_with_output rest (done ++ [t])
  end.

(** [EngineCoreOutput]. *)
Record EngineCoreOutput := mkEngineCoreOutput {
  eo_client : Z;
  eo_request_id : string;
  eo_new_token_ids : list Z;
  eo_finish_reason : option FinishReason;
  eo_stop_reason : option StopReason;
  eo_num_cached_tokens : Z
}.

(** What the loop over the scheduled requests collects. *)
Record Update := mkUpdate {
  stopped_running_reqs : list string;
  stopped_preempted_reqs : list Request;
  outputs : list EngineCoreOutput
}.

(** Rejected draft tokens are taken back. *)
Definition take_back (spec generated : list Z) (r : Request) : Request :=
  match spec, generated with
  | _ :: _, _ :: _ =>
      let num_rejected := Z.of_nat (length spec) - (Z.of_nat (length generated) - 1) in
      let r := if 0 <? num_computed_tokens r then set_computed (num_computed_tokens r - num_rejected) r else r in
      if 0 <? num_output_placeholders r then set_placeholders (num_output_placeholders r - num_rejected) r else r
  | _, _ => r
  end.

(** A computation on the request object of [id]. *)
Definition on_job {A} (id : string) (m : M Request A) : M Scheduler A :=
  j ← get_job id;
  match m (req j) with
  | (o, r) => upd_job id (on_req (λ _, r)) ;; of_outcome o
  end.

(** One turn of the loop of [update_from_output]; [sampled] is [sampled_token_ids] by request
    id. A generating request that stops is finished ([_handle_stopped_request] without a
    session). The states of grammars, log probabilities and diagnostics are not kept.
    [with_output] is [self._update_request_with_output], which a subclass overrides. *)
Definition update_one_with (with_output : string → list Z → M Scheduler (list Z * bool))
    (out : SchedulerOutput) (sampled : gmap string (list Z)) (u : Update) (x : string * Z) : M Scheduler Update :=
  let '(id, num_tokens_scheduled) := x in
  py_assert (0 <? num_tokens_scheduled) ;;
  o ← gets (λ s, requests s !! id);
  match o with
  | None => mret u
  | Some j =>
      if is_finished (status (req j)) then mret u
      else
        generated ← from_option_raise KeyError (sampled !! id);
        let spec := default [] (od_get id (out_spec_decode_tokens out)) in
        upd_job id (on_req (take_back spec generated)) ;;
        '(new_token_ids, stopped) ← (match generated with
                                     | [] => mret ([], false)
                                     | _ => with_output id generated
                                     end);
        j' ← get_job id;
        (if (stopped : bool) then sched_free_request id false else mret tt) ;;
        mret (mkUpdate
          (if stopped && bool_decide (status (req j) = RUNNING)
           then stopped_running_reqs u ++ [id] else stopped_running_reqs u)
          (if stopped && negb (bool_decide (status (req j) = RUNNING))
           then stopped_preempted_reqs u ++ [req j'] else stopped_preempted_reqs u)
          (match new_token_ids, stopped with
           | [], false => outputs u
           | _, _ => outputs u ++ [mkEngineCoreOutput (client_index j') id new_token_ids
               (if stopped then get_finished_reason (status (req j')) else None)
               (stop_reason (req j')) (Request.num_cached_tokens (req j'))]
           end))
  end.

Definition update_one : SchedulerOutput → gmap string (list Z) → Update → string * Z → M Scheduler Update :=
  update_one_with (λ id generated, on_job id (update_request_with_output generated [])).

(** [update_from_output]. *)
Definition update_from_output_with (turn : SchedulerOutput → gmap string (list Z) → Update → string * Z → M Scheduler Update)
    (out : SchedulerOutput) (sampled : gmap string (list Z)) : M Scheduler (list EngineCoreOutput) :=
  u ← for_fold (out_num_scheduled_tokens out) (mkUpdate [] [] []) (turn out sampled);
  modify (set_running (λ l, remove_all l (stopped_running_reqs u))) ;;
  (match stopped_preempted_reqs u with
   | [] => mret tt
   | rs => on_waiting (remove_requests rs)
   end) ;;
  mret (outputs u).
Definition update_from_output : SchedulerOutput → gmap string (list Z) → M Scheduler (list EngineCoreOutput) :=
  update_from_output_with update_one.

(** [update_draft_token_ids]; [validate] is the grammar's, or nothing. *)
Definition update_draft_token_ids (validate : Job → list Z → list Z) (drafts : list (string * list Z)) :
    M Scheduler unit :=
  for_each drafts (λ x,
    o ← gets (λ s, requests s !! x.1);
    match o with
    | None => mret tt
    | Some j =>
        if is_finished (status (req j)) then mret tt
        else if is_prefill_chunk j then upd_job x.1 (on_req (set_spec []))
        else upd_job x.1 (on_req (set_spec (validate j x.2)))
    end).

(** ** Counts and resets *)

Definition get_request_counts (s : Scheduler) : Z * Z :=
  (Z.of_nat (length (running s)), queue_len (waiting s) + queue_len (skipped_waiting s)).

(** [get_num_unfinished_requests], with no streaming session. *)
Definition get_num_unfinished_requests (s : Scheduler) : Z :=
  match pause_state s with
  | PAUSED_ALL => 0
  | PAUSED_NEW => Z.of_nat (length (running s))
  | UNPAUSED => queue_len (waiting s) + queue_len (skipped_waiting s) + Z.of_nat (length (running s))
  end.

(** [while self.running: ...] of [reset_prefix_cache]: one turn per running request. *)
Definition preempt_last (id : string) : M Scheduler unit :=
  modify (set_running (λ l, take (length l - 1) l)) ;;
  preempt_request id ;;
  upd_job id (λ j, set_discard true (on_req (set_placeholders 0) j)).

(** [reset_prefix_cache] without the connector's cache. *)
Definition sched_reset_prefix_cache (reset_running_requests : bool) : M Scheduler bool :=
  (if reset_running_requests then
     ids ← gets running;
     for_each (reverse ids) preempt_last ;;
     modify (set_prev_step ∅)
   else mret tt) ;;
  reset_successful ← on_kv kvc_reset;
  if reset_running_requests && negb reset_successful then raise RuntimeError
  else mret reset_successful.
End scheduler.
