(* ===== verification/SchedulerInv.v ===== *)
(** What the scheduler relies on from the KV cache, and what it keeps true of its own state:
    every request of the table is in exactly one of the running, waiting and skipped lists with
    a status that says so, waiting requests hold nothing in the cache, and the cache covers the
    computed tokens of every running request. *)
From S2P Require Import Prelude.
From S2P Require Import Dict.
From S2P Require Import Request.
From S2P Require Import StopCheck.
From S2P Require Import RequestQueue.
From S2P Require Import KVCacheManager.
From S2P Require Import Scheduler.
Local Open Scope Z_scope.

(** ** The promise of the KV cache *)

(** A cache call changes only a memo table of the request. *)
Definition same_request_but_memo (r r' : Request) : Prop := ∃ c, r' = set_embeds_cache c r.

(** The parts of a request that the cache reads for its hashes. *)
Definition hash_view (r : Request) :=
  (all_token_ids r, block_hashes r, mm_features r, lora_request r, cache_salt r).

(** [absent k id]: the request holds nothing. [covered k id n]: its block tables have slots
    for [n] tokens. Calls for one request spare the others. *)
Class KVCachePromise (K : Type) `{!KVCache K} (mml : Z) := {
  kv_good : K → Prop;
  absent : K → string → Prop;
  covered : K → string → Z → Prop;
  req_ok : Request → Prop;
  covered_le : ∀ k id a b, covered k id a → b ≤ a → covered k id b;
  req_ok_view : ∀ r r', hash_view r' = hash_view r → prompt_embeds r' = prompt_embeds r →
    embeds_hash_cache r' = embeds_hash_cache r → req_ok r → req_ok r';
  promise_computed : ∀ k r, kv_good k → req_ok r → absent k (request_id r) → num_computed_tokens r = 0 →
    1 ≤ num_tokens r ≤ mml →
    wp kvc_computed (λ o p, p = (k, r) ∧ ∃ b h, o = Some (b, h) ∧ 0 ≤ h < num_tokens r ∧
      ∀ new lookahead, 0 < new → 0 ≤ lookahead →
        wp (kvc_allocate new h (Some b) lookahead)
          (λ o' p', kv_good p'.1 ∧ same_request_but_memo r p'.2 ∧ req_ok p'.2 ∧
             (∀ x, x ≠ request_id r → (absent k x → absent p'.1 x) ∧ ∀ n, covered k x n → covered p'.1 x n) ∧
             match o' with
             | Some _ => covered p'.1 (request_id r) (Z.min (h + new) mml)
             | None => absent p'.1 (request_id r)
             end) noexc (k, r)) noexc (k, r);
  promise_grow : ∀ k r new lookahead, kv_good k → req_ok r → covered k (request_id r) (num_computed_tokens r) →
    0 ≤ num_computed_tokens r ≤ mml → num_tokens r ≤ mml → 0 < new → 0 ≤ lookahead →
    wp (kvc_allocate new 0 None lookahead)
      (λ o p, kv_good p.1 ∧ same_request_but_memo r p.2 ∧ req_ok p.2 ∧
         (∀ x, x ≠ request_id r → (absent k x → absent p.1 x) ∧ ∀ n, covered k x n → covered p.1 x n) ∧
         covered p.1 (request_id r) (num_computed_tokens r) ∧
         (o ≠ None → covered p.1 (request_id r) (Z.min (num_computed_tokens r + new) mml))) noexc (k, r);
  promise_cache : ∀ k r n, kv_good k → req_ok r → covered k (request_id r) n → 0 ≤ n ≤ num_tokens r →
    wp (kvc_cache_blocks n) (λ _ p, kv_good p.1 ∧ same_request_but_memo r p.2 ∧ req_ok p.2 ∧
      (∀ x, x ≠ request_id r → (absent k x → absent p.1 x) ∧ ∀ m, covered k x m → covered p.1 x m) ∧
      ∀ m, covered k (request_id r) m → covered p.1 (request_id r) m) noexc (k, r);
  promise_free : ∀ k r, kv_good k →
    wp kvc_free (λ _ p, kv_good p.1 ∧ p.2 = r ∧ absent p.1 (request_id r) ∧
      ∀ x, x ≠ request_id r → (absent k x → absent p.1 x) ∧ ∀ n, covered k x n → covered p.1 x n) noexc (k, r);
  promise_prefix : ∀ k id, kv_good k →
    wp (kvc_common_prefix id) (λ _ k', kv_good k' ∧
      ∀ x, (absent k x → absent k' x) ∧ ∀ n, covered k x n → covered k' x n) noexc k;
  promise_reset : ∀ k, kv_good k →
    wp kvc_reset (λ o k', kv_good k' ∧ ((∀ x, absent k x) → o = true) ∧ ∀ x, (absent k x → absent k' x) ∧ ∀ n, covered k x n → covered k' x n) noexc k
}.

(** ** The invariant *)

Section inv.
Context {Q : Type} `{HQ : RequestQueueLaws Q} {K : Type} `{!KVCache K}.
Context (config : SchedulerConfig) `{!KVCachePromise K (max_model_len config)}.
Abbreviation SC := (Scheduler (Q := Q) (K := K)).
Implicit Types s : SC.

(** Requests that a running step has taken out of the queues and will put back. *)
Context {extra : list Request}.

Definition queued s : list Request := contents (waiting s) ++ contents (skipped_waiting s) ++ extra.
Definition all_ids s : list string := running s ++ (request_id <$> queued s).

(** A request without streaming input whose minimum output fits into the model's length. *)
Definition plain (r : Request) : Prop :=
  resumable r = false ∧ ∃ sp, sampling_params r = Some sp ∧
    num_tokens r - num_output_tokens r + min_tokens sp ≤ max_model_len config.

(** What holds of every request object under its id. *)
Record job_ok (id : string) (j : Job) : Prop := {
  jk_id : request_id (req j) = id;
  jk_ok : req_ok (req j);
  jk_tokens : 1 ≤ num_tokens (req j) ≤ max_model_len config;
  jk_plain : plain (req j);
  jk_pending : 0 ≤ num_output_placeholders (req j)
}.

(** A running request, as far as the cache is concerned. *)
Record running_ok (k : K) (id : string) (j : Job) : Prop := {
  rk_status : status (req j) = RUNNING;
  rk_computed : 0 ≤ num_computed_tokens (req j) ≤ max_model_len config;
  rk_covered : covered k id (num_computed_tokens (req j))
}.

(** A queued request. *)
Definition queued_status (st : RequestStatus) : Prop :=
  st ≠ RUNNING ∧ is_finished st = false ∧ st ≠ WAITING_FOR_REMOTE_KVS.
Record queued_ok (k : K) (j : Job) : Prop := {
  qk_status : queued_status (status (req j));
  qk_computed : num_computed_tokens (req j) = 0;
  qk_absent : absent k (request_id (req j))
}.

(** The fields that order a queue are those of the object. *)
Definition same_key (e r : Request) : Prop :=
  request_id e = request_id r ∧ obj_id e = obj_id r ∧ priority e = priority r ∧ arrival_time e = arrival_time r.

Record sched_inv s : Prop := {
  si_waiting : queue_inv (waiting s);
  si_skipped : queue_inv (skipped_waiting s);
  si_nodup : NoDup (all_ids s);
  si_dom : ∀ id, id ∈ all_ids s ↔ is_Some (requests s !! id);
  si_len : Z.of_nat (length (running s)) ≤ max_num_running_reqs config;
  si_kv : kv_good (kv_cache_manager s);
  si_jobs : ∀ id j, requests s !! id = Some j → job_ok id j;
  si_running : ∀ id j, id ∈ running s → requests s !! id = Some j → running_ok (kv_cache_manager s) id j;
  si_queued : ∀ e, e ∈ queued s → ∃ j, requests s !! request_id e = Some j ∧ same_key e (req j) ∧
    queued_ok (kv_cache_manager s) j;
  si_objects : ∀ id id' j j', requests s !! id = Some j → requests s !! id' = Some j' →
    obj_id (req j) = obj_id (req j') → id = id'
}.

(** Calls for [id] spare the others. *)
Definition spares (id : string) (k k' : K) : Prop :=
  ∀ x, x ≠ id → (absent k x → absent k' x) ∧ ∀ n, covered k x n → covered k' x n.

Lemma spares_refl id k : spares id k k.
Proof. by intros x _. Qed.

Lemma running_ok_spares id k k' x j : x ≠ id → spares id k k' → running_ok k x j → running_ok k' x j.
Proof. intros Hx Hs [H1 H2 H3]. split; [done|done|]. by apply (proj2 (Hs x Hx)). Qed.

Lemma queued_ok_spares id k k' j : request_id (req j) ≠ id → spares id k k' → queued_ok k j → queued_ok k' j.
Proof. intros Hx Hs [H1 H2 H3]. split; [done|done|]. by apply (proj1 (Hs _ Hx)). Qed.

(** Where a request is. *)
Lemma running_known s id : sched_inv s → id ∈ running s → ∃ j, requests s !! id = Some j.
Proof. intros Hs Hin. apply (si_dom _ Hs). unfold all_ids. in_list. Qed.

Lemma queued_ids s e : e ∈ queued s → request_id e ∈ all_ids s.
Proof. intros He. unfold all_ids. apply elem_of_app. right. by apply list_elem_of_fmap_2. Qed.

Lemma running_not_queued s id : sched_inv s → id ∈ running s → id ∉ request_id <$> queued s.
Proof. intros Hs Hin. pose proof (si_nodup _ Hs) as Hnd. unfold all_ids in Hnd. apply NoDup_app in Hnd as (_ & Hd & _). by apply Hd. Qed.

Lemma running_nodup s : sched_inv s → NoDup (running s).
Proof. intros Hs. pose proof (si_nodup _ Hs) as Hnd. unfold all_ids in Hnd. by apply NoDup_app in Hnd as (? & _ & _). Qed.

(** The parts of the invariant that a call does not touch. *)
Local Ltac inv_parts :=
  try match goal with
  | Hs : sched_inv ?s |- queue_inv _ => first [exact (si_waiting _ Hs)|exact (si_skipped _ Hs)]
  | Hs : sched_inv ?s |- _ ≤ max_num_running_reqs _ => exact (si_len _ Hs)
  | Hs : sched_inv ?s |- kv_good _ => exact (si_kv _ Hs)
  end.

(** The object of one request changes, and the request may change its place. *)
Lemma inv_move s s' id j j' :
  sched_inv s → requests s !! id = Some j → requests s' = <[id := j']> (requests s) →
  obj_id (req j') = obj_id (req j) → job_ok id j' →
  all_ids s' ≡ₚ all_ids s → queue_inv (waiting s') → queue_inv (skipped_waiting s') →
  Z.of_nat (length (running s')) ≤ max_num_running_reqs config →
  (∀ x, x ≠ id → x ∈ running s' → x ∈ running s) →
  (∀ e, e ∈ queued s' → request_id e ≠ id → e ∈ queued s) →
  kv_good (kv_cache_manager s') → spares id (kv_cache_manager s) (kv_cache_manager s') →
  (id ∈ running s' → running_ok (kv_cache_manager s') id j') →
  (∀ e, e ∈ queued s' → request_id e = id → same_key e (req j') ∧ queued_ok (kv_cache_manager s') j') →
  sched_inv s'.
Proof.
  intros Hs Hj Hreq Hobj Hok Hids Hw Hk Hlen Hrun Hque Hkv Hsp Hidr Hidq.
  assert (∀ x y, requests s' !! x = Some y → x = id ∧ y = j' ∨ x ≠ id ∧ requests s !! x = Some y) as Hlook.
  { intros x y. rewrite Hreq. destruct (decide (id = x)) as [<-|Hne].
    - rewrite lookup_insert_eq. intros [= ->]. by left.
    - rewrite lookup_insert_ne by done. auto. }
  split; try done.
  - rewrite Hids. apply Hs.
  - intros x. rewrite Hids, (si_dom _ Hs), Hreq. destruct (decide (id = x)) as [<-|Hne].
    + rewrite lookup_insert_eq, Hj. split; eauto.
    + by rewrite lookup_insert_ne.
  - intros x y [[-> ->]|[Hx Hy]]%Hlook; [done|by apply Hs].
  - intros x y Hin [[-> ->]|[Hx Hy]]%Hlook; [by apply Hidr|].
    eapply running_ok_spares; [done..|]. apply (si_running _ Hs); auto.
  - intros e He. destruct (decide (request_id e = id)) as [Heq|Hne].
    + exists j'. rewrite Heq, Hreq, lookup_insert_eq. split; [done|]. by apply Hidq.
    + destruct (si_queued _ Hs e (Hque e He Hne)) as (y & Hy & Hkey & Hq). exists y.
      rewrite Hreq, lookup_insert_ne by done. split_and!; [done..|]. eapply queued_ok_spares; [|done..].
      destruct Hkey as (Hid & _). congruence.
  - intros x x' y y' H1 H2 Ho.
    apply Hlook in H1 as [[-> ->]|[Hx Hy]]; apply Hlook in H2 as [[-> ->]|[Hx' Hy']]; try done.
    + rewrite Hobj in Ho. by eapply (si_objects _ Hs).
    + rewrite Hobj in Ho. by eapply (si_objects _ Hs).
    + by eapply (si_objects _ Hs).
Qed.

(** An id that is not in the table holds nothing in the cache. *)
Definition fresh s : Prop := ∀ id, requests s !! id = None → absent (kv_cache_manager s) id.

Lemma fresh_insert s s' id j j' :
  fresh s → requests s !! id = Some j → requests s' = <[id := j']> (requests s) →
  spares id (kv_cache_manager s) (kv_cache_manager s') → fresh s'.
Proof.
  intros Hf Hj Hreq Hsp x. rewrite Hreq. destruct (decide (id = x)) as [<-|Hne]; [by rewrite lookup_insert_eq|].
  rewrite lookup_insert_ne by done. intros Hx. apply Hsp; [congruence|]. by apply Hf.
Qed.

(** ** Calls on the cache *)

Lemma wp_get_job s id j Post E : requests s !! id = Some j → Post j s → wp (get_job id) Post E s.
Proof. intros Hj HP. unfold get_job. wp_steps. by eapply wp_from_option. Qed.

(** The state after a cache call for [id]. *)
Definition kv_after s (id : string) (p : K * Request) : SC :=
  mkScheduler (alter (on_req (λ _, p.2)) id (requests s)) (waiting s) (skipped_waiting s) (running s)
    (finished_req_ids s) (prev_step_scheduled_req_ids s) (pause_state s) p.1.

Lemma wp_kv_call {A} s id j (m : M (K * Request) A) Post E :
  requests s !! id = Some j →
  wp m (λ a p, Post a (kv_after s id p)) (λ e p, E e (kv_after s id p)) (kv_cache_manager s, req j) →
  wp (kv_call id m) Post E s.
Proof.
  intros Hj Hm. unfold kv_call. apply wp_bind, (wp_get_job _ _ j); [done|]. unfold kv_apply, wp in *.
  by destruct (m (kv_cache_manager s, req j)) as [[a|e] [k r]].
Qed.

Lemma alter_known (f : Job → Job) id j (m : gmap string Job) : m !! id = Some j → alter f id m = <[id := f j]> m.
Proof.
  intros Hj. apply map_eq. intros x. destruct (decide (id = x)) as [<-|Hne].
  - by rewrite lookup_alter_eq, lookup_insert_eq, Hj.
  - by rewrite lookup_alter_ne, lookup_insert_ne.
Qed.

(** Only the memo of [id] and the cache have changed. *)
Record called (id : string) (j : Job) s s' : Prop := {
  ca_requests : ∃ r, same_request_but_memo (req j) r ∧ requests s' = <[id := on_req (λ _, r) j]> (requests s);
  ca_running : running s' = running s;
  ca_waiting : waiting s' = waiting s;
  ca_skipped : skipped_waiting s' = skipped_waiting s;
  ca_prev : prev_step_scheduled_req_ids s' = prev_step_scheduled_req_ids s;
  ca_pause : pause_state s' = pause_state s;
  ca_finished : finished_req_ids s' = finished_req_ids s;
  ca_spares : spares id (kv_cache_manager s) (kv_cache_manager s')
}.

Lemma memo_job id j r : same_request_but_memo (req j) r → req_ok r → job_ok id j → job_ok id (on_req (λ _, r) j).
Proof. intros [c ->] Hok [H1 H2 H3 H4 H5]. by split. Qed.

(** A cache call keeps the invariant if it keeps what the place of the request asks for. *)
Lemma inv_called s id j p :
  sched_inv s → requests s !! id = Some j → kv_good p.1 → same_request_but_memo (req j) p.2 → req_ok p.2 →
  spares id (kv_cache_manager s) p.1 →
  (id ∈ running s → covered p.1 id (num_computed_tokens (req j))) →
  (id ∈ request_id <$> queued s → absent p.1 id) →
  sched_inv (kv_after s id p) ∧ called id j s (kv_after s id p).
Proof.
  intros Hs Hj Hk Hm Hr Hsp Hrun Hque. assert (job_ok id j) as Hok by by apply (si_jobs _ Hs).
  assert (requests (kv_after s id p) = <[id := on_req (λ _, p.2) j]> (requests s)) as Hreq by by apply alter_known.
  split.
  2: { split; try done. exists p.2. done. }
  destruct Hm as [c Hc]. destruct p as [k r]; simpl in *. subst r.
  eapply (inv_move s _ id j); try done; simpl; inv_parts.
  - apply memo_job; [by exists c|done|done].
  - intros Hin. destruct (si_running _ Hs id j Hin Hj) as [H1 H2 H3]. split; simpl; auto.
  - intros e He Heq. destruct (si_queued _ Hs e He) as (j2 & Hj2 & Hkey & [Q1 Q2 Q3]).
    rewrite Heq, Hj in Hj2. injection Hj2 as <-. split; [done|]. split; try done. simpl.
    rewrite (jk_id _ _ Hok). apply Hque. rewrite <-Heq. by apply list_elem_of_fmap_2.
Qed.

(** Growing a running request. *)
Lemma wp_grow s id j new E :
  sched_inv s → id ∈ running s → requests s !! id = Some j → 0 < new → 0 ≤ num_lookahead_tokens config →
  wp (kv_call id (kvc_allocate new 0 None (num_lookahead_tokens config)))
    (λ o s', sched_inv s' ∧ called id j s s' ∧
       (o ≠ None → covered (kv_cache_manager s') id
          (Z.min (num_computed_tokens (req j) + new) (max_model_len config)))) E s.
Proof.
  intros Hs Hin Hj Hnew Hla. pose proof (si_jobs _ Hs id j Hj) as [J1 J2 J3 J4 J5].
  destruct (si_running _ Hs id j Hin Hj) as [R1 R2 R3]. apply (wp_kv_call _ _ j); [done|].
  eapply wp_mono; [apply promise_grow; try done; [apply Hs|by rewrite J1|lia]| |by intros ? ? []].
  intros o p (H1 & H2 & H3 & H4 & H5 & H6). rewrite J1 in *.
  destruct (inv_called s id j p) as [Hi Hc]; try done.
  intros Hq. by apply (running_not_queued s id Hs) in Hq.
Qed.

(** ** Preemption *)

Definition preempted (r : Request) : Request :=
  set_preemptions (num_preemptions r + 1) (set_spec [] (set_computed 0 (set_status PREEMPTED r))).

(** [id] has gone from the running list to the waiting queue. *)
Record dropped (id : string) (j : Job) s s' : Prop := {
  dr_requests : requests s' = <[id := on_req preempted j]> (requests s);
  dr_running : running s' = list_remove_first id (running s);
  dr_waiting : contents (waiting s') ≡ₚ preempted (req j) :: contents (waiting s);
  dr_skipped : skipped_waiting s' = skipped_waiting s;
  dr_prev : prev_step_scheduled_req_ids s' = prev_step_scheduled_req_ids s;
  dr_pause : pause_state s' = pause_state s;
  dr_finished : finished_req_ids s' = finished_req_ids s;
  dr_spares : spares id (kv_cache_manager s) (kv_cache_manager s')
}.

Lemma remove_first_perm (id : string) l : id ∈ l → l ≡ₚ id :: list_remove_first id l.
Proof.
  induction l as [|x l IH]; simpl; [by intros ?%elem_of_nil|]. intros Hin. case_decide as Hx; [by subst|].
  apply elem_of_cons in Hin as [->|Hin]; [done|]. rewrite (IH Hin) at 1. apply Permutation_swap.
Qed.

Lemma remove_first_subset (id x : string) l : x ∈ list_remove_first id l → x ∈ l.
Proof.
  induction l as [|y l IH]; simpl; [done|]. case_decide; rewrite ?elem_of_cons; [auto|]. intros [?|?]; auto.
Qed.

Lemma wp_upd_job id f s (Post : unit → SC → Prop) E : Post tt (set_requests (alter f id) s) → wp (upd_job id f) Post E s.
Proof. done. Qed.

Lemma preempted_job id j : job_ok id j → job_ok id (on_req preempted j).
Proof. intros [H1 H2 H3 H4 H5]. split; try done. simpl. by eapply req_ok_view; [..|exact H2]. Qed.

Lemma inv_dropped s id j s' :
  sched_inv s → id ∈ running s → requests s !! id = Some j → dropped id j s s' →
  queue_inv (waiting s') → kv_good (kv_cache_manager s') → absent (kv_cache_manager s') id → sched_inv s'.
Proof.
  intros Hs Hin Hj [D1 D2 D3 D4 D5 D6 D7 D8] Hq Hk Ha. pose proof (si_jobs _ Hs id j Hj) as Hok.
  pose proof (remove_first_perm id (running s) Hin) as Hperm.
  assert (queued s' ≡ₚ preempted (req j) :: queued s) as Hqs by (unfold queued; by rewrite D3, D4).
  eapply (inv_move s s' id j); try done; inv_parts.
  - by apply preempted_job.
  - unfold all_ids. rewrite Hqs, D2. csimpl. rewrite <-Permutation_middle. rewrite Hperm at 2.
    by rewrite (jk_id _ _ Hok).
  - rewrite D4. apply Hs.
  - rewrite D2. pose proof (si_len _ Hs) as Hl. rewrite Hperm in Hl. simpl in Hl. lia.
  - intros x _. rewrite D2. apply remove_first_subset.
  - intros e. rewrite Hqs, elem_of_cons. intros [->|?] Hne; [|done]. simpl in Hne. by rewrite (jk_id _ _ Hok) in Hne.
  - rewrite D2. intros Hr. pose proof (running_nodup s Hs) as Hnd. rewrite Hperm in Hnd. by apply NoDup_cons in Hnd as [? _].
  - intros e. rewrite Hqs, elem_of_cons. intros [->|He] Heq.
    + split; [by repeat split|]. split; simpl; [|done|by rewrite (jk_id _ _ Hok)]. by split.
    + exfalso. apply (running_not_queued s id Hs Hin). rewrite <-Heq. by apply list_elem_of_fmap_2.
Qed.

Lemma wp_preempt s id j E :
  sched_inv s → id ∈ running s → requests s !! id = Some j →
  wp (preempt_request id) (λ _ s', sched_inv s' ∧ dropped id j s s') E (set_running (list_remove_first id) s).
Proof.
  intros Hs Hin Hj. pose proof (si_jobs _ Hs id j Hj) as [J1 J2 J3 J4 J5].
  destruct (si_running _ Hs id j Hin Hj) as [R1 R2 R3]. unfold preempt_request.
  apply wp_bind, (wp_get_job _ _ j); [done|]. apply wp_bind, wp_assert; [by apply bool_decide_eq_true|].
  apply wp_bind, (wp_kv_call _ _ j); [done|]. simpl kv_cache_manager.
  eapply wp_mono; [apply promise_free, Hs| |by intros ? ? []]. intros [] [k r] (H1 & Hr & H3 & H4). simpl in Hr. subst r.
  rewrite J1 in *. simpl in *.
  apply wp_bind, wp_upd_job.
  assert (∀ s1, requests s1 = <[id := on_req preempted j]> (requests s) → requests s1 !! id = Some (on_req preempted j))
    as Hget by (intros s1 ->; apply lookup_insert_eq).
  set (s1 := set_requests _ _).
  assert (requests s1 = <[id := on_req preempted j]> (requests s)) as Hreq.
  { unfold s1, kv_after. simpl. rewrite (alter_known (on_req (λ _, req j)) id j (requests s)) by done.
    rewrite (alter_known _ _ (on_req (λ _, req j) j)) by apply lookup_insert_eq. by rewrite insert_insert_eq. }
  apply wp_bind, (wp_get_job _ _ (on_req preempted j)); [by apply Hget|]. apply wp_zoom.
  eapply wp_mono; [apply law_prepend, Hs| |by intros ? ? []]. intros [] q [Hq Hc].
  assert (dropped id j s (mkScheduler (requests s1) q (skipped_waiting s1) (running s1) (finished_req_ids s1)
    (prev_step_scheduled_req_ids s1) (pause_state s1) (kv_cache_manager s1))) as Hd by (split; done).
  split; [|done]. by eapply (inv_dropped s id j).
Qed.
End inv.

(** The parts of the invariant that a call does not touch, outside this section. *)
Ltac sched_parts :=
  try match goal with
  | Hs : sched_inv _ _ |- queue_inv _ => first [exact (si_waiting _ _ Hs)|exact (si_skipped _ _ Hs)]
  | Hs : sched_inv _ _ |- _ ≤ max_num_running_reqs _ => exact (si_len _ _ Hs)
  | Hs : sched_inv _ _ |- kv_good _ => exact (si_kv _ _ Hs)
  end.
