(* ===== verification/SchedulerStep.v ===== *)
(** The loop over the running requests: what a step has decided stays within the token budget
    and is backed by the cache, preemption takes back what was decided for the victim, and both
    loops end before their fuel does. *)
From S2P Require Import Prelude.
From S2P Require Import Dict.
From S2P Require Import Request.
From S2P Require Import StopCheck.
From S2P Require Import RequestQueue.
From S2P Require Import KVCacheManager.
From S2P Require Import Scheduler.
From S2P Require Import SchedulerInv.
Local Open Scope Z_scope.

(** ** Sums over dictionaries *)

Lemma sum_cons x (d : dict string Z) : sum_tokens (x :: d) = x.2 + sum_tokens d.
Proof. done. Qed.

Lemma sum_perm (d d' : dict string Z) : d ≡ₚ d' → sum_tokens d = sum_tokens d'.
Proof. intros Hp. induction Hp; rewrite ?sum_cons in *; lia. Qed.

Lemma sum_set_new id n (d : dict string Z) : id ∉ keys d → sum_tokens (od_set id n d) = sum_tokens d + n.
Proof.
  intros Hn. rewrite od_set_new by done. rewrite (sum_perm _ ((id, n) :: d)) by by rewrite Permutation_app_comm.
  rewrite sum_cons. simpl. lia.
Qed.

Lemma sum_del id n (d : dict string Z) :
  NoDup (keys d) → od_get id d = Some n → sum_tokens (od_del id d) = sum_tokens d - n.
Proof. intros Hnd Hg. rewrite (sum_perm d _ (od_del_perm id n d Hnd Hg)), sum_cons. simpl. lia. Qed.

(** ** Lists with one element removed *)

Lemma take_remove_first (v x : string) n l :
  NoDup l → v ∈ l → x ≠ v → x ∈ take n l → x ∈ take (if decide (v ∈ take n l) then n - 1 else n) (list_remove_first v l).
Proof.
  revert n. induction l as [|y l IH]; intros n Hnd Hv Hx; [by apply elem_of_nil in Hv|].
  destruct n as [|n]; [by intros ?%elem_of_nil|].
  apply NoDup_cons in Hnd as [Hy Hnd]. simpl. rewrite elem_of_cons.
  destruct (decide (y = v)) as [->|Hne].
  - intros [?|Hin]; [done|]. rewrite decide_True by by left. simpl. by rewrite Nat.sub_0_r.
  - apply elem_of_cons in Hv as [->|Hv]; [done|]. intros [->|Hin].
    + destruct (decide (v ∈ y :: take n l)) as [Ht|Ht]; simpl; [|by left].
      apply elem_of_cons in Ht as [->|Ht]; [done|]. destruct n as [|n]; [by apply elem_of_nil in Ht|]. simpl. by left.
    + specialize (IH n Hnd Hv Hx Hin). destruct (decide (v ∈ take n l)) as [Ht|Ht].
      * rewrite decide_True by by right. destruct n as [|n]; [by apply elem_of_nil in Ht|]. simpl in *. rewrite Nat.sub_0_r in *. by right.
      * rewrite decide_False by (rewrite elem_of_cons; naive_solver). simpl. by right.
Qed.

Lemma take_removed (v x : string) n l :
  NoDup l → v ∈ l → x ≠ v → x ∈ take n l → x ∈ take n (list_remove_first v l).
Proof.
  intros Hnd Hv Hx Hin. pose proof (take_remove_first v x n l Hnd Hv Hx Hin) as Ht. case_decide; [|done].
  apply elem_of_take in Ht as (i & Hi & Hlt). apply elem_of_take. exists i. split; [done|lia].
Qed.

Lemma remove_first_last (v : string) l : NoDup l → last l = Some v → take (length l - 1) l = list_remove_first v l.
Proof.
  intros Hnd Hl. destruct l as [|x l _] using rev_ind; [done|]. rewrite last_snoc in Hl. injection Hl as ->.
  rewrite length_app. simpl. replace (length l + 1 - 1)%nat with (length l) by lia. rewrite take_app_length.
  apply NoDup_app in Hnd as (_ & Hd & _).
  induction l as [|y l IH]; simpl; [by rewrite decide_True|].
  rewrite decide_False by (intros ->; apply (Hd v); [by left|by apply list_elem_of_singleton]).
  f_equal. apply IH. intros z Hz. apply Hd. by right.
Qed.

Lemma length_remove_first (v : string) l : v ∈ l → length l = S (length (list_remove_first v l)).
Proof. intros Hv. by rewrite (remove_first_perm v l Hv) at 1. Qed.

Lemma remove_first_other (v x : string) l : x ≠ v → x ∈ l → x ∈ list_remove_first v l.
Proof.
  intros Hx. induction l as [|y l IH]; simpl; [done|]. rewrite elem_of_cons. case_decide as Hy.
  - intros [->|?]; [by subst|done].
  - rewrite elem_of_cons. intros [?|?]; auto.
Qed.

Lemma remove_first_gone (v : string) l : NoDup l → v ∉ list_remove_first v l.
Proof.
  intros Hnd Hin. destruct (decide (v ∈ l)) as [Hv|Hv].
  - rewrite (remove_first_perm v l Hv) in Hnd. by apply NoDup_cons in Hnd as [? _].
  - apply Hv. by eapply remove_first_subset.
Qed.

(** ** What a step has decided *)

Section step.
Context {Q : Type} `{HQ : RequestQueueLaws Q} {K : Type} `{!KVCache K}.
Context (config : SchedulerConfig) `{!KVCachePromise K (max_model_len config)}.
Abbreviation SC := (Scheduler (Q := Q) (K := K)).
Abbreviation inv := (sched_inv (extra := []) config).
Implicit Types s : SC.
Implicit Types st : Step.

(** A request has computed no more than there is to compute, and its next token fits. *)
Definition settled (r : Request) : Prop :=
  num_computed_tokens r ≤ num_tokens r + num_output_placeholders r ∧
  num_computed_tokens r ≤ max_model_len config - 1.

(** The slots of a decision exist, and it asks for no more than the known and the draft
    tokens. *)
Record decided (k : K) (id : string) (r : Request) (n : Z) (drafts : option (list Z)) : Prop := {
  de_pos : 0 < n;
  de_covered : covered k id (num_computed_tokens r + n);
  de_model : num_computed_tokens r + n ≤ Z.max (max_model_len config - 1) (num_tokens r);
  de_drafts : match drafts with
              | Some ts => ts ≠ [] ∧
                  num_computed_tokens r + n = num_tokens r + num_output_placeholders r + Z.of_nat (length ts)
              | None => num_computed_tokens r + n ≤ num_tokens r + num_output_placeholders r
              end
}.

(** A preempted request was not scheduled in the previous step. *)
Definition prev_ok s : Prop :=
  ∀ id j, requests s !! id = Some j → status (req j) = PREEMPTED → id ∉ prev_step_scheduled_req_ids s.

Record step_inv (budget : Z) (ids : list string) s st : Prop := {
  st_keys : keys (num_scheduled_tokens st) = ids;
  st_blocks : keys (req_to_new_blocks st) = ids;
  st_nodup : NoDup ids;
  st_sum : token_budget st + sum_tokens (num_scheduled_tokens st) = budget;
  st_budget : 0 ≤ token_budget st;
  st_each : ∀ id n, od_get id (num_scheduled_tokens st) = Some n →
    id ∈ running s ∧ ∃ j, requests s !! id = Some j ∧
      decided (kv_cache_manager s) id (req j) n (od_get id (scheduled_spec_decode_tokens st));
  st_drafts : ∀ id, id ∈ keys (scheduled_spec_decode_tokens st) → id ∈ ids;
  st_preempted : ∀ id, id ∈ preempted_reqs st → id ∉ running s;
  st_settled : ∀ id j, id ∈ running s → id ∉ ids → requests s !! id = Some j → settled (req j);
  st_prev : preempted_reqs st = [] → prev_ok s
}.

Lemma decided_memo k k' id id' r r' n ds :
  id ≠ id' → spares config id' k k' → same_request_but_memo r r' → decided k id r n ds → decided k' id r' n ds.
Proof.
  intros Hne Hs [c ->] [H1 H2 H3 H4]. split; simpl; try done. by apply (proj2 (Hs id Hne)).
Qed.

Lemma decided_spares k k' id id' r n ds :
  id ≠ id' → spares config id' k k' → decided k id r n ds → decided k' id r n ds.
Proof. intros Hne Hs [H1 H2 H3 H4]. split; try done. by apply (proj2 (Hs id Hne)). Qed.

(** A cache call for a request without a decision. *)
Lemma step_called budget ids s s' st id j :
  step_inv budget ids s st → requests s !! id = Some j → called config id j s s' → id ∉ ids → step_inv budget ids s' st.
Proof.
  intros [T1 T2 T3 T4 T5 T6 T7 T8 T9 T10] Hj [(r & Hm & Hreq) C2 C3 C4 C5 C6 C7 C8] Hn. split; try done.
  - intros x n Hg. destruct (T6 x n Hg) as (Hin & jx & Hjx & Hd). rewrite C2. split; [done|].
    assert (x ≠ id) as Hne by (intros ->; apply Hn; rewrite <-T1; by eapply od_get_in).
    exists jx. rewrite Hreq, lookup_insert_ne by done. split; [done|]. by eapply decided_spares.
  - rewrite C2. done.
  - intros x jx. rewrite C2, Hreq. intros Hin Hx. destruct (decide (id = x)) as [<-|Hne].
    + rewrite lookup_insert_eq. intros [= <-]. specialize (T9 id j Hin Hn Hj). destruct Hm as [c ->]. done.
    + rewrite lookup_insert_ne by done. by apply T9.
  - intros Hp x jx. rewrite Hreq, C5. destruct (decide (id = x)) as [<-|Hne].
    + rewrite lookup_insert_eq. intros [= <-]. destruct Hm as [c ->]. by apply (T10 Hp id j).
    + rewrite lookup_insert_ne by done. by apply (T10 Hp x jx).
Qed.

(** A request without a decision is preempted. *)
Lemma step_dropped budget ids s s' st id j :
  step_inv budget ids s st → requests s !! id = Some j → dropped config id j s s' → id ∉ ids → NoDup (running s) →
  step_inv budget ids s' (note_preempted id st).
Proof.
  intros [T1 T2 T3 T4 T5 T6 T7 T8 T9 T10] Hj [D1 D2 D3 D4 D5 D6 D7 D8] Hn Hnd. split; simpl; try done.
  - intros x n Hg. destruct (T6 x n Hg) as (Hin & jx & Hjx & Hd).
    assert (x ≠ id) as Hne by (intros ->; apply Hn; rewrite <-T1; by eapply od_get_in).
    rewrite D2. split; [by apply remove_first_other|].
    exists jx. rewrite D1, lookup_insert_ne by done. split; [done|]. by eapply decided_spares.
  - intros x [Hx| ->%list_elem_of_singleton]%elem_of_app; rewrite D2; [|by apply remove_first_gone].
    intros Hin%remove_first_subset. by apply (T8 x).
  - intros x jx. rewrite D2, D1. intros Hin Hx. assert (id ≠ x) as Hne by (intros ->; by apply (remove_first_gone x (running s))).
    rewrite lookup_insert_ne by done. apply T9; [by eapply remove_first_subset|done].
  - by intros [_ ?]%app_nil.
Qed.

(** A request with a decision is preempted, and the decision taken back. *)
Lemma unschedule_run st id n b :
  od_get id (num_scheduled_tokens st) = Some n → od_get id (req_to_new_blocks st) = Some b →
  unschedule id st = Ret (mkStep (list_remove_first id (scheduled_running_reqs st)) (preempted_reqs st)
    (od_del id (req_to_new_blocks st)) (od_del id (num_scheduled_tokens st))
    (od_del id (scheduled_spec_decode_tokens st)) (token_budget st + n) (req_index st - 1)).
Proof. intros H1 H2. unfold unschedule. by rewrite H1, H2. Qed.

Lemma od_get_some {A} (id : string) (d : dict string A) : id ∈ keys d → ∃ v, od_get id d = Some v.
Proof. intros Hin. destruct (od_get id d) eqn:Hg; [eauto|]. by apply od_get_None in Hg. Qed.

Lemma step_unscheduled budget ids s s' st id j :
  step_inv budget ids s st → id ∈ ids → requests s !! id = Some j → dropped config id j s s' → NoDup (running s) →
  ∃ st', unschedule id st = Ret st' ∧ step_inv budget (filter (.≠ id) ids) s' (note_preempted id st') ∧
    req_index st' = req_index st - 1 ∧
    scheduled_running_reqs st' = list_remove_first id (scheduled_running_reqs st) ∧ token_budget st ≤ token_budget st'.
Proof.
  intros [T1 T2 T3 T4 T5 T6 T7 T8 T9 T10] Hin Hj [D1 D2 D3 D4 D5 D6 D7 D8] Hnd.
  destruct (od_get_some id (num_scheduled_tokens st)) as [n Hn]; [by rewrite T1|].
  destruct (od_get_some id (req_to_new_blocks st)) as [b Hb]; [by rewrite T2|].
  destruct (T6 id n Hn) as (_ & _ & _ & [Hpos _ _ _]).
  eexists. split; [by apply (unschedule_run st id n b)|]. simpl. split_and!; try done; [|lia]. split; simpl.
  - by rewrite od_del_keys, T1.
  - by rewrite od_del_keys, T2.
  - by apply NoDup_filter.
  - rewrite (sum_del id n) by (by rewrite ?T1). lia.
  - lia.
  - intros x m. rewrite od_get_del. case_decide as Hne; [done|]. intros Hg.
    destruct (T6 x m Hg) as (Hx & jx & Hjx & Hd). rewrite D2. split; [apply remove_first_other; [congruence|done]|].
    exists jx. rewrite D1, lookup_insert_ne by done. split; [done|]. rewrite od_get_del, decide_False by done.
    eapply decided_spares; [|done..]. congruence.
  - intros x. rewrite od_del_keys, !list_elem_of_filter. intros [? ?]. auto.
  - intros x [Hx| ->%list_elem_of_singleton]%elem_of_app; rewrite D2; [|by apply remove_first_gone].
    intros Hx'%remove_first_subset. by apply (T8 x).
  - intros x jx. rewrite D2, D1, list_elem_of_filter. intros Hx Hno.
    assert (id ≠ x) as Hne by (intros ->; by apply (remove_first_gone x (running s))).
    rewrite lookup_insert_ne by done. apply T9; [by eapply remove_first_subset|]. intros ?. apply Hno. split; [congruence|done].
  - by intros [_ ?]%app_nil.
Qed.

(** ** Choosing a victim *)

Lemma max_by_key_in rs r : max_by_key rs = Some r → r ∈ rs.
Proof.
  destruct rs as [|x rs]; [done|]. simpl. intros [= <-]. revert x. induction rs as [|y rs IH]; intros x; simpl; [by left|].
  destruct (key_lt x y).
  - right. apply IH.
  - specialize (IH x). apply elem_of_cons in IH as [Hx|Hx]; [rewrite Hx; by left|]. right. by right.
Qed.

Lemma running_objects_in s r :
  inv s → r ∈ running_objects s → request_id r ∈ running s ∧ ∃ j, requests s !! request_id r = Some j ∧ req j = r.
Proof.
  intros Hs. unfold running_objects. rewrite list_elem_of_omap. intros (id & Hin & Hr).
  destruct (requests s !! id) as [j|] eqn:Hj; [|done]. simpl in Hr. injection Hr as <-.
  pose proof (jk_id _ _ _ (si_jobs _ _ Hs id j Hj)) as Hid. rewrite Hid. split; [done|]. by exists j.
Qed.

Lemma running_objects_nonempty s id : inv s → id ∈ running s → ∃ r, max_by_key (running_objects s) = Some r.
Proof.
  intros Hs Hin. destruct (running_known _ s id Hs Hin) as [j Hj].
  assert (req j ∈ running_objects s) as Hr.
  { unfold running_objects. apply list_elem_of_omap. exists id. rewrite Hj. done. }
  destruct (running_objects s) as [|r rs]; [by apply elem_of_nil in Hr|]. by eexists.
Qed.

(** The victim and the step with its decision taken back. *)
Definition chosen s st (v : string) st' : Prop :=
  v ∈ running s ∧
  (v ∈ scheduled_running_reqs st ∧ policy config = PRIORITY ∧ unschedule v st = Ret st' ∨
   st' = st ∧ (policy config = PRIORITY → v ∉ scheduled_running_reqs st) ∧
   (policy config = FCFS → last (running s) = Some v)).

Lemma wp_choose_victim budget ids s st id E :
  inv s → step_inv budget ids s st → (∀ x, x ∈ scheduled_running_reqs st → x ∈ ids) → id ∈ running s →
  wp (choose_victim config st)
    (λ x s', chosen s st x.1 x.2 ∧ s' = set_running (list_remove_first x.1) s) E s.
Proof.
  intros Hs Hst Hsub Hin. unfold choose_victim. destruct (policy config) eqn:Hpol.
  - wp_steps. destruct (last (running s)) as [v|] eqn:Hl.
    2: { apply last_None in Hl. rewrite Hl in Hin. by apply elem_of_nil in Hin. }
    eapply wp_from_option; [done|]. wp_steps. simpl. split.
    + split; [by apply last_Some_elem_of|]. right. by rewrite Hpol.
    + unfold set_running. by rewrite (remove_first_last v) by (by try apply (running_nodup _ _ Hs)).
  - wp_steps. destruct (running_objects_nonempty s id Hs Hin) as [r Hr]. eapply wp_from_option; [done|].
    apply max_by_key_in in Hr. destruct (running_objects_in s r Hs Hr) as (Hv & j & Hj & _). wp_steps.
    case_bool_decide as Hsch.
    + destruct Hst as [T1 T2 T3 T4 T5 T6 T7 T8 T9 T10]. apply Hsub in Hsch as Hids.
      destruct (od_get_some (request_id r) (num_scheduled_tokens st)) as [n Hn]; [by rewrite T1|].
      destruct (od_get_some (request_id r) (req_to_new_blocks st)) as [b Hb]; [by rewrite T2|].
      pose proof (unschedule_run st _ n b Hn Hb) as Hu. apply wp_bind. eapply wp_of_outcome; [exact Hu|]. wp_steps.
      split; [|done]. split; [done|]. left. split_and!; [done|done|exact Hu].
    + wp_steps. split; [|done]. split; [done|]. right. by rewrite Hpol.
Qed.

(** ** The allocation loop *)

Lemma remove_first_filter (v : string) l : NoDup l → list_remove_first v l = filter (.≠ v) l.
Proof.
  intros Hnd. rewrite list_remove_first_nodup by done. apply list_filter_iff. intros x.
  by rewrite list_elem_of_singleton.
Qed.

(** The position of the loop: decisions lie before it. *)
Record at_index s st (id : string) : Prop := {
  ai_nonneg : 0 ≤ req_index st;
  ai_before : ∀ x, x ∈ scheduled_running_reqs st → x ∈ take (Z.to_nat (req_index st)) (running s);
  ai_fcfs : policy config = FCFS → running s !! Z.to_nat (req_index st) = Some id;
  ai_here : id ∈ take (S (Z.to_nat (req_index st))) (running s)
}.

(** How many running requests are still to be looked at. *)
Definition remaining s st : Z := Z.of_nat (length (running s)) - req_index st.

Lemma same_memo_trans r1 r2 r3 :
  same_request_but_memo r1 r2 → same_request_but_memo r2 r3 → same_request_but_memo r1 r3.
Proof. intros [c ->] [c' ->]. by exists c'. Qed.

Lemma same_memo_refl r : same_request_but_memo r r.
Proof. exists (embeds_hash_cache r). by destruct r. Qed.

(** A call for the current request. *)
Lemma at_index_called s s' st id j :
  called config id j s s' → at_index s st id → at_index s' st id.
Proof. intros [C1 C2 C3 C4 C5 C6 C7 C8] [A1 A2 A3 A4]. split; rewrite ?C2; done. Qed.

Lemma take_lookup_last (v x : string) n l :
  NoDup l → last l = Some v → l !! n = Some x → v ≠ x → v ∉ take n l ∧ take (length l - 1) l !! n = Some x.
Proof.
  intros Hnd Hl Hx Hne. destruct l as [|y l _] using rev_ind; [done|]. rewrite last_snoc in Hl. injection Hl as ->.
  rewrite length_app. simpl. replace (length l + 1 - 1)%nat with (length l) by lia.
  assert (n < length l)%nat as Hlt.
  { apply lookup_lt_Some in Hx as Hb. rewrite length_app in Hb. simpl in Hb.
    destruct (decide (n = length l)) as [->|]; [|lia]. rewrite list_lookup_middle in Hx by done. congruence. }
  apply NoDup_app in Hnd as (_ & Hd & _). rewrite take_app_length. rewrite lookup_app_l in Hx by done. split; [|done].
  rewrite take_app_le by lia. intros Hin. apply (Hd v); [|by apply list_elem_of_singleton].
  eapply elem_of_sublist; [done|apply sublist_take].
Qed.

(** The position after a preemption. *)
Lemma at_index_victim budget s s' st v st' id j :
  inv s → step_inv budget (scheduled_running_reqs st) s st → at_index s st id → chosen s st v st' → v ≠ id →
  dropped config v j s s' →
  at_index s' (note_preempted v st') id ∧ remaining s' (note_preempted v st') ≤ remaining s st.
Proof.
  intros Hs Hst [A1 A2 A3 A4] [Hv Hch] Hne [D1 D2 D3 D4 D5 D6 D7 D8].
  pose proof (running_nodup _ s Hs) as Hnd. pose proof (length_remove_first v (running s) Hv) as Hlen.
  destruct Hch as [(Hsch & Hpol & Hu)|(-> & Hpri & Hfcfs)].
  - assert (req_index st' = req_index st - 1 ∧ scheduled_running_reqs st' = list_remove_first v (scheduled_running_reqs st))
      as [Hi Hr]. { unfold unschedule in Hu. destruct (od_get v (num_scheduled_tokens st)); [|done].
      destruct (od_get v (req_to_new_blocks st)); [|done]. injection Hu as <-. done. }
    pose proof (A2 v Hsch) as Hpos.
    assert (0 < req_index st) as Hgt. { destruct (decide (req_index st = 0)) as [H0|]; [|lia].
      rewrite H0 in Hpos. by apply elem_of_nil in Hpos. }
    split; [split|].
    + simpl. lia.
    + simpl. rewrite Hr, Hi, D2. intros x Hx. destruct Hst as [_ _ T3 _ _ _ _ _ _ _].
      assert (x ≠ v) as Hxv by (intros ->; by apply (remove_first_gone v (scheduled_running_reqs st))).
      pose proof (take_remove_first v x _ _ Hnd Hv Hxv (A2 x (remove_first_subset _ _ _ Hx))) as Ht.
      rewrite decide_True in Ht by done. by replace (Z.to_nat (req_index st - 1)) with (Z.to_nat (req_index st) - 1)%nat by lia.
    + rewrite Hpol. done.
    + simpl. rewrite Hi, D2. pose proof (take_remove_first v id _ _ Hnd Hv (not_eq_sym Hne) A4) as Ht.
      rewrite decide_True in Ht.
      * replace (S (Z.to_nat (req_index st - 1))) with (S (Z.to_nat (req_index st)) - 1)%nat by lia. done.
      * apply elem_of_take in Hpos as (i & Hi' & Hlt). apply elem_of_take. exists i. split; [done|lia].
    + unfold remaining. simpl. rewrite Hi, D2. lia.
  - split; [split|].
    + done.
    + simpl. rewrite D2. intros x Hx. assert (v ∉ scheduled_running_reqs st) as Hno.
      { destruct (policy config) eqn:Hpol; [|auto]. intros Hin%A2.
        by apply (take_lookup_last v id _ _ Hnd (Hfcfs eq_refl) (A3 eq_refl) Hne) in Hin. }
      assert (x ≠ v) as Hxv by (intros ->; done).
      apply take_removed; auto.
    + simpl. rewrite D2. intros Hpol. rewrite <-(remove_first_last v) by auto.
      by apply (take_lookup_last v id _ _ Hnd (Hfcfs Hpol) (A3 Hpol) Hne).
    + simpl. rewrite D2. by apply take_removed.
    + unfold remaining. simpl. rewrite D2. lia.
Qed.

(** What the loops leave alone. *)
Definition kept s s' : Prop :=
  prev_step_scheduled_req_ids s' = prev_step_scheduled_req_ids s ∧ pause_state s' = pause_state s ∧
  finished_req_ids s' = finished_req_ids s ∧ (fresh config s → fresh config s').

Lemma kept_trans s1 s2 s3 : kept s1 s2 → kept s2 s3 → kept s1 s3.
Proof. intros (?&?&?&?) (?&?&?&?). unfold kept. split_and!; try congruence. auto. Qed.

Lemma kept_called id j s s' : requests s !! id = Some j → called config id j s s' → kept s s'.
Proof.
  intros Hj [(r & _ & Hreq) _ _ _ H1 H2 H3 H4]. split_and!; try done. intros Hf. by eapply fresh_insert.
Qed.

Lemma kept_dropped id j s s' : requests s !! id = Some j → dropped config id j s s' → kept s s'.
Proof. intros Hj [Hreq _ _ _ H1 H2 H3 H4]. split_and!; try done. intros Hf. by eapply fresh_insert. Qed.

(** Writes to a known request object. *)
Lemma kept_alter f id j s : requests s !! id = Some j → kept s (set_requests (alter f id) s).
Proof.
  intros Hj. split_and!; try done. intros Hf. eapply (fresh_insert config s _ id j); [done|done|by apply alter_known|].
  apply spares_refl.
Qed.

(** ** Where the requests of a step have gone *)

(** What no part of a step changes of a request. *)
Definition carried (j j' : Job) : Prop :=
  all_token_ids (req j') = all_token_ids (req j) ∧ num_output_placeholders (req j') = num_output_placeholders (req j) ∧
  discard_latest_async_tokens j' = discard_latest_async_tokens j.

(** A request keeps its place, or goes from the running list to the waiting queue, or comes
    from a queue into the running list. *)
Definition fate (came gone : bool) (waiting_ids : list string) (id : string) (j j' : Job) : Prop :=
  carried j j' ∧
  ((status (req j') = RUNNING ↔ status (req j) = RUNNING) ∧ num_computed_tokens (req j') = num_computed_tokens (req j) ∨
   gone = true ∧ status (req j) = RUNNING ∧ status (req j') ≠ RUNNING ∧ id ∈ waiting_ids ∨
   came = true ∧ status (req j) ≠ RUNNING ∧ status (req j') = RUNNING ∧ 0 ≤ num_computed_tokens (req j') < num_tokens (req j')).
Definition waiting_ids s : list string := request_id <$> contents (waiting s).
Record moved (came gone : bool) s s' : Prop := {
  mv_each : ∀ id j', requests s' !! id = Some j' → ∃ j, requests s !! id = Some j ∧ fate came gone (waiting_ids s') id j j';
  mv_waiting : came = false → ∀ x, x ∈ waiting_ids s → x ∈ waiting_ids s'
}.

Lemma carried_trans j1 j2 j3 : carried j1 j2 → carried j2 j3 → carried j1 j3.
Proof. intros (?&?&?) (?&?&?). unfold carried. split_and!; congruence. Qed.

Lemma carried_tokens j j' : carried j j' → num_tokens (req j') = num_tokens (req j).
Proof. intros (Ha & _). unfold num_tokens. by rewrite Ha. Qed.

Lemma fate_same came gone ws id j : fate came gone ws id j j.
Proof. split; [done|]. by left. Qed.

Lemma moved_refl came gone s : moved came gone s s.
Proof. split; [|done]. intros id j Hj. exists j. split; [done|apply fate_same]. Qed.

(** One request object changes. *)
Lemma moved_one came gone s s' id j j' :
  requests s !! id = Some j → requests s' = <[id := j']> (requests s) → fate came gone (waiting_ids s') id j j' →
  (came = false → ∀ x, x ∈ waiting_ids s → x ∈ waiting_ids s') → moved came gone s s'.
Proof.
  intros Hj Hreq Hf Hw. split; [|done]. intros x jx. rewrite Hreq. destruct (decide (id = x)) as [<-|Hne].
  - rewrite lookup_insert_eq. intros [= <-]. by exists j.
  - rewrite lookup_insert_ne by done. intros Hx. exists jx. split; [done|apply fate_same].
Qed.

Lemma moved_called came gone id j s s' : requests s !! id = Some j → called config id j s s' → moved came gone s s'.
Proof.
  intros Hj [(r & [c ->] & Hreq) _ Hw _ _ _ _ _]. eapply moved_one; [done|done| |unfold waiting_ids; by rewrite Hw].
  split; [done|by left].
Qed.

Lemma moved_dropped id j s s' : status (req j) = RUNNING → requests s !! id = Some j → request_id (req j) = id →
  dropped config id j s s' → moved false true s s'.
Proof.
  intros Hst Hj Hid [Hreq _ Hw _ _ _ _ _]. assert (waiting_ids s' ≡ₚ id :: waiting_ids s) as Hp.
  { unfold waiting_ids. rewrite Hw. csimpl. by rewrite Hid. }
  eapply moved_one; [done|done| |intros _ x; rewrite Hp; by right]. split; [done|]. right. left. split_and!; try done. rewrite Hp. by left.
Qed.

Definition any_preempted st : bool := negb (bool_decide (preempted_reqs st = [])).

Lemma any_noted v st : any_preempted (note_preempted v st) = true.
Proof. unfold any_preempted. simpl. rewrite bool_decide_false; [done|]. by intros [_ ?]%app_nil. Qed.

Lemma moved_trans came gone s1 s2 s3 :
  came && gone = false → moved came gone s1 s2 → moved came gone s2 s3 → moved came gone s1 s3.
Proof.
  intros Hx [A1 A2] [B1 B2]. split; [|auto]. intros id j3 H3. destruct (B1 id j3 H3) as (j2 & H2 & C2 & F2).
  destruct (A1 id j2 H2) as (j1 & H1 & C1 & F1). exists j1. split; [done|]. split; [by eapply carried_trans|].
  pose proof (carried_tokens _ _ C2) as Ht.
  destruct F1 as [(E1 & N1)|[(G0 & G1 & G2 & G3)|(G0 & G1 & G2 & G3)]], F2 as [(E2 & N2)|[(I0 & I1 & I2 & I3)|(I0 & I1 & I2 & I3)]];
    try (exfalso; congruence).
  - left. split; [tauto|congruence].
  - right. left. tauto.
  - right. right. tauto.
  - right. left. split_and!; [done|done|tauto|]. apply B2; [by destruct came, gone|done].
  - rewrite G0, I0 in Hx. done.
  - right. right. split_and!; [done|done|tauto|lia..].
  - rewrite G0, I0 in Hx. done.
Qed.

Lemma moved_weaken came s s' : moved came false s s' → moved came true s s'.
Proof.
  intros [H1 H2]. split; [|done]. intros id j' Hj'. destruct (H1 id j' Hj') as (j & Hj & Hc & Hf). exists j. split; [done|].
  split; [done|]. destruct Hf as [?|[(? & _)|?]]; [by left|done|by right; right].
Qed.

Lemma moved_more (b b' : bool) s1 s2 s3 : implb b b' = true → moved false b s1 s2 → moved false b' s2 s3 → moved false b' s1 s3.
Proof.
  intros Hb H1 H2. eapply moved_trans; [done| |done]. destruct b, b'; try done. by apply moved_weaken.
Qed.

Definition memo_job_eq (j j' : Job) : Prop := ∃ r, same_request_but_memo (req j) r ∧ j' = on_req (λ _, r) j.

(** The invariants of the running loop between two turns. *)
Record loop_inv (budget : Z) s st : Prop := {
  lo_inv : inv s;
  lo_step : step_inv budget (scheduled_running_reqs st) s st;
  lo_index : 0 ≤ req_index st;
  lo_before : ∀ x, x ∈ scheduled_running_reqs st → x ∈ take (Z.to_nat (req_index st)) (running s)
}.

Definition alloc_post (budget : Z) (id : string) (j : Job) (n : Z) s st
    (o : option (option KVCacheBlocks * Step)) s' : Prop :=
  ∃ ob st', o = Some (ob, st') ∧ loop_inv budget s' st' ∧ token_budget st ≤ token_budget st' ∧
    remaining s' st' ≤ remaining s st ∧ kept s s' ∧ moved false (any_preempted st') s s' ∧
    implb (any_preempted st) (any_preempted st') = true ∧
    match ob with
    | Some _ => id ∈ running s' ∧ id ∉ scheduled_running_reqs st' ∧
        id ∈ take (S (Z.to_nat (req_index st'))) (running s') ∧
        ∃ j', requests s' !! id = Some j' ∧ memo_job_eq j j' ∧
          covered (kv_cache_manager s') id (Z.min (num_computed_tokens (req j) + n) (max_model_len config))
    | None => id ∉ running s'
    end.

Lemma called_job id j s s' : called config id j s s' → ∃ j', requests s' !! id = Some j' ∧ memo_job_eq j j'.
Proof.
  intros [(r & Hr & Hreq) _ _ _ _ _ _ _]. exists (on_req (λ _, r) j). rewrite Hreq, lookup_insert_eq.
  split; [done|]. by exists r.
Qed.

(** One preemption on behalf of another request, or of the request itself. *)
Lemma step_victim budget s s' st v st' j :
  inv s → step_inv budget (scheduled_running_reqs st) s st → chosen s st v st' → requests s !! v = Some j →
  (v ∈ scheduled_running_reqs st → policy config = PRIORITY) →
  dropped config v j s s' →
  step_inv budget (scheduled_running_reqs st') s' (note_preempted v st') ∧ token_budget st ≤ token_budget st' ∧
  ∀ x, x ∈ scheduled_running_reqs st' → x ∈ scheduled_running_reqs st.
Proof.
  intros Hs Hst [Hv Hch] Hj Hpri Hd. pose proof (running_nodup _ s Hs) as Hnd.
  destruct Hch as [(Hsch & Hpol & Hu)|(-> & Hn & _)].
  - destruct (step_unscheduled budget _ s s' st v j Hst Hsch Hj Hd Hnd) as (st2 & Hu2 & H1 & H2 & H3 & H4).
    rewrite Hu in Hu2. injection Hu2 as <-. rewrite H3. split_and!; [|done|intros x; apply remove_first_subset].
    rewrite remove_first_filter; [done|apply Hst].
  - split_and!; [|done|done]. eapply step_dropped; [done..| |done]. intros Hin. by apply (Hn (Hpri Hin)).
Qed.

Lemma wp_allocate_loop budget fuel id n s st j E :
  inv s → step_inv budget (scheduled_running_reqs st) s st → at_index s st id → id ∈ running s →
  id ∉ scheduled_running_reqs st → requests s !! id = Some j → 0 < n → 0 ≤ num_lookahead_tokens config →
  (length (running s) < fuel)%nat →
  wp (allocate_loop config fuel id n st) (alloc_post budget id j n s st) E s.
Proof.
  revert s st j. induction fuel as [|fuel IH]; intros s st j Hs Hst Hat Hin Hno Hj Hn Hla Hfuel; [lia|]. simpl.
  apply wp_bind. eapply wp_call; [by apply (wp_grow (extra := []) config s id j)|]. intros o s1 (Hs1 & Hc & Hcov).
  destruct (called_job id j s s1 Hc) as (j1 & Hj1 & Hm). pose proof (step_called _ _ _ _ _ _ _ Hst Hj Hc Hno) as Hst1.
  pose proof (at_index_called _ _ _ _ _ Hc Hat) as Hat1. pose proof Hc as [_ Hr1 _ _ P1 P2 P3 _].
  assert (kept s s1) as Hk by by eapply kept_called.
  destruct o as [blocks|].
  { wp_steps. exists (Some blocks), st. split_and!; try done.
    - split; [done|done|apply Hat1|apply Hat1].
    - unfold remaining. by rewrite Hr1.
    - by eapply moved_called.
    - by destruct (any_preempted st).
    - rewrite Hr1. done.
    - apply Hat1.
    - exists j1. split_and!; [done|done|]. by apply Hcov. }
  rewrite <-Hr1 in Hin. apply wp_bind. eapply wp_call; [eapply (wp_choose_victim budget _ s1 st id); done|].
  intros [v st2] s2 [Hch ->]. simpl in Hch |- *. destruct (running_known _ s1 v Hs1 (proj1 Hch)) as [jv Hjv].
  apply wp_bind. eapply wp_call; [apply (wp_preempt (extra := []) config s1 v jv); [done|apply Hch|done]|].
  intros [] s3 [Hs3 Hd]. pose proof Hd as [_ Dr _ _ P4 P5 P6 _].
  assert (v ∈ scheduled_running_reqs st → policy config = PRIORITY) as Hpri.
  { destruct (policy config) eqn:Hpol; [|done]. intros Hv. exfalso. destruct Hat1 as [_ A2 A3 _].
    destruct (proj2 Hch) as [(_ & ? & _)|(_ & _ & Hl)]; [congruence|].
    assert (v ≠ id) as Hne by (intros ->; done).
    apply A2 in Hv. revert Hv. by apply (take_lookup_last v id _ _ (running_nodup _ _ Hs1) (Hl Hpol) (A3 Hpol) Hne). }
  destruct (step_victim budget s1 s3 st v st2 jv Hs1 Hst1 Hch Hjv Hpri Hd) as (Hst3 & Hb3 & Hsub).
  assert (kept s s3) as Hk3 by (eapply kept_trans; [done|by eapply kept_dropped]).
  assert (moved false true s s3) as Hmv.
  { eapply moved_trans; [done|by eapply (moved_called _ _ id)|]. eapply (moved_dropped v jv); [|done| |done].
    - apply (si_running _ _ Hs1 v jv (proj1 Hch) Hjv).
    - apply (si_jobs _ _ Hs1 v jv Hjv). }
  case_bool_decide as Hvid.
  - wp_steps. subst v. destruct (proj2 Hch) as [(? & _)|(-> & _)]; [done|].
    exists None, (note_preempted id st). destruct Hat1 as [A1 A2 _ _].
    split_and!; try done; [split; try done| | | |].
    + simpl. intros x Hx. rewrite Dr. apply take_removed; auto; [by apply (running_nodup _ _ Hs1)|by intros ->].
    + unfold remaining. simpl. rewrite Dr, <-Hr1, (length_remove_first id (running s1)) by done. lia.
    + by rewrite any_noted.
    + rewrite any_noted. by destruct (any_preempted st).
    + rewrite Dr. apply remove_first_gone, (running_nodup _ _ Hs1).
  - destruct (at_index_victim budget s1 s3 st v st2 id jv Hs1 Hst1 Hat1 Hch Hvid Hd) as [Hat3 Hrem].
    pose proof Hd as [Dreq _ _ _ _ _ _ _].
    assert (requests s3 !! id = Some j1) as Hj3 by (by rewrite Dreq, lookup_insert_ne).
    eapply wp_call; [apply (IH s3 (note_preempted v st2) j1); try done|].
    + rewrite Dr. by apply remove_first_other.
    + simpl. intros Hx%Hsub. done.
    + rewrite Dr. rewrite <-Hr1, (length_remove_first v (running s1)) in Hfuel by apply Hch. lia.
    + intros o s4 (ob & st4 & -> & H1 & H2 & H3 & H4 & M1 & M2 & H5). rewrite any_noted in M2. cbn [implb] in M2. rewrite M2 in M1. exists ob, st4.
      rewrite M2. split_and!; try done; [simpl in H2; lia| |by eapply kept_trans|by eapply moved_trans|by destruct (any_preempted st)|].
      * unfold remaining in *. rewrite Hr1 in *. lia.
      * destruct ob; [|done]. destruct H5 as (I1 & I2 & I6 & j4 & I3 & I4 & I5). split_and!; [done|done|done|].
        destruct Hm as (r1 & Hr & ->). destruct I4 as (r4 & Hr4 & ->). exists (on_req (λ _, r4) j).
        split_and!; [done| |]. { exists r4. split; [by eapply same_memo_trans|done]. }
        destruct Hr as [c ->]. done.
Qed.

(** ** The running loop *)

Lemma new_tokens_bounds r budget :
  settled r → 0 < budget →
  0 ≤ running_new_tokens config r budget ≤ budget ∧
  num_computed_tokens r + running_new_tokens config r budget ≤ max_model_len config - 1 ∧
  num_computed_tokens r + running_new_tokens config r budget ≤ num_tokens_with_spec r + num_output_placeholders r.
Proof.
  intros [H1 H2] Hb. unfold running_new_tokens.
  assert (num_tokens r ≤ num_tokens_with_spec r) by (unfold num_tokens, num_tokens_with_spec; lia).
  destruct (Z.ltb_spec 0 (long_prefill_token_threshold config));
    destruct (Z.ltb_spec (long_prefill_token_threshold config)
      (num_tokens_with_spec r + num_output_placeholders r - num_computed_tokens r)); simpl; lia.
Qed.

(** The drafts that are scheduled with [n] tokens. *)
Lemma scheduled_drafts k id r n :
  0 < n → covered k id (num_computed_tokens r + n) → num_computed_tokens r + n ≤ max_model_len config - 1 →
  num_computed_tokens r + n ≤ num_tokens_with_spec r + num_output_placeholders r →
  decided k id r n (match spec_token_ids r, scheduled_spec r n with _ :: _, Some ts => Some ts | _, _ => None end).
Proof.
  intros Hn Hc Hm Hs. unfold num_tokens_with_spec in Hs. fold (num_tokens r) in Hs. unfold scheduled_spec.
  destruct (Z.ltb_spec 0 (n + num_computed_tokens r - num_tokens r - num_output_placeholders r)) as [Hpos|Hpos].
  - destruct (spec_token_ids r) as [|t ts] eqn:Hsp; [simpl in Hs; lia|]. split; try done; [lia|]. split.
    + destruct (Z.to_nat _) eqn:Hz; [lia|done].
    + rewrite length_take. lia.
  - split; try done; [lia|]. destruct (spec_token_ids r); lia.
Qed.

Lemma cleared_job id j : job_ok config id j → job_ok config id (on_req (set_spec []) j).
Proof. intros [H1 H2 H3 H4 H5]. split; try done. simpl. by eapply req_ok_view; [..|exact H2]. Qed.

(** Clearing the drafts of a running request. *)
Lemma inv_clear s id j :
  inv s → id ∈ running s → requests s !! id = Some j → inv (set_requests (alter (on_req (set_spec [])) id) s).
Proof.
  intros Hs Hin Hj. destruct (si_running _ _ Hs id j Hin Hj) as [R1 R2 R3].
  eapply (inv_move config s _ id j (on_req (set_spec []) j)); try done; simpl; sched_parts.
  - by apply alter_known.
  - by apply cleared_job, (si_jobs _ _ Hs).
  - intros e He Heq. exfalso. apply (running_not_queued _ s id Hs Hin). rewrite <-Heq. by apply list_elem_of_fmap_2.
Qed.

Lemma loop_schedule budget s st id j n blocks :
  loop_inv budget s st → id ∈ running s → id ∉ scheduled_running_reqs st →
  id ∈ take (S (Z.to_nat (req_index st))) (running s) → requests s !! id = Some j →
  0 < n ≤ token_budget st → covered (kv_cache_manager s) id (num_computed_tokens (req j) + n) →
  num_computed_tokens (req j) + n ≤ max_model_len config - 1 →
  num_computed_tokens (req j) + n ≤ num_tokens_with_spec (req j) + num_output_placeholders (req j) →
  loop_inv budget (set_requests (alter (on_req (set_spec [])) id) s) (schedule_running id (req j) n blocks st).
Proof.
  intros [Hs [T1 T2 T3 T4 T5 T6 T7 T8 T9 T10] Hi Hb] Hin Hno Hhere Hj Hn Hc Hm Hd.
  assert (requests (set_requests (alter (on_req (set_spec [])) id) s) = <[id := on_req (set_spec []) j]> (requests s))
    as Hreq by by apply alter_known.
  assert (od_get id (scheduled_spec_decode_tokens st) = None) as Hnone by (apply od_get_None; intros ?%T7; done).
  split; [by eapply inv_clear|split| |]; simpl.
  - rewrite od_set_new by (by rewrite T1). by rewrite fmap_app, T1.
  - rewrite od_set_new by (by rewrite T2). by rewrite fmap_app, T2.
  - apply NoDup_app. split_and!; [done| |apply NoDup_singleton]. by intros x Hx ->%list_elem_of_singleton.
  - rewrite sum_set_new by (by rewrite T1). lia.
  - lia.
  - intros x m. rewrite od_get_set. destruct (decide (id = x)) as [<-|Hne].
    + intros [= <-]. split; [done|]. exists (on_req (set_spec []) j). simpl in Hreq. rewrite Hreq, lookup_insert_eq. split; [done|].
      pose proof (scheduled_drafts _ id (req j) n ltac:(lia) Hc Hm Hd) as [E1 E2 E3 E4].
      split; simpl; try done. destruct (spec_token_ids (req j)) as [|t ts]; [by rewrite Hnone|].
      destruct (scheduled_spec (req j) n) as [ds|]; [by rewrite od_get_set, decide_True|by rewrite Hnone].
    + intros Hg. destruct (T6 x m Hg) as (Hx & jx & Hjx & Hdx). split; [done|]. exists jx. simpl in Hreq. rewrite Hreq, lookup_insert_ne by done.
      split; [done|]. destruct (spec_token_ids (req j)) as [|t ts]; [done|].
      destruct (scheduled_spec (req j) n) as [ds|]; [|done]. by rewrite od_get_set, decide_False.
  - intros x Hx. rewrite elem_of_app, list_elem_of_singleton. destruct (spec_token_ids (req j)) as [|t ts]; [auto|].
    destruct (scheduled_spec (req j) n) as [ds|]; [|auto]. rewrite od_set_new in Hx by by apply od_get_None.
    rewrite fmap_app, elem_of_app in Hx. destruct Hx as [Hx|Hx]; [auto|]. right. by apply list_elem_of_singleton in Hx.
  - done.
  - intros x jx Hx. rewrite not_elem_of_app, list_elem_of_singleton. intros [Hx1 Hx2]. simpl in Hreq.
    rewrite Hreq, lookup_insert_ne by done. by apply T9.
  - intros Hp x jx. simpl in Hreq |- *. rewrite Hreq. destruct (decide (id = x)) as [<-|Hne].
    + rewrite lookup_insert_eq. intros [= <-]. by apply (T10 Hp id j).
    + rewrite lookup_insert_ne by done. by apply (T10 Hp x jx).
  - lia.
  - intros x [Hx| ->%list_elem_of_singleton]%elem_of_app; replace (Z.to_nat (req_index st + 1)) with (S (Z.to_nat (req_index st))) by lia; [|done].
    apply Hb in Hx. apply elem_of_take in Hx as (i & Hi' & Hlt). apply elem_of_take. exists i. split; [done|lia].
Qed.

Lemma loop_advance budget s st : loop_inv budget s st → loop_inv budget s (advance st).
Proof.
  intros [Hs [T1 T2 T3 T4 T5 T6 T7 T8 T9 T10] Hi Hb]. split; [done|by split|simpl; lia|]. simpl. intros x Hx%Hb.
  apply elem_of_take in Hx as (i & Hi' & Hlt). apply elem_of_take. exists i. split; [done|lia].
Qed.

Definition loop_post (budget : Z) (st0 : Step) s (o : option Step) s' : Prop :=
  ∃ st, o = Some st ∧ implb (any_preempted st0) (any_preempted st) = true ∧ inv s' ∧ step_inv budget (scheduled_running_reqs st) s' st ∧ kept s s' ∧ moved false (any_preempted st) s s'.

Lemma loop_stop budget s st : loop_inv budget s st → loop_post budget st s (Some st) s.
Proof. intros [? ? _ _]. exists st. split_and!; try done; [by destruct (any_preempted st)|apply moved_refl]. Qed.

Lemma moved_clear came gone s id j : requests s !! id = Some j → moved came gone s (set_requests (alter (on_req (set_spec [])) id) s).
Proof. intros Hj. eapply moved_one; [done|by apply alter_known| |done]. split; [done|by left]. Qed.

(** The requests that are scheduled go on; a turn without a decision goes to the next one. *)
Lemma wp_running_loop budget fuel s st E :
  loop_inv budget s st → 0 ≤ num_lookahead_tokens config → remaining s st < Z.of_nat fuel → (0 < fuel)%nat →
  wp (running_loop config fuel st) (loop_post budget st s) E s.
Proof.
  intros Hl Hla. revert s st Hl. induction fuel as [|fuel IH]; intros s st Hl Hf H0; [lia|]. cbn [running_loop]. wp_steps.
  destruct (Z.ltb_spec (req_index st) (Z.of_nat (length (running s)))) as [Hidx|Hidx]; cbn [andb];
    [|wp_steps; by apply loop_stop].
  destruct (Z.ltb_spec 0 (token_budget st)) as [Hbud|Hbud]; [|wp_steps; by apply loop_stop].
  pose proof Hl as [Hs Hst Hi Hb]. unfold remaining in Hf.
  destruct (lookup_lt_is_Some_2 (running s) (Z.to_nat (req_index st))) as [id Hid]; [lia|].
  assert (py_get (running s) (req_index st) = Some id) as Hget.
  { unfold py_get. by rewrite decide_True. }
  apply wp_bind. eapply wp_from_option; [exact Hget|]. assert (id ∈ running s) as Hin by by eapply list_elem_of_lookup_2.
  destruct (running_known _ s id Hs Hin) as [j Hj]. apply wp_bind, (wp_get_job s id j); [done|].
  assert (id ∉ scheduled_running_reqs st) as Hno.
  { intros Hx%Hb. apply elem_of_take in Hx as (i & Hi' & Hlt). pose proof (running_nodup _ s Hs) as Hnd.
    pose proof (NoDup_lookup _ _ _ _ Hnd Hi' Hid). lia. }
  pose proof (st_settled _ _ _ _ Hst id j Hin Hno Hj) as Hset.
  destruct (new_tokens_bounds (req j) (token_budget st) Hset Hbud) as (N1 & N2 & N3).
  set (n := running_new_tokens config (req j) (token_budget st)) in *.
  destruct (surely_finished (req j) || (n =? 0)) eqn:Hskip.
  { apply (IH s (advance st)); [by apply loop_advance|unfold remaining; simpl; lia|lia]. }
  apply orb_false_iff in Hskip as [_ Hn0]. apply Z.eqb_neq in Hn0. apply wp_bind.
  eapply wp_call; [apply (wp_allocate_loop budget _ id n s st j); try done; [split; try done| |lia..]|].
  { apply elem_of_take. exists (Z.to_nat (req_index st)). split; [done|lia]. }
  { lia. }
  intros o s1 (ob & st1 & -> & Hl1 & Hb1 & Hr1 & Hk1 & Hm1 & Hp1 & Hob). destruct ob as [blocks|].
  2: { wp_steps. exists st1. by destruct Hl1. }
  destruct Hob as (I1 & I2 & I3 & j1 & Hj1 & (r & [c Hr] & Hmj) & Hcov). subst r j1.
  apply wp_bind, (wp_get_job s1 id _ _ _ Hj1). apply wp_bind, wp_upd_job. simpl req.
  eapply wp_call; [eapply IH|].
  - apply (loop_schedule budget s1 st1 id _ n blocks Hl1 I1 I2 I3 Hj1); simpl; try lia; [|done].
    rewrite Z.min_l in Hcov by lia. done.
  - unfold remaining in *. simpl. lia.
  - lia.
  - intros o s2 (st2 & -> & J0 & J1 & J2 & J3 & J4). exists st2. change (any_preempted (schedule_running _ _ _ _ _)) with (any_preempted st1) in J0.
    split_and!; [done| |done|done| |].
    + destruct (any_preempted st), (any_preempted st1); done.
    + eapply kept_trans; [exact Hk1|]. eapply kept_trans; [by eapply kept_alter|exact J3].
    + eapply (moved_more _ _ _ _ _ J0 Hm1). eapply moved_trans; [by destruct (any_preempted st2)|by eapply (moved_clear _ _ s1 id)|done].
Qed.
End step.
