(* ===== verification/SchedulerWait.v ===== *)
(** The loop over the waiting requests: the queue it picks from is never empty, a blocked
    request is set aside, a request that fits moves to the running list with slots for its
    tokens, and every turn takes a request out of the queues. *)
From S2P Require Import Prelude.
From S2P Require Import Dict.
From S2P Require Import Request.
From S2P Require Import StopCheck.
From S2P Require Import RequestQueue.
From S2P Require Import KVCacheManager.
From S2P Require Import Scheduler.
From S2P Require Import SchedulerInv.
From S2P Require Import SchedulerStep.
Local Open Scope Z_scope.

Section wait.
Context {Q : Type} `{HQ : RequestQueueLaws Q} {K : Type} `{!KVCache K}.
Context (config : SchedulerConfig) `{!KVCachePromise K (max_model_len config)}.
Abbreviation SC := (Scheduler (Q := Q) (K := K)).
Implicit Types s : SC.

(** ** The queue to pick from *)

Definition chosen_of (c : chosen_queue) s : Q :=
  match c with ChooseWaiting => waiting s | ChooseSkipped => skipped_waiting s end.
Definition set_chosen (c : chosen_queue) (q : Q) s : SC :=
  match c with
  | ChooseWaiting => mkScheduler (requests s) q (skipped_waiting s) (running s) (finished_req_ids s)
      (prev_step_scheduled_req_ids s) (pause_state s) (kv_cache_manager s)
  | ChooseSkipped => mkScheduler (requests s) (waiting s) q (running s) (finished_req_ids s)
      (prev_step_scheduled_req_ids s) (pause_state s) (kv_cache_manager s)
  end.

Lemma wp_on_chosen {A} c (m : M Q A) s Post E :
  wp m (λ a q, Post a (set_chosen c q s)) (λ e q, E e (set_chosen c q s)) (chosen_of c s) →
  wp (on_chosen c m) Post E s.
Proof. destruct c; apply wp_zoom. Qed.

Lemma set_chosen_same c s : set_chosen c (chosen_of c s) s = s.
Proof. by destruct c, s. Qed.

(** The front of a queue that is not empty. *)
Definition front (q : Q) (e : Request) : Prop := ∃ xs, queue_iter q = Ret (e :: xs).

Lemma front_in q e : queue_inv q → front q e → e ∈ contents q.
Proof.
  intros Hq [xs Hx]. destruct (law_iter q Hq) as (ys & Hy & Hp). rewrite Hx in Hy. injection Hy as <-.
  rewrite <-Hp. by left.
Qed.

Lemma wp_peek c s Post E :
  queue_inv (chosen_of c s) → contents (chosen_of c s) ≠ [] →
  (∀ e, front (chosen_of c s) e → Post e s) → wp (on_chosen c peek_request) Post E s.
Proof.
  intros Hq Hne HP. apply wp_on_chosen. eapply wp_mono; [by apply law_peek| |by intros e q (_ & _ & ?)].
  intros e q [-> Hf]. rewrite set_chosen_same. by apply HP.
Qed.

Lemma wp_pop c s e Post E :
  queue_inv (chosen_of c s) → front (chosen_of c s) e →
  (∀ q, queue_inv q → contents (chosen_of c s) ≡ₚ e :: contents q → Post e (set_chosen c q s)) →
  wp (on_chosen c pop_request) Post E s.
Proof.
  intros Hq [xs Hx] HP. apply wp_on_chosen. eapply wp_mono; [by apply law_pop| |].
  - intros r q (Hq' & Hc & ys & Hy & _). rewrite Hx in Hy. injection Hy as <- <-. by apply HP.
  - intros e' q (_ & _ & Hn). destruct (law_iter _ Hq) as (ys & Hy & Hp). rewrite Hx in Hy. injection Hy as <-.
    rewrite Hn in Hp. symmetry in Hp. by apply Permutation_nil_cons in Hp.
Qed.

Lemma wp_select s Post E :
  queue_inv (waiting s) → queue_inv (skipped_waiting s) →
  queue_bool (waiting s) || queue_bool (skipped_waiting s) = true →
  (∀ c, contents (chosen_of c s) ≠ [] → Post (Some c) s) → wp (select_waiting_queue config) Post E s.
Proof.
  intros Hw Hk Hany HP. unfold select_waiting_queue. wp_steps. unfold id.
  assert (∀ q : Q, queue_bool q = true → contents q ≠ []) as Hb by (intros q; rewrite law_bool; apply bool_decide_eq_true).
  destruct (policy config).
  - wp_steps. destruct (queue_bool (skipped_waiting s)) eqn:Bk; [apply HP; by apply Hb|].
    rewrite orb_false_r in Hany. rewrite Hany. apply HP. by apply Hb.
  - destruct (queue_bool (waiting s)) eqn:Bw, (queue_bool (skipped_waiting s)) eqn:Bk; simpl; try done;
      try (wp_steps; apply HP; by apply Hb).
    apply wp_bind, (wp_peek ChooseWaiting); [done|by apply Hb|]. intros a _.
    apply wp_bind, (wp_peek ChooseSkipped); [done|by apply Hb|]. intros b _. wp_steps.
    destruct (request_lt a b); apply HP; by apply Hb.
Qed.

(** ** Blocked requests *)

Lemma promoted_job id j : job_ok config id j → job_ok config id (on_req (set_status WAITING) j).
Proof. intros [H1 H2 H3 H4 H5]. split; try done. simpl. by eapply req_ok_view; [..|exact H2]. Qed.

(** What a step has decided does not depend on the queued requests. *)
Lemma step_ext budget ids s s' st :
  step_inv config budget ids s st → running s' = running s →
  (∀ id, id ∈ running s → requests s' !! id = requests s !! id) →
  kv_cache_manager s' = kv_cache_manager s → (prev_ok s → prev_ok s') → step_inv config budget ids s' st.
Proof.
  intros [T1 T2 T3 T4 T5 T6 T7 T8 T9 T10] Hr Hreq Hk Hp. split; try done; rewrite ?Hr, ?Hk; try done.
  - intros id n Hg. destruct (T6 id n Hg) as (Hin & j & Hj & Hd). split; [done|]. exists j. by rewrite Hreq.
  - intros id j Hin. rewrite Hreq by done. by apply T9.
  - intros He. apply Hp, T10, He.
Qed.

Lemma inv_requeue x y s s' :
  sched_inv (extra := x) config s → queue_inv (waiting s') → queue_inv (skipped_waiting s') →
  queued (extra := y) s' ≡ₚ queued (extra := x) s →
  requests s' = requests s → running s' = running s → kv_cache_manager s' = kv_cache_manager s →
  sched_inv (extra := y) config s'.
Proof.
  intros [I1 I2 I3 I4 I5 I6 I7 I8 I9 I10] Hw Hk Hq Hreq Hrun Hkv.
  assert (all_ids (extra := y) s' ≡ₚ all_ids (extra := x) s) as Hall by (unfold all_ids; by rewrite Hq, Hrun).
  split; try done; rewrite ?Hreq, ?Hrun, ?Hkv; try done.
  - by rewrite Hall.
  - intros id. by rewrite Hall.
  - intros e. rewrite Hq. apply I9.
Qed.

Lemma wp_try_promote x budget ids s st id j e E :
  sched_inv (extra := x) config s → step_inv config budget ids s st → e ∈ queued (extra := x) s →
  request_id e = id → requests s !! id = Some j → is_blocked_waiting_status (status (req j)) = true →
  wp (try_promote id) (λ ok s', sched_inv (extra := x) config s' ∧ step_inv config budget ids s' st ∧ (kept config s s' ∧ moved true false s s') ∧
    running s' = running s ∧ waiting s' = waiting s ∧ skipped_waiting s' = skipped_waiting s ∧
    (ok = true → ∀ j', requests s' !! id = Some j' → is_blocked_waiting_status (status (req j')) = false)) E s.
Proof.
  intros Hs Hst He Hid Hj Hb. unfold try_promote. apply wp_bind, (wp_get_job s id j); [done|].
  destruct (status (req j)) eqn:Hstat; try done; try (wp_steps; split_and!; try done; apply moved_refl).
  destruct (use_structured_output j && grammar_ready j); [|wp_steps; split_and!; try done; apply moved_refl].
  apply wp_bind, wp_upd_job. wp_steps.
  assert (id ∉ running s) as Hno.
  { intros Hin. apply (running_not_queued _ s id Hs Hin). rewrite <-Hid. by apply list_elem_of_fmap_2. }
  pose proof (alter_known (on_req (set_status WAITING)) id j (requests s) Hj) as Hreq.
  split_and!; try done.
  - eapply (inv_move config s _ id j (on_req (set_status WAITING) j)); try done; simpl; sched_parts.
    + by apply promoted_job, (si_jobs _ _ Hs).
    + intros e' He' Heq. destruct (si_queued _ _ Hs e' He') as (j' & Hj' & Hkey & [Q1 Q2 Q3]).
      rewrite Heq, Hj in Hj'. injection Hj' as <-. split; [done|]. split; try done.
  - eapply step_ext; try done; simpl.
    + intros y Hy. rewrite Hreq, lookup_insert_ne; [done|]. by intros <-.
    + intros Hp y jy. simpl. rewrite Hreq. destruct (decide (id = y)) as [<-|Hne].
      * rewrite lookup_insert_eq. by intros [= <-].
      * rewrite lookup_insert_ne by done. by apply Hp.
  - by apply (kept_alter config _ id j s).
  - eapply moved_one; [done|by apply alter_known| |done]. split; [done|]. left. simpl. by rewrite Hstat.
  - intros _ j'. simpl. rewrite Hreq, lookup_insert_eq. by intros [= <-].
Qed.

(** ** Between two turns *)

Record wait_inv (budget : Z) s (w : WaitStep) : Prop := {
  wi_inv : sched_inv (extra := contents (step_skipped_waiting w)) config s;
  wi_queue : queue_inv (step_skipped_waiting w);
  wi_step : ∃ adm, adm ≡ₚ scheduled_new_reqs w ++ scheduled_resumed_reqs w ∧
    step_inv config budget (scheduled_running_reqs (step w) ++ adm) s (step w);
  wi_resumed : ∀ id, id ∈ scheduled_resumed_reqs w → id ∉ prev_step_scheduled_req_ids s;
  wi_preempted : preempted_reqs (step w) = []
}.

(** How many requests the loop may still take. *)
Definition to_take s : nat := (length (contents (waiting s)) + length (contents (skipped_waiting s)))%nat.

Lemma to_take_pop c q e s :
  contents (chosen_of c s) ≡ₚ e :: contents q → to_take s = S (to_take (set_chosen c q s)).
Proof. intros Hp. unfold to_take. destruct c; simpl in *; rewrite Hp; simpl; lia. Qed.

Lemma queued_pop x c q e s :
  contents (chosen_of c s) ≡ₚ e :: contents q → queued (extra := x) s ≡ₚ e :: queued (extra := x) (set_chosen c q s).
Proof.
  intros Hp. unfold queued. destruct c; simpl in *; rewrite Hp; simpl; [done|]. by rewrite <-Permutation_middle.
Qed.

(** A blocked request is set aside. *)
Lemma wait_set_aside budget s w c q e q' :
  wait_inv budget s w → queue_inv q → contents (chosen_of c s) ≡ₚ e :: contents q →
  queue_inv q' → contents q' ≡ₚ e :: contents (step_skipped_waiting w) →
  wait_inv budget (set_chosen c q s)
    (mkWaitStep (step w) (scheduled_new_reqs w) (scheduled_resumed_reqs w) q').
Proof.
  intros [W1 W2 (adm & Ha & W3) W4 W5] Hq Hc Hq' Hc'. split; simpl; try done.
  - eapply inv_requeue; [exact W1|..]; try (destruct c; simpl; first [done|apply W1]).
    rewrite (queued_pop _ c q e s Hc). unfold queued. rewrite Hc'. by rewrite !app_assoc, <-Permutation_middle.
  - exists adm. split; [done|]. eapply step_ext; [exact W3|by destruct c..].
  - intros id Hid. destruct c; simpl; by apply W4.
Qed.

(** ** Admission *)

(** The request object of an admitted request. *)
Definition admitted (h : Z) (r : Request) : Request :=
  let r' := set_computed h (set_status RUNNING r) in
  if Request.num_cached_tokens r <? 0 then set_cached (Z.min h (num_prompt_tokens r)) r' else r'.

Lemma admitted_fields h r :
  request_id (admitted h r) = request_id r ∧ obj_id (admitted h r) = obj_id r ∧
  num_tokens (admitted h r) = num_tokens r ∧ status (admitted h r) = RUNNING ∧
  num_computed_tokens (admitted h r) = h ∧ num_output_placeholders (admitted h r) = num_output_placeholders r ∧
  (plain config r → plain config (admitted h r)) ∧ (req_ok r → req_ok (admitted h r)).
Proof.
  unfold admitted. destruct (_ <? 0); split_and!; try done; intros Hr; by eapply req_ok_view; [..|exact Hr].
Qed.

(** The slots that the cache has granted to a queued request. *)
Record granted s (id : string) (j : Job) (h n : Z) (p : K * Request) : Prop := {
  gr_good : kv_good p.1;
  gr_memo : same_request_but_memo (req j) p.2;
  gr_ok : req_ok p.2;
  gr_spares : spares config id (kv_cache_manager s) p.1;
  gr_covered : covered p.1 id (h + n);
  gr_hit : 0 ≤ h;
  gr_new : 0 < n;
  gr_tokens : h + n ≤ num_tokens (req j)
}.

Definition admitted_state s (id : string) (jF : Job) (c : chosen_queue) (q : Q) (k : K) : SC :=
  let s1 := set_chosen c q s in
  mkScheduler (<[id := jF]> (requests s)) (waiting s1) (skipped_waiting s1) (running s ++ [id])
    (finished_req_ids s) (prev_step_scheduled_req_ids s) (pause_state s) k.

Lemma inv_admitted x s id j h n p c e q :
  sched_inv (extra := x) config s → e ∈ contents (chosen_of c s) → request_id e = id → requests s !! id = Some j →
  granted s id j h n p → queue_inv q → contents (chosen_of c s) ≡ₚ e :: contents q →
  Z.of_nat (length (running s)) < max_num_running_reqs config →
  sched_inv (extra := x) config (admitted_state s id (on_req (λ _, admitted h p.2) j) c q p.1).
Proof.
  intros Hs He Hid Hj [G1 [c0 G2] G3 G4 G5 G6 G7 G8] Hq Hc Hlen.
  destruct (admitted_fields h p.2) as (F1 & F2 & F3 & F4 & F5 & F6 & F7 & F8).
  destruct (si_jobs _ _ Hs id j Hj) as [J1 J2 J3 J4 J5]. pose proof (queued_pop x c q e s Hc) as Hqp.
  assert (queued (extra := x) (admitted_state s id (on_req (λ _, admitted h p.2) j) c q p.1) = queued (extra := x) (set_chosen c q s))
    as Hqs by by destruct c.
  eapply (inv_move config s _ id j (on_req (λ _, admitted h p.2) j)); try done; simpl.
  - rewrite F2, G2. done.
  - split; simpl; [by rewrite F1, G2|auto|by rewrite F3, G2|apply F7; by rewrite G2|by rewrite F6, G2].
  - unfold all_ids at 1. rewrite Hqs. simpl. unfold all_ids. rewrite Hqp. csimpl. rewrite Hid, <-app_assoc. simpl. done.
  - destruct c; simpl; [done|apply (si_waiting _ _ Hs)].
  - destruct c; simpl; [apply (si_skipped _ _ Hs)|done].
  - rewrite length_app. simpl. lia.
  - intros y Hy [?| ->%list_elem_of_singleton]%elem_of_app; done.
  - intros e'. rewrite Hqs. intros He' _. rewrite Hqp. by right.
  - intros _. split; simpl; [done|rewrite F5; lia|]. rewrite F5. eapply covered_le; [exact G5|lia].
  - intros e'. rewrite Hqs. intros He' Heq. exfalso.
    pose proof (si_nodup _ _ Hs) as Hnd. unfold all_ids in Hnd. apply NoDup_app in Hnd as (_ & _ & Hnd).
    rewrite Hqp in Hnd. csimpl in Hnd. apply NoDup_cons in Hnd as [Hn _]. apply Hn. rewrite Hid, <-Heq.
    by apply list_elem_of_fmap_2.
Qed.

Lemma step_admitted x budget ids s id j h n p c q st blocks :
  sched_inv (extra := x) config s → step_inv config budget ids s st → id ∉ running s → requests s !! id = Some j →
  granted s id j h n p → n ≤ token_budget st → preempted_reqs st = [] →
  step_inv config budget (ids ++ [id]) (admitted_state s id (on_req (λ _, admitted h p.2) j) c q p.1)
    (mkStep (scheduled_running_reqs st) (preempted_reqs st) (od_set id blocks (req_to_new_blocks st))
      (od_set id n (num_scheduled_tokens st)) (scheduled_spec_decode_tokens st)
      (token_budget st - n) (req_index st)).
Proof.
  intros Hs [T1 T2 T3 T4 T5 T6 T7 T8 T9 T10] Hno Hj [G1 [c0 G2] G3 G4 G5 G6 G7 G8] Hbud Hpre.
  destruct (admitted_fields h p.2) as (F1 & F2 & F3 & F4 & F5 & F6 & F7 & F8).
  destruct (si_jobs _ _ Hs id j Hj) as [J1 J2 J3 J4 J5].
  assert (id ∉ ids) as Hids.
  { intros Hin. rewrite <-T1 in Hin. destruct (od_get_some id _ Hin) as [m Hm]. by destruct (T6 id m Hm). }
  split; simpl.
  - rewrite od_set_new by (by rewrite T1). by rewrite fmap_app, T1.
  - rewrite od_set_new by (by rewrite T2). by rewrite fmap_app, T2.
  - apply NoDup_app. split_and!; [done| |apply NoDup_singleton]. by intros y Hy ->%list_elem_of_singleton.
  - rewrite sum_set_new by (by rewrite T1). lia.
  - lia.
  - intros y m. rewrite od_get_set. destruct (decide (id = y)) as [<-|Hne].
    + intros [= <-]. split; [rewrite elem_of_app, list_elem_of_singleton; auto|].
      exists (on_req (λ _, admitted h p.2) j). rewrite lookup_insert_eq. split; [done|].
      assert (od_get id (scheduled_spec_decode_tokens st) = None) as -> by (apply od_get_None; by intros ?%T7).
      split; simpl; rewrite ?F5; try done; [rewrite F3, G2; unfold num_tokens in *; simpl; lia|].
      rewrite F3, F6, G2. simpl. unfold num_tokens in *. simpl. lia.
    + intros Hg. destruct (T6 y m Hg) as (Hy & jy & Hjy & Hd). split; [rewrite elem_of_app; auto|].
      exists jy. rewrite lookup_insert_ne by done. split; [done|]. eapply decided_spares; [|exact G4|done]. congruence.
  - intros y Hy%T7. rewrite elem_of_app. auto.
  - rewrite Hpre. by intros y ?%elem_of_nil.
  - intros y jy [Hy|Hy]%elem_of_app; rewrite not_elem_of_app, list_elem_of_singleton; intros [Hy1 Hy2].
    + rewrite lookup_insert_ne by done. by apply T9.
    + by apply list_elem_of_singleton in Hy.
  - intros _ y jy. simpl. destruct (decide (id = y)) as [<-|Hne].
    + rewrite lookup_insert_eq. intros [= <-]. simpl. by rewrite F4.
    + rewrite lookup_insert_ne by done. by apply (T10 Hpre).
Qed.

(** The whole admission, from the state after the cache has granted the slots. *)
Lemma wp_admit_waiting budget s w c e id j h n p E :
  wait_inv budget s w → front (chosen_of c s) e → request_id e = id → requests s !! id = Some j →
  granted s id j h n p → n ≤ token_budget (step w) → is_blocked_waiting_status (status (req j)) = false →
  Z.of_nat (length (running s)) < max_num_running_reqs config →
  wp (admit_waiting c id n h w)
    (λ w' s', wait_inv budget s' w' ∧ to_take s = S (to_take s') ∧ kept config s s' ∧ moved true false s s') E (kv_after s id p).
Proof.
  intros [W1 W2 (adm & Ha & W3) W4 W5] Hf Hid Hj Hg Hbud Hblk Hlen.
  assert (queue_inv (chosen_of c s)) as Hqi by (destruct c; apply W1).
  pose proof (front_in _ e Hqi Hf) as Hin. pose proof Hg as [G1 [c0 G2] G3 G4 G5 G6 G7 G8].
  assert (e ∈ queued (extra := contents (step_skipped_waiting w)) s) as Heq.
  { unfold queued. destruct c; simpl in Hin; in_list. }
  assert (id ∉ running s) as Hno.
  { intros Hx. apply (running_not_queued _ s id W1 Hx). rewrite <-Hid. by apply list_elem_of_fmap_2. }
  destruct (si_queued _ _ W1 e Heq) as (j0 & Hj0 & _ & [(Q1 & Q1' & Q4) Q2 Q3]). rewrite Hid, Hj in Hj0. injection Hj0 as <-.
  unfold admit_waiting. apply wp_bind, (wp_pop c (kv_after s id p) e); [by destruct c|by destruct c|].
  intros q Hq Hc. assert (contents (chosen_of c s) ≡ₚ e :: contents q) as Hc' by by destruct c.
  wp_steps. set (s1 := set_running _ _).
  assert (requests s1 = <[id := on_req (λ _, p.2) j]> (requests s)) as Hreq1.
  { unfold s1, kv_after. destruct c; simpl; by apply alter_known. }
  assert (requests s1 !! id = Some (on_req (λ _, p.2) j)) as Hj1 by (rewrite Hreq1; apply lookup_insert_eq).
  apply (wp_get_job s1 id _ _ _ Hj1). simpl req.
  assert (status p.2 = status (req j)) as Hst by by rewrite G2.
  apply wp_bind.
  apply (wp_call _ (λ x s', s' = s1 ∧ x.1 ++ x.2 ≡ₚ id :: scheduled_new_reqs w ++ scheduled_resumed_reqs w ∧
    (∀ y, y ∈ x.2 → y ∈ scheduled_resumed_reqs w ∨ y = id ∧ status (req j) = PREEMPTED))).
  { rewrite Hst. destruct (status (req j)) eqn:Hs; try done; wp_steps; simpl; split_and!; try done; auto.
    - rewrite <-app_assoc. simpl. by rewrite Permutation_middle.
    - rewrite app_assoc, Permutation_app_comm. done.
    - intros y [?| ->%list_elem_of_singleton]%elem_of_app; auto. }
  intros [new_reqs resumed_reqs] s2 (-> & Hperm & Hres). simpl in Hperm, Hres. wp_steps. apply wp_upd_job. wp_steps.
  set (s3 := set_requests _ s1).
  assert (s3 = admitted_state s id (on_req (λ _, admitted h p.2) j) c q p.1) as Hs3.
  { unfold s3, admitted_state, set_requests. rewrite Hreq1. rewrite (alter_known _ id (on_req (λ _, p.2) j)) by apply lookup_insert_eq.
    rewrite insert_insert_eq. unfold s1, kv_after, set_running. by destruct c. }
  rewrite Hs3. split_and!; [split; simpl|..].
  - by eapply inv_admitted.
  - done.
  - exists (adm ++ [id]). split; [by rewrite Hperm, Ha, Permutation_app_comm|]. rewrite app_assoc. by eapply step_admitted.
  - intros y [Hy|[-> Hp]]%Hres; [by apply W4|]. apply (st_prev _ _ _ _ _ W3 W5 id j Hj Hp).
  - done.
  - pose proof (to_take_pop c q e s Hc') as Ht. rewrite Ht. by destruct c.
  - split_and!; try done. intros Hfr. by eapply (fresh_insert config s _ id j).
  - destruct (admitted_fields h p.2) as (_ & _ & F3 & F4 & F5 & F6 & _). eapply (moved_one _ _ s _ id j); [done|done| |done].
    split; [|right; right; split_and!; try done; simpl; rewrite ?F3, ?F5, ?G2; change (num_tokens (set_embeds_cache _ ?r)) with (num_tokens r); lia].
    split_and!; try done; simpl; [|by rewrite F6, G2]. unfold admitted. rewrite G2. by destruct (_ <? 0).
Qed.

(** ** The loop *)

(** Looking up the cached blocks of a queued request, and the grant that may follow. *)
Lemma job_eta j : on_req (λ _, req j) j = j.
Proof. by destruct j. Qed.

Lemma kv_after_same s id j : requests s !! id = Some j → kv_after s id (kv_cache_manager s, req j) = s.
Proof.
  intros Hj. unfold kv_after. simpl. rewrite (alter_known _ id j) by done. rewrite job_eta, insert_id by done. by destruct s.
Qed.

Definition may_allocate s (id : string) (j : Job) (b : KVCacheBlocks) (h : Z) : Prop :=
  ∀ new lookahead, 0 < new → 0 ≤ lookahead →
    wp (kvc_allocate new h (Some b) lookahead)
      (λ o' p', kv_good p'.1 ∧ same_request_but_memo (req j) p'.2 ∧ req_ok p'.2 ∧
         spares config id (kv_cache_manager s) p'.1 ∧
         match o' with
         | Some _ => covered p'.1 id (Z.min (h + new) (max_model_len config))
         | None => absent p'.1 id
         end) noexc (kv_cache_manager s, req j).

Lemma wp_computed x s id j e Post E :
  sched_inv (extra := x) config s → e ∈ queued (extra := x) s → request_id e = id → requests s !! id = Some j →
  (∀ b h, 0 ≤ h < num_tokens (req j) → may_allocate s id j b h → Post (Some (b, h, h)) s) →
  wp (computed_of_waiting id) Post E s.
Proof.
  intros Hs He Hid Hj HP. destruct (si_queued _ _ Hs e He) as (j0 & Hj0 & _ & [Q1 Q2 Q3]).
  rewrite Hid, Hj in Hj0. injection Hj0 as <-. destruct (si_jobs _ _ Hs id j Hj) as [J1 J2 J3 J4 J5].
  unfold computed_of_waiting. apply wp_bind, (wp_get_job s id j); [done|]. rewrite Q2. cbn [Z.eqb].
  apply wp_bind, (wp_kv_call s id j); [done|].
  eapply wp_mono; [apply promise_computed; [apply (si_kv _ _ Hs)|done..]| |by intros ? ? []].
  intros o p (-> & b & h & -> & Hh & Hal). rewrite (kv_after_same s id j Hj).
  apply wp_bind, wp_assert; [lia|]. wp_steps. apply HP; [done|]. rewrite J1 in Hal. exact Hal.
Qed.

Lemma waiting_tokens r h budget n :
  h < num_tokens r → 0 < budget → waiting_new_tokens config r h budget = Some n →
  0 < n ≤ budget ∧ h + n ≤ num_tokens r.
Proof.
  intros Hh Hb. unfold waiting_new_tokens. set (t := long_prefill_token_threshold config).
  destruct (Z.ltb_spec 0 t), (Z.ltb_spec t (num_tokens r - h)); simpl;
    destruct (negb (enable_chunked_prefill config) && _); intros [= <-]; lia.
Qed.

Definition wait_post budget s (o : option WaitStep) s' : Prop := ∃ w, o = Some w ∧ wait_inv budget s' w ∧ kept config s s' ∧ moved true false s s'.

Lemma wait_stop budget s w : wait_inv budget s w → wait_post budget s (Some w) s.
Proof. intros Hw. exists w. split_and!; try done. apply moved_refl. Qed.

(** The second half of a turn: a request that is not blocked. *)
Lemma wp_wait_turn budget fuel s w c e id E :
  (∀ s w, wait_inv budget s w → (to_take s < fuel)%nat → wp (waiting_loop config fuel w) (wait_post budget s) E s) →
  wait_inv budget s w → (to_take s < S fuel)%nat → 0 < token_budget (step w) →
  Z.of_nat (length (running s)) < max_num_running_reqs config →
  queue_inv (chosen_of c s) → front (chosen_of c s) e → request_id e = id →
  (∀ j, requests s !! id = Some j → is_blocked_waiting_status (status (req j)) = false) →
  wp (computed ← computed_of_waiting id;
      match computed with
      | None => mret None
      | Some (new_computed_blocks, num_new_local_computed_tokens, num_computed_tokens) =>
          j' ← get_job id;
          match waiting_new_tokens config (req j') num_computed_tokens (token_budget (step w)) with
          | None => mret (Some w)
          | Some num_new_tokens =>
              py_assert (0 <? num_new_tokens) ;;
              let lookahead :=
                if Request.num_computed_tokens (req j') =? 0 then 0 else num_lookahead_tokens config in
              new_blocks ← kv_call id (kvc_allocate num_new_tokens num_new_local_computed_tokens
                (Some new_computed_blocks) lookahead);
              match new_blocks with
              | None => mret (Some w)
              | Some _ =>
                  w' ← admit_waiting c id num_new_tokens num_computed_tokens w;
                  waiting_loop config fuel w'
              end
          end
      end) (wait_post budget s) E s.
Proof.
  intros IH Hw Hfuel Hbud Hlen Hqi Hf Hid Hblk. pose proof Hw as [W1 W2 (adm & Ha & W3) W4 W5].
  pose proof (front_in _ e Hqi Hf) as Hin.
  assert (e ∈ queued (extra := contents (step_skipped_waiting w)) s) as Heq.
  { unfold queued. destruct c; simpl in Hin; in_list. }
  destruct (si_queued _ _ W1 e Heq) as (j & Hj & _ & [Q1 Q2 Q3]). rewrite Hid in Hj.
  destruct (si_jobs _ _ W1 id j Hj) as [J1 J2 J3 J4 J5].
  assert (id ∉ running s) as Hno.
  { intros Hx. apply (running_not_queued _ s id W1 Hx). rewrite <-Hid. by apply list_elem_of_fmap_2. }
  apply wp_bind, (wp_computed _ s id j e _ _ W1 Heq Hid Hj). intros b h Hh Hal.
  apply wp_bind, (wp_get_job s id j); [done|].
  destruct (waiting_new_tokens config (req j) h (token_budget (step w))) as [n|] eqn:Hn.
  2: { wp_steps. by apply wait_stop. }
  destruct (waiting_tokens (req j) h _ n ltac:(lia) Hbud Hn) as [N1 N2].
  apply wp_bind, wp_assert; [lia|]. rewrite Q2. cbn [Z.eqb]. cbv zeta.
  apply wp_bind, (wp_kv_call s id j); [done|].
  eapply wp_mono; [apply Hal; lia| |by intros ? ? []].
  intros o p (P1 & P2 & P3 & P4 & P5). destruct o as [blocks|].
  - rewrite Z.min_l in P5 by lia. apply wp_bind.
    eapply wp_call; [apply (wp_admit_waiting budget s w c e id j h n p); try done; [split; try done; lia|lia|by apply Hblk]|].
    intros w' s' (Hw' & Ht & Hk & Hmv). eapply wp_call; [apply IH; [done|lia]|].
    intros o s'' (w2 & -> & Hw2 & Hk2 & Hm2). exists w2. split_and!; [done|done|by eapply kept_trans|by eapply moved_trans].
  - wp_steps. destruct (inv_called config s id j p W1 Hj P1 P2 P3 P4) as [Hi Hc]; [done|done|].
    exists w. split_and!; [done| |by eapply kept_called|by eapply moved_called]. split; try done.
    + exists adm. split; [done|]. eapply step_called; [exact W3|done|exact Hc|].
      intros Hx. rewrite <-(st_keys _ _ _ _ _ W3) in Hx. destruct (od_get_some id _ Hx) as [m Hm].
      by destruct (st_each _ _ _ _ _ W3 id m Hm).
Qed.

Lemma wp_waiting_loop budget fuel s w E :
  wait_inv budget s w → (to_take s < fuel)%nat → wp (waiting_loop config fuel w) (wait_post budget s) E s.
Proof.
  revert s w. induction fuel as [|fuel IH]; intros s w Hw Hfuel; [lia|]. cbn [waiting_loop]. wp_steps. unfold id.
  destruct (queue_bool (waiting s) || queue_bool (skipped_waiting s)) eqn:Hany; cbn [andb negb];
    [|wp_steps; by apply wait_stop].
  destruct (Z.ltb_spec 0 (token_budget (step w))) as [Hbud|]; cbn [negb]; [|wp_steps; by apply wait_stop].
  pose proof Hw as [W1 W2 (adm & Ha & W3) W4 W5].
  destruct (Z.eqb_spec (Z.of_nat (length (running s))) (max_num_running_reqs config)) as [|Hne]; [wp_steps; by apply wait_stop|].
  pose proof (si_len _ _ W1) as Hlen.
  apply wp_bind, wp_select; [apply W1|apply W1|done|]. intros c Hc. apply wp_bind. eapply wp_from_option; [done|].
  assert (queue_inv (chosen_of c s)) as Hqi by (destruct c; apply W1).
  apply wp_bind, wp_peek; [done|done|]. intros e Hf. pose proof (front_in _ e Hqi Hf) as Hin.
  assert (e ∈ queued (extra := contents (step_skipped_waiting w)) s) as Heq.
  { unfold queued. destruct c; simpl in Hin; in_list. }
  destruct (si_queued _ _ W1 e Heq) as (j & Hj & _ & [Q1 Q2 Q3]). cbv zeta.
  apply wp_bind, (wp_get_job s (request_id e) j); [done|].
  destruct (is_blocked_waiting_status (status (req j))) eqn:Hblk.
  2: { apply wp_bind, wp_ret. cbn iota. eapply wp_wait_turn; try done; [lia|]. intros j' Hj'. by assert (j' = j) as -> by congruence. }
  apply wp_bind, wp_bind.
  eapply wp_call; [eapply (wp_try_promote _ budget _ s (step w) (request_id e) j e _ W1 W3 Heq eq_refl Hj Hblk)|].
  intros ok s1 (I1 & I2 & (I3 & I8) & I4 & I5 & I6 & I7). apply wp_ret.
  assert (chosen_of c s1 = chosen_of c s) as Hch by (by destruct c). assert (to_take s1 = to_take s) as Ht1 by (unfold to_take; by rewrite I5, I6).
  assert (wait_inv budget s1 w) as Hw1.
  { split; try done; [by exists adm|]. destruct I3 as [-> _]. done. }
  apply (wp_call _ (wait_post budget s1)); [|intros o s2 (w2 & -> & H1 & H2 & H3); exists w2; split_and!; [done|done|by eapply kept_trans|by eapply moved_trans]].
  destruct ok; cbn [negb].
  - eapply wp_wait_turn; try done; rewrite ?Hch, ?I4; try done; [by rewrite Ht1|lia|by apply I7].
  - apply wp_bind, (wp_pop c s1 e); rewrite ?Hch; [done|done|]. intros q Hq Hcq.
    destruct (wp_run _ _ _ (law_prepend (step_skipped_waiting w) e W2)) as ([] & q' & Hrun & Hq' & Hc').
    rewrite Hrun. simpl fst. simpl snd. apply wp_bind. eapply wp_of_outcome; [done|].
    assert (contents (chosen_of c s1) ≡ₚ e :: contents q) as Hcq1 by by rewrite Hch.
    pose proof (to_take_pop c q e s1 Hcq1) as Htp.
    eapply wp_call; [apply IH; [by eapply wait_set_aside|lia]|].
    intros o s2 (w2 & -> & H1 & H2 & H3). exists w2. split_and!; [done|done|eapply kept_trans; [|exact H2]; by destruct c|].
    eapply moved_trans; [done| |exact H3]. split; [|done]. intros x jx Hx. exists jx. split; [by destruct c|apply fate_same].
Qed.
End wait.
