(* ===== verification/SchedulerMain.v ===== *)
(** A whole scheduling step: from a state in which every running request is settled it returns
    an output, whatever the queues and the cache hold, within the token budget, and leaves the
    scheduler waiting for the model's answer to that output. *)
From S2P Require Import Prelude.
From S2P Require Import Dict.
From S2P Require Import Request.
From S2P Require Import StopCheck.
From S2P Require Import RequestQueue.
From S2P Require Import KVCacheManager.
From S2P Require Import Scheduler.
From S2P Require Import SchedulerInv.
From S2P Require Import SchedulerStep.
From S2P Require Import SchedulerWait.
Local Open Scope Z_scope.

(** The configuration makes sense. *)
Record config_ok (config : SchedulerConfig) : Prop := {
  co_budget : 0 ≤ max_num_scheduled_tokens config;
  co_lookahead : 0 ≤ num_lookahead_tokens config
}.

Section main.
Context {Q : Type} `{HQ : RequestQueueLaws Q} {K : Type} `{!KVCache K}.
Context (config : SchedulerConfig) `{!KVCachePromise K (max_model_len config)}.
Context (empty_queue : Q).
Abbreviation SC := (Scheduler (Q := Q) (K := K)).
Abbreviation inv := (sched_inv (extra := []) config).
Implicit Types s : SC.

(** The queue that a step starts with is empty. *)
Definition empty_ok : Prop := queue_inv empty_queue ∧ contents empty_queue = [].

(** What a step starts from. *)
Record calm s : Prop := {
  cm_inv : inv s;
  cm_fresh : fresh config s;
  cm_settled : ∀ id j, id ∈ running s → requests s !! id = Some j → settled config (req j);
  cm_prev : prev_ok s
}.

(** No sampled token is outstanding. *)
Definition sync s : Prop := ∀ id j, requests s !! id = Some j → num_output_placeholders (req j) = 0.

(** Between two steps. *)
Record ready s : Prop := {
  rd_inv : inv s;
  rd_fresh : fresh config s;
  rd_settled : ∀ id j, id ∈ running s → requests s !! id = Some j → settled config (req j);
  rd_prev : prev_ok s;
  rd_sync : sync s
}.

Lemma ready_calm s : ready s → calm s.
Proof. intros [R1 R2 R3 R4 R5]. by split. Qed.

(** ** The first half *)

Lemma first_step_inv s :
  config_ok config → calm s →
  loop_inv config (token_budget (first_step config s)) s (first_step config s).
Proof.
  intros [C1 C2] [R1 R2 R3 R4]. split; try done.
  - split; simpl; try done.
    + apply NoDup_nil_2.
    + rewrite Z.add_0_r. done.
    + by destruct (pause_state s).
    + intros id Hin. by apply elem_of_nil in Hin.
    + intros id j Hin _. by apply R3.
Qed.

Lemma wp_first_half s E :
  config_ok config → calm s →
  wp (running_loop config (S (length (running s))) (first_step config s))
    (loop_post config (token_budget (first_step config s)) (first_step config s) s) E s.
Proof.
  intros Hc Hr. apply wp_running_loop; [by apply first_step_inv|apply Hc|unfold remaining; simpl; lia|lia].
Qed.

(** ** The second half *)

Record halves (budget : Z) s (w : WaitStep (Q := Q)) s' : Prop := {
  ha_inv : inv s';
  ha_step : ∃ adm, adm ≡ₚ scheduled_new_reqs w ++ scheduled_resumed_reqs w ∧
    step_inv config budget (scheduled_running_reqs (step w) ++ adm) s' (step w);
  ha_resumed : ∀ id, id ∈ scheduled_resumed_reqs w → id ∉ prev_step_scheduled_req_ids s';
  ha_kept : kept config s s';
  ha_moved : ∃ came gone, came && gone = false ∧ moved came gone s s'
}.

Lemma moved_came s s' : moved false false s s' → moved true false s s'.
Proof.
  intros [H1 _]. split; [|done]. intros id j' Hj'. destruct (H1 id j' Hj') as (j & Hj & Hc & Hf). exists j. split; [done|].
  split; [done|]. destruct Hf as [?|[(? & _)|(? & _)]]; [by left|done|done].
Qed.

Lemma moved_requests came gone s s' s2 : moved came gone s s' → requests s2 = requests s' → waiting s2 = waiting s' → moved came gone s s2.
Proof. intros [H1 H2] Hr Hw. split; unfold waiting_ids in *; rewrite Hw; [by rewrite Hr|done]. Qed.

(** The requests set aside return to the skipped queue. *)
Lemma wp_return_skipped budget s0 s w E :
  wait_inv config budget s w → kept config s0 s → moved true false s0 s →
  wp ((if queue_bool (step_skipped_waiting w) then
         xs ← of_outcome (queue_iter (step_skipped_waiting w));
         on_skipped (prepend_requests xs)
       else mret tt) ;; mret (Some w))
    (λ o s', ∃ w', o = Some w' ∧ halves budget s0 w' s') E s.
Proof.
  intros [W1 W2 (adm & Ha & W3) W4 W5] Hk Hm. apply wp_bind. rewrite law_bool. case_bool_decide as Hb.
  - destruct (law_iter _ W2) as (xs & Hx & Hp). apply wp_bind. eapply wp_of_outcome; [exact Hx|]. apply wp_zoom.
    eapply wp_mono; [apply law_prepends, W1| |by intros ? ? []]. intros [] q [Hq Hc]. wp_steps. exists w. split; [done|].
    split; [|exists adm; split; [done|]|done|done|exists true, false; split; [done|by eapply moved_requests]].
    + eapply inv_requeue; [exact W1|..]; try done; [apply W1|]. unfold queued. simpl.
      rewrite Hc, Hp, app_nil_r. by rewrite (Permutation_app_comm (contents (skipped_waiting s))).
    + by eapply step_ext.
  - wp_steps. exists w. split; [done|]. split; [|exists adm; split; [done|exact W3]|done|done|by exists true, false].
    eapply inv_requeue; [exact W1|..]; try done; [apply W1|apply W1|]. unfold queued.
    destruct (contents (step_skipped_waiting w)); [done|]. by destruct Hb.
Qed.

Lemma wp_second_half budget s0 s st E :
  empty_ok → inv s → step_inv config budget (scheduled_running_reqs st) s st → kept config s0 s → moved false (any_preempted st) s0 s →
  wp (schedule_waiting empty_queue config st) (λ o s', ∃ w, o = Some w ∧ halves budget s0 w s') E s.
Proof.
  intros [E1 E2] Hs Hst Hk Hm. unfold schedule_waiting. wp_steps. unfold id.
  destruct (bool_decide (preempted_reqs st = []) && bool_decide (pause_state s = UNPAUSED)) eqn:Hgo.
  - apply andb_true_iff in Hgo as [Hp _]. apply bool_decide_eq_true in Hp. apply wp_bind.
    eapply wp_call; [apply (wp_waiting_loop config budget _ s)|].
    + split; simpl; try done; [by rewrite E2|exists []; by rewrite app_nil_r|]. by intros id ?%elem_of_nil.
    + rewrite !law_len. unfold to_take. lia.
    + intros o s1 (w & -> & Hw & Hk1 & Hm1). apply wp_return_skipped; [done|by eapply kept_trans|]. eapply moved_trans; [done| |done].
      apply moved_came. unfold any_preempted in Hm. by rewrite bool_decide_true in Hm.
  - wp_steps. eexists. split; [done|]. split; simpl; [done|exists []; by rewrite app_nil_r| |done|by exists false, (any_preempted st)].
    by intros id ?%elem_of_nil.
Qed.

(** ** Calls that concern no request *)

Definition spares_all (k k' : K) : Prop :=
  ∀ x, (absent k x → absent k' x) ∧ ∀ n, covered k x n → covered k' x n.

Definition with_kv (k : K) s : SC :=
  mkScheduler (requests s) (waiting s) (skipped_waiting s) (running s) (finished_req_ids s)
    (prev_step_scheduled_req_ids s) (pause_state s) k.

Lemma inv_spared s k : inv s → kv_good k → spares_all (kv_cache_manager s) k → inv (with_kv k s).
Proof.
  intros [I1 I2 I3 I4 I5 I6 I7 I8 I9 I10] Hk Hsp. split; try done; simpl.
  - intros id j Hin Hj. destruct (I8 id j Hin Hj) as [R1 R2 R3]. split; try done. by apply Hsp.
  - intros e He. destruct (I9 e He) as (j & Hj & Hkey & [Q1 Q2 Q3]). exists j. split_and!; [done|done|]. split; try done. by apply Hsp.
Qed.

Lemma step_spared budget ids s st k :
  step_inv config budget ids s st → spares_all (kv_cache_manager s) k → step_inv config budget ids (with_kv k s) st.
Proof.
  intros [T1 T2 T3 T4 T5 T6 T7 T8 T9 T10] Hsp. split; try done. simpl.
  intros id n Hg. destruct (T6 id n Hg) as (Hin & j & Hj & [D1 D2 D3 D4]). split; [done|]. exists j. split; [done|].
  split; try done. by apply Hsp.
Qed.

Lemma kept_spared s k : spares_all (kv_cache_manager s) k → kept config s (with_kv k s).
Proof. intros Hsp. split_and!; try done. intros Hf x Hx. apply Hsp. by apply Hf. Qed.

Lemma wp_common_prefix budget s0 w s E :
  halves budget s0 w s →
  wp (match running s with
      | [] => mret (replicate (num_kv_cache_groups config) 0)
      | id :: _ => on_kv (kvc_common_prefix id)
      end) (λ _ s', halves budget s0 w s' ∧ running s' = running s) E s.
Proof.
  intros [H1 (adm & Ha & H2) H3 H4 (c & g & Hcg & H5)]. destruct (running s) as [|id ids] eqn:Hr; [by wp_steps; split; [split; eauto|]|].
  apply wp_zoom. eapply wp_mono; [apply promise_prefix, H1| |by intros ? ? []]. intros l k [Hk Hsp]. fold (with_kv k s).
  split; [|done]. split; [by apply inv_spared|exists adm; split; [done|by apply step_spared]|done| |].
  - eapply kept_trans; [exact H4|]. by apply kept_spared.
  - exists c, g. split; [done|]. by eapply moved_requests.
Qed.

(** ** The output *)

Lemma wp_new_request_data blocks id s j b E :
  requests s !! id = Some j → od_get id blocks = Some b →
  wp (new_request_data config blocks id) (λ _ s', s' = s) E s.
Proof.
  intros Hj Hb. unfold new_request_data. apply wp_bind, (wp_get_job s id j); [done|].
  apply wp_bind. eapply wp_from_option; [exact Hb|]. by wp_steps.
Qed.

Lemma wp_new_data blocks new_reqs s E :
  (∀ id, id ∈ new_reqs → is_Some (requests s !! id) ∧ id ∈ keys blocks) →
  wp (for_fold new_reqs [] (λ acc id, d ← new_request_data config blocks id; mret (acc ++ [d]))) (λ _ s', s' = s) E s.
Proof.
  intros Hall. apply (wp_for_fold (λ _ _ s', s' = s)); [done| |done].
  intros dn x todo b s' -> ->. destruct (Hall x) as [[j Hj] Hb]; [in_list|]. destruct (od_get_some x blocks Hb) as [v Hv].
  apply wp_bind. eapply wp_call; [by eapply wp_new_request_data|]. intros d s2 ->. by wp_steps.
Qed.

Lemma wp_cached_one st d id resumed s j n b E :
  requests s !! id = Some j → od_get id (num_scheduled_tokens st) = Some n → od_get id (req_to_new_blocks st) = Some b →
  (resumed = true → id ∉ prev_step_scheduled_req_ids s) →
  wp (cached_one config st d (id, resumed)) (λ _ s', s' = s) E s.
Proof.
  intros Hj Hn Hb Hr. unfold cached_one. apply wp_bind, (wp_get_job s id j); [done|]. apply wp_bind.
  apply (wp_call _ (λ _ s', s' = s)).
  { destruct (sends_token_ids config); [|by wp_steps]. apply wp_bind. eapply wp_from_option; [exact Hn|]. by wp_steps. }
  intros toks s1 ->. wp_steps. apply (wp_call _ (λ _ s', s' = s)).
  { destruct resumed; [|by wp_steps]. apply wp_assert; [|done]. by rewrite bool_decide_false by auto. }
  intros [] s2 ->. wp_steps. eapply wp_from_option; [exact Hb|]. by wp_steps.
Qed.

Lemma wp_cached_data st run resumed s E :
  (∀ id, id ∈ run ++ resumed → is_Some (requests s !! id) ∧ id ∈ keys (num_scheduled_tokens st) ∧ id ∈ keys (req_to_new_blocks st)) →
  (∀ id, id ∈ resumed → id ∉ prev_step_scheduled_req_ids s) →
  wp (make_cached_request_data config run resumed st) (λ _ s', s' = s) E s.
Proof.
  intros Hall Hprev. apply (wp_for_fold (λ _ _ s', s' = s)); [done| |done].
  intros dn [id r] todo b s' Hsplit ->.
  assert ((id, r) ∈ ((λ x, (x, false)) <$> run) ++ ((λ x, (x, true)) <$> resumed)) as Hin by (rewrite Hsplit; in_list).
  assert (id ∈ run ++ resumed ∧ (r = true → id ∈ resumed)) as [Hi Hr].
  { apply elem_of_app in Hin as [Hin|Hin]; apply list_elem_of_fmap in Hin as (y & [= -> ->] & Hy); rewrite elem_of_app; split; by auto. }
  destruct (Hall id Hi) as ([j Hj] & Hn & Hb). destruct (od_get_some id _ Hn) as [n Hn']. destruct (od_get_some id _ Hb) as [bl Hb'].
  by eapply wp_cached_one; eauto.
Qed.

(** ** After the step *)

(** A request object whose computed tokens have advanced. *)
Definition advanced (n : Z) (j : Job) : Job :=
  let r := set_computed (num_computed_tokens (req j) + n) (req j) in
  set_prefill (num_computed_tokens r <? num_tokens r + num_output_placeholders r) (on_req (λ _, r) j).

(** The objects of the scheduled requests have advanced; nothing else has changed. *)
Definition advanced_by (d : dict string Z) s s' : Prop :=
  s' = set_requests (λ _, requests s') s ∧
  ∀ id, requests s' !! id = match od_get id d with Some n => advanced n <$> requests s !! id | None => requests s !! id end.

Lemma wp_advance acc id n s j E :
  requests s !! id = Some j →
  wp (advance_computed acc (id, n)) (λ _ s', s' = set_requests (insert id (advanced n j)) s) E s.
Proof.
  intros Hj. unfold advance_computed. apply wp_bind, (wp_get_job s id j); [done|]. apply wp_bind, wp_upd_job. wp_steps.
  unfold set_requests. f_equal. by rewrite (alter_known _ id j).
Qed.

Lemma od_get_app (id : string) (d d' : dict string Z) : 
  od_get id (d ++ d') = match od_get id d with Some n => Some n | None => od_get id d' end.
Proof. induction d as [|[k v] d IH]; simpl; [done|]. by case_decide. Qed.

Lemma wp_update_after d s E :
  NoDup (keys d) → (∀ id, id ∈ keys d → is_Some (requests s !! id)) →
  wp (update_after_schedule d) (λ _ s', ∃ s1, advanced_by d s s1 ∧ s' = set_finished (λ _, ∅) s1) E s.
Proof.
  intros Hnd Hall. unfold update_after_schedule. apply wp_bind.
  apply (wp_for_fold (λ dn _ s', advanced_by dn s s')).
  - split; [by destruct s|]. done.
  - intros dn [id n] todo b s' -> [Hs' Hreq].
    assert (id ∉ keys dn) as Hno.
    { rewrite fmap_app in Hnd. csimpl in Hnd. apply NoDup_app in Hnd as (_ & Hd & _). intros Hin. apply (Hd id Hin). by left. }
    destruct (Hall id) as [j Hj]; [rewrite fmap_app; csimpl; in_list|].
    eapply wp_call; [apply (wp_advance _ id n s' j)|].
    { by rewrite Hreq, (proj2 (od_get_None id dn)). }
    intros _ s2 ->. split; [rewrite Hs'; by destruct s|]. intros x. simpl. rewrite od_get_app. simpl.
    destruct (decide (id = x)) as [<-|Hne].
    + rewrite lookup_insert_eq, (proj2 (od_get_None id dn)) by done. by rewrite Hj.
    + rewrite lookup_insert_ne, Hreq by done. by destruct (od_get x dn).
  - intros b s' Hadv. wp_steps. eauto.
Qed.

(** Objects of running requests change; places and the cache do not. *)
Lemma inv_objects s s' :
  inv s → waiting s' = waiting s → skipped_waiting s' = skipped_waiting s → running s' = running s →
  kv_cache_manager s' = kv_cache_manager s →
  (∀ id, id ∉ running s → requests s' !! id = requests s !! id) →
  (∀ id j, id ∈ running s → requests s !! id = Some j → ∃ j', requests s' !! id = Some j' ∧
     obj_id (req j') = obj_id (req j) ∧ job_ok config id j' ∧ running_ok config (kv_cache_manager s) id j') →
  inv s'.
Proof.
  intros Hs Hw Hk Hr Hkv Hout Hin. pose proof Hs as [I1 I2 I3 I4 I5 I6 I7 I8 I9 I10].
  assert (queued (extra := []) s' = queued (extra := []) s) as Hq by (unfold queued; by rewrite Hw, Hk).
  assert (all_ids (extra := []) s' = all_ids (extra := []) s) as Hall by (unfold all_ids; by rewrite Hq, Hr).
  assert (∀ id j', requests s' !! id = Some j' → ∃ j, requests s !! id = Some j ∧ obj_id (req j') = obj_id (req j) ∧ job_ok config id j') as Hback.
  { intros id j' Hj'. destruct (decide (id ∈ running s)) as [Hi|Hi].
    - destruct (running_known config s id Hs Hi) as [j Hj]. destruct (Hin id j Hi Hj) as (j2 & H2 & H3 & H4 & _).
      assert (j2 = j') as -> by congruence. eauto.
    - rewrite Hout in Hj' by done. exists j'. split_and!; [done|done|by apply I7]. }
  split; try done; rewrite ?Hw, ?Hk, ?Hr, ?Hkv, ?Hall, ?Hq; try done.
  - intros id. rewrite I4. destruct (decide (id ∈ running s)) as [Hi|Hi]; [|by rewrite Hout].
    destruct (running_known config s id Hs Hi) as [j Hj]. destruct (Hin id j Hi Hj) as (j2 & H2 & _). rewrite Hj, H2. split; eauto.
  - intros id j' (j & _ & _ & ?)%Hback. done.
  - intros id j' Hi Hj'. destruct (running_known config s id Hs Hi) as [j Hj]. destruct (Hin id j Hi Hj) as (j2 & H2 & _ & _ & ?). congruence.
  - intros e He. destruct (I9 e He) as (j & Hj & Hrest). exists j. split; [|done]. rewrite Hout; [done|].
    intros Hx. apply (running_not_queued config s _ Hs Hx). by apply list_elem_of_fmap_2.
  - intros x x' y y' (j1 & H1 & H2 & _)%Hback (j2 & H3 & H4 & _)%Hback Ho. eapply I10; [exact H1|exact H3|congruence].
Qed.

(** What is known of a request between the step that scheduled it and the model's answer. *)
Record in_flight (r : Request) (drafts : option (list Z)) : Prop := {
  fl_model : num_computed_tokens r ≤ max_model_len config;
  fl_drafts : match drafts with
              | Some ts => ts ≠ [] ∧ num_computed_tokens r = num_tokens r + Z.of_nat (length ts)
              | None => num_computed_tokens r ≤ num_tokens r
              end
}.

(** The scheduler waits for the model's answer about the requests of [todo]. *)
Record pending (todo : dict string Z) (drafts : dict string (list Z)) s : Prop := {
  pd_inv : inv s;
  pd_fresh : fresh config s;
  pd_nodup : NoDup (keys todo);
  pd_each : ∀ id n, od_get id todo = Some n → 0 < n ∧
    ∀ j, requests s !! id = Some j → id ∈ running s ∧ in_flight (req j) (od_get id drafts);
  pd_rest : ∀ id j, id ∈ running s → id ∉ keys todo → requests s !! id = Some j → settled config (req j);
  pd_prev : prev_ok s;
  pd_sync : sync s
}.
Definition awaiting (out : SchedulerOutput) : SC → Prop :=
  pending (out_num_scheduled_tokens out) (out_spec_decode_tokens out).

(** What a step decides. *)
Record step_outcome s (out : SchedulerOutput) s' : Prop := {
  so_total : out_total_num_scheduled_tokens out = sum_tokens (out_num_scheduled_tokens out) ∧
    out_total_num_scheduled_tokens out ≤ max_num_scheduled_tokens config;
  so_running : Z.of_nat (length (running s')) ≤ max_num_running_reqs config;
  so_scheduled : ∀ id n, od_get id (out_num_scheduled_tokens out) = Some n →
    ∃ j, requests s' !! id = Some j ∧ id ∈ running s' ∧ n ≤ num_computed_tokens (req j) ∧
      covered (kv_cache_manager s') id (num_computed_tokens (req j));
  so_preempted : ∀ id, id ∈ out_preempted_req_ids out → id ∉ running s' ∧ id ∉ keys (out_num_scheduled_tokens out);
  so_paused : pause_state s = PAUSED_ALL → out_num_scheduled_tokens out = [];
  so_finished : out_finished_req_ids out = finished_req_ids s ∧ finished_req_ids s' = ∅;
  so_prev : prev_step_scheduled_req_ids s' = list_to_set (keys (out_num_scheduled_tokens out))
}.

Lemma sum_positive (d : dict string Z) :
  (∀ x, x ∈ d → 0 < x.2) → 0 ≤ sum_tokens d ∧ (sum_tokens d ≤ 0 → d = []).
Proof.
  induction d as [|x d IH]; intros Hpos; [done|]. destruct IH as [IH _]; [intros y Hy; apply Hpos; by right|].
  rewrite sum_cons. assert (0 < x.2) by (apply Hpos; by left). lia.
Qed.

(** The advance of the scheduled requests. *)
Lemma advanced_ok s id j n ds :
  job_ok config id j → running_ok config (kv_cache_manager s) id j →
  decided config (kv_cache_manager s) id (req j) n ds →
  job_ok config id (advanced n j) ∧ running_ok config (kv_cache_manager s) id (advanced n j) ∧
  (num_output_placeholders (req j) = 0 → in_flight (req (advanced n j)) ds) ∧ n ≤ num_computed_tokens (req (advanced n j)).
Proof.
  intros [J1 J2 J3 J4 J5] [R1 R2 R3] [D1 D2 D3 D4]. split_and!.
  - split; try done. simpl. by eapply req_ok_view; [..|exact J2].
  - split; try done. simpl. lia.
  - intros J6. split; [simpl; lia|]. rewrite J6, !Z.add_0_r in D4. by destruct ds.
  - simpl. lia.
Qed.

(** What an output says of the step that made it. *)
Definition output_of_step (st : Step) (finished : gset string) (out : SchedulerOutput) : Prop :=
  out_num_scheduled_tokens out = num_scheduled_tokens st ∧ out_spec_decode_tokens out = scheduled_spec_decode_tokens st ∧
  out_total_num_scheduled_tokens out = sum_tokens (num_scheduled_tokens st) ∧
  out_preempted_req_ids out = preempted_reqs st ∧ out_finished_req_ids out = finished.

(** The state after the scheduled requests have advanced. *)
Record stepped s (out : SchedulerOutput) s' : Prop := {
  sd_inv : inv s';
  sd_fresh : fresh config s';
  sd_nodup : NoDup (keys (out_num_scheduled_tokens out));
  sd_each : ∀ id n, od_get id (out_num_scheduled_tokens out) = Some n → 0 < n ∧ ∃ j, requests s !! id = Some j ∧
    requests s' !! id = Some (advanced n j) ∧ id ∈ running s ∧
    decided config (kv_cache_manager s) id (req j) n (od_get id (out_spec_decode_tokens out));
  sd_rest : ∀ id, id ∉ keys (out_num_scheduled_tokens out) → requests s' !! id = requests s !! id ∧
    ∀ j, id ∈ running s → requests s !! id = Some j → settled config (req j);
  sd_prev : prev_ok s';
  sd_lists : running s' = running s ∧ waiting s' = waiting s ∧ skipped_waiting s' = skipped_waiting s ∧
    kv_cache_manager s' = kv_cache_manager s;
  sd_outcome : step_outcome s out s'
}.

Lemma step_done budget ids s st s1 out :
  inv s → fresh config s → step_inv config budget ids s st →
  budget ≤ max_num_scheduled_tokens config → (pause_state s = PAUSED_ALL → budget = 0) →
  advanced_by (num_scheduled_tokens st) (set_prev_step (list_to_set (num_scheduled_tokens st).*1) s) s1 →
  output_of_step st (finished_req_ids s) out → stepped s out (set_finished (λ _, ∅) s1).
Proof.
  intros Hs Hf [T1 T2 T3 T4 T5 T6 T7 T8 T9 T10] Hmax Hpause [Hs1 Hreq] (O1 & O2 & O3 & O4 & O5). simpl in Hreq.
  assert (inv (set_finished (λ _, ∅) s1)) as Hinv.
  { apply (inv_objects s); [done|by rewrite Hs1..|simpl|simpl].
    - intros id Hno. rewrite Hreq. destruct (od_get id (num_scheduled_tokens st)) as [n|] eqn:Hn; [|done].
      by destruct (T6 id n Hn).
    - intros id j Hin Hj. pose proof (si_jobs _ _ Hs id j Hj) as HJ. pose proof (si_running _ _ Hs id j Hin Hj) as HR.
      rewrite Hreq, Hj. destruct (od_get id (num_scheduled_tokens st)) as [n|] eqn:Hn; [|by exists j].
      destruct (T6 id n Hn) as (_ & j2 & Hj2 & Hd). assert (j2 = j) as -> by congruence.
      destruct (advanced_ok s id j n _ HJ HR Hd) as (A1 & A2 & _). exists (advanced n j). done. }
  assert (∀ id n, od_get id (num_scheduled_tokens st) = Some n → 0 < n ∧ ∃ j, requests s !! id = Some j ∧
    requests s1 !! id = Some (advanced n j) ∧ id ∈ running s ∧
    decided config (kv_cache_manager s) id (req j) n (od_get id (scheduled_spec_decode_tokens st))) as Heach.
  { intros id n Hn. destruct (T6 id n Hn) as (Hin & j & Hj & Hd). split; [apply Hd|]. exists j. rewrite Hreq, Hn, Hj. done. }
  assert (running s1 = running s ∧ kv_cache_manager s1 = kv_cache_manager s) as [Hrun Hkv] by (rewrite Hs1; done).
  split; rewrite ?O1, ?O2; simpl; try done.
  - intros x. simpl. rewrite Hreq, Hkv. destruct (od_get x (num_scheduled_tokens st)) as [n|] eqn:Hn; [|by apply Hf].
    destruct (Heach x n Hn) as (_ & j & -> & _). done.
  - by rewrite T1.
  - intros id Hno. split; [by rewrite Hreq, (proj2 (od_get_None id _))|]. intros j Hin Hj. rewrite T1 in Hno. by apply (T9 id).
  - intros id j. rewrite Hs1. simpl. rewrite elem_of_list_to_set. intros Hj Hst Hx. destruct (od_get_some id _ Hx) as [n Hn].
    destruct (Heach id n Hn) as (_ & j0 & Hj0 & Hj1 & Hin & _). rewrite Hj1 in Hj. injection Hj as <-.
    destruct (si_running _ _ Hs id j0 Hin Hj0) as [Hr _ _]. simpl in Hst. congruence.
  - by rewrite Hs1.
  - split; rewrite ?O1, ?O2, ?O3, ?O4, ?O5; simpl; try done.
    + split; [done|]. lia.
    + apply Hinv.
    + intros id n Hn. destruct (Heach id n Hn) as (_ & j & Hj & Hj1 & Hin & Hd). exists (advanced n j). rewrite Hrun, Hkv.
      destruct (advanced_ok s id j n _ (si_jobs _ _ Hs id j Hj) (si_running _ _ Hs id j Hin Hj) Hd) as (_ & [_ _ ?] & _ & ?). done.
    + intros id Hp. rewrite Hrun. split; [by apply T8|]. intros (n & Hn)%od_get_some. destruct (Heach id n Hn) as (_ & _ & _ & _ & Hin & _).
      by apply (T8 id).
    + intros Hpa. rewrite (Hpause Hpa) in T4. apply sum_positive; [|lia]. intros [id n] Hx.
      apply (Heach id). apply od_get_Some; [by rewrite T1|done].
    + by rewrite Hs1.
Qed.

(** The output of a step whose two halves are done, for any way to advance the requests. *)
Lemma wp_make_output_with after budget s0 s w prefix (Post : SchedulerOutput → SC → Prop) E :
  halves budget s0 w s →
  wp (after (num_scheduled_tokens (step w)) (scheduled_spec_decode_tokens (step w)))
    (λ _ s', ∀ out, output_of_step (step w) (finished_req_ids s) out → Post out s') E
    (set_prev_step (list_to_set (num_scheduled_tokens (step w)).*1) s) →
  wp (make_output_with config after w prefix) Post E s.
Proof.
  intros [H1 (adm & Ha & H2) H3 H4 _] HP. pose proof H2 as [T1 T2 T3 T4 T5 T6 T7 T8 T9 T10].
  assert (∀ id, id ∈ scheduled_running_reqs (step w) ++ adm → is_Some (requests s !! id) ∧
    id ∈ keys (num_scheduled_tokens (step w)) ∧ id ∈ keys (req_to_new_blocks (step w))) as Hall.
  { intros id Hin. rewrite T1, T2. split_and!; try done. rewrite <-T1 in Hin.
    destruct (od_get_some id _ Hin) as [n Hn]. destruct (T6 id n Hn) as (_ & j & Hj & _). eauto. }
  unfold make_output_with. set (split := if use_v2_model_runner config then _ else _).
  assert ((∀ id, id ∈ split.1 → id ∈ adm) ∧ (∀ id, id ∈ split.2 → id ∈ scheduled_resumed_reqs w)) as [Hn1 Hn2].
  { unfold split. destruct (use_v2_model_runner config); simpl; split; intros id; try done; rewrite ?Ha; [done|by intros ?%elem_of_nil|in_list]. }
  destruct split as [new_reqs resumed]. simpl in Hn1, Hn2. apply wp_bind.
  eapply wp_call; [apply wp_new_data|].
  { intros id Hin%Hn1. destruct (Hall id) as (? & _ & ?); [in_list|done]. }
  intros new_data s4 ->. apply wp_bind. eapply wp_call; [apply wp_cached_data|].
  { intros id [Hin|Hin%Hn2]%elem_of_app; apply Hall; [in_list|]. rewrite Ha. in_list. }
  { intros id Hin%Hn2. by apply H3. }
  intros cached s5 ->. wp_steps. eapply wp_call; [exact HP|]. intros [structured pend] s6 Hout. wp_steps. by apply Hout.
Qed.

(** The scheduled requests of a step advance. *)
Lemma wp_advance_step budget s0 s w E :
  halves budget s0 w s → fresh config s0 →
  budget ≤ max_num_scheduled_tokens config → (pause_state s0 = PAUSED_ALL → budget = 0) →
  wp (update_after_schedule (num_scheduled_tokens (step w)))
    (λ _ s', ∀ out, output_of_step (step w) (finished_req_ids s) out → stepped s out s' ∧ step_outcome s0 out s') E
    (set_prev_step (list_to_set (num_scheduled_tokens (step w)).*1) s).
Proof.
  intros [H1 (adm & Ha & H2) H3 H4 _] Hfr Hbud Hpau. eapply wp_call; [apply wp_update_after|].
  { rewrite (st_keys _ _ _ _ _ H2). apply H2. }
  { intros id (n & Hn)%od_get_some. destruct (st_each _ _ _ _ _ H2 id n Hn) as (_ & j & Hj & _). simpl. eauto. }
  intros structured s6 (s7 & Hadv & ->) out Hout. destruct H4 as (_ & Hp & Hf & Hfr').
  assert (stepped s out (set_finished (λ _, ∅) s7)) as Hst.
  { eapply step_done; try done; [by apply Hfr'|by rewrite Hp]. }
  split; [done|]. destruct (sd_outcome _ _ _ Hst) as [Q1 Q2 Q3 Q4 Q5 Q6 Q7]. rewrite Hp in Q5. rewrite Hf in Q6. by split.
Qed.

Lemma moved_sync came gone s s' : moved came gone s s' → sync s → sync s'.
Proof. intros [H1 _] Hs id j' Hj'. destruct (H1 id j' Hj') as (j & Hj & (_ & -> & _) & _). by apply (Hs id). Qed.

Lemma stepped_awaiting s out s' : stepped s out s' → inv s → sync s → awaiting out s'.
Proof.
  intros [D1 D2 D3 D4 D5 D6 (D7 & _) D8] Hs Hy. split; try done.
  - intros id n Hn. destruct (D4 id n Hn) as (Hpos & j & Hj & Hj1 & Hin & Hd). split; [done|]. intros j'.
    rewrite Hj1, D7. intros [= <-]. split; [done|].
    apply (advanced_ok s id j n _ (si_jobs _ _ Hs id j Hj) (si_running _ _ Hs id j Hin Hj) Hd). by apply (Hy id).
  - intros id j. rewrite D7. intros Hin Hno. destruct (D5 id Hno) as [-> Hset]. by apply Hset.
  - intros id j'. destruct (decide (id ∈ keys (out_num_scheduled_tokens out))) as [(n & Hn)%od_get_some|Hno].
    + destruct (D4 id n Hn) as (_ & j & Hj & -> & _). intros [= <-]. exact (Hy id j Hj).
    + destruct (D5 id Hno) as [-> _]. apply Hy.
Qed.

(** A step that ends with [output]. *)
Lemma wp_schedule_with output s (Post : SchedulerOutput → SC → Prop) E :
  config_ok config → empty_ok → calm s →
  (∀ budget w prefix s', halves budget s w s' → budget ≤ max_num_scheduled_tokens config → (pause_state s = PAUSED_ALL → budget = 0) →
     wp (output w prefix) Post E s') →
  wp (schedule_with empty_queue config output) (λ o s', ∃ out, o = Some out ∧ Post out s') E s.
Proof.
  intros Hc He Hr HP. unfold schedule_with. wp_steps. unfold id.
  set (budget := token_budget (first_step config s)).
  assert (budget ≤ max_num_scheduled_tokens config ∧ (pause_state s = PAUSED_ALL → budget = 0)) as [Hbud Hpau].
  { unfold budget, first_step. simpl. destruct Hc. destruct (pause_state s); done. }
  eapply wp_call; [by apply wp_first_half|]. intros o s1 (st & -> & _ & Hs1 & Hst & Hk & Hm). apply wp_bind.
  eapply wp_call; [by eapply (wp_second_half _ s s1)|]. intros o s2 (w & -> & Hh). cbv zeta.
  pose proof Hh as [H1 (adm & Ha & [T1 T2 T3 T4 T5 T6 T7 T8 T9 T10]) H3 H4 _].
  apply wp_bind, wp_assert; [lia|]. apply wp_bind, wp_assert; [lia|]. wp_steps.
  apply wp_assert; [apply Z.leb_le, H1|]. wp_steps. apply wp_assert.
  { apply Nat.leb_le. rewrite <-length_app, Nat.add_comm, <-Ha, <-length_app. apply submseteq_length, NoDup_submseteq; [done|].
    intros id Hin. rewrite <-T1 in Hin. destruct (od_get_some id _ Hin) as [n Hn]. by destruct (T6 id n Hn). }
  wp_steps. eapply wp_call; [by eapply wp_common_prefix|]. intros prefix s3 [Hh3 _]. apply wp_bind.
  eapply wp_call; [by apply (HP budget)|]. intros out s4 Ho. wp_steps. by exists out.
Qed.

(** A step from a ready state. *)
Lemma wp_schedule s E :
  config_ok config → empty_ok → ready s →
  wp (schedule empty_queue config) (λ o s', ∃ out, o = Some out ∧ awaiting out s' ∧ step_outcome s out s') E s.
Proof.
  intros Hc He Hr. apply wp_schedule_with; [done|done|by apply ready_calm|]. intros budget w prefix s' Hh Hbud Hpau.
  eapply wp_make_output_with; [done|]. unfold sync_after_schedule. apply wp_bind.
  eapply wp_call; [apply (wp_advance_step budget s); try done; apply Hr|]. intros b s2 Hout. wp_steps. intros out Ho.
  destruct (Hout out Ho) as [Hst Hoc]. split; [|done]. eapply stepped_awaiting; [done|apply Hh|].
  destruct (ha_moved _ _ _ _ Hh) as (c & g & _ & Hm). eapply moved_sync; [done|]. apply Hr.
Qed.
End main.
