(* ===== verification/SchedulerLive.v ===== *)
(** Progress of scheduling. When the cache has room for one request of the model's length, a
    step gives tokens to the oldest running request that has some left to compute, preempting
    the others if it must, and with nothing running it starts the request at the head of the
    waiting queues. *)
From S2P Require Import Prelude.
From S2P Require Import Dict.
From S2P Require Import Request.
From S2P Require Import StopCheck.
From S2P Require Import RequestQueue.
From S2P Require Import KVCacheManager.
From S2P Require Import Scheduler.
From S2P Require Import SchedulerInv.
From S2P Require Import SchedulerStep.
From S2P Require Import SchedulerWait.
From S2P Require Import SchedulerMain.
Local Open Scope Z_scope.

(** The cache does not refuse a request that has it for itself. *)
Class KVCacheRoom (K : Type) `{!KVCache K} (mml : Z) `{!KVCachePromise K mml} : Prop := {
  room_grow : ∀ k r new lookahead, kv_good k → req_ok r → covered k (request_id r) (num_computed_tokens r) →
    0 ≤ num_computed_tokens r ≤ mml → num_tokens r ≤ mml → 0 < new → 0 ≤ lookahead →
    (∀ x, x ≠ request_id r → absent k x) →
    ∃ b p, kvc_allocate new 0 None lookahead (k, r) = (Ret (Some b), p);
  room_start : ∀ k r, kv_good k → req_ok r → (∀ x, absent k x) → num_computed_tokens r = 0 →
    1 ≤ num_tokens r ≤ mml →
    ∃ b h, kvc_computed (k, r) = (Ret (Some (b, h)), (k, r)) ∧ 0 ≤ h < num_tokens r ∧
      ∀ new lookahead, 0 < new → 0 ≤ lookahead →
        ∃ b' p, kvc_allocate new h (Some b) lookahead (k, r) = (Ret (Some b'), p)
}.

(** ** Decisions are not taken back *)

(** Partial correctness: exceptions are allowed. *)
Definition anyexc {St} : exc → St → Prop := λ _ _, True.

Lemma wp_any {St A} (m : M St A) s : wp m (λ _ _, True) anyexc s.
Proof. unfold wp. by destruct (m s) as [[]]. Qed.

Lemma wp_exact {St A} (m : M St A) a s s' Post E : m s = (Ret a, s') → Post a s' → wp m Post E s.
Proof. unfold wp. by intros ->. Qed.

(** Two specifications of one run. *)
Lemma wp_and {St A} (m : M St A) P R E E' s :
  wp m P E s → wp m R E' s → wp m (λ a s', P a s' ∧ R a s') E s.
Proof. unfold wp. destruct (m s) as [[]]; tauto. Qed.

(** Steps over a call about which nothing needs to be known. *)
Ltac wp_skip := apply wp_bind; eapply wp_call; [apply wp_any|].

Section grows.
Context {Q : Type} `{!RequestQueue Q} {K : Type} `{!KVCache K}.
Context (empty_queue : Q) (config : SchedulerConfig).
Abbreviation SC := (Scheduler (Q := Q) (K := K)).
Implicit Types s : SC.

Definition scheduled (st : Step) : list string := keys (num_scheduled_tokens st).
Definition grows (st st' : Step) : Prop := scheduled st ⊆ scheduled st'.

Lemma grows_refl st : grows st st.
Proof. by intros x. Qed.

Lemma grows_set st st' id n :
  num_scheduled_tokens st' = od_set id n (num_scheduled_tokens st) → grows st st' ∧ id ∈ scheduled st'.
Proof.
  intros Heq. unfold grows, scheduled. rewrite Heq, od_set_keys. case_decide; split; try done; [intros x Hx; in_list|in_list].
Qed.

Lemma allocate_grows fuel id n st s :
  policy config = FCFS →
  wp (allocate_loop config fuel id n st)
    (λ o _, ∀ ob st', o = Some (ob, st') → num_scheduled_tokens st' = num_scheduled_tokens st) anyexc s.
Proof.
  intros Hpol. revert st s. induction fuel as [|fuel IH]; intros st s; simpl; [wp_steps; done|].
  wp_skip. intros [b|] s1 _; [wp_steps; by intros ob st' [= _ <-]|].
  apply wp_bind. eapply (wp_call _ (λ x _, x.2 = st)).
  { unfold choose_victim. rewrite Hpol. wp_steps. destruct (last (running s1)); [|done]. wp_steps. done. }
  intros [v st'] s2 Heq. simpl in Heq. subst st'. wp_skip. intros [] s3 _. case_bool_decide; [wp_steps; by intros ob st' [= _ <-]|].
  apply (IH (note_preempted v st)).
Qed.

Lemma running_grows fuel st s :
  policy config = FCFS → wp (running_loop config fuel st) (λ o _, ∀ st', o = Some st' → grows st st') anyexc s.
Proof.
  intros Hpol. revert st s. induction fuel as [|fuel IH]; intros st s; [done|]. cbn [running_loop]. wp_steps.
  destruct (_ && _); [|wp_steps; intros st' [= <-]; apply grows_refl].
  wp_skip. intros id s1 _. wp_skip. intros j s2 _. destruct (_ || _); [apply (IH (advance st))|].
  apply wp_bind. eapply wp_call; [by apply allocate_grows|]. intros [[ob st1]|] s3 Heq; [|wp_steps; done].
  specialize (Heq ob st1 eq_refl). destruct ob as [b|].
  - wp_skip. intros j' s4 _. wp_skip. intros [] s5 _. eapply wp_call; [apply IH|].
    intros o s6 Ho st' ->. specialize (Ho st' eq_refl). intros x Hx. apply Ho.
    apply (grows_set st1 _ id (running_new_tokens config (req j) (token_budget st))); [done|]. unfold scheduled. by rewrite Heq.
  - wp_steps. intros st' [= <-] x. unfold scheduled. by rewrite Heq.
Qed.

Lemma admit_grows c id n h w s :
  wp (admit_waiting c id n h w) (λ w' _, grows (step w) (step w') ∧ id ∈ scheduled (step w')) anyexc s.
Proof.
  unfold admit_waiting. wp_skip. intros r s1 _. wp_skip. intros [] s2 _. wp_skip. intros j s3 _. wp_skip. intros [a b] s4 _.
  wp_skip. intros bl s5 _. wp_skip. intros [] s6 _. wp_steps. by apply (grows_set _ _ id n).
Qed.

Lemma waiting_grows fuel w s :
  wp (waiting_loop config fuel w) (λ o _, ∀ w', o = Some w' → grows (step w) (step w')) anyexc s.
Proof.
  revert w s. induction fuel as [|fuel IH]; intros w s; [done|]. cbn [waiting_loop]. wp_steps.
  destruct (negb _); [wp_steps; intros w' [= <-]; apply grows_refl|]. destruct (_ =? _); [wp_steps; intros w' [= <-]; apply grows_refl|].
  wp_skip. intros sel s1 _. wp_skip. intros c s2 _. wp_skip. intros e s3 _. wp_skip. intros j s4 _. wp_skip. intros [] s5 _.
  - wp_skip. intros r s6 _. wp_skip. intros [] s7 _. apply (IH (mkWaitStep (step w) _ _ _)).
  - wp_skip. intros [[[b local] h]|] s6 _; [|wp_steps; done]. wp_skip. intros j' s7 _.
    destruct (waiting_new_tokens _ _ _ _) as [n|]; [|wp_steps; intros w' [= <-]; apply grows_refl].
    wp_skip. intros [] s8 _. wp_skip. intros [b'|] s9 _; [|wp_steps; intros w' [= <-]; apply grows_refl].
    apply wp_bind. eapply wp_call; [apply admit_grows|]. intros w' s10 [Hg _]. eapply wp_call; [apply IH|].
    intros o s11 Ho w'' ->. intros x Hx. by apply (Ho w'' eq_refl), Hg.
Qed.
End grows.

(** ** The oldest running request *)

Section live.
Context {Q : Type} `{HQ : RequestQueueLaws Q} {K : Type} `{!KVCache K}.
Context (config : SchedulerConfig) `{!KVCachePromise K (max_model_len config)}.
Context `{!KVCacheRoom K (max_model_len config)} (empty_queue : Q).
Abbreviation SC := (Scheduler (Q := Q) (K := K)).
Abbreviation inv := (sched_inv (extra := []) config).
Implicit Types s : SC.

Lemma alone s id : inv s → fresh config s → (∀ x, x ∈ running s → x = id) →
  ∀ x, x ≠ id → absent (kv_cache_manager s) x.
Proof.
  intros Hs Hf Hrun x Hne. destruct (requests s !! x) as [j|] eqn:Hj; [|by apply Hf].
  assert (x ∈ all_ids (extra := []) s) as Hin by (apply (si_dom _ _ Hs); eauto).
  apply elem_of_app in Hin as [Hin|(e & -> & He)%list_elem_of_fmap]; [by apply Hrun in Hin|].
  destruct (si_queued _ _ Hs e He) as (j' & Hj' & _ & [_ _ Ha]). rewrite Hj in Hj'. injection Hj' as <-.
  by rewrite (jk_id _ _ _ (si_jobs _ _ Hs _ _ Hj)) in Ha.
Qed.

Lemma wp_grow_alone s id j n :
  inv s → fresh config s → running s = [id] → requests s !! id = Some j → 0 < n → 0 ≤ num_lookahead_tokens config →
  wp (kv_call id (kvc_allocate n 0 None (num_lookahead_tokens config))) (λ o _, o ≠ None) noexc s.
Proof.
  intros Hs Hf Hrun Hj Hn Hla. assert (id ∈ running s) as Hin by (rewrite Hrun; by left).
  pose proof (si_jobs _ _ Hs id j Hj) as [J1 J2 J3 J4 J5]. destruct (si_running _ _ Hs id j Hin Hj) as [R1 R2 R3].
  apply (wp_kv_call s id j); [done|].
  destruct (room_grow (kv_cache_manager s) (req j) n (num_lookahead_tokens config)) as (b & p & Heq); try done;
    [apply Hs|by rewrite J1|lia| |unfold wp; by rewrite Heq].
  rewrite J1. apply alone; try done. rewrite Hrun. by intros x ->%list_elem_of_singleton.
Qed.

Lemma wp_fcfs_victim s st v :
  inv s → policy config = FCFS → last (running s) = Some v →
  wp (choose_victim config st) (λ x s', x = (v, st) ∧ s' = set_running (list_remove_first v) s) noexc s.
Proof.
  intros Hs Hpol Hl. unfold choose_victim. rewrite Hpol. wp_steps. eapply wp_from_option; [done|]. wp_steps.
  split; [done|]. unfold set_running. by rewrite (remove_first_last v) by (by try apply (running_nodup _ _ Hs)).
Qed.

(** Everyone else is preempted before the oldest request. *)
Lemma wp_allocate_head fuel id n s st j rest :
  inv s → fresh config s → policy config = FCFS → running s = id :: rest → requests s !! id = Some j → 0 < n →
  0 ≤ num_lookahead_tokens config → (length (running s) < fuel)%nat →
  wp (allocate_loop config fuel id n st) (λ o s', inv s' ∧ (∃ rest', running s' = id :: rest') ∧
    (∃ j', requests s' !! id = Some j' ∧ memo_job_eq j j') ∧
    ∃ b st', o = Some (Some b, st') ∧ req_index st' = req_index st) noexc s.
Proof.
  revert s st j rest. induction fuel as [|fuel IH]; intros s st j rest Hs Hf Hpol Hrun Hj Hn Hla Hfuel; [lia|]. simpl.
  assert (id ∈ running s) as Hin by (rewrite Hrun; by left). apply wp_bind.
  destruct rest as [|y rest] using rev_ind.
  { eapply wp_call; [eapply wp_and; [by apply (wp_grow (extra := []) config s id j)|by eapply wp_grow_alone]|].
    intros [b|] s1 [(Hs1 & Hc & _) Hne]; [|done]. wp_steps. destruct (called_job _ id j s s1 Hc) as (j1 & Hj1 & Hm).
    destruct Hc as [_ -> _ _ _ _ _ _]. eauto 10. }
  clear IHrest. eapply wp_call; [by apply (wp_grow (extra := []) config s id j)|]. intros o s1 (Hs1 & Hc & _).
  destruct (called_job _ id j s s1 Hc) as (j1 & Hj1 & Hm). pose proof Hc as [_ Hr1 _ _ _ _ _ _].
  destruct o as [b|]; [wp_steps; rewrite Hr1; eauto 10|].
  assert (fresh config s1) as Hf1 by (eapply (kept_called config id j s s1); done).
  assert (last (running s1) = Some y) as Hl by (rewrite Hr1, Hrun, app_comm_cons; apply last_snoc).
  apply wp_bind. eapply wp_call; [by apply wp_fcfs_victim|]. intros x s2 [-> ->]. simpl.
  assert (y ∈ running s1) as Hy by by apply last_Some_elem_of.
  destruct (running_known _ s1 y Hs1 Hy) as [jy Hjy].
  apply wp_bind. eapply wp_call; [by apply (wp_preempt (extra := []) config s1 y jy)|]. intros [] s3 [Hs3 Hd].
  assert (fresh config s3) as Hf3 by (eapply (kept_dropped config y jy s1 s3); done).
  destruct Hd as [Dreq Dr _ _ _ _ _ _]. pose proof (running_nodup _ _ Hs) as Hnd. rewrite Hrun in Hnd.
  assert (y ≠ id) as Hne.
  { intros ->. apply NoDup_cons in Hnd as [Hx _]. apply Hx. in_list. }
  rewrite bool_decide_false by done.
  eapply wp_call; [apply (IH s3 _ j1 rest); try done|].
  - rewrite Dr, Hr1, Hrun, app_comm_cons, <-(remove_first_last y), length_app; [|done|by rewrite last_snoc].
    change (length [y]) with 1%nat. rewrite Nat.add_sub. apply take_app_length.
  - by rewrite Dreq, lookup_insert_ne.
  - rewrite Dr. rewrite <-Hr1, (length_remove_first y (running s1)) in Hfuel by done. lia.
  - intros o s4 (H1 & H2 & (j' & Hj' & Hm') & b & st' & Ho & Hi). split_and!; [done|done| |eauto].
    exists j'. split; [done|]. destruct Hm as (r1 & Hr & ->), Hm' as (r2 & Hr' & ->). exists r2. split; [by eapply same_memo_trans|done].
Qed.

(** ** What is decided is in the output *)

Definition puts (id : string) (o : option SchedulerOutput) : Prop :=
  ∀ out, o = Some out → id ∈ keys (out_num_scheduled_tokens out).

Lemma schedule_puts s id :
  wp (running_loop config (S (length (running s))) (first_step config s))
    (λ o s1, ∀ st, o = Some st →
       wp (schedule_waiting empty_queue config st) (λ o' _, ∀ w, o' = Some w → id ∈ scheduled (step w)) anyexc s1) anyexc s →
  wp (schedule empty_queue config) (λ o _, puts id o) anyexc s.
Proof.
  intros H1. unfold schedule, schedule_with. wp_steps. unfold Datatypes.id. eapply wp_call; [exact H1|]. intros [st|] s1 H2; [|by wp_steps].
  apply wp_bind. eapply wp_call; [by apply H2|]. intros [w|] s2 H3; [|by wp_steps]. specialize (H3 w eq_refl). cbv zeta.
  wp_skip. intros [] s3 _. wp_skip. intros [] s4 _. wp_skip. intros ids s5 _. wp_skip. intros [] s6 _. wp_skip. intros [] s7 _.
  wp_skip. intros prefix s8 _. apply wp_bind.
  eapply (wp_call _ (λ out _, out_num_scheduled_tokens out = num_scheduled_tokens (step w))).
  - unfold make_output, make_output_with, sync_after_schedule. destruct (if use_v2_model_runner config then _ else _) as [new_reqs resumed].
    wp_skip. intros d s9 _. wp_skip. intros c s10 _. wp_skip. intros [] s11 _. wp_skip. intros f s12 _. wp_skip. intros [b b2] s13 _. by wp_steps.
  - intros out s9 Ho. wp_steps. intros out' [= <-]. by rewrite Ho.
Qed.

Lemma schedule_waiting_puts st s id :
  id ∈ scheduled st →
  wp (schedule_waiting empty_queue config st) (λ o' _, ∀ w, o' = Some w → id ∈ scheduled (step w)) anyexc s.
Proof.
  intros Hin. unfold schedule_waiting. wp_steps. destruct (_ && _); [|wp_steps; by intros w [= <-]].
  apply wp_bind. eapply wp_call; [apply waiting_grows|]. intros [w|] s1 Hg; [|by wp_steps].
  wp_skip. intros [] s2 _. wp_steps. intros w' [= <-]. by apply (Hg w eq_refl).
Qed.

(** The first turn of the running loop. *)
Lemma schedule_head s id j rest :
  config_ok config → ready config s → policy config = FCFS → pause_state s ≠ PAUSED_ALL → 0 < max_num_scheduled_tokens config →
  running s = id :: rest → requests s !! id = Some j →
  num_computed_tokens (req j) < num_tokens_with_spec (req j) → num_computed_tokens (req j) < max_model_len config - 1 →
  wp (schedule empty_queue config) (λ o _, puts id o) anyexc s.
Proof.
  intros [_ Hla] [Hs Hf _ _ Hy] Hpol Hpause Hbud Hrun Hj Hleft Hfit. apply schedule_puts.
  assert (token_budget (first_step config s) = max_num_scheduled_tokens config) as Hb.
  { unfold first_step. simpl. by destruct (pause_state s). }
  assert (0 < running_new_tokens config (req j) (max_num_scheduled_tokens config)) as Hn.
  { unfold running_new_tokens. rewrite (Hy id j Hj). destruct (_ && _) eqn:Ht; lia. }
  cbn [running_loop]. wp_steps. rewrite Hb. simpl req_index. rewrite Hrun.
  rewrite (proj2 (Z.ltb_lt _ _)) by (simpl; lia). rewrite (proj2 (Z.ltb_lt _ _)) by done. cbn [andb].
  apply wp_bind. eapply wp_from_option; [done|]. apply wp_bind, (wp_get_job s id j); [done|]. cbv zeta.
  assert (surely_finished (req j) = false) as -> by (unfold surely_finished; by rewrite (Hy id j Hj)).
  rewrite (proj2 (Z.eqb_neq _ _)) by lia. cbn [orb]. apply wp_bind.
  eapply wp_mono; [eapply (wp_allocate_head _ id _ s _ j rest); try done; rewrite Hrun; simpl; lia| |by intros ? ? []].
  intros o s1 (_ & _ & _ & b & st1 & -> & _). wp_skip. intros j' s2 _. wp_skip. intros [] s3 _.
  eapply wp_call; [by apply running_grows|]. intros o s4 Hg st ->. apply schedule_waiting_puts, (Hg st eq_refl).
  by apply (grows_set st1 _ id (running_new_tokens config (req j) (max_num_scheduled_tokens config))).
Qed.

(** ** The head of the waiting queues *)

(** The request the waiting loop looks at first, and that it may be started. *)
Record first_waiting s (id : string) (j : Job) : Prop := {
  fw_front : ∃ c e, select_waiting_queue config s = (Ret (Some c), s) ∧ front (chosen_of c s) e ∧ request_id e = id;
  fw_job : requests s !! id = Some j;
  fw_unblocked : is_blocked_waiting_status (status (req j)) = false
}.

(** With chunked prefill a request that is not computed yet gets tokens. *)
Lemma waiting_tokens_some r h budget :
  enable_chunked_prefill config = true → waiting_new_tokens config r h budget ≠ None.
Proof. intros Hch. unfold waiting_new_tokens. by rewrite Hch. Qed.

Lemma waiting_first fuel s w id j :
  inv s → fresh config s → running s = [] → 0 < max_num_running_reqs config → 0 < token_budget (step w) →
  enable_chunked_prefill config = true → first_waiting s id j →
  wp (waiting_loop config (S fuel) w) (λ o _, ∀ w', o = Some w' → id ∈ scheduled (step w')) anyexc s.
Proof.
  intros Hs Hf Hrun Hmax Hbud Hch [(c & e & Hsel & Hfr & Hid) Hj Hblk].
  assert (queue_inv (chosen_of c s)) as Hq by (destruct c; apply Hs).
  pose proof (front_in _ _ Hq Hfr) as Hin.
  assert (e ∈ queued (extra := []) s) as Heq by (unfold queued; destruct c; simpl in Hin; in_list).
  destruct (si_queued _ _ Hs e Heq) as (j0 & Hj0 & _ & [Q1 Q2 Q3]). rewrite Hid, Hj in Hj0. injection Hj0 as <-.
  destruct (si_jobs _ _ Hs id j Hj) as [J1 J2 J3 J4 J5].
  assert (∀ x, absent (kv_cache_manager s) x) as Habs.
  { intros x. destruct (decide (x = id)) as [->|Hne]; [by rewrite J1 in Q3|]. apply (alone s id); try done.
    rewrite Hrun. by intros y ?%elem_of_nil. }
  destruct (room_start (kv_cache_manager s) (req j)) as (b & h & Hcomp & Hh & Hal); try done; [apply Hs|].
  cbn [waiting_loop]. wp_steps. unfold Datatypes.id.
  assert (queue_bool (waiting s) || queue_bool (skipped_waiting s) = true) as ->.
  { rewrite !law_bool. destruct c; simpl in Hin; [|rewrite orb_comm]; rewrite bool_decide_true; try done; by intros Hn; rewrite Hn in Hin; apply elem_of_nil in Hin. }
  rewrite (proj2 (Z.ltb_lt _ _)) by done. cbn [andb negb]. rewrite Hrun. rewrite (proj2 (Z.eqb_neq _ _)) by (simpl; lia).
  apply wp_bind. eapply wp_exact; [exact Hsel|]. apply wp_bind. eapply wp_from_option; [done|].
  apply wp_bind, wp_peek; [done|by intros Hn; rewrite Hn in Hin; apply elem_of_nil in Hin|]. intros e' Hfr'.
  assert (e' = e) as ->. { destruct Hfr as [xs Hx], Hfr' as [ys Hy]. congruence. }
  rewrite Hid. apply wp_bind, (wp_get_job s id j); [done|]. rewrite Hblk. wp_steps.
  unfold computed_of_waiting. apply wp_bind, (wp_get_job s id j); [done|]. rewrite Q2. cbn [Z.eqb]. apply wp_bind, (wp_kv_call s id j); [done|].
  eapply wp_exact; [exact Hcomp|]. rewrite (kv_after_same s id j Hj). apply wp_bind, wp_assert; [lia|]. wp_steps.
  apply (wp_get_job s id j); [done|].
  destruct (waiting_new_tokens config (req j) h (token_budget (step w))) as [n|] eqn:Hn; [|by apply waiting_tokens_some in Hn].
  destruct (waiting_tokens config (req j) h _ n ltac:(lia) Hbud Hn) as [N1 N2].
  apply wp_bind, wp_assert; [lia|]. rewrite Q2. cbn [Z.eqb]. cbv zeta.
  apply wp_bind, (wp_kv_call s id j); [done|]. destruct (Hal n 0) as (b' & p & Hrun'); [lia|done|]. eapply wp_exact; [exact Hrun'|].
  apply wp_bind. eapply wp_call; [apply admit_grows|]. intros w' s1 [_ Hw]. eapply wp_call; [apply waiting_grows|].
  intros o s2 Hg w2 ->. by apply (Hg w2 eq_refl).
Qed.

Lemma schedule_first s id j :
  ready config s → running s = [] → pause_state s = UNPAUSED → 0 < max_num_scheduled_tokens config →
  0 < max_num_running_reqs config → enable_chunked_prefill config = true → first_waiting s id j →
  wp (schedule empty_queue config) (λ o _, puts id o) anyexc s.
Proof.
  intros [Hs Hf _ _ _] Hrun Hp Hbud Hmax Hch Hfw. apply schedule_puts. rewrite Hrun. cbn [length running_loop]. wp_steps.
  rewrite Hrun. cbn [length]. simpl req_index. cbn [Z.of_nat Z.ltb Z.compare andb]. wp_steps. intros st [= <-].
  unfold schedule_waiting. wp_steps. unfold Datatypes.id. rewrite Hp, !bool_decide_true by done. cbn [andb].
  apply wp_bind. eapply wp_call; [by eapply waiting_first; try done; unfold first_step; simpl; rewrite Hp|].
  intros [w|] s1 Hg; [|by wp_steps]. wp_skip. intros [] s2 _. wp_steps. intros w' [= <-]. by apply Hg.
Qed.

(** ** Steps that make progress *)

(** The step returns, and [id] is among the scheduled requests. *)
Definition progresses s (id : string) : Prop :=
  ∃ out s' n, schedule empty_queue config s = (Ret (Some out), s') ∧ awaiting config out s' ∧
    od_get id (out_num_scheduled_tokens out) = Some n ∧ 0 < n.

Lemma progress_of s id :
  config_ok config → empty_ok empty_queue → ready config s →
  wp (schedule empty_queue config) (λ o _, puts id o) anyexc s → progresses s id.
Proof.
  intros Hc He Hr Hp. destruct (wp_run _ _ _ (wp_schedule config empty_queue s noexc Hc He Hr)) as (o & s' & Hrun & out & -> & H1 & _).
  unfold wp in Hp. rewrite Hrun in Hp. destruct (od_get_some id _ (Hp out eq_refl)) as [n Hn].
  exists out, s', n. split_and!; try done. by apply (pd_each _ _ _ _ H1 id n).
Qed.
End live.
