(* ===== verification/SchedulerUpdate.v ===== *)
(** The model's answer to a step, and the calls from outside: sampled tokens are appended
    until one stops the request, rejected drafts are taken back, stopped and aborted requests
    leave every list, the table and the cache, and what remains is ready for the next step. *)
From S2P Require Import Prelude.
From S2P Require Import Dict.
From S2P Require Import Request.
From S2P Require Import StopCheck.
From S2P Require Import RequestQueue.
From S2P Require Import KVCacheManager.
From S2P Require Import Scheduler.
From S2P Require Import SchedulerInv.
From S2P Require Import SchedulerStep.
From S2P Require Import SchedulerWait.
From S2P Require Import SchedulerMain.
Local Open Scope Z_scope.

Section update.
Context {Q : Type} `{HQ : RequestQueueLaws Q} {K : Type} `{!KVCache K}.
Context (config : SchedulerConfig) `{!KVCachePromise K (max_model_len config)}.
Context (append_tokens : list Z → M Request bool).
Abbreviation SC := (Scheduler (Q := Q) (K := K)).
Abbreviation inv := (sched_inv (extra := []) config).
Implicit Types s : SC.

(** ** Appending sampled tokens *)

(** Tokens are appended to the output; nothing that the scheduler reads changes otherwise. *)
Record extended (ts : list Z) (r r' : Request) : Prop := {
  ex_all : all_token_ids r' = all_token_ids r ++ ts;
  ex_output : output_token_ids r' = output_token_ids r ++ ts;
  ex_key : same_key r r';
  ex_status : status r' = status r;
  ex_computed : num_computed_tokens r' = num_computed_tokens r;
  ex_sync : num_output_placeholders r' = num_output_placeholders r;
  ex_resumable : resumable r' = resumable r;
  ex_sampling : sampling_params r' = sampling_params r
}.
Definition append_ok : Prop :=
  ∀ t r, req_ok r → wp (append_tokens [t]) (λ _ r', req_ok r' ∧ extended [t] r r') noexc r.

(** The request after the sampled tokens [ts]. *)
Record updated (ts : list Z) (stopped : bool) (r r' : Request) : Prop := {
  up_all : all_token_ids r' = all_token_ids r ++ ts;
  up_output : output_token_ids r' = output_token_ids r ++ ts;
  up_ok : req_ok r';
  up_key : same_key r r';
  up_computed : num_computed_tokens r' = num_computed_tokens r;
  up_sync : num_output_placeholders r' = num_output_placeholders r;
  up_plain : plain config r';
  up_verdict : if stopped then is_finished (status r') = true
    else status r' = status r ∧ num_tokens r' < max_model_len config
}.

Lemma extended_tokens ts r r' : extended ts r r' → num_tokens r' = num_tokens r + Z.of_nat (length ts) ∧
  num_output_tokens r' = num_output_tokens r + Z.of_nat (length ts).
Proof. intros [H1 H2 _ _ _ _ _ _]. unfold num_tokens, num_output_tokens. rewrite H1, H2, !length_app. lia. Qed.

Lemma extended_plain ts r r' : extended ts r r' → plain config r → plain config r'.
Proof.
  intros Hx [H1 (sp & H2 & H3)]. pose proof (extended_tokens ts r r' Hx) as [Ha Hb].
  destruct Hx as [_ _ _ _ _ _ X1 X2]. split; [congruence|]. exists sp. split; [congruence|lia].
Qed.

(** One appended token and the stop check. *)
Lemma updated_stopped t r r' st why :
  req_ok r' → plain config r' → extended [t] r r' → is_finished st = true →
  updated [t] true r (set_stop_reason why (set_status st r')).
Proof.
  intros Hok Hp [X1 X2 X3 X4 X5 X6 X7 X8] Hst. split; try done. simpl. apply (req_ok_view r'); done.
Qed.

Lemma wp_check t r r' E :
  req_ok r' → plain config r → extended [t] r r' →
  wp (check_stop (max_model_len config)) (λ b r'', updated [t] b r r'') E r'.
Proof.
  intros Hok Hp Hx. pose proof (extended_plain _ _ _ Hx Hp) as Hp'. pose proof Hp' as [P1 (sp & P2 & P3)].
  pose proof (extended_tokens _ _ _ Hx) as [T1 T2]. simpl in T1, T2. pose proof Hx as [X1 X2 X3 X4 X5 X6 X7 X8].
  destruct (check_stop_run (max_model_len config) r' sp _ t P2 X2) as (rep & _ & Hrun).
  assert (num_tokens r' < max_model_len config → updated [t] false r r') as Hgo by (intros; by split).
  unfold wp. rewrite Hrun. clear Hrun. case_bool_decide as Hmin; [apply Hgo; lia|].
  unfold stop_verdict. case_bool_decide; [by eapply updated_stopped|]. case_bool_decide; [by eapply updated_stopped|].
  case_bool_decide as Hlen; [by eapply updated_stopped|]. destruct rep; [by eapply updated_stopped|]. apply Hgo. lia.
Qed.

Lemma same_key_trans r1 r2 r3 : same_key r1 r2 → same_key r2 r3 → same_key r1 r3.
Proof. intros (?&?&?&?) (?&?&?&?). unfold same_key. split_and!; congruence. Qed.

Lemma updated_trans ts ts' b r1 r2 r3 : updated ts false r1 r2 → updated ts' b r2 r3 → updated (ts ++ ts') b r1 r3.
Proof.
  intros [A1 A2 A3 A4 A5 A6 A7 (A8 & A9)] [B1 B2 B3 B4 B5 B6 B7 B8].
  split; try done; [rewrite B1, A1; apply eq_sym, app_assoc|rewrite B2, A2; apply eq_sym, app_assoc|by eapply same_key_trans|congruence..|].
  destruct b; [done|]. destruct B8 as (B8 & B9). split; [congruence|done].
Qed.

(** Tokens are appended up to the first that stops the request. *)
Lemma wp_update_request gens dn r E :
  append_ok → gens ≠ [] → req_ok r → plain config r →
  wp (update_request_with_output config append_tokens gens dn)
    (λ x r', ∃ k, (0 < k)%nat ∧ updated (take k gens) x.2 r r' ∧
       x.1 = dn ++ take k gens ∧ (x.2 = false → k = length gens)) E r.
Proof.
  intros Ha. revert dn r. induction gens as [|t gens IH]; intros dn r Hne Hok Hp; [done|]. simpl.
  apply wp_bind. eapply wp_mono; [by apply Ha| |by intros ? ? []]. intros b r1 [Hok1 Hx]. apply wp_bind.
  eapply wp_call; [by apply (wp_check t r r1)|]. intros stopped r2 Hup. destruct stopped.
  - wp_steps. exists 1%nat. simpl. split_and!; [lia|done|done|done].
  - destruct gens as [|t2 gens].
    + simpl. wp_steps. exists 1%nat. split_and!; [lia|done|done|done].
    + eapply wp_call; [apply IH; [done|apply Hup|apply Hup]|]. intros [ids b2] r3 (k & Hk0 & Hup2 & Hk & Hall). simpl in *.
      exists (S k). split_and!; [lia|by apply (updated_trans [t] (take k (t2 :: gens)) b2 r r2)|by rewrite Hk, <-app_assoc|]. intros ->. by rewrite Hall.
Qed.

(** ** Requests that leave *)

(** The state without the requests of [ids]. *)
Record removed (ids : list string) s s' : Prop := {
  rm_requests : ∀ x, requests s' !! x = if decide (x ∈ ids) then None else requests s !! x;
  rm_running : running s' = filter (.∉ ids) (running s);
  rm_queued : queued (extra := []) s' ≡ₚ filter (λ e, request_id e ∉ ids) (queued (extra := []) s);
  rm_waiting : queue_inv (waiting s');
  rm_skipped : queue_inv (skipped_waiting s');
  rm_kv : kv_cache_manager s' = kv_cache_manager s;
  rm_waiting_ids : ∀ x, x ∉ ids → x ∈ waiting_ids s → x ∈ waiting_ids s'
}.

Lemma removed_ids ids s s' : removed ids s s' → all_ids (extra := []) s' ≡ₚ filter (.∉ ids) (all_ids (extra := []) s).
Proof.
  intros [R1 R2 R3 R4 R5 R6 _]. unfold all_ids. rewrite R2, R3, filter_app. apply Permutation_app_head.
  clear. generalize (queued (extra := []) s). intros l.
  induction l as [|e l IH]; [done|]. csimpl. rewrite !filter_cons. destruct (decide (request_id e ∉ ids)); csimpl; by rewrite ?IH.
Qed.

Lemma inv_removed ids s s' : inv s → removed ids s s' → inv s'.
Proof.
  intros [I1 I2 I3 I4 I5 I6 I7 I8 I9 I10] Hrm. pose proof (removed_ids ids s s' Hrm) as Hall.
  destruct Hrm as [R1 R2 R3 R4 R5 R6 _].
  assert (∀ x j, requests s' !! x = Some j → x ∉ ids ∧ requests s !! x = Some j) as Hlook.
  { intros x j. rewrite R1. by case_decide. }
  split; try done; rewrite ?R6; try done.
  - rewrite Hall. by apply NoDup_filter.
  - intros x. rewrite Hall, list_elem_of_filter, I4, R1. case_decide; [|naive_solver]. split; [by intros [? _]|by intros [? ?]].
  - rewrite R2. pose proof (length_filter (.∉ ids) (running s)). lia.
  - intros x j [_ Hj]%Hlook. by apply I7.
  - intros x j. rewrite R2, list_elem_of_filter. intros [_ Hin] [_ Hj]%Hlook. by apply I8.
  - intros e. rewrite R3, list_elem_of_filter. intros [Hno He]. destruct (I9 e He) as (j & Hj & ?). exists j. split; [|done].
    by rewrite R1, decide_False.
  - intros x x' j j' [_ H1]%Hlook [_ H2]%Hlook. by apply I10.
Qed.

(** A cache call that spares the requests of the table. *)
Lemma inv_elsewhere s k :
  inv s → kv_good k → (∀ x j, requests s !! x = Some j → (absent (kv_cache_manager s) x → absent k x) ∧
    ∀ n, covered (kv_cache_manager s) x n → covered k x n) → inv (with_kv k s).
Proof.
  intros [I1 I2 I3 I4 I5 I6 I7 I8 I9 I10] Hk Hsp. split; try done; simpl.
  - intros x j Hin Hj. destruct (I8 x j Hin Hj) as [R1 R2 R3]. split; try done. by eapply Hsp.
  - intros e He. destruct (I9 e He) as (j & Hj & Hkey & [Q1 Q2 Q3]). exists j. split_and!; [done|done|]. split; try done.
    destruct (I7 _ _ Hj) as [Hid _ _ _ _]. rewrite Hid in *. by eapply Hsp.
Qed.

(** [_free_request] of a finished request. *)
Definition freed s (id : string) (k : K) : SC :=
  mkScheduler (delete id (requests s)) (waiting s) (skipped_waiting s) (running s) (finished_req_ids s ∪ {[id]})
    (prev_step_scheduled_req_ids s) (pause_state s) k.

Lemma wp_sched_free_request s id j Post E :
  kv_good (kv_cache_manager s) → requests s !! id = Some j → request_id (req j) = id → is_finished (status (req j)) = true →
  (∀ k, kv_good k → absent k id → spares config id (kv_cache_manager s) k → Post tt (freed s id k)) →
  wp (sched_free_request id false) Post E s.
Proof.
  intros Hk Hj Hid Hst HP. unfold sched_free_request. apply wp_bind, (wp_get_job s id j); [done|].
  apply wp_bind, wp_assert; [done|]. wp_steps. unfold free_blocks_of. apply wp_bind, (wp_get_job _ id j); [done|].
  apply wp_bind, wp_assert; [done|]. apply wp_bind, (wp_kv_call _ id j); [done|]. simpl kv_cache_manager.
  eapply wp_mono; [by apply promise_free| |by intros ? ? []]. intros [] [k r] (K1 & Hr & K3 & K4). simpl in Hr. subst r. wp_steps.
  rewrite Hid in *. simpl in K1, K3, K4. specialize (HP k K1 K3 K4). unfold freed in HP. unfold set_requests, kv_after. simpl.
  rewrite (alter_known _ id j) by done. by rewrite delete_insert_eq.
Qed.

Lemma fresh_freed s id k :
  fresh config s → absent k id → spares config id (kv_cache_manager s) k → fresh config (freed s id k).
Proof.
  intros Hf Ha Hsp x. simpl. destruct (decide (id = x)) as [<-|Hne]; [done|]. rewrite lookup_delete_ne by done.
  intros Hx. apply Hsp; [congruence|]. by apply Hf.
Qed.
(** ** The answer for one request *)

(** What the model may answer: nothing only for a prompt that is not complete, else at least
    one token and at most one more than the drafts it was given. *)
Definition answer_ok (drafts : option (list Z)) (r : Request) (gens : list Z) : Prop :=
  match gens with
  | [] => num_computed_tokens r < num_tokens r
  | _ => (length gens ≤ length (default [] drafts) + 1)%nat
  end.

Lemma take_back_ok drafts gens r :
  in_flight config r drafts → num_output_placeholders r = 0 → 0 ≤ num_computed_tokens r → 1 ≤ num_tokens r →
  gens ≠ [] → answer_ok drafts r gens →
  ∃ c, take_back (default [] drafts) gens r = set_computed c r ∧ 0 ≤ c ≤ num_computed_tokens r ∧
    c < num_tokens r + Z.of_nat (length gens) ∧
    c = num_computed_tokens r - match default [] drafts with [] => 0 | ts => Z.of_nat (length ts) - (Z.of_nat (length gens) - 1) end.
Proof.
  intros [F1 F2] Hp H0 H1 Hne Ha. destruct gens as [|g gens]; [done|]. clear Hne. unfold answer_ok in Ha.
  destruct drafts as [ts|]; simpl default in *.
  - destruct F2 as [Hts Hc]. destruct ts as [|t ts]; [done|]. unfold take_back. simpl length in *.
    assert (0 <? num_computed_tokens r = true) as -> by lia. simpl num_output_placeholders. rewrite Hp. cbn [Z.ltb Z.compare].
    eexists. split; [done|]. lia.
  - exists (num_computed_tokens r). split; [by destruct r|]. simpl length. lia.
Qed.

Lemma wp_on_job {A} s id j (m : M Request A) Post E :
  requests s !! id = Some j →
  wp m (λ a r, Post a (set_requests (insert id (on_req (λ _, r) j)) s)) noexc (req j) → wp (on_job id m) Post E s.
Proof.
  intros Hj Hm. unfold on_job. apply wp_bind, (wp_get_job s id j); [done|]. unfold wp in Hm.
  destruct (m (req j)) as [[a|e] r]; [|done]. apply wp_bind, wp_upd_job. eapply wp_of_outcome; [done|].
  unfold set_requests in *. by rewrite (alter_known _ id j).
Qed.

(** A request goes on. *)
Lemma pending_settled id n todo drafts s j j' :
  pending config ((id, n) :: todo) drafts s → requests s !! id = Some j → obj_id (req j') = obj_id (req j) →
  job_ok config id j' → running_ok config (kv_cache_manager s) id j' → settled config (req j') → num_output_placeholders (req j') = 0 →
  pending config todo drafts (set_requests (insert id j') s).
Proof.
  intros [P1 P2 P3 P4 P5 P6 P7] Hj Hobj Hok Hrun Hset Hsy. csimpl in P3. apply NoDup_cons in P3 as [Hno Hnd].
  destruct (P4 id n) as [_ Hin]; [simpl; by rewrite decide_True|]. destruct (Hin j Hj) as [Hir _]. clear Hin.
  split; try done.
  - apply (inv_objects config s); try done; simpl.
    + intros x Hx. rewrite lookup_insert_ne; [done|]. by intros <-.
    + intros x jx Hx Hjx. destruct (decide (id = x)) as [<-|Hne].
      * rewrite lookup_insert_eq. exists j'. assert (jx = j) as -> by congruence. done.
      * rewrite lookup_insert_ne by done. exists jx. split_and!; [done|done|by apply P1|by apply P1].
  - eapply (fresh_insert config s _ id j); [done|done|done|apply spares_refl].
  - intros x m Hx. assert (id ≠ x) as Hne by (intros ->; apply Hno; by eapply od_get_in).
    destruct (P4 x m) as [Hm Hin]; [simpl; by rewrite decide_False|]. split; [done|]. simpl. rewrite lookup_insert_ne by done. done.
  - intros x jx Hx Hnx. simpl. destruct (decide (id = x)) as [<-|Hne]; [rewrite lookup_insert_eq; by intros [= <-]|].
    rewrite lookup_insert_ne by done. apply P5; [done|]. csimpl. rewrite not_elem_of_cons. done.
  - intros x jx. simpl. destruct (decide (id = x)) as [<-|Hne].
    + rewrite lookup_insert_eq. intros [= <-] Hst. destruct Hrun as [Hr _ _]. congruence.
    + rewrite lookup_insert_ne by done. apply P6.
  - intros x jx. simpl. destruct (decide (id = x)) as [<-|Hne]; [rewrite lookup_insert_eq; by intros [= <-]|].
    rewrite lookup_insert_ne by done. apply P7.
Qed.

(** What a cache call leaves to a request. *)
Definition spared (k k' : K) (x : string) : Prop :=
  (absent k x → absent k' x) ∧ ∀ n, covered k x n → covered k' x n.

Lemma spared_trans k1 k2 k3 x : spared k1 k2 x → spared k2 k3 x → spared k1 k3 x.
Proof. intros [A1 A2] [B1 B2]. split; auto. Qed.

(** Requests have gone, and the cache holds nothing of theirs. *)
Lemma pending_removed ids todo drafts s s' k :
  pending config todo drafts s → removed ids s s' → kv_good k → (∀ x, x ∈ ids → absent k x) →
  (∀ x, x ∉ ids → spared (kv_cache_manager s) k x) →
  prev_step_scheduled_req_ids s' = prev_step_scheduled_req_ids s →
  pending config todo drafts (with_kv k s').
Proof.
  intros [P1 P2 P3 P4 P5 P6 P7] Hrm Hk Ha Hsp Hprev.
  pose proof (inv_removed ids s s' P1 Hrm) as Hi. destruct Hrm as [R1 R2 R3 R4 R5 R6 _].
  assert (∀ x j, requests s' !! x = Some j → x ∉ ids ∧ requests s !! x = Some j) as Hlook.
  { intros x j. rewrite R1. by case_decide. }
  split; try done.
  - apply inv_elsewhere; try done.
    + intros x j Hj. destruct (Hlook x j Hj) as [Hx _]. rewrite R6. by apply Hsp.
  - intros x. simpl. rewrite R1. case_decide as Hx; [by intros _; apply Ha|]. intros Hn. apply Hsp; [done|]. by apply P2.
  - intros x m Hx. destruct (P4 x m Hx) as [Hm Hin]. split; [done|]. simpl. intros j [Hno Hj]%Hlook.
    destruct (Hin j Hj). rewrite R2, list_elem_of_filter. done.
  - simpl. intros x j. rewrite R2, list_elem_of_filter. intros [Hne Hx] Hnx [_ Hj]%Hlook. by apply (P5 x j).
  - intros x j. simpl. rewrite Hprev. intros [_ Hj]%Hlook. by apply P6.
  - intros x j [_ Hj]%Hlook. by apply (P7 x).
Qed.

(** A request that has gone meanwhile. *)
Lemma pending_skip id n todo drafts s :
  pending config ((id, n) :: todo) drafts s → requests s !! id = None → pending config todo drafts s.
Proof.
  intros [P1 P2 P3 P4 P5 P6 P7] Hj. csimpl in P3. apply NoDup_cons in P3 as [Hno Hnd]. split; try done.
  - intros x m Hx. apply P4. simpl. rewrite decide_False; [done|]. intros ->. apply Hno. by eapply od_get_in.
  - intros x j Hx Hnx Hjx. apply (P5 x j); try done. csimpl. rewrite not_elem_of_cons. split; [congruence|done].
Qed.

(** The state as it will be when the stopped requests have left the running list. *)
Definition view (u : Update) s : SC := set_running (λ l, remove_all l (stopped_running_reqs u)) s.

Record update_inv (todo : dict string Z) drafts (u : Update) s : Prop := {
  ui_pending : pending config todo drafts (view u s);
  ui_nodup : NoDup (running s);
  ui_preempted : stopped_preempted_reqs u = []
}.

Lemma update_stopped id n todo drafts u u' s s1 j k :
  update_inv ((id, n) :: todo) drafts u s → s1 = set_requests (insert id j) s →
  stopped_running_reqs u' = stopped_running_reqs u ++ [id] → stopped_preempted_reqs u' = [] →
  kv_good k → absent k id → spares config id (kv_cache_manager s) k →
  is_Some (requests s !! id) →
  update_inv todo drafts u' (freed s1 id k).
Proof.
  intros [Hp Hnd Hpre] -> Hu Hu' Hk Ha Hsp [j0 Hj0]. split; try done.
  set (sr := mkScheduler (delete id (requests s)) (waiting s) (skipped_waiting s) (filter (.∉ [id]) (running (view u s)))
    (finished_req_ids s ∪ {[id]}) (prev_step_scheduled_req_ids s) (pause_state s) (kv_cache_manager s)).
  assert (view u' (freed (set_requests (insert id j) s) id k) = with_kv k sr) as ->.
  { unfold view, freed, with_kv, sr, set_running, set_requests. simpl. rewrite delete_insert_eq. f_equal.
    rewrite Hu, !remove_all_filter by done. rewrite list_filter_filter. apply list_filter_iff. intros x.
    rewrite not_elem_of_app. tauto. }
  assert (id ∉ request_id <$> queued (extra := []) (view u s)) as Hnq.
  { apply (running_not_queued config _ _ (pd_inv _ _ _ _ Hp)). destruct (pd_each _ _ _ _ Hp id n) as [_ Hin]; [simpl; by rewrite decide_True|].
    by destruct (Hin j0 Hj0). }
  apply (pending_skip id n); [|by simpl; rewrite lookup_delete_eq].
  apply (pending_removed [id] _ _ (view u s)); try done.
  2: by intros x ->%list_elem_of_singleton.
  2: by intros x Hx; rewrite list_elem_of_singleton in Hx; apply Hsp.
  destruct (pd_inv _ _ _ _ Hp). split; try done.
  - intros x. simpl. destruct (decide (id = x)) as [<-|Hne]; [by rewrite lookup_delete_eq, decide_True by by left|].
    rewrite lookup_delete_ne by done. rewrite decide_False; [done|]. rewrite list_elem_of_singleton. congruence.
  - unfold queued in *. simpl in *. rewrite filter_all; [done|]. intros e He. rewrite list_elem_of_singleton. intros <-.
    apply Hnq. by apply list_elem_of_fmap_2.
Qed.

Lemma on_req_chain f r j : on_req (λ _, r) (on_req f j) = on_req (λ _, r) j.
Proof. done. Qed.

(** What the answer [gens] makes of a request with [drafts], and what is reported. The tokens up
    to the first that stops the request are appended, drafts that were not accepted no longer
    count as computed, and a stopped request is gone. *)
Definition verdict (drafts gens : list Z) (id : string) (j : Job) (after : option Job) (reported : list EngineCoreOutput) : Prop :=
  match gens with
  | [] => after = Some j ∧ num_computed_tokens (req j) < num_tokens (req j) ∧ reported = []
  | _ => ∃ k stopped r,
      update_request_with_output config append_tokens gens [] (take_back drafts gens (req j)) = (Ret (take k gens, stopped), r) ∧
      (0 < k ≤ length gens)%nat ∧ all_token_ids r = all_token_ids (req j) ++ take k gens ∧
      num_computed_tokens r = num_computed_tokens (req j) -
        match drafts with [] => 0 | _ => Z.of_nat (length drafts) - (Z.of_nat (length gens) - 1) end ∧
      (if stopped : bool then is_finished (status r) = true ∧ after = None
       else k = length gens ∧ status r = status (req j) ∧ num_computed_tokens r < num_tokens r < max_model_len config ∧
         after = Some (on_req (λ _, r) j)) ∧
      reported = [mkEngineCoreOutput (client_index j) id (take k gens)
        (if stopped then get_finished_reason (status r) else None) (stop_reason r) (Request.num_cached_tokens r)]
  end.

(** The turn of the request [id]; it may have gone since it was scheduled. *)
Definition turn (out : SchedulerOutput) (sampled : gmap string (list Z)) s (id : string) (after : option Job)
    (reported : list EngineCoreOutput) : Prop :=
  match requests s !! id with
  | None => after = None ∧ reported = []
  | Some j => ∃ gens, sampled !! id = Some gens ∧ verdict (default [] (od_get id (out_spec_decode_tokens out))) gens id j after reported
  end.

(** A request that goes on has tokens left to compute; it has more tokens than before, or
    nothing was sampled for it. *)
Lemma turn_answered out sampled s id j j' reported :
  turn out sampled s id (Some j') reported → requests s !! id = Some j →
  num_computed_tokens (req j') < num_tokens (req j') ∧ (num_tokens (req j) < num_tokens (req j') < max_model_len config ∨ j' = j).
Proof.
  unfold turn. intros Ht Hj. rewrite Hj in Ht. destruct Ht as (gens & _ & Hv). destruct gens as [|g gens].
  - destruct Hv as ([= ->] & ? & _). auto.
  - destruct Hv as (k & b & r & _ & Hk & Hall & _ & Hb & _). destruct b; [by destruct Hb as [_ ?]|]. destruct Hb as (-> & _ & Hr & [= ->]).
    unfold num_tokens in *. simpl. rewrite Hall, length_app, firstn_all in *. simpl in *. lia.
Qed.

(** A request whose first [k] sampled tokens were appended. *)
Record appended (drafts gens : list Z) (r : Request) (k : nat) (stopped : bool) (r' : Request) : Prop := {
  ap_run : update_request_with_output config append_tokens gens [] (take_back drafts gens r) = (Ret (take k gens, stopped), r');
  ap_some : (0 < k ≤ length gens)%nat;
  ap_updated : updated (take k gens) stopped (take_back drafts gens r) r';
  ap_computed : num_computed_tokens r' = num_computed_tokens r -
    match drafts with [] => 0 | _ => Z.of_nat (length drafts) - (Z.of_nat (length gens) - 1) end;
  ap_all : stopped = false → k = length gens
}.

Lemma wp_appended drafts gens r E :
  append_ok → gens ≠ [] → req_ok (take_back (default [] drafts) gens r) → plain config r →
  (∃ c, take_back (default [] drafts) gens r = set_computed c r ∧ c = num_computed_tokens r -
     match default [] drafts with [] => 0 | ts => Z.of_nat (length ts) - (Z.of_nat (length gens) - 1) end) →
  wp (update_request_with_output config append_tokens gens [])
    (λ x r', ∃ k, appended (default [] drafts) gens r k x.2 r' ∧ x.1 = take k gens) E (take_back (default [] drafts) gens r).
Proof.
  intros Ha Hne Hok Hp (c & Htb & Hc).
  assert (plain config (take_back (default [] drafts) gens r)) as Hp' by by rewrite Htb.
  destruct (wp_run _ _ _ (wp_update_request gens [] _ noexc Ha Hne Hok Hp')) as ([ts b] & r' & Hrun & k & Hk & Hup & Hts & Hall).
  unfold wp. rewrite Hrun. simpl in *. subst ts.
  assert (∃ k', (0 < k' ≤ length gens)%nat ∧ take k gens = take k' gens ∧ (b = false → k' = length gens)) as (k' & Hk' & Htk & Hall').
  { destruct (decide (k ≤ length gens)%nat); [by exists k|]. exists (length gens). split_and!; [destruct gens; [done|simpl; lia]|done| |done].
    rewrite firstn_all. apply take_ge. lia. }
  rewrite Htk in *. exists k'. split; [|done]. split; try done. rewrite (up_computed _ _ _ _ Hup), Htb. simpl. rewrite Hc. by destruct (default [] drafts).
Qed.

(** What the answer for [id] leaves of the rest. *)
Record touched (out : SchedulerOutput) (sampled : gmap string (list Z)) (id : string) (u : Update) s (u' : Update) s' : Prop := {
  to_others : ∀ x, x ≠ id → requests s' !! x = requests s !! x;
  to_object : ∃ reported, outputs u' = outputs u ++ reported ∧ turn out sampled s id (requests s' !! id) reported;
  to_lists : running s' = running s ∧ waiting s' = waiting s ∧ skipped_waiting s' = skipped_waiting s
}.

Lemma turn_appended out sampled s id j gens k stopped r after us :
  let drafts := default [] (od_get id (out_spec_decode_tokens out)) in
  requests s !! id = Some j → sampled !! id = Some gens → gens ≠ [] → appended drafts gens (req j) k stopped r →
  (if stopped then after = None else k = length gens ∧ status r = status (req j) ∧ num_computed_tokens r < num_tokens r < max_model_len config ∧
     after = Some (on_req (λ _, r) j)) →
  ∃ reported, match take k gens, stopped with
    | [], false => us
    | _, _ => us ++ [mkEngineCoreOutput (client_index j) id (take k gens)
        (if stopped then get_finished_reason (status r) else None) (stop_reason r) (Request.num_cached_tokens r)]
    end = us ++ reported ∧ turn out sampled s id after reported.
Proof.
  intros drafts Hj Hg Hne [Y1 Y2 Y3 Y4 Y5] Hafter.
  assert (∀ x : EngineCoreOutput, match take k gens, stopped with [], false => us | _, _ => us ++ [x] end = us ++ [x]) as Hrep.
  { intros x. destruct gens, k; simpl in *; [done|lia|lia|done]. }
  eexists. split; [apply Hrep|].
  unfold turn. rewrite Hj. exists gens. split; [done|]. destruct gens as [|g gens]; [done|]. exists k, stopped, r.
  split_and!; try done; [lia|lia| |].
  - rewrite (up_all _ _ _ _ Y3). f_equal. fold drafts. by destruct drafts; simpl; repeat case_match.
  - destruct stopped; [|done]. split; [|done]. by apply (up_verdict _ _ _ _ Y3).
Qed.

Lemma wp_update_one out sampled u id n todo s E :
  let drafts := out_spec_decode_tokens out in
  append_ok → update_inv ((id, n) :: todo) drafts u s →
  (∀ j, requests s !! id = Some j → ∃ gens, sampled !! id = Some gens ∧ answer_ok (od_get id drafts) (req j) gens) →
  wp (update_one config append_tokens out sampled u (id, n))
    (λ u' s', update_inv todo drafts u' s' ∧ touched out sampled id u s u' s') E s.
Proof.
  intros drafts Happ Hu Hans. pose proof Hu as [Hp Hnd Hpre]. pose proof Hp as [P1 P2 P3 P4 P5 P6 P7].
  destruct (P4 id n) as [Hn Hin]; [simpl; by rewrite decide_True|]. unfold update_one, update_one_with.
  apply wp_bind, wp_assert; [lia|]. wp_steps. destruct (requests s !! id) as [j|] eqn:Hj.
  2: { wp_steps. split; [split; try done; by eapply pending_skip|]. split; [done| |done]. exists []. unfold turn. by rewrite app_nil_r, Hj. }
  destruct (Hin j Hj) as [Hir Hfl]. destruct (si_running _ _ P1 id j Hir Hj) as [R1 R2 R3].
  destruct (si_jobs _ _ P1 id j Hj) as [J1 J2 J3 J4 J5]. rewrite R1. cbn [is_finished].
  destruct (Hans j eq_refl) as (gens & Hg & Hok). apply wp_bind. eapply wp_from_option; [exact Hg|].
  apply wp_bind, wp_upd_job. fold drafts. set (s1 := set_requests _ s).
  destruct (decide (gens = [])) as [->|Hne].
  - assert (s1 = s) as ->.
    { unfold s1, set_requests. rewrite (alter_known _ id j) by done.
      replace (on_req _ j) with j by (by destruct j, (default [] (od_get id drafts))). rewrite insert_id by done. by destruct s. }
    wp_steps. apply (wp_get_job s id j); [done|]. wp_steps. simpl. split.
    2: { split; [done| |done]. exists []. rewrite app_nil_r. split; [done|]. unfold turn. rewrite Hj. by exists []. }
    split; try done. replace (view _ s) with (set_requests (insert id j) (view u s)).
    2: { unfold view, set_requests, set_running. simpl. rewrite insert_id by done. done. }
    eapply pending_settled; try done; [|by apply (P7 id)]. split; simpl in Hok; unfold num_tokens_with_spec, num_tokens in *; lia.
  - destruct (take_back_ok _ gens (req j) Hfl (P7 id j Hj) ltac:(lia) ltac:(lia) Hne Hok) as (c & Htb & Hc1 & Hc2 & Hc3).
    assert (s1 = set_requests (insert id (on_req (set_computed c) j)) s) as Hs1.
    { unfold s1, set_requests. rewrite (alter_known _ id j) by done. unfold on_req. by rewrite Htb. }
    rewrite Hs1. clear s1 Hs1. set (s1 := set_requests _ s).
    assert (requests s1 !! id = Some (on_req (set_computed c) j)) as Hj1 by apply lookup_insert_eq.
    apply wp_bind. apply (wp_call _ (λ x s', ∃ r, s' = set_requests (insert id (on_req (λ _, r) j)) s ∧
      ∃ k, appended (default [] (od_get id drafts)) gens (req j) k x.2 r ∧ x.1 = take k gens)).
    { destruct gens as [|g gens]; [done|]. eapply wp_on_job; [exact Hj1|]. simpl req. rewrite <-Htb.
      eapply wp_call; [apply (wp_appended (od_get id drafts)); try done|]; [rewrite Htb; by eapply req_ok_view; [..|exact J2]|by exists c|].
      intros x r (k & Happ' & Hx). exists r. split; [|by exists k]. unfold s1, set_requests. simpl. by rewrite insert_insert_eq. }
    intros [ids stopped] s2 (r & -> & k & Hup & Hids). simpl in Hup, Hids. subst ids. pose proof Hup as [Y1 Y2 Y3 Y4 Y5].
    rewrite Htb in Y3. destruct Y3 as [X1 X2 U1 U2 U3 U4 U5 U6]. simpl in X1, U3, U4, U6.
    wp_steps. set (s2 := set_requests _ s).
    assert (requests s2 !! id = Some (on_req (λ _, r) j)) as Hj2 by apply lookup_insert_eq.
    apply (wp_get_job s2 id _ _ _ Hj2). assert (request_id r = id) as Hid. { destruct U2 as [<- _]. done. }
    apply wp_bind. destruct stopped.
    + eapply (wp_sched_free_request s2 id); [apply P1|exact Hj2|done|done|]. intros k' K1 K2 K3. wp_steps. simpl.
      split. { eapply (update_stopped id n todo drafts u _ s s2); try done; simpl; by rewrite ?bool_decide_true. }
      split; [intros x Hx; simpl; by rewrite lookup_delete_ne, lookup_insert_ne by done| |done].
      eapply (turn_appended out sampled s id j gens k true r); try done. simpl. by rewrite lookup_delete_eq.
    + wp_steps. destruct U6 as (V1 & V3).
      assert (num_tokens r = num_tokens (req j) + Z.of_nat (length gens)) as V2.
      { unfold num_tokens. by rewrite X1, length_app, Y5, firstn_all, Nat2Z.inj_add by done. }
      split.
      2: { split; [intros x Hx; simpl; by rewrite lookup_insert_ne| |done]. eapply (turn_appended out sampled s id j gens k false r); try done.
           simpl. rewrite lookup_insert_eq. split_and!; [by apply Y5|congruence|lia|lia|done]. }
      split; try done. unfold view, s2. simpl stopped_running_reqs. fold (view u s).
      eapply (pending_settled id n todo drafts (view u s) j (on_req (λ _, r) j)); try done.
      * simpl. by destruct U2 as (_ & <- & _).
      * split; simpl; [done|done|lia|done|lia].
      * split; simpl; [congruence|lia|]. rewrite U3. eapply covered_le; [exact R3|lia].
      * split; simpl; unfold num_tokens_with_spec, num_tokens in *; lia.
      * simpl. rewrite U4. by apply (P7 id).
Qed.

(** The model's answer covers every request that is still there. *)
Definition answers (out : SchedulerOutput) (sampled : gmap string (list Z)) s : Prop :=
  ∀ id n j, od_get id (out_num_scheduled_tokens out) = Some n → requests s !! id = Some j →
    ∃ gens, sampled !! id = Some gens ∧ answer_ok (od_get id (out_spec_decode_tokens out)) (req j) gens.

Lemma pending_ready drafts s : pending config [] drafts s → ready config s.
Proof. intros [P1 P2 P3 P4 P5 P6 P7]. split; try done. intros id j Hin Hj. apply (P5 id j); [done|apply not_elem_of_nil|done]. Qed.

(** What the update does: every scheduled request gets its own answer and the reports come in the
    order of the output; no other request changes, and the lists lose the stopped requests only. *)
Record update_effect (out : SchedulerOutput) (sampled : gmap string (list Z)) s (outs : list EngineCoreOutput) s' : Prop := {
  ue_answers : ∃ reports, outs = concat reports ∧
    Forall2 (λ x, turn out sampled s x.1 (requests s' !! x.1)) (out_num_scheduled_tokens out) reports;
  ue_others : ∀ x, x ∉ keys (out_num_scheduled_tokens out) → requests s' !! x = requests s !! x;
  ue_running : running s' = filter (λ x, is_Some (requests s' !! x)) (running s);
  ue_queues : waiting s' = waiting s ∧ skipped_waiting s' = skipped_waiting s
}.

Lemma update_head out sampled s outs s' id rest :
  update_effect out sampled s outs s' → running s = id :: rest → is_Some (requests s' !! id) → ∃ rest', running s' = id :: rest'.
Proof. intros [_ _ -> _] -> Hsome. rewrite filter_cons_True by done. eauto. Qed.

Lemma update_answered out sampled s outs s' id j j' :
  update_effect out sampled s outs s' → id ∈ keys (out_num_scheduled_tokens out) → requests s !! id = Some j → requests s' !! id = Some j' →
  num_computed_tokens (req j') < num_tokens (req j') ∧ (num_tokens (req j) < num_tokens (req j') < max_model_len config ∨ j' = j).
Proof.
  intros [(reps & _ & Hall) _ _ _] ([x n] & -> & Hin)%list_elem_of_fmap Hj Hj'. apply list_elem_of_lookup in Hin as [i Hi].
  destruct (Forall2_lookup_l _ _ _ _ _ Hall Hi) as (rep & _ & Ht). simpl in *. rewrite Hj' in Ht. by eapply turn_answered.
Qed.

(** The state between two turns: [dn] has been handled. *)
Record updating (out : SchedulerOutput) (sampled : gmap string (list Z)) s (dn todo : dict string Z) (u : Update) s' : Prop := {
  ug_inv : update_inv todo (out_spec_decode_tokens out) u s';
  ug_others : ∀ x, x ∉ keys dn → requests s' !! x = requests s !! x;
  ug_answers : ∃ reports, outputs u = concat reports ∧ Forall2 (λ x, turn out sampled s x.1 (requests s' !! x.1)) dn reports;
  ug_lists : running s' = running s ∧ waiting s' = waiting s ∧ skipped_waiting s' = skipped_waiting s
}.

Lemma updating_turn out sampled s dn id n todo u s1 u' s2 :
  NoDup (keys (dn ++ (id, n) :: todo)) → updating out sampled s dn ((id, n) :: todo) u s1 →
  update_inv todo (out_spec_decode_tokens out) u' s2 → touched out sampled id u s1 u' s2 →
  updating out sampled s (dn ++ [(id, n)]) todo u' s2.
Proof.
  intros Hnd [_ G2 (reps & G3 & G4) (L1 & L2 & L3)] Hu' [T1 (rep & T2 & T3) (M1 & M2 & M3)].
  rewrite fmap_app in Hnd. apply NoDup_app in Hnd as (_ & Hx & _).
  assert (id ∉ keys dn) as Hno. { intros Hin. apply (Hx id Hin). csimpl. by left. }
  split; [done| | |split_and!; congruence].
  - intros x Hnx. rewrite fmap_app, not_elem_of_app in Hnx. destruct Hnx as [H1 H2]. rewrite T1; [by apply G2|].
    intros ->. apply H2. csimpl. by left.
  - exists (reps ++ [rep]). rewrite T2, G3, concat_app. simpl. rewrite app_nil_r. split; [done|]. apply Forall2_app.
    + apply Forall2_same_length_lookup. split; [by eapply Forall2_length|]. intros i [x m] rep' Hi Hr.
      pose proof (Forall2_lookup_lr _ _ _ _ _ _ G4 Hi Hr) as Ht. simpl in *. rewrite T1; [done|]. intros ->. apply Hno.
      apply list_elem_of_fmap. exists (id, m). split; [done|]. by eapply list_elem_of_lookup_2.
    + constructor; [|constructor]. simpl. unfold turn in *. by rewrite <-(G2 id Hno).
Qed.

(** The running requests that are left are those of the table. *)
Lemma updating_running out sampled s u s' :
  inv s → updating out sampled s (out_num_scheduled_tokens out) [] u s' →
  remove_all (running s') (stopped_running_reqs u) = filter (λ x, is_Some (requests s' !! x)) (running s).
Proof.
  intros Hi [[F1 F2 _] _ _ (L1 & L2 & L3)]. rewrite remove_all_filter by done. rewrite L1 in *. apply filter_ext_in. intros x Hx.
  pose proof (si_dom _ _ (pd_inv _ _ _ _ F1) x) as Hdom. simpl in Hdom. unfold all_ids in Hdom.
  assert (queued (extra := []) (view u s') = queued (extra := []) s) as Hq by (unfold queued; simpl; by rewrite L2, L3).
  rewrite Hq in Hdom. rewrite <-Hdom. simpl. rewrite remove_all_filter, elem_of_app, list_elem_of_filter, L1 by (by rewrite L1). split; [auto|].
  intros [[? _]|Hin]; [done|]. by destruct (running_not_queued config s x Hi Hx).
Qed.

Lemma wp_update_from_output out sampled s E :
  append_ok → awaiting config out s → answers out sampled s →
  wp (update_from_output config append_tokens out sampled) (λ outs s', ready config s' ∧ update_effect out sampled s outs s') E s.
Proof.
  intros Happ Hp Hans. unfold update_from_output, update_from_output_with. apply wp_bind.
  apply (wp_for_fold (λ dn u s', ∀ todo, out_num_scheduled_tokens out = dn ++ todo → updating out sampled s dn todo u s')).
  - intros todo Hd. simpl in Hd. subst todo. split; [|done|by exists []|done]. split; [|apply (running_nodup _ _ (pd_inv _ _ _ _ Hp))|done].
    unfold view. simpl. replace (set_running _ s) with s by (by destruct s). exact Hp.
  - intros dn [id n] todo u s' Hd IH. pose proof (IH _ Hd) as Hu.
    pose proof (pd_nodup _ _ _ _ Hp) as Hnd. rewrite Hd in Hnd.
    assert (id ∉ keys dn) as Hnot.
    { rewrite fmap_app in Hnd. apply NoDup_app in Hnd as (_ & Hx & _). intros Hin. apply (Hx id Hin). csimpl. by left. }
    eapply wp_call; [apply (wp_update_one out sampled u id n todo s'); [done|apply Hu|]|].
    { intros j Hj. rewrite (ug_others _ _ _ _ _ _ _ Hu) in Hj by done. apply (Hans id n j); [|done]. rewrite Hd. apply od_get_Some; [done|in_list]. }
    intros u' s2 [Hu' Ht] todo' Hd'. rewrite <-app_assoc in Hd'. rewrite Hd in Hd'. apply app_inv_head in Hd'. injection Hd' as <-.
    by eapply updating_turn.
  - intros u s' Hfin. pose proof (Hfin [] ltac:(by rewrite app_nil_r)) as Hu. pose proof Hu as [[F1 F2 F3] G2 G3 (L1 & L2 & L3)].
    wp_steps. rewrite F3. wp_steps. fold (view u s'). split; [by eapply pending_ready|].
    split; simpl; [done|done| |done]. eapply updating_running; [apply Hp|done].
Qed.

(** ** Draft tokens *)

Lemma ready_draft s id j ts : ready config s → requests s !! id = Some j → ready config (set_requests (alter (on_req (set_spec ts)) id) s).
Proof.
  intros [R1 R2 R3 R4 R5] Hj. assert (requests (set_requests (alter (on_req (set_spec ts)) id) s) = <[id := on_req (set_spec ts) j]> (requests s))
    as Hreq by by apply alter_known.
  assert (job_ok config id (on_req (set_spec ts) j)) as Hok.
  { destruct (si_jobs _ _ R1 id j Hj) as [H1 H2 H3 H4 H5]. split; try done. simpl. by eapply req_ok_view; [..|exact H2]. }
  split.
  - eapply (inv_move config s _ id j (on_req (set_spec ts) j)); try done; sched_parts.
    + intros Hin. destruct (si_running _ _ R1 id j Hin Hj). by split.
    + intros e He Heq. destruct (si_queued _ _ R1 e He) as (j2 & Hj2 & Hkey & [Q1 Q2 Q3]).
      rewrite Heq, Hj in Hj2. injection Hj2 as <-. by split.
  - eapply (fresh_insert config s _ id j); [done|done|done|apply spares_refl].
  - intros x jx Hx. rewrite Hreq. destruct (decide (id = x)) as [<-|Hne].
    + rewrite lookup_insert_eq. intros [= <-]. by destruct (R3 id j Hx Hj).
    + rewrite lookup_insert_ne by done. by apply R3.
  - intros x jx. rewrite Hreq. destruct (decide (id = x)) as [<-|Hne].
    + rewrite lookup_insert_eq. intros [= <-]. by apply (R4 id j).
    + rewrite lookup_insert_ne by done. by apply R4.
  - intros x jx. rewrite Hreq. destruct (decide (id = x)) as [<-|Hne].
    + rewrite lookup_insert_eq. intros [= <-]. by apply (R5 id j).
    + rewrite lookup_insert_ne by done. by apply R5.
Qed.
End update.
