(* ===== verification/SchedulerFinish.v ===== *)
(** The oldest running request finishes. Under FCFS, with room for one request of the model's
    length, every round of a step and the model's answer brings it closer to its end: either
    more of its prompt is computed or it has one token more, so after a bounded number of
    rounds it has left the scheduler. *)
From S2P Require Import Prelude.
From S2P Require Import Dict.
From S2P Require Import Request.
From S2P Require Import StopCheck.
From S2P Require Import RequestQueue.
From S2P Require Import KVCacheManager.
From S2P Require Import Scheduler.
From S2P Require Import SchedulerInv.
From S2P Require Import SchedulerStep.
From S2P Require Import SchedulerWait.
From S2P Require Import SchedulerMain.
From S2P Require Import SchedulerLive.
From S2P Require Import SchedulerUpdate.
Local Open Scope Z_scope.

(** ** The head of the running list stays *)

Section head.
Context {Q : Type} `{HQ : RequestQueueLaws Q} {K : Type} `{!KVCache K}.
Context (config : SchedulerConfig) (empty_queue : Q) (id : string).
Abbreviation SC := (Scheduler (Q := Q) (K := K)).
Implicit Types s : SC.

Record head_kept s s' : Prop := {
  hk_running : ∃ rest, running s' = id :: rest ∧ NoDup (id :: rest);
  hk_object : requests s' !! id = requests s !! id
}.

Lemma head_trans s1 s2 s3 : head_kept s1 s2 → head_kept s2 s3 → head_kept s1 s3.
Proof. intros [A1 A2] [B1 B2]. split; [done|congruence]. Qed.

(** Calls that touch neither the running list nor the object of [id]. *)
Definition aside s s' : Prop := running s' = running s ∧ requests s' !! id = requests s !! id.

Lemma aside_head s s' rest : running s = id :: rest → NoDup (id :: rest) → aside s s' → head_kept s s'.
Proof. intros Hr Hnd [H1 H2]. split; [|done]. exists rest. by rewrite H1. Qed.

(** Calls that leave the queues alone, too. *)
Definition quiet s s' : Prop := aside s s' ∧ waiting s' = waiting s ∧ skipped_waiting s' = skipped_waiting s.

Lemma quiet_trans s1 s2 s3 : quiet s1 s2 → quiet s2 s3 → quiet s1 s3.
Proof. intros ([A1 A2] & A3 & A4) ([B1 B2] & B3 & B4). split_and!; [split|..]; congruence. Qed.

Lemma quiet_kv_call {A} x (m : M (K * Request) A) s : x ≠ id → wp (kv_call x m) (λ _ s', quiet s s') anyexc s.
Proof.
  intros Hx. unfold kv_call, get_job. wp_steps. destruct (requests s !! x) as [j|] eqn:Hj; [|done].
  eapply wp_from_option; [done|]. unfold wp, kv_apply. destruct (m (kv_cache_manager s, req j)) as [[a|e] [k r]]; [|exact I].
  split; [|done]. split; [done|]. simpl. by rewrite lookup_alter_ne.
Qed.

Lemma quiet_upd_job x f s : x ≠ id → wp (upd_job x f) (λ _ s', quiet s s') anyexc s.
Proof. intros Hx. split; [|done]. split; [done|]. simpl. by rewrite lookup_alter_ne. Qed.

Lemma aside_zoom {T A} get (set : T → SC → SC) (m : M T A) s :
  (∀ t, aside s (set t s)) → wp (zoom get set m) (λ _ s', aside s s') anyexc s.
Proof. intros Hset. unfold wp, zoom. destruct (m (get s)) as [[]]; [apply Hset|done]. Qed.

Lemma aside_trans s1 s2 s3 : aside s1 s2 → aside s2 s3 → aside s1 s3.
Proof. intros [A1 A2] [B1 B2]. split; congruence. Qed.

Lemma aside_get_job x s : wp (get_job x) (λ _ s', s' = s) anyexc s.
Proof. unfold get_job. wp_steps. by destruct (requests s !! x). Qed.

Lemma aside_preempt x s : x ≠ id → wp (preempt_request x) (λ _ s', aside s s') anyexc s.
Proof.
  intros Hx. unfold preempt_request. apply wp_bind. eapply wp_call; [apply aside_get_job|]. intros j s1 ->.
  apply wp_bind. unfold py_assert. case_bool_decide; [|done]. wp_steps. eapply wp_call; [by apply quiet_kv_call|].
  intros [] s2 [A2 _]. apply wp_bind. eapply wp_call; [by apply quiet_upd_job|]. intros [] s3 [A3 _].
  apply wp_bind. eapply wp_call; [apply aside_get_job|]. intros j' s4 ->. eapply wp_call; [by apply aside_zoom|].
  intros [] s5 A5. eapply aside_trans; [exact A2|]. by eapply aside_trans.
Qed.

(** The list after the last request has gone. *)
Lemma last_gone v x rest :
  NoDup (id :: rest) → last (id :: rest) = Some v → x ∈ rest →
  v ≠ id ∧ ∃ rest', take (length (id :: rest) - 1) (id :: rest) = id :: rest' ∧ NoDup (id :: rest') ∧ (v ≠ x → x ∈ rest').
Proof.
  intros Hnd Hl Hx. destruct rest as [|y rest _] using rev_ind; [by apply elem_of_nil in Hx|].
  rewrite app_comm_cons, last_snoc in Hl. injection Hl as <-.
  assert (take (length (id :: rest ++ [y]) - 1) (id :: rest ++ [y]) = id :: rest) as ->.
  { rewrite app_comm_cons, length_app. change (length [y]) with 1%nat. rewrite Nat.add_sub. apply take_app_length. }
  apply NoDup_cons in Hnd as [Hid Hnd]. apply NoDup_app in Hnd as (Hnd & _ & _).
  split; [intros ->; apply Hid; in_list|]. exists rest. split; [done|]. split; [apply NoDup_cons; split; [|done]; intros Hx2; apply Hid; in_list|].
  intros Hne. apply elem_of_app in Hx as [Hx| ->%list_elem_of_singleton]; done.
Qed.

Lemma head_allocate fuel x n st s rest :
  policy config = FCFS → running s = id :: rest → NoDup (id :: rest) → x ∈ rest →
  wp (allocate_loop config fuel x n st)
    (λ o s', head_kept s s' ∧ ∀ ob st', o = Some (ob, st') → req_index st' = req_index st) anyexc s.
Proof.
  intros Hpol. revert st s rest. induction fuel as [|fuel IH]; intros st s rest Hrun Hnd Hx; simpl.
  { wp_steps. split; [|done]. by eapply aside_head. }
  assert (x ≠ id) as Hne by (intros ->; by apply NoDup_cons in Hnd as [? _]).
  apply wp_bind. eapply wp_call; [by apply quiet_kv_call|]. intros [b|] s1 [A1 _].
  { wp_steps. split; [by eapply aside_head|]. by intros ob st' [= _ <-]. }
  apply wp_bind. destruct A1 as [R1 O1]. rewrite Hrun in R1.
  destruct (last (id :: rest)) as [v|] eqn:Hl; [|by apply last_None in Hl].
  destruct (last_gone v x rest Hnd Hl Hx) as (Hv & rest' & Ht & Hnd' & Hin).
  apply (wp_call _ (λ y s', y = (v, st) ∧ running s' = id :: rest' ∧ requests s' = requests s1)).
  { unfold choose_victim. rewrite Hpol. wp_steps. rewrite R1. eapply wp_from_option; [exact Hl|]. wp_steps. simpl. by rewrite R1, Ht. }
  intros y s2 (-> & R2 & O2). apply wp_bind. eapply wp_call; [by apply aside_preempt|]. intros [] s3 [R3 O3].
  rewrite R2 in R3. assert (requests s3 !! id = requests s !! id) as Ho by congruence.
  case_bool_decide as Hvx.
  - wp_steps. split; [split; [eauto|done]|]. by intros ob st' [= _ <-].
  - eapply wp_call; [apply (IH (note_preempted v st) s3 rest'); [done|done|auto]|]. intros o s4 [[H1 H2] H3]. split; [|exact H3].
    split; [done|congruence].
Qed.

Lemma head_running fuel st s rest :
  policy config = FCFS → running s = id :: rest → NoDup (id :: rest) → 1 ≤ req_index st →
  wp (running_loop config fuel st) (λ _ s', head_kept s s') anyexc s.
Proof.
  intros Hpol. revert st s rest. induction fuel as [|fuel IH]; intros st s rest Hrun Hnd Hi; [by eapply aside_head|].
  cbn [running_loop]. wp_steps. destruct (_ && _); [|wp_steps; by eapply aside_head].
  apply wp_bind. destruct (py_get (running s) (req_index st)) as [x|] eqn:Hget; [|done]. eapply wp_from_option; [done|].
  assert (x ∈ rest) as Hx.
  { unfold py_get in Hget. rewrite decide_True in Hget by lia. rewrite Hrun in Hget.
    destruct (Z.to_nat (req_index st)) as [|i] eqn:Hz; [lia|]. simpl in Hget. by eapply list_elem_of_lookup_2. }
  assert (x ≠ id) as Hne by (intros ->; by apply NoDup_cons in Hnd as [? _]).
  apply wp_bind. eapply wp_call; [apply aside_get_job|]. intros j s0 ->. destruct (_ || _); [apply (IH _ s rest); simpl; [done|done|lia]|].
  apply wp_bind. eapply wp_call; [by eapply head_allocate|]. intros [[ob st1]|] s1 [Hk Hidx]; [|by wp_steps].
  specialize (Hidx ob st1 eq_refl). destruct ob as [b|]; [|by wp_steps].
  apply wp_bind. eapply wp_call; [apply aside_get_job|]. intros j' s2 ->. apply wp_bind. eapply wp_call; [by apply quiet_upd_job|].
  intros [] s3 [[R3 O3] _]. destruct Hk as [(rest1 & R1 & Hnd1) O1]. rewrite R1 in R3.
  eapply wp_call; [apply (IH _ s3 rest1); simpl; [done|done|lia]|]. intros o s4 [H1 H2]. split; [done|congruence].
Qed.

(** ** Waiting requests come behind it *)

Record apart s : Prop := {
  ap_front : ∃ rest, running s = id :: rest;
  ap_waiting : queue_inv (waiting s);
  ap_skipped : queue_inv (skipped_waiting s);
  ap_queued : id ∉ request_id <$> contents (waiting s) ++ contents (skipped_waiting s)
}.

Lemma apart_quiet s s' : apart s → quiet s s' → apart s'.
Proof. intros [(rest & H1) H2 H3 H4] ([A1 A2] & A3 & A4). split; rewrite ?A1, ?A3, ?A4; eauto. Qed.

Lemma apart_chosen s c : apart s → queue_inv (chosen_of c s) ∧ id ∉ request_id <$> contents (chosen_of c s).
Proof.
  intros [_ H1 H2 H3]. rewrite fmap_app, not_elem_of_app in H3. destruct H3. by destruct c.
Qed.

Lemma apart_set_chosen s c q e :
  apart s → queue_inv q → contents (chosen_of c s) ≡ₚ e :: contents q → apart (set_chosen c q s).
Proof.
  intros [H1 H2 H3 H4] Hq Hc. rewrite fmap_app, not_elem_of_app in H4. destruct H4 as [H4 H5].
  destruct c; simpl in *; split; try done; simpl; rewrite fmap_app, not_elem_of_app; split; try done.
  - intros Hx. apply H4. rewrite Hc. csimpl. by right.
  - intros Hx. apply H5. rewrite Hc. csimpl. by right.
Qed.

Lemma aside_peek c s :
  queue_inv (chosen_of c s) → wp (on_chosen c peek_request) (λ e s', s' = s ∧ e ∈ contents (chosen_of c s)) anyexc s.
Proof.
  intros Hq. apply wp_on_chosen. eapply wp_mono; [by apply law_peek| |done]. intros e q [-> Hf]. split; [apply set_chosen_same|].
  by apply front_in.
Qed.

Lemma aside_select s : apart s → wp (select_waiting_queue config) (λ _ s', s' = s) anyexc s.
Proof.
  intros [_ H1 H2 _]. unfold select_waiting_queue. wp_steps. destruct (policy config); [by wp_steps|].
  destruct (_ && _); [|by wp_steps]. apply wp_bind. eapply wp_call; [by apply (aside_peek ChooseWaiting)|]. intros a s1 [-> _].
  apply wp_bind. eapply wp_call; [by apply (aside_peek ChooseSkipped)|]. intros b s2 [-> _]. by wp_steps.
Qed.

Lemma aside_pop c s :
  apart s → wp (on_chosen c pop_request) (λ _ s', apart s' ∧ aside s s') anyexc s.
Proof.
  intros Ha. destruct (apart_chosen s c Ha) as [Hq _]. apply wp_on_chosen. eapply wp_mono; [by apply law_pop| |done].
  intros e q (Hq' & Hc & _). split; [by eapply apart_set_chosen|]. by destruct c.
Qed.

Lemma quiet_promote x s : x ≠ id → wp (try_promote x) (λ _ s', quiet s s') anyexc s.
Proof.
  intros Hx. unfold try_promote. apply wp_bind. eapply wp_call; [apply aside_get_job|]. intros j s1 ->.
  destruct (status (req j)); try done. destruct (_ && _); [|by wp_steps].
  apply wp_bind. eapply wp_call; [by apply quiet_upd_job|]. intros [] s2 Hk. by wp_steps.
Qed.

Lemma quiet_computed x s : x ≠ id → wp (computed_of_waiting x) (λ _ s', quiet s s') anyexc s.
Proof.
  intros Hx. unfold computed_of_waiting. apply wp_bind. eapply wp_call; [apply aside_get_job|]. intros j s1 ->.
  destruct (_ =? _); [|by wp_steps]. apply wp_bind. eapply wp_call; [by apply quiet_kv_call|].
  intros [[b h]|] s2 Hk; [|by wp_steps]. unfold py_assert. destruct (_ <=? _); [|done]. by wp_steps.
Qed.

Definition behind s s' : Prop := apart s' ∧ requests s' !! id = requests s !! id.

Lemma behind_quiet s s' s'' : behind s s' → quiet s' s'' → behind s s''.
Proof. intros [H1 H2] Hq. split; [by eapply apart_quiet|]. destruct Hq as [[_ Ho] _]. congruence. Qed.

Lemma head_admit c x n h w s : x ≠ id → apart s → wp (admit_waiting c x n h w) (λ _ s', behind s s') anyexc s.
Proof.
  intros Hx Ha. unfold admit_waiting. apply wp_bind. eapply wp_call; [by apply aside_pop|]. intros r s1 [H1 [R1 O1]].
  wp_steps. eapply wp_call; [apply aside_get_job|]. intros j s2 ->.
  assert (apart (set_running (.++ [x]) s1)) as H2.
  { destruct H1 as [(rest & Hr) Hw Hk Hq]. split; try done. exists (rest ++ [x]). simpl. by rewrite Hr. }
  apply wp_bind. apply (wp_call _ (λ _ s', s' = set_running (.++ [x]) s1)); [by destruct (status (req j))|]. intros [a b] s2 ->.
  wp_steps. eapply wp_call; [by apply quiet_upd_job|]. intros [] s3 Hq. wp_steps.
  eapply behind_quiet; [|exact Hq]. by split.
Qed.

Lemma head_waiting fuel w s : apart s → wp (waiting_loop config fuel w) (λ _ s', behind s s') anyexc s.
Proof.
  revert w s. induction fuel as [|fuel IH]; intros w s Ha; [done|]. cbn [waiting_loop]. wp_steps.
  destruct (negb _); [by wp_steps|]. destruct (_ =? _); [by wp_steps|]. apply wp_bind. eapply wp_call; [by apply aside_select|].
  intros sel s1 ->. apply wp_bind. destruct sel as [c|]; [|done]. eapply wp_from_option; [done|].
  destruct (apart_chosen s c Ha) as [Hqi Hno]. apply wp_bind. eapply wp_call; [by apply aside_peek|]. intros e s1 [-> He].
  assert (request_id e ≠ id) as Hx by (intros <-; apply Hno; by apply list_elem_of_fmap_2). set (x := request_id e) in *.
  apply wp_bind. eapply wp_call; [apply aside_get_job|]. intros j s1 ->. apply wp_bind.
  apply (wp_call _ (λ _ s', quiet s s')).
  { destruct (is_blocked_waiting_status _); [|by wp_steps]. apply wp_bind. eapply wp_call; [by apply quiet_promote|].
    intros ok s1 Hk. by wp_steps. }
  intros blocked s1 Hk1. assert (behind s s1) as [Ha1 Ho1] by (eapply behind_quiet; [by split|done]). destruct blocked.
  - apply wp_bind. eapply wp_call; [by apply aside_pop|]. intros r s2 [Ha2 [R2 O2]].
    apply wp_bind. destruct (fst (prepend_request r (step_skipped_waiting w))) as [u|]; [|done]. eapply wp_of_outcome; [done|].
    eapply wp_call; [by apply IH|]. intros o s3 [Ha3 O3]. split; [done|congruence].
  - apply wp_bind. eapply wp_call; [by apply quiet_computed|]. intros o s2 Hk2.
    assert (behind s s2) as Hb2 by by eapply behind_quiet. destruct o as [[[b local] h]|]; [|by wp_steps].
    apply wp_bind. eapply wp_call; [apply aside_get_job|]. intros j' s3 ->.
    destruct (waiting_new_tokens _ _ _ _) as [n|]; [|by wp_steps]. apply wp_bind. unfold py_assert. destruct (0 <? n); [|done]. wp_steps.
    eapply wp_call; [by apply quiet_kv_call|]. intros [b'|] s3 Hk3; [|wp_steps; by eapply behind_quiet].
    assert (behind s s3) as [Ha3 Ho3] by by eapply behind_quiet.
    apply wp_bind. eapply wp_call; [by apply head_admit|]. intros w' s4 [Ha4 Ho4]. eapply wp_call; [by apply IH|].
    intros o s5 [Ha5 Ho5]. split; [done|congruence].
Qed.

(** The head and its object after the waiting requests. *)
Definition front_kept s s' : Prop := (∃ rest, running s' = id :: rest) ∧ requests s' !! id = requests s !! id.

Lemma front_kept_aside s s' s'' : front_kept s s' → aside s' s'' → front_kept s s''.
Proof. intros [(rest & R) O] [A1 A2]. split; [exists rest; by rewrite A1|congruence]. Qed.

Lemma head_schedule_waiting st s :
  apart s → wp (schedule_waiting empty_queue config st) (λ _ s', front_kept s s') anyexc s.
Proof.
  intros Ha. unfold schedule_waiting. wp_steps. destruct (_ && _); [|wp_steps; split; [apply Ha|done]].
  apply wp_bind. eapply wp_call; [by apply head_waiting|]. intros o s1 [Ha1 O1].
  assert (front_kept s s1) as Hf by (split; [apply Ha1|done]). destruct o as [w|]; [|by wp_steps].
  apply wp_bind. apply (wp_call _ (λ _ s', aside s1 s')).
  { destruct (queue_bool _); [|by wp_steps]. destruct (queue_iter _) as [xs|]; [|done]. apply wp_bind. eapply wp_of_outcome; [done|].
    by apply aside_zoom. }
  intros [] s2 H2. wp_steps. by eapply front_kept_aside.
Qed.

(** ** The output *)

Lemma wp_reader_fold {A B} (xs : list A) (acc : B) (body : B → A → M SC B) s :
  (∀ b x, wp (body b x) (λ _ s', s' = s) anyexc s) → wp (for_fold xs acc body) (λ _ s', s' = s) anyexc s.
Proof.
  intros Hb. revert acc. induction xs as [|x xs IH]; intros acc; simpl; [by wp_steps|]. apply wp_bind.
  eapply wp_call; [apply Hb|]. intros b s' ->. apply IH.
Qed.

Lemma reads_new_data blocks x s : wp (new_request_data config blocks x) (λ _ s', s' = s) anyexc s.
Proof.
  unfold new_request_data. apply wp_bind. eapply wp_call; [apply aside_get_job|]. intros j s' ->. apply wp_bind.
  destruct (od_get x blocks); [|done]. by eapply wp_from_option.
Qed.

Lemma reads_cached st d x s : wp (cached_one config st d x) (λ _ s', s' = s) anyexc s.
Proof.
  unfold cached_one. destruct x as [x resumed]. apply wp_bind. eapply wp_call; [apply aside_get_job|]. intros j s' ->. apply wp_bind.
  apply (wp_call _ (λ _ s', s' = s)).
  { destruct (sends_token_ids config); [|by wp_steps]. apply wp_bind. destruct (od_get x _); [|done]. by eapply wp_from_option. }
  intros toks s' ->. wp_steps. apply (wp_call _ (λ _ s', s' = s)). { destruct resumed; [|by wp_steps]. unfold py_assert. by destruct (negb _). }
  intros [] s' ->. apply wp_bind. destruct (od_get x _); [|done]. by eapply wp_from_option.
Qed.

Lemma head_update_after d s n :
  od_get id d = Some n → NoDup (keys d) →
  wp (update_after_schedule d) (λ _ s', running s' = running s ∧ requests s' !! id = advanced n <$> requests s !! id) anyexc s.
Proof.
  intros Hn Hnd. unfold update_after_schedule. apply wp_bind.
  apply (wp_for_fold (λ dn _ s', running s' = running s ∧
    requests s' !! id = match od_get id dn with Some m => advanced m <$> requests s !! id | None => requests s !! id end)).
  - done.
  - intros dn [x m] todo b s' -> [R O].
    assert (x ∉ keys dn) as Hno.
    { rewrite fmap_app in Hnd. csimpl in Hnd. apply NoDup_app in Hnd as (_ & Hd & _). intros Hin. apply (Hd x Hin). by left. }
    unfold advance_computed, get_job. wp_steps. destruct (requests s' !! x) as [j|] eqn:Hj; [|done].
    eapply wp_from_option; [done|]. apply wp_bind, wp_upd_job. wp_steps. split; [done|]. simpl. rewrite od_get_app. simpl.
    destruct (decide (x = id)) as [->|Hne].
    + rewrite lookup_alter_eq, Hj. simpl. rewrite (proj2 (od_get_None id dn)) in O |- * by done. by rewrite <-O, Hj.
    + rewrite lookup_alter_ne, O by done. rewrite ?decide_False by done. by destruct (od_get id dn).
  - intros b s' [R O]. wp_steps. rewrite Hn in O. done.
Qed.

Lemma head_make_output w prefix s :
  wp (make_output config w prefix) (λ out s', out_num_scheduled_tokens out = num_scheduled_tokens (step w) ∧
    (NoDup (keys (out_num_scheduled_tokens out)) → ∀ n, od_get id (out_num_scheduled_tokens out) = Some n →
      running s' = running s ∧ requests s' !! id = advanced n <$> requests s !! id)) anyexc s.
Proof.
  unfold make_output, make_output_with, sync_after_schedule. destruct (if use_v2_model_runner config then _ else _) as [new_reqs resumed].
  apply wp_bind. eapply wp_call; [apply wp_reader_fold; intros acc x; apply wp_bind; eapply wp_call; [apply reads_new_data|]; intros d s' ->; by wp_steps|].
  intros nd s1 ->. apply wp_bind. eapply wp_call; [apply wp_reader_fold; intros; apply reads_cached|]. intros c s1 ->. wp_steps.
  destruct (decide (NoDup (keys (num_scheduled_tokens (step w))))) as [Hnd|Hnd].
  2: { eapply wp_call; [apply wp_any|]. intros b s1 _. wp_steps. simpl. done. }
  destruct (od_get id (num_scheduled_tokens (step w))) as [n|] eqn:Hn.
  2: { eapply wp_call; [apply wp_any|]. intros b s1 _. wp_steps. simpl. split; [done|]. intros _ n. by rewrite Hn. }
  eapply wp_call; [by eapply head_update_after|]. intros b s1 [R O]. wp_steps. simpl. split; [done|]. intros _ m. rewrite Hn. intros [= <-].
  done.
Qed.
End head.

(** ** One round *)

Section finish.
Context {Q : Type} `{HQ : RequestQueueLaws Q} {K : Type} `{!KVCache K}.
Context (config : SchedulerConfig) `{!KVCachePromise K (max_model_len config)}.
Context `{!KVCacheRoom K (max_model_len config)} (empty_queue : Q) (append_tokens : list Z → M Request bool).
Abbreviation SC := (Scheduler (Q := Q) (K := K)).
Abbreviation mml := (max_model_len config).
Implicit Types s : SC.

(** The configuration lets a step give out tokens to the oldest request. *)
Record fcfs_runs : Prop := {
  fr_config : config_ok config;
  fr_queue : empty_ok empty_queue;
  fr_policy : policy config = FCFS;
  fr_budget : 0 < max_num_scheduled_tokens config
}.

(** The oldest running request; it has something left to compute and room for its next token. *)
Record oldest s (id : string) (j : Job) : Prop := {
  ol_running : ∃ rest, running s = id :: rest;
  ol_job : requests s !! id = Some j;
  ol_left : num_computed_tokens (req j) < num_tokens (req j) < mml
}.

(** What is left of a request: tokens it may still get, then tokens to compute. *)
Definition left_over (r : Request) : Z := (mml - num_tokens r) * mml + (num_tokens r - num_computed_tokens r).

Lemma inv_apart s id rest : sched_inv (extra := []) config s → running s = id :: rest → apart id s.
Proof.
  intros Hs Hrun. split; [eauto|apply Hs|apply Hs|]. assert (id ∈ running s) as Hin by (rewrite Hrun; by left).
  pose proof (running_not_queued config s id Hs Hin) as Hno. unfold queued in Hno. by rewrite app_nil_r in Hno.
Qed.

Lemma head_first_half s id j :
  fcfs_runs → ready config s → pause_state s ≠ PAUSED_ALL → oldest s id j →
  wp (running_loop config (S (length (running s))) (first_step config s))
    (λ _ s', ∃ rest j', running s' = id :: rest ∧ requests s' !! id = Some j' ∧
       num_tokens (req j') = num_tokens (req j) ∧ num_computed_tokens (req j') = num_computed_tokens (req j)) anyexc s.
Proof.
  intros [Hc He Hpol Hbud] [Hs Hf _ _ Hy] Hpause [(rest & Hrun) Hj Hleft].
  assert (token_budget (first_step config s) = max_num_scheduled_tokens config) as Hb.
  { unfold first_step. simpl. by destruct (pause_state s). }
  pose proof (si_jobs _ _ Hs id j Hj) as [J1 J2 J3 J4 _]. pose proof (Hy id j Hj) as J5.
  assert (0 < running_new_tokens config (req j) (max_num_scheduled_tokens config)) as Hn.
  { unfold running_new_tokens. rewrite J5. assert (num_tokens (req j) ≤ num_tokens_with_spec (req j)) by (unfold num_tokens, num_tokens_with_spec; lia).
    destruct (_ && _) eqn:Ht; lia. }
  cbn [running_loop]. wp_steps. rewrite Hb. simpl req_index. rewrite Hrun.
  rewrite (proj2 (Z.ltb_lt _ _)) by (simpl; lia). rewrite (proj2 (Z.ltb_lt _ _)) by done. cbn [andb].
  apply wp_bind. eapply wp_from_option; [done|]. apply wp_bind, (wp_get_job s id j); [done|]. cbv zeta.
  assert (surely_finished (req j) = false) as -> by (unfold surely_finished; by rewrite J5).
  rewrite (proj2 (Z.eqb_neq _ _)) by lia. cbn [orb]. apply wp_bind.
  eapply wp_mono; [eapply (wp_allocate_head config _ id _ s _ j rest); try done; [apply Hc|rewrite Hrun; simpl; lia]| |by intros ? ? []].
  intros o s1 (Hs1 & (rest1 & R1) & (j1 & Hj1 & (r1 & [c ->] & ->)) & b & st1 & -> & Hi1).
  apply wp_bind, (wp_get_job s1 id _ _ _ Hj1). apply wp_bind, wp_upd_job.
  eapply wp_call; [eapply (head_running config id _ _ _ rest1); try done|].
  - rewrite <-R1. by apply (running_nodup config (extra := [])).
  - simpl. rewrite Hi1. simpl. lia.
  - intros o s2 [(rest2 & R2 & _) O2]. simpl in O2. rewrite lookup_alter_eq, Hj1 in O2. eexists rest2, _. split_and!; [done|exact O2|done|done].
Qed.

Lemma head_step s id j :
  fcfs_runs → ready config s → pause_state s ≠ PAUSED_ALL → oldest s id j →
  wp (schedule empty_queue config)
    (λ o s', ∀ out, o = Some out → NoDup (keys (out_num_scheduled_tokens out)) →
       ∀ n, od_get id (out_num_scheduled_tokens out) = Some n →
       ∃ rest j', running s' = id :: rest ∧ requests s' !! id = Some j' ∧
         num_tokens (req j') = num_tokens (req j) ∧ num_computed_tokens (req j') = num_computed_tokens (req j) + n) anyexc s.
Proof.
  intros Hr Hs Hp Ho. unfold schedule, schedule_with. wp_steps. unfold Datatypes.id. eapply wp_call.
  { eapply wp_and; [|by eapply head_first_half]. eapply wp_mono; [apply (wp_first_half config s noexc); [apply Hr|by apply ready_calm]|done|done]. }
  intros o s1 [(st & -> & _ & Hi & _) (rest & j1 & R1 & Hj1 & T1 & C1)]. apply wp_bind.
  eapply wp_call; [by apply (head_schedule_waiting config empty_queue id st), (inv_apart s1 id rest)|]. intros [w|] s2 [(rest2 & R2) O2]; [|by wp_steps].
  cbv zeta.
  assert (∀ b s', wp (py_assert b : M SC unit) (λ _ s'', s'' = s') anyexc s') as Hassert by (intros [] s'; done).
  apply wp_bind. eapply wp_call; [apply Hassert|]. intros [] s3 ->. apply wp_bind. eapply wp_call; [apply Hassert|]. intros [] s3 ->.
  wp_steps. eapply wp_call; [apply Hassert|]. intros [] s3 ->. apply wp_bind. eapply wp_call; [apply Hassert|]. intros [] s3 ->.
  rewrite R2. apply wp_bind. eapply wp_call; [apply (aside_zoom id); done|]. intros prefix s3 [R3 O3]. apply wp_bind.
  eapply wp_call; [apply (head_make_output config id)|]. intros out s4 [_ Hout]. wp_steps. intros out' [= <-] Hnd n Hn.
  destruct (Hout Hnd n Hn) as [R4 O4]. exists rest2. rewrite O3, O2, Hj1 in O4. simpl in O4. eexists. split_and!; [congruence|exact O4|..]; simpl; [done|lia].
Qed.

(** A step while the scheduler is not paused, and the model's answer to it. *)
Definition round s s' : Prop :=
  pause_state s ≠ PAUSED_ALL ∧ ∃ out s1 sampled outs, schedule empty_queue config s = (Ret (Some out), s1) ∧ answers out sampled s1 ∧
    update_from_output config append_tokens out sampled s1 = (Ret outs, s').

Lemma left_over_less r r' :
  num_computed_tokens r < num_tokens r < mml → num_computed_tokens r' < num_tokens r' < mml → 0 ≤ num_computed_tokens r' →
  (num_tokens r < num_tokens r' ∨ num_tokens r' = num_tokens r ∧ num_computed_tokens r < num_computed_tokens r') →
  left_over r' < left_over r.
Proof. unfold left_over. intros H1 H2 H3 [H4|[H4 H5]]; nia. Qed.

(** The oldest request gets nearer to its end in every round. *)
Lemma round_oldest s s' id j :
  fcfs_runs → append_ok config append_tokens → ready config s → oldest s id j → round s s' →
  ready config s' ∧ (requests s' !! id = None ∨ ∃ j', oldest s' id j' ∧ left_over (req j') < left_over (req j)).
Proof.
  intros Hf Ha Hs Ho (Hp & out & s1 & sampled & outs & Hrun & Hans & Hup). pose proof Ho as [(rest & R) Hj Hleft].
  pose proof (wp_schedule config empty_queue s noexc (fr_config Hf) (fr_queue Hf) Hs) as Hw. unfold wp in Hw. rewrite Hrun in Hw.
  destruct Hw as (? & [= <-] & Haw & _).
  assert (id ∈ keys (out_num_scheduled_tokens out)) as Hin.
  { pose proof (schedule_head config empty_queue s id j rest (fr_config Hf) Hs (fr_policy Hf) Hp (fr_budget Hf) R Hj) as H1.
    unfold wp in H1. rewrite Hrun in H1. apply H1; [|lia|done]. unfold num_tokens_with_spec, num_tokens in *. lia. }
  destruct (od_get_some id _ Hin) as [n Hn]. destruct (pd_each _ _ _ _ Haw id n Hn) as [Hpos _].
  pose proof (head_step s id j Hf Hs Hp Ho) as Hh. unfold wp in Hh. rewrite Hrun in Hh.
  destruct (Hh out eq_refl (pd_nodup _ _ _ _ Haw) n Hn) as (rest1 & j1 & R1 & Hj1 & T1 & C1). clear Hh.
  pose proof (wp_update_from_output config append_tokens out sampled s1 noexc Ha Haw Hans) as Hu. unfold wp in Hu. rewrite Hup in Hu.
  destruct Hu as [Hr' Hu]. split; [done|]. destruct (requests s' !! id) as [j'|] eqn:Hj'; [right|by left].
  exists j'. destruct (update_head config append_tokens _ _ _ _ _ id rest1 Hu R1 ltac:(by rewrite Hj')) as (rest' & R').
  destruct (update_answered config append_tokens _ _ _ _ _ id j1 j' Hu Hin Hj1 Hj') as [A1 A2].
  assert (num_tokens (req j') < mml ∧ (num_tokens (req j) < num_tokens (req j') ∨
    num_tokens (req j') = num_tokens (req j) ∧ num_computed_tokens (req j) < num_computed_tokens (req j'))) as [A3 A4].
  { destruct A2 as [A2| ->]; [lia|]. split; [lia|right; lia]. }
  split; [split; [eauto|done|lia]|]. apply left_over_less; [done|lia| |done].
  assert (id ∈ running s') as Hin' by (rewrite R'; by left).
  destruct (si_running _ _ (rd_inv _ _ Hr') id j' Hin' Hj') as [_ ? _]. lia.
Qed.

(** Rounds can always be made. *)
Lemma round_exists s :
  fcfs_runs → append_ok config append_tokens → ready config s → pause_state s ≠ PAUSED_ALL → ∃ s', round s s'.
Proof.
  intros Hf Ha Hs Hp.
  destruct (wp_run _ _ _ (wp_schedule config empty_queue s noexc (fr_config Hf) (fr_queue Hf) Hs)) as (o & s1 & Hrun & out & -> & Haw & _).
  set (sampled := list_to_map ((λ x, (x.1, [0])) <$> out_num_scheduled_tokens out) : gmap string (list Z)).
  assert (answers out sampled s1) as Hans.
  { intros id n j Hn _. exists [0]. split; [|simpl; lia]. apply elem_of_list_to_map.
    - rewrite <-list_fmap_compose. exact (pd_nodup _ _ _ _ Haw).
    - apply list_elem_of_fmap. exists (id, n). split; [done|]. apply od_get_Some; [apply Haw|done]. }
  destruct (wp_run _ _ _ (wp_update_from_output config append_tokens out sampled s1 noexc Ha Haw Hans)) as (outs & s2 & Hup & _).
  exists s2. split; [done|]. by exists out, s1, sampled, outs.
Qed.

(** A request stays for fewer rounds than it has left. *)
Lemma oldest_bounded k s s' id j :
  fcfs_runs → append_ok config append_tokens → ready config s → oldest s id j →
  nsteps (λ s1 s2, round s1 s2 ∧ is_Some (requests s2 !! id)) k s s' → Z.of_nat k < left_over (req j).
Proof.
  intros Hf Ha. revert s j. induction k as [|k IH]; intros s j Hs Ho Hst.
  - destruct Ho as [_ _ ?]. assert (0 ≤ num_tokens (req j)) by (unfold num_tokens; lia). unfold left_over. nia.
  - inversion Hst as [|? ? s1 ? [Hr Hsome] Hst']; subst. destruct (round_oldest s s1 id j Hf Ha Hs Ho Hr) as [Hs1 [Hn|(j1 & Ho1 & Hl)]].
    + rewrite Hn in Hsome. by destruct Hsome.
    + specialize (IH s1 j1 Hs1 Ho1 Hst'). lia.
Qed.

Lemma left_over_bound r : 1 ≤ num_tokens r < mml → 0 ≤ num_computed_tokens r → left_over r ≤ mml * mml.
Proof. unfold left_over. nia. Qed.

Lemma finishes s id j :
  fcfs_runs → append_ok config append_tokens → ready config s → pause_state s ≠ PAUSED_ALL → oldest s id j →
  (∃ s', round s s') ∧
  ∀ k s', nsteps (λ s1 s2, round s1 s2 ∧ is_Some (requests s2 !! id)) k s s' → Z.of_nat k < mml * mml.
Proof.
  intros Hf Ha Hs Hp Ho. split; [by apply round_exists|]. intros k s' Hst. pose proof Ho as [(rest & R) Hj Hl].
  pose proof (oldest_bounded k s s' id j Hf Ha Hs Ho Hst) as Hk. assert (id ∈ running s) as Hin by (rewrite R; by left).
  destruct (si_running _ _ (rd_inv _ _ Hs) id j Hin Hj) as [_ Hc _]. pose proof (jk_tokens _ _ _ (si_jobs _ _ (rd_inv _ _ Hs) id j Hj)).
  pose proof (left_over_bound (req j)). lia.
Qed.
End finish.
