(* ===== verification/SchedulerCalls.v ===== *)
(** The calls from outside a step: adding and finishing requests, draft tokens, pausing and
    the reset of the prefix cache. Finishing a request removes it from every list, the table
    and the cache and leaves the others alone, also between a step and the model's answer. *)
From S2P Require Import Prelude.
From S2P Require Import Dict.
From S2P Require Import Request.
From S2P Require Import StopCheck.
From S2P Require Import RequestQueue.
From S2P Require Import KVCacheManager.
From S2P Require Import Scheduler.
From S2P Require Import SchedulerInv.
From S2P Require Import SchedulerStep.
From S2P Require Import SchedulerWait.
From S2P Require Import SchedulerMain.
From S2P Require Import SchedulerUpdate.
Local Open Scope Z_scope.

Section calls.
Context {Q : Type} `{HQ : RequestQueueLaws Q} {K : Type} `{!KVCache K}.
Context (config : SchedulerConfig) `{!KVCachePromise K (max_model_len config)}.
Abbreviation SC := (Scheduler (Q := Q) (K := K)).
Abbreviation inv := (sched_inv (extra := []) config).
Implicit Types s : SC.

Lemma ready_pending drafts s : ready config s → pending config [] drafts s.
Proof. intros [R1 R2 R3 R4 R5]. split; try done; [apply NoDup_nil_2|]. intros id j Hin _. by apply R3. Qed.

(** ** Adding a request *)

(** A request as a front end hands it in. *)
Record newcomer s (j : Job) : Prop := {
  nc_job : job_ok config (request_id (req j)) j;
  nc_status : status (req j) = WAITING ∨ status (req j) = WAITING_FOR_FSM;
  nc_computed : num_computed_tokens (req j) = 0;
  nc_pending : num_output_placeholders (req j) = 0;
  nc_object : ∀ id j', requests s !! id = Some j' → obj_id (req j') ≠ obj_id (req j)
}.

Lemma wp_enqueue s r E :
  queue_inv (waiting s) → queue_inv (skipped_waiting s) →
  wp (enqueue_waiting_request r) (λ _ s', queue_inv (waiting s') ∧ queue_inv (skipped_waiting s') ∧
    queued (extra := []) s' ≡ₚ r :: queued (extra := []) s ∧ requests s' = requests s ∧ running s' = running s ∧
    kv_cache_manager s' = kv_cache_manager s ∧ prev_step_scheduled_req_ids s' = prev_step_scheduled_req_ids s ∧
    ∀ x, x ∈ waiting_ids s → x ∈ waiting_ids s') E s.
Proof.
  intros Hw Hk. unfold enqueue_waiting_request. destruct (is_blocked_waiting_status (status r)); apply wp_zoom;
    (eapply wp_mono; [by apply law_add| |by intros ? ? []]); intros [] q [Hq Hc]; split_and!; try done; unfold queued, waiting_ids; simpl; try intros x;
    rewrite Hc, ?app_nil_r; csimpl; [by rewrite <-Permutation_middle|done|by right].
Qed.

(** The request is in the table and in a queue; nothing else has changed. *)
Record added (j : Job) s s' : Prop := {
  ad_requests : requests s' = <[request_id (req j) := j]> (requests s);
  ad_running : running s' = running s;
  ad_queued : queued (extra := []) s' ≡ₚ req j :: queued (extra := []) s;
  ad_kv : kv_cache_manager s' = kv_cache_manager s;
  ad_prev : prev_step_scheduled_req_ids s' = prev_step_scheduled_req_ids s;
  ad_waiting : ∀ x, x ∈ waiting_ids s → x ∈ waiting_ids s'
}.

Lemma wp_add s j E :
  inv s → fresh config s → requests s !! request_id (req j) = None → newcomer s j →
  wp (sched_add_request j) (λ _ s', inv s' ∧ fresh config s' ∧ added j s s') E s.
Proof.
  intros R1 R2 Hno [N1 N2 N3 _ N4]. unfold sched_add_request. wp_steps. rewrite Hno. apply wp_bind.
  eapply wp_call; [apply wp_enqueue; apply R1|]. intros [] s1 (Q1 & Q2 & Q3 & H1 & H2 & H3 & H4 & H5). wp_steps.
  pose proof R1 as [I1 I2 I3 I4 I5 I6 I7 I8 I9 I10]. set (id := request_id (req j)) in *.
  assert (all_ids (extra := []) s1 ≡ₚ id :: all_ids (extra := []) s) as Hall.
  { unfold all_ids. rewrite Q3, H2. csimpl. by rewrite <-Permutation_middle. }
  assert (∀ x y, (<[id := j]> (requests s)) !! x = Some y → x = id ∧ y = j ∨ x ≠ id ∧ requests s !! x = Some y) as Hlook.
  { intros x y. destruct (decide (id = x)) as [<-|Hne]; [rewrite lookup_insert_eq; intros [= ->]; by left|].
    rewrite lookup_insert_ne by done. auto. }
  assert (id ∉ all_ids (extra := []) s) as Hnew by (rewrite I4, Hno; by intros [? ?]).
  set (s' := set_requests (insert id j) s1).
  assert (added j s s') as Had by (split; try done; simpl; by rewrite H1).
  assert (all_ids (extra := []) s' ≡ₚ id :: all_ids (extra := []) s) as F6 by done.
  assert (queue_inv (waiting s') ∧ queue_inv (skipped_waiting s')) as [F7 F8] by done.
  clearbody s'. clear Q1 Q2 Q3 H1 H2 H3 H4 H5 Hall. pose proof Had as [F1 F2 F5 F3 F4 F9]. fold id in F1. split_and!; [| |done].
  - split; rewrite ?F1, ?F2, ?F3; try done.
    + rewrite F6. by apply NoDup_cons.
    + intros x. rewrite F6, elem_of_cons, I4. destruct (decide (id = x)) as [<-|Hne].
      * rewrite lookup_insert_eq. split; eauto.
      * rewrite lookup_insert_ne by done. split; [by intros [?|?]|auto].
    + intros x y [[-> ->]|[_ Hy]]%Hlook; [done|by apply I7].
    + intros x y Hin [[-> ->]|[_ Hy]]%Hlook; [|by apply I8]. exfalso. apply Hnew. unfold all_ids. in_list.
    + intros e. rewrite F5, elem_of_cons. intros [->|He].
      * exists j. fold id. rewrite lookup_insert_eq. split_and!; [done|by repeat split|]. split; [|done|by apply R2].
        unfold queued_status. destruct N2 as [-> | ->]; done.
      * destruct (I9 e He) as (y & Hy & Hrest). exists y. rewrite lookup_insert_ne; [done|]. intros Heq. apply Hnew. rewrite Heq.
        by apply queued_ids.
    + intros x x' y y' [[-> ->]|[Hx Hy]]%Hlook [[-> ->]|[Hx' Hy']]%Hlook Ho; try done.
      * by destruct (N4 x' y' Hy').
      * by destruct (N4 x y Hy).
      * by eapply I10.
  - intros x. rewrite F1, F3. intros Hx. apply R2. destruct (decide (id = x)) as [<-|Hne]; [done|].
    by rewrite lookup_insert_ne in Hx.
Qed.

Lemma added_lookup j s s' x y : added j s s' → requests s' !! x = Some y → x = request_id (req j) ∧ y = j ∨ requests s !! x = Some y.
Proof.
  intros [-> _ _ _ _ _]. destruct (decide (request_id (req j) = x)) as [<-|Hne]; [rewrite lookup_insert_eq; intros [= ->]; by left|].
  rewrite lookup_insert_ne by done. auto.
Qed.

Lemma added_prev j s s' : added j s s' → newcomer s j → prev_ok s → prev_ok s'.
Proof.
  intros Ha [_ N2 _ _ _] Hp x y [[-> ->]|Hy]%(added_lookup _ _ _ _ _ Ha); rewrite (ad_prev _ _ _ Ha); [|by apply Hp].
  destruct N2 as [-> | ->]; done.
Qed.

Lemma wp_add_request s j E :
  ready config s → requests s !! request_id (req j) = None → newcomer s j →
  wp (sched_add_request j) (λ _ s', ready config s' ∧ requests s' = <[request_id (req j) := j]> (requests s) ∧
    running s' = running s ∧ queued (extra := []) s' ≡ₚ req j :: queued (extra := []) s) E s.
Proof.
  intros [R1 R2 R3 R4 R5] Hno Hn. eapply wp_call; [by apply wp_add|]. intros [] s' (H1 & H2 & Ha).
  split; [|by destruct Ha]. pose proof (λ x y, added_lookup j s s' x y Ha) as Hlook. split; try done.
  - intros x y. rewrite (ad_running _ _ _ Ha). intros Hin [[-> ->]|Hy]%Hlook; [|by eapply R3].
    exfalso. destruct (running_known config s _ R1 Hin). congruence.
  - by eapply added_prev.
  - intros x y [[-> ->]|Hy]%Hlook; [apply Hn|by apply (R5 x)].
Qed.

(** A second request under a known id is refused. *)
Lemma add_known s j : is_Some (requests s !! request_id (req j)) → sched_add_request j s = (Raise AssertionError, s).
Proof. intros [j' Hj]. unfold sched_add_request, gets, mbind, M_bind. by rewrite Hj. Qed.

(** ** Finishing requests *)

(** The known requests among [ids]. *)
Definition known (ids : list string) s : list Request := omap (λ id, req <$> requests s !! id) ids.

Lemma unfinished s id j : inv s → requests s !! id = Some j →
  is_finished (status (req j)) = false ∧ (status (req j) = RUNNING ↔ id ∈ running s) ∧ status (req j) ≠ WAITING_FOR_REMOTE_KVS.
Proof.
  intros Hs Hj. assert (id ∈ all_ids (extra := []) s) as Hin by (apply (si_dom _ _ Hs); eauto).
  unfold all_ids in Hin. apply elem_of_app in Hin as [Hin|Hin].
  - destruct (si_running _ _ Hs id j Hin Hj) as [-> _ _]. done.
  - apply list_elem_of_fmap in Hin as (e & -> & He). destruct (si_queued _ _ Hs e He) as (j2 & Hj2 & _ & [(Q1 & Q2 & Q3) _ _]).
    rewrite Hj in Hj2. injection Hj2 as <-. split_and!; [done| |done]. split; [done|]. intros Hr. exfalso.
    apply (running_not_queued config s _ Hs Hr). by apply list_elem_of_fmap_2.
Qed.

Lemma valid_known ids s : inv s → valid_requests ids s = known ids s.
Proof.
  intros Hs. unfold valid_requests, known. induction ids as [|id ids IH]; [done|]. cbn [omap list_omap]. rewrite IH.
  destruct (requests s !! id) as [j|] eqn:Hj; [|done]. destruct (unfinished s id j Hs Hj) as [-> _]. done.
Qed.

Lemma known_in ids s r : inv s → r ∈ known ids s ↔ ∃ j, request_id r ∈ ids ∧ requests s !! request_id r = Some j ∧ req j = r.
Proof.
  intros Hs. unfold known. rewrite list_elem_of_omap. split.
  - intros (id & Hin & Hr). destruct (requests s !! id) as [j|] eqn:Hj; [|done]. simpl in Hr. injection Hr as <-.
    exists j. by rewrite (jk_id _ _ _ (si_jobs _ _ Hs id j Hj)).
  - intros (j & Hin & Hj & <-). exists (request_id (req j)). rewrite Hj. done.
Qed.

Lemma known_nodup ids s : inv s → NoDup ids → NoDup (request_id <$> known ids s).
Proof.
  intros Hs. unfold known. induction ids as [|id ids IH]; intros Hnd; [apply NoDup_nil_2|]. apply NoDup_cons in Hnd as [Hno Hnd].
  cbn [omap list_omap]. destruct (requests s !! id) as [j|] eqn:Hj; simpl; [|by apply IH]. apply NoDup_cons. split; [|by apply IH].
  rewrite (jk_id _ _ _ (si_jobs _ _ Hs id j Hj)). intros Hin. apply list_elem_of_fmap in Hin as (r & Hr & Hin).
  change (r ∈ known ids s) in Hin. apply (known_in ids s r Hs) in Hin as (j2 & Hi & _). rewrite <-Hr in Hi. done.
Qed.

(** Taking the requests out of the lists: object identity agrees with the ids. *)
Lemma queue_filter ids s (q : list Request) :
  inv s → (∀ e, e ∈ q → e ∈ queued (extra := []) s) →
  filter (not_among (filter (λ r, status r ≠ RUNNING) (known ids s))) q =
  filter (λ e, request_id e ∉ request_id <$> known ids s) q.
Proof.
  intros Hs Hq. apply filter_ext_in. intros e He%Hq. unfold not_among.
  destruct (si_queued _ _ Hs e He) as (j & Hj & (K1 & K2 & _) & [(Q1 & _) _ _]).
  assert ((obj_id e ∈ obj_id <$> filter (λ r, status r ≠ RUNNING) (known ids s)) ↔ request_id e ∈ request_id <$> known ids s) as Hiff;
    [|by rewrite Hiff].
  rewrite !list_elem_of_fmap. split.
  - intros (r & Ho & Hr). apply list_elem_of_filter in Hr as [_ Hr]. exists r. split; [|done].
    apply (known_in ids s r Hs) in Hr as (j2 & _ & Hj2 & <-). eapply (si_objects _ _ Hs); [exact Hj|exact Hj2|congruence].
  - intros (r & Hid & Hr). exists r. apply (known_in ids s r Hs) in Hr as Hr'. destruct Hr' as (j2 & _ & Hj2 & <-). rewrite <-Hid, Hj in Hj2.
    injection Hj2 as <-. split; [done|]. apply list_elem_of_filter. done.
Qed.

Lemma running_filter ids s :
  inv s → remove_all (running s) (request_id <$> filter (λ r, status r = RUNNING) (known ids s)) =
    filter (.∉ request_id <$> known ids s) (running s).
Proof.
  intros Hs. rewrite remove_all_filter by apply (running_nodup _ _ Hs). apply filter_ext_in. intros id Hin.
  assert ((id ∈ request_id <$> filter (λ r, status r = RUNNING) (known ids s)) ↔ id ∈ request_id <$> known ids s) as Hiff;
    [|by rewrite Hiff].
  rewrite !list_elem_of_fmap. split; intros (r & -> & Hr); exists r; (split; [done|]).
  - by apply list_elem_of_filter in Hr as [_ ?].
  - apply list_elem_of_filter. split; [|done]. apply (known_in ids s r Hs) in Hr as (j & _ & Hj & <-).
    by apply (unfinished s _ j Hs Hj).
Qed.

(** The state without the table entries of [ids]. *)
Definition without (ids : list string) s : SC := set_requests (filter (λ x, x.1 ∉ ids)) s.

Lemma without_lookup ids s x : requests (without ids s) !! x = if decide (x ∈ ids) then None else requests s !! x.
Proof.
  simpl. rewrite map_lookup_filter. destruct (requests s !! x) as [j|] eqn:Hj; simpl; [|by case_decide].
  destruct (decide (x ∈ ids)) as [Hin|Hin]; [rewrite option_guard_False by (simpl; auto)|rewrite option_guard_True by done]; done.
Qed.

(** The first pass. *)
Lemma wp_take_out ids s (Post : unit → SC → Prop) E :
  inv s →
  (∀ s', removed (request_id <$> known ids s) s (without (request_id <$> known ids s) s') → requests s' = requests s →
     kv_cache_manager s' = kv_cache_manager s → finished_req_ids s' = finished_req_ids s →
     prev_step_scheduled_req_ids s' = prev_step_scheduled_req_ids s → pause_state s' = pause_state s → Post tt s') →
  wp (modify (set_running (λ l, remove_all l (request_id <$> filter (λ r, status r = RUNNING) (known ids s)))) ;;
      match filter (λ r, status r ≠ RUNNING) (known ids s) with
      | [] => mret tt
      | _ => on_waiting (remove_requests (filter (λ r, status r ≠ RUNNING) (known ids s))) ;;
          on_skipped (remove_requests (filter (λ r, status r ≠ RUNNING) (known ids s)))
      end) Post E s.
Proof.
  intros Hs HP. apply wp_bind, wp_modify. set (gone := request_id <$> known ids s) in *.
  apply (wp_call _ (λ _ s', ∃ q1 q2, s' = mkScheduler (requests s) q1 q2 (filter (.∉ gone) (running s)) (finished_req_ids s)
      (prev_step_scheduled_req_ids s) (pause_state s) (kv_cache_manager s) ∧ queue_inv q1 ∧ queue_inv q2 ∧
      contents q1 ≡ₚ filter (λ e, request_id e ∉ gone) (contents (waiting s)) ∧
      contents q2 ≡ₚ filter (λ e, request_id e ∉ gone) (contents (skipped_waiting s)))).
  - assert (∀ e, e ∈ contents (waiting s) → e ∈ queued (extra := []) s) as Hw by (intros; unfold queued; in_list).
    assert (∀ e, e ∈ contents (skipped_waiting s) → e ∈ queued (extra := []) s) as Hk by (intros; unfold queued; in_list).
    pose proof (queue_filter ids s _ Hs Hw) as Fw. pose proof (queue_filter ids s _ Hs Hk) as Fk. fold gone in Fw, Fk.
    pose proof (running_filter ids s Hs) as Fr. fold gone in Fr. unfold set_running. rewrite Fr.
    destruct (filter (λ r, status r ≠ RUNNING) (known ids s)) as [|r rs].
    + wp_steps. exists (waiting s), (skipped_waiting s). split_and!; [done|apply Hs|apply Hs| |].
      * rewrite <-Fw, filter_all; [done|]. intros. apply not_elem_of_nil.
      * rewrite <-Fk, filter_all; [done|]. intros. apply not_elem_of_nil.
    + apply wp_bind, wp_zoom. eapply wp_mono; [apply law_removes, Hs| |by intros ? ? []]. intros [] q1 [H1 H2].
      apply wp_zoom. eapply wp_mono; [apply law_removes, Hs| |by intros ? ? []]. intros [] q2 [H3 H4]. simpl in *.
      exists q1, q2. rewrite <-Fw, <-Fk. done.
  - intros [] s' (q1 & q2 & -> & H1 & H2 & H3 & H4). apply HP; try done. split; try done.
    + intros x. by rewrite without_lookup.
    + unfold queued. simpl. rewrite !filter_app, !app_nil_r. by rewrite H3, H4.
    + intros x Hx (e & -> & He)%list_elem_of_fmap. apply list_elem_of_fmap. exists e. split; [done|]. simpl. rewrite H3. by apply list_elem_of_filter.
Qed.

Lemma pending_same todo drafts s s' :
  pending config todo drafts s → requests s' = requests s → waiting s' = waiting s → skipped_waiting s' = skipped_waiting s →
  running s' = running s → prev_step_scheduled_req_ids s' = prev_step_scheduled_req_ids s →
  kv_cache_manager s' = kv_cache_manager s → pending config todo drafts s'.
Proof.
  destruct s, s'; simpl. intros [P1 P2 P3 P4 P5 P6 P7] -> -> -> -> -> ->. split; try done. destruct P1. by split.
Qed.

(** What finishing requests keeps: any property of the state that survives the removal of
    requests from the lists, the table and the cache. *)
Section finishing.
Context (P : SC → Prop).
Hypothesis P_inv : ∀ s, P s → inv s.
Hypothesis P_removed : ∀ ids s s' k, P s → removed ids s s' → kv_good k → (∀ x, x ∈ ids → absent k x) →
  (∀ x, x ∉ ids → spared config (kv_cache_manager s) k x) →
  prev_step_scheduled_req_ids s' = prev_step_scheduled_req_ids s → P (with_kv k s').
Hypothesis P_same : ∀ s s', P s → requests s' = requests s → waiting s' = waiting s → skipped_waiting s' = skipped_waiting s →
  running s' = running s → prev_step_scheduled_req_ids s' = prev_step_scheduled_req_ids s →
  kv_cache_manager s' = kv_cache_manager s → P s'.

(** Between two turns of the second pass: in any cache without the requests that are still to
    be freed, the others are as they were. *)
Record finish_inv s0 (dn todo : list Request) s : Prop := {
  fi_kv : kv_good (kv_cache_manager s);
  fi_pending : ∀ k, kv_good k → (∀ x, x ∈ request_id <$> todo → absent k x) →
    (∀ x, x ∉ request_id <$> todo → spared config (kv_cache_manager s) k x) →
    P (with_kv k (without (request_id <$> todo) s));
  fi_todo : ∀ r, r ∈ todo → ∃ j, requests s !! request_id r = Some j ∧ request_id (req j) = request_id r;
  fi_done : ∀ x, x ∈ request_id <$> dn → requests s !! x = None;
  fi_others : ∀ x, x ∉ request_id <$> dn ++ todo → requests s !! x = requests s0 !! x;
  fi_finished : finished_req_ids s = finished_req_ids s0 ∪ list_to_set (request_id <$> dn);
  fi_pause : pause_state s = pause_state s0
}.

Lemma finish_turn s0 fs dn r todo s E :
  is_finished fs = true → NoDup (request_id <$> r :: todo) → request_id r ∉ request_id <$> dn →
  finish_inv s0 dn (r :: todo) s →
  wp (upd_job (request_id r) (on_req (set_status fs)) ;; sched_free_request (request_id r) false)
    (λ _ s', finish_inv s0 (dn ++ [r]) todo s') E s.
Proof.
  intros Hfs Hnd Hdn [F1 F2 F3 F4 F5 F6 F7]. destruct (F3 r) as (j & Hj & Hid); [by left|]. set (id := request_id r) in *.
  csimpl in Hnd. apply NoDup_cons in Hnd as [Hno Hnd]. fold id in Hno.
  apply wp_bind, wp_upd_job. set (s1 := set_requests _ s).
  assert (requests s1 = <[id := on_req (set_status fs) j]> (requests s)) as Hreq by by apply alter_known.
  apply (wp_sched_free_request config s1 id (on_req (set_status fs) j)); [done|rewrite Hreq; apply lookup_insert_eq|done|done|].
  intros k K1 K2 K3. simpl in K3.
  assert (∀ x, x ≠ id → requests (freed s1 id k) !! x = requests s !! x) as Hoth.
  { intros x Hx. unfold freed. cbn [requests]. rewrite Hreq, lookup_delete_ne, lookup_insert_ne by done. done. }
  assert (requests (freed s1 id k) !! id = None) as Hgone by (simpl; apply lookup_delete_eq).
  split; try done.
  - intros k' Hk' Ha Hsp. eapply P_same; [apply (F2 k' Hk')|..]; try done.
    + csimpl. intros x [->|Hx]%elem_of_cons; [|by apply Ha]. by apply (Hsp id Hno).
    + csimpl. intros x. rewrite not_elem_of_cons. intros [Hx1 Hx2]. eapply spared_trans; [by apply K3|]. by apply Hsp.
    + apply map_eq. intros x. change (requests (with_kv k' ?a)) with (requests a). rewrite !without_lookup. rewrite fmap_cons. fold id.
      destruct (decide (x = id)) as [->|Hx].
      * rewrite Hgone. rewrite (decide_True (P := id ∈ _ :: _)) by by left. by case_decide.
      * rewrite Hoth by done. apply decide_ext. rewrite elem_of_cons. tauto.
  - intros r' Hr'. destruct (F3 r') as (j' & Hj' & Hid'); [by right|]. exists j'. rewrite Hoth; [done|].
    intros Heq. apply Hno. rewrite <-Heq. by apply list_elem_of_fmap_2.
  - intros x. rewrite fmap_app, elem_of_app. csimpl. rewrite list_elem_of_singleton. destruct (decide (x = id)) as [->|Hx]; [done|].
    rewrite Hoth by done. intros [?|?]; [by apply F4|done].
  - intros x. rewrite <-app_assoc. simpl. intros Hx. rewrite Hoth; [by apply F5|]. intros ->. apply Hx.
    rewrite fmap_app. csimpl. in_list.
  - simpl. rewrite F6, fmap_app, list_to_set_app_L. csimpl. fold id. set_solver.
Qed.

Record finished_all (ids : list string) s (clients : list (string * Z)) s' : Prop := {
  fa_kept : P s';
  fa_requests : ∀ x, requests s' !! x = if decide (x ∈ ids) then None else requests s !! x;
  fa_finished : finished_req_ids s' = finished_req_ids s ∪ list_to_set (request_id <$> known ids s);
  fa_clients : clients = (λ r, (request_id r, from_option client_index 0 (requests s !! request_id r))) <$> known ids s;
  fa_pause : pause_state s' = pause_state s
}.

Lemma wp_finish_with ids fs s E :
  P s → NoDup ids → is_finished fs = true → wp (finish_requests ids fs) (finished_all ids s) E s.
Proof.
  intros Hp Hnd Hfs. pose proof (P_inv s Hp) as Hs. unfold finish_requests.
  apply wp_bind, wp_assert; [done|]. wp_steps. rewrite (valid_known ids s Hs). cbv zeta. apply (wp_take_out ids s); [done|].
  intros s1 Hrm H1 H2 H3 H4 H5. wp_steps. rewrite H1. set (gone := known ids s) in *.
  assert (∀ r, r ∈ gone → ∃ j, requests s !! request_id r = Some j ∧ req j = r ∧ request_id r ∈ ids) as Hg.
  { intros r (j & Hi & Hj & Hr)%(known_in ids s r Hs). eauto. }
  pose proof (known_nodup ids s Hs Hnd) as Hnd'. fold gone in Hnd'.
  apply (wp_for_each (λ dn todo s', finish_inv s dn todo s')).
  - split; try done.
    + rewrite H2. apply Hs.
    + intros k Hk Ha Hsp. rewrite H2 in Hsp. by eapply P_removed.
    + intros r Hr. rewrite H1. destruct (Hg r Hr) as (j & Hj & <- & _). eauto.
    + intros x Hx. by apply elem_of_nil in Hx.
    + intros x _. by rewrite H1.
    + rewrite H3. simpl. set_solver.
  - intros dn r todo s' Hsplit Hfi. assert (r ∈ gone) as Hr by (rewrite Hsplit; in_list).
    destruct (Hg r Hr) as (j & Hj & Heq & _). subst r. destruct (unfinished s _ j Hs Hj) as (_ & _ & Hnw).
    rewrite bool_decide_false by done. rewrite Hsplit, fmap_app in Hnd'. apply NoDup_app in Hnd' as (_ & Hd & Hnd').
    apply finish_turn; try done. intros Hx. apply (Hd _ Hx). csimpl. by left.
  - intros s' [F1 F2 F3 F4 F5 F6 F7]. wp_steps. rewrite app_nil_r in F5. split; try done; [|intros x].
    + eapply P_same; [apply (F2 (kv_cache_manager s')); try done|..]; try done; [by intros x ?%elem_of_nil|].
      apply map_eq. intros x. change (requests (with_kv ?k ?a)) with (requests a). rewrite without_lookup, decide_False; [done|].
      apply not_elem_of_nil.
    + destruct (decide (x ∈ request_id <$> gone)) as [Hin|Hin].
      * rewrite F4 by done. apply list_elem_of_fmap in Hin as (r & -> & Hr). destruct (Hg r Hr) as (_ & _ & _ & Hi). by rewrite decide_True.
      * rewrite F5 by done. case_decide as Hi; [|done]. destruct (requests s !! x) as [j|] eqn:Hj; [|done]. exfalso. apply Hin.
        apply list_elem_of_fmap. exists (req j). pose proof (jk_id _ _ _ (si_jobs _ _ Hs x j Hj)) as Hid. split; [done|].
        apply (known_in ids s _ Hs). exists j. rewrite Hid. done.
Qed.
End finishing.

Lemma wp_finish_requests todo_tokens drafts ids fs s E :
  pending config todo_tokens drafts s → NoDup ids → is_finished fs = true →
  wp (finish_requests ids fs) (finished_all (pending config todo_tokens drafts) ids s) E s.
Proof.
  intros Hp. apply wp_finish_with; [by intros ? []|intros; by eapply pending_removed|intros; by eapply pending_same|done].
Qed.

(** ** Draft tokens *)

Lemma wp_update_drafts validate drafts s E :
  ready config s →
  wp (update_draft_token_ids validate drafts) (λ _ s', ready config s' ∧ running s' = running s ∧
    waiting s' = waiting s ∧ skipped_waiting s' = skipped_waiting s ∧ kv_cache_manager s' = kv_cache_manager s) E s.
Proof.
  intros Hr. apply (wp_for_each (λ _ _ s', ready config s' ∧ running s' = running s ∧
    waiting s' = waiting s ∧ skipped_waiting s' = skipped_waiting s ∧ kv_cache_manager s' = kv_cache_manager s)); [done| |done].
  intros dn [id ts] todo s' _ (H1 & H2 & H3 & H4 & H5). wp_steps. simpl.
  destruct (requests s' !! id) as [j|] eqn:Hj; [|by wp_steps]. destruct (is_finished (status (req j))); [by wp_steps|].
  destruct (is_prefill_chunk j); apply wp_upd_job; (split; [by eapply ready_draft|done]).
Qed.

(** ** Resetting the prefix cache *)

Lemma cleared_ok id j : job_ok config id j → job_ok config id (set_discard true (on_req (set_placeholders 0) j)).
Proof. intros [H1 H2 H3 H4 H5]. split; try done. simpl. by eapply req_ok_view; [..|exact H2]. Qed.

Lemma wp_preempt_last s ids id E :
  inv s → fresh config s → running s = ids ++ [id] →
  wp (preempt_last id) (λ _ s', inv s' ∧ fresh config s' ∧ running s' = ids ∧ kept config s s' ∧ (sync s → sync s')) E s.
Proof.
  intros Hs Hf Hr. assert (id ∈ running s) as Hin by (rewrite Hr; in_list). destruct (running_known _ s id Hs Hin) as [j Hj].
  pose proof (running_nodup _ s Hs) as Hnd. unfold preempt_last. apply wp_bind, wp_modify.
  assert (take (length (running s) - 1) (running s) = list_remove_first id (running s)) as Hlast.
  { apply remove_first_last; [done|]. by rewrite Hr, last_snoc. }
  unfold set_running at 1. rewrite Hlast. fold (set_running (list_remove_first id) s).
  apply wp_bind. eapply wp_call; [by apply (wp_preempt (extra := []) config s id j)|]. intros [] s1 [Hs1 Hd]. apply wp_upd_job.
  pose proof (kept_dropped config id j s s1 Hj Hd) as Hk. pose proof Hd as [D1 D2 D3 D4 D5 D6 D7 D8].
  assert (requests s1 !! id = Some (on_req preempted j)) as Hj1 by (rewrite D1; apply lookup_insert_eq).
  split_and!.
  - eapply (inv_move config s1 _ id (on_req preempted j)); [done|done|by apply alter_known|..]; try done; sched_parts.
    + by apply cleared_ok, (si_jobs _ _ Hs1).
    + intros Hx. simpl in Hx. rewrite D2 in Hx. by apply remove_first_gone in Hx.
    + intros e He Heq. destruct (si_queued _ _ Hs1 e He) as (j2 & Hj2 & Hkey & [Q1 Q2 Q3]).
      rewrite Heq, Hj1 in Hj2. injection Hj2 as <-. by split.
  - apply (kept_alter config _ id (on_req preempted j)); [done|]. by apply Hk.
  - simpl. rewrite D2, <-Hlast, Hr, length_app. simpl. rewrite Nat.add_sub. apply take_app_length.
  - eapply kept_trans; [exact Hk|]. by eapply kept_alter.
  - intros Hy x jx. simpl. destruct (decide (id = x)) as [<-|Hne].
    + rewrite lookup_alter_eq, Hj1. by intros [= <-].
    + rewrite lookup_alter_ne, D1, lookup_insert_ne by done. apply Hy.
Qed.

Lemma wp_reset reset s E :
  ready config s →
  wp (sched_reset_prefix_cache reset) (λ ok s', ready config s' ∧
    (reset = true → ok = true ∧ running s' = [] ∧ prev_step_scheduled_req_ids s' = ∅)) E s.
Proof.
  intros [R1 R2 R3 R4 R5]. unfold sched_reset_prefix_cache. destruct reset; wp_steps.
  - apply (wp_for_each (λ _ todo s', inv s' ∧ fresh config s' ∧ running s' = reverse todo ∧ kept config s s' ∧ sync s')).
    + by rewrite reverse_involutive.
    + intros dn id todo s' _ (H1 & H2 & H3 & H4 & H5). rewrite reverse_cons in H3.
      eapply wp_call; [by eapply wp_preempt_last|]. intros [] s2 (? & ? & ? & ? & ?). split_and!; try done; [by eapply kept_trans|auto].
    + intros s1 (H1 & H2 & H3 & H4 & H5). simpl in H3. wp_steps. apply wp_zoom.
      eapply wp_mono; [apply promise_reset, H1| |by intros ? ? []]. intros ok k (K1 & K2 & K3). fold (with_kv k (set_prev_step ∅ s1)).
      assert (ok = true) as ->.
      { apply K2. intros x. simpl. destruct (requests s1 !! x) as [j|] eqn:Hj; [|by apply H2].
        assert (x ∈ all_ids (extra := []) s1) as Hx by (apply (si_dom _ _ H1); eauto). unfold all_ids in Hx. rewrite H3 in Hx.
        apply list_elem_of_fmap in Hx as (e & -> & He). destruct (si_queued _ _ H1 e He) as (j2 & Hj2 & (Hid & _) & [_ _ Ha]).
        by rewrite Hid. }
      simpl. wp_steps. split; [|done]. split.
      * apply inv_spared; [|done|done]. by eapply inv_requeue; [exact H1|..]; try apply H1.
      * intros x Hx. apply K3. by apply H2.
      * intros x j Hx. simpl in Hx. rewrite H3 in Hx. by apply elem_of_nil in Hx.
      * intros x j _ _. simpl. set_solver.
      * exact H5.
  - apply wp_zoom. eapply wp_mono; [apply promise_reset, R1| |by intros ? ? []]. intros ok k (K1 & K2 & K3).
    fold (with_kv k s). simpl. wp_steps. split; [|done]. split; try done.
    + by apply inv_spared.
    + intros x Hx. apply K3. by apply R2.
Qed.
End calls.
