(* ===== verification/SchedulerKV.v ===== *)
(** The KV cache manager keeps the promise the scheduler relies on: for every list of group
    specs that a caching coordinator accepts and a hash function without collisions, lookups,
    allocations, frees and resets never raise, spare the other requests and cover the granted
    tokens, and appending sampled tokens keeps the block hashes of a request in order. *)
From S2P Require Import Prelude.
From S2P Require Import Request.
From S2P Require Import BlockHash.
From S2P Require Import FreeQueue.
From S2P Require Import BlockMap.
From S2P Require Import BlockPool.
From S2P Require Import PoolInv.
From S2P Require Import PoolCache.
From S2P Require Import PoolSteps.
From S2P Require Import Manager.
From S2P Require Import ManagerInv.
From S2P Require Import ManagerSteps.
From S2P Require Import CacheHit.
From S2P Require Import Coordinator.
From S2P Require Import KVCacheManager.
From S2P Require Import HitSpecs.
From S2P Require Import HybridHit.
From S2P Require Import CoordinatorInv.
From S2P Require Import AllocateSlots.
From S2P Require Import KVSteps.
From S2P Require Import Admission.
From S2P Require Import Scheduler.
From S2P Require Import SchedulerInv.
From S2P Require Import SchedulerLive.
From S2P Require Import SchedulerUpdate.
Local Open Scope Z_scope.

(** What is assumed of a deployment: the group specs suit the searches, the coordinator
    accepts them, and the hash function has no collisions and digests of one length. *)
Record deployment (specs : list KVCacheSpec) (eagle : bool) (hbs : Z)
    (search : list bytes → Z → M P (option (columns * Z))) (hash_function : bytes * list Z * option (list extra_key) → bytes) (NONE_HASH : bytes) : Prop := {
  dp_accepted : get_kv_cache_coordinator specs eagle true 1 1 hbs = Ret search;
  dp_nonempty : specs ≠ [];
  dp_hash_size : 0 < hbs;
  dp_count : Z.of_nat (length specs) ≤ 2 ^ 32;
  dp_specs : ∀ s, s ∈ specs → 0 < spec_block_size s ∧ (hbs | spec_block_size s) ∧
    search_ok (spec_kind s) (spec_block_size s) (alignment specs) eagle;
  dp_one_full : ∀ s s', s ∈ specs → s' ∈ specs → is_full s = true → is_full s' = true → s = s';
  dp_hash : collision_free hash_function NONE_HASH;
  dp_digest : ∃ k, ∀ x, length (hash_function x) = k
}.

Section promise.
Context (specs : list KVCacheSpec) (eagle : bool) (hbs nblocks : Z) (cfg : SchedulerConfig).
Abbreviation mml := (max_model_len cfg).
Context (search : list bytes → Z → M P (option (columns * Z))).
Context (hash_function : bytes * list Z * option (list extra_key) → bytes) (NONE_HASH : bytes).
Hypothesis Hdep : deployment specs eagle hbs search hash_function NONE_HASH.

Local Instance the_cache : KVCache CO := manager_cache mml true search.

(** ** The parts of the promise *)

Record cache_good (s : CO) : Prop := {
  ck_good : ∃ l, coord_good s l;
  ck_for : coord_for specs s;
  ck_size : hash_block_size (co_block_pool s) = hbs;
  ck_blocks : num_gpu_blocks (co_block_pool s) = nblocks;
  ck_bound : ∀ i m x, single_type_managers s !! i = Some m → Z.of_nat (length (table m x)) ≤ cdiv mml (block_size m)
}.

Definition slots_for (s : CO) (req : string) (n : Z) : Prop :=
  ∀ i m, single_type_managers s !! i = Some m → n ≤ block_size m * Z.of_nat (length (table m req)).

Record request_good (r : Request) : Prop := {
  rg_text : mm_features r = [];
  rg_memo : memo_ok r;
  rg_hashes : hashes_ok hash_function NONE_HASH hbs r
}.

Lemma block_hash_at_view r r' i :
  hash_view r' = hash_view r → prompt_embeds r' = prompt_embeds r →
  block_hash_at hash_function NONE_HASH hbs r' i = block_hash_at hash_function NONE_HASH hbs r i.
Proof.
  unfold hash_view. intros [= H1 H2 H3 H4 H5] He.
  assert (∀ j, block_tokens hbs r' j = block_tokens hbs r j ∧ block_keys hbs r' j = block_keys hbs r j) as Hj.
  { intros j. unfold block_tokens, block_keys, text_keys, gen_lora_extra_hash_keys. by rewrite H1, H4, H5, He. }
  induction i as [|i IH]; simpl; rewrite ?IH; by rewrite (proj1 (Hj _)), (proj2 (Hj _)).
Qed.

Lemma request_good_view r r' :
  hash_view r' = hash_view r → prompt_embeds r' = prompt_embeds r →
  embeds_hash_cache r' = embeds_hash_cache r → request_good r → request_good r'.
Proof.
  intros Hv He Hc [R1 R2 R3]. pose proof (block_hash_at_view r r') as Hb. pose proof Hv as [= H1 H2 H3 H4 H5].
  split; [congruence| |].
  - intros a b h. rewrite Hc, He. apply R2.
  - unfold hashes_ok in *. rewrite H2, R3. unfold num_full_blocks, num_tokens. rewrite H1.
    apply list_fmap_ext. intros i x _. by rewrite Hb.
Qed.

Lemma request_good_memo r r' : same_but_memo r r' → request_good r → request_good r'.
Proof.
  intros [[c ->] Hm] [R1 R2 R3]. split; [done|by apply Hm|]. unfold hashes_ok in *. simpl. rewrite R3.
  apply list_fmap_ext. intros i x _. symmetry. apply block_hash_at_cache.
Qed.

Lemma hashes_enough r : request_good r → num_tokens r / hbs ≤ Z.of_nat (length (block_hashes r)).
Proof using Hdep.
  intros [_ _ Hh]. unfold hashes_ok in Hh. rewrite Hh, length_fmap, length_seq. unfold num_full_blocks.
  pose proof (dp_hash_size _ _ _ _ _ _ Hdep). unfold num_tokens in *. rewrite Z2Nat.id; [lia|]. apply Z.div_pos; lia.
Qed.

Lemma hashes_distinct r : request_good r → distinct_hashes (block_hashes r).
Proof using Hdep.
  intros [_ _ Hh]. pose proof Hdep as [_ _ _ _ _ _ Hcf [k Hk]]. unfold hashes_ok in Hh. rewrite Hh. split.
  - apply NoDup_fmap_2_strong; [|apply NoDup_seq]. intros i j _ _ Heq.
    by destruct (block_hash_at_inj hash_function NONE_HASH hbs r r i j Hcf Heq).
  - exists k. intros h (i & -> & _)%list_elem_of_fmap. destruct i; apply Hk.
Qed.

(** ** Preservation *)

Lemma coord_for_step s s' :
  coord_for specs s → frame (co_block_pool s) (co_block_pool s') →
  all_managers (λ _ m m', mgr_config m' = mgr_config m) s s' → coord_for specs s'.
Proof.
  intros [F1 F2 F3] Hf Hall. split.
  - rewrite (proj1 Hall). done.
  - by rewrite (frame_caching _ _ Hf).
  - intros i m' sp Hm' Hsp. destruct (all_managers_back _ _ _ _ _ Hall Hm') as (m & Hm & Hc).
    unfold mgr_config in Hc. destruct (F3 i m sp Hm Hsp) as (? & ? & ?). split_and!; congruence.
Qed.

Lemma frame_sizes p p' : frame p p' → hash_block_size p' = hash_block_size p ∧ num_gpu_blocks p' = num_gpu_blocks p.
Proof. intros [Hc _]. unfold config in Hc. split; congruence. Qed.

Lemma cache_good_step s s' l' :
  cache_good s → coord_good s' l' → frame (co_block_pool s) (co_block_pool s') →
  all_managers (λ _ m m', mgr_config m' = mgr_config m ∧
    ∀ x, Z.of_nat (length (table m' x)) ≤ Z.max (Z.of_nat (length (table m x))) (cdiv mml (block_size m))) s s' → cache_good s'.
Proof.
  intros [G1 G2 G3 G4 G5] Hg Hf Hall. destruct (frame_sizes _ _ Hf) as [F1 F2]. split; [eauto| |congruence|congruence|].
  - eapply coord_for_step; [done|done|]. eapply all_managers_impl; [exact Hall|]. by intros i m m' _ [? _].
  - intros i m' x Hm'. destruct (all_managers_back _ _ _ _ _ Hall Hm') as (m & Hm & Hc & Hx).
    unfold mgr_config in Hc. replace (block_size m') with (block_size m) by congruence.
    specialize (G5 i m x Hm). specialize (Hx x). lia.
Qed.

(** A request whose tables are as they were. *)
Lemma spared_step s s' x :
  all_managers (λ _ m m', mgr_config m' = mgr_config m ∧ table m' x = table m x ∧
    num_cached_block m' !! x = num_cached_block m !! x) s s' →
  (unknown s x → unknown s' x) ∧ ∀ n, slots_for s x n → slots_for s' x n.
Proof.
  intros Hall. split.
  - intros Hu i m' Hm'. destruct (all_managers_back _ _ _ _ _ Hall Hm') as (m & Hm & _ & -> & ->). by apply Hu in Hm.
  - intros n Hn i m' Hm'. destruct (all_managers_back _ _ _ _ _ Hall Hm') as (m & Hm & Hc & -> & _).
    unfold mgr_config in Hc. replace (block_size m') with (block_size m) by congruence. by apply Hn in Hm.
Qed.

(** What [allocate_slots] leaves. *)
Lemma promise_kept s l r h new lookahead o s' :
  cache_good s → request_good r → slots_promise mml h new lookahead s l r o s' →
  cache_good s'.1 ∧ same_request_but_memo r s'.2 ∧ request_good s'.2 ∧
  (∀ x, x ≠ request_id r → (unknown s x → unknown s'.1 x) ∧ ∀ n, slots_for s x n → slots_for s'.1 x n) ∧
  (∀ n, slots_for s (request_id r) n → slots_for s'.1 (request_id r) n) ∧
  match o with
  | Some _ => slots_for s'.1 (request_id r) (slot_tokens mml h new lookahead)
  | None => unknown s (request_id r) → unknown s'.1 (request_id r)
  end.
Proof.
  intros Hk Hr (_ & l' & Hg & Hm & Hf & Hall). split_and!.
  - eapply cache_good_step; [done|done|done|]. eapply all_managers_impl; [exact Hall|]. intros i m m' Hi [Hc Ho _ Hb _].
    split; [done|]. intros x. destruct (decide (x = request_id r)) as [->|Hx]; [|destruct (Ho x Hx) as [-> _]; lia].
    destruct (ck_good _ Hk) as [l0 Hg0]. pose proof (ml_size _ _ (cg_each _ _ Hg0 i m Hi)) as Hbs.
    pose proof (cdiv_mono (slot_tokens mml h new lookahead) mml (block_size m) Hbs). unfold slot_tokens in *. lia.
  - destruct Hm as [? _]. done.
  - by eapply request_good_memo.
  - intros x Hx. apply spared_step. eapply all_managers_impl; [exact Hall|]. intros i m m' _ [Hc Ho _ _ _].
    destruct (Ho x Hx). done.
  - intros n Hn i m' Hm'. destruct (all_managers_back _ _ _ _ _ Hall Hm') as (m & Hmm & [Hc _ Hl _ _]).
    unfold mgr_config in Hc. replace (block_size m') with (block_size m) by congruence.
    pose proof (Hn i m Hmm). destruct (ck_good _ Hk) as [l0 Hg0]. pose proof (ml_size _ _ (cg_each _ _ Hg0 i m Hmm)). nia.
  - destruct o as [b|].
    + intros i m' Hm'. destruct (all_managers_back _ _ _ _ _ Hall Hm') as (m & Hmm & [Hc _ _ _ Hs]).
      rewrite bool_decide_true in Hs by done. unfold mgr_config in Hc. by replace (block_size m') with (block_size m) by congruence.
    + intros Hu i m' Hm'. destruct (all_managers_back _ _ _ _ _ Hall Hm') as (m & Hmm & [_ _ _ _ Hs]).
      rewrite bool_decide_false in Hs by auto. destruct Hs as [Hl ->]. destruct (Hu i m Hmm) as [? Ht]. split; [done|].
      rewrite Ht in Hl. by destruct (table m' (request_id r)).
Qed.

Lemma good_ready s r : cache_good s → request_good r → hash_ready s r.
Proof using Hdep.
  intros [G1 [F1 F2 F3] G3 _ _] Hr. pose proof Hr as [R1 R2 R3]. pose proof Hdep as [_ _ D3 D4 D5 _ _ _].
  split; rewrite ?G3; try done; [by apply hashes_enough|]. intros i m Hm.
  destruct (lookup_lt_is_Some_2 specs i) as [sp Hsp]; [rewrite <-F1; by eapply lookup_lt_Some|].
  destruct (F3 i m sp Hm Hsp) as (-> & _ & ->). apply list_elem_of_lookup_2 in Hsp as Hin.
  apply lookup_lt_Some in Hsp. destruct (D5 sp Hin) as (_ & ? & _). split; [lia|done].
Qed.

Lemma good_startable s r :
  cache_good s → request_good r → unknown s (request_id r) → num_computed_tokens r = 0 → 1 ≤ num_tokens r →
  startable specs hbs eagle s r.
Proof using Hdep.
  intros Hk Hr Hu H0 H1. pose proof Hdep as [_ _ D3 D4 D5 D6 _ _]. split; try apply Hk; try done.
  - by apply good_ready.
  - by apply hashes_distinct.
  - split; try done; [lia|]. etrans; [|apply (hashes_enough r Hr)]. apply Z.div_le_mono; lia.
Qed.

(** ** The calls *)

Lemma computed_kept s r :
  cache_good s → request_good r → unknown s (request_id r) → num_computed_tokens r = 0 → 1 ≤ num_tokens r ≤ mml →
  wp kvc_computed (λ o p, p = (s, r) ∧ ∃ b h, o = Some (b, h) ∧ 0 ≤ h < num_tokens r ∧
    ∀ new lookahead, 0 < new → 0 ≤ lookahead →
      wp (kvc_allocate new h (Some b) lookahead)
        (λ o' p', cache_good p'.1 ∧ same_request_but_memo r p'.2 ∧ request_good p'.2 ∧
           (∀ x, x ≠ request_id r → (unknown s x → unknown p'.1 x) ∧ ∀ n, slots_for s x n → slots_for p'.1 x n) ∧
           match o' with
           | Some _ => slots_for p'.1 (request_id r) (Z.min (h + new) mml)
           | None => unknown p'.1 (request_id r)
           end) noexc (s, r)) noexc (s, r).
Proof using Hdep.
  intros Hk Hr Hu H0 H1. destruct (ck_good _ Hk) as [l Hg]. pose proof Hdep as [D1 D2 _ _ _ _ _ _].
  destruct (start_request specs eagle hbs mml s l r search Hg D1 D2) as (b & h & Hrun & Hh & Hal);
    [apply good_startable; try done; lia|].
  unfold wp at 1. simpl. rewrite Hrun. split; [done|]. exists b, h. split_and!; [done|lia|lia|].
  intros new lookahead Hn Hl. destruct (Hal new lookahead false) as (o & s' & Hrun' & Hp); [split; lia|].
  unfold wp. simpl. rewrite Hrun'. destruct (promise_kept s l r h new lookahead o s' Hk Hr Hp) as (A1 & A2 & A3 & A4 & _ & A6).
  split_and!; try done. destruct o; [|by apply A6]. intros i m Hm. specialize (A6 i m Hm). unfold slot_tokens in A6. lia.
Qed.

Lemma wp_grow_slots s l r new lookahead E :
  cache_good s → coord_good s l → request_good r → slots_for s (request_id r) (num_computed_tokens r) →
  0 ≤ num_computed_tokens r ≤ mml → num_tokens r ≤ mml → 0 < new → 0 ≤ lookahead →
  wp (kvc_allocate new 0 None lookahead) (slots_promise mml (num_computed_tokens r) new lookahead s l r) E (s, r).
Proof using Hdep.
  intros Hk Hg Hr Hs Hc Ht Hn Hl. set (c := num_computed_tokens r) in *.
  assert (slots_call mml r c new lookahead) as Hcall by (split; lia).
  eapply (wp_call _ (running_outcome mml true false s l r c new lookahead)).
  - apply (allocate_slots_body mml true false s r c new lookahead Hcall 0 None); [apply Z.add_0_r|].
    apply (wp_running_body mml true false s l r c new lookahead Hg Hcall (λ _, good_ready s r Hk Hr)).
    intros i m Hm. right. destruct (cg_each _ _ Hg i m Hm) as [_ Hb Hkd _ _].
    destruct (skipped_blocks_bound m c Hb Hkd ltac:(lia)) as [_ H]. pose proof (Hs i m Hm). etrans; [exact H|].
    pose proof (cdiv_spec c (block_size m) Hb). nia.
  - intros o s' Hout. by apply (running_promise mml true false s l r c new lookahead o s' Hg ltac:(lia)) in Hout.
Qed.

Lemma grow_kept s r new lookahead :
  cache_good s → request_good r → slots_for s (request_id r) (num_computed_tokens r) →
  0 ≤ num_computed_tokens r ≤ mml → num_tokens r ≤ mml → 0 < new → 0 ≤ lookahead →
  wp (kvc_allocate new 0 None lookahead)
    (λ o p, cache_good p.1 ∧ same_request_but_memo r p.2 ∧ request_good p.2 ∧
       (∀ x, x ≠ request_id r → (unknown s x → unknown p.1 x) ∧ ∀ n, slots_for s x n → slots_for p.1 x n) ∧
       slots_for p.1 (request_id r) (num_computed_tokens r) ∧
       (o ≠ None → slots_for p.1 (request_id r) (Z.min (num_computed_tokens r + new) mml))) noexc (s, r).
Proof using Hdep.
  intros Hk Hr Hs Hc Ht Hn Hl. destruct (ck_good _ Hk) as [l Hg]. eapply wp_call; [by eapply wp_grow_slots|]. intros o s' Hout.
  destruct (promise_kept s l r _ new lookahead o s' Hk Hr Hout) as (A1 & A2 & A3 & A4 & A5 & A6).
  split_and!; try done; [by apply A5|]. destruct o; [|done]. intros _ i m Hm. specialize (A6 i m Hm). unfold slot_tokens in A6. lia.
Qed.

(** Full blocks get their hashes; the tables stay as they are. *)
Lemma cache_kept s r n :
  cache_good s → request_good r → slots_for s (request_id r) n → 0 ≤ n ≤ num_tokens r →
  wp (kvc_cache_blocks n) (λ _ p, cache_good p.1 ∧ same_request_but_memo r p.2 ∧ request_good p.2 ∧
    (∀ x, x ≠ request_id r → (unknown s x → unknown p.1 x) ∧ ∀ m, slots_for s x m → slots_for p.1 x m) ∧
    ∀ m, slots_for s (request_id r) m → slots_for p.1 (request_id r) m) noexc (s, r).
Proof using Hdep.
  intros Hk Hr Hs Hn. destruct (ck_good _ Hk) as [l Hg]. change (kvc_cache_blocks n) with (co_cache_blocks n).
  eapply wp_call; [apply (wp_co_cache_blocks s l r n)|]; [lia| |done|apply Hr|].
  { intros i m Hm. apply (hash_ready_may_cache s r i m n n (good_ready s r Hk Hr) Hm); [|done|lia|by apply (Hs i)].
    apply (ml_size _ _ (cg_each _ _ Hg i m Hm)). }
  intros [] [s' r'] [[c Hr'] Hmo Hg' Hf Hlen Hdone _]. simpl in *.
  assert (all_managers (λ _ m m', cached_group r n (co_block_pool s') m m') s s') as Hall.
  { split; [done|]. intros i m Hm. by apply Hdone; [eapply lookup_lt_Some|]. }
  split_and!.
  - eapply cache_good_step; [done|done|done|]. eapply all_managers_impl; [exact Hall|]. intros i m m' _ [Hc Ht _ _ _].
    split; [done|]. intros x. rewrite Ht. lia.
  - by exists c.
  - apply (request_good_memo r); [|done]. split; [by exists c|done].
  - intros x Hx. apply spared_step. eapply all_managers_impl; [exact Hall|]. intros i m m' _ [Hc Ht _ _ Ho]. auto.
  - intros a Ha i m' Hm'. destruct (all_managers_back _ _ _ _ _ Hall Hm') as (m & Hm & [Hc Ht _ _ _]). unfold mgr_config in Hc.
    rewrite Ht. replace (block_size m') with (block_size m) by congruence. by apply (Ha i).
Qed.

Lemma free_kept s r :
  cache_good s →
  wp kvc_free (λ _ p, cache_good p.1 ∧ p.2 = r ∧ unknown p.1 (request_id r) ∧
    ∀ x, x ≠ request_id r → (unknown s x → unknown p.1 x) ∧ ∀ n, slots_for s x n → slots_for p.1 x n) noexc (s, r).
Proof.
  intros Hk. destruct (ck_good _ Hk) as [l Hg]. simpl. unfold kv_free. wp_steps. apply wp_zoom.
  eapply wp_call; [by apply (wp_co_free s l)|]. intros [] s1 (l' & Hg' & Hf & _ & Hall). simpl. split_and!.
  - eapply cache_good_step; [done|done|done|]. eapply all_managers_impl; [exact Hall|]. intros i m m' _ (Hc & Ht & _).
    split; [done|]. intros x. unfold table. rewrite Ht. destruct (decide (x = request_id r)) as [->|Hx];
      [rewrite lookup_delete_eq; simpl; lia|rewrite lookup_delete_ne by done; lia].
  - done.
  - intros i m' Hm'. destruct (all_managers_back _ _ _ _ _ Hall Hm') as (m & _ & _ & Ht & Hn). unfold table.
    rewrite Ht, Hn, !lookup_delete_eq. done.
  - intros x Hx. apply spared_step. eapply all_managers_impl; [exact Hall|]. intros i m m' _ (Hc & Ht & Hn).
    unfold table. rewrite Ht, Hn, !lookup_delete_ne by done. done.
Qed.

(** Reading a table that is not there leaves an empty one behind. *)
Lemma wp_common_prefix_one ext F m p l req E :
  mgr_good ext F m p l →
  wp (get_num_common_prefix_blocks req) (λ _ s', mgr_good ext F s'.1 s'.2 l ∧ s'.2 = p ∧ mgr_config s'.1 = mgr_config m ∧
    (∀ x, table s'.1 x = table m x) ∧ num_cached_block s'.1 = num_cached_block m) E (m, p).
Proof.
  intros Hg. unfold get_num_common_prefix_blocks. mp_steps. change (id m) with m.
  destruct (kind m) eqn:Hk; mp_steps; try done.
  apply wp_on_mgr. eapply wp_call; [apply wp_get_req_blocks|]. intros bs m1 [-> ->]. mp_steps. simpl.
  set (m1 := set_req_blocks _ _ m).
  assert (∀ x, table m1 x = table m x) as Htab.
  { intros x. rewrite (table_insert m req (table m req) m1 x) by done. by case_decide; subst. }
  assert (∀ x, uncached m1 x = uncached m x) as Hun by (intros x; unfold uncached, num_cached; by rewrite Htab).
  split_and!; try done. destruct Hg as [H1 [H2 H2'] H3 H4 H5]. split; try done; [by apply mgr_inv_touch_entry|].
  split; [done|]. intros x b. rewrite Hun. apply H2'.
Qed.

Lemma prefix_kept s req :
  cache_good s →
  wp (kvc_common_prefix req) (λ _ s', cache_good s' ∧
    ∀ x, (unknown s x → unknown s' x) ∧ ∀ n, slots_for s x n → slots_for s' x n) noexc s.
Proof.
  intros Hk. destruct (ck_good _ Hk) as [l Hg]. simpl. unfold co_get_num_common_prefix_blocks.
  eapply wp_call; [apply (wp_per_group _ s (λ _ m _ m', mgr_config m' = mgr_config m ∧
    (∀ x, table m' x = table m x) ∧ num_cached_block m' = num_cached_block m) (λ _ _ _, True)) with (l := l)|]; try done.
  - intros i m p l0 ext F Hi Hf _ Hm. eapply wp_call; [by apply wp_common_prefix_one|].
    intros a [m' p'] (H1 & H2 & H3 & H4 & H5). simpl in *. subst p'. exists l0. by split_and!.
  - intros acc s' (l' & Hg' & Hsv & _). destruct (served_all _ _ _ _ Hsv) as [Hl Hall].
    assert (all_managers (λ _ m m', mgr_config m' = mgr_config m ∧ (∀ x, table m' x = table m x) ∧
      num_cached_block m' = num_cached_block m) s s') as Hall'.
    { split; [done|]. intros i m Hm. destruct (Hall i m Hm) as (m' & ? & a & _ & ?). eauto. }
    split.
    + eapply cache_good_step; [done|done|apply Hsv|]. eapply all_managers_impl; [exact Hall'|].
      intros i m m' _ (? & Ht & _). split; [done|]. intros x. rewrite Ht. lia.
    + intros x. apply spared_step. eapply all_managers_impl; [exact Hall'|]. intros i m m' _ (? & Ht & ->). done.
Qed.

Lemma all_managers_refl (R : nat → MG → MG → Prop) s s' :
  single_type_managers s' = single_type_managers s → (∀ i m, R i m m) → all_managers R s s'.
Proof. intros Heq HR. split; [by rewrite Heq|]. intros i m Hm. exists m. by rewrite Heq. Qed.

Lemma reset_kept s :
  cache_good s →
  wp kvc_reset (λ o s', cache_good s' ∧ ((∀ x, unknown s x) → o = true) ∧
    ∀ x, (unknown s x → unknown s' x) ∧ ∀ n, slots_for s x n → slots_for s' x n) noexc s.
Proof.
  intros Hk. destruct (ck_good _ Hk) as [l Hg]. simpl. apply wp_zoom.
  eapply wp_call; [apply wp_reset_prefix_cache, Hg|]. intros o p'. simpl. intros Ho.
  assert (cache_good (mkCoord (single_type_managers s) p')) as Hk'.
  { destruct o; [|by destruct Ho as [-> _]; destruct s]. destruct Ho as (_ & Hp' & Hcl).
    eapply (cache_good_step s); [done| |apply Hcl|apply all_managers_refl; [done|]; intros; split; [done|lia]].
    apply (coord_pool_step s l); try done; [apply Hcl|intros; apply Hcl|]. intros b Hb. left. by apply Hcl. }
  split_and!; [done| |].
  - intros Hun. destruct o; [done|]. destruct Ho as [_ Hne]. exfalso. apply Hne.
    pose proof (coord_all_free s l Hg) as Hfree. rewrite (free_count _ _ (cg_pool _ _ Hg)) in Hfree. apply Hfree.
    intros i m Hm req. by apply (Hun req i m).
  - intros x. apply spared_step. by apply all_managers_refl.
Qed.

(** ** The promise *)

#[local] Instance manager_promise : KVCachePromise CO mml.
Proof using Hdep nblocks.
  refine {| kv_good := cache_good; absent := unknown; covered := slots_for; req_ok := request_good;
    req_ok_view := request_good_view; promise_computed := computed_kept; promise_grow := grow_kept; promise_cache := cache_kept;
    promise_free := free_kept; promise_prefix := prefix_kept; promise_reset := reset_kept |}.
  intros s x a b Ha Hle i m Hm. specialize (Ha i m Hm). lia.
Defined.

(** ** Room *)

Lemma held_named t b : held t b ≠ 0 → ∃ x bs, t !! x = Some bs ∧ b ∈ bs.
Proof.
  unfold held. refine (map_fold_weak_ind (λ acc t, acc ≠ 0 → ∃ x bs, t !! x = Some bs ∧ b ∈ bs) _ 0 _ _ t); [done|].
  intros k bs t' acc Hk IH Hne. destruct (decide (b ∈ bs)) as [Hb|Hb]; [exists k, bs; by rewrite lookup_insert_eq|].
  rewrite (occ_not_in b bs Hb) in Hne. destruct (IH Hne) as (x & bs' & Hx & Hb'). exists x, bs'.
  rewrite lookup_insert_ne; [done|]. intros ->. congruence.
Qed.

Lemma total_held ms b : total ms b ≠ 0 → ∃ i m x, ms !! i = Some m ∧ b ∈ table m x.
Proof.
  induction ms as [|m ms IH]; simpl; [done|]. intros Hne.
  destruct (decide (total ms b = 0)) as [H0|H0].
  - destruct (held_named (req_to_blocks m) b) as (x & bs & Hx & Hb); [lia|]. exists 0%nat, m, x.
    split; [done|]. unfold table. by rewrite Hx.
  - destruct (IH H0) as (i & m' & x & ? & ?). by exists (S i), m', x.
Qed.

(** Blocks in use by one request are no more than its table entries. *)
Lemma alone_accounting s l req :
  coord_good s l → (∀ x, x ≠ req → unknown s x) →
  num_gpu_blocks (co_block_pool s) - 1 ≤
    Z.of_nat (length l) + Z.of_nat (sum_list ((λ m, length (table m req)) <$> single_type_managers s)).
Proof.
  intros [Hp Hr _ _] Hun. pose proof (pool_accounting _ l Hp) as Hacc. rewrite (free_count _ _ Hp) in Hacc.
  set (entries := concat ((λ m, table m req) <$> single_type_managers s)).
  assert (length (in_use (co_block_pool s)) ≤ length entries)%nat as Hle.
  { apply submseteq_length, NoDup_submseteq.
    - apply NoDup_filter, blocks_nodup, Hp.
    - intros b ((Hne & Hnz) & Hin)%list_elem_of_filter. rewrite Hr in Hnz by done.
      destruct (total_held _ _ Hnz) as (i & m & x & Hm & Hb). unfold entries. apply list_elem_of_In, in_concat. exists (table m req). rewrite <-!list_elem_of_In.
      destruct (decide (x = req)) as [->|Hx]; [|by rewrite (proj2 (Hun x Hx i m Hm)) in Hb; apply elem_of_nil in Hb].
      split; [|done]. apply list_elem_of_fmap. exists m. split; [done|]. by eapply list_elem_of_lookup_2. }
  assert (length entries = sum_list ((λ m, length (table m req)) <$> single_type_managers s)) as Hlen; [|lia].
  unfold entries. clear. induction (single_type_managers s) as [|m ms IH]; csimpl; [done|]. rewrite length_app. lia.
Qed.

(** The pool holds a request of the model's length in every group, beside its null block. *)
Definition capacity : Prop := sum_list_Z ((λ sp, cdiv mml (spec_block_size sp)) <$> specs) ≤ nblocks - 1.

Lemma needs_bound s req n :
  cache_good s → n ≤ mml → capacity →
  Z.of_nat (sum_list (needs s req n)) + Z.of_nat (sum_list ((λ m, length (table m req)) <$> single_type_managers s)) ≤ nblocks - 1.
Proof.
  intros Hk Hn Hcap. etrans; [|exact Hcap]. destruct (ck_good _ Hk) as [l Hg]. unfold needs.
  destruct (ck_for _ Hk) as [F1 _ F3].
  assert (∀ i m sp, single_type_managers s !! i = Some m → specs !! i = Some sp →
    Z.of_nat (missing m req n) + Z.of_nat (length (table m req)) ≤ cdiv mml (spec_block_size sp)) as Hone.
  { intros i m sp Hm Hsp. destruct (F3 i m sp Hm Hsp) as (<- & _). pose proof (ck_bound _ Hk i m req Hm).
    pose proof (cdiv_mono n mml (block_size m) (ml_size _ _ (cg_each _ _ Hg i m Hm)) Hn). unfold missing. lia. }
  clear Hcap Hg Hk F3. revert F1 Hone. generalize (single_type_managers s) specs. intros ms.
  induction ms as [|m ms IH]; intros [|sp sps] Hl Hone; simplify_eq/=; [done|].
  pose proof (Hone 0%nat m sp eq_refl eq_refl). specialize (IH sps Hl (λ i, Hone (S i))). unfold sum_list_Z in *. simpl. lia.
Qed.

Lemma not_refused s l r o s' h new lookahead :
  cache_good s → coord_good s l → capacity → (∀ x, x ≠ request_id r → unknown s x) →
  slots_promise mml h new lookahead s l r o s' → ∃ b, o = Some b.
Proof.
  intros Hk Hg Hcap Hun [Hno _]. destruct o as [b|]; [eauto|]. specialize (Hno eq_refl). exfalso.
  pose proof (alone_accounting s l _ Hg Hun) as Hacc. rewrite (ck_blocks _ Hk) in Hacc.
  pose proof (needs_bound s (request_id r) (slot_tokens mml h new lookahead) Hk ltac:(unfold slot_tokens; lia) Hcap). lia.
Qed.

Lemma manager_room : capacity → KVCacheRoom CO mml.
Proof using Hdep.
  intros Hcap. split.
  - intros s r new lookahead Hk Hr Hs Hc Ht Hn Hl Hun. destruct (ck_good _ Hk) as [l Hg].
    destruct (wp_run _ _ _ (wp_grow_slots s l r new lookahead noexc Hk Hg Hr Hs Hc Ht Hn Hl)) as (o & p & Hrun & Hp).
    destruct (not_refused s l r o p _ _ _ Hk Hg Hcap Hun Hp) as [b ->]. by exists b, p.
  - intros s r Hk Hr Hun H0 H1. destruct (ck_good _ Hk) as [l Hg]. pose proof Hdep as [D1 D2 _ _ _ _ _ _].
    destruct (start_request specs eagle hbs mml s l r search Hg D1 D2) as (b & h & Hrun & Hh & Hal);
      [apply good_startable; try done; [apply Hun|lia]|].
    exists b, h. split_and!; [done|lia|lia|]. intros new lookahead Hn Hl.
    destruct (Hal new lookahead false) as (o & s' & Hrun' & Hp); [split; lia|].
    destruct (not_refused s l r o s' _ _ _ Hk Hg Hcap (λ x _, Hun x) Hp) as [b' ->]. by exists b', s'.
Qed.

(** Sampled tokens are appended with [Request.append_output_token_ids]. *)
Lemma append_promise : append_ok cfg (append_output_token_ids hash_function NONE_HASH (Some hbs)).
Proof using Hdep.
  intros t r [R1 R2 R3].
  eapply wp_call; [apply (wp_append_output_token_ids hash_function NONE_HASH hbs (dp_hash_size _ _ _ _ _ _ Hdep)); done|].
  intros ok r' (_ & H1 & H2 & H3 & hs & c & Hr'). split; [by split|]. rewrite Hr'. by split.
Qed.
End promise.
