(* ===== verification/SchedulerSteps.v ===== *)
(** The scheduler over time: the calls of the engine core as a step relation, the invariant in
    every reachable state, and the composition with the KV cache manager. *)
From S2P Require Import Prelude.
From S2P Require Import Dict.
From S2P Require Import Request.
From S2P Require Import StopCheck.
From S2P Require Import RequestQueue.
From S2P Require Import BlockHash.
From S2P Require Import FreeQueue.
From S2P Require Import BlockMap.
From S2P Require Import BlockPool.
From S2P Require Import PoolInv.
From S2P Require Import PoolCache.
From S2P Require Import PoolSteps.
From S2P Require Import Manager.
From S2P Require Import ManagerInv.
From S2P Require Import CacheHit.
From S2P Require Import Coordinator.
From S2P Require Import KVCacheManager.
From S2P Require Import HitSpecs.
From S2P Require Import HybridHit.
From S2P Require Import CoordinatorInv.
From S2P Require Import KVSteps.
From S2P Require Import Admission.
From S2P Require Import Scheduler.
From S2P Require Import SchedulerInv.
From S2P Require Import SchedulerStep.
From S2P Require Import SchedulerWait.
From S2P Require Import SchedulerMain.
From S2P Require Import SchedulerLive.
From S2P Require Import SchedulerUpdate.
From S2P Require Import SchedulerFinish.
From S2P Require Import SchedulerCalls.
From S2P Require Import SchedulerKV.
Local Open Scope Z_scope.

(** Whether the model's answer to an output is still to come. *)
Inductive phase := Idle | Sent (out : SchedulerOutput).

Section steps.
Context {Q : Type} `{HQ : RequestQueueLaws Q} {K : Type} `{!KVCache K}.
Context (config : SchedulerConfig) `{!KVCachePromise K (max_model_len config)}.
Context (empty_queue : Q) (append_tokens : list Z → M Request bool).
Abbreviation SC := (Scheduler (Q := Q) (K := K)).
Implicit Types s : SC.

(** The engine core's calls, whatever they return or raise. Requests may be aborted between a
    step and the answer to it; new requests, drafts and resets come between steps. *)
Inductive sched_step : phase * SC → phase * SC → Prop :=
  | step_add s j o s' : newcomer config s j → sched_add_request j s = (o, s') → sched_step (Idle, s) (Idle, s')
  | step_schedule s o s' : schedule empty_queue config s = (o, s') →
      sched_step (Idle, s) (match o with Ret (Some out) => Sent out | _ => Idle end, s')
  | step_answer out sampled s o s' : answers out sampled s →
      update_from_output config append_tokens out sampled s = (o, s') → sched_step (Sent out, s) (Idle, s')
  | step_finish ph ids st s o s' : NoDup ids → is_finished st = true →
      finish_requests ids st s = (o, s') → sched_step (ph, s) (ph, s')
  | step_drafts validate drafts s o s' :
      update_draft_token_ids validate drafts s = (o, s') → sched_step (Idle, s) (Idle, s')
  | step_pause ph p s : sched_step (ph, s) (ph, set_pause_state p s)
  | step_reset flag s o s' : sched_reset_prefix_cache flag s = (o, s') → sched_step (Idle, s) (Idle, s').

Definition sane (x : phase * SC) : Prop :=
  match x.1 with Idle => ready config x.2 | Sent out => awaiting config out x.2 end.

Lemma pending_pause todo drafts p s : pending config todo drafts s → pending config todo drafts (set_pause_state p s).
Proof. intros Hp. by eapply pending_same. Qed.

Lemma step_sane x y :
  config_ok config → empty_ok empty_queue → append_ok config append_tokens → sane x → sched_step x y → sane y.
Proof.
  intros Hc He Ha Hx Hs. inversion Hs as [s j o s' Hn Hrun|s o s' Hrun|out sampled s o s' Hans Hrun
    |ph ids st s o s' Hnd Hfin Hrun|validate drafts s o s' Hrun|ph p s|flag s o s' Hrun]; subst; unfold sane in *; simpl in *.
  - destruct (requests s !! request_id (req j)) as [j'|] eqn:Hj.
    + rewrite (add_known s j) in Hrun by eauto. by injection Hrun as <- <-.
    + by destruct (wp_elim _ _ _ _ _ (wp_add_request config s j noexc Hx Hj Hn) Hrun) as (_ & _ & ? & _).
  - by destruct (wp_elim _ _ _ _ _ (wp_schedule config empty_queue s noexc Hc He Hx) Hrun) as (_ & -> & out & -> & ? & _).
  - by destruct (wp_elim _ _ _ _ _ (wp_update_from_output config append_tokens out sampled s noexc Ha Hx Hans) Hrun) as (_ & _ & ? & _).
  - destruct ph as [|out].
    + destruct (wp_elim _ _ _ _ _ (wp_finish_requests config [] [] ids st s noexc (ready_pending config [] s Hx) Hnd Hfin) Hrun)
        as (_ & _ & [? _ _ _ _]). by eapply pending_ready.
    + by destruct (wp_elim _ _ _ _ _ (wp_finish_requests config _ _ ids st s noexc Hx Hnd Hfin) Hrun) as (_ & _ & [? _ _ _ _]).
  - by destruct (wp_elim _ _ _ _ _ (wp_update_drafts config validate drafts s noexc Hx) Hrun) as (_ & _ & ? & _).
  - destruct ph as [|out]; [|by apply pending_pause]. eapply pending_ready, pending_pause. by apply (ready_pending config []).
  - by destruct (wp_elim _ _ _ _ _ (wp_reset config flag s noexc Hx) Hrun) as (_ & _ & ? & _).
Qed.

Lemma init_ready k :
  empty_ok empty_queue → kv_good k → (∀ x, absent k x) → 0 ≤ max_num_running_reqs config →
  ready config (scheduler_init empty_queue k).
Proof.
  intros [E1 E2] Hk Ha Hm. split.
  - split; simpl; try done.
    + unfold all_ids, queued. simpl. rewrite E2. apply NoDup_nil_2.
    + intros id. unfold all_ids, queued. simpl. rewrite E2, lookup_empty. simpl. split; [by intros ?%elem_of_nil|by intros [? ?]].
    + intros e. unfold queued. simpl. rewrite E2. by intros ?%elem_of_nil.
  - intros x _. apply Ha.
  - intros id j Hin. by apply elem_of_nil in Hin.
  - intros id j. simpl. by rewrite lookup_empty.
  - intros id j. simpl. by rewrite lookup_empty.
Qed.

Lemma reachable_sane x y :
  config_ok config → empty_ok empty_queue → append_ok config append_tokens → sane x → rtc sched_step x y → sane y.
Proof. intros Hc He Ha Hx Hr. induction Hr; [done|]. eauto using step_sane. Qed.
End steps.

(** ** On the KV cache manager *)

Lemma init_cache_good specs n events ui hbs cfg s :
  0 < n → 0 ≤ max_model_len cfg → Forall spec_ok specs → coord_init specs n true events ui 1 1 hbs = Ret s →
  cache_good specs hbs n cfg s ∧ ∀ x, unknown s x.
Proof.
  intros Hn Hmml Hsp Hinit. destruct (coord_init_good _ _ _ _ _ _ _ _ _ Hn Hsp Hinit) as [Hg _].
  destruct (pool_init_run n true hbs events ui Hn) as (p & Hi & _ & Hc & _). unfold coord_init in Hinit. rewrite Hi in Hinit.
  simpl in Hinit. injection Hinit as <-. unfold PoolInv.config in Hc.
  assert (∀ i m, imap (λ i s, manager_init (spec_block_size s) (spec_kind s) (spec_plain_full s) true (Z.of_nat i) 1 1) specs !! i = Some m →
    ∃ sp, specs !! i = Some sp ∧ m = manager_init (spec_block_size sp) (spec_kind sp) (spec_plain_full sp) true (Z.of_nat i) 1 1) as Hm.
  { intros i m. rewrite list_lookup_imap. destruct (specs !! i) as [sp|]; simpl; [|done]. intros [= <-]. eauto. }
  split; [split; [eauto| |simpl; congruence|simpl; congruence|]|].
  - split; simpl; [by rewrite length_imap|congruence|]. intros i m sp (sp' & H1 & ->)%Hm H2.
    assert (sp' = sp) as -> by congruence. done.
  - intros i m x (sp & Hsp' & ->)%Hm. apply cdiv_nonneg; [|done]. by apply (proj1 (Forall_lookup _ _) Hsp i sp Hsp').
  - intros x i m (sp & _ & ->)%Hm. done.
Qed.

Section engine.
Context (specs : list KVCacheSpec) (eagle : bool) (hbs n : Z) (cfg : SchedulerConfig).
Context (search : list bytes → Z → M P (option (columns * Z))).
Context (hash_function : bytes * list Z * option (list extra_key) → bytes) (NONE_HASH : bytes).
Hypothesis Hdep : deployment specs eagle hbs search hash_function NONE_HASH.
Local Instance engine_cache : KVCache CO := manager_cache (max_model_len cfg) true search.
Local Instance engine_promise : KVCachePromise CO (max_model_len cfg) := manager_promise specs eagle hbs n cfg search hash_function NONE_HASH Hdep.
Context {Q : Type} `{HQ : RequestQueueLaws Q} (empty_queue : Q).

Definition engine_step := sched_step (K := CO) cfg empty_queue (append_output_token_ids hash_function NONE_HASH (Some hbs)).

Lemma engine_sane events ui k0 x :
  config_ok cfg → 0 ≤ max_model_len cfg → empty_ok empty_queue → 0 ≤ max_num_running_reqs cfg → 0 < n → Forall spec_ok specs →
  coord_init specs n true events ui 1 1 hbs = Ret k0 →
  rtc engine_step (Idle, scheduler_init empty_queue k0) x → sane cfg x.
Proof.
  intros Hc Hmml He Hm Hn Hsp Hinit Hr. destruct (init_cache_good specs n events ui hbs cfg k0 Hn Hmml Hsp Hinit) as [Hk Hun].
  eapply reachable_sane; [done|done|apply (append_promise specs eagle hbs n cfg search hash_function NONE_HASH Hdep)| |exact Hr].
  by apply init_ready.
Qed.
End engine.

(** ** Samples *)

(** A hybrid model with two groups, and a request that may produce two tokens. *)
Definition two_search : list bytes → Z → M P (option (columns * Z)) :=
  hybrid_find_longest_cache_hit [(mkSpec 2 FullAttention true [], [0]); (mkSpec 2 (SlidingWindow 100) false [], [1])] 2 2 false 2.

Lemma two_deployed : deployment two_groups false 2 two_search sample_hash [].
Proof.
  split; try done.
  - intros sp. unfold two_groups. rewrite !elem_of_cons, elem_of_nil. intros [->|[->|[]]]; simpl.
    + split; [lia|]. split; [by exists 1|done].
    + split; [lia|]. split; [by exists 1|]. split; [lia|done].
  - intros sp sp'. unfold two_groups. rewrite !elem_of_cons, !elem_of_nil. naive_solver.
  - apply sample_hash_collision_free.
  - exists 1%nat. done.
Qed.

Definition sample_config : SchedulerConfig := mkConfig FCFS 2 8 6 0 0 true false false 2.
Definition fresh_job (id : string) (obj most least : Z) (tokens : list Z) : Job :=
  let r := hashed_request sample_hash tokens in
  mkJob (mkRequest id obj 0 0 WAITING None (Some (mkSampling most least None None None None)) most (Z.of_nat (length tokens)) [] (all_token_ids r) [] 0 0 0 (-1)
    None None [] None ∅ (block_hashes r) false false) false false false 0 false.
Definition job_a : Job := fresh_job "a" 1 2 0 [1; 2; 3].

#[local] Instance two_cache : KVCache CO := manager_cache 6 true two_search.
#[local] Instance two_promise : KVCachePromise CO (max_model_len sample_config) :=
  manager_promise two_groups false 2 7 sample_config two_search sample_hash [] two_deployed.

Abbreviation SF := (Scheduler (Q := FCFSRequestQueue) (K := CO)).
Definition idle_0 : SF := scheduler_init (mkFCFS []) two_groups_init.
Definition idle_1 : SF := (sched_add_request job_a idle_0).2.

Lemma sample_config_ok : config_ok sample_config.
Proof. split; simpl; lia. Qed.

Lemma empty_fcfs : empty_ok (mkFCFS []).
Proof. done. Qed.

Lemma idle_0_ready : ready sample_config idle_0.
Proof.
  destruct (init_cache_good two_groups 7 false false 2 sample_config two_groups_init) as [Hk Hun];
    [lia|done|repeat constructor; simpl; lia|reflexivity|]. apply init_ready; [done|exact Hk|exact Hun|simpl; lia].
Qed.

Lemma hashed_good id obj most least tokens : request_good 2 sample_hash [] (req (fresh_job id obj most least tokens)).
Proof.
  apply (request_good_view 2 sample_hash [] (hashed_request sample_hash tokens)); try done.
  split; [done|by intros a b h; simpl; rewrite lookup_empty|apply hashed_request_ok].
Qed.

Lemma job_a_new : newcomer sample_config idle_0 job_a.
Proof.
  split; [|by left|done|done|].
  - split; [done|apply hashed_good|vm_compute; done| |done]. split; [done|]. eexists. split; [done|]. vm_compute. done.
  - intros id j'. simpl. by rewrite lookup_empty.
Qed.

Lemma idle_1_ready : ready sample_config idle_1.
Proof.
  destruct (wp_run _ _ _ (wp_add_request sample_config idle_0 job_a noexc idle_0_ready eq_refl job_a_new))
    as (a & s' & Hrun & Hr & _). unfold idle_1. by rewrite Hrun.
Qed.

Abbreviation two_schedule := (schedule (mkFCFS []) sample_config).
Abbreviation two_append := (append_output_token_ids sample_hash [] (Some 2)).

(** The output of a step, and the state that waits for the answer to it. *)
Definition output_of (o : outcome (option SchedulerOutput)) : SchedulerOutput :=
  match o with
  | Ret (Some out) => out
  | _ => mkSchedulerOutput [] (mkCachedRequestData [] [] [] [] [] [] []) [] 0 [] [] [] ∅ false false
  end.
Definition out_1 : SchedulerOutput := output_of (two_schedule idle_1).1.
Definition sent_1 : SF := (two_schedule idle_1).2.

Lemma sent_1_awaits : awaiting sample_config out_1 sent_1.
Proof.
  destruct (wp_run _ _ _ (wp_schedule sample_config (mkFCFS []) idle_1 noexc sample_config_ok empty_fcfs idle_1_ready))
    as (o & s' & Hrun & out & -> & Hp & _). unfold out_1, sent_1. by rewrite Hrun.
Qed.

Lemma two_append_ok : append_ok sample_config two_append.
Proof. apply (append_promise two_groups false 2 7 sample_config two_search sample_hash [] two_deployed). Qed.

(** A model of four tokens, and a request of three that asks for ten more. *)
Definition tight : SchedulerConfig := mkConfig FCFS 2 8 4 0 0 true false false 2.
Definition tight_cache : KVCache CO := manager_cache 4 true two_search.
Definition tight_step (s : SF) : outcome (option SchedulerOutput) * SF := @schedule _ _ _ tight_cache (mkFCFS []) tight s.
Definition greedy_0 : SF := (sched_add_request (fresh_job "x" 1 20 10 [1; 2; 3]) idle_0).2.
Definition greedy_1 : SF :=
  (@update_from_output _ _ _ tight_cache tight two_append (output_of (tight_step greedy_0).1) {[ "x"%string := [7] ]}
    (tight_step greedy_0).2).2.

(** ** Properties *)

(** C3: a scheduling step from a ready state always returns. Whatever the queues, the policy and
    the cache hold: the two loops end, no assertion fails and no list or dictionary is read where
    it has no entry; the tokens it gives out stay within the budget and none are given out when
    all requests are paused, every scheduled request is running with cache slots for all its
    computed tokens, preempted requests are neither running nor scheduled, the number of running
    requests keeps its limit, and the ids finished since the last step are reported and forgotten.
    That new requests wait while only they are paused is not part of it. *)
Theorem schedule_step_sound {Q} `{HQ : RequestQueueLaws Q} {K} `{!KVCache K} config
    `{!KVCachePromise K (max_model_len config)} (empty_queue : Q) (s : Scheduler (Q := Q) (K := K)) :
  config_ok config → empty_ok empty_queue → ready config s →
  ∃ out s', schedule empty_queue config s = (Ret (Some out), s') ∧ awaiting config out s' ∧ step_outcome config s out s'.
Proof.
  intros Hc He Hr. destruct (wp_run _ _ _ (wp_schedule config empty_queue s noexc Hc He Hr)) as (o & s' & Hrun & out & -> & H1 & H2).
  by exists out, s'.
Qed.

(** C5: the scheduler's bookkeeping in every reachable state. Through any sequence of added
    and finished requests, steps, answers, drafts, pauses and resets, every request of the table
    is in exactly one of the running list and the two waiting queues with a status that says so,
    waiting requests and unknown ids hold nothing in the cache, and the cache has slots for the
    computed tokens of every running request. *)
Theorem scheduler_reachable_sound {Q} `{HQ : RequestQueueLaws Q} {K} `{!KVCache K} config
    `{!KVCachePromise K (max_model_len config)} (empty_queue : Q) append_tokens k ph (s : Scheduler (Q := Q) (K := K)) :
  config_ok config → empty_ok empty_queue → append_ok config append_tokens →
  kv_good k → (∀ x, absent k x) → 0 ≤ max_num_running_reqs config →
  rtc (sched_step config empty_queue append_tokens) (Idle, scheduler_init empty_queue k) (ph, s) →
  sane config (ph, s) ∧ sched_inv (extra := []) config s ∧ fresh config s.
Proof.
  intros Hc He Ha Hk Hab Hm Hr.
  pose proof (reachable_sane config empty_queue append_tokens (Idle, scheduler_init empty_queue k) _ Hc He Ha
    (init_ready config empty_queue k He Hk Hab Hm) Hr) as Hs.
  split; [done|]. destruct ph as [|out]; destruct Hs; done.
Qed.


(** C26: finishing requests from outside. In any state between steps or while an answer is
    awaited, [finish_requests] returns the known requests among the ids with their clients,
    these leave every list, the table and the cache and are noted as finished, the other
    requests keep their objects, and what the scheduler waits for stays consistent. *)
Theorem finish_releases {Q} `{HQ : RequestQueueLaws Q} {K} `{!KVCache K} config
    `{!KVCachePromise K (max_model_len config)} todo drafts ids st (s : Scheduler (Q := Q) (K := K)) :
  pending config todo drafts s → NoDup ids → is_finished st = true →
  ∃ clients s', finish_requests ids st s = (Ret clients, s') ∧ finished_all (pending config todo drafts) ids s clients s' ∧
    ∀ id, id ∈ ids → id ∉ all_ids (extra := []) s' ∧ absent (kv_cache_manager s') id.
Proof.
  intros Hp Hnd Hf. destruct (wp_run _ _ _ (wp_finish_requests config todo drafts ids st s noexc Hp Hnd Hf)) as (cl & s' & Hrun & Hfa).
  exists cl, s'. split_and!; [done|done|]. intros id Hin. destruct Hfa as [H1 H2 _ _ _].
  assert (requests s' !! id = None) as Hno by by rewrite H2, decide_True.
  split; [|by apply (pd_fresh _ _ _ _ H1)]. rewrite (si_dom _ _ (pd_inv _ _ _ _ H1)), Hno. by intros [? ?].
Qed.

(** resetting the prefix cache together with the running requests always succeeds: every
    running request is preempted, nothing is left in the cache, the cache is cleared, and the
    scheduler is ready to start all requests again. *)
Theorem reset_restarts {Q} `{HQ : RequestQueueLaws Q} {K} `{!KVCache K} config
    `{!KVCachePromise K (max_model_len config)} (s : Scheduler (Q := Q) (K := K)) :
  ready config s →
  ∃ s', sched_reset_prefix_cache true s = (Ret true, s') ∧ ready config s' ∧ running s' = [] ∧
    ∀ id, absent (kv_cache_manager s') id.
Proof.
  intros Hr. destruct (wp_run _ _ _ (wp_reset config true s noexc Hr)) as (ok & s' & Hrun & Hr' & Hx).
  destruct (Hx eq_refl) as (-> & Hrun' & _). exists s'. split_and!; [done|done|done|]. intros id.
  destruct Hr' as [Hi Hf _ _]. destruct (requests s' !! id) as [j|] eqn:Hj; [|by apply Hf].
  assert (id ∈ all_ids (extra := []) s') as Hin by (apply (si_dom _ _ Hi); eauto). unfold all_ids in Hin. rewrite Hrun' in Hin.
  apply list_elem_of_fmap in Hin as (e & -> & He). destruct (si_queued _ _ Hi e He) as (j2 & _ & (Hid & _) & [_ _ Ha]). by rewrite Hid.
Qed.

(** sampled tokens are taken up to the first that stops the request: these and no others
    are appended to the request and reported; without a stop all of them are, the status stays
    and the request is shorter than the model's limit; with one the request is finished. *)
Theorem sampled_tokens_exact {K} `{!KVCache K} config `{!KVCachePromise K (max_model_len config)} append_tokens gens r :
  append_ok config append_tokens → gens ≠ [] → req_ok r → plain config r →
  ∃ k stopped r', update_request_with_output config append_tokens gens [] r = (Ret (take k gens, stopped), r') ∧
    (0 < k)%nat ∧ all_token_ids r' = all_token_ids r ++ take k gens ∧ output_token_ids r' = output_token_ids r ++ take k gens ∧
    num_computed_tokens r' = num_computed_tokens r ∧ req_ok r' ∧
    if stopped : bool then is_finished (status r') = true
    else k = length gens ∧ status r' = status r ∧ num_tokens r' < max_model_len config.
Proof.
  intros Ha Hne Hok Hp. destruct (wp_run _ _ _ (wp_update_request config append_tokens gens [] r noexc Ha Hne Hok Hp))
    as ([ts b] & r' & Hrun & k & Hk & [U1 U2 U3 U4 U5 U6 U7 U8] & Hts & Hall). simpl in *. subst ts.
  exists k, b, r'. split_and!; try done. destruct b; [done|]. destruct U8. auto.
Qed.

(** C1: the scheduler on the KV cache manager. Prefix caching is on, there is no context
    parallelism, the group specs suit the searches and a coordinator accepts them, the hash
    function has no collisions, and the requests that are added are admissible. Then, for any pool
    size, in every state that the engine core's calls can reach from the start a step returns an
    output within the token budget, and in every group the block table of each scheduled request
    has slots for all tokens it will have computed. *)
Theorem engine_step_sound specs eagle hbs cfg search hash_function NONE_HASH
    (Hdep : deployment specs eagle hbs search hash_function NONE_HASH)
    {Q} `{HQ : RequestQueueLaws Q} (empty_queue : Q) n events ui k0 s :
  config_ok cfg → 0 ≤ max_model_len cfg → empty_ok empty_queue → 0 ≤ max_num_running_reqs cfg → 0 < n → Forall spec_ok specs →
  coord_init specs n true events ui 1 1 hbs = Ret k0 →
  rtc (engine_step specs eagle hbs n cfg search hash_function NONE_HASH Hdep empty_queue)
    (Idle, scheduler_init empty_queue k0) (Idle, s) →
  ∃ out s', @schedule Q _ CO (manager_cache (max_model_len cfg) true search) empty_queue cfg s = (Ret (Some out), s') ∧
    sum_tokens (out_num_scheduled_tokens out) ≤ max_num_scheduled_tokens cfg ∧
    ∀ id t, od_get id (out_num_scheduled_tokens out) = Some t → 0 < t ∧
      ∃ j, requests s' !! id = Some j ∧ id ∈ running s' ∧
        ∀ i m, single_type_managers (kv_cache_manager s') !! i = Some m →
          num_computed_tokens (req j) ≤ block_size m * Z.of_nat (length (table m id)).
Proof.
  intros Hc Hmml He Hm Hn Hsp Hinit Hr.
  pose proof (engine_sane specs eagle hbs n cfg search hash_function NONE_HASH Hdep empty_queue events ui k0 _ Hc Hmml He Hm Hn Hsp Hinit Hr) as Hs.
  destruct (wp_run _ _ _ (wp_schedule (KVCachePromise0 := manager_promise specs eagle hbs n cfg search hash_function NONE_HASH Hdep)
    cfg empty_queue s noexc Hc He Hs)) as (o & s' & Hrun & out & -> & H1 & [[H2 H2'] H3 H4 _ _ _ _]).
  exists out, s'. split_and!; [exact Hrun|lia|]. intros id t Ht. split; [by apply (pd_each _ _ _ _ H1 id t)|].
  destruct (H4 id t Ht) as (j & Hj & Hin & _ & Hcov). exists j. split_and!; [done|done|]. exact Hcov.
Qed.

(** C8: an idle engine starts a request. With nothing running, no pause, chunked prefill, a
    positive token budget, a pool with room for one request of the model's length, and at the head
    of the queue that is picked from a request that is not blocked: a step of the scheduler on the
    KV cache manager schedules that request, whatever else waits. Without the room it may not
    start ([exact_memory_never_starts]). *)
Theorem idle_engine_starts specs eagle hbs n cfg search hash_function NONE_HASH
    (Hdep : deployment specs eagle hbs search hash_function NONE_HASH)
    {Q} `{HQ : RequestQueueLaws Q} (empty_queue : Q) events ui k0 s id j :
  config_ok cfg → 0 ≤ max_model_len cfg → empty_ok empty_queue → 0 < max_num_running_reqs cfg → 0 < n → Forall spec_ok specs →
  coord_init specs n true events ui 1 1 hbs = Ret k0 → capacity specs n cfg →
  rtc (engine_step specs eagle hbs n cfg search hash_function NONE_HASH Hdep empty_queue)
    (Idle, scheduler_init empty_queue k0) (Idle, s) →
  running s = [] → pause_state s = UNPAUSED → 0 < max_num_scheduled_tokens cfg → enable_chunked_prefill cfg = true →
  first_waiting cfg s id j →
  ∃ out s' t, @schedule Q _ CO (manager_cache (max_model_len cfg) true search) empty_queue cfg s = (Ret (Some out), s') ∧
    od_get id (out_num_scheduled_tokens out) = Some t ∧ 0 < t.
Proof.
  intros Hc Hmml He Hm Hn Hsp Hinit Hcap Hr Hrun Hp Hb Hch Hfw.
  pose proof (engine_sane specs eagle hbs n cfg search hash_function NONE_HASH Hdep empty_queue events ui k0 _ Hc Hmml He ltac:(lia) Hn Hsp Hinit Hr) as Hs.
  pose proof (manager_room specs eagle hbs n cfg search hash_function NONE_HASH Hdep Hcap) as Hroom.
  destruct (progress_of cfg empty_queue s id Hc He Hs (schedule_first cfg empty_queue s id j Hs Hrun Hp Hb Hm Hch Hfw))
    as (out & s' & t & H1 & _ & H2 & H3). by exists out, s', t.
Qed.

(** C7: the oldest running request finishes. Under FCFS, with the KV cache manager and room in its
    pool for one request of the model's length, and unless all requests are paused: from every
    state reachable with admissible requests, whose minimum of output fits the model's length, in
    which the oldest running request has tokens left to compute and is shorter than that: a round
    of a step and an answer can always be made, and in any sequence of rounds the request has left
    the table before there are as many as the square of the model's length, whatever else is
    running or waiting and whatever tokens the model samples. *)
Theorem oldest_request_finishes specs eagle hbs n cfg search hash_function NONE_HASH
    (Hdep : deployment specs eagle hbs search hash_function NONE_HASH)
    {Q} `{HQ : RequestQueueLaws Q} (empty_queue : Q) events ui k0 s id j :
  fcfs_runs cfg empty_queue → 0 ≤ max_model_len cfg → 0 ≤ max_num_running_reqs cfg → 0 < n → Forall spec_ok specs →
  coord_init specs n true events ui 1 1 hbs = Ret k0 → capacity specs n cfg →
  rtc (engine_step specs eagle hbs n cfg search hash_function NONE_HASH Hdep empty_queue)
    (Idle, scheduler_init empty_queue k0) (Idle, s) →
  pause_state s ≠ PAUSED_ALL → oldest cfg s id j →
  let round := @round Q _ CO (manager_cache (max_model_len cfg) true search) cfg empty_queue
    (append_output_token_ids hash_function NONE_HASH (Some hbs)) in
  (∃ s', round s s') ∧
  ∀ k s', nsteps (λ s1 s2, round s1 s2 ∧ is_Some (requests s2 !! id)) k s s' →
    Z.of_nat k < max_model_len cfg * max_model_len cfg.
Proof.
  intros Hf Hmml Hm Hn Hsp Hinit Hcap Hr Hp Ho. pose proof Hf as [Hc He _ _].
  pose proof (engine_sane specs eagle hbs n cfg search hash_function NONE_HASH Hdep empty_queue events ui k0 _ Hc Hmml He Hm Hn Hsp Hinit Hr) as Hs.
  pose proof (manager_room specs eagle hbs n cfg search hash_function NONE_HASH Hdep Hcap) as Hroom.
  apply (finishes cfg empty_queue (append_output_token_ids hash_function NONE_HASH (Some hbs)) s id j Hf
    (append_promise specs eagle hbs n cfg search hash_function NONE_HASH Hdep) Hs Hp Ho).
Qed.

(** a request whose minimum output does not fit into the model never ends. The stop check
    tests [min_tokens] before the length limit, so the request below reaches the model's length
    without a stop; from then on every step gives it no token and leaves the scheduler exactly
    as it was, with the request still running and holding its blocks. *)
Theorem long_minimum_never_ends :
  ∃ out s', tight_step greedy_1 = (Ret (Some out), s') ∧ out_num_scheduled_tokens out = [] ∧ running s' = ["x"%string] ∧
    (∃ j, requests s' !! "x"%string = Some j ∧ num_tokens (req j) = max_model_len tight ∧ status (req j) = RUNNING) ∧
    get_blocks "x" (kv_cache_manager s') = [[Blk 1; Blk 2]; [Blk 3; Blk 4]] ∧
    ∃ out', tight_step s' = (Ret (Some out'), s') ∧ out_num_scheduled_tokens out' = [].
Proof.
  eexists _, _. split; [vm_compute; reflexivity|]. split; [reflexivity|]. split; [reflexivity|].
  split; [eexists; split; [vm_compute; reflexivity|split; vm_compute; reflexivity]|].
  split; [vm_compute; reflexivity|]. eexists. split; [vm_compute; reflexivity|]. reflexivity.
Qed.

(** ** Witnesses *)

Lemma schedule_step_sound_witness :
  ∃ out s', two_schedule idle_1 = (Ret (Some out), s') ∧ out_total_num_scheduled_tokens out ≤ 8.
Proof.
  destruct (schedule_step_sound sample_config (mkFCFS []) idle_1) as (out & s' & Hrun & _ & [[_ Hmax] _ _ _ _ _ _]).
  - apply sample_config_ok.
  - apply empty_fcfs.
  - apply idle_1_ready.
  - exists out, s'. split; [exact Hrun|exact Hmax].
Defined.

Lemma idle_1_reached : rtc (sched_step sample_config (mkFCFS []) two_append) (Idle, idle_0) (Idle, idle_1).
Proof.
  eapply rtc_once, (step_add sample_config (mkFCFS []) two_append idle_0 job_a); [apply job_a_new|].
  apply surjective_pairing.
Qed.

Lemma scheduler_reachable_sound_witness : sched_inv (extra := []) sample_config idle_1 ∧ fresh sample_config idle_1.
Proof.
  destruct (init_cache_good two_groups 7 false false 2 sample_config two_groups_init) as [Hk Hun];
    [lia|done|repeat constructor; simpl; lia|reflexivity|].
  destruct (scheduler_reachable_sound sample_config (mkFCFS []) two_append two_groups_init Idle idle_1) as (_ & H1 & H2).
  - apply sample_config_ok.
  - apply empty_fcfs.
  - apply two_append_ok.
  - exact Hk.
  - exact Hun.
  - simpl. lia.
  - apply idle_1_reached.
  - split; [exact H1|exact H2].
Defined.

Lemma answers_single out (s : SF) id t g : out_num_scheduled_tokens out = [(id, t)] → answers out {[ id := [g] ]} s.
Proof.
  intros Hout x n j. rewrite Hout. simpl. case_decide as Hx; [|done]. intros _ _. subst x. exists [g].
  split; [apply lookup_singleton_eq|]. simpl. lia.
Qed.

Lemma answers_1 : answers out_1 {[ "a"%string := [7] ]} sent_1.
Proof. apply (answers_single out_1 sent_1 "a" 3 7). vm_compute. reflexivity. Qed.


Lemma finish_releases_witness :
  ∃ clients s', finish_requests ["a"%string] FINISHED_ABORTED sent_1 = (Ret clients, s') ∧ clients = [("a"%string, 0)] ∧
    "a"%string ∉ all_ids (extra := []) s'.
Proof.
  destruct (finish_releases sample_config (out_num_scheduled_tokens out_1) (out_spec_decode_tokens out_1) ["a"%string] FINISHED_ABORTED sent_1) as (cl & s' & Hrun & [_ _ _ Hcl _] & Hall).
  - apply sent_1_awaits.
  - apply NoDup_singleton.
  - reflexivity.
  - exists cl, s'. split; [exact Hrun|]. split; [rewrite Hcl; vm_compute; reflexivity|].
    apply Hall. by apply list_elem_of_singleton.
Defined.

Lemma reset_restarts_witness : ∃ s', sched_reset_prefix_cache true idle_1 = (Ret true, s') ∧ running s' = [].
Proof.
  destruct (reset_restarts sample_config idle_1) as (s' & Hrun & _ & Hr & _).
  - apply idle_1_ready.
  - exists s'. split; [exact Hrun|exact Hr].
Defined.

Lemma sampled_tokens_exact_witness :
  ∃ k stopped r', update_request_with_output sample_config two_append [7; 8; 9] [] (req job_a)
    = (Ret (take k [7; 8; 9], stopped), r') ∧ all_token_ids r' = [1; 2; 3] ++ take k [7; 8; 9].
Proof.
  destruct (sampled_tokens_exact sample_config two_append [7; 8; 9] (req job_a)) as (k & b & r' & Hrun & _ & Hall & _).
  - apply two_append_ok.
  - discriminate.
  - apply hashed_good.
  - split; [reflexivity|]. eexists. split; [reflexivity|]. vm_compute. discriminate.
  - exists k, b, r'. split; [exact Hrun|exact Hall].
Defined.

Lemma engine_step_sound_witness :
  ∃ out s', two_schedule idle_1 = (Ret (Some out), s') ∧ sum_tokens (out_num_scheduled_tokens out) ≤ 8.
Proof.
  destruct (engine_step_sound two_groups false 2 sample_config two_search sample_hash [] two_deployed (mkFCFS []) 7 false false
    two_groups_init idle_1) as (out & s' & Hrun & Hsum & _).
  - apply sample_config_ok.
  - done.
  - apply empty_fcfs.
  - simpl. lia.
  - lia.
  - repeat constructor; simpl; lia.
  - reflexivity.
  - apply idle_1_reached.
  - exists out, s'. split; [exact Hrun|exact Hsum].
Defined.

Lemma sample_capacity : capacity two_groups 7 sample_config.
Proof. vm_compute. discriminate. Qed.

Lemma idle_engine_starts_witness :
  ∃ out s' t, two_schedule idle_1 = (Ret (Some out), s') ∧ od_get "a"%string (out_num_scheduled_tokens out) = Some t ∧ 0 < t.
Proof.
  apply (idle_engine_starts two_groups false 2 7 sample_config two_search sample_hash [] two_deployed (mkFCFS []) false false
    two_groups_init idle_1 "a"%string job_a).
  - apply sample_config_ok.
  - done.
  - apply empty_fcfs.
  - reflexivity.
  - lia.
  - repeat constructor; simpl; lia.
  - reflexivity.
  - apply sample_capacity.
  - apply idle_1_reached.
  - reflexivity.
  - reflexivity.
  - reflexivity.
  - reflexivity.
  - split; [|reflexivity|reflexivity]. exists ChooseWaiting, (req job_a). split; [reflexivity|]. split; [|reflexivity]. by exists [].
Defined.

(** The scheduler after one round, with the request running. *)
Definition job_b : Job := fresh_job "a" 1 4 0 [1; 2; 3].
Definition idle_b : SF := (sched_add_request job_b idle_0).2.
Definition out_b : SchedulerOutput := output_of (two_schedule idle_b).1.
Definition sent_b : SF := (two_schedule idle_b).2.
Definition idle_2 : SF := (update_from_output sample_config two_append out_b {[ "a"%string := [7] ]} sent_b).2.

Lemma idle_2_reached : rtc (sched_step sample_config (mkFCFS []) two_append) (Idle, idle_0) (Idle, idle_2).
Proof.
  apply (rtc_l _ _ (Idle, idle_b)).
  { apply (step_add sample_config (mkFCFS []) two_append idle_0 job_b (sched_add_request job_b idle_0).1); [|apply surjective_pairing].
    split; [|by left|done|done|by intros id j'; simpl; rewrite lookup_empty].
    split; [done|apply hashed_good|vm_compute; done| |done]. split; [done|]. eexists. split; [done|]. vm_compute. done. }
  apply (rtc_l _ _ (Sent out_b, sent_b)).
  { assert (two_schedule idle_b = (Ret (Some out_b), sent_b)) as Hrun by (vm_compute; reflexivity).
    exact (step_schedule sample_config (mkFCFS []) two_append idle_b _ _ Hrun). }
  apply rtc_once. eapply (step_answer sample_config (mkFCFS []) two_append out_b {[ "a"%string := [7] ]} sent_b).
  - apply (answers_single out_b sent_b "a" 3 7). vm_compute. reflexivity.
  - apply surjective_pairing.
Qed.

Definition running_b : Job := from_option Datatypes.id job_b (requests idle_2 !! "a"%string).

Lemma oldest_request_finishes_witness :
  (∃ s', round sample_config (mkFCFS []) two_append idle_2 s') ∧ oldest sample_config idle_2 "a"%string running_b.
Proof.
  assert (oldest sample_config idle_2 "a"%string running_b) as Ho.
  { split; [exists []; vm_compute; reflexivity|vm_compute; reflexivity|]. split; vm_compute; reflexivity. }
  destruct (oldest_request_finishes two_groups false 2 7 sample_config two_search sample_hash [] two_deployed (mkFCFS []) false false
    two_groups_init idle_2 "a"%string running_b) as [H1 _].
  - split; [apply sample_config_ok|apply empty_fcfs|reflexivity|reflexivity].
  - done.
  - done.
  - lia.
  - repeat constructor; simpl; lia.
  - reflexivity.
  - apply sample_capacity.
  - apply idle_2_reached.
  - vm_compute. discriminate.
  - exact Ho.
  - split; [exact H1|exact Ho].
Defined.
