(* ===== verification/KVCapacity.v ===== *)
(** The layout of the KV cache and the scheduler that runs on it: how many blocks the memory
    check at start leaves for one request, and what the scheduler does with them. *)
From S2P Require Import Prelude.
From S2P Require Import Dict.
From S2P Require Import KVSpec.
From S2P Require Import KVConfig.
From S2P Require Import KVEstimate.
From S2P Require Import KVTensors.
From S2P Require Import Request.
From S2P Require Import RequestQueue.
From S2P Require Import BlockHash.
From S2P Require Import BlockPool.
From S2P Require Import Manager.
From S2P Require Import Coordinator.
From S2P Require Import KVCacheManager.
From S2P Require Import KVSteps.
From S2P Require Import Scheduler.
From S2P Require Import SchedulerKV.
From S2P Require Import SchedulerSteps.
From stdpp Require Import strings.
Local Open Scope Z_scope.

Implicit Types (c : VllmConfig) (k : KVCacheConfig).

(** ** The blocks of one request *)

(** The fields of a spec that the coordinator only compares. *)
Definition option_field (o : option Z) : list Z := match o with None => [0] | Some x => [1; x] end.
Definition dtype_field (d : dtype) : Z :=
  match d with int8 => 0 | uint8 => 1 | float8_e4m3fn => 2 | float16 => 3 | bfloat16 => 4 | float32 => 5 end.
Definition attention_fields (a : Attention) : list Z :=
  [num_kv_heads a; head_size a; dtype_field (att_dtype a)] ++ option_field (att_page_size_padded a).
Definition full_fields (f : Full) : list Z :=
  head_size_v f :: option_field (full_sliding_window f) ++ option_field (full_attention_chunk_size f).

(** The group that [get_manager_for_kv_cache_spec] builds a manager for. *)
Definition group_spec (g : KVCacheGroupSpec) : option KVCacheSpec :=
  match kv_cache_spec g with
  | OneSpec (FullAttentionSpec a f) => Some (mkSpec (att_block_size a) FullAttention true (attention_fields a ++ full_fields f))
  | OneSpec (SlidingWindowSpec a w) => Some (mkSpec (att_block_size a) (SlidingWindow w) false (attention_fields a))
  | OneSpec (ChunkedLocalAttentionSpec a n) => Some (mkSpec (att_block_size a) (ChunkedLocalAttention n) false (attention_fields a))
  | _ => None
  end.

(** The memory of a group's layers for [n] blocks. *)
Definition pages_of (g : KVCacheGroupSpec) (page n : Z) : Z := num_layers g * page * n.

Lemma cdiv_mul n b p : 0 < b → 0 < p → cdiv (cdiv n b * p) p = cdiv n b.
Proof. intros Hb Hp. apply cdiv_unique; [done|]. nia. Qed.

Lemma check_enough_ok avail needed estimate : check_enough avail (Ret needed) estimate = Ret tt → 0 < avail ∧ needed ≤ avail.
Proof.
  unfold check_enough. destruct (Z.leb_spec avail 0); [done|]. simpl. destruct (Z.ltb_spec avail needed); [|by split].
  by destruct (estimate avail).
Qed.

(** What the sizing computes for one group of full-attention layers. *)
Lemma one_group_needs c g a f page : kv_cache_spec g = OneSpec (FullAttentionSpec a f) → group_page g = Ret page → 0 < page → 0 < att_block_size a →
  decode_context_parallel_size c * prefill_context_parallel_size c ≤ 1 →
  max_memory_from_groups c [g] = Ret (pages_of g page (cdiv (KVSpec.max_model_len c) (att_block_size a))).
Proof.
  intros Hs Hp Hpos Hb Hw. assert (dsa_mode c [g] = Ret false) as Hm.
  { unfold dsa_mode. destruct (dsa_two_groups_enabled c); [|done]. unfold group_pages. simpl. by rewrite Hp. }
  destruct g as [names sp]. simpl in Hs. subst sp. unfold max_memory_from_groups. rewrite Hm. simpl.
  unfold max_memory_general, get_uniform_page_size, group_pages. simpl. rewrite Hp. simpl.
  unfold group_page, group_page_size_bytes, page_size_bytes in Hp. simpl in Hp. unfold group_max_memory_usage_bytes. simpl.
  destruct (Z.ltb_spec 1 (decode_context_parallel_size c * prefill_context_parallel_size c)); [lia|].
  unfold py_cdiv. destruct (Z.eqb_spec (att_block_size a) 0); [lia|]. simpl. unfold page_size_bytes. simpl.
  rewrite Hp. simpl. destruct (Z.eqb_spec page 0); [lia|]. simpl. by rewrite cdiv_mul.
Qed.

Lemma one_group_blocks c g page avail k : group_page g = Ret page → 0 < page → 0 < num_layers g → (∃ s, kv_cache_spec g = OneSpec s) →
  num_gpu_blocks_override c = None → get_kv_cache_config_from_groups c [g] avail = Ret k →
  cfg_num_blocks k = Z.max (avail / page / num_layers g) 0 ∧ kv_cache_groups k = [g].
Proof.
  intros Hp Hpos Hn [s Hs] Ho. assert (dsa_mode c [g] = Ret false) as Hm.
  { unfold dsa_mode. destruct (dsa_two_groups_enabled c); [|done]. unfold group_pages. simpl. by rewrite Hp. }
  destruct g as [names sp]. simpl in Hs. subst sp. unfold get_kv_cache_config_from_groups. rewrite Hm. simpl.
  unfold config_general, get_uniform_page_size, group_pages. simpl. rewrite Hp. simpl. destruct (Z.ltb_spec 0 (num_layers (mkGroup names (OneSpec s)))); [|lia]. simpl.
  unfold get_num_blocks. rewrite floordiv_pos by done. simpl. rewrite floordiv_pos by done. simpl. unfold may_override_num_blocks. rewrite Ho. simpl. intros [= <-]. done.
Qed.

(** ** Samples *)

(** A model of eight tokens with one layer, and memory for exactly four blocks of two tokens. *)
Definition exact_engine : VllmConfig := mkVllmConfig 8 8 1 1 8 0 "none" None false false true 0 None 0 11 None 1000 1.
Definition exact_config : SchedulerConfig := mkConfig FCFS 2 8 8 0 0 true false false 1.
Definition exact_group : KVCacheGroupSpec := mkGroup ["f"%string] (OneSpec full_layer).

(** The scheduler that the engine builds on the layout of its only worker. *)
Definition engine_on (ks : outcome (VllmConfig * list KVCacheConfig)) : outcome CO :=
  r ← ks;
  k ← generate_scheduler_kv_cache_config r.2;
  coord_init (omap group_spec (kv_cache_groups k)) (cfg_num_blocks k) true false false 1 1 2.
Definition exact_layout : outcome (VllmConfig * list KVCacheConfig) := get_kv_cache_configs exact_engine [[("f"%string, full_layer)]] [128].
Definition exact_fields : list Z := [1; 4; 3; 0; 4; 0; 0].
Definition exact_search := unitary_find_longest_cache_hit (mkSpec 2 FullAttention true exact_fields) false 1 1.
Definition exact_cache : KVCache CO := manager_cache 8 true exact_search.
Definition exact_step (s : SF) : outcome (option SchedulerOutput) * SF := @schedule _ _ _ exact_cache (mkFCFS []) exact_config s.

(** A model whose second layer has a window, with memory for ten blocks. *)
Definition window_model : dict string LayerSpec := [("f"%string, full_layer); ("w"%string, SlidingWindowSpec sample_attention 100)].

(** ** Properties *)

(** C25: the memory check at start and the room of the scheduler. For a model whose layers form
    one group of full attention, without an override of the block count and without context
    parallelism, a worker that passes the check gets at least as many blocks as a request of the
    model's length fills. With the memory of one block more it has the room that the scheduler's
    progress needs, since the pool keeps one block for itself. For several groups the check counts
    too little ([hybrid_check_counts_one_group]). *)
Theorem checked_memory_has_room c g a f page avail k cfg :
  kv_cache_spec g = OneSpec (FullAttentionSpec a f) → group_page g = Ret page → 0 < page → 0 < att_block_size a → 0 < num_layers g →
  decode_context_parallel_size c * prefill_context_parallel_size c ≤ 1 → num_gpu_blocks_override c = None →
  Scheduler.max_model_len cfg = KVSpec.max_model_len c →
  check_workers c [([g], avail)] = Ret tt → get_kv_cache_config_from_groups c [g] avail = Ret k →
  cdiv (KVSpec.max_model_len c) (att_block_size a) ≤ cfg_num_blocks k ∧
  (∀ need, max_memory_from_groups c [g] = Ret need → need + pages_of g page 1 ≤ avail →
    capacity (omap group_spec (kv_cache_groups k)) (cfg_num_blocks k) cfg).
Proof.
  intros Hs Hp Hpos Hb Hn Hw Ho Hlen Hck Hk. pose proof (one_group_needs c g a f page Hs Hp Hpos Hb Hw) as Hneed.
  destruct (one_group_blocks c g page avail k Hp Hpos Hn (ex_intro _ _ Hs) Ho Hk) as [Hnum Hgs].
  assert (∀ n, pages_of g page n ≤ avail → n ≤ cfg_num_blocks k) as Hfit.
  { intros n Hle. rewrite Hnum, Z.div_div by lia. etrans; [|apply Z.le_max_l]. apply Z.div_le_lower_bound; [nia|]. unfold pages_of in Hle. lia. }
  unfold check_workers in Hck. rewrite Hneed in *. simpl in Hck.
  destruct (check_enough avail (Ret _) _) as [[]|] eqn:Hc in Hck; [|done]. apply check_enough_ok in Hc as [_ Hle]. split; [by apply Hfit|].
  intros need [= <-] Hmore. rewrite Hgs. unfold capacity. cbn [omap list_omap group_spec]. unfold group_spec. rewrite Hs. simpl. rewrite Hlen.
  enough (cdiv (KVSpec.max_model_len c) (att_block_size a) + 1 ≤ cfg_num_blocks k) by lia. apply Hfit. unfold pages_of in *. lia.
Qed.

(** memory that fits exactly is not enough. The check at start accepts a worker with the
    memory of the four blocks that a request of eight tokens fills, but the pool keeps one of
    them as its null block: a request with a prompt of seven tokens and one to produce is
    accepted and then never started, and each step leaves the scheduler as it was. *)
Theorem exact_memory_never_starts :
  ∃ kv out s', engine_on exact_layout = Ret kv ∧
    let s := (sched_add_request (fresh_job "x" 1 1 0 [1; 2; 3; 4; 5; 6; 7]) (scheduler_init (mkFCFS []) kv)).2 in
    exact_step s = (Ret (Some out), s') ∧ out_num_scheduled_tokens out = [] ∧ running s' = [] ∧
    (∃ j, requests s' !! "x"%string = Some j ∧ status (req j) = WAITING) ∧
    ∃ out', exact_step s' = (Ret (Some out'), s') ∧ out_num_scheduled_tokens out' = [].
Proof.
  eexists _, _, _. split; [vm_compute; reflexivity|]. cbv zeta. split; [vm_compute; reflexivity|]. split; [reflexivity|]. split; [reflexivity|].
  split; [eexists; split; [vm_compute; reflexivity|reflexivity]|]. eexists. split; [vm_compute; reflexivity|]. reflexivity.
Qed.

(** with several groups the check counts the blocks of the first group only, while all groups
    take their blocks from the same pool: memory for ten blocks passes for a model of twenty
    tokens, one request of which needs twenty-one. *)
Theorem hybrid_check_counts_one_group :
  ∃ c k, get_kv_cache_configs (KVEstimate.sample_config 20) [window_model] [320] = Ret (c, [k]) ∧ KVSpec.max_model_len c = 20 ∧
    max_concurrency c k = Ret (10, 21).
Proof. eexists _, _. split; [vm_compute; reflexivity|]. split; vm_compute; reflexivity. Qed.

(** Layers with different value heads are merged into one group whose page is that of the first,
    so a tensor is sized below the page of the other layer. *)
Theorem merge_ignores_value_heads :
  let wide := FullAttentionSpec sample_attention (full_post_init sample_attention (Some 8) None None) in
  merge_specs [full_layer; wide] = Ret full_layer ∧ page_size_bytes full_layer = Ret 32 ∧ page_size_bytes wide = Ret 48 ∧
  get_kv_cache_groups (KVEstimate.sample_config 8) [("f"%string, full_layer); ("g"%string, wide)] =
    Ret [mkGroup ["f"%string; "g"%string] (OneSpec full_layer)].
Proof. split_and!; vm_compute; reflexivity. Qed.

(** Layers with different windows make the test of uniform specs raise. *)
Theorem uniform_test_raises c :
  let windowed w := FullAttentionSpec sample_attention (full_post_init sample_attention None (Some w) None) in
  dsa_two_groups_enabled c = false → is_kv_cache_spec_uniform c [("f"%string, windowed 3); ("g"%string, windowed 5)] = Raise ValueError.
Proof. intros windowed H. unfold is_kv_cache_spec_uniform, dsa_two_groups_split. rewrite H. vm_compute. reflexivity. Qed.

(** ** Witnesses *)

Lemma checked_memory_has_room_witness :
  ∃ k, get_kv_cache_config_from_groups exact_engine [exact_group] 160 = Ret k ∧ cfg_num_blocks k = 5 ∧
    capacity [mkSpec 2 FullAttention true exact_fields] 5 exact_config.
Proof.
  assert (Hk : ∃ k, get_kv_cache_config_from_groups exact_engine [exact_group] 160 = Ret k ∧ cfg_num_blocks k = 5 ∧
    omap group_spec (kv_cache_groups k) = [mkSpec 2 FullAttention true exact_fields]) by (eexists; split; [vm_compute; reflexivity|split; vm_compute; reflexivity]).
  destruct Hk as (k & Hk & Hn & Hg). exists k. rewrite <-Hn at 2. rewrite <-Hg. split; [exact Hk|]. split; [exact Hn|].
  destruct (checked_memory_has_room exact_engine exact_group sample_attention (full_post_init sample_attention None None None) 32 160 k exact_config)
    as [_ Hroom]; try exact Hk; try (vm_compute; (reflexivity || congruence)).
  eapply Hroom; [vm_compute; reflexivity|vm_compute; congruence].
Defined.
