(* ===== verification/AsyncScheduler.v ===== *)
(** The scheduler of asynchronous execution ([AsyncScheduler]): a step is scheduled before the
    answer to the previous one is there. A request counts the tokens that are still to come as
    placeholders, and the sampled tokens of an answer replace them.

    With answers outstanding, the placeholders of a request are the tokens that the outputs in
    flight may still bring, a running request has computed all its tokens and placeholders but
    one, and a request that was preempted with an answer outstanding is in the waiting queue.
    Scheduling a step keeps this. *)
From S2P Require Import Prelude.
From S2P Require Import Dict.
From S2P Require Import Request.
From S2P Require Import StopCheck.
From S2P Require Import RequestQueue.
From S2P Require Import KVCacheManager.
From S2P Require Import Scheduler.
From S2P Require Import SchedulerInv.
From S2P Require Import SchedulerStep.
From S2P Require Import SchedulerWait.
From S2P Require Import SchedulerMain.
From S2P Require Import SchedulerUpdate.
From S2P Require Import SchedulerCalls.
Local Open Scope Z_scope.

(** ** Operations *)

Section async.
Context {Q : Type} `{!RequestQueue Q} {K : Type} `{!KVCache K}.
Context (empty_queue : Q) (config : SchedulerConfig).
Abbreviation SC := (Scheduler (Q := Q) (K := K)).

(** [num_spec_tokens] of the speculative configuration. *)
Context (num_spec_tokens : Z).

(** [_spec_token_placeholders]: one list for all requests, which nothing writes to. *)
Definition spec_token_placeholders : list Z := replicate (Z.to_nat num_spec_tokens) (-1).

(** A request that has been scheduled beyond its prefill will get a token and may get one for
    every draft. *)
Definition expect_tokens (num_drafts : Z) (r : Request) : Request :=
  set_spec spec_token_placeholders (set_placeholders (num_output_placeholders r + (1 + num_drafts)) r).

(** The loop of [_update_after_schedule]; the result is [pending_structured_output_tokens]. *)
Definition add_placeholders (drafts : dict string (list Z)) (acc : bool) (x : string * Z) : M SC bool :=
  j ← get_job x.1;
  if is_prefill_chunk j then mret acc
  else
    upd_job x.1 (on_req (expect_tokens (Z.of_nat (length (default [] (od_get x.1 drafts)))))) ;;
    mret (acc || (use_structured_output j && (0 <? num_output_placeholders (req j)))).
Definition async_after_schedule (scheduled : dict string Z) (drafts : dict string (list Z)) : M SC (bool * bool) :=
  structured ← update_after_schedule scheduled;
  pending ← for_fold scheduled false (add_placeholders drafts);
  mret (structured, pending).
Definition async_schedule : M SC (option SchedulerOutput) :=
  schedule_with empty_queue config (make_output_with config async_after_schedule).

(** The hash function of the block hashes that new tokens extend. *)
Context (append_tokens : list Z → M Request bool).

(** [_update_request_with_output]. *)
Definition async_update_request_with_output (id : string) (new_token_ids : list Z) : M SC (list Z * bool) :=
  j ← get_job id;
  if discard_latest_async_tokens j then
    upd_job id (set_discard false) ;;
    mret ([], false)
  else
    '(tokens, stopped) ← on_job id (update_request_with_output config append_tokens new_token_ids []);
    upd_job id (on_req (λ r, set_placeholders (num_output_placeholders r - Z.of_nat (length tokens)) r)) ;;
    j' ← get_job id;
    py_assert (0 <=? num_output_placeholders (req j')) ;;
    (if bool_decide (status (req j) = RUNNING)
     then kv_call id (kvc_cache_blocks (num_computed_tokens (req j') - num_output_placeholders (req j')))
     else mret tt) ;;
    mret (tokens, stopped).
Definition async_update_one : SchedulerOutput → gmap string (list Z) → Update → string * Z → M SC Update :=
  update_one_with async_update_request_with_output.
Definition async_update_from_output : SchedulerOutput → gmap string (list Z) → M SC (list EngineCoreOutput) :=
  update_from_output_with async_update_one.
End async.

(** ** Outputs in flight *)

(** An output whose answer is outstanding, and the requests that it samples for: those that it
    took beyond their prefill. *)
Record flight := mkFlight {
  fl_num : dict string Z;
  fl_drafts : dict string (list Z);
  fl_samples : gset string
}.

(** The tokens that an output may bring. *)
Definition owed (id : string) (f : flight) : Z :=
  if decide (id ∈ keys (fl_num f) ∧ id ∈ fl_samples f)
  then 1 + Z.of_nat (length (default [] (od_get id (fl_drafts f)))) else 0.
Definition total_owed (id : string) (fls : list flight) : Z := foldr (λ f a, owed id f + a) 0 fls.

Record flight_ok (f : flight) : Prop := {
  fo_nodup : NoDup (keys (fl_num f));
  fo_positive : ∀ id n, od_get id (fl_num f) = Some n → 0 < n
}.

Lemma owed_nonneg id f : 0 ≤ owed id f.
Proof. unfold owed. case_decide; lia. Qed.

Lemma owed_absent id f : id ∉ keys (fl_num f) → owed id f = 0.
Proof. intros Hn. unfold owed. rewrite decide_False; [done|]. by intros [? _]. Qed.

Lemma total_owed_nonneg id fls : 0 ≤ total_owed id fls.
Proof. induction fls as [|f fls IH]; simpl; [done|]. pose proof (owed_nonneg id f). lia. Qed.

Lemma total_owed_app id fls fls' : total_owed id (fls ++ fls') = total_owed id fls + total_owed id fls'.
Proof. induction fls as [|f fls IH]; simpl; [done|]. rewrite IH. lia. Qed.

Lemma total_owed_absent id fls : (∀ f, f ∈ fls → id ∉ keys (fl_num f)) → total_owed id fls = 0.
Proof.
  induction fls as [|f fls IH]; simpl; intros Hn; [done|]. rewrite owed_absent by (apply Hn; by left).
  apply IH. intros f' Hf'. apply Hn. by right.
Qed.

Section async_inv.
Context {Q : Type} `{HQ : RequestQueueLaws Q} {K : Type} `{!KVCache K}.
Context (config : SchedulerConfig) `{!KVCachePromise K (max_model_len config)}.
Context (empty_queue : Q) (num_spec_tokens : Z).
Abbreviation SC := (Scheduler (Q := Q) (K := K)).
Abbreviation inv := (sched_inv (extra := []) config).
Implicit Types s : SC.

(** A running request: while tokens are outstanding, all its known and outstanding tokens but
    the last are computed. *)
Definition steady (r : Request) : Prop :=
  num_computed_tokens r < num_tokens r + num_output_placeholders r ∧
  (0 < num_output_placeholders r → num_computed_tokens r = num_tokens r + num_output_placeholders r - 1) ∧
  num_computed_tokens r ≤ max_model_len config - 1.

Definition expecting (fls : list flight) (id : string) (j : Job) : Prop :=
  discard_latest_async_tokens j = false ∧ num_tokens (req j) < max_model_len config ∧
  num_output_placeholders (req j) = total_owed id fls ∧ (status (req j) = RUNNING → steady (req j)).

Record pipeline (fls : list flight) s : Prop := {
  pl_inv : inv s;
  pl_fresh : fresh config s;
  pl_prev : prev_ok s;
  pl_each : ∀ id j, requests s !! id = Some j → expecting fls id j;
  pl_flights : Forall flight_ok fls;
  pl_place : ∀ f id j, f ∈ fls → id ∈ keys (fl_num f) → requests s !! id = Some j →
    status (req j) = RUNNING ∨ id ∈ waiting_ids s;
  pl_last : ∀ f id j, last fls = Some f → id ∈ keys (fl_num f) → requests s !! id = Some j → status (req j) = RUNNING
}.

(** A step starts with at most one answer outstanding: all requests of that output run. *)
Lemma in_flight_runs fls s f id j :
  pipeline fls s → (length fls ≤ 1)%nat → f ∈ fls → id ∈ keys (fl_num f) → requests s !! id = Some j → status (req j) = RUNNING.
Proof.
  intros Hp Hl Hf Hid Hj. destruct fls as [|f' [|? ?]]; simpl in Hl; [by apply elem_of_nil in Hf| |lia].
  apply list_elem_of_singleton in Hf as ->. by eapply (pl_last _ _ Hp).
Qed.

Lemma queued_owed_nothing fls s id j :
  pipeline fls s → (length fls ≤ 1)%nat → requests s !! id = Some j → status (req j) ≠ RUNNING → total_owed id fls = 0.
Proof.
  intros Hp Hl Hj Hst. apply total_owed_absent. intros f Hf Hid. apply Hst. by eapply in_flight_runs.
Qed.

Lemma pipeline_calm fls s : pipeline fls s → calm config s.
Proof.
  intros [P1 P2 P3 P4 _ _ _]. split; try done. intros id j Hin Hj. destruct (P4 id j Hj) as (_ & _ & _ & Hs).
  destruct (si_running _ _ P1 id j Hin Hj) as [Hst _ _]. destruct (Hs Hst) as (? & ? & ?). split; lia.
Qed.

(** ** Scheduling a step *)

(** A request after it was scheduled. *)
Definition expected (drafts : dict string (list Z)) (id : string) (j : Job) : Job :=
  if is_prefill_chunk j then j
  else on_req (expect_tokens num_spec_tokens (Z.of_nat (length (default [] (od_get id drafts))))) j.
Definition expected_by (drafts : dict string (list Z)) (d : dict string Z) s s' : Prop :=
  s' = set_requests (λ _, requests s') s ∧
  ∀ id, requests s' !! id = if decide (id ∈ keys d) then expected drafts id <$> requests s !! id else requests s !! id.

Lemma wp_add_placeholder drafts acc id n s j E :
  requests s !! id = Some j →
  wp (add_placeholders num_spec_tokens drafts acc (id, n)) (λ _ s', s' = set_requests (insert id (expected drafts id j)) s) E s.
Proof.
  intros Hj. unfold add_placeholders, expected. apply wp_bind, (wp_get_job s id j); [done|]. destruct (is_prefill_chunk j).
  - wp_steps. unfold set_requests. rewrite insert_id by done. by destruct s.
  - apply wp_bind, wp_upd_job. wp_steps. unfold set_requests. by rewrite (alter_known _ id j).
Qed.

Lemma wp_add_placeholders drafts (d : dict string Z) s E :
  NoDup (keys d) → (∀ id, id ∈ keys d → is_Some (requests s !! id)) →
  wp (for_fold d false (add_placeholders num_spec_tokens drafts)) (λ _ s', expected_by drafts d s s') E s.
Proof.
  intros Hnd Hall. apply (wp_for_fold (λ dn _ s', expected_by drafts dn s s')); [|  |done].
  - split; [by destruct s|]. intros id. rewrite decide_False; [done|apply not_elem_of_nil].
  - intros dn [id n] todo b s' -> [Hs' Hreq].
    assert (id ∉ keys dn) as Hno.
    { rewrite fmap_app in Hnd. csimpl in Hnd. apply NoDup_app in Hnd as (_ & Hd & _). intros Hin. apply (Hd id Hin). by left. }
    destruct (Hall id) as [j Hj]; [rewrite fmap_app; csimpl; in_list|].
    eapply wp_call; [apply (wp_add_placeholder drafts b id n s' j); by rewrite Hreq, decide_False|]. intros _ s2 ->.
    split; [rewrite Hs'; by destruct s|]. intros x. simpl. destruct (decide (id = x)) as [<-|Hx].
    + rewrite lookup_insert_eq, decide_True by (rewrite fmap_app; csimpl; in_list). by rewrite Hj.
    + rewrite lookup_insert_ne, Hreq by done. apply decide_ext. rewrite fmap_app, elem_of_app. csimpl.
      rewrite list_elem_of_singleton. naive_solver.
Qed.

(** The output of a step, as it goes in flight. *)
Definition samples_for s (id : string) : bool :=
  match requests s !! id with Some j => negb (is_prefill_chunk j) | None => false end.
Definition flight_of (out : SchedulerOutput) s : flight :=
  mkFlight (out_num_scheduled_tokens out) (out_spec_decode_tokens out)
    (list_to_set (filter (λ id, samples_for s id = true) (keys (out_num_scheduled_tokens out)))).

Lemma owed_flight_of out s id j :
  id ∈ keys (out_num_scheduled_tokens out) → requests s !! id = Some j →
  owed id (flight_of out s) =
    if is_prefill_chunk j then 0 else 1 + Z.of_nat (length (default [] (od_get id (out_spec_decode_tokens out)))).
Proof.
  intros Hin Hj. unfold owed, flight_of. simpl. unfold samples_for. destruct (is_prefill_chunk j) eqn:Hc.
  - rewrite decide_False; [done|]. rewrite elem_of_list_to_set, list_elem_of_filter, Hj, Hc. by intros [_ [? _]].
  - rewrite decide_True; [done|]. by rewrite elem_of_list_to_set, list_elem_of_filter, Hj, Hc.
Qed.

(** Where a request was when the step started. *)
Lemma fate_expecting fls came gone ws id j j' s :
  pipeline fls s → (length fls ≤ 1)%nat → requests s !! id = Some j → fate came gone ws id j j' → expecting fls id j'.
Proof.
  intros Hp Hl Hj [Hc Hf]. pose proof (carried_tokens _ _ Hc) as Ht. destruct Hc as (_ & Hph & Hd).
  destruct (pl_each _ _ Hp id j Hj) as (E1 & E2 & E3 & E4). unfold expecting. rewrite Hd, Hph, Ht. split_and!; try done.
  intros Hrun. destruct Hf as [(H1 & H2)|[(_ & _ & ? & _)|(_ & Hn & _ & Hlt)]]; [|done|].
  - specialize (E4 (proj1 H1 Hrun)). unfold steady in *. by rewrite H2, Ht, Hph.
  - rewrite (queued_owed_nothing fls s id j Hp Hl Hj Hn) in E3. unfold steady. rewrite Ht, Hph, E3 in *. lia.
Qed.

(** The arithmetic of one scheduled request. *)
Lemma expected_expecting fls out id n j k s :
  expecting fls id j → status (req j) = RUNNING → decided config k id (req j) n (od_get id (out_spec_decode_tokens out)) →
  id ∈ keys (out_num_scheduled_tokens out) → requests s !! id = Some (expected (out_spec_decode_tokens out) id (advanced n j)) →
  expecting (fls ++ [flight_of out s]) id (expected (out_spec_decode_tokens out) id (advanced n j)).
Proof.
  intros (E1 & E2 & E3 & E4) Hst [D1 _ D3 D4] Hin Hj. specialize (E4 Hst) as (S1 & S2 & S3).
  set (j2 := expected _ id _) in *. pose proof (owed_flight_of out s id j2 Hin Hj) as Ho.
  assert (is_prefill_chunk j2 = (num_computed_tokens (req j) + n <? num_tokens (req j) + num_output_placeholders (req j))) as Hch.
  { transitivity (is_prefill_chunk (advanced n j)); [|done]. unfold j2, expected. destruct (is_prefill_chunk (advanced n j)) eqn:Hc; exact Hc. }
  unfold expecting. rewrite total_owed_app. simpl total_owed. rewrite Ho, Hch. clear Ho.
  unfold j2, expected. change (is_prefill_chunk (advanced n j)) with
    (num_computed_tokens (req j) + n <? num_tokens (req j) + num_output_placeholders (req j)) in *.
  destruct (Z.ltb_spec (num_computed_tokens (req j) + n) (num_tokens (req j) + num_output_placeholders (req j))) as [Hlt|Hge].
  - split_and!; [done|done|simpl; lia|]. intros _. unfold steady. simpl. change (num_tokens (set_computed _ ?r)) with (num_tokens r).
    destruct (od_get id (out_spec_decode_tokens out)); lia.
  - split_and!; [done|done|simpl; lia|]. intros _. unfold steady. simpl.
    change (num_tokens (expect_tokens _ _ (set_computed _ ?r))) with (num_tokens r).
    destruct (od_get id (out_spec_decode_tokens out)) as [ts|]; simpl in *; lia.
Qed.

(** The fields of a request that an expected token does not change. *)
Lemma expected_fields drafts id n j :
  let j' := expected drafts id (advanced n j) in
  status (req j') = status (req j) ∧ obj_id (req j') = obj_id (req j) ∧
  num_computed_tokens (req j') = num_computed_tokens (req j) + n ∧
  (job_ok config id (advanced n j) → job_ok config id j') ∧
  (∀ k, running_ok config k id (advanced n j) → running_ok config k id j').
Proof.
  unfold expected. destruct (is_prefill_chunk (advanced n j)); split_and!; try done.
  - intros [H1 H2 H3 H4 H5]. split; try done; simpl in *; [|lia]. by eapply req_ok_view; [..|exact H2].
  - by intros k [H1 H2 H3].
Qed.

Lemma stepped_pipeline fls came gone s0 s out s1 s2 :
  pipeline fls s0 → (length fls ≤ 1)%nat → moved came gone s0 s → came && gone = false → inv s → stepped config s out s1 →
  expected_by (out_spec_decode_tokens out) (out_num_scheduled_tokens out) s1 s2 →
  pipeline (fls ++ [flight_of out s2]) s2.
Proof.
  intros Hp Hl [Hmv _] Hcg Hs [D1 D2 D3 D4 D5 D6 (D7 & D8 & D9 & D10) _] [E1 E2].
  assert (∀ id j2, requests s2 !! id = Some j2 → ∃ j0 j, requests s0 !! id = Some j0 ∧ requests s !! id = Some j ∧
    fate came gone (waiting_ids s) id j0 j ∧
    (id ∈ keys (out_num_scheduled_tokens out) ∧ id ∈ running s ∧ (∃ n, j2 = expected (out_spec_decode_tokens out) id (advanced n j) ∧
       requests s1 !! id = Some (advanced n j) ∧ decided config (kv_cache_manager s) id (req j) n (od_get id (out_spec_decode_tokens out))) ∨
     id ∉ keys (out_num_scheduled_tokens out) ∧ j2 = j ∧ requests s1 !! id = Some j)) as Hback.
  { intros id j2. rewrite E2. case_decide as Hin.
    - destruct (od_get_some id _ Hin) as [n Hn]. destruct (D4 id n Hn) as (_ & j & Hj & Hj1 & Hr & Hd). rewrite Hj1. intros [= <-].
      destruct (Hmv id j Hj) as (j0 & Hj0 & Hf). exists j0, j. split_and!; try done. left. split_and!; try done. by exists n.
    - intros Hj1. destruct (D5 id Hin) as [Heq _]. rewrite Heq in Hj1. destruct (Hmv id j2 Hj1) as (j0 & Hj0 & Hf).
      exists j0, j2. split_and!; try done. right. by rewrite Heq. }
  assert (waiting_ids s2 = waiting_ids s) as Hw by (unfold waiting_ids; rewrite E1; simpl; by rewrite D8).
  assert (∀ id j2, requests s2 !! id = Some j2 → expecting (fls ++ [flight_of out s2]) id j2) as Heach.
  { intros id j2 Hj2. destruct (Hback id j2 Hj2) as (j0 & j & Hj0 & Hj & Hf & [(Hin & Hr & n & -> & _ & Hd)|(Hin & -> & _)]);
      pose proof (fate_expecting fls came gone _ id j0 j s0 Hp Hl Hj0 Hf) as Hx.
    - eapply expected_expecting; [done|by eapply (si_running _ _ Hs)|done|done|done].
    - destruct Hx as (X1 & X2 & X3 & X4). split_and!; try done. rewrite total_owed_app, X3. simpl. rewrite owed_absent by done. lia. }
  split; try done.
  - apply (inv_objects config s1); [done|by rewrite E1..| |].
    + intros id Hno. rewrite E2. case_decide as Hin; [|done]. destruct (od_get_some id _ Hin) as [n Hn].
      destruct (D4 id n Hn) as (_ & _ & _ & _ & Hr & _). by rewrite D7 in Hno.
    + intros id j1 Hr Hj1. rewrite E2, Hj1. case_decide as Hin.
      * destruct (od_get_some id _ Hin) as [n Hn]. destruct (D4 id n Hn) as (_ & j & Hj & Hj1' & _).
        rewrite Hj1 in Hj1'. injection Hj1' as ->. eexists. split; [done|].
        destruct (expected_fields (out_spec_decode_tokens out) id n j) as (_ & F2 & _ & F4 & F5). split_and!; [done|by apply F4, (si_jobs _ _ D1)|].
        by apply F5, (si_running _ _ D1).
      * exists j1. split_and!; [done|done|by apply (si_jobs _ _ D1)|by apply (si_running _ _ D1)].
  - intros x. rewrite E2, E1. simpl. case_decide as Hin; [|apply D2]. intros Hx. apply D2. by destruct (requests s1 !! x).
  - intros id j2 Hj2 Hst. rewrite E1. simpl. destruct (Hback id j2 Hj2) as (j0 & j & _ & _ & _ & [(_ & _ & n & -> & Hj1 & _)|(_ & -> & Hj1)]).
    + destruct (expected_fields (out_spec_decode_tokens out) id n j) as (F1 & _). rewrite F1 in Hst. by apply (D6 id _ Hj1).
    + by apply (D6 id j).
  - apply Forall_app. split; [apply Hp|]. apply Forall_singleton. split; [done|]. intros id n Hn. by destruct (D4 id n Hn).
  - intros f id j2 Hf Hid Hj2. destruct (Hback id j2 Hj2) as (j0 & j & Hj0 & Hj & [_ Hfate] & Hcase). rewrite Hw.
    assert (status (req j2) = status (req j)) as Hsame.
    { destruct Hcase as [(_ & _ & n & -> & _)|(_ & -> & _)]; [apply (expected_fields _ id n j)|done]. }
    rewrite Hsame. apply elem_of_app in Hf as [Hf| ->%list_elem_of_singleton].
    + pose proof (in_flight_runs fls s0 f id j0 Hp Hl Hf Hid Hj0) as Hrun. naive_solver.
    + left. destruct Hcase as [(_ & Hr & _)|(? & _)]; [|done]. by eapply (si_running _ _ Hs).
  - intros f id j2. rewrite last_snoc. intros [= <-] Hid Hj2. destruct (Hback id j2 Hj2) as (j0 & j & _ & Hj & _ & [(_ & Hr & n & -> & _)|(? & _)]); [|done].
    destruct (expected_fields (out_spec_decode_tokens out) id n j) as (-> & _). by eapply (si_running _ _ Hs).
Qed.

(** The outcome of the step is the one it had before the placeholders. *)
Lemma expected_outcome s0 s out s1 s2 :
  stepped config s out s1 → step_outcome config s0 out s1 →
  expected_by (out_spec_decode_tokens out) (out_num_scheduled_tokens out) s1 s2 → step_outcome config s0 out s2.
Proof.
  intros [_ _ _ D4 _ _ (D7 & D8 & D9 & D10) _] [O1 O2 O3 O4 O5 O6 O7] [E1 E2].
  assert (running s2 = running s1 ∧ kv_cache_manager s2 = kv_cache_manager s1 ∧ finished_req_ids s2 = finished_req_ids s1 ∧
    prev_step_scheduled_req_ids s2 = prev_step_scheduled_req_ids s1) as (F1 & F2 & F3 & F4) by (rewrite E1; done).
  split; rewrite ?F1, ?F2, ?F3, ?F4; try done. intros id n Hn. destruct (O3 id n Hn) as (j1 & Hj1 & Hr & Hle & Hcov).
  destruct (D4 id n Hn) as (_ & j & _ & Hj & _). rewrite Hj1 in Hj. injection Hj as ->.
  eexists. rewrite E2, decide_True by by eapply od_get_in. rewrite Hj1. split; [done|].
  destruct (expected_fields (out_spec_decode_tokens out) id n j) as (_ & _ & -> & _). done.
Qed.

(** A step with at most one answer outstanding. *)
Lemma wp_async_schedule fls s E :
  config_ok config → empty_ok empty_queue → pipeline fls s → (length fls ≤ 1)%nat →
  wp (async_schedule empty_queue config num_spec_tokens)
    (λ o s', ∃ out, o = Some out ∧ pipeline (fls ++ [flight_of out s']) s' ∧ step_outcome config s out s') E s.
Proof.
  intros Hc He Hp Hl. apply (wp_schedule_with config); [done|done|by eapply pipeline_calm|]. intros budget w prefix s1 Hh Hbud Hpau.
  eapply wp_make_output_with; [done|]. unfold async_after_schedule. apply wp_bind.
  eapply wp_call; [apply (wp_advance_step config budget s); try done; apply Hp|]. intros b s2 Hout.
  set (out0 := mkSchedulerOutput [] (mkCachedRequestData [] [] [] [] [] [] []) (num_scheduled_tokens (step w))
    (sum_tokens (num_scheduled_tokens (step w))) (scheduled_spec_decode_tokens (step w)) [] (preempted_reqs (step w)) (finished_req_ids s1) false false).
  destruct (Hout out0) as [Hst _]; [done|]. apply wp_bind. eapply wp_call; [apply wp_add_placeholders|].
  { apply (sd_nodup _ _ _ _ Hst). }
  { intros id (n & Hn)%od_get_some. destruct (sd_each _ _ _ _ Hst id n Hn) as (_ & j & _ & Hj & _). eauto. }
  intros pend s3 Hex. wp_steps. intros out Ho. destruct (Hout out Ho) as [Hst' Hoc]. destruct Ho as (O1 & O2 & _).
  rewrite <-O1, <-O2 in Hex. destruct (ha_moved _ _ _ _ _ Hh) as (c & g & Hcg & Hm). split.
  - by eapply stepped_pipeline; [..|apply Hh|exact Hst'|].
  - by eapply expected_outcome.
Qed.
End async_inv.
