(* ===== verification/AsyncUpdate.v ===== *)
(** The answers to the outputs of the asynchronous scheduler, oldest first: the sampled tokens
    replace placeholders, exactly the known tokens but the last are cached, and requests that
    stop leave the running list or, when they were preempted meanwhile, the waiting queue. *)
From S2P Require Import Prelude.
From S2P Require Import Dict.
From S2P Require Import Request.
From S2P Require Import StopCheck.
From S2P Require Import RequestQueue.
From S2P Require Import KVCacheManager.
From S2P Require Import Scheduler.
From S2P Require Import SchedulerInv.
From S2P Require Import SchedulerStep.
From S2P Require Import SchedulerWait.
From S2P Require Import SchedulerMain.
From S2P Require Import SchedulerUpdate.
From S2P Require Import SchedulerCalls.
From S2P Require Import AsyncScheduler.
Local Open Scope Z_scope.

Section async_update.
Context {Q : Type} `{HQ : RequestQueueLaws Q} {K : Type} `{!KVCache K}.
Context (config : SchedulerConfig) `{!KVCachePromise K (max_model_len config)}.
Context (append_tokens : list Z → M Request bool).
Abbreviation SC := (Scheduler (Q := Q) (K := K)).
Abbreviation inv := (sched_inv (extra := []) config).
Implicit Types s : SC.

(** ** One request *)

(** What an answer may be. *)
Definition async_answer_ok (f : flight) (id : string) (gens : list Z) : Prop :=
  if decide (id ∈ fl_samples f) then gens ≠ [] ∧ (length gens ≤ length (default [] (od_get id (fl_drafts f))) + 1)%nat
  else gens = [].

(** The request after the tokens [ts] of an answer. *)
Record async_updated (ts : list Z) (stopped : bool) (r r' : Request) : Prop := {
  ay_all : all_token_ids r' = all_token_ids r ++ ts;
  ay_ok : req_ok r';
  ay_key : same_key r r';
  ay_computed : num_computed_tokens r' = num_computed_tokens r;
  ay_pending : num_output_placeholders r' = num_output_placeholders r - Z.of_nat (length ts);
  ay_plain : plain config r';
  ay_verdict : if stopped then is_finished (status r') = true
    else status r' = status r ∧ num_tokens r' < max_model_len config
}.

Lemma async_of_updated ts stopped r r' :
  updated config ts stopped r r' →
  async_updated ts stopped r (set_placeholders (num_output_placeholders r' - Z.of_nat (length ts)) r').
Proof.
  intros [U1 U2 U3 U4 U5 U6 U7 U8]. split; try done; simpl; [by eapply req_ok_view; [..|exact U3]|by rewrite U6].
Qed.

Lemma async_updated_memo ts stopped r r' c :
  req_ok (set_embeds_cache c r') → async_updated ts stopped r r' → async_updated ts stopped r (set_embeds_cache c r').
Proof. intros Hok [U1 U2 U3 U4 U5 U6 U7]. by split. Qed.

(** The placeholders are enough for the tokens, and the tokens that are cached are the known
    ones but the last. *)
Lemma wp_async_output s id j gens E :
  append_ok config append_tokens → gens ≠ [] → requests s !! id = Some j → discard_latest_async_tokens j = false →
  request_id (req j) = id → req_ok (req j) → plain config (req j) → kv_good (kv_cache_manager s) → 1 ≤ num_tokens (req j) →
  Z.of_nat (length gens) ≤ num_output_placeholders (req j) →
  (status (req j) = RUNNING → num_computed_tokens (req j) = num_tokens (req j) + num_output_placeholders (req j) - 1 ∧
     covered (kv_cache_manager s) id (num_computed_tokens (req j))) →
  wp (async_update_request_with_output config append_tokens id gens) (λ x s', ∃ k r kv,
    s' = with_kv kv (set_requests (insert id (on_req (λ _, r) j)) s) ∧
    (0 < k)%nat ∧ x.1 = take k gens ∧ (x.2 = false → k = length gens) ∧ async_updated (take k gens) x.2 (req j) r ∧
    kv_good kv ∧ spares config id (kv_cache_manager s) kv ∧
    (∀ m, covered (kv_cache_manager s) id m → covered kv id m) ∧ (status (req j) ≠ RUNNING → kv = kv_cache_manager s)) E s.
Proof.
  intros Ha Hne Hj Hd Hid Hok Hpl Hkv Htok Hph Hrun. unfold async_update_request_with_output.
  apply wp_bind, (wp_get_job s id j); [done|]. rewrite Hd. apply wp_bind. eapply wp_on_job; [done|].
  eapply wp_call; [by apply wp_update_request|]. intros [ts stopped] r1 (k & Hk & Hup & Hts & Hall). simpl in Hup, Hts, Hall. subst ts.
  pose proof (async_of_updated _ _ _ _ Hup) as Hup2. set (r2 := set_placeholders _ r1) in Hup2.
  assert (Z.of_nat (length (take k gens)) ≤ Z.of_nat (length gens)) as Hlen by (rewrite length_take; lia).
  set (s1 := set_requests (insert id (on_req (λ _, r1) j)) s). apply wp_bind, wp_upd_job.
  assert (set_requests (alter (on_req (λ r, set_placeholders (num_output_placeholders r - Z.of_nat (length (take k gens))) r)) id) s1 =
    set_requests (insert id (on_req (λ _, r2) j)) s) as ->.
  { unfold s1, set_requests. simpl. rewrite (alter_known _ id (on_req (λ _, r1) j)) by apply lookup_insert_eq. by rewrite insert_insert_eq. }
  clear s1. set (s2 := set_requests _ s). assert (requests s2 !! id = Some (on_req (λ _, r2) j)) as Hj2 by apply lookup_insert_eq.
  apply wp_bind, (wp_get_job s2 id _ _ _ Hj2). simpl req. pose proof (ay_pending _ _ _ _ Hup2) as Hp2.
  apply wp_bind, wp_assert; [lia|]. apply wp_bind. case_bool_decide as Hst.
  - destruct (Hrun Hst) as [Hc Hcov]. apply (wp_kv_call s2 id (on_req (λ _, r2) j)); [done|]. simpl req.
    assert (request_id r2 = id) as Hid2. { destruct (ay_key _ _ _ _ Hup2) as [<- _]. done. }
    assert (num_tokens r2 = num_tokens (req j) + Z.of_nat (length (take k gens))) as Ht2.
    { unfold num_tokens. rewrite (ay_all _ _ _ _ Hup2), length_app. lia. }
    pose proof (ay_computed _ _ _ _ Hup2) as Hc2.
    eapply wp_mono; [apply promise_cache; [done|apply Hup2| |lia]| |by intros ? ? []].
    { rewrite Hid2. eapply covered_le; [exact Hcov|lia]. }
    intros [] [kv r3] (P1 & [c Hr3] & P3 & P4 & P5). simpl in *. subst r3. rewrite Hid2 in P4, P5. wp_steps.
    exists k, (set_embeds_cache c r2), kv. split_and!; try done; [|by apply async_updated_memo].
    unfold kv_after, with_kv, set_requests. simpl. f_equal. rewrite (alter_known _ id (on_req (λ _, r2) j)) by done. by rewrite insert_insert_eq.
  - wp_steps. exists k, r2, (kv_cache_manager s). split_and!; try done.
Qed.

(** Rejected drafts are taken back from the placeholders, and from the computed tokens unless
    these were given up in a preemption. *)
Definition rejected (drafts gens : list Z) : Z := Z.of_nat (length drafts) + 1 - Z.of_nat (length gens).
Lemma async_take_back drafts gens r :
  gens ≠ [] → (length gens ≤ length drafts + 1)%nat → 1 + Z.of_nat (length drafts) ≤ num_output_placeholders r →
  take_back drafts gens r = set_placeholders (num_output_placeholders r - rejected drafts gens)
    (set_computed (if 0 <? num_computed_tokens r then num_computed_tokens r - rejected drafts gens else num_computed_tokens r) r).
Proof.
  intros Hne Hle Hph. unfold take_back, rejected. destruct gens as [|g gens]; [done|]. destruct drafts as [|d drafts].
  - destruct gens; [|simpl in Hle; lia]. simpl. rewrite !Z.sub_0_r. destruct r. simpl. by destruct (_ <? _).
  - simpl length in *. replace (Z.of_nat (S (length drafts)) - (Z.of_nat (S (length gens)) - 1))
      with (Z.of_nat (S (length drafts)) + 1 - Z.of_nat (S (length gens))) by lia.
    set (rej := Z.of_nat (S (length drafts)) + 1 - Z.of_nat (S (length gens))). destruct (0 <? num_computed_tokens r) eqn:Hc; simpl.
    + rewrite (proj2 (Z.ltb_lt _ _)) by (simpl in *; lia). done.
    + rewrite (proj2 (Z.ltb_lt _ _)) by (simpl in *; lia). by destruct r.
Qed.

(** ** The pipeline without one request *)

Lemma owed_other id x n todo drafts sm : x ≠ id → owed x (mkFlight ((id, n) :: todo) drafts sm) = owed x (mkFlight todo drafts sm).
Proof.
  intros Hx. unfold owed. simpl. apply decide_ext. csimpl. rewrite elem_of_cons. naive_solver.
Qed.

Lemma flight_ok_tail id n todo drafts sm : flight_ok (mkFlight ((id, n) :: todo) drafts sm) → flight_ok (mkFlight todo drafts sm) ∧ id ∉ keys todo.
Proof.
  intros [F1 F2]. simpl in *. csimpl in F1. apply NoDup_cons in F1 as [F1 F3]. split; [|done]. split; [done|]. simpl.
  intros x m Hx. apply (F2 x). rewrite decide_False; [done|]. intros ->. apply F1. by eapply od_get_in.
Qed.

(** The head of the pipeline is answered for one request more. *)
Lemma pipeline_answered id n todo drafts sm rest s s' :
  pipeline config (mkFlight ((id, n) :: todo) drafts sm :: rest) s → inv s' → fresh config s' → prev_ok s' →
  (∀ x, x ≠ id → requests s' !! x = requests s !! x) → (∀ x, x ≠ id → x ∈ waiting_ids s → x ∈ waiting_ids s') →
  (∀ j', requests s' !! id = Some j' → expecting config rest id j' ∧ ∃ j, requests s !! id = Some j ∧ status (req j') = status (req j) ∧
     (id ∈ waiting_ids s → id ∈ waiting_ids s')) →
  pipeline config (mkFlight todo drafts sm :: rest) s'.
Proof.
  intros [P1 P2 P3 P4 P5 P6 P7] Hi Hf Hp Hoth Hwait Hid. apply Forall_cons in P5 as [F1 F2].
  destruct (flight_ok_tail _ _ _ _ _ F1) as [F3 F4]. split; try done.
  - intros x j' Hj'. destruct (decide (x = id)) as [->|Hx].
    + destruct (Hid j' Hj') as [(X1 & X2 & X3 & X4) _]. split_and!; try done. simpl. rewrite X3, owed_absent by done. lia.
    + rewrite Hoth in Hj' by done. destruct (P4 x j' Hj') as (X1 & X2 & X3 & X4). split_and!; try done. rewrite X3. simpl. by rewrite owed_other.
  - by apply Forall_cons.
  - intros f x j' Hin Hx Hj'.
    assert (∃ f', f' ∈ mkFlight ((id, n) :: todo) drafts sm :: rest ∧ x ∈ keys (fl_num f')) as (f' & Hf' & Hx').
    { apply elem_of_cons in Hin as [->|Hin]; [|exists f; split; [by right|done]]. eexists. split; [by left|]. simpl. csimpl. by right. }
    destruct (decide (x = id)) as [->|Hne].
    + destruct (Hid j' Hj') as (_ & j & Hj & -> & Hw). destruct (P6 f' id j Hf' Hx' Hj); auto.
    + rewrite Hoth in Hj' by done. destruct (P6 f' x j' Hf' Hx' Hj'); auto.
  - intros f x j' Hl Hx Hj'.
    assert (∃ f', last (mkFlight ((id, n) :: todo) drafts sm :: rest) = Some f' ∧ x ∈ keys (fl_num f')) as (f' & Hf' & Hx').
    { destruct rest as [|f2 rest]; [|exists f; by rewrite last_cons_cons in Hl |- *]. injection Hl as <-. eexists. split; [done|]. simpl. csimpl. by right. }
    destruct (decide (x = id)) as [->|Hne].
    + destruct (Hid j' Hj') as (_ & j & Hj & -> & _). by eapply P7.
    + rewrite Hoth in Hj' by done. by eapply P7.
Qed.

(** Requests have gone, and the cache holds nothing of theirs. *)
Lemma pipeline_removed fls ids s s' k :
  pipeline config fls s → removed ids s s' → kv_good k → (∀ x, x ∈ ids → absent k x) →
  (∀ x, x ∉ ids → spared config (kv_cache_manager s) k x) →
  prev_step_scheduled_req_ids s' = prev_step_scheduled_req_ids s → pipeline config fls (with_kv k s').
Proof.
  intros [P1 P2 P3 P4 P5 P6 P7] Hrm Hk Ha Hsp Hprev.
  pose proof (inv_removed config ids s s' P1 Hrm) as Hi. destruct Hrm as [R1 R2 R3 R4 R5 R6 R7].
  assert (∀ x j, requests s' !! x = Some j → x ∉ ids ∧ requests s !! x = Some j) as Hlook.
  { intros x j. rewrite R1. by case_decide. }
  split; try done.
  - apply inv_elsewhere; try done. intros x j Hj. destruct (Hlook x j Hj) as [Hx _]. rewrite R6. by apply Hsp.
  - intros x. simpl. rewrite R1. case_decide as Hx; [by intros _; apply Ha|]. intros Hn. apply Hsp; [done|]. by apply P2.
  - intros x j. simpl. rewrite Hprev. intros [_ Hj]%Hlook. by apply P3.
  - intros x j [_ Hj]%Hlook. by apply P4.
  - intros f x j Hf Hx [Hno Hj]%Hlook. destruct (P6 f x j Hf Hx Hj); [by left|right]. by apply R7.
  - intros f x j Hf Hx [_ Hj]%Hlook. by eapply P7.
Qed.

Lemma pipeline_same fls s s' :
  pipeline config fls s → requests s' = requests s → waiting s' = waiting s → skipped_waiting s' = skipped_waiting s →
  running s' = running s → prev_step_scheduled_req_ids s' = prev_step_scheduled_req_ids s →
  kv_cache_manager s' = kv_cache_manager s → pipeline config fls s'.
Proof.
  destruct s, s'; simpl. intros [P1 P2 P3 P4 P5 P6 P7] -> -> -> -> -> ->. split; try done. destruct P1. by split.
Qed.
(** A request goes on with one answer less outstanding. *)
Lemma pipeline_goes_on id n todo drafts sm rest s j j' k :
  pipeline config (mkFlight ((id, n) :: todo) drafts sm :: rest) s → requests s !! id = Some j →
  same_key (req j) (req j') → status (req j') = status (req j) → job_ok config id j' → expecting config rest id j' →
  kv_good k → spares config id (kv_cache_manager s) k →
  (status (req j) = RUNNING → 0 ≤ num_computed_tokens (req j') ∧ covered k id (num_computed_tokens (req j'))) →
  (status (req j) ≠ RUNNING → num_computed_tokens (req j') = num_computed_tokens (req j) ∧ k = kv_cache_manager s) →
  pipeline config (mkFlight todo drafts sm :: rest) (with_kv k (set_requests (insert id j') s)).
Proof.
  intros Hp Hj Hkey Hst Hok Hex Hk Hsp Hrun Hwait. pose proof Hp as [P1 P2 P3 P4 P5 P6 P7].
  apply (pipeline_answered id n _ _ _ _ s); try done.
  - eapply (inv_move config s _ id j j'); try done; sched_parts.
    + by destruct Hkey as (_ & <- & _).
    + intros Hin. destruct (si_running _ _ P1 id j Hin Hj) as [R1 R2 R3]. destruct (Hrun R1) as [C1 C2].
      destruct Hex as (_ & _ & _ & X4). rewrite Hst, R1 in X4. destruct (X4 eq_refl) as (_ & _ & ?). split; [by rewrite Hst|lia|done].
    + intros e He Heq. destruct (si_queued _ _ P1 e He) as (j2 & Hj2 & Hk2 & [Q1 Q2 Q3]). rewrite Heq, Hj in Hj2. injection Hj2 as <-.
      destruct (Hwait (proj1 Q1)) as [C1 C2]. split; [by eapply same_key_trans|]. split; [by rewrite Hst|by rewrite C1|].
      destruct Hkey as (<- & _). simpl. by rewrite C2.
  - by eapply (fresh_insert config s _ id j).
  - intros x jx. simpl. destruct (decide (id = x)) as [<-|Hne].
    + rewrite lookup_insert_eq. intros [= <-]. rewrite Hst. by apply (P3 id j).
    + rewrite lookup_insert_ne by done. apply P3.
  - intros x Hx. simpl. by rewrite lookup_insert_ne.
  - intros jx. simpl. rewrite lookup_insert_eq. intros [= <-]. split; [done|]. by exists j.
Qed.

(** A request leaves. *)
Lemma pipeline_leaves id n todo drafts sm rest s s' k :
  pipeline config (mkFlight ((id, n) :: todo) drafts sm :: rest) s → removed [id] s s' → kv_good k → absent k id →
  spares config id (kv_cache_manager s) k → prev_step_scheduled_req_ids s' = prev_step_scheduled_req_ids s →
  pipeline config (mkFlight todo drafts sm :: rest) (with_kv k s').
Proof.
  intros Hp Hrm Hk Ha Hsp Hprev.
  assert (pipeline config (mkFlight ((id, n) :: todo) drafts sm :: rest) (with_kv k s')) as Hp'.
  { eapply pipeline_removed; try done; [by intros x ->%list_elem_of_singleton|].
    intros x Hx. rewrite list_elem_of_singleton in Hx. by apply Hsp. }
  eapply pipeline_answered; [exact Hp'|apply Hp'..|done|done|]. intros j'. simpl.
  rewrite (rm_requests _ _ _ Hrm), decide_True by by left. done.
Qed.

(** ** The update *)

Definition with_waiting (q : Q) s : SC :=
  mkScheduler (requests s) q (skipped_waiting s) (running s) (finished_req_ids s) (prev_step_scheduled_req_ids s)
    (pause_state s) (kv_cache_manager s).

(** The state as it will be when the stopped requests have left the lists. *)
Definition async_view (q : Q) (u : Update) s : SC := with_waiting q (view u s).
Definition without_stopped (u : Update) s (q : Q) : Prop :=
  queue_inv q ∧ contents q ≡ₚ filter (not_among (stopped_preempted_reqs u)) (contents (waiting s)).

Record async_update_inv (fls : list flight) (u : Update) s : Prop := {
  au_nodup : NoDup (running s);
  au_queue : queue_inv (waiting s);
  au_pipeline : ∀ q, without_stopped u s q → pipeline config fls (async_view q u s)
}.

Lemma some_view fls u s : async_update_inv fls u s → ∃ q, without_stopped u s q.
Proof.
  intros [_ Hq _]. destruct (wp_run _ _ _ (law_removes (waiting s) (stopped_preempted_reqs u) Hq)) as ([] & q & _ & H1 & H2). by exists q.
Qed.

(** A running request stops. *)
Lemma async_stopped_running id n todo drafts sm rest u u' s j2 k k' :
  async_update_inv (mkFlight ((id, n) :: todo) drafts sm :: rest) u s → id ∈ running (view u s) →
  stopped_running_reqs u' = stopped_running_reqs u ++ [id] → stopped_preempted_reqs u' = stopped_preempted_reqs u →
  kv_good k' → absent k' id → spares config id (kv_cache_manager s) k' →
  async_update_inv (mkFlight todo drafts sm :: rest) u' (freed (with_kv k (set_requests (insert id j2) s)) id k').
Proof.
  intros [A1 A2 A3] Hin Hu Hu' Hk Ha Hsp. split; try done. intros q [Hq1 Hq2]. rewrite Hu' in Hq2. simpl in Hq2.
  specialize (A3 q (conj Hq1 Hq2)).
  set (sr := mkScheduler (delete id (requests s)) q (skipped_waiting s) (filter (.∉ [id]) (running (view u s)))
    (finished_req_ids s ∪ {[id]}) (prev_step_scheduled_req_ids s) (pause_state s) (kv_cache_manager s)).
  assert (async_view q u' (freed (with_kv k (set_requests (insert id j2) s)) id k') = with_kv k' sr) as ->.
  { unfold async_view, with_waiting, view, freed, with_kv, sr, set_running, set_requests. simpl. rewrite delete_insert_eq. f_equal.
    rewrite Hu, !remove_all_filter by done. rewrite list_filter_filter. apply list_filter_iff. intros x.
    rewrite not_elem_of_app. tauto. }
  apply (pipeline_leaves id n _ _ _ _ (async_view q u s)); try done. pose proof (pl_inv _ _ _ A3) as Hi.
  split; try done; [|..|apply Hi].
  - intros x. simpl. destruct (decide (id = x)) as [<-|Hne]; [by rewrite lookup_delete_eq, decide_True by by left|].
    rewrite lookup_delete_ne by done. rewrite decide_False; [done|]. rewrite list_elem_of_singleton. congruence.
  - unfold queued. simpl. rewrite filter_all; [done|]. intros e He. rewrite list_elem_of_singleton. intros <-.
    apply (running_not_queued config (async_view q u s) (request_id e) Hi Hin). by apply list_elem_of_fmap_2.
Qed.
(** Object identity agrees with the ids of the queued requests. *)
Lemma queued_object s e id j :
  inv s → requests s !! id = Some j → e ∈ queued (extra := []) s → obj_id e = obj_id (req j) ↔ request_id e = id.
Proof.
  intros Hs Hj He. destruct (si_queued _ _ Hs e He) as (je & Hje & (K1 & K2 & _) & _). rewrite K2. split.
  - intros Ho. by apply (si_objects _ _ Hs _ _ _ _ Hje Hj).
  - intros Hid. rewrite Hid, Hj in Hje. by injection Hje as <-.
Qed.

(** A request that was preempted stops. *)
Lemma async_stopped_preempted id n todo drafts sm rest u u' s j j2 r k k' :
  async_update_inv (mkFlight ((id, n) :: todo) drafts sm :: rest) u s → requests s !! id = Some j → status (req j) ≠ RUNNING →
  stopped_running_reqs u' = stopped_running_reqs u → stopped_preempted_reqs u' = stopped_preempted_reqs u ++ [r] →
  obj_id r = obj_id (req j) → kv_good k' → absent k' id → spares config id (kv_cache_manager s) k' →
  async_update_inv (mkFlight todo drafts sm :: rest) u' (freed (with_kv k (set_requests (insert id j2) s)) id k').
Proof.
  intros Hau Hj Hst Hu Hu' Hobj Hk Ha Hsp. destruct (some_view _ _ _ Hau) as (q0 & Hq0). destruct Hau as [A1 A2 A3].
  specialize (A3 q0 Hq0). destruct Hq0 as [Hqi Hq0]. split; try done. intros q [Hq1 Hq2]. rewrite Hu' in Hq2. simpl in Hq2.
  set (V := async_view q0 u s) in *. pose proof (pl_inv _ _ _ A3) as Hi. assert (requests V !! id = Some j) as HjV by done.
  assert (id ∈ waiting_ids V) as Hw.
  { destruct (pl_place _ _ _ A3 (mkFlight ((id, n) :: todo) drafts sm) id j) as [?|?]; try done; [by left|simpl; csimpl; by left]. }
  assert (id ∉ running V) as Hnr. { intros Hin. apply Hst. by apply (si_running _ _ Hi id j). }
  assert (∀ e, e ∈ contents (skipped_waiting V) → request_id e ≠ id) as Hsk.
  { intros e He Heq. pose proof (si_nodup _ _ Hi) as Hnd. unfold all_ids, queued in Hnd. rewrite !fmap_app in Hnd.
    apply NoDup_app in Hnd as (_ & _ & Hnd). apply NoDup_app in Hnd as (_ & Hd & _). apply (Hd id Hw).
    rewrite app_nil_r, <-Heq. by apply list_elem_of_fmap_2. }
  assert (contents q ≡ₚ filter (λ e, request_id e ∉ [id]) (contents q0)) as Hqq.
  { rewrite Hq2, Hq0, list_filter_filter. apply Permutation_refl', filter_ext_in. intros e He. unfold not_among. rewrite fmap_app, not_elem_of_app. csimpl.
    rewrite !list_elem_of_singleton, Hobj. split.
    - intros [H1 H2]. split; [|done]. intros Hid. apply H2. apply (queued_object V e id j Hi HjV); [|done].
      unfold queued. apply elem_of_app. left. simpl. rewrite Hq0. by apply list_elem_of_filter.
    - intros [H1 H2]. split; [done|]. intros Ho. apply H1. apply (queued_object V e id j Hi HjV); [|done].
      unfold queued. apply elem_of_app. left. simpl. rewrite Hq0. by apply list_elem_of_filter. }
  set (sr := mkScheduler (delete id (requests s)) q (skipped_waiting s) (running V)
    (finished_req_ids s ∪ {[id]}) (prev_step_scheduled_req_ids s) (pause_state s) (kv_cache_manager s)).
  assert (async_view q u' (freed (with_kv k (set_requests (insert id j2) s)) id k') = with_kv k' sr) as ->.
  { unfold async_view, with_waiting, view, freed, with_kv, sr, V, set_running, set_requests. simpl. by rewrite delete_insert_eq, Hu. }
  apply (pipeline_leaves id n _ _ _ _ V); try done. split; try done; [| | |apply Hi|].
  - intros x. simpl. destruct (decide (id = x)) as [<-|Hne]; [by rewrite lookup_delete_eq, decide_True by by left|].
    rewrite lookup_delete_ne by done. rewrite decide_False; [done|]. rewrite list_elem_of_singleton. congruence.
  - simpl. rewrite filter_all; [done|]. intros x Hx. rewrite list_elem_of_singleton. by intros ->.
  - unfold queued. simpl. rewrite !filter_app, Hqq, (filter_all _ (contents (skipped_waiting s))); [done|].
    intros e He. rewrite list_elem_of_singleton. by apply Hsk.
  - intros x Hx (e & -> & He)%list_elem_of_fmap. apply list_elem_of_fmap. exists e. split; [done|]. simpl. rewrite Hqq. by apply list_elem_of_filter.
Qed.
(** The request object after the rejected drafts were taken back. *)
Lemma taken_back_fields drafts gens r :
  gens ≠ [] → (length gens ≤ length drafts + 1)%nat → 1 + Z.of_nat (length drafts) ≤ num_output_placeholders r →
  let r' := take_back drafts gens r in
  all_token_ids r' = all_token_ids r ∧ same_key r r' ∧ status r' = status r ∧ (plain config r → plain config r') ∧ (req_ok r → req_ok r') ∧
  num_output_placeholders r' = num_output_placeholders r - rejected drafts gens ∧
  num_computed_tokens r' = (if 0 <? num_computed_tokens r then num_computed_tokens r - rejected drafts gens else num_computed_tokens r).
Proof.
  intros H1 H2 H3. simpl. rewrite async_take_back by done. split_and!; try done. intros Hok. by eapply req_ok_view; [..|exact Hok].
Qed.

(** The request of an answer, before the sampled tokens are appended. *)
Record taken_back (rest : list flight) (id : string) (gens : list Z) s (j j1 : Job) : Prop := {
  tb_tokens : all_token_ids (req j1) = all_token_ids (req j);
  tb_key : same_key (req j) (req j1);
  tb_status : status (req j1) = status (req j);
  tb_plain : plain config (req j1);
  tb_ok : req_ok (req j1);
  tb_pending : num_output_placeholders (req j1) = Z.of_nat (length gens) + total_owed id rest;
  tb_running : status (req j) = RUNNING →
    num_computed_tokens (req j1) = num_tokens (req j1) + num_output_placeholders (req j1) - 1 ∧
    num_computed_tokens (req j1) ≤ max_model_len config - 1 ∧ covered (kv_cache_manager s) id (num_computed_tokens (req j1));
  tb_waiting : status (req j) ≠ RUNNING → num_computed_tokens (req j1) = num_computed_tokens (req j)
}.

Lemma queued_computed s id j : inv s → requests s !! id = Some j → status (req j) ≠ RUNNING → num_computed_tokens (req j) = 0.
Proof.
  intros Hi Hj Hst. assert (id ∈ all_ids (extra := []) s) as Hin by (apply (si_dom _ _ Hi); by exists j).
  unfold all_ids in Hin. apply elem_of_app in Hin as [Hin|Hin]; [by destruct (si_running _ _ Hi id j Hin Hj)|].
  apply list_elem_of_fmap in Hin as (e & -> & He). destruct (si_queued _ _ Hi e He) as (j2 & Hj2 & _ & [_ ? _]). congruence.
Qed.

Lemma taken_back_ok id n todo drafts sm rest s j gens :
  pipeline config (mkFlight ((id, n) :: todo) drafts sm :: rest) s → requests s !! id = Some j → id ∈ sm →
  gens ≠ [] → (length gens ≤ length (default [] (od_get id drafts)) + 1)%nat →
  taken_back rest id gens s j (on_req (take_back (default [] (od_get id drafts)) gens) j).
Proof.
  intros Hp Hj Hsm Hne Hle. set (spec := default [] (od_get id drafts)) in *. set (j1 := on_req _ j). pose proof (pl_inv _ _ _ Hp) as Hi.
  destruct (pl_each _ _ _ Hp id j Hj) as (X1 & X2 & X3 & X4). destruct (si_jobs _ _ Hi id j Hj) as [J1 J2 J3 J4 J5].
  assert (owed id (mkFlight ((id, n) :: todo) drafts sm) = 1 + Z.of_nat (length spec)) as Ho.
  { unfold owed. simpl. rewrite decide_True; [done|]. split; [csimpl; by left|done]. }
  simpl in X3. rewrite Ho in X3. pose proof (total_owed_nonneg id rest) as HT.
  destruct (taken_back_fields spec gens (req j) Hne Hle ltac:(lia)) as (B1 & B2 & B3 & B4 & B5 & B6 & B7).
  change (take_back spec gens (req j)) with (req j1) in *. unfold rejected in B6, B7.
  assert (num_tokens (req j1) = num_tokens (req j)) as Ht1 by (unfold num_tokens; by rewrite B1).
  split; try done; [by apply B4|by apply B5|lia| |].
  - intros Hst. destruct (X4 Hst) as (S1 & S2 & S3). specialize (S2 ltac:(lia)). rewrite (proj2 (Z.ltb_lt _ _)) in B7 by lia.
    assert (id ∈ running s) as Hin by by apply (unfinished config s id j Hi Hj). destruct (si_running _ _ Hi id j Hin Hj) as [_ _ Hcov].
    split_and!; [lia|lia|]. eapply covered_le; [exact Hcov|lia].
  - intros Hst. pose proof (queued_computed s id j Hi Hj Hst) as H0. by rewrite H0 in *.
Qed.

(** The answer for one request that was sampled. *)
Lemma wp_async_sampled id n todo drafts sm rest u s j gens E :
  append_ok config append_tokens → async_update_inv (mkFlight ((id, n) :: todo) drafts sm :: rest) u s → requests s !! id = Some j → id ∈ sm →
  gens ≠ [] → (length gens ≤ length (default [] (od_get id drafts)) + 1)%nat →
  let j1 := on_req (take_back (default [] (od_get id drafts)) gens) j in
  wp (async_update_request_with_output config append_tokens id gens) (λ x s', ∃ r kv,
    s' = with_kv kv (set_requests (insert id (on_req (λ _, r) j)) s) ∧ request_id r = id ∧ obj_id r = obj_id (req j) ∧
    kv_good kv ∧ spares config id (kv_cache_manager s) kv ∧
    if x.2 : bool then is_finished (status r) = true
    else async_update_inv (mkFlight todo drafts sm :: rest) u s') E (set_requests (insert id j1) s).
Proof.
  intros Ha Hau Hj Hsm Hne Hle j1. destruct (some_view _ _ _ Hau) as (q0 & Hq0). pose proof Hau as [A1 A2 A3].
  pose proof (A3 q0 Hq0) as Hp. pose proof (pl_inv _ _ _ Hp) as Hi. destruct (pl_each _ _ _ Hp id j Hj) as (X1 & X2 & _ & _).
  destruct (si_jobs _ _ Hi id j Hj) as [J1 J2 J3 J4 J5]. pose proof (total_owed_nonneg id rest) as HT.
  pose proof (taken_back_ok id n todo drafts sm rest _ j gens Hp Hj Hsm Hne Hle) as [B1 B2 B3 B4 B5 B6 B7 B8]. fold j1 in B1, B2, B3, B4, B5, B6, B7, B8.
  assert (num_tokens (req j1) = num_tokens (req j)) as Ht1 by (unfold num_tokens; by rewrite B1).
  eapply wp_call; [apply (wp_async_output _ id j1 gens); try done|].
  - apply lookup_insert_eq.
  - destruct B2 as [B2 _]. congruence.
  - apply Hi.
  - lia.
  - lia.
  - rewrite B3. intros Hst. destruct (B7 Hst) as (C1 & _ & C2). done.
  - intros [ts stopped] s' (k & r & kv & -> & Hk & Hts & Hall & [Y1 Y2 Y3 Y4 Y5 Y6 Y7] & K1 & K2 & K3 & K4). cbn [snd] in Hall, Y7.
    change (kv_cache_manager (set_requests _ s)) with (kv_cache_manager s) in *.
    exists r, kv. assert (same_key (req j) r) as Hkey by by eapply same_key_trans. split_and!; [|by destruct Hkey as [<- _]|by destruct Hkey as (_ & <- & _)|done|done|].
    { unfold set_requests, with_kv. simpl. by rewrite insert_insert_eq. }
    simpl. destruct stopped; [done|]. destruct Y7 as [Y7 Y8]. rewrite (Hall eq_refl), firstn_all in *.
    assert (num_tokens r = num_tokens (req j1) + Z.of_nat (length gens)) as Htr by (unfold num_tokens; rewrite Y1, length_app; lia).
    split; try done. intros q Hq.
    replace (async_view q u _) with (with_kv kv (set_requests (insert id (on_req (λ _, r) j)) (async_view q u s)))
      by (unfold async_view, with_waiting, view, set_running, with_kv, set_requests; simpl; by rewrite insert_insert_eq).
    apply (pipeline_goes_on id n _ _ _ _ (async_view q u s) j); cbn [req on_req]; try done; [by apply A3|by rewrite Y7, B3|..].
    + split; cbn [req on_req]; [by destruct Hkey as [<- _]|done|lia|done|lia].
    + split_and!; cbn [req on_req discard_latest_async_tokens]; [done|done|lia|]. rewrite Y7, B3. intros Hst.
      destruct (B7 Hst) as (C1 & C2 & _). unfold steady. lia.
    + intros Hst. destruct (B7 Hst) as (C1 & _ & C2). split; [lia|]. apply K3. by rewrite Y4.
    + intros Hst. rewrite Y4, B8 by done. split; [done|]. apply K4. by rewrite B3.
Qed.

Lemma async_update_same fls u u' s :
  async_update_inv fls u s → stopped_running_reqs u' = stopped_running_reqs u → stopped_preempted_reqs u' = stopped_preempted_reqs u →
  async_update_inv fls u' s.
Proof.
  intros [A1 A2 A3] H1 H2. split; try done. intros q Hq. unfold without_stopped in Hq. rewrite H2 in Hq.
  unfold async_view, view. rewrite H1. by apply A3.
Qed.

(** A request that is not sampled, or not there any more, stays as it is. *)
Lemma async_passed id n todo drafts sm rest u s :
  async_update_inv (mkFlight ((id, n) :: todo) drafts sm :: rest) u s → (is_Some (requests s !! id) → id ∉ sm) →
  async_update_inv (mkFlight todo drafts sm :: rest) u s.
Proof.
  intros [A1 A2 A3] Hno. split; try done. intros q Hq. specialize (A3 q Hq).
  eapply pipeline_answered; [exact A3|apply A3..|done|done|]. intros j Hj.
  destruct (pl_each _ _ _ A3 id j Hj) as (X1 & X2 & X3 & X4). split; [|by exists j]. split_and!; try done. rewrite X3. simpl.
  unfold owed. rewrite decide_False; [lia|]. intros [_ ?]. apply Hno; [by exists j|done].
Qed.

Lemma wp_async_update_one out sampled id n todo sm rest u s E :
  let f := mkFlight ((id, n) :: todo) (out_spec_decode_tokens out) sm in
  append_ok config append_tokens → async_update_inv (f :: rest) u s →
  (∀ j, requests s !! id = Some j → ∃ gens, sampled !! id = Some gens ∧ async_answer_ok f id gens) →
  wp (async_update_one config append_tokens out sampled u (id, n))
    (λ u' s', async_update_inv (mkFlight todo (out_spec_decode_tokens out) sm :: rest) u' s' ∧
       ∀ x, x ≠ id → requests s' !! x = requests s !! x) E s.
Proof.
  intros f Ha Hau Hans. destruct (some_view _ _ _ Hau) as (q0 & Hq0). pose proof (au_pipeline _ _ _ Hau q0 Hq0) as Hp.
  pose proof (pl_inv _ _ _ Hp) as Hi. pose proof (pl_flights _ _ _ Hp) as Hfl. apply Forall_cons in Hfl as [Hf _].
  assert (0 < n) as Hn. { apply (fo_positive _ Hf id). simpl. by rewrite decide_True. }
  unfold async_update_one, update_one_with. apply wp_bind, wp_assert; [lia|]. wp_steps.
  destruct (requests s !! id) as [j|] eqn:Hj.
  2: { wp_steps. split; [|done]. eapply async_passed; [done|]. rewrite Hj. by intros [? ?]. }
  destruct (unfinished config (async_view q0 u s) id j Hi Hj) as (-> & Hrun & _).
  destruct (Hans j eq_refl) as (gens & Hg & Hok). apply wp_bind. eapply wp_from_option; [exact Hg|].
  apply wp_bind, wp_upd_job. unfold async_answer_ok in Hok. simpl in Hok. set (drafts := out_spec_decode_tokens out) in *.
  case_decide as Hsm.
  - destruct Hok as [Hne Hle]. unfold set_requests at 1. rewrite (alter_known _ id j) by done.
    fold (set_requests (insert id (on_req (take_back (default [] (od_get id drafts)) gens) j)) s).
    apply wp_bind. destruct gens as [|g gens]; [done|].
    eapply wp_call; [by apply (wp_async_sampled id n todo drafts sm rest u s j (g :: gens))|].
    intros [ids stopped] s1 (r & kv & -> & Hid & Hobj & K1 & K2 & Hres). simpl in Hres.
    assert (∀ x, x ≠ id → requests (with_kv kv (set_requests (insert id (on_req (λ _, r) j)) s)) !! x = requests s !! x) as Hoth.
    { intros x Hx. simpl. by rewrite lookup_insert_ne. }
    apply wp_bind. eapply wp_get_job; [apply lookup_insert_eq|]. apply wp_bind. destruct stopped.
    + eapply (wp_sched_free_request config _ id); [done|apply lookup_insert_eq|done|done|]. intros k' F1 F2 F3. wp_steps. split.
      2: { intros x Hx. simpl. by rewrite lookup_delete_ne, lookup_insert_ne by done. }
      assert (spares config id (kv_cache_manager s) k') as Hsp.
      { intros x Hx. destruct (K2 x Hx), (F3 x Hx). split; auto. }
      destruct (decide (status (req j) = RUNNING)) as [Hst|Hst].
      * eapply async_stopped_running; try done; [by apply Hrun|..]; simpl; by rewrite bool_decide_true.
      * eapply (async_stopped_preempted id n _ _ _ _ u _ s j _ r); try done; simpl; by rewrite bool_decide_false.
    + wp_steps. split; [|done]. by eapply async_update_same.
  - subst gens. assert (take_back (default [] (od_get id drafts)) [] = λ r, r) as Htb by (by destruct (default [] (od_get id drafts))).
    rewrite Htb. assert (set_requests (alter (on_req (λ r, r)) id) s = s) as ->.
    { unfold set_requests. rewrite (alter_known _ id j) by done. rewrite insert_id; [by destruct s|]. rewrite Hj. by destruct j. }
    wp_steps. eapply wp_get_job; [done|]. wp_steps. split; [|done]. eapply (async_update_same _ u); [|done|done]. apply (async_passed id n _ _ _ _ _ _ Hau). by intros _.
Qed.

(** Queues with the same requests are as good. *)
Lemma pipeline_requeue fls s q :
  pipeline config fls s → queue_inv q → contents q ≡ₚ contents (waiting s) → pipeline config fls (with_waiting q s).
Proof.
  intros [P1 P2 P3 P4 P5 P6 P7] Hq Hc. split; try done.
  - eapply (inv_requeue config); [exact P1|done|apply P1|unfold queued; simpl; by rewrite Hc|done..].
  - intros f id j Hf Hid Hj. destruct (P6 f id j Hf Hid Hj); [by left|]. right. unfold waiting_ids in *. simpl. by rewrite Hc.
Qed.

(** An output without requests is answered. *)
Lemma pipeline_drop drafts sm rest s : pipeline config (mkFlight [] drafts sm :: rest) s → pipeline config rest s.
Proof.
  intros [P1 P2 P3 P4 P5 P6 P7]. apply Forall_cons in P5 as [_ P5]. split; try done.
  - intros f id j Hf. apply P6. by right.
  - intros f id j Hl. apply P7. destruct rest; [done|]. by rewrite last_cons_cons.
Qed.

(** The answer covers every request that is still there. *)
Definition async_answers (out : SchedulerOutput) (sm : gset string) (sampled : gmap string (list Z)) s : Prop :=
  ∀ id n j, od_get id (out_num_scheduled_tokens out) = Some n → requests s !! id = Some j →
    ∃ gens, sampled !! id = Some gens ∧ async_answer_ok (mkFlight (out_num_scheduled_tokens out) (out_spec_decode_tokens out) sm) id gens.

Lemma wp_async_update out sampled sm rest s E :
  append_ok config append_tokens →
  pipeline config (mkFlight (out_num_scheduled_tokens out) (out_spec_decode_tokens out) sm :: rest) s → async_answers out sm sampled s →
  wp (async_update_from_output config append_tokens out sampled) (λ _ s', pipeline config rest s') E s.
Proof.
  intros Ha Hp Hans. unfold async_update_from_output, update_from_output_with. apply wp_bind.
  pose proof (pl_flights _ _ _ Hp) as Hfl. apply Forall_cons in Hfl as [[Hnd _] _]. simpl in Hnd.
  apply (wp_for_fold (λ dn u s', ∀ todo, out_num_scheduled_tokens out = dn ++ todo →
    async_update_inv (mkFlight todo (out_spec_decode_tokens out) sm :: rest) u s' ∧ (∀ x, x ∈ keys todo → requests s' !! x = requests s !! x))).
  - intros todo Hd. simpl in Hd. subst todo. split; [|done]. pose proof (pl_inv _ _ _ Hp) as Hi. split; [by apply (running_nodup _ _ Hi)|apply Hi|].
    intros q [Hq1 Hq2]. simpl in Hq2. rewrite (filter_all (not_among []) (contents (waiting s))) in Hq2 by (intros; apply not_elem_of_nil).
    unfold async_view, view. simpl. replace (set_running _ s) with s by (by destruct s). by apply pipeline_requeue.
  - intros dn [id n] todo u s' Hd IH. destruct (IH _ Hd) as (Hu & Hsame).
    assert (NoDup (keys ((id, n) :: todo))) as Hnd' by (rewrite Hd, fmap_app in Hnd; by apply NoDup_app in Hnd as (_ & _ & ?)).
    csimpl in Hnd'. apply NoDup_cons in Hnd' as [Hno _].
    eapply wp_call; [apply (wp_async_update_one out sampled id n todo sm rest u s' _ Ha Hu)|].
    { intros j Hj. rewrite Hsame in Hj by (csimpl; by left). destruct (Hans id n j) as (gens & Hg & Hok); [|done|by exists gens].
      rewrite Hd. apply od_get_Some; [by rewrite <-Hd|in_list]. }
    intros u' s2 [Hu' Hreq] todo' Ht. rewrite <-app_assoc in Ht. rewrite Hd in Ht. apply app_inv_head in Ht. injection Ht as <-.
    split; [done|]. intros x Hx. rewrite Hreq by (intros ->; done). apply Hsame. csimpl. by right.
  - intros u s' Hfin. destruct (Hfin []) as [[F1 F2 F3] _]; [by rewrite app_nil_r|]. wp_steps.
    apply (wp_call _ (λ _ s2, ∃ q, without_stopped u s' q ∧ s2 = async_view q u s')).
    + destruct (stopped_preempted_reqs u) as [|r rs] eqn:Hpre.
      * wp_steps. exists (waiting s'). split; [|by destruct s']. split; [done|]. rewrite Hpre.
        rewrite (filter_all (not_among []) (contents (waiting s'))); [done|]. intros; apply not_elem_of_nil.
      * apply wp_zoom. eapply wp_mono; [apply law_removes, F2| |by intros ? ? []]. intros [] q [H1 H2].
        exists q. split; [split; [done|by rewrite Hpre]|done].
    + intros [] s2 (q & Hq & ->). wp_steps. eapply pipeline_drop. by apply F3.
Qed.
End async_update.
