(* ===== verification/AsyncSteps.v ===== *)
(** The asynchronous scheduler over time: the engine core schedules a step while the answer to
    the previous one is outstanding and handles the answers oldest first
    ([EngineCore.step_with_batch_queue] with the two concurrent batches of asynchronous
    scheduling). No call fails in any reachable state; a forced preemption with an answer
    outstanding, which is not among these calls, breaks the counts. *)
From S2P Require Import Prelude.
From S2P Require Import Dict.
From S2P Require Import Request.
From S2P Require Import StopCheck.
From S2P Require Import RequestQueue.
From S2P Require Import BlockHash.
From S2P Require Import FreeQueue.
From S2P Require Import BlockMap.
From S2P Require Import BlockPool.
From S2P Require Import PoolSteps.
From S2P Require Import Manager.
From S2P Require Import ManagerInv.
From S2P Require Import CacheHit.
From S2P Require Import Coordinator.
From S2P Require Import KVCacheManager.
From S2P Require Import HitSpecs.
From S2P Require Import HybridHit.
From S2P Require Import CoordinatorInv.
From S2P Require Import KVSteps.
From S2P Require Import Admission.
From S2P Require Import Scheduler.
From S2P Require Import SchedulerInv.
From S2P Require Import SchedulerStep.
From S2P Require Import SchedulerWait.
From S2P Require Import SchedulerMain.
From S2P Require Import SchedulerUpdate.
From S2P Require Import SchedulerCalls.
From S2P Require Import SchedulerKV.
From S2P Require Import SchedulerSteps.
From S2P Require Import AsyncScheduler.
From S2P Require Import AsyncUpdate.
Local Open Scope Z_scope.

(** An output in flight with the requests it samples for. *)
Abbreviation batch := (SchedulerOutput * gset string)%type.
Definition flights (bs : list batch) : list flight :=
  (λ b, mkFlight (out_num_scheduled_tokens b.1) (out_spec_decode_tokens b.1) b.2) <$> bs.

Section async_steps.
Context {Q : Type} `{HQ : RequestQueueLaws Q} {K : Type} `{!KVCache K}.
Context (config : SchedulerConfig) `{!KVCachePromise K (max_model_len config)}.
Context (empty_queue : Q) (num_spec_tokens : Z) (append_tokens : list Z → M Request bool).
Abbreviation SC := (Scheduler (Q := Q) (K := K)).
Implicit Types s : SC.

(** A request as a front end hands it in while [bs] are in flight. *)
Record async_newcomer (bs : list batch) s (j : Job) : Prop := {
  an_newcomer : newcomer config s j;
  an_length : num_tokens (req j) < max_model_len config;
  an_flag : discard_latest_async_tokens j = false;
  an_unused : ∀ b, b ∈ bs → request_id (req j) ∉ keys (out_num_scheduled_tokens b.1)
}.

(** The engine core's calls, whatever they return or raise. *)
Inductive async_step : list batch * SC → list batch * SC → Prop :=
  | as_add bs s j o s' : async_newcomer bs s j → sched_add_request j s = (o, s') → async_step (bs, s) (bs, s')
  | as_schedule bs s o s' : (length bs < 2)%nat → async_schedule empty_queue config num_spec_tokens s = (o, s') →
      async_step (bs, s) (match o with Ret (Some out) => bs ++ [(out, fl_samples (flight_of out s'))] | _ => bs end, s')
  | as_answer out sm bs sampled s o s' : async_answers out sm sampled s →
      async_update_from_output config append_tokens out sampled s = (o, s') → async_step ((out, sm) :: bs, s) (bs, s')
  | as_finish bs ids st s o s' : NoDup ids → is_finished st = true →
      finish_requests ids st s = (o, s') → async_step (bs, s) (bs, s')
  | as_pause bs p s : async_step (bs, s) (bs, set_pause_state p s)
  | as_reset bs s o s' : sched_reset_prefix_cache false s = (o, s') → async_step (bs, s) (bs, s').

Definition piped (x : list batch * SC) : Prop := pipeline config (flights x.1) x.2.

Lemma piped_add bs s j E :
  piped (bs, s) → requests s !! request_id (req j) = None → async_newcomer bs s j →
  wp (sched_add_request j) (λ _ s', piped (bs, s')) E s.
Proof.
  intros [P1 P2 P3 P4 P5 P6 P7] Hno [N1 N2 N3 N4]. simpl in *. eapply wp_call; [by apply wp_add|]. intros [] s' (H1 & H2 & Ha).
  pose proof (λ x y, added_lookup j s s' x y Ha) as Hlook.
  assert (∀ f, f ∈ flights bs → request_id (req j) ∉ keys (fl_num f)) as Hf.
  { intros f (b & -> & Hb)%list_elem_of_fmap. by apply N4. }
  split; try done.
  - by eapply added_prev.
  - intros x y [[-> ->]|Hy]%Hlook; [|by apply P4]. split_and!; [done|done| |].
    + simpl. rewrite (nc_pending _ _ _ N1). by rewrite total_owed_absent.
    + intros Hst. destruct (nc_status _ _ _ N1); congruence.
  - intros f x y Hin Hx [[-> ->]|Hy]%Hlook; [by destruct (Hf f Hin)|]. destruct (P6 f x y Hin Hx Hy); [by left|right]. by apply (ad_waiting _ _ _ Ha).
  - intros f x y Hl Hx [[-> ->]|Hy]%Hlook; [|by eapply P7]. by destruct (Hf f (last_Some_elem_of _ _ Hl)).
Qed.

Lemma piped_reset bs s E : piped (bs, s) → wp (sched_reset_prefix_cache false) (λ _ s', piped (bs, s')) E s.
Proof.
  intros [P1 P2 P3 P4 P5 P6 P7]. unfold sched_reset_prefix_cache. wp_steps. apply wp_zoom.
  eapply wp_mono; [apply promise_reset, P1| |by intros ? ? []]. intros ok k (K1 & K2 & K3). fold (with_kv k s). simpl. wp_steps. split; try done.
  - by apply inv_spared.
  - intros x Hx. apply K3. by apply P2.
Qed.

Lemma flights_snoc bs (out : SchedulerOutput) s : flights (bs ++ [(out, fl_samples (flight_of out s))]) = flights bs ++ [flight_of out s].
Proof. unfold flights. by rewrite fmap_app. Qed.

Lemma async_step_piped x y :
  config_ok config → empty_ok empty_queue → append_ok config append_tokens → piped x → async_step x y → piped y.
Proof.
  intros Hc He Ha Hx Hs. inversion Hs as [bs s j o s' Hn Hrun|bs s o s' Hl Hrun|out sm bs sampled s o s' Hans Hrun
    |bs ids st s o s' Hnd Hfin Hrun|bs p s|bs s o s' Hrun]; subst.
  - destruct (requests s !! request_id (req j)) as [j'|] eqn:Hj.
    + rewrite (add_known s j) in Hrun by eauto. by injection Hrun as <- <-.
    + by destruct (wp_elim _ _ _ _ _ (piped_add bs s j noexc Hx Hj Hn) Hrun) as (_ & _ & ?).
  - destruct (wp_elim _ _ _ _ _ (wp_async_schedule config empty_queue num_spec_tokens _ s noexc Hc He Hx
      ltac:(unfold flights; rewrite length_fmap; simpl; lia)) Hrun) as (_ & -> & out & -> & ? & _).
    unfold piped. cbn [fst snd]. by rewrite flights_snoc.
  - by destruct (wp_elim _ _ _ _ _ (wp_async_update config append_tokens out sampled sm (flights bs) s noexc Ha Hx Hans) Hrun) as (_ & _ & ?).
  - assert (wp (finish_requests ids st) (finished_all (pipeline config (flights bs)) ids s) noexc s) as Hw.
    { apply (wp_finish_with config); [by intros ? []|intros; by eapply pipeline_removed|intros; by eapply pipeline_same|done..]. }
    by destruct (wp_elim _ _ _ _ _ Hw Hrun) as (_ & _ & [? _ _ _ _]).
  - by eapply (pipeline_same config (flights bs) s).
  - by destruct (wp_elim _ _ _ _ _ (piped_reset bs s noexc Hx) Hrun) as (_ & _ & ?).
Qed.

Lemma init_piped k :
  empty_ok empty_queue → kv_good k → (∀ x, absent k x) → 0 ≤ max_num_running_reqs config →
  piped ([], scheduler_init empty_queue k).
Proof.
  intros He Hk Ha Hm. destruct (init_ready config empty_queue k He Hk Ha Hm) as [R1 R2 R3 R4 R5]. by split.
Qed.

Lemma async_reachable_piped x y :
  config_ok config → empty_ok empty_queue → append_ok config append_tokens → piped x → rtc async_step x y → piped y.
Proof. intros Hc He Ha Hx Hr. induction Hr; [done|]. eauto using async_step_piped. Qed.
End async_steps.

(** ** On the KV cache manager *)

Section async_engine.
Context (specs : list KVCacheSpec) (eagle : bool) (hbs n : Z) (cfg : SchedulerConfig).
Context (search : list bytes → Z → M P (option (columns * Z))).
Context (hash_function : bytes * list Z * option (list extra_key) → bytes) (NONE_HASH : bytes).
Hypothesis Hdep : deployment specs eagle hbs search hash_function NONE_HASH.
Local Instance async_cache : KVCache CO := manager_cache (max_model_len cfg) true search.
Local Instance async_promise : KVCachePromise CO (max_model_len cfg) := manager_promise specs eagle hbs n cfg search hash_function NONE_HASH Hdep.
Context {Q : Type} `{HQ : RequestQueueLaws Q} (empty_queue : Q) (num_spec_tokens : Z).

Definition async_engine_step :=
  async_step (K := CO) cfg empty_queue num_spec_tokens (append_output_token_ids hash_function NONE_HASH (Some hbs)).

Lemma async_engine_piped events ui k0 x :
  config_ok cfg → 0 ≤ max_model_len cfg → empty_ok empty_queue → 0 ≤ max_num_running_reqs cfg → 0 < n → Forall spec_ok specs →
  coord_init specs n true events ui 1 1 hbs = Ret k0 →
  rtc async_engine_step ([], scheduler_init empty_queue k0) x → piped cfg x.
Proof.
  intros Hc Hmml He Hm Hn Hsp Hinit Hr. destruct (init_cache_good specs n events ui hbs cfg k0 Hn Hmml Hsp Hinit) as [Hk Hun].
  eapply async_reachable_piped; [done|done|apply (append_promise specs eagle hbs n cfg search hash_function NONE_HASH Hdep)| |exact Hr].
  by apply init_piped.
Qed.
End async_engine.

(** ** Samples *)

(** A model of twenty tokens with two drafts for every token. *)
Definition wide : SchedulerConfig := mkConfig FCFS 4 8 20 2 0 true false false 2.
Definition wide_blocks : CO := match coord_init two_groups 40 true false false 1 1 2 with Ret s => s | Raise _ => two_groups_init end.
#[local] Instance wide_cache : KVCache CO := manager_cache 20 true two_search.
#[local] Instance wide_promise : KVCachePromise CO (max_model_len wide) :=
  manager_promise two_groups false 2 40 wide two_search sample_hash [] two_deployed.
Definition wide_0 : SF := scheduler_init (mkFCFS []) wide_blocks.
Definition wide_job : Job := fresh_job "a" 1 10 0 [1; 2; 3].
Definition wide_1 : SF := (sched_add_request wide_job wide_0).2.
Abbreviation wide_schedule := (async_schedule (mkFCFS []) wide 2).
Abbreviation wide_answer := (async_update_from_output wide two_append).

(** The prompt is in flight, and then the first token with two drafts behind it. *)
Definition prompt_out : SchedulerOutput := output_of (wide_schedule wide_1).1.
Definition wide_2 : SF := (wide_schedule wide_1).2.
Definition draft_out : SchedulerOutput := output_of (wide_schedule wide_2).1.
Definition wide_3 : SF := (wide_schedule wide_2).2.

(** The answer to the prompt, and a reset while the answer to the drafts is outstanding. *)
Definition wide_4 : SF := (wide_answer prompt_out {[ "a"%string := [7] ]} wide_3).2.
Definition wide_5 : SF := (sched_reset_prefix_cache true wide_4).2.
Definition again_out : SchedulerOutput := output_of (wide_schedule wide_5).1.
Definition wide_6 : SF := (wide_schedule wide_5).2.
Definition wide_7 : SF := (wide_answer draft_out {[ "a"%string := [8] ]} wide_6).2.

Lemma wide_job_new : async_newcomer wide [] wide_0 wide_job.
Proof.
  split; [|vm_compute; done|done|by intros b ?%elem_of_nil]. split; [|by left|done|done|by intros id j'; simpl; rewrite lookup_empty].
  split; [done|apply hashed_good|vm_compute; done| |done]. split; [done|]. eexists. split; [done|]. vm_compute. done.
Qed.

Definition wide_batches : list batch := [(prompt_out, {["a"%string]}); (draft_out, {["a"%string]})].

Lemma wide_3_reached : rtc (async_engine_step two_groups false 2 40 wide two_search sample_hash [] two_deployed (mkFCFS []) 2)
  ([], wide_0) (wide_batches, wide_3).
Proof.
  apply (rtc_l _ _ ([], wide_1)).
  { apply (as_add wide (mkFCFS []) 2 two_append [] wide_0 wide_job (sched_add_request wide_job wide_0).1); [apply wide_job_new|apply surjective_pairing]. }
  apply (rtc_l _ _ ([(prompt_out, {["a"%string]})], wide_2)).
  { assert (wide_schedule wide_1 = (Ret (Some prompt_out), wide_2)) as Hrun by (vm_compute; reflexivity).
    exact (as_schedule wide (mkFCFS []) 2 two_append [] wide_1 _ _ ltac:(simpl; lia) Hrun). }
  apply rtc_once.
  assert (wide_schedule wide_2 = (Ret (Some draft_out), wide_3)) as Hrun by (vm_compute; reflexivity).
  exact (as_schedule wide (mkFCFS []) 2 two_append [(prompt_out, {["a"%string]})] wide_2 _ _ ltac:(simpl; lia) Hrun).
Qed.

Lemma async_answers_single out (s : SF) id t g : out_num_scheduled_tokens out = [(id, t)] → async_answers out {[id]} {[ id := [g] ]} s.
Proof.
  intros Hout x n j. rewrite Hout. simpl. case_decide as Hx; [|done]. intros _ _. subst x. exists [g].
  split; [apply lookup_singleton_eq|]. unfold async_answer_ok. cbn [fl_samples fl_drafts].
  rewrite decide_True by by apply elem_of_singleton. split; [done|]. simpl. lia.
Qed.

Lemma wide_3_answers : async_answers prompt_out {["a"%string]} {[ "a"%string := [7] ]} wide_3.
Proof. apply (async_answers_single prompt_out wide_3 "a"%string 3 7). vm_compute. reflexivity. Qed.

Lemma wide_3_piped : piped wide (wide_batches, wide_3).
Proof.
  apply (async_engine_piped two_groups false 2 40 wide two_search sample_hash [] two_deployed (mkFCFS []) 2 false false wide_blocks);
    [split; simpl; lia|simpl; lia|done|simpl; lia|lia|repeat constructor; simpl; lia|reflexivity|apply wide_3_reached].
Qed.
Definition wide_running : Job := from_option Datatypes.id wide_job (requests wide_3 !! "a"%string).
Lemma wide_running_ok : job_ok wide "a"%string wide_running.
Proof. apply (si_jobs _ _ (pl_inv _ _ _ wide_3_piped) "a"%string). vm_compute. reflexivity. Qed.

(** A prompt of ten tokens for a budget of eight: the reset comes while its first part is in
    flight. *)
Definition long_1 : SF := (sched_add_request (fresh_job "b" 1 5 0 [1; 2; 3; 4; 5; 6; 7; 8; 9; 10]) wide_0).2.
Definition part_out : SchedulerOutput := output_of (wide_schedule long_1).1.
Definition long_2 : SF := (sched_reset_prefix_cache true (wide_schedule long_1).2).2.
Definition redo_out : SchedulerOutput := output_of (wide_schedule long_2).1.
Definition long_3 : SF := (wide_answer part_out {[ "b"%string := [] ]} (wide_schedule long_2).2).2.
Definition rest_out : SchedulerOutput := output_of (wide_schedule long_3).1.
Definition long_4 : SF := (wide_answer redo_out {[ "b"%string := [] ]} (wide_schedule long_3).2).2.

(** ** Properties *)

Lemma bind_ret {St A B} (m : M St A) (f : A → M St B) s a s' : m s = (Ret a, s') → (m ≫= f) s = f a s'.
Proof. intros Hm. unfold mbind, M_bind. by rewrite Hm. Qed.

Lemma get_job_run {Q} `{!RequestQueue Q} {K} `{!KVCache K} (s : Scheduler (Q := Q) (K := K)) id j :
  requests s !! id = Some j → get_job id s = (Ret j, s).
Proof. intros Hj. unfold get_job. rewrite (bind_ret _ _ s (Some j) s); [done|]. unfold gets. by rewrite Hj. Qed.

(** C18: the asynchronous scheduler on the KV cache manager. For any group specs that a caching
    coordinator accepts and that suit its searches, any pool size and number of draft tokens and a
    hash function without collisions, in every state that the engine core's calls can reach with
    at most two steps outstanding, and without a forced reset of the prefix cache while one is:
    the placeholders of every request are the tokens that the outstanding answers may still bring
    it, and a running request that waits for tokens has computed all its known and expected tokens
    but the last; the next step returns within the token budget, with slots in every group for
    what it schedules, also for tokens not yet known; and every admissible answer to the oldest
    output is taken in without an error, whatever was preempted, aborted or added since that
    output was sent. *)
Theorem async_engine_safe specs eagle hbs cfg search hash_function NONE_HASH
    (Hdep : deployment specs eagle hbs search hash_function NONE_HASH)
    {Q} `{HQ : RequestQueueLaws Q} (empty_queue : Q) num_spec_tokens n events ui k0 bs s :
  config_ok cfg → 0 ≤ max_model_len cfg → empty_ok empty_queue → 0 ≤ max_num_running_reqs cfg → 0 < n → Forall spec_ok specs →
  coord_init specs n true events ui 1 1 hbs = Ret k0 →
  rtc (async_engine_step specs eagle hbs n cfg search hash_function NONE_HASH Hdep empty_queue num_spec_tokens)
    ([], scheduler_init empty_queue k0) (bs, s) →
  (∀ id j, requests s !! id = Some j → num_output_placeholders (req j) = total_owed id (flights bs) ∧
     (status (req j) = RUNNING → 0 < num_output_placeholders (req j) →
      num_computed_tokens (req j) = num_tokens (req j) + num_output_placeholders (req j) - 1)) ∧
  ((length bs < 2)%nat → ∃ out s',
     @async_schedule Q _ CO (manager_cache (max_model_len cfg) true search) empty_queue cfg num_spec_tokens s = (Ret (Some out), s') ∧
     sum_tokens (out_num_scheduled_tokens out) ≤ max_num_scheduled_tokens cfg ∧
     ∀ id t, od_get id (out_num_scheduled_tokens out) = Some t → ∃ j, requests s' !! id = Some j ∧ id ∈ running s' ∧
       ∀ i m, single_type_managers (kv_cache_manager s') !! i = Some m →
         num_computed_tokens (req j) ≤ block_size m * Z.of_nat (length (table m id))) ∧
  (∀ out sm rest sampled, bs = (out, sm) :: rest → async_answers out sm sampled s → ∃ outs s',
     @async_update_from_output Q _ CO (manager_cache (max_model_len cfg) true search) cfg
       (append_output_token_ids hash_function NONE_HASH (Some hbs)) out sampled s = (Ret outs, s')).
Proof.
  intros Hc Hmml He Hm Hn Hsp Hinit Hr.
  pose proof (async_engine_piped specs eagle hbs n cfg search hash_function NONE_HASH Hdep empty_queue num_spec_tokens events ui k0 _
    Hc Hmml He Hm Hn Hsp Hinit Hr) as Hp.
  set (promise := manager_promise specs eagle hbs n cfg search hash_function NONE_HASH Hdep) in *. split_and!.
  - intros id j Hj. destruct (pl_each _ _ _ Hp id j Hj) as (_ & _ & H1 & H2). split; [done|]. intros Hst Hph. by apply (H2 Hst).
  - intros Hl. destruct (wp_run _ _ _ (wp_async_schedule (KVCachePromise0 := promise) cfg empty_queue num_spec_tokens _ s noexc Hc He Hp
      ltac:(unfold flights; rewrite length_fmap; simpl; lia))) as (o & s' & Hrun & out & -> & _ & [[H2 H2'] H3 H4 _ _ _ _]).
    exists out, s'. split_and!; [exact Hrun|lia|]. intros id t Ht. destruct (H4 id t Ht) as (j & Hj & Hin & _ & Hcov). by exists j.
  - intros out sm rest sampled -> Hans. destruct (wp_run _ _ _ (wp_async_update (KVCachePromise0 := promise) cfg _ out sampled sm (flights rest) s noexc
      (append_promise specs eagle hbs n cfg search hash_function NONE_HASH Hdep) Hp Hans)) as (outs & s' & Hrun & _). by exists outs, s'.
Qed.


(** A forced preemption with an answer outstanding stops the engine. The state below is
    reachable: a request with two drafts in flight. [reset_prefix_cache] with
    [reset_running_requests] clears its placeholders and marks the outstanding answer to be
    discarded; the request is scheduled again before that answer arrives, and the answer's
    rejected drafts are taken back from the new counts before the answer is discarded, which
    leaves -1 placeholders and two computed tokens too few. The next answer fails the assertion. *)
Theorem reset_in_flight_fails :
  rtc (async_engine_step two_groups false 2 40 wide two_search sample_hash [] two_deployed (mkFCFS []) 2)
    ([], wide_0) ([(draft_out, {["a"%string]})], wide_4) ∧
  (sched_reset_prefix_cache true wide_4).1 = Ret true ∧
  out_num_scheduled_tokens again_out = [("a"%string, 4)] ∧
  (wide_answer draft_out {[ "a"%string := [8] ]} wide_6).1 = Ret [] ∧
  ((λ j, (num_tokens (req j), num_computed_tokens (req j), num_output_placeholders (req j))) <$> requests wide_7 !! "a"%string) = Some (4, 2, -1) ∧
  (wide_answer again_out {[ "a"%string := [8] ]} wide_7).1 = Raise AssertionError.
Proof.
  split; [|split_and!; vm_compute; reflexivity]. eapply rtc_r; [exact wide_3_reached|].
  apply (as_answer wide (mkFCFS []) 2 two_append prompt_out {["a"%string]} [(draft_out, {["a"%string]})] {[ "a"%string := [7] ]} wide_3
    (wide_answer prompt_out {[ "a"%string := [7] ]} wide_3).1).
  - apply wide_3_answers.
  - apply surjective_pairing.
Qed.

(** A forced preemption during a prompt loses a token. The outstanding answer of a prompt that
    is not complete has no tokens and is not discarded; the mark stays, and the first token that
    is sampled for the request is discarded instead: it is never reported, and the request keeps
    a placeholder for it. *)
Theorem reset_during_prompt_loses_token :
  out_num_scheduled_tokens rest_out = [("b"%string, 2)] ∧
  (wide_answer rest_out {[ "b"%string := [11] ]} long_4).1 = Ret [] ∧
  ((λ j, (num_tokens (req j), num_output_placeholders (req j))) <$>
     requests (wide_answer rest_out {[ "b"%string := [11] ]} long_4).2 !! "b"%string) = Some (10, 1).
Proof. split_and!; vm_compute; reflexivity. Qed.

(** ** Witnesses *)

Lemma async_engine_safe_witness :
  ∃ outs s', wide_answer prompt_out {[ "a"%string := [7] ]} wide_3 = (Ret outs, s').
Proof.
  destruct (async_engine_safe two_groups false 2 wide two_search sample_hash [] two_deployed (mkFCFS []) 2 40 false false
    wide_blocks wide_batches wide_3) as (_ & _ & H3).
  - split; simpl; lia.
  - simpl. lia.
  - done.
  - simpl. lia.
  - lia.
  - repeat constructor; simpl; lia.
  - reflexivity.
  - apply wide_3_reached.
  - exact (H3 _ _ _ _ eq_refl wide_3_answers).
Defined.

