(* ===== verification/Detokenizer.v ===== *)
(** Detokenization: v1/engine/detokenizer.py and tokenizers/detokenizer_utils.py.

    Turning the sampled tokens of a request into text one step at a time, stopping at stop
    strings, and handing the text out in pieces. How one token becomes text is the class
    [Decoder]; the fast decoder wraps a stream of the tokenizers package, the slow one is
    written out over a tokenizer. A Python string is the list of its code points. *)
From S2P Require Import Prelude.
Local Open Scope Z_scope.

Abbreviation text := (list Z).
Abbreviation len l := (Z.of_nat (length l)).

(** ** [str.find] *)

(** The first position at which [sub] starts in [s], counted from [i]; -1 if there is none. *)
Fixpoint find_at (sub s : text) (i : Z) : Z :=
  if decide (sub `prefix_of` s) then i
  else match s with [] => -1 | _ :: s' => find_at sub s' (i + 1) end.

(** [s.find(sub, start)]: a negative start counts from the end. *)
Definition py_find (s sub : text) (start : Z) : Z :=
  let start := if decide (start < 0) then Z.max 0 (len s + start) else start in
  if decide (len s < start) then -1 else find_at sub (drop (Z.to_nat start) s) start.

(** ** Stop strings *)

(** The loop of [check_stop_strings]. *)
Fixpoint first_stop (output_text : text) (new_char_count : Z) (stop : list text)
    (include_in_output : bool) : option (text * Z) :=
  match stop with
  | [] => None
  | stop_str :: stop' =>
      let stop_string_len := len stop_str in
      let stop_index := py_find output_text stop_str (1 - new_char_count - stop_string_len) in
      if stop_index =? -1 then first_stop output_text new_char_count stop' include_in_output
      else if include_in_output then
        let stop_index := stop_index + stop_string_len in
        if len output_text <=? stop_index then Some (stop_str, -1) else Some (stop_str, stop_index)
      else Some (stop_str, stop_index)
  end.

Definition check_stop_strings (output_text : text) (new_char_count : Z) (stop : list text)
    (include_in_output : bool) : option (text * Z) :=
  if (new_char_count =? 0) || bool_decide (stop = []) then None
  else first_stop output_text new_char_count stop include_in_output.

(** ** The incremental detokenizer *)

(** What differs between the detokenizers: [decode_next] of the new token, given all token ids
    with the new one last, and how many leading token ids belong to the prompt. *)
Class Decoder (D : Type) := {
  decode_next : list Z → Z → M D text;
  prompt_len : D → Z;
}.

Record StopParams := mkStopParams {
  stop : list text;
  min_tokens : Z;
  include_stop_str_in_output : bool;
}.

Record Detokenizer (D : Type) := mkDetokenizer {
  token_ids : list Z;
  params : StopParams;
  stop_buffer_length : Z;
  last_output_text_offset : Z;
  output_text : text;
  decoder : D;
}.
Arguments mkDetokenizer {D}.
Arguments token_ids {D}.
Arguments params {D}.
Arguments stop_buffer_length {D}.
Arguments last_output_text_offset {D}.
Arguments output_text {D}.
Arguments decoder {D}.

(** [max(len(s) for s in stop)] of a list that is not empty. *)
Definition max_len (stop : list text) : Z := foldr (λ s m, Z.max (len s) m) 0 stop.

(** [BaseIncrementalDetokenizer.__init__]; [ids] are the token ids the subclass puts first. *)
Definition detokenizer_init {D} (ids : list Z) (p : StopParams) (d : D) : Detokenizer D :=
  mkDetokenizer ids p
    (if negb (bool_decide (stop p = [])) && negb (include_stop_str_in_output p)
     then max_len (stop p) - 1 else 0)
    0 [] d.

Section detokenizer.
Context {D : Type} `{!Decoder D}.

Definition add_token_id (t : Z) (d : Detokenizer D) : Detokenizer D :=
  mkDetokenizer (token_ids d ++ [t]) (params d) (stop_buffer_length d) (last_output_text_offset d)
    (output_text d) (decoder d).
Definition set_decoder (x : D) (d : Detokenizer D) : Detokenizer D :=
  mkDetokenizer (token_ids d) (params d) (stop_buffer_length d) (last_output_text_offset d)
    (output_text d) x.
Definition set_output_text (s : text) (d : Detokenizer D) : Detokenizer D :=
  mkDetokenizer (token_ids d) (params d) (stop_buffer_length d) (last_output_text_offset d)
    s (decoder d).
Definition set_last_output_text_offset (n : Z) (d : Detokenizer D) : Detokenizer D :=
  mkDetokenizer (token_ids d) (params d) (stop_buffer_length d) n (output_text d) (decoder d).

Definition output_token_ids (d : Detokenizer D) : list Z :=
  let n := prompt_len (decoder d) in
  if n =? 0 then token_ids d else py_slice (token_ids d) n (len (token_ids d)).
Definition detok_num_output_tokens (d : Detokenizer D) : Z := len (token_ids d) - prompt_len (decoder d).

(** One turn of the loop over the new tokens; the value is the offset from which stop strings
    will be searched. *)
Definition detokenize_one (stop_check_offset : Z) (new_token_id : Z) : M (Detokenizer D) Z :=
  modify (add_token_id new_token_id) ;;
  ids ← gets token_ids;
  new ← zoom decoder set_decoder (decode_next ids new_token_id);
  modify (λ d, set_output_text (output_text d ++ new) d) ;;
  gets (λ d, if negb (min_tokens (params d) =? 0) && (detok_num_output_tokens d <=? min_tokens (params d))
             then len (output_text d) else stop_check_offset).

(** [BaseIncrementalDetokenizer.update]. *)
Definition update (new_token_ids : list Z) (stop_terminated : bool) : M (Detokenizer D) (option text) :=
  if bool_decide (new_token_ids = []) then mret None else
  p ← gets params;
  let skip := stop_terminated && negb (include_stop_str_in_output p) in
  let skipped_stop_token_id := if skip then last new_token_ids else None in
  let new_token_ids := if skip then py_slice new_token_ids 0 (-1) else new_token_ids in
  stop_check_offset ← gets (λ d, len (output_text d));
  stop_check_offset ← for_fold new_token_ids stop_check_offset detokenize_one;
  match skipped_stop_token_id with Some t => modify (add_token_id t) | None => mret tt end ;;
  d ← gets id;
  if negb (bool_decide (stop p = [])) && (min_tokens p <? detok_num_output_tokens d) then
    match check_stop_strings (output_text d) (len (output_text d) - stop_check_offset) (stop p)
            (include_stop_str_in_output p) with
    | Some (stop_string, truncate_to) =>
        (if truncate_to =? -1 then mret tt
         else modify (set_output_text (py_slice (output_text d) 0 truncate_to))) ;;
        mret (Some stop_string)
    | None => mret None
    end
  else mret None.

(** [BaseIncrementalDetokenizer.get_next_output_text]. *)
Definition get_next_output_text (finished delta : bool) : M (Detokenizer D) text :=
  d ← gets id;
  let buffer_length := if finished then 0 else stop_buffer_length d in
  if negb delta then
    mret (if buffer_length =? 0 then output_text d else py_slice (output_text d) 0 (- buffer_length))
  else
    let length := len (output_text d) - buffer_length in
    let last_offset := last_output_text_offset d in
    if last_offset <? length then
      modify (set_last_output_text_offset length) ;;
      mret (py_slice (output_text d) last_offset length)
    else mret [].

End detokenizer.

(** ** The fast decoder *)

(** What a step of the tokenizers package's decode stream does: it returns text or nothing
    yet, or raises; the code looks at the class of the exception and at whether its message is
    that of an invalid prefix. *)
Inductive step_result :=
  | Step (token : option text)
  | Throws (e : exc) (invalid_prefix : bool).

(** The decode stream and the added tokens of the tokenizer. *)
Class DecodeStream (S : Type) := {
  stream_step : S → Z → step_result * S;
  new_stream : bool → S;
  prefilled_stream : list Z → bool → S;
  added_token : Z → option text;
}.

Record Fast (S : Type) := mkFast {
  stream : S;
  fast_skip_special_tokens : bool;
  fast_spaces_between_special_tokens : bool;
  last_special : bool;
}.
Arguments mkFast {S}.
Arguments stream {S}.
Arguments fast_skip_special_tokens {S}.
Arguments fast_spaces_between_special_tokens {S}.
Arguments last_special {S}.

Section fast.
Context {S : Type} `{!DecodeStream S}.

Definition set_stream (x : S) (f : Fast S) : Fast S :=
  mkFast x (fast_skip_special_tokens f) (fast_spaces_between_special_tokens f) (last_special f).
Definition set_last_special (b : bool) (f : Fast S) : Fast S :=
  mkFast (stream f) (fast_skip_special_tokens f) (fast_spaces_between_special_tokens f) b.

(** [FastIncrementalDetokenizer.__init__]; [has_added] tells whether there are added tokens. *)
Definition fast_init (prompt_token_ids : list Z) (skip spaces has_added : bool) : Fast S :=
  let spaces_between := skip || spaces in
  mkFast (prefilled_stream prompt_token_ids skip) skip
    (spaces_between || negb has_added) false.

Definition step_stream (t : Z) : M (Fast S) step_result := λ f,
  let '(r, x) := stream_step (stream f) t in (Ret r, set_stream x f).

(** [_protected_step]: the retry after an invalid prefix is outside the handlers, so that
    what it raises is raised. *)
Definition protected_step (next_token_id : Z) : M (Fast S) (option text) :=
  r ← step_stream next_token_id;
  match r with
  | Step token => mret token
  | Throws e invalid_prefix =>
      if bool_decide (e ∈ [OverflowError; TypeError]) then mret None
      else if negb invalid_prefix then raise e
      else
        modify (λ f, set_stream (new_stream (fast_skip_special_tokens f)) f) ;;
        r' ← step_stream next_token_id;
        match r' with Step token => mret token | Throws e' _ => raise e' end
  end.

(** [FastIncrementalDetokenizer.decode_next]. *)
Definition fast_decode_next (next_token_id : Z) : M (Fast S) text :=
  token ← protected_step next_token_id;
  f ← gets id;
  if negb (fast_spaces_between_special_tokens f) then
    let special_token := added_token next_token_id in
    let is_special := bool_decide (is_Some special_token) in
    let token := if is_special && last_special f then special_token else token in
    modify (set_last_special is_special) ;; mret (default [] token)
  else mret (default [] token).

#[global] Instance fast_decoder : Decoder (Fast S) := {
  decode_next _ t := fast_decode_next t;
  prompt_len _ := 0;
}.

End fast.

(** ** The slow decoder *)

(** What the slow decoder uses of a tokenizer. *)
Class Tokenizer := {
  convert_ids_to_tokens : list Z → bool → list (option text);
  convert_tokens_to_string : list text → text;
  get_added_vocab : list text;
  all_special_tokens : list text;
  is_fast : bool;
  vocab_len : Z;
}.

(** U+FFFD, the replacement character of an unfinished byte sequence. *)
Definition REPLACEMENT : Z := 65533.
Definition ends_unfinished (s : text) : bool := bool_decide (last s = Some REPLACEMENT).

Definition replace_none_with_empty (tokens : list (option text)) : list text := default [] <$> tokens.

Definition INITIAL_INCREMENTAL_DETOKENIZATION_OFFSET : Z := 5.

(** [sep.join(parts)]. *)
Definition join (sep : text) (parts : list text) : text :=
  match parts with [] => [] | p :: ps => p ++ concat (map (app sep) ps) end.

Section slow.
Context `{Tokenizer}.

(** [_convert_tokens_to_string_with_added_encoders]. *)
Fixpoint added_loop (skip_special_tokens : bool) (output_tokens current_sub_text : list text)
    (sub_texts : list text) : list text :=
  let flush := if bool_decide (current_sub_text = []) then sub_texts
               else sub_texts ++ [convert_tokens_to_string current_sub_text] in
  match output_tokens with
  | [] => flush
  | token :: rest =>
      if skip_special_tokens && bool_decide (token ∈ all_special_tokens) then
        added_loop skip_special_tokens rest current_sub_text sub_texts
      else if bool_decide (token ∈ get_added_vocab) then
        added_loop skip_special_tokens rest [] (flush ++ [token])
      else added_loop skip_special_tokens rest (current_sub_text ++ [token]) sub_texts
  end.

Definition convert_tokens_to_string_with_added_encoders (output_tokens : list text)
    (skip_special_tokens spaces_between_special_tokens : bool) : text :=
  let sub_texts := added_loop skip_special_tokens output_tokens [] [] in
  join (if spaces_between_special_tokens then [32] else []) sub_texts.

Definition convert_prompt_ids_to_tokens (prompt_ids : list Z) (skip_special_tokens : bool) :
    list text * Z * Z :=
  let new_tokens := convert_ids_to_tokens
    (py_slice prompt_ids (- INITIAL_INCREMENTAL_DETOKENIZATION_OFFSET - 2) (len prompt_ids))
    skip_special_tokens in
  let read_offset := len new_tokens in
  let prefix_offset := Z.max (read_offset - INITIAL_INCREMENTAL_DETOKENIZATION_OFFSET) 0 in
  (replace_none_with_empty new_tokens, prefix_offset, read_offset).

(** The text of a slice of the tokens. *)
Definition tokens_to_text (skip spaces : bool) (tokens : list text) : text :=
  if is_fast || bool_decide (get_added_vocab = []) then convert_tokens_to_string tokens
  else convert_tokens_to_string_with_added_encoders tokens skip spaces.

(** [detokenize_incrementally]: new tokens, new text, prefix offset, read offset; [None] where
    indexing an empty list of ids raises. *)
Definition detokenize_incrementally (all_input_ids : list Z) (prev_tokens : option (list text))
    (prefix_offset read_offset : Z) (skip spaces : bool) : option (list text * text * Z * Z) :=
  match last all_input_ids with
  | None => None
  | Some new_token_id =>
      let is_first_iter := bool_decide (prev_tokens = None) in
      let '(prev_tokens, prefix_offset, read_offset) :=
        match prev_tokens with
        | Some ts => (ts, prefix_offset, read_offset)
        | None => convert_prompt_ids_to_tokens (py_slice all_input_ids 0 (-1)) skip
        end in
      let new_tokens :=
        if (0 <=? new_token_id) && (new_token_id <? vocab_len)
        then replace_none_with_empty (convert_ids_to_tokens [new_token_id] skip)
        else [[]] in
      let output_tokens := prev_tokens ++ new_tokens in
      let new_tokens := if is_first_iter then output_tokens else new_tokens in
      let prefix_text := tokens_to_text skip spaces (py_slice output_tokens prefix_offset read_offset) in
      let new_text := tokens_to_text skip spaces
        (py_slice output_tokens prefix_offset (len output_tokens)) in
      if (len new_text <=? len prefix_text) || ends_unfinished new_text
      then Some (new_tokens, [], prefix_offset, read_offset)
      else Some (new_tokens, drop (length prefix_text) new_text, read_offset, len output_tokens)
  end.

Record Slow := mkSlow {
  tokens : list text;
  prefix_offset : Z;
  read_offset : Z;
  slow_prompt_len : Z;
  slow_skip_special_tokens : bool;
  slow_spaces_between_special_tokens : bool;
}.

(** [SlowIncrementalDetokenizer.__init__]: a prompt is token ids or a number of embeddings. *)
Definition slow_init (prompt : list Z + nat) (skip spaces : bool) : Slow :=
  match prompt with
  | inl ids =>
      let '(ts, po, ro) := convert_prompt_ids_to_tokens ids skip in
      mkSlow ts po ro (len ids) skip spaces
  | inr n => mkSlow (replicate n []) 0 0 (Z.of_nat n) skip spaces
  end.
Definition slow_prompt_ids (prompt : list Z + nat) : list Z :=
  match prompt with inl ids => ids | inr n => replicate n 0 end.

(** [SlowIncrementalDetokenizer.decode_next]. *)
Definition slow_decode_next (ids : list Z) (_ : Z) : M Slow text :=
  s ← gets id;
  r ← from_option_raise IndexError (detokenize_incrementally ids (Some (tokens s)) (prefix_offset s)
        (read_offset s) (slow_skip_special_tokens s) (slow_spaces_between_special_tokens s));
  let '(new_tokens, decoded_text, po, ro) := r in
  modify (λ s, mkSlow (tokens s ++ new_tokens) po ro (slow_prompt_len s)
    (slow_skip_special_tokens s) (slow_spaces_between_special_tokens s)) ;;
  mret decoded_text.

#[global] Instance slow_decoder : Decoder Slow := {
  decode_next := slow_decode_next;
  prompt_len := slow_prompt_len;
}.

End slow.

(** ** Detokenization or none *)

(** [IncrementalDetokenizer.from_new_request] gives a request without a tokenizer the base
    class, which only collects token ids. *)
Inductive AnyDetokenizer (D : Type) :=
  | NoText (ids : list Z)
  | WithText (d : Detokenizer D).
Arguments NoText {D}.
Arguments WithText {D}.

Section any.
Context {D : Type} `{!Decoder D}.

(** A call of the text detokenizer inside [AnyDetokenizer]. *)
Definition on_text {A} (m : M (Detokenizer D) A) (d : Detokenizer D) : outcome A * AnyDetokenizer D :=
  let '(o, d') := m d in (o, WithText d').

Definition any_update (new_token_ids : list Z) (stop_terminated : bool) : M (AnyDetokenizer D) (option text) :=
  λ a, match a with
  | NoText ids => (Ret None, NoText (ids ++ new_token_ids))
  | WithText d => on_text (update new_token_ids stop_terminated) d
  end.

Definition any_next_output_text (finished delta : bool) : M (AnyDetokenizer D) text :=
  λ a, match a with
  | NoText ids => (Ret [], NoText ids)
  | WithText d => on_text (get_next_output_text finished delta) d
  end.

Definition any_output_token_ids (a : AnyDetokenizer D) : list Z :=
  match a with NoText ids => ids | WithText d => output_token_ids d end.
Definition any_num_output_tokens (a : AnyDetokenizer D) : Z :=
  match a with NoText ids => len ids | WithText d => detok_num_output_tokens d end.

End any.
