(* ===== verification/DetokSpecs.v ===== *)
(** What detokenization guarantees: the incremental search for stop strings finds what a search
    of the whole text would, the text handed out in pieces is the final text, and nothing that
    was handed out is taken back. *)
From S2P Require Import Prelude Detokenizer.
Local Open Scope Z_scope.

(** ** Finding a string *)

(** [x] occurs in [s] at position [j]. *)
Definition occurs_at (x s : text) (j : nat) : Prop := x `prefix_of` drop j s.

(** The occurrence at [j] ends after the first [k] characters. *)
Definition ends_after (k : Z) (x s : text) (j : nat) : Prop := occurs_at x s j ∧ k < Z.of_nat j + len x.

(** [i] is the first such occurrence. *)
Definition first_after (k : Z) (x s : text) (i : nat) : Prop :=
  ends_after k x s i ∧ ∀ j, (j < i)%nat → ¬ ends_after k x s j.

Lemma occurs_at_length x s j : x ≠ [] → occurs_at x s j → (j + length x ≤ length s)%nat.
Proof.
  intros Hx [b Hb]. apply (f_equal length) in Hb. rewrite length_drop, length_app in Hb.
  destruct x; [done|]. simpl in *. lia.
Qed.

Lemma occurs_at_app_l x s s' j : occurs_at x s j → x ≠ [] → occurs_at x (s ++ s') j.
Proof.
  intros H Hx. pose proof (occurs_at_length _ _ _ Hx H) as Hl. unfold occurs_at.
  rewrite drop_app_le by lia. destruct H as [b ->]. exists (b ++ s'). by rewrite <-app_assoc.
Qed.

(** An occurrence that ends within the first part is an occurrence in it. *)
Lemma occurs_at_within x s s' j : (j + length x ≤ length s)%nat → occurs_at x (s ++ s') j → occurs_at x s j.
Proof.
  intros Hl [b Hb]. unfold occurs_at. rewrite drop_app_le in Hb by lia.
  exists (drop (length x) (drop j s)). apply (f_equal (take (length x))) in Hb.
  rewrite take_app_le in Hb by (rewrite length_drop; lia). rewrite take_app_length in Hb.
  rewrite <-Hb at 1. by rewrite take_drop.
Qed.

Lemma find_at_spec x s i : 0 ≤ i →
  (find_at x s i = -1 ∧ ∀ j, ¬ (occurs_at x s j)) ∨
  (∃ k : nat, find_at x s i = i + Z.of_nat k ∧ occurs_at x s k ∧ ∀ j, (j < k)%nat → ¬ occurs_at x s j).
Proof.
  revert i. induction s as [|c s IH]; intros i Hi; simpl; case_decide as Hp.
  - right. exists 0%nat. split_and!; [lia|done|lia].
  - left. split; [done|]. intros j. unfold occurs_at. by rewrite drop_nil.
  - right. exists 0%nat. split_and!; [lia|done|lia].
  - destruct (IH (i + 1)) as [[-> Hn]|(k & -> & Hk & Hmin)]; [lia| |].
    + left. split; [done|]. intros [|j]; [done|apply Hn].
    + right. exists (S k). split_and!; [lia|done|]. intros [|j] Hj; [done|]. apply Hmin. lia.
Qed.

Lemma occurs_at_drop x s a j : occurs_at x (drop a s) j ↔ occurs_at x s (a + j).
Proof. unfold occurs_at. by rewrite drop_drop. Qed.

(** The search from [1 - new_char_count - len x] finds the first occurrence of [x] that ends
    in the new characters. *)
Lemma find_new_spec x s k : x ≠ [] → 0 ≤ k < len s →
  let r := py_find s x (1 - (len s - k) - len x) in
  (r = -1 ∧ ∀ j, ¬ ends_after k x s j) ∨ (∃ i, r = Z.of_nat i ∧ first_after k x s i).
Proof.
  intros Hx Hk r. subst r. unfold py_find. assert (0 < len x) by (destruct x; [done|simpl; lia]).
  destruct (decide (1 - (len s - k) - len x < 0)); [|lia]. set (a := Z.max 0 (len s + (1 - (len s - k) - len x))).
  assert (Ha : a = Z.max 0 (k + 1 - len x)) by (subst a; f_equal; lia). clearbody a.
  assert (0 ≤ a ≤ len s) by lia. rewrite decide_False by lia.
  destruct (find_at_spec x (drop (Z.to_nat a) s) a) as [[-> Hn]|(i & -> & Hi & Hmin)]; [lia| |].
  - left. split; [done|]. intros j [Hj He]. apply (Hn (j - Z.to_nat a)%nat).
    rewrite occurs_at_drop. by replace (Z.to_nat a + (j - Z.to_nat a))%nat with j by lia.
  - right. exists (Z.to_nat a + i)%nat. rewrite occurs_at_drop in Hi.
    split; [lia|]. split; [split; [done|lia]|]. intros j Hj [Hj1 Hj2].
    destruct (decide (j < Z.to_nat a)%nat); [lia|]. apply (Hmin (j - Z.to_nat a)%nat); [lia|].
    rewrite occurs_at_drop. by replace (Z.to_nat a + (j - Z.to_nat a))%nat with j by lia.
Qed.

(** ** The search for stop strings *)

(** Where a text is cut at an occurrence of [x] at [i]; -1 for no cut. *)
Definition cut_at (include : bool) (x s : text) (i : nat) : Z :=
  if include then if bool_decide (length s ≤ i + length x)%nat then -1 else Z.of_nat i + len x
  else Z.of_nat i.

(** What a search for stop strings among the occurrences that end after [k] returns: the first
    string of the list that has one, and where its first one cuts the text. *)
Definition stop_found (k : Z) (s : text) (stop : list text) (include : bool) (r : option (text * Z)) : Prop :=
  match r with
  | None => ∀ x, x ∈ stop → ∀ j, ¬ ends_after k x s j
  | Some (x, c) => ∃ before after i, stop = before ++ x :: after ∧
      (∀ y, y ∈ before → ∀ j, ¬ ends_after k y s j) ∧ first_after k x s i ∧ c = cut_at include x s i
  end.

Lemma first_stop_spec s k stop include : 0 ≤ k < len s → (∀ x, x ∈ stop → x ≠ []) →
  stop_found k s stop include (first_stop s (len s - k) stop include).
Proof.
  intros Hk. induction stop as [|x stop IH]; intros Hne; simpl; [by intros x ?%elem_of_nil|].
  assert (Hx : x ≠ []) by (apply Hne; by left).
  specialize (IH (λ y Hy, Hne y (list_elem_of_further _ _ _ Hy))).
  destruct (find_new_spec x s k Hx Hk) as [[-> Hn]|(i & -> & Hi)].
  - simpl. destruct (first_stop _ _ _ _) as [[y c]|]; simpl in *.
    + destruct IH as (before & after & i & -> & Hb & Hf & ->). exists (x :: before), after, i.
      split_and!; [done| |done|done]. intros y' [->|Hy]%elem_of_cons; eauto.
    + intros y [->|Hy]%elem_of_cons; eauto.
  - rewrite (proj2 (Z.eqb_neq _ _)) by lia.
    destruct include eqn:Hinc; [destruct (_ <=? _) eqn:Hle|]; exists [], stop, i;
      (split_and!; [done|by intros y ?%elem_of_nil|done|]); unfold cut_at; [| |done].
    + by rewrite bool_decide_eq_true_2 by lia.
    + by rewrite bool_decide_eq_false_2 by lia.
Qed.

Lemma check_stop_strings_spec s k stop include : 0 ≤ k ≤ len s → (∀ x, x ∈ stop → x ≠ []) →
  stop_found k s stop include (check_stop_strings s (len s - k) stop include).
Proof.
  intros Hk Hne. unfold check_stop_strings. destruct (decide (k = len s)) as [->|Hlt].
  - rewrite Z.sub_diag. simpl. intros x Hx j [Ho He]. pose proof (occurs_at_length _ _ _ (Hne x Hx) Ho). lia.
  - rewrite (proj2 (Z.eqb_neq _ _)) by lia. simpl. case_bool_decide as Hs; [|apply first_stop_spec; [lia|done]].
    subst stop. by intros x ?%elem_of_nil.
Qed.

Lemma stop_found_shift k k' s stop include r :
  (∀ x j, x ∈ stop → ends_after k x s j ↔ ends_after k' x s j) →
  stop_found k s stop include r → stop_found k' s stop include r.
Proof.
  intros Heq. destruct r as [[x c]|]; simpl.
  - intros (before & after & i & -> & Hb & [Hi Hmin] & ->). exists before, after, i.
    assert (Hx : x ∈ before ++ x :: after) by set_solver.
    split_and!; [done| |split|done].
    + intros y Hy j Hj. apply (Hb y Hy j). apply Heq; [set_solver|done].
    + by apply Heq.
    + intros j Hj H. apply (Hmin j Hj). by apply Heq.
  - intros Hn x Hx j Hj. apply (Hn x Hx j). by apply Heq.
Qed.

(** ** Decoding without stop strings *)

(** The prompt of a decoder does not change. *)
Class DecoderLaws (D : Type) `{!Decoder D} := {
  decode_next_prompt ids t (x : D) : prompt_len (decode_next ids t x).2 = prompt_len x;
}.

Section runs.
Context {D : Type} `{HD : DecoderLaws D}.
Implicit Types (d : Detokenizer D) (x : D).

(** The reference: every token of [todo] is decoded after [ids], and nothing else happens. *)
Fixpoint decode_all (ids todo : list Z) : M D (list text) :=
  match todo with
  | [] => mret []
  | t :: todo' =>
      new ← decode_next (ids ++ [t]) t;
      rest ← decode_all (ids ++ [t]) todo';
      mret (new :: rest)
  end.

Lemma decode_all_prompt ids todo x : prompt_len (decode_all ids todo x).2 = prompt_len x.
Proof.
  revert ids x. induction todo as [|t todo IH]; intros ids x; [done|]. simpl. unfold mbind, M_bind.
  pose proof (decode_next_prompt (ids ++ [t]) t x) as H1. destruct (decode_next _ t x) as [[new|e] x1]; simpl in *; [|done].
  pose proof (IH (ids ++ [t]) x1) as H2. destruct (decode_all _ todo x1) as [[rest|e] x2]; simpl in *; congruence.
Qed.

Lemma decode_all_cons ids t todo x pieces x' : decode_all ids (t :: todo) x = (Ret pieces, x') →
  ∃ new rest x1, decode_next (ids ++ [t]) t x = (Ret new, x1) ∧ decode_all (ids ++ [t]) todo x1 = (Ret rest, x') ∧ pieces = new :: rest.
Proof.
  simpl. unfold mbind, M_bind. destruct (decode_next _ t x) as [[new|e] x1]; [|done].
  destruct (decode_all _ todo x1) as [[rest|e] x2] eqn:H2; [|done]. intros [= <- <-]. eauto 10.
Qed.

Lemma decode_all_app ids ts us x pieces x' : decode_all ids (ts ++ us) x = (Ret pieces, x') →
  ∃ p1 p2 x1, decode_all ids ts x = (Ret p1, x1) ∧ decode_all (ids ++ ts) us x1 = (Ret p2, x') ∧ pieces = p1 ++ p2.
Proof.
  revert ids x pieces. induction ts as [|t ts IH]; intros ids x pieces; simpl app.
  { intros H. exists [], pieces, x. rewrite app_nil_r. split_and!; [done|done|done]. }
  intros (new & rest & x1 & H1 & H2 & ->)%decode_all_cons.
  destruct (IH _ _ _ H2) as (p1 & p2 & x2 & H3 & H4 & ->). exists (new :: p1), p2, x2.
  split_and!; [|by rewrite <-app_assoc in H4|done]. simpl. unfold mbind, M_bind. by rewrite H1, H3.
Qed.

Lemma decode_all_snoc ids ts us x p1 x1 p2 x2 :
  decode_all ids ts x = (Ret p1, x1) → decode_all (ids ++ ts) us x1 = (Ret p2, x2) → decode_all ids (ts ++ us) x = (Ret (p1 ++ p2), x2).
Proof.
  revert ids x p1. induction ts as [|t ts IH]; intros ids x p1; simpl app.
  { rewrite app_nil_r. by intros [= <- <-]. }
  intros (new & rest & x3 & H1 & H2 & ->)%decode_all_cons H3. simpl. unfold mbind, M_bind. rewrite H1.
  rewrite (IH (ids ++ [t]) x3 rest); [done|done|]. by rewrite <-app_assoc.
Qed.

Lemma decode_all_length ids ts x pieces x' : decode_all ids ts x = (Ret pieces, x') → length pieces = length ts.
Proof.
  revert ids x pieces. induction ts as [|t ts IH]; intros ids x pieces; [by intros [= <- <-]|].
  intros (new & rest & x1 & H1 & H2 & ->)%decode_all_cons. simpl. by erewrite IH.
Qed.

(** ** One update *)

(** The state after [pieces] were decoded from [ids]. *)
Definition decoded (ids : list Z) (pieces : list text) (x : D) d : Detokenizer D :=
  mkDetokenizer (token_ids d ++ ids) (params d) (stop_buffer_length d) (last_output_text_offset d)
    (output_text d ++ concat pieces) x.

(** The number of tokens, of those decoded now, that the minimum still covers. *)
Definition covered d : nat := Z.to_nat (min_tokens (params d) - detok_num_output_tokens d).

Lemma detokenize_loop ids d pieces x off :
  0 ≤ detok_num_output_tokens d → 0 ≤ min_tokens (params d) → decode_all (token_ids d) ids (decoder d) = (Ret pieces, x) →
  for_fold ids off detokenize_one d =
    (Ret (if decide (covered d = 0%nat ∨ ids = []) then off else len (output_text d ++ concat (take (covered d) pieces))),
     decoded ids pieces x d).
Proof.
  revert d pieces off. induction ids as [|t ids IH]; intros d pieces off Hn Hm.
  { intros [= <- <-]. simpl. rewrite decide_True by by right. unfold decoded. rewrite !app_nil_r. by destruct d. }
  intros (new & rest & x1 & H1 & H2 & ->)%decode_all_cons.
  pose proof (decode_next_prompt (token_ids d ++ [t]) t (decoder d)) as Hp. rewrite H1 in Hp. simpl in Hp.
  set (d1 := mkDetokenizer (token_ids d ++ [t]) (params d) (stop_buffer_length d) (last_output_text_offset d)
    (output_text d ++ new) x1).
  assert (Hn1 : detok_num_output_tokens d1 = detok_num_output_tokens d + 1).
  { unfold detok_num_output_tokens. simpl. rewrite Hp, length_app. simpl. lia. }
  assert (Hc1 : covered d1 = (covered d - 1)%nat) by (unfold covered; rewrite Hn1; simpl; lia).
  assert (Hone : ∃ off1, detokenize_one off t d = (Ret off1, d1) ∧
    off1 = if decide (covered d = 0%nat) then off else len (output_text d1)).
  { unfold detokenize_one, mbind, M_bind, modify, gets, zoom. simpl. rewrite H1. eexists. split; [done|].
    change (detok_num_output_tokens _) with (detok_num_output_tokens d1). simpl. rewrite Hn1. unfold covered. case_decide.
    - destruct (Z.eqb_spec (min_tokens (params d)) 0); [done|]. by rewrite (proj2 (Z.leb_gt _ _)) by lia.
    - destruct (Z.eqb_spec (min_tokens (params d)) 0); [lia|]. by rewrite (proj2 (Z.leb_le _ _)) by lia. }
  destruct Hone as (off1 & Hone & ->). simpl for_fold. unfold mbind, M_bind. rewrite Hone.
  rewrite (IH d1 rest _); [|lia|done|done]. f_equal; [f_equal|].
  - rewrite Hc1. destruct (covered d) as [|c] eqn:Hc; [by rewrite !decide_True by auto|].
    rewrite (decide_False (P := S c = 0%nat ∨ _)) by naive_solver.
    rewrite (decide_False (P := S c = 0%nat)) by done. simpl. rewrite Nat.sub_0_r.
    destruct (decide (c = 0%nat ∨ ids = [])) as [Hd|]; [|by rewrite app_assoc].
    assert (concat (take c rest) = []) as ->; [|by rewrite app_nil_r].
    destruct Hd as [->| ->]; [done|]. injection H2 as <- <-. by destruct c.
  - unfold decoded. simpl. by rewrite <-!app_assoc.
Qed.

(** The tokens an update decodes: all, or all but the stop token that ended the request. *)
Definition decoded_ids (p : StopParams) (new : list Z) (stop_terminated : bool) : list Z :=
  if stop_terminated && negb (include_stop_str_in_output p) then take (pred (length new)) new else new.

(** The text after the search returned [r]. *)
Definition cut_text (s : text) (r : option (text * Z)) : text :=
  match r with Some (_, c) => if c =? -1 then s else py_slice s 0 c | None => s end.

Lemma py_slice_init {A} (l : list A) : py_slice l 0 (-1) = take (pred (length l)) l.
Proof.
  unfold py_slice, py_bound. rewrite (decide_False (P := 0 < 0)), (decide_True (P := -1 < 0)) by lia. rewrite Z.min_l by lia.
  change (Z.to_nat 0) with 0%nat. rewrite drop_0. f_equal. lia.
Qed.

Lemma take_pred_last {A} (l : list A) : l ≠ [] → ∃ t, last l = Some t ∧ l = take (pred (length l)) l ++ [t].
Proof.
  intros Hl. destruct l as [|t l _] using rev_ind; [done|]. exists t. rewrite last_snoc. split; [done|].
  rewrite length_app, Nat.add_1_r. simpl. by rewrite take_app_length.
Qed.

(** An update is a search of the text from where the minimum ends, or from the old text. *)
Lemma update_eq new term d pieces x :
  new ≠ [] → 0 ≤ detok_num_output_tokens d → 0 ≤ min_tokens (params d) →
  decode_all (token_ids d) (decoded_ids (params d) new term) (decoder d) = (Ret pieces, x) →
  let p := params d in let s := output_text d ++ concat pieces in
  let r := if decide (stop p ≠ [] ∧ min_tokens p < detok_num_output_tokens d + len new)
    then check_stop_strings s (len s - len (output_text d ++ concat (take (covered d) pieces))) (stop p) (include_stop_str_in_output p)
    else None in
  update new term d = (Ret (fst <$> r), mkDetokenizer (token_ids d ++ new) p (stop_buffer_length d)
    (last_output_text_offset d) (cut_text s r) x).
Proof.
  intros Hne Hn Hm Hdec p s r. destruct (take_pred_last new Hne) as (t & Hlast & Hnew).
  unfold update. rewrite bool_decide_eq_false_2 by done. unfold mbind, M_bind, gets, modify.
  fold p. set (skip := term && negb (include_stop_str_in_output p)). rewrite py_slice_init.
  assert ((if skip then take (pred (length new)) new else new) = decoded_ids p new term) as -> by done.
  rewrite (detokenize_loop _ _ _ _ _ Hn Hm Hdec).
  set (d1 := mkDetokenizer (token_ids d ++ new) p (stop_buffer_length d) (last_output_text_offset d) s x).
  assert (Hoff : (if decide (covered d = 0%nat ∨ decoded_ids p new term = []) then len (output_text d)
     else len (output_text d ++ concat (take (covered d) pieces))) = len (output_text d ++ concat (take (covered d) pieces))).
  { case_decide as Hd; [|done]. do 2 f_equal. assert (concat (take (covered d) pieces) = []) as ->; [|by rewrite app_nil_r].
    destruct Hd as [->|Hd]; [done|]. fold p in Hdec. rewrite Hd in Hdec. injection Hdec as <- <-. by destruct (covered d). }
  fold p. rewrite Hoff.
  assert (Hskip : (match (if skip then last new else None) with Some t => λ s0, (Ret tt, add_token_id t s0) | None => mret tt end
     : M (Detokenizer D) unit) (decoded (decoded_ids p new term) pieces x d) = (Ret tt, d1)).
  { unfold decoded_ids. fold skip. destruct skip; [rewrite Hlast|]; [|done].
    unfold add_token_id, decoded. subst d1 s. simpl. by rewrite <-app_assoc, <-Hnew. }
  rewrite Hskip. assert (Hnum : detok_num_output_tokens d1 = detok_num_output_tokens d + len new).
  { pose proof (decode_all_prompt (token_ids d) (decoded_ids p new term) (decoder d)) as Hp. fold p in Hdec. rewrite Hdec in Hp.
    unfold detok_num_output_tokens. simpl in *. rewrite Hp, length_app. lia. }
  unfold id. cbv beta iota. rewrite Hnum. change (output_text d1) with s. subst r.
  destruct (decide (stop p ≠ [] ∧ min_tokens p < detok_num_output_tokens d + len new)) as [[Hs Hlt]|Hd].
  - rewrite bool_decide_eq_false_2, (proj2 (Z.ltb_lt _ _)) by done. simpl.
    destruct (check_stop_strings _ _ _ _) as [[y c]|]; [|done]. simpl. by destruct (c =? -1).
  - case_bool_decide; [done|]. rewrite (proj2 (Z.ltb_ge _ _)); [done|]. destruct (decide (min_tokens p < detok_num_output_tokens d + len new)); [naive_solver|lia].
Qed.

(** ** Updates in a row *)

(** The length of the text of the first [min_tokens] tokens, in which stop strings are ignored. *)
Definition minimum (p : StopParams) (pieces : list text) : Z := len (concat (take (Z.to_nat (min_tokens p)) pieces)).

Record params_ok (p : StopParams) : Prop := {
  po_min : 0 ≤ min_tokens p;
  po_stop y : y ∈ stop p → y ≠ [];
}.

(** The detokenizer of a request after the tokens [ts], no stop string found. *)
Record running (prompt : list Z) (p : StopParams) x0 (ts : list Z) (pieces : list text) d : Prop := {
  rn_decoded : decode_all prompt ts x0 = (Ret pieces, decoder d);
  rn_tokens : token_ids d = prompt ++ ts;
  rn_params : params d = p;
  rn_text : output_text d = concat pieces;
  rn_none : stop_found (minimum p pieces) (concat pieces) (stop p) (include_stop_str_in_output p) None;
}.

Lemma running_num prompt p x0 ts pieces d :
  prompt_len x0 = len prompt → running prompt p x0 ts pieces d → detok_num_output_tokens d = len pieces ∧ length pieces = length ts.
Proof.
  intros Hp [H1 H2 _ _ _]. pose proof (decode_all_prompt prompt ts x0) as H3. rewrite H1 in H3. simpl in H3.
  pose proof (decode_all_length _ _ _ _ _ H1). unfold detok_num_output_tokens. rewrite H2, length_app. lia.
Qed.

Lemma ends_after_old k k' (x s s' : text) j : x ≠ [] → k' ≤ len s →
  (∀ i, ¬ ends_after k x s i) → k ≤ k' → ends_after k x (s ++ s') j ↔ ends_after k' x (s ++ s') j.
Proof.
  intros Hx Hk' Hn Hle. split; intros [Ho He]; (split; [done|]); [|lia].
  destruct (decide (k' < Z.of_nat j + len x)) as [|Hge]; [done|]. exfalso. apply (Hn j).
  split; [|done]. apply (occurs_at_within _ _ s'); [lia|done].
Qed.

Lemma length_concat_take {A} n (ls : list (list A)) : (length (concat (take n ls)) ≤ length (concat ls))%nat.
Proof. rewrite <-(take_drop n ls) at 2. rewrite concat_app, length_app. lia. Qed.

(** The update of a running detokenizer searches the whole text. *)
Lemma running_update prompt p x0 ts pieces d new term pieces' x :
  params_ok p → prompt_len x0 = len prompt → running prompt p x0 ts pieces d → new ≠ [] →
  decode_all (prompt ++ ts) (decoded_ids p new term) (decoder d) = (Ret pieces', x) →
  let all := pieces ++ pieces' in
  ∃ r, stop_found (minimum p all) (concat all) (stop p) (include_stop_str_in_output p) r ∧
    update new term d = (Ret (fst <$> r), mkDetokenizer (prompt ++ ts ++ new) p (stop_buffer_length d)
      (last_output_text_offset d) (cut_text (concat all) r) x).
Proof.
  intros [Hmin Hstop] Hp Hr Hne Hdec all. destruct (running_num _ _ _ _ _ _ Hp Hr) as [Hnum Hlen]. destruct Hr as [H1 H2 H3 H4 H5].
  assert (Hn : 0 ≤ detok_num_output_tokens d) by lia. assert (Hm : 0 ≤ min_tokens (params d)) by by rewrite H3.
  assert (Hdec' : decode_all (token_ids d) (decoded_ids (params d) new term) (decoder d) = (Ret pieces', x)) by by rewrite H2, H3.
  pose proof (update_eq new term d pieces' x Hne Hn Hm Hdec') as Hu. simpl in Hu. rewrite H2, H3, H4, <-concat_app, <-app_assoc in Hu.
  fold all in Hu. set (r := if decide _ then _ else None) in Hu. exists r. split; [|done].
  assert (Hc : covered d = (Z.to_nat (min_tokens p) - length pieces)%nat) by (unfold covered; rewrite H3, Hnum; lia).
  pose proof (decode_all_length _ _ _ _ _ Hdec) as Hlen'.
  set (k := len (concat pieces ++ concat (take (covered d) pieces'))) in *.
  assert (Hmk : ∀ y j, y ∈ stop p → ends_after k y (concat all) j ↔ ends_after (minimum p all) y (concat all) j).
  { intros y j Hy. unfold minimum. subst all. rewrite take_app.
    destruct (decide (length pieces ≤ Z.to_nat (min_tokens p))%nat).
    - rewrite take_ge by done. rewrite <-Hc, (concat_app pieces (take _ _)). reflexivity.
    - subst k. rewrite Hc. replace (Z.to_nat (min_tokens p) - length pieces)%nat with 0%nat by lia. rewrite !take_0.
      simpl. rewrite !app_nil_r, concat_app. symmetry. apply ends_after_old; [by apply Hstop|lia|by apply H5|].
      pose proof (length_concat_take (Z.to_nat (min_tokens p)) pieces). lia. }
  assert (Hk : 0 ≤ k ≤ len (concat all)).
  { subst k all. rewrite concat_app, !length_app. pose proof (length_concat_take (covered d) pieces'). lia. }
  subst r. destruct (decide _) as [_|Hd].
  - eapply stop_found_shift; [exact Hmk|]. by apply check_stop_strings_spec.
  - intros y Hy j Hj. apply Hmk in Hj; [|done]. destruct Hj as [Ho He].
    pose proof (occurs_at_length _ _ _ (Hstop y Hy) Ho) as Hl.
    assert (Hge : len pieces + len new ≤ min_tokens p).
    { destruct (decide (min_tokens p < detok_num_output_tokens d + len new)) as [Hlt|]; [|lia]. exfalso. apply Hd.
      split; [|done]. intros Hnil. rewrite Hnil in Hy. by apply elem_of_nil in Hy. }
    assert (Hfull : take (covered d) pieces' = pieces').
    { apply take_ge. rewrite Hlen'. unfold decoded_ids. case_match; rewrite ?length_take; lia. }
    subst k all. rewrite Hfull, <-concat_app in He. lia.
Qed.

Lemma update_nil term d : update [] term d = (Ret None, d).
Proof. done. Qed.

Lemma decoded_ids_nil p term : decoded_ids p [] term = [].
Proof. unfold decoded_ids. by case_match. Qed.

(** An update of a running detokenizer, with or without new tokens. *)
Lemma running_step prompt p x0 ts pieces d new term pieces' x :
  params_ok p → prompt_len x0 = len prompt → running prompt p x0 ts pieces d →
  decode_all (prompt ++ ts) (decoded_ids p new term) (decoder d) = (Ret pieces', x) →
  let all := pieces ++ pieces' in
  ∃ r, stop_found (minimum p all) (concat all) (stop p) (include_stop_str_in_output p) r ∧
    update new term d = (Ret (fst <$> r), mkDetokenizer (prompt ++ ts ++ new) p (stop_buffer_length d)
      (last_output_text_offset d) (cut_text (concat all) r) x).
Proof.
  intros Hpo Hp Hr Hdec all. destruct (decide (new = [])) as [->|Hne]; [|by eapply running_update].
  rewrite decoded_ids_nil in Hdec. injection Hdec as <- <-. exists None. subst all. rewrite !app_nil_r.
  destruct Hr as [H1 H2 H3 H4 H5]. split; [done|]. rewrite update_nil. simpl. rewrite <-H2, <-H3, <-H4. by destruct d.
Qed.

Lemma running_next prompt p x0 ts pieces d new pieces' x b o :
  running prompt p x0 ts pieces d → decode_all (prompt ++ ts) new (decoder d) = (Ret pieces', x) →
  stop_found (minimum p (pieces ++ pieces')) (concat (pieces ++ pieces')) (stop p) (include_stop_str_in_output p) None →
  running prompt p x0 (ts ++ new) (pieces ++ pieces') (mkDetokenizer (prompt ++ ts ++ new) p b o (concat (pieces ++ pieces')) x).
Proof. intros [H1 H2 H3 H4 H5] Hdec Hf. split; [|done..]. by eapply decode_all_snoc. Qed.

(** ** What is handed out is kept *)

(** The held-back characters are enough for the longest stop string. *)
Record buffer_ok (p : StopParams) (b : Z) : Prop := {
  bo_nonneg : 0 ≤ b;
  bo_covers y : y ∈ stop p → include_stop_str_in_output p = false → len y ≤ b + 1;
}.

Lemma max_len_ge stop (y : text) : y ∈ stop → len y ≤ max_len stop.
Proof. induction stop as [|z l IH]; [by intros ?%elem_of_nil|]. simpl. intros [->|Hy]%elem_of_cons; [lia|]. specialize (IH Hy). lia. Qed.

Lemma init_buffer_ok p ids x : params_ok p → buffer_ok p (stop_buffer_length (detokenizer_init ids p x)).
Proof.
  intros [_ Hs]. simpl. destruct (stop p) as [|y l] eqn:Hst.
  { simpl. split; [lia|]. rewrite Hst. by intros z ?%elem_of_nil. }
  rewrite bool_decide_eq_false_2 by done. simpl negb. destruct (include_stop_str_in_output p) eqn:Hinc; simpl.
  { split; [lia|congruence]. }
  assert (0 < len y) by (destruct y; [by destruct (Hs []); [left|]|simpl; lia]). split; [lia|].
  intros z Hz _. rewrite Hst in Hz. apply max_len_ge in Hz. simpl in Hz. lia.
Qed.

(** A stop string found now ends in the new text, and cutting there keeps what may have been
    handed out. *)
Lemma cut_keeps p b pieces pieces' r n : params_ok p → buffer_ok p b →
  stop_found (minimum p pieces) (concat pieces) (stop p) (include_stop_str_in_output p) None →
  stop_found (minimum p (pieces ++ pieces')) (concat (pieces ++ pieces')) (stop p) (include_stop_str_in_output p) r →
  Z.of_nat n ≤ Z.max 0 (len (concat pieces) - b) →
  take n (cut_text (concat (pieces ++ pieces')) r) = take n (concat pieces) ∧ (n ≤ length (cut_text (concat (pieces ++ pieces')) r))%nat.
Proof.
  intros [Hmin Hst] [Hb Hcov] Hold Hnew Hn. assert (Hpre : concat (pieces ++ pieces') = concat pieces ++ concat pieces') by apply concat_app.
  assert (Hle : (n ≤ length (concat pieces))%nat) by lia.
  assert (Hwhole : take n (concat (pieces ++ pieces')) = take n (concat pieces)) by by rewrite Hpre, take_app_le.
  assert (Hlen : (n ≤ length (concat (pieces ++ pieces')))%nat) by (rewrite Hpre, length_app; lia).
  destruct r as [[y c]|]; [|done]. simpl. destruct (c =? -1) eqn:Hc; [done|]. apply Z.eqb_neq in Hc.
  destruct Hnew as (before & after & i & Heq & _ & [[Ho He] _] & ->).
  assert (Hy : y ∈ stop p) by (rewrite Heq; set_solver). pose proof (occurs_at_length _ _ _ (Hst y Hy) Ho) as Hl.
  assert (Hend : len (concat pieces) < Z.of_nat i + len y).
  { destruct (decide (len (concat pieces) < Z.of_nat i + len y)) as [|Hge]; [done|]. exfalso.
    apply (Hold y Hy i). split; [apply (occurs_at_within _ _ (concat pieces')); [lia|by rewrite <-Hpre]|].
    unfold minimum in He. rewrite take_app in He.
    destruct (decide (length pieces ≤ Z.to_nat (min_tokens p))%nat).
    - rewrite take_ge, concat_app, length_app in He by done. unfold minimum. rewrite take_ge by done. lia.
    - replace (Z.to_nat (min_tokens p) - length pieces)%nat with 0%nat in He by lia. rewrite take_0, app_nil_r in He. done. }
  assert (Hcut : Z.of_nat n ≤ cut_at (include_stop_str_in_output p) y (concat (pieces ++ pieces')) i
      ∧ cut_at (include_stop_str_in_output p) y (concat (pieces ++ pieces')) i ≤ len (concat (pieces ++ pieces'))).
  { unfold cut_at in *. destruct (include_stop_str_in_output p) eqn:Hinc.
    - case_bool_decide; [done|]. lia.
    - specialize (Hcov y Hy eq_refl). lia. }
  revert Hcut. generalize (cut_at (include_stop_str_in_output p) y (concat (pieces ++ pieces')) i). intros c [Hc1 Hc2].
  rewrite py_slice_nonneg by lia. change (Z.to_nat 0) with 0%nat. rewrite drop_0, Z.sub_0_r. split.
  - rewrite take_take. by rewrite Nat.min_l by lia.
  - rewrite length_take. lia.
Qed.

(** ** Streams *)

(** A running detokenizer of which [sent] was handed out. *)
Record streaming (prompt : list Z) (p : StopParams) x0 (ts : list Z) (pieces : list text) (sent : text) d : Prop := {
  sm_running : running prompt p x0 ts pieces d;
  sm_buffer : buffer_ok p (stop_buffer_length d);
  sm_offset : 0 ≤ last_output_text_offset d ≤ Z.max 0 (len (output_text d) - stop_buffer_length d);
  sm_sent : sent = take (Z.to_nat (last_output_text_offset d)) (output_text d);
}.

Lemma streaming_init prompt p x0 : params_ok p → streaming prompt p x0 [] [] [] (detokenizer_init prompt p x0).
Proof.
  intros Hp. split; [|by apply init_buffer_ok|simpl; lia|done].
  split; [done|simpl; by rewrite app_nil_r|done|done|]. intros y Hy j [Ho _].
  pose proof (occurs_at_length _ _ _ (po_stop _ Hp y Hy) Ho) as Hl. destruct y; [by destruct (po_stop _ Hp [] Hy)|simpl in Hl; lia].
Qed.

(** An update without a match only adds text. *)
Lemma streaming_update prompt p x0 ts pieces sent d new pieces' x :
  params_ok p → prompt_len x0 = len prompt → streaming prompt p x0 ts pieces sent d →
  decode_all (prompt ++ ts) new (decoder d) = (Ret pieces', x) →
  let all := pieces ++ pieces' in
  ∃ r d', stop_found (minimum p all) (concat all) (stop p) (include_stop_str_in_output p) r ∧ update new false d = (Ret (fst <$> r), d') ∧
    output_text d' = cut_text (concat all) r ∧ (r = None → streaming prompt p x0 (ts ++ new) all sent d').
Proof.
  intros Hpo Hp [Hr Hb Ho Hs] Hdec all. destruct (running_step _ _ _ _ _ _ new false _ _ Hpo Hp Hr Hdec) as (r & Hf & Hu).
  exists r. eexists. split_and!; [exact Hf|exact Hu|done|]. intros ->. simpl.
  subst all. pose proof (rn_text _ _ _ _ _ _ Hr) as Ht. split; simpl.
  - by apply (running_next _ _ _ _ _ _ _ _ _ _ _ Hr).
  - done.
  - rewrite concat_app, length_app. rewrite Ht in Ho. lia.
  - rewrite Hs, Ht, concat_app. rewrite take_app_le; [done|]. rewrite Ht in Ho. destruct Hb. lia.
Qed.

Lemma take_slice {A} (l : list A) a b : 0 ≤ a ≤ b → b ≤ len l → take (Z.to_nat a) l ++ py_slice l a b = take (Z.to_nat b) l.
Proof.
  intros Ha Hb. rewrite py_slice_nonneg by lia. rewrite take_take_drop.
  by replace (Z.to_nat a + Z.to_nat (b - a))%nat with (Z.to_nat b) by lia.
Qed.

(** The text handed out next continues what was handed out. *)
Lemma streaming_get prompt p x0 ts pieces sent d : streaming prompt p x0 ts pieces sent d →
  ∃ t d', get_next_output_text false true d = (Ret t, d') ∧ streaming prompt p x0 ts pieces (sent ++ t) d'.
Proof.
  intros [[H1 H2 H3 H4 H5] Hb Ho Hs]. pose proof (bo_nonneg _ _ Hb) as Hb0.
  unfold get_next_output_text, mbind, M_bind, gets, modify, id. simpl. destruct (Z.ltb_spec (last_output_text_offset d) (len (output_text d) - stop_buffer_length d)).
  - eexists _, _. split; [done|]. split; [done|done|simpl; lia|]. simpl. rewrite Hs. apply take_slice; lia.
  - eexists _, _. split; [done|]. rewrite app_nil_r. done.
Qed.

(** Whatever ended the request, the last piece completes the text. *)
Lemma finish_get d sent : 0 ≤ last_output_text_offset d ≤ len (output_text d) → sent = take (Z.to_nat (last_output_text_offset d)) (output_text d) →
  ∃ t d', get_next_output_text true true d = (Ret t, d') ∧ sent ++ t = output_text d ∧ output_text d' = output_text d ∧ token_ids d' = token_ids d ∧ decoder d' = decoder d.
Proof.
  intros Ho ->. unfold get_next_output_text, mbind, M_bind, gets, modify, id. simpl. rewrite Z.sub_0_r.
  destruct (Z.ltb_spec (last_output_text_offset d) (len (output_text d))).
  - eexists _, _. split; [done|]. split; [|done]. rewrite take_slice by lia. apply take_ge. lia.
  - eexists _, _. split; [done|]. split; [|done]. rewrite app_nil_r. apply take_ge. lia.
Qed.

(** The last update of a request and the text it completes. *)
Lemma streaming_last prompt p x0 ts pieces sent d new term pieces' x :
  params_ok p → prompt_len x0 = len prompt → streaming prompt p x0 ts pieces sent d →
  decode_all (prompt ++ ts) (decoded_ids p new term) (decoder d) = (Ret pieces', x) →
  let all := pieces ++ pieces' in
  ∃ r d' t d'', stop_found (minimum p all) (concat all) (stop p) (include_stop_str_in_output p) r ∧
    update new term d = (Ret (fst <$> r), d') ∧ get_next_output_text true true d' = (Ret t, d'') ∧
    sent ++ t = cut_text (concat all) r ∧ output_text d'' = cut_text (concat all) r ∧ token_ids d'' = prompt ++ ts ++ new.
Proof.
  intros Hpo Hp [Hr Hb Ho Hs] Hdec all. destruct (running_step _ _ _ _ _ _ new term _ _ Hpo Hp Hr Hdec) as (r & Hf & Hu).
  pose proof (rn_text _ _ _ _ _ _ Hr) as Ht. rewrite Ht in Ho, Hs.
  destruct (cut_keeps p _ pieces pieces' r (Z.to_nat (last_output_text_offset d)) Hpo Hb (rn_none _ _ _ _ _ _ Hr) Hf) as [Hk1 Hk2]; [lia|].
  fold all in Hk1, Hk2, Hu.
  destruct (finish_get (mkDetokenizer (prompt ++ ts ++ new) p (stop_buffer_length d) (last_output_text_offset d) (cut_text (concat all) r) x) sent)
    as (t & d'' & Hg & H1 & H2 & H3 & _); [simpl; lia|simpl; congruence|].
  exists r. eexists _, t, d''. split_and!; [exact Hf|exact Hu|exact Hg|done..].
Qed.

(** Without deltas the text handed out is a prefix of the text so far. *)
Lemma whole_get finished d : 0 ≤ stop_buffer_length d →
  get_next_output_text finished false d =
    (Ret (if finished then output_text d else take (length (output_text d) - Z.to_nat (stop_buffer_length d)) (output_text d)), d).
Proof.
  intros Hb. unfold get_next_output_text, mbind, M_bind, gets, modify, id. simpl.
  destruct finished; simpl; [done|]. do 2 f_equal. destruct (Z.eqb_spec (stop_buffer_length d) 0) as [->|].
  - change (Z.to_nat 0) with 0%nat. rewrite take_ge by lia. done.
  - f_equal. unfold py_slice, py_bound. rewrite (decide_False (P := 0 < 0)), decide_True by lia. rewrite Z.min_l by lia.
    change (Z.to_nat 0) with 0%nat. rewrite drop_0. unfold mret, M_ret. do 3 f_equal. lia.
Qed.

(** ** The updates of a request *)

(** Updates until a stop string is found. *)
Fixpoint feed (chunks : list (list Z)) : M (Detokenizer D) (option text) :=
  match chunks with
  | [] => mret None
  | c :: cs => r ← update c false; match r with Some s => mret (Some s) | None => feed cs end
  end.

(** The pieces before the end of the [i]th chunk. *)
Definition upto (chunks : list (list Z)) (pieces : list text) (i : nat) : list text := take (length (concat (take i chunks))) pieces.

Lemma feed_running prompt p x0 chunks ts pieces d pieces' x :
  params_ok p → prompt_len x0 = len prompt → running prompt p x0 ts pieces d →
  decode_all (prompt ++ ts) (concat chunks) (decoder d) = (Ret pieces', x) →
  ∃ r d' i, feed chunks d = (Ret (fst <$> r), d') ∧ (i ≤ length chunks)%nat ∧ (r = None → i = length chunks) ∧
    (∀ j, (j < i)%nat → let now := pieces ++ upto chunks pieces' j in
       stop_found (minimum p now) (concat now) (stop p) (include_stop_str_in_output p) None) ∧
    let now := pieces ++ upto chunks pieces' i in
    stop_found (minimum p now) (concat now) (stop p) (include_stop_str_in_output p) r ∧
    output_text d' = cut_text (concat now) r ∧ token_ids d' = prompt ++ ts ++ concat (take i chunks).
Proof.
  intros Hpo Hp. revert ts pieces d pieces'. induction chunks as [|c cs IH]; intros ts pieces d pieces' Hr.
  { intros [= <- <-]. exists None, d, 0%nat. unfold upto. simpl. rewrite !app_nil_r.
    destruct Hr as [H1 H2 H3 H4 H5]. split_and!; [done|lia|done|lia|done|done|done]. }
  simpl. intros (p1 & p2 & x1 & H1 & H2 & ->)%decode_all_app.
  pose proof (decode_all_length _ _ _ _ _ H1) as Hl.
  assert (H1' : decode_all (prompt ++ ts) (decoded_ids p c false) (decoder d) = (Ret p1, x1)) by done.
  assert (Hup : ∀ i, upto (c :: cs) (p1 ++ p2) (S i) = p1 ++ upto cs p2 i).
  { intros i. unfold upto. simpl. rewrite length_app, <-Hl. apply take_app_add. }
  destruct (running_step _ _ _ _ _ _ c false _ _ Hpo Hp Hr H1') as (r & Hf & Hu). unfold mbind, M_bind. rewrite Hu.
  destruct r as [[s k]|]; simpl.
  - exists (Some (s, k)). eexists _, 1%nat. split; [done|]. split; [lia|]. split; [done|]. rewrite Hup.
    assert (upto cs p2 0 = []) as -> by done. rewrite app_nil_r. split_and!.
    + intros j Hj. replace j with 0%nat by lia. unfold upto. simpl. rewrite app_nil_r. apply Hr.
    + done.
    + done.
    + simpl. by rewrite app_nil_r.
  - pose proof (running_next _ _ _ _ _ _ _ _ _ (stop_buffer_length d) (last_output_text_offset d) Hr H1 Hf) as Hr'.
    destruct (IH _ _ _ p2 Hr') as (r & d' & i & G1 & G2 & G3 & G4 & G5 & G6 & G7); [by rewrite app_assoc|].
    exists r, d', (S i). split; [exact G1|]. split; [lia|]. split; [naive_solver lia|]. rewrite Hup, app_assoc. split_and!; [|done|done|].
    + intros [|j] Hj; [unfold upto; simpl; rewrite app_nil_r; apply Hr|]. rewrite Hup, app_assoc. apply G4. lia.
    + rewrite G7. simpl. by rewrite <-!app_assoc.
Qed.

(** C27: stop strings are found when they appear and where they are. If decoding the tokens
    works, feeding them to a fresh detokenizer in any chunks returns; it stops at the first chunk
    whose end completes a stop string that ends after the text of the first [min_tokens]
    tokens, although each update searches only the new end of the text; it reports the first
    string of the list that occurs so and cuts the text at its first such occurrence, and it
    leaves the decoded text whole when there is none. *)
Theorem stop_strings_exact prompt p x0 chunks pieces x :
  params_ok p → prompt_len x0 = len prompt → decode_all prompt (concat chunks) x0 = (Ret pieces, x) →
  ∃ r d i, feed chunks (detokenizer_init prompt p x0) = (Ret (fst <$> r), d) ∧
    (i ≤ length chunks)%nat ∧ (r = None → i = length chunks) ∧
    (∀ j, (j < i)%nat → let now := upto chunks pieces j in
       stop_found (minimum p now) (concat now) (stop p) (include_stop_str_in_output p) None) ∧
    let now := upto chunks pieces i in
    stop_found (minimum p now) (concat now) (stop p) (include_stop_str_in_output p) r ∧
    output_text d = cut_text (concat now) r ∧ token_ids d = prompt ++ concat (take i chunks).
Proof.
  intros Hpo Hp Hdec. pose proof (sm_running _ _ _ _ _ _ _ (streaming_init prompt p x0 Hpo)) as Hr.
  rewrite <-(app_nil_r prompt) in Hdec. destruct (feed_running _ _ _ chunks _ _ _ _ _ Hpo Hp Hr Hdec) as (r & d & i & H).
  by exists r, d, i.
Qed.

End runs.

(** ** The decoders *)

#[global] Instance fast_laws S `{!DecodeStream S} : DecoderLaws (Fast S).
Proof. by split. Qed.

#[global] Instance slow_laws `{Tokenizer} : DecoderLaws Slow.
Proof.
  split. intros ids t s. unfold decode_next. simpl. unfold slow_decode_next, mbind, M_bind, gets, id, from_option_raise.
  destruct (detokenize_incrementally _ _ _ _ _ _) as [[[[new s'] po] ro]|]; done.
Qed.

(** *** Incremental against whole decoding *)

Section slow.
Context `{HT : Tokenizer}.
Variables skip spaces : bool.

Abbreviation tts := (tokens_to_text skip spaces).

(** The text of the tokens ends with a finished character. *)
Definition settled (ts : list text) : Prop := ends_unfinished (tts ts) = false.

(** What the two offsets are for: the text that tokens add depends on the tokens before them only
    through the window [q], as long as no character is split at its ends. *)
Definition window_local : Prop := ∀ p q r, settled p → settled (p ++ q) → settled (q ++ r) →
  tts (p ++ q ++ r) = tts (p ++ q) ++ drop (length (tts q)) (tts (q ++ r)).

(** The strings of one token id. *)
Definition token_strings (t : Z) : list text :=
  if (0 <=? t) && (t <? vocab_len) then replace_none_with_empty (convert_ids_to_tokens [t] skip) else [[]].

(** The window of a decoder is inside its tokens and splits no character. *)
Record window_ok (s : Slow) : Prop := {
  wo_flags : slow_skip_special_tokens s = skip ∧ slow_spaces_between_special_tokens s = spaces;
  wo_bounds : 0 ≤ prefix_offset s ≤ read_offset s ∧ read_offset s ≤ len (tokens s);
  wo_prefix : settled (take (Z.to_nat (prefix_offset s)) (tokens s));
  wo_read : settled (take (Z.to_nat (read_offset s)) (tokens s));
}.

(** The tokens not yet turned into text add none, or end in the middle of a character. *)
Definition pending (s : Slow) : Prop :=
  read_offset s = len (tokens s) ∨
  let window := drop (Z.to_nat (prefix_offset s)) (tokens s) in
  ends_unfinished (tts window) = true ∨
  len (tts window) ≤ len (tts (take (Z.to_nat (read_offset s - prefix_offset s)) window)).

Lemma last_app_suffix {A} (l : list A) n (l' : list A) : (n < length l)%nat → last (l' ++ drop n l) = last l.
Proof.
  intros Hn. destruct l as [|x l _] using rev_ind; [simpl in Hn; lia|]. rewrite length_app in Hn. simpl in Hn.
  rewrite drop_app_le by lia. by rewrite app_assoc, !last_snoc.
Qed.

Lemma slow_decode ids t s : window_local → window_ok s →
  ∃ new s', slow_decode_next (ids ++ [t]) t s = (Ret new, s') ∧ window_ok s' ∧ pending s' ∧
    tokens s' = tokens s ++ token_strings t ∧ slow_prompt_len s' = slow_prompt_len s ∧
    tts (take (Z.to_nat (read_offset s')) (tokens s')) = tts (take (Z.to_nat (read_offset s)) (tokens s)) ++ new.
Proof.
  intros Hloc [[Hf1 Hf2] [Hb1 Hb2] Hpre Hread]. unfold slow_decode_next, mbind, M_bind, gets, modify, id, from_option_raise, detokenize_incrementally.
  rewrite last_snoc, Hf1, Hf2. cbv zeta. fold (token_strings t). set (T := tokens s ++ token_strings t).
  set (po := prefix_offset s) in *. set (ro := read_offset s) in *.
  assert (HT1 : len (tokens s) ≤ len T) by (subst T; rewrite length_app; lia).
  rewrite (py_slice_from T po) by lia. rewrite (py_slice_nonneg T po ro) by lia.
  set (window := drop (Z.to_nat po) T). set (q := take (Z.to_nat (ro - po)) window). set (r := drop (Z.to_nat (ro - po)) window).
  assert (Hqr : window = q ++ r) by (symmetry; apply take_drop).
  assert (Hp : take (Z.to_nat po) (tokens s) = take (Z.to_nat po) T) by (subst T; rewrite take_app_le by lia; done).
  assert (Hpq : take (Z.to_nat ro) (tokens s) = take (Z.to_nat ro) T) by (subst T; rewrite take_app_le by lia; done).
  assert (Hpq' : take (Z.to_nat po) T ++ q = take (Z.to_nat ro) T).
  { subst q window. rewrite take_take_drop. f_equal. lia. }
  rewrite Hp in Hpre. rewrite Hpq in Hread |- *.
  destruct (_ || _) eqn:Hc; simpl.
  - eexists _, _. split; [done|]. split; [|split; [|split_and!; [done|done|by rewrite app_nil_r]]].
    + split; cbn [tokens prefix_offset read_offset slow_skip_special_tokens slow_spaces_between_special_tokens]; fold T; [done|split; [done|lia]|done|done].
    + right. cbn [tokens prefix_offset read_offset]. fold T window q. apply orb_true_iff in Hc as [Hc|Hc]; [right; by apply Z.leb_le|by left].
  - apply orb_false_iff in Hc as [Hc Hu]. apply Z.leb_gt in Hc.
    assert (HTT : take (Z.to_nat (len T)) T = T) by (apply take_ge; lia).
    assert (Htext : tts T = tts (take (Z.to_nat ro) T) ++ drop (length (tts q)) (tts window)).
    { rewrite <-Hpq', Hqr, <-(Hloc (take (Z.to_nat po) T) q r); [|done|by rewrite Hpq'|by rewrite <-Hqr].
      rewrite <-Hqr. subst window. by rewrite take_drop. }
    eexists _, _. split; [done|]. split; [|split; [by left|split_and!; [done|done|]]].
    + split; cbn [tokens prefix_offset read_offset slow_skip_special_tokens slow_spaces_between_special_tokens]; fold T; [done|lia|done|]. rewrite HTT. unfold settled, ends_unfinished. rewrite Htext.
      rewrite last_app_suffix by lia. exact Hu.
    + cbn [tokens prefix_offset read_offset]. fold T. by rewrite HTT.
Qed.

Lemma slow_decode_all ids ts s : window_local → window_ok s → pending s →
  ∃ pieces s', decode_all ids ts s = (Ret pieces, s') ∧ window_ok s' ∧ pending s' ∧
    tokens s' = tokens s ++ concat (map token_strings ts) ∧
    tts (take (Z.to_nat (read_offset s')) (tokens s')) = tts (take (Z.to_nat (read_offset s)) (tokens s)) ++ concat pieces.
Proof.
  intros Hloc. revert ids s. induction ts as [|t ts IH]; intros ids s Hw Hp.
  { exists [], s. simpl. rewrite !app_nil_r. done. }
  destruct (slow_decode ids t s Hloc Hw) as (new & s1 & H1 & H2 & H3 & H4 & _ & H5).
  destruct (IH (ids ++ [t]) s1 H2 H3) as (pieces & s' & G1 & G2 & G3 & G4 & G5).
  exists (new :: pieces), s'. simpl. unfold mbind, M_bind, decode_next. simpl. rewrite H1, G1. split_and!; [done|done|done| |].
  - rewrite G4, H4. by rewrite <-app_assoc.
  - rewrite G5, H5. by rewrite <-app_assoc.
Qed.

End slow.

(** incremental detokenization is whole detokenization. For a tokenizer whose text depends
    on earlier tokens only through the window that the slow detokenizer keeps, decoding the output
    tokens one by one always returns, and the prompt's text followed by the pieces is the text of
    all tokens read so far at once; what is not read yet adds no text or ends in the middle of a
    character. *)
Theorem slow_detokenizer_exact `{HT : Tokenizer} skip spaces prompt_ids ts :
  let s0 := slow_init (inl prompt_ids) skip spaces in
  window_local skip spaces → settled skip spaces (take (Z.to_nat (prefix_offset s0)) (tokens s0)) → settled skip spaces (tokens s0) →
  ∃ pieces s, decode_all prompt_ids ts s0 = (Ret pieces, s) ∧
    tokens s = tokens s0 ++ concat (map (token_strings skip) ts) ∧
    tokens_to_text skip spaces (tokens s0) ++ concat pieces
      = tokens_to_text skip spaces (take (Z.to_nat (read_offset s)) (tokens s)) ∧
    pending skip spaces s.
Proof.
  intros s0 Hloc Hpre Hset.
  assert (Hro : read_offset s0 = len (tokens s0)) by (subst s0; simpl; unfold replace_none_with_empty; by rewrite length_fmap).
  assert (Hall : take (Z.to_nat (read_offset s0)) (tokens s0) = tokens s0) by (apply take_ge; lia).
  destruct (slow_decode_all skip spaces prompt_ids ts s0) as (pieces & s & H1 & _ & H3 & H4 & H5); [done| |by left|].
  - split; [done| |done|by rewrite Hall]. split; [|lia]. rewrite Hro.
    subst s0. simpl. unfold replace_none_with_empty. rewrite length_fmap. unfold INITIAL_INCREMENTAL_DETOKENIZATION_OFFSET. lia.
  - exists pieces, s. split_and!; [exact H1|done| |done]. by rewrite H5, Hall.
Qed.

(** ** A tokenizer *)

(** A byte below 128 is a character, another byte makes one with the byte after it. *)
Fixpoint chars (bytes : list Z) : text :=
  match bytes with
  | [] => []
  | b :: rest =>
      if b <? 128 then b :: chars rest
      else match rest with [] => [REPLACEMENT] | c :: rest' => b * 256 + c :: chars rest' end
  end.

(** Token 300 is the string xab, the others are bytes. *)
Definition byte_tokenizer : Tokenizer := {|
  convert_ids_to_tokens ids _ := map (λ t, Some (if t =? 300 then [120; 97; 98] else [t])) ids;
  convert_tokens_to_string ts := chars (concat ts);
  get_added_vocab := [];
  all_special_tokens := [];
  is_fast := true;
  vocab_len := 301;
|}.

Lemma chars_app p q : ends_unfinished (chars p) = false → chars (p ++ q) = chars p ++ chars q.
Proof.
  induction p as [p IH] using (induction_ltof1 _ length). destruct p as [|b p]; [done|]. simpl.
  assert (Htail : ∀ c (l : text), ends_unfinished (c :: l) = false → ends_unfinished l = false).
  { intros c [|c' l]; [done|]. unfold ends_unfinished. by rewrite last_cons_cons. }
  destruct (b <? 128).
  - intros H%Htail. simpl. f_equal. apply IH; [unfold ltof; simpl; lia|done].
  - destruct p as [|c p]; [done|]. intros H%Htail. simpl. f_equal. apply IH; [unfold ltof; simpl; lia|done].
Qed.

Lemma chars_nil q : chars q = [] → q = [].
Proof. destruct q as [|b [|c q]]; simpl; [done|by destruct (_ <? _)..]. Qed.

Lemma byte_window_local : @window_local byte_tokenizer true true.
Proof.
  intros p q r Hp Hpq Hqr. unfold settled, tokens_to_text in *. simpl in *. rewrite !concat_app in *.
  rewrite chars_app in Hpq |- * by done.
  assert (Hq : ends_unfinished (chars (concat q)) = false).
  { destruct (chars (concat q)) as [|c l] eqn:Hc; [done|]. unfold ends_unfinished in *. by rewrite last_app_cons in Hpq. }
  rewrite !chars_app by done. by rewrite drop_app_length, app_assoc.
Qed.

Lemma slow_detokenizer_exact_witness : ∃ pieces s,
  @decode_all _ (@slow_decoder byte_tokenizer) [104; 105] [200; 65; 120] (@slow_init byte_tokenizer (inl [104; 105]) true true) = (Ret pieces, s) ∧
  concat pieces = [51265; 120].
Proof.
  destruct (@slow_detokenizer_exact byte_tokenizer true true [104; 105] [200; 65; 120]) as (pieces & s & H1 & H2 & H3 & H4).
  - exact byte_window_local.
  - reflexivity.
  - reflexivity.
  - exists pieces, s. split; [exact H1|]. vm_compute in H1. injection H1 as <- <-. reflexivity.
Defined.

Definition two_stops : StopParams := mkStopParams [[98]; [97]] 0 false.
Definition byte_detokenizer : Detokenizer Slow :=
  detokenizer_init [104; 105] two_stops (@slow_init byte_tokenizer (inl [104; 105]) true true).

Lemma two_stops_ok : params_ok two_stops.
Proof. split; [done|]. intros y Hy. simpl in Hy. repeat (apply elem_of_cons in Hy as [->|Hy]; [done|]). by apply elem_of_nil in Hy. Qed.

Lemma stop_strings_exact_witness : ∃ d,
  @feed _ (@slow_decoder byte_tokenizer) [[104]; [105; 98]; [120]] byte_detokenizer = (Ret (Some [98]), d) ∧ output_text d = [104; 105].
Proof.
  destruct (@stop_strings_exact _ (@slow_decoder byte_tokenizer) (@slow_laws byte_tokenizer) [104; 105] two_stops
    (@slow_init byte_tokenizer (inl [104; 105]) true true) [[104]; [105; 98]; [120]] [[104]; [105]; [98]; [120]]
    (@decode_all _ (@slow_decoder byte_tokenizer) [104; 105] [104; 105; 98; 120] (@slow_init byte_tokenizer (inl [104; 105]) true true)).2)
    as (r & d & i & H1 & _ & _ & _ & _ & H2 & _).
  - apply two_stops_ok.
  - reflexivity.
  - reflexivity.
  - vm_compute in H1. injection H1 as Hr <-. exists (mkDetokenizer [104; 105; 104; 105; 98] two_stops 0 0 [104; 105]
      (decoder (@feed _ (@slow_decoder byte_tokenizer) [[104]; [105; 98]; [120]] byte_detokenizer).2)).
    split; vm_compute; reflexivity.
Defined.

(** a returned text may contain a stop string. The documentation of [stop] says that the
    returned output will not contain the stop strings; the search takes the first string of the
    list that occurs, not the first occurrence, so that text which arrives at once is cut at a
    later string and keeps an earlier one. *)
Theorem cut_text_keeps_stop_string : ∃ d,
  @update _ (@slow_decoder byte_tokenizer) [300] false byte_detokenizer = (Ret (Some [98]), d) ∧
  output_text d = [120; 97] ∧ [97] ∈ stop (params d) ∧ occurs_at [97] (output_text d) 1.
Proof.
  eexists. split; [vm_compute; reflexivity|]. split_and!; [reflexivity| |by exists []]. simpl. right. left.
Qed.
