(* ===== verification/Outputs.v ===== *)
(** Outputs and their hand-off: the output records of outputs.py and the collector of
    v1/engine/output_processor.py, which passes the outputs of a request from the task that
    produces them to the task that consumes them and merges them when the producer is ahead. *)
From S2P Require Import Prelude Request Detokenizer.
Local Open Scope Z_scope.

(** [RequestOutputKind]. *)
Inductive RequestOutputKind := CUMULATIVE | DELTA | FINAL_ONLY.
#[global] Instance output_kind_eq_dec : EqDecision RequestOutputKind.
Proof. solve_decision. Defined.

(** A stop reason of the engine core, or a stop string found by the detokenizer. *)
Inductive OutputStop := EngineStop (r : StopReason) | MatchedString (s : text).

(** [FinishReason.__str__]. *)
Definition finish_string (r : FinishReason) : string :=
  match r with
  | STOP => "stop"
  | LENGTH => "length"
  | ABORT => "abort"
  | ERROR => "error"
  | REPETITION => "repetition"
  end.

Record CompletionOutput := mkCompletion {
  co_index : Z;
  co_text : text;
  co_token_ids : list Z;
  co_finish_reason : option string;
  co_stop_reason : option OutputStop;
}.

(** [CompletionOutput.finished]. *)
Definition co_finished (c : CompletionOutput) : bool := bool_decide (is_Some (co_finish_reason c)).

(** The outputs of a request with several samples may still lack some, which are [None]. *)
Record RequestOutput := mkRequestOutput {
  ro_request_id : string;
  ro_prompt : option text;
  ro_prompt_token_ids : option (list Z);
  ro_outputs : list (option CompletionOutput);
  ro_finished : bool;
  ro_num_cached_tokens : option Z;
}.

(** The data of a pooling output is a tensor, kept as its values. *)
Record PoolingRequestOutput := mkPooling {
  pr_request_id : string;
  pr_data : list Z;
  pr_prompt_token_ids : list Z;
  pr_num_cached_tokens : Z;
  pr_finished : bool;
}.

Definition STREAM_FINISHED : RequestOutput := mkRequestOutput "" None None [] true None.

(** ** Merging *)

(** Two outputs of the same index, when deltas are collected. *)
Definition merge_completion (c next : CompletionOutput) : CompletionOutput :=
  mkCompletion (co_index c) (co_text c ++ co_text next) (co_token_ids c ++ co_token_ids next)
    (co_finish_reason next) (co_stop_reason next).

(** The inner loop of [add]; reading the index of a missing output raises. *)
Fixpoint add_completion (aggregate : bool) (next : option CompletionOutput)
    (outputs : list (option CompletionOutput)) : outcome (list (option CompletionOutput)) :=
  match outputs, next with
  | [], _ => Ret [next]
  | Some c :: rest, Some n =>
      if co_index c =? co_index n then
        Ret (Some (if aggregate then merge_completion c n else n) :: rest)
      else rest' ← add_completion aggregate next rest; Ret (Some c :: rest')
  | _ :: _, _ => Raise AttributeError
  end.

Definition set_finished (b : bool) (o : RequestOutput) : RequestOutput :=
  mkRequestOutput (ro_request_id o) (ro_prompt o) (ro_prompt_token_ids o) (ro_outputs o) b
    (ro_num_cached_tokens o).
Definition set_outputs (l : list (option CompletionOutput)) (o : RequestOutput) : RequestOutput :=
  mkRequestOutput (ro_request_id o) (ro_prompt o) (ro_prompt_token_ids o) l (ro_finished o)
    (ro_num_cached_tokens o).

(** [RequestOutput.add]. *)
Definition ro_add (aggregate : bool) (next : RequestOutput) : M RequestOutput unit :=
  modify (λ o, set_finished (ro_finished o || ro_finished next) o) ;;
  for_each (ro_outputs next) (λ c,
    outputs ← gets ro_outputs;
    outputs' ← of_outcome (add_completion aggregate c outputs);
    modify (set_outputs outputs')).

(** ** The collector *)

Inductive Item :=
  | Output (o : RequestOutput)
  | Pooling (o : PoolingRequestOutput)
  | Failure (e : exc).

(** [RequestOutputCollector]; [ready] is the event the consumer waits for. *)
Record Collector := mkCollector {
  aggregate : bool;
  collected : option Item;
  ready_set : bool;
}.

Definition collector_init (k : RequestOutputKind) : Collector := mkCollector (bool_decide (k = DELTA)) None false.

Definition set_collected (i : option Item) (c : Collector) : Collector := mkCollector (aggregate c) i (ready_set c).

(** [RequestOutputCollector.put]. *)
Definition put (item : Item) : M Collector unit :=
  c ← gets id;
  match collected c, item with
  | None, _ | _, Failure _ => modify (λ c, mkCollector (aggregate c) (Some item) true)
  | Some (Output o), Output next =>
      zoom (λ _, o) (λ o', set_collected (Some (Output o'))) (ro_add (aggregate c) next)
  | Some (Pooling _), Pooling _ => modify (set_collected (Some item))
  | _, _ => mret tt
  end.

(** [RequestOutputCollector.get_nowait]. *)
Definition get_nowait : M Collector (option Item) :=
  output ← gets collected;
  (if bool_decide (output = None) then mret tt else modify (λ c, mkCollector (aggregate c) None false)) ;;
  match output with Some (Failure e) => raise e | _ => mret output end.

(** [RequestOutputCollector.get]: what it does once it is not blocked; it waits as long as there
    is no output, which the event announces. *)
Definition get : M Collector (option Item) :=
  output ← gets collected;
  match output with
  | None => mret None
  | Some item =>
      modify (λ c, mkCollector (aggregate c) None false) ;;
      match item with Failure e => raise e | _ => mret (Some item) end
  end.

(** ** What the consumer receives *)

(** A list of outputs none of which is missing or repeated. *)
Definition complete (o : RequestOutput) (cs : list CompletionOutput) : Prop :=
  ro_outputs o = Some <$> cs ∧ NoDup (co_index <$> cs).

(** Adding one output to a list without repeated indices. *)
Fixpoint upsert (aggregate : bool) (n : CompletionOutput) (cs : list CompletionOutput) : list CompletionOutput :=
  match cs with
  | [] => [n]
  | c :: rest => if co_index c =? co_index n then (if aggregate then merge_completion c n else n) :: rest else c :: upsert aggregate n rest
  end.

Lemma add_completion_upsert agg n cs : add_completion agg (Some n) (Some <$> cs) = Ret (Some <$> upsert agg n cs).
Proof. induction cs as [|c cs IH]; [done|]. csimpl. destruct (_ =? _); [done|]. by rewrite IH. Qed.

Lemma upsert_index agg n cs : co_index <$> upsert agg n cs =
  if decide (co_index n ∈ co_index <$> cs) then co_index <$> cs else (co_index <$> cs) ++ [co_index n].
Proof.
  induction cs as [|c cs IH]; [done|]. csimpl. destruct (Z.eqb_spec (co_index c) (co_index n)) as [Heq|Hne].
  - rewrite decide_True by (rewrite Heq; by left). csimpl. f_equal. by destruct agg.
  - csimpl. rewrite IH. destruct (decide (co_index n ∈ co_index <$> cs)).
    + by rewrite decide_True by by right.
    + rewrite decide_False; [done|]. by intros [?|?]%elem_of_cons.
Qed.

Lemma upsert_nodup agg n cs : NoDup (co_index <$> cs) → NoDup (co_index <$> upsert agg n cs).
Proof.
  intros Hnd. rewrite upsert_index. case_decide as Hin; [done|]. apply NoDup_app. split_and!; [done| |apply NoDup_singleton].
  intros i Hi ->%list_elem_of_singleton. done.
Qed.

(** What the outputs of index [i] carry, one after the other, and the last of them. *)
Definition gather {B} (g : CompletionOutput → list B) (i : Z) (cs : list CompletionOutput) : list B :=
  concat (g <$> filter (λ c, co_index c = i) cs).
Definition latest (i : Z) (cs : list CompletionOutput) : option CompletionOutput := last (filter (λ c, co_index c = i) cs).

Lemma fresh_filter i cs : i ∉ co_index <$> cs → filter (λ c, co_index c = i) cs = [].
Proof.
  induction cs as [|c cs IH]; [done|]. csimpl. intros [H1 H2]%not_elem_of_cons. rewrite filter_cons, decide_False by done. by apply IH.
Qed.

Lemma gather_app {B} (g : CompletionOutput → list B) i cs cs' : gather g i (cs ++ cs') = gather g i cs ++ gather g i cs'.
Proof. unfold gather. by rewrite filter_app, fmap_app, concat_app. Qed.

Lemma gather_fresh {B} (g : CompletionOutput → list B) i cs : i ∉ co_index <$> cs → gather g i cs = [].
Proof.
  intros Hi. unfold gather. by rewrite fresh_filter.
Qed.

Lemma upsert_gather {B} (g : CompletionOutput → list B) i n cs :
  (∀ c c', g (merge_completion c c') = g c ++ g c') → NoDup (co_index <$> cs) →
  gather g i (upsert true n cs) = gather g i (cs ++ [n]).
Proof.
  intros Hg. induction cs as [|c cs IH]; [done|]. csimpl. intros [Hc Hnd]%NoDup_cons. csimpl.
  destruct (Z.eqb_spec (co_index c) (co_index n)) as [Heq|Hne].
  - change (merge_completion c n :: cs) with ([merge_completion c n] ++ cs). change (c :: cs ++ [n]) with ([c] ++ (cs ++ [n])).
    rewrite !gather_app. destruct (decide (co_index c = i)) as [<-|Hi].
    + rewrite (gather_fresh g _ cs) by done. unfold gather. rewrite !filter_cons, !decide_True by done. simpl. by rewrite !app_nil_r, Hg.
    + unfold gather at 1 3 5. rewrite !filter_cons, !decide_False by (simpl; congruence). simpl. by rewrite app_nil_r.
  - change (gather g i (c :: upsert true n cs)) with (gather g i ([c] ++ upsert true n cs)).
    change (gather g i (c :: cs ++ [n])) with (gather g i ([c] ++ (cs ++ [n]))). by rewrite !(gather_app g i [c]), IH.
Qed.

Lemma latest_app i cs cs' : latest i (cs ++ cs') = match latest i cs' with Some c => Some c | None => latest i cs end.
Proof. unfold latest. by rewrite filter_app, last_app. Qed.

Lemma upsert_latest i n cs : NoDup (co_index <$> cs) → latest i (upsert false n cs) = latest i (cs ++ [n]).
Proof.
  induction cs as [|c cs IH]; [done|]. csimpl. intros [Hc Hnd]%NoDup_cons.
  assert (Hcons : ∀ c cs, latest i (c :: cs) = match latest i cs with Some c => Some c | None => latest i [c] end) by (intros c' cs'; apply (latest_app i [c'] cs')).
  destruct (Z.eqb_spec (co_index c) (co_index n)) as [Heq|Hne].
  - rewrite Hcons, (Hcons c), latest_app. destruct (decide (co_index n = i)) as [<-|Hi].
    + assert (latest (co_index n) cs = None) as ->.
      { unfold latest. rewrite fresh_filter; [done|congruence]. }
      unfold latest. by rewrite !filter_cons, !decide_True by done.
    + assert (latest i [n] = None) as -> by (unfold latest; by rewrite filter_cons, decide_False).
      assert (latest i [c] = None) as ->; [|done]. unfold latest. by rewrite filter_cons, decide_False by congruence.
  - by rewrite Hcons, (Hcons c), IH.
Qed.

Definition upserts (agg : bool) (cs ns : list CompletionOutput) : list CompletionOutput := foldl (λ cs n, upsert agg n cs) cs ns.

Lemma upserts_nodup agg cs ns : NoDup (co_index <$> cs) → NoDup (co_index <$> upserts agg cs ns).
Proof. revert cs. induction ns as [|n ns IH]; intros cs Hnd; [done|]. by apply IH, upsert_nodup. Qed.

(** [RequestOutput.add] never raises on complete outputs. *)
Lemma ro_add_complete agg o next cs ns : complete o cs → complete next ns →
  ∃ o', ro_add agg next o = (Ret tt, o') ∧ complete o' (upserts agg cs ns) ∧ ro_finished o' = (ro_finished o || ro_finished next).
Proof.
  intros [Ho Hnd] [Hn _]. unfold ro_add, mbind, M_bind, modify. rewrite Hn. clear Hn.
  set (o1 := set_finished _ o). assert (Ho1 : ro_outputs o1 = Some <$> cs) by done.
  assert (Hf : ro_finished o1 = (ro_finished o || ro_finished next)) by done. rewrite <-Hf. clearbody o1. clear Ho Hf o.
  revert o1 cs Ho1 Hnd. induction ns as [|n ns IH]; intros o1 cs Ho1 Hnd; csimpl; [by exists o1|].
  unfold mbind, M_bind, gets, of_outcome. rewrite Ho1, add_completion_upsert.
  destruct (IH (set_outputs (Some <$> upsert agg n cs) o1) (upsert agg n cs)) as (o' & H1 & H2 & H3); [done|by apply upsert_nodup|].
  exists o'. split; [exact H1|]. split; [exact H2|]. by rewrite H3.
Qed.

Lemma upserts_gather {B} (g : CompletionOutput → list B) i cs ns :
  (∀ c c', g (merge_completion c c') = g c ++ g c') → NoDup (co_index <$> cs) →
  gather g i (upserts true cs ns) = gather g i (cs ++ ns).
Proof.
  intros Hg. revert cs. induction ns as [|n ns IH]; intros cs Hnd; simpl; [by rewrite app_nil_r|].
  rewrite IH by by apply upsert_nodup. rewrite gather_app, upsert_gather by done.
  by rewrite <-gather_app, <-app_assoc.
Qed.

Lemma upserts_latest i cs ns : NoDup (co_index <$> cs) → latest i (upserts false cs ns) = latest i (cs ++ ns).
Proof.
  revert cs. induction ns as [|n ns IH]; intros cs Hnd; simpl; [by rewrite app_nil_r|].
  rewrite IH by by apply upsert_nodup. rewrite latest_app, upsert_latest by done.
  by rewrite <-latest_app, <-app_assoc.
Qed.

(** *** Interleavings of producer and consumer *)

Inductive Op := Put (o : RequestOutput) | Get.

(** The operations in the order in which the event loop runs them; the result is what the
    consumer got. *)
Fixpoint hand_off (ops : list Op) : M Collector (list RequestOutput) :=
  match ops with
  | [] => mret []
  | Put o :: rest => put (Output o) ;; hand_off rest
  | Get :: rest =>
      r ← get_nowait;
      got ← hand_off rest;
      mret (match r with Some (Output o) => o :: got | _ => got end)
  end.

Definition puts (ops : list Op) : list RequestOutput := omap (λ x, match x with Put o => Some o | Get => None end) ops.

(** All outputs in a list of request outputs, in order. *)
Definition contents (os : list RequestOutput) : list CompletionOutput := concat ((λ o, omap id (ro_outputs o)) <$> os).
Definition any_finished (os : list RequestOutput) : bool := existsb ro_finished os.

(** What waits in the collector. *)
Definition waiting_in (c : Collector) : list RequestOutput := match collected c with Some (Output o) => [o] | _ => [] end.

(** Only complete outputs wait, and the event is set when something waits: no wake-up is lost. *)
Record collector_ok (c : Collector) : Prop := {
  ck_ready : ready_set c = bool_decide (collected c ≠ None);
  ck_waiting : collected c = None ∨ ∃ o cs, collected c = Some (Output o) ∧ complete o cs;
}.

(** Two histories that deliver the same: all deltas, or the latest state, of every index. *)
Record delivers_same (agg : bool) (os os' : list RequestOutput) : Prop := {
  ds_text i : agg = true → gather co_text i (contents os) = gather co_text i (contents os');
  ds_tokens i : agg = true → gather co_token_ids i (contents os) = gather co_token_ids i (contents os');
  ds_latest i : agg = false → latest i (contents os) = latest i (contents os');
  ds_finished : any_finished os = any_finished os';
}.

Lemma contents_app os os' : contents (os ++ os') = contents os ++ contents os'.
Proof. unfold contents. by rewrite fmap_app, concat_app. Qed.

Lemma contents_one o cs : complete o cs → contents [o] = cs.
Proof.
  intros [Ho _]. unfold contents. simpl. rewrite app_nil_r, Ho. clear Ho. induction cs as [|c cs IH]; [done|]. csimpl. by rewrite IH.
Qed.

Lemma any_finished_app os os' : any_finished (os ++ os') = any_finished os || any_finished os'.
Proof. unfold any_finished. apply existsb_app. Qed.

#[global] Instance delivers_same_equiv agg : Equivalence (delivers_same agg).
Proof.
  split.
  - by split.
  - intros x y [H1 H2 H3 H4]. split; intros; symmetry; auto.
  - intros x y z [H1 H2 H3 H4] [G1 G2 G3 G4]. split; intros.
    + by rewrite H1, G1.
    + by rewrite H2, G2.
    + by rewrite H3, G3.
    + by rewrite H4, G4.
Qed.

#[global] Instance delivers_same_app agg : Proper (delivers_same agg ==> delivers_same agg ==> delivers_same agg) app.
Proof.
  intros x x' [H1 H2 H3 H4] y y' [G1 G2 G3 G4]. split; intros; rewrite ?contents_app, ?gather_app, ?latest_app, ?any_finished_app.
  - by rewrite H1, G1.
  - by rewrite H2, G2.
  - by rewrite H3, G3.
  - by rewrite H4, G4.
Qed.

(** A merged output delivers what its two parts deliver. *)
Lemma merged_same agg o next cs ns : complete o cs → complete next ns →
  ∃ o', ro_add agg next o = (Ret tt, o') ∧ complete o' (upserts agg cs ns) ∧ delivers_same agg [o'] [o; next].
Proof.
  intros Ho Hn. destruct (ro_add_complete agg o next cs ns Ho Hn) as (o' & H1 & H2 & H3). exists o'. split_and!; [done|done|].
  assert (Hc : contents [o; next] = cs ++ ns) by (change [o; next] with ([o] ++ [next]); by rewrite contents_app, (contents_one _ _ Ho), (contents_one _ _ Hn)).
  destruct Ho as [_ Hnd]. split.
  - intros i ->. rewrite (contents_one _ _ H2), Hc. by apply upserts_gather.
  - intros i ->. rewrite (contents_one _ _ H2), Hc. by apply upserts_gather.
  - intros i ->. rewrite (contents_one _ _ H2), Hc. by apply upserts_latest.
  - simpl. rewrite H3. by rewrite !orb_false_r.
Qed.

Lemma put_same c o ns : collector_ok c → complete o ns →
  ∃ c', put (Output o) c = (Ret tt, c') ∧ collector_ok c' ∧ aggregate c' = aggregate c ∧
    delivers_same (aggregate c) (waiting_in c') (waiting_in c ++ [o]).
Proof.
  intros [Hr Hw] Ho. unfold put, mbind, M_bind, gets, modify, id. destruct Hw as [Hw|(o1 & cs & Hw & Hc)]; rewrite Hw.
  - eexists. split; [done|]. split_and!; [split; [done|right; by exists o, ns]|done|]. unfold waiting_in. by rewrite Hw.
  - destruct (merged_same (aggregate c) o1 o cs ns Hc Ho) as (o' & H1 & H2 & H3).
    unfold zoom. rewrite H1. eexists. split; [done|]. split_and!; [split|done|].
    + simpl. rewrite Hr, Hw. by rewrite !bool_decide_eq_true_2.
    + right. by eexists _, _.
    + unfold waiting_in. by rewrite Hw.
Qed.

Lemma get_same c : collector_ok c →
  ∃ r c', get_nowait c = (Ret r, c') ∧ collector_ok c' ∧ aggregate c' = aggregate c ∧ waiting_in c' = [] ∧ waiting_in c = match r with Some (Output o) => [o] | _ => [] end.
Proof.
  intros [Hr Hw]. unfold get_nowait, mbind, M_bind, gets, modify, waiting_in. destruct Hw as [Hw|(o1 & cs & Hw & Hc)]; rewrite Hw; simpl.
  - eexists _, c. split; [done|]. split_and!; [split; [done|by left]|done|by rewrite Hw|done].
  - eexists _, _. split; [done|]. split_and!; [split; [done|by left]|done|done|done].
Qed.

Lemma hand_off_same ops c : collector_ok c → (∀ o, o ∈ puts ops → ∃ cs, complete o cs) →
  ∃ got c', hand_off ops c = (Ret got, c') ∧ collector_ok c' ∧ aggregate c' = aggregate c ∧
    delivers_same (aggregate c) (got ++ waiting_in c') (waiting_in c ++ puts ops).
Proof.
  revert c. induction ops as [|[o|] ops IH]; intros c Hc Hputs; simpl.
  - exists [], c. by rewrite app_nil_r.
  - destruct (Hputs o) as [ns Ho]; [left|]. destruct (put_same c o ns Hc Ho) as (c1 & H1 & H2 & H3 & H4).
    destruct (IH c1 H2) as (got & c' & G1 & G2 & G3 & G4); [intros o' Hin; apply Hputs; by right|].
    exists got, c'. unfold mbind, M_bind. rewrite H1. split_and!; [done|done|congruence|].
    rewrite H3 in G4. rewrite G4, H4. by rewrite <-app_assoc.
  - destruct (get_same c Hc) as (r & c1 & H1 & H2 & H3 & H4 & H5).
    destruct (IH c1 H2 Hputs) as (got & c' & G1 & G2 & G3 & G4). unfold mbind, M_bind. rewrite H1, G1.
    eexists _, c'. split_and!; [done|done|congruence|]. rewrite H3, H4 in G4. simpl in G4. rewrite H5. clear H5 H1.
    destruct r as [[o| |]|]; [|done..]. change (delivers_same (aggregate c) ([o] ++ (got ++ waiting_in c')) ([o] ++ puts ops)). by rewrite G4.
Qed.

(** C28: nothing is lost between producer and consumer. For every interleaving of puts and gets
    on a collector, no operation raises, the event is set exactly when an output waits, and what
    the consumer got with what still waits amounts to what was put: with deltas, for every
    sample the same text and the same tokens in order; without, for every sample the same
    latest state; and the request is reported finished if and only if it was. *)
Theorem collector_delivers kind ops : (∀ o, o ∈ puts ops → ∃ cs, complete o cs) →
  ∃ got c, hand_off ops (collector_init kind) = (Ret got, c) ∧ ready_set c = bool_decide (collected c ≠ None) ∧
    delivers_same (bool_decide (kind = DELTA)) (got ++ waiting_in c) (puts ops).
Proof.
  intros Hputs. destruct (hand_off_same ops (collector_init kind)) as (got & c & H1 & [H2 _] & _ & H4); [|done|].
  - split; [done|by left].
  - by exists got, c.
Qed.

Definition delta_of (i : Z) (s : text) (fin : option string) : RequestOutput :=
  mkRequestOutput "r" None None [Some (mkCompletion i s s fin None)] (bool_decide (is_Some fin)) None.

Lemma delta_complete i s fin : complete (delta_of i s fin) [mkCompletion i s s fin None].
Proof. split; [done|apply NoDup_singleton]. Qed.

Lemma collector_delivers_witness : ∃ got c,
  hand_off [Put (delta_of 0 [1] None); Put (delta_of 1 [5] None); Put (delta_of 0 [2] None); Get;
    Put (delta_of 0 [3] (Some "stop"%string)); Get] (collector_init DELTA) = (Ret got, c) ∧
  gather co_text 0 (contents got) = [1; 2; 3] ∧ gather co_text 1 (contents got) = [5] ∧ any_finished got = true.
Proof.
  set (ops := [Put (delta_of 0 [1] None); Put (delta_of 1 [5] None); Put (delta_of 0 [2] None); Get;
    Put (delta_of 0 [3] (Some "stop"%string)); Get]).
  destruct (collector_delivers DELTA ops) as (got & c & H1 & H2 & [H3 _ _ H4]).
  - intros o Ho. simpl in Ho. repeat (apply elem_of_cons in Ho as [->|Ho]; [eexists; apply delta_complete|]). by apply elem_of_nil in Ho.
  - exists got, c. split; [exact H1|]. assert (Hw : waiting_in c = []) by (vm_compute in H1; injection H1 as <- <-; reflexivity).
    rewrite Hw, app_nil_r in H3, H4. rewrite (H3 0 eq_refl), (H3 1 eq_refl), H4. split_and!; reflexivity.
Defined.
