(* ===== verification/ParallelSampling.v ===== *)
(** Parallel sampling: v1/engine/parallel_sampling.py.

    A request for [n] samples becomes [n] child requests; the parent gives them ids and sampling
    parameters and puts their outputs together again. *)
From stdpp Require Import pretty.
From S2P Require Import Prelude Request Detokenizer Outputs.
Local Open Scope Z_scope.

(** What the parent reads and changes of the sampling parameters. *)
Record ParallelParams := mkParallel {
  n_samples : Z;
  seed : option Z;
  output_kind : RequestOutputKind;
}.

Record ParentRequest := mkParent {
  par_request_id : string;
  par_external_req_id : string;
  par_sampling_params : ParallelParams;
  child_requests : gset string;
  output_aggregator : list (option CompletionOutput);
  max_num_generation_tokens : Z;
  cached_child_sampling_params : option ParallelParams;
}.

Definition set_child_requests (c : gset string) (p : ParentRequest) : ParentRequest :=
  mkParent (par_request_id p) (par_external_req_id p) (par_sampling_params p) c (output_aggregator p)
    (max_num_generation_tokens p) (cached_child_sampling_params p).
Definition set_output_aggregator (l : list (option CompletionOutput)) (p : ParentRequest) : ParentRequest :=
  mkParent (par_request_id p) (par_external_req_id p) (par_sampling_params p) (child_requests p) l
    (max_num_generation_tokens p) (cached_child_sampling_params p).
Definition set_max_num_generation_tokens (n : Z) (p : ParentRequest) : ParentRequest :=
  mkParent (par_request_id p) (par_external_req_id p) (par_sampling_params p) (child_requests p)
    (output_aggregator p) n (cached_child_sampling_params p).
Definition set_cached_child_sampling_params (c : option ParallelParams) (p : ParentRequest) : ParentRequest :=
  mkParent (par_request_id p) (par_external_req_id p) (par_sampling_params p) (child_requests p)
    (output_aggregator p) (max_num_generation_tokens p) c.

(** [ParentRequest.__init__]. *)
Definition parent_init (request_id external_req_id : string) (sp : ParallelParams) : ParentRequest :=
  mkParent request_id external_req_id sp ∅
    (if bool_decide (output_kind sp = FINAL_ONLY) then replicate (Z.to_nat (n_samples sp)) None else [])
    0 None.

(** [_get_child_sampling_params]. *)
Definition get_child_sampling_params (index : Z) : M ParentRequest ParallelParams :=
  p ← gets id;
  match cached_child_sampling_params p with
  | Some c => mret c
  | None =>
      let sp := par_sampling_params p in
      let child := mkParallel 1 (seed sp) (output_kind sp) in
      match seed sp with
      | None => modify (set_cached_child_sampling_params (Some child)) ;; mret child
      | Some s => mret (mkParallel 1 (Some (s + index)) (output_kind sp))
      end
  end.

Definition child_id (index : Z) (request_id : string) : string := pretty index +:+ "_" +:+ request_id.

(** [get_child_info]. *)
Definition get_child_info (index : Z) : M ParentRequest (string * ParallelParams) :=
  rid ← gets par_request_id;
  let child_req_id := child_id index rid in
  modify (λ p, set_child_requests ({[ child_req_id ]} ∪ child_requests p) p) ;;
  sp ← get_child_sampling_params index;
  mret (child_req_id, sp).

(** [l[i] = v]. *)
Definition py_set {A} (i : Z) (v : A) (l : list A) : outcome (list A) :=
  if decide (0 ≤ i < len l) then Ret (<[Z.to_nat i := v]> l)
  else if decide (- len l ≤ i < 0) then Ret (<[Z.to_nat (len l + i) := v]> l)
  else Raise IndexError.

(** [get_outputs]. *)
Definition get_outputs (child_request_id : string) (completion_output : CompletionOutput) :
    M ParentRequest (list (option CompletionOutput) * bool) :=
  already_finished_and_returned ←
    (if co_finished completion_output then
       cs ← gets child_requests;
       if decide (child_request_id ∈ cs) then
         modify (set_child_requests (cs ∖ {[ child_request_id ]})) ;; mret false
       else mret true
     else mret false);
  kind ← gets (λ p, output_kind (par_sampling_params p));
  outputs ←
    (if negb (bool_decide (kind = FINAL_ONLY)) then
       mret (if already_finished_and_returned : bool then [] else [Some completion_output])
     else
       aggregator ← gets output_aggregator;
       aggregator' ← of_outcome (py_set (co_index completion_output) (Some completion_output) aggregator);
       modify (set_output_aggregator aggregator') ;;
       gets (λ p, if bool_decide (child_requests p = ∅) then output_aggregator p else []));
  finished ← gets (λ p, bool_decide (child_requests p = ∅));
  mret (outputs, finished).

(** [observe_num_generation_tokens]. *)
Definition observe_num_generation_tokens (num_generation_tokens : Z) : M ParentRequest Z :=
  modify (λ p, set_max_num_generation_tokens (Z.max num_generation_tokens (max_num_generation_tokens p)) p) ;;
  gets max_num_generation_tokens.

(** [observe_finished_request]: what it appends to the iteration's statistics, if anything. *)
Definition observe_finished_request (num_generation_tokens : Z) : M (option ParentRequest) (option (Z * Z)) :=
  λ parent_req,
  match parent_req with
  | None => (Ret (Some (num_generation_tokens, 1)), None)
  | Some p =>
      match observe_num_generation_tokens num_generation_tokens p with
      | (Ret m, p') =>
          (Ret (if bool_decide (child_requests p' = ∅) then Some (m, n_samples (par_sampling_params p')) else None), Some p')
      | (Raise e, p') => (Raise e, Some p')
      end
  end.

(** The fan-out of a request, as the engines do it: the children in order. *)
Definition fan_out (n : Z) : M ParentRequest (list (string * ParallelParams)) :=
  for_fold (py_range 0 n) [] (λ acc index, info ← get_child_info index; mret (acc ++ [info])).

(** ** Children *)

Lemma append_length s1 s2 : String.length (s1 +:+ s2) = (String.length s1 + String.length s2)%nat.
Proof. induction s1 as [|a s1 IH]; [done|]. simpl. by rewrite IH. Qed.

Lemma append_inj_l s1 s2 t : s1 +:+ t = s2 +:+ t → s1 = s2.
Proof.
  revert s2. induction s1 as [|a s1 IH]; intros [|b s2]; simpl; intros H; [done| | |].
  - apply (f_equal String.length) in H. simpl in H. rewrite !append_length in H. simpl in H. lia.
  - apply (f_equal String.length) in H. simpl in H. rewrite !append_length in H. simpl in H. lia.
  - injection H as -> H. f_equal. by apply IH.
Qed.

#[global] Instance child_id_inj rid : Inj (=) (=) (λ i, child_id i rid).
Proof. intros i j H. apply append_inj_l in H. by apply (inj pretty) in H. Qed.

(** The sampling parameters of child [i]. *)
Definition child_params (sp : ParallelParams) (i : Z) : ParallelParams :=
  mkParallel 1 ((λ s, s + i) <$> seed sp) (output_kind sp).

Definition child_ids (rid : string) (n : Z) : gset string := list_to_set ((λ i, child_id i rid) <$> py_range 0 n).

(** A parent whose first [n] children were made. *)
Record fanned (rid ext : string) (sp : ParallelParams) (n : Z) (p : ParentRequest) : Prop := {
  fn_ids : par_request_id p = rid ∧ par_external_req_id p = ext ∧ par_sampling_params p = sp;
  fn_children : child_requests p = child_ids rid n;
  fn_aggregator : output_aggregator p = output_aggregator (parent_init rid ext sp);
  fn_cached : cached_child_sampling_params p = None ∨ (seed sp = None ∧ cached_child_sampling_params p = Some (child_params sp 0));
}.

Lemma fanned_child rid ext sp n p : 0 ≤ n → fanned rid ext sp n p →
  ∃ p', get_child_info n p = (Ret (child_id n rid, child_params sp n), p') ∧ fanned rid ext sp (n + 1) p'.
Proof.
  intros Hn [(H1 & H2 & H3) H4 H5 H6]. unfold get_child_info, get_child_sampling_params, mbind, M_bind, gets, modify, id. simpl. rewrite H1, H3.
  assert (Hset : {[child_id n rid]} ∪ child_requests p = child_ids rid (n + 1)).
  { rewrite H4. unfold child_ids. rewrite py_range_snoc, fmap_app, list_to_set_app_L by done. simpl. set_solver. }
  destruct (cached_child_sampling_params p) as [c|] eqn:Hc.
  - destruct H6 as [|[Hs [= ->]]]; [done|].
    assert (child_params sp 0 = child_params sp n) as -> by (unfold child_params; by rewrite Hs).
    eexists. split; [done|]. split; simpl; [done|done|done|]. right. split; [done|]. rewrite Hc. unfold child_params. by rewrite Hs.
  - unfold child_params. destruct (seed sp) as [s|] eqn:Hs; simpl; (eexists; split; [done|]); (split; simpl; [done..|]).
    + by left.
    + right. split; [done|]. unfold child_params. by rewrite Hs.
Qed.

Lemma fan_out_spec rid ext sp n : 0 ≤ n →
  ∃ p, fan_out n (parent_init rid ext sp) = (Ret ((λ i, (child_id i rid, child_params sp i)) <$> py_range 0 n), p) ∧ fanned rid ext sp n p.
Proof.
  intros Hn. pattern n. apply natlike_ind; [| |done]; clear n Hn.
  - eexists. split; [done|]. split; [done|done|done|by left].
  - intros n Hn (p & H1 & H2). destruct (fanned_child rid ext sp n p Hn H2) as (p' & H3 & H4). exists p'. split; [|exact H4].
    unfold fan_out, Z.succ in *. rewrite py_range_snoc, fmap_app by done.
    rewrite for_fold_app, H1. simpl. unfold mbind, M_bind. by rewrite H3.
Qed.

(** ** The outputs as a function of the history *)

Abbreviation Event := (Z * CompletionOutput)%type.

Definition child_finished (es : list Event) (i : Z) : bool := existsb (λ e, (e.1 =? i) && co_finished e.2) es.
Definition all_finished (n : Z) (es : list Event) : bool := forallb (child_finished es) (py_range 0 n).

(** What the output [c] of child [i] makes the parent return after the outputs [es]. *)
Definition expected (sp : ParallelParams) (es : list Event) (i : Z) (c : CompletionOutput) :
    list (option CompletionOutput) * bool :=
  let es' := es ++ [(i, c)] in
  let finished := all_finished (n_samples sp) es' in
  (if bool_decide (output_kind sp = FINAL_ONLY) then
     if finished then (λ j, latest j es'.*2) <$> py_range 0 (n_samples sp) else []
   else if co_finished c && child_finished es i then [] else [Some c],
   finished).

(** The parent's state after the outputs [es]. *)
Record collected_outputs (rid ext : string) (sp : ParallelParams) (es : list Event) (p : ParentRequest) : Prop := {
  cl_ids : par_request_id p = rid ∧ par_external_req_id p = ext ∧ par_sampling_params p = sp;
  cl_children x : x ∈ child_requests p ↔ ∃ i, 0 ≤ i < n_samples sp ∧ x = child_id i rid ∧ child_finished es i = false;
  cl_aggregator : output_kind sp = FINAL_ONLY → output_aggregator p = (λ j, latest j es.*2) <$> py_range 0 (n_samples sp);
}.

Lemma child_finished_snoc es i c j : child_finished (es ++ [(i, c)]) j = child_finished es j || (i =? j) && co_finished c.
Proof. unfold child_finished. rewrite existsb_app. simpl. by rewrite orb_false_r. Qed.

Lemma all_finished_true n es : all_finished n es = true ↔ ∀ i, 0 ≤ i < n → child_finished es i = true.
Proof. unfold all_finished. rewrite forallb_forall. setoid_rewrite <-list_elem_of_In. setoid_rewrite elem_of_py_range. done. Qed.

Lemma collected_done rid ext sp es p : collected_outputs rid ext sp es p →
  bool_decide (child_requests p = ∅) = all_finished (n_samples sp) es.
Proof.
  intros [_ H _]. destruct (all_finished _ _) eqn:Ha.
  - rewrite all_finished_true in Ha. apply bool_decide_eq_true_2. apply set_eq. intros x. rewrite H.
    split; [|set_solver]. intros (i & Hi & _ & Hf). rewrite Ha in Hf by done. done.
  - apply bool_decide_eq_false_2. intros He. assert (all_finished (n_samples sp) es = true); [|congruence].
    apply all_finished_true. intros i Hi. destruct (child_finished es i) eqn:Hf; [done|].
    assert (child_id i rid ∈ child_requests p) by (rewrite H; eauto). set_solver.
Qed.

Lemma latest_snoc i es j (c : CompletionOutput) : co_index c = i →
  latest j (es ++ [(i, c)]).*2 = if decide (i = j) then Some c else latest j es.*2.
Proof.
  intros Hc. rewrite fmap_app, latest_app. simpl. unfold latest at 1. rewrite filter_cons. rewrite Hc. by case_decide.
Qed.

Lemma py_set_latest n i es (c : CompletionOutput) : 0 ≤ i < n → co_index c = i →
  py_set (co_index c) (Some c) ((λ j, latest j es.*2) <$> py_range 0 n) = Ret ((λ j, latest j (es ++ [(i, c)]).*2) <$> py_range 0 n).
Proof.
  intros Hi Hc. unfold py_set. rewrite Hc, decide_True by (rewrite length_fmap, length_py_range; lia). f_equal.
  apply list_eq. intros k. destruct (decide (k = Z.to_nat i)) as [->|Hk].
  - rewrite list_lookup_insert_eq by (rewrite length_fmap, length_py_range; lia).
    unfold py_range. rewrite !list_lookup_fmap, lookup_seq_lt by lia. simpl. f_equal. rewrite latest_snoc by done. by rewrite decide_True by lia.
  - rewrite list_lookup_insert_ne by done. unfold py_range. rewrite !list_lookup_fmap.
    destruct (seq 0 (Z.to_nat (n - 0)) !! k) as [m|] eqn:Hm; [|done]. apply lookup_seq in Hm as [-> Hm]. simpl. f_equal.
    rewrite latest_snoc by done. by rewrite decide_False by lia.
Qed.

(** One output: the parent's answer is the one the history demands. *)
Lemma get_outputs_expected rid ext sp es p i c : 0 ≤ i < n_samples sp → co_index c = i → collected_outputs rid ext sp es p →
  ∃ p', get_outputs (child_id i rid) c p = (Ret (expected sp es i c), p') ∧ collected_outputs rid ext sp (es ++ [(i, c)]) p'.
Proof.
  intros Hi Hc [(H1 & H2 & H3) Hch Hagg].
  set (p1 := if co_finished c then set_child_requests (child_requests p ∖ {[child_id i rid]}) p else p).
  assert (Hch1 : ∀ x, x ∈ child_requests p1 ↔ ∃ j, 0 ≤ j < n_samples sp ∧ x = child_id j rid ∧ child_finished (es ++ [(i, c)]) j = false).
  { intros x. setoid_rewrite child_finished_snoc. subst p1. destruct (co_finished c); simpl.
    - rewrite elem_of_difference, elem_of_singleton, Hch. setoid_rewrite andb_true_r. split.
      + intros [(j & Hj & -> & Hf) Hne]. exists j. split_and!; [lia|lia|done|]. rewrite Hf. simpl. apply Z.eqb_neq. by intros ->.
      + intros (j & Hj & -> & Hf). apply orb_false_iff in Hf as [Hf Hne]. apply Z.eqb_neq in Hne. split; [eauto|].
        intros Heq. by apply (inj (λ i, child_id i rid)) in Heq.
    - rewrite Hch. by setoid_rewrite andb_false_r; setoid_rewrite orb_false_r. }
  assert (Hin : bool_decide (child_id i rid ∈ child_requests p) = negb (child_finished es i)).
  { apply eq_bool_prop_intro. rewrite bool_decide_spec, Hch. destruct (child_finished es i) eqn:Hf; simpl; [|naive_solver].
    split; [|done]. intros (j & _ & Heq & Hj). apply (inj (λ i, child_id i rid)) in Heq as <-. congruence. }
  assert (Hfirst : (if co_finished c then
       (cs ← gets child_requests;
       if decide (child_id i rid ∈ cs) then
         modify (set_child_requests (cs ∖ {[ child_id i rid ]})) ;; mret false
       else mret true) else mret false) p = (Ret (co_finished c && child_finished es i), p1)).
  { subst p1. destruct (co_finished c); [|done]. unfold mbind, M_bind, gets, modify. simpl.
    destruct (decide (child_id i rid ∈ child_requests p)) as [Hd|Hd].
    - rewrite bool_decide_eq_true_2 in Hin by done. by destruct (child_finished es i).
    - rewrite bool_decide_eq_false_2 in Hin by done. destruct (child_finished es i); [|done]. simpl. unfold mret, M_ret. f_equal.
      rewrite difference_disjoint_L by set_solver. by destruct p. }
  assert (Hp1 : par_request_id p1 = rid ∧ par_external_req_id p1 = ext ∧ par_sampling_params p1 = sp ∧ output_aggregator p1 = output_aggregator p).
  { subst p1. destruct (co_finished c); by split_and!. }
  destruct Hp1 as (G1 & G2 & G3 & G4). unfold get_outputs, mbind at 1, M_bind at 1. rewrite Hfirst. clear Hfirst.
  unfold mbind, M_bind, gets, modify. rewrite G3. unfold expected. destruct (bool_decide (output_kind sp = FINAL_ONLY)) eqn:Hk; simpl.
  - apply bool_decide_eq_true in Hk. unfold of_outcome. rewrite G4, (Hagg Hk), (py_set_latest _ i) by done. simpl.
    assert (Hok : collected_outputs rid ext sp (es ++ [(i, c)]) (set_output_aggregator ((λ j, latest j (es ++ [(i, c)]).*2) <$> py_range 0 (n_samples sp)) p1)) by by split.
    pose proof (collected_done _ _ _ _ _ Hok) as Hd. simpl in Hd. rewrite Hd. eauto.
  - apply bool_decide_eq_false in Hk. assert (Hok : collected_outputs rid ext sp (es ++ [(i, c)]) p1) by (split; [done|done|intros; done]).
    rewrite (collected_done _ _ _ _ _ Hok). eauto.
Qed.

(** The outputs of the children, in the order in which they arrive. *)
Fixpoint parent_run (rid : string) (es : list Event) : M ParentRequest (list (list (option CompletionOutput) * bool)) :=
  match es with
  | [] => mret []
  | (i, c) :: es' => r ← get_outputs (child_id i rid) c; rs ← parent_run rid es'; mret (r :: rs)
  end.

Fixpoint expected_run (sp : ParallelParams) (before es : list Event) : list (list (option CompletionOutput) * bool) :=
  match es with
  | [] => []
  | (i, c) :: es' => expected sp before i c :: expected_run sp (before ++ [(i, c)]) es'
  end.

Lemma parent_run_expected rid ext sp before es p :
  Forall (λ e, 0 ≤ e.1 < n_samples sp ∧ co_index e.2 = e.1) es → collected_outputs rid ext sp before p →
  ∃ p', parent_run rid es p = (Ret (expected_run sp before es), p') ∧ collected_outputs rid ext sp (before ++ es) p'.
Proof.
  revert before p. induction es as [|[i c] es IH]; intros before p Hes Hp; simpl; [by exists p; rewrite app_nil_r|].
  apply Forall_cons in Hes as [[Hi Hc] Hes]. simpl in Hi, Hc. destruct (get_outputs_expected _ _ _ _ _ _ _ Hi Hc Hp) as (p1 & H1 & H2).
  destruct (IH _ _ Hes H2) as (p' & H3 & H4). unfold mbind, M_bind. rewrite H1, H3. exists p'. split; [done|].
  by rewrite <-app_assoc in H4.
Qed.

Lemma fanned_collected rid ext sp p : fanned rid ext sp (n_samples sp) p → collected_outputs rid ext sp [] p.
Proof.
  intros [H1 H2 H3 _]. split; [done| |].
  - intros x. rewrite H2. unfold child_ids. rewrite elem_of_list_to_set, list_elem_of_fmap.
    setoid_rewrite elem_of_py_range. naive_solver.
  - intros Hk. rewrite H3. simpl. rewrite bool_decide_eq_true_2 by done. apply list_eq. intros k.
    unfold py_range. rewrite <-list_fmap_compose, list_lookup_fmap.
    destruct (decide (k < Z.to_nat (n_samples sp))%nat) as [Hlt|Hge].
    + rewrite lookup_replicate_2 by done. rewrite lookup_seq_lt by lia. done.
    + assert (replicate (Z.to_nat (n_samples sp)) (@None CompletionOutput) !! k = None) as -> by (apply lookup_ge_None_2; rewrite length_replicate; lia).
      by rewrite lookup_seq_ge by lia.
Qed.

(** C29: a parent puts its samples together. Fanning out makes [n] children with distinct ids and,
    when the request has a seed, distinct seeds. Then, whatever outputs the children deliver and
    in whatever order, every answer of the parent is the one the history demands: a streaming
    request gets every output once, and the final output of a child only the first time; a request
    for final outputs gets nothing until every child has finished, and then the last output of
    every child in the order of their indices; and the request is reported finished exactly
    when all children are. *)
Theorem parent_follows_history rid ext sp es :
  0 ≤ n_samples sp → Forall (λ e, 0 ≤ e.1 < n_samples sp ∧ co_index e.2 = e.1) es →
  ∃ infos p p', fan_out (n_samples sp) (parent_init rid ext sp) = (Ret infos, p) ∧
    NoDup infos.*1 ∧ length infos = Z.to_nat (n_samples sp) ∧
    (∀ i, 0 ≤ i < n_samples sp → infos !! Z.to_nat i = Some (child_id i rid, child_params sp i)) ∧
    parent_run rid es p = (Ret (expected_run sp [] es), p') ∧
    (child_requests p' = ∅ ↔ all_finished (n_samples sp) es = true).
Proof.
  intros Hn Hes. destruct (fan_out_spec rid ext sp (n_samples sp) Hn) as (p & H1 & H2).
  destruct (parent_run_expected rid ext sp [] es p Hes (fanned_collected _ _ _ _ H2)) as (p' & H3 & H4).
  eexists _, p, p'. split; [exact H1|]. split_and!.
  - rewrite <-list_fmap_compose. apply (NoDup_fmap_2 (λ i, child_id i rid)), NoDup_py_range.
  - by rewrite length_fmap, length_py_range, Z.sub_0_r.
  - intros i Hi. unfold py_range. rewrite !list_lookup_fmap, lookup_seq_lt by lia. simpl. by rewrite Z2Nat.id by lia.
  - exact H3.
  - simpl in H4. rewrite <-(collected_done _ _ _ _ _ H4). by rewrite bool_decide_eq_true.
Qed.

Definition three_final : ParallelParams := mkParallel 3 (Some 7) FINAL_ONLY.
Definition final_of (i : Z) : CompletionOutput := mkCompletion i [i] [i] (Some "stop"%string) None.

Lemma parent_follows_history_witness : ∃ infos p p',
  fan_out 3 (parent_init "r" "x" three_final) = (Ret infos, p) ∧
  (λ x, seed x.2) <$> infos = [Some 7; Some 8; Some 9] ∧
  parent_run "r" [(2, final_of 2); (0, final_of 0); (1, final_of 1)] p =
    (Ret [([], false); ([], false); (Some <$> [final_of 0; final_of 1; final_of 2], true)], p').
Proof.
  destruct (parent_follows_history "r" "x" three_final [(2, final_of 2); (0, final_of 0); (1, final_of 1)])
    as (infos & p & p' & H1 & _ & _ & _ & H2 & _).
  - simpl. lia.
  - repeat constructor; simpl; lia.
  - exists infos, p, p'. split; [exact H1|]. split; [|exact H2]. vm_compute in H1. injection H1 as <- <-. reflexivity.
Defined.
