(* ===== verification/OutputProcessor.v ===== *)
(** The output processor: v1/engine/output_processor.py.

    It keeps the front end's state of every request, turns the engine core's outputs into request
    outputs through the detokenizer and the parent of a parallel request, hands them to the
    request's collector or returns them, and forgets requests that finished or were aborted.

    Parent requests and collectors are objects that several request states share; they live in
    stores, and a request state holds their keys: the id of the parent request, and a number for a
    collector. *)
From S2P Require Import Prelude Request StopCheck Detokenizer Outputs ParallelSampling.
Local Open Scope Z_scope.

(** ** Requests and engine outputs *)

(** What the output processor reads of a sampling request's parameters. *)
Record FrontParams := mkFront {
  fp_stop : StopParams;
  fp_detokenize : bool;
  fp_output_kind : RequestOutputKind;
}.

(** [EngineCoreRequest]: sampling or pooling; embeddings are given by their number. *)
Record EngineRequest := mkEngineRequest {
  er_request_id : string;
  er_external_req_id : string;
  er_prompt_token_ids : option (list Z);
  er_prompt_embeds : option nat;
  er_params : FrontParams + RequestOutputKind;
  er_resumable : bool;
}.

(** [EngineCoreOutput] as far as text and control go; a pooling output is its values. *)
Record EngineOutput := mkEngineOutput {
  en_request_id : string;
  en_new_token_ids : list Z;
  en_pooling_output : option (list Z);
  en_finish_reason : option FinishReason;
  en_stop_reason : option StopReason;
  en_num_cached_tokens : Z;
}.

Record StreamingUpdate := mkStreamingUpdate {
  su_prompt : option text;
  su_prompt_token_ids : option (list Z);
  su_final : bool;
}.

(** How a detokenizer is made for a sampling request: the token ids it starts with and its
    decoder, or none without a tokenizer. *)
Class MakeDecoder (D : Type) := make_decoder : EngineRequest → option (list Z * D).

(** ** Request states *)

Record RequestState (D : Type) := mkRequestState {
  rs_request_id : string;
  rs_external_req_id : string;
  rs_parent_req : option string;
  rs_request_index : Z;
  rs_output_kind : RequestOutputKind;
  rs_prompt : option text;
  rs_prompt_token_ids : option (list Z);
  rs_prompt_embeds : option nat;
  rs_prompt_len : Z;
  rs_detokenizer : option (AnyDetokenizer D);
  rs_is_prefilling : bool;
  rs_queue : option nat;
  rs_num_cached_tokens : Z;
  rs_stream_interval : Z;
  rs_sent_tokens_offset : Z;
  rs_streaming_input : bool;
  rs_input_chunk_queue : option (list StreamingUpdate);
}.
Arguments mkRequestState {D}.
Arguments rs_request_id {D}.
Arguments rs_external_req_id {D}.
Arguments rs_parent_req {D}.
Arguments rs_request_index {D}.
Arguments rs_output_kind {D}.
Arguments rs_prompt {D}.
Arguments rs_prompt_token_ids {D}.
Arguments rs_prompt_embeds {D}.
Arguments rs_prompt_len {D}.
Arguments rs_detokenizer {D}.
Arguments rs_is_prefilling {D}.
Arguments rs_queue {D}.
Arguments rs_num_cached_tokens {D}.
Arguments rs_stream_interval {D}.
Arguments rs_sent_tokens_offset {D}.
Arguments rs_streaming_input {D}.
Arguments rs_input_chunk_queue {D}.

(** [length_from_prompt_token_ids_or_embeds]: the token ids where there are some. *)
Definition prompt_length (ids : option (list Z)) (embeds : option nat) : outcome Z :=
  match ids, embeds with
  | None, None => Raise ValueError
  | None, Some n => Ret (Z.of_nat n)
  | Some l, None => Ret (len l)
  | Some l, Some n => if decide (length l = n) then Ret (len l) else Raise ValueError
  end.

Section state.
Context {D : Type} `{!Decoder D}.
Implicit Types rs : RequestState D.

Definition set_prompt (p : option text) (ids : option (list Z)) (n : Z) rs : RequestState D :=
  mkRequestState (rs_request_id rs) (rs_external_req_id rs) (rs_parent_req rs) (rs_request_index rs)
    (rs_output_kind rs) p ids (rs_prompt_embeds rs) n (rs_detokenizer rs) (rs_is_prefilling rs)
    (rs_queue rs) (rs_num_cached_tokens rs) (rs_stream_interval rs) (rs_sent_tokens_offset rs)
    (rs_streaming_input rs) (rs_input_chunk_queue rs).
Definition set_detokenizer (d : option (AnyDetokenizer D)) rs : RequestState D :=
  mkRequestState (rs_request_id rs) (rs_external_req_id rs) (rs_parent_req rs) (rs_request_index rs)
    (rs_output_kind rs) (rs_prompt rs) (rs_prompt_token_ids rs) (rs_prompt_embeds rs) (rs_prompt_len rs)
    d (rs_is_prefilling rs) (rs_queue rs) (rs_num_cached_tokens rs) (rs_stream_interval rs)
    (rs_sent_tokens_offset rs) (rs_streaming_input rs) (rs_input_chunk_queue rs).
Definition set_is_prefilling (b : bool) rs : RequestState D :=
  mkRequestState (rs_request_id rs) (rs_external_req_id rs) (rs_parent_req rs) (rs_request_index rs)
    (rs_output_kind rs) (rs_prompt rs) (rs_prompt_token_ids rs) (rs_prompt_embeds rs) (rs_prompt_len rs)
    (rs_detokenizer rs) b (rs_queue rs) (rs_num_cached_tokens rs) (rs_stream_interval rs)
    (rs_sent_tokens_offset rs) (rs_streaming_input rs) (rs_input_chunk_queue rs).
Definition set_num_cached_tokens (n : Z) rs : RequestState D :=
  mkRequestState (rs_request_id rs) (rs_external_req_id rs) (rs_parent_req rs) (rs_request_index rs)
    (rs_output_kind rs) (rs_prompt rs) (rs_prompt_token_ids rs) (rs_prompt_embeds rs) (rs_prompt_len rs)
    (rs_detokenizer rs) (rs_is_prefilling rs) (rs_queue rs) n (rs_stream_interval rs)
    (rs_sent_tokens_offset rs) (rs_streaming_input rs) (rs_input_chunk_queue rs).
Definition set_sent_tokens_offset (n : Z) rs : RequestState D :=
  mkRequestState (rs_request_id rs) (rs_external_req_id rs) (rs_parent_req rs) (rs_request_index rs)
    (rs_output_kind rs) (rs_prompt rs) (rs_prompt_token_ids rs) (rs_prompt_embeds rs) (rs_prompt_len rs)
    (rs_detokenizer rs) (rs_is_prefilling rs) (rs_queue rs) (rs_num_cached_tokens rs) (rs_stream_interval rs)
    n (rs_streaming_input rs) (rs_input_chunk_queue rs).
Definition set_streaming (b : bool) (q : option (list StreamingUpdate)) rs : RequestState D :=
  mkRequestState (rs_request_id rs) (rs_external_req_id rs) (rs_parent_req rs) (rs_request_index rs)
    (rs_output_kind rs) (rs_prompt rs) (rs_prompt_token_ids rs) (rs_prompt_embeds rs) (rs_prompt_len rs)
    (rs_detokenizer rs) (rs_is_prefilling rs) (rs_queue rs) (rs_num_cached_tokens rs) (rs_stream_interval rs)
    (rs_sent_tokens_offset rs) b q.

(** [RequestState.apply_streaming_update]; an empty string or list counts as none. *)
Definition apply_streaming_update (u : StreamingUpdate) rs : RequestState D :=
  let prompt :=
    match su_prompt u with
    | None | Some [] => rs_prompt rs
    | Some s => match rs_prompt rs with None | Some [] => Some s | Some s0 => Some (s0 ++ s) end
    end in
  let ids :=
    match rs_prompt_token_ids rs with
    | None | Some [] => default [] (su_prompt_token_ids u)
    | Some l => l ++ default [] (su_prompt_token_ids u)
    end in
  set_is_prefilling true
    (set_prompt prompt (Some ids) (len ids) (set_streaming (negb (su_final u)) (rs_input_chunk_queue rs) rs)).

(** A request state with the store of parents it reaches. *)
Abbreviation Local_ := (RequestState D * gmap string ParentRequest)%type.

Definition on_state (f : RequestState D → RequestState D) : M Local_ unit := modify (λ x, (f x.1, x.2)).

(** A call of the request's detokenizer. *)
Definition on_detokenizer {A} (m : M (AnyDetokenizer D) A) : M Local_ A := λ x,
  match rs_detokenizer x.1 with
  | None => (Raise AssertionError, x)
  | Some d => let '(o, d') := m d in (o, (set_detokenizer (Some d') x.1, x.2))
  end.

(** A call of a parent. *)
Definition on_parent {A} (pid : string) (m : M ParentRequest A) : M Local_ A := λ x,
  match x.2 !! pid with
  | None => (Raise KeyError, x)
  | Some p => let '(o, p') := m p in (o, (x.1, <[pid := p']> x.2))
  end.

(** [_new_completion_output]. *)
Definition new_completion_output (token_ids : list Z) (finish_reason : option FinishReason)
    (stop_reason : option OutputStop) : M Local_ CompletionOutput :=
  rs ← gets fst;
  let finished := bool_decide (is_Some finish_reason) in
  let delta := bool_decide (rs_output_kind rs = DELTA) in
  s ← on_detokenizer (any_next_output_text finished delta);
  all_ids ← on_detokenizer (gets any_output_token_ids);
  mret (mkCompletion (rs_request_index rs) s (if delta then token_ids else all_ids)
    (finish_string <$> finish_reason) (if finished then stop_reason else None)).

(** The prompt token ids of an output: placeholders for embeddings. *)
Definition output_prompt_ids rs : outcome (list Z) :=
  match rs_prompt_token_ids rs, rs_prompt_embeds rs with
  | Some l, _ => Ret l
  | None, Some n => Ret (replicate n 0)
  | None, None => Raise AssertionError
  end.

(** [_new_request_output], for completions and for a pooling output. *)
Definition new_request_output (external_req_id : string) (outputs : list (option CompletionOutput))
    (finished : bool) : M Local_ Item :=
  rs ← gets fst;
  ids ← of_outcome (output_prompt_ids rs);
  mret (Output (mkRequestOutput external_req_id (rs_prompt rs) (Some ids) outputs finished
    (Some (rs_num_cached_tokens rs)))).
Definition new_pooling_output (external_req_id : string) (data : list Z) (finished : bool) : M Local_ Item :=
  rs ← gets fst;
  ids ← of_outcome (output_prompt_ids rs);
  mret (Pooling (mkPooling external_req_id data ids (rs_num_cached_tokens rs) finished)).

(** The stream interval: [None] when nothing is sent now, else the token ids to send. *)
Definition stream_tokens (new_token_ids : list Z) (finished : bool) : M Local_ (option (list Z)) :=
  rs ← gets fst;
  if rs_stream_interval rs <=? 1 then mret (Some new_token_ids) else
  n ← on_detokenizer (gets any_num_output_tokens);
  if negb (finished || (rs_sent_tokens_offset rs =? 0)
           || (rs_stream_interval rs <=? n - rs_sent_tokens_offset rs)) then mret None
  else if bool_decide (rs_output_kind rs = DELTA) then
    ids ← on_detokenizer (gets any_output_token_ids);
    on_state (set_sent_tokens_offset n) ;;
    mret (Some (py_slice ids (rs_sent_tokens_offset rs) (len ids)))
  else mret (Some new_token_ids).

(** [RequestState.make_request_output]. *)
Definition make_request_output (new_token_ids : list Z) (pooling_output : option (list Z))
    (finish_reason : option FinishReason) (stop_reason : option OutputStop) : M Local_ (option Item) :=
  rs ← gets fst;
  let finished := bool_decide (is_Some finish_reason) in
  let final_only := bool_decide (rs_output_kind rs = FINAL_ONLY) in
  if negb finished && final_only then mret None else
  tokens ← stream_tokens new_token_ids finished;
  match tokens with
  | None => mret None
  | Some new_token_ids =>
      match pooling_output with
      | Some data => o ← new_pooling_output (rs_external_req_id rs) data finished; mret (Some o)
      | None =>
          output ← new_completion_output new_token_ids finish_reason stop_reason;
          match rs_parent_req rs with
          | None => o ← new_request_output (rs_external_req_id rs) [Some output] finished; mret (Some o)
          | Some pid =>
              r ← on_parent pid (get_outputs (rs_request_id rs) output);
              let '(outputs, finished) := r in
              if bool_decide (outputs = []) then mret None else
              ext ← on_parent pid (gets par_external_req_id);
              o ← new_request_output ext outputs finished; mret (Some o)
          end
      end
  end.

End state.

(** ** The processor *)

Record OutputProcessor (D : Type) := mkProcessor {
  request_states : gmap string (RequestState D);
  parent_requests : gset string;
  external_req_ids : gmap string (list string);
  parents : gmap string ParentRequest;
  collectors : gmap nat Collector;
  op_stream_interval : Z;
}.
Arguments mkProcessor {D}.
Arguments request_states {D}.
Arguments parent_requests {D}.
Arguments external_req_ids {D}.
Arguments parents {D}.
Arguments collectors {D}.
Arguments op_stream_interval {D}.

Section processor.
Context {D : Type} `{!Decoder D} `{!MakeDecoder D}.
Implicit Types (rs : RequestState D) (s : OutputProcessor D).

Definition processor_init (stream_interval : Z) : OutputProcessor D := mkProcessor ∅ ∅ ∅ ∅ ∅ stream_interval.

Definition set_request_states (m : gmap string (RequestState D)) s : OutputProcessor D :=
  mkProcessor m (parent_requests s) (external_req_ids s) (parents s) (collectors s) (op_stream_interval s).
Definition set_parent_requests (x : gset string) s : OutputProcessor D :=
  mkProcessor (request_states s) x (external_req_ids s) (parents s) (collectors s) (op_stream_interval s).
Definition set_external_req_ids (m : gmap string (list string)) s : OutputProcessor D :=
  mkProcessor (request_states s) (parent_requests s) m (parents s) (collectors s) (op_stream_interval s).
Definition set_parents (m : gmap string ParentRequest) s : OutputProcessor D :=
  mkProcessor (request_states s) (parent_requests s) (external_req_ids s) m (collectors s) (op_stream_interval s).
Definition set_collectors (m : gmap nat Collector) s : OutputProcessor D :=
  mkProcessor (request_states s) (parent_requests s) (external_req_ids s) (parents s) m (op_stream_interval s).

Definition processor_num_unfinished_requests s : Z := Z.of_nat (size (request_states s)).
Definition has_unfinished_requests s : bool := 0 <? processor_num_unfinished_requests s.

(** [queue.put(item)]. *)
Definition queue_put (q : nat) (item : Item) : M (OutputProcessor D) unit := λ s,
  match collectors s !! q with
  | None => (Raise AttributeError, s)
  | Some c => let '(o, c') := put item c in (o, set_collectors (<[q := c']> (collectors s)) s)
  end.

(** A call on a request state that is in the table, and on one that was taken out of it. *)
Definition in_table {A} (id : string) (m : M (RequestState D * gmap string ParentRequest) A) : M (OutputProcessor D) A := λ s,
  match request_states s !! id with
  | None => (Raise KeyError, s)
  | Some rs =>
      let '(o, x) := m (rs, parents s) in
      (o, set_parents x.2 (set_request_states (<[id := x.1]> (request_states s)) s))
  end.
Definition detached {A} rs (m : M (RequestState D * gmap string ParentRequest) A) : M (OutputProcessor D) A := λ s,
  let '(o, x) := m (rs, parents s) in (o, set_parents x.2 s).

(** [propagate_error]. *)
Definition propagate_error (e : exc) : M (OutputProcessor D) unit :=
  states ← gets request_states;
  for_each (map_to_list states) (λ x,
    match rs_queue x.2 with None => raise AssertionError | Some q => queue_put q (Failure e) end).

(** [internal_ids.remove(id)] on the list at [ext], which is made when it is missing, and its
    removal when it is empty. *)
Definition forget_external (ext id : string) : M (OutputProcessor D) unit :=
  m ← gets external_req_ids;
  let internal_ids := default [] (m !! ext) in
  modify (set_external_req_ids (<[ext := internal_ids]> m)) ;;
  if decide (id ∈ internal_ids) then
    let internal_ids' := list_remove_first id internal_ids in
    modify (set_external_req_ids
      (if bool_decide (internal_ids' = []) then delete ext m else <[ext := internal_ids']> m))
  else raise ValueError.

(** [_finish_request]. *)
Definition finish_request (id : string) : M (OutputProcessor D) unit :=
  states ← gets request_states;
  rs ← from_option_raise KeyError (states !! id);
  modify (set_request_states (delete id states)) ;;
  forget_external (rs_external_req_id rs) id ;;
  match rs_parent_req rs with
  | None => mret tt
  | Some pid =>
      ps ← gets parents;
      p ← from_option_raise KeyError (ps !! pid);
      if bool_decide (child_requests p = ∅) then modify (λ s, set_parent_requests (parent_requests s ∖ {[ pid ]}) s)
      else mret tt
  end.

(** *** Aborting *)

(** The first loop of [abort_requests]: the internal ids, taken out of the external map. *)
Definition collect_internal (internal : bool) (acc : list string) (request_id : string) : M (OutputProcessor D) (list string) :=
  if internal then
    states ← gets request_states;
    match states !! request_id with
    | Some rs => forget_external (rs_external_req_id rs) request_id ;; mret (acc ++ [request_id])
    | None => mret (acc ++ [request_id])
    end
  else
    m ← gets external_req_ids;
    modify (set_external_req_ids (delete request_id m)) ;;
    mret (acc ++ default [] (m !! request_id)).

(** The final output of an aborted request. *)
Definition abort_output rs : M (OutputProcessor D) unit :=
  match rs_queue rs with
  | None => mret tt
  | Some q =>
      r ← detached rs (make_request_output [] (if bool_decide (is_Some (rs_detokenizer rs)) then None else Some [])
        (Some ABORT) None);
      match r with Some item => queue_put q item | None => mret tt end
  end.

(** The body of the second loop, with the call that aborts children. *)
Definition abort_one (abort_children : gset string → M (OutputProcessor D) (list string))
    (request_ids_to_abort : list string) (request_id : string) : M (OutputProcessor D) (list string) :=
  states ← gets request_states;
  match states !! request_id with
  | Some rs =>
      (modify (set_request_states (delete request_id states)) ;; abort_output rs) ;;
      mret (request_ids_to_abort ++ [request_id])
  | None =>
      tracked ← gets parent_requests;
      if decide (request_id ∈ tracked) then
        ps ← gets parents;
        p ← from_option_raise KeyError (ps !! request_id);
        child_reqs ← (if bool_decide (child_requests p = ∅) then mret [] else abort_children (child_requests p));
        modify (λ s, set_parent_requests (parent_requests s ∖ {[ request_id ]}) s) ;;
        mret (request_ids_to_abort ++ child_reqs)
      else mret request_ids_to_abort
  end.

(** [abort_requests]. The children of a parent are a Python set: [set_order] is the order in which
    it is listed. [fuel] bounds the nesting of calls. *)
Fixpoint abort_requests (set_order : gset string → list string) (fuel : nat) (request_ids : list string)
    (internal : bool) : M (OutputProcessor D) (list string) :=
  match fuel with
  | O => raise RuntimeError
  | S fuel' =>
      internal_req_ids ← for_fold request_ids [] (collect_internal internal);
      for_fold internal_req_ids []
        (abort_one (λ children, abort_requests set_order fuel' (set_order children) true))
  end.

(** *** Adding *)

(** [RequestState.from_new_request] with [IncrementalDetokenizer.from_new_request]. *)
Definition from_new_request (r : EngineRequest) (prompt : option text) (parent_req : option string)
    (request_index : Z) (queue : option nat) (stream_interval : Z) : outcome (RequestState D) :=
  n ← prompt_length (er_prompt_token_ids r) (er_prompt_embeds r);
  let '(kind, d) :=
    match er_params r with
    | inl p =>
        (fp_output_kind p,
         Some (match (if fp_detokenize p then make_decoder r else None) with
               | None => NoText []
               | Some (ids, x) => WithText (detokenizer_init ids (fp_stop p) x)
               end))
    | inr kind => (kind, None)
    end in
  Ret (mkRequestState (er_request_id r) (er_external_req_id r) parent_req request_index kind prompt
    (er_prompt_token_ids r) (er_prompt_embeds r) n d true queue 0 stream_interval 0
    (er_resumable r) (if er_resumable r then Some [] else None)).

(** [input_chunk_queue[-1].final = True]. *)
Definition mark_final (l : list StreamingUpdate) : list StreamingUpdate :=
  match last l with
  | None => l
  | Some u => take (length l - 1) l ++ [mkStreamingUpdate (su_prompt u) (su_prompt_token_ids u) true]
  end.

(** [_update_streaming_request_state]. *)
Definition update_streaming_request_state rs (r : EngineRequest) (prompt : option text) : M (OutputProcessor D) unit :=
  let id := rs_request_id rs in
  let update f := modify (λ s, set_request_states (<[id := f rs]> (request_states s)) s) in
  if negb (er_resumable r) then
    match rs_input_chunk_queue rs with
    | None =>
        finish_request id ;;
        match rs_queue rs with Some q => queue_put q (Output STREAM_FINISHED) | None => mret tt end
    | Some [] => update (set_streaming false (Some []))
    | Some l => update (set_streaming (rs_streaming_input rs) (Some (mark_final l)))
    end
  else
    let u := mkStreamingUpdate prompt (er_prompt_token_ids r) false in
    match rs_input_chunk_queue rs with
    | None => update (λ rs, let rs' := apply_streaming_update u rs in set_streaming (rs_streaming_input rs') (Some []) rs')
    | Some l => update (set_streaming (rs_streaming_input rs) (Some (l ++ [u])))
    end.

(** [add_request]; [parent_req] is the id of a parent in the store. *)
Definition add_request (r : EngineRequest) (prompt : option text) (parent_req : option string)
    (request_index : Z) (queue : option nat) : M (OutputProcessor D) unit :=
  states ← gets request_states;
  match states !! er_request_id r with
  | Some rs => update_streaming_request_state rs r prompt
  | None =>
      n ← gets op_stream_interval;
      rs ← of_outcome (from_new_request r prompt parent_req request_index queue n);
      modify (set_request_states (<[er_request_id r := rs]> states)) ;;
      match parent_req with
      | Some pid => modify (λ s, set_parent_requests ({[ pid ]} ∪ parent_requests s) s)
      | None => mret tt
      end ;;
      modify (λ s, set_external_req_ids
        (<[rs_external_req_id rs := default [] (external_req_ids s !! rs_external_req_id rs) ++ [er_request_id r]]>
          (external_req_ids s)) s)
  end.

(** *** Processing outputs *)

Definition unfinish (i : Item) : Item :=
  match i with
  | Output o => Output (set_finished false o)
  | Pooling o => Pooling (mkPooling (pr_request_id o) (pr_data o) (pr_prompt_token_ids o) (pr_num_cached_tokens o) false)
  | Failure e => Failure e
  end.

(** Steps 2 and 4 of an output, on the request state: detokenize, then make the output. The
    value is the output and the final finish reason. *)
Definition detokenize_and_make (o : EngineOutput) : M (RequestState D * gmap string ParentRequest) (option Item * option FinishReason) :=
  on_state (λ rs, set_is_prefilling false (set_num_cached_tokens (en_num_cached_tokens o) rs)) ;;
  reasons ←
    (if bool_decide (en_pooling_output o = None) then
       stop_string ← on_detokenizer (any_update (en_new_token_ids o) (bool_decide (en_finish_reason o = Some STOP)));
       match stop_string with
       | None | Some [] => mret (en_finish_reason o, EngineStop <$> en_stop_reason o)
       | Some x => mret (Some STOP, Some (MatchedString x))
       end
     else mret (en_finish_reason o, EngineStop <$> en_stop_reason o));
  r ← make_request_output (en_new_token_ids o) (en_pooling_output o) reasons.1 reasons.2;
  mret (r, reasons.1).

(** The body of the loop of [process_outputs]: the request outputs and the ids to abort so far. *)
Definition process_one (acc : list Item * list string) (o : EngineOutput) : M (OutputProcessor D) (list Item * list string) :=
  let id := en_request_id o in
  states ← gets request_states;
  match states !! id with
  | None => mret acc
  | Some _ =>
      r ← in_table id (detokenize_and_make o);
      let '(request_output, finish_reason) := r in
      states ← gets request_states;
      rs ← from_option_raise KeyError (states !! id);
      returned ←
        (match request_output with
         | None => mret []
         | Some item =>
             let item := if rs_streaming_input rs then unfinish item else item in
             match rs_queue rs with
             | Some q => queue_put q item ;; mret []
             | None => mret [item]
             end
         end);
      let acc := (acc.1 ++ returned, acc.2) in
      match finish_reason with
      | None => mret acc
      | Some _ =>
          if rs_streaming_input rs then
            modify (λ s, set_request_states (<[id :=
              match rs_input_chunk_queue rs with
              | Some (u :: rest) => apply_streaming_update u (set_streaming (rs_streaming_input rs) (Some rest) rs)
              | _ => set_streaming (rs_streaming_input rs) None rs
              end]> (request_states s)) s) ;; mret acc
          else
            finish_request id ;;
            mret (if bool_decide (is_Some (en_finish_reason o)) then acc else (acc.1, acc.2 ++ [id]))
      end
  end.

(** *** A request of the engine *)

(** A call of a parent object. *)
Definition with_parent {A} (pid : string) (m : M ParentRequest A) : M (OutputProcessor D) A := λ s,
  match parents s !! pid with
  | None => (Raise KeyError, s)
  | Some p => let '(o, p') := m p in (o, set_parents (<[pid := p']> (parents s)) s)
  end.

(** The copy of a request for a child. *)
Definition child_request (r : EngineRequest) (id : string) : EngineRequest :=
  mkEngineRequest id (er_external_req_id r) (er_prompt_token_ids r) (er_prompt_embeds r) (er_params r) (er_resumable r).

(** One turn of the fan-out. *)
Definition add_child (r : EngineRequest) (prompt : option text) (queue : option nat) (idx : Z) : M (OutputProcessor D) unit :=
  info ← with_parent (er_request_id r) (get_child_info idx);
  add_request (child_request r info.1) prompt (Some (er_request_id r)) idx queue.

(** [LLMEngine.add_request], the part that the output processor sees: one request, or a parent with
    its children. *)
Definition engine_add_request (r : EngineRequest) (sp : ParallelParams) (prompt : option text) (queue : option nat) :
    M (OutputProcessor D) unit :=
  if n_samples sp =? 1 then add_request r prompt None 0 queue
  else
    modify (λ s, set_parents (<[er_request_id r := parent_init (er_request_id r) (er_external_req_id r) sp]> (parents s)) s) ;;
    for_each (py_range 0 (n_samples sp)) (add_child r prompt queue).

(** [process_outputs]. *)
Definition process_outputs (outs : list EngineOutput) : M (OutputProcessor D) (list Item * list string) :=
  for_fold outs ([], []) process_one.

End processor.
