(* ===== verification/OutputInv.v ===== *)
(** The invariant of the output processor: its tables agree, every shared object is there, and no
    operation raises. *)
From S2P Require Import Prelude Request StopCheck Detokenizer Outputs ParallelSampling OutputProcessor.
Local Open Scope Z_scope.

(** ** Decoders that do not fail *)

Class TotalDecoder (D : Type) `{!Decoder D} := {
  decode_returns ids t (x : D) : ids ≠ [] → ∃ s x', decode_next ids t x = (Ret s, x');
}.

#[global] Instance slow_total `{Tokenizer} : TotalDecoder Slow.
Proof.
  split. intros ids t x Hids. unfold decode_next. simpl. unfold slow_decode_next, detokenize_incrementally, mbind, M_bind, gets, id, from_option_raise.
  destruct (last ids) as [u|] eqn:Hl; [|by apply last_None in Hl].
  destruct (_ || _); eexists _, _; reflexivity.
Qed.

Section inv.
Context {D : Type} `{HD : TotalDecoder D} `{!MakeDecoder D}.
Implicit Types (rs : RequestState D) (s : OutputProcessor D).

Lemma wp_detokenize_one off t (d : Detokenizer D) : wp (detokenize_one off t) (λ _ _, True) noexc d.
Proof.
  unfold detokenize_one. wp_steps. apply wp_zoom. destruct (decode_returns (token_ids d ++ [t]) t (decoder d)) as (new & x & H).
  { by destruct (token_ids d). }
  unfold wp. simpl. rewrite H. done.
Qed.

Lemma update_ends new term (d : Detokenizer D) : wp (update new term) (λ _ _, True) noexc d.
Proof.
  unfold update. case_bool_decide; [done|]. wp_steps. eapply (wp_call _ (λ _ _, True)).
  { apply (wp_for_fold (λ _ _ _, True)); [done| |done]. intros. apply wp_detokenize_one. }
  intros off d' _. apply wp_bind. eapply (wp_call _ (λ _ _, True)); [by repeat case_match|].
  intros _ d'' _. wp_steps. destruct (_ && _); [|done]. destruct (check_stop_strings _ _ _ _) as [[y c]|]; [|done].
  apply wp_bind. eapply (wp_call _ (λ _ _, True)); [by repeat case_match|done].
Qed.

Lemma update_returns new term (a : AnyDetokenizer D) : ∃ r a', any_update new term a = (Ret r, a').
Proof.
  destruct a as [ids|d]; [by eexists _, _|]. unfold any_update, on_text.
  destruct (wp_run _ _ _ (update_ends new term d)) as (r & d' & -> & _). by eexists _, _.
Qed.

Lemma next_text_returns finished delta (a : AnyDetokenizer D) : ∃ r a', any_next_output_text finished delta a = (Ret r, a').
Proof.
  destruct a as [ids|d]; [by eexists _, _|]. unfold any_next_output_text, on_text, get_next_output_text, mbind, M_bind, gets, modify, id.
  destruct delta; simpl; [|by eexists _, _]. destruct (_ <? _); by eexists _, _.
Qed.

(** ** Parents and request states *)

(** The entry of every child that finished is there, under its own index. *)
Record parent_ok (p : ParentRequest) : Prop := {
  pk_length : output_kind (par_sampling_params p) = FINAL_ONLY → len (output_aggregator p) = n_samples (par_sampling_params p);
  pk_index i c : output_aggregator p !! i = Some (Some c) → co_index c = Z.of_nat i;
  pk_missing i : output_kind (par_sampling_params p) = FINAL_ONLY → output_aggregator p !! i = Some None → child_id (Z.of_nat i) (par_request_id p) ∈ child_requests p;
}.

Record state_ok (ps : gmap string ParentRequest) (id : string) rs : Prop := {
  so_id : rs_request_id rs = id;
  so_prompt : is_Some (rs_prompt_token_ids rs) ∨ is_Some (rs_prompt_embeds rs);
  so_pooling : rs_detokenizer rs = None → rs_stream_interval rs ≤ 1;
  so_parent pid : rs_parent_req rs = Some pid → ∃ p, ps !! pid = Some p ∧ parent_ok p ∧ par_request_id p = pid ∧
    0 ≤ rs_request_index rs < n_samples (par_sampling_params p) ∧ id = child_id (rs_request_index rs) pid ∧
    par_external_req_id p = rs_external_req_id rs;
  so_plain : rs_streaming_input rs = false ∧ rs_input_chunk_queue rs = None;
}.

(** What an output does not change of a request state. *)
Record same_request rs rs' : Prop := {
  sr_id : rs_request_id rs' = rs_request_id rs;
  sr_ext : rs_external_req_id rs' = rs_external_req_id rs;
  sr_parent : rs_parent_req rs' = rs_parent_req rs;
  sr_index : rs_request_index rs' = rs_request_index rs;
  sr_kind : rs_output_kind rs' = rs_output_kind rs;
  sr_prompt : rs_prompt_token_ids rs' = rs_prompt_token_ids rs;
  sr_embeds : rs_prompt_embeds rs' = rs_prompt_embeds rs;
  sr_queue : rs_queue rs' = rs_queue rs;
  sr_interval : rs_stream_interval rs' = rs_stream_interval rs;
  sr_streaming : rs_streaming_input rs' = rs_streaming_input rs;
  sr_chunks : rs_input_chunk_queue rs' = rs_input_chunk_queue rs;
  sr_detok : is_Some (rs_detokenizer rs') ↔ is_Some (rs_detokenizer rs);
}.

(** Parents stay, and of their children at most [Y] go. *)
Definition parents_kept (Y : gset string) (ps ps' : gmap string ParentRequest) : Prop := ∀ pid p, ps !! pid = Some p → parent_ok p →
  ∃ p', ps' !! pid = Some p' ∧ parent_ok p' ∧ par_sampling_params p' = par_sampling_params p ∧
    par_request_id p' = par_request_id p ∧ par_external_req_id p' = par_external_req_id p ∧ child_requests p ∖ Y ⊆ child_requests p' ⊆ child_requests p.

#[global] Instance same_request_pre : PreOrder same_request.
Proof.
  split; [by split|]. intros x y z [] []. split; try congruence. etrans; eauto.
Qed.
#[global] Instance parents_kept_pre Y : PreOrder (parents_kept Y).
Proof.
  split.
  - intros ps pid p H1 H2. exists p. split_and!; try done; set_solver.
  - intros x y z H1 H2 pid p Hp Hok. destruct (H1 pid p Hp Hok) as (p1 & G1 & G2 & G3 & G4 & G5 & G6).
    destruct (H2 pid p1 G1 G2) as (p2 & F1 & F2 & F3 & F4 & F5 & F6). exists p2.
    split_and!; try done; first [congruence|set_solver].
Qed.

Lemma state_ok_kept Y ps ps' id rs rs' : state_ok ps id rs → same_request rs rs' → parents_kept Y ps ps' → state_ok ps' id rs'.
Proof.
  intros [H1 H2 H3 H4 H5] [] Hps. split.
  - congruence.
  - by rewrite sr_prompt0, sr_embeds0.
  - intros Hd. rewrite sr_interval0. apply H3. destruct (rs_detokenizer rs); [|done].
    destruct sr_detok0 as [_ Hd']. rewrite Hd in Hd'. destruct Hd'; [by eexists|done].
  - intros pid. rewrite sr_parent0, sr_index0. intros Hpid. destruct (H4 pid Hpid) as (p & G1 & G2 & G3 & G4 & G5 & G6).
    destruct (Hps pid p G1 G2) as (p' & F1 & F2 & F3 & F4 & F5 & F6). exists p'. rewrite F3. split_and!; try done; first [lia|congruence].
  - by rewrite sr_streaming0, sr_chunks0.
Qed.

(** A list in which every output is there and in its place. *)
Lemma all_present (l : list (option CompletionOutput)) k :
  (∀ j, (j < length l)%nat → ∃ c, l !! j = Some (Some c) ∧ co_index c = k + Z.of_nat j) →
  ∃ cs, l = Some <$> cs ∧ NoDup (co_index <$> cs) ∧ ∀ j, j ∈ co_index <$> cs → k ≤ j.
Proof.
  revert k. induction l as [|o l IH]; intros k Hl; [exists []; split_and!; [done|constructor|by intros ? ?%elem_of_nil]|].
  destruct (Hl 0%nat) as (c & Ho & Hc); [simpl; lia|]. injection Ho as ->.
  destruct (IH (k + 1)) as (cs & -> & Hnd & Hge).
  { intros j Hj. destruct (Hl (S j)) as (c' & H1 & H2); [simpl; lia|]. exists c'. split; [done|]. lia. }
  exists (c :: cs). split; [done|]. csimpl. split.
  - apply NoDup_cons. split; [|done]. intros Hin%Hge. lia.
  - intros j [->|Hin%Hge]%elem_of_cons; lia.
Qed.

(** [get_outputs] returns, keeps the parent in order, and returns outputs that are complete. *)
Lemma get_outputs_ok p i c : parent_ok p → 0 ≤ i < n_samples (par_sampling_params p) → co_index c = i →
  wp (get_outputs (child_id i (par_request_id p)) c) (λ r p', parent_ok p' ∧ par_sampling_params p' = par_sampling_params p ∧
    par_request_id p' = par_request_id p ∧ par_external_req_id p' = par_external_req_id p ∧
    child_requests p ∖ (if co_finished c then {[ child_id i (par_request_id p) ]} else ∅) ⊆ child_requests p' ⊆ child_requests p ∧
    (∃ cs, r.1 = Some <$> cs ∧ NoDup (co_index <$> cs)) ∧
    (co_finished c → child_requests p' = child_requests p ∖ {[ child_id i (par_request_id p) ]})) noexc p.
Proof.
  intros [Hlen Hidx Hmiss] Hi Hc. set (x := child_id i (par_request_id p)).
  set (p1 := if co_finished c then set_child_requests (child_requests p ∖ {[x]}) p else p).
  assert (Hp1 : par_sampling_params p1 = par_sampling_params p ∧ par_request_id p1 = par_request_id p ∧
    par_external_req_id p1 = par_external_req_id p ∧
    child_requests p ∖ (if co_finished c then {[x]} else ∅) ⊆ child_requests p1 ⊆ child_requests p ∧ output_aggregator p1 = output_aggregator p ∧
    (∀ y, y ≠ x → y ∈ child_requests p → y ∈ child_requests p1) ∧ (co_finished c → child_requests p1 = child_requests p ∖ {[x]})).
  { subst p1. destruct (co_finished c); simpl; split_and!; try done; set_solver. }
  destruct Hp1 as (G1 & G2 & G3 & [G4 G4'] & G5 & G6 & G7).
  unfold get_outputs. apply wp_bind. eapply (wp_call _ (λ _ p', p' = p1)).
  { subst p1. destruct (co_finished c); [|done]. wp_steps. case_decide as Hd; [done|]. wp_steps.
    rewrite difference_disjoint_L by set_solver. by destruct p. }
  intros b p' ->. wp_steps. rewrite G1. case_bool_decide as Hk; simpl.
  - wp_steps. rewrite G5. unfold py_set. rewrite Hc, decide_True by (rewrite Hlen; [lia|done]). apply (wp_of_outcome _ _ _ _ _ eq_refl).
    wp_steps. set (agg := <[Z.to_nat i := Some c]> (output_aggregator p)).
    assert (Hok : parent_ok (set_output_aggregator agg p1)).
    { split; simpl; rewrite ?G1, ?G2.
      - intros Hk'. subst agg. rewrite length_insert. by apply Hlen.
      - intros j c'. subst agg. rewrite list_lookup_insert. case_decide as Hj; [|apply Hidx]. intros [= <-]. lia.
      - intros j _. subst agg. rewrite list_lookup_insert. case_decide as Hj; [done|]. intros Hn. apply G6; [|by apply Hmiss].
        subst x. intros Heq. apply (inj (λ i, child_id i (par_request_id p))) in Heq. apply Hj. split; [lia|].
        specialize (Hlen Hk). lia. }
    split_and!; [done|done..| |done]. simpl. case_bool_decide as He; [|exists []; split; [done|constructor]].
    assert (Hall : ∀ j, (j < length agg)%nat → ∃ c', agg !! j = Some (Some c') ∧ co_index c' = Z.of_nat j).
    { intros j [o Ho]%lookup_lt_is_Some_2. destruct o as [c'|]; [exists c'; split; [done|]; by apply (pk_index _ Hok)|].
      apply (pk_missing _ Hok) in Ho; [|by simpl; rewrite G1]. simpl in Ho. rewrite He in Ho. set_solver. }
    destruct (all_present agg 0) as (cs & H1 & H2 & _); [by intros j Hj; rewrite Z.add_0_l; apply Hall|]. by exists cs.
  - wp_steps. split_and!; [|done..| |done].
    + split; rewrite ?G1, ?G2, ?G5; [done|done|]. intros j Hj. done.
    + destruct b; [by exists []; split; [|constructor]|]. exists [c]. split; [done|]. apply NoDup_singleton.
Qed.

(** ** Making an output *)

Abbreviation Loc := (RequestState D * gmap string ParentRequest)%type.

(** A request state and the parents, before and after. *)
Definition stays (Y : gset string) (x x' : Loc) : Prop := same_request x.1 x'.1 ∧ parents_kept Y x.2 x'.2.

#[global] Instance stays_pre Y : PreOrder (stays Y).
Proof. split; [by split|]. intros x y z [H1 H2] [H3 H4]. split; by etrans. Qed.

(** An item that a collector accepts. *)
Definition item_ok (ext : string) (i : Item) : Prop :=
  match i with
  | Output o => ro_request_id o = ext ∧ ∃ cs, complete o cs
  | Pooling o => pr_request_id o = ext
  | Failure _ => False
  end.

Lemma wp_on_detokenizer {A} (m : M (AnyDetokenizer D) A) (x : Loc) : is_Some (rs_detokenizer x.1) →
  (∀ d, ∃ a d', m d = (Ret a, d')) → wp (on_detokenizer m) (λ _, stays ∅ x) noexc x.
Proof.
  intros [d Hd] Hm. unfold wp, on_detokenizer. rewrite Hd. destruct (Hm d) as (a & d' & ->).
  split; [|done]. by split; try done; simpl; rewrite Hd; split; eexists.
Qed.

Lemma gets_returns {St A} (f : St → A) (d : St) : ∃ a d', gets f d = (Ret a, d').
Proof. by eexists (f d), d. Qed.

Lemma stays_more Y (x x' : Loc) : stays ∅ x x' → stays Y x x'.
Proof.
  intros [H1 H2]. split; [done|]. intros pid p Hp Hok. destruct (H2 pid p Hp Hok) as (p' & G). exists p'.
  destruct G as (G1 & G2 & G3 & G4 & G5 & G6 & G7). split_and!; try done; set_solver.
Qed.

Lemma stays_detok Y (x x' : Loc) : stays Y x x' → is_Some (rs_detokenizer x.1) → is_Some (rs_detokenizer x'.1).
Proof. intros [[] _]. tauto. Qed.

Lemma wp_stream_tokens new finished (x : Loc) id : state_ok x.2 id x.1 → wp (stream_tokens new finished) (λ _, stays ∅ x) noexc x.
Proof.
  intros Hs. unfold stream_tokens. wp_steps. destruct (Z.leb_spec (rs_stream_interval x.1) 1); [done|].
  assert (Hd : is_Some (rs_detokenizer x.1)).
  { destruct (rs_detokenizer x.1) eqn:Hd; [done|]. pose proof (so_pooling _ _ _ Hs Hd). lia. }
  wp_steps. eapply wp_call; [apply wp_on_detokenizer; [done|intros; apply gets_returns]|]. intros n x1 Hx1. cbv beta.
  destruct (negb _); [done|]. case_bool_decide; [|done]. wp_steps.
  eapply wp_call; [apply wp_on_detokenizer; [by apply (stays_detok ∅ x)|intros; apply gets_returns]|]. intros ids x2 Hx2. wp_steps.
  unfold on_state. wp_steps. etrans; [exact Hx1|]. etrans; [exact Hx2|]. by split; [split|].
Qed.

Lemma wp_new_completion new fr sr (x : Loc) : is_Some (rs_detokenizer x.1) →
  wp (new_completion_output new fr sr) (λ c x', stays ∅ x x' ∧ co_index c = rs_request_index x.1 ∧ co_finish_reason c = finish_string <$> fr) noexc x.
Proof.
  intros Hd. unfold new_completion_output. wp_steps.
  eapply wp_call; [apply wp_on_detokenizer; [done|intros; apply next_text_returns]|]. intros t x1 Hx1. wp_steps.
  eapply wp_call; [apply wp_on_detokenizer; [by apply (stays_detok ∅ x)|intros; apply gets_returns]|]. intros ids x2 Hx2. wp_steps.
  split; [etrans; [exact Hx1|exact Hx2]|done].
Qed.

Lemma wp_output_prompt_ids rs (Q : list Z → Loc → Prop) (x : Loc) :
  is_Some (rs_prompt_token_ids rs) ∨ is_Some (rs_prompt_embeds rs) → (∀ ids, Q ids x) →
  wp (of_outcome (output_prompt_ids rs)) Q noexc x.
Proof.
  intros Hp Hk. unfold output_prompt_ids. destruct (rs_prompt_token_ids rs) as [l|]; [apply Hk|].
  destruct (rs_prompt_embeds rs); [apply Hk|]. by destruct Hp as [[]|[]].
Qed.

(** A parent's answer, from a request state. *)
Lemma wp_ask_parent pid c (x : Loc) id : state_ok x.2 id x.1 → rs_parent_req x.1 = Some pid → co_index c = rs_request_index x.1 →
  wp (on_parent pid (get_outputs (rs_request_id x.1) c)) (λ r x', stays (if co_finished c then {[ id ]} else ∅) x x' ∧ x'.1 = x.1 ∧ ∃ cs, r.1 = Some <$> cs ∧ NoDup (co_index <$> cs)) noexc x.
Proof.
  intros Hs Hp Hc. destruct (so_parent _ _ _ Hs pid Hp) as (p & H1 & H2 & H3 & H4 & H5 & _).
  unfold wp, on_parent. rewrite H1, (so_id _ _ _ Hs), H5, <-H3.
  destruct (wp_run _ _ _ (get_outputs_ok p _ c H2 H4 Hc)) as (r & p' & -> & G1 & G2 & G3 & G4 & [G5 G5'] & G6 & _).
  split_and!; [|done|exact G6]. split; [done|]. simpl. intros q p0 Hq Hok. rewrite H3. destruct (decide (q = pid)) as [->|Hne].
  - rewrite H1 in Hq. injection Hq as <-. exists p'. rewrite lookup_insert_eq. split_and!; try done. by rewrite H3 in G5.
  - exists p0. rewrite lookup_insert_ne by done. split_and!; try done; set_solver.
Qed.

(** The external id under which a request is answered. *)
Definition answer_id (x : Loc) : string :=
  match rs_parent_req x.1 with
  | None => rs_external_req_id x.1
  | Some pid => match x.2 !! pid with Some p => par_external_req_id p | None => rs_external_req_id x.1 end
  end.

Lemma wp_make_request_output new pool fr sr (x : Loc) id :
  state_ok x.2 id x.1 → (pool = None → is_Some (rs_detokenizer x.1)) →
  wp (make_request_output new pool fr sr) (λ r x', stays (if fr then {[ id ]} else ∅) x x' ∧ ∀ i, r = Some i → item_ok (if pool then rs_external_req_id x.1 else answer_id x) i) noexc x.
Proof.
  intros Hs Hpool. unfold make_request_output. wp_steps. destruct (negb _ && _); [by wp_steps|].
  wp_steps. eapply wp_call; [by eapply wp_stream_tokens|]. intros [new'|] x1 Hx1; [|wp_steps; split; [by apply stays_more|done]].
  pose proof Hx1 as [Hsr Hpk]. pose proof (state_ok_kept _ _ _ _ _ _ Hs Hsr Hpk) as Hs1.
  destruct pool as [data|]; wp_steps.
  { unfold new_pooling_output. wp_steps. apply wp_output_prompt_ids; [apply Hs1|]. intros ids. wp_steps.
    split; [by apply stays_more|]. by intros i [= <-]. }
  eapply wp_call; [apply wp_new_completion; eapply stays_detok; eauto|]. intros c x2 (Hx2 & Hi & Hfr). cbv beta.
  pose proof Hx2 as [Hsr2 Hpk2]. pose proof (state_ok_kept _ _ _ _ _ _ Hs1 Hsr2 Hpk2) as Hs2.
  assert (Hx12 : stays ∅ x x2) by (etrans; [exact Hx1|exact Hx2]). rewrite (sr_index _ _ Hsr) in Hi. unfold answer_id.
  destruct (rs_parent_req x.1) as [pid|] eqn:Hp.
  - wp_steps. rewrite <-(sr_id _ _ (proj1 Hx12)). eapply wp_call.
    { apply (wp_ask_parent pid c x2 id); [done| |]; destruct Hx12 as [[] _]; congruence. }
    intros [outs fin] x3 (Hx3 & Heq & cs & Hcs & Hnd). simpl in Hcs. cbv beta iota.
    assert (Hx13 : stays (if fr then {[ id ]} else ∅) x x3).
    { etrans; [by apply stays_more|]. unfold co_finished in Hx3. rewrite Hfr in Hx3. by destruct fr. } case_bool_decide; wp_steps; [done|].
    destruct (so_parent _ _ _ Hs pid Hp) as (p & H1 & H2 & _). rewrite H1.
    destruct (proj2 Hx13 pid p H1 H2) as (p3 & G1 & _ & _ & _ & G5 & _).
    eapply (wp_call _ (λ ext x4, ext = par_external_req_id p3 ∧ x4 = x3)).
    { unfold wp, on_parent. rewrite G1. simpl. split; [done|]. by rewrite insert_id by done; destruct x3. }
    intros ext x4 [-> ->]. wp_steps. unfold new_request_output. wp_steps. pose proof (state_ok_kept _ _ _ _ _ _ Hs (proj1 Hx13) (proj2 Hx13)) as Hs3.
    apply wp_output_prompt_ids; [apply Hs3|]. intros ids. wp_steps. split; [done|]. intros i [= <-]. simpl. split; [done|]. by exists cs.
  - unfold new_request_output. wp_steps. apply wp_output_prompt_ids; [apply Hs2|]. intros ids. wp_steps.
    split; [by apply stays_more|]. intros i [= <-]. simpl. split; [done|]. exists [c]. split; [done|]. apply NoDup_singleton.
Qed.

(** ** The tables *)

(** A collector in which an output may be merged. *)
Record accepting (c : Collector) : Prop := {
  ac_ready : ready_set c = bool_decide (collected c ≠ None);
  ac_output o : collected c = Some (Output o) → ∃ cs, complete o cs;
}.

(** The tables agree, except that the requests of [X] were taken out of the external map, and
    those of [Y] have left their parent. *)
Record ok_but (X Y : gset string) s : Prop := {
  ok_state id rs : request_states s !! id = Some rs → state_ok (parents s) id rs;
  ok_live id rs : request_states s !! id = Some rs → id ∉ X →
    ∃ l, external_req_ids s !! rs_external_req_id rs = Some l ∧ id ∈ l;
  ok_external ext l : external_req_ids s !! ext = Some l → l ≠ [] ∧ NoDup l ∧
    ∀ id, id ∈ l → id ∉ X ∧ ∃ rs, request_states s !! id = Some rs ∧ rs_external_req_id rs = ext;
  ok_queue id rs q : request_states s !! id = Some rs → rs_queue rs = Some q → is_Some (collectors s !! q);
  ok_collector q c : collectors s !! q = Some c → accepting c;
  ok_tracked id rs pid : request_states s !! id = Some rs → rs_parent_req rs = Some pid → pid ∈ parent_requests s;
  ok_child id rs pid p : request_states s !! id = Some rs → rs_parent_req rs = Some pid → parents s !! pid = Some p →
    id ∉ Y → id ∈ child_requests p;
  ok_parent pid : pid ∈ parent_requests s → ∃ p, parents s !! pid = Some p ∧ parent_ok p;
}.

(** Collectors are not removed. *)
Definition collectors_kept (m m' : gmap nat Collector) : Prop := ∀ q, is_Some (m !! q) → is_Some (m' !! q).

Lemma put_ok c i ext : accepting c → item_ok ext i → wp (put i) (λ _ c', accepting c') noexc c.
Proof.
  intros Hacc Hi. pose proof Hacc as [Hr Ho]. unfold put. wp_steps. unfold id. destruct (collected c) as [[o|po|e]|] eqn:Hc.
  - destruct i as [o'|po'|e']; [|by wp_steps|done].
    destruct (Ho o eq_refl) as [cs Hcs]. destruct Hi as [_ [ns Hns]]. apply wp_zoom.
    destruct (ro_add_complete (aggregate c) o o' cs ns Hcs Hns) as (o'' & H1 & H2 & _). unfold wp. rewrite H1.
    split; simpl; [by rewrite Hr|]. intros ? [= <-]. by eexists.
  - destruct i as [o'|po'|e']; wp_steps; [done|by split|done].
  - by destruct i as [o'|po'|e']; wp_steps.
  - destruct i as [o'|po'|e']; wp_steps; [|by split|done]. split; [done|]. simpl. intros ? [= <-]. apply Hi.
Qed.

Lemma wp_queue_put X Y q i ext s : ok_but X Y s → is_Some (collectors s !! q) → item_ok ext i →
  wp (queue_put q i) (λ _ s', ∃ m, s' = set_collectors m s ∧ ok_but X Y s' ∧ collectors_kept (collectors s) m) noexc s.
Proof.
  intros Hok [c Hc] Hi. destruct (wp_run _ _ _ (put_ok c i ext (ok_collector _ _ _ Hok q c Hc) Hi)) as (u & c' & Hp & Hacc).
  unfold wp, queue_put. rewrite Hc, Hp. eexists. split; [done|]. destruct Hok as [H1 H2 H3 H4 H5 H6 H7 H8].
  assert (Hk : collectors_kept (collectors s) (<[q:=c']> (collectors s))).
  { intros q' Hq'. destruct (decide (q' = q)) as [->|]; [rewrite lookup_insert_eq; by eexists|by rewrite lookup_insert_ne]. }
  split; [|done]. split; simpl; [done|done|done| | |done|done|done].
  - intros id rs q' Hrs Hq'. by apply Hk, (H4 id rs).
  - intros q' c0. destruct (decide (q' = q)) as [->|]; [rewrite lookup_insert_eq; by intros [= <-]|].
    rewrite lookup_insert_ne by done. apply H5.
Qed.

(** Taking a request out of the external map. *)
Lemma wp_forget_external X Y s id rs : ok_but X Y s → request_states s !! id = Some rs → id ∉ X →
  wp (forget_external (rs_external_req_id rs) id) (λ _ s', ∃ m, s' = set_external_req_ids m s ∧ ok_but (X ∪ {[ id ]}) Y s') noexc s.
Proof.
  intros [H1 H2 H3 H4 H5 H6 H7 H8] Hid HX. destruct (H2 id rs Hid HX) as (l & Hl & Hin). destruct (H3 _ l Hl) as (Hne & Hnd & Hall).
  unfold forget_external. wp_steps. rewrite Hl. simpl. rewrite decide_True by done. wp_steps.
  rewrite (list_remove_first_nodup id l Hnd). set (l' := filter _ l).
  assert (Hl' : ∀ x, x ∈ l' ↔ x ∈ l ∧ x ≠ id).
  { intros x. subst l'. rewrite list_elem_of_filter, list_elem_of_singleton. tauto. }
  eexists. split; [done|]. split; simpl; [done| | |done|done|done|done|done].
  - intros x rsx Hx HxX. destruct (H2 x rsx Hx) as (lx & Hlx & Hinx); [set_solver|].
    assert (Hxid : x ≠ id) by set_solver. destruct (decide (rs_external_req_id rsx = rs_external_req_id rs)) as [Heq|Hne'].
    + rewrite Heq, Hl in Hlx. injection Hlx as <-. assert (Hxl : x ∈ l') by by apply Hl'.
      rewrite bool_decide_eq_false_2 by (intros Hnil; rewrite Hnil in Hxl; by apply elem_of_nil in Hxl).
      exists l'. rewrite Heq, lookup_insert_eq. done.
    + exists lx. case_bool_decide; [rewrite lookup_delete_ne|rewrite lookup_insert_ne]; done.
  - intros ext lx Hlx. destruct (decide (ext = rs_external_req_id rs)) as [->|Hne'].
    + case_bool_decide as Hnil; [by rewrite lookup_delete_eq in Hlx|]. rewrite lookup_insert_eq in Hlx. injection Hlx as <-.
      split_and!; [done|by apply NoDup_filter|]. intros x [Hx Hxid]%Hl'. destruct (Hall x Hx) as [HxX Hrs]. split; [set_solver|done].
    + assert (Hlx' : external_req_ids s !! ext = Some lx).
      { by case_bool_decide; [rewrite lookup_delete_ne in Hlx|rewrite lookup_insert_ne in Hlx]. }
      destruct (H3 ext lx Hlx') as (G1 & G2 & G3). split_and!; [done|done|]. intros x Hx. destruct (G3 x Hx) as [HxX (rsx & Hrsx & Hext)].
      split; [|by eexists]. apply not_elem_of_union. split; [done|]. intros ->%elem_of_singleton. congruence.
Qed.

(** Taking it out of the table. *)
Lemma ok_delete X Y s id : ok_but X Y s → id ∈ X → ok_but (X ∖ {[ id ]}) Y (set_request_states (delete id (request_states s)) s).
Proof.
  intros [H1 H2 H3 H4 H5 H6 H7 H8] HX. split; simpl.
  - intros x rs [_ Hx]%lookup_delete_Some. by apply H1.
  - intros x rs [Hne Hx]%lookup_delete_Some HxX. apply H2; [done|set_solver].
  - intros ext l Hl. destruct (H3 ext l Hl) as (G1 & G2 & G3). split_and!; [done|done|]. intros x Hx.
    destruct (G3 x Hx) as [HxX (rs & Hrs & Hext)]. split; [set_solver|]. exists rs. split; [|done]. rewrite lookup_delete_ne; [done|set_solver].
  - intros x rs q [_ Hx]%lookup_delete_Some. by eapply H4.
  - done.
  - intros x rs pid [_ Hx]%lookup_delete_Some. by eapply H6.
  - intros x rs pid p [_ Hx]%lookup_delete_Some. by eapply H7.
  - done.
Qed.

(** New parents. *)
Lemma ok_parents X Y s ps' : ok_but X ∅ s → parents_kept Y (parents s) ps' → ok_but X Y (set_parents ps' s).
Proof.
  intros [H1 H2 H3 H4 H5 H6 H7 H8] Hk. split; simpl; [|done..| |].
  - intros id rs Hid. by eapply state_ok_kept; [by apply H1| |].
  - intros id rs pid p' Hid Hpid Hp' HY. destruct (so_parent _ _ _ (H1 id rs Hid) pid Hpid) as (p & G1 & G2 & _).
    destruct (Hk pid p G1 G2) as (p'' & F1 & _ & _ & _ & _ & F6 & _). rewrite Hp' in F1. injection F1 as <-.
    pose proof (H7 id rs pid p Hid Hpid G1 (not_elem_of_empty _)). set_solver.
  - intros pid Hpid. destruct (H8 pid Hpid) as (p & G1 & G2). destruct (Hk pid p G1 G2) as (p' & F1 & F2 & _). by exists p'.
Qed.

(** A request state replaced by one of the same request. *)
Lemma ok_replace X Y s id rs rs' : ok_but X Y s → request_states s !! id = Some rs → same_request rs rs' →
  ok_but X Y (set_request_states (<[id := rs']> (request_states s)) s).
Proof.
  intros [H1 H2 H3 H4 H5 H6 H7 H8] Hid Hsr.
  assert (Hx : ∀ x rsx, <[id := rs']> (request_states s) !! x = Some rsx → ∃ rs0, request_states s !! x = Some rs0 ∧ same_request rs0 rsx).
  { intros x rsx. destruct (decide (x = id)) as [->|]; [rewrite lookup_insert_eq; intros [= <-]; by exists rs|].
    rewrite lookup_insert_ne by done. intros. by exists rsx. }
  split; simpl.
  - intros x rsx (rs0 & G & Hs)%Hx. eapply (state_ok_kept ∅); [by apply H1|done|done].
  - intros x rsx (rs0 & G & [])%Hx HX. rewrite sr_ext0. by apply H2.
  - intros ext l Hl. destruct (H3 ext l Hl) as (G1 & G2 & G3). split_and!; [done|done|]. intros x Hx'.
    destruct (G3 x Hx') as [HX (rsx & F1 & F2)]. split; [done|]. destruct (decide (x = id)) as [->|].
    + exists rs'. rewrite lookup_insert_eq. split; [done|]. destruct Hsr. congruence.
    + exists rsx. by rewrite lookup_insert_ne.
  - intros x rsx q (rs0 & G & [])%Hx. rewrite sr_queue0. by apply (H4 x).
  - done.
  - intros x rsx pid (rs0 & G & [])%Hx. rewrite sr_parent0. by apply (H6 x).
  - intros x rsx pid p (rs0 & G & [])%Hx. rewrite sr_parent0. by apply (H7 x).
  - done.
Qed.

(** A request that is not in the table may have left its parent. *)
Lemma ok_gone X s id : ok_but X {[ id ]} s → request_states s !! id = None → ok_but X ∅ s.
Proof.
  intros [H1 H2 H3 H4 H5 H6 H7 H8] Hid. split; try done. intros x rs pid p Hx Hpid Hp _. apply (H7 x rs pid p); [done..|].
  intros ->%elem_of_singleton. congruence.
Qed.

Lemma forget_external_states m ext id s :
  forget_external ext id (set_request_states m s) = let '(o, s') := forget_external ext id s in (o, set_request_states m s').
Proof. unfold forget_external, mbind, M_bind, gets, modify. simpl. case_decide; done. Qed.

(** [_finish_request] forgets the request and, with its last child, the parent. *)
Lemma wp_finish_request s id rs : ok_but ∅ {[ id ]} s → request_states s !! id = Some rs →
  wp (finish_request id) (λ _ s', ok_but ∅ ∅ s' ∧ request_states s' = delete id (request_states s) ∧
    parents s' = parents s ∧ collectors s' = collectors s ∧ op_stream_interval s' = op_stream_interval s ∧
    parent_requests s' ⊆ parent_requests s) noexc s.
Proof.
  intros Hok Hid. unfold finish_request. wp_steps. apply (wp_from_option _ _ rs); [done|]. wp_steps.
  destruct (wp_run _ _ _ (wp_forget_external _ _ _ _ _ Hok Hid (not_elem_of_empty _))) as (u & s1 & Hf & m & -> & Hok1).
  unfold wp. rewrite forget_external_states, Hf. cbv beta iota.
  assert (Hok2 : ok_but ∅ ∅ (set_request_states (delete id (request_states s)) (set_external_req_ids m s))).
  { apply (ok_delete _ _ _ id) in Hok1; [|set_solver]. simpl in Hok1. rewrite union_empty_l_L, difference_diag_L in Hok1.
    eapply ok_gone; [exact Hok1|]. simpl. by rewrite lookup_delete_eq. }
  set (s2 := set_request_states _ _) in *. change (wp (match rs_parent_req rs with None => mret tt | Some pid => ps ← gets parents;
      p ← from_option_raise KeyError (ps !! pid);
      if bool_decide (child_requests p = ∅) then modify (λ s, set_parent_requests (parent_requests s ∖ {[ pid ]}) s) else mret tt end)
    (λ _ s', ok_but ∅ ∅ s' ∧ request_states s' = delete id (request_states s) ∧
    parents s' = parents s ∧ collectors s' = collectors s ∧ op_stream_interval s' = op_stream_interval s ∧
    parent_requests s' ⊆ parent_requests s) noexc s2).
  destruct (rs_parent_req rs) as [pid|] eqn:Hp; [|wp_steps; by split_and!].
  destruct (so_parent _ _ _ (ok_state _ _ _ Hok id rs Hid) pid Hp) as (p & G1 & _). wp_steps.
  apply (wp_from_option _ _ p); [done|]. case_bool_decide as He; wp_steps; [|by split_and!].
  split_and!; try done; [|set_solver]. destruct Hok2 as [H1 H2 H3 H4 H5 H6 H7 H8]. split; try done; simpl; [|set_solver].
  intros x rsx pid' Hx Hpid'. apply elem_of_difference. split; [by apply (H6 x rsx)|]. intros ->%elem_of_singleton.
  specialize (H7 x rsx pid p Hx Hpid' G1 (not_elem_of_empty _)). rewrite He in H7. set_solver.
Qed.

(** ** Processing outputs *)

(** An output is of the kind of its request: pooled data for a request without a detokenizer. *)
Definition fits s (o : EngineOutput) : Prop := ∀ rs, request_states s !! en_request_id o = Some rs →
  en_pooling_output o = None ↔ is_Some (rs_detokenizer rs).

(** A request ends with the output of the engine that says so, or when a stop string is found in
    its text. *)
Definition text_stops (o : EngineOutput) (rs : RequestState D) : bool :=
  match rs_detokenizer rs with
  | Some d =>
      match (any_update (en_new_token_ids o) (bool_decide (en_finish_reason o = Some STOP)) d).1 with
      | Ret (Some (_ :: _)) => bool_decide (en_pooling_output o = None)
      | _ => false
      end
  | None => false
  end.
Definition ends_request (o : EngineOutput) (rs : RequestState D) : bool := bool_decide (is_Some (en_finish_reason o)) || text_stops o rs.

(** Children answer under the external id of their parent, which is their own. *)
Lemma answer_external (x : Loc) id : state_ok x.2 id x.1 → answer_id x = rs_external_req_id x.1.
Proof.
  intros Hs. unfold answer_id. destruct (rs_parent_req x.1) as [pid|] eqn:Hp; [|done].
  destruct (so_parent _ _ _ Hs pid Hp) as (p & -> & _ & _ & _ & _ & ->). done.
Qed.

Lemma wp_detokenize_and_make o (x : Loc) id : state_ok x.2 id x.1 → (en_pooling_output o = None ↔ is_Some (rs_detokenizer x.1)) →
  wp (detokenize_and_make o) (λ r x', stays (if r.2 then {[ id ]} else ∅) x x' ∧
    bool_decide (is_Some r.2) = ends_request o x.1 ∧
    ∀ i, r.1 = Some i → item_ok (rs_external_req_id x.1) i) noexc x.
Proof.
  intros Hs Hfit. unfold detokenize_and_make, on_state. wp_steps.
  set (x1 := (_, x.2)). assert (Hx1 : stays ∅ x x1) by by split; [split|].
  assert (Hd1 : rs_detokenizer x1.1 = rs_detokenizer x.1) by done. clearbody x1.
  eapply (wp_call _ (λ r x', stays ∅ x x' ∧ bool_decide (is_Some r.1) = ends_request o x.1)); unfold ends_request, text_stops.
  { case_bool_decide as Hpool.
    2: { wp_steps. split; [done|]. simpl. by repeat case_match; rewrite orb_false_r. }
    wp_steps. destruct (proj1 Hfit Hpool) as [d Hd]. rewrite Hd in *.
    destruct (update_returns (en_new_token_ids o) (bool_decide (en_finish_reason o = Some STOP)) d) as (st & d' & Hup).
    pose proof (wp_on_detokenizer (any_update (en_new_token_ids o) (bool_decide (en_finish_reason o = Some STOP))) x1
      ltac:(rewrite Hd1; by eexists) (update_returns _ _)) as Hw.
    unfold wp, on_detokenizer in Hw |- *. rewrite Hd1, Hup in *. cbv beta iota in Hw |- *. simpl in Hw |- *.
    match type of Hw with stays _ _ ?x2 => assert (Hx12 : stays ∅ x x2) by (etrans; [exact Hx1|exact Hw]) end.
    destruct st as [[|y l]|]; simpl; split; try done; by rewrite ?orb_false_r, ?orb_true_r. }
  intros [fr sr] x2 [Hx2 Hfr]. wp_steps. simpl in *. pose proof (state_ok_kept _ _ _ _ _ _ Hs (proj1 Hx2) (proj2 Hx2)) as Hs2.
  eapply wp_call; [eapply wp_make_request_output; [exact Hs2|]|].
  { intros Hpool. apply (stays_detok ∅ x); [done|by apply Hfit]. }
  intros r x3 [Hx3 Hr]. wp_steps. simpl. split_and!.
  - etrans; [apply stays_more, Hx2|exact Hx3].
  - done.
  - intros i Hi. specialize (Hr i Hi). rewrite (answer_external x2 id Hs2) in Hr.
    destruct Hx2 as [[] _]. rewrite sr_ext0 in Hr. by destruct (en_pooling_output o).
Qed.

(** One output: the request it is for may change or go, no other does. *)
Record handled (o : EngineOutput) s s' : Prop := {
  hd_others id : id ≠ en_request_id o → request_states s' !! id = request_states s !! id;
  hd_same rs : request_states s !! en_request_id o = Some rs →
    (request_states s' !! en_request_id o = None ↔ ends_request o rs = true) ∧
    ∀ rs', request_states s' !! en_request_id o = Some rs' → same_request rs rs';
  hd_none : request_states s !! en_request_id o = None → s' = s;
  hd_interval : op_stream_interval s' = op_stream_interval s;
}.

(** The request that the engine core must be told to abort: it ended at a stop string. *)
Definition stopped_by_text s (o : EngineOutput) : list string :=
  match request_states s !! en_request_id o with
  | Some rs => if negb (bool_decide (is_Some (en_finish_reason o))) && text_stops o rs then [en_request_id o] else []
  | None => []
  end.

(** The items that an output adds carry the external id of its request. *)
Definition adds_items s (o : EngineOutput) (acc acc' : list Item * list string) : Prop :=
  (request_states s !! en_request_id o = None → acc' = acc) ∧ acc'.2 = acc.2 ++ stopped_by_text s o ∧
  ∃ items, acc'.1 = acc.1 ++ items ∧ ∀ i, i ∈ items → ∃ rs, request_states s !! en_request_id o = Some rs ∧ item_ok (rs_external_req_id rs) i.

Lemma wp_process_one acc o s : ok_but ∅ ∅ s → fits s o →
  wp (process_one acc o) (λ acc' s', ok_but ∅ ∅ s' ∧ handled o s s' ∧ adds_items s o acc acc') noexc s.
Proof.
  intros Hok Hfit. unfold process_one. wp_steps. set (id := en_request_id o) in *.
  destruct (request_states s !! id) as [rs|] eqn:Hid; [|wp_steps; split_and!; [done|split; try done; fold id; congruence|split_and!; [done|unfold stopped_by_text; fold id; by rewrite Hid, app_nil_r|]; exists []; rewrite app_nil_r; split; [done|by intros i ?%elem_of_nil]]].
  pose proof (ok_state _ _ _ Hok id rs Hid) as Hs. destruct (so_plain _ _ _ Hs) as [Hstream _].
  destruct (wp_run _ _ _ (wp_detokenize_and_make o (rs, parents s) id Hs (Hfit rs Hid))) as ([item fr] & [rs1 ps1] & Hd & [Hsr Hpk] & Hfr & Hitem).
  simpl in *. wp_steps. unfold wp at 1, in_table. rewrite Hid, Hd. cbv beta iota.
  set (s1 := set_parents _ _). set (Y := if fr then {[ id ]} else ∅) in *.
  assert (Hok1 : ok_but ∅ Y s1).
  { apply (ok_replace _ _ (set_parents ps1 s) id rs rs1); [by apply ok_parents|done|done]. }
  assert (Hid1 : request_states s1 !! id = Some rs1) by (subst s1; simpl; by rewrite lookup_insert_eq).
  assert (Hoth : ∀ x, x ≠ id → request_states s1 !! x = request_states s !! x) by (intros x Hx; subst s1; simpl; by rewrite lookup_insert_ne).
  assert (Hint : op_stream_interval s1 = op_stream_interval s) by done. clearbody s1.
  wp_steps. apply (wp_from_option _ _ rs1); [done|]. rewrite (sr_streaming _ _ Hsr), Hstream. wp_steps.
  eapply (wp_call _ (λ l s', ok_but ∅ Y s' ∧ request_states s' = request_states s1 ∧ op_stream_interval s' = op_stream_interval s1 ∧
    ∀ i, i ∈ l → item_ok (rs_external_req_id rs) i)).
  { assert (Hnil : ∀ i : Item, i ∈ [] → item_ok (rs_external_req_id rs) i) by by intros i ?%elem_of_nil.
    destruct item as [i|]; [|by wp_steps]. destruct (rs_queue rs1) as [q|] eqn:Hq; cycle 1.
    { wp_steps. split_and!; [done|done|done|]. intros i' ->%list_elem_of_singleton. by apply Hitem. }
    wp_steps.
    eapply wp_call; [eapply wp_queue_put; [exact Hok1|by eapply (ok_queue _ _ _ Hok1)|by apply Hitem]|].
    intros u s2 (m & -> & Hok2 & _). by wp_steps. }
  intros returned s2 (Hok2 & Hst2 & Hint2 & Hret). assert (Hadds : ∀ l, l = acc.2 ++ stopped_by_text s o → adds_items s o acc (acc.1 ++ returned, l)).
  { intros l Hl. split_and!; [by fold id; rewrite Hid|done|]. exists returned. split; [done|]. intros i Hi. exists rs. split; [exact Hid|by apply Hret]. }
  assert (Hstop : stopped_by_text s o = if negb (bool_decide (is_Some (en_finish_reason o))) && text_stops o rs then [id] else [])
    by (unfold stopped_by_text; fold id; by rewrite Hid).
  destruct fr as [fr|]; simpl in Y; cbv beta iota.
  - wp_steps. rewrite <-Hst2 in Hid1. eapply wp_call; [by apply (wp_finish_request s2 id rs1)|].
    intros u s3 (Hok3 & Hst3 & _ & _ & Hint3 & _). wp_steps. split_and!; [done| |].
    2: { rewrite Hstop in Hadds. unfold ends_request in Hfr. case_bool_decide; apply Hadds; [by rewrite app_nil_r|]. simpl in Hfr |- *. by rewrite <-Hfr. }
    fold id in Hid1. rewrite Hst2 in Hst3.
    split; [|fold id; rewrite Hid, Hst3, lookup_delete_eq; intros ? [= <-]; by rewrite <-Hfr|fold id; congruence|congruence].
    intros x Hx. rewrite Hst3, lookup_delete_ne by done. by apply Hoth.
  - wp_steps. unfold ends_request in Hfr. symmetry in Hfr. apply orb_false_iff in Hfr as [Hfr1 Hfr2].
    split_and!; [done| |apply Hadds; rewrite Hstop, Hfr2, andb_false_r; by rewrite app_nil_r]. split.
    + intros x Hx. rewrite Hst2. by apply Hoth.
    + intros rs0 Hrs0. fold id in Hrs0 |- *. rewrite Hid in Hrs0. injection Hrs0 as <-. rewrite Hst2, Hid1. split; [|by intros ? [= <-]].
      unfold ends_request. by rewrite Hfr1, Hfr2.
    + fold id. congruence.
    + congruence.
Qed.

(** [process_outputs] never raises and keeps the tables in order. *)
Lemma fits_handled s s' o o' : handled o s s' → fits s o' → fits s' o'.
Proof.
  intros [H1 H2 H3 _] Hf rs' Hrs'. destruct (decide (en_request_id o' = en_request_id o)) as [Heq|Hne].
  - rewrite Heq in Hrs'. destruct (request_states s !! en_request_id o) as [rs|] eqn:Hrs.
    + destruct (H2 rs eq_refl) as [_ Hsame]. destruct (Hsame rs' Hrs'). rewrite sr_detok0. apply Hf. by rewrite Heq.
    + rewrite (H3 eq_refl) in Hrs'. congruence.
  - rewrite H1 in Hrs' by done. by apply Hf.
Qed.

Lemma handled_none s s' o id : handled o s s' → request_states s !! id = None → request_states s' !! id = None.
Proof.
  intros [H1 _ H3 _] Hid. destruct (decide (id = en_request_id o)) as [->|Hne]; [by rewrite (H3 Hid)|]. by rewrite H1.
Qed.

Lemma handled_finished s s' o : handled o s s' → en_finish_reason o ≠ None → request_states s' !! en_request_id o = None.
Proof.
  intros Hh Hf. destruct (request_states s !! en_request_id o) as [rs|] eqn:Hid; [|by eapply handled_none]. apply (hd_same _ _ _ Hh rs Hid).
  unfold ends_request. rewrite bool_decide_true; [done|]. by destruct (en_finish_reason o).
Qed.

(** With one output per request, a request is forgotten exactly when its output ends it. *)
Definition settled_each (outs : list EngineOutput) (acc acc' : list Item * list string) s s' : Prop :=
  NoDup (en_request_id <$> outs) →
  (∀ o rs, o ∈ outs → request_states s !! en_request_id o = Some rs → (request_states s' !! en_request_id o = None ↔ ends_request o rs = true)) ∧
  acc'.2 = acc.2 ++ concat (stopped_by_text s <$> outs).

Lemma stopped_by_text_same s s' o : request_states s' !! en_request_id o = request_states s !! en_request_id o → stopped_by_text s' o = stopped_by_text s o.
Proof. unfold stopped_by_text. by intros ->. Qed.

Lemma settled_each_cons o outs acc acc1 acc2 s s1 s2 : handled o s s1 → adds_items s o acc acc1 →
  (∀ id, id ∉ en_request_id <$> outs → request_states s2 !! id = request_states s1 !! id) →
  settled_each outs acc1 acc2 s1 s2 → settled_each (o :: outs) acc acc2 s s2.
Proof.
  intros Hh (_ & Ha & _) Hoth IH Hnd. csimpl in Hnd. apply NoDup_cons in Hnd as [Hno Hnd]. destruct (IH Hnd) as [IH1 IH2].
  assert (∀ o', o' ∈ outs → request_states s1 !! en_request_id o' = request_states s !! en_request_id o') as Hsame.
  { intros o' Hin. apply Hh. intros Heq. apply Hno. rewrite <-Heq. by apply list_elem_of_fmap_2. }
  split.
  - intros o' rs [->|Hin]%elem_of_cons Hrs; [rewrite Hoth by done; by apply Hh|]. apply IH1; [done|]. by rewrite Hsame.
  - rewrite IH2, Ha. csimpl. rewrite <-app_assoc. do 3 f_equal. apply list_fmap_ext. intros i o' Hi.
    apply stopped_by_text_same, Hsame. by eapply list_elem_of_lookup_2.
Qed.

Lemma wp_process_outputs outs acc s : ok_but ∅ ∅ s → Forall (fits s) outs →
  wp (for_fold outs acc process_one) (λ acc' s', ok_but ∅ ∅ s' ∧
    (∀ id, id ∉ en_request_id <$> outs → request_states s' !! id = request_states s !! id) ∧
    (∀ id, request_states s !! id = None → request_states s' !! id = None) ∧
    (∀ o, o ∈ outs → en_finish_reason o ≠ None → request_states s' !! en_request_id o = None) ∧
    settled_each outs acc acc' s s') noexc s.
Proof.
  revert acc s. induction outs as [|o outs IH]; intros acc s Hok Hf; simpl.
  { wp_steps. split_and!; try done; [by intros o ?%elem_of_nil|]. intros _. split; [by intros o rs ?%elem_of_nil|by rewrite app_nil_r]. }
  apply Forall_cons in Hf as [Ho Hf]. wp_steps. eapply wp_call; [by apply wp_process_one|].
  intros acc' s1 (Hok1 & Hh & Hadd). cbv beta. eapply wp_call.
  { apply IH; [done|]. eapply Forall_impl; [exact Hf|]. intros o' Ho'. by eapply fits_handled. }
  intros acc'' s2 (Hok2 & Hoth & Hnone & Hfin & Hset). split_and!; [done| | | |by eapply settled_each_cons].
  - intros id Hid. csimpl in Hid. apply not_elem_of_cons in Hid as [Hne Hid]. rewrite Hoth by done. by apply Hh.
  - intros id Hid. by eapply Hnone, handled_none.
  - intros o' [->|Hin]%elem_of_cons Hne; [|by apply Hfin]. by apply Hnone, (handled_finished s).
Qed.

(** ** Aborting *)

Definition live s (id : string) : bool := bool_decide (is_Some (request_states s !! id)).

Lemma live_true s id : live s id = true ↔ ∃ rs, request_states s !! id = Some rs.
Proof. unfold live. by rewrite bool_decide_eq_true. Qed.
Lemma live_false s id : live s id = false ↔ request_states s !! id = None.
Proof. unfold live. rewrite bool_decide_eq_false, <-eq_None_not_Some. done. Qed.

(** The requests of [A] are gone, and they have left their parents at most. *)
Record removed (A : gset string) s s' : Prop := {
  rm_states id : request_states s' !! id = if decide (id ∈ A) then None else request_states s !! id;
  rm_parents : parents_kept A (parents s) (parents s');
  rm_interval : op_stream_interval s' = op_stream_interval s;
}.

Lemma parents_kept_mono A B ps ps' : A ⊆ B → parents_kept A ps ps' → parents_kept B ps ps'.
Proof.
  intros HAB H pid p Hp Hok. destruct (H pid p Hp Hok) as (p' & G1 & G2 & G3 & G4 & G5 & G6 & G7). exists p'.
  split_and!; try done; set_solver.
Qed.

Lemma removed_trans A B s1 s2 s3 : removed A s1 s2 → removed B s2 s3 → removed (A ∪ B) s1 s3.
Proof.
  intros [H1 H2 H3] [G1 G2 G3]. split; [|etrans; [apply (parents_kept_mono A); [set_solver|done]|apply (parents_kept_mono B); [set_solver|done]]|congruence].
  intros id. rewrite G1, H1. repeat case_decide; try done; set_solver.
Qed.

Lemma removed_live A s s' id : removed A s s' → live s' id = live s id && bool_decide (id ∉ A).
Proof.
  intros [H1 _ _]. unfold live. rewrite H1. case_decide; [rewrite (bool_decide_eq_false_2 (id ∉ A)) by tauto; by rewrite andb_false_r|].
  rewrite (bool_decide_eq_true_2 (id ∉ A)) by done. by rewrite andb_true_r.
Qed.

(** A live request: out of the table, with a final output for its collector. *)
Lemma wp_abort_live X s id rs : ok_but X ∅ s → request_states s !! id = Some rs → id ∈ X →
  wp (modify (set_request_states (delete id (request_states s))) ;; abort_output rs) (λ _ s', ok_but (X ∖ {[ id ]}) ∅ s' ∧
    removed {[ id ]} s s' ∧ parent_requests s' = parent_requests s) noexc s.
Proof.
  intros Hok Hid HX. wp_steps. pose proof (ok_delete _ _ _ _ Hok HX) as Hok1.
  set (s1 := set_request_states _ s) in *. assert (Hid1 : request_states s1 !! id = None) by (subst s1; simpl; by rewrite lookup_delete_eq).
  assert (Hst : ∀ x, request_states s1 !! x = if decide (x ∈ ({[id]} : gset string)) then None else request_states s !! x).
  { intros x. subst s1. simpl. case_decide as Hx; [apply elem_of_singleton in Hx as ->; by rewrite lookup_delete_eq|]. rewrite lookup_delete_ne; [done|set_solver]. }
  unfold abort_output. destruct (rs_queue rs) as [q|] eqn:Hq; [|wp_steps; by split_and!]. wp_steps.
  pose proof (ok_state _ _ _ Hok id rs Hid) as Hs. set (pool := if bool_decide _ then None else Some []).
  assert (Hpool : pool = None → is_Some (rs_detokenizer rs)) by (subst pool; case_bool_decide; done).
  destruct (wp_run _ _ _ (wp_make_request_output [] pool (Some ABORT) None (rs, parents s) id Hs Hpool)) as (r & [rs' ps'] & Hm & [_ Hpk] & Hitem).
  simpl in Hpk. unfold wp at 1, detached. change (parents s1) with (parents s). rewrite Hm. simpl.
  assert (Hok2 : ok_but (X ∖ {[id]}) ∅ (set_parents ps' s1)) by (apply (ok_gone _ _ id); [by apply ok_parents|done]).
  destruct r as [i|]; [|wp_steps; by split_and!].
  eapply wp_call; [eapply wp_queue_put; [exact Hok2|by apply (ok_queue _ _ _ Hok id rs)|by apply Hitem]|].
  intros u s2 (m & -> & Hok3 & _). by split_and!.
Qed.

(** The first loop, on internal ids: they leave the external map. *)
Lemma wp_collect_internal X s ids acc : ok_but X ∅ s → NoDup ids → (∀ x, x ∈ ids → x ∉ X) →
  wp (for_fold ids acc (collect_internal true)) (λ r s', r = acc ++ ids ∧ ok_but (X ∪ list_to_set (filter (live s) ids)) ∅ s' ∧
    ∃ m, s' = set_external_req_ids m s) noexc s.
Proof.
  revert X s acc. induction ids as [|id ids IH]; intros X s acc Hok Hnd HX; simpl.
  { wp_steps. rewrite app_nil_r, union_empty_r_L. split_and!; [done|done|]. exists (external_req_ids s). by destruct s. }
  apply NoDup_cons in Hnd as [Hnin Hnd]. wp_steps.
  eapply (wp_call _ (λ r s', r = acc ++ [id] ∧ ok_but (X ∪ (if live s id then {[ id ]} else ∅)) ∅ s' ∧ ∃ m, s' = set_external_req_ids m s)).
  { unfold collect_internal. wp_steps. destruct (request_states s !! id) as [rs|] eqn:Hid.
    - rewrite (proj2 (live_true s id)) by by eexists. wp_steps. eapply wp_call; [apply (wp_forget_external X ∅ s id rs); [done|done|apply HX; left]|].
      intros u s1 (m & -> & Hok1). wp_steps. eauto.
    - rewrite (proj2 (live_false s id)) by done. wp_steps. rewrite union_empty_r_L. split_and!; [done|done|]. exists (external_req_ids s). by destruct s. }
  intros r s1 (-> & Hok1 & m & ->). eapply wp_call; [apply IH; [exact Hok1|done|]|].
  { intros x Hx. assert (x ≠ id) by set_solver. assert (x ∉ X) by (apply HX; by right). destruct (live s id); set_solver. }
  intros r s2 (-> & Hok2 & m' & ->). rewrite <-app_assoc. split_and!; [done| |by eexists].
  change (live (set_external_req_ids m s)) with (live s) in Hok2. rewrite filter_cons. destruct (live s id) eqn:Hl.
  - rewrite decide_True by done. simpl. by rewrite union_assoc_L.
  - rewrite decide_False by (rewrite ?Is_true_true; auto). by rewrite union_empty_r_L in Hok2.
Qed.

(** Lists of strings as sets. *)
Abbreviation set_of l := (list_to_set l : gset string).

(** The second loop, when no id of the list is that of a parent: the live requests go. *)
Lemma wp_abort_flat X s ids acc nested : ok_but (X ∪ set_of (filter (live s) ids)) ∅ s → NoDup ids → (∀ x, x ∈ ids → x ∉ X) →
  (∀ x, x ∈ ids → live s x = false → x ∉ parent_requests s) →
  wp (for_fold ids acc (abort_one nested)) (λ r s', r = acc ++ filter (live s) ids ∧ ok_but X ∅ s' ∧
    removed (set_of (filter (live s) ids)) s s' ∧ parent_requests s' = parent_requests s) noexc s.
Proof.
  revert s acc. induction ids as [|id ids IH]; intros s acc Hok Hnd HX Hflat; simpl.
  { wp_steps. simpl in Hok. rewrite union_empty_r_L in Hok. rewrite app_nil_r. split_and!; [done|done| |done]. by split. }
  apply NoDup_cons in Hnd as [Hnin Hnd]. rewrite filter_cons in Hok |- *. wp_steps. unfold abort_one at 1. wp_steps.
  destruct (request_states s !! id) as [rs|] eqn:Hid.
  - assert (Hl : live s id) by (rewrite (proj2 (live_true s id)); [done|by eexists]). rewrite decide_True in Hok |- * by done. simpl in Hok.
    apply wp_bind. eapply wp_call; [apply (wp_abort_live _ s id rs Hok Hid); set_solver|]. intros u s1 (Hok1 & Hrm & Hpr). wp_steps.
    assert (Hlive : ∀ x, x ∈ ids → live s1 x = live s x).
    { intros x Hx. rewrite (removed_live _ _ _ _ Hrm), bool_decide_eq_true_2 by set_solver. apply andb_true_r. }
    assert (Hfilter : filter (live s1) ids = filter (live s) ids) by (apply filter_ext_in; intros x Hx; by rewrite Hlive).
    eapply wp_call; [apply IH; [rewrite Hfilter|done|set_solver|]|].
    + replace (X ∪ set_of (filter (live s) ids)) with ((X ∪ ({[id]} ∪ set_of (filter (live s) ids))) ∖ {[id]}); [done|].
      apply set_eq. intros x. assert (id ∉ X) by (apply HX; by left). assert (id ∉ filter (live s) ids) by (rewrite list_elem_of_filter; tauto). set_solver.
    + intros x Hx. rewrite Hlive, Hpr by done. apply Hflat. by right.
    + intros r s2 (-> & Hok2 & Hrm2 & Hpr2). rewrite Hfilter in Hrm2 |- *. rewrite <-app_assoc. split_and!; [done|done| |congruence].
      simpl. by eapply removed_trans.
  - assert (Hl : live s id = false) by by apply live_false. assert (Hnl : ¬ live s id) by (rewrite Hl; intros []). rewrite decide_False in Hok |- * by done. wp_steps.
    rewrite decide_False by (apply Hflat; [left|done]). wp_steps.
    apply IH; [done|done|set_solver|]. intros x Hx. apply Hflat. by right.
Qed.

Variable set_order : gset string → list string.
Hypothesis set_order_elements : ∀ A, set_order A ≡ₚ elements A.

Lemma set_order_nodup A : NoDup (set_order A).
Proof. rewrite set_order_elements. apply NoDup_elements. Qed.
Lemma elem_of_set_order x A : x ∈ set_order A ↔ x ∈ A.
Proof. rewrite set_order_elements. apply elem_of_elements. Qed.

(** The nested call: the children of a parent. *)
Lemma wp_abort_children X s A fuel : ok_but X ∅ s → (∀ x, x ∈ A → x ∉ X ∧ x ∉ parent_requests s) →
  wp (abort_requests set_order (S fuel) (set_order A) true) (λ r s', r = filter (live s) (set_order A) ∧ ok_but X ∅ s' ∧
    removed (set_of r) s s' ∧ parent_requests s' = parent_requests s) noexc s.
Proof.
  intros Hok HA. simpl. wp_steps. eapply wp_call.
  { apply (wp_collect_internal X s); [done|apply set_order_nodup|]. intros x Hx%elem_of_set_order. by apply HA. }
  intros r s1 (-> & Hok1 & m & ->). simpl. eapply wp_call.
  { apply (wp_abort_flat X); [exact Hok1|apply set_order_nodup| |]; intros x Hx%elem_of_set_order; [by apply HA|intros _; by apply HA]. }
  intros r s2 (-> & Hok2 & Hrm & Hpr). split_and!; [done|done| |done]. destruct Hrm as [G1 G2 G3]. by split.
Qed.

(** What a list of internal ids aborts: its live requests, and the live children of its parents. *)
Definition targeted s (ids : list string) (x : string) : Prop := live s x = true ∧
  (x ∈ ids ∨ ∃ pid p, pid ∈ ids ∧ live s pid = false ∧ pid ∈ parent_requests s ∧ parents s !! pid = Some p ∧ x ∈ child_requests p).

(** A list without repetitions, with no child beside its parent, and parents whose children are
    not parents. *)
Record abortable s (ids : list string) : Prop := {
  ab_nodup : NoDup ids;
  ab_children pid p x : pid ∈ ids → live s pid = false → pid ∈ parent_requests s → parents s !! pid = Some p →
    x ∈ child_requests p → x ∉ ids ∧ x ∉ parent_requests s;
}.

(** Removing requests that are not in the rest of the list changes nothing for it. *)
Lemma abortable_removed X A s s' ids : ok_but X ∅ s → abortable s ids → removed (set_of A) s s' →
  parent_requests s' ⊆ parent_requests s → (∀ x, x ∈ A → x ∉ ids) → (∀ x, x ∈ ids → x ∈ parent_requests s → x ∈ parent_requests s') →
  abortable s' ids ∧ (∀ x, targeted s' ids x ↔ targeted s ids x ∧ x ∉ A) ∧ filter (live s') ids = filter (live s) ids.
Proof.
  intros Hok [Hnd Hch] Hrm Hsub HA Hpr.
  assert (Hlive : ∀ x, x ∈ ids → live s' x = live s x).
  { intros x Hx. rewrite (removed_live _ _ _ _ Hrm), bool_decide_eq_true_2; [apply andb_true_r|]. rewrite elem_of_list_to_set. intros ?%HA. done. }
  assert (Hlive' : ∀ x, live s' x = true ↔ live s x = true ∧ x ∉ A).
  { intros x. rewrite (removed_live _ _ _ _ Hrm), andb_true_iff, bool_decide_eq_true, elem_of_list_to_set. done. }
  assert (Hpar : ∀ pid, pid ∈ parent_requests s → ∃ p p', parents s !! pid = Some p ∧ parents s' !! pid = Some p' ∧
      child_requests p ∖ set_of A ⊆ child_requests p' ⊆ child_requests p).
  { intros pid Hpid. destruct (ok_parent _ _ _ Hok pid Hpid) as (p & G1 & G2).
    destruct (rm_parents _ _ _ Hrm pid p G1 G2) as (p' & F1 & _ & _ & _ & _ & F6). by exists p, p'. }
  split_and!.
  - split; [done|]. intros pid p' x Hpid Hl Ht Hp' Hx. rewrite Hlive in Hl by done.
    destruct (Hpar pid (Hsub _ Ht)) as (p & p'' & G1 & G2 & _ & G3). rewrite G2 in Hp'. injection Hp' as ->.
    destruct (Hch pid p x Hpid Hl (Hsub _ Ht) G1) as [G4 G5]; [set_solver|]. split; [done|set_solver].
  - intros x. unfold targeted. rewrite Hlive'. split.
    + intros [[Hl HxA] [Hin|(pid & p' & Hpid & Hlp & Ht & Hp' & Hx)]]; (split; [split; [done|]|done]); [by left|right].
      destruct (Hpar pid (Hsub _ Ht)) as (p & p'' & G1 & G2 & _ & G3). rewrite G2 in Hp'. injection Hp' as ->.
      rewrite Hlive in Hlp by done. exists pid, p. split_and!; [done|done|by apply Hsub|done|set_solver].
    + intros [[Hl [Hin|(pid & p & Hpid & Hlp & Ht & Hp & Hx)]] HxA]; (split; [done|]); [by left|right].
      destruct (Hpar pid Ht) as (p0 & p' & G1 & G2 & G3 & _). rewrite G1 in Hp. injection Hp as ->.
      exists pid, p'. rewrite Hlive by done. split_and!; [done|done|by apply Hpr|done|]. apply G3. set_solver.
  - apply filter_ext_in. intros x Hx. by rewrite Hlive.
Qed.

Lemma abortable_cons s id ids : abortable s (id :: ids) → id ∉ ids ∧ abortable s ids.
Proof.
  intros [[Hnin Hnd]%NoDup_cons Hch]. split; [done|]. split; [done|]. intros pid p x Hpid Hl Ht Hp Hx.
  destruct (Hch pid p x) as [G1 G2]; [by right|done..|]. split; [|done]. intros ?. apply G1. by right.
Qed.

(** What the head of the list adds: itself, its children, or nothing. *)
Lemma targeted_live s id ids x : live s id = true → targeted s (id :: ids) x ↔ x ∈ [id] ∨ targeted s ids x.
Proof.
  intros Hl. rewrite list_elem_of_singleton. split.
  - intros (Hlx & [[->|Hx]%elem_of_cons|(pid & p & [->|Hpid]%elem_of_cons & Hlp & Hrest)]); [by left|right; split; auto|congruence|].
    right. split; [done|]. right. by exists pid, p.
  - intros [->|(Hlx & [Hx|(pid & p & Hpid & Hrest)])]; (split; [done|]); [left; left|left; by right|right]. exists pid, p. split; [by right|done].
Qed.

Lemma targeted_none s id ids x : live s id = false → id ∉ parent_requests s → targeted s (id :: ids) x ↔ targeted s ids x.
Proof.
  intros Hl Ht. split; intros (Hlx & Hx); (split; [done|]).
  - destruct Hx as [[->|Hx]%elem_of_cons|(pid & p & [->|Hpid]%elem_of_cons & Hlp & Htp & Hrest)]; [congruence|by left|done|]. right. by exists pid, p.
  - destruct Hx as [Hx|(pid & p & Hpid & Hrest)]; [left; by right|right]. exists pid, p. split; [by right|done].
Qed.

Lemma targeted_parent s id ids x p : live s id = false → id ∈ parent_requests s → parents s !! id = Some p →
  targeted s (id :: ids) x ↔ x ∈ filter (live s) (set_order (child_requests p)) ∨ targeted s ids x.
Proof.
  intros Hl Ht Hp. rewrite list_elem_of_filter, elem_of_set_order. split.
  - intros (Hlx & [[->|Hx]%elem_of_cons|(pid & p' & [->|Hpid]%elem_of_cons & Hlp & Htp & Hp' & Hx)]); [congruence|right; split; auto| |].
    + left. rewrite Hp in Hp'. injection Hp' as <-. by rewrite Hlx.
    + right. split; [done|]. right. by exists pid, p'.
  - intros [[Hlx Hx]|(Hlx & [Hx|(pid & p' & Hpid & Hrest)])].
    + split; [by destruct (live s x)|]. right. exists id, p. split; [by left|done].
    + split; [done|]. left. by right.
    + split; [done|]. right. exists pid, p'. split; [by right|done].
Qed.

(** One round of the loop followed by the rest of it. *)
Definition aborts_exactly s ids acc (r : list string) s' : Prop :=
  ∃ A, r = acc ++ A ∧ NoDup A ∧ (∀ x, x ∈ A ↔ targeted s ids x) ∧ ok_but ∅ ∅ s' ∧ removed (set_of A) s s'.

Lemma aborts_after X A s s1 id ids acc r s2 :
  ok_but X ∅ s → abortable s ids → NoDup A → (∀ x, x ∈ A → x ∉ ids) → removed (set_of A) s s1 →
  parent_requests s1 ⊆ parent_requests s → (∀ x, x ∈ ids → x ∈ parent_requests s → x ∈ parent_requests s1) →
  (∀ x, targeted s (id :: ids) x ↔ x ∈ A ∨ targeted s ids x) →
  aborts_exactly s1 ids (acc ++ A) r s2 → aborts_exactly s (id :: ids) acc r s2.
Proof.
  intros Hok Hab HndA HA Hrm Hsub Hpr Htgt (B & -> & HndB & HB & Hok2 & Hrm2).
  destruct (abortable_removed _ _ _ _ _ Hok Hab Hrm Hsub HA Hpr) as (_ & Htgt1 & _).
  exists (A ++ B). rewrite <-app_assoc. split_and!; [done| | |done|].
  - apply NoDup_app. split_and!; [done| |done]. intros x HxA HxB. apply HB, Htgt1 in HxB as [_ ?]. done.
  - intros x. rewrite elem_of_app, HB, Htgt1, Htgt. destruct (decide (x ∈ A)); tauto.
  - rewrite list_to_set_app_L. by eapply removed_trans.
Qed.

(** A parent all of whose live children were removed may be forgotten. *)
Lemma ok_untrack X A s s1 id p : ok_but X ∅ s1 → removed (set_of A) s s1 → parents s !! id = Some p → parent_ok p →
  (∀ x, x ∈ child_requests p → live s x = true → x ∈ A) → ok_but X ∅ (set_parent_requests (parent_requests s1 ∖ {[ id ]}) s1).
Proof.
  intros [H1 H2 H3 H4 H5 H6 H7 H8] Hrm Hp Hpok HA. split; try done; simpl; [|set_solver].
  intros x rsx pid Hx Hpid. apply elem_of_difference. split; [by apply (H6 x rsx)|]. intros ->%elem_of_singleton.
  destruct (so_parent _ _ _ (H1 x rsx Hx) id Hpid) as (p1 & Hp1 & _). pose proof (H7 x rsx id p1 Hx Hpid Hp1 (not_elem_of_empty _)) as Hin.
  destruct (rm_parents _ _ _ Hrm id p Hp Hpok) as (p2 & Hp2 & _ & _ & _ & _ & _ & Hsub). rewrite Hp1 in Hp2. injection Hp2 as <-.
  assert (Hlx : live s1 x = true) by (apply live_true; by eexists). rewrite (removed_live _ _ _ _ Hrm) in Hlx.
  apply andb_true_iff in Hlx as [Hlx Hgone%bool_decide_eq_true]. apply Hgone. rewrite elem_of_list_to_set. by apply HA; [apply Hsub|].
Qed.

(** The second loop aborts exactly what is targeted. *)
Lemma wp_abort_loop s ids acc fuel : ok_but (set_of (filter (live s) ids)) ∅ s → abortable s ids →
  wp (for_fold ids acc (abort_one (λ children, abort_requests set_order (S fuel) (set_order children) true)))
    (aborts_exactly s ids acc) noexc s.
Proof.
  revert s acc. induction ids as [|id ids IH]; intros s acc Hok Hab; simpl.
  { wp_steps. exists []. rewrite app_nil_r. split_and!; [done|constructor| |done|by split].
    intros x. split; [by intros ?%elem_of_nil|]. intros (_ & [?%elem_of_nil|(pid & p & ?%elem_of_nil & _)]); done. }
  destruct (abortable_cons _ _ _ Hab) as [Hnin Hab']. rewrite filter_cons in Hok.
  assert (Hnext : ∀ A s1, NoDup A → (∀ x, x ∈ A → x ∉ ids) → removed (set_of A) s s1 → ok_but (set_of (filter (live s) ids)) ∅ s1 →
    parent_requests s1 ⊆ parent_requests s → (∀ x, x ∈ ids → x ∈ parent_requests s → x ∈ parent_requests s1) →
    (∀ x, targeted s (id :: ids) x ↔ x ∈ A ∨ targeted s ids x) →
    wp (for_fold ids (acc ++ A) (abort_one (λ children, abort_requests set_order (S fuel) (set_order children) true)))
     (aborts_exactly s (id :: ids) acc) noexc s1).
  { intros A s1 HndA HA Hrm Hok1 Hsub Hpr Htgt.
    destruct (abortable_removed _ _ _ _ _ Hok Hab' Hrm Hsub HA Hpr) as (Hab1 & _ & Hf). rewrite <-Hf in Hok1.
    eapply wp_call; [apply (IH s1 (acc ++ A) Hok1 Hab1)|]. intros r s2 H. by eapply aborts_after. }
  wp_steps. unfold abort_one at 1. wp_steps. destruct (request_states s !! id) as [rs|] eqn:Hid.
  - assert (Hl : live s id = true) by (apply live_true; by eexists). rewrite decide_True in Hok by by rewrite Hl. simpl in Hok.
    apply wp_bind. eapply wp_call; [apply (wp_abort_live _ s id rs Hok Hid); set_solver|]. intros u s1 (Hok1 & Hrm & Hpr). wp_steps.
    apply (Hnext [id]); [apply NoDup_singleton|set_solver| | |by rewrite Hpr|by rewrite Hpr|].
    + simpl. by rewrite union_empty_r_L.
    + replace (set_of (filter (live s) ids)) with (({[id]} ∪ set_of (filter (live s) ids)) ∖ {[id]}); [done|].
      assert (id ∉ filter (live s) ids) by (rewrite list_elem_of_filter; tauto). set_solver.
    + intros x. by apply targeted_live.
  - assert (Hl : live s id = false) by by apply live_false. rewrite decide_False in Hok by (rewrite Hl; intros []). wp_steps.
    case_decide as Ht; [|wp_steps; pose proof (Hnext [] s) as Hnil; rewrite app_nil_r in Hnil; apply Hnil; try done; [constructor|set_solver|]].
    + wp_steps. destruct (ok_parent _ _ _ Hok id Ht) as (p & Hp & Hpok). apply (wp_from_option _ _ p); [done|]. wp_steps.
      assert (Hch : ∀ x, x ∈ child_requests p → x ∉ ids ∧ x ∉ parent_requests s).
      { intros x Hx. destruct (ab_children _ _ Hab id p x) as [G1 G2]; [left|done..|]. split; [|done]. intros ?. apply G1. by right. }
      eapply (wp_call _ (λ r s', r = filter (live s) (set_order (child_requests p)) ∧ ok_but (set_of (filter (live s) ids)) ∅ s' ∧
        removed (set_of r) s s' ∧ parent_requests s' = parent_requests s)).
      { case_bool_decide as He; [|apply wp_abort_children; [done|]; intros x Hx; destruct (Hch x Hx); split; [|done]; rewrite elem_of_list_to_set, list_elem_of_filter; tauto].
        wp_steps. assert (set_order (child_requests p) = []) as -> by (rewrite He; apply Permutation_nil_r; by rewrite set_order_elements, elements_empty).
        split_and!; [done|done|by split|done]. }
      intros r s1 (-> & Hok1 & Hrm & Hpr). wp_steps.
      apply (Hnext _ (set_parent_requests (parent_requests s1 ∖ {[id]}) s1)).
      * apply NoDup_filter, set_order_nodup.
      * intros x [_ Hx%elem_of_set_order]%list_elem_of_filter. by apply Hch.
      * destruct Hrm as [G1 G2 G3]. by split.
      * eapply ok_untrack; [exact Hok1|exact Hrm|exact Hp|exact Hpok|]. intros x Hx Hlx.
        rewrite list_elem_of_filter, elem_of_set_order. by rewrite Hlx.
      * simpl. set_solver.
      * simpl. rewrite Hpr. intros x Hx Hx'. apply elem_of_difference. split; [done|]. intros ->%elem_of_singleton. done.
      * intros x. by apply targeted_parent.
    + intros x. rewrite targeted_none by done. rewrite elem_of_nil. tauto.
Qed.

Lemma wp_abort_internal s ids fuel : ok_but ∅ ∅ s → abortable s ids →
  wp (abort_requests set_order (S (S fuel)) ids true) (aborts_exactly s ids []) noexc s.
Proof.
  intros Hok Hab. cbn [abort_requests]. wp_steps. eapply wp_call.
  { apply (wp_collect_internal ∅ s ids []); [done|apply Hab|set_solver]. }
  intros r s1 (-> & Hok1 & m & ->). rewrite union_empty_l_L in Hok1. simpl app.
  eapply wp_call; [apply wp_abort_loop; [exact Hok1|]|].
  { destruct Hab as [G1 G2]. by split. }
  intros r s2 (A & -> & HndA & HA & Hok2 & [G1 G2 G3]). exists A. by split_and!.
Qed.

(** The first loop, on external ids. *)
Lemma wp_collect_external X s exts acc : ok_but X ∅ s →
  wp (for_fold exts acc (collect_internal false)) (λ r s', ∃ L, r = acc ++ L ∧ NoDup L ∧ ok_but (X ∪ set_of L) ∅ s' ∧
    (∀ x, x ∈ L ↔ x ∉ X ∧ ∃ rs, request_states s !! x = Some rs ∧ rs_external_req_id rs ∈ exts) ∧
    ∃ m, s' = set_external_req_ids m s) noexc s.
Proof.
  revert X s acc. induction exts as [|e exts IH]; intros X s acc Hok; simpl.
  { wp_steps. exists []. simpl. rewrite app_nil_r, union_empty_r_L. split_and!; [done|constructor|done| |exists (external_req_ids s); by destruct s].
    intros x. split; [by intros ?%elem_of_nil|]. by intros (_ & rs & _ & ?%elem_of_nil). }
  wp_steps. unfold collect_internal at 1. wp_steps. set (l := default [] (external_req_ids s !! e)).
  assert (Hl : NoDup l ∧ ∀ x, x ∈ l ↔ x ∉ X ∧ ∃ rs, request_states s !! x = Some rs ∧ rs_external_req_id rs = e).
  { subst l. destruct (external_req_ids s !! e) as [l|] eqn:He; simpl.
    - destruct (ok_external _ _ _ Hok e l He) as (_ & G1 & G2). split; [done|]. intros x. split; [apply G2|].
      intros (HX & rs & Hx & Heq). destruct (ok_live _ _ _ Hok x rs Hx HX) as (l' & Hl' & Hin). rewrite Heq, He in Hl'. by injection Hl' as <-.
    - split; [constructor|]. intros x. split; [by intros ?%elem_of_nil|]. intros (HX & rs & Hx & Heq).
      destruct (ok_live _ _ _ Hok x rs Hx HX) as (l' & Hl' & Hin). congruence. }
  destruct Hl as [Hnd Hl]. assert (Hok1 : ok_but (X ∪ set_of l) ∅ (set_external_req_ids (delete e (external_req_ids s)) s)).
  { destruct Hok as [H1 H2 H3 H4 H5 H6 H7 H8]. split; try done; simpl.
    - intros x rs Hx [HX Hxl]%not_elem_of_union. rewrite elem_of_list_to_set in Hxl. destruct (H2 x rs Hx HX) as (l' & Hl' & Hin). exists l'.
      split; [|done]. rewrite lookup_delete_ne; [done|]. intros Heq. apply Hxl, Hl. eauto.
    - intros ext l' [Hne Hl']%lookup_delete_Some. destruct (H3 ext l' Hl') as (G1 & G2 & G3). split_and!; [done|done|]. intros x Hx.
      destruct (G3 x Hx) as [HX (rs & Hrs & Hext)]. split; [|by eexists]. apply not_elem_of_union. split; [done|]. rewrite elem_of_list_to_set, Hl.
      intros (_ & rs' & Hrs' & He). congruence. }
  eapply wp_call; [apply IH, Hok1|]. intros r s2 (L & -> & HndL & Hok2 & HL & m & ->). exists (l ++ L).
  rewrite <-app_assoc. split_and!; [done| | | |by eexists].
  - apply NoDup_app. split_and!; [done| |done]. intros x Hx [HX _]%HL. apply HX, elem_of_union. right. by apply elem_of_list_to_set.
  - by rewrite list_to_set_app_L, union_assoc_L.
  - intros x. rewrite elem_of_app, HL. simpl. split.
    + intros [(HX & rs & Hx & He)%Hl|([HX _]%not_elem_of_union & rs & Hx & Hin)]; (split; [done|]); exists rs; (split; [done|]); [rewrite He; by left|by right].
    + intros (HX & rs & Hx & Hin). destruct (decide (x ∈ l)) as [Hxl|Hxl]; [by left|right]. split.
      * apply not_elem_of_union. split; [done|]. by rewrite elem_of_list_to_set.
      * exists rs. split; [done|]. apply elem_of_cons in Hin as [He|]; [|done]. exfalso. apply Hxl, Hl. eauto.
Qed.

Lemma wp_abort_external s exts fuel : ok_but ∅ ∅ s →
  wp (abort_requests set_order (S fuel) exts false) (λ r s', NoDup r ∧
    (∀ x, x ∈ r ↔ ∃ rs, request_states s !! x = Some rs ∧ rs_external_req_id rs ∈ exts) ∧ ok_but ∅ ∅ s' ∧
    removed (set_of r) s s' ∧ parent_requests s' = parent_requests s) noexc s.
Proof.
  intros Hok. cbn [abort_requests]. wp_steps. eapply wp_call; [by apply (wp_collect_external ∅ s)|].
  intros r s1 (L & -> & HndL & Hok1 & HL & m & ->). simpl app. set (s1 := set_external_req_ids m s) in *.
  assert (Hf : filter (live s1) L = L).
  { apply filter_all. intros x (_ & rs & Hx & _)%HL. apply Is_true_true, live_true. by exists rs. }
  eapply wp_call; [apply (wp_abort_flat ∅); [by rewrite Hf|done|set_solver|]|].
  { intros x (_ & rs & Hx & _)%HL Hl%live_false. subst s1. simpl in Hl. congruence. }
  intros r s2 (-> & Hok2 & Hrm & Hpr). rewrite Hf in Hrm |- *. simpl. split_and!; [done| |done| |done].
  - intros x. rewrite HL. split; [by intros [_ ?]|]. intros ?. split; [apply not_elem_of_empty|done].
  - destruct Hrm as [G1 G2 G3]. by split.
Qed.

End inv.
