(* ===== verification/OutputSteps.v ===== *)
(** The front end as a state machine: what the engine does to the output processor, the states it
    can reach, and what holds in them. *)
From S2P Require Import Prelude Request StopCheck Detokenizer DetokSpecs Outputs ParallelSampling OutputProcessor OutputInv.
Local Open Scope Z_scope.

Section steps.
Context {D : Type} `{HD : TotalDecoder D} `{!MakeDecoder D}.
Implicit Types (rs : RequestState D) (s : OutputProcessor D).

(** ** Adding requests *)

(** A request that is no update of a session, has a prompt, and is pooled only without a stream
    interval. *)
Record addable s (r : EngineRequest) : Prop := {
  ad_plain : er_resumable r = false;
  ad_prompt : ∃ n, prompt_length (er_prompt_token_ids r) (er_prompt_embeds r) = Ret n;
  ad_pooling k : er_params r = inr k → op_stream_interval s ≤ 1;
}.

(** The state after a new request was added. *)
Definition added (r : EngineRequest) (parent : option string) rs s : OutputProcessor D :=
  set_external_req_ids (<[er_external_req_id r := default [] (external_req_ids s !! er_external_req_id r) ++ [er_request_id r]]> (external_req_ids s))
    (match parent with Some pid => set_parent_requests ({[ pid ]} ∪ parent_requests s) | None => λ s, s end
      (set_request_states (<[er_request_id r := rs]> (request_states s)) s)).

Record new_state (r : EngineRequest) (parent : option string) (idx : Z) (queue : option nat) (interval : Z) rs : Prop := {
  ns_ids : rs_request_id rs = er_request_id r ∧ rs_external_req_id rs = er_external_req_id r;
  ns_parent : rs_parent_req rs = parent ∧ rs_request_index rs = idx ∧ rs_queue rs = queue;
  ns_prompt : rs_prompt_token_ids rs = er_prompt_token_ids r ∧ rs_prompt_embeds rs = er_prompt_embeds r;
  ns_interval : rs_stream_interval rs = interval ∧ (rs_detokenizer rs = None → ∃ k, er_params r = inr k);
  ns_plain : rs_streaming_input rs = er_resumable r ∧ (er_resumable r = false → rs_input_chunk_queue rs = None);
}.

Lemma add_request_new s r prompt parent idx queue : addable s r → request_states s !! er_request_id r = None →
  ∃ rs, new_state r parent idx queue (op_stream_interval s) rs ∧
    add_request r prompt parent idx queue s = (Ret tt, added r parent rs s).
Proof.
  intros [H1 [n Hn] H3] Hid. unfold add_request, mbind, M_bind, gets, modify, of_outcome, from_new_request. rewrite Hid, Hn. simpl.
  destruct (er_params r) as [p|k] eqn:Hp; eexists; (split; cycle 1; [destruct parent; reflexivity|]).
  - split; simpl; [done|done|done|split; [done|]|split; [done|by intros ->]]. by destruct (if fp_detokenize p then _ else None) as [[ids x]|].
  - split; simpl; [done|done|done|split; [done|by eexists]|split; [done|by intros ->]].
Qed.

(** A request with the parent it names. *)
Definition parented s (r : EngineRequest) (parent : option string) (idx : Z) : Prop := ∀ pid, parent = Some pid →
  ∃ p, parents s !! pid = Some p ∧ parent_ok p ∧ par_request_id p = pid ∧ 0 ≤ idx < n_samples (par_sampling_params p) ∧
    er_request_id r = child_id idx pid ∧ er_request_id r ∈ child_requests p ∧ par_external_req_id p = er_external_req_id r.

Lemma ok_added s r parent idx queue rs : ok_but ∅ ∅ s → addable s r → request_states s !! er_request_id r = None →
  new_state r parent idx queue (op_stream_interval s) rs → parented s r parent idx → (∀ q, queue = Some q → is_Some (collectors s !! q)) →
  ok_but ∅ ∅ (added r parent rs s).
Proof.
  intros [H1 H2 H3 H4 H5 H6 H7 H8] [A1 [n A2] A3] Hid [[N1 N1'] [N2 [N2' N2'']] [N3 N3'] [N4 N4'] [N5 N5']] Hpar Hq.
  set (id := er_request_id r) in *.
  assert (Hst : request_states (added r parent rs s) = <[id := rs]> (request_states s)) by by destruct parent.
  assert (Hps : parents (added r parent rs s) = parents s) by by destruct parent.
  assert (Hcl : collectors (added r parent rs s) = collectors s) by by destruct parent.
  assert (Hpr : parent_requests (added r parent rs s) = (match parent with Some pid => {[pid]} | None => ∅ end) ∪ parent_requests s).
  { destruct parent; simpl; [done|]. by rewrite union_empty_l_L. }
  assert (Hnew : ∀ x rsx, <[id := rs]> (request_states s) !! x = Some rsx → (x = id ∧ rsx = rs) ∨ (x ≠ id ∧ request_states s !! x = Some rsx)).
  { intros x rsx. destruct (decide (x = id)) as [->|]; [rewrite lookup_insert_eq; intros [= <-]; by left|rewrite lookup_insert_ne by done; by right]. }
  split; rewrite ?Hst, ?Hps, ?Hcl.
  - intros x rsx [[-> ->]|[_ Hx]]%Hnew; [|by apply H1]. split; [done| | | |].
    + rewrite N3, N3'. unfold prompt_length in A2. destruct (er_prompt_token_ids r); [left; by eexists|]. destruct (er_prompt_embeds r); [right; by eexists|done].
    + intros Hd. destruct (N4' Hd) as [k Hk]. rewrite N4. by eapply A3.
    + rewrite N2, N2'. intros pid ->. destruct (Hpar pid eq_refl) as (p & G1 & G2 & G3 & G4 & G5 & _ & G7). exists p. by rewrite N1'.
    + rewrite N5, A1. auto.
  - simpl. intros x rsx [[-> ->]|[Hne Hx]]%Hnew HX.
    + rewrite N1', lookup_insert_eq. eexists. split; [done|]. apply elem_of_app. right. by left.
    + destruct (H2 x rsx Hx HX) as (l & Hl & Hin). destruct (decide (rs_external_req_id rsx = er_external_req_id r)) as [Heq|Hne'].
      * rewrite Heq in Hl |- *. rewrite lookup_insert_eq, Hl. simpl. eexists. split; [done|]. apply elem_of_app. by left.
      * exists l. by rewrite lookup_insert_ne.
  - simpl. intros ext l. destruct (decide (ext = er_external_req_id r)) as [->|Hne'].
    + rewrite lookup_insert_eq. intros [= <-]. set (l := default [] _).
      assert (Hl : NoDup l ∧ ∀ x, x ∈ l → ∃ rsx, request_states s !! x = Some rsx ∧ rs_external_req_id rsx = er_external_req_id r).
      { subst l. destruct (external_req_ids s !! er_external_req_id r) as [l|] eqn:Hl; simpl; [|split; [constructor|by intros x ?%elem_of_nil]].
        destruct (H3 _ l Hl) as (_ & G1 & G2). split; [done|]. intros x Hx. by apply G2. }
      destruct Hl as [Hnd Hl]. split_and!.
      * by destruct l.
      * apply NoDup_app. split_and!; [done| |apply NoDup_singleton]. intros x Hx ->%list_elem_of_singleton. destruct (Hl _ Hx) as (rsx & ? & _). fold id in H. congruence.
      * intros x [Hx| ->%list_elem_of_singleton]%elem_of_app; (split; [apply not_elem_of_empty|]).
        -- destruct (Hl x Hx) as (rsx & G1 & G2). exists rsx. rewrite lookup_insert_ne; [done|]. intros <-. fold id in Hid. congruence.
        -- exists rs. by rewrite lookup_insert_eq.
    + rewrite lookup_insert_ne by done. intros Hl. destruct (H3 ext l Hl) as (G1 & G2 & G3). split_and!; [done|done|]. intros x Hx.
      destruct (G3 x Hx) as [_ (rsx & G4 & G5)]. split; [apply not_elem_of_empty|]. exists rsx. rewrite lookup_insert_ne; [done|]. intros <-. congruence.
  - intros x rsx q [[-> ->]|[_ Hx]]%Hnew; [rewrite N2''; apply Hq|by apply (H4 x)].
  - done.
  - intros x rsx pid [[-> ->]|[_ Hx]]%Hnew Hpid; rewrite Hpr; [rewrite N2 in Hpid; subst parent; set_solver|]. apply elem_of_union. right. by apply (H6 x rsx).
  - intros x rsx pid p [[-> ->]|[_ Hx]]%Hnew Hpid Hp HY; [|by apply (H7 x rsx pid)]. rewrite N2 in Hpid.
    destruct (Hpar pid Hpid) as (p' & G1 & _ & _ & _ & _ & G6 & _). rewrite Hp in G1. by injection G1 as <-.
  - intros pid. rewrite Hpr. intros [Hpid|Hpid]%elem_of_union; [|by apply H8]. destruct parent as [pid'|]; [|set_solver].
    apply elem_of_singleton in Hpid as ->. destruct (Hpar pid' eq_refl) as (p & G1 & G2 & _). by exists p.
Qed.

(** *** Parallel requests *)

Lemma add_request_parents s r prompt parent idx queue m : request_states s !! er_request_id r = None →
  add_request r prompt parent idx queue (set_parents m s) =
    let '(o, s') := add_request r prompt parent idx queue s in (o, set_parents m s').
Proof.
  intros Hid. unfold add_request, mbind, M_bind, gets, modify, of_outcome. simpl. rewrite Hid. change (op_stream_interval (set_parents m s)) with (op_stream_interval s).
  destruct (from_new_request r prompt parent idx queue (op_stream_interval s)) as [rs|e]; [|done]. by destruct parent.
Qed.

Lemma fanned_ok rid ext sp p : 0 ≤ n_samples sp → fanned rid ext sp (n_samples sp) p → parent_ok p ∧ par_request_id p = rid ∧ par_sampling_params p = sp.
Proof.
  intros Hn [(H1 & H2 & H3) H4 H5 _]. split; [|done]. split; rewrite ?H1, ?H3, ?H4, H5; simpl.
  - intros ->. rewrite bool_decide_eq_true_2 by done. rewrite length_replicate. lia.
  - intros i c. case_bool_decide; [|done]. by intros [? _]%lookup_replicate.
  - intros i ->. rewrite bool_decide_eq_true_2 by done. intros [_ Hi]%lookup_replicate. unfold child_ids.
    rewrite elem_of_list_to_set, list_elem_of_fmap. exists (Z.of_nat i). split; [done|]. apply elem_of_py_range. lia.
Qed.

Lemma child_addable s r id : addable s r → addable s (child_request r id).
Proof. by intros []. Qed.

(** The turns of the fan-out that are left, seen with the parent as it will be in the end. *)
Lemma wp_add_children r sp prompt queue p_full ps0 : 0 ≤ n_samples sp →
  fanned (er_request_id r) (er_external_req_id r) sp (n_samples sp) p_full → ∀ k s p, 0 ≤ k ≤ n_samples sp →
  fanned (er_request_id r) (er_external_req_id r) sp k p → parents s = <[er_request_id r := p]> ps0 →
  ok_but ∅ ∅ (set_parents (<[er_request_id r := p_full]> ps0) s) → addable s r → (∀ q, queue = Some q → is_Some (collectors s !! q)) →
  (∀ i, k ≤ i < n_samples sp → request_states s !! child_id i (er_request_id r) = None) →
  wp (for_each (py_range k (n_samples sp)) (add_child r prompt queue)) (λ _ s', ∃ p', parents s' = <[er_request_id r := p']> ps0 ∧
    fanned (er_request_id r) (er_external_req_id r) sp (n_samples sp) p' ∧ ok_but ∅ ∅ (set_parents (<[er_request_id r := p_full]> ps0) s') ∧
    (∀ x, request_states s' !! x = None ↔ request_states s !! x = None ∧ ∀ i, k ≤ i < n_samples sp → x ≠ child_id i (er_request_id r))) noexc s.
Proof.
  intros Hn Hfull k. set (rid := er_request_id r) in *. remember (Z.to_nat (n_samples sp - k)) as m eqn:Hm. revert k Hm.
  induction m as [|m IH]; intros k Hm s p Hk Hp Hps Hok Had Hq Hdead.
  { rewrite py_range_nil by lia. wp_steps. exists p. assert (k = n_samples sp) as -> by lia. split_and!; [done|done|done|].
    intros x. split; [|tauto]. intros ?. split; [done|lia]. }
  destruct (fanned_child _ _ _ _ _ (proj1 Hk) Hp) as (p1 & Hinfo & Hp1). set (r' := child_request r (child_id k rid)).
  assert (Hid : request_states s !! er_request_id r' = None) by (apply Hdead; lia).
  set (s1 := set_parents (<[rid := p_full]> ps0) s) in *. destruct (add_request_new s1 r' prompt (Some rid) k queue) as (rs & Hns & Hadd).
  { apply child_addable. destruct Had as [G1 G2 G3]. by split. }
  { exact Hid. }
  assert (Hok1 : ok_but ∅ ∅ (added r' (Some rid) rs s1)).
  { apply (ok_added s1 r' (Some rid) k queue rs); [done| |exact Hid|exact Hns| |exact Hq].
    - apply child_addable. destruct Had as [G1 G2 G3]. by split.
    - intros pid [= <-]. destruct (fanned_ok _ _ _ _ Hn Hfull) as (G1 & G2 & G3). exists p_full. subst s1. simpl. rewrite lookup_insert_eq, G3.
      split_and!; [done|done|done|lia|lia|done| |apply (fn_ids _ _ _ _ _ Hfull)]. rewrite (fn_children _ _ _ _ _ Hfull). unfold child_ids.
      rewrite elem_of_list_to_set, list_elem_of_fmap. exists k. split; [done|]. apply elem_of_py_range. lia. }
  assert (Hadd' : add_request r' prompt (Some rid) k queue s = (Ret tt, set_parents (parents s) (added r' (Some rid) rs s1))).
  { pose proof (add_request_parents s1 r' prompt (Some rid) k queue (parents s) Hid) as H. rewrite Hadd in H. subst s1. simpl in H. by destruct s. }
  set (s2 := set_parents (<[rid := p1]> ps0) (set_parents (parents s) (added r' (Some rid) rs s1))).
  assert (Hturn : add_child r prompt queue k s = (Ret tt, s2)).
  { unfold add_child, mbind, M_bind, with_parent. fold rid. rewrite Hps, lookup_insert_eq, Hinfo, insert_insert_eq. simpl. fold r'.
    rewrite add_request_parents by exact Hid. by rewrite Hadd'. }
  clear Hadd Hadd'. rewrite py_range_cons by lia. simpl. wp_steps. unfold wp at 1. rewrite Hturn.
  eapply wp_mono; [apply (IH (k + 1) ltac:(lia) s2 p1); [lia|done|done| | | |]| |done].
  - exact Hok1.
  - destruct Had as [G1 G2 G3]. by split.
  - exact Hq.
  - intros i Hi. subst s2. simpl. rewrite lookup_insert_ne; [apply Hdead; lia|]. intros Heq. apply (inj (λ i, child_id i rid)) in Heq. lia.
  - intros u s3 (p' & G1 & G2 & G3 & G4). exists p'. split_and!; [done|done|done|]. intros x. rewrite G4. subst s2. simpl. split.
    + intros [Hx Hne]. apply lookup_insert_None in Hx as [Hx Hne']. split; [done|]. intros i Hi. destruct (decide (i = k)) as [->|]; [done|]. apply Hne. lia.
    + intros [Hx Hne]. split; [apply lookup_insert_None; split; [done|]; intros Heq; apply (Hne k); [lia|done]|]. intros i Hi. apply Hne. lia.
Qed.

(** Parents in the store that no table mentions do no harm. *)
Lemma ok_new_parent X s rid p : ok_but X ∅ s → parents s !! rid = None → ok_but X ∅ (set_parents (<[rid := p]> (parents s)) s).
Proof.
  intros Hok Hrid. apply ok_parents; [done|]. intros pid p' Hp Hpok. exists p'. rewrite lookup_insert_ne by congruence.
  split_and!; try done; set_solver.
Qed.

(** Names that are new to the processor. *)
Record fresh s (r : EngineRequest) (sp : ParallelParams) : Prop := {
  fr_addable : addable s r;
  fr_samples : 1 ≤ n_samples sp;
  fr_request : request_states s !! er_request_id r = None;
  fr_parent : parents s !! er_request_id r = None;
  fr_children i : 0 ≤ i < n_samples sp → request_states s !! child_id i (er_request_id r) = None;
}.

(** Two parents with the same children are as good as each other. *)
Lemma ok_same_parent rid ext sp p p' ps0 s : 0 ≤ n_samples sp → fanned rid ext sp (n_samples sp) p → parents s = <[rid := p']> ps0 →
  fanned rid ext sp (n_samples sp) p' → ok_but ∅ ∅ (set_parents (<[rid := p]> ps0) s) → ok_but ∅ ∅ s.
Proof.
  intros Hn Hp Hps Hp' Hok. assert (Hk : parents_kept ∅ (<[rid := p]> ps0) (<[rid := p']> ps0)).
  { intros pid p1 H1 H2. destruct (decide (pid = rid)) as [->|Hne].
    - rewrite lookup_insert_eq in H1 |- *. injection H1 as <-. exists p'. destruct (fanned_ok _ _ _ _ Hn Hp') as (G1 & G2 & G3).
      destruct Hp as [(K1 & K2 & K3) K4 _ _]. destruct Hp' as [(L1 & L2 & L3) L4 _ _]. rewrite K4, L4. split_and!; try done; [congruence..|set_solver].
    - rewrite lookup_insert_ne in H1 |- * by done. exists p1. split_and!; try done; set_solver. }
  pose proof (ok_parents _ _ _ _ Hok Hk) as H. rewrite <-Hps in H. by destruct s.
Qed.

(** The requests that a request of the engine becomes. *)
Definition request_ids (r : EngineRequest) (sp : ParallelParams) : list string :=
  if n_samples sp =? 1 then [er_request_id r] else (λ i, child_id i (er_request_id r)) <$> py_range 0 (n_samples sp).

Lemma wp_engine_add_request s r sp prompt queue : ok_but ∅ ∅ s → fresh s r sp → (∀ q, queue = Some q → is_Some (collectors s !! q)) →
  wp (engine_add_request r sp prompt queue) (λ _ s', ok_but ∅ ∅ s' ∧ ∀ x, live s' x = true ↔ live s x = true ∨ x ∈ request_ids r sp) noexc s.
Proof.
  intros Hok [F1 F2 F3 F4 F5] Hq. unfold engine_add_request, request_ids. destruct (Z.eqb_spec (n_samples sp) 1) as [Hone|Hmany].
  - destruct (add_request_new s r prompt None 0 queue F1 F3) as (rs & Hns & Hadd). unfold wp. rewrite Hadd.
    split; [by apply (ok_added s r None 0 queue rs)|]. intros x. rewrite !live_true, list_elem_of_singleton. simpl. split.
    + intros (rsx & [[-> _]|[_ ?]]%lookup_insert_Some); [by right|left; by eexists].
    + intros [[rsx Hx]| ->]; [|rewrite lookup_insert_eq; by eexists]. rewrite lookup_insert_ne by congruence. by eexists.
  - wp_steps. set (rid := er_request_id r) in *. set (p0 := parent_init rid (er_external_req_id r) sp).
    set (s0 := set_parents (<[rid := p0]> (parents s)) s).
    destruct (fan_out_spec rid (er_external_req_id r) sp (n_samples sp)) as (pf & _ & Hpf); [lia|].
    eapply wp_call; [apply (wp_add_children r sp prompt queue pf (parents s) ltac:(lia) Hpf 0 s0 p0)|].
    + lia.
    + split; [done|done|done|by left].
    + done.
    + apply (ok_new_parent ∅ s rid pf Hok F4).
    + destruct F1 as [G1 G2 G3]. by split.
    + done.
    + apply F5.
    + intros u s' (p' & G1 & G2 & G3 & G4). split.
      * by apply (ok_same_parent rid (er_external_req_id r) sp pf p' (parents s) s' ltac:(lia)).
      * intros x. rewrite <-(not_false_iff_true (live s' x)), <-(not_false_iff_true (live s x)), !live_false, G4. simpl.
        rewrite list_elem_of_fmap. setoid_rewrite elem_of_py_range. split.
        -- intros Hx. destruct (decide (x ∈ child_ids rid (n_samples sp))) as [Hin|Hnin].
           ++ right. unfold child_ids in Hin. rewrite elem_of_list_to_set, list_elem_of_fmap in Hin. destruct Hin as (i & -> & Hi%elem_of_py_range). eauto.
           ++ left. intros Hnone. apply Hx. split; [done|]. intros i Hi ->. apply Hnin. unfold child_ids.
              rewrite elem_of_list_to_set, list_elem_of_fmap. exists i. split; [done|]. by apply elem_of_py_range.
        -- intros [Hx|(i & -> & Hi)] [Hn Hne]; [done|by apply (Hne i)].
Qed.

(** ** The consumer and errors *)

Lemma accepting_get c o c' : accepting c → get_nowait c = (o, c') → accepting c'.
Proof.
  intros [Hr Ho]. unfold get_nowait, mbind, M_bind, gets, modify.
  destruct (collected c) as [[o1|o1|e]|] eqn:Hc; simpl; intros [= <- <-]; [by split..|]. by split; rewrite Hc.
Qed.

Lemma ok_collectors X Y s m : ok_but X Y s → collectors_kept (collectors s) m → (∀ q c, m !! q = Some c → accepting c) →
  ok_but X Y (set_collectors m s).
Proof.
  intros [H1 H2 H3 H4 H5 H6 H7 H8] Hk Ha. split; try done. simpl. intros id rs q Hid Hq. by apply Hk, (H4 id rs).
Qed.

Lemma ok_collector_insert X Y s q c : ok_but X Y s → accepting c → ok_but X Y (set_collectors (<[q := c]> (collectors s)) s).
Proof.
  intros Hok Hc. apply ok_collectors; [done| |].
  - intros q' Hq'. destruct (decide (q' = q)) as [->|]; [rewrite lookup_insert_eq; by eexists|by rewrite lookup_insert_ne].
  - intros q' c' [[_ <-]|[_ ?]]%lookup_insert_Some; [done|by apply (ok_collector _ _ _ Hok q')].
Qed.

Lemma put_failure_ok c e : ∃ c', put (Failure e) c = (Ret tt, c') ∧ accepting c'.
Proof.
  unfold put, mbind, M_bind, gets, modify, id. destruct (collected c) as [[o|o|e']|]; eexists; (split; [reflexivity|]); by split.
Qed.

(** Every request has a collector, as in the asynchronous engine: an error reaches all of them. *)
Lemma wp_propagate_error s e : ok_but ∅ ∅ s → (∀ id rs, request_states s !! id = Some rs → is_Some (rs_queue rs)) →
  wp (propagate_error e) (λ _ s', ok_but ∅ ∅ s' ∧ request_states s' = request_states s ∧
    ∀ id rs q, request_states s !! id = Some rs → rs_queue rs = Some q → ∃ c, collectors s' !! q = Some c ∧ collected c = Some (Failure e)) noexc s.
Proof.
  intros Hok Hq. unfold propagate_error. wp_steps.
  apply (wp_for_each (λ done _ s', ok_but ∅ ∅ s' ∧ request_states s' = request_states s ∧
    ∀ id rs q, (id, rs) ∈ done → rs_queue rs = Some q → ∃ c, collectors s' !! q = Some c ∧ collected c = Some (Failure e))).
  - split_and!; [done|done|]. by intros id rs q ?%elem_of_nil.
  - intros done [id rs] todo s' Hsplit (Hok' & Hst & Hdone). simpl.
    assert (Hid : request_states s !! id = Some rs).
    { apply elem_of_map_to_list. rewrite Hsplit. apply elem_of_app. right. by left. }
    destruct (Hq id rs Hid) as [q Hrq]. rewrite Hrq. unfold wp, queue_put. rewrite <-Hst in Hid.
    destruct (ok_queue _ _ _ Hok' id rs q Hid Hrq) as [c Hc]. rewrite Hc. destruct (put_failure_ok c e) as (c' & Hput & Hacc). rewrite Hput.
    split_and!; [by apply ok_collector_insert|done|]. simpl. intros id' rs' q' Hin Hrq'. destruct (decide (q' = q)) as [->|Hne].
    + exists c'. rewrite lookup_insert_eq. split; [done|]. clear -Hput. unfold put, mbind, M_bind, gets, modify, id in Hput.
      destruct (collected c) as [[o|o|e']|]; by injection Hput as <-.
    + rewrite lookup_insert_ne by done. apply elem_of_app in Hin as [Hin|Hin]; [by eapply Hdone|].
      apply list_elem_of_singleton in Hin. congruence.
  - intros s' (Hok' & Hst & Hdone). split_and!; [done|done|]. intros id rs q Hid. apply (Hdone id rs q). by apply elem_of_map_to_list.
Qed.

(** ** Reachable states *)

Variable set_order : gset string → list string.

(** The calls the engines make, and the consumer. The fan-out of a parallel request is one step. *)
Inductive front_step : OutputProcessor D → OutputProcessor D → Prop :=
  | fs_add s s' r sp prompt : fresh s r sp → engine_add_request r sp prompt None s = (Ret tt, s') → front_step s s'
  | fs_add_async s s' r sp prompt q : fresh s r sp → collectors s !! q = None →
      engine_add_request r sp prompt (Some q) (set_collectors (<[q := collector_init (output_kind sp)]> (collectors s)) s) = (Ret tt, s') →
      front_step s s'
  | fs_process s s' outs r : Forall (fits s) outs → process_outputs outs s = (Ret r, s') → front_step s s'
  | fs_abort s s' ids r : abortable s ids → abort_requests set_order 2 ids true s = (Ret r, s') → front_step s s'
  | fs_abort_external s s' exts r : abort_requests set_order 2 exts false s = (Ret r, s') → front_step s s'
  | fs_get s q c o c' : collectors s !! q = Some c → get_nowait c = (o, c') →
      front_step s (set_collectors (<[q := c']> (collectors s)) s)
  | fs_error s s' e : (∀ id rs, request_states s !! id = Some rs → is_Some (rs_queue rs)) →
      propagate_error e s = (Ret tt, s') → front_step s s'.

Hypothesis set_order_elements : ∀ A, set_order A ≡ₚ elements A.

(** From a call that was made back to its weakest precondition. *)
Lemma wp_ran {St A} (m : M St A) (Q : A → St → Prop) x a x' : wp m Q noexc x → m x = (Ret a, x') → Q a x'.
Proof. unfold wp. intros H Hm. by rewrite Hm in H. Qed.

Lemma front_step_ok s s' : front_step s s' → ok_but ∅ ∅ s → ok_but ∅ ∅ s'.
Proof.
  destruct 1 as [s s' r sp prompt Hf Hr|s s' r sp prompt q Hf Hq Hr|s s' outs r Hf Hr|s s' ids r Ha Hr|s s' exts r Hr|s q c o c' Hc Hg|s s' e Hq Hr]; intros Hok.
  - by eapply (wp_ran _ _ _ _ _ (wp_engine_add_request s r sp prompt None Hok Hf ltac:(done))).
  - eapply (wp_ran _ _ _ _ _ (wp_engine_add_request _ r sp prompt (Some q) _ _ _)); exact Hr.
    Unshelve.
    + by apply ok_collector_insert.
    + destruct Hf as [[G1 G2 G3] F2 F3 F4 F5]. by split.
    + intros q' [= <-]. simpl. rewrite lookup_insert_eq. by eexists.
  - by eapply (wp_ran _ _ _ _ _ (wp_process_outputs outs _ s Hok Hf)).
  - by destruct (wp_ran _ _ _ _ _ (wp_abort_internal set_order set_order_elements s ids 0 Hok Ha) Hr) as (A & _ & _ & _ & ? & _).
  - by destruct (wp_ran _ _ _ _ _ (wp_abort_external set_order set_order_elements s exts 1 Hok) Hr) as (_ & _ & ? & _).
  - apply ok_collector_insert; [done|]. eapply accepting_get; [|exact Hg]. by apply (ok_collector _ _ _ Hok q).
  - by eapply (wp_ran _ _ _ _ _ (wp_propagate_error s e Hok Hq)).
Qed.

Lemma init_ok n : ok_but ∅ ∅ (processor_init (D := D) n).
Proof. by split. Qed.

Lemma reachable_ok n s : rtc front_step (processor_init n) s → ok_but ∅ ∅ s.
Proof.
  intros H. remember (processor_init n) as s0 eqn:Hs0. assert (Hok : ok_but ∅ ∅ s0) by (subst; apply init_ok). clear Hs0.
  induction H as [|s1 s2 s3 Hstep _ IH]; [done|]. apply IH. by eapply front_step_ok.
Qed.



End steps.

(** ** A front end *)

(** The slow detokenizer with the byte tokenizer, for prompts given by token ids. *)
Definition byte_decoder : Decoder Slow := @slow_decoder byte_tokenizer.
Definition byte_make : MakeDecoder Slow := λ r,
  (λ ids, (ids, @slow_init byte_tokenizer (inl ids) true true)) <$> er_prompt_token_ids r.
Definition byte_total : @TotalDecoder Slow byte_decoder := @slow_total byte_tokenizer.

Definition no_stop (kind : RequestOutputKind) : FrontParams := mkFront (mkStopParams [] 0 false) true kind.
Definition ask (id ext : string) (kind : RequestOutputKind) : EngineRequest :=
  mkEngineRequest id ext (Some [104; 105]) None (inl (no_stop kind)) false.
Definition token_out (id : string) (t : Z) (fin : option FinishReason) : EngineOutput := mkEngineOutput id [t] None fin None 0.

Abbreviation byte_add := (@engine_add_request Slow byte_make).
Abbreviation byte_process := (@process_outputs Slow byte_decoder).
Abbreviation byte_abort := (@abort_requests Slow byte_decoder elements 2).

Definition two_samples : ParallelParams := mkParallel 2 None FINAL_ONLY.
Definition front_0 : OutputProcessor Slow := processor_init 1.
Definition front_1 : OutputProcessor Slow := (byte_add (ask "p" "e" FINAL_ONLY) two_samples None None front_0).2.
Definition front_2 : OutputProcessor Slow := (byte_process [token_out "0_p" 65 None; token_out "1_p" 66 (Some STOP)] front_1).2.

Lemma front_1_reached : rtc (@front_step Slow byte_decoder byte_make elements) front_0 front_1.
Proof.
  eapply rtc_once, (fs_add _ _ _ (ask "p" "e" FINAL_ONLY) two_samples None); [|vm_compute; reflexivity].
  split; [|simpl; lia|reflexivity|reflexivity|].
  - split; [done|by eexists|done].
  - intros i Hi. simpl in Hi. assert (i = 0 ∨ i = 1) as [-> | ->] by lia; vm_compute; reflexivity.
Qed.

Lemma fits_byte (s : OutputProcessor Slow) (outs : list EngineOutput) :
  (forallb (λ o, match request_states s !! en_request_id o with
    | Some rs => bool_decide (en_pooling_output o = None) && bool_decide (is_Some (rs_detokenizer rs)) | None => true end) outs = true) → Forall (fits s) outs.
Proof.
  rewrite forallb_forall. intros H. apply Forall_forall. intros o Ho%list_elem_of_In rs Hrs. specialize (H o Ho). rewrite Hrs in H.
  apply andb_true_iff in H as [H1%bool_decide_eq_true H2%bool_decide_eq_true]. done.
Qed.


Lemma abortable_byte (s : OutputProcessor Slow) (ids : list string) : NoDup ids →
  forallb (λ pid, match parents s !! pid with
    | Some p => forallb (λ x, bool_decide (x ∉ ids) && bool_decide (x ∉ parent_requests s)) (elements (child_requests p)) | None => true end) ids = true →
  abortable s ids.
Proof.
  intros Hnd H. split; [done|]. intros pid p x Hpid _ _ Hp Hx. rewrite forallb_forall in H. apply list_elem_of_In in Hpid.
  specialize (H pid Hpid). rewrite Hp, forallb_forall in H. specialize (H x). rewrite <-list_elem_of_In, elem_of_elements in H.
  apply H, andb_true_iff in Hx as [H1%bool_decide_eq_true H2%bool_decide_eq_true]. done.
Qed.


(** a parallel request that is aborted by its external id leaves its parent behind. The
    children are all gone and nothing is live, yet the parent stays in [parent_requests], from
    which only the end of a child or an abort by the internal id of the parent would remove it. *)
Theorem external_abort_keeps_parent : ∃ r s', byte_abort ["e"%string] false front_1 = (Ret r, s') ∧
  r = ["0_p"; "1_p"]%string ∧ request_states s' = ∅ ∧ external_req_ids s' = ∅ ∧ parent_requests s' = {[ "p"%string ]}.
Proof. eexists _, _. split; [vm_compute; reflexivity|]. split_and!; vm_compute; reflexivity. Qed.

(** pooling requests fail under a stream interval. With an interval of more than one, the
    final output of a pooling request, which has no detokenizer, violates an assertion. *)
Theorem pooling_fails_with_interval : ∃ s1 s2,
  byte_add (mkEngineRequest "a" "e" (Some [104; 105]) None (inr FINAL_ONLY) false) (mkParallel 1 None FINAL_ONLY) None None (processor_init 2) = (Ret tt, s1) ∧
  byte_process [mkEngineOutput "a" [] (Some [1; 2]) (Some STOP) None 0] s1 = (Raise AssertionError, s2).
Proof. eexists _, _. split; vm_compute; reflexivity. Qed.
