(* ===== verification/OutputStream.v ===== *)
(** What a client receives: the deltas of a request, put together, are its text and its tokens,
    whatever else the engine produces in between and whatever the stream interval. *)
From S2P Require Import Prelude Request StopCheck Detokenizer DetokSpecs Outputs ParallelSampling OutputProcessor OutputInv OutputSteps.
Local Open Scope Z_scope.

Section stream.
Context {D : Type} `{HD : TotalDecoder D} `{!DecoderLaws D}.
Implicit Types (rs : RequestState D) (s : OutputProcessor D) (d : Detokenizer D).

Lemma decode_all_returns ids todo (x : D) : ∃ pieces x', decode_all ids todo x = (Ret pieces, x').
Proof.
  revert ids x. induction todo as [|t todo IH]; intros ids x; [by eexists _, _|].
  destruct (decode_returns (ids ++ [t]) t x) as (new & x1 & H1); [by destruct ids|].
  destruct (IH (ids ++ [t]) x1) as (rest & x2 & H2). simpl. unfold mbind, M_bind. rewrite H1, H2. by eexists _, _.
Qed.

(** ** One request *)

Variables (prompt : list Z) (p : StopParams) (x0 : D).
Hypotheses (Hp : params_ok p) (Hx0 : prompt_len x0 = len prompt).

Lemma output_ids_of d ts : token_ids d = prompt ++ ts → prompt_len (decoder d) = len prompt → output_token_ids d = ts ∧ detok_num_output_tokens d = len ts.
Proof.
  intros H2 H3. unfold output_token_ids, detok_num_output_tokens. rewrite H2, H3, length_app. split; [|lia].
  destruct (Z.eqb_spec (len prompt) 0) as [Hz|].
  - destruct prompt; [done|simpl in Hz; lia].
  - replace (Z.of_nat (length prompt + length ts)) with (len (prompt ++ ts)) by (rewrite length_app; lia).
    rewrite py_slice_from by lia. rewrite Nat2Z.id. apply drop_app_length.
Qed.

(** The tokens of which [sent] were sent: all of them, or those before the offset. *)
Definition tokens_sent rs (ts sent : list Z) : Prop :=
  if rs_stream_interval rs <=? 1 then sent = ts
  else 0 ≤ rs_sent_tokens_offset rs ≤ len ts ∧ sent = take (Z.to_nat (rs_sent_tokens_offset rs)) ts.

(** A request that streams deltas to a caller: [ts] were sampled and decode to [pieces]; the text
    [txt] and the tokens [tks] were returned. *)
Record client rs (ts : list Z) (pieces : list text) (txt : text) (tks : list Z) : Prop := {
  ct_kind : rs_output_kind rs = DELTA;
  ct_parent : rs_parent_req rs = None;
  ct_queue : rs_queue rs = None;
  ct_prompt : is_Some (rs_prompt_token_ids rs) ∨ is_Some (rs_prompt_embeds rs);
  ct_plain : rs_streaming_input rs = false;
  ct_tokens : tokens_sent rs ts tks;
  ct_text : ∃ d, rs_detokenizer rs = Some (WithText d) ∧ streaming prompt p x0 ts pieces txt d;
}.

(** One delta. *)
Definition delta_out rs (item : Item) (t : text) (tk : list Z) (fr : option FinishReason) : Prop :=
  ∃ o c, item = Output o ∧ ro_request_id o = rs_external_req_id rs ∧ ro_outputs o = [Some c] ∧
    ro_finished o = bool_decide (is_Some fr) ∧ co_text c = t ∧ co_token_ids c = tk ∧ co_finish_reason c = finish_string <$> fr.

(** The tokens that go out with an output, after the update. *)
Lemma stream_tokens_sends rs ps d ts tks new finished : rs_detokenizer rs = Some (WithText d) → rs_output_kind rs = DELTA →
  output_token_ids d = ts ++ new → detok_num_output_tokens d = len (ts ++ new) → tokens_sent rs ts tks →
  ∃ r rs', stream_tokens new finished (rs, ps) = (Ret r, (rs', ps)) ∧ same_request rs rs' ∧ rs_detokenizer rs' = Some (WithText d) ∧
    match r with
    | None => finished = false ∧ tokens_sent rs' (ts ++ new) tks
    | Some tk => tokens_sent rs' (ts ++ new) (tks ++ tk) ∧ tks ++ tk = ts ++ new
    end.
Proof.
  intros Hd Hk Hids Hnum Hs. unfold stream_tokens, mbind, M_bind, gets, on_state, modify. simpl. unfold tokens_sent in *.
  destruct (rs_stream_interval rs <=? 1) eqn:Hi; simpl.
  { subst tks. exists (Some new), rs. split_and!; [done|done|done|by rewrite Hi|done]. }
  assert (Hask : ∀ {A} (f : AnyDetokenizer D → A), on_detokenizer (gets f) (rs, ps) = (Ret (f (WithText d)), (rs, ps))).
  { intros A f. unfold on_detokenizer, gets. simpl. rewrite Hd. by destruct rs; simpl in *; subst. }
  change (λ x : AnyDetokenizer D, (Ret (any_num_output_tokens x), x)) with (gets (St := AnyDetokenizer D) any_num_output_tokens).
  change (λ x : AnyDetokenizer D, (Ret (any_output_token_ids x), x)) with (gets (St := AnyDetokenizer D) any_output_token_ids).
  rewrite Hask. simpl. destruct (negb _) eqn:Hn.
  - exists None, rs. apply negb_true_iff, orb_false_iff in Hn as [[Hf _]%orb_false_iff _]. split_and!; [done|done|done|done|].
    rewrite Hi. destruct Hs as [Hs1 Hs2]. split; [rewrite length_app; lia|]. rewrite take_app_le by lia. done.
  - rewrite Hk, bool_decide_eq_true_2 by done. rewrite Hask. simpl. eexists (Some _), _. split; [reflexivity|]. destruct Hs as [Hs1 Hs2].
    assert (Hall : tks ++ py_slice (output_token_ids d) (rs_sent_tokens_offset rs) (len (output_token_ids d)) = ts ++ new).
    { rewrite Hids, py_slice_from by lia. rewrite drop_app_le, Hs2, app_assoc, take_drop by lia. done. }
    split_and!; [by split|done| |done]. simpl. rewrite Hi, Hnum, Hall. split; [lia|]. rewrite take_ge; [done|lia].
Qed.

(** Making the output: text, then tokens, then the record. *)
Lemma make_delta rs ps d new fr sr ts tks t d' : rs_detokenizer rs = Some (WithText d) → rs_output_kind rs = DELTA → rs_parent_req rs = None →
  is_Some (rs_prompt_token_ids rs) ∨ is_Some (rs_prompt_embeds rs) →
  output_token_ids d = ts ++ new → detok_num_output_tokens d = len (ts ++ new) → tokens_sent rs ts tks →
  get_next_output_text (bool_decide (is_Some fr)) true d = (Ret t, d') →
  ∃ r rs', make_request_output new None fr sr (rs, ps) = (Ret r, (rs', ps)) ∧ same_request rs rs' ∧
    match r with
    | None => fr = None ∧ rs_detokenizer rs' = Some (WithText d) ∧ tokens_sent rs' (ts ++ new) tks
    | Some i => ∃ tk, delta_out rs i t tk fr ∧ rs_detokenizer rs' = Some (WithText d') ∧ tokens_sent rs' (ts ++ new) (tks ++ tk) ∧ tks ++ tk = ts ++ new
    end.
Proof.
  intros Hd Hk Hpar Hpr Hids Hnum Hs Hget.
  destruct (stream_tokens_sends rs ps d ts tks new (bool_decide (is_Some fr)) Hd Hk Hids Hnum Hs) as (r & rs1 & Hst & Hsr & Hd1 & Hr).
  unfold make_request_output, mbind at 1, M_bind at 1, gets at 1. simpl. rewrite Hk, (bool_decide_eq_false_2 (DELTA = FINAL_ONLY)) by done.
  rewrite andb_false_r. unfold mbind at 1, M_bind at 1. rewrite Hst. destruct r as [tk|].
  - destruct Hr as [Hr1 Hr2]. unfold new_completion_output, mbind, M_bind, gets, on_detokenizer. simpl.
    rewrite Hd1, (sr_kind _ _ Hsr), Hk, (bool_decide_eq_true_2 (DELTA = DELTA)) by done. unfold any_next_output_text, on_text. rewrite Hget. simpl.
    rewrite Hpar. unfold new_request_output, mbind, M_bind, gets, of_outcome. simpl.
    assert (Hout : ∃ l, output_prompt_ids (set_detokenizer (Some (WithText d')) (set_detokenizer (Some (WithText d')) rs1)) = Ret l).
    { unfold output_prompt_ids. simpl. rewrite (sr_prompt _ _ Hsr), (sr_embeds _ _ Hsr). destruct (rs_prompt_token_ids rs); [by eexists|].
      destruct (rs_prompt_embeds rs); [by eexists|]. by destruct Hpr as [[]|[]]. }
    destruct Hout as [l Hout]. rewrite Hout. eexists (Some _), _. split; [reflexivity|]. split.
    + etrans; [exact Hsr|]. by split; try done; simpl; rewrite Hd1; split; eexists.
    + exists tk. split_and!; [|done|exact Hr1|done]. eexists _, _. split_and!; reflexivity.
  - destruct Hr as [Hf Hr]. exists None, rs1. split_and!; [done|done| |done|done]. by destruct fr.
Qed.

(** What one engine output of a client does. *)
Lemma client_step rs ps o ts pieces txt tks : client rs ts pieces txt tks → en_pooling_output o = None →
  let new := en_new_token_ids o in
  let ids := decoded_ids p new (bool_decide (en_finish_reason o = Some STOP)) in
  ∃ pieces' x r item fr rs',
    decode_all prompt (ts ++ ids) x0 = (Ret (pieces ++ pieces'), x) ∧
    stop_found (minimum p (pieces ++ pieces')) (concat (pieces ++ pieces')) (stop p) (include_stop_str_in_output p) r ∧
    detokenize_and_make o (rs, ps) = (Ret (item, fr), (rs', ps)) ∧ same_request rs rs' ∧
    fr = (if r then Some STOP else en_finish_reason o) ∧
    match fr with
    | None => ∃ t tk, client rs' (ts ++ new) (pieces ++ pieces') (txt ++ t) (tks ++ tk) ∧
        (item = None ∧ t = [] ∧ tk = [] ∨ ∃ i, item = Some i ∧ delta_out rs i t tk None)
    | Some f => ∃ i t tk, item = Some i ∧ delta_out rs i t tk (Some f) ∧
        txt ++ t = cut_text (concat (pieces ++ pieces')) r ∧ tks ++ tk = ts ++ new
    end.
Proof.
  intros [C1 C2 C3 C4 C5 C6 (d & Hd & Hstr)] Hpool new ids. set (term := bool_decide (en_finish_reason o = Some STOP)).
  pose proof Hstr as [Hrun Hbuf Hoff Hsent]. destruct (decode_all_returns (prompt ++ ts) ids (decoder d)) as (pieces' & x & Hdec).
  destruct (running_step prompt p x0 ts pieces d new term pieces' x Hp Hx0 Hrun Hdec) as (r & Hfound & Hupd).
  exists pieces', x, r. set (all := pieces ++ pieces') in *. set (d1 := mkDetokenizer _ _ _ _ _ _) in Hupd.
  set (rs1 := set_detokenizer (Some (WithText d1)) (set_is_prefilling false (set_num_cached_tokens (en_num_cached_tokens o) rs))).
  assert (Hdec0 : decode_all prompt (ts ++ ids) x0 = (Ret all, x)) by (eapply decode_all_snoc; [apply Hrun|exact Hdec]).
  assert (Hplen : prompt_len x = len prompt) by (rewrite <-Hx0; pose proof (decode_all_prompt prompt (ts ++ ids) x0) as H; by rewrite Hdec0 in H).
  destruct (output_ids_of d1 (ts ++ new)) as [Hids Hnum]; [done|done|].
  assert (Hsr : same_request rs rs1) by (split; try done; simpl; rewrite Hd; split; intros _; by eexists).
  set (fr := if r then Some STOP else en_finish_reason o).
  assert (Hrun1 : ∃ sr, detokenize_and_make o (rs, ps) =
    match make_request_output new None fr sr (rs1, ps) with (Ret i, z) => (Ret (i, fr), z) | (Raise e, z) => (Raise e, z) end).
  { unfold detokenize_and_make, mbind, M_bind, on_state, modify, on_detokenizer. simpl. rewrite Hpool, (bool_decide_eq_true_2 (None = None)) by done. simpl. rewrite Hd. simpl. fold new term. unfold any_update, on_text. rewrite Hupd.
    destruct r as [[y c]|]; simpl; [|eexists; subst fr; simpl; reflexivity].
    destruct Hfound as (before & after & i & Heq & _). assert (y ≠ []) by (apply (po_stop _ Hp); rewrite Heq; set_solver). destruct y; [done|]. eexists. reflexivity. }
  destruct Hrun1 as [sr Hrun1]. assert (Hts1 : tokens_sent rs1 ts tks) by done.
  destruct fr as [f|] eqn:Hfr.
  - destruct (cut_keeps p _ pieces pieces' r (Z.to_nat (last_output_text_offset d)) Hp Hbuf (rn_none _ _ _ _ _ _ Hrun) Hfound) as [Hk1 Hk2].
    { rewrite (rn_text _ _ _ _ _ _ Hrun) in Hoff. lia. }
    destruct (finish_get d1 txt) as (t & d2 & Hg & Htxt & _); [simpl; fold all in Hk2; lia|simpl; fold all in Hk1; by rewrite Hk1, Hsent, (rn_text _ _ _ _ _ _ Hrun)|].
    destruct (make_delta rs1 ps d1 new (Some f) sr ts tks t d2) as (item & rs2 & Hm & Hsr2 & Hitem); [done..|].
    destruct item as [i|]; [|by destruct Hitem]. destruct Hitem as (tk & Hout & _ & _ & Htk). rewrite Hm in Hrun1.
    exists (Some i), (Some f), rs2. split_and!; [done|done|exact Hrun1|by etrans|done|]. exists i, t, tk. by split_and!.
  - assert (Hrn : r = None ∧ en_finish_reason o = None) by (subst fr; by destruct r). destruct Hrn as [-> Hnf].
    assert (Hids' : ids = new) by (subst ids term; unfold decoded_ids; by rewrite Hnf). rewrite Hids' in Hdec, Hdec0 |- *.
    assert (Hstr1 : streaming prompt p x0 (ts ++ new) all txt d1).
    { destruct (streaming_update prompt p x0 ts pieces txt d new pieces' x Hp Hx0 Hstr Hdec) as (r' & d' & Hf' & Hu & _ & Hs').
      assert (term = false) as Hterm by (subst term; by rewrite Hnf). rewrite Hterm in Hupd. rewrite Hupd in Hu. injection Hu as Hr' <-.
      apply Hs'. by destruct r'. }
    destruct (streaming_get _ _ _ _ _ _ _ Hstr1) as (t & d2 & Hg & Hstr2).
    destruct (make_delta rs1 ps d1 new None sr ts tks t d2) as (item & rs2 & Hm & Hsr2 & Hitem); [done..|]. rewrite Hm in Hrun1.
    exists item, None, rs2. split_and!; [done|done|exact Hrun1|by etrans|done|].
    assert (Hcl : ∀ txt' tks' d', rs_detokenizer rs2 = Some (WithText d') → tokens_sent rs2 (ts ++ new) tks' →
      streaming prompt p x0 (ts ++ new) all txt' d' → client rs2 (ts ++ new) all txt' tks').
    { intros txt' tks' d' H1 H2 H3. split; [by rewrite (sr_kind _ _ Hsr2)|by rewrite (sr_parent _ _ Hsr2)|by rewrite (sr_queue _ _ Hsr2)
       |by rewrite (sr_prompt _ _ Hsr2), (sr_embeds _ _ Hsr2)|by rewrite (sr_streaming _ _ Hsr2)|done|by exists d']. }
    destruct item as [i|].
    + destruct Hitem as (tk & Hout & Hd2 & Htk & _). exists t, tk. split; [by apply (Hcl _ _ d2)|]. right. by exists i.
    + destruct Hitem as (_ & Hd2 & Htk). exists [], []. rewrite !app_nil_r. split; [by apply (Hcl _ _ d1)|]. by left.
Qed.

(** ** The request among others *)

Variables (id ext : string).

(** The outputs under an external id. *)
Definition mine (items : list Item) : list RequestOutput :=
  omap (λ i, match i with Output o => if decide (ro_request_id o = ext) then Some o else None | _ => None end) items.
Definition texts (os : list RequestOutput) : text := concat (co_text <$> contents os).
Definition tokens_of (os : list RequestOutput) : list Z := concat (co_token_ids <$> contents os).

(** No other live request answers under the external id. *)
Definition sole s : Prop := ∀ id' rs', id' ≠ id → request_states s !! id' = Some rs' → rs_external_req_id rs' ≠ ext.

Lemma mine_app items items' : mine (items ++ items') = mine items ++ mine items'.
Proof. apply omap_app. Qed.
Lemma texts_app os os' : texts (os ++ os') = texts os ++ texts os'.
Proof. unfold texts. by rewrite contents_app, fmap_app, concat_app. Qed.
Lemma tokens_of_app os os' : tokens_of (os ++ os') = tokens_of os ++ tokens_of os'.
Proof. unfold tokens_of. by rewrite contents_app, fmap_app, concat_app. Qed.

Lemma mine_delta rs i t tk fr : rs_external_req_id rs = ext → delta_out rs i t tk fr →
  texts (mine [i]) = t ∧ tokens_of (mine [i]) = tk ∧ any_finished (mine [i]) = bool_decide (is_Some fr).
Proof.
  intros He (o & c & -> & H1 & H2 & H3 & H4 & H5 & _). unfold mine, texts, tokens_of, contents, any_finished. simpl.
  rewrite decide_True by congruence. simpl. rewrite H2. simpl. rewrite !app_nil_r, orb_false_r. done.
Qed.

Lemma sole_handled s s' o : sole s → handled o s s' → sole s'.
Proof.
  intros Hs Hh id' rs' Hne Hid'. destruct (decide (id' = en_request_id o)) as [->|Hne'].
  - destruct (request_states s !! en_request_id o) as [rs|] eqn:Hrs.
    + rewrite (sr_ext _ _ (proj2 (hd_same _ _ _ Hh rs Hrs) rs' Hid')). by apply (Hs (en_request_id o)).
    + by rewrite (handled_none _ _ _ _ Hh Hrs) in Hid'.
  - rewrite (hd_others _ _ _ Hh id' Hne') in Hid'. by apply (Hs id').
Qed.

(** An output of another request adds nothing. *)
Lemma other_adds s o acc acc' : sole s → (en_request_id o ≠ id ∨ request_states s !! id = None) → adds_items s o acc acc' →
  mine acc'.1 = mine acc.1 ∧ (id ∈ acc'.2 ↔ id ∈ acc.2).
Proof.
  intros Hs Ho (Hnone & Hab & items & Hacc & Hitems). destruct (decide (en_request_id o = id)) as [Heq|Hne].
  - destruct Ho as [?|Ho]; [done|]. rewrite Hnone by by rewrite Heq. done.
  - split; [|rewrite Hab, elem_of_app; unfold stopped_by_text; repeat case_match; rewrite ?list_elem_of_singleton, ?elem_of_nil; naive_solver].
    rewrite Hacc, mine_app. assert (mine items = []) as ->; [|by rewrite app_nil_r].
    assert (Hall : ∀ i, i ∈ items → mine [i] = []).
    { intros i Hi. destruct (Hitems i Hi) as (rs & Hrs & Hok). destruct i as [o'|o'|e]; [|done|done]. unfold mine. simpl.
      rewrite decide_False; [done|]. destruct Hok as [-> _]. by apply (Hs (en_request_id o)). }
    clear -Hall. induction items as [|i items IH]; [done|]. change (i :: items) with ([i] ++ items). rewrite mine_app, Hall by by left.
    apply IH. intros j Hj. apply Hall. by right.
Qed.

(** Finishing takes the request out of the table. *)
Lemma finish_gone x s u s' : finish_request x s = (Ret u, s') → request_states s' !! x = None.
Proof.
  unfold finish_request, forget_external, mbind, M_bind, gets, modify, from_option_raise. destruct (request_states s !! x) as [rs|]; [|done]. simpl.
  case_decide; [|done]. destruct (rs_parent_req rs) as [pid|]; simpl.
  - destruct (parents s !! pid) as [q|]; [|done]. simpl. case_bool_decide; intros [= _ <-]; simpl; apply lookup_delete_eq.
  - intros [= _ <-]. simpl. apply lookup_delete_eq.
Qed.

(** One output of the request itself. *)
Lemma own_output acc o s rs ts pieces txt tks : ok_but ∅ ∅ s → fits s o → en_request_id o = id → request_states s !! id = Some rs →
  client rs ts pieces txt tks →
  let new := en_new_token_ids o in
  ∃ acc' s' pieces' x r, process_one acc o s = (Ret acc', s') ∧
    decode_all prompt (ts ++ decoded_ids p new (bool_decide (en_finish_reason o = Some STOP))) x0 = (Ret (pieces ++ pieces'), x) ∧
    stop_found (minimum p (pieces ++ pieces')) (concat (pieces ++ pieces')) (stop p) (include_stop_str_in_output p) r ∧
    match (if r then Some STOP else en_finish_reason o) with
    | None => ∃ rs' t tk item, request_states s' !! id = Some rs' ∧ same_request rs rs' ∧ client rs' (ts ++ new) (pieces ++ pieces') (txt ++ t) (tks ++ tk) ∧
        acc' = (acc.1 ++ item, acc.2) ∧ (item = [] ∧ t = [] ∧ tk = [] ∨ ∃ i, item = [i] ∧ delta_out rs i t tk None)
    | Some f => ∃ i t tk, request_states s' !! id = None ∧ acc' = (acc.1 ++ [i], if en_finish_reason o then acc.2 else acc.2 ++ [id]) ∧
        delta_out rs i t tk (Some f) ∧ txt ++ t = cut_text (concat (pieces ++ pieces')) r ∧ tks ++ tk = ts ++ new
    end.
Proof.
  intros Hok Hfit Hoid Hid Hc new. destruct (wp_run _ _ _ (wp_process_one acc o s Hok Hfit)) as (acc' & s' & Hrun & _ & _ & _).
  assert (Hpool : en_pooling_output o = None).
  { apply (Hfit rs); [by rewrite Hoid|]. destruct (ct_text _ _ _ _ _ Hc) as (d & -> & _). by eexists. }
  destruct (client_step rs (parents s) o ts pieces txt tks Hc Hpool) as (pieces' & x & r & item & fr & rs' & H1 & H2 & H3 & Hsr & Hfr & H4).
  exists acc', s', pieces', x, r. split_and!; [done|done|done|]. rewrite <-Hfr.
  set (s1 := set_parents (parents s) (set_request_states (<[id := rs']> (request_states s)) s)).
  assert (Hin : in_table id (detokenize_and_make o) s = (Ret (item, fr), s1)) by (unfold in_table; by rewrite Hid, H3).
  assert (Hid1 : request_states s1 !! id = Some rs') by (simpl; by rewrite lookup_insert_eq).
  assert (Hq : rs_queue rs' = None ∧ rs_streaming_input rs' = false).
  { rewrite (sr_queue _ _ Hsr), (sr_streaming _ _ Hsr). split; apply Hc. } destruct Hq as [Hq Hst].
  unfold process_one in Hrun. rewrite Hoid in Hrun. unfold mbind, M_bind, gets in Hrun. rewrite Hid, Hin in Hrun. simpl in Hrun.
  rewrite lookup_insert_eq in Hrun. simpl in Hrun. rewrite Hst, Hq in Hrun.
  destruct fr as [f|].
  - destruct H4 as (i & t & tk & -> & H5 & H6 & H7). simpl in Hrun. exists i, t, tk.
    unfold mret, M_ret in Hrun. destruct (finish_request id s1) as [[u|e] s2] eqn:Hfin; [|done].
    injection Hrun as <- <-. split_and!; [by eapply finish_gone| |done|done|done]. by destruct (en_finish_reason o).
  - destruct H4 as (t & tk & H5 & H6). destruct H6 as [(-> & -> & ->)|(i & -> & Hout)]; simpl in Hrun; injection Hrun as <- <-.
    + exists rs', [], [], []. split_and!; [done|done|done|done|by left].
    + exists rs', t, tk, [i]. split_and!; [done|done|done|done|]. right. by exists i.
Qed.

(** ** The whole stream *)

(** The tokens sampled for the request. *)
Definition sampled (outs : list EngineOutput) : list Z :=
  concat (en_new_token_ids <$> filter (λ o, en_request_id o = id) outs).

(** The engine has produced [seen] and the request is still live. *)
Record receiving (seen : list EngineOutput) (acc : list Item * list string) s : Prop := {
  rc_client : ∃ rs pieces, request_states s !! id = Some rs ∧ rs_external_req_id rs = ext ∧
    client rs (sampled seen) pieces (texts (mine acc.1)) (tokens_of (mine acc.1));
  rc_unfinished : Forall (λ o, ro_finished o = false) (mine acc.1);
  rc_aborts : id ∉ acc.2;
  rc_engine o : o ∈ seen → en_request_id o = id → en_finish_reason o = None;
}.

(** The request ended with the output [o]. *)
Record received (seen : list EngineOutput) (acc : list Item * list string) s : Prop := {
  rd_gone : request_states s !! id = None;
  rd_end : ∃ before o after pieces x r os last, seen = before ++ o :: after ∧ en_request_id o = id ∧
    (∀ o', o' ∈ before → en_request_id o' = id → en_finish_reason o' = None) ∧
    decode_all prompt (sampled before ++ decoded_ids p (en_new_token_ids o) (bool_decide (en_finish_reason o = Some STOP))) x0 = (Ret pieces, x) ∧
    stop_found (minimum p pieces) (concat pieces) (stop p) (include_stop_str_in_output p) r ∧
    (is_Some r ∨ is_Some (en_finish_reason o)) ∧
    texts (mine acc.1) = cut_text (concat pieces) r ∧ tokens_of (mine acc.1) = sampled before ++ en_new_token_ids o ∧
    mine acc.1 = os ++ [last] ∧ Forall (λ o', ro_finished o' = false) os ∧ ro_finished last = true ∧
    (id ∈ acc.2 ↔ en_finish_reason o = None);
}.

Lemma sampled_snoc seen o : sampled (seen ++ [o]) = sampled seen ++ (if decide (en_request_id o = id) then en_new_token_ids o else []).
Proof. unfold sampled. rewrite filter_app, fmap_app, concat_app, filter_cons, filter_nil. case_decide; simpl; by rewrite ?app_nil_r. Qed.

Lemma mine_one rs i t tk fr : rs_external_req_id rs = ext → delta_out rs i t tk fr → ∃ o, mine [i] = [o] ∧ ro_finished o = bool_decide (is_Some fr).
Proof. intros He (o & c & -> & H1 & _ & H3 & _). exists o. split; [|done]. unfold mine. simpl. by rewrite decide_True by congruence. Qed.

Lemma receiving_other seen acc acc' s s' o : receiving seen acc s → handled o s s' → en_request_id o ≠ id →
  mine acc'.1 = mine acc.1 → (id ∈ acc'.2 ↔ id ∈ acc.2) → receiving (seen ++ [o]) acc' s'.
Proof.
  intros [(rs & pieces & H1 & H2 & H3) H4 H5 H6] Hh Hne Hm Ha. split.
  - exists rs, pieces. rewrite (hd_others _ _ _ Hh id), sampled_snoc, decide_False, app_nil_r, Hm by done. done.
  - by rewrite Hm.
  - tauto.
  - intros o' [Ho'| ->%list_elem_of_singleton]%elem_of_app Hid; [by apply H6|done].
Qed.

Lemma received_other seen acc acc' s s' o : received seen acc s → handled o s s' →
  mine acc'.1 = mine acc.1 → (id ∈ acc'.2 ↔ id ∈ acc.2) → received (seen ++ [o]) acc' s'.
Proof.
  intros [H1 (before & e & after & pieces & x & r & os & last & -> & H)] Hh Hm Ha. split; [by eapply handled_none|].
  exists before, e, (after ++ [o]), pieces, x, r, os, last. rewrite Hm, Ha, <-app_assoc. by split.
Qed.

Lemma receiving_own seen acc s o : ok_but ∅ ∅ s → fits s o → receiving seen acc s → en_request_id o = id →
  ∃ acc' s', process_one acc o s = (Ret acc', s') ∧ (receiving (seen ++ [o]) acc' s' ∨ received (seen ++ [o]) acc' s').
Proof.
  intros Hok Hf [(rs & pieces & H1 & H2 & H3) H4 H5 H6] Hid.
  destruct (own_output acc o s rs _ _ _ _ Hok Hf Hid H1 H3) as (acc' & s' & pieces' & x & r & Hrun & Hdec & Hfound & Hcase).
  exists acc', s'. split; [done|]. destruct (if r then Some STOP else en_finish_reason o) as [f|] eqn:Hfr.
  - right. destruct Hcase as (i & t & tk & Hgone & -> & Hout & Htxt & Htk). split; [done|]. simpl.
    destruct (mine_delta _ _ _ _ _ H2 Hout) as (G1 & G2 & _). destruct (mine_one _ _ _ _ _ H2 Hout) as (last & G3 & G4).
    exists seen, o, [], (pieces ++ pieces'), x, r, (mine acc.1), last. rewrite mine_app, texts_app, tokens_of_app, G1, G2, G3.
    split_and!; [done|done|done|done|done| |done|done|done|done|done|].
    + destruct r; [left; by eexists|right; by rewrite Hfr].
    + destruct (en_finish_reason o); [by split|]. rewrite elem_of_app, list_elem_of_singleton. tauto.
  - left. assert (Hnf : en_finish_reason o = None) by by destruct r.
    destruct Hcase as (rs' & t & tk & item & G1 & Hsr & G2 & -> & Hitem). split; simpl.
    + exists rs', (pieces ++ pieces'). rewrite (sr_ext _ _ Hsr), sampled_snoc, decide_True, mine_app, texts_app, tokens_of_app by done.
      split_and!; [done|done|]. destruct Hitem as [(-> & -> & ->)|(i & -> & Hout)]; [exact G2|].
      by destruct (mine_delta _ _ _ _ _ H2 Hout) as (-> & -> & _).
    + rewrite mine_app. apply Forall_app. split; [done|]. destruct Hitem as [(-> & _)|(i & -> & Hout)]; [constructor|].
      destruct (mine_one _ _ _ _ _ H2 Hout) as (o' & -> & Hfin). constructor; [exact Hfin|constructor].
    + done.
    + intros o' [Ho'| ->%list_elem_of_singleton]%elem_of_app Hid'; [by apply H6|done].
Qed.

Lemma stream_loop outs seen acc s : ok_but ∅ ∅ s → Forall (fits s) outs → sole s → receiving seen acc s ∨ received seen acc s →
  ∃ acc' s', for_fold outs acc process_one s = (Ret acc', s') ∧ (receiving (seen ++ outs) acc' s' ∨ received (seen ++ outs) acc' s').
Proof.
  revert seen acc s. induction outs as [|o outs IH]; intros seen acc s Hok Hf Hs Hst; [exists acc, s; by rewrite app_nil_r|].
  apply Forall_cons in Hf as [Ho Hf]. destruct (wp_run _ _ _ (wp_process_one acc o s Hok Ho)) as (acc1 & s1 & H1 & Hok1 & Hh & Hadd).
  assert (Hst1 : receiving (seen ++ [o]) acc1 s1 ∨ received (seen ++ [o]) acc1 s1).
  { destruct Hst as [Hst|Hst]; [destruct (decide (en_request_id o = id)) as [Hid|Hne]|].
    - destruct (receiving_own seen acc s o Hok Ho Hst Hid) as (acc2 & s2 & H2 & H3). congruence.
    - left. destruct (other_adds s o acc acc1 Hs (or_introl Hne) Hadd). by eapply receiving_other.
    - right. destruct (other_adds s o acc acc1 Hs (or_intror (rd_gone _ _ _ Hst)) Hadd). by eapply received_other. }
  destruct (IH (seen ++ [o]) acc1 s1 Hok1) as (acc' & s' & H2 & H3).
  - eapply Forall_impl; [exact Hf|]. intros o' Ho'. by eapply fits_handled.
  - by eapply sole_handled.
  - done.
  - exists acc', s'. simpl. unfold mbind, M_bind. rewrite H1. rewrite <-app_assoc in H3. done.
Qed.

(** *** Batches *)

Lemma process_one_frame acc o s : process_one acc o s =
  match process_one ([], []) o s with (Ret r, s') => (Ret (acc.1 ++ r.1, acc.2 ++ r.2), s') | (Raise e, s') => (Raise e, s') end.
Proof.
  destruct acc as [items aborts]. unfold process_one, mbind, M_bind, gets, mret, M_ret. simpl.
  destruct (request_states s !! en_request_id o) as [rs|]; [|by rewrite !app_nil_r].
  destruct (in_table (en_request_id o) (detokenize_and_make o) s) as [[[item fr]|e] s1]; [|done].
  destruct (from_option_raise KeyError (request_states s1 !! en_request_id o) s1) as [[rs1|e] s2]; [|done].
  set (m := match item with Some _ => _ | None => _ end). destruct (m s2) as [[ret|e] s3]; [|done]. simpl.
  destruct fr as [f|]; [|by rewrite app_nil_r]. destruct (rs_streaming_input rs1); [by rewrite app_nil_r|].
  destruct (finish_request (en_request_id o) s3) as [[u|e] s4]; [|done]. case_bool_decide; by rewrite ?app_nil_r.
Qed.

Lemma process_loop_frame outs acc s : for_fold outs acc process_one s =
  match process_outputs outs s with (Ret r, s') => (Ret (acc.1 ++ r.1, acc.2 ++ r.2), s') | (Raise e, s') => (Raise e, s') end.
Proof.
  unfold process_outputs. revert acc s. induction outs as [|o outs IH]; intros acc s; simpl.
  { destruct acc. unfold mret, M_ret. simpl. by rewrite !app_nil_r. }
  unfold mbind, M_bind. rewrite (process_one_frame acc). destruct (process_one ([], []) o s) as [[r|e] s1]; [|done].
  rewrite IH, (IH r). destruct (for_fold outs ([], []) process_one s1) as [[r'|e] s2]; [|done]. simpl. by rewrite !app_assoc.
Qed.

Context `{!MakeDecoder D}.
Variable set_order : gset string → list string.
Hypothesis set_order_elements : ∀ A, set_order A ≡ₚ elements A.

(** From [s1] on: the engine delivers a batch, or something happens to other requests. The outputs
    [seen] of the engine gave the results [acc]. *)
Inductive stream_run s1 : list EngineOutput → list Item * list string → OutputProcessor D → Prop :=
  | run_start : stream_run s1 [] ([], []) s1
  | run_batch seen acc s outs r s' : stream_run s1 seen acc s → Forall (fits s) outs → process_outputs outs s = (Ret r, s') →
      stream_run s1 (seen ++ outs) (acc.1 ++ r.1, acc.2 ++ r.2) s'
  | run_other seen acc s s' : stream_run s1 seen acc s → front_step set_order s s' →
      request_states s' !! id = request_states s !! id → sole s' → stream_run s1 seen acc s'.

Lemma sole_process s s' outs r : ok_but ∅ ∅ s → Forall (fits s) outs → sole s → process_outputs outs s = (Ret r, s') → sole s'.
Proof.
  unfold process_outputs. generalize (([], []) : list Item * list string). revert s. induction outs as [|o outs IH]; intros s acc Hok Hf Hs Hrun.
  { by injection Hrun as _ <-. }
  apply Forall_cons in Hf as [Ho Hf]. destruct (wp_run _ _ _ (wp_process_one acc o s Hok Ho)) as (acc1 & s1 & H1 & Hok1 & Hh & _).
  simpl in Hrun. unfold mbind, M_bind in Hrun. rewrite H1 in Hrun. apply (IH s1 acc1); [done| |by eapply sole_handled|done].
  eapply Forall_impl; [exact Hf|]. intros o' Ho'. by eapply fits_handled.
Qed.

Lemma run_sound s1 seen acc s : ok_but ∅ ∅ s1 → sole s1 → receiving [] ([], []) s1 → stream_run s1 seen acc s →
  ok_but ∅ ∅ s ∧ sole s ∧ (receiving seen acc s ∨ received seen acc s).
Proof.
  intros Hok1 Hs1 Hr1. induction 1 as [|seen acc s outs r s' _ (Hok & Hs & IH) Hf Hrun|seen acc s s' _ (Hok & Hs & IH) Hstep Hid Hs'].
  - split_and!; [done|done|by left].
  - destruct (stream_loop outs seen acc s Hok Hf Hs IH) as (acc' & s2 & H1 & H2). rewrite process_loop_frame, Hrun in H1.
    injection H1 as <- <-. split_and!; [|by eapply sole_process|done].
    by eapply (wp_ran _ _ _ _ _ (wp_process_outputs outs _ s Hok Hf)).
  - split_and!; [by eapply front_step_ok|done|]. destruct IH as [[H1 H2 H3 H4]|[H1 H2]]; [left|right]; split; try done; by rewrite Hid.
Qed.
End stream.

Section exact.
Context {D : Type} `{HD : TotalDecoder D} `{!DecoderLaws D} `{!MakeDecoder D}.
Variable set_order : gset string → list string.
Hypothesis set_order_elements : ∀ A, set_order A ≡ₚ elements A.

(** A request for one sample of text, streamed as deltas and decoded from [prompt] and [x0]. *)
Record streams (r : EngineRequest) (sp : ParallelParams) (p : StopParams) (prompt : list Z) (x0 : D) : Prop := {
  sr_one : n_samples sp = 1;
  sr_params : er_params r = inl (mkFront p true DELTA);
  sr_decoder : make_decoder r = Some (prompt, x0);
  sr_stop : params_ok p;
  sr_prompt_len : prompt_len x0 = len prompt;
}.

Lemma streams_start s r sp p prompt x0 shown s1 : ok_but ∅ ∅ s → fresh s r sp → streams r sp p prompt x0 →
  sole (er_request_id r) (er_external_req_id r) s → engine_add_request r sp shown None s = (Ret tt, s1) →
  ok_but ∅ ∅ s1 ∧ sole (er_request_id r) (er_external_req_id r) s1 ∧
  receiving prompt p x0 (er_request_id r) (er_external_req_id r) [] ([], []) s1.
Proof.
  intros Hok Hf [H1 H2 H3 H4 H5] Hs Hadd. split; [by eapply (wp_ran _ _ _ _ _ (wp_engine_add_request s r sp shown None Hok Hf ltac:(done)))|].
  destruct Hf as [[A1 [n A2] A3] F2 F3 F4 F5]. unfold engine_add_request in Hadd. rewrite H1 in Hadd. simpl in Hadd.
  unfold add_request, mbind, M_bind, gets, modify, of_outcome, from_new_request in Hadd. rewrite F3, A2, H2 in Hadd. simpl in Hadd.
  rewrite H3, A1 in Hadd. injection Hadd as <-. split.
  - intros id' rs' Hne. simpl. rewrite lookup_insert_ne by done. by apply Hs.
  - split; [|constructor|apply not_elem_of_nil|by intros o ?%elem_of_nil]. eexists _, []. split; [apply lookup_insert_eq|]. split; [done|].
    split; try done; simpl.
    + unfold prompt_length in A2. destruct (er_prompt_token_ids r); [left; by eexists|]. destruct (er_prompt_embeds r); [right; by eexists|done].
    + unfold tokens_sent. simpl. by case_match.
    + eexists. split; [done|]. by apply streaming_init.
Qed.

(** C20: a client receives exactly its text. After a request for deltas is added in a reachable
    state, however the engine batches its outputs, whatever other requests are added, served and
    aborted in between and whatever the stream interval: while the request is live, what it was
    sent is a beginning of the decoded text and of the sampled tokens, and nothing says it is
    finished; when it is gone, what it was sent is all sampled tokens and the decoded text, cut at
    the stop string if one was found, the last output and no earlier one is marked finished, and the
    engine core is told to abort the request exactly when the core itself had not finished it. *)
Theorem client_stream_exact n s0 r sp p prompt x0 shown s1 seen acc s :
  rtc (front_step set_order) (processor_init n) s0 → fresh s0 r sp → streams r sp p prompt x0 →
  sole (er_request_id r) (er_external_req_id r) s0 → engine_add_request r sp shown None s0 = (Ret tt, s1) →
  stream_run (er_request_id r) (er_external_req_id r) set_order s1 seen acc s →
  let id := er_request_id r in
  let got := mine (er_external_req_id r) acc.1 in
  match request_states s !! id with
  | Some _ => ∃ pieces x, decode_all prompt (sampled id seen) x0 = (Ret pieces, x) ∧
      texts got `prefix_of` concat pieces ∧ tokens_of got `prefix_of` sampled id seen ∧
      Forall (λ o, ro_finished o = false) got ∧ id ∉ acc.2
  | None => received prompt p x0 id (er_external_req_id r) seen acc s
  end.
Proof.
  intros H0 Hf Hr Hs Hadd Hrun id got. destruct (streams_start s0 r sp p prompt x0 shown s1 (reachable_ok _ set_order_elements n s0 H0) Hf Hr Hs Hadd) as (Hok1 & Hs1 & Hr1).
  destruct (run_sound prompt p x0 (sr_stop _ _ _ _ _ Hr) (sr_prompt_len _ _ _ _ _ Hr) _ _ set_order set_order_elements s1 seen acc s Hok1 Hs1 Hr1 Hrun) as (_ & _ & Hst).
  subst id got. destruct Hst as [[(rs & pieces & H1 & H2 & H3) H4 H5 H6]|H]; [|by rewrite (rd_gone _ _ _ _ _ _ _ _ H)]. rewrite H1.
  destruct H3 as [_ _ _ _ _ Htk (d & _ & Hst)]. destruct Hst as [Hrn _ _ Htx]. exists pieces, (decoder d).
  split_and!; [apply Hrn| | |done|done].
  - rewrite Htx, (rn_text _ _ _ _ _ _ Hrn). apply prefix_take.
  - unfold tokens_sent in Htk. destruct (_ <=? _); [by rewrite Htk|]. destruct Htk as [_ ->]. apply prefix_take.
Qed.

(** Only deltas are held back: a request that is sent its whole text so far stays at offset zero
    and is sent every token, whatever the interval. *)
Lemma cumulative_ignores_interval (rs : RequestState D) ps new finished : rs_output_kind rs ≠ DELTA → rs_sent_tokens_offset rs = 0 →
  is_Some (rs_detokenizer rs) → stream_tokens new finished (rs, ps) = (Ret (Some new), (rs, ps)).
Proof.
  intros Hk Ho [d Hd]. unfold stream_tokens, mbind, M_bind, gets, on_detokenizer. simpl. destruct (rs_stream_interval rs <=? 1); [done|]. simpl.
  rewrite Hd. simpl. rewrite Ho, orb_true_r. simpl. rewrite bool_decide_eq_false_2 by done. by destruct rs; simpl in *; subst.
Qed.
End exact.

#[local] Existing Instances byte_decoder byte_total byte_make.
#[local] Instance byte_laws : @DecoderLaws Slow byte_decoder := @slow_laws byte_tokenizer.

(** A request that stops at the text "BC", with a stream interval of two. *)
Definition stop_bc : StopParams := mkStopParams [[66; 67]] 0 false.
Definition asked : EngineRequest := mkEngineRequest "a" "e" (Some [104; 105]) None (inl (mkFront stop_bc true DELTA)) false.
Definition one_sample : ParallelParams := mkParallel 1 None DELTA.
Definition talk_0 : OutputProcessor Slow := processor_init 2.
Definition talk_1 : OutputProcessor Slow := (byte_add asked one_sample None None talk_0).2.
Definition heard_1 : list EngineOutput := [token_out "a" 65 None; token_out "a" 65 None].
Definition heard_2 : list EngineOutput := [token_out "a" 66 None; token_out "z" 65 None; token_out "a" 67 None; token_out "a" 68 None].
Definition talk_2 : OutputProcessor Slow := (byte_process heard_1 talk_1).2.

Definition talk_3 : OutputProcessor Slow := (byte_process heard_2 talk_2).2.
Definition heard (o : outcome (list Item * list string)) : list Item * list string := match o with Ret r => r | Raise _ => ([], []) end.
Definition told : list Item * list string :=
  let r1 := heard (byte_process heard_1 talk_1).1 in let r2 := heard (byte_process heard_2 talk_2).1 in (r1.1 ++ r2.1, r1.2 ++ r2.2).

Lemma client_stream_exact_witness : texts (mine "e" told.1) = [65; 65] ∧ tokens_of (mine "e" told.1) = [65; 65; 66; 67] ∧
  received [104; 105] stop_bc (@slow_init byte_tokenizer (inl [104; 105]) true true) "a" "e" (heard_1 ++ heard_2) told talk_3.
Proof.
  split; [vm_compute; reflexivity|]. split; [vm_compute; reflexivity|].
  refine (client_stream_exact elements (λ A, reflexivity _) 2 talk_0 asked one_sample
    stop_bc [104; 105] _ None talk_1 (heard_1 ++ heard_2) told talk_3 _ _ _ _ _ _).
  - constructor.
  - split; [split; [done|by eexists|done]|done|done|done|]. intros i Hi. reflexivity.
  - split; [done|done|reflexivity| |reflexivity]. split; [done|]. by intros y ->%list_elem_of_singleton.
  - intros id' rs' _ H. change ((∅ : gmap string (RequestState Slow)) !! id' = Some rs') in H. by rewrite lookup_empty in H.
  - vm_compute. reflexivity.
  - assert (Hpair : heard (byte_process heard_1 talk_1).1 = ([] ++ (heard (byte_process heard_1 talk_1).1).1, [] ++ (heard (byte_process heard_1 talk_1).1).2)) by (vm_compute; reflexivity).
    apply (run_batch _ _ elements talk_1 heard_1 (heard (byte_process heard_1 talk_1).1) talk_2 heard_2).
    + rewrite Hpair. apply (run_batch _ _ elements talk_1 [] ([], []) talk_1 heard_1); [constructor|apply fits_byte; reflexivity|vm_compute; reflexivity].
    + apply fits_byte. reflexivity.
    + vm_compute. reflexivity.
Defined.
