(* ===== verification/BlockTable.v ===== *)
(** The worker's block tables: worker/npu_block_table.py, with the part of numpy that it uses.
    One row per request of the batch and one table per KV cache group; the slots that the
    scheduled tokens are written to. *)
From S2P Require Import Prelude.
From Stdlib Require Import Lia.
Local Open Scope Z_scope.

(** ** numpy *)

(** Storing into an [int32] array. *)
Definition wrap_int32 (z : Z) : Z := (z + 2 ^ 31) mod 2 ^ 32 - 2 ^ 31.

(** [a[i]] and [a[i] = v] for [0 <= i]. *)
Definition np_get {A} (a : list A) (i : nat) : outcome A :=
  match a !! i with Some x => Ret x | None => Raise IndexError end.
Definition np_set {A} (a : list A) (i : nat) (x : A) : outcome (list A) :=
  if decide (i < length a)%nat then Ret (<[i := x]> a) else Raise IndexError.

(** [a[start:start+n] = xs] with [n = len(xs)]: the slice is cut at the end of the array; a list
    that does not fit it is an error, except that a single element fits an empty slice. *)
Definition np_write {A} (a : list A) (start : nat) (xs : list A) : outcome (list A) :=
  if decide (start + length xs ≤ length a)%nat then Ret (take start a ++ xs ++ drop (start + length xs) a)
  else if decide (length xs ≤ 1)%nat then Ret a else Raise ValueError.

(** [a[[i, j]] = a[[j, i]]]. *)
Definition np_swap {A} (a : list A) (i j : nat) : outcome (list A) :=
  x ← np_get a i; y ← np_get a j; Ret (<[j := x]> (<[i := y]> a)).

(** ** [BlockTable] *)

Record BlockTable := mkBlockTable {
  bt_block_size : Z;
  bt_blocks_per_phys_block : Z;
  bt_use_hybrid_blocks : bool;
  bt_kernel_sizes : option (list Z);
  bt_max_num_blocks_per_req : Z;
  bt_np : list (list Z);
  bt_gpu : list (list Z);
  bt_num_blocks_per_row : list Z;
  bt_slot_mapping : list Z;
  bt_dirty : bool;
  bt_dcp_world_size : Z;
  bt_dcp_rank : Z;
  bt_pcp_world_size : Z;
  bt_pcp_rank : Z;
  bt_interleave_size : Z;
}.

Definition bt_set_rows (rows : list (list Z)) (counts : list Z) (t : BlockTable) : BlockTable :=
  mkBlockTable (bt_block_size t) (bt_blocks_per_phys_block t) (bt_use_hybrid_blocks t) (bt_kernel_sizes t)
    (bt_max_num_blocks_per_req t) rows (bt_gpu t) counts (bt_slot_mapping t) true
    (bt_dcp_world_size t) (bt_dcp_rank t) (bt_pcp_world_size t) (bt_pcp_rank t) (bt_interleave_size t).
Definition bt_set_gpu (gpu : list (list Z)) (t : BlockTable) : BlockTable :=
  mkBlockTable (bt_block_size t) (bt_blocks_per_phys_block t) (bt_use_hybrid_blocks t) (bt_kernel_sizes t)
    (bt_max_num_blocks_per_req t) (bt_np t) gpu (bt_num_blocks_per_row t) (bt_slot_mapping t) false
    (bt_dcp_world_size t) (bt_dcp_rank t) (bt_pcp_world_size t) (bt_pcp_rank t) (bt_interleave_size t).
Definition bt_set_slots (slots : list Z) (t : BlockTable) : BlockTable :=
  mkBlockTable (bt_block_size t) (bt_blocks_per_phys_block t) (bt_use_hybrid_blocks t) (bt_kernel_sizes t)
    (bt_max_num_blocks_per_req t) (bt_np t) (bt_gpu t) (bt_num_blocks_per_row t) slots (bt_dirty t)
    (bt_dcp_world_size t) (bt_dcp_rank t) (bt_pcp_world_size t) (bt_pcp_rank t) (bt_interleave_size t).

(** The groups of ranks that a worker belongs to. *)
Record Ranks := mkRanks { dcp_size : Z; dcp_index : Z; pcp_size : Z; pcp_index : Z; interleave_size : Z }.

(** [__init__]: the kernel's block size is the first of the list that divides the block size. *)
Definition select_kernel_size (block_size : Z) (kernel_sizes : list Z) : option Z :=
  list_find (λ k, (0 <? k) && (block_size mod k =? 0) = true) kernel_sizes ≫= λ x, Some x.2.
Definition bt_init (ranks : Ranks) (block_size max_num_reqs max_num_blocks_per_req max_num_batched_tokens : Z)
    (kernel_sizes : option (list Z)) (num_speculative_tokens : Z) : outcome BlockTable :=
  kernel ← (match kernel_sizes with
    | None | Some [0] => Ret (block_size, 1)
    | Some ks =>
        match select_kernel_size block_size ks with
        | None => Raise ValueError
        | Some k => Ret (k, block_size / k)
        end
    end);
  let '(kernel_size, per_block) := kernel in
  let hybrid := 1 <? per_block in
  let logical_table_size := if hybrid then max_num_blocks_per_req * per_block else max_num_blocks_per_req in
  let duplicate_size := if 1 <? pcp_size ranks * dcp_size ranks then 1 + num_speculative_tokens else 1 in
  let table := replicate (Z.to_nat (max_num_reqs * duplicate_size)) (replicate (Z.to_nat logical_table_size) 0) in
  Ret (mkBlockTable kernel_size per_block hybrid kernel_sizes max_num_blocks_per_req table table
    (replicate (Z.to_nat max_num_reqs) 0)
    (replicate (Z.to_nat (max_num_batched_tokens + 2 * pcp_size ranks * max_num_reqs)) 0) true
    (dcp_size ranks) (dcp_index ranks) (pcp_size ranks) (pcp_index ranks) (interleave_size ranks)).

(** [_convert_physical_to_logical_blocks]. *)
Definition to_logical_blocks (t : BlockTable) (physical_blocks : list Z) : list Z :=
  if bt_use_hybrid_blocks t then
    concat ((λ p, let base := p * bt_blocks_per_phys_block t in py_range base (base + bt_blocks_per_phys_block t)) <$> physical_blocks)
  else physical_blocks.

(** Writing to a row: the ids behind the [start] first, and their count. *)
Definition append_row (block_ids : list Z) (row_idx : nat) (t : BlockTable) : outcome BlockTable :=
  match block_ids with
  | [] => Ret t
  | _ =>
      let ids := to_logical_blocks t block_ids in
      start ← np_get (bt_num_blocks_per_row t) row_idx;
      row ← np_get (bt_np t) row_idx;
      row' ← np_write row (Z.to_nat start) (wrap_int32 <$> ids);
      Ret (bt_set_rows (<[row_idx := row']> (bt_np t))
        (<[row_idx := wrap_int32 (start + Z.of_nat (length ids))]> (bt_num_blocks_per_row t)) t)
  end.
Definition add_row (block_ids : list Z) (row_idx : nat) (t : BlockTable) : outcome BlockTable :=
  counts ← np_set (bt_num_blocks_per_row t) row_idx 0;
  append_row block_ids row_idx (bt_set_rows (bt_np t) counts t).
Definition move_row (src tgt : nat) (t : BlockTable) : outcome BlockTable :=
  num_blocks ← np_get (bt_num_blocks_per_row t) src;
  from ← np_get (bt_np t) src;
  to ← np_get (bt_np t) tgt;
  let n := Z.to_nat num_blocks in
  counts ← np_set (bt_num_blocks_per_row t) tgt num_blocks;
  Ret (bt_set_rows (<[tgt := take n from ++ drop n to]> (bt_np t)) counts t).
Definition swap_row (src tgt : nat) (t : BlockTable) : outcome BlockTable :=
  counts ← np_swap (bt_num_blocks_per_row t) src tgt;
  rows ← np_swap (bt_np t) src tgt;
  Ret (bt_set_rows rows counts t).

(** [compute_slot_mapping]. With context parallelism a token is stored on one rank, where its
    virtual block is cut into pieces of the interleave size; other ranks get -1. *)
Definition block_number (t : BlockTable) (virtual_block_size : Z) (req_index position : Z) : outcome Z :=
  let idx := req_index * bt_max_num_blocks_per_req t * bt_blocks_per_phys_block t + position / virtual_block_size in
  np_get (concat (bt_np t)) (Z.to_nat idx).
Definition slot_of (t : BlockTable) (x : Z * Z) : outcome Z :=
  let '(req_index, position) := x in
  b ← block_number t (bt_block_size t) req_index position;
  Ret (wrap_int32 (wrap_int32 (b * bt_block_size t) + position mod bt_block_size t)).
Definition slot_of_cp (t : BlockTable) (x : Z * Z) : outcome Z :=
  let '(req_index, position) := x in
  let world := bt_dcp_world_size t * bt_pcp_world_size t in
  let virtual_block_size := bt_block_size t * bt_dcp_world_size t * bt_pcp_world_size t in
  b ← block_number t virtual_block_size req_index position;
  let offsets := position mod virtual_block_size in
  let current_rank := bt_dcp_world_size t * bt_pcp_rank t + bt_dcp_rank t in
  let mask := (offsets / bt_interleave_size t) mod world =? current_rank in
  let block_offsets := offsets / (bt_dcp_world_size t * bt_pcp_world_size t * bt_interleave_size t) * bt_interleave_size t
    + offsets mod bt_interleave_size t in
  Ret (if mask then wrap_int32 (wrap_int32 (b * bt_block_size t) + block_offsets) else -1).
Definition compute_slot_mapping (req_indices positions : list Z) (t : BlockTable) : outcome BlockTable :=
  let tokens := zip req_indices positions in
  if 1 <? bt_dcp_world_size t * bt_pcp_world_size t then
    slots ← mapM (slot_of_cp t) tokens;
    out ← np_write (bt_slot_mapping t) 0 slots;
    Ret (bt_set_slots out t)
  else
    match bt_kernel_sizes t with
    | None => Raise AssertionError
    | Some ks =>
        first ← np_get ks 0;
        if bt_block_size t =? first then
          slots ← mapM (slot_of t) tokens;
          out ← np_write (bt_slot_mapping t) 0 slots;
          Ret (bt_set_slots out t)
        else Ret t
    end.

(** [commit_block_table]: the device copy is brought up to date when something changed. *)
Definition commit_block_table (num_reqs : nat) (force : bool) (t : BlockTable) : BlockTable :=
  if force || bt_dirty t then bt_set_gpu (take num_reqs (bt_np t) ++ drop num_reqs (bt_gpu t)) t else t.

(** [clear]: [CpuGpuBuffer] has no [fill_]. *)
Definition bt_clear (t : BlockTable) : outcome BlockTable := Raise AttributeError.

(** ** [MultiGroupBlockTable] *)

Definition MultiGroupBlockTable := list BlockTable.

Definition mg_init (ranks : Ranks) (max_num_reqs max_model_len max_num_batched_tokens : Z) (block_sizes : list Z)
    (num_speculative_tokens : Z) (max_num_blocks : option (list Z)) (kernel_sizes : option (list (list Z))) :
    outcome MultiGroupBlockTable :=
  let groups := length block_sizes in
  ks ← (match kernel_sizes with
        | None => Ret (replicate groups [0])
        | Some [k] => if decide (1 < groups)%nat then Ret (replicate groups k) else if decide (groups = 1)%nat then Ret [k] else Raise ValueError
        | Some ks => if decide (length ks = groups) then Ret ks else Raise ValueError
        end);
  max_blocks ← (match max_num_blocks with
        | Some ns => Ret ns
        | None => mapM (λ b, let d := b * (dcp_size ranks * pcp_size ranks) in
                             if d =? 0 then Raise ZeroDivisionError else Ret (cdiv max_model_len d)) block_sizes
        end);
  if decide (length max_blocks = groups) then
    mapM (λ x, let '(b, k, n) := x in
      bt_init ranks b max_num_reqs n max_num_batched_tokens (Some k) num_speculative_tokens) (zip (zip block_sizes ks) max_blocks)
  else Raise ValueError.

(** One operation on every table; [block_ids[i]] of a list that is too short is an error. *)
Fixpoint each_group (f : list Z → BlockTable → outcome BlockTable) (block_ids : list (list Z)) (ts : MultiGroupBlockTable)
    {struct ts} : outcome MultiGroupBlockTable :=
  match ts with
  | [] => Ret []
  | t :: ts' =>
      match block_ids with
      | [] => Raise IndexError
      | ids :: rest => t' ← f ids t; ts'' ← each_group f rest ts'; Ret (t' :: ts'')
      end
  end.
Definition mg_append_row (block_ids : list (list Z)) (row_idx : nat) : MultiGroupBlockTable → outcome MultiGroupBlockTable :=
  each_group (λ ids, append_row ids row_idx) block_ids.
Definition mg_add_row (block_ids : list (list Z)) (row_idx : nat) : MultiGroupBlockTable → outcome MultiGroupBlockTable :=
  each_group (λ ids, add_row ids row_idx) block_ids.
Definition mg_move_row (src tgt : nat) (ts : MultiGroupBlockTable) : outcome MultiGroupBlockTable := mapM (move_row src tgt) ts.
Definition mg_swap_row (src tgt : nat) (ts : MultiGroupBlockTable) : outcome MultiGroupBlockTable := mapM (swap_row src tgt) ts.
Definition mg_compute_slot_mapping (req_indices positions : list Z) (ts : MultiGroupBlockTable) : outcome MultiGroupBlockTable :=
  mapM (compute_slot_mapping req_indices positions) ts.
Definition mg_commit_block_table (num_reqs : nat) (force : bool) (ts : MultiGroupBlockTable) : MultiGroupBlockTable :=
  commit_block_table num_reqs force <$> ts.
