(* ===== verification/SlotMapping.v ===== *)
(** The block tables of the worker: what a row holds after every operation, and the slots of the
    tokens, with and without context parallelism. *)
From S2P Require Import Prelude BlockTable.
Local Open Scope Z_scope.

(** ** Integers of 32 bits *)

Lemma wrap32_id z : - 2 ^ 31 ≤ z < 2 ^ 31 → wrap_int32 z = z.
Proof. intros. unfold wrap_int32. rewrite Z.mod_small; lia. Qed.

Lemma wrap32_list zs : Forall (λ z, 0 ≤ z < 2 ^ 31) zs → wrap_int32 <$> zs = zs.
Proof. induction 1 as [|z zs Hz _ IH]; [done|]. rewrite fmap_cons, IH, wrap32_id by lia. done. Qed.

(** ** numpy *)

Lemma np_get_Some {A} (a : list A) i x : a !! i = Some x → np_get a i = Ret x.
Proof. unfold np_get. by intros ->. Qed.
Lemma np_set_lt {A} (a : list A) i x : (i < length a)%nat → np_set a i x = Ret (<[i := x]> a).
Proof. intros. unfold np_set. by rewrite decide_True. Qed.
Lemma np_write_fits {A} (a : list A) start xs : (start + length xs ≤ length a)%nat →
  np_write a start xs = Ret (take start a ++ xs ++ drop (start + length xs) a).
Proof. intros. unfold np_write. by rewrite decide_True. Qed.
Lemma np_swap_ok {A} (a : list A) i j x y : a !! i = Some x → a !! j = Some y → np_swap a i j = Ret (<[j := x]> (<[i := y]> a)).
Proof. intros Hi Hj. unfold np_swap. by rewrite (np_get_Some _ _ _ Hi), (np_get_Some _ _ _ Hj). Qed.

Lemma length_write {A} (a : list A) start xs : (start + length xs ≤ length a)%nat →
  length (take start a ++ xs ++ drop (start + length xs) a) = length a.
Proof. intros. rewrite !length_app, length_take, length_drop. lia. Qed.

(** ** Tables *)

(** [rows] rows of [width] entries, of which a count is in use. *)
Record table_ok (rows width : nat) (t : BlockTable) : Prop := {
  to_block : 0 < bt_block_size t;
  to_split : 0 < bt_blocks_per_phys_block t ∧ bt_use_hybrid_blocks t = (1 <? bt_blocks_per_phys_block t);
  to_width : Z.of_nat width = bt_max_num_blocks_per_req t * bt_blocks_per_phys_block t ∧ Z.of_nat width < 2 ^ 31;
  to_counts : length (bt_num_blocks_per_row t) = rows;
  to_rows : (rows ≤ length (bt_np t))%nat ∧ Forall (λ r, length r = width) (bt_np t);
  to_used : Forall (λ n, 0 ≤ n ≤ Z.of_nat width) (bt_num_blocks_per_row t);
}.

(** The blocks of a row. *)
Definition bt_row (t : BlockTable) (i : nat) : list Z :=
  take (Z.to_nat (default 0 (bt_num_blocks_per_row t !! i))) (default [] (bt_np t !! i)).

(** What the operations leave alone. *)
Record same_format (t t' : BlockTable) : Prop := {
  sf_block : bt_block_size t' = bt_block_size t;
  sf_split : bt_blocks_per_phys_block t' = bt_blocks_per_phys_block t;
  sf_hybrid : bt_use_hybrid_blocks t' = bt_use_hybrid_blocks t;
  sf_kernel : bt_kernel_sizes t' = bt_kernel_sizes t;
  sf_ranks : bt_dcp_world_size t' = bt_dcp_world_size t ∧ bt_dcp_rank t' = bt_dcp_rank t ∧
    bt_pcp_world_size t' = bt_pcp_world_size t ∧ bt_pcp_rank t' = bt_pcp_rank t ∧ bt_interleave_size t' = bt_interleave_size t;
  sf_max : bt_max_num_blocks_per_req t' = bt_max_num_blocks_per_req t;
  sf_rows : length (bt_np t') = length (bt_np t);
  sf_slots : length (bt_slot_mapping t') = length (bt_slot_mapping t);
}.
#[global] Instance same_format_preorder : PreOrder same_format.
Proof.
  split; [intros t; split; naive_solver|]. intros t t' t'' [] []. split; intuition congruence.
Qed.

Lemma set_rows_format rows counts t : length rows = length (bt_np t) → same_format t (bt_set_rows rows counts t).
Proof. intros H. split; naive_solver. Qed.

Section table.
Context {rows width : nat}.
Implicit Types t : BlockTable.

Lemma table_lookup t i : table_ok rows width t → (i < rows)%nat →
  ∃ n r, bt_num_blocks_per_row t !! i = Some n ∧ bt_np t !! i = Some r ∧ 0 ≤ n ≤ Z.of_nat width ∧ length r = width ∧
    bt_row t i = take (Z.to_nat n) r.
Proof.
  intros Ht Hi. destruct (lookup_lt_is_Some_2 (bt_num_blocks_per_row t) i) as [n Hn]; [rewrite (to_counts _ _ _ Ht); lia|].
  destruct (lookup_lt_is_Some_2 (bt_np t) i) as [r Hr]; [pose proof (to_rows _ _ _ Ht); lia|]. exists n, r. split_and!; try done.
  - by apply (Forall_lookup_1 _ _ _ _ (to_used _ _ _ Ht) Hn).
  - by apply (Forall_lookup_1 _ _ _ _ (to_used _ _ _ Ht) Hn).
  - by apply (Forall_lookup_1 _ _ _ _ (proj2 (to_rows _ _ _ Ht)) Hr).
  - unfold bt_row. by rewrite Hn, Hr.
Qed.

(** The state after a row was written. *)
Lemma set_row_ok t i n r : table_ok rows width t → (i < rows)%nat → 0 ≤ n ≤ Z.of_nat width → length r = width →
  let t' := bt_set_rows (<[i := r]> (bt_np t)) (<[i := n]> (bt_num_blocks_per_row t)) t in
  table_ok rows width t' ∧ same_format t t' ∧ bt_row t' i = take (Z.to_nat n) r ∧ ∀ j, j ≠ i → bt_row t' j = bt_row t j.
Proof.
  intros Ht Hi Hn Hr t'. pose proof Ht as [T1 T2 T3 T4 [T5 T6] T7]. split_and!.
  - split; try done; simpl; [by rewrite length_insert| |by apply Forall_insert].
    split; [by rewrite length_insert|by apply Forall_insert].
  - apply set_rows_format. by rewrite length_insert.
  - unfold bt_row, t'. simpl. rewrite !list_lookup_insert_eq by lia. done.
  - intros j Hj. unfold bt_row, t'. simpl. by rewrite !list_lookup_insert_ne.
Qed.

Definition logical_fits t (ids : list Z) : Prop := Forall (λ z, 0 ≤ z < 2 ^ 31) (to_logical_blocks t ids).

Lemma append_row_ok t i ids : table_ok rows width t → (i < rows)%nat → logical_fits t ids →
  (length (bt_row t i) + length (to_logical_blocks t ids) ≤ width)%nat →
  ∃ t', append_row ids i t = Ret t' ∧ table_ok rows width t' ∧ same_format t t' ∧
    bt_row t' i = bt_row t i ++ to_logical_blocks t ids ∧ ∀ j, j ≠ i → bt_row t' j = bt_row t j.
Proof.
  intros Ht Hi Hids Hlen. destruct (table_lookup t i Ht Hi) as (n & r & Hn & Hr & Hnb & Hrw & Hrow).
  rewrite Hrow, length_take in Hlen. unfold append_row.
  destruct ids as [|b ids].
  { exists t. split_and!; try done. unfold to_logical_blocks. destruct (bt_use_hybrid_blocks t); simpl; by rewrite app_nil_r. }
  set (xs := to_logical_blocks t (b :: ids)) in *. rewrite (np_get_Some _ _ _ Hn). cbn [mbind outcome_bind].
  rewrite (np_get_Some _ _ _ Hr). cbn [mbind outcome_bind]. rewrite wrap32_list by done.
  rewrite np_write_fits by lia. cbn [mbind outcome_bind]. eexists. split; [done|]. pose proof (to_width _ _ _ Ht) as [_ Hw32].
  rewrite wrap32_id by lia.
  destruct (set_row_ok t i (n + Z.of_nat (length xs)) (take (Z.to_nat n) r ++ xs ++ drop (Z.to_nat n + length xs) r) Ht Hi) as (H1 & H2 & H3 & H4);
    [lia|rewrite length_write; lia|]. split_and!; try done.
  rewrite H3, Hrow. rewrite app_assoc. rewrite take_app_length'; [done|]. rewrite length_app, length_take. lia.
Qed.

Lemma add_row_ok t i ids : table_ok rows width t → (i < rows)%nat → logical_fits t ids → (length (to_logical_blocks t ids) ≤ width)%nat →
  ∃ t', add_row ids i t = Ret t' ∧ table_ok rows width t' ∧ same_format t t' ∧ bt_row t' i = to_logical_blocks t ids ∧
    ∀ j, j ≠ i → bt_row t' j = bt_row t j.
Proof.
  intros Ht Hi Hids Hlen. destruct (table_lookup t i Ht Hi) as (n & r & Hn & Hr & Hnb & Hrw & Hrow).
  unfold add_row. rewrite np_set_lt by (rewrite (to_counts _ _ _ Ht); lia). cbn [mbind outcome_bind].
  destruct (set_row_ok t i 0 r Ht Hi) as (H1 & H2 & H3 & H4); [lia|done|]. rewrite (list_insert_id _ _ _ Hr) in *.
  set (t1 := bt_set_rows _ _ _) in *. destruct (append_row_ok t1 i ids H1 Hi) as (t' & -> & H5 & H6 & H7 & H8); [done|by rewrite H3|].
  exists t'. split_and!; [done|done|by etrans|by rewrite H7, H3|]. intros j Hj. by rewrite H8, H4.
Qed.

Lemma move_row_ok t src tgt : table_ok rows width t → (src < rows)%nat → (tgt < rows)%nat →
  ∃ t', move_row src tgt t = Ret t' ∧ table_ok rows width t' ∧ same_format t t' ∧ bt_row t' tgt = bt_row t src ∧
    ∀ j, j ≠ tgt → bt_row t' j = bt_row t j.
Proof.
  intros Ht Hs Hg. destruct (table_lookup t src Ht Hs) as (n & r & Hn & Hr & Hnb & Hrw & Hrow).
  destruct (table_lookup t tgt Ht Hg) as (n' & r' & Hn' & Hr' & Hnb' & Hrw' & Hrow'). unfold move_row.
  rewrite (np_get_Some _ _ _ Hn). cbn [mbind outcome_bind]. rewrite (np_get_Some _ _ _ Hr). cbn [mbind outcome_bind].
  rewrite (np_get_Some _ _ _ Hr'). cbn [mbind outcome_bind]. rewrite np_set_lt by (rewrite (to_counts _ _ _ Ht); lia). cbn [mbind outcome_bind].
  eexists. split; [done|]. destruct (set_row_ok t tgt n (take (Z.to_nat n) r ++ drop (Z.to_nat n) r') Ht Hg) as (H1 & H2 & H3 & H4);
    [lia|rewrite length_app, length_take, length_drop; lia|]. split_and!; try done.
  rewrite H3, Hrow. apply take_app_length'. rewrite length_take. lia.
Qed.

Lemma swap_row_ok t i j : table_ok rows width t → (i < rows)%nat → (j < rows)%nat →
  ∃ t', swap_row i j t = Ret t' ∧ table_ok rows width t' ∧ same_format t t' ∧ bt_row t' i = bt_row t j ∧ bt_row t' j = bt_row t i ∧
    ∀ k, k ≠ i → k ≠ j → bt_row t' k = bt_row t k.
Proof.
  intros Ht Hi Hj. destruct (table_lookup t i Ht Hi) as (n & r & Hn & Hr & Hnb & Hrw & Hrow).
  destruct (table_lookup t j Ht Hj) as (n' & r' & Hn' & Hr' & Hnb' & Hrw' & Hrow'). unfold swap_row.
  rewrite (np_swap_ok _ _ _ _ _ Hn Hn'). cbn [mbind outcome_bind]. rewrite (np_swap_ok _ _ _ _ _ Hr Hr'). cbn [mbind outcome_bind].
  eexists. split; [done|]. destruct (set_row_ok t i n' r' Ht Hi) as (H1 & H2 & H3 & H4); [lia|done|].
  set (t1 := bt_set_rows _ _ _) in *. destruct (set_row_ok t1 j n r H1 Hj) as (H5 & H6 & H7 & H8); [lia|done|].
  unfold t1 in *. simpl in *. split_and!; try done.
  - by etrans.
  - destruct (decide (i = j)) as [->|Hij]; [|by etrans; [apply H8; auto|rewrite H3, Hrow']]. simplify_eq. etrans; [apply H7|done].
  - etrans; [apply H7|done].
  - intros k Hk1 Hk2. etrans; [by apply H8|by apply H4].
Qed.
End table.

(** ** Slots *)

Lemma concat_lookup_uniform {A} (l : list (list A)) w i k r : Forall (λ r, length r = w) l → l !! i = Some r → (k < w)%nat →
  concat l !! (i * w + k)%nat = r !! k.
Proof.
  intros Hl. revert i. induction Hl as [|r' l Hr Hl IH]; intros [|i] Hi Hk; simplify_eq/=.
  - apply lookup_app_l. lia.
  - rewrite lookup_app_r by lia. replace (length r' + i * length r' + k - length r')%nat with (i * length r' + k)%nat by lia. by apply IH.
Qed.

Section slots.
Context {rows width : nat}.
Implicit Types t : BlockTable.

Lemma block_number_ok t vbs i pos b : table_ok rows width t → (i < rows)%nat → 0 < vbs → 0 ≤ pos →
  bt_row t i !! Z.to_nat (pos / vbs) = Some b → block_number t vbs (Z.of_nat i) pos = Ret b.
Proof.
  intros Ht Hi Hv Hp Hb. destruct (table_lookup t i Ht Hi) as (n & r & Hn & Hr & Hnb & Hrw & Hrow). rewrite Hrow in Hb.
  apply lookup_take_Some in Hb as [Hb Hlt]. pose proof (lookup_lt_Some _ _ _ Hb). pose proof (to_width _ _ _ Ht) as [Hw _].
  pose proof (Z.div_pos pos vbs Hp Hv). unfold block_number. rewrite <-Z.mul_assoc, <-Hw.
  replace (Z.to_nat _) with (i * width + Z.to_nat (pos / vbs))%nat by lia. apply np_get_Some.
  rewrite (concat_lookup_uniform _ width _ _ r); [done|apply (to_rows _ _ _ Ht)|done|lia].
Qed.

(** The slots of block [b] are 32-bit numbers. *)
Definition slots_fit (size b : Z) : Prop := 0 ≤ b ∧ b * size + size ≤ 2 ^ 31.

Lemma slot_of_ok t i pos b : table_ok rows width t → (i < rows)%nat → 0 ≤ pos →
  bt_row t i !! Z.to_nat (pos / bt_block_size t) = Some b → slots_fit (bt_block_size t) b →
  slot_of t (Z.of_nat i, pos) = Ret (b * bt_block_size t + pos mod bt_block_size t).
Proof.
  intros Ht Hi Hp Hb [Hb0 Hfit]. pose proof (to_block _ _ _ Ht). unfold slot_of. rewrite (block_number_ok t _ i pos b Ht Hi) by done.
  cbn [mbind outcome_bind]. pose proof (Z.mod_pos_bound pos (bt_block_size t)). rewrite (wrap32_id (b * _)) by lia. by rewrite wrap32_id by lia.
Qed.

(** Splitting blocks for the kernel does not move tokens. *)
Lemma to_logical_lookup t ids k j p : 0 < bt_blocks_per_phys_block t → bt_use_hybrid_blocks t = (1 <? bt_blocks_per_phys_block t) →
  ids !! k = Some p → 0 ≤ j < bt_blocks_per_phys_block t →
  to_logical_blocks t ids !! Z.to_nat (Z.of_nat k * bt_blocks_per_phys_block t + j) = Some (p * bt_blocks_per_phys_block t + j).
Proof.
  intros Hr Hh Hk Hj. unfold to_logical_blocks. rewrite Hh. set (r := bt_blocks_per_phys_block t) in *.
  destruct (Z.ltb_spec 1 r).
  - replace (Z.to_nat _) with (k * Z.to_nat r + Z.to_nat j)%nat by nia. set (f := λ p, py_range (p * r) (p * r + r)).
    rewrite (concat_lookup_uniform (f <$> ids) (Z.to_nat r) k (Z.to_nat j) (f p)).
    + unfold f, py_range. rewrite list_lookup_fmap, lookup_seq_lt by lia. simpl. f_equal. lia.
    + apply Forall_fmap, Forall_true. intros q. simpl. unfold f. rewrite length_py_range. lia.
    + by rewrite list_lookup_fmap, Hk.
    + lia.
  - assert (r = 1) by lia. replace (Z.to_nat _) with k by lia. rewrite Hk. f_equal. lia.
Qed.

Lemma length_to_logical t ids : 0 < bt_blocks_per_phys_block t → bt_use_hybrid_blocks t = (1 <? bt_blocks_per_phys_block t) →
  length (to_logical_blocks t ids) = (length ids * Z.to_nat (bt_blocks_per_phys_block t))%nat.
Proof.
  intros Hr Hh. unfold to_logical_blocks. rewrite Hh. destruct (Z.ltb_spec 1 (bt_blocks_per_phys_block t)).
  - induction ids as [|p ids IH]; [done|]. rewrite fmap_cons. cbn [concat length]. rewrite length_app, IH, length_py_range. lia.
  - assert (bt_blocks_per_phys_block t = 1) as -> by lia. lia.
Qed.

(** The size of a block of the KV cache manager. *)
Definition bt_phys_size t : Z := bt_block_size t * bt_blocks_per_phys_block t.

Lemma slot_of_physical t i pos ids p : table_ok rows width t → (i < rows)%nat → 0 ≤ pos → bt_row t i = to_logical_blocks t ids →
  ids !! Z.to_nat (pos / bt_phys_size t) = Some p → slots_fit (bt_phys_size t) p →
  slot_of t (Z.of_nat i, pos) = Ret (p * bt_phys_size t + pos mod bt_phys_size t).
Proof.
  intros Ht Hi Hp Hrow Hlk [Hp0 Hfit]. unfold bt_phys_size in *. pose proof (to_block _ _ _ Ht). pose proof (to_split _ _ _ Ht) as [Hr Hh].
  set (k := bt_block_size t) in *. set (r := bt_blocks_per_phys_block t) in *.
  pose proof (Z.mod_pos_bound (pos / k) r Hr) as Hj. pose proof (Z.div_pos pos k Hp ltac:(lia)).
  rewrite (slot_of_ok t i pos (p * r + (pos / k) mod r) Ht Hi Hp).
  - fold k. f_equal. rewrite Z.rem_mul_r by lia. nia.
  - rewrite Hrow. fold k. etrans; [|exact (to_logical_lookup t ids _ ((pos / k) mod r) p Hr Hh Hlk Hj)]. f_equal. fold r.
    rewrite Z2Nat.id by (apply Z.div_pos; nia). rewrite <-Z.div_div by lia. pose proof (Z.div_mod (pos / k) r). lia.
  - fold k. split; nia.
Qed.
End slots.

(** *** Context parallelism *)

(** The rank that stores the token at an offset of a virtual block, and where. *)
Definition cp_owner (world interleave offset : Z) : Z := (offset / interleave) mod world.
Definition cp_local (world interleave offset : Z) : Z := offset / (world * interleave) * interleave + offset mod interleave.

Section cp.
Context (world interleave : Z) (Hw : 0 < world) (Hi : 0 < interleave).

Lemma cp_owner_range offset : 0 ≤ cp_owner world interleave offset < world.
Proof. unfold cp_owner. by apply Z.mod_pos_bound. Qed.

(** An offset is its piece of all ranks, the rank, and the place in the piece. *)
Lemma cp_offset_split offset : offset = offset / (world * interleave) * (world * interleave)
  + cp_owner world interleave offset * interleave + offset mod interleave.
Proof.
  unfold cp_owner. pose proof (Z.div_mod offset interleave ltac:(lia)). pose proof (Z.div_mod (offset / interleave) world ltac:(lia)).
  rewrite Z.div_div in H0 by lia. rewrite (Z.mul_comm world interleave). nia.
Qed.

Lemma cp_local_parts offset : cp_local world interleave offset / interleave = offset / (world * interleave) ∧
  cp_local world interleave offset mod interleave = offset mod interleave.
Proof.
  unfold cp_local. pose proof (Z.mod_pos_bound offset interleave Hi). split.
  - rewrite Z.add_comm, Z.div_add by lia. rewrite Z.div_small; lia.
  - rewrite Z.add_comm, Z.mod_add by lia. by rewrite Z.mod_small.
Qed.

Lemma cp_offset_unique o o' : cp_owner world interleave o = cp_owner world interleave o' →
  cp_local world interleave o = cp_local world interleave o' → o = o'.
Proof.
  intros Ho Hl. rewrite (cp_offset_split o), (cp_offset_split o'), Ho. destruct (cp_local_parts o) as [<- <-]. destruct (cp_local_parts o') as [<- <-]. by rewrite Hl.
Qed.

Lemma cp_local_range block offset : (interleave | block) → 0 ≤ offset < block * world → 0 ≤ cp_local world interleave offset < block.
Proof.
  intros [q ->] Hr. unfold cp_local. pose proof (Z.mod_pos_bound offset interleave Hi).
  assert (0 ≤ offset / (world * interleave)) by (apply Z.div_pos; nia).
  assert (offset / (world * interleave) < q) by (apply Z.div_lt_upper_bound; nia). nia.
Qed.

(** Every place of every rank is used. *)
Lemma cp_surjective block rank place : (interleave | block) → 0 ≤ rank < world → 0 ≤ place < block →
  ∃ offset, 0 ≤ offset < block * world ∧ cp_owner world interleave offset = rank ∧ cp_local world interleave offset = place.
Proof.
  intros [q ->] Hr Hp. set (piece := place / interleave). set (x := place mod interleave).
  assert (0 ≤ x < interleave) by by apply Z.mod_pos_bound. assert (0 ≤ piece) by (apply Z.div_pos; lia).
  assert (piece < q) by (apply Z.div_lt_upper_bound; lia). pose proof (Z.div_mod place interleave ltac:(lia)).
  set (o := (piece * world + rank) * interleave + x). exists o.
  assert (o / interleave = piece * world + rank) as Hd by (unfold o; rewrite Z.div_add_l by lia; rewrite Z.div_small; lia).
  split; [unfold o; nia|]. split.
  - unfold cp_owner. rewrite Hd, Z.add_comm, Z.mod_add by lia. by apply Z.mod_small.
  - unfold cp_local. rewrite (Z.mul_comm world), <-Z.div_div, Hd by lia. rewrite Z.div_add_l by lia. rewrite (Z.div_small rank) by lia.
    assert (o mod interleave = x) as -> by (unfold o; rewrite Z.add_comm, Z.mod_add by lia; by apply Z.mod_small). unfold piece, x. lia.
Qed.
End cp.

Section cp_slots.
Context {rows width : nat}.
Implicit Types t : BlockTable.

Definition cp_world t : Z := bt_dcp_world_size t * bt_pcp_world_size t.
Definition cp_rank t : Z := bt_dcp_world_size t * bt_pcp_rank t + bt_dcp_rank t.

Lemma slot_of_cp_ok t i pos b : table_ok rows width t → (i < rows)%nat → 0 ≤ pos → 0 < cp_world t → 0 < bt_interleave_size t →
  (bt_interleave_size t | bt_block_size t) → bt_row t i !! Z.to_nat (pos / (bt_block_size t * cp_world t)) = Some b →
  slots_fit (bt_block_size t) b →
  let offset := pos mod (bt_block_size t * cp_world t) in
  slot_of_cp t (Z.of_nat i, pos) = Ret (if cp_owner (cp_world t) (bt_interleave_size t) offset =? cp_rank t
    then b * bt_block_size t + cp_local (cp_world t) (bt_interleave_size t) offset else -1).
Proof.
  intros Ht Hi Hp Hw Hil Hdiv Hb [Hb0 Hfit] offset. pose proof (to_block _ _ _ Ht). assert (Hv : 0 < bt_block_size t * cp_world t) by by apply Z.mul_pos_pos.
  unfold slot_of_cp. rewrite <-!(Z.mul_assoc (bt_block_size t)).
  fold (cp_world t). fold offset. rewrite (block_number_ok t _ i pos b Ht Hi) by done. cbn [mbind outcome_bind]. fold (cp_rank t).
  fold (cp_owner (cp_world t) (bt_interleave_size t) offset). fold (cp_local (cp_world t) (bt_interleave_size t) offset).
  pose proof (cp_local_range (cp_world t) (bt_interleave_size t) Hw Hil (bt_block_size t) offset Hdiv (Z.mod_pos_bound _ _ Hv)).
  rewrite (wrap32_id (b * _)) by lia. by rewrite wrap32_id by lia.
Qed.
End cp_slots.

(** The slot that the KV cache manager's block tables give a token. *)
Definition phys_slot (size : Z) (tables : list (list Z)) (x : nat * Z) : Z :=
  default 0 (tables !! x.1 ≫= λ ids, ids !! Z.to_nat (x.2 / size)) * size + x.2 mod size.
Definition has_slot (size : Z) (tables : list (list Z)) (x : nat * Z) : Prop :=
  0 ≤ x.2 ∧ ∃ ids p, tables !! x.1 = Some ids ∧ ids !! Z.to_nat (x.2 / size) = Some p ∧ slots_fit size p.

(** The rows of the batch are those tables. *)
Definition rows_hold (rows : nat) (t : BlockTable) (tables : list (list Z)) : Prop :=
  ∀ i ids, tables !! i = Some ids → (i < rows)%nat ∧ bt_row t i = to_logical_blocks t ids.

(** Slots are computed: one rank, and the kernel uses the first of its block sizes. *)
Definition maps_slots (t : BlockTable) : Prop :=
  cp_world t = 1 ∧ ∃ ks, bt_kernel_sizes t = Some (bt_block_size t :: ks).

(** The table of another rank. *)
Definition at_rank (r : Z) (t : BlockTable) : BlockTable :=
  mkBlockTable (bt_block_size t) (bt_blocks_per_phys_block t) (bt_use_hybrid_blocks t) (bt_kernel_sizes t)
    (bt_max_num_blocks_per_req t) (bt_np t) (bt_gpu t) (bt_num_blocks_per_row t) (bt_slot_mapping t) (bt_dirty t)
    (bt_dcp_world_size t) (r mod bt_dcp_world_size t) (bt_pcp_world_size t) (r / bt_dcp_world_size t) (bt_interleave_size t).

Lemma at_rank_rank r t : 0 < bt_dcp_world_size t → cp_rank (at_rank r t) = r.
Proof. intros H. unfold cp_rank, at_rank. simpl. pose proof (Z.div_mod r (bt_dcp_world_size t)). lia. Qed.

(** A token that context parallelism stores: its row, its position and its virtual block. *)
Record stored rows width t (i : nat) (pos b : Z) : Prop := {
  st_row : (i < rows)%nat;
  st_pos : 0 ≤ pos;
  st_block : bt_row t i !! Z.to_nat (pos / (bt_block_size t * cp_world t)) = Some b;
  st_fits : slots_fit (bt_block_size t) b;
  st_table : table_ok rows width t;
}.

Lemma slot_at_rank rows width t r i pos b : 0 < bt_dcp_world_size t → 0 < bt_pcp_world_size t → 0 < bt_interleave_size t →
  (bt_interleave_size t | bt_block_size t) → stored rows width t i pos b →
  let offset := pos mod (bt_block_size t * cp_world t) in
  slot_of_cp (at_rank r t) (Z.of_nat i, pos) = Ret (if cp_owner (cp_world t) (bt_interleave_size t) offset =? r
    then b * bt_block_size t + cp_local (cp_world t) (bt_interleave_size t) offset else -1).
Proof.
  intros Hd Hp Hi Hdiv [S1 S2 S3 S4 [T1 T2 T3 T4 T5 T6]] offset.
  rewrite (slot_of_cp_ok (rows := rows) (width := width) (at_rank r t) i pos b);
    [by rewrite at_rank_rank|by split|done|done|unfold cp_world; simpl; nia|done|done|done|done].
Qed.

(** The slots of a step's tokens. *)
Lemma slots_of_tokens rows width t tables tokens : table_ok rows width t → maps_slots t → rows_hold rows t tables →
  Forall (has_slot (bt_phys_size t) tables) tokens → (length tokens ≤ length (bt_slot_mapping t))%nat →
  compute_slot_mapping (Z.of_nat <$> tokens.*1) (tokens.*2) t =
    Ret (bt_set_slots ((phys_slot (bt_phys_size t) tables <$> tokens) ++ drop (length tokens) (bt_slot_mapping t)) t).
Proof.
  intros Ht [Hw [ks Hks]] Hrows Htok Hlen. unfold compute_slot_mapping. fold (cp_world t). rewrite Hw, Hks. simpl Z.ltb. cbn iota.
  unfold np_get. cbn [lookup list_lookup]. cbn [mbind outcome_bind]. rewrite Z.eqb_refl.
  assert (zip (Z.of_nat <$> tokens.*1) (tokens.*2) = (λ x, (Z.of_nat x.1, x.2)) <$> tokens) as Hzip.
  { clear. induction tokens as [|[i p] l IH]; [done|]. csimpl. by rewrite IH. }
  rewrite Hzip. assert (mapM (slot_of t) ((λ x : nat * Z, (Z.of_nat x.1, x.2)) <$> tokens) = Ret (phys_slot (bt_phys_size t) tables <$> tokens)) as Hm.
  { apply mapM_Ret, Forall2_fmap_l, Forall2_fmap_r, Forall_Forall2_diag. eapply Forall_impl; [exact Htok|].
    intros [i pos] (Hpos & ids & p & Hi & Hlk & Hfit). simpl in *. destruct (Hrows i ids Hi) as [Hlt Hrow].
    etrans; [by apply (slot_of_physical t i pos ids p Ht Hlt)|]. unfold phys_slot. simpl. rewrite Hi. simpl. by rewrite Hlk. }
  rewrite Hm. cbn [mbind outcome_bind]. rewrite np_write_fits by (rewrite length_fmap; lia). cbn [mbind outcome_bind].
  simpl. by rewrite length_fmap.
Qed.

(** ** Properties *)

(** C16: on one rank, tokens go to the slots that were allocated for them. For a batch whose rows
    hold the block tables of its requests, and tokens whose blocks have slot numbers of 32 bits:
    when the kernel's block size is the first of its list, the slot of every token is that of its
    position in the block the KV cache manager gave the request, whether the kernel splits blocks
    or not, and nothing else of the mapping changes; when it is another of the list, the code
    computes no slots and the mapping of the last step stays. *)
Theorem slots_exact rows width t tables tokens k ks : table_ok rows width t → cp_world t = 1 → bt_kernel_sizes t = Some (k :: ks) →
  rows_hold rows t tables → Forall (has_slot (bt_phys_size t) tables) tokens → (length tokens ≤ length (bt_slot_mapping t))%nat →
  ∃ t', compute_slot_mapping (Z.of_nat <$> tokens.*1) (tokens.*2) t = Ret t' ∧
    bt_slot_mapping t' = (if decide (bt_block_size t = k)
      then (phys_slot (bt_phys_size t) tables <$> tokens) ++ drop (length tokens) (bt_slot_mapping t) else bt_slot_mapping t) ∧
    bt_np t' = bt_np t ∧ bt_num_blocks_per_row t' = bt_num_blocks_per_row t.
Proof.
  intros H1 Hw Hk H3 H4 H5. case_decide as Hfirst.
  - subst k. eexists. split; [apply (slots_of_tokens rows width); [done|split; [done|by exists ks]|done..]|done].
  - exists t. split; [|done]. unfold compute_slot_mapping. unfold cp_world in Hw.
    destruct (_ <? _) eqn:Hlt; [apply Z.ltb_lt in Hlt; lia|]. rewrite Hk. cbn [np_get lookup list_lookup mbind outcome_bind].
    by rewrite (proj2 (Z.eqb_neq _ _) Hfirst).
Qed.

(** C17: context parallelism divides the tokens among the ranks. Every token is stored on exactly
    one rank, the others get no slot; two tokens with the same slot on the same rank are at the
    same offset of the same block; and every place of every block on every rank is used. *)
Theorem cp_slots_partition rows width t : 0 < bt_dcp_world_size t → 0 < bt_pcp_world_size t → 0 < bt_interleave_size t →
  (bt_interleave_size t | bt_block_size t) →
  (∀ i pos b, stored rows width t i pos b → ∃ r s, 0 ≤ r < cp_world t ∧ 0 ≤ s ∧ slot_of_cp (at_rank r t) (Z.of_nat i, pos) = Ret s ∧
     ∀ r', 0 ≤ r' < cp_world t → r' ≠ r → slot_of_cp (at_rank r' t) (Z.of_nat i, pos) = Ret (-1)) ∧
  (∀ i pos b i' pos' b' r s, stored rows width t i pos b → stored rows width t i' pos' b' → 0 ≤ s →
     slot_of_cp (at_rank r t) (Z.of_nat i, pos) = Ret s → slot_of_cp (at_rank r t) (Z.of_nat i', pos') = Ret s →
     b = b' ∧ pos mod (bt_block_size t * cp_world t) = pos' mod (bt_block_size t * cp_world t)) ∧
  (∀ i pos b r place, stored rows width t i pos b → 0 ≤ r < cp_world t → 0 ≤ place < bt_block_size t →
     ∃ pos', stored rows width t i pos' b ∧ slot_of_cp (at_rank r t) (Z.of_nat i, pos') = Ret (b * bt_block_size t + place)).
Proof.
  intros Hd Hp Hi Hdiv. assert (0 < cp_world t) as Hw by (unfold cp_world; nia). split_and!.
  - intros i pos b Hst. pose proof (st_fits _ _ _ _ _ _ Hst) as [Hb0 _]. pose proof (to_block _ _ _ (st_table _ _ _ _ _ _ Hst)) as Hbs.
    set (o := pos mod (bt_block_size t * cp_world t)). assert (0 ≤ o < bt_block_size t * cp_world t) as Ho by (apply Z.mod_pos_bound; nia).
    exists (cp_owner (cp_world t) (bt_interleave_size t) o), (b * bt_block_size t + cp_local (cp_world t) (bt_interleave_size t) o).
    split_and!; try by apply cp_owner_range.
    + pose proof (cp_local_range _ _ Hw Hi _ _ Hdiv Ho). nia.
    + rewrite (slot_at_rank rows width t _ i pos b) by done. fold o. by rewrite Z.eqb_refl.
    + intros r' Hr' Hne. rewrite (slot_at_rank rows width t _ i pos b) by done. fold o. by rewrite (proj2 (Z.eqb_neq _ _)).
  - intros i pos b i' pos' b' r s Hst Hst' Hs H1 H2. pose proof (to_block _ _ _ (st_table _ _ _ _ _ _ Hst)) as Hbs.
    rewrite (slot_at_rank rows width t _ i pos b) in H1 by done. rewrite (slot_at_rank rows width t _ i' pos' b') in H2 by done.
    assert (∀ x, 0 ≤ cp_local (cp_world t) (bt_interleave_size t) (x mod (bt_block_size t * cp_world t)) < bt_block_size t) as Hl.
    { intros x. apply cp_local_range; [done|done|done|]. apply Z.mod_pos_bound. nia. }
    pose proof (Hl pos). pose proof (Hl pos'). destruct (Z.eqb_spec (cp_owner (cp_world t) (bt_interleave_size t) (pos mod (bt_block_size t * cp_world t))) r) as [E1|]; [|simplify_eq; lia].
    destruct (Z.eqb_spec (cp_owner (cp_world t) (bt_interleave_size t) (pos' mod (bt_block_size t * cp_world t))) r) as [E2|]; [|simplify_eq; lia].
    injection H1 as H1. injection H2 as H2. assert (b = b') by nia. subst b'. split; [done|].
    apply (cp_offset_unique (cp_world t) (bt_interleave_size t) Hw Hi); [congruence|lia].
  - intros i pos b r place [S1 S2 S3 S4 S5] Hr Hpl. pose proof (to_block _ _ _ S5) as Hbs.
    destruct (cp_surjective (cp_world t) (bt_interleave_size t) Hw Hi (bt_block_size t) r place Hdiv Hr Hpl) as (o & Ho & Hown & Hloc).
    set (v := bt_block_size t * cp_world t) in *. assert (0 < v) as Hv by (unfold v; nia).
    assert ((pos / v * v + o) / v = pos / v) as Hq by (rewrite Z.div_add_l by lia; rewrite (Z.div_small o) by lia; lia).
    assert ((pos / v * v + o) mod v = o) as Hm by (rewrite Z.add_comm, Z.mod_add by lia; by apply Z.mod_small).
    exists (pos / v * v + o). assert (stored rows width t i (pos / v * v + o) b) as Hst'.
    { split; try done; [pose proof (Z.div_pos pos v S2 Hv); nia|]. fold v. by rewrite Hq. }
    split; [done|]. rewrite (slot_at_rank rows width t _ i _ b) by done. fold v. rewrite Hm, Hown, Z.eqb_refl. by rewrite Hloc.
Qed.

(** With several kernel block sizes of which the first does not divide the block size, no slots
    are computed at all: the mapping of the last step stays. *)
Theorem other_kernel_size_no_slots t req_indices positions :
  bt_init (mkRanks 1 0 1 0 1) 2 4 4 8 (Some [3; 2]) 0 = Ret t → compute_slot_mapping req_indices positions t = Ret t.
Proof. intros H. vm_compute in H. injection H as <-. done. Qed.

(** ** Witnesses *)

(** Two requests with blocks of four tokens, split in two for the kernel. *)
Definition split_table : BlockTable :=
  match (t ← bt_init (mkRanks 1 0 1 0 1) 4 3 4 8 (Some [2]) 0; t ← add_row [5; 1] 0 t; add_row [7] 1 t) with Ret t => t | Raise _ => mkBlockTable 1 1 false None 0 [] [] [] [] false 1 0 1 0 1 end.

Lemma split_table_ok : table_ok 3 8 split_table.
Proof. split; try (vm_compute; done); [|repeat constructor; vm_compute; done]. split; [vm_compute; lia|repeat constructor; vm_compute; done]. Qed.

Lemma slots_exact_witness : ∃ t', compute_slot_mapping [0; 0; 1] [3; 6; 1] split_table = Ret t' ∧ take 3 (bt_slot_mapping t') = [23; 6; 29].
Proof.
  destruct (slots_exact 3 8 split_table [[5; 1]; [7]] [(0%nat, 3); (0%nat, 6); (1%nat, 1)] 2 []) as (t' & Hrun & Hs & _).
  - apply split_table_ok.
  - reflexivity.
  - reflexivity.
  - intros [|[|[|i]]] ids Hi; simplify_eq/=; (split; [lia|vm_compute; reflexivity]).
  - repeat constructor; try done; (eexists _, _; split; [vm_compute; reflexivity|]; split; [vm_compute; reflexivity|split; vm_compute; done]).
  - vm_compute. lia.
  - exists t'. split; [exact Hrun|]. rewrite Hs. vm_compute. reflexivity.
Defined.

(** Blocks of four tokens over two ranks, in pieces of two. *)
Definition cp_table : BlockTable :=
  match (t ← bt_init (mkRanks 2 0 1 0 2) 4 2 4 8 (Some [4]) 0; add_row [5; 1] 0 t) with Ret t => t | Raise _ => split_table end.

Lemma cp_table_ok : table_ok 2 4 cp_table.
Proof. split; try (vm_compute; done); [|repeat constructor; vm_compute; done]. split; [vm_compute; lia|repeat constructor; vm_compute; done]. Qed.

Lemma cp_slots_partition_witness : ∃ r s, slot_of_cp (at_rank r cp_table) (0, 11) = Ret s ∧ 0 ≤ r < 2 ∧ 0 ≤ s.
Proof.
  destruct (cp_slots_partition 2 4 cp_table) as (H & _); [done|done|done|by exists 2|].
  destruct (H 0%nat 11 1) as (r & s & Hr & Hs & Hrun & _).
  - split; [lia|lia|vm_compute; reflexivity|split; vm_compute; done|apply cp_table_ok].
  - exists r, s. split; [exact Hrun|]. split; [exact Hr|exact Hs].
Defined.
