(* ===== verification/InputBatch.v ===== *)
(** The worker's persistent batch: worker/input_batch.py and the batch update builder of
    sample/logits_processor/state.py. One row per running request, kept across steps; rows are
    added, removed, moved down into gaps and swapped. *)
From S2P Require Import Prelude BlockTable.
From stdpp Require Import sorting.
From Stdlib Require Import SpecFloat.
Local Open Scope Z_scope.

(** ** Requests *)

(** The sampling parameters that the batch stores, and those that its logits processors read. *)
Record BatchSampling := mkBatchSampling {
  temperature : spec_float;
  top_p : spec_float;
  top_k : Z;
  frequency_penalty : spec_float;
  presence_penalty : spec_float;
  repetition_penalty : spec_float;
  seed : option Z;
  logprobs : option Z;
  allowed_token_ids : option (list Z);
  bad_words_token_ids : option (list (list Z));
  min_p : spec_float;
  logit_bias : option (list (Z * spec_float));
  min_tokens : Z;
  all_stop_token_ids : list Z;
  prompt_logprobs : option Z;
}.
Inductive SamplingType := GREEDY | RANDOM | RANDOM_SEED.
#[global] Instance SamplingType_eq_dec : EqDecision SamplingType.
Proof. solve_decision. Defined.

Definition float_of_Z (z : Z) : spec_float := binary_normalize 53 1024 z 0 false.
Definition SAMPLING_EPS : spec_float := SFdiv 53 1024 (float_of_Z 1) (float_of_Z 100000).
(** The assignment of a Python float to an element of a [float32] array rounds it to the nearest. *)
Definition to_float32 (x : spec_float) : spec_float :=
  match x with S754_finite sign m e => binary_round 24 128 sign m e | _ => x end.
Definition sampling_type (p : BatchSampling) : SamplingType :=
  if SFltb (temperature p) SAMPLING_EPS then GREEDY else match seed p with Some _ => RANDOM_SEED | None => RANDOM end.

(** [CachedRequestState], for a prompt of tokens. A generator is the seed it was made from. *)
Record CachedRequestState := mkCachedState {
  st_req_id : string;
  st_prompt_token_ids : list Z;
  st_sampling_params : option BatchSampling;
  st_generator : option Z;
  st_block_ids : list (list Z);
  st_num_computed_tokens : Z;
  st_output_token_ids : list Z;
  st_prev_num_draft_len : Z;
}.
Definition st_set_prev_draft (n : Z) (r : CachedRequestState) : CachedRequestState :=
  mkCachedState (st_req_id r) (st_prompt_token_ids r) (st_sampling_params r) (st_generator r) (st_block_ids r) (st_num_computed_tokens r)
    (st_output_token_ids r) n.
Definition st_set_computed (n : Z) (r : CachedRequestState) : CachedRequestState :=
  mkCachedState (st_req_id r) (st_prompt_token_ids r) (st_sampling_params r) (st_generator r) (st_block_ids r) n (st_output_token_ids r)
    (st_prev_num_draft_len r).
Definition st_set_blocks (ids : list (list Z)) (r : CachedRequestState) : CachedRequestState :=
  mkCachedState (st_req_id r) (st_prompt_token_ids r) (st_sampling_params r) (st_generator r) ids (st_num_computed_tokens r)
    (st_output_token_ids r) (st_prev_num_draft_len r).
Definition st_set_outputs (toks : list Z) (r : CachedRequestState) : CachedRequestState :=
  mkCachedState (st_req_id r) (st_prompt_token_ids r) (st_sampling_params r) (st_generator r) (st_block_ids r) (st_num_computed_tokens r)
    toks (st_prev_num_draft_len r).
Definition st_num_tokens (r : CachedRequestState) : Z :=
  Z.of_nat (length (st_prompt_token_ids r)) + Z.of_nat (length (st_output_token_ids r)).
(** [get_token_id]. *)
Definition st_get_token_id (r : CachedRequestState) (idx : Z) : option Z :=
  let n := Z.of_nat (length (st_prompt_token_ids r)) in
  if idx <? n then py_get (st_prompt_token_ids r) idx
  else if idx - n <? Z.of_nat (length (st_output_token_ids r)) then py_get (st_output_token_ids r) (idx - n)
  else Some (-1).

(** ** [BatchUpdateBuilder] *)

Inductive MoveDirectionality := UNIDIRECTIONAL | SWAP.
(** An added request: its row, its parameters, its prompt, and the request whose list of output
    tokens the entry refers to. *)
Record AddedRequest := mkAdded {
  added_index : nat;
  added_params : BatchSampling;
  added_prompt : list Z;
  added_output : string;
}.
Record BatchUpdateBuilder := mkBuilder {
  removed_ : list nat;
  is_removed_sorted : bool;
  added : list AddedRequest;
  moved : list (nat * nat * MoveDirectionality);
  batch_changed : bool;
}.
Definition builder_init : BatchUpdateBuilder := mkBuilder [] false [] [] false.

Abbreviation BU := BatchUpdateBuilder.
Definition set_removed (l : list nat) (sorted : bool) (b : BU) : BU := mkBuilder l sorted (added b) (moved b) (batch_changed b).
Definition set_changed (b : BU) : BU := mkBuilder (removed_ b) (is_removed_sorted b) (added b) (moved b) true.
Definition push_added (x : AddedRequest) (b : BU) : BU := mkBuilder (removed_ b) (is_removed_sorted b) (added b ++ [x]) (moved b) (batch_changed b).
Definition push_moved (x : nat * nat * MoveDirectionality) (b : BU) : BU :=
  mkBuilder (removed_ b) (is_removed_sorted b) (added b) (moved b ++ [x]) (batch_changed b).

(** [_ensure_removed_sorted], [removed], [removed_append], [peek_removed], [pop_removed]. *)
Definition sort_descending (l : list nat) : list nat := merge_sort (flip le) l.
Definition ensure_removed_sorted (b : BU) : BU :=
  if is_removed_sorted b then b else set_removed (sort_descending (removed_ b)) true b.
Definition removed_append (index : nat) : M BU unit :=
  sorted ← gets is_removed_sorted;
  if (sorted : bool) then raise RuntimeError
  else modify (λ b, set_changed (set_removed (removed_ b ++ [index]) false b)).
Definition peek_removed : M BU (option nat) :=
  b ← gets id;
  match removed_ b with
  | [] => mret None
  | _ => modify ensure_removed_sorted ;; gets (λ b, last (removed_ b))
  end.
Definition pop_removed : M BU (option nat) :=
  b ← gets id;
  match removed_ b with
  | [] => mret None
  | _ =>
      modify ensure_removed_sorted ;;
      b ← gets id;
      modify (set_removed (take (length (removed_ b) - 1) (removed_ b)) true) ;;
      mret (last (removed_ b))
  end.

(** [get_and_reset]: the update for the logits processors. *)
Record BatchUpdate := mkBatchUpdate {
  batch_size : nat;
  update_removed : list nat;
  update_added : list AddedRequest;
  update_moved : list (nat * nat * MoveDirectionality);
}.
Definition get_and_reset (batch_size : nat) : M BU (option BatchUpdate) :=
  b ← gets id;
  match removed_ b, moved b, added b with
  | [], [], [] => modify (λ b, mkBuilder [] false [] [] false) ;; mret None
  | r, m, a => modify (λ _, builder_init) ;; mret (Some (mkBatchUpdate batch_size r a m))
  end.

(** ** Rows *)

(** The entries of one row in the arrays of the batch, and in the dictionaries that are keyed by
    rows. The arrays of sampling parameters are [float32]. Numbers of tokens and token ids are
    stored in 32 bits; they are bounded by the model's length and the vocabulary, and are not
    wrapped here. *)
Record RowSampling := mkRowSampling {
  temperature_cpu : spec_float;
  top_p_cpu : spec_float;
  top_k_cpu : Z;
  frequency_penalties_cpu : spec_float;
  presence_penalties_cpu : spec_float;
  repetition_penalties_cpu : spec_float;
  num_accepted_tokens_cpu : Z;
}.
Record Row := mkRow {
  token_ids_cpu : list Z;
  num_tokens_no_spec : Z;
  num_prompt_tokens : Z;
  num_computed_tokens_cpu : Z;
  row_sampling : RowSampling;
  generator : option Z;
  allowed_token_ids_mask : option (list Z);
  bad_words : option (list (list Z));
}.
Definition set_row_tokens (l : list Z) (r : Row) : Row :=
  mkRow l (num_tokens_no_spec r) (num_prompt_tokens r) (num_computed_tokens_cpu r) (row_sampling r) (generator r)
    (allowed_token_ids_mask r) (bad_words r).
Definition set_counts (no_spec prompt computed : Z) (r : Row) : Row :=
  mkRow (token_ids_cpu r) no_spec prompt computed (row_sampling r) (generator r) (allowed_token_ids_mask r) (bad_words r).
Definition set_num_accepted (n : Z) (r : Row) : Row :=
  let s := row_sampling r in
  mkRow (token_ids_cpu r) (num_tokens_no_spec r) (num_prompt_tokens r) (num_computed_tokens_cpu r)
    (mkRowSampling (temperature_cpu s) (top_p_cpu s) (top_k_cpu s) (frequency_penalties_cpu s) (presence_penalties_cpu s)
      (repetition_penalties_cpu s) n) (generator r) (allowed_token_ids_mask r) (bad_words r).

Definition set_mask (mask : option (list Z)) (r : Row) : Row :=
  mkRow (token_ids_cpu r) (num_tokens_no_spec r) (num_prompt_tokens r) (num_computed_tokens_cpu r) (row_sampling r) (generator r) mask (bad_words r).

(** The sets and dictionaries keyed by request ids. *)
Record Kinds := mkKinds {
  greedy_reqs : gset string;
  random_reqs : gset string;
  top_p_reqs : gset string;
  top_k_reqs : gset string;
  frequency_penalties_reqs : gset string;
  presence_penalties_reqs : gset string;
  repetition_penalties_reqs : gset string;
  has_allowed_token_ids : gset string;
  num_logprobs : gmap string Z;
}.
Definition kinds_remove (id : string) (k : Kinds) : Kinds :=
  mkKinds (greedy_reqs k ∖ {[id]}) (random_reqs k ∖ {[id]}) (top_p_reqs k ∖ {[id]}) (top_k_reqs k ∖ {[id]})
    (frequency_penalties_reqs k ∖ {[id]}) (presence_penalties_reqs k ∖ {[id]}) (repetition_penalties_reqs k ∖ {[id]})
    (has_allowed_token_ids k ∖ {[id]}) (delete id (num_logprobs k)).
Definition add_if (b : bool) (id : string) (X : gset string) : gset string := if b then {[id]} ∪ X else X.

(** ** The batch *)

Record InputBatch := mkInputBatch {
  max_num_reqs : nat;
  vocab_size : Z;
  req_ids : list (option string);
  req_id_to_index : gmap string nat;
  req_output_token_ids : list (option string);
  spec_token_ids : list (list Z);
  rows : list Row;
  block_table : MultiGroupBlockTable;
  kinds : Kinds;
  batch_update_builder : BatchUpdateBuilder;
  prev_req_id_to_index : option (gmap string nat);
}.
Abbreviation IB := InputBatch.
Definition set_req_ids f (s : IB) : IB :=
  mkInputBatch (max_num_reqs s) (vocab_size s) (f (req_ids s)) (req_id_to_index s) (req_output_token_ids s) (spec_token_ids s) (rows s)
    (block_table s) (kinds s) (batch_update_builder s) (prev_req_id_to_index s).
Definition set_index f (s : IB) : IB :=
  mkInputBatch (max_num_reqs s) (vocab_size s) (req_ids s) (f (req_id_to_index s)) (req_output_token_ids s) (spec_token_ids s) (rows s)
    (block_table s) (kinds s) (batch_update_builder s) (prev_req_id_to_index s).
Definition set_output_lists f (s : IB) : IB :=
  mkInputBatch (max_num_reqs s) (vocab_size s) (req_ids s) (req_id_to_index s) (f (req_output_token_ids s)) (spec_token_ids s) (rows s)
    (block_table s) (kinds s) (batch_update_builder s) (prev_req_id_to_index s).
Definition set_specs f (s : IB) : IB :=
  mkInputBatch (max_num_reqs s) (vocab_size s) (req_ids s) (req_id_to_index s) (req_output_token_ids s) (f (spec_token_ids s)) (rows s)
    (block_table s) (kinds s) (batch_update_builder s) (prev_req_id_to_index s).
Definition set_row_list f (s : IB) : IB :=
  mkInputBatch (max_num_reqs s) (vocab_size s) (req_ids s) (req_id_to_index s) (req_output_token_ids s) (spec_token_ids s) (f (rows s))
    (block_table s) (kinds s) (batch_update_builder s) (prev_req_id_to_index s).
Definition set_table ts (s : IB) : IB :=
  mkInputBatch (max_num_reqs s) (vocab_size s) (req_ids s) (req_id_to_index s) (req_output_token_ids s) (spec_token_ids s) (rows s)
    ts (kinds s) (batch_update_builder s) (prev_req_id_to_index s).
Definition set_kinds f (s : IB) : IB :=
  mkInputBatch (max_num_reqs s) (vocab_size s) (req_ids s) (req_id_to_index s) (req_output_token_ids s) (spec_token_ids s) (rows s)
    (block_table s) (f (kinds s)) (batch_update_builder s) (prev_req_id_to_index s).
Definition set_builder b (s : IB) : IB :=
  mkInputBatch (max_num_reqs s) (vocab_size s) (req_ids s) (req_id_to_index s) (req_output_token_ids s) (spec_token_ids s) (rows s)
    (block_table s) (kinds s) b (prev_req_id_to_index s).
Definition set_prev f (s : IB) : IB :=
  mkInputBatch (max_num_reqs s) (vocab_size s) (req_ids s) (req_id_to_index s) (req_output_token_ids s) (spec_token_ids s) (rows s)
    (block_table s) (kinds s) (batch_update_builder s) (f (prev_req_id_to_index s)).

Definition num_reqs (s : IB) : nat := size (req_id_to_index s).
Definition on_builder {A} (m : M BU A) : M IB A := zoom batch_update_builder set_builder m.
Definition on_table (f : MultiGroupBlockTable → outcome MultiGroupBlockTable) : M IB unit :=
  ts ← gets block_table;
  ts' ← of_outcome (f ts);
  modify (set_table ts').

(** [l[i]] and [l[i] = x] on the lists of the batch. *)
Definition get_at {A} (f : IB → list A) (i : nat) : M IB A := s ← gets id; of_outcome (np_get (f s) i).
Definition set_at {A} (set : (list A → list A) → IB → IB) (get : IB → list A) (i : nat) (x : A) : M IB unit :=
  s ← gets id; l ← of_outcome (np_set (get s) i x); modify (set (λ _, l)).
Definition upd_row (i : nat) (f : Row → Row) : M IB unit := r ← get_at rows i; set_at set_row_list rows i (f r).

(** [self.token_ids_cpu[i, start:start+len(xs)] = xs]. *)
Definition write_tokens (i : nat) (start : Z) (xs : list Z) : M IB unit :=
  r ← get_at rows i;
  l ← of_outcome (np_write (token_ids_cpu r) (Z.to_nat start) xs);
  upd_row i (set_row_tokens l).

(** ** Adding *)

Definition register_add_request (request : CachedRequestState) : M IB nat :=
  popped ← on_builder pop_removed;
  n ← gets num_reqs;
  let new_req_index := default n popped in
  limit ← gets max_num_reqs;
  py_assert (new_req_index <? limit)%nat ;;
  on_builder (modify set_changed) ;;
  (match st_sampling_params request with
   | Some p => on_builder (modify (push_added (mkAdded new_req_index p (st_prompt_token_ids request) (st_req_id request))))
   | None => mret tt
   end) ;;
  mret new_req_index.

(** The sampling part of [add_request]. *)
Definition sampling_row (vocab_size : Z) (p : BatchSampling) (accepted : Z) : RowSampling :=
  mkRowSampling
    (to_float32 (match sampling_type p with GREEDY => float_of_Z 0 | _ => temperature p end))
    (to_float32 (top_p p))
    (if (0 <? top_k p) && (top_k p <? vocab_size) then top_k p else vocab_size)
    (to_float32 (frequency_penalty p)) (to_float32 (presence_penalty p)) (to_float32 (repetition_penalty p)) accepted.
Definition kinds_add (vocab_size : Z) (id : string) (p : BatchSampling) (k : Kinds) : Kinds :=
  let greedy := bool_decide (sampling_type p = GREEDY) in
  mkKinds (add_if greedy id (greedy_reqs k)) (add_if (negb greedy) id (random_reqs k))
    (add_if (SFltb (top_p p) (float_of_Z 1)) id (top_p_reqs k))
    (add_if ((0 <? top_k p) && (top_k p <? vocab_size)) id (top_k_reqs k))
    (add_if (negb (SFeqb (frequency_penalty p) (float_of_Z 0))) id (frequency_penalties_reqs k))
    (add_if (negb (SFeqb (presence_penalty p) (float_of_Z 0))) id (presence_penalties_reqs k))
    (add_if (negb (SFeqb (repetition_penalty p) (float_of_Z 1))) id (repetition_penalties_reqs k))
    (add_if (match allowed_token_ids p with Some (_ :: _) => true | _ => false end) id (has_allowed_token_ids k))
    (match logprobs p with Some n => <[id := if n =? -1 then vocab_size else n]> (num_logprobs k) | None => num_logprobs k end).
Definition truthy_list {A} (o : option (list A)) : option (list A) := match o with Some [] => None | _ => o end.
Definition add_sampling (i : nat) (request : CachedRequestState) (p : BatchSampling) : M IB unit :=
  v ← gets vocab_size;
  modify (set_kinds (kinds_add v (st_req_id request) p)) ;;
  upd_row i (λ r, mkRow (token_ids_cpu r) (num_tokens_no_spec r) (num_prompt_tokens r) (num_computed_tokens_cpu r)
    (sampling_row v p (num_accepted_tokens_cpu (row_sampling r)))
    (match st_generator request with Some g => Some g | None => generator r end)
    (match truthy_list (allowed_token_ids p) with Some l => Some l | None => allowed_token_ids_mask r end)
    (match truthy_list (bad_words_token_ids p) with Some l => Some l | None => bad_words r end)).

Definition ib_add_request (request : CachedRequestState) : M IB nat :=
  req_index ← register_add_request request;
  let req_id := st_req_id request in
  ids ← gets req_ids;
  (if decide (req_index = length ids) then
     modify (set_req_ids (λ l, l ++ [Some req_id])) ;;
     modify (set_output_lists (λ l, l ++ [Some req_id])) ;;
     modify (set_specs (λ l, l ++ [[]]))
   else
     set_at set_req_ids req_ids req_index (Some req_id) ;;
     set_at set_output_lists req_output_token_ids req_index (Some req_id) ;;
     get_at spec_token_ids req_index ;;
     set_at set_specs spec_token_ids req_index []) ;;
  modify (set_index <[req_id := req_index]>) ;;
  let num_prompt := Z.of_nat (length (st_prompt_token_ids request)) in
  upd_row req_index (λ r, set_counts (num_tokens_no_spec r) num_prompt (num_computed_tokens_cpu r) r) ;;
  write_tokens req_index 0 (st_prompt_token_ids request) ;;
  write_tokens req_index num_prompt (st_output_token_ids request) ;;
  upd_row req_index (λ r, set_counts (st_num_tokens request) (num_prompt_tokens r) (st_num_computed_tokens request) r) ;;
  on_table (mg_add_row (st_block_ids request) req_index) ;;
  (match st_sampling_params request with
   | Some p => add_sampling req_index request p
   | None => raise NotImplementedError
   end) ;;
  upd_row req_index (set_num_accepted 1) ;;
  mret req_index.

(** [update_req_spec_token_ids]: the draft tokens of this step; the number of them is what the
    request remembers as [prev_num_draft_len]. *)
Definition update_req_spec_token_ids (req_id : string) (scheduled : list Z) : M IB Z :=
  index ← gets req_id_to_index;
  req_index ← from_option_raise KeyError (index !! req_id);
  get_at spec_token_ids req_index ;;
  set_at set_specs spec_token_ids req_index [] ;;
  (match scheduled with
   | [] => mret tt
   | _ =>
       r ← get_at rows req_index;
       write_tokens req_index (num_tokens_no_spec r) scheduled ;;
       set_at set_specs spec_token_ids req_index scheduled
   end) ;;
  mret (Z.of_nat (length scheduled)).

(** ** Removing *)

Definition ib_remove_request (req_id : string) : M IB (option nat) :=
  index ← gets req_id_to_index;
  match index !! req_id with
  | None => mret None
  | Some req_index =>
      modify (set_index (delete req_id)) ;;
      on_builder (removed_append req_index) ;;
      set_at set_req_ids req_ids req_index None ;;
      set_at set_output_lists req_output_token_ids req_index None ;;
      get_at spec_token_ids req_index ;;
      set_at set_specs spec_token_ids req_index [] ;;
      modify (set_kinds (kinds_remove req_id)) ;;
      upd_row req_index (λ r, mkRow (token_ids_cpu r) (num_tokens_no_spec r) (num_prompt_tokens r) (num_computed_tokens_cpu r)
        (row_sampling r) None None None) ;;
      modify (set_prev (fmap (delete req_id))) ;;
      mret (Some req_index)
  end.

(** ** Moving *)

(** The body of the loop of [condense]: the request of row [src] moves down to row [tgt]. *)
Definition moved_row (num_tokens : Z) (from to : Row) : Row :=
  let n := Z.to_nat num_tokens in
  mkRow (take n (token_ids_cpu from) ++ drop n (token_ids_cpu to))
    (num_tokens_no_spec from) (num_prompt_tokens from) (num_computed_tokens_cpu from) (row_sampling from)
    (match generator from with Some g => Some g | None => generator to end)
    (allowed_token_ids_mask from)
    (match bad_words from with Some w => Some w | None => bad_words to end).
Definition left_row (r : Row) : Row :=
  mkRow (token_ids_cpu r) (num_tokens_no_spec r) (num_prompt_tokens r) (num_computed_tokens_cpu r) (row_sampling r) None
    (allowed_token_ids_mask r) None.
Definition move_down (src tgt : nat) : M IB unit :=
  req_id ← get_at req_ids src;
  output_token_ids ← get_at req_output_token_ids src;
  match req_id with
  | None => raise AssertionError
  | Some id =>
      set_at set_req_ids req_ids tgt (Some id) ;;
      set_at set_req_ids req_ids src None ;;
      set_at set_output_lists req_output_token_ids tgt output_token_ids ;;
      set_at set_output_lists req_output_token_ids src None ;;
      modify (set_index <[id := tgt]>) ;;
      from ← get_at rows src;
      to ← get_at rows tgt;
      specs ← get_at spec_token_ids src;
      get_at spec_token_ids tgt ;;
      let num_tokens := num_tokens_no_spec from + Z.of_nat (length specs) in
      set_at set_specs spec_token_ids tgt specs ;;
      set_at set_specs spec_token_ids src [] ;;
      on_table (mg_move_row src tgt) ;;
      on_builder (modify (push_moved (src, tgt, UNIDIRECTIONAL))) ;;
      set_at set_row_list rows tgt (moved_row num_tokens from to) ;;
      set_at set_row_list rows src (left_row from)
  end.

(** [while last_req_index in empty_req_indices: last_req_index -= 1]. Each turn passes another
    element of the list, so its length bounds the turns. *)
Fixpoint skip_empty (fuel : nat) (last : Z) (empty_req_indices : list nat) : Z :=
  match fuel with
  | O => last
  | S fuel =>
      if bool_decide (0 ≤ last ∧ Z.to_nat last ∈ empty_req_indices) then skip_empty fuel (last - 1) empty_req_indices else last
  end.

(** The loop of [condense]; each turn takes one element from the list of empty rows. *)
Fixpoint condense_loop (fuel : nat) (last_req_index : Z) : M IB unit :=
  match fuel with
  | O => mret tt
  | S fuel =>
      s ← gets id;
      match removed_ (batch_update_builder s) with
      | [] => mret tt
      | empty =>
          let last := skip_empty (length empty) last_req_index empty in
          empty_index ← on_builder peek_removed;
          match empty_index with
          | None => raise AssertionError
          | Some tgt =>
              if Z.of_nat tgt >=? last then mret tt
              else
                on_builder pop_removed ;;
                move_down (Z.to_nat last) tgt ;;
                condense_loop fuel (last - 1)
          end
      end
  end.
Definition condense : M IB unit :=
  n ← gets num_reqs;
  on_builder (modify ensure_removed_sorted) ;;
  s ← gets id;
  match removed_ (batch_update_builder s) with
  | [] => mret tt
  | empty =>
      if decide (n = 0)%nat then
        modify (set_req_ids (λ _, [])) ;; modify (set_output_lists (λ _, [])) ;; modify (set_specs (λ _, []))
      else
        condense_loop (length empty) (Z.of_nat n + Z.of_nat (length empty) - 1) ;;
        modify (set_req_ids (take n)) ;; modify (set_output_lists (take n)) ;; modify (set_specs (take n))
  end.

(** [swap_states]. *)
Definition swap_at {A} (set : (list A → list A) → IB → IB) (get : IB → list A) (i j : nat) : M IB unit :=
  s ← gets id; l ← of_outcome (np_swap (get s) i j); modify (set (λ _, l)).
(** The arrays of the rows but the masks, element by element or through copies. *)
Definition swap_rows (i1 i2 : nat) : M IB unit :=
  r1 ← get_at rows i1;
  r2 ← get_at rows i2;
  set_at set_row_list rows i1 (set_mask (allowed_token_ids_mask r1) r2) ;;
  set_at set_row_list rows i2 (set_mask (allowed_token_ids_mask r2) r1).
(** [mask[i1], mask[i2] = mask[i2], mask[i1]]: the values on the right are views of the tensor's
    rows. Row [i1] is overwritten first, and the second assignment reads it through its view. A
    mask that was never allocated is one of rows without a mask. *)
Definition copy_mask (src dst : nat) : M IB unit :=
  from ← get_at rows src;
  upd_row dst (set_mask (allowed_token_ids_mask from)).
Definition swap_masks (i1 i2 : nat) : M IB unit := copy_mask i2 i1 ;; copy_mask i1 i2.
Definition swap_states (i1 i2 : nat) : M IB unit :=
  old_id_i1 ← get_at req_ids i1;
  old_id_i2 ← get_at req_ids i2;
  swap_at set_req_ids req_ids i1 i2 ;;
  swap_at set_output_lists req_output_token_ids i1 i2 ;;
  swap_at set_specs spec_token_ids i1 i2 ;;
  match old_id_i1, old_id_i2 with
  | Some id1, Some id2 =>
      index ← gets req_id_to_index;
      x2 ← from_option_raise KeyError (index !! id2);
      x1 ← from_option_raise KeyError (index !! id1);
      modify (set_index (λ m, <[id2 := x1]> (<[id1 := x2]> m))) ;;
      swap_rows i1 i2 ;;
      on_table (mg_swap_row i1 i2) ;;
      on_builder (modify (push_moved (i1, i2, SWAP))) ;;
      swap_masks i1 i2
  | _, _ => raise AssertionError
  end.

(** [refresh_metadata], as far as it concerns the builder. *)
Definition refresh_metadata : M IB (option BatchUpdate) := n ← gets num_reqs; on_builder (get_and_reset n).
