(* ===== verification/LogitsUpdate.v ===== *)
(** The logits processors' copies of the batch: [process_dict_updates] and the built-in
    processors of sample/logits_processor/builtin.py, and the updates of the batch that keep
    them in step with the rows. *)
From S2P Require Import Prelude BlockTable InputBatch.
From stdpp Require Import fin_maps.
Local Open Scope Z_scope.

(** ** Dictionaries from rows to states *)

Section dict.
Context {T : Type}.
(** The state a processor makes for a request, if it applies to it, and the truth value of a
    state. *)
Variables (new_state : BatchSampling → list Z → string → option T) (truthy : T → bool).
Implicit Types (d : gmap nat T) (b : BU).

Definition pop_entry (i : nat) (d : gmap nat T) : option T * gmap nat T := (d !! i, delete i d).
Definition add_entry (x : AddedRequest) (st : gmap nat T * bool) : gmap nat T * bool :=
  match new_state (added_params x) (added_prompt x) (added_output x) with
  | Some t => (<[added_index x := t]> st.1, true)
  | None => let '(old, d) := pop_entry (added_index x) st.1 in (d, match old with Some _ => true | None => st.2 end)
  end.
Definition remove_entry (i : nat) (st : gmap nat T * bool) : gmap nat T * bool :=
  let '(old, d) := pop_entry i st.1 in (d, match old with Some t => truthy t || st.2 | None => st.2 end).
Definition move_entry (mv : nat * nat * MoveDirectionality) (st : gmap nat T * bool) : gmap nat T * bool :=
  let '(a_index, b_index, direct) := mv in
  let '(a_entry, d) := pop_entry a_index st.1 in
  let '(b_entry, d) := pop_entry b_index d in
  let '(d, u) := match a_entry with Some t => (<[b_index := t]> d, true) | None => (d, st.2) end in
  match b_entry with
  | Some t => (match direct with SWAP => <[a_index := t]> d | UNIDIRECTIONAL => d end, true)
  | None => (d, u)
  end.
Definition run_entries {A} (f : A → gmap nat T * bool → gmap nat T * bool) (xs : list A) (st : gmap nat T * bool) : gmap nat T * bool :=
  foldl (λ st x, f x st) st xs.
Definition process_dict_updates (req_entries : gmap nat T) (batch_update : option BatchUpdate) : gmap nat T * bool :=
  match batch_update with
  | None => (req_entries, false)
  | Some u =>
      let '(d, updated) := run_entries add_entry (update_added u) (req_entries, false) in
      if decide (d = ∅) then (d, updated)
      else run_entries move_entry (update_moved u) (run_entries remove_entry (update_removed u) (d, updated))
  end.
End dict.

(** ** The built-in processors *)

(** The biases and the state of [MinTokensLogitsProcessor]; the list of output tokens is named
    by its request. *)
Definition bias_state (params : BatchSampling) (_ : list Z) (_ : string) : option (list (Z * SpecFloat.spec_float)) := truthy_list (logit_bias params).
Definition min_tokens_state (output_len : string → Z) (params : BatchSampling) (_ : list Z) (output_tok_ids : string) : option (Z * string * list Z) :=
  let min_tokens := min_tokens params in
  if (min_tokens =? 0) || (min_tokens <=? output_len output_tok_ids) then None
  else Some (min_tokens, output_tok_ids, all_stop_token_ids params).
Definition bias_update (biases : gmap nat (list (Z * SpecFloat.spec_float))) (u : option BatchUpdate) :=
  process_dict_updates bias_state (λ l, match l with [] => false | _ => true end) biases u.
Definition min_tokens_update (output_len : string → Z) (min_toks : gmap nat (Z * string * list Z)) (u : option BatchUpdate) :
    gmap nat (Z * string * list Z) * bool :=
  let '(d, needs_update) := process_dict_updates (min_tokens_state output_len) (λ _, true) min_toks u in
  let d' := filter (λ kv, kv.2.1.1 > output_len kv.2.1.2) d in
  (d', needs_update || bool_decide (d' ≠ d)).

(** ** Rows and states in step *)

Section follow.
Context {T : Type} (new_state : BatchSampling → list Z → string → option T) (truthy : T → bool).
Implicit Types (d : gmap nat T) (b : BU) (ids : list (option string)) (st : string → option T).

Lemma lookup_add_entry x d u j : (add_entry new_state x (d, u)).1 !! j = if decide (j = added_index x) then new_state (added_params x) (added_prompt x) (added_output x) else d !! j.
Proof.
  unfold add_entry, pop_entry. destruct (new_state _ _ _); simpl; case_decide as Hj; subst;
    [by rewrite lookup_insert_eq|by rewrite lookup_insert_ne|by rewrite lookup_delete_eq|by rewrite lookup_delete_ne].
Qed.
Lemma lookup_move_entry a c dir d u j : a ≠ c →
  (move_entry (a, c, dir) (d, u)).1 !! j =
    if decide (j = c) then d !! a else if decide (j = a) then match dir with SWAP => d !! c | UNIDIRECTIONAL => None end else d !! j.
Proof.
  intros Hac. unfold move_entry, pop_entry. simpl. rewrite (lookup_delete_ne d a c) by done.
  destruct (d !! a) as [x|] eqn:Ha, (d !! c) as [y|] eqn:Hc, dir; simpl;
    repeat (case_decide; simplify_eq; simpl; rewrite ?lookup_insert_eq, ?lookup_delete_eq; try done);
    rewrite ?lookup_insert_ne, ?lookup_delete_ne by done; rewrite ?lookup_insert_eq, ?lookup_delete_eq; try done;
    rewrite ?lookup_insert_ne, ?lookup_delete_ne by done; rewrite ?lookup_delete_eq; done.
Qed.
Lemma lookup_remove_entries l d u j : (run_entries (remove_entry truthy) l (d, u)).1 !! j = if decide (j ∈ l) then None else d !! j.
Proof.
  revert d u. induction l as [|i l IH]; intros d u; [done|]. simpl. unfold remove_entry, pop_entry at 2. simpl. rewrite IH.
  destruct (decide (j ∈ l)) as [Hj|Hj]; [by rewrite decide_True by (by right)|]. case_decide as Hc.
  - apply elem_of_cons in Hc as [->|?]; [apply lookup_delete_eq|done].
  - apply not_elem_of_cons in Hc as [? _]. by apply lookup_delete_ne.
Qed.

Lemma run_entries_cons {A} (f : A → gmap nat T * bool → gmap nat T * bool) x xs s : run_entries f (x :: xs) s = run_entries f xs (f x s).
Proof. done. Qed.
Lemma run_entries_snoc {A} (f : A → gmap nat T * bool → gmap nat T * bool) x xs s : run_entries f (xs ++ [x]) s = f x (run_entries f xs s).
Proof. unfold run_entries. by rewrite foldl_snoc. Qed.

(** The dictionary does not depend on the report of changes. *)
Lemma entries_flag {A} (f : A → gmap nat T * bool → gmap nat T * bool) : (∀ x d u u', (f x (d, u)).1 = (f x (d, u')).1) →
  ∀ xs d u u', (run_entries f xs (d, u)).1 = (run_entries f xs (d, u')).1.
Proof.
  intros Hf xs. induction xs as [|x xs IH]; intros d u u'; [done|]. simpl. specialize (Hf x d u u').
  destruct (f x (d, u)) as [e v], (f x (d, u')) as [e' v']. simpl in Hf. subst e'. apply IH.
Qed.
Lemma moves_flag xs d u u' : (run_entries (@move_entry T) xs (d, u)).1 = (run_entries move_entry xs (d, u')).1.
Proof. apply entries_flag. intros [[a c] dir] e v v'. unfold move_entry, pop_entry. simpl. by destruct (e !! a), (_ !! c). Qed.

(** What the recorded changes make of a dictionary. *)
Definition pending_states b d : gmap nat T :=
  (run_entries move_entry (moved b) (run_entries (remove_entry truthy) (removed_ b) (run_entries (add_entry new_state) (added b) (d, false)))).1.
Definition row_state ids st (i : nat) : option T := match ids !! i with Some (Some id) => st id | _ => None end.

(** Processing the changes of the step will leave every row's state at its row. *)
Record aligned d st ids b : Prop := {
  al_states : ∀ i, pending_states b d !! i = row_state ids st i;
  al_moves : ∀ a c dir, (a, c, dir) ∈ moved b → a ≠ c ∧ a ∉ removed_ b ∧ c ∉ removed_ b;
}.

(** The changes other than additions. *)
Inductive edit : list (option string) * BU → list (option string) * BU → Prop :=
| edit_sort ids b b' : removed_ b ≡ₚ removed_ b' → added b' = added b → moved b' = moved b → edit (ids, b) (ids, b')
| edit_remove ids b b' i id : ids !! i = Some (Some id) → moved b = [] → removed_ b' = removed_ b ++ [i] → added b' = added b →
    moved b' = [] → edit (ids, b) (<[i := None]> ids, b')
| edit_move ids b b' src tgt id : ids !! src = Some (Some id) → ids !! tgt = Some None → src ∉ removed_ b →
    removed_ b ≡ₚ tgt :: removed_ b' → tgt ∉ removed_ b' → added b' = added b → moved b' = moved b ++ [(src, tgt, UNIDIRECTIONAL)] →
    edit (ids, b) (<[src := None]> (<[tgt := Some id]> ids), b')
| edit_swap ids b b' i j x y : i ≠ j → ids !! i = Some x → ids !! j = Some y → i ∉ removed_ b → j ∉ removed_ b →
    removed_ b' = removed_ b → added b' = added b → moved b' = moved b ++ [(i, j, SWAP)] → edit (ids, b) (<[j := x]> (<[i := y]> ids), b')
| edit_trim ids b n : (∀ i id, (n ≤ i)%nat → ids !! i ≠ Some (Some id)) → edit (ids, b) (take n ids, b).

(** Before the recorded moves the rows are as after the removals. *)
Lemma pending_without b d i : moved b = [] → pending_states b d !! i = if decide (i ∈ removed_ b) then None else (run_entries (add_entry new_state) (added b) (d, false)).1 !! i.
Proof. intros Hm. unfold pending_states. rewrite Hm. simpl. destruct (run_entries (add_entry new_state) (added b) (d, false)) as [e u]. apply lookup_remove_entries. Qed.

(** A row that no move touches. *)
Lemma moves_others xs e u i : (∀ a c dir, (a, c, dir) ∈ xs → a ≠ i ∧ c ≠ i) → (run_entries (@move_entry T) xs (e, u)).1 !! i = e !! i.
Proof.
  revert e u. induction xs as [|[[a c] dir] xs IH]; intros e u H; [done|]. rewrite run_entries_cons. destruct (H a c dir) as [Ha Hc]; [by left|].
  destruct (move_entry (a, c, dir) (e, u)) as [e' u'] eqn:E. rewrite IH by (intros; eapply H; by right).
  assert (e' = (move_entry (a, c, dir) (e, u)).1) as -> by (by rewrite E). destruct (decide (a = c)) as [->|Hac].
  - unfold move_entry, pop_entry. simpl. rewrite lookup_delete_eq. destruct (e !! c); simpl; rewrite ?lookup_insert_ne, ?lookup_delete_ne by done; done.
  - rewrite lookup_move_entry by done. by rewrite !decide_False.
Qed.
(** Moves respect dictionaries that agree on the rows other than one which they do not touch. *)
Lemma moves_except xs e e' u i : (∀ a c dir, (a, c, dir) ∈ xs → a ≠ i ∧ c ≠ i ∧ a ≠ c) → (∀ j, j ≠ i → e !! j = e' !! j) →
  ∀ j, j ≠ i → (run_entries (@move_entry T) xs (e, u)).1 !! j = (run_entries move_entry xs (e', u)).1 !! j.
Proof.
  revert e e' u. induction xs as [|[[a c] dir] xs IH]; intros e e' u H He j Hj; [by apply He|]. rewrite !run_entries_cons. destruct (H a c dir) as (Ha & Hc & Hac); [by left|].
  destruct (move_entry (a, c, dir) (e, u)) as [f v] eqn:E, (move_entry (a, c, dir) (e', u)) as [f' v'] eqn:E'.
  rewrite (moves_flag xs f' v' v). apply IH; [intros; eapply H; by right| |done]. intros k Hk.
  assert (f = (move_entry (a, c, dir) (e, u)).1) as -> by (by rewrite E). assert (f' = (move_entry (a, c, dir) (e', u)).1) as -> by (by rewrite E').
  rewrite !lookup_move_entry by done. rewrite !He by done. done.
Qed.

Lemma pending_base b d : ∃ e u, (∀ j, e !! j = if decide (j ∈ removed_ b) then None else (run_entries (add_entry new_state) (added b) (d, false)).1 !! j) ∧
  pending_states b d = (run_entries move_entry (moved b) (e, u)).1.
Proof.
  unfold pending_states. destruct (run_entries (add_entry new_state) (added b) (d, false)) as [e0 u0].
  destruct (run_entries (remove_entry truthy) (removed_ b) (e0, u0)) as [e u] eqn:E. exists e, u. split; [|done]. intros j.
  pose proof (lookup_remove_entries (removed_ b) e0 u0 j) as Hj. by rewrite E in Hj.
Qed.

Lemma row_state_insert ids st i x j : (i < length ids)%nat →
  row_state (<[i := x]> ids) st j = if decide (j = i) then match x with Some id => st id | None => None end else row_state ids st j.
Proof.
  intros Hi. unfold row_state. case_decide as Hj; [subst; by rewrite list_lookup_insert_eq|by rewrite list_lookup_insert_ne].
Qed.

Lemma aligned_remove d st ids b b' i id : aligned d st ids b → ids !! i = Some (Some id) → moved b = [] → removed_ b' = removed_ b ++ [i] →
  added b' = added b → moved b' = [] → aligned d st (<[i := None]> ids) b'.
Proof.
  intros [H1 H2] Hi Hm Hr Ha Hm'. split; [|by intros a c dir; rewrite Hm'; intros ?%elem_of_nil].
  intros j. rewrite row_state_insert by (by eapply lookup_lt_Some). rewrite pending_without by done. rewrite Hr, Ha. specialize (H1 j).
  rewrite pending_without in H1 by done. destruct (decide (j ∈ removed_ b ++ [i])) as [Hc|Hc]; rewrite elem_of_app, list_elem_of_singleton in Hc.
  - destruct (decide (j = i)) as [Hj|Hj]; [done|]. destruct Hc as [Hc|Hc]; [|done]. by rewrite decide_True in H1.
  - rewrite decide_False in H1 by tauto. destruct (decide (j = i)) as [Hj|Hj]; [tauto|done].
Qed.

Lemma aligned_move d st ids b b' src tgt id : aligned d st ids b → ids !! src = Some (Some id) → ids !! tgt = Some None → src ∉ removed_ b →
  removed_ b ≡ₚ tgt :: removed_ b' → tgt ∉ removed_ b' → added b' = added b → moved b' = moved b ++ [(src, tgt, UNIDIRECTIONAL)] →
  aligned d st (<[src := None]> (<[tgt := Some id]> ids)) b'.
Proof.
  intros [H1 H2] Hs Ht Hns Hr Hnt Ha Hm. assert (src ≠ tgt) as Hst by congruence.
  assert (∀ x, x ∉ removed_ b → x ∉ removed_ b') as Hin by (intros x Hx Hx'; apply Hx; rewrite Hr; by right).
  assert (tgt ∈ removed_ b) as Htr by (rewrite Hr; by left). split.
  - intros j. destruct (pending_base b d) as (e & u & He & E), (pending_base b' d) as (e' & u' & He' & E'). rewrite E', Hm, run_entries_snoc.
    destruct (run_entries move_entry (moved b) (e', u')) as [g v] eqn:Eg. rewrite lookup_move_entry by done.
    assert (∀ k, k ≠ tgt → g !! k = row_state ids st k) as Hg.
    { intros k Hk. rewrite <-H1, E. assert (g = (run_entries move_entry (moved b) (e', u')).1) as -> by (by rewrite Eg). rewrite (moves_flag _ e' u' u).
      apply moves_except with tgt; [|intros k' Hk'|done].
      - intros a c dir Hmv. destruct (H2 a c dir Hmv) as (? & ? & ?). split_and!; [by intros ->|by intros ->|done].
      - rewrite He, He', Ha. assert (k' ∈ removed_ b' ↔ k' ∈ removed_ b) as Heq by (rewrite Hr, elem_of_cons; tauto).
        destruct (decide (k' ∈ removed_ b')), (decide (k' ∈ removed_ b)); tauto. }
    rewrite !row_state_insert by (rewrite ?length_insert; by eapply lookup_lt_Some).
    destruct (decide (j = tgt)) as [->|Hjt]; [rewrite decide_False by done; rewrite Hg by done; unfold row_state; by rewrite Hs|].
    case_decide; [done|]. by apply Hg.
  - intros a c dir. rewrite Hm, elem_of_app, list_elem_of_singleton. intros [Hmv|[= -> -> ->]]; [|split_and!; [done|by apply Hin|done]].
    destruct (H2 a c dir Hmv) as (? & ? & ?). split_and!; [done|by apply Hin..].
Qed.

Lemma aligned_swap d st ids b b' i j x y : aligned d st ids b → i ≠ j → ids !! i = Some x → ids !! j = Some y → i ∉ removed_ b → j ∉ removed_ b →
  removed_ b' = removed_ b → added b' = added b → moved b' = moved b ++ [(i, j, SWAP)] → aligned d st (<[j := x]> (<[i := y]> ids)) b'.
Proof.
  intros [H1 H2] Hij Hi Hj Hni Hnj Hr Ha Hm. split.
  - intros k. assert (pending_states b' d = (move_entry (i, j, SWAP) (pending_states b d, false)).1) as ->.
    { unfold pending_states. rewrite Hr, Ha, Hm, run_entries_snoc. destruct (run_entries move_entry (moved b) _) as [e u]. exact (moves_flag [(i, j, SWAP)] e u false). }
    rewrite lookup_move_entry, !H1 by done. rewrite !row_state_insert by (rewrite ?length_insert; by eapply lookup_lt_Some).
    unfold row_state. repeat (case_decide; subst); simplify_eq; rewrite ?Hi, ?Hj; done.
  - intros a c dir. rewrite Hm, Hr, elem_of_app, list_elem_of_singleton. intros [Hmv|[= -> -> ->]]; [by apply (H2 a c dir)|done].
Qed.

(** Every change keeps the processors in step. *)
Lemma aligned_edit d st p q : edit p q → aligned d st p.1 p.2 → aligned d st q.1 q.2.
Proof.
  intros He Hal. destruct He as [ids b b' Hr Ha Hm|ids b b' i id|ids b b' src tgt id|ids b b' i j x y|ids b n Hn]; simpl in *;
    [|by eapply aligned_remove|by eapply aligned_move|by eapply aligned_swap|]; destruct Hal as [H1 H2].
  - split; [intros i; rewrite <-H1|intros a c dir; rewrite Hm, <-Hr; apply H2].
    destruct (pending_base b d) as (e & u & Eb & E), (pending_base b' d) as (e' & u' & Eb' & E'). rewrite E, E', Hm, (moves_flag _ e' u' u).
    assert (e' = e) as ->; [|done]. apply map_eq. intros j. rewrite Eb, Eb', Ha. destruct (decide (j ∈ removed_ b)) as [Hj|Hj];
      [by rewrite decide_True by (by rewrite <-Hr)|by rewrite decide_False by (by rewrite <-Hr)].
  - split; [|done]. intros i. rewrite H1. unfold row_state. destruct (decide (i < n)%nat); [by rewrite lookup_take_lt by lia|].
    rewrite lookup_take_ge by lia. destruct (ids !! i) as [[id|]|] eqn:Hi; [|done..]. by destruct (Hn i id ltac:(lia)).
Qed.
Lemma aligned_edits d st p q : rtc edit p q → aligned d st p.1 p.2 → aligned d st q.1 q.2.
Proof. induction 1 as [|p q r He _ IH]; [done|]. intros Hal. by eapply IH, aligned_edit. Qed.

(** A request is added at the row [i], which is empty or new. *)
Lemma aligned_add d st st' ids ids' b b' x i : aligned d st ids b → moved b = [] → moved b' = [] → added b' = added b ++ [x] → added_index x = i →
  i ∉ removed_ b' → (∀ j, j ≠ i → j ∈ removed_ b ↔ j ∈ removed_ b') → ids' !! i = Some (Some (added_output x)) → (∀ j, j ≠ i → ids' !! j = ids !! j) →
  (∀ j id, j ≠ i → ids !! j = Some (Some id) → st' id = st id) → st' (added_output x) = new_state (added_params x) (added_prompt x) (added_output x) → aligned d st' ids' b'.
Proof.
  intros [H1 H2] Hm Hm' Ha Hx Hi Hr Hids Hids' Hst Hnew. split; [|by intros a c dir; rewrite Hm'; intros ?%elem_of_nil].
  intros j. rewrite pending_without, Ha, run_entries_snoc by done. destruct (run_entries (add_entry new_state) (added b) (d, false)) as [e u] eqn:E.
  rewrite lookup_add_entry, Hx. destruct (decide (j = i)) as [->|Hj].
  - rewrite decide_False by done. unfold row_state. by rewrite Hids.
  - specialize (H1 j). rewrite pending_without, E in H1 by done. simpl in H1. assert (row_state ids' st' j = row_state ids st j) as ->.
    { unfold row_state. rewrite Hids' by done. destruct (ids !! j) as [[id|]|] eqn:Hid; [|done..]. by eapply Hst. }
    rewrite <-H1. destruct (decide (j ∈ removed_ b)) as [Hc|Hc]; [by rewrite decide_True by (by apply Hr)|by rewrite decide_False by (by rewrite <-Hr)].
Qed.

(** Only the states of requests with a row matter. *)
Lemma aligned_ext d st st' ids b : (∀ i id, ids !! i = Some (Some id) → st' id = st id) → aligned d st ids b → aligned d st' ids b.
Proof.
  intros Hst [H1 H2]. split; [|done]. intros i. rewrite H1. unfold row_state. destruct (ids !! i) as [[id|]|] eqn:Hi; [|done..]. symmetry. by eapply Hst.
Qed.

(** Processing the changes. *)
Lemma process_pending b d n : (process_dict_updates new_state truthy d (Some (mkBatchUpdate n (removed_ b) (added b) (moved b)))).1 = pending_states b d.
Proof.
  unfold process_dict_updates, pending_states. simpl. destruct (run_entries (add_entry new_state) (added b) (d, false)) as [e u]. case_decide as He; [|done].
  subst e. simpl. destruct (run_entries (remove_entry truthy) (removed_ b) (∅, u)) as [e v] eqn:E. assert (e = ∅) as ->.
  { apply map_eq. intros j. assert (e = (run_entries (remove_entry truthy) (removed_ b) (∅, u)).1) as -> by (by rewrite E).
    rewrite lookup_remove_entries, lookup_empty. by case_decide. }
  symmetry. clear. revert v. induction (moved b) as [|[[a c] dir] l IH]; intros v; [done|]. rewrite run_entries_cons. unfold move_entry at 2, pop_entry. simpl.
  rewrite !delete_empty, !lookup_empty. apply IH.
Qed.
End follow.
