(* ===== verification/InputBatchInv.v ===== *)
(** The persistent batch as a finite map: every row holds exactly what the request of the row
    has, whatever was added, removed, moved and swapped. *)
From S2P Require Import Prelude BlockTable SlotMapping InputBatch.
From stdpp Require Import sorting.
From Stdlib Require Import SpecFloat.
Local Open Scope Z_scope.

(** ** The tables of all groups *)

Definition tables_inv (n : nat) (widths : list nat) (ts : MultiGroupBlockTable) : Prop := Forall2 (table_ok n) widths ts.
Definition tables_row (ts : MultiGroupBlockTable) (i : nat) (ids : list (list Z)) : Prop :=
  Forall2 (λ t l, bt_row t i = to_logical_blocks t l) ts ids.

(** Blocks that a row has room for. *)
Definition row_fits (width : nat) (t : BlockTable) (ids : list Z) : Prop :=
  logical_fits t ids ∧ (length (to_logical_blocks t ids) ≤ width)%nat.
Definition tables_fit (widths : list nat) (ts : MultiGroupBlockTable) (ids : list (list Z)) : Prop :=
  Forall2 (λ wt l, row_fits wt.1 wt.2 l) (zip widths ts) ids.

Lemma logical_same t t' ids : same_format t t' → to_logical_blocks t' ids = to_logical_blocks t ids.
Proof. intros H. unfold to_logical_blocks. by rewrite (sf_hybrid _ _ H), (sf_split _ _ H). Qed.

Lemma fits_same w t t' ids : same_format t t' → row_fits w t ids → row_fits w t' ids.
Proof. intros H. unfold row_fits, logical_fits. by rewrite (logical_same _ _ _ H). Qed.

Lemma tables_fit_same widths ts ts' ids : Forall2 same_format ts ts' → tables_fit widths ts ids → tables_fit widths ts' ids.
Proof.
  intros H. revert widths ids. unfold tables_fit. induction H as [|t t' ts ts' Ht _ IH]; intros [|w ws] ids Hf; simpl in *; try done.
  inversion Hf as [|? l ? ls Hl Hls]; subst. constructor; [by apply (fits_same _ t)|by apply IH].
Qed.

(** An operation on every table. *)
Lemma mapM_tables n widths ts (f : BlockTable → outcome BlockTable) (P : BlockTable → BlockTable → Prop) :
  tables_inv n widths ts → (∀ w t, table_ok n w t → ∃ t', f t = Ret t' ∧ table_ok n w t' ∧ same_format t t' ∧ P t t') →
  ∃ ts', mapM f ts = Ret ts' ∧ tables_inv n widths ts' ∧ Forall2 same_format ts ts' ∧ Forall2 P ts ts'.
Proof.
  intros H Hf. induction H as [|w t ws ts Ht _ IH]; [exists []; split_and!; [done|constructor..]|].
  destruct IH as (ts' & E & H1 & H2 & H3). destruct (Hf w t Ht) as (t' & E' & H4 & H5 & H6). exists (t' :: ts'). simpl. rewrite E'. simpl. rewrite E.
  split_and!; [done|by constructor..].
Qed.
Lemma each_tables n widths ts ids (f : list Z → BlockTable → outcome BlockTable) (Q : nat → BlockTable → list Z → Prop)
    (P : BlockTable → list Z → BlockTable → Prop) :
  tables_inv n widths ts → Forall2 (λ wt l, Q wt.1 wt.2 l) (zip widths ts) ids →
  (∀ w t l, table_ok n w t → Q w t l → ∃ t', f l t = Ret t' ∧ table_ok n w t' ∧ same_format t t' ∧ P t l t') →
  ∃ ts', each_group f ids ts = Ret ts' ∧ tables_inv n widths ts' ∧ Forall2 same_format ts ts' ∧ Forall2 (λ tl t', P tl.1 tl.2 t') (zip ts ids) ts'.
Proof.
  intros H. revert ids. induction H as [|w t ws ts Ht _ IH]; intros ids HQ Hf; [exists []; split; [done|split; [constructor|split; constructor]]|].
  simpl in HQ. inversion HQ as [|? l ? ls Hl Hls]; subst. destruct (IH ls Hls Hf) as (ts' & E & H1 & H2 & H3).
  destruct (Hf w t l Ht Hl) as (t' & E' & H4 & H5 & H6). exists (t' :: ts'). simpl. rewrite E'. simpl. rewrite E.
  split_and!; [done|by constructor..].
Qed.

(** Rows after an operation that kept or set them. *)
Lemma tables_row_same ts ts' i j ids : Forall2 same_format ts ts' → Forall2 (λ t t', bt_row t' j = bt_row t i) ts ts' →
  tables_row ts i ids → tables_row ts' j ids.
Proof.
  unfold tables_row. intros Hf. revert ids. induction Hf as [|t t' ts ts' Ht _ IH]; intros ids Hp Hr; inversion Hr; subst; [constructor|].
  inversion Hp; subst. constructor; [|by apply IH]. rewrite (logical_same _ _ _ Ht). congruence.
Qed.

Lemma kept_rows ts ts' ids i (P : BlockTable * list Z → BlockTable → Prop) : Forall2 same_format ts ts' →
  Forall2 (λ tl t', P tl t' ∧ ∀ j, j ≠ i → bt_row t' j = bt_row tl.1 j) (zip ts ids) ts' →
  ∀ j l, j ≠ i → tables_row ts j l → tables_row ts' j l.
Proof.
  intros H2 H3 j l Hj Hr. eapply (tables_row_same ts ts' j j); [done| |done]. clear l Hr. revert ids H3.
  induction H2 as [|t t' ts ts' _ _ IH]; intros ids H3; [constructor|]. destruct ids as [|x ids]; [by inversion H3|].
  inversion H3 as [|? ? ? ? [_ Hx]]; subst. constructor; [by apply Hx|by eapply IH].
Qed.

Section tables.
Context (n : nat) (widths : list nat).
Implicit Types ts : MultiGroupBlockTable.

Lemma mg_add_row_ok ts i ids : tables_inv n widths ts → (i < n)%nat → tables_fit widths ts ids →
  ∃ ts', mg_add_row ids i ts = Ret ts' ∧ tables_inv n widths ts' ∧ Forall2 same_format ts ts' ∧ tables_row ts' i ids ∧
    ∀ j l, j ≠ i → tables_row ts j l → tables_row ts' j l.
Proof.
  intros Ht Hi Hf. destruct (each_tables n widths ts ids (λ l, add_row l i) row_fits
    (λ t l t', bt_row t' i = to_logical_blocks t l ∧ ∀ j, j ≠ i → bt_row t' j = bt_row t j) Ht Hf) as (ts' & E & H1 & H2 & H3).
  { intros w t l Hok [Hl1 Hl2]. destruct (add_row_ok t i l Hok Hi Hl1 Hl2) as (t' & ? & ? & ? & ? & ?). eauto 10. }
  exists ts'. split_and!; [done|done|done| |].
  - clear E Ht Hi. unfold tables_row, tables_fit in *. assert (length ids = length ts) as Hlen.
    { apply Forall2_length in Hf, H1, H2. rewrite length_zip in Hf. lia. }
    clear Hf H1. revert ids H3 Hlen. induction H2 as [|t t' ts ts' Hsf _ IH]; intros [|x ids] H3 Hlen; try done.
    inversion H3 as [|? ? ? ? [Hx _]]; subst. constructor; [by rewrite (logical_same t)|]. apply IH; [done|by injection Hlen].
  - exact (kept_rows ts ts' ids i (λ tl t', bt_row t' i = to_logical_blocks tl.1 tl.2) H2 H3).
Qed.

(** Blocks that a row has room for behind those it holds. *)
Definition tables_more (ts : MultiGroupBlockTable) (i : nat) (ids : list (list Z)) : Prop :=
  Forall2 (λ wt l, logical_fits wt.2 l ∧ (length (bt_row wt.2 i) + length (to_logical_blocks wt.2 l) ≤ wt.1)%nat) (zip widths ts) ids.

Lemma logical_app t l k : to_logical_blocks t (l ++ k) = to_logical_blocks t l ++ to_logical_blocks t k.
Proof. unfold to_logical_blocks. destruct (bt_use_hybrid_blocks t); [|done]. by rewrite fmap_app, concat_app. Qed.

(** A row with room for more blocks. *)
Lemma tables_fit_more ts i held ids : tables_row ts i held → length ids = length ts → tables_fit widths ts (zip_with app held ids) → tables_more ts i ids.
Proof.
  unfold tables_row, tables_fit, tables_more. intros H. revert ids. generalize widths as ws. induction H as [|t l ts ls Ht _ IH]; intros ws [|x ids] Hl Hf; try done; [by destruct ws|].
  destruct ws as [|w ws]; simpl in *; [by inversion Hf|]. inversion Hf as [|? ? ? ? [F1 F2] Hfs]; subst. cbn [fst snd] in F1, F2. unfold logical_fits in F1.
  rewrite logical_app in F1, F2. apply Forall_app in F1 as [_ F1]. rewrite length_app in F2. constructor; [|apply IH; [by injection Hl|done]]. cbn [fst snd].
  split; [done|]. rewrite Ht. lia.
Qed.

Lemma mg_append_row_ok ts i held ids : tables_inv n widths ts → (i < n)%nat → tables_more ts i ids → tables_row ts i held →
  ∃ ts', mg_append_row ids i ts = Ret ts' ∧ tables_inv n widths ts' ∧ Forall2 same_format ts ts' ∧ tables_row ts' i (zip_with app held ids) ∧
    ∀ j l, j ≠ i → tables_row ts j l → tables_row ts' j l.
Proof.
  intros Ht Hi Hf Hheld. destruct (each_tables n widths ts ids (λ l, append_row l i)
    (λ w t l, logical_fits t l ∧ (length (bt_row t i) + length (to_logical_blocks t l) ≤ w)%nat)
    (λ t l t', bt_row t' i = bt_row t i ++ to_logical_blocks t l ∧ ∀ j, j ≠ i → bt_row t' j = bt_row t j) Ht Hf) as (ts' & E & H1 & H2 & H3).
  { intros w t l Hok [Hl1 Hl2]. destruct (append_row_ok t i l Hok Hi Hl1 Hl2) as (t' & ? & ? & ? & ? & ?). eauto 10. }
  exists ts'. split_and!; [done|done|done| |].
  - clear E Ht Hi. unfold tables_row in *. assert (length ids = length ts) as Hlen.
    { apply Forall2_length in Hf, H1, H2. rewrite length_zip in Hf. lia. }
    clear Hf H1. revert ids held H3 Hheld Hlen. induction H2 as [|t t' ts ts' Hsf _ IH]; intros [|x ids] held H3 Hheld Hlen; try done; [inversion Hheld; subst; constructor|].
    + inversion Hheld as [|? h ? hs Hh Hhs]; subst. inversion H3 as [|? ? ? ? [Hx _]]; subst. constructor.
      * cbn [fst snd] in Hx. rewrite Hx, Hh, !(logical_same t t'), logical_app by done. done.
      * apply IH; [done|done|by injection Hlen].
  - exact (kept_rows ts ts' ids i (λ tl t', bt_row t' i = bt_row tl.1 i ++ to_logical_blocks tl.1 tl.2) H2 H3).
Qed.

Lemma mg_move_row_ok ts src tgt : tables_inv n widths ts → (src < n)%nat → (tgt < n)%nat →
  ∃ ts', mg_move_row src tgt ts = Ret ts' ∧ tables_inv n widths ts' ∧ Forall2 same_format ts ts' ∧
    (∀ l, tables_row ts src l → tables_row ts' tgt l) ∧ ∀ j l, j ≠ tgt → tables_row ts j l → tables_row ts' j l.
Proof.
  intros Ht Hs Hg. destruct (mapM_tables n widths ts (move_row src tgt) (λ t t', bt_row t' tgt = bt_row t src ∧ ∀ j, j ≠ tgt → bt_row t' j = bt_row t j) Ht)
    as (ts' & E & H1 & H2 & H3).
  { intros w t Hok. destruct (move_row_ok t src tgt Hok Hs Hg) as (t' & ? & ? & ? & ? & ?). eauto 10. }
  exists ts'. split_and!; [done|done|done| |].
  - intros l Hr. eapply (tables_row_same ts ts' src tgt); [done| |done]. eapply Forall2_impl; [exact H3|]. naive_solver.
  - intros j l Hj Hr. eapply (tables_row_same ts ts' j j); [done| |done]. eapply Forall2_impl; [exact H3|]. naive_solver.
Qed.

Lemma mg_swap_row_ok ts i j : tables_inv n widths ts → (i < n)%nat → (j < n)%nat →
  ∃ ts', mg_swap_row i j ts = Ret ts' ∧ tables_inv n widths ts' ∧ Forall2 same_format ts ts' ∧
    (∀ l, tables_row ts i l → tables_row ts' j l) ∧ (∀ l, tables_row ts j l → tables_row ts' i l) ∧
    ∀ k l, k ≠ i → k ≠ j → tables_row ts k l → tables_row ts' k l.
Proof.
  intros Ht Hi Hj. destruct (mapM_tables n widths ts (swap_row i j)
    (λ t t', bt_row t' i = bt_row t j ∧ bt_row t' j = bt_row t i ∧ ∀ k, k ≠ i → k ≠ j → bt_row t' k = bt_row t k) Ht) as (ts' & E & H1 & H2 & H3).
  { intros w t Hok. destruct (swap_row_ok t i j Hok Hi Hj) as (t' & ? & ? & ? & ? & ? & ?). eauto 10. }
  exists ts'. split_and!; [done|done|done|..]; intros; (eapply tables_row_same; [done| |done]; eapply Forall2_impl; [exact H3|]; naive_solver).
Qed.
End tables.

(** ** Empty rows *)

#[global] Instance flip_le_total : Total (flip le).
Proof. intros x y. unfold flip. lia. Qed.
#[global] Instance flip_le_trans : Transitive (flip le).
Proof. intros x y z. unfold flip. lia. Qed.

(** Descending order. *)
Abbreviation descending := (StronglySorted (flip le)).

Lemma descending_last (l : list nat) x y : descending (l ++ [x]) → y ∈ l → (x ≤ y)%nat.
Proof.
  intros H. induction l as [|z l IH]; [by intros ?%elem_of_nil|]. simpl in H. apply StronglySorted_inv in H as [H1 H2].
  intros [->|Hy]%elem_of_cons; [|by apply IH]. rewrite Forall_forall in H2. apply H2. rewrite elem_of_app, list_elem_of_singleton. by right.
Qed.

Lemma descending_init (l : list nat) x : descending (l ++ [x]) → descending l.
Proof.
  induction l as [|z l IH]; intros H; [constructor|]. simpl in H. apply StronglySorted_inv in H as [H1 H2]. constructor; [by apply IH|].
  by apply Forall_app in H2 as [? _].
Qed.

Lemma ensured b : (is_removed_sorted b = true → descending (removed_ b)) →
  ∃ l, ensure_removed_sorted b = set_removed l true b ∧ l ≡ₚ removed_ b ∧ descending l.
Proof.
  intros Hs. unfold ensure_removed_sorted. destruct (is_removed_sorted b) eqn:Hb.
  - exists (removed_ b). split_and!; [|done|by apply Hs]. destruct b; simpl in *; by subst.
  - exists (sort_descending (removed_ b)). split_and!; [done| |].
    + apply merge_sort_Permutation.
    + apply StronglySorted_merge_sort; apply _.
Qed.

(** [pop_removed] takes the lowest empty row. *)
Lemma pop_removed_spec b : (is_removed_sorted b = true → descending (removed_ b)) → removed_ b ≠ [] →
  ∃ l x, pop_removed b = (Ret (Some x), set_removed l true b) ∧ removed_ b ≡ₚ l ++ [x] ∧ descending (l ++ [x]).
Proof.
  intros Hs Hne. destruct (ensured b Hs) as (l & He & Hl & Hd). unfold pop_removed, gets, modify, mbind, M_bind. simpl.
  destruct (removed_ b) as [|y r] eqn:Hr; [done|]. rewrite He. simpl.
  destruct l as [|x l _] using rev_ind; [by apply Permutation_nil_cons in Hl|]. exists l, x. split_and!; [|done|done].
  rewrite length_app, last_snoc. simpl. rewrite Nat.add_sub, take_app_length. done.
Qed.

Lemma peek_removed_spec b : (is_removed_sorted b = true → descending (removed_ b)) → removed_ b ≠ [] →
  ∃ l x, peek_removed b = (Ret (Some x), set_removed (l ++ [x]) true b) ∧ removed_ b ≡ₚ l ++ [x] ∧ descending (l ++ [x]).
Proof.
  intros Hs Hne. destruct (ensured b Hs) as (l & He & Hl & Hd). unfold peek_removed, gets, modify, mbind, M_bind. simpl.
  destruct (removed_ b) as [|y r] eqn:Hr; [done|]. rewrite He. simpl.
  destruct l as [|x l _] using rev_ind; [by apply Permutation_nil_cons in Hl|]. exists l, x. split_and!; [by rewrite last_snoc|done|done].
Qed.

(** Rows are taken or empty. *)
Lemma index_count (l : list (option string)) (m : gmap string nat) (r : list nat) :
  (∀ id i, m !! id = Some i ↔ l !! i = Some (Some id)) → NoDup r → (∀ i, i ∈ r ↔ l !! i = Some None) → (size m + length r = length l)%nat.
Proof.
  intros Hm Hr Hl. rewrite <-length_map_to_list, <-(length_fmap snd), <-length_app, <-(length_seq (length l) 0). apply Permutation_length, NoDup_Permutation.
  - apply NoDup_app. split_and!; [|intros i (x & -> & Hx)%list_elem_of_fmap Hin|done].
    + apply NoDup_fmap_2_strong; [|apply NoDup_map_to_list]. intros [a i] [b j] Ha%elem_of_map_to_list Hb%elem_of_map_to_list Hij. simpl in *. subst j.
      apply Hm in Ha, Hb. congruence.
    + destruct x as [id i]. apply elem_of_map_to_list, Hm in Hx. apply Hl in Hin. simpl in *. congruence.
  - apply NoDup_seq.
  - intros i. rewrite elem_of_app, list_elem_of_fmap, elem_of_seq, Hl. split.
    + intros [([id j] & -> & Hx)|Hn]; [apply elem_of_map_to_list, Hm in Hx; apply lookup_lt_Some in Hx; simpl; lia|apply lookup_lt_Some in Hn; lia].
    + intros [_ Hlt]. destruct (lookup_lt_is_Some_2 l i Hlt) as [[id|] Hi]; [left|by right]. exists (id, i). split; [done|]. by apply elem_of_map_to_list, Hm.
Qed.

(** ** The batch *)

(** The draft tokens of a request: written behind its tokens at the start of a step, until
    sampled tokens take their place. *)
Inductive Drafts := Written (l : list Z) | Stale (l : list Z).
Definition dr_list (d : Drafts) : list Z := match d with Written l | Stale l => l end.
Definition dr_tokens (d : Drafts) : list Z := match d with Written l => l | Stale _ => [] end.
(** A request of the batch, with the draft tokens of the step. *)
Abbreviation Entry := (CachedRequestState * Drafts)%type.
Definition entry_tokens (e : Entry) : list Z := st_prompt_token_ids e.1 ++ st_output_token_ids e.1 ++ dr_tokens e.2.

(** What a row has of its request. With [masks] the mask of allowed tokens is part of it; swapped
    rows lose it. *)
Record row_ok (masks : bool) (v : Z) (e : Entry) (row : Row) : Prop := {
  ro_prompt : num_prompt_tokens row = Z.of_nat (length (st_prompt_token_ids e.1));
  ro_count : num_tokens_no_spec row = st_num_tokens e.1;
  ro_computed : num_computed_tokens_cpu row = st_num_computed_tokens e.1;
  ro_tokens : take (length (entry_tokens e)) (token_ids_cpu row) = entry_tokens e;
  ro_sampling : ∃ p, st_sampling_params e.1 = Some p ∧ row_sampling row = sampling_row v p (num_accepted_tokens_cpu (row_sampling row)) ∧
    bad_words row = truthy_list (bad_words_token_ids p) ∧
    (masks = true → ∀ l, truthy_list (allowed_token_ids p) = Some l → allowed_token_ids_mask row = Some l);
  ro_generator : generator row = st_generator e.1;
}.
Definition free_row (row : Row) : Prop := generator row = None ∧ bad_words row = None.

(** The ids of the requests of one kind. *)
Definition kind_of (live : gmap string Entry) (test : BatchSampling → bool) (X : gset string) : Prop :=
  ∀ id, id ∈ X ↔ ∃ e p, live !! id = Some e ∧ st_sampling_params e.1 = Some p ∧ test p = true.
Record kinds_ok (v : Z) (live : gmap string Entry) (k : Kinds) : Prop := {
  ko_greedy : kind_of live (λ p, bool_decide (sampling_type p = GREEDY)) (greedy_reqs k);
  ko_random : kind_of live (λ p, negb (bool_decide (sampling_type p = GREEDY))) (random_reqs k);
  ko_top_p : kind_of live (λ p, SFltb (top_p p) (float_of_Z 1)) (top_p_reqs k);
  ko_top_k : kind_of live (λ p, (0 <? top_k p) && (top_k p <? v)) (top_k_reqs k);
  ko_frequency : kind_of live (λ p, negb (SFeqb (frequency_penalty p) (float_of_Z 0))) (frequency_penalties_reqs k);
  ko_presence : kind_of live (λ p, negb (SFeqb (presence_penalty p) (float_of_Z 0))) (presence_penalties_reqs k);
  ko_repetition : kind_of live (λ p, negb (SFeqb (repetition_penalty p) (float_of_Z 1))) (repetition_penalties_reqs k);
  ko_allowed : kind_of live (λ p, match allowed_token_ids p with Some (_ :: _) => true | _ => false end) (has_allowed_token_ids k);
  ko_logprobs : ∀ id n, num_logprobs k !! id = Some n ↔
    ∃ e p m, live !! id = Some e ∧ st_sampling_params e.1 = Some p ∧ logprobs p = Some m ∧ n = if m =? -1 then v else m;
}.

Lemma kind_add live test X id (e : Entry) p : live !! id = None → st_sampling_params e.1 = Some p → kind_of live test X →
  kind_of (<[id := e]> live) test (add_if (test p) id X).
Proof.
  intros Hid Hp HX x. assert (x ∈ add_if (test p) id X ↔ (x = id ∧ test p = true) ∨ x ∈ X) as ->.
  { unfold add_if. destruct (test p); set_solver. }
  rewrite (HX x). destruct (decide (x = id)) as [->|Hx].
  - rewrite lookup_insert_eq. split; [intros [[_ Ht]|(e' & p' & Hl & _)]; [by exists e, p|congruence]|intros (e' & p' & [= <-] & Hp' & Ht)].
    left. split; [done|]. congruence.
  - rewrite lookup_insert_ne by done. naive_solver.
Qed.
Lemma kind_remove live test X id : kind_of live test X → kind_of (delete id live) test (X ∖ {[id]}).
Proof.
  intros HX x. rewrite elem_of_difference, elem_of_singleton, (HX x). destruct (decide (x = id)) as [->|Hx].
  - rewrite lookup_delete_eq. split; [naive_solver|]. by intros (? & ? & ? & _).
  - rewrite lookup_delete_ne by done. naive_solver.
Qed.

Lemma kinds_add_ok v live k id (e : Entry) p : live !! id = None → st_sampling_params e.1 = Some p → kinds_ok v live k →
  kinds_ok v (<[id := e]> live) (kinds_add v id p k).
Proof.
  intros Hid Hp []. split; try by (unfold kinds_add; apply kind_add).
  - apply (kind_add live (λ p, bool_decide (sampling_type p = GREEDY))); done.
  - apply (kind_add live (λ p, negb (bool_decide (sampling_type p = GREEDY)))); done.
  - apply (kind_add live (λ p, SFltb (top_p p) (float_of_Z 1))); done.
  - apply (kind_add live (λ p, (0 <? top_k p) && (top_k p <? v))); done.
  - apply (kind_add live (λ p, negb (SFeqb (frequency_penalty p) (float_of_Z 0)))); done.
  - apply (kind_add live (λ p, negb (SFeqb (presence_penalty p) (float_of_Z 0)))); done.
  - apply (kind_add live (λ p, negb (SFeqb (repetition_penalty p) (float_of_Z 1)))); done.
  - apply (kind_add live (λ p, match allowed_token_ids p with Some (_ :: _) => true | _ => false end)); done.
  - intros x n. simpl. assert (num_logprobs k !! id = None) as Hnone.
    { apply eq_None_not_Some. intros [m Hm]. apply ko_logprobs0 in Hm as (? & ? & ? & ? & _). congruence. }
    destruct (decide (x = id)) as [->|Hx].
    + rewrite lookup_insert_eq. destruct (logprobs p) as [m|] eqn:Hm.
      * rewrite lookup_insert_eq. split; [intros [= <-]; by exists e, p, m|intros (e' & p' & m' & [= <-] & Hp' & Hm' & ->)].
        assert (p' = p) as -> by congruence. by assert (m' = m) as -> by congruence.
      * rewrite Hnone. split; [done|]. intros (? & ? & ? & [= <-] & ? & ? & _). congruence.
    + rewrite lookup_insert_ne by done. rewrite <-ko_logprobs0. destruct (logprobs p); [by rewrite lookup_insert_ne|done].
Qed.
Lemma kinds_remove_ok v live k id : kinds_ok v live k → kinds_ok v (delete id live) (kinds_remove id k).
Proof.
  intros []. split; try by apply kind_remove. intros x n. simpl. destruct (decide (x = id)) as [->|Hx].
  - rewrite !lookup_delete_eq. split; [done|by intros (? & ? & ? & ? & _)].
  - rewrite !lookup_delete_ne by done. apply ko_logprobs0.
Qed.

(** Only the parameters matter. *)
Lemma kinds_same v live live' k :
  (∀ id, (λ e : Entry, st_sampling_params e.1) <$> live !! id = (λ e : Entry, st_sampling_params e.1) <$> live' !! id) → kinds_ok v live k → kinds_ok v live' k.
Proof.
  intros Hs. assert (∀ id (Q : option BatchSampling → Prop), (∃ e : Entry, live !! id = Some e ∧ Q (st_sampling_params e.1)) ↔ (∃ e : Entry, live' !! id = Some e ∧ Q (st_sampling_params e.1))) as Hex.
  { intros id Q. specialize (Hs id). destruct (live !! id) as [e|], (live' !! id) as [e'|]; simplify_eq/=; [|naive_solver]. split; intros (x & [= <-] & HQ); eexists; (split; [done|]); congruence. }
  assert (∀ test X, kind_of live test X → kind_of live' test X) as Hk.
  { intros test X HX id. rewrite (HX id). specialize (Hex id (λ o, ∃ p, o = Some p ∧ test p = true)). naive_solver. }
  intros []. split; try by apply Hk. intros id n. rewrite ko_logprobs0.
  specialize (Hex id (λ o, ∃ p m, o = Some p ∧ logprobs p = Some m ∧ n = if m =? -1 then v else m)). naive_solver.
Qed.
