(* ===== verification/BatchOps.v ===== *)
(** The operations of the persistent batch against the finite map of its requests. *)
From S2P Require Import Prelude BlockTable SlotMapping InputBatch LogitsUpdate InputBatchInv.
From stdpp Require Import sorting.
From Stdlib Require Import SpecFloat.
Local Open Scope Z_scope.

(** The sizes of the arrays, the vocabulary, the tables as they were made, and whether masks are
    kept with their requests. *)
Record Shape := mkShape { sh_limit : nat; sh_len : nat; sh_vocab : Z; sh_widths : list nat; sh_tables : MultiGroupBlockTable; sh_masks : bool }.

Record held (sh : Shape) (s : IB) (i : nat) (id : string) (e : Entry) : Prop := {
  he_id : st_req_id e.1 = id;
  he_specs : spec_token_ids s !! i = Some (dr_list e.2);
  he_blocks : tables_row (block_table s) i (st_block_ids e.1);
  he_row : ∃ row, rows s !! i = Some row ∧ row_ok (sh_masks sh) (sh_vocab sh) e row;
}.

Record batch_inv (sh : Shape) (live : gmap string Entry) (s : IB) : Prop := {
  bi_limit : max_num_reqs s = sh_limit sh;
  bi_vocab : vocab_size s = sh_vocab sh;
  bi_rows : length (rows s) = sh_limit sh ∧ Forall (λ r, length (token_ids_cpu r) = sh_len sh) (rows s);
  bi_tables : tables_inv (sh_limit sh) (sh_widths sh) (block_table s);
  bi_format : Forall2 same_format (sh_tables sh) (block_table s);
  bi_index : ∀ id i, req_id_to_index s !! id = Some i ↔ req_ids s !! i = Some (Some id);
  bi_len : (length (req_ids s) ≤ sh_limit sh)%nat;
  bi_outputs : req_output_token_ids s = req_ids s;
  bi_removed : NoDup (removed_ (batch_update_builder s)) ∧ ∀ i, i ∈ removed_ (batch_update_builder s) ↔ req_ids s !! i = Some None;
  bi_sorted : is_removed_sorted (batch_update_builder s) = true → descending (removed_ (batch_update_builder s));
  bi_specs : (length (req_ids s) ≤ length (spec_token_ids s))%nat ∧ ∀ i x, (length (req_ids s) ≤ i)%nat → spec_token_ids s !! i = Some x → x = [];
  bi_live : ∀ id, is_Some (req_id_to_index s !! id) ↔ is_Some (live !! id);
  bi_held : ∀ id i e, req_id_to_index s !! id = Some i → live !! id = Some e → held sh s i id e;
  bi_free : ∀ i row, rows s !! i = Some row → (∀ id, req_ids s !! i ≠ Some (Some id)) → free_row row;
  bi_kinds : kinds_ok (sh_vocab sh) live (kinds s);
}.

(** Rules for reading and writing the lists of the batch. *)
Lemma wp_get_at {A} (f : IB → list A) i x Q E s : f s !! i = Some x → Q x s → wp (get_at f i) Q E s.
Proof. intros H HQ. unfold get_at. wp_steps. eapply wp_of_outcome; [by apply np_get_Some|done]. Qed.
Lemma wp_set_at {A} (set : (list A → list A) → IB → IB) get i (x : A) Q E s : (i < length (get s))%nat →
  Q tt (set (λ _, <[i := x]> (get s)) s) → wp (set_at set get i x) Q E s.
Proof. intros H HQ. unfold set_at. wp_steps. eapply wp_of_outcome; [by apply np_set_lt|]. by wp_steps. Qed.
Lemma wp_upd_row i f r Q E s : rows s !! i = Some r → Q tt (set_row_list (λ _, <[i := f r]> (rows s)) s) → wp (upd_row i f) Q E s.
Proof.
  intros H HQ. unfold upd_row. apply wp_bind. eapply wp_get_at; [done|]. apply wp_set_at; [|done]. by eapply lookup_lt_Some.
Qed.
Lemma wp_write_tokens i start xs r Q E s : rows s !! i = Some r → (Z.to_nat start + length xs ≤ length (token_ids_cpu r))%nat →
  Q tt (set_row_list (λ _, <[i := set_row_tokens (take (Z.to_nat start) (token_ids_cpu r) ++ xs ++ drop (Z.to_nat start + length xs) (token_ids_cpu r)) r]> (rows s)) s) →
  wp (write_tokens i start xs) Q E s.
Proof.
  intros H Hf HQ. unfold write_tokens. apply wp_bind. eapply wp_get_at; [done|]. apply wp_bind. eapply wp_of_outcome; [by apply np_write_fits|].
  by eapply wp_upd_row.
Qed.
Lemma wp_on_table f ts' Q E s : f (block_table s) = Ret ts' → Q tt (set_table ts' s) → wp (on_table f) Q E s.
Proof. intros H HQ. unfold on_table. wp_steps. eapply wp_of_outcome; [done|]. by wp_steps. Qed.
Lemma wp_on_builder {A} (m : M BU A) a b' Q E s : m (batch_update_builder s) = (Ret a, b') → Q a (set_builder b' s) → wp (on_builder m) Q E s.
Proof. intros H HQ. unfold on_builder. apply wp_zoom. unfold wp. by rewrite H. Qed.

Section ops.
Context (sh : Shape).
Implicit Types (live : gmap string Entry) (s : IB).
Abbreviation inv := (batch_inv sh).

Lemma inv_count live s : inv live s →
  (num_reqs s + length (removed_ (batch_update_builder s)) = length (req_ids s))%nat ∧ num_reqs s = size live.
Proof.
  intros H. pose proof (bi_removed _ _ _ H) as [H1 H2]. split; [by apply index_count; [apply (bi_index _ _ _ H)| |]|].
  unfold num_reqs. rewrite <-!size_dom. f_equal. apply set_eq. intros id. rewrite !elem_of_dom. apply (bi_live _ _ _ H).
Qed.

Lemma inv_row live s i : inv live s → (i < sh_limit sh)%nat → ∃ r, rows s !! i = Some r ∧ length (token_ids_cpu r) = sh_len sh.
Proof.
  intros H Hi. pose proof (bi_rows _ _ _ H) as [H1 H2]. destruct (lookup_lt_is_Some_2 (rows s) i) as [r Hr]; [lia|]. exists r. split; [done|].
  by apply (Forall_lookup_1 _ _ _ _ H2 Hr).
Qed.

(** Rows of different requests. *)
Lemma index_ne live s id id' i i' : inv live s → req_id_to_index s !! id = Some i → req_id_to_index s !! id' = Some i' → id ≠ id' → i ≠ i'.
Proof. intros H H1 H2 Hne ->. apply (bi_index _ _ _ H) in H1, H2. congruence. Qed.

(** A request whose row was not touched. *)
Lemma held_other s s' i id e : held sh s i id e → spec_token_ids s' !! i = spec_token_ids s !! i → rows s' !! i = rows s !! i →
  (∀ l, tables_row (block_table s) i l → tables_row (block_table s') i l) → held sh s' i id e.
Proof. intros [H1 H2 H3 H4] Hs Hr Ht. split; [done|by rewrite Hs|by apply Ht|by rewrite Hr]. Qed.

(** *** Removing *)

(** The rows and the recorded changes. *)
Definition layout (s : IB) : list (option string) * BU := (req_ids s, batch_update_builder s).

Lemma wp_remove_request live s id E : inv live s → is_removed_sorted (batch_update_builder s) = false → moved (batch_update_builder s) = [] →
  wp (ib_remove_request id) (λ o s', inv (delete id live) s' ∧ is_removed_sorted (batch_update_builder s') = false ∧
    moved (batch_update_builder s') = [] ∧ rtc edit (layout s) (layout s')) E s.
Proof.
  intros H Hsort Hmoved. unfold ib_remove_request. wp_steps. destruct (req_id_to_index s !! id) as [i|] eqn:Hi.
  2:{ wp_steps. split_and!; [|done|done|reflexivity]. rewrite delete_id; [done|]. apply eq_None_not_Some. rewrite <-(bi_live _ _ _ H), Hi. by intros [? ?]. }
  assert (is_Some (live !! id)) as Hlive by (apply (bi_live _ _ _ H); rewrite Hi; eauto).
  pose proof (proj1 (bi_index _ _ _ H _ _) Hi) as Hid. pose proof (lookup_lt_Some _ _ _ Hid) as Hlt. pose proof (bi_len _ _ _ H) as Hlen.
  destruct (inv_row live s i H ltac:(lia)) as (r & Hr & Hrl). destruct (lookup_lt_is_Some_2 (spec_token_ids s) i) as [x Hx]; [pose proof (bi_specs _ _ _ H); lia|].
  pose proof (bi_outputs _ _ _ H) as Hout.
  wp_steps. eapply wp_on_builder. { unfold removed_append, gets, modify, mbind, M_bind. simpl. rewrite Hsort. reflexivity. }
  wp_step. apply wp_set_at; [simpl; lia|]. wp_step. apply wp_set_at; [simpl; rewrite Hout; lia|].
  wp_step. eapply wp_get_at; [simpl; exact Hx|]. wp_step. apply wp_set_at; [simpl; by eapply lookup_lt_Some|].
  wp_steps. eapply wp_upd_row; [simpl; exact Hr|]. wp_steps. split; [|simpl; split_and!; [done|done|by apply rtc_once, (edit_remove _ _ _ i id)]].
  destruct H as [I1 I2 [I3 I3'] I4 I5 I6 I7 I8 [I9 I9'] I10 [I11 I11'] I12 I13 I14 I15].
  assert (∀ id' i', delete id (req_id_to_index s) !! id' = Some i' → id' ≠ id ∧ i' ≠ i ∧ req_id_to_index s !! id' = Some i') as Hdel.
  { intros id' i' Hd. apply lookup_delete_Some in Hd as [Hne Hd]. split_and!; [done| |done]. intros ->. apply I6 in Hd. congruence. }
  split; simpl; try done.
  - rewrite length_insert. split; [done|]. apply Forall_insert; [done|]. by simpl.
  - intros id' i'. split.
    + intros Hd%Hdel. destruct Hd as (Hne & Hni & Hd). rewrite list_lookup_insert_ne by done. by apply I6.
    + intros Hd. destruct (decide (i' = i)) as [->|Hne]; [by rewrite list_lookup_insert_eq in Hd|]. rewrite list_lookup_insert_ne in Hd by done. apply lookup_delete_Some.
      split; [|by apply I6]. intros <-. apply I6 in Hd. congruence.
  - by rewrite length_insert.
  - by rewrite Hout.
  - split.
    + apply NoDup_app. split_and!; [done| |apply NoDup_singleton]. intros j Hj ->%list_elem_of_singleton. apply I9' in Hj. congruence.
    + intros j. rewrite elem_of_app, list_elem_of_singleton, I9'. destruct (decide (j = i)) as [->|Hne]; [rewrite list_lookup_insert_eq by done; naive_solver|].
      rewrite list_lookup_insert_ne by done. naive_solver.
  - rewrite !length_insert. split; [done|]. intros j y Hj Hy. rewrite list_lookup_insert_ne in Hy by lia. by eapply I11'.
  - intros id'. destruct (decide (id' = id)) as [->|Hne]; [by rewrite !lookup_delete_eq|]. by rewrite !lookup_delete_ne.
  - intros id' i' e Hd He. apply Hdel in Hd as (Hne & Hni & Hd). rewrite lookup_delete_ne in He by done.
    eapply held_other; [by apply I13|..]; simpl; [by rewrite list_lookup_insert_ne|by rewrite list_lookup_insert_ne|done].
  - intros j row Hj Hfree. destruct (decide (j = i)) as [->|Hne].
    + rewrite list_lookup_insert_eq in Hj by lia. by injection Hj as <-.
    + rewrite list_lookup_insert_ne in Hj by done. apply (I14 j row Hj). intros id' Hid'. apply (Hfree id'). by rewrite list_lookup_insert_ne.
  - by apply kinds_remove_ok.
Qed.

(** *** Adding *)

(** [l[i] = x], or [l.append(x)] at the end. *)
Definition put_at {A} (i : nat) (x : A) (l : list A) : list A := if decide (i = length l) then l ++ [x] else <[i := x]> l.
Lemma lookup_put_at {A} i (x : A) l j : (i ≤ length l)%nat → put_at i x l !! j = if decide (j = i) then Some x else l !! j.
Proof.
  intros Hi. unfold put_at. case_decide; subst.
  - case_decide; subst; [by rewrite list_lookup_middle|]. destruct (decide (j < length l)%nat); [by rewrite lookup_app_l|].
    rewrite lookup_ge_None_2, (lookup_ge_None_2 l) by (rewrite ?length_app; simpl; lia). done.
  - case_decide; subst; [apply list_lookup_insert_eq; lia|by apply list_lookup_insert_ne].
Qed.
Lemma length_put_at {A} i (x : A) l : (length (put_at i x l) = if decide (i = length l) then S (length l) else length l).
Proof. unfold put_at. case_decide; [rewrite length_app; simpl; lia|by rewrite length_insert]. Qed.

(** The row that a new request gets. *)
Record gets_row (s : IB) (i : nat) (b : BU) : Prop := {
  gr_limit : (i < sh_limit sh)%nat;
  gr_end : (i ≤ length (req_ids s))%nat;
  gr_empty : ∀ id, req_ids s !! i ≠ Some (Some id);
  gr_rest : NoDup (removed_ b) ∧ ∀ j, j ∈ removed_ b ↔ j ≠ i ∧ req_ids s !! j = Some None;
  gr_sorted : is_removed_sorted b = true → descending (removed_ b);
}.
Definition recorded (s : IB) (i : nat) (r : CachedRequestState) (p : BatchSampling) (b : BU) : Prop :=
  added b = added (batch_update_builder s) ++ [mkAdded i p (st_prompt_token_ids r) (st_req_id r)] ∧ moved b = moved (batch_update_builder s).

(** [r] is in a row of its own, the other rows are as before, and so it is recorded. *)
Record added_at (s : IB) (r : CachedRequestState) (p : BatchSampling) (s' : IB) (i : nat) : Prop := {
  aa_row : req_ids s' !! i = Some (Some (st_req_id r));
  aa_other : ∀ j, j ≠ i → req_ids s' !! j = req_ids s !! j;
  aa_taken : i ∉ removed_ (batch_update_builder s');
  aa_removed : ∀ j, j ≠ i → j ∈ removed_ (batch_update_builder s) ↔ j ∈ removed_ (batch_update_builder s');
  aa_recorded : recorded s i r p (batch_update_builder s');
}.

Lemma wp_register live s r p E : inv live s → (size live < sh_limit sh)%nat → st_sampling_params r = Some p →
  wp (register_add_request r) (λ i s', ∃ b, s' = set_builder b s ∧ gets_row s i b ∧ recorded s i r p b) E s.
Proof.
  intros H Hsize Hp. destruct (inv_count live s H) as [Hcount Hnum]. pose proof (bi_removed _ _ _ H) as [Hnd Hrem]. pose proof (bi_len _ _ _ H).
  unfold register_add_request. wp_step. destruct (removed_ (batch_update_builder s)) as [|y l0] eqn:Hr.
  - eapply wp_on_builder. { unfold pop_removed, gets, mbind, M_bind. simpl. by rewrite Hr. }
    simpl in Hcount. wp_steps. unfold num_reqs in *. simpl. rewrite (bi_limit _ _ _ H). apply wp_assert; [apply Nat.ltb_lt; lia|].
    wp_step. eapply wp_on_builder; [reflexivity|]. rewrite Hp. wp_step. eapply wp_on_builder; [reflexivity|]. wp_steps. eexists. split_and!; [reflexivity| |done].
    split; simpl; rewrite ?Hr; try lia.
    + intros id Hid. apply lookup_lt_Some in Hid. lia.
    + split; [constructor|]. intros j. split; [by intros ?%elem_of_nil|]. intros [_ Hj]. by apply Hrem in Hj.
    + intros _. constructor.
  - rewrite <-Hr in *. destruct (pop_removed_spec _ (bi_sorted _ _ _ H)) as (l & x & Hpop & Hperm & Hd); [by rewrite Hr|].
    assert (x ∈ removed_ (batch_update_builder s)) as Hx by (rewrite Hperm, elem_of_app, list_elem_of_singleton; by right).
    apply Hrem in Hx. pose proof (lookup_lt_Some _ _ _ Hx). rewrite Hperm in Hnd. apply NoDup_app in Hnd as (Hnd & Hdis & _).
    eapply wp_on_builder; [exact Hpop|]. wp_steps. simpl. rewrite (bi_limit _ _ _ H). apply wp_assert; [apply Nat.ltb_lt; lia|].
    wp_step. eapply wp_on_builder; [reflexivity|]. rewrite Hp. wp_step. eapply wp_on_builder; [reflexivity|]. wp_steps. eexists. split_and!; [reflexivity| |done].
    split; simpl; try lia.
    + intros id Hid. congruence.
    + split; [done|]. intros j. rewrite <-Hrem, Hperm, elem_of_app, list_elem_of_singleton. split; [|naive_solver]. intros Hj.
      split; [|by left]. intros ->. by apply (Hdis x), list_elem_of_singleton.
    + intros _. by apply descending_init in Hd.
Qed.

(** The writes of the prompt and of the outputs leave both in the row. *)
Lemma written_tokens (row prompt output : list Z) : (length prompt + length output ≤ length row)%nat →
  let row1 := take 0 row ++ prompt ++ drop (0 + length prompt) row in
  let row2 := take (length prompt) row1 ++ output ++ drop (length prompt + length output) row1 in
  length row2 = length row ∧ take (length (prompt ++ output)) row2 = prompt ++ output.
Proof.
  intros Hl row1 row2. assert (row1 = prompt ++ drop (length prompt) row) as E1 by (unfold row1; rewrite take_0; done).
  assert (length row1 = length row) as L1 by (rewrite E1, length_app, length_drop; lia).
  assert (row2 = (prompt ++ output) ++ drop (length prompt + length output) row1) as E2.
  { unfold row2. rewrite E1 at 1. rewrite take_app_length. by rewrite <-app_assoc. }
  split; [|rewrite E2; apply take_app_length]. rewrite E2, !length_app, length_drop, L1. lia.
Qed.

(** A request that the batch has room for. *)
Record request_fits (r : CachedRequestState) : Prop := {
  rf_sampling : is_Some (st_sampling_params r);
  rf_tokens : (length (st_prompt_token_ids r) + length (st_output_token_ids r) ≤ sh_len sh)%nat;
  rf_blocks : tables_fit (sh_widths sh) (sh_tables sh) (st_block_ids r);
}.

Lemma wp_ib_add_request live s r p E : inv live s → live !! st_req_id r = None → (size live < sh_limit sh)%nat → request_fits r → st_sampling_params r = Some p →
  wp (ib_add_request r) (λ i s', inv (<[st_req_id r := (r, Written [])]> live) s' ∧ added_at s r p s' i) E s.
Proof.
  intros H Hnew Hsize [_ Htok Hblk] Hp. unfold ib_add_request. wp_step. eapply wp_call; [by eapply wp_register|].
  intros i s1 (b & -> & [G1 G2 G3 [G4 G5] G6] & Hrec). pose proof H as [I1 I2 [I3 I3'] I4 I5 I6 I7 I8 [I9 I9'] I10 [I11 I11'] I12 I13 I14 I15].
  set (id := st_req_id r) in *.
  (* the lists *)
  wp_steps. eapply (wp_call _ (λ _ s2, ∃ specs, s2 = set_specs (λ _, specs) (set_output_lists (λ _, put_at i (Some id) (req_ids s)) (set_req_ids (λ _, put_at i (Some id) (req_ids s)) (set_builder b s)))
    ∧ specs !! i = Some [] ∧ (∀ j, j ≠ i → specs !! j = spec_token_ids s !! j ∨ (length (put_at i (Some id) (req_ids s)) ≤ j)%nat ∧ specs !! j = Some []) ∧
      (length (put_at i (Some id) (req_ids s)) ≤ length specs)%nat)).
  { simpl. unfold put_at. case_decide as Hi.
    - wp_steps. eexists. split; [unfold set_specs, set_output_lists, set_req_ids; simpl; rewrite I8; reflexivity|]. subst i. rewrite length_app. simpl. split_and!.
      + destruct (decide (length (req_ids s) < length (spec_token_ids s))%nat) as [Hlt|Hge].
        * rewrite lookup_app_l by done. destruct (lookup_lt_is_Some_2 _ _ Hlt) as [x Hx]. rewrite Hx. by rewrite (I11' _ x (Nat.le_refl _) Hx).
        * replace (length (req_ids s)) with (length (spec_token_ids s)) by lia. by rewrite list_lookup_middle.
      + intros j Hj. destruct (decide (j < length (spec_token_ids s))%nat) as [Hlt|Hge]; [left; by apply lookup_app_l|].
        destruct (decide (j = length (spec_token_ids s))) as [->|Hne]; [right|left]; [split; [lia|by apply list_lookup_middle]|].
        rewrite !lookup_ge_None_2; [done|lia|rewrite length_app; simpl; lia].
      + rewrite length_app. simpl. lia.
    - assert (i < length (req_ids s))%nat as Hlt by lia. wp_step. apply wp_set_at; [simpl; lia|]. wp_step. apply wp_set_at; [simpl; rewrite I8; lia|].
      destruct (lookup_lt_is_Some_2 (spec_token_ids s) i) as [x Hx]; [lia|]. wp_step. eapply wp_get_at; [simpl; exact Hx|]. apply wp_set_at; [simpl; lia|].
      eexists. split; [simpl; rewrite I8; reflexivity|]. simpl. split_and!; [apply list_lookup_insert_eq; lia|intros j Hj; left; by apply list_lookup_insert_ne|].
      rewrite !length_insert. lia. }
  intros [] s2 (specs & -> & Hspec & Hspecs & Hslen). cbn beta. set (ids' := put_at i (Some id) (req_ids s)) in *.
  destruct (inv_row live s i H G1) as (row & Hrow & Hrl). wp_step. wp_step. wp_step. eapply wp_upd_row; [simpl; exact Hrow|].
  wp_step. eapply wp_write_tokens; [simpl; apply list_lookup_insert_eq; lia|simpl; lia|].
  wp_step. eapply wp_write_tokens; [simpl; apply list_lookup_insert_eq; rewrite length_insert; lia| |].
  { simpl. rewrite ?length_app, ?length_drop. lia. }
  simpl. rewrite !list_insert_insert_eq, !Nat2Z.id.
  destruct (written_tokens (token_ids_cpu row) (st_prompt_token_ids r) (st_output_token_ids r)) as [W1 W2]; [lia|]. cbv zeta in W1, W2.
  simpl in W1, W2. set (toks := take _ _ ++ st_output_token_ids r ++ _) in *.
  wp_step. eapply wp_upd_row; [simpl; apply list_lookup_insert_eq; lia|]. simpl. rewrite !list_insert_insert_eq.
  destruct (mg_add_row_ok (sh_limit sh) (sh_widths sh) (block_table s) i (st_block_ids r) I4 G1) as (ts' & Hts & T1 & T2 & T3 & T4);
    [by eapply tables_fit_same|].
  wp_step. eapply wp_on_table; [simpl; exact Hts|]. rewrite Hp. unfold add_sampling. wp_steps. eapply wp_upd_row; [simpl; apply list_lookup_insert_eq; lia|].
  simpl. rewrite !list_insert_insert_eq. wp_step. eapply wp_upd_row; [simpl; apply list_lookup_insert_eq; lia|]. simpl. rewrite !list_insert_insert_eq. wp_steps.
  (* the invariant *)
  destruct (I14 i row Hrow G3) as [Fg Fb].
  assert (req_id_to_index s !! id = None) as Hidx by (apply eq_None_not_Some; rewrite I12, Hnew; by intros [? ?]).
  assert (∀ id' i', req_id_to_index s !! id' = Some i' → id' ≠ id ∧ i' ≠ i ∧ (i' < length (req_ids s))%nat) as Hother.
  { intros id' i' Hi'. split_and!; [congruence| |apply I6 in Hi'; by apply lookup_lt_Some in Hi']. intros ->. apply I6 in Hi'. by apply (G3 id'). }
  assert (∀ j, ids' !! j = if decide (j = i) then Some (Some id) else req_ids s !! j) as Hids by (intros j; by apply lookup_put_at).
  split; [|split; simpl; [by rewrite Hids, decide_True|intros j Hj; by rewrite Hids, decide_False|rewrite G5; tauto|intros j Hj; rewrite G5, I9'; tauto|done]].
  split; simpl; try done.
  - rewrite length_insert. split; [done|]. by apply Forall_insert; [|simpl; lia].
  - by etrans; [exact I5|].
  - intros id' i'. rewrite Hids. destruct (decide (id' = id)) as [->|Hne].
    + rewrite lookup_insert_eq. case_decide as Hi'; [naive_solver|]. split; [congruence|]. intros Hx. apply I6 in Hx. congruence.
    + rewrite lookup_insert_ne by done. case_decide as Hi'; [|apply I6]. subst i'. split; [|congruence]. intros Hx%I6. by apply G3 in Hx.
  - unfold ids'. rewrite length_put_at. case_decide; lia.
  - split; [done|]. intros j. rewrite G5, Hids. case_decide; naive_solver.
  - split; [done|]. intros j x Hj Hx. destruct (decide (j = i)) as [->|Hne]; [congruence|]. destruct (Hspecs j Hne) as [Hs|[_ Hs]]; [|congruence].
    rewrite Hs in Hx. eapply I11'; [|exact Hx]. unfold ids' in Hj. rewrite length_put_at in Hj. case_decide; lia.
  - intros id'. destruct (decide (id' = id)) as [->|Hne]; [rewrite !lookup_insert_eq; split; eauto|]. by rewrite !lookup_insert_ne.
  - intros id' i' e Hi' He. change (<[id := (r, Written []) : Entry]> live !! id' = Some e) in He. destruct (decide (id' = id)) as [->|Hne].
    + rewrite lookup_insert_eq in Hi'. rewrite lookup_insert_eq in He. injection Hi' as <-. injection He as <-. split; [done|done|done|].
      eexists. simpl. split; [apply list_lookup_insert_eq; lia|]. split; simpl; try done.
      * unfold entry_tokens. simpl. by rewrite app_nil_r.
      * exists p. split; [done|]. split; [by rewrite I2|]. rewrite Fb. split; [by destruct (truthy_list (bad_words_token_ids p))|]. by intros _ l ->.
      * rewrite Fg. by destruct (st_generator r).
    + rewrite lookup_insert_ne in Hi' by done. rewrite lookup_insert_ne in He by done. destruct (Hother id' i' Hi') as (_ & Hni & Hlt).
      eapply held_other; [by apply I13|..]; simpl; [|by rewrite list_lookup_insert_ne|by intros l; apply T4].
      destruct (Hspecs i' Hni) as [Hs|[Hge _]]; [done|]. unfold ids' in Hge. rewrite length_put_at in Hge. case_decide; lia.
  - intros j row' Hj Hfree. destruct (decide (j = i)) as [->|Hne]; [exfalso; apply (Hfree id); rewrite Hids; by rewrite decide_True|].
    rewrite list_lookup_insert_ne in Hj by done. apply (I14 j row' Hj). intros id' Hid'. apply (Hfree id'). by rewrite Hids, decide_False.
  - rewrite I2. by apply (kinds_add_ok _ live (kinds s) id (r, Written []) p).
Qed.

(** *** Updating one request *)

(** [s'] is [s] with another row, draft list and blocks at [i]. *)
Record updated_at (s : IB) (i : nat) (row : Row) (specs : list Z) (s' : IB) : Prop := {
  ua_limit : max_num_reqs s' = max_num_reqs s;
  ua_vocab : vocab_size s' = vocab_size s;
  ua_ids : req_ids s' = req_ids s;
  ua_index : req_id_to_index s' = req_id_to_index s;
  ua_outputs : req_output_token_ids s' = req_output_token_ids s;
  ua_kinds : kinds s' = kinds s;
  ua_builder : batch_update_builder s' = batch_update_builder s;
  ua_rows : rows s' = <[i := row]> (rows s);
  ua_specs : spec_token_ids s' = <[i := specs]> (spec_token_ids s);
  ua_tables : tables_inv (sh_limit sh) (sh_widths sh) (block_table s');
  ua_format : Forall2 same_format (block_table s) (block_table s');
  ua_other : ∀ j l, j ≠ i → tables_row (block_table s) j l → tables_row (block_table s') j l;
}.

Lemma inv_update live s s' id i e e' row : inv live s → req_id_to_index s !! id = Some i → live !! id = Some e →
  updated_at s i row (dr_list e'.2) s' → length (token_ids_cpu row) = sh_len sh → row_ok (sh_masks sh) (sh_vocab sh) e' row →
  tables_row (block_table s') i (st_block_ids e'.1) → st_req_id e'.1 = id → st_sampling_params e'.1 = st_sampling_params e.1 →
  inv (<[id := e']> live) s'.
Proof.
  intros H Hi He [U1 U2 U3 U4 U5 U6 U7 U8 U9 U10 U11 U12] Hlen Hrow Hblk Hid Hp.
  pose proof H as [I1 I2 [I3 I3'] I4 I5 I6 I7 I8 [I9 I9'] I10 [I11 I11'] I12 I13 I14 I15].
  pose proof (proj1 (I6 _ _) Hi) as Hat. pose proof (lookup_lt_Some _ _ _ Hat) as Hlt.
  split; rewrite ?U3, ?U4, ?U5, ?U7, ?U1, ?U2; try done.
  - rewrite U8, length_insert. split; [done|]. by apply Forall_insert.
  - by etrans.
  - rewrite U9, length_insert. split; [done|]. intros j x Hj Hx. rewrite list_lookup_insert_ne in Hx by lia. by eapply I11'.
  - intros id'. rewrite I12. destruct (decide (id' = id)) as [->|Hne]; [rewrite lookup_insert_eq, He; split; eauto|by rewrite lookup_insert_ne].
  - intros id' i' x Hi' Hx. destruct (decide (id' = id)) as [->|Hne].
    + rewrite Hi in Hi'. injection Hi' as <-. rewrite lookup_insert_eq in Hx. injection Hx as <-. split; [done| |done|].
      * rewrite U9. apply list_lookup_insert_eq. lia.
      * exists row. split; [|done]. rewrite U8. apply list_lookup_insert_eq. lia.
    + rewrite lookup_insert_ne in Hx by done. pose proof (index_ne _ _ _ _ _ _ H Hi' Hi Hne) as Hni.
      eapply held_other; [by apply I13|rewrite U9; by apply list_lookup_insert_ne|rewrite U8; by apply list_lookup_insert_ne|]. intros l. by apply U12.
  - intros j row' Hj Hfree. destruct (decide (j = i)) as [->|Hne]; [by destruct (Hfree id)|]. rewrite U8, list_lookup_insert_ne in Hj by done. by apply (I14 j row').
  - rewrite U6. eapply kinds_same; [|exact I15]. intros id'. destruct (decide (id' = id)) as [->|Hne]; [|by rewrite lookup_insert_ne].
    rewrite lookup_insert_eq, He. simpl. by rewrite Hp.
Qed.

(** A state without drafts. *)
Lemma row_ok_base e row : row_ok (sh_masks sh) (sh_vocab sh) e row → row_ok (sh_masks sh) (sh_vocab sh) (e.1, Written []) row.
Proof.
  intros [O1 O2 O3 O4 O5 O6]. split; try done. unfold entry_tokens in *. cbn [fst snd]. rewrite app_nil_r. rewrite app_assoc in O4.
  rewrite <-(take_app_length (st_prompt_token_ids e.1 ++ st_output_token_ids e.1) (dr_tokens e.2)) at 2. rewrite <-O4, take_take. f_equal. rewrite !length_app. lia.
Qed.
(** The row of a request has changed, in step with the state [r]; the drafts follow. *)
Record updating live (s0 : IB) (id : string) (i : nat) (r : CachedRequestState) (s : IB) : Prop := {
  up_inv : inv live s0;
  up_row : ∃ e row specs, req_id_to_index s0 !! id = Some i ∧ live !! id = Some e ∧ updated_at s0 i row specs s ∧
    length (token_ids_cpu row) = sh_len sh ∧ row_ok (sh_masks sh) (sh_vocab sh) (r, Written []) row ∧ tables_row (block_table s) i (st_block_ids r) ∧
    st_req_id r = id ∧ st_sampling_params r = st_sampling_params e.1;
}.
Lemma updating_start live s id i e : inv live s → live !! id = Some e → req_id_to_index s !! id = Some i → updating live s id i e.1 s.
Proof.
  intros H He Hi. split; [done|]. destruct (bi_held _ _ _ H id i e Hi He) as [Hid Hsp Hblk (row & Hrow & Hok)].
  pose proof (lookup_lt_Some _ _ _ (proj1 (bi_index _ _ _ H _ _) Hi)) as Hlt. pose proof (bi_len _ _ _ H) as Hlen.
  destruct (inv_row live s i H ltac:(lia)) as (row' & Hrow' & Hrl). rewrite Hrow in Hrow'. injection Hrow' as <-.
  exists e, row, (dr_list e.2). split_and!; try done; [|by apply row_ok_base]. split; try done; [by rewrite list_insert_id|by rewrite list_insert_id|apply (bi_tables _ _ _ H)].
Qed.
(** The counters of the row change. *)
Lemma wp_updating_row live s0 id i r r' s f E : updating live s0 id i r s →
  (∀ row, row_ok (sh_masks sh) (sh_vocab sh) (r, Written []) row → row_ok (sh_masks sh) (sh_vocab sh) (r', Written []) (f row) ∧ token_ids_cpu (f row) = token_ids_cpu row) →
  st_req_id r' = st_req_id r → st_sampling_params r' = st_sampling_params r → st_block_ids r' = st_block_ids r →
  wp (upd_row i f) (λ _ s', updating live s0 id i r' s') E s.
Proof.
  intros [H (e & row & specs & Hi & He & [U1 U2 U3 U4 U5 U6 U7 U8 U9 U10 U11 U12] & Hrl & Hok & Hblk & Hid & Hp)] Hf E1 E2 E3.
  pose proof (lookup_lt_Some _ _ _ (proj1 (bi_index _ _ _ H _ _) Hi)) as Hlt. pose proof (bi_len _ _ _ H) as Hlen. pose proof (bi_rows _ _ _ H) as [Hr0 _].
  destruct (Hf row Hok) as [Hok' Htok]. eapply wp_upd_row; [rewrite U8; apply list_lookup_insert_eq; lia|]. split; [done|]. exists e, (f row), specs.
  split_and!; try done; [|by rewrite Htok|by rewrite E3|by rewrite E1|by rewrite E2]. split; simpl; try done. by rewrite U8, list_insert_insert_eq.
Qed.
(** New blocks behind those of the row. *)
Lemma wp_updating_blocks live s0 id i r s new E : updating live s0 id i r s → length new = length (sh_tables sh) →
  tables_fit (sh_widths sh) (sh_tables sh) (zip_with app (st_block_ids r) new) →
  wp (on_table (mg_append_row new i)) (λ _ s', updating live s0 id i (st_set_blocks (zip_with app (st_block_ids r) new) r) s') E s.
Proof.
  intros [H (e & row & specs & Hi & He & [U1 U2 U3 U4 U5 U6 U7 U8 U9 U10 U11 U12] & Hrl & Hok & Hblk & Hid & Hp)] Hnew Hfit.
  pose proof (lookup_lt_Some _ _ _ (proj1 (bi_index _ _ _ H _ _) Hi)) as Hlt. pose proof (bi_len _ _ _ H) as Hlen.
  assert (Forall2 same_format (sh_tables sh) (block_table s)) as Hsf by (etrans; [apply (bi_format _ _ _ H)|exact U11]).
  destruct (mg_append_row_ok (sh_limit sh) (sh_widths sh) (block_table s) i (st_block_ids r) new U10) as (ts' & Hts & T1 & T2 & T3 & T4); [lia| |done|].
  { apply (tables_fit_more (sh_widths sh) _ i (st_block_ids r)); [done|by rewrite Hnew; apply Forall2_length in Hsf|by eapply tables_fit_same]. }
  eapply wp_on_table; [exact Hts|]. split; [done|]. exists e, row, specs. split_and!; try done; [|by destruct Hok; split].
  split; simpl; try done; [by etrans|]. intros j l Hj Hl. by apply T4, U12.
Qed.
Lemma wp_update_specs live s0 s id i r ds E : updating live s0 id i r s →
  (length (st_prompt_token_ids r) + length (st_output_token_ids r) + length ds ≤ sh_len sh)%nat →
  wp (update_req_spec_token_ids id ds) (λ n s', n = Z.of_nat (length ds) ∧ inv (<[id := (st_set_prev_draft (Z.of_nat (length ds)) r, Written ds)]> live) s' ∧
    batch_update_builder s' = batch_update_builder s0 ∧ req_ids s' = req_ids s0) E s.
Proof.
  intros [H (e & row & specs & Hi & He & [U1 U2 U3 U4 U5 U6 U7 U8 U9 U10 U11 U12] & Hrl & Hok & Hblk & Hid & Hp)] Hfit.
  pose proof (lookup_lt_Some _ _ _ (proj1 (bi_index _ _ _ H _ _) Hi)) as Hlt. pose proof (bi_len _ _ _ H) as Hlen. pose proof (bi_specs _ _ _ H) as [Hsl _]. pose proof (bi_rows _ _ _ H) as [Hr0 _].
  assert (rows s !! i = Some row) as Hrow by (rewrite U8; apply list_lookup_insert_eq; lia).
  assert (spec_token_ids s !! i = Some specs) as Hsp by (rewrite U9; apply list_lookup_insert_eq; lia).
  unfold update_req_spec_token_ids. wp_steps. eapply wp_from_option; [rewrite U4; exact Hi|]. wp_step. eapply wp_get_at; [exact Hsp|].
  wp_step. apply wp_set_at; [by eapply lookup_lt_Some|]. set (base := st_prompt_token_ids r ++ st_output_token_ids r).
  pose proof Hok as [O1 O2 O3 O4 O5 O6]. unfold entry_tokens in O4. cbn [fst snd] in O1, O2, O3, O4, O5, O6. rewrite app_nil_r in O4. fold base in O4.
  assert (length base ≤ length (token_ids_cpu row))%nat as Hbl by (unfold base; rewrite length_app; lia).
  destruct ds as [|d ds].
  - wp_steps. split; [done|]. split; [|split; [exact U7|exact U3]]. eapply (inv_update live s0 _ id i e (st_set_prev_draft 0 r, Written []) row H Hi He); try done; [|by destruct Hok; split].
    split; simpl; try done. by rewrite U9, list_insert_insert_eq.
  - set (xs := d :: ds) in *. wp_step. wp_step. eapply wp_get_at; [simpl; exact Hrow|]. wp_step. eapply wp_write_tokens; [simpl; exact Hrow| |].
    { rewrite O2. unfold st_num_tokens. unfold base in Hbl. rewrite length_app in Hbl. lia. }
    apply wp_set_at; [simpl; rewrite length_insert; by eapply lookup_lt_Some|]. wp_steps. split; [done|]. split; [|split; [exact U7|exact U3]].
    assert (Z.to_nat (num_tokens_no_spec row) = length base) as Hn by (rewrite O2; unfold st_num_tokens, base; rewrite length_app; lia).
    rewrite Hn. set (toks := take _ _ ++ _ ++ _). eapply (inv_update live s0 _ id i e (st_set_prev_draft (Z.of_nat (length xs)) r, Written xs) (set_row_tokens toks row) H Hi He); try done.
    + split; simpl; try done; [by rewrite U8, list_insert_insert_eq|by rewrite U9, !list_insert_insert_eq].
    + simpl. unfold toks. rewrite length_write; [done|]. unfold base. rewrite length_app. lia.
    + split; try done. unfold entry_tokens. cbn [fst snd]. rewrite app_assoc. simpl. fold base. unfold toks. rewrite O4, app_assoc. apply take_app_length.
Qed.
End ops.
