(* ===== verification/BatchMoves.v ===== *)
(** Rows that move: [condense], [swap_states] and the refresh at the end of a step. *)
From S2P Require Import Prelude BlockTable SlotMapping InputBatch LogitsUpdate InputBatchInv BatchOps.
From stdpp Require Import sorting.
Local Open Scope Z_scope.

(** The invariant whatever the builder records: as if it recorded exactly the empty rows. *)
Definition empty_rows (ids : list (option string)) : list nat := filter (λ i, ids !! i = Some None) (seq 0 (length ids)).
Definition plain_builder (ids : list (option string)) : BU := mkBuilder (empty_rows ids) false [] [] false.
Definition batch_core (sh : Shape) (live : gmap string Entry) (s : IB) : Prop := batch_inv sh live (set_builder (plain_builder (req_ids s)) s).

(** The batch without its masks. *)
Definition unmasked (sh : Shape) : Shape := mkShape (sh_limit sh) (sh_len sh) (sh_vocab sh) (sh_widths sh) (sh_tables sh) false.
Lemma inv_unmasked sh live s : batch_inv sh live s → batch_inv (unmasked sh) live s.
Proof.
  intros []. split; try done. intros id i e Hi He. destruct (bi_held id i e Hi He) as [H1 H2 H3 (row & H4 & [O1 O2 O3 O4 (p & ? & ? & ? & _) O6])].
  split; try done. exists row. split; [done|]. split; try done. by exists p.
Qed.

Lemma elem_of_empty_rows ids i : i ∈ empty_rows ids ↔ ids !! i = Some None.
Proof.
  unfold empty_rows. rewrite list_elem_of_filter, elem_of_seq. split; [tauto|]. intros H. split; [done|]. apply lookup_lt_Some in H. lia.
Qed.
Lemma NoDup_empty_rows ids : NoDup (empty_rows ids).
Proof. apply NoDup_filter, NoDup_seq. Qed.

(** Reading a sorted list of empty rows. *)
Lemma peek_sorted b l x : is_removed_sorted b = true → removed_ b = l ++ [x] → peek_removed b = (Ret (Some x), b).
Proof.
  destruct b as [r srt ad mv ch]. simpl. intros -> ->. unfold peek_removed, gets, modify, mbind, M_bind. simpl.
  destruct (l ++ [x]) as [|y l'] eqn:Hl; [by destruct l|]. rewrite <-Hl. simpl. by rewrite last_snoc.
Qed.
Lemma pop_sorted b l x : is_removed_sorted b = true → removed_ b = l ++ [x] → pop_removed b = (Ret (Some x), set_removed l true b).
Proof.
  destruct b as [r srt ad mv ch]. simpl. intros -> ->. unfold pop_removed, gets, modify, mbind, M_bind. simpl.
  destruct (l ++ [x]) as [|y l'] eqn:Hl; [by destruct l|]. rewrite <-Hl. simpl. rewrite last_snoc, length_app. simpl. by rewrite Nat.add_sub, take_app_length.
Qed.

Section moves.
Context (sh : Shape).
Implicit Types (live : gmap string Entry) (s : IB).
Abbreviation inv := (batch_inv sh).
Abbreviation core := (batch_core sh).

Lemma held_builder s b i id e : held sh (set_builder b s) i id e ↔ held sh s i id e.
Proof. split; intros []; by split. Qed.
Lemma inv_core live s : inv live s → core live s.
Proof.
  intros [? ? ? ? ? ? ? ? ? ? ? ? Hh]. split; simpl; try done; [split; [apply NoDup_empty_rows|apply elem_of_empty_rows]|].
  intros. by apply held_builder, Hh.
Qed.
Lemma core_inv live s : core live s → NoDup (removed_ (batch_update_builder s)) → (∀ i, i ∈ removed_ (batch_update_builder s) ↔ req_ids s !! i = Some None) →
  (is_removed_sorted (batch_update_builder s) = true → descending (removed_ (batch_update_builder s))) → inv live s.
Proof. intros [? ? ? ? ? ? ? ? ? ? ? ? Hh] H1 H2 H3. split; try done. intros. by eapply held_builder, Hh. Qed.
Lemma core_builder live s b : core live s → core live (set_builder b s).
Proof. done. Qed.

(** *** [move_down] *)

Lemma moved_row_ok masks v e from to : row_ok masks v e from → free_row to → length (token_ids_cpu from) = length (token_ids_cpu to) →
  let row := moved_row (num_tokens_no_spec from + Z.of_nat (length (dr_list e.2))) from to in
  row_ok masks v e row ∧ length (token_ids_cpu row) = length (token_ids_cpu to).
Proof.
  intros [O1 O2 O3 O4 O5 O6] [F1 F2] Hl row.
  assert (length (entry_tokens e) ≤ Z.to_nat (num_tokens_no_spec from + Z.of_nat (length (dr_list e.2))))%nat as Hn.
  { rewrite O2. unfold st_num_tokens, entry_tokens. rewrite !length_app. assert (length (dr_tokens e.2) ≤ length (dr_list e.2))%nat by (destruct e.2; simpl; lia). lia. }
  split; [split; try done|]; simpl.
  - set (n := Z.to_nat _) in *. assert (length (entry_tokens e) ≤ length (token_ids_cpu from))%nat as Hle. { rewrite <-O4, length_take. lia. }
    rewrite take_app_le by (rewrite length_take; lia). rewrite take_take, Nat.min_l by lia. exact O4.
  - destruct O5 as (p & ? & ? & Hbw & Hmask). exists p. split_and!; [done|done| |exact Hmask]. rewrite F2, Hbw. by destruct (truthy_list _).
  - rewrite F1, O6. by destruct (st_generator e.1).
  - rewrite length_app, length_take, length_drop. lia.
Qed.

Lemma wp_move_down live s src tgt id E : core live s → (tgt < src)%nat → req_ids s !! src = Some (Some id) → req_ids s !! tgt = Some None →
  wp (move_down src tgt) (λ _ s', core live s' ∧ req_ids s' = <[src := None]> (<[tgt := Some id]> (req_ids s)) ∧
    batch_update_builder s' = push_moved (src, tgt, UNIDIRECTIONAL) (batch_update_builder s)) E s.
Proof.
  intros H Hlt Hsrc Htgt. pose proof H as [I1 I2 [I3 I3'] I4 I5 I6 I7 I8 [I9 I9'] I10 [I11 I11'] I12 I13 I14 I15].
  simpl in *. pose proof (lookup_lt_Some _ _ _ Hsrc) as Lsrc. pose proof (lookup_lt_Some _ _ _ Htgt) as Ltgt.
  destruct (inv_row sh live _ src H ltac:(lia)) as (from & Hfrom & Lfrom), (inv_row sh live _ tgt H ltac:(lia)) as (to & Hto & Lto). simpl in Hfrom, Hto.
  pose proof (proj2 (I6 id src) Hsrc) as Hidx. destruct (proj1 (I12 id)) as [e He]; [eauto|].
  destruct (I13 id src e Hidx He) as [B1 B2 B3 (row & Hrow & Hok)]. simpl in B2, B3, Hrow. rewrite Hfrom in Hrow. injection Hrow as <-.
  assert (free_row to) as Hfree by (apply (I14 tgt to Hto); intros x; congruence).
  destruct (moved_row_ok _ _ e from to Hok Hfree) as [Hok' Hlen']; [congruence|].
  destruct (lookup_lt_is_Some_2 (spec_token_ids s) tgt) as [y Hy]; [lia|].
  destruct (mg_move_row_ok (sh_limit sh) (sh_widths sh) (block_table s) src tgt I4) as (ts' & Hts & T1 & T2 & T3 & T4); [lia..|].
  unfold move_down. wp_step. eapply wp_get_at; [exact Hsrc|]. wp_step. eapply wp_get_at; [rewrite I8; exact Hsrc|]. cbn beta iota.
  wp_step. apply wp_set_at; [done|]. wp_step. apply wp_set_at; [simpl; by rewrite length_insert|].
  wp_step. apply wp_set_at; [simpl; by rewrite I8|]. wp_step. apply wp_set_at; [simpl; by rewrite I8, length_insert|]. wp_steps.
  eapply wp_get_at; [simpl; exact Hfrom|]. wp_step. eapply wp_get_at; [simpl; exact Hto|]. wp_step. eapply wp_get_at; [simpl; exact B2|].
  wp_step. eapply wp_get_at; [simpl; exact Hy|]. cbv zeta. wp_step. apply wp_set_at; [simpl; lia|]. wp_step. apply wp_set_at; [simpl; rewrite length_insert; lia|].
  wp_step. eapply wp_on_table; [simpl; exact Hts|]. wp_step. eapply wp_on_builder; [reflexivity|]. wp_step. apply wp_set_at; [simpl; lia|].
  apply wp_set_at; [simpl; rewrite length_insert; lia|]. simpl. split_and!; [|done|done]. set (ids' := <[src := None]> (<[tgt := Some id]> (req_ids s))).
  assert (∀ j, ids' !! j = if decide (j = src) then Some None else if decide (j = tgt) then Some (Some id) else req_ids s !! j) as Hids.
  { intros j. unfold ids'. case_decide; subst; [apply list_lookup_insert_eq; by rewrite length_insert|]. rewrite list_lookup_insert_ne by done.
    case_decide; subst; [by apply list_lookup_insert_eq|by apply list_lookup_insert_ne]. }
  assert (∀ id' i', req_id_to_index s !! id' = Some i' → id' ≠ id → i' ≠ src ∧ i' ≠ tgt) as Hother.
  { intros id' i' Hi' Hne. apply I6 in Hi'. split; intros ->; congruence. }
  split; simpl; try done.
  - rewrite !length_insert. split; [done|]. apply Forall_insert; [apply Forall_insert; [done|]|]; simpl; [by etrans|done].
  - by etrans.
  - intros id' i'. rewrite Hids. destruct (decide (id' = id)) as [->|Hne].
    + rewrite lookup_insert_eq. destruct (decide (i' = src)) as [->|Hs]; [split; [intros [= ->]; lia|done]|]. case_decide; [naive_solver|].
      split; [congruence|]. intros Hx. apply I6 in Hx. congruence.
    + rewrite lookup_insert_ne by done. split.
      * intros Hi'. destruct (Hother id' i' Hi' Hne). rewrite !decide_False by done. by apply I6.
      * do 2 (case_decide; [congruence|]). apply I6.
  - unfold ids'. by rewrite !length_insert.
  - unfold ids'. by rewrite I8.
  - split; [apply NoDup_empty_rows|apply elem_of_empty_rows].
  - unfold ids'. rewrite !length_insert. split; [done|]. intros j x Hj Hx. rewrite !list_lookup_insert_ne in Hx by lia. by eapply I11'.
  - intros id'. destruct (decide (id' = id)) as [->|Hne]; [rewrite lookup_insert_eq, He; split; eauto|by rewrite lookup_insert_ne].
  - intros id' i' x Hi' Hx. destruct (decide (id' = id)) as [->|Hne].
    + rewrite lookup_insert_eq in Hi'. injection Hi' as <-. assert (x = e) as -> by congruence. split; [done| |by apply T3|]; simpl.
      * rewrite list_lookup_insert_ne by lia. apply list_lookup_insert_eq. lia.
      * eexists. split; [|exact Hok']. rewrite list_lookup_insert_ne by lia. apply list_lookup_insert_eq. lia.
    + rewrite lookup_insert_ne in Hi' by done. destruct (Hother id' i' Hi' Hne) as [Hs Ht].
      eapply held_other; [by apply I13|..]; simpl; [by rewrite !list_lookup_insert_ne|by rewrite !list_lookup_insert_ne|intros l; by apply T4].
  - intros j row Hj Hf. destruct (decide (j = src)) as [->|Hs].
    + rewrite list_lookup_insert_eq in Hj by (rewrite length_insert; lia). by injection Hj as <-.
    + destruct (decide (j = tgt)) as [->|Ht]; [destruct (Hf id); rewrite Hids, decide_False by done; by rewrite decide_True|].
      rewrite !list_lookup_insert_ne in Hj by done. apply (I14 j row Hj). intros id' Hid'. apply (Hf id'). by rewrite Hids, !decide_False.
Qed.

(** *** [condense] *)

Lemma skip_empty_spec fuel last empty : NoDup empty → (length (filter (λ i, Z.of_nat i ≤ last)%Z empty) ≤ fuel)%nat →
  let r := skip_empty fuel last empty in
  r ≤ last ∧ (-1 ≤ last → -1 ≤ r) ∧ (0 ≤ r → Z.to_nat r ∉ empty) ∧ ∀ i, r < Z.of_nat i ≤ last → i ∈ empty.
Proof.
  intros Hnd. revert last. induction fuel as [|fuel IH]; intros last Hf; simpl.
  - split_and!; [lia|done| |lia]. intros H Hin. assert (filter (λ i, Z.of_nat i ≤ last) empty = []) as Hf' by (apply nil_length_inv; lia).
    assert (Z.to_nat last ∈ filter (λ i, Z.of_nat i ≤ last) empty) as Hx by (apply list_elem_of_filter; split; [lia|done]). rewrite Hf' in Hx. by apply elem_of_nil in Hx.
  - case_bool_decide as Hc; [|split_and!; [lia|done|tauto|lia]]. destruct Hc as [H0 Hin].
    assert (length (filter (λ i, Z.of_nat i ≤ last - 1)%Z empty) < length (filter (λ i, Z.of_nat i ≤ last)%Z empty))%nat as Hlt.
    { assert (filter (λ i, Z.of_nat i ≤ last) empty ≡ₚ Z.to_nat last :: filter (λ i, Z.of_nat i ≤ last - 1) empty) as ->; [|simpl; lia].
      apply NoDup_Permutation; [by apply NoDup_filter|constructor; [|by apply NoDup_filter]|].
      - rewrite list_elem_of_filter. lia.
      - intros j. rewrite elem_of_cons, !list_elem_of_filter. split; [intros [? ?]; destruct (decide (j = Z.to_nat last)); [by left|right; split; [lia|done]]|].
        intros [->|[? ?]]; split; try done; lia. }
    destruct (IH (last - 1)) as (R1 & R0 & R2 & R3); [lia|]. split_and!; [lia|lia|done|]. intros i Hi. destruct (decide (Z.of_nat i = last)) as [He|Hne].
    + by replace i with (Z.to_nat last) by lia.
    + apply R3. lia.
Qed.

(** Rows up to [last] are taken or recorded as empty; the rows behind hold no request. *)
Record condensing live (s : IB) (last : Z) : Prop := {
  cd_core : core live s;
  cd_last : -1 ≤ last < Z.of_nat (length (req_ids s));
  cd_nodup : NoDup (removed_ (batch_update_builder s));
  cd_sorted : is_removed_sorted (batch_update_builder s) = true;
  cd_descending : descending (removed_ (batch_update_builder s));
  cd_empty : ∀ i, Z.of_nat i ≤ last → i ∈ removed_ (batch_update_builder s) ↔ req_ids s !! i = Some None;
  cd_behind : ∀ i id, last < Z.of_nat i → req_ids s !! i ≠ Some (Some id);
}.
(** The first rows hold the requests. *)
Definition dense_to (s : IB) (n : nat) : Prop :=
  (n ≤ length (req_ids s))%nat ∧ (∀ i, (i < n)%nat → ∃ id, req_ids s !! i = Some (Some id)) ∧ ∀ i id, (n ≤ i)%nat → req_ids s !! i ≠ Some (Some id).

(** What is still recorded as empty lies behind the requests. *)
Definition tail_removed (n : nat) (s : IB) : Prop := ∀ i, i ∈ removed_ (batch_update_builder s) → (n ≤ i)%nat.

Lemma condensing_end live s last : condensing live s last → (∀ i, i ∈ removed_ (batch_update_builder s) → last < Z.of_nat i) → dense_to s (Z.to_nat (last + 1)).
Proof.
  intros [C1 C2 C3 C4 C5 C6 C7] Hr. split_and!; [lia| |intros i id Hi; apply C7; lia]. intros i Hi.
  destruct (lookup_lt_is_Some_2 (req_ids s) i) as [[id|] Hx]; [lia|by exists id|]. apply C6 in Hx; [|lia]. apply Hr in Hx. lia.
Qed.
Lemma dense_count live s n : core live s → dense_to s n → n = num_reqs s.
Proof.
  intros H (D1 & D2 & D3). pose proof (bi_index _ _ _ H) as Hidx. simpl in Hidx. unfold num_reqs.
  pose proof (index_count (take n (req_ids s)) (req_id_to_index s) []) as Hc. rewrite length_take in Hc. simpl in Hc. symmetry.
  rewrite <-(Nat.min_l n (length (req_ids s))) by done. rewrite <-Hc; [lia| |constructor|].
  - intros id i. rewrite Hidx. destruct (decide (i < n)%nat); [by rewrite lookup_take_lt|]. rewrite lookup_take_ge by lia. split; [|done].
    intros Hx. by destruct (D3 i id ltac:(lia)).
  - intros i. split; [by intros ?%elem_of_nil|]. destruct (decide (i < n)%nat) as [Hi|Hi]; [|by rewrite lookup_take_ge by lia]. rewrite lookup_take_lt by done.
    destruct (D2 i Hi) as [id ->]. done.
Qed.

(** Rows that are recorded as empty are passed. *)
Lemma condensing_skip live s last last' : condensing live s last → -1 ≤ last' ≤ last →
  (∀ i, last' < Z.of_nat i ≤ last → i ∈ removed_ (batch_update_builder s)) → condensing live s last'.
Proof.
  intros [C1 C2 C3 C4 C5 C6 C7] Hl Hskip. split; try done; [lia|intros i Hi; apply C6; lia|]. intros i id Hi.
  destruct (decide (Z.of_nat i ≤ last)) as [Hle|Hgt]; [|apply C7; lia]. intros Hx. pose proof (Hskip i ltac:(lia)) as Hin. apply C6 in Hin; [congruence|lia].
Qed.
(** One move. *)
Lemma condensing_move live s s' last l tgt id : condensing live s last → removed_ (batch_update_builder s) = l ++ [tgt] → Z.of_nat tgt < last →
  req_ids s !! Z.to_nat last = Some (Some id) → core live s' → req_ids s' = <[Z.to_nat last := None]> (<[tgt := Some id]> (req_ids s)) →
  batch_update_builder s' = push_moved (Z.to_nat last, tgt, UNIDIRECTIONAL) (set_removed l true (batch_update_builder s)) →
  condensing live s' (last - 1).
Proof.
  intros [C1 C2 C3 C4 C5 C6 C7] Hrem Hlt Hid Hcore Hids Hb. pose proof (lookup_lt_Some _ _ _ Hid) as Hlen. rewrite Hrem in C3, C5, C6.
  apply NoDup_app in C3 as (N1 & N2 & _). assert (tgt ∉ l) as Htgt by (intros Hx; by apply (N2 tgt), list_elem_of_singleton).
  split; [done|rewrite Hids, !length_insert; lia|by rewrite Hb|by rewrite Hb|rewrite Hb; by eapply descending_init|..].
  - intros i Hi. rewrite Hb, Hids. simpl. rewrite list_lookup_insert_ne by lia. destruct (decide (i = tgt)) as [->|Hne].
    + rewrite list_lookup_insert_eq by lia. split; done.
    + rewrite list_lookup_insert_ne by done. rewrite <-C6 by lia. rewrite elem_of_app, list_elem_of_singleton. tauto.
  - intros i x Hi. rewrite Hids. destruct (decide (i = Z.to_nat last)) as [->|Hne]; [rewrite list_lookup_insert_eq by (rewrite length_insert; lia); done|].
    rewrite !list_lookup_insert_ne by lia. apply C7. lia.
Qed.

(** The next move of the loop, if there is one. *)
Lemma condensing_next live s last : condensing live s last → removed_ (batch_update_builder s) ≠ [] →
  let empty := removed_ (batch_update_builder s) in let last' := skip_empty (length empty) last empty in
  ∃ l tgt, empty = l ++ [tgt] ∧ peek_removed (batch_update_builder s) = (Ret (Some tgt), batch_update_builder s) ∧
    pop_removed (batch_update_builder s) = (Ret (Some tgt), set_removed l true (batch_update_builder s)) ∧ condensing live s last' ∧
    (last' ≤ Z.of_nat tgt → ∀ i, i ∈ empty → last' < Z.of_nat i) ∧
    (Z.of_nat tgt < last' → ∃ id, req_ids s !! Z.to_nat last' = Some (Some id) ∧ req_ids s !! tgt = Some None ∧ Z.to_nat last' ∉ empty).
Proof.
  intros C Hne empty last'. pose proof (cd_sorted _ _ _ C) as Hs. pose proof (cd_last _ _ _ C) as Hlast.
  destruct (skip_empty_spec (length empty) last empty (cd_nodup _ _ _ C)) as (K1 & K0 & K2 & K3); [apply length_filter|]. fold last' in K1, K0, K2, K3.
  assert (condensing live s last') as C' by (eapply condensing_skip; [done|lia|done]).
  destruct (rev_ind (λ l, l = [] ∨ ∃ l' x, l = l' ++ [x]) ltac:(by left) ltac:(intros x l' _; right; eauto) empty) as [?|(l & tgt & He)]; [done|].
  exists l, tgt. split_and!; [done|by apply (peek_sorted _ l)|by apply pop_sorted|done| |].
  - intros Hge i Hi. assert (Z.of_nat tgt ≤ Z.of_nat i) as Hti.
    { rewrite He in Hi. apply elem_of_app in Hi as [Hi|Hi%list_elem_of_singleton]; [|lia]. pose proof (cd_descending _ _ _ C) as Hd. fold empty in Hd. rewrite He in Hd.
      pose proof (descending_last l tgt i Hd Hi). lia. }
    destruct (decide (Z.of_nat i = last')) as [Heq|]; [|lia]. exfalso. apply K2; [lia|]. by replace (Z.to_nat last') with i by lia.
  - intros Hlt. destruct (lookup_lt_is_Some_2 (req_ids s) (Z.to_nat last')) as [[id|] Hx]; [lia| |].
    + exists id. split_and!; [done| |apply K2; lia]. apply (cd_empty _ _ _ C'); [lia|]. fold empty. rewrite He. apply elem_of_app. right. by apply list_elem_of_singleton.
    + apply (cd_empty _ _ _ C') in Hx; [|lia]. exfalso. apply K2; [lia|done].
Qed.

Lemma wp_condense_loop live fuel s last E : condensing live s last → (length (removed_ (batch_update_builder s)) ≤ fuel)%nat →
  wp (condense_loop fuel last) (λ _ s', core live s' ∧ dense_to s' (num_reqs s') ∧ rtc edit (layout s) (layout s') ∧ tail_removed (num_reqs s') s') E s.
Proof.
  revert s last. induction fuel as [|fuel IH]; intros s last C Hf.
  all: assert (∀ last', condensing live s last' → (∀ i, i ∈ removed_ (batch_update_builder s) → last' < Z.of_nat i) →
    core live s ∧ dense_to s (num_reqs s) ∧ rtc edit (layout s) (layout s) ∧ tail_removed (num_reqs s) s) as Hend.
  1,3: intros last' C' Hr; pose proof (condensing_end _ _ _ C' Hr) as D; rewrite <-(dense_count live s _ (cd_core _ _ _ C') D);
    split_and!; [apply C'|done|reflexivity|intros i Hi%Hr; lia].
  - apply wp_ret, (Hend last C). assert (removed_ (batch_update_builder s) = []) as -> by (apply nil_length_inv; lia). by intros i ?%elem_of_nil.
  - cbn [condense_loop]. wp_steps. change (id s) with s. destruct (decide (removed_ (batch_update_builder s) = [])) as [Hr|Hr].
    { rewrite Hr. apply wp_ret, (Hend last C). rewrite Hr. by intros i ?%elem_of_nil. }
    destruct (condensing_next live s last C Hr) as (l & tgt & He & Hpeek & Hpop & C' & Hstop & Hgo). set (empty := removed_ (batch_update_builder s)) in *.
    set (last' := skip_empty (length empty) last empty) in *. destruct empty as [|y l0] eqn:Hy; [done|]. cbv zeta. fold last'. pose proof (eq_trans Hy He) as Hrem.
    unfold empty in Hrem. clear Hy.
    wp_step. eapply wp_on_builder; [exact Hpeek|]. replace (set_builder (batch_update_builder s) s) with s by (by destruct s).
    cbn beta iota. destruct (Z.geb_spec (Z.of_nat tgt) last') as [Hge|Hlt]; [by apply wp_ret, (Hend last' C'), Hstop|].
    destruct (Hgo Hlt) as (id & Hsrc & Htgt & Hnin). wp_step. eapply wp_on_builder; [exact Hpop|]. cbn beta.
    pose proof (cd_nodup _ _ _ C) as Hnd. rewrite Hrem in Hnd. apply NoDup_app in Hnd as (_ & Hdis & _).
    wp_step. eapply wp_call; [eapply (wp_move_down live _ (Z.to_nat last') tgt id); [apply core_builder, C|lia|done|done]|].
    intros [] s' (Hcore & Hids & Hb). simpl in Hids, Hb. cbn beta.
    eapply wp_call; [apply IH; [by eapply condensing_move|]|].
    { rewrite Hb. simpl. rewrite He, length_app in Hf. simpl in Hf. lia. }
    intros [] s2 (H1 & H2 & H3 & H4). split_and!; [done|done| |done]. eapply rtc_l; [|exact H3]. unfold layout at 1 2. rewrite Hids, Hb.
    apply edit_move; simpl; try done; [by rewrite Hrem, <-He|..].
    + rewrite Hrem. by rewrite Permutation_app_comm.
    + intros Hx. by apply (Hdis tgt), list_elem_of_singleton.
Qed.

(** Cutting the lists behind the last request. *)
Definition trimmed (n : nat) (s : IB) : IB := set_specs (take n) (set_output_lists (take n) (set_req_ids (take n) s)).
Lemma core_trim live s n : core live s → dense_to s n → core live (trimmed n s) ∧ dense_to (trimmed n s) n ∧ edit (layout s) (layout (trimmed n s)).
Proof.
  intros H (D1 & D2 & D3). pose proof H as [I1 I2 I3 I4 I5 I6 I7 I8 [I9 I9'] I10 [I11 I11'] I12 I13 I14 I15]. simpl in *.
  assert (∀ id i, take n (req_ids s) !! i = Some (Some id) ↔ req_ids s !! i = Some (Some id)) as Htake.
  { intros id i. destruct (decide (i < n)%nat); [by rewrite lookup_take_lt|]. rewrite lookup_take_ge by lia. split; [done|]. intros Hx. by destruct (D3 i id ltac:(lia)). }
  split_and!; [split; simpl; try done|split_and!; simpl|by apply edit_trim].
  - intros id i. by rewrite I6, Htake.
  - rewrite length_take. lia.
  - by rewrite I8.
  - split; [apply NoDup_empty_rows|apply elem_of_empty_rows].
  - rewrite !length_take. split; [lia|]. intros i x Hi Hx. apply lookup_take_Some in Hx as [Hx Hlt]. exfalso. lia.
  - intros id i e Hi He. apply (held_other sh (set_builder (plain_builder (req_ids s)) s)); [by apply I13|..]; simpl; try done. apply lookup_take_lt. apply I6 in Hi.
    destruct (decide (i < n)%nat); [done|]. by destruct (D3 i id ltac:(lia)).
  - intros i row Hi Hf. apply (I14 i row Hi). intros id Hid. by apply (Hf id), Htake.
  - rewrite length_take. lia.
  - intros i Hi. rewrite lookup_take_lt by done. by apply D2.
  - intros i id Hi. by rewrite lookup_take_ge.
Qed.

(** After [condense] the rows are the requests of the batch, without gaps. *)
Definition dense live (s : IB) : Prop := length (req_ids s) = size live ∧ Forall is_Some (req_ids s).

Lemma dense_all live s : dense_to s (length (req_ids s)) → core live s → dense live s.
Proof.
  intros D H. split.
  - rewrite (dense_count live s _ H D). destruct (inv_count _ _ _ H) as [_ Hn]. by unfold num_reqs in *.
  - apply Forall_lookup. intros i x Hx. destruct D as (_ & D2 & _). destruct (D2 i) as [id Hid]; [by eapply lookup_lt_Some|]. rewrite Hx in Hid. injection Hid as ->. eauto.
Qed.
Lemma wp_condense live s E : inv live s → wp condense (λ _ s', core live s' ∧ dense live s' ∧ rtc edit (layout s) (layout s') ∧ tail_removed (length (req_ids s')) s') E s.
Proof.
  intros H. pose proof (bi_removed _ _ _ H) as [Hnd Hrem]. destruct (inv_count _ _ _ H) as [Hc Hn].
  destruct (ensured _ (bi_sorted _ _ _ H)) as (l & He & Hperm & Hd). unfold condense. wp_steps. eapply wp_on_builder; [reflexivity|]. rewrite He. wp_steps. change (id s) with s.
  change (id (set_builder (set_removed l true (batch_update_builder s)) s)) with (set_builder (set_removed l true (batch_update_builder s)) s).
  cbn [batch_update_builder set_builder removed_ set_removed].
  set (s1 := set_builder _ s). assert (core live s1) as H1 by (apply core_builder; by apply inv_core).
  assert (∀ i, i ∈ l ↔ req_ids s1 !! i = Some None) as Hl by (intros i; rewrite Hperm; apply Hrem).
  assert (edit (layout s) (layout s1)) as Hedit by (by apply edit_sort). apply Permutation_length in Hperm as Hlen.
  destruct l as [|y l0] eqn:El.
  - apply wp_ret. split_and!; [done| |by apply rtc_once|by intros i ?%elem_of_nil]. apply dense_all; [|done]. split_and!; [lia| |intros i id Hi Hx; apply lookup_lt_Some in Hx; simpl in Hx, Hi; lia].
    intros i Hi. destruct (lookup_lt_is_Some_2 (req_ids s1) i Hi) as [[id|] Hx]; [eauto|]. apply Hl in Hx. by apply elem_of_nil in Hx.
  - rewrite <-El in *. case_decide as H0.
    + assert (dense_to s1 0) as D. { split_and!; [lia|lia|]. intros i id _ Hx. simpl in Hx. apply (bi_index _ _ _ H) in Hx. unfold num_reqs in H0. apply map_size_empty_inv in H0. by rewrite H0 in Hx. }
      destruct (core_trim live s1 0 H1 D) as (T1 & T2 & T3). wp_steps. split_and!; [exact T1|apply dense_all; [exact T2|exact T1]|by eapply rtc_l, rtc_once|intros i _; simpl; lia].
    + assert (condensing live s1 (Z.of_nat (num_reqs s) + Z.of_nat (length l) - 1)) as C.
      { split; simpl; rewrite <-?El; try done; [lia|by rewrite Hperm|intros i id Hi Hx; apply lookup_lt_Some in Hx; lia]. }
      wp_step. eapply wp_call; [apply (wp_condense_loop live _ _ _ _ C); simpl; by rewrite El|].
      intros [] s2 (L1 & L2 & L3 & L4). cbn beta. assert (num_reqs s2 = num_reqs s) as Hn2.
      { destruct (inv_count _ _ _ L1) as [_ Hx]. unfold num_reqs in *. simpl in Hx. congruence. }
      rewrite Hn2 in L2, L4. destruct (core_trim live s2 _ L1 L2) as (T1 & T2 & T3). wp_steps. split_and!; [exact T1|apply dense_all; [|exact T1]| |].
      * assert (length (req_ids (trimmed (num_reqs s) s2)) = num_reqs s) as Hlt. { simpl. rewrite length_take. destruct L2 as (? & _). lia. }
        change (dense_to (trimmed (num_reqs s) s2) (length (req_ids (trimmed (num_reqs s) s2)))). by rewrite Hlt.
      * eapply rtc_l; [exact Hedit|]. etrans; [exact L3|by apply rtc_once].
      * intros i Hi. simpl in Hi |- *. apply L4 in Hi. rewrite length_take. lia.
Qed.

(** *** [swap_states] *)

Lemma wp_swap_at {A} (set : (list A → list A) → IB → IB) get i j x y Q E s : get s !! i = Some x → get s !! j = Some y →
  Q tt (set (λ _, <[j := x]> (<[i := y]> (get s))) s) → wp (swap_at set get i j) Q E s.
Proof. intros Hi Hj HQ. unfold swap_at. wp_steps. eapply wp_of_outcome; [by apply np_swap_ok|]. by wp_steps. Qed.

(** The rows change places, the mask of the second is in both. *)
Lemma wp_swap_rows i j r1 r2 Q E s : rows s !! i = Some r1 → rows s !! j = Some r2 → i ≠ j →
  Q tt (set_row_list (λ _, <[j := set_mask (allowed_token_ids_mask r2) r1]> (<[i := set_mask (allowed_token_ids_mask r1) r2]> (rows s))) s) →
  wp (swap_rows i j) Q E s.
Proof.
  intros Hi Hj Hij HQ. pose proof (lookup_lt_Some _ _ _ Hi). pose proof (lookup_lt_Some _ _ _ Hj).
  unfold swap_rows. wp_step. eapply wp_get_at; [exact Hi|]. wp_step. eapply wp_get_at; [exact Hj|]. wp_step. apply wp_set_at; [done|]. apply wp_set_at; [|done].
  simpl. by rewrite length_insert.
Qed.
Lemma wp_copy_mask src dst r r' Q E s : rows s !! src = Some r → rows s !! dst = Some r' →
  Q tt (set_row_list (λ _, <[dst := set_mask (allowed_token_ids_mask r) r']> (rows s)) s) → wp (copy_mask src dst) Q E s.
Proof. intros Hi Hj HQ. unfold copy_mask. wp_step. eapply wp_get_at; [exact Hi|]. by eapply wp_upd_row. Qed.
Lemma wp_swap_masks i j r1 r2 l Q E s : rows s = <[j := set_mask (allowed_token_ids_mask r2) r1]> (<[i := set_mask (allowed_token_ids_mask r1) r2]> l) →
  (i < length l)%nat → (j < length l)%nat → i ≠ j →
  Q tt (set_row_list (λ _, <[j := set_mask (allowed_token_ids_mask r2) r1]> (<[i := r2]> l)) s) → wp (swap_masks i j) Q E s.
Proof.
  intros Hl Hi Hj Hij HQ. set (r1' := set_mask (allowed_token_ids_mask r2) r1) in *. set (r2' := set_mask (allowed_token_ids_mask r1) r2) in *.
  assert (rows s !! j = Some r1' ∧ rows s !! i = Some r2') as [Hsj Hsi].
  { rewrite Hl. split; [apply list_lookup_insert_eq; by rewrite length_insert|]. rewrite list_lookup_insert_ne by done. by apply list_lookup_insert_eq. }
  unfold swap_masks. wp_step. eapply wp_copy_mask; [exact Hsj|exact Hsi|]. cbn beta.
  assert (set_mask (allowed_token_ids_mask r1') r2' = r2) as -> by by destruct r2.
  assert (<[i := r2]> (rows s) = <[j := r1']> (<[i := r2]> l)) as Hr. { rewrite Hl, list_insert_insert_ne by done. by rewrite list_insert_insert_eq. }
  eapply (wp_copy_mask i j r2 r1'); simpl.
  - rewrite Hr, list_lookup_insert_ne by done. by apply list_lookup_insert_eq.
  - rewrite Hr. apply list_lookup_insert_eq. by rewrite length_insert.
  - rewrite Hr, list_insert_insert_eq. assert (set_mask (allowed_token_ids_mask r2) r1' = r1') as -> by done. exact HQ.
Qed.

(** The row from which row [k] comes. *)
Definition swapped (i j k : nat) : nat := if decide (k = j) then i else if decide (k = i) then j else k.
Lemma lookup_swap {A} (l : list A) i j k x y : l !! i = Some x → l !! j = Some y → <[j := x]> (<[i := y]> l) !! k = l !! swapped i j k.
Proof.
  intros Hi Hj. unfold swapped. case_decide; subst; [rewrite list_lookup_insert_eq by (rewrite length_insert; by eapply lookup_lt_Some); done|].
  rewrite list_lookup_insert_ne by done. case_decide; subst; [|by rewrite list_lookup_insert_ne]. rewrite list_lookup_insert_eq by (by eapply lookup_lt_Some). done.
Qed.
Lemma swapped_involutive i j k : swapped i j (swapped i j k) = k.
Proof. unfold swapped. repeat (case_decide; subst); done. Qed.

Lemma lookup_masked (l : list Row) i j r1 r2 m2 k row : l !! i = Some r1 → l !! j = Some r2 → i ≠ j → l !! k = Some row →
  ∃ mask, <[j := set_mask m2 r1]> (<[i := r2]> l) !! swapped i j k = Some (set_mask mask row).
Proof.
  intros Hi Hj Hij Hk. pose proof (lookup_lt_Some _ _ _ Hi). pose proof (lookup_lt_Some _ _ _ Hj). unfold swapped. case_decide as Hkj; subst.
  - exists (allowed_token_ids_mask row). rewrite list_lookup_insert_ne, list_lookup_insert_eq by done. assert (row = r2) as -> by congruence. by destruct r2.
  - case_decide as Hki; subst.
    + exists m2. rewrite list_lookup_insert_eq by (by rewrite length_insert). congruence.
    + exists (allowed_token_ids_mask row). rewrite !list_lookup_insert_ne by done. by destruct row.
Qed.

(** Without the masks, a row is the same. *)
Lemma row_ok_masked v e row mask : row_ok false v e row → row_ok false v e (set_mask mask row).
Proof. intros [O1 O2 O3 O4 (p & ? & ? & ? & _) O6]. split; try done. by exists p. Qed.

Lemma wp_swap_states live s i j E : sh_masks sh = false → core live s → dense live s → (i < length (req_ids s))%nat → (j < length (req_ids s))%nat → i ≠ j →
  i ∉ removed_ (batch_update_builder s) → j ∉ removed_ (batch_update_builder s) →
  wp (swap_states i j) (λ _ s', core live s' ∧ dense live s' ∧ edit (layout s) (layout s') ∧
    (∀ k, req_ids s' !! k = req_ids s !! swapped i j k) ∧ removed_ (batch_update_builder s') = removed_ (batch_update_builder s)) E s.
Proof.
  intros Hm H [Dn Dall] Hi Hj Hij Hri Hrj. pose proof H as [I1 I2 [I3 I3'] I4 I5 I6 I7 I8 [I9 I9'] I10 [I11 I11'] I12 I13 I14 I15]. simpl in *.
  destruct (lookup_lt_is_Some_2 _ _ Hi) as [x Hx], (lookup_lt_is_Some_2 _ _ Hj) as [y Hy].
  destruct (Forall_lookup_1 _ _ _ _ Dall Hx) as [id1 ->], (Forall_lookup_1 _ _ _ _ Dall Hy) as [id2 ->].
  pose proof (proj2 (I6 _ _) Hx) as X1. pose proof (proj2 (I6 _ _) Hy) as X2.
  destruct (lookup_lt_is_Some_2 (spec_token_ids s) i) as [sp1 S1]; [lia|]. destruct (lookup_lt_is_Some_2 (spec_token_ids s) j) as [sp2 S2]; [lia|].
  destruct (inv_row sh live _ i H ltac:(lia)) as (r1 & R1 & L1), (inv_row sh live _ j H ltac:(lia)) as (r2 & R2 & L2). simpl in R1, R2.
  destruct (mg_swap_row_ok (sh_limit sh) (sh_widths sh) (block_table s) i j I4) as (ts' & Hts & T1 & T2 & T3 & T4 & T5); [lia..|].
  unfold swap_states. wp_step. eapply wp_get_at; [exact Hx|]. wp_step. eapply wp_get_at; [exact Hy|]. cbn beta.
  wp_step. eapply wp_swap_at; [exact Hx|exact Hy|]. wp_step. eapply wp_swap_at; [simpl; rewrite I8; exact Hx|simpl; rewrite I8; exact Hy|].
  wp_step. eapply wp_swap_at; [exact S1|exact S2|]. cbn beta iota. wp_steps. eapply wp_from_option; [exact X2|]. wp_step. eapply wp_from_option; [exact X1|].
  wp_steps. eapply (wp_swap_rows i j r1 r2); [exact R1|exact R2|done|]. wp_step. eapply wp_on_table; [exact Hts|]. wp_step. eapply wp_on_builder; [reflexivity|].
  eapply (wp_swap_masks i j r1 r2 (rows s)); [done|lia|lia|done|]. simpl. set (r1' := set_mask _ r1).
  set (ids' := <[j := Some id1]> (<[i := Some id2]> (req_ids s))).
  assert (∀ k, ids' !! k = req_ids s !! swapped i j k) as Hids by (intros k; by apply lookup_swap).
  assert (∀ id, <[id2 := i]> (<[id1 := j]> (req_id_to_index s)) !! id = swapped i j <$> req_id_to_index s !! id) as Hidx.
  { intros id. destruct (decide (id = id2)) as [->|Hn2]; [rewrite lookup_insert_eq, X2; unfold swapped; simpl; by rewrite decide_True|].
    rewrite lookup_insert_ne by done. destruct (decide (id = id1)) as [->|Hn1]; [rewrite lookup_insert_eq, X1; unfold swapped; simpl; by rewrite decide_False, decide_True by done|].
    rewrite lookup_insert_ne by done. destruct (req_id_to_index s !! id) as [k|] eqn:Hk; [|done]. apply I6 in Hk. unfold swapped. simpl.
    rewrite !decide_False; [done|intros ->; congruence..]. }
  split_and!; [|split; simpl; [unfold ids'; by rewrite !length_insert|]|by apply edit_swap|exact Hids|done].
  2:{ apply Forall_insert; [apply Forall_insert; [done|]|]; eauto. }
  split; simpl; try done.
  - rewrite !length_insert. split; [done|]. by apply Forall_insert; [apply Forall_insert|].
  - by etrans.
  - intros id k. rewrite Hidx, Hids. rewrite <-I6. destruct (req_id_to_index s !! id) as [k'|]; [|done]. simpl.
    split; [intros [= <-]|intros [= ->]]; by rewrite swapped_involutive.
  - unfold ids'. by rewrite !length_insert.
  - unfold ids'. by rewrite I8.
  - split; [apply NoDup_empty_rows|apply elem_of_empty_rows].
  - unfold ids'. rewrite !length_insert. split; [done|]. intros k z Hk Hz. rewrite !list_lookup_insert_ne in Hz by lia. by eapply I11'.
  - intros id. by rewrite Hidx, fmap_is_Some.
  - intros id k e Hk He. rewrite Hidx in Hk. destruct (req_id_to_index s !! id) as [k'|] eqn:Hk'; [|done]. injection Hk as <-.
    destruct (I13 id k' e Hk' He) as [B1 B2 B3 (row & B4 & B5)]. simpl in B2, B3, B4. split; simpl; [done|by erewrite lookup_swap, swapped_involutive| |].
    + unfold swapped. case_decide; subst; [by apply T4|]. case_decide; subst; [by apply T3|]. by apply T5.
    + destruct (lookup_masked (rows s) i j r1 r2 (allowed_token_ids_mask r2) k' row R1 R2 Hij B4) as [mask Hrow]. eexists. split; [exact Hrow|].
      rewrite Hm in *. by apply row_ok_masked.
  - intros k row Hk Hf. destruct (decide (k = j)) as [->|Hkj]; [by destruct (Hf id1); apply list_lookup_insert_eq; rewrite length_insert|].
    rewrite list_lookup_insert_ne in Hk by done. destruct (decide (k = i)) as [->|Hki].
    { destruct (Hf id2). unfold ids'. rewrite list_lookup_insert_ne by done. by apply list_lookup_insert_eq. }
    rewrite list_lookup_insert_ne in Hk by done. apply (I14 _ row Hk). intros id Hid. apply (Hf id). unfold ids'. by rewrite !list_lookup_insert_ne.
Qed.

(** *** [refresh_metadata] *)

Definition update_of (b : BU) (n : nat) : option BatchUpdate :=
  match removed_ b, moved b, added b with [], [], [] => None | r, m, a => Some (mkBatchUpdate n r a m) end.
Lemma wp_refresh live s E : core live s → dense live s →
  wp refresh_metadata (λ u s', inv live s' ∧ s' = set_builder builder_init s ∧ u = update_of (batch_update_builder s) (num_reqs s)) E s.
Proof.
  intros H [_ Dall]. unfold refresh_metadata. wp_steps. eapply (wp_on_builder _ (update_of (batch_update_builder s) (num_reqs s)) builder_init).
  { unfold get_and_reset, update_of, gets, modify, mbind, M_bind. simpl. destruct (removed_ _), (moved _), (added _); done. }
  split_and!; [|done|done]. apply core_inv; simpl; [by apply core_builder|constructor| |done]. intros i. split; [by intros ?%elem_of_nil|].
  intros Hx. by destruct (Forall_lookup_1 _ _ _ _ Dall Hx).
Qed.
End moves.
