(* ===== verification/WorkerRunner.v ===== *)
(** The model runner's use of the batch: [_update_states] of worker/npu_runner_state.py and the
    reordering of attention/backends/utils.py. *)
From S2P Require Import Prelude BlockTable InputBatch.
Local Open Scope Z_scope.

(** ** Scheduler output *)

Record NewReq := mkNewReq {
  nr_req_id : string;
  nr_prompt_token_ids : list Z;
  nr_sampling_params : option BatchSampling;
  nr_block_ids : list (list Z);
  nr_num_computed_tokens : Z;
}.
(** The lists of [CachedRequestData]. *)
Record CachedReqs := mkCachedReqs {
  cr_req_ids : list string;
  cr_resumed_req_ids : gset string;
  cr_new_token_ids : list (list Z);
  cr_all_token_ids : gmap string (list Z);
  cr_new_block_ids : list (option (list (list Z)));
  cr_num_computed_tokens : list Z;
  cr_num_output_tokens : list Z;
}.
Record StepOutput := mkStepOutput {
  so_new_reqs : list NewReq;
  so_cached_reqs : CachedReqs;
  so_num_scheduled_tokens : gmap string Z;
  so_spec_decode_tokens : gmap string (list Z);
  so_finished_req_ids : gset string;
}.

(** ** The runner *)

Record Runner := mkRunner {
  requests : gmap string CachedRequestState;
  num_prompt_logprobs : gmap string Z;
  input_batch : InputBatch;
}.
Definition set_known f (s : Runner) : Runner := mkRunner (f (requests s)) (num_prompt_logprobs s) (input_batch s).
Definition set_prompt_logprobs f (s : Runner) : Runner := mkRunner (requests s) (f (num_prompt_logprobs s)) (input_batch s).
Definition set_batch b (s : Runner) : Runner := mkRunner (requests s) (num_prompt_logprobs s) b.
Definition on_batch {A} (m : M InputBatch A) : M Runner A := zoom input_batch set_batch m.
(** [self.requests[id]], and a change of the object found there. *)
Definition get_request (id : string) : M Runner CachedRequestState := s ← gets requests; from_option_raise KeyError (s !! id).
Definition upd_request (id : string) (f : CachedRequestState → CachedRequestState) : M Runner unit :=
  r ← get_request id; modify (set_known <[id := f r]>).

(** ** [reorder_batch_to_split_decodes_and_prefills] *)

(** The stable [argsort]: rows in the order of their keys, rows of one key as they were. *)
Fixpoint insert_by (key : nat → Z) (x : nat) (l : list nat) : list nat :=
  match l with
  | [] => [x]
  | y :: l' => if key x <=? key y then x :: l else y :: insert_by key x l'
  end.
Definition argsort (key : nat → Z) (xs : list nat) : list nat := foldr (insert_by key) [] xs.

(** [while src != dst: ...]; each turn puts another row in its place. *)
Fixpoint swap_cycle (fuel : nat) (src dst : nat) (m : gmap nat nat) : M InputBatch (gmap nat nat) :=
  match fuel with
  | O => mret m
  | S fuel =>
      if decide (src = dst) then mret m
      else
        swap_states src dst ;;
        swap_cycle fuel src (default dst (m !! dst)) (<[dst := dst]> m)
  end.
Definition req_region (threshold scheduled computed : Z) : Z :=
  let is_prefill := computed =? 0 in
  let is_extend := negb (scheduled <=? threshold) && negb is_prefill in
  if is_prefill then 2 else if is_extend then 1 else 0.
Definition req_regions (threshold : Z) (scheduled computed : list Z) : list Z := zip_with (req_region threshold) scheduled computed.
Definition count_region (r : Z) (regions : list Z) : nat := length (filter (λ x, x = r) regions).
Definition target_regions (regions : list Z) : list Z :=
  replicate (count_region 0 regions) 0 ++ replicate (count_region 1 regions) 1 ++
    replicate (length regions - count_region 0 regions - count_region 1 regions) 2.
Definition needs_swap (regions : list Z) : list nat :=
  filter (λ i, regions !! i ≠ target_regions regions !! i) (seq 0 (length regions)).
Definition reorder_batch (num_scheduled_tokens : gmap string Z) (decode_threshold : Z) : M InputBatch bool :=
  ids ← gets req_ids;
  scheduled ← of_outcome (mapM (λ id : option string, match id with
    | Some id => match num_scheduled_tokens !! id with Some n => Ret n | None => Raise KeyError end
    | None => Raise KeyError
    end) ids);
  rows ← gets rows;
  let computed := take (length ids) (num_computed_tokens_cpu <$> rows) in
  let regions := req_regions decode_threshold scheduled computed in
  match needs_swap regions with
  | [] => mret false
  | orig_indices =>
      let src_indices := argsort (λ i, default 0 (regions !! i)) orig_indices in
      let src_dest_map : gmap nat nat := list_to_map (zip src_indices orig_indices) in
      for_fold src_indices src_dest_map (λ m src,
        dst ← from_option_raise KeyError (m !! src);
        swap_cycle (length orig_indices) src dst m) ;;
      mret true
  end.

(** ** [_update_states] *)

Section update.
(** How a set is iterated over; the pipeline-parallel rank, asynchronous scheduling, the
    reordering threshold and the counts of valid sampled tokens of the last step. *)
Variables (set_order : gset string → list string) (is_last_rank use_async_scheduling : bool) (reorder_batch_threshold : option Z)
  (valid_sampled_token_count : list Z).

Definition remove_from_batch (id : string) : M Runner unit := on_batch (ib_remove_request id) ;; mret tt.

(** [torch.Generator] seeded with the seed. *)
Definition make_generator (p : option BatchSampling) : option Z :=
  match p with
  | Some p => match sampling_type p with RANDOM_SEED => seed p | _ => None end
  | None => None
  end.
Definition new_state_of (d : NewReq) : CachedRequestState :=
  mkCachedState (nr_req_id d) (nr_prompt_token_ids d) (nr_sampling_params d) (make_generator (nr_sampling_params d)) (nr_block_ids d)
    (nr_num_computed_tokens d) [] 0.
(** [_update_streaming_request]. *)
Definition streaming_state (d : NewReq) (r : CachedRequestState) : CachedRequestState :=
  mkCachedState (st_req_id r) (nr_prompt_token_ids d) (nr_sampling_params d) (st_generator r) (nr_block_ids d) (nr_num_computed_tokens d) []
    (st_prev_num_draft_len r).
Definition update_streaming_request (id : string) (d : NewReq) : M Runner unit :=
  remove_from_batch id ;; upd_request id (streaming_state d).

Definition add_new (d : NewReq) : M Runner unit :=
  let id := nr_req_id d in
  s ← gets (λ s, s);
  match requests s !! id with
  | Some _ => update_streaming_request id d
  | None =>
      modify (set_known <[id := new_state_of d]>) ;;
      match nr_sampling_params d ≫= prompt_logprobs with
      | Some n => modify (set_prompt_logprobs <[id := if n =? -1 then vocab_size (input_batch s) else n]>)
      | None => mret tt
      end
  end.

(** What a turn of the loop over the cached requests reads. *)
Record CachedReq := mkCachedReq {
  cq_computed : Z;
  cq_new_block_ids : option (list (list Z));
  cq_resumed : bool;
  cq_num_output_tokens : Z;
  cq_new_token_ids : option (list Z);
}.
Definition cached_req (d : CachedReqs) (i : nat) (id : string) : outcome CachedReq :=
  computed ← np_get (cr_num_computed_tokens d) i;
  blocks ← np_get (cr_new_block_ids d) i;
  outputs ← np_get (cr_num_output_tokens d) i;
  tokens ← (if is_last_rank then Ret None else match cr_new_token_ids d with [] => Ret None | l => t ← np_get l i; Ret (Some t) end);
  Ret (mkCachedReq computed blocks (bool_decide (id ∈ cr_resumed_req_ids d)) outputs tokens).

(** The correction for rejected draft tokens, with asynchronous scheduling. *)
Definition rejection_correction (id : string) (req_index : option nat) (computed : Z) : M Runner Z :=
  r ← get_request id;
  if negb (st_prev_num_draft_len r =? 0) && use_async_scheduling then
    match req_index with
    | None => upd_request id (st_set_prev_draft 0) ;; mret computed
    | Some _ =>
        s ← gets (λ s, s);
        match prev_req_id_to_index (input_batch s) with
        | None => raise AssertionError
        | Some prev =>
            prev_req_index ← from_option_raise KeyError (prev !! id);
            count ← of_outcome (np_get valid_sampled_token_count prev_req_index);
            let num_accepted := count - 1 in
            upd_request id (λ r, st_set_outputs (st_output_token_ids r ++ replicate (Z.to_nat num_accepted) (-1)) r) ;;
            mret (computed - (st_prev_num_draft_len r - num_accepted))
        end
    end
  else mret computed.

(** The output tokens of the cached state. *)
Definition received_tokens (computed : Z) (new_token_ids : list Z) (r : CachedRequestState) : outcome (list Z) :=
  let num_new_tokens := computed + Z.of_nat (length new_token_ids) - st_num_tokens r in
  if num_new_tokens =? 1 then match last new_token_ids with Some t => Ret [t] | None => Raise IndexError end
  else if 0 <? num_new_tokens then Ret (drop (length new_token_ids - Z.to_nat num_new_tokens) new_token_ids)
  else Ret [].
Definition update_outputs (id : string) (req_index : option nat) (computed : Z) (q : CachedReq) : M Runner unit :=
  if negb is_last_rank then
    match cq_new_token_ids q with
    | None => mret tt
    | Some l =>
        r ← get_request id;
        received ← of_outcome (received_tokens computed l r);
        upd_request id (λ r, st_set_outputs (st_output_token_ids r ++ received) r)
    end
  else
    r ← get_request id;
    if cq_num_output_tokens q <? Z.of_nat (length (st_output_token_ids r)) then
      upd_request id (λ r, st_set_outputs (take (Z.to_nat (cq_num_output_tokens q)) (st_output_token_ids r)) r) ;;
      match req_index with
      | Some i => on_batch (upd_row i (λ r, set_counts (num_prompt_tokens r + cq_num_output_tokens q) (num_prompt_tokens r) (num_computed_tokens_cpu r) r))
      | None => mret tt
      end
    else mret tt.

(** The blocks of the cached state. *)
Definition update_blocks (id : string) (req_index : option nat) (q : CachedReq) : M Runner unit :=
  if negb (cq_resumed q) then
    match cq_new_block_ids q with
    | Some new => upd_request id (λ r, st_set_blocks (zip_with app (st_block_ids r) new ++ drop (length new) (st_block_ids r)) r)
    | None => mret tt
    end
  else
    match req_index, cq_new_block_ids q with
    | None, Some new => upd_request id (st_set_blocks new)
    | _, _ => raise AssertionError
    end.

(** The drafts of the step, in the batch and on the request. *)
Definition update_specs (drafts : gmap string (list Z)) (id : string) : M Runner unit :=
  n ← on_batch (update_req_spec_token_ids id (default [] (drafts !! id)));
  upd_request id (st_set_prev_draft n).

(** A turn of the loop; the result is whether the request is to be added to the batch. *)
Definition update_cached (o : StepOutput) (i : nat) (id : string) : M Runner bool :=
  get_request id ;;
  q ← of_outcome (cached_req (so_cached_reqs o) i id);
  b ← gets input_batch;
  let req_index := req_id_to_index b !! id in
  computed ← rejection_correction id req_index (cq_computed q);
  upd_request id (st_set_computed computed) ;;
  update_outputs id req_index computed q ;;
  update_blocks id req_index q ;;
  match req_index with
  | None =>
      (if use_async_scheduling && (0 <? cq_num_output_tokens q) then
         all ← from_option_raise KeyError (cr_all_token_ids (so_cached_reqs o) !! id);
         upd_request id (st_set_outputs (drop (length all - Z.to_nat (cq_num_output_tokens q)) all))
       else mret tt) ;;
      mret true
  | Some idx =>
      on_batch (upd_row idx (λ r, set_counts (num_tokens_no_spec r) (num_prompt_tokens r) computed r)) ;;
      (match cq_new_block_ids q with Some new => on_batch (on_table (mg_append_row new idx)) | None => mret tt end) ;;
      (if is_last_rank then mret tt
       else
         let new_token_ids := default [] (cq_new_token_ids q) in
         on_batch (write_tokens idx computed new_token_ids) ;;
         on_batch (upd_row idx (λ r, set_counts (computed + Z.of_nat (length new_token_ids)) (num_prompt_tokens r) (num_computed_tokens_cpu r) r))) ;;
      update_specs (so_spec_decode_tokens o) id ;;
      mret false
  end.

(** The requests in the batch that are not scheduled, or that are resumed. *)
Definition unscheduled_req_ids (o : StepOutput) (b : InputBatch) : gset string :=
  dom (req_id_to_index b) ∖ (dom (so_num_scheduled_tokens o) ∖ cr_resumed_req_ids (so_cached_reqs o)).

Definition add_to_batch (drafts : gmap string (list Z)) (id : string) : M Runner unit :=
  r ← get_request id;
  on_batch (ib_add_request r) ;;
  update_specs drafts id.

Definition may_reorder_batch (o : StepOutput) : M Runner unit :=
  b ← gets input_batch;
  match block_table b, reorder_batch_threshold with
  | [], _ => mret tt
  | _, None => mret tt
  | _, Some threshold => on_batch (reorder_batch (so_num_scheduled_tokens o) threshold) ;; mret tt
  end.

(** The parts of [_update_states]: rows are removed, requests updated, rows added. *)
Definition remove_rows (o : StepOutput) : M Runner unit :=
  let finished := set_order (so_finished_req_ids o) in
  for_each finished (λ id, modify (set_known (delete id)) ;; modify (set_prompt_logprobs (delete id))) ;;
  for_each finished remove_from_batch ;;
  b ← gets input_batch;
  for_each (set_order (unscheduled_req_ids o b)) remove_from_batch.
Definition update_members (o : StepOutput) : M Runner unit :=
  remove_rows o ;;
  for_each (so_new_reqs o) add_new ;;
  resumed ← for_fold (imap pair (cr_req_ids (so_cached_reqs o))) [] (λ acc '(i, id),
    add ← update_cached o i id; mret (if (add : bool) then acc ++ [id] else acc));
  for_each ((nr_req_id <$> so_new_reqs o) ++ resumed) (add_to_batch (so_spec_decode_tokens o)).

Definition update_states (o : StepOutput) : M Runner (option BatchUpdate) :=
  update_members o ;;
  on_batch condense ;;
  may_reorder_batch o ;;
  on_batch refresh_metadata.
End update.
