(* ===== verification/BatchReorder.v ===== *)
(** [reorder_batch_to_split_decodes_and_prefills]: the loop over the cycles of the permutation
    ends, permutes the rows, and leaves decodes before extends before prefills. *)
From S2P Require Import Prelude BlockTable SlotMapping InputBatch LogitsUpdate InputBatchInv BatchOps BatchMoves WorkerRunner.
From stdpp Require Import sorting.
Local Open Scope Z_scope.

(** ** Sorting *)

Lemma insert_by_perm key x l : insert_by key x l ≡ₚ x :: l.
Proof. induction l as [|y l IH]; simpl; [done|]. destruct (key x <=? key y); [done|]. rewrite IH. apply Permutation_swap. Qed.
Lemma argsort_perm key xs : argsort key xs ≡ₚ xs.
Proof. induction xs as [|x xs IH]; [done|]. simpl. by rewrite insert_by_perm, IH. Qed.

Lemma insert_by_sorted key x l : StronglySorted Z.le (key <$> l) → StronglySorted Z.le (key <$> insert_by key x l).
Proof.
  induction l as [|y l IH]; intros H; simpl; [by repeat constructor|]. rewrite fmap_cons in H. apply StronglySorted_inv in H as [H1 H2].
  destruct (Z.leb_spec (key x) (key y)) as [Hle|Hgt].
  - rewrite !fmap_cons. constructor; [by constructor|]. constructor; [done|]. eapply Forall_impl; [exact H2|]. intros; lia.
  - rewrite fmap_cons. constructor; [by apply IH|]. rewrite insert_by_perm, fmap_cons. constructor; [lia|done].
Qed.
Lemma argsort_sorted key xs : StronglySorted Z.le (key <$> argsort key xs).
Proof. induction xs as [|x xs IH]; simpl; [constructor|]. by apply insert_by_sorted. Qed.

Lemma sorted_unique (l k : list Z) : StronglySorted Z.le l → StronglySorted Z.le k → l ≡ₚ k → l = k.
Proof. intros H1 H2 H3. eapply StronglySorted_unique; [|exact H1|exact H2|exact H3]. intros x y ? ?. lia. Qed.

(** ** Regions *)

Definition region_ok (r : Z) : Prop := r = 0 ∨ r = 1 ∨ r = 2.

Lemma region_counts rs : Forall region_ok rs →
  (count_region 0 rs + count_region 1 rs + count_region 2 rs = length rs)%nat ∧
  rs ≡ₚ replicate (count_region 0 rs) 0 ++ replicate (count_region 1 rs) 1 ++ replicate (count_region 2 rs) 2.
Proof.
  unfold count_region. induction 1 as [|r rs Hr _ [IH1 IH2]]; [done|]. destruct Hr as [->|[->| ->]]; rewrite !filter_cons; simpl; split; try lia.
  - by rewrite IH2 at 1.
  - rewrite IH2 at 1. by rewrite Permutation_middle.
  - rewrite IH2 at 1. rewrite Permutation_middle. by rewrite Permutation_middle.
Qed.
Lemma target_perm rs : Forall region_ok rs → target_regions rs ≡ₚ rs.
Proof.
  intros H. destruct (region_counts rs H) as [H1 H2]. unfold target_regions.
  replace (length rs - count_region 0 rs - count_region 1 rs)%nat with (count_region 2 rs) by lia. by symmetry.
Qed.
Lemma length_target rs : Forall region_ok rs → length (target_regions rs) = length rs.
Proof. intros H. by apply Permutation_length, target_perm. Qed.
Lemma replicate_sorted n (x : Z) : StronglySorted Z.le (replicate n x).
Proof. induction n; simpl; constructor; [done|]. by apply Forall_replicate. Qed.
Lemma target_sorted rs : StronglySorted Z.le (target_regions rs).
Proof.
  assert (∀ l k, StronglySorted Z.le l → StronglySorted Z.le k → (∀ x y, x ∈ l → y ∈ k → x ≤ y) → StronglySorted Z.le (l ++ k)) as Happ.
  { intros l k Hl Hk H. induction Hl as [|x l Hl IH Hx]; [done|]. simpl. constructor; [apply IH; intros; apply H; [by right|done]|].
    apply Forall_app. split; [done|]. apply Forall_forall. intros y Hy. apply H; [by left|done]. }
  unfold target_regions. repeat apply Happ; try apply replicate_sorted; intros x y; rewrite ?elem_of_app, !elem_of_replicate; lia.
Qed.

(** The regions of the rows that move, sorted, are the regions wanted there. *)
Lemma restrict_perm {A} (l : list A) (d : A) (P : nat → Prop) `{!∀ i, Decision (P i)} :
  l ≡ₚ ((λ i, default d (l !! i)) <$> filter P (seq 0 (length l))) ++ ((λ i, default d (l !! i)) <$> filter (λ i, ¬ P i) (seq 0 (length l))).
Proof.
  rewrite <-fmap_app. assert (filter P (seq 0 (length l)) ++ filter (λ i, ¬ P i) (seq 0 (length l)) ≡ₚ seq 0 (length l)) as ->.
  { generalize (seq 0 (length l)). intros xs. induction xs as [|x xs IH]; [done|]. rewrite !filter_cons.
    destruct (decide (P x)); [rewrite decide_False by tauto; simpl; by rewrite IH|]. rewrite decide_True by done. rewrite <-Permutation_middle. by rewrite IH. }
  apply (reflexive_eq l). apply list_eq. intros i. rewrite list_lookup_fmap. destruct (decide (i < length l)%nat) as [Hi|Hi].
  - rewrite lookup_seq_lt by done. simpl. destruct (lookup_lt_is_Some_2 l i Hi) as [x ->]. done.
  - rewrite (lookup_ge_None_2 l) by lia. by rewrite lookup_seq_ge by lia.
Qed.

Lemma moved_regions rs : Forall region_ok rs →
  (λ i, default 0 (rs !! i)) <$> argsort (λ i, default 0 (rs !! i)) (needs_swap rs) = (λ i, default 0 (target_regions rs !! i)) <$> needs_swap rs.
Proof.
  intros H. apply sorted_unique; [apply argsort_sorted| |].
  - unfold needs_swap. generalize (length_target rs H). pose proof (target_sorted rs) as Hs. revert Hs. generalize (target_regions rs) as ts. intros ts Hs Hl.
    rewrite <-Hl. assert (∀ (P : nat → Prop) (HP : ∀ i, Decision (P i)) ts k, StronglySorted Z.le ts →
      StronglySorted Z.le ((λ i, default 0 (ts !! (i - k)%nat)) <$> filter P (seq k (length ts)))) as Hgen.
    { clear. intros P HP ts. induction ts as [|t ts IH]; intros k Hs; [constructor|]. apply StronglySorted_inv in Hs as [Hs Ht].
      assert ((λ i, default 0 ((t :: ts) !! (i - k)%nat)) <$> filter P (seq (S k) (length ts)) = (λ i, default 0 (ts !! (i - S k)%nat)) <$> filter P (seq (S k) (length ts))) as Heq.
      { apply list_fmap_ext. intros j i Hi. apply list_elem_of_lookup_2, list_elem_of_filter in Hi as [_ Hi%elem_of_seq].
        replace (i - k)%nat with (S (i - S k)) by lia. done. }
      simpl. rewrite filter_cons. case_decide; [|by rewrite Heq; apply IH]. rewrite fmap_cons, Heq, Nat.sub_diag. constructor; [by apply IH|].
      simpl. apply Forall_fmap, Forall_forall. intros i Hi. apply list_elem_of_filter in Hi as [_ Hi%elem_of_seq]. simpl.
      destruct (lookup_lt_is_Some_2 ts (i - S k)) as [x Hx]; [lia|]. rewrite Hx. by apply (Forall_lookup_1 _ _ _ _ Ht Hx). }
    specialize (Hgen (λ i, rs !! i ≠ ts !! i) _ ts 0%nat Hs). erewrite list_fmap_ext; [exact Hgen|]. intros j i _. simpl. by rewrite Nat.sub_0_r.
  - rewrite argsort_perm. pose proof (restrict_perm rs 0 (λ i, rs !! i ≠ target_regions rs !! i)) as H1.
    pose proof (restrict_perm (target_regions rs) 0 (λ i, rs !! i ≠ target_regions rs !! i)) as H2. rewrite (length_target rs H) in H2.
    rewrite (target_perm rs H) in H2 at 1. rewrite H1 in H2 at 1. fold (needs_swap rs) in H2.
    assert ((λ i, default 0 (rs !! i)) <$> filter (λ i, ¬ rs !! i ≠ target_regions rs !! i) (seq 0 (length rs)) =
      (λ i, default 0 (target_regions rs !! i)) <$> filter (λ i, ¬ rs !! i ≠ target_regions rs !! i) (seq 0 (length rs))) as Heq.
    { apply list_fmap_ext. intros j i Hi. apply list_elem_of_lookup_2, list_elem_of_filter in Hi as [Hi _]. apply dec_stable in Hi. by rewrite Hi. }
    rewrite Heq in H2. by apply Permutation_app_inv_r in H2.
Qed.

(** ** Cycles *)

Section cycles.
Context (sh : Shape) (live : gmap string Entry) (dest : string → nat).
Implicit Types s : IB.
Abbreviation core := (batch_core sh).

(** The row where the request of row [k] belongs. *)
Definition dest_at (ids : list (option string)) (k : nat) : option nat :=
  match ids !! k with Some (Some id) => Some (dest id) | _ => None end.
Definition misplaced (ids : list (option string)) : list nat := filter (λ k, dest_at ids k ≠ Some k) (seq 0 (length ids)).

(** Between two turns of the loop over the rows. *)
Record cycling (s : IB) : Prop := {
  cy_masks : sh_masks sh = false;
  cy_core : core live s;
  cy_dense : dense live s;
  cy_removed : tail_removed (length (req_ids s)) s;
  cy_bound : ∀ i d, dest_at (req_ids s) i = Some d → (d < length (req_ids s))%nat;
  cy_inj : ∀ i j d, dest_at (req_ids s) i = Some d → dest_at (req_ids s) j = Some d → i = j;
}.

Lemma misplaced_swap ids ids' src dst : length ids' = length ids → (∀ k, ids' !! k = ids !! swapped src dst k) →
  dest_at ids src = Some dst → src ≠ dst → (dst < length ids)%nat → (∀ i j d, dest_at ids i = Some d → dest_at ids j = Some d → i = j) →
  (length (misplaced ids') < length (misplaced ids))%nat.
Proof.
  intros Hl Hs Hd Hne Hlt Hinj. assert (∀ k, dest_at ids' k = dest_at ids (swapped src dst k)) as Hds by (intros k; unfold dest_at; by rewrite Hs).
  assert (dst :: misplaced ids' ⊆+ misplaced ids) as Hsub; [|apply submseteq_length in Hsub; simpl in Hsub; lia].
  apply NoDup_submseteq.
  - constructor; [|apply NoDup_filter, NoDup_seq]. unfold misplaced. rewrite list_elem_of_filter, Hds. unfold swapped. rewrite decide_True by done. tauto.
  - intros k. unfold misplaced. rewrite elem_of_cons, !list_elem_of_filter, !elem_of_seq, Hl, Hds. intros [->|[Hk Hin]].
    + split; [|lia]. intros Hdd. apply Hne. by eapply Hinj.
    + split; [|lia]. unfold swapped in Hk. destruct (decide (k = dst)) as [->|]; [done|]. destruct (decide (k = src)) as [->|]; [|done]. rewrite Hd. congruence.
Qed.

Lemma wp_swap_cycle fuel s src dst m (settled : list nat) E : cycling s → dest_at (req_ids s) src = Some dst → (length (misplaced (req_ids s)) ≤ fuel)%nat →
  (∀ k, k ≠ src → (k < length (req_ids s))%nat → k ∉ settled → dest_at (req_ids s) k = Some (default k (m !! k))) → (∀ k, k ∈ settled → dest_at (req_ids s) k = Some k) → src ∉ settled →
  wp (swap_cycle fuel src dst m) (λ m' s', cycling s' ∧ rtc edit (layout s) (layout s') ∧ length (req_ids s') = length (req_ids s) ∧
    dest_at (req_ids s') src = Some src ∧ (∀ k, is_Some (m !! k) → is_Some (m' !! k)) ∧ (∀ k, dest_at (req_ids s) k = Some k → dest_at (req_ids s') k = Some k) ∧
    (∀ k, k ≠ src → (k < length (req_ids s))%nat → k ∉ settled → dest_at (req_ids s') k = Some (default k (m' !! k))) ∧
    (length (misplaced (req_ids s')) ≤ length (misplaced (req_ids s)))%nat) E s.
Proof.
  revert s dst m. induction fuel as [|fuel IH]; intros s dst m C Hd Hf Hm Hset Hns; simpl.
  all: assert ((src < length (req_ids s))%nat) as Lsrc by (unfold dest_at in Hd; destruct (req_ids s !! src) as [[?|]|] eqn:Hx; simplify_eq; by eapply lookup_lt_Some).
  - apply wp_ret. split_and!; try done. destruct (decide (dest_at (req_ids s) src = Some src)) as [|Hno]; [done|]. exfalso.
    assert (src ∈ misplaced (req_ids s)) as Hin by (apply list_elem_of_filter; split; [done|apply elem_of_seq; lia]).
    destruct (misplaced (req_ids s)); [by apply elem_of_nil in Hin|simpl in Hf; lia].
  - case_decide as Heq; [subst dst; apply wp_ret; by split_and!|].
    pose proof (cy_bound _ C _ _ Hd) as Ldst. wp_step. eapply wp_call.
    { apply (wp_swap_states sh live s src dst); [apply C|apply C|apply C|done|done|done|intros Hx; apply (cy_removed _ C) in Hx; lia..]. }
    intros [] s1 (S1 & S2 & S3 & S4 & S5). cbn beta. assert (length (req_ids s1) = length (req_ids s)) as Hl.
    { destruct S2 as [-> _]. destruct (cy_dense _ C) as [-> _]. done. }
    assert (∀ k, dest_at (req_ids s1) k = dest_at (req_ids s) (swapped src dst k)) as Hds by (intros k; unfold dest_at; by rewrite S4).
    assert (∀ i, dest_at (req_ids s) i = Some i → i ≠ src ∧ i ≠ dst) as Hhome.
    { intros i Hi. split; intros ->; [congruence|]. apply Heq. by eapply (cy_inj _ C). }
    assert (∀ i, i ≠ src → i ≠ dst → dest_at (req_ids s1) i = dest_at (req_ids s) i) as Hother by (intros i ? ?; rewrite Hds; unfold swapped; by rewrite !decide_False).
    assert (dest_at (req_ids s1) dst = Some dst) as Hdst by (rewrite Hds; unfold swapped; by rewrite decide_True).
    assert (dst ∉ settled) as Hdns by (intros Hx; by destruct (Hhome dst (Hset dst Hx))).
    eapply wp_call; [apply IH|].
    + split; [apply C|done|done|intros i; rewrite S5, Hl; apply C|intros i d; rewrite Hds, Hl; apply C|]. intros i j d. rewrite !Hds. intros H1 H2.
      rewrite <-(swapped_involutive src dst i), <-(swapped_involutive src dst j). f_equal. by eapply (cy_inj _ C).
    + rewrite Hds. unfold swapped. rewrite decide_False, decide_True by done. by apply Hm.
    + pose proof (misplaced_swap _ _ src dst Hl S4 Hd Heq Ldst (cy_inj _ C)). lia.
    + intros k Hk Hkl Hks. destruct (decide (k = dst)) as [->|Hkd]; [by rewrite lookup_insert_eq|]. rewrite lookup_insert_ne, Hother by done. apply Hm; [done|lia|done].
    + intros k Hk. destruct (Hhome k (Hset k Hk)). rewrite Hother by done. by apply Hset.
    + done.
    + intros m' s' (P1 & P2 & P3 & P4 & P5 & P6 & P7 & P8). split_and!; try done; [by eapply rtc_l|by rewrite P3|..].
      * intros k Hk. apply P5. destruct (decide (k = dst)) as [->|]; [rewrite lookup_insert_eq; eauto|by rewrite lookup_insert_ne].
      * intros k Hk. apply P6. destruct (Hhome k Hk). by rewrite Hother.
      * intros k ? ? ?. apply P7; [done|lia|done].
      * pose proof (misplaced_swap _ _ src dst Hl S4 Hd Heq Ldst (cy_inj _ C)). lia.
Qed.

(** The loop over the rows that move. *)
Lemma wp_swap_cycles srcs m n s E : cycling s → NoDup srcs → (∀ k, k ∈ srcs → is_Some (m !! k)) → (length (misplaced (req_ids s)) ≤ n)%nat →
  (∀ k, (k < length (req_ids s))%nat → dest_at (req_ids s) k = Some (default k (m !! k))) → (∀ k, k ∈ srcs → (k < length (req_ids s))%nat) →
  (∀ k, (k < length (req_ids s))%nat → k ∉ srcs → dest_at (req_ids s) k = Some k) →
  wp (for_fold srcs m (λ m src, dst ← from_option_raise KeyError (m !! src); swap_cycle n src dst m))
    (λ _ s', cycling s' ∧ rtc edit (layout s) (layout s') ∧ length (req_ids s') = length (req_ids s) ∧
      ∀ k, (k < length (req_ids s))%nat → dest_at (req_ids s') k = Some k) E s.
Proof.
  intros C Hnd Hsome Hn Hm Hlt Hrest.
  eapply (wp_for_fold (λ settled m s1, cycling s1 ∧ rtc edit (layout s) (layout s1) ∧ length (req_ids s1) = length (req_ids s) ∧
    (∀ k, k ∈ srcs → is_Some (m !! k)) ∧ (length (misplaced (req_ids s1)) ≤ n)%nat ∧
    (∀ k, (k < length (req_ids s))%nat → k ∉ settled → dest_at (req_ids s1) k = Some (default k (m !! k))) ∧ (∀ k, k ∈ settled → dest_at (req_ids s1) k = Some k) ∧
    (∀ k, dest_at (req_ids s) k = Some k → dest_at (req_ids s1) k = Some k))).
  - split_and!; try done; [intros k Hk _; by apply Hm|by intros k ?%elem_of_nil].
  - intros settled src todo m1 s1 Heq (I1 & I2 & I3 & I4 & I5 & I6 & I7 & I8). assert (src ∈ srcs) as Hin by (rewrite Heq; apply elem_of_app; right; by left).
    destruct (I4 src Hin) as [dst Hdst]. assert (src ∉ settled) as Hns. { rewrite Heq in Hnd. apply NoDup_app in Hnd as (_ & Hdis & _). intros Hx. apply (Hdis src Hx). by left. }
    wp_step. eapply wp_from_option; [done|]. eapply wp_call; [apply (wp_swap_cycle n s1 src dst m1 settled)|]; try done.
    + rewrite I6 by (done || by apply Hlt). by rewrite Hdst.
    + intros k _ Hk. apply I6. lia.
    + intros m' s' (P1 & P2 & P3 & P4 & P5 & P6 & P7 & P8). split_and!; [done|by etrans|by rewrite P3|intros k Hk; by apply P5, I4|lia| | |intros k Hk; by apply P6, I8].
      * intros k Hk [Hks Hk']%not_elem_of_app. apply P7; [by intros ->; apply Hk', list_elem_of_singleton|lia|done].
      * intros k [Hk|Hk%list_elem_of_singleton]%elem_of_app; [by apply P6, I7|by subst].
  - intros m' s' (I1 & I2 & I3 & I4 & I5 & I6 & I7 & I8). split_and!; [done..|]. intros k Hk. destruct (decide (k ∈ srcs)); [by apply I7|]. by apply I8, Hrest.
Qed.
End cycles.

(** ** The reordering *)

(** [src_dest_map] is a permutation of the rows that move. *)
Record permutes (srcs orig : list nat) (m : gmap nat nat) : Prop := {
  pm_to : ∀ j x y, srcs !! j = Some x → orig !! j = Some y → m !! x = Some y;
  pm_from : ∀ x y, m !! x = Some y → ∃ j, srcs !! j = Some x ∧ orig !! j = Some y;
  pm_none : ∀ k, k ∉ orig → m !! k = None;
  pm_some : ∀ k, k ∈ srcs → ∃ y, m !! k = Some y ∧ y ∈ orig;
  pm_inj : ∀ i j, default i (m !! i) = default j (m !! j) → i = j;
}.
Lemma src_dest_permutes srcs orig : NoDup orig → srcs ≡ₚ orig → permutes srcs orig (list_to_map (zip srcs orig)).
Proof.
  intros Ho Hperm. pose proof (Permutation_length Hperm) as Hlen. assert (NoDup srcs) as Hs by (by rewrite Hperm). set (m := list_to_map _).
  assert (∀ j x y, srcs !! j = Some x → orig !! j = Some y → m !! x = Some y) as H1.
  { intros j x y Hx Hy. apply elem_of_list_to_map; [rewrite fst_zip by lia; done|]. apply list_elem_of_lookup. exists j. by rewrite lookup_zip_with, Hx, Hy. }
  assert (∀ x y, m !! x = Some y → ∃ j, srcs !! j = Some x ∧ orig !! j = Some y) as H2.
  { intros x y Hxy. apply elem_of_list_to_map, list_elem_of_lookup in Hxy as [j Hj]; [|rewrite fst_zip by lia; done].
    rewrite lookup_zip_with in Hj. exists j. destruct (srcs !! j), (orig !! j); simplify_eq/=. done. }
  assert (∀ k, k ∉ orig → m !! k = None) as H3.
  { intros k Hk. apply eq_None_not_Some. intros [y Hy]. apply H2 in Hy as (j & Hj & _). apply Hk. rewrite <-Hperm. by eapply list_elem_of_lookup_2. }
  assert (∀ k, k ∈ srcs → ∃ y, m !! k = Some y ∧ y ∈ orig) as H4.
  { intros k [j Hj]%list_elem_of_lookup. destruct (lookup_lt_is_Some_2 orig j) as [y Hy]; [rewrite <-Hlen; by eapply lookup_lt_Some|].
    exists y. split; [by eapply H1|by eapply list_elem_of_lookup_2]. }
  split; [done..|]. intros i j Hij.
  destruct (decide (i ∈ orig)) as [Hi|Hi], (decide (j ∈ orig)) as [Hj|Hj]; [| | |rewrite (H3 i Hi), (H3 j Hj) in Hij; exact Hij].
  - rewrite <-Hperm in Hi. rewrite <-Hperm in Hj. destruct (H4 i Hi) as (y & Hy & _), (H4 j Hj) as (z & Hz & _). rewrite Hy, Hz in Hij. simpl in Hij. subst z.
    apply H2 in Hy as (a & Ha & Ha'). apply H2 in Hz as (b & Hb & Hb'). pose proof (NoDup_lookup orig a b y Ho Ha' Hb') as ->. congruence.
  - rewrite <-Hperm in Hi. destruct (H4 i Hi) as (y & Hy & Hin). rewrite Hy, (H3 j Hj) in Hij. simpl in Hij. by subst.
  - rewrite <-Hperm in Hj. destruct (H4 j Hj) as (y & Hy & Hin). rewrite Hy, (H3 i Hi) in Hij. simpl in Hij. by subst.
Qed.

(** The requests of the batch, whatever their rows. *)
Lemma dense_perm sh live s : batch_core sh live s → dense live s → req_ids s ≡ₚ Some <$> (map_to_list live).*1.
Proof.
  intros H [_ Dall]. pose proof (bi_index _ _ _ H) as I6. pose proof (bi_live _ _ _ H) as I12. simpl in I6, I12. apply NoDup_Permutation.
  - apply NoDup_alt. intros i j x Hi Hj. destruct (Forall_lookup_1 _ _ _ _ Dall Hi) as [id ->]. apply I6 in Hi. apply I6 in Hj. congruence.
  - apply NoDup_fmap_2; [apply _|apply NoDup_fst_map_to_list].
  - intros x. rewrite list_elem_of_fmap. split.
    + intros [i Hi]%list_elem_of_lookup. destruct (Forall_lookup_1 _ _ _ _ Dall Hi) as [id ->]. exists id. split; [done|].
      apply I6 in Hi. destruct (proj1 (I12 id)) as [e He]; [eauto|]. apply list_elem_of_fmap. exists (id, e). split; [done|by apply elem_of_map_to_list].
    + intros (id & -> & ([id' e] & -> & He)%list_elem_of_fmap). apply elem_of_map_to_list in He. simpl.
      destruct (proj2 (I12 id')) as [i Hi]; [eauto|]. apply I6 in Hi. by eapply list_elem_of_lookup_2.
Qed.

Section reorder.
Context (sh : Shape) (live : gmap string Entry) (sched : gmap string Z) (threshold : Z).
Context (Hsched : ∀ id, is_Some (live !! id) → is_Some (sched !! id)).

(** The region of a request: how many tokens are scheduled and whether some are computed. *)
Definition request_region (id : option string) : Z :=
  match id with
  | Some id => match sched !! id, live !! id with Some n, Some e => req_region threshold n (st_num_computed_tokens e.1) | _, _ => 0 end
  | None => 0
  end.
Lemma request_region_ok id : region_ok (request_region id).
Proof.
  unfold request_region, req_region, region_ok. destruct id as [id|]; [|tauto]. destruct (sched !! id), (live !! id); try tauto.
  destruct (_ =? _); [tauto|]. destruct (_ && _); tauto.
Qed.

(** What the code computes from the rows. *)
Lemma regions_of_rows s : batch_core sh live s → dense live s →
  ∃ scheduled, mapM (λ id : option string, match id with
      | Some id => match sched !! id with Some n => Ret n | None => Raise KeyError end
      | None => Raise KeyError
      end) (req_ids s) = Ret scheduled ∧
    req_regions threshold scheduled (take (length (req_ids s)) (num_computed_tokens_cpu <$> rows s)) = request_region <$> req_ids s.
Proof.
  intros H [Dl Dall]. pose proof (bi_index _ _ _ H) as I6. pose proof (bi_live _ _ _ H) as I12. pose proof (bi_held _ _ _ H) as I13. simpl in *.
  exists ((λ id, match id with Some id => default 0 (sched !! id) | None => 0 end) <$> req_ids s). split.
  - apply mapM_map. intros x [i Hi]%list_elem_of_lookup. destruct (Forall_lookup_1 _ _ _ _ Dall Hi) as [id ->]. apply I6 in Hi.
    destruct (Hsched id) as [n ->]; [|done]. apply I12. eauto.
  - apply list_eq. intros k. unfold req_regions. rewrite lookup_zip_with, !list_lookup_fmap. destruct (decide (k < length (req_ids s))%nat) as [Hk|Hk].
    2:{ by rewrite (lookup_ge_None_2 (req_ids s)) by lia. }
    rewrite lookup_take_lt, list_lookup_fmap by done. destruct (lookup_lt_is_Some_2 _ _ Hk) as [x Hx]. rewrite Hx. destruct (Forall_lookup_1 _ _ _ _ Dall Hx) as [id ->].
    pose proof (proj2 (I6 _ _) Hx) as Hi. destruct (proj1 (I12 id)) as [e He]; [eauto|]. destruct (Hsched id) as [n Hn]; [eauto|].
    destruct (he_row _ _ _ _ _ (I13 id k e Hi He)) as (row & Hrow & Hok). simpl in Hrow. rewrite Hrow. simpl. rewrite Hn, He. simpl. by rewrite (ro_computed _ _ _ _ Hok).
Qed.

Lemma no_swap rs : Forall region_ok rs → needs_swap rs = [] → rs = target_regions rs.
Proof.
  intros Hok Hns. pose proof (length_target rs Hok) as Hlt. apply list_eq. intros k.
  destruct (decide (k < length rs)%nat); [|rewrite (lookup_ge_None_2 rs), (lookup_ge_None_2 (target_regions rs)) by lia; done].
  destruct (decide (rs !! k = target_regions rs !! k)) as [|Hne]; [done|]. exfalso.
  assert (k ∈ needs_swap rs) as Hin by (apply list_elem_of_filter; split; [done|apply elem_of_seq; lia]). rewrite Hns in Hin. by apply elem_of_nil in Hin.
Qed.

Lemma region_at rs srcs m i : Forall region_ok rs → srcs = argsort (λ i, default 0 (rs !! i)) (needs_swap rs) → permutes srcs (needs_swap rs) m →
  (i < length rs)%nat → rs !! i = target_regions rs !! default i (m !! i).
Proof.
  intros Hok Hsrcs [P1 P2 P3 P4 P5] Hi. pose proof (length_target rs Hok) as Hlt. destruct (m !! i) as [k|] eqn:Hm; simpl.
  - destruct (P2 i k Hm) as (j & Hj & Hk). pose proof (moved_regions rs Hok) as Hmv. rewrite <-Hsrcs in Hmv. apply (f_equal (lookup j)) in Hmv.
    rewrite !list_lookup_fmap, Hj, Hk in Hmv. simpl in Hmv. injection Hmv as Hmv. apply list_elem_of_lookup_2, list_elem_of_filter in Hk as [_ Hk%elem_of_seq].
    destruct (lookup_lt_is_Some_2 rs i Hi) as [x Hx], (lookup_lt_is_Some_2 (target_regions rs) k) as [y Hy]; [lia|]. rewrite Hx, Hy in *. simpl in Hmv. by subst.
  - destruct (decide (rs !! i = target_regions rs !! i)) as [|Hne]; [done|]. exfalso.
    assert (i ∈ needs_swap rs) as Hin by (apply list_elem_of_filter; split; [done|apply elem_of_seq; lia]).
    destruct (P4 i) as (y & Hy & _); [rewrite Hsrcs; by rewrite argsort_perm|congruence].
Qed.

Lemma wp_reorder s E : sh_masks sh = false → batch_core sh live s → dense live s → tail_removed (length (req_ids s)) s →
  wp (reorder_batch sched threshold) (λ _ s', batch_core sh live s' ∧ dense live s' ∧ tail_removed (length (req_ids s')) s' ∧ rtc edit (layout s) (layout s') ∧
    request_region <$> req_ids s' = target_regions (request_region <$> req_ids s)) E s.
Proof.
  intros Hm H D Ht. destruct (regions_of_rows s H D) as (scheduled & Hs & Hr). pose proof D as [Dl Dall]. unfold reorder_batch. wp_steps. eapply wp_of_outcome; [exact Hs|].
  wp_steps. cbv zeta. rewrite Hr. set (rs := request_region <$> req_ids s) in *. set (ids := req_ids s) in *.
  assert (Forall region_ok rs) as Hok by (apply Forall_fmap, Forall_true; intros; apply request_region_ok).
  assert (length rs = length ids) as Hl by apply length_fmap. pose proof (length_target rs Hok) as Hlt.
  destruct (needs_swap rs) as [|o0 orig0] eqn:Horig; [apply wp_ret; split_and!; try done; by apply no_swap|].
  pose proof (moved_regions rs Hok) as Hmoved. rewrite Horig in Hmoved. set (orig := o0 :: orig0) in *. set (srcs := argsort (λ i, default 0 (rs !! i)) orig) in *.
  assert (NoDup orig) as Ho by (rewrite <-Horig; apply NoDup_filter, NoDup_seq). assert (srcs ≡ₚ orig) as Hperm by apply argsort_perm.
  pose proof (src_dest_permutes srcs orig Ho Hperm) as HP. pose proof HP as [P1 P2 P3 P4 P5]. set (m0 := list_to_map (zip srcs orig) : gmap nat nat) in *.
  assert (∀ k, k ∈ orig → (k < length ids)%nat) as Hob by (rewrite <-Horig; intros k [_ Hk%elem_of_seq]%list_elem_of_filter; lia).
  set (dest := λ id, let k := default 0%nat (req_id_to_index s !! id) in default k (m0 !! k)).
  pose proof (bi_index _ _ _ H) as I6. simpl in I6. fold ids in I6.
  assert (∀ k, (k < length ids)%nat → dest_at dest ids k = Some (default k (m0 !! k))) as Hdest.
  { intros k Hk. destruct (lookup_lt_is_Some_2 _ _ Hk) as [x Hx]. destruct (Forall_lookup_1 _ _ _ _ Dall Hx) as [id ->]. unfold dest_at, dest. rewrite Hx.
    apply I6 in Hx. by rewrite Hx. }
  assert (∀ k d, dest_at dest ids k = Some d → (k < length ids)%nat) as Hin.
  { intros k d Hd. unfold dest_at in Hd. destruct (ids !! k) eqn:Hx; [|done]. by eapply lookup_lt_Some. }
  assert (cycling sh live dest s) as C.
  { split; [done..| |].
    - intros i d Hd. pose proof (Hin _ _ Hd) as Hi. fold ids in Hd. rewrite Hdest in Hd by done. injection Hd as <-.
      destruct (decide (i ∈ orig)) as [Hio|Hio]; [|by rewrite P3]. rewrite <-Hperm in Hio. destruct (P4 i Hio) as (y & -> & Hy). by apply Hob.
    - intros i j d Hi Hj. fold ids in Hi, Hj. pose proof (Hin _ _ Hi). pose proof (Hin _ _ Hj). rewrite Hdest in Hi by done. rewrite Hdest in Hj by done. apply P5. congruence. }
  wp_step.
  eapply wp_call; [apply (wp_swap_cycles sh live dest srcs m0 (length orig) s)|]; try done.
  - by rewrite Hperm.
  - intros k Hk. destruct (P4 k Hk) as (y & -> & _). eauto.
  - apply submseteq_length, NoDup_submseteq; [apply NoDup_filter, NoDup_seq|]. intros k [Hk Hk'%elem_of_seq]%list_elem_of_filter.
    destruct (decide (k ∈ orig)) as [|Hno]; [done|]. destruct Hk. fold ids. rewrite Hdest by (fold ids in Hk'; lia). by rewrite P3.
  - intros k Hk. apply Hob. by rewrite <-Hperm.
  - intros k Hk Hno. fold ids. rewrite Hdest by done. rewrite P3; [done|]. by rewrite <-Hperm.
  - intros m' s' (C' & Hed & Hlen' & Hhome). wp_steps. split_and!; [apply C'|apply C'|apply C'|done|].
    apply list_eq. intros k. fold rs. rewrite list_lookup_fmap. destruct (decide (k < length ids)%nat) as [Hk|Hk].
    2:{ rewrite (lookup_ge_None_2 (req_ids s')) by (fold ids in Hlen'; lia). by rewrite lookup_ge_None_2 by lia. }
    specialize (Hhome k Hk). unfold dest_at in Hhome. destruct (req_ids s' !! k) as [[id|]|] eqn:Hid; [|done..]. injection Hhome as Hd.
    pose proof (bi_index _ _ _ (cy_core _ _ _ _ C')) as I6'. simpl in I6'. apply I6' in Hid. pose proof (bi_live _ _ _ (cy_core _ _ _ _ C') id) as L'. simpl in L'.
    destruct (proj2 (bi_live _ _ _ H id)) as [i0 Hi0]; [apply L'; eauto|]. simpl in Hi0. unfold dest in Hd. rewrite Hi0 in Hd. simpl in Hd. rewrite <-Hd.
    apply I6 in Hi0. pose proof (lookup_lt_Some _ _ _ Hi0) as Hlt0. unfold m0. rewrite <-(region_at rs srcs); [|done|by rewrite Horig|by rewrite Horig|lia].
    unfold rs. by rewrite list_lookup_fmap, Hi0.
Qed.
End reorder.
