(* ===== verification/WorkerStates.v ===== *)
(** [_update_states]: after every step the batch holds exactly the scheduled requests, each
    row what the scheduler sent for its request, and the logits processors follow. Synchronous
    scheduling on the last pipeline rank. *)
From S2P Require Import Prelude BlockTable SlotMapping InputBatch LogitsUpdate InputBatchInv BatchOps BatchMoves WorkerRunner BatchReorder.
Local Open Scope Z_scope.

(** ** What a step should do *)

Definition drafts_of (o : StepOutput) (id : string) : list Z := default [] (so_spec_decode_tokens o !! id).
Definition with_draft (o : StepOutput) (id : string) (r : CachedRequestState) : CachedRequestState :=
  st_set_prev_draft (Z.of_nat (length (drafts_of o id))) r.

(** The state of a request that comes as new: a new one, or the next turn of a session. *)
Definition new_or_streaming (d : NewReq) (old : option CachedRequestState) : CachedRequestState :=
  match old with Some r => streaming_state d r | None => new_state_of d end.
(** The state of a request that was known. *)
Definition kept_outputs (q : CachedReq) (r : CachedRequestState) : CachedRequestState :=
  if cq_num_output_tokens q <? Z.of_nat (length (st_output_token_ids r)) then
    st_set_outputs (take (Z.to_nat (cq_num_output_tokens q)) (st_output_token_ids r)) r
  else r.
Definition next_blocks (q : CachedReq) (r : CachedRequestState) : CachedRequestState :=
  match cq_new_block_ids q with
  | Some new => st_set_blocks (if cq_resumed q then new else zip_with app (st_block_ids r) new ++ drop (length new) (st_block_ids r)) r
  | None => r
  end.
Definition cached_state (q : CachedReq) (r : CachedRequestState) : CachedRequestState :=
  next_blocks q (kept_outputs q (st_set_computed (cq_computed q) r)).
Definition req_of (d : CachedReqs) (id : string) : outcome CachedReq :=
  match list_find (λ x, x = id) (cr_req_ids d) with Some (i, _) => cached_req true d i id | None => Raise KeyError end.

(** The requests of the runner after a step, from those that were not finished. *)
Record next_requests (o : StepOutput) (before after : gmap string CachedRequestState) : Prop := {
  nx_new : ∀ d, d ∈ so_new_reqs o → after !! nr_req_id d = Some (with_draft o (nr_req_id d) (new_or_streaming d (before !! nr_req_id d)));
  nx_cached : ∀ id q, id ∈ cr_req_ids (so_cached_reqs o) → req_of (so_cached_reqs o) id = Ret q →
    after !! id = with_draft o id ∘ cached_state q <$> before !! id;
  nx_other : ∀ id, id ∉ nr_req_id <$> so_new_reqs o → id ∉ cr_req_ids (so_cached_reqs o) → after !! id = before !! id;
}.
Definition unfinished_reqs (o : StepOutput) (reqs : gmap string CachedRequestState) : gmap string CachedRequestState :=
  filter (λ kv, kv.1 ∉ so_finished_req_ids o) reqs.
(** The rows that the batch should have. *)
Definition scheduled_entries (o : StepOutput) (reqs : gmap string CachedRequestState) : gmap string Entry :=
  map_imap (λ id _, (λ r, (r, Written (drafts_of o id))) <$> reqs !! id) (so_num_scheduled_tokens o).

(** ** What a step may rely on *)

Definition state_fits (sh : Shape) (o : StepOutput) (id : string) (r : CachedRequestState) : Prop :=
  request_fits sh r ∧ (length (st_prompt_token_ids r) + length (st_output_token_ids r) + length (drafts_of o id) ≤ sh_len sh)%nat.
Record output_ok (sh : Shape) (reqs : gmap string CachedRequestState) (o : StepOutput) : Prop := {
  ok_nodup : NoDup ((nr_req_id <$> so_new_reqs o) ++ cr_req_ids (so_cached_reqs o));
  ok_scheduled : ∀ id, is_Some (so_num_scheduled_tokens o !! id) ↔ id ∈ nr_req_id <$> so_new_reqs o ∨ id ∈ cr_req_ids (so_cached_reqs o);
  ok_limit : (size (so_num_scheduled_tokens o) ≤ sh_limit sh)%nat;
  ok_known : ∀ id, id ∈ cr_req_ids (so_cached_reqs o) → id ∉ so_finished_req_ids o ∧ is_Some (reqs !! id);
  ok_lists : ∀ i, (i < length (cr_req_ids (so_cached_reqs o)))%nat → (i < length (cr_num_computed_tokens (so_cached_reqs o)))%nat ∧
    (i < length (cr_new_block_ids (so_cached_reqs o)))%nat ∧ (i < length (cr_num_output_tokens (so_cached_reqs o)))%nat;
  ok_outputs : ∀ i n, cr_num_output_tokens (so_cached_reqs o) !! i = Some n → 0 ≤ n;
  ok_blocks : ∀ i id b, cr_req_ids (so_cached_reqs o) !! i = Some id → cr_new_block_ids (so_cached_reqs o) !! i = Some b →
    match b with Some new => length new = length (sh_tables sh) | None => id ∉ cr_resumed_req_ids (so_cached_reqs o) end;
  ok_new_fits : ∀ d, d ∈ so_new_reqs o → state_fits sh o (nr_req_id d) (new_or_streaming d (unfinished_reqs o reqs !! nr_req_id d));
  ok_cached_fits : ∀ id q r, id ∈ cr_req_ids (so_cached_reqs o) → req_of (so_cached_reqs o) id = Ret q → reqs !! id = Some r →
    state_fits sh o id (cached_state q r);
}.

(** ** The runner *)

Lemma wp_on_batch {A} (m : M InputBatch A) Q E s : wp m (λ a b, Q a (set_batch b s)) (λ e b, E e (set_batch b s)) (input_batch s) → wp (on_batch m) Q E s.
Proof. apply wp_zoom. Qed.
Lemma wp_get_request id r Q E s : requests s !! id = Some r → Q r s → wp (get_request id) Q E s.
Proof. intros H HQ. unfold get_request. wp_steps. by eapply wp_from_option. Qed.
Lemma wp_upd_request id f r Q E s : requests s !! id = Some r → Q tt (set_known <[id := f r]> s) → wp (upd_request id f) Q E s.
Proof. intros H HQ. unfold upd_request. wp_step. eapply wp_get_request; [done|]. by wp_steps. Qed.

Section states.
Context (sh : Shape) {T : Type} (new_state : BatchSampling → list Z → string → option T) (truthy : T → bool) (D : gmap nat T).
Implicit Types (live : gmap string Entry) (s : Runner).

(** The state that a logits processor has for a request. *)
Definition proc_state live (id : string) : option T :=
  match live !! id with
  | Some e => match st_sampling_params e.1 with Some p => new_state p (st_prompt_token_ids e.1) id | None => None end
  | None => None
  end.

(** The batch holds [live]; the processors will be in step with it. *)
Record batch_ok live (b : IB) : Prop := {
  bo_inv : batch_inv sh live b;
  bo_moved : moved (batch_update_builder b) = [];
  bo_aligned : aligned new_state truthy D (proc_state live) (req_ids b) (batch_update_builder b);
}.
Abbreviation unsorted b := (is_removed_sorted (batch_update_builder b) = false).

(** Ids in rows are those of the map. *)
Lemma row_live live b i id : batch_inv sh live b → req_ids b !! i = Some (Some id) → is_Some (live !! id).
Proof. intros H Hi. apply (bi_live _ _ _ H). apply (bi_index _ _ _ H) in Hi. eauto. Qed.

Lemma batch_ok_remove live b id E : batch_ok live b → unsorted b →
  wp (ib_remove_request id) (λ _ b', batch_ok (delete id live) b' ∧ unsorted b') E b.
Proof.
  intros [H1 H2 H3] Hu. eapply wp_call; [by apply wp_remove_request|]. intros o b' (I1 & I2 & I3 & I4). split; [|done]. split; [done|done|].
  apply (aligned_edits new_state truthy D (proc_state live)) in I4; [|done]. eapply aligned_ext; [|exact I4]. intros i id' Hi.
  destruct (row_live _ _ _ _ I1 Hi) as [e He]. unfold proc_state. rewrite He. apply lookup_delete_Some in He as [_ ->]. done.
Qed.

Definition without (ids : list string) live : gmap string Entry := filter (λ kv, kv.1 ∉ ids) live.
Lemma lookup_without ids live id : without ids live !! id = if decide (id ∈ ids) then None else live !! id.
Proof.
  unfold without. case_decide as Hd; [apply map_lookup_filter_None_2; right; intros e _; simpl; tauto|].
  destruct (live !! id) as [e|] eqn:He; [by apply map_lookup_filter_Some_2|apply map_lookup_filter_None_2; by left].
Qed.
Lemma without_snoc ids id live : without (ids ++ [id]) live = delete id (without ids live).
Proof.
  apply map_eq. intros id'. rewrite lookup_without. destruct (decide (id' = id)) as [->|Hne].
  - by rewrite lookup_delete_eq, decide_True by (apply elem_of_app; right; by left).
  - rewrite lookup_delete_ne, lookup_without by done. destruct (decide (id' ∈ ids)) as [Hi|Hi]; [by rewrite decide_True by (apply elem_of_app; by left)|].
    rewrite decide_False; [done|]. rewrite elem_of_app, list_elem_of_singleton. naive_solver.
Qed.

Lemma wp_remove_all ids live s E : batch_ok live (input_batch s) → unsorted (input_batch s) →
  wp (for_each ids remove_from_batch) (λ _ s', batch_ok (without ids live) (input_batch s') ∧ unsorted (input_batch s') ∧ s' = set_batch (input_batch s') s) E s.
Proof.
  intros H Hu. eapply (wp_for_each (λ dn _ s', batch_ok (without dn live) (input_batch s') ∧ unsorted (input_batch s') ∧ s' = set_batch (input_batch s') s)).
  - split_and!; [|done|by destruct s]. replace (without [] live) with live; [done|]. apply map_eq. intros id. by rewrite lookup_without.
  - intros dn id todo s1 _ (H1 & H2 & H3). unfold remove_from_batch. wp_step. apply wp_on_batch. eapply wp_call; [by apply batch_ok_remove|].
    intros o b' [H4 H5]. wp_steps. split_and!; [|done|rewrite H3; done]. simpl. by rewrite without_snoc.
  - done.
Qed.

(** Finished requests are forgotten. *)
Lemma wp_forget ids s E :
  wp (for_each ids (λ id, modify (set_known (delete id)) ;; modify (set_prompt_logprobs (delete id))))
    (λ _ s', input_batch s' = input_batch s ∧ ∀ id, requests s' !! id = if decide (id ∈ ids) then None else requests s !! id) E s.
Proof.
  eapply (wp_for_each (λ dn _ s', input_batch s' = input_batch s ∧ ∀ id, requests s' !! id = if decide (id ∈ dn) then None else requests s !! id)); [done| |done].
  intros dn x todo s1 _ [H1 H2]. wp_steps. split; [done|]. intros id. simpl. destruct (decide (id = x)) as [->|Hne].
  - by rewrite lookup_delete_eq, decide_True by (apply elem_of_app; right; by left).
  - rewrite lookup_delete_ne, H2 by done. destruct (decide (id ∈ dn)) as [Hi|Hi]; [by rewrite decide_True by (apply elem_of_app; by left)|].
    rewrite decide_False; [done|]. rewrite elem_of_app, list_elem_of_singleton. naive_solver.
Qed.

(** *** New requests *)

(** Every row belongs to a known request. *)
Definition linked live s : Prop := ∀ id e, live !! id = Some e → requests s !! id = Some e.1.

Lemma wp_add_new d live s E : batch_ok live (input_batch s) → unsorted (input_batch s) → (is_Some (live !! nr_req_id d) → is_Some (requests s !! nr_req_id d)) →
  wp (add_new d) (λ _ s', batch_ok (delete (nr_req_id d) live) (input_batch s') ∧ unsorted (input_batch s') ∧
    requests s' = <[nr_req_id d := new_or_streaming d (requests s !! nr_req_id d)]> (requests s)) E s.
Proof.
  intros H Hu Hl. unfold add_new. wp_steps. destruct (requests s !! nr_req_id d) as [r|] eqn:Hr.
  - unfold update_streaming_request, remove_from_batch. wp_step. wp_step. apply wp_on_batch. eapply wp_call; [by apply batch_ok_remove|]. intros o b' [H4 H5]. wp_steps.
    eapply wp_upd_request; [simpl; exact Hr|]. done.
  - assert (delete (nr_req_id d) live = live) as Hd.
    { apply delete_id. apply eq_None_not_Some. intros Hs. apply Hl in Hs as [? ?]. done. }
    rewrite Hd. wp_steps. destruct (nr_sampling_params d ≫= prompt_logprobs); wp_steps; done.
Qed.

Lemma wp_new_reqs news live s E : batch_ok live (input_batch s) → unsorted (input_batch s) → NoDup (nr_req_id <$> news) → linked live s →
  wp (for_each news add_new) (λ _ s', batch_ok (without (nr_req_id <$> news) live) (input_batch s') ∧ unsorted (input_batch s') ∧
    (∀ d, d ∈ news → requests s' !! nr_req_id d = Some (new_or_streaming d (requests s !! nr_req_id d))) ∧
    ∀ id, id ∉ nr_req_id <$> news → requests s' !! id = requests s !! id) E s.
Proof.
  intros H Hu Hnd Hl. eapply (wp_for_each (λ dn _ s', batch_ok (without (nr_req_id <$> dn) live) (input_batch s') ∧ unsorted (input_batch s') ∧
    (∀ d, d ∈ dn → requests s' !! nr_req_id d = Some (new_or_streaming d (requests s !! nr_req_id d))) ∧
    ∀ id, id ∉ nr_req_id <$> dn → requests s' !! id = requests s !! id)).
  - split_and!; try done; [|by intros d ?%elem_of_nil]. replace (without (nr_req_id <$> []) live) with live; [done|]. apply map_eq. intros id. by rewrite lookup_without.
  - intros dn d todo s1 Heq (H1 & H2 & H3 & H4). assert (nr_req_id d ∉ nr_req_id <$> dn) as Hd.
    { rewrite Heq, fmap_app, fmap_cons in Hnd. apply NoDup_app in Hnd as (_ & Hdis & _). intros Hx. apply (Hdis _ Hx). by left. }
    eapply wp_call; [apply wp_add_new; [done|done|]|].
    { rewrite H4 by done. intros [e He]. rewrite lookup_without, decide_False in He by done. rewrite (Hl _ _ He). eauto. }
    intros [] s2 (H5 & H6 & H7). rewrite fmap_app. change (nr_req_id <$> [d]) with [nr_req_id d]. split_and!; [by rewrite without_snoc|done|..].
    + intros d' [Hd'|Hd'%list_elem_of_singleton]%elem_of_app; [|subst d'; by rewrite H7, lookup_insert_eq, H4].
      rewrite H7, lookup_insert_ne; [by apply H3|]. intros Heq'. apply Hd. apply list_elem_of_fmap. by exists d'.
    + intros id [Hi Hi']%not_elem_of_app. rewrite H7, lookup_insert_ne by (intros <-; by apply Hi', list_elem_of_singleton). by apply H4.
  - done.
Qed.

(** *** Requests of the batch *)

(** A change of one request keeps the processors in step. *)
Lemma batch_ok_update live b b' id e e' : batch_ok live b → live !! id = Some e → batch_inv sh (<[id := e']> live) b' →
  batch_update_builder b' = batch_update_builder b → req_ids b' = req_ids b → st_sampling_params e'.1 = st_sampling_params e.1 →
  st_prompt_token_ids e'.1 = st_prompt_token_ids e.1 → batch_ok (<[id := e']> live) b'.
Proof.
  intros [H1 H2 H3] He Hinv Hb Hids Hp Hpr. split; [done|by rewrite Hb|]. rewrite Hb, Hids. eapply aligned_ext; [|exact H3]. intros i id' _. unfold proc_state.
  destruct (decide (id' = id)) as [->|Hne]; [|by rewrite lookup_insert_ne]. by rewrite lookup_insert_eq, He, Hp, Hpr.
Qed.

(** *** Cached requests *)

Section cached.
Context (o : StepOutput).
Abbreviation d := (so_cached_reqs o).
Abbreviation turn i id := (update_cached true false [] o i id).

Lemma kept_outputs_fields q r : st_req_id (kept_outputs q r) = st_req_id r ∧ st_sampling_params (kept_outputs q r) = st_sampling_params r ∧
  st_prompt_token_ids (kept_outputs q r) = st_prompt_token_ids r ∧ st_block_ids (kept_outputs q r) = st_block_ids r ∧
  st_num_computed_tokens (kept_outputs q r) = st_num_computed_tokens r ∧ st_generator (kept_outputs q r) = st_generator r.
Proof. unfold kept_outputs. by destruct (_ <? _). Qed.
Lemma cached_state_fields q r : st_req_id (cached_state q r) = st_req_id r ∧ st_sampling_params (cached_state q r) = st_sampling_params r ∧
  st_prompt_token_ids (cached_state q r) = st_prompt_token_ids r.
Proof.
  unfold cached_state, next_blocks. destruct (kept_outputs_fields q (st_set_computed (cq_computed q) r)) as (H1 & H2 & H3 & _).
  by destruct (cq_new_block_ids q); simpl; rewrite ?H1, ?H2, ?H3.
Qed.

(** A request that is not in the batch. *)
Lemma wp_update_absent i id q r s E : cached_req true d i id = Ret q → requests s !! id = Some r → req_id_to_index (input_batch s) !! id = None →
  (cq_resumed q = true → is_Some (cq_new_block_ids q)) →
  wp (turn i id) (λ add s', add = true ∧ input_batch s' = input_batch s ∧ requests s' = <[id := cached_state q r]> (requests s)) E s.
Proof.
  intros Hq Hr Hidx Hres. unfold update_cached. wp_step. eapply wp_get_request; [done|]. wp_step. eapply wp_of_outcome; [exact Hq|]. wp_steps. cbv zeta. rewrite Hidx.
  unfold rejection_correction. wp_step. eapply wp_get_request; [done|]. rewrite andb_false_r. wp_steps. eapply wp_upd_request; [done|].
  set (r1 := st_set_computed (cq_computed q) r). wp_step. unfold update_outputs. cbn [negb]. wp_step. eapply wp_get_request; [simpl; apply lookup_insert_eq|].
  assert (∀ Q : unit → Runner → Prop, Q tt (set_known <[id := kept_outputs q r1]> s) →
    wp (if cq_num_output_tokens q <? Z.of_nat (length (st_output_token_ids r1)) then
      upd_request id (λ r, st_set_outputs (take (Z.to_nat (cq_num_output_tokens q)) (st_output_token_ids r)) r) ;; mret tt else mret tt) Q E
      (set_known <[id := r1]> s)) as Hout.
  { intros Q HQ. unfold kept_outputs in HQ. destruct (_ <? _); [|by wp_steps]. wp_step. eapply wp_upd_request; [simpl; apply lookup_insert_eq|]. wp_steps.
    unfold set_known in *. simpl in *. by rewrite insert_insert_eq. }
  apply Hout. wp_step. unfold update_blocks. set (r2 := kept_outputs q r1).
  assert (cached_state q r = next_blocks q r2) as Hc by done. unfold next_blocks in Hc.
  destruct (cq_resumed q) eqn:Hrs; cbn [negb].
  - destruct (Hres eq_refl) as [new Hnew]. rewrite Hnew in Hc |- *. eapply wp_upd_request; [simpl; apply lookup_insert_eq|]. cbn [andb]. wp_steps.
    split_and!; [done|done|]. simpl. by rewrite insert_insert_eq, Hc.
  - destruct (cq_new_block_ids q) as [new|].
    + eapply wp_upd_request; [simpl; apply lookup_insert_eq|]. cbn [andb]. wp_steps. split_and!; [done|done|]. simpl. by rewrite insert_insert_eq, Hc.
    + wp_steps. split_and!; [done|done|]. simpl. by rewrite Hc.
Qed.

(** A request of the batch. *)
Lemma row_kept q r row : 0 ≤ cq_num_output_tokens q → cq_num_output_tokens q < Z.of_nat (length (st_output_token_ids r)) → row_ok (sh_masks sh) (sh_vocab sh) (r, Written []) row →
  row_ok (sh_masks sh) (sh_vocab sh) (kept_outputs q r, Written []) (set_counts (num_prompt_tokens row + cq_num_output_tokens q) (num_prompt_tokens row) (num_computed_tokens_cpu row) row).
Proof.
  intros H0 Hlt [O1 O2 O3 O4 O5 O6]. unfold kept_outputs. rewrite (proj2 (Z.ltb_lt _ _)) by done. split; try done; cbn [fst snd] in *.
  - simpl. rewrite O1. unfold st_num_tokens. simpl. rewrite length_take. lia.
  - unfold entry_tokens in *. simpl in *. rewrite app_nil_r in *. set (n := Z.to_nat (cq_num_output_tokens q)).
    assert (take (length (st_prompt_token_ids r ++ take n (st_output_token_ids r))) (st_prompt_token_ids r ++ st_output_token_ids r) =
      st_prompt_token_ids r ++ take n (st_output_token_ids r)) as Ht.
    { rewrite length_app, take_app_ge by lia. f_equal. rewrite length_take, Nat.add_comm, Nat.add_sub. rewrite Nat.min_l; [done|lia]. }
    rewrite <-Ht at 2. rewrite <-O4, take_take. f_equal. rewrite !length_app, length_take. lia.
Qed.
Lemma wp_update_present i id idx q e live s E : batch_ok live (input_batch s) → cached_req true d i id = Ret q → live !! id = Some e → requests s !! id = Some e.1 →
  req_id_to_index (input_batch s) !! id = Some idx → cq_resumed q = false → 0 ≤ cq_num_output_tokens q →
  (∀ new, cq_new_block_ids q = Some new → length new = length (sh_tables sh)) → request_fits sh (cached_state q e.1) →
  (length (st_prompt_token_ids (cached_state q e.1)) + length (st_output_token_ids (cached_state q e.1)) + length (drafts_of o id) ≤ sh_len sh)%nat →
  let r' := with_draft o id (cached_state q e.1) in
  wp (turn i id) (λ add s', add = false ∧ batch_ok (<[id := (r', Written (drafts_of o id))]> live) (input_batch s') ∧
    batch_update_builder (input_batch s') = batch_update_builder (input_batch s) ∧ requests s' = <[id := r']> (requests s)) E s.
Proof.
  intros H Hq He Hr Hidx Hres H0 Hnew Hfits Hlen r'. destruct e as [r ds]. cbn [fst snd] in *. unfold update_cached. wp_step. eapply wp_get_request; [done|]. wp_step.
  eapply wp_of_outcome; [exact Hq|]. wp_steps. cbv zeta. rewrite Hidx. pose proof (updating_start sh live _ id idx (r, ds) (bo_inv _ _ H) He Hidx) as Hup.
  unfold rejection_correction. wp_step. eapply wp_get_request; [done|]. rewrite andb_false_r. wp_steps. eapply wp_upd_request; [done|].
  set (r1 := st_set_computed (cq_computed q) r). wp_step. unfold update_outputs. cbn [negb]. wp_step. eapply wp_get_request; [simpl; apply lookup_insert_eq|].
  (* the outputs *)
  eapply (wp_call _ (λ _ s', ∃ b, s' = set_batch b (set_known <[id := kept_outputs q r1]> s) ∧ updating sh live (input_batch s) id idx (kept_outputs q r) b)).
  { change (st_output_token_ids r1) with (st_output_token_ids r). destruct (Z.ltb_spec (cq_num_output_tokens q) (Z.of_nat (length (st_output_token_ids r)))) as [Hlt|Hge].
    - wp_step. eapply wp_upd_request; [simpl; apply lookup_insert_eq|]. apply wp_on_batch. eapply wp_call; [apply (wp_updating_row sh live (input_batch s) id idx r (kept_outputs q r)); [done| |apply kept_outputs_fields..]|].
      + intros row Hrow. split; [by apply row_kept|done].
      + intros [] b Hb. exists b. split; [|done]. unfold set_batch, set_known. simpl. rewrite insert_insert_eq. do 3 f_equal. unfold kept_outputs.
        change (st_output_token_ids r1) with (st_output_token_ids r). by rewrite (proj2 (Z.ltb_lt _ _)).
    - wp_steps. exists (input_batch s). assert (∀ r0, st_output_token_ids r0 = st_output_token_ids r → kept_outputs q r0 = r0) as Hk
        by (intros r0 Heq; unfold kept_outputs; rewrite Heq; by rewrite (proj2 (Z.ltb_ge _ _))).
      rewrite !Hk by done. split; [by destruct s|done]. }
  intros [] s1 (b1 & -> & Hup1). cbn beta. set (r2 := kept_outputs q r1).
  assert (r2 = st_set_computed (cq_computed q) (kept_outputs q r)) as Hr2 by (unfold r2, r1, kept_outputs; simpl; by destruct (_ <? _)).
  assert (cached_state q r = next_blocks q r2) as Hc by done.
  (* the blocks of the state *)
  wp_step. eapply (wp_call _ (λ _ s', s' = set_batch b1 (set_known <[id := next_blocks q r2]> s))).
  { unfold update_blocks, next_blocks. rewrite Hres. cbn [negb]. destruct (cq_new_block_ids q); [|by wp_steps].
    eapply wp_upd_request; [simpl; apply lookup_insert_eq|]. unfold set_known, set_batch. simpl. by rewrite insert_insert_eq. }
  intros [] s2 ->. cbn beta iota.
  (* the row *)
  wp_step. apply wp_on_batch. eapply wp_call; [apply (wp_updating_row sh live (input_batch s) id idx (kept_outputs q r) r2); [exact Hup1| |by rewrite Hr2..]|].
  { intros row [O1 O2 O3 O4 O5 O6]. split; [|done]. rewrite Hr2. by split. }
  intros [] b2 Hup2. cbn beta. wp_step.
  eapply (wp_call _ (λ _ s', ∃ b, s' = set_batch b (set_known <[id := next_blocks q r2]> s) ∧ updating sh live (input_batch s) id idx (next_blocks q r2) b)).
  { unfold next_blocks. destruct (cq_new_block_ids q) as [new|] eqn:Hb; [|wp_steps; by exists b2]. rewrite Hres. apply wp_on_batch.
    pose proof (Hnew new eq_refl) as Hl. assert (length (st_block_ids r2) = length (sh_tables sh)) as Hl2.
    { destruct Hup2 as [Hi (e' & row & specs & _ & _ & U & _ & _ & Ht & _)]. apply Forall2_length in Ht. pose proof (ua_format _ _ _ _ _ _ U) as Hf.
      pose proof (bi_format _ _ _ Hi) as Hf'. apply Forall2_length in Hf. apply Forall2_length in Hf'. simpl in Ht. lia. }
    rewrite drop_ge, app_nil_r by lia. eapply wp_call; [apply (wp_updating_blocks sh live (input_batch s)); [exact Hup2|done|]|].
    - pose proof (rf_blocks _ _ Hfits) as Hf. rewrite Hc in Hf. unfold next_blocks in Hf. rewrite Hb, Hres in Hf. simpl in Hf. by rewrite drop_ge, app_nil_r in Hf by lia.
    - intros [] b3 Hb3. exists b3. done. }
  intros [] s3 (b3 & -> & Hup3). cbn beta. wp_steps. unfold update_specs.
  (* the drafts *)
  wp_step. apply wp_on_batch. rewrite <-Hc in Hup3. eapply wp_call; [eapply (wp_update_specs sh live (input_batch s)); [exact Hup3|done]|].
  intros n b4 (-> & Hinv & Hb4 & Hids). cbn beta. wp_steps. eapply wp_upd_request; [simpl; apply lookup_insert_eq|]. wp_steps.
  split_and!; [done| |done|]; simpl.
  - eapply batch_ok_update; [exact H|exact He|exact Hinv|done|done| |]; simpl; apply cached_state_fields.
  - by rewrite insert_insert_eq, <-Hc.
Qed.

(** The loop over the cached requests. *)
Definition the_req (id : string) : CachedReq := match req_of d id with Ret q => q | Raise _ => mkCachedReq 0 None false 0 None end.
Record cached_ok live (reqs : gmap string CachedRequestState) (id : string) (r : CachedRequestState) : Prop := {
  co_known : reqs !! id = Some r;
  co_resumed : cq_resumed (the_req id) = true → live !! id = None ∧ is_Some (cq_new_block_ids (the_req id));
  co_outputs : 0 ≤ cq_num_output_tokens (the_req id);
  co_blocks : ∀ new, cq_new_block_ids (the_req id) = Some new → length new = length (sh_tables sh);
  co_fits : request_fits sh (cached_state (the_req id) r);
  co_len : (length (st_prompt_token_ids (cached_state (the_req id) r)) + length (st_output_token_ids (cached_state (the_req id) r)) +
    length (drafts_of o id) ≤ sh_len sh)%nat;
}.
Definition live_after live (ids : list string) (id : string) : option Entry :=
  if decide (id ∈ ids) then (λ e : Entry, (with_draft o id (cached_state (the_req id) e.1), Written (drafts_of o id))) <$> live !! id else live !! id.
Definition reqs_after live (reqs : gmap string CachedRequestState) (ids : list string) (id : string) : option CachedRequestState :=
  if decide (id ∈ ids) then (λ r, if decide (id ∈ dom live) then with_draft o id (cached_state (the_req id) r) else cached_state (the_req id) r) <$> reqs !! id
  else reqs !! id.

Lemma after_snoc live reqs ids id id' :
  id ∉ ids → live_after live (ids ++ [id]) id' = (if decide (id' = id) then (λ e : Entry, (with_draft o id (cached_state (the_req id) e.1), Written (drafts_of o id))) <$> live !! id
    else live_after live ids id') ∧
  reqs_after live reqs (ids ++ [id]) id' = (if decide (id' = id) then
    (λ r, if decide (id ∈ dom live) then with_draft o id (cached_state (the_req id) r) else cached_state (the_req id) r) <$> reqs !! id else reqs_after live reqs ids id').
Proof.
  intros Hid. unfold live_after, reqs_after. destruct (decide (id' = id)) as [->|Hne].
  - rewrite !decide_True by (apply elem_of_app; right; by left). done.
  - destruct (decide (id' ∈ ids)) as [Hi|Hi]; [by rewrite !decide_True by (apply elem_of_app; by left)|].
    rewrite !decide_False by (rewrite elem_of_app, list_elem_of_singleton; naive_solver). done.
Qed.

Lemma wp_cached_reqs live s E : batch_ok live (input_batch s) → unsorted (input_batch s) → NoDup (cr_req_ids d) → linked live s →
  (∀ i id, cr_req_ids d !! i = Some id → cached_req true d i id = Ret (the_req id) ∧ ∃ r, cached_ok live (requests s) id r) →
  wp (for_fold (imap pair (cr_req_ids d)) [] (λ acc '(i, id), add ← turn i id; mret (if (add : bool) then acc ++ [id] else acc)))
    (λ acc s', acc = filter (λ id, id ∉ dom live) (cr_req_ids d) ∧ unsorted (input_batch s') ∧
      (∀ id, requests s' !! id = reqs_after live (requests s) (cr_req_ids d) id) ∧
      ∃ live', batch_ok live' (input_batch s') ∧ ∀ id, live' !! id = live_after live (cr_req_ids d) id) E s.
Proof.
  intros H Hu Hnd Hl Hall. set (ids := cr_req_ids d) in *.
  eapply (wp_for_fold (λ dn acc s', acc = filter (λ id, id ∉ dom live) (dn.*2) ∧ unsorted (input_batch s') ∧
    (∀ id, requests s' !! id = reqs_after live (requests s) (dn.*2) id) ∧
      ∃ live', batch_ok live' (input_batch s') ∧ ∀ id, live' !! id = live_after live (dn.*2) id)).
  - split_and!; try done. exists live. done.
  - intros dn [i id] todo acc s1 Heq (H1 & H2 & H3 & live1 & H4 & H5). assert (ids !! i = Some id) as Hi.
    { assert ((i, id) ∈ imap pair ids) as Hin by (rewrite Heq; apply elem_of_app; right; by left). apply elem_of_lookup_imap in Hin as (j & y & [= -> ->] & Hj). done. }
    assert ((imap pair ids).*2 = ids) as Hsnd. { rewrite fmap_imap. rewrite <-(list_fmap_id ids) at 2. by rewrite <-imap_const. }
    assert (id ∉ dn.*2) as Hd. { rewrite <-Hsnd, Heq, fmap_app, fmap_cons in Hnd. apply NoDup_app in Hnd as (_ & Hdis & _). intros Hx. apply (Hdis _ Hx). by left. }
    destruct (Hall i id Hi) as (Hq & r & [C1 C2 C3 C4 C5 C6]). assert (requests s1 !! id = Some r) as Hr by (rewrite H3; unfold reqs_after; by rewrite decide_False).
    assert (live1 !! id = live !! id) as Hlive by (rewrite H5; unfold live_after; by rewrite decide_False).
    rewrite fmap_app. change ([(i, id)].*2) with [id]. rewrite filter_app. wp_step.
    destruct (req_id_to_index (input_batch s1) !! id) as [idx|] eqn:Hidx.
    + destruct (proj1 (bi_live _ _ _ (bo_inv _ _ H4) id)) as [e He]; [eauto|]. pose proof He as He'. rewrite Hlive in He'. assert (e.1 = r) as <- by (rewrite (Hl _ _ He') in C1; congruence).
      eapply wp_call; [apply (wp_update_present i id idx (the_req id) e live1 s1); try done|].
      { destruct (cq_resumed (the_req id)); [|done]. destruct (C2 eq_refl) as [C2' _]. congruence. }
      intros add s2 (-> & P2 & P3 & P4). wp_steps. split_and!; [|by rewrite P3|..].
      * rewrite filter_cons_False, filter_nil, app_nil_r; [done|]. intros Hn. apply Hn. by apply elem_of_dom.
      * intros id'. destruct (after_snoc live (requests s) (dn.*2) id id' Hd) as [_ ->]. rewrite P4. destruct (decide (id' = id)) as [->|Hne]; [|by rewrite lookup_insert_ne].
        rewrite lookup_insert_eq, C1. simpl. by rewrite decide_True by (by apply elem_of_dom).
      * eexists. split; [exact P2|]. intros id'. destruct (after_snoc live (requests s) (dn.*2) id id' Hd) as [-> _].
        destruct (decide (id' = id)) as [->|Hne]; [|by rewrite lookup_insert_ne]. rewrite lookup_insert_eq, He'. done.
    + assert (live !! id = None) as Hno. { rewrite <-Hlive. apply eq_None_not_Some. rewrite <-(bi_live _ _ _ (bo_inv _ _ H4)). rewrite Hidx. by intros [? ?]. }
      eapply wp_call; [apply (wp_update_absent i id (the_req id) r s1); try done; intros Hx; by apply C2|].
      intros add s2 (-> & P2 & P3). wp_steps. split_and!; [|by rewrite P2|..].
      * rewrite filter_cons_True, filter_nil; [by rewrite H1|]. by apply not_elem_of_dom.
      * intros id'. destruct (after_snoc live (requests s) (dn.*2) id id' Hd) as [_ ->]. rewrite P3. destruct (decide (id' = id)) as [->|Hne]; [|by rewrite lookup_insert_ne].
        rewrite lookup_insert_eq, C1. simpl. by rewrite decide_False by (by apply not_elem_of_dom).
      * exists live1. split; [by rewrite P2|]. intros id'. destruct (after_snoc live (requests s) (dn.*2) id id' Hd) as [-> _].
        destruct (decide (id' = id)) as [->|Hne]; [by rewrite Hlive, Hno|done].
  - intros acc s' H1. assert ((imap pair ids).*2 = ids) as Hsnd. { rewrite fmap_imap. rewrite <-(list_fmap_id ids) at 2. by rewrite <-imap_const. } by rewrite Hsnd in H1.
Qed.
End cached.

(** *** Requests that come into the batch *)

Lemma batch_ok_add live b r p E : batch_ok live b → live !! st_req_id r = None → (size live < sh_limit sh)%nat → request_fits sh r → st_sampling_params r = Some p →
  wp (ib_add_request r) (λ i b', batch_ok (<[st_req_id r := (r, Written [])]> live) b' ∧ req_id_to_index b' !! st_req_id r = Some i) E b.
Proof.
  intros [H1 H2 H3] Hno Hsize Hfit Hp. eapply wp_call; [by apply wp_ib_add_request|]. intros i b' [I1 [A1 A2 A3 A4 [A5 A6]]].
  split; [|by apply (bi_index _ _ _ I1)]. split; [done|by rewrite A6|].
  eapply (aligned_add new_state truthy D (proc_state live)); [exact H3|done|by rewrite A6|exact A5|done|done|exact A4|exact A1|exact A2| |].
  - intros j id Hj Hid. unfold proc_state. rewrite lookup_insert_ne; [done|]. intros <-. destruct (row_live _ _ _ _ H1 Hid). congruence.
  - unfold proc_state. simpl. rewrite lookup_insert_eq. simpl. by rewrite Hp.
Qed.

Section add.
Context (o : StepOutput).

Lemma wp_add_one id r live s E : batch_ok live (input_batch s) → live !! id = None → (size live < sh_limit sh)%nat → requests s !! id = Some r → st_req_id r = id →
  request_fits sh r → (length (st_prompt_token_ids r) + length (st_output_token_ids r) + length (drafts_of o id) ≤ sh_len sh)%nat →
  wp (add_to_batch (so_spec_decode_tokens o) id) (λ _ s', batch_ok (<[id := (with_draft o id r, Written (drafts_of o id))]> live) (input_batch s') ∧
    requests s' = <[id := with_draft o id r]> (requests s)) E s.
Proof.
  intros H Hno Hsize Hr Hid Hfit Hlen. destruct (rf_sampling _ _ Hfit) as [p Hp]. unfold add_to_batch. wp_step. eapply wp_get_request; [done|].
  wp_step. apply wp_on_batch. subst id. eapply wp_call; [exact (batch_ok_add live _ r p _ H Hno Hsize Hfit Hp)|]. intros i b [Hb Hi]. cbn beta. unfold update_specs. wp_step. apply wp_on_batch.
  pose proof (updating_start sh _ b (st_req_id r) i (r, Written []) (bo_inv _ _ Hb) (lookup_insert_eq _ _ _) Hi) as Hup.
  eapply wp_call; [eapply wp_update_specs; [exact Hup|exact Hlen]|]. intros n b' (-> & Hinv & Hb' & Hids). cbn beta. eapply wp_upd_request; [simpl; exact Hr|].
  split; [|done]. simpl. rewrite insert_insert_eq in Hinv.
  rewrite <-(insert_insert_eq live (st_req_id r) (with_draft o (st_req_id r) r, Written (drafts_of o (st_req_id r))) (r, Written [])).
  eapply batch_ok_update; [exact Hb|apply lookup_insert_eq| |done..]. rewrite insert_insert_eq. exact Hinv.
Qed.

Lemma wp_add_all ids live s E : batch_ok live (input_batch s) → NoDup ids → (size live + length ids ≤ sh_limit sh)%nat →
  (∀ id, id ∈ ids → live !! id = None ∧ ∃ r, requests s !! id = Some r ∧ st_req_id r = id ∧ request_fits sh r ∧
    (length (st_prompt_token_ids r) + length (st_output_token_ids r) + length (drafts_of o id) ≤ sh_len sh)%nat) →
  wp (for_each ids (add_to_batch (so_spec_decode_tokens o))) (λ _ s',
    (∀ id, requests s' !! id = if decide (id ∈ ids) then with_draft o id <$> requests s !! id else requests s !! id) ∧
    ∃ live', batch_ok live' (input_batch s') ∧
      ∀ id, live' !! id = if decide (id ∈ ids) then (λ r, (with_draft o id r, Written (drafts_of o id))) <$> requests s !! id else live !! id) E s.
Proof.
  intros H Hnd Hsize Hall. eapply (wp_for_each (λ dn todo s', (∀ id, requests s' !! id = if decide (id ∈ dn) then with_draft o id <$> requests s !! id else requests s !! id) ∧
    ∃ live', batch_ok live' (input_batch s') ∧ (size live' + length todo ≤ sh_limit sh)%nat ∧
      ∀ id, live' !! id = if decide (id ∈ dn) then (λ r, (with_draft o id r, Written (drafts_of o id))) <$> requests s !! id else live !! id)).
  - split; [done|]. exists live. done.
  - intros dn id todo s1 Heq (H1 & live1 & H2 & H3 & H4). assert (id ∈ ids) as Hin by (rewrite Heq; apply elem_of_app; right; by left).
    destruct (Hall id Hin) as (Hno & r & Hr & Hid & Hfit & Hlen). assert (id ∉ dn) as Hd.
    { rewrite Heq in Hnd. apply NoDup_app in Hnd as (_ & Hdis & _). intros Hx. apply (Hdis _ Hx). by left. }
    assert (live1 !! id = None) as Hno1 by (by rewrite H4, decide_False). simpl in H3.
    eapply wp_call; [apply (wp_add_one id r live1 s1); try done; [lia|by rewrite H1, decide_False]|].
    intros [] s2 [P1 P2]. assert (∀ {A} (id' : string) (x y z : A), (if decide (id' ∈ dn ++ [id]) then x else y) = (if decide (id' = id) then x else if decide (id' ∈ dn) then x else y)) as Hsnoc.
    { intros A id' x y z. destruct (decide (id' = id)) as [->|Hne]; [by rewrite decide_True by (apply elem_of_app; right; by left)|].
      destruct (decide (id' ∈ dn)) as [Hi|Hi]; [by rewrite decide_True by (apply elem_of_app; by left)|].
      rewrite decide_False; [done|]. rewrite elem_of_app, list_elem_of_singleton. naive_solver. }
    split.
    + intros id'. rewrite Hsnoc by exact None. rewrite P2. destruct (decide (id' = id)) as [->|Hne]; [by rewrite lookup_insert_eq, Hr|by rewrite lookup_insert_ne].
    + eexists. split; [exact P1|]. split; [rewrite map_size_insert_None by done; lia|]. intros id'. rewrite Hsnoc by exact None.
      destruct (decide (id' = id)) as [->|Hne]; [by rewrite lookup_insert_eq, Hr|by rewrite lookup_insert_ne].
  - intros s' (H1 & live' & H2 & _ & H3). split; [done|]. by exists live'.
Qed.
End add.

(** *** The step up to the moves *)

Definition ids_ok (reqs : gmap string CachedRequestState) : Prop := ∀ id r, reqs !! id = Some r → st_req_id r = id.

Lemma req_of_at (d : CachedReqs) i id : NoDup (cr_req_ids d) → cr_req_ids d !! i = Some id → req_of d id = cached_req true d i id.
Proof.
  intros Hnd Hi. unfold req_of. destruct (list_find (λ x, x = id) (cr_req_ids d)) as [[j y]|] eqn:Hf.
  - apply list_find_Some in Hf as (Hj & -> & _). by rewrite (NoDup_lookup _ _ _ _ Hnd Hj Hi).
  - apply list_find_None in Hf. rewrite Forall_forall in Hf. destruct (Hf id); [by eapply list_elem_of_lookup_2|done].
Qed.
Lemma cached_req_total sh' reqs o i id : output_ok sh' reqs o → cr_req_ids (so_cached_reqs o) !! i = Some id →
  ∃ c b n, cr_new_block_ids (so_cached_reqs o) !! i = Some b ∧ cr_num_output_tokens (so_cached_reqs o) !! i = Some n ∧
    cached_req true (so_cached_reqs o) i id = Ret (mkCachedReq c b (bool_decide (id ∈ cr_resumed_req_ids (so_cached_reqs o))) n None).
Proof.
  intros H Hi. destruct (ok_lists _ _ _ H i) as (L1 & L2 & L3); [by eapply lookup_lt_Some|].
  destruct (lookup_lt_is_Some_2 _ _ L1) as [c Hc], (lookup_lt_is_Some_2 _ _ L2) as [b Hb], (lookup_lt_is_Some_2 _ _ L3) as [n Hn]. exists c, b, n. split_and!; [done|done|].
  unfold cached_req. rewrite (np_get_Some _ _ _ Hc). simpl. rewrite (np_get_Some _ _ _ Hb). simpl. by rewrite (np_get_Some _ _ _ Hn).
Qed.

(** The requests for the loop over the cached ones. *)
Lemma cached_all_ok reqs live s o i id : output_ok sh reqs o → cr_req_ids (so_cached_reqs o) !! i = Some id → requests s !! id = reqs !! id →
  (id ∈ cr_resumed_req_ids (so_cached_reqs o) → live !! id = None) →
  cached_req true (so_cached_reqs o) i id = Ret (the_req o id) ∧ ∃ r, cached_ok o live (requests s) id r.
Proof.
  intros H Hi Hreq Hres. pose proof (ok_nodup _ _ _ H) as Hnd. apply NoDup_app in Hnd as (_ & _ & Hnd).
  pose proof (list_elem_of_lookup_2 _ _ _ Hi) as Hin. destruct (cached_req_total sh reqs o i id H Hi) as (c & b & n & Hb & Hn & Hq).
  pose proof (req_of_at _ _ _ Hnd Hi) as Hof. rewrite Hq in Hof. assert (the_req o id = mkCachedReq c b (bool_decide (id ∈ cr_resumed_req_ids (so_cached_reqs o))) n None) as Ht
    by (unfold the_req; by rewrite Hof). rewrite Ht. split; [done|]. destruct (ok_known _ _ _ H id Hin) as [_ [r Hr]]. exists r.
  destruct (ok_cached_fits _ _ _ H id _ r Hin Hof Hr) as [F1 F2]. pose proof (ok_blocks _ _ _ H i id b Hi Hb) as Hbl.
  split; rewrite ?Ht; simpl; [by rewrite Hreq| |by eapply ok_outputs|intros new ->; done|done|done].
  intros Hx%bool_decide_eq_true. split; [by apply Hres|]. destruct b; [eauto|by destruct Hbl].
Qed.

Section step.
Context (set_order : gset string → list string) (Horder : ∀ X, set_order X ≡ₚ elements X).
Context (o : StepOutput) (live : gmap string Entry) (s0 : Runner) (Hok : output_ok sh (requests s0) o).
Abbreviation news := (nr_req_id <$> so_new_reqs o).
Abbreviation cached := (cr_req_ids (so_cached_reqs o)).

Lemma elem_of_order id X : id ∈ set_order X ↔ id ∈ X.
Proof. by rewrite Horder, elem_of_elements. Qed.
Lemma lookup_unfinished id : unfinished_reqs o (requests s0) !! id = if decide (id ∈ so_finished_req_ids o) then None else requests s0 !! id.
Proof.
  unfold unfinished_reqs. case_decide as Hd; [apply map_lookup_filter_None_2; right; intros e _; simpl; tauto|].
  destruct (requests s0 !! id) as [e|] eqn:He; [by apply map_lookup_filter_Some_2|apply map_lookup_filter_None_2; by left].
Qed.

(** After the removals: the rows of requests that go on. *)
Lemma wp_removals E : batch_ok live (input_batch s0) → unsorted (input_batch s0) → linked live s0 →
  wp (remove_rows set_order o)
    (λ _ s', ∃ live2, batch_ok live2 (input_batch s') ∧ unsorted (input_batch s') ∧ linked live2 s' ∧
      (∀ id, requests s' !! id = unfinished_reqs o (requests s0) !! id) ∧
      ∀ id, is_Some (live2 !! id) → is_Some (so_num_scheduled_tokens o !! id) ∧ id ∉ cr_resumed_req_ids (so_cached_reqs o)) E s0.
Proof.
  intros H Hu Hl. unfold remove_rows. cbv zeta. wp_step. eapply wp_call; [apply wp_forget|]. intros [] s1 [F1 F2]. cbn beta. wp_step.
  eapply wp_call; [apply (wp_remove_all _ live); [by rewrite F1|by rewrite F1]|]. intros [] s2 (R1 & R2 & R3). cbn beta. wp_steps.
  eapply wp_call; [apply (wp_remove_all _ (without (set_order (so_finished_req_ids o)) live)); [exact R1|exact R2]|]. intros [] s3 (P1 & P2 & P3).
  set (live2 := without (set_order (unscheduled_req_ids o (input_batch s2))) _) in *. exists live2.
  assert (∀ id, requests s3 !! id = unfinished_reqs o (requests s0) !! id) as Hreq.
  { intros id. rewrite P3. simpl. rewrite R3. simpl. rewrite F2, lookup_unfinished. destruct (decide (id ∈ so_finished_req_ids o)) as [Hd|Hd];
      [by rewrite decide_True by (by apply elem_of_order)|by rewrite decide_False by (by rewrite elem_of_order)]. }
  split_and!; [exact P1|exact P2| |exact Hreq|].
  - intros id e He. rewrite Hreq, lookup_unfinished. unfold live2 in He. rewrite !lookup_without in He. case_decide as Hd1; [done|]. case_decide as Hd2; [done|].
    rewrite elem_of_order in Hd2. rewrite decide_False by done. by apply Hl.
  - intros id [e He]. unfold live2 in He. rewrite !lookup_without in He. case_decide as Hd1; [done|]. rewrite elem_of_order in Hd1.
    assert (is_Some (req_id_to_index (input_batch s2) !! id)) as Hidx by (apply (bi_live _ _ _ (bo_inv _ _ R1)); rewrite lookup_without; case_decide; [done|eauto]).
    unfold unscheduled_req_ids in Hd1. rewrite elem_of_difference, !elem_of_dom in Hd1. rewrite elem_of_difference, elem_of_dom in Hd1.
    destruct (decide (is_Some (so_num_scheduled_tokens o !! id))), (decide (id ∈ cr_resumed_req_ids (so_cached_reqs o))); tauto.
Qed.

(** The state of a scheduled request before its drafts. *)
Definition state_before (id : string) (r : CachedRequestState) : Prop :=
  (∃ d, d ∈ so_new_reqs o ∧ nr_req_id d = id ∧ r = new_or_streaming d (unfinished_reqs o (requests s0) !! id)) ∨
  (id ∈ cached ∧ ∃ q r0, req_of (so_cached_reqs o) id = Ret q ∧ requests s0 !! id = Some r0 ∧ r = cached_state q r0).
Lemma state_before_ok id r : ids_ok (requests s0) → state_before id r → st_req_id r = id ∧ state_fits sh o id r.
Proof.
  intros Hids [(d & Hd & <- & ->)|(Hin & q & r0 & Hq & Hr & ->)].
  - split; [|by apply (ok_new_fits _ _ _ Hok)]. unfold new_or_streaming. destruct (unfinished_reqs o (requests s0) !! nr_req_id d) as [r0|] eqn:Hr; [|done].
    simpl. rewrite lookup_unfinished in Hr. case_decide; [done|]. by apply Hids.
  - split; [|by eapply (ok_cached_fits _ _ _ Hok)]. destruct (cached_state_fields q r0) as (-> & _). by apply Hids.
Qed.
Lemma req_of_the id : id ∈ cached → req_of (so_cached_reqs o) id = Ret (the_req o id).
Proof.
  intros [i Hi]%list_elem_of_lookup. pose proof (ok_nodup _ _ _ Hok) as Hnd. apply NoDup_app in Hnd as (_ & _ & Hnd).
  destruct (cached_req_total _ _ _ _ _ Hok Hi) as (c & b & n & _ & _ & Hq). rewrite <-(req_of_at _ _ _ Hnd Hi) in Hq. unfold the_req. by rewrite Hq.
Qed.

(** What the step leaves. *)
Record members_after (live' : gmap string Entry) (reqs' : gmap string CachedRequestState) : Prop := {
  ma_scheduled : ∀ id, is_Some (so_num_scheduled_tokens o !! id) →
    ∃ r, state_before id r ∧ reqs' !! id = Some (with_draft o id r) ∧ live' !! id = Some (with_draft o id r, Written (drafts_of o id));
  ma_rest : ∀ id, ¬ is_Some (so_num_scheduled_tokens o !! id) → reqs' !! id = unfinished_reqs o (requests s0) !! id ∧ live' !! id = None;
}.
Lemma members_entries live' reqs' : members_after live' reqs' → scheduled_entries o reqs' = live'.
Proof.
  intros [H1 H2]. apply map_eq. intros id. unfold scheduled_entries. rewrite map_lookup_imap. destruct (so_num_scheduled_tokens o !! id) as [n|] eqn:Hn; simpl.
  - destruct (H1 id) as (r & _ & -> & ->); [eauto|done].
  - symmetry. apply H2. rewrite Hn. by intros [? ?].
Qed.
Lemma members_next live' reqs' : ids_ok (requests s0) → members_after live' reqs' → next_requests o (unfinished_reqs o (requests s0)) reqs' ∧ ids_ok reqs'.
Proof.
  intros Hids [H1 H2]. pose proof (ok_nodup _ _ _ Hok) as Hnd. apply NoDup_app in Hnd as (Nnew & Ndis & Ncached). split; [split|].
  - intros d Hd. assert (nr_req_id d ∈ news) as Hin by (by apply list_elem_of_fmap_2). destruct (H1 (nr_req_id d)) as (r & [(d' & Hd' & He & ->)|[Hc _]] & -> & _).
    + apply (ok_scheduled _ _ _ Hok). by left.
    + assert (d' = d) as ->; [|done]. apply list_elem_of_lookup in Hd as [i Hi], Hd' as [j Hj].
      assert (j = i) as -> by (eapply NoDup_lookup; [exact Nnew|by rewrite list_lookup_fmap, Hj|rewrite list_lookup_fmap, Hi; simpl; by rewrite He]). congruence.
    + by destruct (Ndis (nr_req_id d)).
  - intros id q Hid Hq. destruct (H1 id) as (r & [(d' & Hd' & He & ->)|(_ & q' & r0 & Hq' & Hr0 & ->)] & -> & _).
    + apply (ok_scheduled _ _ _ Hok). by right.
    + destruct (Ndis id); [|done]. rewrite <-He. by apply list_elem_of_fmap_2.
    + destruct (ok_known _ _ _ Hok id Hid) as [Hnf _]. rewrite lookup_unfinished, decide_False, Hr0 by done. simpl. by assert (q' = q) as -> by congruence.
  - intros id Hn Hc. apply H2. rewrite (ok_scheduled _ _ _ Hok). tauto.
  - intros id r Hr. destruct (decide (is_Some (so_num_scheduled_tokens o !! id))) as [Hs|Hs].
    + destruct (H1 id Hs) as (r' & Hst & Hr' & _). rewrite Hr in Hr'. injection Hr' as ->. simpl. by apply state_before_ok.
    + destruct (H2 id Hs) as [Hr' _]. rewrite Hr, lookup_unfinished in Hr'. case_decide; [done|]. by apply Hids.
Qed.

Lemma wp_update_members E : batch_ok live (input_batch s0) → unsorted (input_batch s0) → linked live s0 → ids_ok (requests s0) →
  wp (update_members set_order true false [] o) (λ _ s', batch_ok (scheduled_entries o (requests s')) (input_batch s') ∧
    next_requests o (unfinished_reqs o (requests s0)) (requests s') ∧ ids_ok (requests s')) E s0.
Proof.
  intros H Hu Hl Hids. pose proof (ok_nodup _ _ _ Hok) as Hnd. apply NoDup_app in Hnd as (Nnew & Ndis & Ncached).
  unfold update_members. wp_step. eapply wp_call; [by apply wp_removals|]. intros [] s2 (live2 & A1 & A2 & A3 & A4 & A5). cbn beta.
  wp_step. eapply wp_call; [by apply (wp_new_reqs _ live2)|]. intros [] s3 (B1 & B2 & B3 & B4). cbn beta. set (live3 := without news live2) in *.
  assert (∀ id, live3 !! id = if decide (id ∈ news) then None else live2 !! id) as L3 by (intros id; apply lookup_without).
  assert (linked live3 s3) as Hl3. { intros id e He. rewrite L3 in He. case_decide as Hd; [done|]. rewrite B4 by done. by apply A3. }
  assert (∀ id, is_Some (live3 !! id) → id ∈ cached ∧ id ∉ cr_resumed_req_ids (so_cached_reqs o)) as Hsub.
  { intros id [e He]. rewrite L3 in He. case_decide as Hd; [done|]. destruct (A5 id) as [Hs Hr]; [eauto|]. apply (ok_scheduled _ _ _ Hok) in Hs as [?|?]; [done|]. done. }
  wp_step. eapply wp_call; [apply (wp_cached_reqs o live3 s3); [done..|]|].
  { intros i id Hi. pose proof (list_elem_of_lookup_2 _ _ _ Hi) as Hin. apply (cached_all_ok (requests s0)); [done|done| |].
    - rewrite B4 by (intros Hx; by apply (Ndis id)). rewrite A4, lookup_unfinished. destruct (ok_known _ _ _ Hok id Hin). by rewrite decide_False.
    - intros Hr. apply eq_None_not_Some. intros Hs. by apply Hsub in Hs as [_ ?]. }
  intros acc s4 (-> & C1 & C2 & live4 & C3 & C4). cbn beta. set (ids := news ++ filter (λ id, id ∉ dom live3) cached).
  assert (∀ id, id ∈ ids ↔ id ∈ news ∨ id ∈ cached ∧ live3 !! id = None) as Hmem.
  { intros id. unfold ids. rewrite elem_of_app, list_elem_of_filter, not_elem_of_dom. tauto. }
  assert (∀ id, id ∈ news → requests s4 !! id = requests s3 !! id ∧ live4 !! id = None) as Hnew4.
  { intros id Hid. rewrite C2, C4. unfold reqs_after, live_after. rewrite !decide_False by (intros Hx; by apply (Ndis id)). split; [done|]. by rewrite L3, decide_True. }
  assert (∀ id, id ∈ cached → ∃ r0, requests s0 !! id = Some r0 ∧ requests s3 !! id = Some r0) as Hold.
  { intros id Hin. destruct (ok_known _ _ _ Hok id Hin) as [Hnf [r0 Hr0]]. exists r0. split; [done|]. rewrite B4 by (intros Hx; by apply (Ndis id)).
    by rewrite A4, lookup_unfinished, decide_False. }
  assert (∀ id, id ∈ ids → live4 !! id = None ∧ ∃ r, requests s4 !! id = Some r ∧ state_before id r) as Hadd.
  { intros id [Hid|[Hid Hno]]%Hmem.
    - destruct (Hnew4 id Hid) as [-> Hl4]. split; [done|]. apply list_elem_of_fmap in Hid as (d & -> & Hd). eexists. split; [by apply B3|]. left. exists d. by rewrite A4.
    - destruct (Hold id Hid) as (r0 & Hr0 & Hr3). rewrite C2, C4. unfold reqs_after, live_after. rewrite !decide_True by done. rewrite Hno, Hr3. split; [done|]. simpl.
      rewrite decide_False by (by apply not_elem_of_dom). eexists. split; [done|]. right. split; [done|]. exists (the_req o id), r0. by rewrite req_of_the. }
  assert (NoDup ids) as Nids.
  { apply NoDup_app. split_and!; [done| |by apply NoDup_filter]. intros id Hid [_ Hx]%list_elem_of_filter. by apply (Ndis id). }
  assert (dom live4 = dom live3) as Hdom.
  { apply set_eq. intros id. rewrite !elem_of_dom, C4. unfold live_after. case_decide; [by rewrite fmap_is_Some|done]. }
  assert (size live4 + length ids ≤ sh_limit sh)%nat as Hsize.
  { etrans; [|exact (ok_limit _ _ _ Hok)]. rewrite <-!size_dom, Hdom, <-(size_list_to_set (C := gset string)) by done.
    rewrite <-size_union; [|intros id [e He]%elem_of_dom Hid%elem_of_list_to_set; apply Hadd in Hid as [Hn _]; rewrite C4 in Hn; unfold live_after in Hn; rewrite He in Hn; by case_decide].
    apply subseteq_size. intros id. rewrite elem_of_union, elem_of_list_to_set, Hmem, !elem_of_dom, (ok_scheduled _ _ _ Hok). intros [Hx%Hsub|[?|[? _]]]; tauto. }
  eapply wp_call; [apply (wp_add_all o ids live4 s4); [done..|]|].
  { intros id Hid. destruct (Hadd id Hid) as (Hn & r & Hr & Hst). split; [done|]. exists r. destruct (state_before_ok id r Hids Hst) as (? & ? & ?). done. }
  intros [] s5 (D1 & live5 & D2 & D3).
  assert (members_after live5 (requests s5)) as Hma; [split|].
  { intros id Hs. destruct (decide (id ∈ ids)) as [Hid|Hid].
    - destruct (Hadd id Hid) as (_ & r & Hr & Hst). exists r. rewrite D1, D3, !decide_True by done. by rewrite Hr.
    - rewrite Hmem in Hid. apply (ok_scheduled _ _ _ Hok) in Hs as [?|Hin]; [tauto|]. destruct (live3 !! id) as [e|] eqn:He; [|tauto]. destruct (Hold id Hin) as (r0 & Hr0 & Hr3).
      assert (e.1 = r0) as Her by (rewrite (Hl3 _ _ He) in Hr3; congruence). exists (cached_state (the_req o id) r0).
      rewrite D1, D3, !decide_False by (rewrite Hmem; naive_solver). rewrite C2, C4. unfold reqs_after, live_after. rewrite !decide_True, He, Hr3 by done. simpl.
      rewrite decide_True by (apply elem_of_dom; eauto). rewrite Her. split_and!; [|done|done]. right. split; [done|]. exists (the_req o id), r0. by rewrite req_of_the. }
  { intros id Hs. rewrite (ok_scheduled _ _ _ Hok) in Hs. rewrite D1, D3, !decide_False by (rewrite Hmem; tauto). rewrite C2, C4. unfold reqs_after, live_after.
    rewrite !decide_False by tauto. rewrite B4, A4 by tauto. split; [done|]. apply eq_None_not_Some. intros Hx%Hsub. tauto. }
  destruct (members_next live5 (requests s5) Hids Hma). by rewrite (members_entries live5).
Qed.
End step.
End states.

(** ** Whole steps *)

(** Between two steps: the batch holds [live], nothing is recorded, and the rows are those of
    known requests. *)
Record runner_ok (sh : Shape) (live : gmap string Entry) (s : Runner) : Prop := {
  rk_batch : batch_inv sh live (input_batch s);
  rk_builder : batch_update_builder (input_batch s) = builder_init;
  rk_linked : linked live s;
  rk_ids : ids_ok (requests s);
}.
(** A logits processor has a state at every row that holds a request it applies to. *)
Definition follows {T} (new_state : BatchSampling → list Z → string → option T) (live : gmap string Entry) (b : IB) (D : gmap nat T) : Prop :=
  ∀ i, D !! i = row_state (req_ids b) (proc_state new_state live) i.

Section whole.
Context (sh : Shape) {T : Type} (new_state : BatchSampling → list Z → string → option T) (truthy : T → bool) (D : gmap nat T).
Context (set_order : gset string → list string) (Horder : ∀ X, set_order X ≡ₚ elements X) (threshold : option Z).
Context (Hmasks : sh_masks sh = true → threshold = None).

Lemma pending_update b n d : pending_states new_state truthy b d = (process_dict_updates new_state truthy d (update_of b n)).1.
Proof.
  unfold update_of. destruct (removed_ b) as [|? ?] eqn:Hr, (moved b) as [|? ?] eqn:Hm, (added b) as [|? ?] eqn:Ha;
    [unfold pending_states; by rewrite Hr, Hm, Ha|rewrite <-Hr, <-Hm, <-Ha; by rewrite process_pending..].
Qed.
Lemma scheduled_entries_lookup o reqs id : is_Some (scheduled_entries o reqs !! id) → is_Some (so_num_scheduled_tokens o !! id).
Proof. unfold scheduled_entries. rewrite map_lookup_imap. destruct (so_num_scheduled_tokens o !! id); [eauto|by intros [? ?]]. Qed.

(** Moves, the reordering and the refresh. *)
Lemma wp_settle live o s E : batch_ok sh new_state truthy D live (input_batch s) → (∀ id, is_Some (live !! id) → is_Some (so_num_scheduled_tokens o !! id)) →
  wp (on_batch condense ;; may_reorder_batch threshold o ;; on_batch refresh_metadata) (λ u s', ∃ b, s' = set_batch b s ∧ batch_inv sh live b ∧
    batch_update_builder b = builder_init ∧ dense live b ∧ follows new_state live b (process_dict_updates new_state truthy D u).1) E s.
Proof.
  intros [H1 H2 H3] Hs. wp_step. apply wp_on_batch. eapply wp_call; [by apply (wp_condense sh live)|]. intros [] b1 (C1 & C2 & C3 & C4). cbn beta. wp_step.
  eapply (wp_call _ (λ _ s', ∃ b, s' = set_batch b s ∧ batch_core sh live b ∧ dense live b ∧ rtc edit (layout (input_batch s)) (layout b))).
  { unfold may_reorder_batch. wp_steps. simpl. assert (set_batch b1 s = set_batch b1 s ∧ batch_core sh live b1 ∧ dense live b1 ∧ rtc edit (layout (input_batch s)) (layout b1)) as Hsame by done.
    destruct (block_table b1), threshold as [thr|]; try (apply wp_ret; by exists b1). wp_step. apply wp_on_batch.
    assert (sh_masks sh = false) as Hm by (destruct (sh_masks sh); [by discriminate Hmasks|done]).
    eapply wp_call; [by apply (wp_reorder sh live (so_num_scheduled_tokens o) thr Hs)|]. intros u b2 (R1 & R2 & _ & R4 & _). wp_steps. exists b2. split_and!; [done..|by etrans]. }
  intros [] s2 (b2 & -> & R1 & R2 & R3). cbn beta. apply wp_on_batch. eapply wp_call; [by apply (wp_refresh sh live)|]. intros u b3 (P1 & P2 & P3). exists b3.
  split_and!; [done|done|by rewrite P2|by rewrite P2|]. intros i. apply (aligned_edits new_state truthy D (proc_state new_state live)) in R3; [|exact H3].
  subst u b3. simpl. rewrite <-pending_update. apply (al_states _ _ _ _ _ _ R3).
Qed.

Lemma run_update_states o live s : runner_ok sh live s → output_ok sh (requests s) o → follows new_state live (input_batch s) D →
  ∃ u s', update_states set_order true false threshold [] o s = (Ret u, s') ∧ next_requests o (unfinished_reqs o (requests s)) (requests s') ∧
    runner_ok sh (scheduled_entries o (requests s')) s' ∧ dense (scheduled_entries o (requests s')) (input_batch s') ∧
    follows new_state (scheduled_entries o (requests s')) (input_batch s') (process_dict_updates new_state truthy D u).1.
Proof.
  intros [H1 H2 H3 H4] Hok HD. assert (batch_ok sh new_state truthy D live (input_batch s)) as Hb.
  { split; [done|by rewrite H2|]. rewrite H2. split; [exact HD|by intros a c dir ?%elem_of_nil]. }
  apply wp_run. unfold update_states. wp_step.
  eapply wp_call; [apply (wp_update_members sh new_state truthy D set_order Horder o live s Hok); [done|by rewrite H2|done|done]|]. intros [] s1 (M1 & M2 & M3). cbn beta.
  eapply wp_call; [apply (wp_settle _ o s1 noexc M1); apply scheduled_entries_lookup|]. intros u s2 (b & -> & P1 & P2 & P3 & P4).
  split_and!; [done| |done|done]. split; [done|done| |done]. intros id e He. simpl in *. unfold scheduled_entries in He. rewrite map_lookup_imap in He.
  destruct (so_num_scheduled_tokens o !! id); [|done]. simpl in He. destruct (requests s1 !! id); [|done]. by injection He as <-.
Qed.
End whole.
