(* ===== verification/WorkerInit.v ===== *)
(** The batch and the runner at the start of a worker. *)
From S2P Require Import Prelude BlockTable SlotMapping InputBatch LogitsUpdate InputBatchInv BatchOps BatchMoves WorkerRunner BatchReorder WorkerStates.
From stdpp Require Import sorting.
Local Open Scope Z_scope.

(** ** [NPUInputBatch.__init__] *)

Definition no_kinds : Kinds := mkKinds ∅ ∅ ∅ ∅ ∅ ∅ ∅ ∅ ∅.
(** A row at the start. The sampling parameters are those of [torch.empty]; the numbers of
    accepted tokens are ones. *)
Definition fresh_row (max_model_len : nat) (uninit : RowSampling) : Row :=
  set_num_accepted 1 (mkRow (replicate max_model_len 0) 0 0 0 uninit None None None).
Definition ib_init (ranks : Ranks) (max_num_reqs max_model_len : nat) (max_num_batched_tokens vocab_size : Z) (block_sizes : list Z)
    (num_speculative_tokens : Z) (max_num_blocks_per_req : option (list Z)) (kernel_block_sizes : option (list (list Z)))
    (uninit : nat → RowSampling) : outcome InputBatch :=
  table ← mg_init ranks (Z.of_nat max_num_reqs) (Z.of_nat max_model_len) max_num_batched_tokens block_sizes num_speculative_tokens
    max_num_blocks_per_req kernel_block_sizes;
  Ret (mkInputBatch max_num_reqs vocab_size [] ∅ [] (replicate max_num_reqs [])
    ((λ i, fresh_row max_model_len (uninit i)) <$> seq 0 max_num_reqs) table no_kinds builder_init None).
Definition runner_init (b : InputBatch) : Runner := mkRunner ∅ ∅ b.

(** ** The tables at the start *)

(** The width of a table, and when it can be made. *)
Definition table_width (t : BlockTable) : nat := Z.to_nat (bt_max_num_blocks_per_req t * bt_blocks_per_phys_block t).
Lemma select_kernel_divides block_size ks k : 0 < block_size → select_kernel_size block_size ks = Some k → 0 < k ∧ 0 < block_size / k.
Proof.
  intros Hb Hs. unfold select_kernel_size in Hs. destruct (list_find _ _) as [[i x]|] eqn:Hf; [|done]. simpl in Hs. injection Hs as ->.
  apply list_find_Some in Hf as (_ & Hk & _). apply andb_true_iff in Hk as [Hk%Z.ltb_lt Hm%Z.eqb_eq]. split; [done|].
  apply Z.mod_divide in Hm as [q ->]; [|lia]. rewrite Z.div_mul by lia. nia.
Qed.
Lemma bt_init_ok ranks block_size n max_blocks max_tokens ks spec t : 0 < block_size → 0 ≤ max_blocks → 0 ≤ spec →
  max_blocks * block_size < 2 ^ 31 → bt_init ranks block_size (Z.of_nat n) max_blocks max_tokens ks spec = Ret t → table_ok n (table_width t) t.
Proof.
  intros Hb Hm Hs Hw Hi. unfold bt_init in Hi.
  assert (∃ k p, (match ks with None | Some [0] => Ret (block_size, 1) | Some ks => match select_kernel_size block_size ks with None => Raise ValueError | Some k => Ret (k, block_size / k) end end)
    = Ret (k, p) ∧ 0 < k ∧ 0 < p ≤ block_size) as (k & p & Hk & Hk0 & Hp).
  { destruct (match ks with None | Some [0] => _ | Some ks => _ end) as [[k p]|] eqn:E; [|done]. exists k, p. split; [done|].
    assert (∀ l, match select_kernel_size block_size l with None => Raise ValueError | Some k => Ret (k, block_size / k) end = Ret (k, p) → 0 < k ∧ 0 < p ≤ block_size) as Hsel.
    { intros l. destruct (select_kernel_size block_size l) as [x|] eqn:Hx; [|done]. intros [= -> <-]. pose proof (select_kernel_divides _ _ _ Hb Hx) as [H1 H2].
      split_and!; [done|done|]. apply Z.div_le_upper_bound; nia. }
    destruct ks as [[|[| |] [|? ?]]|]; first [match goal with H : context [select_kernel_size _ ?l] |- _ => exact (Hsel l H) end|injection E as <- <-; lia]. }
  rewrite Hk in Hi. simpl in Hi. injection Hi as <-. unfold table_width. cbn [bt_max_num_blocks_per_req bt_blocks_per_phys_block].
  assert (max_blocks * p < 2 ^ 31) as Hwp by nia.
  assert ((if 1 <? p then max_blocks * p else max_blocks) = max_blocks * p) as -> by (destruct (Z.ltb_spec 1 p); [done|]; replace p with 1 by lia; lia).
  split; simpl; [done|split; [lia|done]|lia|by rewrite length_replicate, Nat2Z.id| |].
  - split; [rewrite length_replicate; destruct (1 <? _); nia|]. apply Forall_replicate. by rewrite length_replicate.
  - apply Forall_replicate. lia.
Qed.

Lemma cdiv_bounds a d : 0 ≤ a → 0 < d → 0 ≤ cdiv a d ≤ a.
Proof. intros Ha Hd. split; [by apply cdiv_nonneg|]. apply cdiv_le_iff; nia. Qed.
Lemma mg_init_ok ranks n max_model_len max_tokens block_sizes spec max_blocks kernel_sizes ts : 0 ≤ spec → 0 < dcp_size ranks → 0 < pcp_size ranks → 0 ≤ max_model_len →
  Forall (λ b, 0 < b) block_sizes →
  (∀ i b m, block_sizes !! i = Some b → default (replicate (length block_sizes) max_model_len) max_blocks !! i = Some m → 0 ≤ m ∧ m * b < 2 ^ 31) →
  mg_init ranks (Z.of_nat n) max_model_len max_tokens block_sizes spec max_blocks kernel_sizes = Ret ts → tables_inv n (table_width <$> ts) ts.
Proof.
  intros Hs Hd Hp Hl Hb Hm Hi. unfold mg_init in Hi.
  destruct (match kernel_sizes with None => _ | Some [k] => _ | Some ks => _ end) as [ks|]; [|done]. cbn [mbind outcome_bind] in Hi.
  destruct (match max_blocks with Some ns => _ | None => _ end) as [ms|] eqn:Hms; [|done]. cbn [mbind outcome_bind] in Hi. case_decide as Hlen; [|done].
  apply mapM_Ret in Hi. unfold tables_inv. apply Forall2_fmap_l, Forall_Forall2_diag, Forall_lookup_2. intros i t Ht.
  destruct (Forall2_lookup_r _ _ _ _ _ Hi Ht) as ([[b k] m] & Hx & Hinit). rewrite lookup_zip_with in Hx.
  destruct (zip block_sizes ks !! i) as [y|] eqn:Hy; [|done]. destruct (ms !! i) as [m'|] eqn:Hmi; [|done]. simpl in Hx. injection Hx as -> ->.
  rewrite lookup_zip_with in Hy. destruct (block_sizes !! i) as [b'|] eqn:Hbi; [|done]. destruct (ks !! i); [|done]. simpl in Hy. injection Hy as -> ->.
  pose proof (Forall_lookup_1 _ _ _ _ Hb Hbi) as Hb0. simpl in Hb0. eapply bt_init_ok; try exact Hinit; try done; destruct max_blocks as [ns|]; simpl in Hm; try (injection Hms as ->; by apply (Hm i b m));
    destruct (Hm i b max_model_len) as [_ Hw]; try done; try (apply lookup_replicate_2; by eapply lookup_lt_Some);
    apply mapM_Ret in Hms; pose proof (Forall2_lookup_lr _ _ _ _ _ _ Hms Hbi Hmi) as Hc; simpl in Hc; case_match; try done; injection Hc as <-;
    pose proof (cdiv_bounds max_model_len (b * (dcp_size ranks * pcp_size ranks)) Hl ltac:(nia)); nia.
Qed.

(** ** The batch at the start *)

Definition init_shape (masks : bool) (max_model_len : nat) (b : InputBatch) : Shape :=
  mkShape (max_num_reqs b) max_model_len (vocab_size b) (table_width <$> block_table b) (block_table b) masks.
Lemma kinds_init v : kinds_ok v ∅ no_kinds.
Proof. split; try (intros id; split; [intros Hx; by apply not_elem_of_empty in Hx|naive_solver]). intros id n. simpl. rewrite lookup_empty. naive_solver. Qed.

Section init.
Context (ranks : Ranks) (n max_model_len : nat) (max_tokens vocab : Z) (block_sizes : list Z) (spec : Z).
Context (max_blocks : option (list Z)) (kernel_sizes : option (list (list Z))) (uninit : nat → RowSampling) (b : InputBatch).
Context (Hinit : ib_init ranks n max_model_len max_tokens vocab block_sizes spec max_blocks kernel_sizes uninit = Ret b).
Context (Hspec : 0 ≤ spec) (Hdcp : 0 < dcp_size ranks) (Hpcp : 0 < pcp_size ranks) (Hsizes : Forall (λ b, 0 < b) block_sizes).
Context (Hwidth : ∀ i bs m, block_sizes !! i = Some bs → default (replicate (length block_sizes) (Z.of_nat max_model_len)) max_blocks !! i = Some m → 0 ≤ m ∧ m * bs < 2 ^ 31).

Lemma runner_init_ok masks : runner_ok (init_shape masks max_model_len b) ∅ (runner_init b) ∧ dense ∅ b.
Proof.
  unfold ib_init in Hinit. destruct (mg_init _ _ _ _ _ _ _ _) as [ts|] eqn:Hts; [|done]. simpl in Hinit. injection Hinit as <-.
  apply mg_init_ok in Hts; [|done|done|done|lia|done|done]. split; [|split; [by rewrite map_size_empty|constructor]].
  split; simpl; [|done|by intros ? ? ?%lookup_empty_Some|by intros ? ? ?%lookup_empty_Some]. split; simpl; try done.
  - rewrite length_fmap, length_seq. split; [done|]. apply Forall_fmap, Forall_true. intros i. simpl. apply length_replicate.
  - lia.
  - split; [constructor|]. intros i. split; [by intros ?%elem_of_nil|done].
  - split; [lia|]. intros i x _ Hx. by apply lookup_replicate in Hx as [-> _].
  - intros id. rewrite !lookup_empty. done.
  - intros i row Hr _. rewrite list_lookup_fmap in Hr. destruct (seq 0 n !! i); [|done]. simpl in Hr. by injection Hr as <-.
  - apply kinds_init.
Qed.
End init.
