(* ===== verification/PrepareInputs.v ===== *)
(** [_prepare_inputs] of worker/npu_model_runner.py without context parallelism: the layout of
    the step's tokens, their positions, slots and ids, and the rows of logits to sample from.
    Arrays are lists of integers; the copies to the device are left out. *)
From S2P Require Import Prelude BlockTable InputBatch WorkerRunner.
Local Open Scope Z_scope.

(** ** Array operations *)

Fixpoint cumsum_from (a : Z) (ns : list Z) : list Z := match ns with [] => [] | n :: ns => a + n :: cumsum_from (a + n) ns end.
Definition np_cumsum (ns : list Z) : list Z := cumsum_from 0 ns.
Definition np_repeat {A} (xs : list A) (ns : list Z) : list A := concat (zip_with (λ x n, replicate (Z.to_nat n) x) xs ns).
(** Elementwise operations, on arrays of one length. *)
Definition np_zip (f : Z → Z → Z) (xs ys : list Z) : outcome (list Z) := if decide (length xs = length ys) then Ret (zip_with f xs ys) else Raise ValueError.
Definition np_take {A} (xs : list A) (n : Z) : list A := take (Z.to_nat n) xs.
(** [xs[indices]]. *)
Definition np_select {A} (xs : list A) (indices : list Z) : outcome (list A) := mapM (λ i, np_get xs (Z.to_nat i)) indices.
Definition np_last (xs : list Z) : outcome Z := match last xs with Some x => Ret x | None => Raise IndexError end.
Definition np_all (p : Z → bool) (xs : list Z) : bool := forallb p xs.
Definition arange (n : nat) : list Z := Z.of_nat <$> seq 0 n.

(** [_get_cumsum_and_arange]. *)
Definition get_cumsum_and_arange (arange_np num_tokens : list Z) : outcome (list Z * list Z) :=
  let cu_num_tokens := np_cumsum num_tokens in
  total_num_tokens ← np_last cu_num_tokens;
  starts ← np_zip Z.sub cu_num_tokens num_tokens;
  let cumsums_offsets := np_repeat starts num_tokens in
  arange ← np_zip Z.sub (np_take arange_np total_num_tokens) cumsums_offsets;
  Ret (cu_num_tokens, arange).

(** ** Fixed-width decodes *)

Definition fixed_width (w : Z) : bool := (w =? 1) || (w =? 2).
Definition fixed_decode_layout_arrays (max_num_reqs : nat) (query_width : Z) : outcome (list Z * list Z * list Z) :=
  if (max_num_reqs =? 0)%nat || negb (fixed_width query_width) then Raise ValueError
  else Ret (np_repeat (arange max_num_reqs) (replicate max_num_reqs query_width),
            concat (replicate max_num_reqs (arange (Z.to_nat query_width))),
            (λ i, (i + 1) * query_width) <$> arange max_num_reqs).
Definition fill_fixed_decode_positions (positions_size : nat) (computed_tokens position_offsets : list Z) (num_reqs : nat) (query_width : Z) : outcome (list Z) :=
  if negb (fixed_width query_width) then Raise ValueError
  else
    let num_tokens := (num_reqs * Z.to_nat query_width)%nat in
    if negb (positions_size =? num_tokens)%nat || (length computed_tokens <? num_reqs)%nat || (length position_offsets <? num_tokens)%nat then Raise ValueError
    else np_zip Z.add (concat (replicate (Z.to_nat query_width) <$> take num_reqs computed_tokens)) (take num_tokens position_offsets).

(** ** Attention states *)

Inductive AscendAttentionState := PrefillNoCache | PrefillCacheHit | DecodeOnly | ChunkedPrefill | SpecDecoding.
#[global] Instance AscendAttentionState_eq_dec : EqDecision AscendAttentionState.
Proof. solve_decision. Defined.

Record RunnerConfig := mkRunnerConfig {
  rc_max_num_reqs : nat;
  rc_arange_np : list Z;
  rc_decode_threshold : Z;
  rc_speculative_method : option string;
  rc_enable_chunked_prefill : bool;
  rc_is_kv_consumer : bool;
}.
(** The state that is returned and the one that is stored. *)
Definition build_attn_state (c : RunnerConfig) (computed num_scheduled_tokens num_valid_tokens : list Z) : AscendAttentionState * AscendAttentionState :=
  let speculative := bool_decide (is_Some (rc_speculative_method c)) in
  let mtp := bool_decide (rc_speculative_method c = Some "mtp"%string) in
  let attn_state :=
    if np_all (Z.eqb 0) computed then PrefillNoCache
    else if np_all (Z.eqb 1) num_scheduled_tokens then if mtp then SpecDecoding else DecodeOnly
    else if np_all (Z.eqb 1) num_valid_tokens then if speculative then SpecDecoding else ChunkedPrefill
    else if rc_enable_chunked_prefill c then ChunkedPrefill
    else PrefillCacheHit in
  (attn_state, if bool_decide (attn_state = SpecDecoding) && negb mtp then ChunkedPrefill else attn_state).

(** ** The layout *)

Record TokenLayout := mkTokenLayout { tl_req_indices : list Z; tl_cu_num_tokens : list Z; tl_positions : list Z }.

(** The general path. *)
Definition general_layout (c : RunnerConfig) (num_reqs : nat) (computed num_scheduled_tokens : list Z) : outcome TokenLayout :=
  let req_indices := np_repeat (take num_reqs (rc_arange_np c)) num_scheduled_tokens in
  '(cu_num_tokens, arange) ← get_cumsum_and_arange (rc_arange_np c) num_scheduled_tokens;
  of_req ← np_select computed req_indices;
  positions ← np_zip Z.add of_req arange;
  Ret (mkTokenLayout req_indices cu_num_tokens positions).
(** The path for uniform decodes of width one or two. *)
Definition fixed_layout (c : RunnerConfig) (num_reqs : nat) (width : Z) (computed : list Z) : outcome TokenLayout :=
  if width =? 1 then
    Ret (mkTokenLayout (take num_reqs (rc_arange_np c)) (take num_reqs (drop 1 (rc_arange_np c))) (take num_reqs computed))
  else if fixed_width (rc_decode_threshold c) then
    let total := (num_reqs * Z.to_nat width)%nat in
    '(indices, offsets, cumulative) ← fixed_decode_layout_arrays (rc_max_num_reqs c) (rc_decode_threshold c);
    positions ← fill_fixed_decode_positions total computed offsets num_reqs width;
    Ret (mkTokenLayout (take total indices) (take num_reqs cumulative) positions)
  else Raise AssertionError.
Definition fixed_decode_width (c : RunnerConfig) (st : AscendAttentionState) : Z :=
  match st with DecodeOnly => 1 | SpecDecoding => rc_decode_threshold c | _ => 0 end.
Definition token_layout (c : RunnerConfig) (st : AscendAttentionState) (num_reqs : nat) (total : Z) (computed num_scheduled_tokens : list Z) : outcome TokenLayout :=
  let width := fixed_decode_width c st in
  if fixed_width width && (total =? Z.of_nat num_reqs * width) && np_all (Z.eqb width) (take num_reqs num_scheduled_tokens) then
    fixed_layout c num_reqs width computed
  else general_layout c num_reqs computed num_scheduled_tokens.

(** ** Draft tokens *)

Record SpecDecodeMetadata := mkSpecDecodeMetadata {
  sm_draft_token_ids : list Z;
  sm_num_draft_tokens : list Z;
  sm_cu_num_draft_tokens : list Z;
  sm_cu_num_sampled_tokens : list Z;
  sm_target_logits_indices : list Z;
  sm_bonus_logits_indices : list Z;
  sm_logits_indices : list Z;
}.
Definition calc_spec_decode_metadata (arange_np input_ids num_draft_tokens cu_num_scheduled_tokens : list Z) : outcome SpecDecodeMetadata :=
  let num_sampled_tokens := (λ n, n + 1) <$> num_draft_tokens in
  let cu_num_sampled_tokens := np_cumsum num_sampled_tokens in
  total_num_sampled_tokens ← np_last cu_num_sampled_tokens;
  starts ← np_zip Z.sub cu_num_sampled_tokens num_sampled_tokens;
  sampled_arange ← np_zip Z.sub (np_take arange_np total_num_sampled_tokens) (np_repeat starts num_sampled_tokens);
  first ← np_zip Z.sub cu_num_scheduled_tokens num_sampled_tokens;
  logits_indices ← np_zip Z.add (np_repeat first num_sampled_tokens) sampled_arange;
  let bonus_logits_indices := (λ n, n - 1) <$> cu_num_sampled_tokens in
  let cu_num_draft_tokens := np_cumsum num_draft_tokens in
  total_num_draft_tokens ← np_last cu_num_draft_tokens;
  draft_starts ← np_zip Z.sub cu_num_draft_tokens num_draft_tokens;
  draft_arange ← np_zip Z.sub (np_take arange_np total_num_draft_tokens) (np_repeat draft_starts num_draft_tokens);
  target_logits_indices ← np_zip Z.add (np_repeat starts num_draft_tokens) draft_arange;
  at_logits ← np_select input_ids logits_indices;
  draft_token_ids ← np_select at_logits ((λ i, i + 1) <$> target_logits_indices);
  Ret (mkSpecDecodeMetadata draft_token_ids num_draft_tokens cu_num_draft_tokens cu_num_sampled_tokens target_logits_indices bonus_logits_indices
         logits_indices).

(** ** [_prepare_inputs] *)

Record StepInputs := mkStepInputs {
  si_attn_state : AscendAttentionState;
  si_layout : TokenLayout;
  si_input_ids : list Z;
  si_query_start_loc : list Z;
  si_seq_lens : list Z;
  si_discard_request_indices : list nat;
  si_spec_decode_metadata : option SpecDecodeMetadata;
  si_num_decode_draft_tokens : list Z;
  si_logits_indices : list Z;
}.

(** The ids of the batch's requests; [req_ids] of a batch without gaps. *)
Definition batch_req_ids : M Runner (list string) :=
  b ← gets input_batch; of_outcome (mapM (λ x : option string, match x with Some id => Ret id | None => Raise KeyError end) (req_ids b)).
(** [num_draft_tokens] and [num_decode_draft_tokens]. *)
Definition draft_counts (c : RunnerConfig) (o : StepOutput) (num_reqs : nat) : M Runner (list Z * list Z) :=
  for_fold (map_to_list (so_spec_decode_tokens o)) (replicate num_reqs 0, replicate num_reqs (-1)) (λ '(counts, decodes) '(req_id, draft_token_ids),
    b ← gets input_batch;
    req_idx ← from_option_raise KeyError (req_id_to_index b !! req_id);
    row ← on_batch (get_at rows req_idx);
    let n := Z.of_nat (length draft_token_ids) in
    counts ← of_outcome (np_set counts req_idx n);
    decodes ← of_outcome (np_set decodes req_idx
      (if (rc_is_kv_consumer c && bool_decide (req_id ∈ nr_req_id <$> so_new_reqs o)) || (num_prompt_tokens row <=? num_computed_tokens_cpu row) then n else -1));
    mret (counts, decodes)).

Definition prepare_inputs (c : RunnerConfig) (o : StepOutput) (num_scheduled_tokens : list Z) : M Runner StepInputs :=
  let total := foldr Z.add 0 num_scheduled_tokens in
  py_assert (0 <? total) ;;
  b ← gets input_batch;
  let num_reqs := num_reqs b in
  py_assert (0 <? num_reqs)%nat ;;
  on_batch (modify (λ b, set_table (mg_commit_block_table num_reqs false (block_table b)) b)) ;;
  ids ← batch_req_ids;
  let computed := num_computed_tokens_cpu <$> rows b in
  num_valid_tokens ← of_outcome (if decide (so_spec_decode_tokens o = ∅) then Ret num_scheduled_tokens
    else mapM (λ id, match so_num_scheduled_tokens o !! id with
      | Some n => Ret (n - Z.of_nat (length (default [] (so_spec_decode_tokens o !! id))))
      | None => Raise KeyError
      end) ids);
  let attn_state := (build_attn_state c (take num_reqs computed) num_scheduled_tokens num_valid_tokens).1 in
  layout ← of_outcome (token_layout c attn_state num_reqs total computed num_scheduled_tokens);
  on_batch (on_table (mg_compute_slot_mapping (tl_req_indices layout) (tl_positions layout))) ;;
  r ← on_batch (get_at rows 0);
  let max_model_len := Z.of_nat (length (token_ids_cpu r)) in
  token_indices ← of_outcome (np_zip Z.add (tl_positions layout) ((λ i, i * max_model_len) <$> tl_req_indices layout));
  input_ids ← of_outcome (np_select (concat (token_ids_cpu <$> rows b)) token_indices);
  seq_lens ← of_outcome (np_zip Z.add (take num_reqs computed) num_scheduled_tokens);
  num_tokens ← for_fold ids [] (λ acc id, r ← get_request id; mret (acc ++ [st_num_tokens r]));
  let discard := filter (λ i, default 0 (seq_lens !! i) < default 0 (num_tokens !! i)) (seq 0 num_reqs) in
  if decide (so_spec_decode_tokens o = ∅) then
    mret (mkStepInputs attn_state layout input_ids (0 :: tl_cu_num_tokens layout) seq_lens discard None [] ((λ n, n - 1) <$> tl_cu_num_tokens layout))
  else
    counts ← draft_counts c o num_reqs;
    meta ← of_outcome (calc_spec_decode_metadata (rc_arange_np c) input_ids counts.1 (tl_cu_num_tokens layout));
    mret (mkStepInputs attn_state layout input_ids (0 :: tl_cu_num_tokens layout) seq_lens discard (Some meta) counts.2 (sm_logits_indices meta)).

(** ** [_bookkeeping_sync], with synchronous scheduling *)

Definition PLACEHOLDER_TOKEN_ID : Z := -1.
(** [RejectionSampler.parse_output]. *)
Definition parse_output (vocab_size : Z) (discard : list nat) (output_token_ids : list (list Z)) : list (list Z) :=
  imap (λ i row, if decide (i ∈ discard) then [] else filter (λ t, t ≠ PLACEHOLDER_TOKEN_ID ∧ t < vocab_size) row) output_token_ids.
Definition valid_sampled_token_ids (vocab_size : Z) (discard : list nat) (max_gen_len : nat) (sampled : list (list Z)) : list (list Z) :=
  if decide (max_gen_len = 1)%nat then imap (λ i row, if decide (i ∈ discard) then [] else row) sampled
  else parse_output vocab_size discard sampled.
Definition append_sampled (max_model_len : Z) (req_idx : nat) (sampled_ids : list Z) : M Runner unit :=
  match sampled_ids with
  | [] => mret tt
  | _ =>
      r ← on_batch (get_at rows req_idx);
      let start_idx := num_tokens_no_spec r in
      let end_idx := start_idx + Z.of_nat (length sampled_ids) in
      py_assert (end_idx <=? max_model_len) ;;
      on_batch (write_tokens req_idx start_idx sampled_ids) ;;
      on_batch (upd_row req_idx (λ r, set_counts end_idx (num_prompt_tokens r) (num_computed_tokens_cpu r) r)) ;;
      req_id ← on_batch (get_at req_ids req_idx);
      match req_id with
      | Some id => upd_request id (λ r, st_set_outputs (st_output_token_ids r ++ sampled_ids) r)
      | None => raise KeyError
      end
  end.
Definition bookkeeping_sync (max_model_len : Z) (discard : list nat) (max_gen_len : nat) (sampled : list (list Z)) : M Runner (list (list Z)) :=
  b ← gets input_batch;
  let valid := valid_sampled_token_ids (vocab_size b) discard max_gen_len sampled in
  for_each (imap pair valid) (λ '(i, ids), append_sampled max_model_len i ids) ;;
  mret valid.
