(* ===== verification/InputLayout.v ===== *)
(** The index arithmetic of [_prepare_inputs]: what the sums, repetitions and selections
    compute, row by row. *)
From S2P Require Import Prelude BlockTable SlotMapping InputBatch WorkerRunner PrepareInputs.
Local Open Scope Z_scope.

(** ** Segments *)

Fixpoint starts_from (a : Z) (ns : list Z) : list Z := match ns with [] => [] | n :: ns => a :: starts_from (a + n) ns end.
Definition starts (ns : list Z) : list Z := starts_from 0 ns.
Definition total_of (ns : list Z) : Z := foldr Z.add 0 ns.
(** [c, c + 1, ..., c + n - 1]. *)
Definition range (c n : Z) : list Z := Z.add c <$> arange (Z.to_nat n).
Definition nonneg (ns : list Z) : Prop := Forall (Z.le 0) ns.

Lemma length_arange n : length (arange n) = n.
Proof. unfold arange. by rewrite length_fmap, length_seq. Qed.
Lemma length_range c n : length (range c n) = Z.to_nat n.
Proof. unfold range. by rewrite length_fmap, length_arange. Qed.
Lemma lookup_arange n i : (i < n)%nat → arange n !! i = Some (Z.of_nat i).
Proof. intros H. unfold arange. by rewrite list_lookup_fmap, lookup_seq_lt. Qed.
Lemma lookup_range c n i : (i < Z.to_nat n)%nat → range c n !! i = Some (c + Z.of_nat i).
Proof. intros H. unfold range. by rewrite list_lookup_fmap, lookup_arange. Qed.
Lemma take_arange n m : (n ≤ m)%nat → take n (arange m) = arange n.
Proof. intros H. unfold arange. rewrite <-fmap_take, take_seq, Nat.min_l by lia. done. Qed.
Lemma range_0 n : range 0 n = arange (Z.to_nat n).
Proof. unfold range. rewrite <-(list_fmap_id (arange _)) at 2. apply list_fmap_ext. intros. simpl. lia. Qed.
Lemma range_app c n m : 0 ≤ n → 0 ≤ m → range c (n + m) = range c n ++ range (c + n) m.
Proof.
  intros Hn Hm. apply list_eq. intros i. destruct (decide (i < Z.to_nat (n + m))%nat) as [Hi|Hi].
  - rewrite lookup_range by done. destruct (decide (i < Z.to_nat n)%nat); [by rewrite lookup_app_l, lookup_range by (rewrite ?length_range; lia)|].
    rewrite lookup_app_r by (rewrite length_range; lia). rewrite length_range, lookup_range by lia. f_equal. lia.
  - rewrite !lookup_ge_None_2; [done|rewrite length_app, !length_range; lia|rewrite length_range; lia].
Qed.

Lemma length_starts a ns : length (starts_from a ns) = length ns.
Proof. revert a. induction ns as [|n ns IH]; intros a; [done|]. simpl. by rewrite IH. Qed.
Lemma length_cumsum a ns : length (cumsum_from a ns) = length ns.
Proof. revert a. induction ns as [|n ns IH]; intros a; [done|]. simpl. by rewrite IH. Qed.
Lemma cumsum_sub a ns : zip_with Z.sub (cumsum_from a ns) ns = starts_from a ns.
Proof. revert a. induction ns as [|n ns IH]; intros a; [done|]. simpl. rewrite IH. f_equal. lia. Qed.
Lemma cumsum_last a ns : ns ≠ [] → last (cumsum_from a ns) = Some (a + total_of ns).
Proof.
  revert a. induction ns as [|n ns IH]; intros a Hne; [done|]. simpl. destruct ns as [|m ns]; [simpl; f_equal; lia|].
  change (last (a + n :: cumsum_from (a + n) (m :: ns))) with (last (cumsum_from (a + n) (m :: ns))). rewrite IH by done. f_equal. simpl. lia.
Qed.
Lemma total_of_nonneg ns : nonneg ns → 0 ≤ total_of ns.
Proof. induction 1; simpl; lia. Qed.

(** A range is cut at the starts of the segments. *)
Lemma range_segments a ns : nonneg ns → range a (total_of ns) = concat (zip_with range (starts_from a ns) ns).
Proof.
  intros H. revert a. induction H as [|n ns Hn Hns IH]; intros a; [done|]. simpl. rewrite range_app by (done || by apply total_of_nonneg). by rewrite IH.
Qed.

(** Elementwise operations on segments. *)
Lemma zip_with_concat {A B C} (f : A → B → C) xss yss : Forall2 (λ xs ys, length xs = length ys) xss yss →
  zip_with f (concat xss) (concat yss) = concat (zip_with (zip_with f) xss yss).
Proof. induction 1 as [|xs ys xss yss Hl _ IH]; [done|]. simpl. rewrite zip_with_app by done. by rewrite IH. Qed.
Lemma length_concat_eq {A B} (xss : list (list A)) (yss : list (list B)) : Forall2 (λ xs ys, length xs = length ys) xss yss → length (concat xss) = length (concat yss).
Proof. induction 1 as [|xs ys xss yss Hl _ IH]; [done|]. simpl. rewrite !length_app. lia. Qed.

Lemma np_zip_segments (f : Z → Z → Z) xss yss : Forall2 (λ xs ys, length xs = length ys) xss yss →
  np_zip f (concat xss) (concat yss) = Ret (concat (zip_with (zip_with f) xss yss)).
Proof. intros H. unfold np_zip. rewrite decide_True by (by apply length_concat_eq). by rewrite zip_with_concat. Qed.
Lemma np_zip_same f xs ys : length xs = length ys → np_zip f xs ys = Ret (zip_with f xs ys).
Proof. intros H. unfold np_zip. by rewrite decide_True. Qed.

Lemma range_minus c n : zip_with Z.sub (range c n) (replicate (Z.to_nat n) c) = arange (Z.to_nat n).
Proof.
  apply list_eq. intros i. rewrite lookup_zip_with. destruct (decide (i < Z.to_nat n)%nat) as [Hi|Hi].
  - rewrite lookup_range, lookup_replicate_2, lookup_arange by done. simpl. f_equal. lia.
  - rewrite (lookup_ge_None_2 (range _ _)) by (rewrite length_range; lia). by rewrite (lookup_ge_None_2 (arange _)) by (rewrite length_arange; lia).
Qed.
Lemma range_plus c n : zip_with Z.add (replicate (Z.to_nat n) c) (arange (Z.to_nat n)) = range c n.
Proof.
  apply list_eq. intros i. rewrite lookup_zip_with. destruct (decide (i < Z.to_nat n)%nat) as [Hi|Hi].
  - by rewrite lookup_range, lookup_replicate_2, lookup_arange by done.
  - rewrite (lookup_ge_None_2 (replicate _ _)) by (rewrite length_replicate; lia). by rewrite (lookup_ge_None_2 (range _ _)) by (rewrite length_range; lia).
Qed.

(** The second half of the step that all the index computations share: the numbers within the
    segments. *)
Lemma segment_arange N ns : nonneg ns → total_of ns ≤ Z.of_nat N →
  np_zip Z.sub (np_take (arange N) (total_of ns)) (np_repeat (starts ns) ns) = Ret (concat ((λ n, arange (Z.to_nat n)) <$> ns)).
Proof.
  intros H HN. pose proof (total_of_nonneg ns H). unfold np_take. rewrite take_arange by lia. rewrite <-range_0, range_segments by done. unfold np_repeat, starts.
  rewrite np_zip_segments.
  - do 2 f_equal. clear. generalize 0 as a. induction ns as [|n ns IH]; intros a; [done|]. simpl. by rewrite range_minus, IH.
  - clear. generalize 0 as a. induction ns as [|n ns IH]; intros a; simpl; constructor; [by rewrite length_range, length_replicate|apply IH].
Qed.
Lemma repeat_add cs ns : length cs = length ns →
  np_zip Z.add (np_repeat cs ns) (concat ((λ n, arange (Z.to_nat n)) <$> ns)) = Ret (concat (zip_with range cs ns)).
Proof.
  intros H. unfold np_repeat. rewrite np_zip_segments.
  - do 2 f_equal. revert cs H. induction ns as [|n ns IH]; intros [|c cs] H; try done. simpl. rewrite range_plus. f_equal. apply IH. by injection H.
  - revert cs H. induction ns as [|n ns IH]; intros [|c cs] H; try done; simpl; constructor; [by rewrite length_replicate, length_arange|apply IH; by injection H].
Qed.

Lemma np_cumsum_last ns : ns ≠ [] → np_last (np_cumsum ns) = Ret (total_of ns).
Proof. intros H. unfold np_last, np_cumsum. by rewrite cumsum_last. Qed.
Lemma np_cumsum_starts ns : np_zip Z.sub (np_cumsum ns) ns = Ret (starts ns).
Proof. unfold np_cumsum. rewrite np_zip_same by apply length_cumsum. by rewrite cumsum_sub. Qed.
Lemma cumsum_and_arange N ns : nonneg ns → ns ≠ [] → total_of ns ≤ Z.of_nat N →
  get_cumsum_and_arange (arange N) ns = Ret (np_cumsum ns, concat ((λ n, arange (Z.to_nat n)) <$> ns)).
Proof.
  intros H Hne HN. unfold get_cumsum_and_arange. rewrite np_cumsum_last by done. cbn [mbind outcome_bind]. rewrite np_cumsum_starts. cbn [mbind outcome_bind].
  by rewrite segment_arange.
Qed.

(** ** Selecting *)

Lemma np_select_all {A} (xs : list A) (d : A) (idx : list Z) : Forall (λ i, 0 ≤ i < Z.of_nat (length xs)) idx →
  np_select xs idx = Ret ((λ i, default d (xs !! Z.to_nat i)) <$> idx).
Proof.
  intros H. apply mapM_map. intros i Hi. rewrite Forall_forall in H. specialize (H i Hi). destruct (lookup_lt_is_Some_2 xs (Z.to_nat i)) as [x Hx]; [lia|].
  rewrite Hx. by apply np_get_Some.
Qed.
Lemma fmap_repeat {A B} (f : A → B) xs ns : f <$> np_repeat xs ns = np_repeat (f <$> xs) ns.
Proof.
  unfold np_repeat. revert ns. induction xs as [|x xs IH]; intros [|n ns]; try done. simpl. rewrite fmap_app, fmap_replicate. f_equal. apply IH.
Qed.
Lemma fmap_arange_lookup (cs : list Z) : (λ i, default 0 (cs !! Z.to_nat i)) <$> arange (length cs) = cs.
Proof.
  apply list_eq. intros i. rewrite list_lookup_fmap. destruct (decide (i < length cs)%nat) as [Hi|Hi].
  - rewrite lookup_arange by done. simpl. rewrite Nat2Z.id. by destruct (lookup_lt_is_Some_2 cs i Hi) as [x ->].
  - by rewrite !lookup_ge_None_2 by (rewrite ?length_arange; lia).
Qed.
Lemma elem_of_repeat {A} (x : A) xs ns : x ∈ np_repeat xs ns → x ∈ xs.
Proof.
  unfold np_repeat. revert ns. induction xs as [|y xs IH]; intros [|n ns] H; simpl in H; try (by apply elem_of_nil in H).
  apply elem_of_app in H as [H|H]; [apply elem_of_replicate in H as [-> _]; by left|right; by eapply IH].
Qed.

(** ** The layout *)

Definition rows_of (ns : list Z) : list Z := np_repeat (arange (length ns)) ns.
Definition positions_of (cs ns : list Z) : list Z := concat (zip_with range cs ns).

Lemma general_layout_ok c N cs ns : rc_arange_np c = arange N → nonneg ns → ns ≠ [] → total_of ns ≤ Z.of_nat N → (length ns ≤ N)%nat → (length ns ≤ length cs)%nat →
  general_layout c (length ns) cs ns = Ret (mkTokenLayout (rows_of ns) (np_cumsum ns) (positions_of (take (length ns) cs) ns)).
Proof.
  intros Hc H Hne HN Hl Hcs. unfold general_layout. rewrite Hc, take_arange by done. fold (rows_of ns). rewrite cumsum_and_arange by done. cbn [mbind outcome_bind].
  set (cs' := take (length ns) cs). assert (length cs' = length ns) as Hl' by (unfold cs'; rewrite length_take; lia).
  rewrite (np_select_all cs 0).
  - cbn [mbind outcome_bind]. unfold rows_of. rewrite fmap_repeat. assert ((λ i, default 0 (cs !! Z.to_nat i)) <$> arange (length ns) = cs') as ->.
    { rewrite <-(fmap_arange_lookup cs'), Hl'. apply list_fmap_ext. intros j i Hi. unfold cs'. rewrite lookup_take_lt; [done|].
      apply lookup_lt_Some in Hi as Hj. rewrite length_arange in Hj. rewrite lookup_arange in Hi by done. injection Hi as <-. lia. }
    rewrite repeat_add by done. done.
  - apply Forall_forall. intros i Hi%elem_of_repeat. apply list_elem_of_lookup in Hi as [j Hj]. pose proof (lookup_lt_Some _ _ _ Hj) as Hlt. rewrite length_arange in Hlt.
    rewrite lookup_arange in Hj by done. injection Hj as <-. lia.
Qed.

(** ** The path for uniform decodes *)

Lemma arange_split n m : (n ≤ m)%nat → ∃ l, arange m = arange n ++ l ∧ length l = (m - n)%nat.
Proof.
  intros H. exists (drop n (arange m)). split; [|by rewrite length_drop, length_arange]. rewrite <-(take_drop n (arange m)) at 1. by rewrite take_arange.
Qed.
Lemma repeat_app {A} (xs ys : list A) ns ms : length xs = length ns → np_repeat (xs ++ ys) (ns ++ ms) = np_repeat xs ns ++ np_repeat ys ms.
Proof. intros H. unfold np_repeat. by rewrite zip_with_app, concat_app. Qed.
Lemma length_repeat_const {A} (xs : list A) w : length (np_repeat xs (replicate (length xs) w)) = (length xs * Z.to_nat w)%nat.
Proof. induction xs as [|x xs IH]; [done|]. unfold np_repeat in *. simpl. rewrite length_app, length_replicate, IH. lia. Qed.
Lemma take_repeat R M w : (R ≤ M)%nat → take (R * Z.to_nat w) (np_repeat (arange M) (replicate M w)) = np_repeat (arange R) (replicate R w).
Proof.
  intros H. destruct (arange_split R M H) as (l & Hl & Hn). replace M with (R + (M - R))%nat at 2 by lia. rewrite Hl, replicate_add.
  rewrite repeat_app by (by rewrite length_arange, length_replicate).
  pose proof (length_repeat_const (arange R) w) as Hlen. rewrite length_arange in Hlen. rewrite <-Hlen. apply take_app_length.
Qed.
Lemma take_concat_replicate {A} (xs : list A) R M : (R ≤ M)%nat → take (R * length xs) (concat (replicate M xs)) = concat (replicate R xs).
Proof.
  intros H. replace M with (R + (M - R))%nat by lia. rewrite replicate_add, concat_app. apply take_app_length'.
  induction R as [|R IH]; [done|]. simpl. rewrite length_app, IH by lia. lia.
Qed.
Lemma cumsum_const w R : np_cumsum (replicate R w) = (λ i, (i + 1) * w) <$> arange R.
Proof.
  unfold np_cumsum. assert (∀ a, cumsum_from a (replicate R w) = (λ i, a + (i + 1) * w) <$> arange R) as H.
  { induction R as [|R IH]; intros a; [done|]. simpl. rewrite IH. unfold arange. simpl. f_equal; [lia|]. rewrite <-!list_fmap_compose, <-fmap_S_seq, <-list_fmap_compose.
    apply list_fmap_ext. intros i x _. simpl. lia. }
  rewrite H. apply list_fmap_ext. intros. simpl. lia.
Qed.
Lemma np_all_replicate w ns : np_all (Z.eqb w) ns = true → ns = replicate (length ns) w.
Proof. unfold np_all. induction ns as [|n ns IH]; [done|]. simpl. intros [H1%Z.eqb_eq H2]%andb_prop. subst. f_equal. by apply IH. Qed.
Lemma positions_const cs w R : length cs = R → positions_of cs (replicate R w) = concat ((λ c, range c w) <$> cs).
Proof. intros <-. unfold positions_of. induction cs as [|c cs IH]; [done|]. simpl. by rewrite IH. Qed.

Lemma fixed_width_1 c N R cs : rc_arange_np c = arange N → (R + 1 ≤ N)%nat → (R ≤ length cs)%nat →
  fixed_layout c R 1 cs = Ret (mkTokenLayout (rows_of (replicate R 1)) (np_cumsum (replicate R 1)) (positions_of (take R cs) (replicate R 1))).
Proof.
  intros Hc HN Hcs. unfold fixed_layout. rewrite Z.eqb_refl, Hc, take_arange by lia. do 2 f_equal.
  - unfold rows_of. rewrite length_replicate. unfold np_repeat. rewrite <-(length_arange R) at 3. induction (arange R) as [|x xs IH]; [done|]. simpl. by rewrite <-IH.
  - rewrite cumsum_const. apply list_eq. intros i. rewrite list_lookup_fmap. destruct (decide (i < R)%nat) as [Hi|Hi].
    + rewrite lookup_take_lt, lookup_drop, !lookup_arange by lia. simpl. f_equal. lia.
    + rewrite lookup_take_ge by lia. by rewrite lookup_ge_None_2 by (rewrite length_arange; lia).
  - rewrite positions_const by (rewrite length_take; lia).
    induction (take R cs) as [|x xs IH] in |-*; [done|]. rewrite fmap_cons. cbn [concat]. rewrite <-IH. unfold range. simpl. by rewrite Z.add_0_r.
Qed.
Lemma fixed_width_2 c R cs : rc_decode_threshold c = 2 → (0 < R)%nat → (R ≤ rc_max_num_reqs c)%nat → (R ≤ length cs)%nat →
  fixed_layout c R 2 cs = Ret (mkTokenLayout (rows_of (replicate R 2)) (np_cumsum (replicate R 2)) (positions_of (take R cs) (replicate R 2))).
Proof.
  intros Hd HR HM Hcs. unfold fixed_layout. rewrite Hd. change (2 =? 1) with false. change (fixed_width 2) with true. cbn iota. set (M := rc_max_num_reqs c) in *.
  unfold fixed_decode_layout_arrays. rewrite (proj2 (Nat.eqb_neq M 0)) by lia. cbn [orb negb fixed_width]. change (fixed_width 2) with true. cbn iota.
  cbn [mbind outcome_bind negb orb]. unfold fill_fixed_decode_positions. change (fixed_width 2) with true. cbn [negb].
  assert (length (concat (replicate M (arange (Z.to_nat 2)))) = (M * 2)%nat) as Hlo.
  { clear. induction M as [|M IH]; [done|]. simpl. rewrite IH. simpl. lia. }
  rewrite Nat.eqb_refl. rewrite (proj2 (Nat.ltb_ge (length cs) R)) by lia. rewrite (proj2 (Nat.ltb_ge _ _)) by (rewrite Hlo; simpl; lia). cbn [negb orb].
  change (Z.to_nat 2) with 2%nat. pose proof (take_concat_replicate (arange 2) R M HM) as Htc. change (length (arange 2)) with 2%nat in Htc. rewrite Htc.
  assert (length (take R cs) = R) as Hl by (rewrite length_take; lia).
  assert (concat (replicate R (arange 2)) = concat ((λ _, arange 2) <$> take R cs)) as ->.
  { rewrite <-Hl at 1. clear. induction (take R cs) as [|x xs IH]; [done|]. simpl. by rewrite IH. }
  rewrite np_zip_segments; [cbn [mbind outcome_bind]|apply Forall2_fmap_l, Forall2_fmap_r, Forall_Forall2_diag, Forall_true; intros x; done].
  do 2 f_equal.
  - unfold rows_of. rewrite length_replicate. by apply (take_repeat R M 2).
  - rewrite cumsum_const. rewrite <-fmap_take, take_arange by lia. done.
  - rewrite positions_const by done. f_equal. clear. induction (take R cs) as [|x xs IH]; [done|]. rewrite !fmap_cons. cbn [zip_with].
    rewrite IH. done.
Qed.

(** The path for uniform decodes computes what the general one does. *)
Record layout_room (c : RunnerConfig) (N : nat) (cs ns : list Z) : Prop := {
  lr_arange : rc_arange_np c = arange N;
  lr_counts : nonneg ns;
  lr_rows : ns ≠ [] ∧ (length ns ≤ rc_max_num_reqs c)%nat ∧ (length ns + 1 ≤ N)%nat ∧ (length ns ≤ length cs)%nat;
  lr_total : total_of ns ≤ Z.of_nat N;
}.
Lemma token_layout_ok c N st cs ns : layout_room c N cs ns →
  token_layout c st (length ns) (total_of ns) cs ns = Ret (mkTokenLayout (rows_of ns) (np_cumsum ns) (positions_of (take (length ns) cs) ns)).
Proof.
  intros [H1 H2 (H3 & H4 & H5 & H6) H7]. unfold token_layout. destruct (fixed_width _ && _ && _) eqn:Hf; [|apply (general_layout_ok c N); try done; lia].
  apply andb_prop in Hf as [[Hw _]%andb_prop Hall]. rewrite take_ge in Hall by lia. apply np_all_replicate in Hall. set (w := fixed_decode_width c st) in *.
  assert (0 < length ns)%nat as Hpos by (destruct ns; [done|simpl; lia]).
  set (R := length ns) in *. clearbody R. unfold fixed_width in Hw. apply orb_prop in Hw as [Hw%Z.eqb_eq|Hw%Z.eqb_eq]; rewrite Hw in Hall; rewrite Hw, Hall.
  - by apply (fixed_width_1 c N).
  - apply fixed_width_2; try done. unfold w, fixed_decode_width in Hw. destruct st; lia.
Qed.

(** ** Selecting slices of segments *)

Lemma np_select_app {A} (xs : list A) idx idx' l l' : np_select xs idx = Ret l → np_select xs idx' = Ret l' → np_select xs (idx ++ idx') = Ret (l ++ l').
Proof. unfold np_select. rewrite !mapM_Ret. apply Forall2_app. Qed.
Lemma np_select_range (xs : list Z) a n : 0 ≤ a → 0 ≤ n → a + n ≤ Z.of_nat (length xs) → np_select xs (range a n) = Ret (take (Z.to_nat n) (drop (Z.to_nat a) xs)).
Proof.
  intros Ha Hn Hl. rewrite (np_select_all xs 0).
  - f_equal. apply list_eq. intros i. rewrite list_lookup_fmap. destruct (decide (i < Z.to_nat n)%nat) as [Hi|Hi].
    + rewrite lookup_range, lookup_take_lt, lookup_drop by lia. simpl. destruct (lookup_lt_is_Some_2 xs (Z.to_nat a + i)) as [x Hx]; [lia|].
      rewrite Hx. by replace (Z.to_nat (a + Z.of_nat i)) with (Z.to_nat a + i)%nat by lia; rewrite Hx.
    + rewrite lookup_take_ge by lia. by rewrite (lookup_ge_None_2 (range _ _)) by (rewrite length_range; lia).
  - apply Forall_lookup. intros i x Hx. pose proof (lookup_lt_Some _ _ _ Hx) as Hi. rewrite length_range in Hi. rewrite lookup_range in Hx by done. injection Hx as <-. lia.
Qed.

(** A segment and the part of it that is selected. *)
Record Slice := mkSlice { sl_segment : list Z; sl_from : Z; sl_count : Z }.
Definition slice_ok (s : Slice) : Prop := 0 ≤ sl_from s ∧ 0 ≤ sl_count s ∧ sl_from s + sl_count s ≤ Z.of_nat (length (sl_segment s)).
Definition slice_of (s : Slice) : list Z := take (Z.to_nat (sl_count s)) (drop (Z.to_nat (sl_from s)) (sl_segment s)).
Fixpoint slice_indices (a : Z) (ps : list Slice) : list Z :=
  match ps with [] => [] | s :: ps => range (a + sl_from s) (sl_count s) ++ slice_indices (a + Z.of_nat (length (sl_segment s))) ps end.

Lemma select_slices pre ps : Forall slice_ok ps → np_select (pre ++ concat (sl_segment <$> ps)) (slice_indices (Z.of_nat (length pre)) ps) = Ret (concat (slice_of <$> ps)).
Proof.
  intros H. revert pre. induction H as [|s ps (S1 & S2 & S3) _ IH]; intros pre; [done|]. rewrite !fmap_cons. cbn [concat slice_indices]. apply np_select_app.
  - rewrite np_select_range by (rewrite ?length_app; lia). f_equal. unfold slice_of.
    rewrite drop_app_ge by lia. replace (Z.to_nat (Z.of_nat (length pre) + sl_from s) - length pre)%nat with (Z.to_nat (sl_from s)) by lia.
    rewrite drop_app_le by lia. rewrite take_app_le; [done|]. rewrite length_drop. lia.
  - rewrite app_assoc. specialize (IH (pre ++ sl_segment s)). rewrite length_app, Nat2Z.inj_add in IH. exact IH.
Qed.

Lemma select_mapped {A} (f : A → Slice) (g h : A → list Z) (l : list A) : Forall (slice_ok ∘ f) l → (∀ x, sl_segment (f x) = g x) →
  (∀ x, x ∈ l → slice_of (f x) = h x) → np_select (concat (g <$> l)) (slice_indices 0 (f <$> l)) = Ret (concat (h <$> l)).
Proof.
  intros Hok Hg Hh. pose proof (select_slices [] (f <$> l)) as Hsel. rewrite <-!list_fmap_compose in Hsel. simpl in Hsel.
  assert (g <$> l = sl_segment ∘ f <$> l) as -> by (apply list_fmap_ext; intros i x _; symmetry; apply Hg).
  assert (h <$> l = slice_of ∘ f <$> l) as -> by (apply list_fmap_ext; intros i x Hx; symmetry; by apply Hh; eapply list_elem_of_lookup_2).
  apply Hsel, Forall_fmap. exact Hok.
Qed.

(** ** Draft tokens *)

(** A row of the step: its scheduled tokens, of which the last ones are drafts. *)
Record SpecRow := mkSpecRow { sr_tokens : list Z; sr_drafts : Z }.
Definition spec_row_ok (r : SpecRow) : Prop := 0 ≤ sr_drafts r ∧ sr_drafts r + 1 ≤ Z.of_nat (length (sr_tokens r)).
Definition last_tokens (n : Z) (l : list Z) : list Z := drop (length l - Z.to_nat n) l.

Lemma length_last_tokens n l : 0 ≤ n → n ≤ Z.of_nat (length l) → length (last_tokens n l) = Z.to_nat n.
Proof. intros H1 H2. unfold last_tokens. rewrite length_drop. lia. Qed.

Section spec.
Context (rs : list SpecRow) (Hrs : Forall spec_row_ok rs).
Abbreviation ns := ((λ r, Z.of_nat (length (sr_tokens r))) <$> rs).
Abbreviation ds := (sr_drafts <$> rs).
Abbreviation ss := ((λ n, n + 1) <$> ds).

Lemma drafts_nonneg : nonneg ds ∧ nonneg ss ∧ nonneg ns.
Proof. unfold nonneg. rewrite !Forall_fmap. split_and!; (eapply Forall_impl; [exact Hrs|]; intros r [H1 H2]; simpl; lia). Qed.

(** The rows of logits: those of the last token before the drafts and of the drafts. *)
Lemma logits_slices (l : list SpecRow) a b : zip_with range (zip_with Z.sub (cumsum_from a ((λ r, Z.of_nat (length (sr_tokens r))) <$> l)) ((λ n, n + 1) <$> (sr_drafts <$> l))) ((λ n, n + 1) <$> (sr_drafts <$> l)) = b →
  concat b = slice_indices a ((λ r, mkSlice (sr_tokens r) (Z.of_nat (length (sr_tokens r)) - (sr_drafts r + 1)) (sr_drafts r + 1)) <$> l).
Proof. intros <-. revert a. induction l as [|r l IH]; intros a; [done|]. rewrite !fmap_cons. cbn. rewrite IH. f_equal. f_equal. lia. Qed.
(** The drafts among them. *)
Lemma target_slices (l : list SpecRow) a : Forall spec_row_ok l →
  (λ i, i + 1) <$> concat (zip_with range (starts_from a ((λ n, n + 1) <$> (sr_drafts <$> l))) (sr_drafts <$> l)) =
  slice_indices a ((λ r, mkSlice (last_tokens (sr_drafts r + 1) (sr_tokens r)) 1 (sr_drafts r)) <$> l).
Proof.
  intros H. revert a. induction H as [|r l [H1 H2] _ IH]; intros a; [done|]. rewrite !fmap_cons. cbn. rewrite fmap_app, IH. f_equal.
  - unfold range. rewrite <-list_fmap_compose. apply list_fmap_ext. intros i x _. simpl. lia.
  - rewrite length_last_tokens by lia. f_equal. lia.
Qed.

(** The tokens at the logits: the drafts of every request and the token before them. *)
Lemma logits_tokens : np_select (concat (sr_tokens <$> rs)) (concat (zip_with range (zip_with Z.sub (np_cumsum ns) ss) ss)) =
  Ret (concat ((λ r, last_tokens (sr_drafts r + 1) (sr_tokens r)) <$> rs)).
Proof.
  unfold np_cumsum. rewrite (logits_slices rs 0 _ eq_refl). apply select_mapped; [|done|].
  - eapply Forall_impl; [exact Hrs|]. intros r [R1 R2]. unfold slice_ok. simpl. lia.
  - rewrite Forall_forall in Hrs. intros r [R1 R2]%Hrs. unfold slice_of, last_tokens. simpl. rewrite take_ge by (rewrite length_drop; lia). f_equal. lia.
Qed.
Lemma spec_metadata_ok N : rs ≠ [] → total_of ss ≤ Z.of_nat N →
  calc_spec_decode_metadata (arange N) (concat (sr_tokens <$> rs)) ds (np_cumsum ns) =
    Ret (mkSpecDecodeMetadata (concat ((λ r, last_tokens (sr_drafts r) (sr_tokens r)) <$> rs)) ds (np_cumsum ds) (np_cumsum ss)
      (concat (zip_with range (starts ss) ds)) ((λ n, n - 1) <$> np_cumsum ss)
      (concat (zip_with range (zip_with Z.sub (np_cumsum ns) ss) ss))).
Proof.
  intros Hne HN. destruct drafts_nonneg as (Nd & Nsm & Nn). assert (total_of ds ≤ total_of ss) as Hle.
  { clear. induction rs as [|r l IH]; [done|]. rewrite !fmap_cons. simpl. lia. }
  assert (ds ≠ [] ∧ ss ≠ []) as [Hd Hs] by (by destruct rs).
  unfold calc_spec_decode_metadata. rewrite (np_cumsum_last ss) by done. cbn [mbind outcome_bind]. rewrite (np_cumsum_starts ss). cbn [mbind outcome_bind].
  rewrite (segment_arange N ss) by done. cbn [mbind outcome_bind].
  rewrite (np_zip_same _ (np_cumsum ns)) by (unfold np_cumsum; rewrite length_cumsum, !length_fmap; done). cbn [mbind outcome_bind].
  rewrite repeat_add by (unfold np_cumsum; rewrite length_zip_with, length_cumsum, !length_fmap; lia). cbn [mbind outcome_bind].
  rewrite np_cumsum_last by done. cbn [mbind outcome_bind]. rewrite np_cumsum_starts. cbn [mbind outcome_bind].
  rewrite segment_arange by (done || lia). cbn [mbind outcome_bind].
  rewrite repeat_add by (unfold starts; by rewrite length_starts, !length_fmap). cbn [mbind outcome_bind].
  rewrite logits_tokens. cbn [mbind outcome_bind]. unfold starts. rewrite target_slices by done.
  assert (np_select (concat ((λ r, last_tokens (sr_drafts r + 1) (sr_tokens r)) <$> rs))
    (slice_indices 0 ((λ r, mkSlice (last_tokens (sr_drafts r + 1) (sr_tokens r)) 1 (sr_drafts r)) <$> rs)) = Ret (concat ((λ r, last_tokens (sr_drafts r) (sr_tokens r)) <$> rs))) as Hdr.
  { apply select_mapped; [|done|].
    - eapply Forall_impl; [exact Hrs|]. intros r [R1 R2]. unfold slice_ok. simpl. rewrite length_last_tokens by lia. lia.
    - rewrite Forall_forall in Hrs. intros r [R1 R2]%Hrs. unfold slice_of, last_tokens. simpl. rewrite drop_drop. rewrite take_ge by (rewrite length_drop; lia). f_equal. lia. }
  by rewrite Hdr.
Qed.
End spec.

(** ** Properties *)

(** C14: the short path for uniform decodes computes what the general one does. Whatever the
    attention state, for any counts of tokens per request that the buffers have room for, both
    return the same layout: the tokens of a request are consecutive, at the positions behind the
    computed ones, and the cumulative counts are the ends of the requests. *)
Theorem uniform_layout_same c N st cs ns : layout_room c N cs ns →
  token_layout c st (length ns) (total_of ns) cs ns = general_layout c (length ns) cs ns ∧
  general_layout c (length ns) cs ns = Ret (mkTokenLayout (rows_of ns) (np_cumsum ns) (positions_of (take (length ns) cs) ns)).
Proof.
  intros H. pose proof H as [H1 H2 (H3 & H4 & H5 & H6) H7]. assert (length ns ≤ N)%nat as H8 by lia. rewrite (general_layout_ok c N) by done. split; [by apply (token_layout_ok c N)|done].
Qed.

(** C15: draft tokens are found in the input. For any requests whose scheduled tokens end with
    their drafts, the metadata for the verification has the drafts of every request in order, the
    logits at the token before each of them and at the last one, and for every request the
    position of its extra token. *)
Theorem drafts_exact rs N : Forall spec_row_ok rs → rs ≠ [] → total_of ((λ r, sr_drafts r + 1) <$> rs) ≤ Z.of_nat N →
  ∃ m, calc_spec_decode_metadata (arange N) (concat (sr_tokens <$> rs)) (sr_drafts <$> rs) (np_cumsum ((λ r, Z.of_nat (length (sr_tokens r))) <$> rs)) = Ret m ∧
    sm_draft_token_ids m = concat ((λ r, last_tokens (sr_drafts r) (sr_tokens r)) <$> rs) ∧
    np_select (concat (sr_tokens <$> rs)) (sm_logits_indices m) = Ret (concat ((λ r, last_tokens (sr_drafts r + 1) (sr_tokens r)) <$> rs)) ∧
    sm_bonus_logits_indices m = (λ n, n - 1) <$> np_cumsum ((λ r, sr_drafts r + 1) <$> rs).
Proof.
  intros Hrs Hne HN. eexists. rewrite (spec_metadata_ok rs Hrs N Hne) by (by rewrite <-list_fmap_compose). split; [reflexivity|].
  cbn [sm_draft_token_ids sm_logits_indices sm_bonus_logits_indices]. split; [done|]. split; [by apply logits_tokens|by rewrite <-!list_fmap_compose].
Qed.

(** ** Witnesses *)

Lemma uniform_layout_same_witness :
  token_layout (mkRunnerConfig 2 (arange 16) 2 (Some "mtp"%string) true false) SpecDecoding 2 4 [7; 3; 0] [2; 2] =
    Ret (mkTokenLayout [0; 0; 1; 1] [2; 4] [7; 8; 3; 4]).
Proof.
  destruct (uniform_layout_same (mkRunnerConfig 2 (arange 16) 2 (Some "mtp"%string) true false) 16 SpecDecoding [7; 3; 0] [2; 2]) as [H1 H2].
  - split; [done|repeat constructor; lia|split_and!; [done|simpl; lia..]|simpl; lia].
  - rewrite H2 in H1. exact H1.
Defined.

(** A request with two drafts, and one without. *)
Lemma drafts_exact_witness : ∃ m, calc_spec_decode_metadata (arange 8) [3; 10; 11; 4; 5] [2; 0] [3; 5] = Ret m ∧
  sm_draft_token_ids m = [10; 11] ∧ sm_logits_indices m = [0; 1; 2; 4] ∧ sm_bonus_logits_indices m = [2; 3].
Proof.
  destruct (drafts_exact [mkSpecRow [3; 10; 11] 2; mkSpecRow [4; 5] 0] 8) as (m & Hm & H1 & _ & H3); [repeat constructor; simpl; lia|done|simpl; lia|].
  exists m. split; [exact Hm|]. split; [exact H1|]. split; [|exact H3]. vm_compute in Hm. by injection Hm as <-.
Defined.
