(* ===== verification/InputsExact.v ===== *)
(** [_prepare_inputs] on a batch that holds the scheduled requests: the tokens, positions and
    slots of the step are those of the requests, and drafts are recognised as such. *)
From S2P Require Import Prelude BlockTable SlotMapping InputBatch LogitsUpdate InputBatchInv BatchOps BatchMoves WorkerRunner BatchReorder WorkerStates PrepareInputs InputLayout.
Local Open Scope Z_scope.

(** ** The rows of a batch without gaps *)

Definition batch_names (b : IB) : list string := omap id (req_ids b).
Definition batch_entries (live : gmap string Entry) (b : IB) : list Entry := omap (live !!.) (batch_names b).

Section batch.
Context (sh : Shape) (live : gmap string Entry) (b : IB) (Hinv : batch_inv sh live b) (Hdense : dense live b).
Abbreviation names := (batch_names b).
Abbreviation es := (batch_entries live b).

Lemma names_ids : req_ids b = Some <$> names.
Proof.
  destruct Hdense as [_ H]. unfold batch_names. induction H as [|x l [id ->] _ IH]; [done|]. simpl. by f_equal.
Qed.
Lemma length_names : length names = size live.
Proof. destruct Hdense as [H _]. rewrite names_ids, length_fmap in H. done. Qed.
Lemma names_entries : Forall2 (λ id e, live !! id = Some e) names es.
Proof.
  unfold batch_entries. assert (∀ id, id ∈ names → is_Some (live !! id)) as H.
  { intros id [i Hi]%list_elem_of_lookup. apply (bi_live _ _ _ Hinv). exists i. apply (bi_index _ _ _ Hinv). by rewrite names_ids, list_lookup_fmap, Hi. }
  induction names as [|id l IH]; [constructor|]. destruct (H id) as [e He]; [by left|]. simpl. rewrite He. constructor; [done|]. apply IH. intros; apply H; by right.
Qed.
Lemma length_entries : length es = length names.
Proof. symmetry. eapply Forall2_length, names_entries. Qed.
Lemma num_reqs_names : num_reqs b = length names.
Proof. rewrite length_names. by destruct (inv_count _ _ _ Hinv). Qed.
Lemma names_limit : (length names ≤ sh_limit sh)%nat.
Proof. pose proof (bi_len _ _ _ Hinv) as H. by rewrite names_ids, length_fmap in H. Qed.

(** What a row holds. *)
Lemma entry_row i e : es !! i = Some e → ∃ id row, names !! i = Some id ∧ live !! id = Some e ∧ req_id_to_index b !! id = Some i ∧
  held sh b i id e ∧ rows b !! i = Some row ∧ row_ok (sh_masks sh) (sh_vocab sh) e row ∧ length (token_ids_cpu row) = sh_len sh.
Proof.
  intros Hi. destruct (Forall2_lookup_r _ _ _ _ _ names_entries Hi) as (id & Hid & He). assert (req_id_to_index b !! id = Some i) as Hidx.
  { apply (bi_index _ _ _ Hinv). by rewrite names_ids, list_lookup_fmap, Hid. }
  pose proof (bi_held _ _ _ Hinv id i e Hidx He) as Hh. destruct (he_row _ _ _ _ _ Hh) as (row & Hrow & Hok). exists id, row. split_and!; try done.
  destruct (bi_rows _ _ _ Hinv) as [_ Hl]. by apply (Forall_lookup_1 _ _ _ _ Hl Hrow).
Qed.

Lemma rows_entries {A} (f : Row → A) (g : Entry → A) : (∀ e row, row_ok (sh_masks sh) (sh_vocab sh) e row → f row = g e) → take (length names) (f <$> rows b) = g <$> es.
Proof.
  intros Hfg. apply list_eq. intros i. rewrite list_lookup_fmap. destruct (decide (i < length names)%nat) as [Hi|Hi].
  - rewrite lookup_take_lt, list_lookup_fmap by done. destruct (lookup_lt_is_Some_2 es i) as [e He]; [by rewrite length_entries|].
    destruct (entry_row i e He) as (id & row & _ & _ & _ & _ & -> & Hok & _). rewrite He. simpl. f_equal. by apply Hfg.
  - rewrite lookup_take_ge by lia. by rewrite lookup_ge_None_2 by (rewrite length_entries; lia).
Qed.
Lemma rows_computed : take (length names) (num_computed_tokens_cpu <$> rows b) = (λ e : Entry, st_num_computed_tokens e.1) <$> es.
Proof. apply rows_entries. intros e row Hok. apply (ro_computed _ _ _ _ Hok). Qed.
End batch.

(** ** Tokens *)

(** What is scheduled for a request: [n] tokens from the computed ones on, the drafts last. *)
Record scheduled_ok (e : Entry) (n : Z) : Prop := {
  sc_some : 0 < n;
  sc_computed : 0 ≤ st_num_computed_tokens e.1;
  sc_tokens : st_num_computed_tokens e.1 + n ≤ Z.of_nat (length (entry_tokens e));
}.
Definition scheduled_slice (e : Entry) (n : Z) : list Z := take (Z.to_nat n) (drop (Z.to_nat (st_num_computed_tokens e.1)) (entry_tokens e)).

Lemma np_select_prefix {A} (xs ys : list A) idx l : np_select xs idx = Ret l → np_select (xs ++ ys) idx = Ret l.
Proof.
  unfold np_select. rewrite !mapM_Ret. intros H. eapply Forall2_impl; [exact H|]. intros i x Hx. unfold np_get in *.
  destruct (xs !! Z.to_nat i) as [y|] eqn:Hy; [|done]. by rewrite (lookup_app_l_Some _ _ _ _ Hy).
Qed.

(** The indices of the tokens in the flattened rows of length [L]. *)
Lemma range_cons a k : range a (Z.of_nat (S k)) = a :: range (a + 1) (Z.of_nat k).
Proof.
  replace (Z.of_nat (S k)) with (1 + Z.of_nat k) by lia. rewrite range_app by lia. f_equal. unfold range. simpl. f_equal. lia.
Qed.
Lemma range_shift c n x : zip_with Z.add (range c n) (replicate (Z.to_nat n) x) = range (x + c) n.
Proof.
  apply list_eq. intros i. rewrite lookup_zip_with. destruct (decide (i < Z.to_nat n)%nat) as [Hi|Hi].
  - rewrite !lookup_range, lookup_replicate_2 by done. simpl. f_equal. lia.
  - by rewrite !(lookup_ge_None_2 (range _ _)) by (rewrite length_range; lia).
Qed.
Lemma token_indices L ps a : Forall (λ s, Z.of_nat (length (sl_segment s)) = L) ps →
  zip_with Z.add (positions_of (sl_from <$> ps) (sl_count <$> ps)) ((λ i, i * L) <$> np_repeat (range a (Z.of_nat (length ps))) (sl_count <$> ps)) = slice_indices (a * L) ps.
Proof.
  intros H. revert a. induction H as [|s ps Hs _ IH]; intros a; [done|]. rewrite !fmap_cons. change (length (s :: ps)) with (S (length ps)). rewrite range_cons.
  unfold positions_of, np_repeat in *. cbn [zip_with concat slice_indices]. rewrite fmap_app, fmap_replicate, zip_with_app by (by rewrite length_range, length_replicate).
  rewrite range_shift, IH. f_equal. f_equal. lia.
Qed.
Lemma length_positions cs ns : length cs = length ns → length (positions_of cs ns) = length (rows_of ns).
Proof.
  unfold positions_of, rows_of, np_repeat. intros H. apply length_concat_eq. assert (length (arange (length ns)) = length ns) as Ha by apply length_arange. revert Ha.
  generalize (arange (length ns)) as xs. revert cs H. induction ns as [|n ns IH]; intros [|c cs] H [|x xs] Hx; try done. simpl.
  constructor; [by rewrite length_range, length_replicate|]. apply IH; [by injection H|by injection Hx].
Qed.

Section tokens.
Context (sh : Shape) (live : gmap string Entry) (b : IB) (Hinv : batch_inv sh live b) (Hdense : dense live b) (ns : list Z).
Abbreviation es := (batch_entries live b).
Context (Hns : Forall2 scheduled_ok es ns).
Abbreviation cs := ((λ e : Entry, st_num_computed_tokens e.1) <$> es).

Definition row_slices : list Slice := zip_with (λ x n, mkSlice x.2 (st_num_computed_tokens x.1.1) n) (zip es (token_ids_cpu <$> rows b)) ns.

Lemma rows_zip : Forall2 (λ x n, scheduled_ok x.1 n ∧ ∃ row, x.2 = token_ids_cpu row ∧ row_ok (sh_masks sh) (sh_vocab sh) x.1 row ∧ length x.2 = sh_len sh) (zip es (token_ids_cpu <$> rows b)) ns.
Proof.
  apply Forall2_same_length_lookup. split.
  - rewrite length_zip, length_fmap. destruct (bi_rows _ _ _ Hinv) as [-> _]. pose proof (names_limit sh live b Hinv Hdense). rewrite <-(length_entries sh live b Hinv Hdense) in *.
    rewrite <-(Forall2_length _ _ _ Hns). lia.
  - intros i [e t] n Hx Hn. rewrite lookup_zip_with in Hx. destruct (es !! i) as [e'|] eqn:He; [|done]. destruct (entry_row sh live b Hinv Hdense i e' He) as (id & row & _ & _ & _ & _ & Hrow & Hok & Hl).
    rewrite list_lookup_fmap, Hrow in Hx. simpl in Hx. injection Hx as <- <-. split; [by apply (Forall2_lookup_lr _ _ _ _ _ _ Hns He Hn)|]. by exists row.
Qed.
Lemma slices_fields_zip zs ms :
  Forall2 (λ x n, scheduled_ok x.1 n ∧ ∃ row, x.2 = token_ids_cpu row ∧ row_ok (sh_masks sh) (sh_vocab sh) x.1 row ∧ length x.2 = sh_len sh) zs ms →
  let ps := zip_with (λ (x : Entry * list Z) n, mkSlice x.2 (st_num_computed_tokens x.1.1) n) zs ms in
  sl_from <$> ps = (λ e : Entry, st_num_computed_tokens e.1) <$> zs.*1 ∧ sl_count <$> ps = ms ∧ sl_segment <$> ps = zs.*2 ∧
  Forall (λ s, length (sl_segment s) = sh_len sh) ps ∧ Forall slice_ok ps ∧ concat (slice_of <$> ps) = concat (zip_with scheduled_slice zs.*1 ms).
Proof.
  intros Hz ps. unfold ps. clear ps. induction Hz as [|[e t] n l ms [[S1 S2 S3] (row & Ht & Hok & Hl)] _ (I1 & I2 & I3 & I4 & I5 & I6)]; [done|].
  cbn [fst snd] in *. rewrite !fmap_cons. cbn [zip_with]. rewrite !fmap_cons. cbn [concat fst snd]. split_and!.
  - by rewrite I1.
  - by rewrite I2.
  - by rewrite I3.
  - by constructor.
  - constructor; [|done]. unfold slice_ok. simpl. pose proof (f_equal length (ro_tokens _ _ _ _ Hok)) as Hlen. rewrite length_take in Hlen. subst t. lia.
  - rewrite I6. f_equal. unfold slice_of, scheduled_slice. simpl. rewrite <-(ro_tokens _ _ _ _ Hok). subst t. rewrite skipn_firstn_comm, take_take. f_equal. lia.
Qed.
Lemma slices_fields : sl_from <$> row_slices = cs ∧ sl_count <$> row_slices = ns ∧
  sl_segment <$> row_slices = take (length es) (token_ids_cpu <$> rows b) ∧ Forall (λ s, length (sl_segment s) = sh_len sh) row_slices ∧ Forall slice_ok row_slices ∧
  concat (slice_of <$> row_slices) = concat (zip_with scheduled_slice es ns).
Proof.
  pose proof rows_zip as Hz. pose proof (Forall2_length _ _ _ Hz) as Hlz. pose proof (Forall2_length _ _ _ Hns) as Hln. destruct (slices_fields_zip _ _ Hz) as (I1 & I2 & I3 & I4 & I5 & I6).
  assert (length es ≤ length (token_ids_cpu <$> rows b))%nat as Hle by (rewrite length_zip in Hlz; lia). rewrite fst_zip in I1, I6 by done.
  assert ((zip es (token_ids_cpu <$> rows b)).*2 = take (length es) (token_ids_cpu <$> rows b)) as Hsnd.
  { clear -Hle. revert Hle. generalize (token_ids_cpu <$> rows b) as ts. induction es as [|e l IH]; intros [|t ts] H; simpl in *; try done; try lia. f_equal. apply IH. lia. }
  rewrite Hsnd in I3. done.
Qed.

(** The ids of the step's tokens. *)
Lemma select_tokens : 
  np_zip Z.add (positions_of cs ns) ((λ i, i * Z.of_nat (sh_len sh)) <$> rows_of ns) = Ret (slice_indices 0 row_slices) ∧
  np_select (concat (token_ids_cpu <$> rows b)) (slice_indices 0 row_slices) = Ret (concat (zip_with scheduled_slice es ns)).
Proof.
  destruct slices_fields as (I1 & I2 & I3 & I4 & I5 & I6). pose proof (Forall2_length _ _ _ Hns) as Hl.
  assert (length row_slices = length ns) as Hlr by (rewrite <-(length_fmap sl_count), I2; done). split.
  - rewrite np_zip_same by (rewrite length_fmap; apply length_positions; rewrite length_fmap; done). f_equal.
    pose proof (token_indices (Z.of_nat (sh_len sh)) row_slices 0) as Hti. rewrite I1, I2, Hlr, range_0, Nat2Z.id in Hti. apply Hti.
    eapply Forall_impl; [exact I4|]. intros x Hx. simpl in *. lia.
  - rewrite <-(take_drop (length es) (token_ids_cpu <$> rows b)), concat_app, <-I3, <-I6. apply np_select_prefix. exact (select_slices [] row_slices I5).
Qed.
End tokens.

(** ** Slots *)

Definition step_tokens (cs ns : list Z) : list (nat * Z) := zip (Z.to_nat <$> rows_of ns) (positions_of cs ns).
Definition group_tables (es : list Entry) (g : nat) : list (list Z) := (λ e : Entry, default [] (st_block_ids e.1 !! g)) <$> es.

Lemma rows_of_nonneg ns : Z.of_nat <$> (Z.to_nat <$> rows_of ns) = rows_of ns.
Proof.
  rewrite <-list_fmap_compose. rewrite <-(list_fmap_id (rows_of ns)) at 2. apply list_fmap_ext. intros i x Hx. simpl.
  apply list_elem_of_lookup_2, elem_of_repeat, list_elem_of_lookup in Hx as [j Hj]. pose proof (lookup_lt_Some _ _ _ Hj) as Hl. rewrite length_arange in Hl.
  rewrite lookup_arange in Hj by done. injection Hj as <-. lia.
Qed.
Lemma step_tokens_fields cs ns : length cs = length ns → Z.of_nat <$> (step_tokens cs ns).*1 = rows_of ns ∧ (step_tokens cs ns).*2 = positions_of cs ns.
Proof.
  intros H. pose proof (length_positions cs ns H) as Hl. unfold step_tokens. rewrite fst_zip, snd_zip by (rewrite length_fmap; lia). by rewrite rows_of_nonneg.
Qed.

(** Changes that leave the rows of the tables alone. *)
Record same_rows (t t' : BlockTable) : Prop := {
  sr_np : bt_np t' = bt_np t;
  sr_counts : bt_num_blocks_per_row t' = bt_num_blocks_per_row t;
  sr_format : same_format t t';
}.
Lemma same_rows_ok n w t t' : same_rows t t' → table_ok n w t → table_ok n w t'.
Proof.
  intros [H1 H2 [S1 S2 S3 S4 S5 S6 S7 S8]] [T1 T2 T3 T4 T5 T6]. split; rewrite ?S1, ?S2, ?S3, ?S6, ?H1, ?H2; done.
Qed.
Lemma same_rows_row t t' i : same_rows t t' → bt_row t' i = bt_row t i.
Proof. intros [H1 H2 _]. unfold bt_row. by rewrite H1, H2. Qed.
Lemma inv_tables sh live b ts : Forall2 same_rows (block_table b) ts → batch_inv sh live b → batch_inv sh live (set_table ts b).
Proof.
  intros Hs [I1 I2 I3 I4 I5 I6 I7 I8 I9 I10 I11 I12 I13 I14 I15]. assert (∀ i l, tables_row (block_table b) i l → tables_row ts i l) as Hrow.
  { intros i l. apply tables_row_same; [|]; eapply Forall2_impl; try exact Hs; [intros t t' Ht; apply Ht|intros t t' Ht; by apply same_rows_row]. }
  split; simpl; try done.
  - unfold tables_inv in *. clear -I4 Hs. revert ts Hs. induction I4 as [|w t ws ts0 Ht _ IH]; intros ts Hs; inversion Hs; subst; constructor; [by eapply same_rows_ok|by apply IH].
  - etrans; [exact I5|]. eapply Forall2_impl; [exact Hs|]. intros t t' Ht. apply Ht.
  - intros id i e Hi He. destruct (I13 id i e Hi He) as [B1 B2 B3 B4]. split; [done|done|by apply Hrow|done].
Qed.
Lemma commit_same_rows n ts : Forall2 same_rows ts (mg_commit_block_table n false ts).
Proof.
  unfold mg_commit_block_table. apply Forall2_fmap_r, Forall_Forall2_diag, Forall_true. intros t. unfold commit_block_table. simpl.
  destruct (bt_dirty t); split; try done; by split.
Qed.

Section slots.
Context (sh : Shape) (live : gmap string Entry) (b : IB) (Hinv : batch_inv sh live b) (Hdense : dense live b).
Abbreviation es := (batch_entries live b).

Lemma group_rows_hold g t : block_table b !! g = Some t → rows_hold (sh_limit sh) t (group_tables es g).
Proof.
  intros Hg i ids Hi. unfold group_tables in Hi. rewrite list_lookup_fmap in Hi. destruct (es !! i) as [e|] eqn:He; [|done]. simpl in Hi. injection Hi as <-.
  destruct (entry_row sh live b Hinv Hdense i e He) as (id & row & _ & _ & _ & Hh & Hrow & _ & _). pose proof (he_blocks _ _ _ _ _ Hh) as Hb.
  destruct (Forall2_lookup_l _ _ _ _ _ Hb Hg) as (l & Hl & Hr). rewrite Hl. split; [|exact Hr]. apply lookup_lt_Some in Hrow. by destruct (bi_rows _ _ _ Hinv) as [<- _].
Qed.

(** The slots of the step are computed for every group. *)
Definition slots_ready (cs ns : list Z) (g : nat) (t : BlockTable) : Prop :=
  maps_slots t ∧ (length (step_tokens cs ns) ≤ length (bt_slot_mapping t))%nat ∧ Forall (has_slot (bt_phys_size t) (group_tables es g)) (step_tokens cs ns).
Definition slots_written (cs ns : list Z) (g : nat) (t t' : BlockTable) : Prop :=
  t' = bt_set_slots ((phys_slot (bt_phys_size t) (group_tables es g) <$> step_tokens cs ns) ++ drop (length (step_tokens cs ns)) (bt_slot_mapping t)) t.

Lemma compute_slots cs ns : length cs = length ns → (∀ g t, block_table b !! g = Some t → slots_ready cs ns g t) →
  ∃ ts : list BlockTable, mg_compute_slot_mapping (rows_of ns) (positions_of cs ns) (block_table b) = Ret ts ∧ Forall2 same_rows (block_table b) ts ∧
    ∀ g t t', block_table b !! g = Some t → ts !! g = Some t' → slots_written cs ns g t t'.
Proof.
  intros Hl Hready. destruct (step_tokens_fields cs ns Hl) as [F1 F2]. pose proof (bi_tables _ _ _ Hinv) as Ht.
  set (ts := imap (λ g t, bt_set_slots ((phys_slot (bt_phys_size t) (group_tables es g) <$> step_tokens cs ns) ++ drop (length (step_tokens cs ns)) (bt_slot_mapping t)) t) (block_table b)).
  exists ts. split_and!.
  - unfold mg_compute_slot_mapping. apply mapM_Ret, Forall2_same_length_lookup. split; [unfold ts; by rewrite length_imap|]. intros g t t' Hg Hg'. unfold ts in Hg'.
    rewrite list_lookup_imap, Hg in Hg'. simpl in Hg'. injection Hg' as <-. destruct (Hready g t Hg) as (R1 & R2 & R3). rewrite <-F1, <-F2.
    destruct (Forall2_lookup_r _ _ _ _ _ Ht Hg) as (w & _ & Hok). by apply (slots_of_tokens (sh_limit sh) w); [| |apply group_rows_hold| |].
  - apply Forall2_same_length_lookup. split; [unfold ts; by rewrite length_imap|]. intros g t t' Hg Hg'. unfold ts in Hg'. rewrite list_lookup_imap, Hg in Hg'. simpl in Hg'. injection Hg' as <-.
    destruct (Hready g t Hg) as (_ & R2 & _). split; [done|done|]. split; try done. simpl. rewrite length_app, length_fmap, length_drop. lia.
  - intros g t t' Hg Hg'. unfold ts in Hg'. rewrite list_lookup_imap in Hg'. change (block_table b !! g) with ((block_table b : list BlockTable) !! g) in Hg.
    rewrite Hg in Hg'. simpl in Hg'. by injection Hg' as <-.
Qed.
End slots.

(** ** Draft counts *)

Section drafts.
Context (sh : Shape) (live : gmap string Entry) (s : Runner) (Hinv : batch_inv sh live (input_batch s)) (Hdense : dense live (input_batch s)).
Context (c : RunnerConfig) (o : StepOutput) (Hdrafts : ∀ id, is_Some (so_spec_decode_tokens o !! id) → is_Some (live !! id)).
Abbreviation names := (batch_names (input_batch s)).
Abbreviation count id := (Z.of_nat (length (drafts_of o id))).

Lemma names_index id i : names !! i = Some id ↔ req_id_to_index (input_batch s) !! id = Some i.
Proof.
  rewrite (bi_index _ _ _ Hinv), (names_ids live _ Hdense), list_lookup_fmap. destruct (names !! i) as [x|]; simpl; split; congruence.
Qed.

Lemma wp_draft_counts E : wp (draft_counts c o (length names)) (λ r s', s' = s ∧ r.1 = (λ id, count id) <$> names) E s.
Proof.
  unfold draft_counts. eapply (wp_for_fold (λ dn r s', s' = s ∧ length r.1 = length names ∧ length r.2 = length names ∧
    ∀ i id, names !! i = Some id → r.1 !! i = Some (if decide (id ∈ dn.*1) then count id else 0))).
  - split_and!; [done|apply length_replicate|apply length_replicate|]. intros i id Hi. simpl. rewrite lookup_replicate_2; [done|by eapply lookup_lt_Some].
  - intros dn [id ds] todo [counts decodes] s1 Heq (-> & L1 & L2 & Hc). simpl in L1, L2, Hc.
    assert ((id, ds) ∈ map_to_list (so_spec_decode_tokens o)) as Hin by (rewrite Heq; apply elem_of_app; right; by left). apply elem_of_map_to_list in Hin.
    assert (id ∉ dn.*1) as Hnew. { pose proof (NoDup_fst_map_to_list (so_spec_decode_tokens o)) as Hnd. rewrite Heq, fmap_app, fmap_cons in Hnd.
      apply NoDup_app in Hnd as (_ & Hdis & _). intros Hx. apply (Hdis _ Hx). by left. }
    destruct (proj2 (bi_live _ _ _ Hinv id)) as [i Hi]; [apply Hdrafts; eauto|]. pose proof (proj2 (names_index id i) Hi) as Hn. pose proof (lookup_lt_Some _ _ _ Hn) as Hlt.
    destruct (lookup_lt_is_Some_2 (rows (input_batch s)) i) as [row Hrow]. { destruct (bi_rows _ _ _ Hinv) as [-> _]. pose proof (names_limit sh live _ Hinv Hdense). lia. }
    wp_steps. eapply wp_from_option; [exact Hi|]. wp_step. apply wp_on_batch. eapply wp_get_at; [exact Hrow|]. cbv zeta.
    replace (set_batch (input_batch s) s) with s by (by destruct s). wp_step. eapply wp_of_outcome; [apply np_set_lt; lia|]. wp_step. eapply wp_of_outcome; [apply np_set_lt; lia|].
    wp_steps. simpl. split_and!; [done|by rewrite length_insert|by rewrite length_insert|]. intros j id' Hj.
    destruct (decide (id' = id)) as [->|Hne].
    + assert (j = i) as -> by (apply names_index in Hj; congruence). rewrite list_lookup_insert_eq by lia. rewrite decide_True by (rewrite fmap_app; apply elem_of_app; right; by left).
      unfold drafts_of. by rewrite Hin.
    + rewrite list_lookup_insert_ne by (intros <-; congruence). rewrite (Hc j id' Hj). f_equal. destruct (decide (id' ∈ dn.*1)) as [Hi'|Hi'];
        [by rewrite decide_True by (rewrite fmap_app; apply elem_of_app; by left)|]. rewrite decide_False; [done|]. rewrite fmap_app, elem_of_app. simpl. rewrite list_elem_of_singleton. naive_solver.
  - intros [counts decodes] s1 (-> & L1 & _ & Hc). split; [done|]. simpl in *. apply list_eq. intros i. rewrite list_lookup_fmap. destruct (names !! i) as [id|] eqn:Hi.
    + rewrite (Hc i id Hi). simpl. f_equal. case_decide as Hd; [done|]. unfold drafts_of. destruct (so_spec_decode_tokens o !! id) as [l|] eqn:Hl; [|done]. destruct Hd.
      apply list_elem_of_fmap. exists (id, l). split; [done|by apply elem_of_map_to_list].
    + apply lookup_ge_None_2. apply lookup_ge_None_1 in Hi. lia.
Qed.
End drafts.

(** ** The step *)

(** What a request's drafts require: they are the last tokens that are scheduled for it. *)
Record drafted (o : StepOutput) (id : string) (e : Entry) (n : Z) : Prop := {
  df_written : e.2 = Written (drafts_of o id);
  df_room : Z.of_nat (length (drafts_of o id)) < n;
  df_last : drafts_of o id ≠ [] → st_num_computed_tokens e.1 + n = Z.of_nat (length (entry_tokens e));
}.

Lemma last_drafts o id e n : scheduled_ok e n → drafted o id e n → last_tokens (Z.of_nat (length (drafts_of o id))) (scheduled_slice e n) = drafts_of o id.
Proof.
  intros [S1 S2 S3] [D1 D2 D3]. destruct (drafts_of o id) as [|x l] eqn:Hd; [unfold last_tokens; simpl; apply drop_ge; lia|]. rewrite <-Hd in *.
  assert (st_num_computed_tokens e.1 + n = Z.of_nat (length (entry_tokens e))) as Heq by (apply D3; by rewrite Hd).
  unfold last_tokens, scheduled_slice. rewrite take_ge by (rewrite length_drop; lia). rewrite length_drop, drop_drop. unfold entry_tokens in *. rewrite D1 in *. cbn [dr_tokens] in *.
  rewrite !length_app in Heq. rewrite app_assoc. rewrite drop_app_ge by (rewrite !length_app; lia).
  match goal with |- drop ?k _ = _ => replace k with 0%nat by (rewrite !length_app; lia) end. done.
Qed.
Lemma length_scheduled e n : scheduled_ok e n → Z.of_nat (length (scheduled_slice e n)) = n.
Proof. intros [S1 S2 S3]. unfold scheduled_slice. rewrite length_take, length_drop. lia. Qed.

(** What the runner may rely on. *)
Record step_ready (sh : Shape) (live : gmap string Entry) (c : RunnerConfig) (o : StepOutput) (s : Runner) (ns : list Z) : Prop := {
  rd_some : live ≠ ∅;
  rd_counts : Forall2 (λ id n, so_num_scheduled_tokens o !! id = Some n) (batch_names (input_batch s)) ns;
  rd_scheduled : ∀ id e n, live !! id = Some e → so_num_scheduled_tokens o !! id = Some n → scheduled_ok e n ∧ drafted o id e n;
  rd_drafts : ∀ id, is_Some (so_spec_decode_tokens o !! id) → is_Some (live !! id);
  rd_arange : ∃ N, rc_arange_np c = arange N ∧ total_of ns ≤ Z.of_nat N ∧ (sh_limit sh + 1 ≤ N)%nat;
  rd_limit : (sh_limit sh ≤ rc_max_num_reqs c)%nat;
  rd_slots : ∀ g t, block_table (input_batch s) !! g = Some t →
    slots_ready live (input_batch s) ((λ e : Entry, st_num_computed_tokens e.1) <$> batch_entries live (input_batch s)) ns g t;
}.

(** What the step computes, from the requests alone. *)
Record inputs_of (live : gmap string Entry) (o : StepOutput) (b : IB) (ns : list Z) (r : StepInputs) : Prop := {
  io_positions : tl_positions (si_layout r) = positions_of ((λ e : Entry, st_num_computed_tokens e.1) <$> batch_entries live b) ns;
  io_rows : tl_req_indices (si_layout r) = rows_of ns;
  io_input_ids : si_input_ids r = concat (zip_with scheduled_slice (batch_entries live b) ns);
  io_starts : si_query_start_loc r = 0 :: np_cumsum ns;
  io_seq_lens : si_seq_lens r = zip_with (λ (e : Entry) n, st_num_computed_tokens e.1 + n) (batch_entries live b) ns;
  io_discard : ∀ i, i ∈ si_discard_request_indices r ↔ ∃ e n, batch_entries live b !! i = Some e ∧ ns !! i = Some n ∧ st_num_computed_tokens e.1 + n < st_num_tokens e.1;
  io_plain : so_spec_decode_tokens o = ∅ → si_spec_decode_metadata r = None ∧ si_logits_indices r = (λ n, n - 1) <$> np_cumsum ns;
  io_drafts : so_spec_decode_tokens o ≠ ∅ → ∃ m, si_spec_decode_metadata r = Some m ∧ si_logits_indices r = sm_logits_indices m ∧
    let ds := (λ id, Z.of_nat (length (drafts_of o id))) <$> batch_names b in
    let ss := (λ n, n + 1) <$> ds in
    sm_draft_token_ids m = concat (drafts_of o <$> batch_names b) ∧ sm_num_draft_tokens m = ds ∧
    sm_logits_indices m = concat (zip_with range (zip_with Z.sub (np_cumsum ns) ss) ss) ∧
    sm_target_logits_indices m = concat (zip_with range (starts ss) ds) ∧ sm_bonus_logits_indices m = (λ n, n - 1) <$> np_cumsum ss;
}.

Section step.
Context (sh : Shape) (live : gmap string Entry) (c : RunnerConfig) (o : StepOutput) (s : Runner) (ns : list Z).
Context (Hrun : runner_ok sh live s) (Hdense : dense live (input_batch s)) (Hready : step_ready sh live c o s ns).
Abbreviation b := (input_batch s).
Abbreviation names := (batch_names b).
Abbreviation es := (batch_entries live b).
Abbreviation cs := ((λ e : Entry, st_num_computed_tokens e.1) <$> es).

Lemma ready_rows : Forall2 scheduled_ok es ns ∧ length ns = length names ∧ length es = length names ∧ (0 < length ns)%nat.
Proof.
  pose proof (rd_counts _ _ _ _ _ _ Hready) as Hc. pose proof (names_entries sh live b (rk_batch _ _ _ Hrun) Hdense) as He. split_and!.
  - apply Forall2_same_length_lookup. apply Forall2_length in Hc as Hl. apply Forall2_length in He as Hl'. split; [lia|]. intros i e n Hi Hn.
    destruct (Forall2_lookup_r _ _ _ _ _ He Hi) as (id & Hid & Hlive). pose proof (Forall2_lookup_lr _ _ _ _ _ _ Hc Hid Hn) as Hs. by apply (rd_scheduled _ _ _ _ _ _ Hready id e n).
  - symmetry. by eapply Forall2_length.
  - symmetry. by eapply Forall2_length.
  - apply Forall2_length in Hc. rewrite <-Hc, (length_names live b Hdense). pose proof (rd_some _ _ _ _ _ _ Hready). destruct (size live) eqn:Hsz; [by apply map_size_empty_inv in Hsz|lia].
Qed.
Lemma ready_nonneg : nonneg ns ∧ ns ≠ [] ∧ 0 < total_of ns.
Proof.
  destruct ready_rows as (H & _ & _ & Hpos). assert (Forall (λ n, 0 < n) ns) as Hall by (eapply Forall2_Forall_r; [exact H|]; apply Forall_true; intros e n Hn; apply Hn).
  assert (nonneg ns) as Hn by (eapply Forall_impl; [exact Hall|]; intros; simpl in *; lia). split_and!; [done|by destruct ns; simpl in Hpos; [lia|]|].
  destruct ns as [|n l]; [simpl in Hpos; lia|]. inversion Hall; subst. inversion Hn; subst. simpl. assert (0 ≤ total_of l) by (by apply total_of_nonneg). lia.
Qed.

(** The rest of the step does not depend on how the tables are committed. *)
Lemma wp_num_tokens s1 E : requests s1 = requests s →
  wp (for_fold names [] (λ acc id, r ← get_request id; mret (acc ++ [st_num_tokens r]))) (λ l s', s' = s1 ∧ l = (λ e : Entry, st_num_tokens e.1) <$> es) E s1.
Proof.
  intros Hreq. pose proof (names_entries sh live b (rk_batch _ _ _ Hrun) Hdense) as He.
  eapply (wp_for_fold (λ dn l s', s' = s1 ∧ l = (λ e : Entry, st_num_tokens e.1) <$> take (length dn) es)).
  - done.
  - intros dn id todo l s2 Heq [-> ->]. assert (names !! length dn = Some id) as Hid by (rewrite Heq; by apply list_lookup_middle).
    destruct (Forall2_lookup_l _ _ _ _ _ He Hid) as (e & Hi & Hlive). wp_step. eapply wp_get_request; [rewrite Hreq; by apply (rk_linked _ _ _ Hrun)|]. wp_steps. split; [done|].
    rewrite length_app, Nat.add_1_r, (take_S_r _ _ e) by done. by rewrite fmap_app.
  - intros l s2 [-> ->]. split; [done|]. rewrite take_ge; [done|]. apply Forall2_length in He. lia.
Qed.

Lemma discard_rows : ∀ i, i ∈ filter (λ i, default 0 (zip_with Z.add cs ns !! i) < default 0 (((λ e : Entry, st_num_tokens e.1) <$> es) !! i)) (seq 0 (length names)) ↔
  ∃ e n, es !! i = Some e ∧ ns !! i = Some n ∧ st_num_computed_tokens e.1 + n < st_num_tokens e.1.
Proof.
  destruct ready_rows as (_ & L1 & L2 & _). intros i. rewrite list_elem_of_filter, elem_of_seq. split.
  - intros [Hlt [_ Hi]]. destruct (lookup_lt_is_Some_2 es i) as [e He]; [lia|]. destruct (lookup_lt_is_Some_2 ns i) as [n Hn]; [lia|]. exists e, n.
    rewrite lookup_zip_with, !list_lookup_fmap, He, Hn in Hlt. done.
  - intros (e & n & He & Hn & Hlt). rewrite lookup_zip_with, !list_lookup_fmap, He, Hn. split; [done|]. apply lookup_lt_Some in He. lia.
Qed.
Lemma seq_lens_rows : zip_with Z.add cs ns = zip_with (λ (e : Entry) n, st_num_computed_tokens e.1 + n) es ns.
Proof. by rewrite zip_with_fmap_l. Qed.

(** The drafts of the step. *)
Lemma drafts_metadata N : rc_arange_np c = arange N → total_of ns ≤ Z.of_nat N →
  let ds := (λ id, Z.of_nat (length (drafts_of o id))) <$> names in
  let ss := (λ n, n + 1) <$> ds in
  calc_spec_decode_metadata (rc_arange_np c) (concat (zip_with scheduled_slice es ns)) ds (np_cumsum ns) =
    Ret (mkSpecDecodeMetadata (concat (drafts_of o <$> names)) ds (np_cumsum ds) (np_cumsum ss) (concat (zip_with range (starts ss) ds)) ((λ n, n - 1) <$> np_cumsum ss)
      (concat (zip_with range (zip_with Z.sub (np_cumsum ns) ss) ss))).
Proof.
  intros Ha Hn ds ss. destruct ready_rows as (Hsc & L1 & L2 & Hpos). pose proof (rd_counts _ _ _ _ _ _ Hready) as Hc.
  pose proof (names_entries sh live b (rk_batch _ _ _ Hrun) Hdense) as He.
  set (rs := zip_with (λ id seg, mkSpecRow seg (Z.of_nat (length (drafts_of o id)))) names (zip_with scheduled_slice es ns)).
  assert (Forall spec_row_ok rs ∧ sr_tokens <$> rs = zip_with scheduled_slice es ns ∧ sr_drafts <$> rs = ds ∧ (λ r, Z.of_nat (length (sr_tokens r))) <$> rs = ns ∧
    (λ r, last_tokens (sr_drafts r) (sr_tokens r)) <$> rs = drafts_of o <$> names ∧ total_of ss ≤ total_of ns) as (R1 & R2 & R3 & R4 & R5 & R6).
  { unfold rs, ss, ds. clear -Hc He Hready. revert Hc. generalize ns as ms. induction He as [|id e l es' Hlive _ IH]; intros ms Hc; inversion Hc as [|? n ? ms' Hs Hcs]; subst; [done|].
    destruct (IH ms' Hcs) as (I1 & I2 & I3 & I4 & I5 & I6). destruct (rd_scheduled _ _ _ _ _ _ Hready id e n Hlive Hs) as [Hok Hd]. pose proof (length_scheduled e n Hok) as Hl.
    pose proof (df_room _ _ _ _ Hd). cbn [zip_with]. rewrite !fmap_cons. cbn [zip_with sr_tokens sr_drafts]. rewrite I2, I3, I4, I5, Hl, (last_drafts o id e n Hok Hd). split_and!; try done.
    - constructor; [|done]. unfold spec_row_ok. simpl. lia.
    - simpl. lia. }
  pose proof (spec_metadata_ok rs R1 N) as Hm. rewrite R2, R3, R4, R5 in Hm. rewrite Ha. apply Hm; [|fold ss; lia].
  intros Hnil. rewrite Hnil in R4. destruct ns; [simpl in Hpos; lia|done].
Qed.

Lemma mapM_names (l : list string) : mapM (λ x : option string, match x with Some id => Ret id | None => Raise KeyError end) (Some <$> l) = Ret l.
Proof. apply mapM_Ret, Forall2_fmap_l, Forall_Forall2_diag, Forall_true. done. Qed.
Lemma valid_tokens : ∃ l, (if decide (so_spec_decode_tokens o = ∅) then Ret ns
    else mapM (λ id, match so_num_scheduled_tokens o !! id with
      | Some n => Ret (n - Z.of_nat (length (default [] (so_spec_decode_tokens o !! id))))
      | None => Raise KeyError
      end) names) = Ret l.
Proof.
  case_decide; [eauto|]. destruct (mapM_all (λ id, match so_num_scheduled_tokens o !! id with
      | Some n => Ret (n - Z.of_nat (length (default [] (so_spec_decode_tokens o !! id)))) | None => Raise KeyError end) (λ _, True) names) as (l & Hl & _); [|eauto].
  intros id [i Hi]%list_elem_of_lookup. destruct (Forall2_lookup_l _ _ _ _ _ (rd_counts _ _ _ _ _ _ Hready) Hi) as (n & _ & ->). eauto.
Qed.

(** The committed tables. *)
Abbreviation b1 := (set_table (mg_commit_block_table (num_reqs b) false (block_table b)) b).
Lemma committed : batch_inv sh live b1 ∧ ∀ g t, block_table b1 !! g = Some t → slots_ready live b1 cs ns g t.
Proof.
  split; [apply inv_tables; [apply commit_same_rows|apply (rk_batch _ _ _ Hrun)]|]. intros g t Hg. simpl in Hg. unfold mg_commit_block_table in Hg.
  change (((commit_block_table (num_reqs b) false <$> block_table b) : list BlockTable) !! g = Some t) in Hg. rewrite list_lookup_fmap in Hg.
  destruct ((block_table b : list BlockTable) !! g) as [t0|] eqn:Ht; [|done]. simpl in Hg. injection Hg as <-.
  destruct (rd_slots _ _ _ _ _ _ Hready g t0 Ht) as (R1 & R2 & R3). unfold commit_block_table. simpl. by destruct (bt_dirty t0).
Qed.

(** Slots of the step, in every group. *)
Definition slots_set (s' : Runner) : Prop := ∀ g t t', block_table b !! g = Some t → block_table (input_batch s') !! g = Some t' →
  take (length (step_tokens cs ns)) (bt_slot_mapping t') = phys_slot (bt_phys_size t) (group_tables es g) <$> step_tokens cs ns.

Lemma committed_slots (ts : list BlockTable) s' : block_table (input_batch s') = ts →
  (∀ g t t', block_table b1 !! g = Some t → ts !! g = Some t' → slots_written live b1 cs ns g t t') → slots_set s'.
Proof.
  intros Hts Hw g t t' Hg Hg'. rewrite Hts in Hg'. specialize (Hw g (commit_block_table (num_reqs b) false t) t'). unfold slots_written in Hw. rewrite Hw; [|simpl|exact Hg'].
  - simpl. rewrite take_app_length' by (by rewrite length_fmap). unfold commit_block_table. simpl. by destruct (bt_dirty t).
  - unfold mg_commit_block_table. change (((commit_block_table (num_reqs b) false <$> block_table b) : list BlockTable) !! g = Some (commit_block_table (num_reqs b) false t)).
    rewrite list_lookup_fmap. change (block_table b !! g) with ((block_table b : list BlockTable) !! g) in Hg. by rewrite Hg.
Qed.

Lemma wp_prepare_inputs E : wp (prepare_inputs c o ns) (λ r s', inputs_of live o b ns r ∧ slots_set s' ∧ runner_ok sh live s' ∧ dense live (input_batch s') ∧
  requests s' = requests s ∧ req_ids (input_batch s') = req_ids b ∧ rows (input_batch s') = rows b) E s.
Proof.
  destruct ready_rows as (Hsc & L1 & L2 & Hpos), ready_nonneg as (Nn & Nne & Ntot), committed as [Hb1 Hs1]. pose proof (rk_batch _ _ _ Hrun) as Hinv.
  pose proof (num_reqs_names sh live b Hinv Hdense) as Hnum. destruct (rd_arange _ _ _ _ _ _ Hready) as (N & Ha & HN & Hlim). pose proof (names_limit sh live b Hinv Hdense) as Hnl.
  unfold prepare_inputs. cbv zeta. wp_step. apply wp_assert; [apply Z.ltb_lt; exact Ntot|]. wp_steps. apply wp_assert; [apply Nat.ltb_lt; lia|]. wp_step. apply wp_on_batch. wp_steps.
  unfold batch_req_ids. wp_steps. eapply wp_of_outcome. { simpl. rewrite (names_ids live b Hdense). apply mapM_names. }
  wp_step. destruct valid_tokens as [valid Hvalid]. eapply wp_of_outcome; [exact Hvalid|]. cbn beta. set (st := (build_attn_state c _ _ _).1).
  wp_step. eapply wp_of_outcome. { rewrite Hnum, <-L1. apply (token_layout_ok c N). split; [done|done| |done]. split_and!; [done|pose proof (rd_limit _ _ _ _ _ _ Hready); lia|lia|].
    rewrite length_fmap. destruct (bi_rows _ _ _ Hinv) as [-> _]. lia. }
  rewrite Hnum, L1, (rows_computed sh live b Hinv Hdense), <-Hnum. cbn [tl_req_indices tl_positions tl_cu_num_tokens].
  destruct (compute_slots sh live b1 Hb1 Hdense cs ns) as (ts & Hts & Hsame & Hw); [rewrite length_fmap; lia|exact Hs1|].
  wp_step. apply wp_on_batch. eapply wp_on_table; [exact Hts|]. cbn beta.
  destruct (inv_row sh live b 0 Hinv) as (r0 & Hr0 & Hl0); [lia|]. wp_step. apply wp_on_batch. eapply wp_get_at; [simpl; exact Hr0|]. rewrite Hl0.
  destruct (select_tokens sh live b Hinv Hdense ns Hsc) as [Hidx Hsel]. wp_step. eapply wp_of_outcome; [exact Hidx|]. wp_step. eapply wp_of_outcome; [exact Hsel|].
  wp_step. eapply wp_of_outcome; [apply np_zip_same; rewrite length_fmap; lia|]. set (s2 := set_batch _ _). wp_step.
  eapply wp_call; [by apply (wp_num_tokens s2)|]. intros num_tokens s3 [-> ->]. cbn beta.
  assert (runner_ok sh live s2 ∧ dense live (input_batch s2) ∧ slots_set s2) as (Hr2 & Hd2 & Hss).
  { split_and!; [|exact Hdense|].
    - destruct Hrun as [K1 K2 K3 K4]. split; [|done..]. exact (inv_tables sh live b1 ts Hsame Hb1).
    - by apply (committed_slots ts). }
  case_decide as Hsd.
  - wp_steps. split_and!; try done. split; cbn [si_layout tl_positions tl_req_indices si_input_ids si_query_start_loc si_seq_lens si_discard_request_indices si_spec_decode_metadata si_logits_indices tl_cu_num_tokens]; try done.
    + apply seq_lens_rows.
    + rewrite Hnum. apply discard_rows.
  - wp_step. rewrite Hnum. eapply wp_call; [by apply (wp_draft_counts sh live s2 (rk_batch _ _ _ Hr2) Hd2 c o (rd_drafts _ _ _ _ _ _ Hready))|]. intros [counts decodes] s4 [-> Hc]. simpl in Hc. subst counts.
    wp_step. eapply wp_of_outcome; [by apply (drafts_metadata N)|]. wp_steps. split_and!; try done.
    split; cbn [si_layout tl_positions tl_req_indices si_input_ids si_query_start_loc si_seq_lens si_discard_request_indices si_spec_decode_metadata si_logits_indices tl_cu_num_tokens]; try done.
    + apply seq_lens_rows.
    + apply discard_rows.
    + intros _. eexists. split; [done|]. split; [done|]. simpl. by split_and!.
Qed.
End step.
