(* ===== verification/WorkerSample.v ===== *)
(** [_bookkeeping_sync]: the sampled tokens are appended to the rows and to the requests, and
    the drafts of the step are given up. Synchronous scheduling. *)
From S2P Require Import Prelude BlockTable SlotMapping InputBatch LogitsUpdate InputBatchInv BatchOps BatchMoves WorkerRunner BatchReorder WorkerStates PrepareInputs InputLayout InputsExact.
Local Open Scope Z_scope.

(** A request after [ids] were sampled for it. The list of drafts stays until the next step,
    but its tokens are overwritten. *)
Definition sampled_entry (ids : list Z) (e : Entry) : Entry :=
  match ids with
  | [] => e
  | _ => (st_set_outputs (st_output_token_ids e.1 ++ ids) e.1, Stale (dr_list e.2))
  end.

Section sample.
Context (sh : Shape).
Implicit Types (live : gmap string Entry) (s : Runner).

Lemma sampled_row live s i id e : runner_ok sh live s → req_id_to_index (input_batch s) !! id = Some i → live !! id = Some e →
  ∃ row, rows (input_batch s) !! i = Some row ∧ num_tokens_no_spec row = st_num_tokens e.1 ∧ length (token_ids_cpu row) = sh_len sh ∧
    row_ok (sh_masks sh) (sh_vocab sh) e row.
Proof.
  intros Hr Hi He. pose proof (rk_batch _ _ _ Hr) as Hinv. destruct (bi_held _ _ _ Hinv id i e Hi He) as [_ _ _ (row & Hrow & Hok)].
  destruct (bi_rows _ _ _ Hinv) as [_ Hl]. exists row. split_and!; [done|apply (ro_count _ _ _ _ Hok)|by apply (Forall_lookup_1 _ _ _ _ Hl Hrow)|done].
Qed.

Lemma wp_append_sampled max_model_len live s i id e ids E : runner_ok sh live s → req_id_to_index (input_batch s) !! id = Some i → live !! id = Some e →
  (ids ≠ [] → st_num_tokens e.1 + Z.of_nat (length ids) ≤ max_model_len) → max_model_len ≤ Z.of_nat (sh_len sh) →
  wp (append_sampled max_model_len i ids) (λ _ s', runner_ok sh (<[id := sampled_entry ids e]> live) s' ∧ req_ids (input_batch s') = req_ids (input_batch s) ∧
    req_id_to_index (input_batch s') = req_id_to_index (input_batch s) ∧ requests s' = <[id := (sampled_entry ids e).1]> (requests s) ∧ block_table (input_batch s') = block_table (input_batch s)) E s.
Proof.
  intros Hr Hi He Hfit Hlen. pose proof Hr as [Hinv Hb Hl Hids]. unfold append_sampled. destruct ids as [|x ids'].
  { wp_steps. simpl. rewrite (insert_id live), (insert_id (requests s)) by (by try apply Hl). done. }
  set (ids := x :: ids') in *. specialize (Hfit ltac:(done)). destruct (sampled_row live s i id e Hr Hi He) as (row & Hrow & Hn & Hrl & Hok).
  pose proof (lookup_lt_Some _ _ _ Hrow) as Hlt.
  wp_step. apply wp_on_batch. eapply wp_get_at; [exact Hrow|]. cbv zeta. rewrite Hn. wp_step. apply wp_assert; [by apply Z.leb_le|].
  assert (Z.to_nat (st_num_tokens e.1) = length (st_prompt_token_ids e.1 ++ st_output_token_ids e.1)) as Hz by (unfold st_num_tokens; rewrite length_app; lia).
  assert (Z.of_nat (Z.to_nat (st_num_tokens e.1)) = st_num_tokens e.1) as Hzz by (unfold st_num_tokens; lia).
  wp_step. apply wp_on_batch. eapply wp_write_tokens; [exact Hrow|lia|].
  wp_step. apply wp_on_batch. eapply wp_upd_row; [simpl; by apply list_lookup_insert_eq|].
  wp_step. apply wp_on_batch. eapply wp_get_at; [simpl; exact (proj1 (bi_index _ _ _ Hinv id i) Hi)|].
  eapply wp_upd_request; [simpl; apply Hl; exact He|]. simpl. split_and!; [|done..].
  set (toks := take (Z.to_nat (st_num_tokens e.1)) (token_ids_cpu row) ++ ids ++ drop (Z.to_nat (st_num_tokens e.1) + length ids) (token_ids_cpu row)). split; simpl; [|done| |].
  - destruct (bi_held _ _ _ Hinv id i e Hi He) as [B1 B2 B3 _]. eapply (inv_update sh live (input_batch s) _ id i e (sampled_entry ids e)
      (set_counts (st_num_tokens e.1 + Z.of_nat (length ids)) (num_prompt_tokens row) (num_computed_tokens_cpu row) (set_row_tokens toks row)) Hinv Hi He); try done.
    + split; simpl; try done; [by rewrite list_insert_insert_eq|by rewrite list_insert_id|apply (bi_tables _ _ _ Hinv)].
    + simpl. unfold toks. rewrite length_write; [done|lia].
    + pose proof (row_ok_base sh e row Hok) as Hbase. destruct Hok as [O1 O2 O3 O4 O5 O6]. split; try done.
      * unfold st_num_tokens, ids. simpl. rewrite length_app. simpl. lia.
      * unfold entry_tokens. cbn [fst snd sampled_entry]. simpl. rewrite app_nil_r. pose proof (ro_tokens _ _ _ _ Hbase) as Ht. unfold entry_tokens in Ht. cbn [fst snd] in Ht.
        simpl in Ht. rewrite app_nil_r in Ht. unfold toks. rewrite Hz, Ht. fold ids. rewrite !app_assoc. by apply take_app_length'.
  - intros id' e' He'. simpl. destruct (decide (id' = id)) as [->|Hne]; [rewrite lookup_insert_eq in He'; rewrite lookup_insert_eq; by simplify_eq|].
    rewrite lookup_insert_ne in He' by done. rewrite lookup_insert_ne by done. by apply Hl.
  - intros id' r'. simpl. destruct (decide (id' = id)) as [->|Hne]; [rewrite lookup_insert_eq; intros [= <-]; simpl; by apply Hids, Hl|].
    rewrite lookup_insert_ne by done. apply Hids.
Qed.

(** All rows. *)
Record sampled_to (b : IB) (valid : list (list Z)) live (reqs : gmap string CachedRequestState) live' (reqs' : gmap string CachedRequestState) : Prop := {
  sa_entries : ∀ i id e, req_id_to_index b !! id = Some i → live !! id = Some e → live' !! id = Some (sampled_entry (default [] (valid !! i)) e);
  sa_dom : ∀ id, is_Some (live' !! id) ↔ is_Some (live !! id);
  sa_others : ∀ id, live !! id = None → reqs' !! id = reqs !! id;
}.
Lemma sampled_entry_base ids e : st_prompt_token_ids (sampled_entry ids e).1 = st_prompt_token_ids e.1 ∧ st_sampling_params (sampled_entry ids e).1 = st_sampling_params e.1.
Proof. by destruct ids. Qed.

Lemma wp_append_all max_model_len valid live s E : runner_ok sh live s → dense live (input_batch s) → (length valid ≤ size live)%nat →
  (∀ i id e ids, req_id_to_index (input_batch s) !! id = Some i → live !! id = Some e → valid !! i = Some ids → ids ≠ [] → st_num_tokens e.1 + Z.of_nat (length ids) ≤ max_model_len) →
  max_model_len ≤ Z.of_nat (sh_len sh) →
  wp (for_each (imap pair valid) (λ '(i, ids), append_sampled max_model_len i ids)) (λ _ s', ∃ live', sampled_to (input_batch s) valid live (requests s) live' (requests s') ∧
    runner_ok sh live' s' ∧ req_ids (input_batch s') = req_ids (input_batch s) ∧ block_table (input_batch s') = block_table (input_batch s)) E s.
Proof.
  intros Hr Hd Hle Hfit Hlen. pose proof (rk_batch _ _ _ Hr) as Hinv. set (b := input_batch s) in *.
  eapply (wp_for_each (λ dn _ s', ∃ live', sampled_to b (take (length dn) valid) live (requests s) live' (requests s') ∧ runner_ok sh live' s' ∧
    req_ids (input_batch s') = req_ids b ∧ req_id_to_index (input_batch s') = req_id_to_index b ∧ block_table (input_batch s') = block_table b)).
  - exists live. by split_and!.
  - intros dn [k ids] todo s1 Heq (live1 & [A1 A2 A3] & Hr1 & Hids1 & Hidx1 & Ht1).
    assert (imap pair valid !! length dn = Some (k, ids)) as Hat by (rewrite Heq; by apply list_lookup_middle).
    rewrite list_lookup_imap in Hat. destruct (valid !! length dn) as [ids'|] eqn:Hv; [|done]. simpl in Hat. injection Hat as <- ->.
    destruct (lookup_lt_is_Some_2 (batch_names b) (length dn)) as [id Hid]. { rewrite (length_names live b Hd). apply lookup_lt_Some in Hv. lia. }
    pose proof (proj1 (names_index sh live s Hinv Hd id _) Hid) as Hi. fold b in Hi. destruct (proj1 (bi_live _ _ _ Hinv id)) as [e He]; [eauto|].
    pose proof (A1 _ _ _ Hi He) as He1. rewrite lookup_take_ge in He1 by done. simpl in He1.
    eapply wp_call; [eapply (wp_append_sampled max_model_len live1 s1 (length dn) id e ids); [done|by rewrite Hidx1|done|by eapply Hfit|done]|].
    intros [] s2 (H1 & H2 & H3 & H4 & H5). exists (<[id := sampled_entry ids e]> live1). rewrite H2, H3, H4, H5. split_and!; try done. rewrite length_app, Nat.add_1_r. split.
    + intros i' id' e' Hi' He'. destruct (decide (id' = id)) as [->|Hne].
      * rewrite Hi in Hi'. injection Hi' as <-. rewrite He in He'. injection He' as <-. rewrite lookup_insert_eq, lookup_take_lt, Hv by lia. done.
      * rewrite lookup_insert_ne by done. rewrite (A1 _ _ _ Hi' He'). pose proof (index_ne _ _ _ _ _ _ _ Hinv Hi' Hi Hne). destruct (decide (i' < length dn)%nat).
        -- by rewrite !lookup_take_lt by lia.
        -- by rewrite !lookup_take_ge by lia.
    + intros id'. rewrite <-A2. destruct (decide (id' = id)) as [->|Hne]; [rewrite lookup_insert_eq, He1; split; eauto|by rewrite lookup_insert_ne].
    + intros id' Hn. rewrite lookup_insert_ne by (intros <-; congruence). by apply A3.
  - intros s1 (live1 & H1 & H2 & H3 & _ & H4). exists live1. rewrite length_imap, take_ge in H1 by done. done.
Qed.

Lemma follows_sampled {T} (new_state : BatchSampling → list Z → string → option T) b b' valid live live' reqs reqs' D : batch_inv sh live b → sampled_to b valid live reqs live' reqs' →
  req_ids b' = req_ids b → follows new_state live b D → follows new_state live' b' D.
Proof.
  intros Hinv [A1 A2 A3] Hids HD i. rewrite (HD i). unfold row_state. rewrite Hids. destruct (req_ids b !! i) as [[id|]|] eqn:Hi; [|done..].
  unfold proc_state. destruct (row_live sh _ _ _ _ Hinv Hi) as [e He]. apply (bi_index _ _ _ Hinv) in Hi. rewrite He, (A1 _ _ _ Hi He).
  by destruct (sampled_entry_base (default [] (valid !! i)) e) as [-> ->].
Qed.
End sample.
