(* ===== verification/WorkerStep.v ===== *)
(** One step of the model runner, from the scheduler's output to the sampled tokens: the batch
    is updated, the inputs are prepared, the model runs, and the tokens are recorded. *)
From S2P Require Import Prelude BlockTable SlotMapping InputBatch LogitsUpdate InputBatchInv BatchOps BatchMoves WorkerRunner BatchReorder WorkerStates PrepareInputs InputLayout InputsExact WorkerSample.
Local Open Scope Z_scope.

(** [total_num_scheduled_tokens]. *)
Definition step_total (o : StepOutput) : Z := foldr Z.add 0 (map_to_list (so_num_scheduled_tokens o)).*2.

Record StepResult := mkStepResult {
  sr_batch_update : option BatchUpdate;
  sr_inputs : option StepInputs;
  sr_sampled : list (list Z);
}.
Section execute.
(** The order of Python sets, and the model with its sampler: the number of columns and the
    rows of the sampled tokens. *)
Context (set_order : gset string → list string) (sample : StepInputs → nat * list (list Z)).
Context (c : RunnerConfig) (threshold : option Z) (max_model_len : Z).

(** From the counts in the order of the rows to the recorded tokens. *)
Definition infer (o : StepOutput) : M Runner (StepInputs * list (list Z)) :=
  ids ← batch_req_ids;
  tokens ← of_outcome (mapM (λ id, match so_num_scheduled_tokens o !! id with Some n => Ret n | None => Raise KeyError end) ids);
  r ← prepare_inputs c o tokens;
  let sampled := sample r in
  valid ← bookkeeping_sync max_model_len (si_discard_request_indices r) sampled.1 sampled.2;
  mret (r, valid).

(** The state changes of [execute_model] and [sample_tokens]. *)
Definition execute_step (o : StepOutput) : M Runner StepResult :=
  u ← update_states set_order true false threshold [] o;
  if decide (step_total o = 0) then mret (mkStepResult u None [])
  else
    p ← infer o;
    mret (mkStepResult u (Some p.1) p.2).
End execute.

(** ** What a step relies on *)

(** The blocks of a request cover what is scheduled for it, in every group. *)
Definition entry_slots (sh : Shape) (e : Entry) (n : Z) : Prop := ∀ g t, (sh_tables sh : list BlockTable) !! g = Some t → ∀ p, 0 ≤ p < st_num_computed_tokens e.1 + n →
  ∃ ids blk, st_block_ids e.1 !! g = Some ids ∧ ids !! Z.to_nat (p / bt_phys_size t) = Some blk ∧ slots_fit (bt_phys_size t) blk.
(** The buffers of the runner, fixed at its start. *)
Record buffers_ok (sh : Shape) (c : RunnerConfig) (max_tokens : Z) : Prop := {
  bu_arange : ∃ N, rc_arange_np c = arange N ∧ max_tokens ≤ Z.of_nat N ∧ (sh_limit sh + 1 ≤ N)%nat;
  bu_limit : (sh_limit sh ≤ rc_max_num_reqs c)%nat;
  bu_slots : Forall (λ t, maps_slots t ∧ max_tokens ≤ Z.of_nat (length (bt_slot_mapping t))) (sh_tables sh);
}.
(** The scheduler's plan for the requests [live]. *)
Record plan_ok (sh : Shape) (max_tokens : Z) (o : StepOutput) (live : gmap string Entry) : Prop := {
  pl_tokens : ∀ id e n, live !! id = Some e → so_num_scheduled_tokens o !! id = Some n → scheduled_ok e n ∧ drafted o id e n ∧ entry_slots sh e n;
  pl_drafts : ∀ id, is_Some (so_spec_decode_tokens o !! id) → is_Some (live !! id);
  pl_total : step_total o ≤ max_tokens;
}.
(** There is room for one more token. *)
Definition plan_room (max_model_len : Z) (o : StepOutput) (live : gmap string Entry) : Prop :=
  ∀ id e n, live !! id = Some e → so_num_scheduled_tokens o !! id = Some n → st_num_computed_tokens e.1 + n < max_model_len.
(** The sampler returns a row for every request, with at most one token more than it has
    drafts. *)
Definition sampler_ok (vocab : Z) (sample : StepInputs → nat * list (list Z)) (o : StepOutput) : Prop :=
  ∀ live b ns r, length ns = length (batch_names b) → inputs_of live o b ns r → length (sample r).2 = length (batch_names b) ∧
    ∀ i id ids, batch_names b !! i = Some id → valid_sampled_token_ids vocab (si_discard_request_indices r) (sample r).1 (sample r).2 !! i = Some ids →
      (length ids ≤ S (length (drafts_of o id)))%nat.

(** The slots of the step, from the requests of the batch. *)
Definition slots_at (live : gmap string Entry) (b : IB) (ns : list Z) : Prop := ∀ g t, block_table b !! g = Some t →
  let tokens := step_tokens ((λ e : Entry, st_num_computed_tokens e.1) <$> batch_entries live b) ns in
  take (length tokens) (bt_slot_mapping t) = phys_slot (bt_phys_size t) (group_tables (batch_entries live b) g) <$> tokens.

(** ** From the plan to the inputs *)

Lemma total_perm ns ms : ns ≡ₚ ms → total_of ns = total_of ms.
Proof. induction 1; simpl; lia. Qed.

Lemma maps_slots_format t t' : same_format t t' → maps_slots t → maps_slots t'.
Proof.
  intros [S1 S2 S3 S4 (S5 & S6 & S7 & S8 & S9) S10 S11 S12] [H1 [ks H2]]. unfold maps_slots, cp_world in *. rewrite S1, S4, S5, S7. eauto.
Qed.

(** The tokens of the step. *)
Lemma elem_of_range a n p : p ∈ range a n → a ≤ p < a + n.
Proof. intros [i Hi]%list_elem_of_lookup. pose proof (lookup_lt_Some _ _ _ Hi) as Hl. rewrite length_range in Hl. rewrite lookup_range in Hi by done. injection Hi as <-. lia. Qed.
Lemma elem_of_tokens {A} (xs : list A) cs ns x p : length cs = length ns → length xs = length ns → (x, p) ∈ zip (np_repeat xs ns) (positions_of cs ns) →
  ∃ k c n, xs !! k = Some x ∧ cs !! k = Some c ∧ ns !! k = Some n ∧ c ≤ p < c + n.
Proof.
  unfold np_repeat, positions_of. revert cs xs. induction ns as [|n ns IH]; intros [|c cs] [|y xs] H1 H2; try done; [by intros ?%elem_of_nil|]. cbn [zip_with concat].
  rewrite zip_with_app by (by rewrite length_replicate, length_range). rewrite elem_of_app. intros [Hin|Hin].
  - exists 0%nat, c, n. apply elem_of_zip_l in Hin as Hx. apply elem_of_zip_r in Hin as Hp. apply elem_of_replicate in Hx as [-> _]. apply elem_of_range in Hp. done.
  - destruct (IH cs xs) as (k & Hk); [by injection H1|by injection H2|done|]. by exists (S k).
Qed.
Lemma elem_of_step_tokens cs ns i p : length cs = length ns → (i, p) ∈ step_tokens cs ns → ∃ c n, cs !! i = Some c ∧ ns !! i = Some n ∧ c ≤ p < c + n.
Proof.
  intros Hl Hin. unfold step_tokens in Hin. rewrite zip_with_fmap_l in Hin. apply list_elem_of_lookup in Hin as [j Hj]. rewrite lookup_zip_with in Hj.
  destruct (rows_of ns !! j) as [x|] eqn:Hx; [|done]. destruct (positions_of cs ns !! j) as [y|] eqn:Hy; [|done]. simpl in Hj. injection Hj as Hxi ->.
  destruct (elem_of_tokens (arange (length ns)) cs ns x p Hl (length_arange _)) as (k & c & n & H1 & H2 & H3 & H4).
  { apply (list_elem_of_lookup_2 _ j). rewrite lookup_zip_with. fold (rows_of ns). by rewrite Hx, Hy. }
  exists c, n. pose proof (lookup_lt_Some _ _ _ H3). rewrite lookup_arange in H1 by done. injection H1 as <-. rewrite Nat2Z.id in Hxi. by subst k.
Qed.
Lemma length_step_tokens cs ns : length cs = length ns → nonneg ns → Z.of_nat (length (step_tokens cs ns)) = total_of ns.
Proof.
  intros Hl Hn. unfold step_tokens. rewrite length_zip, length_fmap, (length_positions cs ns Hl), Nat.min_id, <-(length_positions cs ns Hl). unfold positions_of.
  revert cs Hl. induction Hn as [|n ns Hp _ IH]; intros [|c cs] Hl; try done. cbn [zip_with concat]. rewrite length_app, length_range. injection Hl as Hl. specialize (IH cs Hl). simpl. lia.
Qed.

Section plan.
Context (sh : Shape) (c : RunnerConfig) (max_tokens : Z) (o : StepOutput) (s : Runner) (live : gmap string Entry).
Context (Hrun : runner_ok sh live s) (Hdense : dense live (input_batch s)) (Hbuf : buffers_ok sh c max_tokens) (Hplan : plan_ok sh max_tokens o live).
Context (Hdom : ∀ id, is_Some (so_num_scheduled_tokens o !! id) ↔ is_Some (live !! id)).
Abbreviation names := (batch_names (input_batch s)).
Abbreviation es := (batch_entries live (input_batch s)).
Let Hinv := rk_batch _ _ _ Hrun.

Lemma names_live id : id ∈ names ↔ is_Some (live !! id).
Proof.
  rewrite <-(bi_live _ _ _ Hinv). split.
  - intros [i Hi]%list_elem_of_lookup. exists i. by apply (names_index sh live s Hinv Hdense).
  - intros [i Hi]. apply (list_elem_of_lookup_2 _ i). by apply (names_index sh live s Hinv Hdense).
Qed.
Lemma names_nodup : NoDup names.
Proof.
  apply NoDup_alt. intros i j id Hi Hj. apply (names_index sh live s Hinv Hdense) in Hi, Hj. congruence.
Qed.
Lemma plan_counts : ∃ ns, mapM (λ id, match so_num_scheduled_tokens o !! id with Some n => Ret n | None => Raise KeyError end) names = Ret ns ∧
  Forall2 (λ id n, so_num_scheduled_tokens o !! id = Some n) names ns ∧ total_of ns = step_total o.
Proof.
  destruct (mapM_all (λ id, match so_num_scheduled_tokens o !! id with Some n => Ret n | None => Raise KeyError end) (λ _, True) names) as (ns & Hns & _).
  { intros id Hid. apply names_live, Hdom in Hid as [n ->]. eauto. }
  exists ns. split; [done|]. apply mapM_Ret in Hns as Hf. assert (Forall2 (λ id n, so_num_scheduled_tokens o !! id = Some n) names ns) as H.
  { eapply Forall2_impl; [exact Hf|]. intros id n. simpl. destruct (_ !! id); [by intros [= ->]|done]. }
  split; [done|]. unfold step_total. apply total_perm. assert (zip names ns ≡ₚ map_to_list (so_num_scheduled_tokens o)) as Hp.
  { apply NoDup_Permutation; [|apply NoDup_map_to_list|].
    - apply (NoDup_fmap_1 fst). rewrite fst_zip by (by rewrite (Forall2_length _ _ _ H)). apply names_nodup.
    - intros [id n]. rewrite elem_of_map_to_list, list_elem_of_lookup. split.
      + intros [i Hi]. rewrite lookup_zip_with in Hi. destruct (names !! i) as [x|] eqn:Hx; [|done]. destruct (ns !! i) as [y|] eqn:Hy; [|done]. simpl in Hi. injection Hi as <- <-.
        by apply (Forall2_lookup_lr _ _ _ _ _ _ H Hx Hy).
      + intros Hn. assert (id ∈ names) as [i Hi]%list_elem_of_lookup by (apply names_live, Hdom; eauto). destruct (Forall2_lookup_l _ _ _ _ _ H Hi) as (m & Hm & Hid).
        exists i. rewrite lookup_zip_with, Hi, Hm. simpl. congruence. }
  rewrite <-(snd_zip names ns) by (by rewrite (Forall2_length _ _ _ H)). by rewrite Hp.
Qed.

Lemma plan_slots ns g t : Forall2 (λ id n, so_num_scheduled_tokens o !! id = Some n) names ns → total_of ns = step_total o → block_table (input_batch s) !! g = Some t →
  slots_ready live (input_batch s) ((λ e : Entry, st_num_computed_tokens e.1) <$> es) ns g t.
Proof.
  intros Hns Htot Hg. pose proof (names_entries sh live _ Hinv Hdense) as Hes. pose proof (Forall2_length _ _ _ Hes) as L1. pose proof (Forall2_length _ _ _ Hns) as L2.
  assert (∀ i e n, es !! i = Some e → ns !! i = Some n → scheduled_ok e n ∧ entry_slots sh e n) as Hrow.
  { intros i e n He Hn. destruct (Forall2_lookup_r _ _ _ _ _ Hes He) as (id & Hid & Hlive). pose proof (Forall2_lookup_lr _ _ _ _ _ _ Hns Hid Hn) as Hso.
    destruct (pl_tokens _ _ _ _ Hplan id e n Hlive Hso) as (? & _ & ?). done. }
  destruct (Forall2_lookup_r _ _ _ _ _ (bi_format _ _ _ Hinv) Hg) as (t0 & Ht0 & Hf). pose proof (Forall_lookup_1 _ _ _ _ (bu_slots _ _ _ Hbuf) Ht0) as [Hmap Hlen].
  assert (bt_phys_size t = bt_phys_size t0) as Hsize by (unfold bt_phys_size; by rewrite (sf_block _ _ Hf), (sf_split _ _ Hf)).
  split_and!.
  - by apply (maps_slots_format t0).
  - apply Nat2Z.inj_le. rewrite length_step_tokens; [|rewrite length_fmap; lia|].
    2: { apply Forall_lookup_2. intros i n Hn. destruct (lookup_lt_is_Some_2 es i) as [e He]; [apply lookup_lt_Some in Hn; lia|]. destruct (Hrow i e n He Hn) as [[] _]. lia. }
    rewrite (sf_slots _ _ Hf). pose proof (pl_total _ _ _ _ Hplan). lia.
  - apply Forall_forall. intros [i p] Hin. apply elem_of_step_tokens in Hin as (c0 & n & Hc & Hn & Hp); [|rewrite length_fmap; lia].
    rewrite list_lookup_fmap in Hc. destruct (es !! i) as [e|] eqn:He; [|done]. simpl in Hc. injection Hc as <-. destruct (Hrow i e n He Hn) as [[_ S2 _] Hslots].
    destruct (Hslots g t0 Ht0 p) as (ids & blk & B1 & B2 & B3); [lia|]. unfold has_slot. cbn [fst snd]. split; [lia|]. exists ids, blk. rewrite Hsize. split_and!; try done.
    unfold group_tables. rewrite list_lookup_fmap, He. simpl. by rewrite B1.
Qed.
Lemma plan_ready ns : live ≠ ∅ → Forall2 (λ id n, so_num_scheduled_tokens o !! id = Some n) names ns → total_of ns = step_total o → step_ready sh live c o s ns.
Proof.
  intros Hne Hns Htot. split; try done.
  - intros id e n He Hn. by destruct (pl_tokens _ _ _ _ Hplan id e n He Hn) as (? & ? & _).
  - apply (pl_drafts _ _ _ _ Hplan).
  - destruct (bu_arange _ _ _ Hbuf) as (N & H1 & H2 & H3). exists N. pose proof (pl_total _ _ _ _ Hplan). split_and!; [done|lia|done].
  - apply (bu_limit _ _ _ Hbuf).
  - intros g t Hg. by apply plan_slots.
Qed.
End plan.

(** ** The step *)

Lemma length_valid v discard k sampled : length (valid_sampled_token_ids v discard k sampled) = length sampled.
Proof. unfold valid_sampled_token_ids, parse_output. case_decide; apply length_imap. Qed.
Lemma discarded_row v discard k sampled i ids : i ∈ discard → valid_sampled_token_ids v discard k sampled !! i = Some ids → ids = [].
Proof.
  intros Hi. unfold valid_sampled_token_ids, parse_output. case_decide; rewrite list_lookup_imap; destruct (sampled !! i); simpl; try done;
    rewrite decide_True by done; by intros [= <-].
Qed.

Section whole.
Context (sh : Shape) {T : Type} (new_state : BatchSampling → list Z → string → option T) (truthy : T → bool) (D : gmap nat T).
Context (set_order : gset string → list string) (Horder : ∀ X, set_order X ≡ₚ elements X) (sample : StepInputs → nat * list (list Z)).
Context (c : RunnerConfig) (threshold : option Z) (max_model_len max_tokens : Z).
Context (Hbuf : buffers_ok sh c max_tokens) (Hlen : max_model_len ≤ Z.of_nat (sh_len sh)) (Hmasks : sh_masks sh = true → threshold = None).
Context (o : StepOutput) (Hsample : sampler_ok (sh_vocab sh) sample o).

(** The inputs are prepared, the model runs, and the tokens are recorded. *)
Lemma wp_infer live s E : runner_ok sh live s → dense live (input_batch s) → plan_ok sh max_tokens o live → plan_room max_model_len o live →
  (∀ id, is_Some (so_num_scheduled_tokens o !! id) ↔ is_Some (live !! id)) → step_total o ≠ 0 →
  wp (infer sample c max_model_len o)
    (λ p s', ∃ ns live', Forall2 (λ id n, so_num_scheduled_tokens o !! id = Some n) (batch_names (input_batch s)) ns ∧ inputs_of live o (input_batch s) ns p.1 ∧
      slots_set live s ns s' ∧
      p.2 = valid_sampled_token_ids (sh_vocab sh) (si_discard_request_indices p.1) (sample p.1).1 (sample p.1).2 ∧
      sampled_to (input_batch s) p.2 live (requests s) live' (requests s') ∧ runner_ok sh live' s' ∧ req_ids (input_batch s') = req_ids (input_batch s)) E s.
Proof.
  intros Hrun Hd Hplan Hroom Hdom Htot. pose proof (rk_batch _ _ _ Hrun) as Hinv. destruct (plan_counts sh o s live Hrun Hd Hdom) as (ns & Hns & Hf & Hsum).
  assert (live ≠ ∅) as Hne. { intros ->. destruct Htot. unfold step_total. replace (so_num_scheduled_tokens o) with (∅ : gmap string Z); [by rewrite map_to_list_empty|].
    symmetry. apply map_empty. intros id. apply eq_None_not_Some. intros Hs%Hdom. rewrite lookup_empty in Hs. by destruct Hs. }
  pose proof (plan_ready sh c max_tokens o s live Hrun Hd Hbuf Hplan ns Hne Hf Hsum) as Hready.
  unfold infer, batch_req_ids. wp_steps. eapply wp_of_outcome. { rewrite (names_ids live _ Hd). apply mapM_names. } wp_step. eapply wp_of_outcome; [exact Hns|]. wp_step.
  eapply wp_call; [by apply (wp_prepare_inputs sh live c o s ns)|]. intros r s1 (I1 & I2 & I3 & I4 & I5 & I6 & I7). cbn beta.
  assert (batch_names (input_batch s1) = batch_names (input_batch s)) as Hn1 by (unfold batch_names; by rewrite I6).
  pose proof (rk_batch _ _ _ I3) as Hinv1. destruct (Hsample live (input_batch s) ns r) as [Hsl Hsv]; [symmetry; by eapply Forall2_length|done|].
  wp_step. unfold bookkeeping_sync. wp_steps. cbv zeta. rewrite (bi_vocab _ _ _ Hinv1).
  set (valid := valid_sampled_token_ids _ _ _ _) in *.
  eapply wp_call; [apply (wp_append_all sh max_model_len valid live s1); [done|done| | |done]|].
  - unfold valid. rewrite length_valid, Hsl, (length_names live _ Hd). done.
  - intros i id e ids Hi He Hv Hnil. apply (names_index sh live s1 Hinv1 I4) in Hi. rewrite Hn1 in Hi. destruct (Forall2_lookup_l _ _ _ _ _ Hf Hi) as (n & Hn & Hsn).
    destruct (pl_tokens _ _ _ _ Hplan id e n He Hsn) as ([S1 S2 S3] & [D1 D2 D3] & _). pose proof (Hroom id e n He Hsn) as Hr.
    pose proof (Hsv i id ids Hi Hv) as Hl. assert (st_num_tokens e.1 ≤ st_num_computed_tokens e.1 + n) as Hkept.
    { destruct (decide (st_num_computed_tokens e.1 + n < st_num_tokens e.1)); [|lia]. destruct Hnil. eapply discarded_row; [|exact Hv]. apply (io_discard _ _ _ _ _ I1).
      exists e, n. split_and!; [|done..]. destruct (Forall2_lookup_l _ _ _ _ _ (names_entries sh live _ Hinv Hd) Hi) as (e' & He' & Hlive). congruence. }
    destruct (drafts_of o id) as [|d ds] eqn:Hdr; [simpl in Hl; lia|]. specialize (D3 ltac:(done)).
    unfold entry_tokens in D3. rewrite D1 in D3. rewrite !length_app in D3. unfold st_num_tokens in *. simpl in *. lia.
  - intros [] s2 (live' & [A1 A2 A3] & B2 & B3 & B4). cbn beta. wp_steps. exists ns, live'. cbn [fst snd]. split_and!; try done.
    + intros g t t' Hg Hg'. rewrite B4 in Hg'. by apply (I2 g t t').
    + split; [|done|by rewrite <-I5]. intros i id e Hi. apply A1. apply (names_index sh live s1 Hinv1 I4). rewrite Hn1. by apply (names_index sh live s Hinv Hd).
    + by rewrite B3.
Qed.

Lemma dense_sampled b b' valid live live' reqs reqs' : sampled_to b valid live reqs live' reqs' → req_ids b' = req_ids b → dense live b → dense live' b'.
Proof.
  intros [_ A2 _] Hids [H1 H2]. unfold dense. rewrite Hids. split; [|done]. rewrite H1, <-!size_dom. f_equal. apply set_eq. intros id. rewrite !elem_of_dom. by rewrite A2.
Qed.
Lemma sampled_batch live b b' valid reqs live' reqs' : batch_inv sh live b → batch_inv sh live' b' → req_ids b' = req_ids b →
  sampled_to b valid live reqs live' reqs' → sampled_to b' valid live reqs live' reqs'.
Proof.
  intros H H' Hids [A1 A2 A3]. split; [|done|done]. intros i id e Hi He. apply A1; [|done]. apply (bi_index _ _ _ H). rewrite <-Hids. by apply (bi_index _ _ _ H').
Qed.
Lemma slots_batch live live' s s' ns : batch_inv sh live (input_batch s) → batch_inv sh live' (input_batch s') → req_ids (input_batch s') = req_ids (input_batch s) →
  slots_set live s ns s' → slots_at live (input_batch s') ns.
Proof.
  intros H H' Hids Hs g t Hg. destruct (Forall2_lookup_r _ _ _ _ _ (bi_format _ _ _ H') Hg) as (t0 & Ht0 & F'). destruct (Forall2_lookup_l _ _ _ _ _ (bi_format _ _ _ H) Ht0) as (t1 & Ht1 & F).
  specialize (Hs g t1 t Ht1 Hg). unfold slots_at, batch_entries, batch_names in *. rewrite Hids. cbv zeta. rewrite Hs. unfold bt_phys_size.
  by rewrite (sf_block _ _ F), (sf_split _ _ F), (sf_block _ _ F'), (sf_split _ _ F').
Qed.
Lemma scheduled_dom reqs reqs' : output_ok sh reqs o → next_requests o (unfinished_reqs o reqs) reqs' → ∀ id, is_Some (so_num_scheduled_tokens o !! id) ↔ is_Some (scheduled_entries o reqs' !! id).
Proof.
  intros Hok [N1 N2 N3] id. split; [|apply scheduled_entries_lookup]. intros Hs. unfold scheduled_entries. rewrite map_lookup_imap. pose proof Hs as [n Hn]. rewrite Hn. simpl.
  apply fmap_is_Some. destruct (proj1 (ok_scheduled _ _ _ Hok id) Hs) as [(d & -> & Hd)%list_elem_of_fmap|Hc]; [rewrite (N1 d Hd); eauto|].
  destruct (ok_known _ _ _ Hok id Hc) as [Hf [r Hr]]. destruct (list_elem_of_lookup_1 _ _ Hc) as [i Hi].
  destruct (cached_req_total sh reqs o i id Hok Hi) as (? & ? & ? & _ & _ & Hq).
  assert (NoDup (cr_req_ids (so_cached_reqs o))) as Hnd by (pose proof (ok_nodup _ _ _ Hok) as Hnd; by apply NoDup_app in Hnd as (_ & _ & ?)).
  rewrite <-(req_of_at _ _ _ Hnd Hi) in Hq. rewrite (N2 _ _ Hc Hq). unfold unfinished_reqs. rewrite (map_lookup_filter_Some_2 _ _ _ _ Hr) by done. eauto.
Qed.

Lemma wp_runs {St A} (m : M St A) a s' Q E s : m s = (Ret a, s') → Q a s' → wp m Q E s.
Proof. intros H HQ. unfold wp. by rewrite H. Qed.

(** What is true after a step that started at [s]. *)
Definition step_outcome (s : Runner) (res : StepResult) (s' : Runner) : Prop := ∃ reqs live',
  next_requests o (unfinished_reqs o (requests s)) reqs ∧
  sampled_to (input_batch s') (sr_sampled res) (scheduled_entries o reqs) reqs live' (requests s') ∧
  runner_ok sh live' s' ∧ dense live' (input_batch s') ∧
  follows new_state live' (input_batch s') (process_dict_updates new_state truthy D (sr_batch_update res)).1 ∧
  (step_total o ≠ 0 → ∃ r ns, sr_inputs res = Some r ∧
    Forall2 (λ id n, so_num_scheduled_tokens o !! id = Some n) (batch_names (input_batch s')) ns ∧
    inputs_of (scheduled_entries o reqs) o (input_batch s') ns r ∧ slots_at (scheduled_entries o reqs) (input_batch s') ns).
(** What the scheduler's output has to be for a runner that knows [reqs0]. *)
Definition planned (reqs0 : gmap string CachedRequestState) : Prop := output_ok sh reqs0 o ∧
  ∀ reqs, next_requests o (unfinished_reqs o reqs0) reqs → plan_ok sh max_tokens o (scheduled_entries o reqs) ∧ plan_room max_model_len o (scheduled_entries o reqs).

Lemma run_step live s :
  runner_ok sh live s → follows new_state live (input_batch s) D → planned (requests s) →
  ∃ res s', execute_step set_order sample c threshold max_model_len o s = (Ret res, s') ∧ step_outcome s res s'.
Proof.
  intros Hrun HD [Hok Hplan].
  destruct (run_update_states sh new_state truthy D set_order Horder threshold Hmasks o live s Hrun Hok HD) as (u & s1 & Hu & Hnext & Hrun1 & Hd1 & HD1).
  destruct (Hplan _ Hnext) as [Hpl Hroom]. pose proof (scheduled_dom _ _ Hok Hnext) as Hdom. set (live1 := scheduled_entries o (requests s1)) in *.
  assert (wp (execute_step set_order sample c threshold max_model_len o) (λ res s', ∃ live', sr_batch_update res = u ∧
    sampled_to (input_batch s1) (sr_sampled res) live1 (requests s1) live' (requests s') ∧ runner_ok sh live' s' ∧ req_ids (input_batch s') = req_ids (input_batch s1) ∧
    (step_total o ≠ 0 → ∃ r ns, sr_inputs res = Some r ∧ Forall2 (λ id n, so_num_scheduled_tokens o !! id = Some n) (batch_names (input_batch s1)) ns ∧
      inputs_of live1 o (input_batch s1) ns r ∧ slots_set live1 s1 ns s')) noexc s) as Hwp.
  { unfold execute_step. wp_step. eapply wp_runs; [exact Hu|]. case_decide as Htot.
    - wp_steps. exists live1. by split_and!.
    - wp_step. eapply wp_call; [by apply (wp_infer live1 s1)|]. intros [r valid] s2 (ns & live' & W1 & W2 & W3 & -> & W5 & W6 & W7). wp_steps. exists live'. split_and!; try done.
      intros _. by exists r, ns. }
  apply wp_run in Hwp as (res & s2 & Hrun2 & live' & Hu2 & Hsa & Hr2 & Hids & Hin). exists res, s2. split; [done|]. exists (requests s1), live'. fold live1.
  pose proof (rk_batch _ _ _ Hrun1) as Hinv1. pose proof (rk_batch _ _ _ Hr2) as Hinv2.
  assert (batch_names (input_batch s2) = batch_names (input_batch s1)) as Hn by (unfold batch_names; by rewrite Hids).
  split_and!; try done.
  - by eapply sampled_batch.
  - by eapply dense_sampled.
  - rewrite Hu2. exact (follows_sampled sh new_state _ _ _ _ _ _ _ _ Hinv1 Hsa Hids HD1).
  - intros Htot. destruct (Hin Htot) as (r & ns & I1 & I2 & I3 & I4). exists r, ns. rewrite Hn. split_and!; [done|done| |by eapply slots_batch].
    assert (batch_entries live1 (input_batch s2) = batch_entries live1 (input_batch s1)) as He by (unfold batch_entries; by rewrite Hn).
    destruct I3. split; rewrite ?He, ?Hn; done.
Qed.
End whole.
