(* ===== verification/WorkerRuns.v ===== *)
(** All the states that a worker reaches from its start, and what its steps do there. *)
From S2P Require Import Prelude BlockTable SlotMapping InputBatch LogitsUpdate InputBatchInv BatchOps BatchMoves WorkerRunner BatchReorder WorkerStates WorkerInit PrepareInputs InputLayout InputsExact WorkerSample WorkerStep.
From stdpp Require Import sorting.
Local Open Scope Z_scope.

Section step.
Context (sh : Shape) {T : Type} (new_state : BatchSampling → list Z → string → option T) (truthy : T → bool) (D : gmap nat T).
Context (set_order : gset string → list string) (Horder : ∀ X, set_order X ≡ₚ elements X) (sample : StepInputs → nat * list (list Z)).
Context (c : RunnerConfig) (threshold : option Z) (max_model_len max_tokens : Z) (o : StepOutput).

(** C12: a step of the worker does what the scheduler planned, with synchronous scheduling on the
    last rank, without context parallelism and with the kernel's block size the first of its list.
    For any runner whose batch holds the requests it knows, any scheduler output that fits the
    buffers, and any model whose sampler returns for every request at most one token more than it
    has drafts: the step returns. The known requests become those of the scheduler, the batch
    holds exactly the scheduled requests in consecutive rows, the input ids, positions, sequence
    lengths, sampled rows, drafts and slots are those of the requests alone, the sampled tokens
    are appended to the rows and the requests they belong to and nothing else changes, and the
    dictionary that a logits processor keeps by rows has the state of the request in each row. The
    masks of allowed tokens are those of the requests too when the batch is never reordered. The
    runner is again one to which this applies. *)
Theorem worker_step_exact live s : buffers_ok sh c max_tokens → (sh_masks sh = true → threshold = None) → max_model_len ≤ Z.of_nat (sh_len sh) → sampler_ok (sh_vocab sh) sample o →
  runner_ok sh live s → follows new_state live (input_batch s) D → planned sh max_model_len max_tokens o (requests s) →
  ∃ res s', execute_step set_order sample c threshold max_model_len o s = (Ret res, s') ∧ step_outcome sh new_state truthy D o s res s'.
Proof. intros H1 Hm H2 H3 H4 H5 H6. by apply (run_step sh new_state truthy D set_order Horder sample c threshold max_model_len max_tokens H1 H2 Hm o H3 live). Qed.
End step.

Section runs.
Context (ranks : Ranks) (n max_model_len : nat) (max_tokens vocab : Z) (block_sizes : list Z) (spec : Z).
Context (max_blocks : option (list Z)) (kernel_sizes : option (list (list Z))) (uninit : nat → RowSampling) (b : InputBatch).
Context (Hinit : ib_init ranks n max_model_len max_tokens vocab block_sizes spec max_blocks kernel_sizes uninit = Ret b).
Context (Hspec : 0 ≤ spec) (Hdcp : 0 < dcp_size ranks) (Hpcp : 0 < pcp_size ranks) (Hsizes : Forall (λ b, 0 < b) block_sizes).
Context (Hwidth : ∀ i bs m, block_sizes !! i = Some bs → default (replicate (length block_sizes) (Z.of_nat max_model_len)) max_blocks !! i = Some m → 0 ≤ m ∧ m * bs < 2 ^ 31).

Context {T : Type} (new_state : BatchSampling → list Z → string → option T) (truthy : T → bool).
Context (set_order : gset string → list string) (Horder : ∀ X, set_order X ≡ₚ elements X).
Context (c : RunnerConfig) (threshold : option Z) (limit : Z).
Abbreviation sh := (init_shape (bool_decide (threshold = None)) max_model_len b).
Abbreviation len := (Z.of_nat max_model_len).

(** One step with some model, for a scheduler output that suits the requests of the runner; a
    logits processor applies the batch update. *)
Inductive worker_step : Runner * gmap nat T → Runner * gmap nat T → Prop :=
  | worker_step_intro o sample s D res s' :
      planned sh len limit o (requests s) → sampler_ok (sh_vocab sh) sample o →
      execute_step set_order sample c threshold len o s = (Ret res, s') →
      worker_step (s, D) (s', (process_dict_updates new_state truthy D (sr_batch_update res)).1).

Lemma worker_reachable_ok st : buffers_ok sh c limit → rtc worker_step (runner_init b, ∅) st → ∃ live, runner_ok sh live st.1 ∧ dense live (input_batch st.1) ∧ follows new_state live (input_batch st.1) st.2.
Proof.
  intros Hbuf Hst. remember (runner_init b, ∅) as st0 eqn:H0. assert (∃ live, runner_ok sh live st0.1 ∧ dense live (input_batch st0.1) ∧ follows new_state live (input_batch st0.1) st0.2) as Hs.
  { subst st0. exists ∅. destruct (runner_init_ok ranks n max_model_len max_tokens vocab block_sizes spec max_blocks kernel_sizes uninit b Hinit Hspec Hdcp Hpcp Hsizes Hwidth (bool_decide (threshold = None))) as [H1 H2]. split_and!; [done|done|]. intros i. simpl. unfold row_state. destruct H2 as [Hl _]. rewrite map_size_empty in Hl.
    apply nil_length_inv in Hl. by rewrite Hl. }
  clear H0. induction Hst as [|st1 st2 st3 Hstep _ IH]; [done|]. apply IH. destruct Hs as (live & R1 & R2 & R3). destruct Hstep as [o sample s D res s' Hp Hsa He].
  destruct (run_step sh new_state truthy D set_order Horder sample c threshold len limit Hbuf ltac:(simpl; lia) (bool_decide_eq_true_1 _) o Hsa live s R1 R3 Hp) as (res' & s'' & He' & reqs & live' & _ & _ & D1 & D2 & D3 & _).
  rewrite He in He'. injection He' as <- <-. by exists live'.
Qed.

(** C11: a worker never fails a step that fits. From its start, through any sequence of scheduler
    outputs that suit the requests it knows and any models, with synchronous scheduling on the
    last rank, every further such step returns and does what the scheduler planned. In between,
    the batch has the requests of the last step in consecutive rows; each row has the tokens,
    counts, blocks and drafts of its request, its sampling parameters as 32-bit floats, its bad
    words and its generator, and, when the batch is never reordered, the mask of the tokens that
    the request is restricted to, if it is; and the logits processors are in step with the
    rows. *)
Theorem worker_steps_safe s D o sample : buffers_ok sh c limit → rtc worker_step (runner_init b, ∅) (s, D) →
  (∃ live, runner_ok sh live s ∧ dense live (input_batch s) ∧ follows new_state live (input_batch s) D) ∧
  (planned sh len limit o (requests s) → sampler_ok (sh_vocab sh) sample o → ∃ res s', execute_step set_order sample c threshold len o s = (Ret res, s') ∧
    step_outcome sh new_state truthy D o s res s').
Proof.
  intros Hbuf Hr. destruct (worker_reachable_ok (s, D) Hbuf Hr) as (live & R1 & R2 & R3). split; [by exists live|]. intros Hp Hs.
  by apply (run_step sh new_state truthy D set_order Horder sample c threshold len limit Hbuf ltac:(simpl; lia) (bool_decide_eq_true_1 _) o Hs live).
Qed.
End runs.


(** ** Witnesses *)

(** Two requests at most, of sixteen tokens, with blocks of four tokens that the kernel splits. *)
Definition no_sampling : RowSampling := mkRowSampling (float_of_Z 0) (float_of_Z 0) 0 (float_of_Z 0) (float_of_Z 0) (float_of_Z 0) 0.
Definition sample_batch : InputBatch :=
  match ib_init (mkRanks 1 0 1 0 1) 2 16 8 100 [4] 0 None (Some [[2]]) (λ _, no_sampling) with
  | Ret b => b
  | Raise _ => mkInputBatch 0 0 [] ∅ [] [] [] [] no_kinds builder_init None
  end.
Definition sample_config : RunnerConfig := mkRunnerConfig 2 (arange 64) 1 None true false.
Definition sample_params : BatchSampling :=
  mkBatchSampling (float_of_Z 1) (float_of_Z 1) 0 (float_of_Z 0) (float_of_Z 0) (float_of_Z 1) None None None None (float_of_Z 0) (Some [(3, float_of_Z 2)]) 0 [] None.
(** A prompt, and a request with one token to compute. *)
Definition sample_new : list NewReq :=
  [mkNewReq "req-0" [10; 11; 12; 13; 14] (Some sample_params) [[5; 1]] 0; mkNewReq "req-1" [20; 21; 22; 23; 24] (Some sample_params) [[2; 3]] 4].
Definition sample_output : StepOutput := mkStepOutput sample_new (mkCachedReqs [] ∅ [] ∅ [] [] []) (<["req-0" := 5]> {["req-1" := 1]}) ∅ ∅.
(** A model that always says seven. *)
Definition sample_model (r : StepInputs) : nat * list (list Z) := (1%nat, replicate (pred (length (si_query_start_loc r))) [7]).
Abbreviation sample_shape := (init_shape false 16 sample_batch).
Abbreviation is_bias := (λ l : list (Z * SpecFloat.spec_float), match l with [] => false | _ => true end).

Lemma sample_init : ib_init (mkRanks 1 0 1 0 1) 2 16 8 100 [4] 0 None (Some [[2]]) (λ _, no_sampling) = Ret sample_batch.
Proof. reflexivity. Qed.
Lemma sample_width i bs m : [4] !! i = Some bs → default (replicate (length [4]) (Z.of_nat 16)) None !! i = Some m → 0 ≤ m ∧ m * bs < 2 ^ 31.
Proof. destruct i as [|i]; [|done]. intros [= <-] [= <-]. lia. Qed.
Lemma sample_buffers : buffers_ok sample_shape sample_config 8.
Proof.
  split; [exists 64%nat; split_and!; [done|lia|simpl; lia]|simpl; lia|]. vm_compute. repeat constructor; [|done]. by exists [].
Qed.
Lemma sample_model_ok o : sampler_ok 100 sample_model o.
Proof.
  intros live b ns r Hl [_ _ _ Hs _ _ _ _]. unfold sample_model. rewrite Hs. cbn [fst snd length pred]. assert (length (np_cumsum ns) = length ns) as -> by apply length_cumsum.
  rewrite length_replicate. split; [done|]. intros i id ids _. unfold valid_sampled_token_ids. rewrite decide_True by done. rewrite list_lookup_imap.
  destruct (replicate _ _ !! i) as [row|] eqn:Hr; [|done]. apply lookup_replicate in Hr as [-> _]. simpl. case_decide; intros [= <-]; simpl; lia.
Qed.
Lemma sample_runner_ok : runner_ok sample_shape ∅ (runner_init sample_batch) ∧ dense ∅ sample_batch.
Proof.
  apply (runner_init_ok (mkRanks 1 0 1 0 1) 2 16 8 100 [4] 0 None (Some [[2]]) (λ _, no_sampling)); simpl; try lia; [done|by repeat constructor|].
  exact sample_width.
Qed.
Lemma sample_fits d : d ∈ sample_new → state_fits sample_shape sample_output (nr_req_id d) (new_state_of d).
Proof.
  intros [->|[->|?%elem_of_nil]%elem_of_cons]%elem_of_cons; [..|done]; (split; [|vm_compute; lia]); (split; [done|vm_compute; lia|]); (constructor; [|constructor]);
    (split; [|vm_compute; lia]); unfold logical_fits;
    [change (to_logical_blocks _ _) with [10; 11; 2; 3]|change (to_logical_blocks _ _) with [4; 5; 6; 7]]; repeat (constructor; [lia|]); constructor.
Qed.
Lemma sample_scheduled id n : so_num_scheduled_tokens sample_output !! id = Some n → (id = "req-0"%string ∧ n = 5) ∨ (id = "req-1"%string ∧ n = 1).
Proof.
  simpl. destruct (decide (id = "req-0"%string)) as [->|H0]; [rewrite lookup_insert_eq; intros [= <-]; by left|]. rewrite lookup_insert_ne by done.
  destruct (decide (id = "req-1"%string)) as [->|H1]; [rewrite lookup_singleton_eq; intros [= <-]; by right|]. by rewrite lookup_singleton_ne.
Qed.
Lemma sample_output_ok : output_ok sample_shape ∅ sample_output.
Proof.
  split; simpl; try done; try (by intros ? ?%elem_of_nil).
  - vm_compute. repeat constructor; rewrite ?elem_of_cons, ?elem_of_nil; naive_solver.
  - intros id. split; [intros [n Hn]; destruct (sample_scheduled id n Hn) as [[-> _]|[-> _]]; left; set_solver|]. intros [Hx|Hx%elem_of_nil]; [|done].
    apply elem_of_cons in Hx as [->|Hx]; [done|]. apply list_elem_of_singleton in Hx as ->. done.
  - exact sample_fits.
Qed.
Lemma sample_slots : bt_phys_size <$> (sh_tables sample_shape : list BlockTable) = [4].
Proof. reflexivity. Qed.
Lemma sample_entry_slots d n : nr_block_ids d = [[5; 1]] ∨ nr_block_ids d = [[2; 3]] → nr_num_computed_tokens d + n ≤ 8 → entry_slots sample_shape (new_state_of d, Written []) n.
Proof.
  intros Hd Hn g t Hg p [Hp0 Hp1]. simpl in Hp1. pose proof (f_equal (λ l, l !! g) sample_slots) as Ht. rewrite list_lookup_fmap, Hg in Ht.
  assert (g = 0%nat ∧ bt_phys_size t = 4) as [-> ->] by (clear -Ht; destruct g as [|g]; [|discriminate Ht]; injection Ht as ->; by split).
  assert (p / 4 = 0 ∨ p / 4 = 1) as Hq by (assert (p / 4 < 2) by (apply Z.div_lt_upper_bound; lia); pose proof (Z.div_pos p 4); lia).
  simpl. destruct Hd as [-> | ->], Hq as [-> | ->]; (do 2 eexists; split_and!; [reflexivity|reflexivity|unfold slots_fit; lia]).
Qed.
Lemma sample_planned : planned sample_shape 16 8 sample_output ∅.
Proof.
  split; [apply sample_output_ok|]. intros reqs [N1 _ _].
  assert (∀ id e n, scheduled_entries sample_output reqs !! id = Some e → so_num_scheduled_tokens sample_output !! id = Some n →
    ∃ d, d ∈ sample_new ∧ e = (new_state_of d, Written []) ∧ nr_num_computed_tokens d + n = 5 ∧ 0 < n) as H.
  { intros id e n He Hn. unfold scheduled_entries in He. rewrite map_lookup_imap, Hn in He. simpl in He.
    destruct (sample_scheduled id n Hn) as [[-> ->]|[-> ->]];
      [pose proof (N1 _ (list_elem_of_here _ _)) as Hr|pose proof (N1 _ (list_elem_of_further _ _ _ (list_elem_of_here _ _))) as Hr]; cbn [nr_req_id] in Hr; rewrite Hr in He; injection He as <-;
      eexists; (split; [|split; [reflexivity|]]); [apply list_elem_of_here|simpl; lia|apply list_elem_of_further, list_elem_of_here|simpl; lia]. }
  assert (∀ d, d ∈ sample_new → 0 ≤ nr_num_computed_tokens d ∧ length (nr_prompt_token_ids d) = 5%nat ∧ (nr_block_ids d = [[5; 1]] ∨ nr_block_ids d = [[2; 3]])) as Hd.
  { intros d [->|[->|?%elem_of_nil]%elem_of_cons]%elem_of_cons; simpl; [split_and!; [lia|done|by left]|split_and!; [lia|done|by right]|done]. }
  split; [split|].
  - intros id e n He Hn. destruct (H id e n He Hn) as (d & Hin & -> & Hsum & Hpos). destruct (Hd d Hin) as (D1 & D2 & D3). split_and!.
    + split; [done|done|]. unfold entry_tokens. simpl. rewrite app_nil_r. lia.
    + split; [done|done|]. intros Hx. exfalso. apply Hx. reflexivity.
    + apply sample_entry_slots; [done|lia].
  - intros id [? ?]. done.
  - vm_compute. done.
  - intros id e n He Hn. destruct (H id e n He Hn) as (d & Hin & -> & Hsum & Hpos). simpl. lia.
Qed.

(** The step: the decode comes first, the five tokens of the prompt go to the blocks 5 and 1,
    and the model's seven follows both. *)
Lemma worker_step_exact_witness : ∃ res s', execute_step elements sample_model sample_config (Some 1) 16 sample_output (runner_init sample_batch) = (Ret res, s') ∧
  step_outcome sample_shape bias_state is_bias ∅ sample_output (runner_init sample_batch) res s' ∧
  si_input_ids <$> sr_inputs res = Some [24; 10; 11; 12; 13; 14] ∧ (λ t, take 6 (bt_slot_mapping t)) <$> block_table (input_batch s') = [[12; 20; 21; 22; 23; 4]] ∧
  st_output_token_ids <$> requests s' !! "req-0"%string = Some [7] ∧ st_output_token_ids <$> requests s' !! "req-1"%string = Some [7].
Proof.
  destruct sample_runner_ok as [H1 H2].
  destruct (worker_step_exact sample_shape bias_state is_bias ∅ elements (λ X, reflexivity _) sample_model sample_config (Some 1) 16 8 sample_output ∅ (runner_init sample_batch))
    as (res & s' & Hrun & Hdone); [apply sample_buffers|discriminate|simpl; lia|apply sample_model_ok|exact H1|by intros i|apply sample_planned|].
  exists res, s'. split; [exact Hrun|]. split; [exact Hdone|]. vm_compute in Hrun. injection Hrun as <- <-. done.
Defined.

Lemma worker_steps_safe_witness : ∃ res s', execute_step elements sample_model sample_config (Some 1) 16 sample_output (runner_init sample_batch) = (Ret res, s') ∧
  step_outcome sample_shape bias_state is_bias ∅ sample_output (runner_init sample_batch) res s'.
Proof.
  apply (worker_steps_safe (mkRanks 1 0 1 0 1) 2 16 8 100 [4] 0 None (Some [[2]]) (λ _, no_sampling) sample_batch sample_init ltac:(lia) ltac:(simpl; lia) ltac:(simpl; lia)
    ltac:(by repeat constructor) sample_width bias_state is_bias elements (λ X, reflexivity _) sample_config (Some 1) 8 (runner_init sample_batch) ∅ sample_output sample_model);
    [apply sample_buffers|apply rtc_refl|apply sample_planned|apply sample_model_ok].
Defined.

(** The runner after the step without reordering. *)
Definition sample_runner : Runner := (execute_step elements sample_model sample_config None 16 sample_output (runner_init sample_batch)).2.
Lemma sample_runner_reached : ∃ live, runner_ok sample_shape live sample_runner ∧ dense live (input_batch sample_runner) ∧
  ∀ id, is_Some (live !! id) → is_Some (so_num_scheduled_tokens sample_output !! id).
Proof.
  destruct sample_runner_ok as [H1 H2].
  destruct (run_step sample_shape bias_state is_bias ∅ elements (λ X, reflexivity _) sample_model sample_config None 16 8 sample_buffers ltac:(simpl; lia) ltac:(done) sample_output (sample_model_ok _)
    ∅ (runner_init sample_batch) H1 ltac:(by intros i) sample_planned) as (res & s' & Hrun & reqs & live & _ & [_ A2 _] & R1 & R2 & _ & _).
  unfold sample_runner. rewrite Hrun. exists live. split_and!; [done|done|]. intros id Hid. by apply A2, scheduled_entries_lookup in Hid.
Qed.

(** ** A mask that stays behind *)

(** [condense] copies the mask of allowed tokens down and leaves it in the row that becomes free,
    and a request without allowed tokens that gets this row does not reset it. *)
Definition mask_req (id : string) (allowed : option (list Z)) : CachedRequestState :=
  mkCachedState id [10] (Some (mkBatchSampling (float_of_Z 1) (float_of_Z 1) 0 (float_of_Z 0) (float_of_Z 0) (float_of_Z 1) None None allowed None (float_of_Z 0) None 0 [] None))
    None [[1]] 0 [] 0.
Definition mask_steps : M InputBatch unit :=
  ib_add_request (mask_req "req-a" None) ;; ib_add_request (mask_req "req-b" (Some [3])) ;; refresh_metadata ;;
  ib_remove_request "req-a" ;; condense ;; refresh_metadata ;;
  ib_add_request (mask_req "req-c" None) ;; mret tt.
Theorem stale_allowed_mask : ∃ b, mask_steps sample_batch = (Ret tt, b) ∧ req_ids b = [Some "req-b"; Some "req-c"]%string ∧
  has_allowed_token_ids (kinds b) = {["req-b"%string]} ∧ allowed_token_ids_mask <$> rows b = [Some [3]; Some [3]].
Proof. eexists. split; [vm_compute; reflexivity|]. by vm_compute. Qed.

(** ** A mask that is in two rows *)

(** [swap_states] exchanges the masks of two rows by assigning views to each other: afterwards
    both rows have the mask of the second. The request that was first gets the mask of the
    other, and its own is lost. *)
Theorem swap_shares_mask : ∃ b, (ib_add_request (mask_req "req-a" (Some [3])) ;; ib_add_request (mask_req "req-b" (Some [5])) ;; swap_states 0 1) sample_batch = (Ret tt, b) ∧
  req_ids b = [Some "req-b"; Some "req-a"]%string ∧ allowed_token_ids_mask <$> rows b = [Some [5]; Some [5]].
Proof. eexists. split; [vm_compute; reflexivity|]. by vm_compute. Qed.
